(* ===== verification/_CoqProject ===== *)
-Q . S2P
Prelude.v
RustStd.v
Isa.v
Token.v
Error.v
Crc.v
VmState.v
VmExec.v
Vm.v
VmRun.v
VmSafety.v
VmProps.v
Binary.v
Lexer.v
LexerProps.v
Editor.v
EditorProps.v
EditorSession.v
RustStr.v
LexerSpec.v
Vfs.v
ExportDisk.v
Fs.v
FsPath.v
FsTable.v
FsProps.v
FsLaws.v
FsClient.v
Crypto.v
CryptoAes.v
CryptoGcm.v
Ring.v
Tsc.v
Latency.v
Nic.v
Gpu.v
Net.v
NetPacket.v
Pipeline.v
CompErrors.v
Compiler.v
CompDecl.v
CompExpr.v
CompStmt.v
CompLogic.v
CompPrim.v
CompDeclSpec.v
CompExprSpec.v
CompLevelSpec.v
CompStmtSpec.v
CompMatchSpec.v
CompTotal.v
Toolchain.v
Programs.v
Fmt.v
FmtProps.v
Include.v
IncludeSpec.v
Json.v
Ir.v
IrProps.v
KernelVm.v
KernelSim.v
LegacyVm.v
Kernel.v
Ata.v
Fat16.v
Fat16Props.v
Fat16Files.v
FsExport.v
Disasm.v
DisasmProps.v
DisasmRun.v
KernelDisasm.v
LspJson.v
LspJsonProps.v
Lsp.v
LspProps.v
LspTotal.v
