(* ===== verification/Prelude.v ===== *)
(** LatencyOS: a verification library.

    LatencyOS is a bare-metal kernel that captures frames, encrypts them and
    sends them, with a small interactive system around it: an in-memory file
    system, an editor, and the PulseLang language, compiled to px64 bytecode
    that a virtual machine runs. The library translates the Rust sources into
    Rocq functions and proves what makes each part correct.

    ** Conventions

    Integers of w bits are [Z] with the wrap-around written out; bytes are [Z]
    in [0, 256); slices, arrays and strings are [list Z] (length [len], lookup
    [getZ], update [setZ], of RustStd.v). A function that can fail or panic
    returns an [outcome] (this file): [Ok], [Err], or [Panic] for an index out of
    bounds, a slice out of range or a checked overflow. State is threaded
    explicitly. Loops are structural recursions, recursions with a fuel that is a
    bound the source gives (a buffer's length, a table's size), or step functions
    iterated; where fuel is an argument a theorem says that enough of it gives a
    result. Debug and release builds differ on overflow: [oc] is the flag.
    What lies outside the sources (devices, the time-stamp counter, the keyboard)
    is an argument.

    ** The language and its machine (src/pulselang-core/src)

    - Isa.v: isa.rs. Opcodes, limits, value tags, name tables.
    - Token.v, Error.v: token.rs, error.rs. Tokens, locations, diagnostics.
    - Lexer.v, LexerProps.v, LexerSpec.v: lexer.rs. What a token is, in tables of the
      spellings and the rule of the longest match; [tokenize] is total and its
      tokens tile the source; the integers the machine prints lex back.
    - Crc.v: the CRC-32 of vm.rs. The table agrees with the bit-serial definition
      and any change of a byte changes the checksum.
    - VmState.v, VmExec.v, Vm.v: vm.rs. The state of [PulsePx64VM]; then one
      definition per group of opcodes; then fetch, decode and dispatch, [step].
      A program, its string pool and constants, and the host ([VmIO]) are
      arguments of a step.
    - VmRun.v, VmSafety.v, VmProps.v: the run loop terminates within the step
      limit ([run_terminates]; the fuel is the limit of isa.rs plus one); a
      program that passes the checks of [prog_ok] never panics; calls return with
      the registers they saved; arrays refine finite maps.
    - Binary.v: the container, written at the end of lib.rs and loaded by vm.rs.
      What is written loads back; the loader is total on any bytes.
    - Disasm.v: disasm.rs, on any writer. DisasmProps.v, DisasmRun.v: when there is
      a listing, and that it contains the program: its hexadecimal columns read
      back as a code that runs alike.

    ** The compiler (src/pulselang-core/src/compiler.rs and lib.rs)

    - CompErrors.v: the diagnostics the compiler builds. Compiler.v: the state of
      [Compiler], a monad of state and errors [comp], symbols, registers, emission
      of instructions. CompDecl.v, CompExpr.v, CompStmt.v: declarations and types,
      the expression levels, the statements. The parser is one mutual recursion;
      the definitions of a level take the levels above as an argument, and [tie]
      bounds the depth of the calls.
    - CompLogic.v: a weakest-precondition logic for [comp] in which a run consumes
      tokens, keeps the state well formed and never runs out of depth. CompPrim.v,
      CompDeclSpec.v, CompExprSpec.v, CompLevelSpec.v, CompStmtSpec.v and
      CompMatchSpec.v prove a specification for each group of methods.
    - CompTotal.v: the compiler is total: nine calls per token, plus nine, are
      depth enough for any token list; it returns a program or a diagnostic, and
      its program is one the machine's safety theorem accepts.
    - Toolchain.v: the entry points of lib.rs: compile, check, statistics, write a
      binary, run the tests of a file. Programs.v: whole programs compiled and run
      inside the kernel, with the ones that compute something else than they say.

    ** The tools around the language (src/pulselang-core/src)

    - Fmt.v, FmtProps.v: fmt.rs. The formatter's line tokenizer, spacing and layout;
      a line of ASCII code whose tokens stay apart when blanks are dropped is read as
      the same tokens after formatting and formats to itself; only blanks change;
      the inputs on which it breaks a program.
    - Include.v, IncludeSpec.v: include.rs, with the resolver as a parameter. ASCII
      files that include each other without cycle expand to the text in which every
      directive is replaced, as a relation that does not mention the scanner
      defines it; in any other case the three diagnostics. Other bytes are
      re-encoded one by one.
    - Json.v: values, their text and a parser, a specification. Ir.v, IrProps.v:
      ir.rs. The intent IR of a source, its JSON text, which reads back, its
      consistency, the semantic diff and the queries. The loops of Fmt.v, Include.v
      and Ir.v take as fuel the length of what they read, which lemmas beside them
      show to be enough.
    - LspJson.v, LspJsonProps.v: the JSON of lsp.rs ([f64] is the class [Float64]);
      what Json.v prints it reads back. Lsp.v: lsp.rs and the loop of
      pulc-lsp/src/main.rs. LspProps.v: a session of requests gets its answers,
      and the semantic tokens decode. LspTotal.v: the server ends on any input.
      The fuel of a parse, of the headers and of the loop is the length of the
      input plus one, which is enough.

    ** The language in the kernel (src/kernel/src/lang.rs)

    - KernelVm.v: the kernel's copy of the register machine, with its watchdog on
      the time-stamp counter and its natives on the frame slots, the rings and the
      network of Pipeline.v. The record [env] is what the clock, the display and
      the other cores contribute. KernelSim.v: every run ends ([LOOP_FUEL] is the
      limit of isa.rs plus one), and a portable run is a run of vm.rs.
    - LegacyVm.v: the stack machine for the old container. Kernel.v: the entry
      points, from source or from a container; what the compiler writes the
      kernel runs; programs on which the two machines differ.
    - KernelDisasm.v: the [disasm] command of shell.rs, and where it prints what
      disasm.rs prints.

    ** Files and the editor (src/kernel/src)

    - RustStr.v: UTF-8 validation and trimming, as the path code uses them.
    - Vfs.v: vfs.rs, the virtual files on the video memory.
    - ExportDisk.v: the 8.3 names of export_disk.rs, and [SyncDisk], the interface
      of its two write-through calls. Ata.v: its driver on the ports of an IDE
      channel, and [SectorDevice], the interface above it, whose laws the driver
      satisfies on a model of a drive. Fat16.v: the FAT16 volume. Fat16Props.v and
      Fat16Files.v: chains and directory; files are stored, read back and kept
      apart. The fuel of a read is its length, that of a deletion the number of
      clusters; both are shown to be enough.
    - Fs.v: fs.rs, the whole of LatencyFS on its table of 128 entries. FsPath.v:
      the buffer code of [fs_normalize_path] is a stack of path components.
      FsTable.v, FsProps.v: the invariant of the table, its abstraction to a
      finite map from paths to nodes, and the refinement of every operation.
      FsLaws.v: sessions of operations. FsClient.v: the editor on LatencyFS.
      FsExport.v: LatencyFS on the export disk: a file that can be exported is on the
      volume or was refused, with every stored file kept; and where the disk is not
      a store.
    - Editor.v, EditorProps.v, EditorSession.v: editor.rs. The edit buffer is a
      text with a cursor; the key automaton never indexes out of bounds; what is
      saved reopens. The editor knows the file system only through the class
      [FileStore], whose instance for LatencyFS is in FsLaws.v.

    ** The frame pipeline (src/kernel/src)

    - Crypto.v: crypto.rs. CryptoAes.v: the block cipher against FIPS 197, with the
      one wrong entry of the S-box as a parameter of the comparison. CryptoGcm.v:
      counter mode and GHASH against SP 800-38D.
    - Ring.v: ring_buffer.rs. The steps of a producer and a consumer on shared
      memory linearise to a bounded queue, without races and without waiting.
    - Tsc.v, Latency.v: tsc.rs, latency.rs. Conversions with their bounds; the
      statistics of the pipeline's stages on a sorted copy of the samples.
    - Nic.v: e1000.rs. Gpu.v: gpu.rs. Net.v, NetPacket.v: net.rs, from a frame to
      the encrypted packets a receiver accepts and back to the frame, and the
      congestion controller. Net.v knows the adapter through [PacketSink].
    - Pipeline.v: the turns of the cores' loops in smp.rs, on the frame pool and
      the two rings, from the state main.rs starts them in (a test frame is already
      queued), with the turns in which scripts and the shell on the control core
      use the pool, the adapter and the rate: frames leave in the order they were
      captured. The shell's benchmark pushes and pops the first ring from the
      control core; it is a turn too, and the order is lost with it.

    ** Not modelled

    [InspectReport::to_text] of ir.rs (it formats a float); the crates pulc,
    xtask and runner (files, terminals and external processes around the
    library); the command lines of shell.rs, except [cd], [disasm] and what
    [benchmark] does to the frame pipeline; the diagnostics and the benchmark of
    lang.rs; the boot code but for the frame it queues and sends (Pipeline.v),
    serial.rs, apic.rs, pci.rs and cstate.rs, which write device registers and keep
    no state. Messages printed on a console are left out elsewhere: a report is the
    values it shows. Memory is sequentially consistent, and [unsafe] accesses to
    static data are accesses to the state they name.

    ** What is left

    The theorems on the compiler bound and type what it emits; the meaning of
    the expressions it compiles is checked on whole programs (Programs.v) and
    not proved in general. *)

From Stdlib Require Export ZArith Lia.
From stdpp Require Export base tactics option list strings numbers sets.

#[global] Set Warnings "-notation-overridden,-ambiguous-paths".
#[export] Set Default Goal Selector "!".
Local Open Scope Z_scope.

(** * Outcomes of Rust code

    A Rust function that returns [Result<A, E>] either returns [Ok], returns
    [Err], or panics (an index out of bounds, a slice out of range, an
    arithmetic overflow the build checks). *)

Variant panic_kind : Set :=
| IndexOutOfBounds
| SliceOutOfRange
| ArithmeticOverflow.

Inductive outcome (E A : Type) : Type :=
| Ok (a : A)
| Err (e : E)
| Panic (p : panic_kind).
Arguments Ok {_ _} _.
Arguments Err {_ _} _.
Arguments Panic {_ _} _.

#[export] Instance panic_kind_eq_dec : EqDecision panic_kind.
Proof. solve_decision. Defined.

#[export] Instance outcome_eq_dec {E A} `{EqDecision E, EqDecision A} :
  EqDecision (outcome E A).
Proof. solve_decision. Defined.

#[export] Instance outcome_ret {E} : MRet (outcome E) := fun A a => Ok a.

#[export] Instance outcome_bind {E} : MBind (outcome E) := fun A B f m =>
  match m with
  | Ok a => f a
  | Err e => Err e
  | Panic p => Panic p
  end.

#[export] Instance outcome_fmap {E} : FMap (outcome E) := fun A B f m =>
  match m with
  | Ok a => Ok (f a)
  | Err e => Err e
  | Panic p => Panic p
  end.

Definition is_ok {E A} (o : outcome E A) : bool :=
  match o with Ok _ => true | _ => false end.

Definition is_panic {E A} (o : outcome E A) : bool :=
  match o with Panic _ => true | _ => false end.

Lemma bind_Ok {E A B} (m : outcome E A) (f : A -> outcome E B) b :
  m ≫= f = Ok b <-> exists a, m = Ok a /\ f a = Ok b.
Proof. destruct m; simpl; naive_solver. Qed.

Lemma ret_Ok {E A} (a b : A) : (mret a : outcome E A) = Ok b -> a = b.
Proof. unfold mret, outcome_ret. congruence. Qed.

Lemma bind_Panic {E A B} (m : outcome E A) (f : A -> outcome E B) p :
  m ≫= f = Panic p <-> m = Panic p \/ exists a, m = Ok a /\ f a = Panic p.
Proof. destruct m; simpl; naive_solver. Qed.

Lemma bind_Err {E A B} (m : outcome E A) (f : A -> outcome E B) e :
  m ≫= f = Err e <-> m = Err e \/ exists a, m = Ok a /\ f a = Err e.
Proof. destruct m; simpl; naive_solver. Qed.

(** * Indexing by machine integers

    Arrays and slices are lists; a [usize] or a register index is a [Z]. *)

Definition len {A} (l : list A) : Z := Z.of_nat (length l).

Definition getZ {A} (l : list A) (i : Z) : option A :=
  if decide (0 <= i) then l !! Z.to_nat i else None.

(** [l[i]]: panics out of bounds. *)
Definition idx {E A} (l : list A) (i : Z) : outcome E A :=
  match getZ l i with
  | Some x => Ok x
  | None => Panic IndexOutOfBounds
  end.

Definition setZ {A} (l : list A) (i : Z) (x : A) : list A :=
  if decide (0 <= i) then <[Z.to_nat i := x]> l else l.

(** [l[i] = x]: panics out of bounds. *)
Definition upd {E A} (l : list A) (i : Z) (x : A) : outcome E (list A) :=
  if decide (0 <= i < len l) then Ok (setZ l i x) else Panic IndexOutOfBounds.

(** [&l[i..j]] once it is known to be in range. *)
Definition sub {A} (l : list A) (i j : Z) : list A :=
  take (Z.to_nat (j - i)) (drop (Z.to_nat i) l).

(** [&l[i..j]]: panics when [i > j] or [j > l.len()]. *)
Definition slice {E A} (l : list A) (i j : Z) : outcome E (list A) :=
  if decide (0 <= i <= j /\ j <= len l) then Ok (sub l i j)
  else Panic SliceOutOfRange.

(** [l[i..i + s.len()].copy_from_slice(s)] once it is known to be in range. *)
Definition splice {A} (l : list A) (i : Z) (s : list A) : list A :=
  take (Z.to_nat i) l ++ s ++ drop (Z.to_nat i + length s) l.

(** [l[i..i + s.len()].copy_from_slice(s)]: panics out of range. *)
Definition blit {E A} (l : list A) (i : Z) (s : list A) : outcome E (list A) :=
  if decide (0 <= i /\ i + len s <= len l) then Ok (splice l i s)
  else Panic SliceOutOfRange.

Arguments len : simpl never.
Arguments getZ : simpl never.
Arguments setZ : simpl never.
Arguments idx : simpl never.
Arguments upd : simpl never.
Arguments sub : simpl never.
Arguments slice : simpl never.
Arguments splice : simpl never.
Arguments blit : simpl never.

Lemma len_nonneg {A} (l : list A) : 0 <= len l.
Proof. unfold len. lia. Qed.

Lemma len_app {A} (l k : list A) : len (l ++ k) = len l + len k.
Proof. unfold len. rewrite length_app. lia. Qed.

Lemma len_cons {A} (x : A) l : len (x :: l) = 1 + len l.
Proof. unfold len. simpl. lia. Qed.

Lemma len_nil {A} : len (@nil A) = 0.
Proof. reflexivity. Qed.

Lemma len_replicate {A} n (x : A) : len (replicate n x) = Z.of_nat n.
Proof. unfold len. by rewrite length_replicate. Qed.

Lemma len_setZ {A} (l : list A) i x : len (setZ l i x) = len l.
Proof. unfold len, setZ. case_decide; [by rewrite length_insert | done]. Qed.

Lemma len_splice {A} (l s : list A) i :
  0 <= i -> i + len s <= len l -> len (splice l i s) = len l.
Proof.
  unfold len, splice. intros. rewrite !length_app, length_take, length_drop. lia.
Qed.

Lemma len_sub {A} (l : list A) i j :
  0 <= i <= j -> j <= len l -> len (sub l i j) = j - i.
Proof. unfold len, sub. intros. rewrite length_take, length_drop. lia. Qed.

Lemma getZ_Some_lt {A} (l : list A) i x : getZ l i = Some x -> 0 <= i < len l.
Proof.
  unfold getZ, len. case_decide; [|done].
  intros H1%lookup_lt_Some. lia.
Qed.

Lemma getZ_lt_Some {A} (l : list A) i :
  0 <= i < len l -> exists x, getZ l i = Some x.
Proof.
  unfold getZ, len. intros [H1 H2]. rewrite decide_True by done.
  apply lookup_lt_is_Some. lia.
Qed.

Lemma getZ_None {A} (l : list A) i : getZ l i = None <-> i < 0 \/ len l <= i.
Proof.
  unfold getZ, len. case_decide; [|split; [lia | done]].
  rewrite lookup_ge_None. lia.
Qed.

Lemma getZ_setZ_eq {A} (l : list A) i x :
  0 <= i < len l -> getZ (setZ l i x) i = Some x.
Proof.
  unfold getZ, setZ, len. intros [H1 H2]. rewrite !decide_True by done.
  apply list_lookup_insert_eq. lia.
Qed.

Lemma getZ_setZ_ne {A} (l : list A) i j x :
  i <> j -> getZ (setZ l i x) j = getZ l j.
Proof.
  unfold getZ, setZ. intros H. repeat case_decide; try done.
  apply list_lookup_insert_ne. lia.
Qed.

Lemma idx_Ok {E A} (l : list A) i x : @idx E A l i = Ok x <-> getZ l i = Some x.
Proof. unfold idx. destruct (getZ l i); naive_solver. Qed.

Lemma idx_in_range {E A} (l : list A) i :
  0 <= i < len l -> exists x, @idx E A l i = Ok x /\ getZ l i = Some x.
Proof. intros [x Hx]%getZ_lt_Some. exists x. by rewrite idx_Ok. Qed.

Lemma idx_no_Err {E A} (l : list A) i e : @idx E A l i <> Err e.
Proof. unfold idx. by destruct (getZ l i). Qed.

Lemma idx_Panic {E A} (l : list A) i p :
  @idx E A l i = Panic p -> i < 0 \/ len l <= i.
Proof. unfold idx. destruct (getZ l i) eqn:Hg; [done|]. by intros _; apply getZ_None. Qed.

Lemma upd_Ok {E A} (l : list A) i x l' :
  @upd E A l i x = Ok l' <-> 0 <= i < len l /\ l' = setZ l i x.
Proof. unfold upd. case_decide; naive_solver. Qed.

Lemma upd_in_range {E A} (l : list A) i x :
  0 <= i < len l -> @upd E A l i x = Ok (setZ l i x).
Proof. intros. unfold upd. by rewrite decide_True. Qed.

Lemma blit_in_range {E A} (l s : list A) i :
  0 <= i -> i + len s <= len l -> @blit E A l i s = Ok (splice l i s).
Proof. intros. unfold blit. by rewrite decide_True. Qed.

Lemma slice_in_range {E A} (l : list A) i j :
  0 <= i <= j -> j <= len l -> @slice E A l i j = Ok (sub l i j).
Proof. intros. unfold slice. by rewrite decide_True. Qed.

Lemma setZ_splice {A} (l : list A) n x : 0 <= n < len l -> setZ l n x = splice l n [x].
Proof.
  intros Hn. unfold setZ, splice, len in *. rewrite decide_True by lia.
  rewrite insert_take_drop by lia. simpl. by rewrite Nat.add_1_r.
Qed.

Lemma upd_Panic {E A} (l : list A) i x p :
  @upd E A l i x = Panic p -> i < 0 \/ len l <= i.
Proof. unfold upd. case_decide; [done | lia]. Qed.

Lemma Forall_getZ {A} (P : A -> Prop) l i x : Forall P l -> getZ l i = Some x -> P x.
Proof.
  unfold getZ. case_decide; [|done]. intros Hf Hl.
  by eapply Forall_lookup_1.
Qed.

Lemma Forall_setZ {A} (P : A -> Prop) l i x : Forall P l -> P x -> Forall P (setZ l i x).
Proof. unfold setZ. intros. case_decide; [by apply Forall_insert | done]. Qed.

Lemma Forall_splice {A} (P : A -> Prop) l i s :
  Forall P l -> Forall P s -> Forall P (splice l i s).
Proof.
  intros. unfold splice. rewrite !Forall_app. eauto using Forall_take, Forall_drop.
Qed.

Lemma blit_Ok {E A} (l s l' : list A) i :
  @blit E A l i s = Ok l' <-> 0 <= i /\ i + len s <= len l /\ l' = splice l i s.
Proof. unfold blit. case_decide; naive_solver. Qed.

Lemma slice_Ok {E A} (l : list A) i j l' :
  @slice E A l i j = Ok l' <-> (0 <= i <= j /\ j <= len l) /\ l' = sub l i j.
Proof. unfold slice. case_decide; naive_solver. Qed.

Lemma Forall_sub {A} (P : A -> Prop) l i j : Forall P l -> Forall P (sub l i j).
Proof. intros. unfold sub. eauto using Forall_take, Forall_drop. Qed.

Lemma getZ_splice_in {A} (l s : list A) i k :
  0 <= i -> i + len s <= len l -> 0 <= k < len s -> getZ (splice l i s) (i + k) = getZ s k.
Proof.
  unfold len, getZ, splice. intros. rewrite !decide_True by lia.
  rewrite lookup_app_r by (rewrite length_take; lia).
  rewrite lookup_app_l by (rewrite length_take; lia).
  f_equal. rewrite length_take. lia.
Qed.

Lemma getZ_splice_out {A} (l s : list A) i k :
  0 <= i -> i + len s <= len l -> k < i \/ i + len s <= k -> getZ (splice l i s) k = getZ l k.
Proof.
  unfold len, getZ, splice. intros Hi Hs Hk. case_decide; [|done].
  destruct (decide (k < i)).
  - rewrite lookup_app_l by (rewrite length_take; lia). rewrite lookup_take. case_decide; [done|lia].
  - rewrite lookup_app_r by (rewrite length_take; lia).
    rewrite lookup_app_r by (rewrite length_take; lia).
    rewrite lookup_drop, length_take. f_equal. lia.
Qed.

Lemma getZ_sub {A} (l : list A) i j k :
  0 <= i -> 0 <= k < j - i -> getZ (sub l i j) k = getZ l (i + k).
Proof.
  unfold getZ, sub. intros. rewrite !decide_True by lia.
  rewrite lookup_take_lt by lia. rewrite lookup_drop. f_equal. lia.
Qed.

(** A range that was spliced in reads back whole. *)
Lemma sub_splice {A} (l s : list A) i :
  0 <= i -> i + len s <= len l -> sub (splice l i s) i (i + len s) = s.
Proof.
  unfold sub, splice, len. intros.
  replace (Z.to_nat (i + Z.of_nat (length s) - i)) with (length s) by lia.
  rewrite drop_app_ge by (rewrite length_take; lia). rewrite length_take.
  replace (Z.to_nat i - Z.to_nat i `min` length l)%nat with 0%nat by lia.
  rewrite drop_0. by rewrite take_app_length.
Qed.

Lemma sub_empty {A} (l : list A) b n : n <= 0 -> sub l b (b + n) = [].
Proof. intros. unfold sub. by replace (Z.to_nat (b + n - b)) with 0%nat by lia. Qed.

Lemma sub_setZ_in {A} (l : list A) b n i x :
  0 <= b -> b + n <= len l -> 0 <= i < n ->
  sub (setZ l (b + i) x) b (b + n) = setZ (sub l b (b + n)) i x.
Proof.
  intros. unfold sub, setZ, len in *. rewrite !decide_True by lia.
  rewrite drop_insert_ge, take_insert_lt by lia. f_equal. lia.
Qed.

Lemma sub_setZ_out {A} (l : list A) b n k x :
  0 <= b -> k < b \/ b + n <= k -> sub (setZ l k x) b (b + n) = sub l b (b + n).
Proof.
  intros Hb Hk. unfold sub, setZ. case_decide; [|done].
  destruct (decide (k < b)).
  - by rewrite drop_insert_lt by lia.
  - by rewrite drop_insert_ge, take_insert_ge by lia.
Qed.

Lemma getZ_app_l {A} (l k : list A) i : i < len l -> getZ (l ++ k) i = getZ l i.
Proof.
  unfold getZ, len. intros. case_decide; [|done]. by rewrite lookup_app_l by lia.
Qed.

Lemma getZ_app_r {A} (l k : list A) i : len l <= i -> getZ (l ++ k) i = getZ k (i - len l).
Proof.
  unfold getZ, len. intros. rewrite !decide_True by lia.
  rewrite lookup_app_r by lia. f_equal. lia.
Qed.

Lemma getZ_cons_0 {A} (x : A) l : getZ (x :: l) 0 = Some x.
Proof. done. Qed.

(** Induction for functions that look at two elements at a time. *)
Lemma list_ind_two {A} (P : list A -> Prop) :
  P [] -> (forall x l, P l -> (forall y k, l = y :: k -> P k) -> P (x :: l)) -> forall l, P l.
Proof.
  intros H0 Hc l. enough (P l /\ forall y k, l = y :: k -> P k) by tauto.
  induction l as [|x l [IH1 IH2]]; [done|]. split; [by apply Hc | by intros y k [= _ <-]].
Qed.

(** The number of leading elements that satisfy [p]. *)
Fixpoint count_while {A} (p : A -> bool) (l : list A) : Z :=
  match l with
  | b :: l => if p b then 1 + count_while p l else 0
  | [] => 0
  end.

Lemma count_while_bound {A} (p : A -> bool) l : 0 <= count_while p l <= len l.
Proof.
  induction l as [|b l IH]; simpl; [unfold len; simpl; lia|].
  rewrite len_cons. case_match; lia.
Qed.

(** Lists with the same length and the same elements in range are equal. *)
Lemma list_eq_getZ {A} (l k : list A) :
  len l = len k -> (forall i, 0 <= i < len l -> getZ l i = getZ k i) -> l = k.
Proof.
  intros Hl H. apply list_eq_same_length with (length l); [unfold len in Hl; lia | done |].
  intros i x y Hi Hx Hy. specialize (H (Z.of_nat i)). unfold getZ, len in H.
  rewrite !decide_True, !Nat2Z.id in H by lia. rewrite Hx, Hy in H.
  assert (Hi' : 0 <= Z.of_nat i < Z.of_nat (length l)) by lia. by injection (H Hi').
Qed.

Lemma sub_all {A} (l : list A) n : len l <= n -> sub l 0 n = l.
Proof. unfold sub, len. intros. simpl. apply take_ge. lia. Qed.

(** Ranges of two lists that agree up to an offset. *)
Lemma sub_shift {A} (l l' : list A) i j d :
  0 <= i <= j -> j <= len l -> 0 <= i + d -> j + d <= len l' ->
  (forall k, i <= k < j -> getZ l k = getZ l' (k + d)) -> sub l i j = sub l' (i + d) (j + d).
Proof.
  intros Hi Hj Hd Hl H. apply list_eq_getZ; rewrite !len_sub by lia; [lia|].
  intros k Hk. rewrite !getZ_sub by lia. rewrite H by lia. f_equal. lia.
Qed.

Lemma sub_ext {A} (l l' : list A) i j :
  0 <= i <= j -> j <= len l -> j <= len l' ->
  (forall k, i <= k < j -> getZ l k = getZ l' k) -> sub l i j = sub l' i j.
Proof.
  intros Hi Hj Hl H.
  rewrite (sub_shift l l' i j 0), !Z.add_0_r; try lia; [done|].
  intros k Hk. rewrite Z.add_0_r. by apply H.
Qed.

Lemma sub_sub {A} (l : list A) i j a b :
  0 <= i -> 0 <= a <= b -> i + b <= j -> sub (sub l i j) a b = sub l (i + a) (i + b).
Proof.
  unfold sub. intros. rewrite skipn_firstn_comm, take_take, drop_drop.
  f_equal; [lia|]. f_equal. lia.
Qed.

(** Adjacent ranges. *)
Lemma sub_app {A} (l : list A) i j k :
  0 <= i <= j -> j <= k -> sub l i j ++ sub l j k = sub l i k.
Proof.
  unfold sub. intros.
  replace (Z.to_nat (k - i)) with (Z.to_nat (j - i) + Z.to_nat (k - j))%nat by lia.
  rewrite <-take_take_drop, drop_drop. do 3 f_equal. lia.
Qed.

(** * Machine integers

    A [w]-bit integer is the [Z] it denotes; wrap-around is written out. *)

Definition wrapU (w z : Z) : Z := z mod 2 ^ w.
Definition wrapS (w z : Z) : Z := (z + 2 ^ (w - 1)) mod 2 ^ w - 2 ^ (w - 1).

Arguments wrapU : simpl never.
Arguments wrapS : simpl never.

Definition as_u8 (z : Z) : Z := wrapU 8 z.
Definition as_u16 (z : Z) : Z := wrapU 16 z.
Definition as_u32 (z : Z) : Z := wrapU 32 z.
Definition as_u64 (z : Z) : Z := wrapU 64 z.
Definition as_i32 (z : Z) : Z := wrapS 32 z.
Definition as_i64 (z : Z) : Z := wrapS 64 z.

Definition in_u8 (z : Z) : Prop := 0 <= z < 2 ^ 8.
Definition in_u16 (z : Z) : Prop := 0 <= z < 2 ^ 16.
Definition in_u32 (z : Z) : Prop := 0 <= z < 2 ^ 32.
Definition in_u64 (z : Z) : Prop := 0 <= z < 2 ^ 64.
Definition in_i64 (z : Z) : Prop := - 2 ^ 63 <= z < 2 ^ 63.

#[export] Instance in_u8_dec z : Decision (in_u8 z) := and_dec _ _.
#[export] Instance in_u16_dec z : Decision (in_u16 z) := and_dec _ _.
#[export] Instance in_u32_dec z : Decision (in_u32 z) := and_dec _ _.
#[export] Instance in_u64_dec z : Decision (in_u64 z) := and_dec _ _.
#[export] Instance in_i64_dec z : Decision (in_i64 z) := and_dec _ _.

Definition bytes_ok (l : list Z) : Prop := Forall in_u8 l.

Lemma wrapU_range w z : 0 <= w -> 0 <= wrapU w z < 2 ^ w.
Proof. intros. apply Z.mod_pos_bound. by apply Z.pow_pos_nonneg. Qed.

Lemma wrapU_small w z : 0 <= z < 2 ^ w -> wrapU w z = z.
Proof. apply Z.mod_small. Qed.

Lemma as_u8_range z : in_u8 (as_u8 z).
Proof. by apply wrapU_range. Qed.
Lemma as_u16_range z : in_u16 (as_u16 z).
Proof. by apply wrapU_range. Qed.
Lemma as_u32_range z : in_u32 (as_u32 z).
Proof. by apply wrapU_range. Qed.
Lemma as_u64_range z : in_u64 (as_u64 z).
Proof. by apply wrapU_range. Qed.

Lemma as_i64_range z : in_i64 (as_i64 z).
Proof.
  unfold in_i64, as_i64, wrapS.
  pose proof (Z.mod_pos_bound (z + 2 ^ (64 - 1)) (2 ^ 64) eq_refl) as H.
  change (2 ^ (64 - 1)) with (2 ^ 63) in *.
  change (2 ^ 64) with (2 * 2 ^ 63) in *. lia.
Qed.

Lemma as_i64_small z : in_i64 z -> as_i64 z = z.
Proof.
  unfold in_i64, as_i64, wrapS. intros H.
  change (2 ^ (64 - 1)) with (2 ^ 63). rewrite Z.mod_small; [lia|].
  change (2 ^ 64) with (2 * 2 ^ 63). lia.
Qed.

Lemma in_i64_shiftr z : in_i64 z <-> Z.shiftr z 63 = 0 \/ Z.shiftr z 63 = -1.
Proof.
  unfold in_i64. rewrite Z.shiftr_div_pow2 by lia.
  pose proof (Z.div_mod z (2 ^ 63) ltac:(done)) as E1.
  pose proof (Z.mod_pos_bound z (2 ^ 63) ltac:(done)) as E2.
  nia.
Qed.

Lemma in_i64_land a b : in_i64 a -> in_i64 b -> in_i64 (Z.land a b).
Proof.
  rewrite !in_i64_shiftr, Z.shiftr_land.
  intros [-> | ->] [-> | ->]; auto.
Qed.

Lemma in_i64_lor a b : in_i64 a -> in_i64 b -> in_i64 (Z.lor a b).
Proof.
  rewrite !in_i64_shiftr, Z.shiftr_lor.
  intros [-> | ->] [-> | ->]; auto.
Qed.

Lemma in_i64_lxor a b : in_i64 a -> in_i64 b -> in_i64 (Z.lxor a b).
Proof.
  rewrite !in_i64_shiftr, Z.shiftr_lxor.
  intros [-> | ->] [-> | ->]; auto.
Qed.

Lemma in_i64_lnot a : in_i64 a -> in_i64 (Z.lnot a).
Proof. unfold in_i64, Z.lnot. lia. Qed.

Lemma in_i64_shiftr_r a n : 0 <= n -> in_i64 a -> in_i64 (Z.shiftr a n).
Proof.
  intros Hn. unfold in_i64. rewrite Z.shiftr_div_pow2 by done.
  assert (0 < 2 ^ n) by (by apply Z.pow_pos_nonneg).
  intros [H1 H2]. split.
  - apply Z.div_le_lower_bound; [done|]. nia.
  - apply Z.div_lt_upper_bound; [done|]. nia.
Qed.

Lemma in_u64_i64_small z : 0 <= z < 2 ^ 63 -> in_i64 z.
Proof. unfold in_i64. lia. Qed.

(** Unsigned ranges as a shift, so that bitwise closure is a rewrite. *)
Lemma uw_shiftr w x : 0 <= w -> 0 <= x < 2 ^ w <-> Z.shiftr x w = 0.
Proof.
  intros Hw. rewrite Z.shiftr_div_pow2 by done.
  assert (0 < 2 ^ w) by (by apply Z.pow_pos_nonneg).
  pose proof (Z.div_mod x (2 ^ w) ltac:(lia)) as E1.
  pose proof (Z.mod_pos_bound x (2 ^ w) ltac:(lia)) as E2.
  split; [intros; apply Z.div_small; lia | nia].
Qed.

Lemma uw_lxor w a b :
  0 <= w -> 0 <= a < 2 ^ w -> 0 <= b < 2 ^ w -> 0 <= Z.lxor a b < 2 ^ w.
Proof. intros Hw. rewrite !uw_shiftr, Z.shiftr_lxor by done. by intros -> ->. Qed.

Lemma uw_lor w a b :
  0 <= w -> 0 <= a < 2 ^ w -> 0 <= b < 2 ^ w -> 0 <= Z.lor a b < 2 ^ w.
Proof. intros Hw. rewrite !uw_shiftr, Z.shiftr_lor by done. by intros -> ->. Qed.

Lemma uw_land w a b :
  0 <= w -> 0 <= a < 2 ^ w -> 0 <= Z.land a b < 2 ^ w.
Proof. intros Hw. rewrite !uw_shiftr, Z.shiftr_land by done. by intros ->. Qed.

Lemma uw_shiftr_r w a n :
  0 <= w -> 0 <= n -> 0 <= a < 2 ^ w -> 0 <= Z.shiftr a n < 2 ^ w.
Proof.
  intros Hw Hn. rewrite !uw_shiftr by done.
  rewrite Z.shiftr_shiftr, Z.add_comm, <-Z.shiftr_shiftr by done.
  intros ->. apply Z.shiftr_0_l.
Qed.

Lemma lxor_cancel_r a b c : Z.lxor a c = Z.lxor b c -> a = b.
Proof.
  intros H. apply (f_equal (fun x => Z.lxor x c)) in H.
  by rewrite !Z.lxor_assoc, !Z.lxor_nilpotent, !Z.lxor_0_r in H.
Qed.

Lemma lxor_cancel_l a b c : Z.lxor c a = Z.lxor c b -> a = b.
Proof. rewrite !(Z.lxor_comm c). apply lxor_cancel_r. Qed.

(** A decidable fact about a concrete value, by evaluation. *)
Ltac compute_fact := apply (bool_decide_unpack _); vm_compute; exact I.
