(* ===== verification/RustStd.v ===== *)
(** What the sources use of the Rust standard library, on byte lists: UTF-8
    validity ([core::str::from_utf8]), decimal formatting of integers, byte
    order conversions, fixed-width integer operations, and the [str] methods
    the filesystem and the lexer call. *)

From S2P Require Import Prelude.
Local Open Scope Z_scope.

(** * Strings as bytes *)

(** A Coq string literal as the bytes of the Rust literal. *)
Definition bytes (s : string) : list Z :=
  map (fun c => Z.of_N (Ascii.N_of_ascii c)) (String.list_ascii_of_string s).

Definition bytes_eqb (a b : list Z) : bool := bool_decide (a = b).

Definition in_range (lo b hi : Z) : bool := (lo <=? b) && (b <=? hi).

Definition is_cont (b : Z) : bool := in_range 0x80 b 0xBF.

(** [core::str::from_utf8(l).is_ok()]: well-formed UTF-8, no surrogates, no
    overlong forms, nothing above U+10FFFF. *)
Fixpoint utf8_valid (l : list Z) : bool :=
  match l with
  | [] => true
  | b0 :: l1 =>
    if in_range 0 b0 0x7F then utf8_valid l1
    else if in_range 0xC2 b0 0xDF then
      match l1 with
      | b1 :: l2 => is_cont b1 && utf8_valid l2
      | _ => false
      end
    else if in_range 0xE0 b0 0xEF then
      match l1 with
      | b1 :: b2 :: l3 =>
        in_range (if b0 =? 0xE0 then 0xA0 else 0x80) b1
                 (if b0 =? 0xED then 0x9F else 0xBF)
        && is_cont b2 && utf8_valid l3
      | _ => false
      end
    else if in_range 0xF0 b0 0xF4 then
      match l1 with
      | b1 :: b2 :: b3 :: l4 =>
        in_range (if b0 =? 0xF0 then 0x90 else 0x80) b1
                 (if b0 =? 0xF4 then 0x8F else 0xBF)
        && is_cont b2 && is_cont b3 && utf8_valid l4
      | _ => false
      end
    else false
  end.

(** [u8::is_ascii_*]. *)
Definition is_ascii_digit (b : Z) : bool := in_range 48 b 57.
Definition is_ascii_lowercase (b : Z) : bool := in_range 97 b 122.
Definition is_ascii_uppercase (b : Z) : bool := in_range 65 b 90.
Definition is_ascii_alphabetic (b : Z) : bool := is_ascii_lowercase b || is_ascii_uppercase b.
Definition is_ascii_alphanumeric (b : Z) : bool := is_ascii_alphabetic b || is_ascii_digit b.
Definition is_ascii_hexdigit (b : Z) : bool :=
  is_ascii_digit b || in_range 97 b 102 || in_range 65 b 70.

(** * Decimal formatting: the [Display] of an integer *)

Fixpoint dec_digits (fuel : nat) (n : Z) (acc : list Z) : list Z :=
  match fuel with
  | O => acc
  | S fuel =>
    let acc := (48 + n mod 10) :: acc in
    if n <? 10 then acc else dec_digits fuel (n / 10) acc
  end.

(** Twenty digits are enough for every 64-bit integer. *)
Definition show_Z (n : Z) : list Z :=
  if n <? 0 then 45 :: dec_digits 20 (- n) [] else dec_digits 20 n [].

(** * Byte order *)

Fixpoint be_to_Z_acc (acc : Z) (l : list Z) : Z :=
  match l with [] => acc | b :: l => be_to_Z_acc (acc * 256 + b) l end.

(** [uN::from_be_bytes] and [uN::from_le_bytes]. *)
Definition be_to_Z (l : list Z) : Z := be_to_Z_acc 0 l.

Fixpoint le_to_Z (l : list Z) : Z :=
  match l with [] => 0 | b :: l => b + 256 * le_to_Z l end.

(** [to_le_bytes] and [to_be_bytes] of an integer of [n] bytes. *)
Fixpoint Z_to_le (n : nat) (z : Z) : list Z :=
  match n with O => [] | S n => z mod 256 :: Z_to_le n (z / 256) end.

Definition Z_to_be (n : nat) (z : Z) : list Z := rev (Z_to_le n z).

Lemma length_Z_to_le n z : length (Z_to_le n z) = n.
Proof. revert z. induction n; intros z; simpl; [done | by rewrite IHn]. Qed.

Lemma length_Z_to_be n z : length (Z_to_be n z) = n.
Proof. unfold Z_to_be. by rewrite length_rev, length_Z_to_le. Qed.

Lemma Z_to_le_bytes n z : bytes_ok (Z_to_le n z).
Proof.
  revert z. induction n; intros z; simpl; constructor; [|apply IHn].
  by apply Z.mod_pos_bound.
Qed.

Lemma Z_to_be_bytes n z : bytes_ok (Z_to_be n z).
Proof. unfold Z_to_be, bytes_ok. apply Forall_rev, Z_to_le_bytes. Qed.

Lemma le_to_Z_to_le n z : le_to_Z (Z_to_le n z) = z mod 256 ^ Z.of_nat n.
Proof.
  revert z. induction n as [|n IH]; intros z; cbn [Z_to_le le_to_Z]; [by rewrite Z.mod_1_r|].
  rewrite IH, Nat2Z.inj_succ, Z.pow_succ_r by lia.
  rewrite (Z.rem_mul_r z 256) by lia. lia.
Qed.

Lemma be_to_Z_acc_app acc l k : be_to_Z_acc acc (l ++ k) = be_to_Z_acc (be_to_Z_acc acc l) k.
Proof. revert acc. induction l; intros acc; simpl; auto. Qed.

Lemma be_to_Z_rev l : be_to_Z (rev l) = le_to_Z l.
Proof.
  unfold be_to_Z. induction l as [|b l IH]; [done|].
  cbn [rev le_to_Z]. rewrite be_to_Z_acc_app, IH. simpl. lia.
Qed.

Lemma be_to_Z_to_be n z : be_to_Z (Z_to_be n z) = z mod 256 ^ Z.of_nat n.
Proof. unfold Z_to_be. by rewrite be_to_Z_rev, le_to_Z_to_le. Qed.

Arguments Z_to_le : simpl never.
Arguments Z_to_be : simpl never.

Lemma le_to_Z_range l : bytes_ok l -> 0 <= le_to_Z l < 256 ^ len l.
Proof.
  induction 1 as [|b l Hb _ IH]; [done|].
  rewrite len_cons, Z.add_1_l, Z.pow_succ_r by apply len_nonneg.
  cbn [le_to_Z]. unfold in_u8 in Hb. lia.
Qed.

Lemma be_to_Z_range l : bytes_ok l -> 0 <= be_to_Z l < 256 ^ len l.
Proof.
  intros H. rewrite <-(rev_involutive l), be_to_Z_rev.
  unfold len. rewrite length_rev. apply le_to_Z_range. by apply Forall_rev.
Qed.

(** * Fixed-width operations of [i64] *)

Definition wrapping_add (a b : Z) : Z := as_i64 (a + b).
Definition wrapping_sub (a b : Z) : Z := as_i64 (a - b).
Definition wrapping_mul (a b : Z) : Z := as_i64 (a * b).
(** Truncating division; [i64::MIN / -1] wraps to [i64::MIN]. *)
Definition wrapping_div (a b : Z) : Z := as_i64 (Z.quot a b).
Definition wrapping_rem (a b : Z) : Z := as_i64 (Z.rem a b).
(** The shift amount of [wrapping_shl] and [wrapping_shr] is taken mod 64. *)
Definition wrapping_shl (a q : Z) : Z := as_i64 (Z.shiftl a (q mod 64)).
Definition wrapping_shr (a q : Z) : Z := Z.shiftr a (q mod 64).
Definition saturating_abs (a : Z) : Z := Z.min (Z.abs a) (2 ^ 63 - 1).
Definition saturating_sub (a b : Z) : Z := Z.max 0 (a - b).

Fixpoint count_bits (n : nat) (z : Z) : Z :=
  match n with O => 0 | S n => z mod 2 + count_bits n (z / 2) end.

(** [u64::count_ones] and [u64::leading_zeros]. *)
Definition count_ones (u : Z) : Z := count_bits 64 u.
Definition leading_zeros (u : Z) : Z := if u =? 0 then 64 else 63 - Z.log2 u.

Lemma count_bits_range n z : 0 <= count_bits n z <= Z.of_nat n.
Proof.
  revert z. induction n as [|n IH]; intros z; cbn [count_bits]; [lia|].
  specialize (IH (z / 2)). pose proof (Z.mod_pos_bound z 2 ltac:(lia)). lia.
Qed.

Lemma leading_zeros_range u : in_u64 u -> 0 <= leading_zeros u <= 64.
Proof.
  intros Hu. unfold in_u64 in Hu. unfold leading_zeros. case_match eqn:E; [lia|].
  apply Z.eqb_neq in E. pose proof (Z.log2_nonneg u).
  assert (Z.log2 u < 64) by (apply Z.log2_lt_pow2; lia). lia.
Qed.

Lemma wrapping_rem_range a b : in_i64 (wrapping_rem a b).
Proof. apply as_i64_range. Qed.

Lemma wrapping_shr_range a q : in_i64 a -> in_i64 (wrapping_shr a q).
Proof. intros. apply in_i64_shiftr_r; [|done]. by apply Z.mod_pos_bound. Qed.

Lemma saturating_abs_range a : in_i64 (saturating_abs a).
Proof. unfold in_i64, saturating_abs. lia. Qed.
