(* ===== verification/Isa.v ===== *)
(** The px64 instruction set (pulselang-core/src/isa.rs): opcodes, native
    function ids, container constants, resource limits, value tags, and the
    name tables of the disassembler. Constants keep the names of the source. *)

From S2P Require Import Prelude.
Local Open Scope Z_scope.

(** * px64 opcodes, legacy opcodes, container constants, limits, tags, natives *)

Definition PX64_OP_NOP : Z := 0.
Definition PX64_OP_MOV_IMM : Z := 1.
Definition PX64_OP_MOV_REG : Z := 2.
Definition PX64_OP_MOV_STR : Z := 3.
Definition PX64_OP_ADD : Z := 4.
Definition PX64_OP_SUB : Z := 5.
Definition PX64_OP_MUL : Z := 6.
Definition PX64_OP_DIV : Z := 7.
Definition PX64_OP_MOD : Z := 8.
Definition PX64_OP_CMP_EQ : Z := 9.
Definition PX64_OP_CMP_NE : Z := 10.
Definition PX64_OP_CMP_LT : Z := 11.
Definition PX64_OP_CMP_LE : Z := 12.
Definition PX64_OP_CMP_GT : Z := 13.
Definition PX64_OP_CMP_GE : Z := 14.
Definition PX64_OP_JMP : Z := 15.
Definition PX64_OP_JZ : Z := 16.
Definition PX64_OP_JNZ : Z := 17.
Definition PX64_OP_CALL_NAT : Z := 18.
Definition PX64_OP_WITHIN_START : Z := 19.
Definition PX64_OP_WITHIN_END : Z := 20.
Definition PX64_OP_DROP : Z := 21.
Definition PX64_OP_HALT : Z := 22.
Definition PX64_OP_LDC : Z := 23.
Definition PX64_OP_ADDI : Z := 24.
Definition PX64_OP_SUBI : Z := 25.
Definition PX64_OP_AND : Z := 26.
Definition PX64_OP_OR : Z := 27.
Definition PX64_OP_XOR : Z := 28.
Definition PX64_OP_SHL : Z := 29.
Definition PX64_OP_SHR : Z := 30.
Definition PX64_OP_ARR_DEF : Z := 31.
Definition PX64_OP_ARR_LOAD : Z := 32.
Definition PX64_OP_ARR_STORE : Z := 33.
Definition PX64_OP_ASSERT : Z := 34.
Definition PX64_OP_CALL : Z := 35.
Definition PX64_OP_RET : Z := 36.
Definition PX64_OP_STRUCT_DEF : Z := 37.
Definition PX64_OP_STRUCT_LOAD : Z := 38.
Definition PX64_OP_STRUCT_STORE : Z := 39.
Definition PX64_OP_TBL_DEF : Z := 40.
Definition PX64_OP_TBL_LOAD : Z := 41.
Definition PX64_OP_STREQ : Z := 42.
Definition PX64_OP_SPILL_STORE : Z := 43.
Definition PX64_OP_SPILL_LOAD : Z := 44.
Definition OP_NOP : Z := 0.
Definition OP_PUSH_CONST : Z := 1.
Definition OP_LOAD_VAR : Z := 2.
Definition OP_STORE_VAR : Z := 3.
Definition OP_ADD : Z := 4.
Definition OP_SUB : Z := 5.
Definition OP_MUL : Z := 6.
Definition OP_DIV : Z := 7.
Definition OP_MOD : Z := 8.
Definition OP_CMP_EQ : Z := 9.
Definition OP_CMP_NE : Z := 10.
Definition OP_CMP_LT : Z := 11.
Definition OP_CMP_LE : Z := 12.
Definition OP_CMP_GT : Z := 13.
Definition OP_CMP_GE : Z := 14.
Definition OP_JUMP : Z := 15.
Definition OP_JUMP_IF_FALSE : Z := 16.
Definition OP_CALL_NATIVE : Z := 17.
Definition OP_WITHIN_START : Z := 18.
Definition OP_WITHIN_END : Z := 19.
Definition OP_DROP : Z := 20.
Definition OP_PUSH_STR : Z := 21.
Definition OP_HALT : Z := 22.
Definition PX64_BIN_MAGIC : list Z := [80; 88; 54; 52].
Definition PX64_BIN_VERSION : Z := 3.
Definition PX64_HEADER_SIZE : Z := 16.
Definition PX64_NUM_REGISTERS : Z := 20.
Definition MAX_CONST_POOL : Z := 64.
Definition PULSE_BIN_MAGIC : list Z := [80; 88; 54; 52].
Definition PULSE_BIN_VERSION : Z := 3.
Definition PULSE_HEADER_SIZE : Z := 16.
Definition MAX_TOKENS : Z := 2048.
Definition MAX_BYTECODE_SIZE : Z := 4096.
Definition MAX_VARS : Z := 48.
Definition MAX_ENUMS : Z := 16.
Definition MAX_ENUM_VARIANTS : Z := 16.
Definition MAX_STRING_POOL : Z := 512.
Definition MAX_VM_STEPS : Z := 10000.
Definition MAX_SCRIPT_TIMEOUT_NS : Z := 5000000.
Definition STR_TAG : Z := 4611686018427387904.
Definition ARG_TAG : Z := 2305843009213693952.
Definition ERR_TAG : Z := 1152921504606846976.
Definition MAX_CALL_DEPTH : Z := 8.
Definition NATIVE_PRINT : Z := 1.
Definition NATIVE_PRINTLN : Z := 2.
Definition NATIVE_SYS_TSC : Z := 3.
Definition NATIVE_NET_RTT : Z := 4.
Definition NATIVE_NET_SET_RATE : Z := 5.
Definition NATIVE_GPU_CAPTURE : Z := 6.
Definition NATIVE_NET_SEND : Z := 7.
Definition NATIVE_SCRIPT_ARGC : Z := 8.
Definition NATIVE_SCRIPT_ARG : Z := 9.
Definition NATIVE_TAG_OK : Z := 10.
Definition NATIVE_TAG_ERR : Z := 11.
Definition NATIVE_IS_OK : Z := 12.
Definition NATIVE_IS_ERR : Z := 13.
Definition NATIVE_UNWRAP : Z := 14.
Definition NATIVE_STREQ : Z := 15.
Definition NATIVE_CORE_ID : Z := 16.
Definition NATIVE_TSC_FREQ : Z := 17.
Definition NATIVE_UPTIME_NS : Z := 18.
Definition NATIVE_BUSY_WAIT : Z := 19.
Definition NATIVE_RING_DEPTH : Z := 20.
Definition NATIVE_MATH_MIN : Z := 21.
Definition NATIVE_MATH_MAX : Z := 22.
Definition NATIVE_MATH_ABS : Z := 23.
Definition NATIVE_MATH_CLAMP : Z := 24.
Definition NATIVE_BIT_POPCNT : Z := 25.
Definition NATIVE_BIT_LZCNT : Z := 26.
Definition NATIVE_CRC32 : Z := 27.
Definition NATIVE_VRAM_READ : Z := 28.
Definition NATIVE_VRAM_WRITE : Z := 29.
Definition NATIVE_FIX_TO_FIX : Z := 30.
Definition NATIVE_FIX_TO_I64 : Z := 31.
Definition NATIVE_FIX_MUL : Z := 32.
Definition NATIVE_FIX_DIV : Z := 33.
Definition NATIVE_DROP : Z := 34.
Definition NATIVE_TERM_RAW : Z := 35.
Definition NATIVE_TERM_READ_KEY : Z := 36.
Definition NATIVE_TERM_SIZE : Z := 37.
Definition NATIVE_FILE_READ : Z := 38.
Definition NATIVE_FILE_WRITE : Z := 39.
Definition NATIVE_FILE_EXISTS : Z := 40.
Definition NATIVE_STR_LEN : Z := 41.
Definition NATIVE_CHAR_AT : Z := 42.

(** * Name tables *)

Definition px64_reg_name (reg_id : Z) : string :=
  match reg_id with
  | 0 => "$rax"
  | 1 => "$rcx"
  | 2 => "$rdx"
  | 3 => "$rbx"
  | 4 => "$rsp"
  | 5 => "$rbp"
  | 6 => "$rsi"
  | 7 => "$rdi"
  | 8 => "$r8"
  | 9 => "$r9"
  | 10 => "$r10"
  | 11 => "$r11"
  | 12 => "$r12"
  | 13 => "$r13"
  | 14 => "$r14"
  | 15 => "$r15"
  | 16 => "#f0"
  | 17 => "#f1"
  | 18 => "#f2"
  | 19 => "#f3"
  | _ => "$unk"
  end%string.

Definition px64_native_name (func_id : Z) : string :=
  if func_id =? NATIVE_PRINT then "@print"%string else
  if func_id =? NATIVE_PRINTLN then "@println"%string else
  if func_id =? NATIVE_SYS_TSC then "@tsc"%string else
  if func_id =? NATIVE_NET_RTT then "@rtt"%string else
  if func_id =? NATIVE_NET_SET_RATE then "@rate"%string else
  if func_id =? NATIVE_GPU_CAPTURE then "@capture"%string else
  if func_id =? NATIVE_NET_SEND then "@send"%string else
  if func_id =? NATIVE_SCRIPT_ARGC then "@argc"%string else
  if func_id =? NATIVE_SCRIPT_ARG then "@arg"%string else
  if func_id =? NATIVE_TAG_OK then "@ok"%string else
  if func_id =? NATIVE_TAG_ERR then "@err"%string else
  if func_id =? NATIVE_IS_OK then "@is_ok"%string else
  if func_id =? NATIVE_IS_ERR then "@is_err"%string else
  if func_id =? NATIVE_UNWRAP then "@unwrap"%string else
  if func_id =? NATIVE_STREQ then "@streq"%string else
  if func_id =? NATIVE_CORE_ID then "@core_id"%string else
  if func_id =? NATIVE_TSC_FREQ then "@tsc_freq"%string else
  if func_id =? NATIVE_UPTIME_NS then "@uptime_ns"%string else
  if func_id =? NATIVE_BUSY_WAIT then "@busy_wait"%string else
  if func_id =? NATIVE_RING_DEPTH then "@ring_depth"%string else
  if func_id =? NATIVE_MATH_MIN then "@min"%string else
  if func_id =? NATIVE_MATH_MAX then "@max"%string else
  if func_id =? NATIVE_MATH_ABS then "@abs"%string else
  if func_id =? NATIVE_MATH_CLAMP then "@clamp"%string else
  if func_id =? NATIVE_BIT_POPCNT then "@popcnt"%string else
  if func_id =? NATIVE_BIT_LZCNT then "@lzcnt"%string else
  if func_id =? NATIVE_CRC32 then "@crc32"%string else
  if func_id =? NATIVE_VRAM_READ then "@vram_read"%string else
  if func_id =? NATIVE_VRAM_WRITE then "@vram_write"%string else
  if func_id =? NATIVE_FIX_TO_FIX then "@to_fix"%string else
  if func_id =? NATIVE_FIX_TO_I64 then "@to_i64"%string else
  if func_id =? NATIVE_FIX_MUL then "@fix_mul"%string else
  if func_id =? NATIVE_FIX_DIV then "@fix_div"%string else
  if func_id =? NATIVE_DROP then "@release"%string else
  if func_id =? NATIVE_TERM_RAW then "@term_raw"%string else
  if func_id =? NATIVE_TERM_READ_KEY then "@term_read_key"%string else
  if func_id =? NATIVE_TERM_SIZE then "@term_size"%string else
  if func_id =? NATIVE_FILE_READ then "@file_read"%string else
  if func_id =? NATIVE_FILE_WRITE then "@file_write"%string else
  if func_id =? NATIVE_FILE_EXISTS then "@file_exists"%string else
  if func_id =? NATIVE_STR_LEN then "@str_len"%string else
  if func_id =? NATIVE_CHAR_AT then "@char_at"%string else
  "@native"%string.

Definition px64_op_name (op : Z) : string :=
  if op =? PX64_OP_NOP then "NOP"%string else
  if op =? PX64_OP_MOV_IMM then "MOV"%string else
  if op =? PX64_OP_MOV_REG then "MOV"%string else
  if op =? PX64_OP_MOV_STR then "MOVS"%string else
  if op =? PX64_OP_ADD then "ADD"%string else
  if op =? PX64_OP_SUB then "SUB"%string else
  if op =? PX64_OP_MUL then "MUL"%string else
  if op =? PX64_OP_DIV then "DIV"%string else
  if op =? PX64_OP_MOD then "MOD"%string else
  if op =? PX64_OP_CMP_EQ then "CMPEQ"%string else
  if op =? PX64_OP_CMP_NE then "CMPNE"%string else
  if op =? PX64_OP_CMP_LT then "CMPLT"%string else
  if op =? PX64_OP_CMP_LE then "CMPLE"%string else
  if op =? PX64_OP_CMP_GT then "CMPGT"%string else
  if op =? PX64_OP_CMP_GE then "CMPGE"%string else
  if op =? PX64_OP_JMP then "JMP"%string else
  if op =? PX64_OP_JZ then "JZ"%string else
  if op =? PX64_OP_JNZ then "JNZ"%string else
  if op =? PX64_OP_CALL_NAT then "CALL_NAT"%string else
  if op =? PX64_OP_WITHIN_START then "WITHIN_START"%string else
  if op =? PX64_OP_WITHIN_END then "WITHIN_END"%string else
  if op =? PX64_OP_DROP then "DROP"%string else
  if op =? PX64_OP_HALT then "HALT"%string else
  if op =? PX64_OP_LDC then "LDC"%string else
  if op =? PX64_OP_ADDI then "ADDI"%string else
  if op =? PX64_OP_SUBI then "SUBI"%string else
  if op =? PX64_OP_AND then "AND"%string else
  if op =? PX64_OP_OR then "OR"%string else
  if op =? PX64_OP_XOR then "XOR"%string else
  if op =? PX64_OP_SHL then "SHL"%string else
  if op =? PX64_OP_SHR then "SHR"%string else
  if op =? PX64_OP_ARR_DEF then "ARR_DEF"%string else
  if op =? PX64_OP_ARR_LOAD then "ARR_LOAD"%string else
  if op =? PX64_OP_ARR_STORE then "ARR_STORE"%string else
  if op =? PX64_OP_ASSERT then "ASSERT"%string else
  if op =? PX64_OP_CALL then "CALL"%string else
  if op =? PX64_OP_RET then "RET"%string else
  if op =? PX64_OP_STRUCT_DEF then "STRUCT_DEF"%string else
  if op =? PX64_OP_STRUCT_LOAD then "STRUCT_LOAD"%string else
  if op =? PX64_OP_STRUCT_STORE then "STRUCT_STORE"%string else
  if op =? PX64_OP_TBL_DEF then "TBL_DEF"%string else
  if op =? PX64_OP_TBL_LOAD then "TBL_LOAD"%string else
  if op =? PX64_OP_STREQ then "STREQ"%string else
  if op =? PX64_OP_SPILL_STORE then "SPILL_STORE"%string else
  if op =? PX64_OP_SPILL_LOAD then "SPILL_LOAD"%string else
  "UNKNOWN_OP"%string.
