(* ===== verification/Token.v ===== *)
(** Tokens of PulseLang and source locations (pulselang-core/src/token.rs):
    the token kinds, the token record, and [get_line_and_col] with its
    specification in terms of the newlines of the source. *)

From S2P Require Import Prelude.
Local Open Scope Z_scope.

Module TokenKind.

(** [Number] carries an [i64], [FloatLit] the scaled [i64] and the number of
    fractional digits ([u8]), [TimeLiteral] nanoseconds ([u64]). *)
Inductive t : Set :=
| Let
| Mut
| Match
| If
| Else
| While
| Within
| Or
| Drop
| Pipeline
| Task
| Stage
| Core
| ZeroCopy
| Hardware
| Input
| Output
| On
| Emit
| Return
| Budget
| For
| In
| Fn
| Struct
| Const
| Enum
| Fixed
| I64
| U8
| U16
| U32
| U64
| AtContract
| AtPipeline
| AtBudget
| AtWcet
| AtWithin
| AtWhile
| AtFor
| AtLoop
| AtOnVblank
| AtAssert
| AtRequires
| AtEnsures
| AtInvariant
| AtPoolSize
| AtTest
| AtImport
| Ident
| VarIdent
| HardwareIdent
| IntrinsicIdent
| Number (n : Z)
| FloatLit (scaled digits : Z)
| TimeLiteral (n : Z)
| StringLit
| ColonEq
| PlusEq
| MinusEq
| Question
| Pipe
| PipeSingle
| Plus
| Minus
| Star
| Slash
| Percent
| Eq
| EqEq
| NotEq
| Lt
| LtEq
| Shl
| Gt
| GtEq
| Shr
| And
| Amp
| Caret
| OrOp
| Semi
| Colon
| ColonColon
| Comma
| Dot
| DotDot
| Arrow
| FatArrow
| Underscore
| LParen
| RParen
| LBrace
| RBrace
| LBracket
| RBracket
| Exclamation
| Eof.

#[global] Instance eq_dec : EqDecision t.
Proof. intros a b. unfold Decision. decide equality; apply Z.eq_dec. Defined.

End TokenKind.

Record Token : Set := mkToken {
  kind : TokenKind.t;
  start : Z;
  tlen : Z;
  line : Z;
  col : Z;
}.

Definition empty_token : Token := mkToken TokenKind.Eof 0 0 1 1.

(** The [for i in 0..limit] loop of [get_line_and_col] over the bytes
    [src[0..limit]]: the state is the index, [line] and [line_start]. *)
Fixpoint line_scan (l : list Z) (i line line_start : Z) : Z * Z :=
  match l with
  | [] => (line, line_start)
  | b :: l => if b =? 10 then line_scan l (i + 1) (line + 1) (i + 1)
              else line_scan l (i + 1) line line_start
  end.

Definition get_line_and_col (src : list Z) (pos : Z) : Z * Z :=
  let limit := Z.min pos (len src) in
  let '(line, line_start) := line_scan (take (Z.to_nat limit) src) 0 1 0 in
  (line, Z.max 0 (limit - line_start) + 1).

(** * Specification *)

Definition newlines (l : list Z) : Z := len (filter (fun b => b = 10) l).

Lemma line_scan_app l k i line ls :
  line_scan (l ++ k) i line ls =
  line_scan k (i + len l) (fst (line_scan l i line ls)) (snd (line_scan l i line ls)).
Proof.
  revert i line ls. induction l as [|b l IH]; intros i line ls; simpl.
  - by rewrite len_nil, Z.add_0_r.
  - rewrite len_cons. case_match; rewrite IH; f_equal; lia.
Qed.

Lemma line_scan_line l i line ls : fst (line_scan l i line ls) = line + newlines l.
Proof.
  unfold newlines. revert i line ls.
  induction l as [|b l IH]; intros i line ls; [unfold len; simpl; lia|]; simpl.
  rewrite filter_cons. case_match eqn:Hb.
  - apply Z.eqb_eq in Hb. rewrite decide_True, len_cons, IH by done. lia.
  - apply Z.eqb_neq in Hb. by rewrite decide_False, IH by done.
Qed.

Lemma line_scan_no_newline l i line ls :
  10 ∉ l -> snd (line_scan l i line ls) = ls.
Proof.
  revert i line ls. induction l as [|b l IH]; intros i line ls H; simpl; [done|].
  apply not_elem_of_cons in H as [H1 H2].
  case_match eqn:Hb; [apply Z.eqb_eq in Hb; congruence | by apply IH].
Qed.

Lemma last_line_split (l : list Z) :
  exists pre tl, l = pre ++ tl /\ 10 ∉ tl /\ (pre = [] \/ exists p, pre = p ++ [10]).
Proof.
  induction l as [|b l IH] using rev_ind.
  - exists [], []. set_solver.
  - destruct (decide (b = 10)) as [-> | Hb].
    + exists (l ++ [10]), []. rewrite app_nil_r. set_solver.
    + destruct IH as (pre & tl & -> & H1 & H2).
      exists pre, (tl ++ [b]). rewrite app_assoc. set_solver.
Qed.

Lemma line_scan_start l tl i line ls :
  10 ∉ tl -> snd (line_scan ((l ++ [10]) ++ tl) i line ls) = i + len l + 1.
Proof.
  intros H. rewrite line_scan_app, line_scan_no_newline by done.
  rewrite line_scan_app. simpl. lia.
Qed.

(** The line and column of a position, read off the text before it. *)
Lemma get_line_and_col_split src pos pre tl :
  0 <= pos <= len src -> take (Z.to_nat pos) src = pre ++ tl -> 10 ∉ tl ->
  pre = [] \/ (exists p, pre = p ++ [10]) ->
  get_line_and_col src pos = (1 + newlines pre, len tl + 1).
Proof.
  intros Hp Ht Hn Hpre. unfold get_line_and_col.
  rewrite Z.min_l by lia. rewrite Ht.
  assert (Hl : len pre + len tl = pos).
  { rewrite <-len_app, <-Ht. unfold len in *. rewrite length_take. lia. }
  rewrite (surjective_pairing (line_scan _ _ _ _)), line_scan_line.
  assert (Hnl : newlines (pre ++ tl) = newlines pre).
  { unfold newlines. rewrite filter_app, len_app.
    enough (filter (fun b => b = 10) tl = []) as -> by (unfold len; simpl; lia).
    clear -Hn. induction tl as [|b tl IH]; [done|].
    apply not_elem_of_cons in Hn as [Hb Hn]. rewrite filter_cons_False by congruence. auto. }
  rewrite Hnl. f_equal. pose proof (len_nonneg tl).
  destruct Hpre as [-> | [p ->]].
  - rewrite app_nil_l, line_scan_no_newline by done. rewrite len_nil in Hl. lia.
  - rewrite line_scan_start by done. rewrite len_app, len_cons, len_nil in Hl. lia.
Qed.

Lemma take_split_at (src : list Z) pos pre tl :
  0 <= pos <= len src -> take (Z.to_nat pos) src = pre ++ tl -> pos = len pre + @len Z tl.
Proof.
  intros Hp Ht. rewrite <-len_app, <-Ht. unfold len in *. rewrite length_take. lia.
Qed.

Lemma newlines_mono (l k : list Z) : newlines l <= newlines (l ++ k).
Proof. unfold newlines. rewrite filter_app, len_app. pose proof (len_nonneg (filter (fun b => b = 10) k)). lia. Qed.

(** Source locations identify positions: two positions of a source that
    [get_line_and_col] gives the same line and column are the same position.
    The line is one more than the number of newlines before the position, the
    column one more than the distance from the last of them. *)
Theorem get_line_and_col_injective src p q :
  0 <= p <= len src -> 0 <= q <= len src ->
  get_line_and_col src p = get_line_and_col src q -> p = q.
Proof.
  assert (W : forall p q, 0 <= p <= q -> q <= len src ->
    get_line_and_col src p = get_line_and_col src q -> p = q).
  { clear. intros p q Hp Hq E.
    destruct (last_line_split (take (Z.to_nat p) src)) as (pre & tl & H1 & N1 & D1).
    destruct (last_line_split (take (Z.to_nat q) src)) as (pre' & tl' & H2 & N2 & D2).
    rewrite (get_line_and_col_split src p pre tl), (get_line_and_col_split src q pre' tl') in E
      by (done || lia).
    injection E as El Ec.
    pose proof (take_split_at src p pre tl ltac:(lia) H1).
    pose proof (take_split_at src q pre' tl' ltac:(lia) H2).
    destruct (decide (len pre' <= len pre)) as [|Hgt]; [lia|exfalso].
    assert (exists x, pre' = pre ++ x) as [x ->].
    { assert (Hpre : pre = take (length pre) src).
      { rewrite <-(take_app_length pre tl) at 1. rewrite <-H1, take_take. f_equal. unfold len in *. lia. }
      assert (Hpre' : pre' = take (length pre') src).
      { rewrite <-(take_app_length pre' tl') at 1. rewrite <-H2, take_take. f_equal. unfold len in *. lia. }
      exists (drop (length pre) pre'). rewrite Hpre at 1.
      rewrite <-(take_drop (length pre) pre') at 1. f_equal.
      rewrite Hpre', take_take. f_equal. unfold len in *. lia. }
    destruct D2 as [D2|[z D2]]; [apply app_eq_nil in D2 as [-> ->]; unfold len in Hgt; simpl in Hgt; lia|].
    destruct x as [|b x] using rev_ind; [rewrite app_nil_r in Hgt; lia|]. clear IHx.
    rewrite app_assoc in D2. apply app_inj_tail in D2 as [_ ->].
    revert El. unfold newlines. rewrite !filter_app, !len_app, filter_cons_True by done.
    rewrite len_cons. pose proof (len_nonneg (filter (fun b => b = 10) x)).
    pose proof (len_nonneg (filter (fun b : Z => b = 10) [])). lia. }
  intros Hp Hq E. destruct (decide (p <= q)); [by apply W; [lia..|] | symmetry; apply W; [lia..|done]].
Qed.

(** Two positions of [a\nb] on different lines. *)
Theorem get_line_and_col_injective_witness :
  get_line_and_col [97; 10; 98] 0 <> get_line_and_col [97; 10; 98] 2.
Proof.
  intros E. apply get_line_and_col_injective in E; [lia| |]; vm_compute; split; discriminate.
Defined.
