(* ===== verification/Error.v ===== *)
(** Diagnostics (pulselang-core/src/error.rs): the [CompileError] record, the
    constructor every run-time error uses, and the classification of an error
    by its code. *)

From S2P Require Import Prelude Token.
Local Open Scope Z_scope.

Record CompileError : Set := mkCompileError {
  code : string;
  message : string;
  err_line : Z;
  err_col : Z;
  byte_offset : Z;
  token_kind : TokenKind.t;
  token_len : Z;
  expected : string;
  stage : string;
  suggestion : string;
}.

#[export] Instance CompileError_eq_dec : EqDecision CompileError.
Proof. solve_decision. Defined.

Definition simple (code message : string) : CompileError :=
  mkCompileError code message 1 1 0 TokenKind.Eof 0
    "Valid bytecode or script syntax" "Execution / Validation"
    "Check file format and integrity".

(** [str::starts_with] and [str::contains] on ASCII literals. *)
Definition starts_with (p s : string) : bool := String.prefix p s.

Fixpoint contains (p s : string) : bool :=
  String.prefix p s ||
  match s with
  | EmptyString => false
  | String _ s => contains p s
  end.

Definition is_runtime (e : CompileError) : bool :=
  starts_with "ERR_PX64_" (code e) || starts_with "ERR_BINARY_" (code e)
  || starts_with "ERR_VM_" (code e).

Definition category (e : CompileError) : string :=
  if contains "SYNTAX" (code e) || contains "TOKEN" (code e)
     || contains "UNEXPECTED" (code e) then "syntax"%string
  else if contains "TYPE" (code e) || contains "MUTABILITY" (code e) then "type"%string
  else if contains "LINEAR" (code e) then "linear_ownership"%string
  else if contains "WCET" (code e) || contains "BUDGET" (code e)
          || contains "TIMEOUT" (code e) then "wcet"%string
  else if is_runtime e then "runtime"%string
  else "semantic"%string.

Definition repairability (e : CompileError) : string :=
  if (code e =? "ERR_RUNTIME_NOT_IMPORTED")%string
     || (code e =? "ERR_MISSING_CONTRACT")%string then "safe_patch"%string
  else if (code e =? "ERR_LINEAR_UNCONSUMED_HANDLE")%string
          || (code e =? "ERR_LINEAR_DOUBLE_SEND")%string
          || (code e =? "ERR_UNBOUNDED_LOOP")%string then "requires_decision"%string
  else "suggestion"%string.
