(* ===== verification/Crc.v ===== *)
(** CRC-32 ([compute_crc32] and [CRC32_TABLE], pulselang-core/src/vm.rs): the
    256-entry table, the table-driven checksum, the bit-serial reference it
    implements, and the error-detection property the frame check relies on. *)

From S2P Require Import Prelude.
Local Open Scope Z_scope.

(** One iteration of the inner [while j < 8] loop. *)
Definition crc_bit_step (crc : Z) : Z :=
  if negb (Z.land crc 1 =? 0) then Z.lxor (Z.shiftr crc 1) 0xEDB88320
  else Z.shiftr crc 1.

Definition crc_table_entry (i : Z) : Z := Nat.iter 8 crc_bit_step i.

Definition CRC32_TABLE : list Z := map crc_table_entry (seqZ 0 256).

(** The body of the [for &byte in data] loop; the index is masked to
    [0..255], so the lookup never misses (see [CRC32_TABLE_lookup]). *)
Definition crc_byte_step (crc byte : Z) : Z :=
  let i := Z.land (Z.lxor crc byte) 0xFF in
  Z.lxor (Z.shiftr crc 8) (default 0 (getZ CRC32_TABLE i)).

(** [!crc] on [u32] is [0xFFFFFFFF - crc], the exclusive or with all ones. *)
Definition compute_crc32 (data : list Z) : Z :=
  Z.lxor (foldl crc_byte_step 0xFFFFFFFF data) 0xFFFFFFFF.

(** * Reference: the bit-serial shift register *)

Definition crc_serial_byte (crc byte : Z) : Z :=
  Nat.iter 8 crc_bit_step (Z.lxor crc byte).

Definition crc32_reference (data : list Z) : Z :=
  Z.lxor (foldl crc_serial_byte 0xFFFFFFFF data) 0xFFFFFFFF.

(** * The step is linear and invertible *)

Lemma crc_bit_step_alt x :
  crc_bit_step x = Z.lxor (Z.shiftr x 1) (if Z.testbit x 0 then 0xEDB88320 else 0).
Proof.
  unfold crc_bit_step.
  replace (Z.land x 1) with (Z.b2z (Z.testbit x 0)).
  - destruct (Z.testbit x 0); simpl; [done | by rewrite Z.lxor_0_r].
  - rewrite Z.bit0_mod. change 1 with (Z.ones 1).
    by rewrite Z.land_ones by lia.
Qed.

Ltac bitwise_lxor :=
  apply Z.bits_inj'; intros ? ?; rewrite ?Z.lxor_spec;
  repeat match goal with |- context [Z.testbit ?x ?n] => destruct (Z.testbit x n) end;
  reflexivity.

Lemma crc_bit_step_lxor x y :
  crc_bit_step (Z.lxor x y) = Z.lxor (crc_bit_step x) (crc_bit_step y).
Proof.
  rewrite !crc_bit_step_alt, Z.shiftr_lxor, Z.lxor_spec.
  destruct (Z.testbit x 0), (Z.testbit y 0); simpl xorb;
    rewrite ?Z.lxor_0_r; bitwise_lxor.
Qed.

Lemma crc_steps_lxor n x y :
  Nat.iter n crc_bit_step (Z.lxor x y) =
  Z.lxor (Nat.iter n crc_bit_step x) (Nat.iter n crc_bit_step y).
Proof. induction n as [|n IH]; simpl; [done|]. by rewrite IH, crc_bit_step_lxor. Qed.

(** Eight steps shift a value whose low byte is zero right by eight bits. *)
Lemma crc_steps_shiftl n x : Nat.iter n crc_bit_step (Z.shiftl x (Z.of_nat n)) = x.
Proof.
  revert x. induction n as [|n IH]; intros x; [by rewrite Z.shiftl_0_r|].
  rewrite Nat.iter_succ_r, crc_bit_step_alt.
  rewrite Z.shiftl_spec_low by lia. rewrite Z.lxor_0_r, Z.shiftr_shiftl_l by lia.
  replace (Z.of_nat (S n) - 1) with (Z.of_nat n) by lia. apply IH.
Qed.

Lemma split_low_byte x : x = Z.lxor (Z.shiftl (Z.shiftr x 8) 8) (Z.land x 255).
Proof.
  apply Z.bits_inj'. intros n Hn. rewrite Z.lxor_spec, Z.land_spec.
  change 255 with (Z.ones 8). destruct (decide (n < 8)).
  - rewrite Z.shiftl_spec_low, Z.ones_spec_low by lia. by rewrite andb_true_r.
  - rewrite Z.shiftl_spec, Z.shiftr_spec, Z.ones_spec_high by lia.
    rewrite andb_false_r, xorb_false_r. f_equal. lia.
Qed.

Lemma CRC32_TABLE_lookup i :
  0 <= i < 256 -> getZ CRC32_TABLE i = Some (crc_table_entry i).
Proof.
  intros Hi. unfold getZ, CRC32_TABLE. rewrite decide_True by lia.
  rewrite list_lookup_fmap, lookup_seqZ_lt by lia. simpl. do 2 f_equal. lia.
Qed.

Lemma land_255_range x : 0 <= Z.land x 255 < 256.
Proof. change 255 with (Z.ones 8). rewrite Z.land_ones by lia. by apply Z.mod_pos_bound. Qed.

Lemma shiftr_byte b : in_u8 b -> Z.shiftr b 8 = 0.
Proof. intros Hb. rewrite Z.shiftr_div_pow2 by lia. by apply Z.div_small. Qed.

(** The table lookup does eight steps of the serial register at once. *)
Lemma crc_byte_step_serial crc b : in_u8 b -> crc_byte_step crc b = crc_serial_byte crc b.
Proof.
  intros Hb. unfold crc_byte_step, crc_serial_byte.
  rewrite CRC32_TABLE_lookup by apply land_255_range. simpl default.
  rewrite (split_low_byte (Z.lxor crc b)) at 2.
  rewrite crc_steps_lxor, (crc_steps_shiftl 8).
  by rewrite Z.shiftr_lxor, (shiftr_byte b Hb), Z.lxor_0_r.
Qed.

Lemma foldl_serial data crc :
  bytes_ok data -> foldl crc_byte_step crc data = foldl crc_serial_byte crc data.
Proof.
  intros H. revert crc. induction H as [|b data Hb _ IH]; intros crc; simpl; [done|].
  by rewrite crc_byte_step_serial, IH.
Qed.

Lemma crc_bit_step_u32 x : in_u32 x -> in_u32 (crc_bit_step x).
Proof.
  intros Hx. rewrite crc_bit_step_alt. apply uw_lxor; [lia| |by case_match].
  by apply uw_shiftr_r.
Qed.

Lemma crc_serial_byte_u32 x b : in_u32 x -> in_u8 b -> in_u32 (crc_serial_byte x b).
Proof.
  intros Hx Hb. unfold crc_serial_byte.
  assert (Hy : in_u32 (Z.lxor x b)).
  { apply uw_lxor; [lia | done | unfold in_u8 in Hb; lia]. }
  revert Hy. generalize (Z.lxor x b). clear. intros y Hy.
  assert (forall n, in_u32 (Nat.iter n crc_bit_step y)) as H; [|apply H].
  intros n. induction n as [|n IH]; simpl; [done|]. by apply crc_bit_step_u32.
Qed.

Lemma foldl_serial_u32 data crc :
  bytes_ok data -> in_u32 crc -> in_u32 (foldl crc_serial_byte crc data).
Proof.
  intros H. revert crc. induction H as [|b data Hb _ IH]; intros crc Hc; simpl; [done|].
  by apply IH, crc_serial_byte_u32.
Qed.

Lemma crc_bit_step_inj x y :
  in_u32 x -> in_u32 y -> crc_bit_step x = crc_bit_step y -> x = y.
Proof.
  intros Hx Hy. rewrite !crc_bit_step_alt. intros H.
  assert (Htop : forall z, in_u32 z -> Z.testbit z 32 = false).
  { intros z Hz. unfold in_u32 in Hz.
    rewrite <-(Z.mod_small z (2 ^ 32)) by lia. by apply Z.mod_pow2_bits_high. }
  pose proof (f_equal (fun z => Z.testbit z 31) H) as Hb. cbv beta in Hb.
  rewrite !Z.lxor_spec, !Z.shiftr_spec in Hb by lia.
  change (31 + 1) with 32 in Hb. rewrite (Htop x Hx), (Htop y Hy) in Hb.
  assert (H0 : Z.testbit x 0 = Z.testbit y 0).
  { destruct (Z.testbit x 0), (Z.testbit y 0); simpl in Hb; congruence. }
  rewrite H0 in H. apply lxor_cancel_r in H.
  apply Z.bits_inj'. intros n Hn. destruct (decide (n = 0)) as [-> | Hn0]; [done|].
  pose proof (f_equal (fun z => Z.testbit z (n - 1)) H) as Hn1. cbv beta in Hn1.
  rewrite !Z.shiftr_spec in Hn1 by lia. by replace (n - 1 + 1) with n in Hn1 by lia.
Qed.

Lemma crc_steps_inj n x y :
  in_u32 x -> in_u32 y ->
  Nat.iter n crc_bit_step x = Nat.iter n crc_bit_step y -> x = y.
Proof.
  assert (Hr : forall m z, in_u32 z -> in_u32 (Nat.iter m crc_bit_step z)).
  { intros m z Hz. induction m; simpl; [done | by apply crc_bit_step_u32]. }
  intros Hx Hy. induction n as [|n IH]; simpl; [done|].
  intros H%crc_bit_step_inj; [by apply IH | by apply Hr | by apply Hr].
Qed.

Lemma lxor_byte_u32 x b : in_u32 x -> in_u8 b -> in_u32 (Z.lxor x b).
Proof. intros. apply uw_lxor; [lia | done | unfold in_u8 in *; lia]. Qed.

Lemma foldl_serial_inj data x y :
  bytes_ok data -> in_u32 x -> in_u32 y ->
  foldl crc_serial_byte x data = foldl crc_serial_byte y data -> x = y.
Proof.
  intros H. revert x y. induction H as [|b data Hb _ IH]; intros x y Hx Hy; simpl; [done|].
  intros E. apply IH in E; [|by apply crc_serial_byte_u32|by apply crc_serial_byte_u32].
  apply crc_steps_inj in E; [|by apply lxor_byte_u32 | by apply lxor_byte_u32].
  by apply lxor_cancel_r in E.
Qed.

Lemma compute_crc32_u32 data : bytes_ok data -> in_u32 (compute_crc32 data).
Proof.
  intros H. unfold compute_crc32. rewrite foldl_serial by done.
  apply uw_lxor; [lia | by apply foldl_serial_u32 | done].
Qed.

(** A change of one byte changes the checksum. *)
Lemma crc32_byte_change pre suf b b' :
  bytes_ok pre -> bytes_ok suf -> in_u8 b -> in_u8 b' -> b <> b' ->
  compute_crc32 (pre ++ b :: suf) <> compute_crc32 (pre ++ b' :: suf).
Proof.
  intros Hp Hs Hb Hb' Hne H. unfold compute_crc32 in H.
  apply lxor_cancel_r in H.
  rewrite !foldl_serial in H by (apply Forall_app; split; [done | by constructor]).
  rewrite !foldl_app in H. simpl in H.
  assert (Hc : in_u32 (foldl crc_serial_byte 0xFFFFFFFF pre)) by by apply foldl_serial_u32.
  apply foldl_serial_inj in H; [|done|by apply crc_serial_byte_u32|by apply crc_serial_byte_u32].
  apply crc_steps_inj in H; [|by apply lxor_byte_u32 | by apply lxor_byte_u32].
  by apply lxor_cancel_l in H.
Qed.

(** * Properties *)

(** The table-driven checksum is the bit-serial CRC-32, and a [u32]. *)
Theorem compute_crc32_reference data :
  bytes_ok data ->
  compute_crc32 data = crc32_reference data /\ in_u32 (compute_crc32 data).
Proof.
  intros H. unfold compute_crc32, crc32_reference.
  rewrite foldl_serial by done. split; [done|].
  apply uw_lxor; [lia| |done]. by apply foldl_serial_u32.
Qed.

Lemma compute_crc32_reference_witness :
  bytes_ok [49; 50; 51] /\ compute_crc32 [49; 50; 51] = crc32_reference [49; 50; 51].
Proof.
  split; [repeat constructor; done|].
  apply (compute_crc32_reference [49; 50; 51]). repeat constructor; done.
Defined.

(** Changing one byte of a message always changes its checksum: two
    messages that differ in exactly one byte never have the same CRC-32. *)
Theorem compute_crc32_detects_byte pre suf b b' :
  bytes_ok pre -> bytes_ok suf -> in_u8 b -> in_u8 b' -> b <> b' ->
  compute_crc32 (pre ++ b :: suf) <> compute_crc32 (pre ++ b' :: suf).
Proof. apply crc32_byte_change. Qed.

Lemma compute_crc32_detects_byte_witness :
  compute_crc32 ([1] ++ 2 :: [3]) <> compute_crc32 ([1] ++ 7 :: [3]).
Proof.
  apply (compute_crc32_detects_byte [1] [3] 2 7); try done; repeat constructor; done.
Defined.

(** The check value of the CRC-32 standard, for the string 123456789. *)
Example crc32_check_value :
  compute_crc32 [49; 50; 51; 52; 53; 54; 55; 56; 57] = 0xCBF43926.
Proof. vm_compute. reflexivity. Qed.
