(* ===== verification/VmState.v ===== *)
(** The state of the px64 virtual machine (pulselang-core/src/vm.rs): the
    [PX64VM] struct, its constructor, the host it runs on, and the invariant
    every run maintains.

    The borrowed slices of the struct ([code], [str_pool], [const_pool],
    [args]) never change during a run and form the record [program]; the other
    fields form the record [vm]. Two fields of [vm] stand for the outside of
    the struct: [output] is what the run wrote to its [core::fmt::Write], and
    [host_calls] counts the queries made to the host. *)

From S2P Require Import Prelude Isa Token Error RustStd.
Local Open Scope Z_scope.

(** * Deterministic replay configuration *)

Record DeterministicReplayConfig : Set := mkReplay {
  enabled : bool;
  tsc_seed : Z;
  tsc_step : Z;
  uptime_base_ns : Z;
  uptime_step_ns : Z;
}.

Definition with_seed (seed : Z) : DeterministicReplayConfig :=
  mkReplay true seed 10 1000000 15.

Definition replay_default : DeterministicReplayConfig := with_seed 0x1337C0DE.

(** * The host

    The time-stamp counter, the keyboard, the terminal and the file system are
    outside the repository. Each query may give a new answer, so each takes
    the number of queries made before it. *)

Record host : Type := mkHost {
  rdtsc : nat -> Z;
  host_read_key : nat -> Z;
  host_term_size : nat -> Z;
  host_path_exists : nat -> list Z -> bool;
  host_fs_write : nat -> list Z -> list Z -> bool;
}.

(** The build without the [std] feature: no keyboard, an 80x25 terminal, no
    file system. *)
Definition no_std_host (tsc : nat -> Z) : host :=
  mkHost tsc (fun _ => -1) (fun _ => 25 * 2 ^ 16 + 80)
    (fun _ _ => false) (fun _ _ _ => false).

(** * The machine *)

Record program : Set := mkProgram {
  code : list Z;
  str_pool : list Z;
  const_pool : list Z;
  args : list (list Z);
}.

Record vm : Set := mkVm {
  ip : Z;
  regs : list Z;
  call_stack : list Z;
  frame_stack : list (list Z);
  call_sp : Z;
  deadline_stack : list Z;
  dl_sp : Z;
  array_slots : list Z;
  array_lens : list Z;
  array_bases : list Z;
  struct_slots : list Z;
  struct_field_counts : list Z;
  struct_bases : list Z;
  table_lens : list Z;
  table_bases : list Z;
  vram : list (list Z);
  spill_slots : list Z;
  steps : Z;
  max_steps : Z;
  replay_config : option DeterministicReplayConfig;
  output : list Z;
  host_calls : nat;
}.

(** Field updates. *)
Definition set_ip (m : vm) (v : Z) : vm := mkVm v (m.(regs)) (m.(call_stack)) (m.(frame_stack))
  (m.(call_sp)) (m.(deadline_stack)) (m.(dl_sp)) (m.(array_slots)) (m.(array_lens))
  (m.(array_bases)) (m.(struct_slots)) (m.(struct_field_counts)) (m.(struct_bases))
  (m.(table_lens)) (m.(table_bases)) (m.(vram)) (m.(spill_slots)) (m.(steps)) (m.(max_steps))
  (m.(replay_config)) (m.(output)) (m.(host_calls)).
Definition set_regs (m : vm) (v : list Z) : vm := mkVm (m.(ip)) v (m.(call_stack))
  (m.(frame_stack)) (m.(call_sp)) (m.(deadline_stack)) (m.(dl_sp)) (m.(array_slots))
  (m.(array_lens)) (m.(array_bases)) (m.(struct_slots)) (m.(struct_field_counts))
  (m.(struct_bases)) (m.(table_lens)) (m.(table_bases)) (m.(vram)) (m.(spill_slots)) (m.(steps))
  (m.(max_steps)) (m.(replay_config)) (m.(output)) (m.(host_calls)).
Definition set_call_stack (m : vm) (v : list Z) : vm := mkVm (m.(ip)) (m.(regs)) v
  (m.(frame_stack)) (m.(call_sp)) (m.(deadline_stack)) (m.(dl_sp)) (m.(array_slots))
  (m.(array_lens)) (m.(array_bases)) (m.(struct_slots)) (m.(struct_field_counts))
  (m.(struct_bases)) (m.(table_lens)) (m.(table_bases)) (m.(vram)) (m.(spill_slots)) (m.(steps))
  (m.(max_steps)) (m.(replay_config)) (m.(output)) (m.(host_calls)).
Definition set_frame_stack (m : vm) (v : list (list Z)) : vm := mkVm (m.(ip)) (m.(regs))
  (m.(call_stack)) v (m.(call_sp)) (m.(deadline_stack)) (m.(dl_sp)) (m.(array_slots))
  (m.(array_lens)) (m.(array_bases)) (m.(struct_slots)) (m.(struct_field_counts))
  (m.(struct_bases)) (m.(table_lens)) (m.(table_bases)) (m.(vram)) (m.(spill_slots)) (m.(steps))
  (m.(max_steps)) (m.(replay_config)) (m.(output)) (m.(host_calls)).
Definition set_call_sp (m : vm) (v : Z) : vm := mkVm (m.(ip)) (m.(regs)) (m.(call_stack))
  (m.(frame_stack)) v (m.(deadline_stack)) (m.(dl_sp)) (m.(array_slots)) (m.(array_lens))
  (m.(array_bases)) (m.(struct_slots)) (m.(struct_field_counts)) (m.(struct_bases))
  (m.(table_lens)) (m.(table_bases)) (m.(vram)) (m.(spill_slots)) (m.(steps)) (m.(max_steps))
  (m.(replay_config)) (m.(output)) (m.(host_calls)).
Definition set_deadline_stack (m : vm) (v : list Z) : vm := mkVm (m.(ip)) (m.(regs))
  (m.(call_stack)) (m.(frame_stack)) (m.(call_sp)) v (m.(dl_sp)) (m.(array_slots))
  (m.(array_lens)) (m.(array_bases)) (m.(struct_slots)) (m.(struct_field_counts))
  (m.(struct_bases)) (m.(table_lens)) (m.(table_bases)) (m.(vram)) (m.(spill_slots)) (m.(steps))
  (m.(max_steps)) (m.(replay_config)) (m.(output)) (m.(host_calls)).
Definition set_dl_sp (m : vm) (v : Z) : vm := mkVm (m.(ip)) (m.(regs)) (m.(call_stack))
  (m.(frame_stack)) (m.(call_sp)) (m.(deadline_stack)) v (m.(array_slots)) (m.(array_lens))
  (m.(array_bases)) (m.(struct_slots)) (m.(struct_field_counts)) (m.(struct_bases))
  (m.(table_lens)) (m.(table_bases)) (m.(vram)) (m.(spill_slots)) (m.(steps)) (m.(max_steps))
  (m.(replay_config)) (m.(output)) (m.(host_calls)).
Definition set_array_slots (m : vm) (v : list Z) : vm := mkVm (m.(ip)) (m.(regs))
  (m.(call_stack)) (m.(frame_stack)) (m.(call_sp)) (m.(deadline_stack)) (m.(dl_sp)) v
  (m.(array_lens)) (m.(array_bases)) (m.(struct_slots)) (m.(struct_field_counts))
  (m.(struct_bases)) (m.(table_lens)) (m.(table_bases)) (m.(vram)) (m.(spill_slots)) (m.(steps))
  (m.(max_steps)) (m.(replay_config)) (m.(output)) (m.(host_calls)).
Definition set_array_lens (m : vm) (v : list Z) : vm := mkVm (m.(ip)) (m.(regs))
  (m.(call_stack)) (m.(frame_stack)) (m.(call_sp)) (m.(deadline_stack)) (m.(dl_sp))
  (m.(array_slots)) v (m.(array_bases)) (m.(struct_slots)) (m.(struct_field_counts))
  (m.(struct_bases)) (m.(table_lens)) (m.(table_bases)) (m.(vram)) (m.(spill_slots)) (m.(steps))
  (m.(max_steps)) (m.(replay_config)) (m.(output)) (m.(host_calls)).
Definition set_array_bases (m : vm) (v : list Z) : vm := mkVm (m.(ip)) (m.(regs))
  (m.(call_stack)) (m.(frame_stack)) (m.(call_sp)) (m.(deadline_stack)) (m.(dl_sp))
  (m.(array_slots)) (m.(array_lens)) v (m.(struct_slots)) (m.(struct_field_counts))
  (m.(struct_bases)) (m.(table_lens)) (m.(table_bases)) (m.(vram)) (m.(spill_slots)) (m.(steps))
  (m.(max_steps)) (m.(replay_config)) (m.(output)) (m.(host_calls)).
Definition set_struct_slots (m : vm) (v : list Z) : vm := mkVm (m.(ip)) (m.(regs))
  (m.(call_stack)) (m.(frame_stack)) (m.(call_sp)) (m.(deadline_stack)) (m.(dl_sp))
  (m.(array_slots)) (m.(array_lens)) (m.(array_bases)) v (m.(struct_field_counts))
  (m.(struct_bases)) (m.(table_lens)) (m.(table_bases)) (m.(vram)) (m.(spill_slots)) (m.(steps))
  (m.(max_steps)) (m.(replay_config)) (m.(output)) (m.(host_calls)).
Definition set_struct_field_counts (m : vm) (v : list Z) : vm := mkVm (m.(ip)) (m.(regs))
  (m.(call_stack)) (m.(frame_stack)) (m.(call_sp)) (m.(deadline_stack)) (m.(dl_sp))
  (m.(array_slots)) (m.(array_lens)) (m.(array_bases)) (m.(struct_slots)) v (m.(struct_bases))
  (m.(table_lens)) (m.(table_bases)) (m.(vram)) (m.(spill_slots)) (m.(steps)) (m.(max_steps))
  (m.(replay_config)) (m.(output)) (m.(host_calls)).
Definition set_struct_bases (m : vm) (v : list Z) : vm := mkVm (m.(ip)) (m.(regs))
  (m.(call_stack)) (m.(frame_stack)) (m.(call_sp)) (m.(deadline_stack)) (m.(dl_sp))
  (m.(array_slots)) (m.(array_lens)) (m.(array_bases)) (m.(struct_slots))
  (m.(struct_field_counts)) v (m.(table_lens)) (m.(table_bases)) (m.(vram)) (m.(spill_slots))
  (m.(steps)) (m.(max_steps)) (m.(replay_config)) (m.(output)) (m.(host_calls)).
Definition set_table_lens (m : vm) (v : list Z) : vm := mkVm (m.(ip)) (m.(regs))
  (m.(call_stack)) (m.(frame_stack)) (m.(call_sp)) (m.(deadline_stack)) (m.(dl_sp))
  (m.(array_slots)) (m.(array_lens)) (m.(array_bases)) (m.(struct_slots))
  (m.(struct_field_counts)) (m.(struct_bases)) v (m.(table_bases)) (m.(vram)) (m.(spill_slots))
  (m.(steps)) (m.(max_steps)) (m.(replay_config)) (m.(output)) (m.(host_calls)).
Definition set_table_bases (m : vm) (v : list Z) : vm := mkVm (m.(ip)) (m.(regs))
  (m.(call_stack)) (m.(frame_stack)) (m.(call_sp)) (m.(deadline_stack)) (m.(dl_sp))
  (m.(array_slots)) (m.(array_lens)) (m.(array_bases)) (m.(struct_slots))
  (m.(struct_field_counts)) (m.(struct_bases)) (m.(table_lens)) v (m.(vram)) (m.(spill_slots))
  (m.(steps)) (m.(max_steps)) (m.(replay_config)) (m.(output)) (m.(host_calls)).
Definition set_vram (m : vm) (v : list (list Z)) : vm := mkVm (m.(ip)) (m.(regs))
  (m.(call_stack)) (m.(frame_stack)) (m.(call_sp)) (m.(deadline_stack)) (m.(dl_sp))
  (m.(array_slots)) (m.(array_lens)) (m.(array_bases)) (m.(struct_slots))
  (m.(struct_field_counts)) (m.(struct_bases)) (m.(table_lens)) (m.(table_bases)) v
  (m.(spill_slots)) (m.(steps)) (m.(max_steps)) (m.(replay_config)) (m.(output))
  (m.(host_calls)).
Definition set_spill_slots (m : vm) (v : list Z) : vm := mkVm (m.(ip)) (m.(regs))
  (m.(call_stack)) (m.(frame_stack)) (m.(call_sp)) (m.(deadline_stack)) (m.(dl_sp))
  (m.(array_slots)) (m.(array_lens)) (m.(array_bases)) (m.(struct_slots))
  (m.(struct_field_counts)) (m.(struct_bases)) (m.(table_lens)) (m.(table_bases)) (m.(vram)) v
  (m.(steps)) (m.(max_steps)) (m.(replay_config)) (m.(output)) (m.(host_calls)).
Definition set_steps (m : vm) (v : Z) : vm := mkVm (m.(ip)) (m.(regs)) (m.(call_stack))
  (m.(frame_stack)) (m.(call_sp)) (m.(deadline_stack)) (m.(dl_sp)) (m.(array_slots))
  (m.(array_lens)) (m.(array_bases)) (m.(struct_slots)) (m.(struct_field_counts))
  (m.(struct_bases)) (m.(table_lens)) (m.(table_bases)) (m.(vram)) (m.(spill_slots)) v
  (m.(max_steps)) (m.(replay_config)) (m.(output)) (m.(host_calls)).
Definition set_replay_config (m : vm) (v : option DeterministicReplayConfig) : vm := mkVm
  (m.(ip)) (m.(regs)) (m.(call_stack)) (m.(frame_stack)) (m.(call_sp)) (m.(deadline_stack))
  (m.(dl_sp)) (m.(array_slots)) (m.(array_lens)) (m.(array_bases)) (m.(struct_slots))
  (m.(struct_field_counts)) (m.(struct_bases)) (m.(table_lens)) (m.(table_bases)) (m.(vram))
  (m.(spill_slots)) (m.(steps)) (m.(max_steps)) v (m.(output)) (m.(host_calls)).
Definition set_output (m : vm) (v : list Z) : vm := mkVm (m.(ip)) (m.(regs)) (m.(call_stack))
  (m.(frame_stack)) (m.(call_sp)) (m.(deadline_stack)) (m.(dl_sp)) (m.(array_slots))
  (m.(array_lens)) (m.(array_bases)) (m.(struct_slots)) (m.(struct_field_counts))
  (m.(struct_bases)) (m.(table_lens)) (m.(table_bases)) (m.(vram)) (m.(spill_slots)) (m.(steps))
  (m.(max_steps)) (m.(replay_config)) v (m.(host_calls)).
Definition set_host_calls (m : vm) (v : nat) : vm := mkVm (m.(ip)) (m.(regs)) (m.(call_stack))
  (m.(frame_stack)) (m.(call_sp)) (m.(deadline_stack)) (m.(dl_sp)) (m.(array_slots))
  (m.(array_lens)) (m.(array_bases)) (m.(struct_slots)) (m.(struct_field_counts))
  (m.(struct_bases)) (m.(table_lens)) (m.(table_bases)) (m.(vram)) (m.(spill_slots)) (m.(steps))
  (m.(max_steps)) (m.(replay_config)) (m.(output)) v.

(** The four VRAM slots and their fill patterns. *)
Definition vram_init : list (list Z) :=
  [replicate 4096 0x5A; replicate 4096 0xA5; replicate 4096 0x00; replicate 4096 0xFF].

Definition new : vm := {|
  ip := 0;
  regs := replicate 20 0;
  call_stack := replicate 8 0;
  frame_stack := replicate 8 (replicate 16 0);
  call_sp := 0;
  deadline_stack := replicate 8 0;
  dl_sp := 0;
  array_slots := replicate 1024 0;
  array_lens := replicate 16 0;
  array_bases := replicate 16 0;
  struct_slots := replicate 1024 0;
  struct_field_counts := replicate 16 0;
  struct_bases := replicate 16 0;
  table_lens := replicate 16 0;
  table_bases := replicate 16 0;
  vram := vram_init;
  spill_slots := replicate 32 0;
  steps := 0;
  max_steps := MAX_VM_STEPS;
  replay_config := None;
  output := [];
  host_calls := 0;
|}.

Definition with_replay_config (m : vm) (c : DeterministicReplayConfig) : vm :=
  set_replay_config m (Some c).

(** * Reading the state *)

(** A register read under the source's guard [r < PX64_NUM_REGISTERS]. *)
Definition reg (m : vm) (r : Z) : Z := default 0 (getZ (regs m) r).

(** [if r < PX64_NUM_REGISTERS { self.regs[r] } else { d }]. *)
Definition reg_or (m : vm) (r d : Z) : Z :=
  if r <? PX64_NUM_REGISTERS then reg m r else d.

(** [if r < PX64_NUM_REGISTERS { self.regs[r] = v }]. *)
Definition set_reg (m : vm) (r v : Z) : vm :=
  if r <? PX64_NUM_REGISTERS then set_regs m (setZ (regs m) r v) else m.

(** [output.write_str]. *)
Definition write (m : vm) (s : list Z) : vm := set_output m (output m ++ s).

Definition get_str_bytes (p : program) (val : Z) : option (list Z) :=
  if negb (Z.land val STR_TAG =? 0) then
    let raw := Z.land val (Z.lnot STR_TAG) in
    let offset := Z.shiftr (as_u64 raw) 32 in
    let length := Z.land raw 0xFFFFFFFF in
    if offset + length <=? len (str_pool p)
    then Some (sub (str_pool p) offset (offset + length))
    else None
  else if negb (Z.land val ARG_TAG =? 0) then
    getZ (args p) (Z.land val 0xFF)
  else None.

(** The hardware counter, read once more. *)
Definition host_tsc (h : host) (m : vm) : Z * vm :=
  (as_u64 (rdtsc h (host_calls m)), set_host_calls m (S (host_calls m))).

Definition get_tsc (h : host) (m : vm) : Z * vm :=
  match replay_config m with
  | Some cfg =>
    if enabled cfg then
      (wrapping_add (tsc_seed cfg) (wrapping_mul (as_i64 (steps m)) (tsc_step cfg)), m)
    else let '(t, m) := host_tsc h m in (as_i64 t, m)
  | None => let '(t, m) := host_tsc h m in (as_i64 t, m)
  end.

Definition get_uptime_ns (h : host) (m : vm) : Z * vm :=
  match replay_config m with
  | Some cfg =>
    if enabled cfg then
      (wrapping_add (uptime_base_ns cfg)
         (wrapping_mul (as_i64 (steps m)) (uptime_step_ns cfg)), m)
    else let '(t, m) := host_tsc h m in (as_i64 (t / 3), m)
  | None => let '(t, m) := host_tsc h m in (as_i64 (t / 3), m)
  end.

(** * The state invariant *)

Definition cells (n : Z) (P : Z -> Prop) (l : list Z) : Prop := len l = n /\ Forall P l.

(** What Rust's types say of the borrowed slices. *)
Record program_wf (p : program) : Prop := {
  code_wf : bytes_ok (code p);
  code_len_wf : len (code p) < 2 ^ 16;
  str_pool_wf : bytes_ok (str_pool p);
  str_pool_len_wf : len (str_pool p) < 2 ^ 16;
  const_pool_wf : Forall in_i64 (const_pool p);
  args_wf : Forall (fun a => bytes_ok a /\ len a < 2 ^ 63) (args p);
  args_len_wf : len (args p) < 2 ^ 63;
}.

Record vm_wf (m : vm) : Prop := {
  ip_wf : 0 <= ip m < 2 ^ 16;
  regs_wf : cells 20 in_i64 (regs m);
  call_stack_wf : cells 8 in_u16 (call_stack m);
  frame_stack_wf : len (frame_stack m) = 8 /\ Forall (cells 16 in_i64) (frame_stack m);
  call_sp_wf : 0 <= call_sp m <= 8;
  deadline_stack_wf : cells 8 in_u64 (deadline_stack m);
  dl_sp_wf : 0 <= dl_sp m <= 8;
  array_slots_wf : cells 1024 in_i64 (array_slots m);
  array_lens_wf : cells 16 in_u16 (array_lens m);
  array_bases_wf : cells 16 in_u16 (array_bases m);
  struct_slots_wf : cells 1024 in_i64 (struct_slots m);
  struct_counts_wf : cells 16 in_u8 (struct_field_counts m);
  struct_bases_wf : cells 16 in_u16 (struct_bases m);
  table_lens_wf : cells 16 in_u8 (table_lens m);
  table_bases_wf : cells 16 in_u8 (table_bases m);
  vram_wf : len (vram m) = 4 /\ Forall (cells 4096 in_u8) (vram m);
  spill_slots_wf : cells 32 in_i64 (spill_slots m);
  steps_wf : 0 <= steps m <= max_steps m;
}.

Lemma cells_setZ n P l i x : cells n P l -> P x -> cells n P (setZ l i x).
Proof. intros [H1 H2] Hx. split; [by rewrite len_setZ | by apply Forall_setZ]. Qed.

Lemma cells_getZ n P l i : cells n P l -> 0 <= i < n -> exists x, getZ l i = Some x /\ P x.
Proof.
  intros [H1 H2] Hi. destruct (getZ_lt_Some l i) as [x Hx]; [lia|].
  exists x. split; [done|]. by eapply Forall_getZ.
Qed.

Lemma cells_default n (P : Z -> Prop) l i d : cells n P l -> P d -> P (default d (getZ l i)).
Proof.
  intros [_ H] Hd. destruct (getZ l i) eqn:E; simpl; [|done]. by eapply Forall_getZ.
Qed.

Lemma cells_replicate n k (P : Z -> Prop) x :
  Z.of_nat n = k -> P x -> cells k P (replicate n x).
Proof. intros <- Hx. split; [apply len_replicate | by apply Forall_replicate]. Qed.

Lemma in_i64_0 : in_i64 0.
Proof. done. Qed.

Lemma reg_range m r : vm_wf m -> in_i64 (reg m r).
Proof. intros Hm. unfold reg. apply (cells_default 20 in_i64); [apply Hm | done]. Qed.

Lemma reg_or_range m r d : vm_wf m -> in_i64 d -> in_i64 (reg_or m r d).
Proof. intros. unfold reg_or. case_match; [by apply reg_range | done]. Qed.

Lemma new_wf : vm_wf new.
Proof.
  constructor;
    cbv beta iota delta [new ip regs call_stack frame_stack call_sp deadline_stack dl_sp
      array_slots array_lens array_bases struct_slots struct_field_counts struct_bases
      table_lens table_bases vram spill_slots steps max_steps];
    lazymatch goal with
    | |- cells _ _ _ => apply cells_replicate; [reflexivity | done]
    | |- _ <= _ <= _ => done
    | |- _ <= _ < _ => done
    | |- _ => split; [done|]
    end.
  - apply Forall_replicate. apply cells_replicate; [reflexivity | done].
  - unfold vram_init. rewrite !Forall_cons, Forall_nil.
    split_and!; try exact I; (apply cells_replicate; [reflexivity | done]).
Qed.

Lemma set_reg_wf m r v : vm_wf m -> in_i64 v -> vm_wf (set_reg m r v).
Proof.
  intros Hm Hv. unfold set_reg. case_match; [|done].
  destruct Hm; constructor; simpl; try done. by apply cells_setZ.
Qed.

Lemma get_str_bytes_len p v s :
  program_wf p -> get_str_bytes p v = Some s -> bytes_ok s /\ len s < 2 ^ 63.
Proof.
  intros Hp. unfold get_str_bytes. repeat case_match; try done.
  - intros [= <-]. split; [apply Forall_sub, Hp|].
    pose proof (str_pool_len_wf p Hp). unfold sub, len in *.
    rewrite length_take, length_drop. lia.
  - intros Hg. by apply (Forall_getZ _ _ _ _ (args_wf p Hp)) in Hg.
Qed.
