(* ===== verification/VmExec.v ===== *)
(** The instructions of the px64 virtual machine (the [match op] of
    [PX64VM::run_with_output], pulselang-core/src/vm.rs), one definition per
    opcode, in the order of the source. A handler that cannot fail is a
    function on the machine; one that can returns an [outcome]. *)

From S2P Require Import Prelude RustStd Isa Token Error Crc VmState.
Local Open Scope Z_scope.

Notation result := (outcome CompileError).

Definition err {A} (code message : string) : result A := Err (simple code message).

(** [if rd < N && rs1 < N { regs[rd] = f(regs[rs1]) }]. *)
Definition alu2 (m : vm) (rd rs1 : Z) (f : Z -> Z) : vm :=
  if (rd <? PX64_NUM_REGISTERS) && (rs1 <? PX64_NUM_REGISTERS)
  then set_reg m rd (f (reg m rs1)) else m.

(** [if rd < N && rs1 < N && rs2 < N { regs[rd] = f(regs[rs1], regs[rs2]) }]. *)
Definition alu3 (m : vm) (rd rs1 rs2 : Z) (f : Z -> Z -> Z) : vm :=
  if (rd <? PX64_NUM_REGISTERS) && (rs1 <? PX64_NUM_REGISTERS)
     && (rs2 <? PX64_NUM_REGISTERS)
  then set_reg m rd (f (reg m rs1) (reg m rs2)) else m.

Definition b2z (b : bool) : Z := if b then 1 else 0.

(** * Moves, constants and the ALU *)

Definition exec_MOV_IMM (m : vm) (rd imm16 : Z) : vm := set_reg m rd imm16.

Definition exec_LDC (p : program) (m : vm) (rd imm16 : Z) : result vm :=
  if len (const_pool p) <=? imm16 then
    err "ERR_PX64_CONST_OUT_OF_BOUNDS"
        "Constant pool index out of bounds during LDC execution"
  else if rd <? PX64_NUM_REGISTERS then
    v ← idx (const_pool p) imm16; mret (set_reg m rd v)
  else mret m.

Definition exec_ADDI (m : vm) (rd rs1 rs2 : Z) : vm :=
  alu2 m rd rs1 (fun a => wrapping_add a rs2).
Definition exec_SUBI (m : vm) (rd rs1 rs2 : Z) : vm :=
  alu2 m rd rs1 (fun a => wrapping_sub a rs2).
Definition exec_AND (m : vm) (rd rs1 rs2 : Z) : vm := alu3 m rd rs1 rs2 Z.land.
Definition exec_OR (m : vm) (rd rs1 rs2 : Z) : vm := alu3 m rd rs1 rs2 Z.lor.
Definition exec_XOR (m : vm) (rd rs1 rs2 : Z) : vm := alu3 m rd rs1 rs2 Z.lxor.
Definition exec_SHL (m : vm) (rd rs1 rs2 : Z) : vm :=
  alu3 m rd rs1 rs2 (fun a b => wrapping_shl a (Z.land b 63)).
Definition exec_SHR (m : vm) (rd rs1 rs2 : Z) : vm :=
  alu3 m rd rs1 rs2 (fun a b => as_i64 (Z.shiftr (as_u64 a) (Z.land b 63))).

(** * Arrays *)

Definition sum_before (l : list Z) (n : Z) : Z := foldr Z.add 0 (take (Z.to_nat n) l).

Definition exec_ARR_DEF (m : vm) (rd imm16 : Z) : vm :=
  if rd <? 16 then
    let m := set_array_lens m (setZ (array_lens m) rd imm16) in
    let base := sum_before (array_lens m) rd in
    let m := set_array_bases m (setZ (array_bases m) rd (as_u16 base)) in
    if base + imm16 <=? 1024 then
      set_array_slots m
        (splice (array_slots m) base (replicate (Z.to_nat imm16) 0))
    else m
  else m.

Definition exec_ARR_LOAD (m : vm) (rd rs1 rs2 : Z) : result vm :=
  let i := reg_or m rs2 (-1) in
  if 16 <=? rs1 then
    err "ERR_PX64_ARRAY_INVALID_ID" "Array ID is invalid"
  else
    max_len ← idx (array_lens m) rs1;
    if (i <? 0) || (max_len <=? i) then
      err "ERR_PX64_ARRAY_OUT_OF_BOUNDS" "Array element access out of bounds"
    else
      base ← idx (array_bases m) rs1;
      if rd <? PX64_NUM_REGISTERS then
        v ← idx (array_slots m) (base + i); mret (set_reg m rd v)
      else mret m.

Definition exec_ARR_STORE (m : vm) (rd rs1 rs2 : Z) : result vm :=
  let i := reg_or m rs1 (-1) in
  let v := reg_or m rs2 0 in
  if 16 <=? rd then
    err "ERR_PX64_ARRAY_INVALID_ID" "Array ID is invalid"
  else
    max_len ← idx (array_lens m) rd;
    if (i <? 0) || (max_len <=? i) then
      err "ERR_PX64_ARRAY_OUT_OF_BOUNDS" "Array element access out of bounds"
    else
      base ← idx (array_bases m) rd;
      slots ← upd (array_slots m) (base + i) v;
      mret (set_array_slots m slots).

(** * Structs *)

Definition exec_STRUCT_DEF (m : vm) (rd rs1 : Z) : vm :=
  if rd <? 16 then
    let m := set_struct_field_counts m (setZ (struct_field_counts m) rd rs1) in
    let base := sum_before (struct_field_counts m) rd in
    set_struct_bases m (setZ (struct_bases m) rd base)
  else m.

Definition exec_STRUCT_LOAD (m : vm) (rd rs1 rs2 : Z) : result vm :=
  if (16 <=? rs1) || (default 0 (getZ (struct_field_counts m) rs1) <=? rs2) then
    err "ERR_PX64_STRUCT_OUT_OF_BOUNDS" "Struct field offset out of bounds"
  else
    base ← idx (struct_bases m) rs1;
    v ← idx (struct_slots m) (base + rs2);
    mret (set_reg m rd v).

Definition exec_STRUCT_STORE (m : vm) (rd rs1 rs2 : Z) : result vm :=
  let v := reg_or m rs2 0 in
  if (16 <=? rd) || (default 0 (getZ (struct_field_counts m) rd) <=? rs1) then
    err "ERR_PX64_STRUCT_OUT_OF_BOUNDS" "Struct field offset out of bounds"
  else
    base ← idx (struct_bases m) rd;
    slots ← upd (struct_slots m) (base + rs1) v;
    mret (set_struct_slots m slots).

(** * Constant tables *)

Definition exec_TBL_DEF (m : vm) (rd rs1 rs2 : Z) : vm :=
  if rd <? 16 then
    set_table_lens (set_table_bases m (setZ (table_bases m) rd rs1))
      (setZ (table_lens m) rd rs2)
  else m.

Definition exec_TBL_LOAD (p : program) (m : vm) (rd rs1 rs2 : Z) : result vm :=
  let i := reg_or m rs2 (-1) in
  if 16 <=? rs1 then
    err "ERR_PX64_TABLE_INVALID_ID" "Const table ID is invalid"
  else
    max_len ← idx (table_lens m) rs1;
    if (i <? 0) || (max_len <=? i) then
      err "ERR_PX64_TABLE_OUT_OF_BOUNDS" "Const table lookup index out of bounds"
    else
      base ← idx (table_bases m) rs1;
      let const_idx := base + i in
      if len (const_pool p) <=? const_idx then
        err "ERR_PX64_TABLE_OUT_OF_BOUNDS"
            "Const table lookup index out of bounds in const pool"
      else
        v ← idx (const_pool p) const_idx; mret (set_reg m rd v).

(** * Assertions, calls and returns *)

Definition exec_ASSERT (m : vm) (rd : Z) : result vm :=
  if reg_or m rd 0 =? 0 then
    err "ERR_PX64_ASSERTION_FAILED"
        "PulseLang assertion failed: condition evaluated to false (0)"
  else mret m.

Definition exec_CALL (m : vm) (imm16 : Z) : result vm :=
  if MAX_CALL_DEPTH <=? call_sp m then
    err "ERR_PX64_STACK_OVERFLOW"
        "Call stack overflow: exceeded MAX_CALL_DEPTH limit (8 nested calls maximum, unbounded recursion prohibited)"
  else
    cs ← upd (call_stack m) (call_sp m) (as_u16 (ip m));
    fs ← upd (frame_stack m) (call_sp m) (sub (regs m) 0 16);
    mret (set_ip (set_call_sp (set_frame_stack (set_call_stack m cs) fs)
                   (call_sp m + 1)) imm16).

(** Whether the loop goes on after an instruction. *)
Variant flow : Set := Next | Break.

Definition exec_RET (m : vm) : result (flow * vm) :=
  if call_sp m =? 0 then mret (Break, m)
  else
    let m := set_call_sp m (call_sp m - 1) in
    let return_val := reg m 0 in
    return_ip ← idx (call_stack m) (call_sp m);
    frame ← idx (frame_stack m) (call_sp m);
    let m := set_regs m (splice (regs m) 0 frame) in
    mret (Next, set_ip (set_reg m 0 return_val) return_ip).

Definition exec_MOV_REG (m : vm) (rd rs1 : Z) : vm := alu2 m rd rs1 (fun a => a).

Definition exec_MOV_STR (m : vm) (rd rs1 rs2 : Z) : vm :=
  set_reg m rd (Z.lor (Z.lor STR_TAG (as_i64 (Z.shiftl rs1 32))) rs2).

Definition exec_ADD (m : vm) (rd rs1 rs2 : Z) : vm := alu3 m rd rs1 rs2 wrapping_add.
Definition exec_SUB (m : vm) (rd rs1 rs2 : Z) : vm := alu3 m rd rs1 rs2 wrapping_sub.
Definition exec_MUL (m : vm) (rd rs1 rs2 : Z) : vm := alu3 m rd rs1 rs2 wrapping_mul.

Definition exec_DIV (m : vm) (rd rs1 rs2 : Z) : result vm :=
  if (rd <? PX64_NUM_REGISTERS) && (rs1 <? PX64_NUM_REGISTERS)
     && (rs2 <? PX64_NUM_REGISTERS) then
    let denom := reg m rs2 in
    if denom =? 0 then
      err "ERR_PX64_DIV_BY_ZERO" "Division by zero in px64 virtual register machine"
    else mret (set_reg m rd (wrapping_div (reg m rs1) denom))
  else mret m.

Definition exec_MOD (m : vm) (rd rs1 rs2 : Z) : result vm :=
  if (rd <? PX64_NUM_REGISTERS) && (rs1 <? PX64_NUM_REGISTERS)
     && (rs2 <? PX64_NUM_REGISTERS) then
    let denom := reg m rs2 in
    if denom =? 0 then
      err "ERR_PX64_DIV_BY_ZERO" "Modulo by zero in px64 virtual register machine"
    else mret (set_reg m rd (wrapping_rem (reg m rs1) denom))
  else mret m.

(** * Comparisons *)

(** [(v & STR_TAG) != 0 || (v & ARG_TAG) != 0]. *)
Definition tagged (v : Z) : bool :=
  negb (Z.land v STR_TAG =? 0) || negb (Z.land v ARG_TAG =? 0).

(** Both values denote strings, and the strings are equal. *)
Definition same_str (p : program) (v1 v2 : Z) : bool :=
  match get_str_bytes p v1, get_str_bytes p v2 with
  | Some b1, Some b2 => bytes_eqb b1 b2
  | _, _ => false
  end.

Definition exec_CMP_EQ (p : program) (m : vm) (rd rs1 rs2 : Z) : vm :=
  alu3 m rd rs1 rs2 (fun v1 v2 =>
    if v1 =? v2 then 1
    else if tagged v1 && tagged v2 then b2z (same_str p v1 v2)
    else 0).

Definition exec_SPILL_STORE (m : vm) (rd rs1 : Z) : vm :=
  let val := reg_or m rs1 0 in
  if rd <? 32 then set_spill_slots m (setZ (spill_slots m) rd val) else m.

Definition exec_SPILL_LOAD (m : vm) (rd rs1 : Z) : vm :=
  let val := if rs1 <? 32 then default 0 (getZ (spill_slots m) rs1) else 0 in
  set_reg m rd val.

Definition exec_CMP_NE (p : program) (m : vm) (rd rs1 rs2 : Z) : vm :=
  alu3 m rd rs1 rs2 (fun v1 v2 =>
    if v1 =? v2 then 0
    else if tagged v1 && tagged v2 then b2z (negb (same_str p v1 v2))
    else 1).

Definition exec_STREQ (p : program) (m : vm) (rd rs1 rs2 : Z) : vm :=
  alu3 m rd rs1 rs2 (fun v1 v2 => if v1 =? v2 then 1 else b2z (same_str p v1 v2)).

Definition exec_CMP_LT (m : vm) (rd rs1 rs2 : Z) : vm :=
  alu3 m rd rs1 rs2 (fun a b => b2z (a <? b)).
Definition exec_CMP_LE (m : vm) (rd rs1 rs2 : Z) : vm :=
  alu3 m rd rs1 rs2 (fun a b => b2z (a <=? b)).
Definition exec_CMP_GT (m : vm) (rd rs1 rs2 : Z) : vm :=
  alu3 m rd rs1 rs2 (fun a b => b2z (b <? a)).
Definition exec_CMP_GE (m : vm) (rd rs1 rs2 : Z) : vm :=
  alu3 m rd rs1 rs2 (fun a b => b2z (b <=? a)).

(** * Jumps *)

Definition exec_JMP (m : vm) (imm16 : Z) : vm := set_ip m imm16.
Definition exec_JZ (m : vm) (rd imm16 : Z) : vm :=
  if (rd <? PX64_NUM_REGISTERS) && (reg m rd =? 0) then set_ip m imm16 else m.
Definition exec_JNZ (m : vm) (rd imm16 : Z) : vm :=
  if (rd <? PX64_NUM_REGISTERS) && negb (reg m rd =? 0) then set_ip m imm16 else m.

(** * Native calls

    A native returns the value for [rd] and the machine it leaves. The second
    and third arguments of a native are in the registers before [arg_reg];
    these reads are not guarded in the source and panic out of range. *)

(** [if arg_reg > n { self.regs[arg_reg - n - 1] } else { d }]. *)
Definition arg_before (m : vm) (arg_reg n d : Z) : result Z :=
  if n <? arg_reg then idx (regs m) (arg_reg - n - 1) else mret d.

(** The text [@print] writes for a value. *)
Definition print_text (p : program) (v : Z) : list Z :=
  if negb (Z.land v ARG_TAG =? 0) then
    default [] (getZ (args p) (Z.land v 0xFF))
  else if negb (Z.land v STR_TAG =? 0) then
    match get_str_bytes p v with
    | Some s => if utf8_valid s then s else []
    | None => []
    end
  else show_Z v.

Definition native_PRINT (p : program) (m : vm) (arg_val : Z) : vm :=
  write m (print_text p arg_val).

Definition native_PRINTLN (p : program) (m : vm) (arg_reg arg_val : Z) : vm :=
  if negb (Z.land arg_val ARG_TAG =? 0) || negb (Z.land arg_val STR_TAG =? 0)
     || negb (arg_reg =? 0) || negb (arg_val =? 0)
  then write (write m (print_text p arg_val)) [10]
  else write m [10].

Definition query_host {A} (m : vm) (f : nat -> A) : A * vm :=
  (f (host_calls m), set_host_calls m (S (host_calls m))).

Definition native_TERM_READ_KEY (h : host) (m : vm) : Z * vm :=
  let m := set_steps m 0 in
  let '(k, m) := query_host m (host_read_key h) in (as_i32 k, m).

Definition native_TERM_SIZE (h : host) (m : vm) : Z * vm :=
  let '(s, m) := query_host m (host_term_size h) in (as_i64 s, m).

Definition native_STR_LEN (p : program) (arg_val : Z) : Z :=
  match get_str_bytes p arg_val with Some s => len s | None => 0 end.

Definition native_CHAR_AT (p : program) (m : vm) (arg_reg arg_val : Z) : result Z :=
  i ← arg_before m arg_reg 0 0;
  mret (match get_str_bytes p arg_val with
        | Some s => if (0 <=? i) && (i <? len s) then default 0 (getZ s i) else -1
        | None => -1
        end).

(** [get_str_bytes(v).and_then(|b| from_utf8(b).ok())]. *)
Definition get_str (p : program) (v : Z) : option (list Z) :=
  match get_str_bytes p v with
  | Some s => if utf8_valid s then Some s else None
  | None => None
  end.

Definition native_FILE_EXISTS (h : host) (p : program) (m : vm) (arg_val : Z) : Z * vm :=
  match get_str p arg_val with
  | Some path =>
    let '(b, m) := query_host m (fun n => host_path_exists h n path) in (b2z b, m)
  | None => (0, m)
  end.

Definition native_FILE_WRITE (h : host) (p : program) (m : vm) (arg_reg arg_val : Z)
    : result (Z * vm) :=
  content_val ← arg_before m arg_reg 0 0;
  mret (match get_str p arg_val, get_str_bytes p content_val with
        | Some path, Some data =>
          let '(b, m) := query_host m (fun n => host_fs_write h n path data) in
          (if b : bool then len data else -1, m)
        | _, _ => (-1, m)
        end).

Definition native_SCRIPT_ARG (p : program) (arg_val : Z) : Z :=
  if (0 <=? arg_val) && (arg_val <? len (args p)) && (arg_val <? 256)
  then Z.lor ARG_TAG (Z.land arg_val 0xFF) else 0.

(** ** Tagged results *)

Definition native_TAG_OK (arg_val : Z) : Z := Z.land arg_val (Z.lnot ERR_TAG).
Definition native_TAG_ERR (arg_val : Z) : Z :=
  Z.lor ERR_TAG (Z.land arg_val (Z.lnot ERR_TAG)).
Definition native_IS_OK (arg_val : Z) : Z := b2z (Z.land arg_val ERR_TAG =? 0).
Definition native_IS_ERR (arg_val : Z) : Z := b2z (negb (Z.land arg_val ERR_TAG =? 0)).
Definition native_UNWRAP (arg_val : Z) : result Z :=
  if negb (Z.land arg_val ERR_TAG =? 0) then
    err "ERR_PX64_UNWRAP_FAILED"
        "PulseLang unwrap failed: called @unwrap() on an Err result value"
  else mret arg_val.

Definition native_STREQ (p : program) (m : vm) (arg_reg s1 : Z) : result Z :=
  s2 ← arg_before m arg_reg 0 0;
  mret (if s1 =? s2 then 1 else b2z (same_str p s1 s2)).

(** ** Arithmetic *)

Definition native_MATH_MIN (m : vm) (arg_reg a : Z) : result Z :=
  b ← arg_before m arg_reg 0 0; mret (Z.min a b).
Definition native_MATH_MAX (m : vm) (arg_reg a : Z) : result Z :=
  b ← arg_before m arg_reg 0 0; mret (Z.max a b).
Definition native_MATH_CLAMP (m : vm) (arg_reg v : Z) : result Z :=
  min_v ← arg_before m arg_reg 0 0;
  max_v ← arg_before m arg_reg 1 0;
  mret (Z.min (Z.max v min_v) max_v).
Definition native_CRC32 (m : vm) (arg_reg arg_val : Z) : result Z :=
  let seed := as_u32 arg_val in
  val ← arg_before m arg_reg 0 0;
  mret (Z.lxor (compute_crc32 (Z_to_le 8 (as_u64 val))) seed).

(** ** VRAM: four slots of 4096 bytes.

    [offset + 8] wraps or traps in [usize] when [offset] is within eight of
    [2^64]; the slice that follows a wrap is out of range, so both builds
    panic. *)

Definition native_VRAM_READ (m : vm) (arg_reg arg_val : Z) : result Z :=
  let slot_id := as_u64 arg_val mod 4 in
  offset ← as_u64 <$> arg_before m arg_reg 0 0;
  slot_data ← idx (vram m) slot_id;
  if 2 ^ 64 <=? offset + 8 then Panic ArithmeticOverflow
  else if offset + 8 <=? len slot_data then
    b ← slice slot_data offset (offset + 8); mret (as_i64 (le_to_Z b))
  else if offset + 4 <=? len slot_data then
    b ← slice slot_data offset (offset + 4); mret (as_i32 (le_to_Z b))
  else mret 0.

Definition native_VRAM_WRITE (m : vm) (arg_reg arg_val : Z) : result (Z * vm) :=
  let slot_id := as_u64 arg_val mod 4 in
  offset ← as_u64 <$> arg_before m arg_reg 0 0;
  val ← arg_before m arg_reg 1 0;
  slot_data ← idx (vram m) slot_id;
  if 2 ^ 64 <=? offset + 8 then Panic ArithmeticOverflow
  else if offset + 8 <=? len slot_data then
    slot_data ← blit slot_data offset (Z_to_le 8 (as_u64 val));
    mret (0, set_vram m (setZ (vram m) slot_id slot_data))
  else mret (0, m).

(** ** Fixed point: the scale is in the register before the operands. *)

Definition fix_scale (m : vm) (arg_reg n : Z) : result Z :=
  if n <? arg_reg then (fun q => Z.land q 63) <$> idx (regs m) (arg_reg - n - 1)
  else mret 16.

Definition native_FIX_TO_FIX (m : vm) (arg_reg arg_val : Z) : result Z :=
  q ← fix_scale m arg_reg 0; mret (wrapping_shl arg_val q).
Definition native_FIX_TO_I64 (m : vm) (arg_reg arg_val : Z) : result Z :=
  q ← fix_scale m arg_reg 0; mret (wrapping_shr arg_val q).
Definition native_FIX_MUL (m : vm) (arg_reg arg_val : Z) : result Z :=
  b ← arg_before m arg_reg 0 0;
  q ← fix_scale m arg_reg 1;
  mret (wrapping_shr (wrapping_mul arg_val b) q).
Definition native_FIX_DIV (m : vm) (arg_reg arg_val : Z) : result Z :=
  b ← arg_before m arg_reg 0 0;
  q ← fix_scale m arg_reg 1;
  if b =? 0 then
    err "ERR_PX64_DIV_BY_ZERO" "Division by zero in fixed-point division"
  else mret (wrapping_div (wrapping_shl arg_val q) b).

(** ** The [match func_id] *)

Definition pure_native (m : vm) (r : result Z) : result (Z * vm) := v ← r; mret (v, m).

Definition native (h : host) (p : program) (m : vm) (func_id arg_reg arg_val : Z)
    : result (Z * vm) :=
  if func_id =? NATIVE_PRINT then mret (0, native_PRINT p m arg_val)
  else if func_id =? NATIVE_PRINTLN then mret (0, native_PRINTLN p m arg_reg arg_val)
  else if func_id =? NATIVE_SYS_TSC then mret (get_tsc h m)
  else if func_id =? NATIVE_NET_RTT then mret (100, m)
  else if func_id =? NATIVE_NET_SET_RATE then mret (0, m)
  else if func_id =? NATIVE_GPU_CAPTURE then mret (0, m)
  else if func_id =? NATIVE_NET_SEND then mret (1, m)
  else if func_id =? NATIVE_DROP then mret (0, m)
  else if func_id =? NATIVE_TERM_RAW then mret (0, m)
  else if func_id =? NATIVE_TERM_READ_KEY then mret (native_TERM_READ_KEY h m)
  else if func_id =? NATIVE_TERM_SIZE then mret (native_TERM_SIZE h m)
  else if func_id =? NATIVE_STR_LEN then mret (native_STR_LEN p arg_val, m)
  else if func_id =? NATIVE_CHAR_AT then pure_native m (native_CHAR_AT p m arg_reg arg_val)
  else if func_id =? NATIVE_FILE_EXISTS then mret (native_FILE_EXISTS h p m arg_val)
  else if func_id =? NATIVE_FILE_WRITE then native_FILE_WRITE h p m arg_reg arg_val
  else if func_id =? NATIVE_FILE_READ then mret (0, m)
  else if func_id =? NATIVE_SCRIPT_ARGC then mret (len (args p), m)
  else if func_id =? NATIVE_SCRIPT_ARG then mret (native_SCRIPT_ARG p arg_val, m)
  else if func_id =? NATIVE_TAG_OK then mret (native_TAG_OK arg_val, m)
  else if func_id =? NATIVE_TAG_ERR then mret (native_TAG_ERR arg_val, m)
  else if func_id =? NATIVE_IS_OK then mret (native_IS_OK arg_val, m)
  else if func_id =? NATIVE_IS_ERR then mret (native_IS_ERR arg_val, m)
  else if func_id =? NATIVE_UNWRAP then pure_native m (native_UNWRAP arg_val)
  else if func_id =? NATIVE_STREQ then pure_native m (native_STREQ p m arg_reg arg_val)
  else if func_id =? NATIVE_CORE_ID then mret (0, m)
  else if func_id =? NATIVE_TSC_FREQ then mret (3000000000, m)
  else if func_id =? NATIVE_UPTIME_NS then mret (get_uptime_ns h m)
  else if func_id =? NATIVE_BUSY_WAIT then mret (0, m)
  else if func_id =? NATIVE_RING_DEPTH then mret (0, m)
  else if func_id =? NATIVE_MATH_MIN then pure_native m (native_MATH_MIN m arg_reg arg_val)
  else if func_id =? NATIVE_MATH_MAX then pure_native m (native_MATH_MAX m arg_reg arg_val)
  else if func_id =? NATIVE_MATH_ABS then mret (saturating_abs arg_val, m)
  else if func_id =? NATIVE_MATH_CLAMP then
    pure_native m (native_MATH_CLAMP m arg_reg arg_val)
  else if func_id =? NATIVE_BIT_POPCNT then mret (count_ones (as_u64 arg_val), m)
  else if func_id =? NATIVE_BIT_LZCNT then mret (leading_zeros (as_u64 arg_val), m)
  else if func_id =? NATIVE_CRC32 then pure_native m (native_CRC32 m arg_reg arg_val)
  else if func_id =? NATIVE_VRAM_READ then pure_native m (native_VRAM_READ m arg_reg arg_val)
  else if func_id =? NATIVE_VRAM_WRITE then native_VRAM_WRITE m arg_reg arg_val
  else if func_id =? NATIVE_FIX_TO_FIX then pure_native m (native_FIX_TO_FIX m arg_reg arg_val)
  else if func_id =? NATIVE_FIX_TO_I64 then pure_native m (native_FIX_TO_I64 m arg_reg arg_val)
  else if func_id =? NATIVE_FIX_MUL then pure_native m (native_FIX_MUL m arg_reg arg_val)
  else if func_id =? NATIVE_FIX_DIV then pure_native m (native_FIX_DIV m arg_reg arg_val)
  else mret (0, m).

Definition exec_CALL_NAT (h : host) (p : program) (m : vm) (rd rs1 rs2 : Z) : result vm :=
  let func_id := rs1 in
  let arg_reg := rs2 in
  let arg_val := reg_or m arg_reg 0 in
  '(ret, m) ← native h p m func_id arg_reg arg_val;
  mret (set_reg m rd ret).

(** * Deadlines *)

Definition exec_WITHIN_START (h : host) (m : vm) (rd : Z) : result vm :=
  let budget_ns := if rd <? PX64_NUM_REGISTERS then as_u64 (reg m rd) else 500000 in
  let '(now, m) := get_uptime_ns h m in
  let deadline := as_u64 (as_u64 now + budget_ns) in
  if dl_sp m <? 8 then
    ds ← upd (deadline_stack m) (dl_sp m) deadline;
    mret (set_dl_sp (set_deadline_stack m ds) (dl_sp m + 1))
  else mret m.

Definition exec_WITHIN_END (m : vm) : vm :=
  if 0 <? dl_sp m then set_dl_sp m (dl_sp m - 1) else m.

Definition drop_message : list Z :=
  bytes "[DEADLINE_DROP] Frame dropped due to deadline breach" ++ [10].

Definition exec_DROP (h : host) (m : vm) : result vm :=
  if 0 <? dl_sp m then
    dl ← idx (deadline_stack m) (dl_sp m - 1);
    let '(now, m) := get_uptime_ns h m in
    mret (if dl <? as_u64 now then write m drop_message else m)
  else mret m.

(** * The [match op] *)

Definition next (r : result vm) : result (flow * vm) := m ← r; mret (Next, m).

Definition exec (h : host) (p : program) (m : vm) (op rd rs1 rs2 : Z) : result (flow * vm) :=
  let imm16 := rs1 * 256 + rs2 in
  if op =? PX64_OP_NOP then next (mret m)
  else if op =? PX64_OP_HALT then mret (Break, m)
  else if op =? PX64_OP_MOV_IMM then next (mret (exec_MOV_IMM m rd imm16))
  else if op =? PX64_OP_LDC then next (exec_LDC p m rd imm16)
  else if op =? PX64_OP_ADDI then next (mret (exec_ADDI m rd rs1 rs2))
  else if op =? PX64_OP_SUBI then next (mret (exec_SUBI m rd rs1 rs2))
  else if op =? PX64_OP_AND then next (mret (exec_AND m rd rs1 rs2))
  else if op =? PX64_OP_OR then next (mret (exec_OR m rd rs1 rs2))
  else if op =? PX64_OP_XOR then next (mret (exec_XOR m rd rs1 rs2))
  else if op =? PX64_OP_SHL then next (mret (exec_SHL m rd rs1 rs2))
  else if op =? PX64_OP_SHR then next (mret (exec_SHR m rd rs1 rs2))
  else if op =? PX64_OP_ARR_DEF then next (mret (exec_ARR_DEF m rd imm16))
  else if op =? PX64_OP_ARR_LOAD then next (exec_ARR_LOAD m rd rs1 rs2)
  else if op =? PX64_OP_ARR_STORE then next (exec_ARR_STORE m rd rs1 rs2)
  else if op =? PX64_OP_STRUCT_DEF then next (mret (exec_STRUCT_DEF m rd rs1))
  else if op =? PX64_OP_STRUCT_LOAD then next (exec_STRUCT_LOAD m rd rs1 rs2)
  else if op =? PX64_OP_STRUCT_STORE then next (exec_STRUCT_STORE m rd rs1 rs2)
  else if op =? PX64_OP_TBL_DEF then next (mret (exec_TBL_DEF m rd rs1 rs2))
  else if op =? PX64_OP_TBL_LOAD then next (exec_TBL_LOAD p m rd rs1 rs2)
  else if op =? PX64_OP_ASSERT then next (exec_ASSERT m rd)
  else if op =? PX64_OP_CALL then next (exec_CALL m imm16)
  else if op =? PX64_OP_RET then exec_RET m
  else if op =? PX64_OP_MOV_REG then next (mret (exec_MOV_REG m rd rs1))
  else if op =? PX64_OP_MOV_STR then next (mret (exec_MOV_STR m rd rs1 rs2))
  else if op =? PX64_OP_ADD then next (mret (exec_ADD m rd rs1 rs2))
  else if op =? PX64_OP_SUB then next (mret (exec_SUB m rd rs1 rs2))
  else if op =? PX64_OP_MUL then next (mret (exec_MUL m rd rs1 rs2))
  else if op =? PX64_OP_DIV then next (exec_DIV m rd rs1 rs2)
  else if op =? PX64_OP_MOD then next (exec_MOD m rd rs1 rs2)
  else if op =? PX64_OP_CMP_EQ then next (mret (exec_CMP_EQ p m rd rs1 rs2))
  else if op =? PX64_OP_SPILL_STORE then next (mret (exec_SPILL_STORE m rd rs1))
  else if op =? PX64_OP_SPILL_LOAD then next (mret (exec_SPILL_LOAD m rd rs1))
  else if op =? PX64_OP_CMP_NE then next (mret (exec_CMP_NE p m rd rs1 rs2))
  else if op =? PX64_OP_STREQ then next (mret (exec_STREQ p m rd rs1 rs2))
  else if op =? PX64_OP_CMP_LT then next (mret (exec_CMP_LT m rd rs1 rs2))
  else if op =? PX64_OP_CMP_LE then next (mret (exec_CMP_LE m rd rs1 rs2))
  else if op =? PX64_OP_CMP_GT then next (mret (exec_CMP_GT m rd rs1 rs2))
  else if op =? PX64_OP_CMP_GE then next (mret (exec_CMP_GE m rd rs1 rs2))
  else if op =? PX64_OP_JMP then next (mret (exec_JMP m imm16))
  else if op =? PX64_OP_JZ then next (mret (exec_JZ m rd imm16))
  else if op =? PX64_OP_JNZ then next (mret (exec_JNZ m rd imm16))
  else if op =? PX64_OP_CALL_NAT then next (exec_CALL_NAT h p m rd rs1 rs2)
  else if op =? PX64_OP_WITHIN_START then next (exec_WITHIN_START h m rd)
  else if op =? PX64_OP_WITHIN_END then next (mret (exec_WITHIN_END m))
  else if op =? PX64_OP_DROP then next (exec_DROP h m)
  else err "ERR_PX64_INVALID_OPCODE" "Invalid px64 instruction opcode encountered".
