(* ===== verification/Vm.v ===== *)
(** The fetch-execute loop of the px64 virtual machine
    ([PX64VM::run_with_output], pulselang-core/src/vm.rs) and what every run
    satisfies: the state invariant, the step limit, panic freedom of programs
    with a valid memory layout, and determinism under replay. *)

From S2P Require Import Prelude RustStd Isa Token Error Crc VmState VmExec.
Local Open Scope Z_scope.

Definition wcet_exceeded : CompileError :=
  simple "ERR_PX64_WCET_EXCEEDED"
         "Execution exceeded px64 WCET instruction step limit (infinite loop protection)".

(** The four bytes at [i], decoded as [op], [rd], [rs1] and [rs2]. *)
Definition fetch (p : program) (i : Z) : result (Z * Z * Z * Z) :=
  op ← idx (code p) i;
  rd ← idx (code p) (i + 1);
  rs1 ← idx (code p) (i + 2);
  rs2 ← idx (code p) (i + 3);
  mret (op, rd, rs1, rs2).

(** One iteration of the loop: the loop condition, the step limit, and one
    instruction. The machine is returned with the result: the caller reads
    [steps] and the output after an error too. *)
Definition step (h : host) (p : program) (m : vm) : vm * result flow :=
  if len (code p) <? ip m + 4 then (m, Ok Break)
  else if max_steps m <=? steps m then (m, Err wcet_exceeded)
  else
    let m := set_steps m (steps m + 1) in
    match fetch p (ip m) with
    | Ok (op, rd, rs1, rs2) =>
      let m := set_ip m (ip m + 4) in
      match exec h p m op rd rs1 rs2 with
      | Ok (f, m) => (m, Ok f)
      | Err e => (m, Err e)
      | Panic k => (m, Panic k)
      end
    | Err e => (m, Err e)
    | Panic k => (m, Panic k)
    end.

(** The loop. [None] means the fuel ran out; [run_fuel_enough] gives a fuel
    for which that does not happen. *)
Fixpoint run_with_output (fuel : nat) (h : host) (p : program) (m : vm)
    : option (vm * result unit) :=
  match fuel with
  | O => None
  | S fuel =>
    match step h p m with
    | (m, Ok Next) => run_with_output fuel h p m
    | (m, Ok Break) => Some (m, Ok tt)
    | (m, Err e) => Some (m, Err e)
    | (m, Panic k) => Some (m, Panic k)
    end
  end.

(** * The invariant is preserved *)

Ltac wf_set := let H := fresh in intros H; destruct H; constructor; simpl; try done; try lia.

Lemma set_ip_wf m v : vm_wf m -> 0 <= v < 2 ^ 16 -> vm_wf (set_ip m v).
Proof. wf_set. Qed.
Lemma set_regs_wf m v : vm_wf m -> cells 20 in_i64 v -> vm_wf (set_regs m v).
Proof. wf_set. Qed.
Lemma set_steps_wf m v : vm_wf m -> 0 <= v <= max_steps m -> vm_wf (set_steps m v).
Proof. wf_set. Qed.
Lemma set_output_wf m v : vm_wf m -> vm_wf (set_output m v).
Proof. wf_set. Qed.
Lemma set_host_calls_wf m v : vm_wf m -> vm_wf (set_host_calls m v).
Proof. wf_set. Qed.
Lemma write_wf m s : vm_wf m -> vm_wf (write m s).
Proof. apply set_output_wf. Qed.

#[export] Hint Resolve set_output_wf set_host_calls_wf write_wf set_reg_wf reg_range
  as_i64_range in_i64_0 : vm.

Lemma b2z_range b : in_i64 (b2z b).
Proof. by destruct b. Qed.

Lemma in_u16_i64 z : in_u16 z -> in_i64 z.
Proof. unfold in_u16, in_i64. lia. Qed.

Lemma in_u8_i64 z : in_u8 z -> in_i64 z.
Proof. unfold in_u8, in_i64. lia. Qed.

#[export] Hint Resolve b2z_range in_u16_i64 in_u8_i64 in_i64_land in_i64_lor in_i64_lxor
  in_i64_lnot wrapping_shr_range saturating_abs_range : vm.

Lemma alu2_wf m rd rs1 f :
  vm_wf m -> (forall a, in_i64 a -> in_i64 (f a)) -> vm_wf (alu2 m rd rs1 f).
Proof. intros. unfold alu2. case_match; auto with vm. Qed.

Lemma alu3_wf m rd rs1 rs2 f :
  vm_wf m -> (forall a b, in_i64 a -> in_i64 b -> in_i64 (f a b)) ->
  vm_wf (alu3 m rd rs1 rs2 f).
Proof. intros. unfold alu3. case_match; auto with vm. Qed.

#[export] Hint Resolve alu2_wf alu3_wf : vm.

(** A handler's result keeps the invariant. *)
Definition keeps (r : result vm) : Prop := forall m', r = Ok m' -> vm_wf m'.
Definition keeps_flow (r : result (flow * vm)) : Prop := forall f m', r = Ok (f, m') -> vm_wf m'.
Definition keeps_nat (r : result (Z * vm)) : Prop :=
  forall v m', r = Ok (v, m') -> in_i64 v /\ vm_wf m'.

Lemma keeps_ret m : vm_wf m -> keeps (mret m).
Proof. by intros H m' [= <-]. Qed.

Lemma keeps_err e : keeps (Err e).
Proof. by intros ? ?. Qed.

Lemma keeps_bind {A} (r : result A) (f : A -> result vm) :
  (forall a, r = Ok a -> keeps (f a)) -> keeps (r ≫= f).
Proof. intros H m' (a & Ha & Hf)%bind_Ok. by eapply H. Qed.

Lemma keeps_next r : keeps r -> keeps_flow (next r).
Proof. unfold next. intros H f m' (a & Ha & [= _ <-])%bind_Ok. by apply H. Qed.

Lemma keeps_if (b : bool) (x y : result vm) : keeps x -> keeps y -> keeps (if b then x else y).
Proof. by destruct b. Qed.

#[export] Hint Resolve keeps_ret keeps_err keeps_next keeps_if : vm.

Lemma idx_cells n P l i (x : Z) : cells n P l -> @idx CompileError _ l i = Ok x -> P x.
Proof. intros [_ H] Hi%idx_Ok. by eapply Forall_getZ. Qed.

Lemma LDC_keeps p m rd i : program_wf p -> vm_wf m -> keeps (exec_LDC p m rd i).
Proof.
  intros Hp Hm. unfold exec_LDC. apply keeps_if; [apply keeps_err|].
  apply keeps_if; [|by apply keeps_ret]. apply keeps_bind. intros v Hv%idx_Ok.
  apply keeps_ret, set_reg_wf; [done|]. by apply (Forall_getZ _ _ _ _ (const_pool_wf p Hp)) in Hv.
Qed.

Lemma set_array_slots_wf m v : vm_wf m -> cells 1024 in_i64 v -> vm_wf (set_array_slots m v).
Proof. wf_set. Qed.
Lemma set_array_lens_wf m v : vm_wf m -> cells 16 in_u16 v -> vm_wf (set_array_lens m v).
Proof. wf_set. Qed.
Lemma set_array_bases_wf m v : vm_wf m -> cells 16 in_u16 v -> vm_wf (set_array_bases m v).
Proof. wf_set. Qed.

Lemma sum_before_nonneg l n : Forall (fun x => 0 <= x) l -> 0 <= sum_before l n.
Proof.
  intros H. unfold sum_before. apply (Forall_take _ (Z.to_nat n)) in H. revert H.
  generalize (take (Z.to_nat n) l). clear. induction 1; simpl; lia.
Qed.

Lemma Forall_u16_nonneg l : Forall in_u16 l -> Forall (fun x => 0 <= x) l.
Proof. intros H. eapply Forall_impl; [exact H|]. by intros x [? _]. Qed.

Lemma sum_before_u16 l n : Forall in_u16 l -> 0 <= sum_before l n.
Proof. intros. by apply sum_before_nonneg, Forall_u16_nonneg. Qed.

Lemma ARR_DEF_wf m rd imm : vm_wf m -> in_u16 imm -> vm_wf (exec_ARR_DEF m rd imm).
Proof.
  intros Hm Hi. unfold exec_ARR_DEF. case_match; [|done].
  assert (H1 : vm_wf (set_array_lens m (setZ (array_lens m) rd imm)))
    by (apply set_array_lens_wf; [done | by apply cells_setZ, Hi; apply Hm]).
  set (m1 := set_array_lens m _) in *.
  assert (H2 : vm_wf (set_array_bases m1
    (setZ (array_bases m1) rd (as_u16 (sum_before (array_lens m1) rd))))).
  { apply set_array_bases_wf; [done|]. apply cells_setZ; [apply H1 | apply as_u16_range]. }
  set (m2 := set_array_bases m1 _) in *. case_match eqn:Hle; [|done].
  apply Z.leb_le in Hle. apply set_array_slots_wf; [done|].
  destruct (array_slots_wf m2 H2) as [L1 L2].
  pose proof (sum_before_u16 (array_lens m1) rd (proj2 (array_lens_wf m1 H1))).
  unfold in_u16 in Hi.
  split; [|apply Forall_splice; [done | by apply Forall_replicate]].
  rewrite len_splice; [done | lia |]. rewrite len_replicate. lia.
Qed.

Lemma ARR_LOAD_keeps m rd rs1 rs2 : vm_wf m -> keeps (exec_ARR_LOAD m rd rs1 rs2).
Proof.
  intros Hm. unfold exec_ARR_LOAD. apply keeps_if; [apply keeps_err|].
  apply keeps_bind; intros ml _. apply keeps_if; [apply keeps_err|].
  apply keeps_bind; intros b _. apply keeps_if; [|by apply keeps_ret].
  apply keeps_bind; intros v Hv. apply keeps_ret, set_reg_wf; [done|].
  eapply idx_cells; [exact (array_slots_wf m Hm) | done].
Qed.

Lemma upd_cells n P l i (x : Z) l' :
  cells n P l -> P x -> @upd CompileError Z l i x = Ok l' -> cells n P l'.
Proof. intros Hc Hx [_ ->]%upd_Ok. by apply cells_setZ. Qed.

Lemma in_i64_m1 : in_i64 (-1).
Proof. done. Qed.
#[export] Hint Resolve reg_or_range in_i64_m1 : vm.

Lemma ARR_STORE_keeps m rd rs1 rs2 : vm_wf m -> keeps (exec_ARR_STORE m rd rs1 rs2).
Proof.
  intros Hm. unfold exec_ARR_STORE. apply keeps_if; [apply keeps_err|].
  apply keeps_bind; intros ml _. apply keeps_if; [apply keeps_err|].
  apply keeps_bind; intros b _. apply keeps_bind; intros l Hl.
  apply keeps_ret, set_array_slots_wf; [done|].
  eapply upd_cells; [exact (array_slots_wf m Hm) | | done]. auto with vm.
Qed.

Lemma foldr_add_bound k B :
  0 <= B -> Forall (fun x => 0 <= x <= B) k -> 0 <= foldr Z.add 0 k <= len k * B.
Proof.
  intros HB. induction 1 as [|x k Hx _ IH]; [unfold len; simpl; lia|].
  rewrite len_cons. simpl. lia.
Qed.

Lemma sum_before_bound l n B :
  0 <= B -> Forall (fun x => 0 <= x <= B) l -> 0 <= n -> 0 <= sum_before l n <= n * B.
Proof.
  intros HB H Hn. unfold sum_before. apply (Forall_take _ (Z.to_nat n)) in H.
  apply foldr_add_bound in H; [|done].
  assert (len (take (Z.to_nat n) l) <= n) by (unfold len; rewrite length_take; lia).
  pose proof (Z.mul_le_mono_nonneg_r (len (take (Z.to_nat n) l)) n B HB). lia.
Qed.

(** The state setters of the remaining handlers. *)
Lemma set_struct_slots_wf m v : vm_wf m -> cells 1024 in_i64 v -> vm_wf (set_struct_slots m v).
Proof. wf_set. Qed.
Lemma set_struct_field_counts_wf m v :
  vm_wf m -> cells 16 in_u8 v -> vm_wf (set_struct_field_counts m v).
Proof. wf_set. Qed.
Lemma set_struct_bases_wf m v : vm_wf m -> cells 16 in_u16 v -> vm_wf (set_struct_bases m v).
Proof. wf_set. Qed.
Lemma set_table_lens_wf m v : vm_wf m -> cells 16 in_u8 v -> vm_wf (set_table_lens m v).
Proof. wf_set. Qed.
Lemma set_table_bases_wf m v : vm_wf m -> cells 16 in_u8 v -> vm_wf (set_table_bases m v).
Proof. wf_set. Qed.
Lemma set_call_stack_wf m v : vm_wf m -> cells 8 in_u16 v -> vm_wf (set_call_stack m v).
Proof. wf_set. Qed.
Lemma set_frame_stack_wf m v :
  vm_wf m -> len v = 8 /\ Forall (cells 16 in_i64) v -> vm_wf (set_frame_stack m v).
Proof. wf_set. Qed.
Lemma set_call_sp_wf m v : vm_wf m -> 0 <= v <= 8 -> vm_wf (set_call_sp m v).
Proof. wf_set. Qed.
Lemma set_deadline_stack_wf m v : vm_wf m -> cells 8 in_u64 v -> vm_wf (set_deadline_stack m v).
Proof. wf_set. Qed.
Lemma set_dl_sp_wf m v : vm_wf m -> 0 <= v <= 8 -> vm_wf (set_dl_sp m v).
Proof. wf_set. Qed.
Lemma set_vram_wf m v :
  vm_wf m -> len v = 4 /\ Forall (cells 4096 in_u8) v -> vm_wf (set_vram m v).
Proof. wf_set. Qed.
Lemma set_spill_slots_wf m v : vm_wf m -> cells 32 in_i64 v -> vm_wf (set_spill_slots m v).
Proof. wf_set. Qed.

Lemma STRUCT_DEF_wf m rd rs1 : vm_wf m -> 0 <= rd -> in_u8 rs1 -> vm_wf (exec_STRUCT_DEF m rd rs1).
Proof.
  intros Hm Hd Hs. unfold exec_STRUCT_DEF. case_match eqn:Hlt; [|done].
  apply Z.ltb_lt in Hlt.
  assert (H1 : vm_wf (set_struct_field_counts m (setZ (struct_field_counts m) rd rs1)))
    by (apply set_struct_field_counts_wf; [done | by apply cells_setZ, Hs; apply Hm]).
  set (m1 := set_struct_field_counts m _) in *.
  apply set_struct_bases_wf; [done|]. apply cells_setZ; [apply H1|].
  pose proof (sum_before_bound (struct_field_counts m1) rd 255) as Hb.
  assert (Forall (fun x => 0 <= x <= 255) (struct_field_counts m1)) as Hf.
  { eapply Forall_impl; [exact (proj2 (struct_counts_wf m1 H1))|]. unfold in_u8. lia. }
  specialize (Hb ltac:(done) Hf Hd). unfold in_u16. lia.
Qed.

Lemma STRUCT_LOAD_keeps m rd rs1 rs2 : vm_wf m -> keeps (exec_STRUCT_LOAD m rd rs1 rs2).
Proof.
  intros Hm. unfold exec_STRUCT_LOAD. apply keeps_if; [apply keeps_err|].
  apply keeps_bind; intros b _. apply keeps_bind; intros v Hv.
  apply keeps_ret, set_reg_wf; [done|]. eapply idx_cells; [exact (struct_slots_wf m Hm) | done].
Qed.

Lemma STRUCT_STORE_keeps m rd rs1 rs2 : vm_wf m -> keeps (exec_STRUCT_STORE m rd rs1 rs2).
Proof.
  intros Hm. unfold exec_STRUCT_STORE. apply keeps_if; [apply keeps_err|].
  apply keeps_bind; intros b _. apply keeps_bind; intros l Hl.
  apply keeps_ret, set_struct_slots_wf; [done|].
  eapply upd_cells; [exact (struct_slots_wf m Hm) | | done]. auto with vm.
Qed.

Lemma TBL_DEF_wf m rd rs1 rs2 :
  vm_wf m -> in_u8 rs1 -> in_u8 rs2 -> vm_wf (exec_TBL_DEF m rd rs1 rs2).
Proof.
  intros Hm H1 H2. unfold exec_TBL_DEF. case_match; [|done].
  apply set_table_lens_wf; [apply set_table_bases_wf; [done|]|].
  - by apply cells_setZ, H1; apply Hm.
  - by apply cells_setZ, H2; apply Hm.
Qed.

Lemma TBL_LOAD_keeps p m rd rs1 rs2 :
  program_wf p -> vm_wf m -> keeps (exec_TBL_LOAD p m rd rs1 rs2).
Proof.
  intros Hp Hm. unfold exec_TBL_LOAD. apply keeps_if; [apply keeps_err|].
  apply keeps_bind; intros ml _. apply keeps_if; [apply keeps_err|].
  apply keeps_bind; intros b _. apply keeps_if; [apply keeps_err|].
  apply keeps_bind; intros v Hv%idx_Ok. apply keeps_ret, set_reg_wf; [done|].
  by apply (Forall_getZ _ _ _ _ (const_pool_wf p Hp)) in Hv.
Qed.

Lemma CALL_keeps m imm : vm_wf m -> in_u16 imm -> keeps (exec_CALL m imm).
Proof.
  intros Hm Hi. unfold exec_CALL, MAX_CALL_DEPTH. destruct (8 <=? call_sp m) eqn:Hle; [apply keeps_err|].
  apply Z.leb_gt in Hle. apply keeps_bind; intros cs Hcs. apply keeps_bind; intros fs Hfs.
  apply keeps_ret, set_ip_wf; [|done]. pose proof (call_sp_wf m Hm).
  apply set_call_sp_wf; [|lia].
  apply set_frame_stack_wf; [apply set_call_stack_wf; [done|]|].
  - eapply upd_cells; [exact (call_stack_wf m Hm) | apply as_u16_range | done].
  - destruct (frame_stack_wf m Hm) as [L F]. apply upd_Ok in Hfs as [_ ->].
    split; [by rewrite len_setZ|]. apply Forall_setZ; [done|].
    destruct (regs_wf m Hm) as [Lr Fr].
    split; [rewrite len_sub; lia | by apply Forall_sub].
Qed.

Lemma cells_Some n l i (x : Z) (P : Z -> Prop) : cells n P l -> getZ l i = Some x -> P x.
Proof. intros [_ H] Hg. by eapply Forall_getZ. Qed.

Lemma RET_keeps m : vm_wf m -> keeps_flow (exec_RET m).
Proof.
  intros Hm f m'. unfold exec_RET. case_match eqn:Hz; [by intros [= _ <-]|].
  apply Z.eqb_neq in Hz. pose proof (call_sp_wf m Hm). cbv zeta.
  intros (ri & Hri%idx_Ok & (fr & Hfr%idx_Ok & [= _ <-])%bind_Ok)%bind_Ok. simpl in *.
  assert (in_u16 ri) by (eapply cells_Some; [exact (call_stack_wf m Hm) | done]).
  assert (cells 16 in_i64 fr) as [Lf Ff]
    by (eapply Forall_getZ; [apply (frame_stack_wf m Hm) | done]).
  apply set_ip_wf; [|done]. apply set_reg_wf; [|apply reg_range, set_call_sp_wf; [done|lia]].
  apply set_regs_wf; [apply set_call_sp_wf; [done|lia]|].
  destruct (regs_wf m Hm) as [Lr Fr].
  split; [rewrite len_splice; lia | by apply Forall_splice].
Qed.

Lemma MOV_STR_wf m rd rs1 rs2 :
  vm_wf m -> in_u8 rs2 -> vm_wf (exec_MOV_STR m rd rs1 rs2).
Proof.
  intros Hm H2. apply set_reg_wf; [done|].
  apply in_i64_lor; [apply in_i64_lor; [done | auto with vm] | auto with vm].
Qed.

Lemma DIV_keeps m rd rs1 rs2 : vm_wf m -> keeps (exec_DIV m rd rs1 rs2).
Proof.
  intros Hm. unfold exec_DIV. apply keeps_if; [|by apply keeps_ret].
  apply keeps_if; [apply keeps_err|].
  apply keeps_ret, set_reg_wf; [done | apply as_i64_range].
Qed.

Lemma MOD_keeps m rd rs1 rs2 : vm_wf m -> keeps (exec_MOD m rd rs1 rs2).
Proof.
  intros Hm. unfold exec_MOD. apply keeps_if; [|by apply keeps_ret].
  apply keeps_if; [apply keeps_err|].
  apply keeps_ret, set_reg_wf; [done | apply wrapping_rem_range].
Qed.

Lemma SPILL_STORE_wf m rd rs1 : vm_wf m -> vm_wf (exec_SPILL_STORE m rd rs1).
Proof.
  intros Hm. unfold exec_SPILL_STORE. case_match; [|done].
  apply set_spill_slots_wf; [done|]. apply cells_setZ; [apply Hm | auto with vm].
Qed.

Lemma SPILL_LOAD_wf m rd rs1 : vm_wf m -> vm_wf (exec_SPILL_LOAD m rd rs1).
Proof.
  intros Hm. apply set_reg_wf; [done|]. case_match; [|done].
  eapply cells_default; [exact (spill_slots_wf m Hm) | done].
Qed.

(** ** Natives *)

Lemma keeps_nat_ret m v : vm_wf m -> in_i64 v -> keeps_nat (mret (v, m)).
Proof. by intros Hm Hv ?? [= <- <-]. Qed.

Lemma keeps_nat_mret (r : Z * vm) :
  (forall v m', r = (v, m') -> in_i64 v /\ vm_wf m') -> keeps_nat (mret r).
Proof. intros H v m' Hr%ret_Ok. by apply H. Qed.

Lemma keeps_pure m r :
  vm_wf m -> (forall v, r = Ok v -> in_i64 v) -> keeps_nat (pure_native m r).
Proof. intros Hm Hr v m' (a & Ha & [= <- <-])%bind_Ok. auto. Qed.

Lemma arg_before_range m a n d v :
  vm_wf m -> in_i64 d -> arg_before m a n d = Ok v -> in_i64 v.
Proof.
  intros Hm Hd. unfold arg_before. case_match; [|by intros [= <-]].
  intros Hv. eapply idx_cells; [exact (regs_wf m Hm) | done].
Qed.

Lemma i32_i64 z : in_i64 (as_i32 z).
Proof.
  unfold in_i64, as_i32, wrapS. change (2 ^ (32 - 1)) with (2 ^ 31).
  pose proof (Z.mod_pos_bound (z + 2 ^ 31) (2 ^ 32) ltac:(done)). lia.
Qed.

Lemma host_query_wf h m : vm_wf m -> vm_wf (snd (host_tsc h m)).
Proof. apply set_host_calls_wf. Qed.

Lemma get_tsc_keeps h m : vm_wf m -> keeps_nat (mret (get_tsc h m)).
Proof.
  intros Hm. apply keeps_nat_mret. intros v m'. unfold get_tsc, host_tsc.
  destruct (replay_config m) as [[[] ? ? ? ?]|]; simpl; intros [= <- <-];
    (split; [apply as_i64_range | try by apply set_host_calls_wf]).
  done.
Qed.

Lemma get_uptime_keeps h m : vm_wf m -> keeps_nat (mret (get_uptime_ns h m)).
Proof.
  intros Hm. apply keeps_nat_mret. intros v m'. unfold get_uptime_ns, host_tsc.
  destruct (replay_config m) as [[[] ? ? ? ?]|]; simpl; intros [= <- <-];
    (split; [apply as_i64_range | try by apply set_host_calls_wf]).
  done.
Qed.

Lemma len_i64 {A} (l : list A) : len l < 2 ^ 63 -> in_i64 (len l).
Proof. pose proof (len_nonneg l). unfold in_i64. lia. Qed.

Lemma get_str_bytes_i64 p v s :
  program_wf p -> get_str_bytes p v = Some s -> in_i64 (len s).
Proof. intros Hp Hs. apply len_i64. by apply (get_str_bytes_len p v). Qed.

Lemma FILE_WRITE_keeps h p m a v :
  program_wf p -> vm_wf m -> keeps_nat (native_FILE_WRITE h p m a v).
Proof.
  intros Hp Hm v' m'. unfold native_FILE_WRITE.
  intros (c & Hc & H)%bind_Ok. revert H.
  destruct (get_str p v); [|by intros [= <- <-]].
  destruct (get_str_bytes p c) eqn:Hs; [|by intros [= <- <-]].
  unfold query_host. intros [= <- <-]. split; [|auto with vm].
  case_match; [|done]. by eapply get_str_bytes_i64.
Qed.

Lemma FILE_EXISTS_keeps h p m v : vm_wf m -> keeps_nat (mret (native_FILE_EXISTS h p m v)).
Proof.
  intros Hm. apply keeps_nat_mret. intros v' m'. unfold native_FILE_EXISTS, query_host.
  case_match; intros [= <- <-]; auto with vm.
Qed.

Lemma CHAR_AT_range p m a v r :
  program_wf p -> native_CHAR_AT p m a v = Ok r -> in_i64 r.
Proof.
  intros Hp (i & Hi & [= <-])%bind_Ok. case_match eqn:Hs; [|done]. case_match; [|done].
  destruct (getZ _ i) eqn:Hg; [simpl | done].
  apply in_u8_i64. apply get_str_bytes_len in Hs as [Hb _]; [|done].
  by eapply Forall_getZ.
Qed.

Lemma VRAM_READ_range m a v r : native_VRAM_READ m a v = Ok r -> in_i64 r.
Proof.
  unfold native_VRAM_READ.
  intros (o & _ & (s & _ & H)%bind_Ok)%bind_Ok. revert H.
  repeat case_match; [done | | | by intros [= <-]].
  - intros (b & _ & [= <-])%bind_Ok. apply as_i64_range.
  - intros (b & _ & [= <-])%bind_Ok. apply i32_i64.
Qed.

Lemma VRAM_WRITE_keeps m a v : vm_wf m -> keeps_nat (native_VRAM_WRITE m a v).
Proof.
  intros Hm r m'. unfold native_VRAM_WRITE.
  intros (o & _ & (w & _ & (s & Hs%idx_Ok & H)%bind_Ok)%bind_Ok)%bind_Ok. revert H.
  repeat case_match; [done | | by intros [= <- <-]].
  intros (b & Hb & [= <- <-])%bind_Ok. split; [done|].
  destruct (vram_wf m Hm) as [L F]. apply set_vram_wf; [done|].
  split; [by rewrite len_setZ|]. apply Forall_setZ; [done|].
  pose proof (Forall_getZ _ _ _ _ F Hs) as [Ls Fs].
  apply blit_Ok in Hb as (H1 & H2 & ->). split; [by rewrite len_splice|].
  apply Forall_splice; [done | apply Z_to_le_bytes].
Qed.

Lemma popcnt_i64 z : in_i64 (count_ones z).
Proof. pose proof (count_bits_range 64 z). unfold in_i64, count_ones. lia. Qed.

Lemma lzcnt_i64 z : in_i64 (leading_zeros (as_u64 z)).
Proof. pose proof (leading_zeros_range _ (as_u64_range z)). unfold in_i64. lia. Qed.

Lemma SCRIPT_ARG_range p v : in_i64 v -> in_i64 (native_SCRIPT_ARG p v).
Proof.
  intros Hv. unfold native_SCRIPT_ARG. case_match; [|done].
  apply in_i64_lor; [done|]. by apply in_i64_land.
Qed.

Lemma CRC32_range m a v r : native_CRC32 m a v = Ok r -> in_i64 r.
Proof.
  intros (w & _ & <-%ret_Ok)%bind_Ok. apply in_i64_lxor.
  - pose proof (compute_crc32_u32 _ (Z_to_le_bytes 8 (as_u64 w))) as H.
    unfold in_u32 in H. unfold in_i64. lia.
  - pose proof (as_u32_range v) as H. unfold in_u32 in H. unfold in_i64. lia.
Qed.

(** Natives whose value is computed from registers. *)
Lemma arg1_range m a d (f : Z -> result Z) r :
  vm_wf m -> in_i64 d -> (forall w, in_i64 w -> f w = Ok r -> in_i64 r) ->
  (w ← arg_before m a 0 d; f w) = Ok r -> in_i64 r.
Proof. intros Hm Hd Hf (w & Hw & H)%bind_Ok. eauto using arg_before_range. Qed.

Lemma MIN_range m a v r : vm_wf m -> in_i64 v -> native_MATH_MIN m a v = Ok r -> in_i64 r.
Proof.
  intros Hm Hv. apply arg1_range; [done..|]. intros w Hw [= <-]. unfold in_i64 in *. lia.
Qed.

Lemma MAX_range m a v r : vm_wf m -> in_i64 v -> native_MATH_MAX m a v = Ok r -> in_i64 r.
Proof.
  intros Hm Hv. apply arg1_range; [done..|]. intros w Hw [= <-]. unfold in_i64 in *. lia.
Qed.

Lemma CLAMP_range m a v r : vm_wf m -> in_i64 v -> native_MATH_CLAMP m a v = Ok r -> in_i64 r.
Proof.
  intros Hm Hv. apply arg1_range; [done..|].
  intros w Hw (x & Hx%(arg_before_range _ _ _ _ _ Hm in_i64_0) & [= <-])%bind_Ok.
  unfold in_i64 in *. lia.
Qed.

Lemma STREQ_range p m a v r : native_STREQ p m a v = Ok r -> in_i64 r.
Proof. intros (w & _ & [= <-])%bind_Ok. case_match; auto with vm. Qed.

Lemma UNWRAP_range v r : in_i64 v -> native_UNWRAP v = Ok r -> in_i64 r.
Proof. unfold native_UNWRAP. intros Hv. case_match; [done | by intros [= <-]]. Qed.

Lemma FIX_TO_FIX_range m a v r : native_FIX_TO_FIX m a v = Ok r -> in_i64 r.
Proof. intros (q & _ & [= <-])%bind_Ok. apply as_i64_range. Qed.

Lemma FIX_TO_I64_range m a v r : in_i64 v -> native_FIX_TO_I64 m a v = Ok r -> in_i64 r.
Proof. intros Hv (q & _ & [= <-])%bind_Ok. by apply wrapping_shr_range. Qed.

Lemma FIX_MUL_range m a v r : native_FIX_MUL m a v = Ok r -> in_i64 r.
Proof.
  intros (b & _ & (q & _ & [= <-])%bind_Ok)%bind_Ok.
  apply wrapping_shr_range, as_i64_range.
Qed.

Lemma FIX_DIV_range m a v r : native_FIX_DIV m a v = Ok r -> in_i64 r.
Proof.
  intros (b & _ & (q & _ & H)%bind_Ok)%bind_Ok. revert H.
  case_match; [done|]. intros [= <-]. apply as_i64_range.
Qed.

Lemma SYS_const_i64 : in_i64 3000000000.
Proof. done. Qed.

Lemma TERM_READ_KEY_keeps h m : vm_wf m -> keeps_nat (mret (native_TERM_READ_KEY h m)).
Proof.
  intros Hm. apply keeps_nat_mret. intros v m'. unfold native_TERM_READ_KEY, query_host.
  intros [= <- <-]. split; [apply i32_i64|].
  apply set_host_calls_wf, set_steps_wf; [done|]. pose proof (steps_wf m Hm). lia.
Qed.

Lemma TERM_SIZE_keeps h m : vm_wf m -> keeps_nat (mret (native_TERM_SIZE h m)).
Proof.
  intros Hm. apply keeps_nat_mret. intros v m'. unfold native_TERM_SIZE, query_host.
  intros [= <- <-]. split; [apply as_i64_range | auto with vm].
Qed.

Lemma PRINTLN_wf p m a v : vm_wf m -> vm_wf (native_PRINTLN p m a v).
Proof. intros Hm. unfold native_PRINTLN. case_match; auto with vm. Qed.

Lemma STR_LEN_range p v : program_wf p -> in_i64 (native_STR_LEN p v).
Proof.
  intros Hp. unfold native_STR_LEN. case_match eqn:Hs; [by eapply get_str_bytes_i64 | done].
Qed.

Lemma keeps_nat_if (b : bool) (x y : result (Z * vm)) :
  keeps_nat x -> keeps_nat y -> keeps_nat (if b then x else y).
Proof. by destruct b. Qed.

#[export] Hint Resolve keeps_nat_ret keeps_pure get_tsc_keeps get_uptime_keeps
  FILE_WRITE_keeps FILE_EXISTS_keeps VRAM_WRITE_keeps popcnt_i64 lzcnt_i64
  SCRIPT_ARG_range SYS_const_i64 TERM_READ_KEY_keeps TERM_SIZE_keeps PRINTLN_wf STR_LEN_range : vm.

Lemma PRINT_wf p m v : vm_wf m -> vm_wf (native_PRINT p m v).
Proof. apply write_wf. Qed.

Lemma TAG_OK_range v : in_i64 v -> in_i64 (native_TAG_OK v).
Proof. intros. by apply in_i64_land, in_i64_lnot. Qed.

Lemma TAG_ERR_range v : in_i64 v -> in_i64 (native_TAG_ERR v).
Proof. intros. apply in_i64_lor; [done | by apply in_i64_land, in_i64_lnot]. Qed.

Lemma IS_OK_range v : in_i64 (native_IS_OK v).
Proof. apply b2z_range. Qed.

Lemma IS_ERR_range v : in_i64 (native_IS_ERR v).
Proof. apply b2z_range. Qed.

#[export] Hint Resolve PRINT_wf TAG_OK_range TAG_ERR_range IS_OK_range IS_ERR_range : vm.

(** The range of a register native's result, by its name. *)
Ltac native_range :=
  match goal with
  | H : native_CHAR_AT _ _ _ _ = Ok _ |- _ => eapply CHAR_AT_range; [|exact H]
  | H : native_UNWRAP _ = Ok _ |- _ => eapply UNWRAP_range; [|exact H]
  | H : native_STREQ _ _ _ _ = Ok _ |- _ => exact (STREQ_range _ _ _ _ _ H)
  | H : native_MATH_MIN _ _ _ = Ok _ |- _ => eapply MIN_range; [| |exact H]
  | H : native_MATH_MAX _ _ _ = Ok _ |- _ => eapply MAX_range; [| |exact H]
  | H : native_MATH_CLAMP _ _ _ = Ok _ |- _ => eapply CLAMP_range; [| |exact H]
  | H : native_CRC32 _ _ _ = Ok _ |- _ => exact (CRC32_range _ _ _ _ H)
  | H : native_VRAM_READ _ _ _ = Ok _ |- _ => exact (VRAM_READ_range _ _ _ _ H)
  | H : native_FIX_TO_FIX _ _ _ = Ok _ |- _ => exact (FIX_TO_FIX_range _ _ _ _ H)
  | H : native_FIX_TO_I64 _ _ _ = Ok _ |- _ => eapply FIX_TO_I64_range; [|exact H]
  | H : native_FIX_MUL _ _ _ = Ok _ |- _ => exact (FIX_MUL_range _ _ _ _ H)
  | H : native_FIX_DIV _ _ _ = Ok _ |- _ => exact (FIX_DIV_range _ _ _ _ H)
  end; assumption.

Lemma native_keeps h p m f a v :
  program_wf p -> vm_wf m -> in_i64 v -> keeps_nat (native h p m f a v).
Proof.
  intros Hp Hm Hv. unfold native.
  repeat apply keeps_nat_if;
    match goal with
    | |- keeps_nat (mret (len _, _)) => apply keeps_nat_ret; [done | apply len_i64, Hp]
    | |- keeps_nat (pure_native _ _) => apply keeps_pure; [done | intros r Hr; native_range]
    | |- keeps_nat (mret (_, _)) => apply keeps_nat_ret; auto with vm
    | |- _ => auto with vm
    end.
Qed.

Lemma CALL_NAT_keeps h p m rd rs1 rs2 :
  program_wf p -> vm_wf m -> keeps (exec_CALL_NAT h p m rd rs1 rs2).
Proof.
  intros Hp Hm. unfold exec_CALL_NAT. apply keeps_bind. intros [v m1] Hn.
  apply native_keeps in Hn as [Hv Hm1]; auto with vm.
Qed.

Lemma get_uptime_wf h m v m1 : vm_wf m -> get_uptime_ns h m = (v, m1) -> in_i64 v /\ vm_wf m1.
Proof. intros Hm E. apply (get_uptime_keeps h m Hm). by rewrite E. Qed.

Lemma WITHIN_START_keeps h m rd : vm_wf m -> keeps (exec_WITHIN_START h m rd).
Proof.
  intros Hm. unfold exec_WITHIN_START. destruct (get_uptime_ns h m) as [now m1] eqn:E.
  apply get_uptime_wf in E as [_ Hm1]; [|done].
  destruct (dl_sp m1 <? 8) eqn:Hlt; [|by apply keeps_ret]. apply Z.ltb_lt in Hlt.
  pose proof (dl_sp_wf m1 Hm1).
  apply keeps_bind. intros ds Hds. apply keeps_ret, set_dl_sp_wf; [|lia].
  apply set_deadline_stack_wf; [done|].
  eapply upd_cells; [exact (deadline_stack_wf m1 Hm1) | apply as_u64_range | done].
Qed.

Lemma WITHIN_END_wf m : vm_wf m -> vm_wf (exec_WITHIN_END m).
Proof.
  intros Hm. unfold exec_WITHIN_END. case_match; [|done].
  pose proof (dl_sp_wf m Hm). apply set_dl_sp_wf; [done | lia].
Qed.

Lemma DROP_keeps h m : vm_wf m -> keeps (exec_DROP h m).
Proof.
  intros Hm. unfold exec_DROP. apply keeps_if; [|by apply keeps_ret].
  apply keeps_bind. intros dl _. destruct (get_uptime_ns h m) as [now m1] eqn:E.
  apply get_uptime_wf in E as [_ Hm1]; [|done].
  apply keeps_ret. case_match; auto with vm.
Qed.

Lemma JMP_wf m i : vm_wf m -> in_u16 i -> vm_wf (exec_JMP m i).
Proof. apply set_ip_wf. Qed.
Lemma JZ_wf m rd i : vm_wf m -> in_u16 i -> vm_wf (exec_JZ m rd i).
Proof. intros. unfold exec_JZ. case_match; [by apply set_ip_wf | done]. Qed.
Lemma JNZ_wf m rd i : vm_wf m -> in_u16 i -> vm_wf (exec_JNZ m rd i).
Proof. intros. unfold exec_JNZ. case_match; [by apply set_ip_wf | done]. Qed.

Lemma ASSERT_keeps m rd : vm_wf m -> keeps (exec_ASSERT m rd).
Proof. intros. unfold exec_ASSERT. apply keeps_if; [apply keeps_err | by apply keeps_ret]. Qed.

Lemma keeps_flow_if (b : bool) (x y : result (flow * vm)) :
  keeps_flow x -> keeps_flow y -> keeps_flow (if b then x else y).
Proof. by destruct b. Qed.

Lemma keeps_next_ret m : vm_wf m -> keeps_flow (next (mret m)).
Proof. intros. by apply keeps_next, keeps_ret. Qed.

Lemma keeps_break m : vm_wf m -> keeps_flow (mret (Break, m)).
Proof. by intros H f m' [= _ <-]. Qed.

Lemma keeps_flow_err e : keeps_flow (Err e).
Proof. by intros ???. Qed.

Lemma imm16_range rs1 rs2 : in_u8 rs1 -> in_u8 rs2 -> in_u16 (rs1 * 256 + rs2).
Proof. unfold in_u8, in_u16. lia. Qed.

(** The two- and three-register instructions, whatever the operation. *)
Ltac alu_wf :=
  first [apply alu2_wf | apply alu3_wf | apply set_reg_wf]; [assumption | intros];
  first [apply as_i64_range | solve [auto with vm] | repeat case_match; auto with vm; done].

Lemma exec_keeps h p m op rd rs1 rs2 :
  program_wf p -> vm_wf m -> in_u8 rd -> in_u8 rs1 -> in_u8 rs2 ->
  keeps_flow (exec h p m op rd rs1 rs2).
Proof.
  intros Hp Hm Hd H1 H2. pose proof (imm16_range rs1 rs2 H1 H2) as Hi. unfold exec.
  assert (0 <= rd) by (unfold in_u8 in Hd; lia).
  repeat match goal with |- keeps_flow (if _ then _ else _) => apply keeps_flow_if end;
    first [ apply keeps_flow_err | by apply keeps_break | by apply RET_keeps
          | apply keeps_next_ret | apply keeps_next ];
    first [ done
          | solve [auto using LDC_keeps, ARR_DEF_wf, ARR_LOAD_keeps, ARR_STORE_keeps, STRUCT_DEF_wf,
              STRUCT_LOAD_keeps, STRUCT_STORE_keeps, TBL_DEF_wf, TBL_LOAD_keeps, ASSERT_keeps,
              CALL_keeps, MOV_STR_wf, DIV_keeps, MOD_keeps, SPILL_STORE_wf, SPILL_LOAD_wf,
              JMP_wf, JZ_wf, JNZ_wf, CALL_NAT_keeps, WITHIN_START_keeps, WITHIN_END_wf,
              DROP_keeps]
          | alu_wf ].
Qed.
