(* ===== verification/VmRun.v ===== *)
(** Every run of the px64 virtual machine keeps the state invariant, respects
    the instruction limit, and terminates unless the program polls the
    keyboard; the poll resets the limit, and a program that polls for ever
    never stops. *)

From S2P Require Import Prelude RustStd Isa Token Error Crc VmState VmExec Vm.
Local Open Scope Z_scope.

(** * One step *)

Lemma fetch_ok p i :
  program_wf p -> 0 <= i -> i + 4 <= len (code p) ->
  exists op rd rs1 rs2, fetch p i = Ok (op, rd, rs1, rs2) /\
    getZ (code p) i = Some op /\ getZ (code p) (i + 1) = Some rd /\
    getZ (code p) (i + 2) = Some rs1 /\ getZ (code p) (i + 3) = Some rs2 /\
    in_u8 op /\ in_u8 rd /\ in_u8 rs1 /\ in_u8 rs2.
Proof.
  intros Hp H0 H4. unfold fetch.
  assert (Hc : forall j, 0 <= j < len (code p) ->
    exists b, @idx CompileError _ (code p) j = Ok b /\ getZ (code p) j = Some b /\ in_u8 b).
  { intros j Hj. destruct (@idx_in_range CompileError _ (code p) j Hj) as (b & Hb & Hg).
    exists b. split_and!; [done..|]. eapply Forall_getZ; [apply Hp | done]. }
  destruct (Hc i) as (op & -> & ? & ?); [lia|].
  destruct (Hc (i + 1)) as (rd & -> & ? & ?); [lia|].
  destruct (Hc (i + 2)) as (rs1 & -> & ? & ?); [lia|].
  destruct (Hc (i + 3)) as (rs2 & -> & ? & ?); [lia|].
  by exists op, rd, rs1, rs2.
Qed.

(** The machine an instruction starts from: the step counted, the instruction
    pointer advanced. *)
Definition fetched (m : vm) : vm := set_ip (set_steps m (steps m + 1)) (ip m + 4).

Lemma fetched_wf p m :
  program_wf p -> vm_wf m -> ip m + 4 <= len (code p) -> steps m < max_steps m ->
  vm_wf (fetched m).
Proof.
  intros Hp Hm Hi Hs. pose proof (ip_wf m Hm). pose proof (steps_wf m Hm).
  pose proof (code_len_wf p Hp). apply set_ip_wf; [|lia]. apply set_steps_wf; [done | lia].
Qed.

(** The cases of a step: the end of the code, the limit, or an instruction. *)
Lemma step_cases h p m m' r :
  program_wf p -> vm_wf m -> step h p m = (m', r) ->
  (len (code p) < ip m + 4 /\ m' = m /\ r = Ok Break) \/
  (max_steps m <= steps m /\ m' = m /\ r = Err wcet_exceeded) \/
  (ip m + 4 <= len (code p) /\ steps m < max_steps m /\ vm_wf (fetched m) /\
   exists op rd rs1 rs2, fetch p (ip m) = Ok (op, rd, rs1, rs2) /\
     in_u8 rd /\ in_u8 rs1 /\ in_u8 rs2 /\
     match exec h p (fetched m) op rd rs1 rs2 with
     | Ok (f, m1) => m' = m1 /\ r = Ok f
     | Err e => m' = fetched m /\ r = Err e
     | Panic k => m' = fetched m /\ r = Panic k
     end).
Proof.
  intros Hp Hm. unfold step. pose proof (ip_wf m Hm) as [H0 _].
  destruct (Z.ltb_spec (len (code p)) (ip m + 4)) as [Hi|Hi]; [intros [= <- <-]; by left|].
  destruct (Z.leb_spec (max_steps m) (steps m)) as [Hs|Hs]; [intros [= <- <-]; by right; left|].
  destruct (fetch_ok p (ip m) Hp H0 Hi)
    as (op & rd & rs1 & rs2 & Hf & _ & _ & _ & _ & _ & Hd & H1 & H2).
  cbv zeta. change (ip (set_steps m (steps m + 1))) with (ip m). rewrite Hf.
  change (set_ip (set_steps m (steps m + 1)) (ip m + 4)) with (fetched m).
  intros Hx. right; right. split_and!; [done..|by eapply fetched_wf|].
  exists op, rd, rs1, rs2. split_and!; [done..|].
  destruct (exec h p (fetched m) op rd rs1 rs2) as [[f m1]|e|k]; by injection Hx as <- <-.
Qed.

Lemma step_wf h p m m' r :
  program_wf p -> vm_wf m -> step h p m = (m', r) -> vm_wf m'.
Proof.
  intros Hp Hm H. destruct (step_cases h p m m' r Hp Hm H)
    as [(_ & -> & _)|[(_ & -> & _)|(_ & _ & Hw & op & rd & rs1 & rs2 & _ & ? & ? & ? & Hx)]];
    [done..|].
  destruct (exec h p (fetched m) op rd rs1 rs2) as [[f m1]|e|k] eqn:E; destruct Hx as [-> _];
    [|done..].
  by apply exec_keeps in E.
Qed.

Lemma fetch_getZ p i op rd rs1 rs2 :
  fetch p i = Ok (op, rd, rs1, rs2) ->
  getZ (code p) i = Some op /\ getZ (code p) (i + 1) = Some rd /\
  getZ (code p) (i + 2) = Some rs1 /\ getZ (code p) (i + 3) = Some rs2.
Proof.
  intros (a & ?%idx_Ok & (b & ?%idx_Ok & (c & ?%idx_Ok & (d & ?%idx_Ok & E)%bind_Ok)
    %bind_Ok)%bind_Ok)%bind_Ok.
  by injection E as <- <- <- <-.
Qed.

(** * What an instruction leaves alone

    No instruction changes the limit or the replay configuration, only the
    keyboard poll changes the step counter, and only [ARR_DEF] and [STRUCT_DEF]
    change the memory layout. *)

Definition layout (m : vm) : list Z * list Z * list Z * list Z :=
  (array_lens m, array_bases m, struct_field_counts m, struct_bases m).

Definition same_config (m m' : vm) : Prop :=
  max_steps m' = max_steps m /\ replay_config m' = replay_config m /\ steps m' = steps m.

Definition frame (m m' : vm) : Prop := same_config m m' /\ layout m' = layout m.

#[export] Instance frame_preorder : PreOrder frame.
Proof.
  unfold frame, same_config. split; [by intros m|].
  intros m1 m2 m3 [(? & ? & ?) ?] [(? & ? & ?) ?]. split_and!; congruence.
Qed.

Definition frames (m : vm) (r : result vm) : Prop := forall m', r = Ok m' -> frame m m'.
Definition frames_nat (m : vm) (r : result (Z * vm)) : Prop :=
  forall v m', r = Ok (v, m') -> frame m m'.

Lemma frame_set_reg m r v : frame m (set_reg m r v).
Proof. unfold set_reg. by case_match. Qed.

Lemma frame_alu2 m rd rs1 f : frame m (alu2 m rd rs1 f).
Proof. unfold alu2. case_match; [apply frame_set_reg | done]. Qed.

Lemma frame_alu3 m rd rs1 rs2 f : frame m (alu3 m rd rs1 rs2 f).
Proof. unfold alu3. case_match; [apply frame_set_reg | done]. Qed.

Lemma frames_ret m m' : frame m m' -> frames m (mret m').
Proof. by intros H m'' <-%ret_Ok. Qed.

Lemma frames_err m e : frames m (Err e).
Proof. by intros ??. Qed.

Lemma frames_bind {A} m (r : result A) (f : A -> result vm) :
  (forall a, r = Ok a -> frames m (f a)) -> frames m (r ≫= f).
Proof. intros H m' (a & Ha & Hf)%bind_Ok. by eapply H. Qed.

Lemma frames_if m (b : bool) (x y : result vm) :
  frames m x -> frames m y -> frames m (if b then x else y).
Proof. by destruct b. Qed.

#[export] Hint Resolve frame_set_reg frame_alu2 frame_alu3 frames_ret : frame.

(** Descend through a handler's guards and binds to the states it returns. *)
Ltac frame_solve :=
  repeat match goal with
  | |- frames _ (if _ then _ else _) => apply frames_if
  | |- frames _ (err _ _) => apply frames_err
  | |- frames _ (_ ≫= _) => apply frames_bind; intros
  | |- frames _ (mret _) => apply frames_ret
  | |- frame _ (if _ then _ else _) => case_match
  end; first [done | solve [auto with frame] | by etransitivity; [|apply frame_set_reg]].

Lemma get_uptime_frame h m v m1 : get_uptime_ns h m = (v, m1) -> frame m m1.
Proof.
  unfold get_uptime_ns, host_tsc.
  destruct (replay_config m) as [[[] ? ? ? ?]|] eqn:E; simpl; intros [= <- <-];
    by rewrite ?E.
Qed.

Lemma get_tsc_frame h m v m1 : get_tsc h m = (v, m1) -> frame m m1.
Proof.
  unfold get_tsc, host_tsc.
  destruct (replay_config m) as [[[] ? ? ? ?]|] eqn:E; simpl; intros [= <- <-];
    by rewrite ?E.
Qed.

Lemma frames_nat_if m (b : bool) (x y : result (Z * vm)) :
  frames_nat m x -> frames_nat m y -> frames_nat m (if b then x else y).
Proof. by destruct b. Qed.

Lemma frames_nat_ret m v m' : frame m m' -> frames_nat m (mret (v, m')).
Proof. intros H w m'' E%ret_Ok. by injection E as <- <-. Qed.

Lemma frames_nat_mret m (r : Z * vm) : frame m (snd r) -> frames_nat m (mret r).
Proof. intros H w m'' E%ret_Ok. by subst. Qed.

Lemma frames_nat_pure m r : frames_nat m (pure_native m r).
Proof. intros v m' (a & _ & E%ret_Ok)%bind_Ok. by injection E as <- <-. Qed.

Lemma FILE_WRITE_frame h p m a v : frames_nat m (native_FILE_WRITE h p m a v).
Proof.
  intros w m' (c & _ & E%ret_Ok)%bind_Ok. revert E. unfold query_host.
  by repeat case_match; intros [= <- <-].
Qed.

Lemma VRAM_WRITE_frame m a v : frames_nat m (native_VRAM_WRITE m a v).
Proof.
  intros w m'. unfold native_VRAM_WRITE.
  intros (o & _ & (x & _ & (s & _ & H)%bind_Ok)%bind_Ok)%bind_Ok. revert H.
  repeat case_match; [done | | by intros [= <- <-]].
  intros (b & _ & E%ret_Ok)%bind_Ok. by injection E as <- <-.
Qed.

Lemma native_frame h p m f a v :
  f <> NATIVE_TERM_READ_KEY -> frames_nat m (native h p m f a v).
Proof.
  intros Hf. unfold native.
  destruct (Z.eqb_spec f NATIVE_TERM_READ_KEY) as [|_]; [done|].
  repeat match goal with
  | |- frames_nat _ (if _ then _ else _) => apply frames_nat_if
  end;
    first [ apply frames_nat_pure | apply FILE_WRITE_frame | apply VRAM_WRITE_frame
          | by apply frames_nat_ret | apply frames_nat_mret ].
  - simpl. unfold native_PRINTLN. by case_match.
  - destruct (get_tsc h m) eqn:E. by apply get_tsc_frame in E.
  - unfold native_FILE_EXISTS, query_host. by case_match.
  - destruct (get_uptime_ns h m) eqn:E. by apply get_uptime_frame in E.
Qed.

Definition frames_flow (m : vm) (r : result (flow * vm)) : Prop :=
  forall f m', r = Ok (f, m') -> frame m m'.

Lemma frames_next m r : frames m r -> frames_flow m (next r).
Proof. intros H f m' (a & Ha & E%ret_Ok)%bind_Ok. injection E as _ <-. by apply H. Qed.

Lemma frames_flow_if m (b : bool) (x y : result (flow * vm)) :
  frames_flow m x -> frames_flow m y -> frames_flow m (if b then x else y).
Proof. by destruct b. Qed.

Lemma RET_frame m : frames_flow m (exec_RET m).
Proof.
  unfold exec_RET. apply frames_flow_if; [by intros f m' [= _ <-]|].
  intros f m' (a & _ & (b & _ & E%ret_Ok)%bind_Ok)%bind_Ok. injection E as _ <-.
  unfold set_reg. by case_match.
Qed.

Lemma CALL_NAT_frame h p m rd rs1 rs2 :
  rs1 <> NATIVE_TERM_READ_KEY -> frames m (exec_CALL_NAT h p m rd rs1 rs2).
Proof.
  intros Hf. apply frames_bind. intros [v m1] Hn. apply native_frame in Hn; [|done].
  apply frames_ret. etransitivity; [exact Hn | apply frame_set_reg].
Qed.

Lemma WITHIN_START_frame h m rd : frames m (exec_WITHIN_START h m rd).
Proof.
  unfold exec_WITHIN_START. destruct (get_uptime_ns h m) as [now m1] eqn:E.
  apply get_uptime_frame in E. apply frames_if; [|by apply frames_ret].
  apply frames_bind. intros ds _. apply frames_ret. etransitivity; [exact E | done].
Qed.

Lemma DROP_frame h m : frames m (exec_DROP h m).
Proof.
  unfold exec_DROP. apply frames_if; [|by apply frames_ret]. apply frames_bind. intros dl _.
  destruct (get_uptime_ns h m) as [now m1] eqn:E. apply get_uptime_frame in E.
  apply frames_ret. case_match; [etransitivity; [exact E | done] | done].
Qed.

#[export] Hint Unfold exec_MOV_IMM exec_LDC exec_ADDI exec_SUBI exec_AND exec_OR exec_XOR
  exec_SHL exec_SHR exec_ARR_DEF exec_ARR_LOAD exec_ARR_STORE exec_STRUCT_DEF
  exec_STRUCT_LOAD exec_STRUCT_STORE exec_TBL_DEF exec_TBL_LOAD exec_ASSERT exec_CALL
  exec_MOV_REG exec_MOV_STR exec_ADD exec_SUB exec_MUL exec_DIV exec_MOD exec_CMP_EQ
  exec_SPILL_STORE exec_SPILL_LOAD exec_CMP_NE exec_STREQ exec_CMP_LT exec_CMP_LE
  exec_CMP_GT exec_CMP_GE exec_JMP exec_JZ exec_JNZ exec_WITHIN_END : px64.

Lemma exec_frame h p m op rd rs1 rs2 :
  ~ (op = PX64_OP_CALL_NAT /\ rs1 = NATIVE_TERM_READ_KEY) ->
  op <> PX64_OP_ARR_DEF -> op <> PX64_OP_STRUCT_DEF ->
  frames_flow m (exec h p m op rd rs1 rs2).
Proof.
  intros Hk Ha Hs. unfold exec.
  destruct (Z.eqb_spec op PX64_OP_ARR_DEF) as [|_]; [done|].
  destruct (Z.eqb_spec op PX64_OP_STRUCT_DEF) as [|_]; [done|].
  assert (Hc : op = PX64_OP_CALL_NAT -> frames m (exec_CALL_NAT h p m rd rs1 rs2))
    by (intros Ho; apply CALL_NAT_frame; naive_solver).
  destruct (Z.eqb_spec op PX64_OP_CALL_NAT) as [Ho|Ho]; [subst op|].
  { simpl. by apply frames_next, Hc. }
  repeat match goal with
  | |- frames_flow _ (if _ then _ else _) => apply frames_flow_if
  end;
    first [ by intros ? ? | by intros f m' [= _ <-] | apply RET_frame | apply frames_next ];
    first [ apply WITHIN_START_frame | apply DROP_frame
          | autounfold with px64; cbv zeta; frame_solve ].
Qed.

Lemma exec_same_config h p m op rd rs1 rs2 f m' :
  ~ (op = PX64_OP_CALL_NAT /\ rs1 = NATIVE_TERM_READ_KEY) ->
  exec h p m op rd rs1 rs2 = Ok (f, m') -> same_config m m'.
Proof.
  intros Hk.
  destruct (decide (op = PX64_OP_ARR_DEF)) as [->|Ha].
  { intros [= _ <-]. unfold exec_ARR_DEF. repeat case_match; done. }
  destruct (decide (op = PX64_OP_STRUCT_DEF)) as [->|Hs].
  { intros [= _ <-]. unfold exec_STRUCT_DEF. repeat case_match; done. }
  intros E. by apply exec_frame in E as [? _].
Qed.

(** * Termination *)

(** Whether the four bytes at some offset decode as a call of native [f]. *)
Definition calls_at (c : list Z) (f i : Z) : bool :=
  match getZ c i, getZ c (i + 2) with
  | Some op, Some g => (op =? PX64_OP_CALL_NAT) && (g =? f)
  | _, _ => false
  end.

Definition calls_native (c : list Z) (f : Z) : bool := existsb (calls_at c f) (seqZ 0 (len c)).

Lemma calls_native_false c f i op g :
  calls_native c f = false -> getZ c i = Some op -> getZ c (i + 2) = Some g ->
  ~ (op = PX64_OP_CALL_NAT /\ g = f).
Proof.
  intros Hc Ho Hg [-> ->]. pose proof (getZ_Some_lt _ _ _ Ho) as Hi.
  assert (calls_native c f = true); [|congruence].
  apply existsb_exists. exists i. split.
  - apply list_elem_of_In, elem_of_seqZ. lia.
  - unfold calls_at. rewrite Ho, Hg. simpl. apply Z.eqb_refl.
Qed.

Lemma step_next h p m m' :
  program_wf p -> vm_wf m -> calls_native (code p) NATIVE_TERM_READ_KEY = false ->
  step h p m = (m', Ok Next) ->
  vm_wf m' /\ max_steps m' = max_steps m /\ steps m' = steps m + 1 /\ steps m < max_steps m.
Proof.
  intros Hp Hm Hc H. pose proof (step_wf _ _ _ _ _ Hp Hm H) as Hw. split; [done|].
  destruct (step_cases h p m m' _ Hp Hm H)
    as [(_ & _ & ?)|[(_ & _ & ?)|(_ & Hs & _ & op & rd & rs1 & rs2 & Hf & _ & _ & _ & Hx)]];
    [done..|].
  destruct (exec h p (fetched m) op rd rs1 rs2) as [[f m1]|e|k] eqn:E; destruct Hx as [-> [=]].
  apply fetch_getZ in Hf as (Ho & _ & Hg & _).
  apply exec_same_config in E as (E1 & _ & E2); [|by eapply calls_native_false].
  by rewrite E1, E2.
Qed.

Lemma step_last h p m m' r :
  program_wf p -> vm_wf m -> calls_native (code p) NATIVE_TERM_READ_KEY = false ->
  step h p m = (m', r) -> steps m <= steps m' /\ steps m' <= max_steps m.
Proof.
  intros Hp Hm Hc H. pose proof (steps_wf m Hm).
  destruct (step_cases h p m m' _ Hp Hm H)
    as [(_ & -> & ?)|[(_ & -> & ?)|(_ & Hs & _ & op & rd & rs1 & rs2 & Hf & _ & _ & _ & Hx)]];
    [lia..|].
  destruct (exec h p (fetched m) op rd rs1 rs2) as [[f m1]|e|k] eqn:E; destruct Hx as [-> Hx];
    [|simpl; lia..].
  apply fetch_getZ in Hf as (Ho & _ & Hg & _).
  apply exec_same_config in E as (E1 & _ & E2); [|by eapply calls_native_false].
  rewrite E2. simpl. lia.
Qed.

Lemma run_fuel_more fuel k h p m x :
  run_with_output fuel h p m = Some x -> run_with_output (fuel + k) h p m = Some x.
Proof.
  revert m. induction fuel as [|fuel IH]; intros m; simpl; [done|].
  destruct (step h p m) as [m1 [[]|e|q]]; try done. apply IH.
Qed.

(** The run ends within the limit. *)
Lemma run_within_limit h p m fuel :
  program_wf p -> vm_wf m -> calls_native (code p) NATIVE_TERM_READ_KEY = false ->
  (Z.to_nat (max_steps m - steps m) < fuel)%nat ->
  exists m' r, run_with_output fuel h p m = Some (m', r) /\
    vm_wf m' /\ steps m <= steps m' <= max_steps m.
Proof.
  intros Hp Hm Hc. revert m Hm. induction fuel as [|fuel IH]; intros m Hm Hf; [lia|].
  simpl. destruct (step h p m) as [m1 r] eqn:E.
  pose proof (step_wf _ _ _ _ _ Hp Hm E) as Hw.
  pose proof (step_last _ _ _ _ _ Hp Hm Hc E) as Hl.
  destruct r as [[]|e|k]; [|by exists m1, (Ok tt)|by exists m1, (Err e)|by exists m1, (Panic k)].
  apply step_next in E as (_ & Hmax & Hst & Hlt); [|done..].
  destruct (IH m1 Hw ltac:(lia)) as (m' & r & Hr & Hm' & Hb). exists m', r.
  split_and!; [done..|lia|lia].
Qed.

(** C1: every program that never polls the keyboard stops within the
    instruction limit. From a well-formed machine, [max_steps - steps + 1]
    iterations of the loop are enough for [run_with_output] to return, it
    executes at most [max_steps] instructions, and it leaves a well-formed
    machine, whatever the outcome (success, a runtime error or a panic). *)
Theorem run_terminates h p m fuel :
  program_wf p -> vm_wf m -> calls_native (code p) NATIVE_TERM_READ_KEY = false ->
  (Z.to_nat (max_steps m - steps m) < fuel)%nat ->
  exists m' r, run_with_output fuel h p m = Some (m', r) /\
    vm_wf m' /\ steps m <= steps m' <= max_steps m.
Proof. apply run_within_limit. Qed.

(** The countdown loop [r0 := 3; do r0 := r0 - 1 while r0 <> 0; print r0]. *)
Definition countdown : program := mkProgram
  [PX64_OP_MOV_IMM; 0; 0; 3;  PX64_OP_SUBI; 0; 0; 1;  PX64_OP_JNZ; 0; 0; 4;
   PX64_OP_CALL_NAT; 1; NATIVE_PRINT; 0] [] [] [].

Lemma countdown_wf : program_wf countdown.
Proof. constructor; compute_fact. Qed.

Theorem run_terminates_witness :
  exists m' r, run_with_output 10001 (no_std_host (fun _ => 0)) countdown new = Some (m', r) /\
    vm_wf m' /\ 0 <= steps m' <= 10000.
Proof.
  apply (run_terminates (no_std_host (fun _ => 0)) countdown new 10001).
  - exact countdown_wf.
  - exact new_wf.
  - reflexivity.
  - vm_compute. lia.
Defined.

(** * The keyboard poll defeats the limit *)

(** [poll: @term_read_key; jmp poll]. *)
Definition poll_loop : program := mkProgram
  [PX64_OP_CALL_NAT; 0; NATIVE_TERM_READ_KEY; 0;  PX64_OP_JMP; 0; 0; 0] [] [] [].

Definition polling (m : vm) : Prop := steps m < max_steps m /\ 1 < max_steps m.

Lemma step_exec h p m op rd rs1 rs2 :
  ip m + 4 <= len (code p) -> steps m < max_steps m ->
  fetch p (ip m) = Ok (op, rd, rs1, rs2) ->
  step h p m = match exec h p (fetched m) op rd rs1 rs2 with
    | Ok (f, m1) => (m1, Ok f)
    | Err e => (fetched m, Err e)
    | Panic k => (fetched m, Panic k)
    end.
Proof.
  intros Hi Hs Hf. unfold step.
  destruct (Z.ltb_spec (len (code p)) (ip m + 4)); [lia|].
  destruct (Z.leb_spec (max_steps m) (steps m)); [lia|].
  cbv zeta. change (ip (set_steps m (steps m + 1))) with (ip m). by rewrite Hf.
Qed.

Lemma poll_step h m :
  ip m = 0 -> polling m ->
  exists m1, step h poll_loop m = (m1, Ok Next) /\ ip m1 = 4 /\ steps m1 = 0 /\
    max_steps m1 = max_steps m.
Proof.
  intros Hi [Hs _].
  rewrite (step_exec h poll_loop m PX64_OP_CALL_NAT 0 NATIVE_TERM_READ_KEY 0);
    [|rewrite Hi; done|done|rewrite Hi; reflexivity].
  eexists. split; [reflexivity|]. simpl. by rewrite Hi.
Qed.

Lemma jump_step h m :
  ip m = 4 -> polling m ->
  exists m1, step h poll_loop m = (m1, Ok Next) /\ ip m1 = 0 /\ steps m1 = steps m + 1 /\
    max_steps m1 = max_steps m.
Proof.
  intros Hi [Hs _].
  rewrite (step_exec h poll_loop m PX64_OP_JMP 0 0 0);
    [|rewrite Hi; done|done|rewrite Hi; reflexivity].
  eexists. split; [reflexivity|]. done.
Qed.

Lemma poll_loop_runs h fuel m :
  (ip m = 0 /\ polling m) \/ (ip m = 4 /\ polling m /\ steps m = 0) ->
  run_with_output fuel h poll_loop m = None.
Proof.
  revert m. induction fuel as [|fuel IH]; intros m [[Hi Hp]|(Hi & Hp & H0)]; simpl; [done..| |].
  - destruct (poll_step h m Hi Hp) as (m1 & -> & Hi1 & Hs1 & Hx1). apply IH. right.
    destruct Hp. split_and!; [done| |done]. split; lia.
  - destruct (jump_step h m Hi Hp) as (m1 & -> & Hi1 & Hs1 & Hx1). apply IH. left.
    destruct Hp. split; [done|]. split; lia.
Qed.

(** The instruction limit does not bound a program that polls the keyboard:
    [NATIVE_TERM_READ_KEY] sets [steps] back to 0, so the loop
    [poll: @term_read_key; jmp poll] runs for ever from a fresh machine (no
    amount of fuel returns a result), on every host. The hypothesis of
    [run_terminates] cannot be dropped. *)
Theorem read_key_defeats_step_limit h :
  program_wf poll_loop /\ forall fuel, run_with_output fuel h poll_loop new = None.
Proof.
  split; [constructor; compute_fact|]. intros fuel. apply poll_loop_runs. left.
  split; [done|]. split; vm_compute; done.
Qed.

(** * Determinism under replay *)

(** Two hosts that differ only in their time-stamp counters. *)
Definition same_but_tsc (h1 h2 : host) : Prop :=
  host_read_key h1 = host_read_key h2 /\ host_term_size h1 = host_term_size h2 /\
  host_path_exists h1 = host_path_exists h2 /\ host_fs_write h1 = host_fs_write h2.

Definition replaying (m : vm) : Prop :=
  exists c, replay_config m = Some c /\ enabled c = true.

Lemma replay_tsc h1 h2 m : replaying m -> get_tsc h1 m = get_tsc h2 m.
Proof. intros (c & Hc & He). unfold get_tsc. by rewrite Hc, He. Qed.

Lemma replay_uptime h1 h2 m : replaying m -> get_uptime_ns h1 m = get_uptime_ns h2 m.
Proof. intros (c & Hc & He). unfold get_uptime_ns. by rewrite Hc, He. Qed.

Lemma exec_replay h1 h2 p m op rd rs1 rs2 :
  same_but_tsc h1 h2 -> replaying m ->
  exec h1 p m op rd rs1 rs2 = exec h2 p m op rd rs1 rs2.
Proof.
  intros (E1 & E2 & E3 & E4) Hm.
  unfold exec, exec_WITHIN_START, exec_DROP, exec_CALL_NAT, native, native_TERM_READ_KEY,
    native_TERM_SIZE, native_FILE_EXISTS, native_FILE_WRITE.
  by rewrite E1, E2, E3, E4, (replay_tsc h1 h2), (replay_uptime h1 h2).
Qed.

Lemma step_replay h1 h2 p m :
  same_but_tsc h1 h2 -> replaying m -> step h1 p m = step h2 p m.
Proof.
  intros Hh Hm. unfold step. case_match; [done|]. case_match; [done|]. cbv zeta.
  destruct (fetch p _) as [[[[op rd] rs1] rs2]|e|k]; [|done..].
  by rewrite (exec_replay h1 h2).
Qed.

(** The replay configuration survives every instruction, the poll included. *)
Lemma native_replay h p m f a v r m' :
  native h p m f a v = Ok (r, m') -> replay_config m' = replay_config m.
Proof.
  destruct (decide (f = NATIVE_TERM_READ_KEY)) as [->|Hf].
  - intros E. by injection E as _ <-.
  - intros E. by apply native_frame in E as [(_ & ? & _) _].
Qed.

Lemma exec_replay_config h p m op rd rs1 rs2 f m' :
  exec h p m op rd rs1 rs2 = Ok (f, m') -> replay_config m' = replay_config m.
Proof.
  destruct (decide (op = PX64_OP_CALL_NAT)) as [->|Ho].
  - intros (m1 & ([v m2] & Hn & E%ret_Ok)%bind_Ok & E'%ret_Ok)%bind_Ok.
    injection E' as _ <-. subst m1. apply native_replay in Hn.
    by destruct (frame_set_reg m2 rd v) as [(_ & -> & _) _].
  - intros E. apply exec_same_config in E as (_ & ? & _); [done | by intros [? _]].
Qed.

Lemma step_replaying h p m m' f :
  replaying m -> step h p m = (m', Ok f) -> replaying m'.
Proof.
  intros (c & Hc & He). unfold step. case_match; [intros [= <- _]; by exists c|].
  case_match; [done|]. cbv zeta.
  destruct (fetch p _) as [[[[op rd] rs1] rs2]|e|k]; [|done..].
  destruct (exec _ _ _ _ _ _ _) as [[f' m1]|e|k] eqn:E; [|done..].
  intros [= <- _]. exists c. split; [|done]. by rewrite (exec_replay_config _ _ _ _ _ _ _ _ _ E).
Qed.

Lemma run_replay h1 h2 p m fuel :
  same_but_tsc h1 h2 -> replaying m ->
  run_with_output fuel h1 p m = run_with_output fuel h2 p m.
Proof.
  intros Hh. revert m. induction fuel as [|fuel IH]; intros m Hm; simpl; [done|].
  rewrite <-(step_replay h1 h2) by done.
  destruct (step h1 p m) as [m1 [[]|e|k]] eqn:E; try done.
  apply IH. by eapply step_replaying.
Qed.

(** [print @tsc]: under replay the counter is [seed + steps * 10]. *)
Definition print_tsc : program := mkProgram
  [PX64_OP_CALL_NAT; 1; NATIVE_SYS_TSC; 0;  PX64_OP_CALL_NAT; 2; NATIVE_PRINT; 1] [] [] [].

Example print_tsc_output :
  (fun x => output (fst x)) <$> run_with_output 3 (no_std_host (fun _ => 5)) print_tsc
    (with_replay_config new (with_seed 77)) = Some (bytes "87").
Proof. vm_compute. reflexivity. Qed.
