(* ===== verification/VmSafety.v ===== *)
(** Panic freedom of the px64 virtual machine. The machine indexes its array,
    struct and register files without a check that the compiler is trusted to
    have made. [code_ok] is a static check of the byte code that is enough for
    no run to panic; the examples at the end are programs that fail it and do
    panic. *)

From S2P Require Import Prelude RustStd Isa Token Error Crc VmState VmExec Vm VmRun.
Local Open Scope Z_scope.

(** * The static check

    Arrays of at most 64 elements and structs of at most 64 fields fit sixteen
    to a file of 1024 slots; the natives with several arguments read the
    registers before [arg_reg], which must exist; VRAM offsets are run-time
    values, so the VRAM natives are excluded. *)
Definition instr_ok (op rd rs1 rs2 : Z) : bool :=
  if op =? PX64_OP_ARR_DEF then rs1 * 256 + rs2 <=? 64
  else if op =? PX64_OP_STRUCT_DEF then rs1 <=? 64
  else if op =? PX64_OP_CALL_NAT then
    (rs2 <=? 20) && negb (rs1 =? NATIVE_VRAM_READ) && negb (rs1 =? NATIVE_VRAM_WRITE)
  else true.

(** Jump targets need not be multiples of four: every offset is checked. *)
Definition instr_ok_at (c : list Z) (i : Z) : bool :=
  match getZ c i, getZ c (i + 1), getZ c (i + 2), getZ c (i + 3) with
  | Some op, Some rd, Some rs1, Some rs2 => instr_ok op rd rs1 rs2
  | _, _, _, _ => true
  end.

Definition code_ok (c : list Z) : bool := forallb (instr_ok_at c) (seqZ 0 (len c)).

(** Every array and struct declared so far lies inside its file. *)
Definition segments_ok (bases sizes : list Z) : Prop :=
  forall i b n, getZ bases i = Some b -> getZ sizes i = Some n -> b <= 64 * i /\ n <= 64.

Definition layout_ok (m : vm) : Prop :=
  segments_ok (array_bases m) (array_lens m) /\
  segments_ok (struct_bases m) (struct_field_counts m).

Lemma layout_ok_new : layout_ok new.
Proof.
  assert (H : segments_ok (replicate 16 0) (replicate 16 0)); [|done].
  intros i b n Hb Hn. pose proof (getZ_Some_lt _ _ _ Hb) as Hi.
  assert (F : Forall (fun x => x = 0) (replicate 16 0)) by by apply Forall_replicate.
  apply (Forall_getZ _ _ _ _ F) in Hb as ->. apply (Forall_getZ _ _ _ _ F) in Hn as ->. lia.
Qed.

Lemma layout_ok_frame m m' : layout m' = layout m -> layout_ok m -> layout_ok m'.
Proof. intros [= E1 E2 E3 E4]. unfold layout_ok. by rewrite E1, E2, E3, E4. Qed.

(** * Handlers do not panic *)

Definition calm {A} (r : result A) : Prop := is_panic r = false.

Lemma calm_ret {A} (a : A) : calm (mret a).
Proof. done. Qed.

Lemma calm_err {A} a b : calm (@err A a b).
Proof. done. Qed.

Lemma calm_if {A} (b : bool) (x y : result A) :
  (b = true -> calm x) -> (b = false -> calm y) -> calm (if b then x else y).
Proof. destruct b; auto. Qed.

Lemma calm_bind {A B} (r : result A) (f : A -> result B) :
  calm r -> (forall a, r = Ok a -> calm (f a)) -> calm (r ≫= f).
Proof. unfold calm. destruct r; simpl; auto. Qed.

Lemma calm_fmap {A B} (r : result A) (f : A -> B) : calm r -> calm (f <$> r).
Proof. by destruct r. Qed.

Lemma calm_idx {A} (l : list A) i : 0 <= i < len l -> calm (idx l i).
Proof. intros Hi. by destruct (@idx_in_range CompileError _ l i Hi) as (x & -> & _). Qed.

Lemma calm_upd {A} (l : list A) i x : 0 <= i < len l -> calm (upd l i x).
Proof. intros Hi. by rewrite upd_in_range. Qed.

Lemma calm_next r : calm r -> calm (next r).
Proof. intros H. apply calm_bind; [done | by intros]. Qed.

(** The length of a file of the machine, for bound goals. *)
Ltac files Hm :=
  pose proof (proj1 (regs_wf _ Hm)); pose proof (proj1 (array_slots_wf _ Hm));
  pose proof (proj1 (array_lens_wf _ Hm)); pose proof (proj1 (array_bases_wf _ Hm));
  pose proof (proj1 (struct_slots_wf _ Hm)); pose proof (proj1 (struct_counts_wf _ Hm));
  pose proof (proj1 (struct_bases_wf _ Hm)); pose proof (proj1 (table_lens_wf _ Hm));
  pose proof (proj1 (table_bases_wf _ Hm)); pose proof (proj1 (call_stack_wf _ Hm));
  pose proof (proj1 (frame_stack_wf _ Hm)); pose proof (proj1 (deadline_stack_wf _ Hm));
  pose proof (call_sp_wf _ Hm); pose proof (dl_sp_wf _ Hm).

(** Turn the boolean guards of the context into inequalities. *)
Ltac guards :=
  repeat match goal with
  | H : (_ || _) = false |- _ => apply orb_false_iff in H as [? ?]
  | H : (_ && _) = true |- _ => apply andb_true_iff in H as [? ?]
  | H : (_ <=? _) = true |- _ => apply Z.leb_le in H
  | H : (_ <=? _) = false |- _ => apply Z.leb_gt in H
  | H : (_ <? _) = true |- _ => apply Z.ltb_lt in H
  | H : (_ <? _) = false |- _ => apply Z.ltb_ge in H
  | H : (_ =? _) = false |- _ => apply Z.eqb_neq in H
  end.

Ltac calm_steps :=
  repeat match goal with
  | |- calm (if _ then _ else _) => apply calm_if; intros
  | |- calm (err _ _) => apply calm_err
  | |- calm (mret _) => apply calm_ret
  | |- calm (_ ≫= _) => apply calm_bind; intros
  end; guards.

Section Calm.
Context (p : program) (m : vm) (Hp : program_wf p) (Hm : vm_wf m) (Hl : layout_ok m).

Lemma LDC_calm rd i : 0 <= i -> calm (exec_LDC p m rd i).
Proof. intros. unfold exec_LDC. calm_steps. apply calm_idx. lia. Qed.

Lemma segment_slot bases sizes i b n k :
  segments_ok bases sizes -> getZ bases i = Some b -> getZ sizes i = Some n ->
  0 <= i < 16 -> k < n -> b + k < 1024.
Proof. intros H Hb Hn Hi Hk. destruct (H i b n Hb Hn). lia. Qed.

Lemma ARR_LOAD_calm rd rs1 rs2 : 0 <= rs1 -> calm (exec_ARR_LOAD m rd rs1 rs2).
Proof.
  intros. files Hm. unfold exec_ARR_LOAD. calm_steps; try (apply calm_idx; lia).
  apply calm_idx.
  match goal with Hb : idx (array_bases m) _ = Ok ?b, Hn : idx (array_lens m) _ = Ok ?n |- _ =>
    apply idx_Ok in Hb; apply idx_Ok in Hn;
    pose proof (Forall_getZ _ _ _ _ (proj2 (array_bases_wf m Hm)) Hb) as [? _];
    pose proof (segment_slot _ _ rs1 b n (reg_or m rs2 (-1)) (proj1 Hl) Hb Hn) end.
  lia.
Qed.

Lemma ARR_STORE_calm rd rs1 rs2 : 0 <= rd -> calm (exec_ARR_STORE m rd rs1 rs2).
Proof.
  intros. files Hm. unfold exec_ARR_STORE. calm_steps; try (apply calm_idx; lia).
  apply calm_upd.
  match goal with Hb : idx (array_bases m) _ = Ok ?b, Hn : idx (array_lens m) _ = Ok ?n |- _ =>
    apply idx_Ok in Hb; apply idx_Ok in Hn;
    pose proof (Forall_getZ _ _ _ _ (proj2 (array_bases_wf m Hm)) Hb) as [? _];
    pose proof (segment_slot _ _ rd b n (reg_or m rs1 (-1)) (proj1 Hl) Hb Hn) end.
  lia.
Qed.

Lemma struct_slot i b k :
  0 <= i < 16 -> getZ (struct_bases m) i = Some b -> 0 <= k ->
  k < default 0 (getZ (struct_field_counts m) i) -> 0 <= b + k < 1024.
Proof.
  intros Hi Hb Hk. destruct (getZ (struct_field_counts m) i) as [n|] eqn:Hn; simpl; [|lia].
  intros Hlt. pose proof (Forall_getZ _ _ _ _ (proj2 (struct_bases_wf m Hm)) Hb) as [? _].
  pose proof (segment_slot _ _ i b n k (proj2 Hl) Hb Hn Hi Hlt). lia.
Qed.

Lemma STRUCT_LOAD_calm rd rs1 rs2 : 0 <= rs1 -> 0 <= rs2 -> calm (exec_STRUCT_LOAD m rd rs1 rs2).
Proof.
  intros. files Hm. unfold exec_STRUCT_LOAD. calm_steps; [apply calm_idx; lia|].
  match goal with Hb : idx (struct_bases m) _ = Ok ?b |- _ =>
    apply idx_Ok in Hb; apply struct_slot with (k := rs2) in Hb; [|lia..] end.
  apply calm_idx. lia.
Qed.

Lemma STRUCT_STORE_calm rd rs1 rs2 : 0 <= rd -> 0 <= rs1 -> calm (exec_STRUCT_STORE m rd rs1 rs2).
Proof.
  intros. files Hm. unfold exec_STRUCT_STORE. calm_steps; [apply calm_idx; lia|].
  match goal with Hb : idx (struct_bases m) _ = Ok ?b |- _ =>
    apply idx_Ok in Hb; apply struct_slot with (k := rs1) in Hb; [|lia..] end.
  apply calm_upd. lia.
Qed.

Lemma TBL_LOAD_calm rd rs1 rs2 : 0 <= rs1 -> calm (exec_TBL_LOAD p m rd rs1 rs2).
Proof.
  intros. files Hm. unfold exec_TBL_LOAD. calm_steps; try (apply calm_idx; lia).
  match goal with Hb : idx (table_bases m) _ = Ok _ |- _ =>
    pose proof (idx_cells _ _ _ _ _ (table_bases_wf m Hm) Hb) as [? _] end.
  apply calm_idx. lia.
Qed.

Lemma CALL_calm imm : calm (exec_CALL m imm).
Proof.
  files Hm. unfold exec_CALL, MAX_CALL_DEPTH. calm_steps; apply calm_upd; lia.
Qed.

Lemma RET_calm : calm (exec_RET m).
Proof. files Hm. unfold exec_RET. cbv zeta. calm_steps; apply calm_idx; simpl; lia. Qed.

(** ** Natives *)

Lemma arg_before_calm a n d : 0 <= n -> a <= 20 -> calm (arg_before m a n d).
Proof. intros. files Hm. unfold arg_before. calm_steps. apply calm_idx. lia. Qed.

Lemma fix_scale_calm a n : 0 <= n -> a <= 20 -> calm (fix_scale m a n).
Proof.
  intros. files Hm. unfold fix_scale. calm_steps. apply calm_fmap, calm_idx. lia.
Qed.

Lemma pure_native_calm r : calm r -> calm (pure_native m r).
Proof. intros. by apply calm_bind. Qed.

Lemma native_calm h f a v :
  a <= 20 -> f <> NATIVE_VRAM_READ -> f <> NATIVE_VRAM_WRITE -> calm (native h p m f a v).
Proof.
  intros Ha Hr Hw. unfold native.
  destruct (Z.eqb_spec f NATIVE_VRAM_READ) as [|_]; [done|].
  destruct (Z.eqb_spec f NATIVE_VRAM_WRITE) as [|_]; [done|].
  repeat match goal with
  | |- calm (if _ then _ else _) => apply calm_if; intros _
  | |- calm (pure_native _ _) => apply pure_native_calm
  end; try done;
  unfold native_CHAR_AT, native_FILE_WRITE, native_UNWRAP, native_STREQ, native_MATH_MIN,
    native_MATH_MAX, native_MATH_CLAMP, native_CRC32, native_FIX_TO_FIX, native_FIX_TO_I64,
    native_FIX_MUL, native_FIX_DIV; calm_steps;
  first [done | by apply arg_before_calm | by apply fix_scale_calm].
Qed.

Lemma CALL_NAT_calm h rd rs1 rs2 :
  rs2 <= 20 -> rs1 <> NATIVE_VRAM_READ -> rs1 <> NATIVE_VRAM_WRITE ->
  calm (exec_CALL_NAT h p m rd rs1 rs2).
Proof.
  intros. apply calm_bind; [by apply native_calm | by intros [??]].
Qed.

Lemma WITHIN_START_calm h rd : calm (exec_WITHIN_START h m rd).
Proof.
  unfold exec_WITHIN_START. destruct (get_uptime_ns h m) as [now m1] eqn:E.
  apply get_uptime_wf in E as [_ Hm1]; [|done]. files Hm1. calm_steps. apply calm_upd. lia.
Qed.

Lemma DROP_calm h : calm (exec_DROP h m).
Proof.
  files Hm. unfold exec_DROP. calm_steps; [apply calm_idx; lia|]. by destruct (get_uptime_ns h m).
Qed.

Lemma exec_calm h op rd rs1 rs2 :
  in_u8 rd -> in_u8 rs1 -> in_u8 rs2 -> instr_ok op rd rs1 rs2 = true ->
  calm (exec h p m op rd rs1 rs2).
Proof.
  intros [Hd _] [H1 _] [H2 _] Hok.
  assert (Hn : op = PX64_OP_CALL_NAT -> calm (exec_CALL_NAT h p m rd rs1 rs2)).
  { intros ->. unfold instr_ok in Hok. simpl in Hok.
    rewrite !andb_true_iff, !negb_true_iff, !Z.eqb_neq, Z.leb_le in Hok.
    apply CALL_NAT_calm; tauto. }
  unfold exec.
  repeat match goal with
  | |- calm (if op =? ?k then _ else _) => destruct (Z.eqb_spec op k); [subst op|]
  | |- calm (next _) => apply calm_next
  end;
    first [ done | apply LDC_calm; lia | by apply ARR_LOAD_calm | by apply ARR_STORE_calm
          | by apply STRUCT_LOAD_calm | by apply STRUCT_STORE_calm | by apply TBL_LOAD_calm
          | apply CALL_calm | apply RET_calm | by apply Hn | apply WITHIN_START_calm
          | apply DROP_calm
          | unfold exec_ASSERT, exec_DIV, exec_MOD; calm_steps; done ].
Qed.
End Calm.

(** * The layout stays inside the files *)

Lemma getZ_setZ_cases {A} (l : list A) i x j y :
  getZ (setZ l i x) j = Some y -> (j = i /\ y = x) \/ (j <> i /\ getZ l j = Some y).
Proof.
  intros H. destruct (decide (j = i)) as [->|Hne].
  - pose proof (getZ_Some_lt _ _ _ H) as Hi. rewrite len_setZ in Hi.
    rewrite getZ_setZ_eq in H by done. naive_solver.
  - rewrite getZ_setZ_ne in H by done. by right.
Qed.

Lemma segments_sizes bases sizes :
  segments_ok bases sizes -> len bases = len sizes -> Forall (fun x => 0 <= x) sizes ->
  Forall (fun x => 0 <= x <= 64) sizes.
Proof.
  intros H Hl H0. apply Forall_lookup. intros k x Hk.
  assert (Hz : getZ sizes (Z.of_nat k) = Some x)
    by (unfold getZ; rewrite decide_True, Nat2Z.id by lia; done).
  pose proof (getZ_Some_lt _ _ _ Hz).
  destruct (getZ_lt_Some bases (Z.of_nat k)) as [c Hc]; [lia|].
  destruct (H _ _ _ Hc Hz). split; [|done]. by apply (Forall_getZ _ _ _ _ H0 Hz).
Qed.

(** Declaring segment [i] with the sum of the sizes before it as its base. *)
Lemma segments_ok_define bases sizes i n b :
  segments_ok bases sizes -> len bases = len sizes -> Forall (fun x => 0 <= x) sizes ->
  0 <= i < len sizes -> 0 <= n <= 64 ->
  b = sum_before (setZ sizes i n) i ->
  segments_ok (setZ bases i b) (setZ sizes i n).
Proof.
  intros H Hl H0 Hi Hn -> j b' n' Hb Hs.
  assert (F : Forall (fun x => 0 <= x <= 64) (setZ sizes i n))
    by (apply Forall_setZ; [by eapply segments_sizes | done]).
  pose proof (sum_before_bound (setZ sizes i n) i 64 ltac:(lia) F ltac:(lia)).
  apply getZ_setZ_cases in Hb as [[-> ->]|[Hj Hb]];
    apply getZ_setZ_cases in Hs as [[? ?]|[? Hs]]; subst; try done; [lia|].
  by eapply H.
Qed.

Lemma Forall_u8_nonneg l : Forall in_u8 l -> Forall (fun x => 0 <= x) l.
Proof. intros H. eapply Forall_impl; [exact H|]. by intros x [? _]. Qed.

Lemma ARR_DEF_layout m rd imm :
  vm_wf m -> layout_ok m -> 0 <= rd -> 0 <= imm <= 64 -> layout_ok (exec_ARR_DEF m rd imm).
Proof.
  intros Hm [Ha Hs] Hd Hi. unfold exec_ARR_DEF. destruct (rd <? 16) eqn:Hlt; [|done].
  apply Z.ltb_lt in Hlt. files Hm.
  assert (F : Forall (fun x => 0 <= x <= 64) (setZ (array_lens m) rd imm)).
  { apply Forall_setZ; [|done]. eapply segments_sizes; [done|lia|].
    apply Forall_u16_nonneg, Hm. }
  pose proof (sum_before_bound _ rd 64 ltac:(lia) F Hd).
  cbv zeta. simpl.
  assert (layout_ok (set_array_bases (set_array_lens m (setZ (array_lens m) rd imm))
    (setZ (array_bases m) rd (as_u16 (sum_before (setZ (array_lens m) rd imm) rd))))).
  { split; [|done]. simpl. apply segments_ok_define; [done|lia| |lia|lia|].
    - apply Forall_u16_nonneg, Hm.
    - apply wrapU_small. lia. }
  by case_match.
Qed.

Lemma STRUCT_DEF_layout m rd rs1 :
  vm_wf m -> layout_ok m -> 0 <= rd -> 0 <= rs1 <= 64 -> layout_ok (exec_STRUCT_DEF m rd rs1).
Proof.
  intros Hm [Ha Hs] Hd Hi. unfold exec_STRUCT_DEF. destruct (rd <? 16) eqn:Hlt; [|done].
  apply Z.ltb_lt in Hlt. files Hm. split; [done|]. simpl.
  apply segments_ok_define; [done|lia| |lia|lia|done]. apply Forall_u8_nonneg, Hm.
Qed.

Lemma READ_KEY_layout h p m rd rs2 m' :
  exec_CALL_NAT h p m rd NATIVE_TERM_READ_KEY rs2 = Ok m' -> layout m' = layout m.
Proof.
  intros ([v m1] & Hn & <-%ret_Ok)%bind_Ok. injection Hn as _ <-.
  unfold set_reg. by case_match.
Qed.

Lemma exec_layout h p m op rd rs1 rs2 f m' :
  vm_wf m -> layout_ok m -> in_u8 rd -> in_u8 rs1 -> in_u8 rs2 ->
  instr_ok op rd rs1 rs2 = true ->
  exec h p m op rd rs1 rs2 = Ok (f, m') -> layout_ok m'.
Proof.
  intros Hm Hl [Hd _] [H1 _] [H2 _] Hok.
  destruct (decide (op = PX64_OP_ARR_DEF)) as [->|Ha].
  { intros [= _ <-]. apply ARR_DEF_layout; [done..|]. apply Z.leb_le in Hok. lia. }
  destruct (decide (op = PX64_OP_STRUCT_DEF)) as [->|Hs].
  { intros [= _ <-]. apply STRUCT_DEF_layout; [done..|]. apply Z.leb_le in Hok. lia. }
  destruct (decide (op = PX64_OP_CALL_NAT /\ rs1 = NATIVE_TERM_READ_KEY)) as [[-> ->]|Hk].
  { intros (m1 & E%READ_KEY_layout & E'%ret_Ok)%bind_Ok. injection E' as _ <-.
    by eapply layout_ok_frame. }
  intros [_ E]%exec_frame; [|done..]. by eapply layout_ok_frame.
Qed.

Lemma code_ok_fetch p i op rd rs1 rs2 :
  code_ok (code p) = true -> fetch p i = Ok (op, rd, rs1, rs2) -> instr_ok op rd rs1 rs2 = true.
Proof.
  intros Hc (Ho & Hd & H1 & H2)%fetch_getZ. pose proof (getZ_Some_lt _ _ _ Ho).
  unfold code_ok in Hc. rewrite forallb_forall in Hc. specialize (Hc i).
  unfold instr_ok_at in Hc. rewrite Ho, Hd, H1, H2 in Hc. apply Hc.
  apply list_elem_of_In, elem_of_seqZ. lia.
Qed.

Lemma step_safe h p m m' r :
  program_wf p -> code_ok (code p) = true -> vm_wf m -> layout_ok m ->
  step h p m = (m', r) -> is_panic r = false /\ (forall f, r = Ok f -> layout_ok m').
Proof.
  intros Hp Hc Hm Hl H. destruct (step_cases h p m m' r Hp Hm H)
    as [(_ & -> & ->)|[(_ & -> & ->)|(_ & _ & Hw & op & rd & rs1 & rs2 & Hf & Hd & H1 & H2 & Hx)]];
    [done..|].
  assert (Hl1 : layout_ok (fetched m)) by done.
  pose proof (code_ok_fetch _ _ _ _ _ _ Hc Hf) as Hok.
  pose proof (exec_calm p (fetched m) Hw Hl1 h op rd rs1 rs2 Hd H1 H2 Hok) as Hcalm.
  destruct (exec h p (fetched m) op rd rs1 rs2) as [[f m1]|e|k] eqn:E; destruct Hx as [-> ->];
    [|done|done].
  split; [done|]. intros _ _. by eapply exec_layout in E.
Qed.

(** C4: a program that passes the static check [code_ok] (arrays and structs of
    at most 64 cells, native arguments in existing registers, no VRAM access)
    never panics: from a well-formed machine whose layout is inside its files,
    every run ends in success or in a runtime error the caller can report,
    whatever the rest of the code, the inputs and the host do. *)
Theorem checked_program_never_panics h p m fuel m' r :
  program_wf p -> code_ok (code p) = true -> vm_wf m -> layout_ok m ->
  run_with_output fuel h p m = Some (m', r) -> is_panic r = false.
Proof.
  intros Hp Hc. revert m. induction fuel as [|fuel IH]; intros m Hm Hl; simpl; [done|].
  destruct (step h p m) as [m1 r1] eqn:E.
  pose proof (step_wf _ _ _ _ _ Hp Hm E) as Hm1.
  destruct (step_safe _ _ _ _ _ Hp Hc Hm Hl E) as [Hq Hl1].
  destruct r1 as [[]|e|k]; [|by intros [= _ <-]..|done].
  apply IH; [done | by eapply Hl1].
Qed.

(** [array a[3]; r0 := 2; a[r0] := r0; r1 := a[r0]; r1 := r1 / r2], which ends
    in a division by zero. *)
Definition array_program : program := mkProgram
  [PX64_OP_ARR_DEF; 0; 0; 3;  PX64_OP_MOV_IMM; 0; 0; 2;  PX64_OP_ARR_STORE; 0; 0; 0;
   PX64_OP_ARR_LOAD; 1; 0; 0;  PX64_OP_DIV; 1; 1; 2] [] [] [].

Theorem checked_program_never_panics_witness :
  exists m' r, run_with_output 6 (no_std_host (fun _ => 0)) array_program new = Some (m', r) /\
    is_panic r = false.
Proof.
  destruct (run_with_output 6 (no_std_host (fun _ => 0)) array_program new) as [[m' r]|] eqn:E.
  - exists m', r. split; [reflexivity|].
    eapply (checked_program_never_panics (no_std_host (fun _ => 0)) array_program new 6 m' r).
    + constructor; compute_fact.
    + reflexivity.
    + exact new_wf.
    + exact layout_ok_new.
    + exact E.
  - vm_compute in E. discriminate.
Defined.

(** * Programs that fail the check and panic *)

Definition outcome_of (fuel : nat) (p : program) : option (result unit) :=
  snd <$> run_with_output fuel (no_std_host (fun _ => 0)) p new.

(** An array of 2000 elements is declared although the file has 1024 slots; an
    in-bounds access then indexes past the file. *)
Definition big_array : program := mkProgram
  [PX64_OP_ARR_DEF; 0; 7; 208;  PX64_OP_MOV_IMM; 0; 5; 220;  PX64_OP_ARR_LOAD; 1; 0; 0] [] [] [].

(** Five structs of 255 fields need 1275 of 1024 slots. *)
Definition big_structs : program := mkProgram
  [PX64_OP_STRUCT_DEF; 0; 255; 0;  PX64_OP_STRUCT_DEF; 1; 255; 0;
   PX64_OP_STRUCT_DEF; 2; 255; 0;  PX64_OP_STRUCT_DEF; 3; 255; 0;
   PX64_OP_STRUCT_DEF; 4; 255; 0;  PX64_OP_STRUCT_LOAD; 0; 4; 4] [] [] [].

(** [@min] with its operand register past the register file. *)
Definition bad_arg_reg : program := mkProgram
  [PX64_OP_CALL_NAT; 0; NATIVE_MATH_MIN; 40] [] [] [].

(** The machine does not check what the static check checks: declaring an
    array larger than the 1024-slot file, declaring structs that exceed theirs,
    and calling a two-argument native with an operand register above 20 each
    lead to an index out of bounds (a panic of the interpreter, not a reported
    error), although every index the program itself checks is in range. *)
Theorem unchecked_programs_panic :
  outcome_of 4 big_array = Some (Panic IndexOutOfBounds) /\
  outcome_of 7 big_structs = Some (Panic IndexOutOfBounds) /\
  outcome_of 2 bad_arg_reg = Some (Panic IndexOutOfBounds).
Proof. split_and!; vm_compute; reflexivity. Qed.
