(* ===== verification/VmProps.v ===== *)
(** What the instructions of the px64 virtual machine compute: calls restore the
    caller, array stores are read back and touch no other array, VRAM writes
    round-trip, tagged results obey their laws below the tag bits, and the
    comparison instructions agree with each other. *)

From S2P Require Import Prelude RustStd Isa Token Error Crc VmState VmExec Vm VmRun VmSafety.
Local Open Scope Z_scope.

(** * Calls and returns *)

(** The callee popped what it pushed: the stacks of [m2] are those the call
    left in [m1]. *)
Definition stacks_restored (m1 m2 : vm) : Prop :=
  call_stack m2 = call_stack m1 /\ frame_stack m2 = frame_stack m1 /\ call_sp m2 = call_sp m1.

(** C39: a call followed by a return restores the caller: whatever the callee
    did between (as long as it popped what it pushed, so that the two stacks
    and their pointer are as the call left them), [RET] comes back to the
    instruction after the [CALL], with the caller's registers 1 to 15 restored,
    register 0 the callee's result, and the global registers 16 to 19 as the
    callee left them. *)
Theorem call_ret_restores m target m1 m2 :
  vm_wf m -> vm_wf m2 -> exec_CALL m target = Ok m1 ->
  stacks_restored m1 m2 ->
  exists m3, exec_RET m2 = Ok (Next, m3) /\ ip m1 = target /\ ip m3 = ip m /\
    call_sp m3 = call_sp m /\ reg m3 0 = reg m2 0 /\
    (forall r, 1 <= r < 16 -> reg m3 r = reg m r) /\
    (forall r, 16 <= r < 20 -> reg m3 r = reg m2 r).
Proof.
  intros Hm Hm2 Hcall (Hcs & Hfs & Hsp). unfold exec_CALL, MAX_CALL_DEPTH in Hcall.
  destruct (8 <=? call_sp m) eqn:Hd; [done|]. apply Z.leb_gt in Hd.
  apply bind_Ok in Hcall as (cs & [Hi ->]%upd_Ok & (fs & [Hi2 ->]%upd_Ok & <-%ret_Ok)%bind_Ok).
  simpl in *. files Hm. files Hm2.
  unfold exec_RET. rewrite Hsp. destruct (Z.eqb_spec (call_sp m + 1) 0); [lia|]. cbv zeta. simpl.
  rewrite Hcs, Hfs. replace (call_sp m + 1 - 1) with (call_sp m) by lia.
  unfold idx. rewrite !getZ_setZ_eq by lia. simpl.
  eexists. split; [reflexivity|]. simpl. unfold as_u16. rewrite wrapU_small by apply Hm.
  assert (Ls : len (sub (regs m) 0 16) = 16) by (rewrite len_sub; lia).
  assert (Lp : len (splice (regs m2) 0 (sub (regs m) 0 16)) = 20) by (rewrite len_splice; lia).
  unfold reg. simpl. split_and!; [done..| | |].
  - rewrite getZ_setZ_eq by lia. done.
  - intros r Hr. rewrite getZ_setZ_ne by lia.
    rewrite (getZ_splice_in _ _ 0 r) by lia. rewrite getZ_sub by lia. done.
  - intros r Hr. rewrite getZ_setZ_ne by lia. rewrite getZ_splice_out by lia. done.
Qed.

Definition jump_target_program : program := mkProgram
  [PX64_OP_CALL; 0; 0; 8;  PX64_OP_HALT; 0; 0; 0;  PX64_OP_RET; 0; 0; 0] [] [] [].

Lemma set_reg_keeps_stacks m r v :
  call_stack (set_reg m r v) = call_stack m /\ frame_stack (set_reg m r v) = frame_stack m /\
  call_sp (set_reg m r v) = call_sp m.
Proof. unfold set_reg. by case_match. Qed.

(** A callee that sets register 0, a saved register and a global register. *)
Theorem call_ret_restores_witness :
  let m := set_reg (set_reg new 5 55) 17 1 in
  exists m1, exec_CALL m 8 = Ok m1 /\
  exists m3, exec_RET (set_reg (set_reg (set_reg m1 0 7) 5 9) 17 4) = Ok (Next, m3) /\
    reg m3 0 = 7 /\ reg m3 5 = 55 /\ reg m3 17 = 4.
Proof.
  intros m.
  assert (Hm : vm_wf m) by (apply set_reg_wf; [apply set_reg_wf; [exact new_wf|done]|done]).
  destruct (exec_CALL m 8) as [m1| |] eqn:E; [|discriminate..].
  exists m1. split; [reflexivity|].
  assert (Hm1 : vm_wf m1) by (by apply (CALL_keeps m 8)).
  set (m2 := set_reg (set_reg (set_reg m1 0 7) 5 9) 17 4).
  destruct (call_ret_restores m 8 m1 m2) as (m3 & H3 & _ & _ & _ & H0 & Hs & Hg).
  - exact Hm.
  - repeat (apply set_reg_wf; [|done]). exact Hm1.
  - exact E.
  - unfold m2. split_and!.
    + by rewrite !(proj1 (set_reg_keeps_stacks _ _ _)).
    + by rewrite !(proj1 (proj2 (set_reg_keeps_stacks _ _ _))).
    + by rewrite !(proj2 (proj2 (set_reg_keeps_stacks _ _ _))).
  - exists m3. split; [exact H3|]. rewrite H0, (Hs 5), (Hg 17) by lia.
    injection E as <-. split_and!; reflexivity.
Defined.

(** * Arrays *)

(** The contents of array [a]. *)
Definition array_view (m : vm) (a : Z) : list Z :=
  let b := default 0 (getZ (array_bases m) a) in
  sub (array_slots m) b (b + default 0 (getZ (array_lens m) a)).

(** Arrays are laid out one after the other in the file. *)
Definition arrays_laid_out (m : vm) : Prop :=
  forall a b n, getZ (array_bases m) a = Some b -> getZ (array_lens m) a = Some n -> 0 < n ->
    b = sum_before (array_lens m) a /\ b + n <= 1024.

Lemma foldr_add_app l k : foldr Z.add 0 (l ++ k) = foldr Z.add 0 l + foldr Z.add 0 k.
Proof. induction l as [|x l IH]; simpl; lia. Qed.

Lemma foldr_add_nonneg l : Forall (fun x => 0 <= x) l -> 0 <= foldr Z.add 0 l.
Proof. induction 1; simpl; lia. Qed.

(** The sizes before [j] include the sizes up to [i], for [i < j]. *)
Lemma sum_before_after l i j n :
  Forall (fun x => 0 <= x) l -> getZ l i = Some n -> i < j ->
  sum_before l i + n <= sum_before l j.
Proof.
  intros F Hn Hij. pose proof (getZ_Some_lt _ _ _ Hn) as [Hi _].
  unfold getZ in Hn. rewrite decide_True in Hn by done. unfold sum_before.
  replace (Z.to_nat j) with (S (Z.to_nat i) + (Z.to_nat j - S (Z.to_nat i)))%nat by lia.
  rewrite <-take_take_drop, (take_S_r _ _ n) by done.
  rewrite !foldr_add_app. simpl.
  pose proof (foldr_add_nonneg _ (Forall_take _ (Z.to_nat j - S (Z.to_nat i)) _
    (Forall_drop _ (S (Z.to_nat i)) _ F))). lia.
Qed.

(** Two laid-out arrays do not overlap. *)
Lemma arrays_disjoint m a a' b n b' n' :
  vm_wf m -> arrays_laid_out m -> a <> a' ->
  getZ (array_bases m) a = Some b -> getZ (array_lens m) a = Some n -> 0 < n ->
  getZ (array_bases m) a' = Some b' -> getZ (array_lens m) a' = Some n' -> 0 < n' ->
  b + n <= b' \/ b' + n' <= b.
Proof.
  intros Hm Hl Hne Hb Hn H0 Hb' Hn' H0'.
  destruct (Hl a b n Hb Hn H0) as [-> _], (Hl a' b' n' Hb' Hn' H0') as [-> _].
  pose proof (Forall_u16_nonneg _ (proj2 (array_lens_wf m Hm))) as F.
  destruct (decide (a < a')).
  - left. by apply sum_before_after.
  - right. apply sum_before_after; [done..|lia].
Qed.

(** The slot [ARR_STORE] writes. *)
Lemma ARR_STORE_inv m a ri rv m1 :
  vm_wf m -> exec_ARR_STORE m a ri rv = Ok m1 ->
  exists b n, getZ (array_bases m) a = Some b /\ getZ (array_lens m) a = Some n /\
    0 <= reg_or m ri (-1) < n /\
    m1 = set_array_slots m (setZ (array_slots m) (b + reg_or m ri (-1)) (reg_or m rv 0)).
Proof.
  intros Hm. unfold exec_ARR_STORE. case_match; [done|].
  intros (n & Hn%idx_Ok & H1)%bind_Ok. destruct (_ || _) eqn:Hg in H1; [done|].
  apply bind_Ok in H1 as (b & Hb%idx_Ok & (l & [_ ->]%upd_Ok & <-%ret_Ok)%bind_Ok).
  exists b, n. guards. by split_and!.
Qed.

Lemma array_view_eq m a b n :
  getZ (array_bases m) a = Some b -> getZ (array_lens m) a = Some n ->
  array_view m a = sub (array_slots m) b (b + n).
Proof. intros Hb Hn. unfold array_view. by rewrite Hb, Hn. Qed.

(** [ARR_STORE] refines the update of one array of a family of separate
    arrays: when the arrays are laid out in the file, storing [v] at index [i]
    of array [a] changes the contents of [a] at [i] to [v] and leaves every
    other array as it was, although all of them share one slot file. *)
Theorem array_store_refines m a ri rv m1 :
  vm_wf m -> arrays_laid_out m -> exec_ARR_STORE m a ri rv = Ok m1 ->
  array_view m1 a = setZ (array_view m a) (reg_or m ri (-1)) (reg_or m rv 0) /\
  (forall a', a' <> a -> array_view m1 a' = array_view m a').
Proof.
  intros Hm Hl Hs. destruct (ARR_STORE_inv m a ri rv m1 Hm Hs) as (b & n & Hb & Hn & Hi & ->).
  set (i := reg_or m ri (-1)) in *. files Hm.
  pose proof (Forall_getZ _ _ _ _ (proj2 (array_bases_wf m Hm)) Hb) as [? _].
  destruct (Hl a b n Hb Hn) as [? ?]; [lia|]. split.
  - rewrite !(array_view_eq _ a b n) by done. simpl. apply sub_setZ_in; lia.
  - intros a' Ha. destruct (getZ (array_bases m) a') as [b'|] eqn:Hb'.
    + destruct (getZ_lt_Some (array_lens m) a') as [n' Hn'];
        [pose proof (getZ_Some_lt _ _ _ Hb'); lia|].
      rewrite !(array_view_eq _ a' b' n') by done. simpl.
      destruct (decide (0 < n')); [|by rewrite !sub_empty by lia].
      pose proof (Forall_getZ _ _ _ _ (proj2 (array_bases_wf m Hm)) Hb') as [? _].
      apply sub_setZ_out; [done|].
      destruct (arrays_disjoint m a a' b n b' n'); try done; lia.
    + unfold array_view. simpl. apply getZ_None in Hb'.
      assert (getZ (array_lens m) a' = None) as -> by (apply getZ_None; lia). simpl.
      by rewrite !sub_empty.
Qed.

(** [ARR_LOAD] reads the contents of the array it names: when it succeeds
    the destination register holds the element at the index, and it reports
    [ERR_PX64_ARRAY_OUT_OF_BOUNDS] exactly when the index is outside the array. *)
Theorem array_load_reads m rd a ri :
  vm_wf m -> arrays_laid_out m -> 0 <= a < 16 -> 0 <= rd < 20 ->
  match getZ (array_view m a) (reg_or m ri (-1)) with
  | Some v => exec_ARR_LOAD m rd a ri = Ok (set_reg m rd v)
  | None => exists e, exec_ARR_LOAD m rd a ri = Err e /\ Error.code e = "ERR_PX64_ARRAY_OUT_OF_BOUNDS"%string
  end.
Proof.
  intros Hm Hl Ha Hd. files Hm. unfold exec_ARR_LOAD.
  set (i := reg_or m ri (-1)).
  destruct (getZ_lt_Some (array_lens m) a) as [n Hn]; [lia|].
  destruct (getZ_lt_Some (array_bases m) a) as [b Hb]; [lia|].
  rewrite (array_view_eq m a b n) by done.
  destruct (Z.leb_spec 16 a); [lia|]. rewrite (proj2 (idx_Ok _ _ _) Hn). simpl.
  rewrite (proj2 (idx_Ok _ _ _) Hb). simpl.
  pose proof (Forall_getZ _ _ _ _ (proj2 (array_bases_wf m Hm)) Hb) as [? _].
  pose proof (Forall_getZ _ _ _ _ (proj2 (array_lens_wf m Hm)) Hn) as [? _].
  assert (Ho : i < 0 \/ n <= i -> getZ (sub (array_slots m) b (b + n)) i = None).
  { intros Hi. apply getZ_None. destruct (decide (0 < n)).
    - destruct (Hl a b n Hb Hn) as [_ ?]; [done|]. rewrite len_sub; lia.
    - assert (sub (array_slots m) b (b + n) = []) as -> by (apply sub_empty; lia).
      unfold len. simpl. lia. }
  destruct (Z.ltb_spec i 0); simpl; [rewrite Ho by lia; by eexists|].
  destruct (Z.leb_spec n i); [rewrite Ho by lia; by eexists|].
  destruct (Hl a b n Hb Hn) as [_ ?]; [lia|].
  rewrite getZ_sub by lia.
  destruct (getZ_lt_Some (array_slots m) (b + i)) as [v Hv]; [lia|]. rewrite Hv.
  destruct (Z.ltb_spec rd PX64_NUM_REGISTERS); [|unfold PX64_NUM_REGISTERS in *; lia].
  by rewrite (proj2 (idx_Ok _ _ _) Hv).
Qed.

(** [array a[3]; array b[2]; b[1] := 9; r3 := b[1]]. *)
Definition two_arrays : vm :=
  set_reg (set_reg (exec_ARR_DEF (exec_ARR_DEF new 0 3) 1 2) 1 1) 2 9.

Lemma two_arrays_wf : vm_wf two_arrays.
Proof.
  unfold two_arrays. repeat (apply set_reg_wf; [|done]).
  repeat (apply ARR_DEF_wf; [|done]). exact new_wf.
Qed.

Definition laid_out_at (m : vm) (a : Z) : bool :=
  match getZ (array_bases m) a, getZ (array_lens m) a with
  | Some b, Some n => (n <=? 0) || ((b =? sum_before (array_lens m) a) && (b + n <=? 1024))
  | _, _ => true
  end.

Lemma laid_out_check m :
  len (array_bases m) = 16 -> forallb (laid_out_at m) (seqZ 0 16) = true -> arrays_laid_out m.
Proof.
  intros Hlen Hf a b n Hb Hn Hpos. rewrite forallb_forall in Hf.
  pose proof (getZ_Some_lt _ _ _ Hb). specialize (Hf a).
  unfold laid_out_at in Hf. rewrite Hb, Hn, orb_true_iff, andb_true_iff in Hf.
  rewrite !Z.leb_le, Z.eqb_eq in Hf.
  destruct Hf as [?|[? ?]]; [apply list_elem_of_In, elem_of_seqZ; lia | lia | done].
Qed.

Lemma two_arrays_laid_out : arrays_laid_out two_arrays.
Proof. apply laid_out_check; vm_compute; reflexivity. Qed.

Theorem array_store_refines_witness :
  exists m1, exec_ARR_STORE two_arrays 1 1 2 = Ok m1 /\
    array_view m1 1 = [0; 9] /\ array_view m1 0 = [0; 0; 0].
Proof.
  destruct (exec_ARR_STORE two_arrays 1 1 2) as [m1| |] eqn:E;
    [|vm_compute in E; discriminate..].
  exists m1. split; [reflexivity|].
  destruct (array_store_refines two_arrays 1 1 2 m1) as [H1 H2].
  - exact two_arrays_wf.
  - exact two_arrays_laid_out.
  - exact E.
  - rewrite H1, (H2 0) by done. split; vm_compute; reflexivity.
Defined.

Theorem array_load_reads_witness :
  exists e, exec_ARR_LOAD two_arrays 3 0 2 = Err e /\
    Error.code e = "ERR_PX64_ARRAY_OUT_OF_BOUNDS"%string.
Proof.
  pose proof (array_load_reads two_arrays 3 0 2 two_arrays_wf two_arrays_laid_out
    ltac:(lia) ltac:(lia)) as H.
  destruct (getZ (array_view two_arrays 0) (reg_or two_arrays 2 (-1))) eqn:E.
  - vm_compute in E. discriminate.
  - exact H.
Defined.

(** * VRAM *)

(** The slot a VRAM native selects with its first argument. *)
Definition vram_slot (v : Z) : Z := as_u64 v mod 4.

Lemma len_Z_to_le n z : len (Z_to_le n z) = Z.of_nat n.
Proof. unfold len. by rewrite length_Z_to_le. Qed.

Lemma as_i64_as_u64 z : in_i64 z -> as_i64 (as_u64 z) = z.
Proof.
  intros Hz. unfold as_i64, as_u64, wrapS, wrapU.
  rewrite Zplus_mod_idemp_l. by apply as_i64_small.
Qed.

Lemma as_u64_small z : 0 <= z < 2 ^ 64 -> as_u64 z = z.
Proof. apply wrapU_small. Qed.

(** A 64-bit VRAM write is read back: [@vram_write] of [w] at an offset
    with eight bytes of room, followed by [@vram_read] of the same slot and
    offset, gives [w] (little-endian, sign included), and the other slots are
    unchanged. *)
Theorem vram_write_read m a v off w :
  vm_wf m -> arg_before m a 0 0 = Ok off -> arg_before m a 1 0 = Ok w ->
  0 <= off <= 4088 ->
  exists m1, native_VRAM_WRITE m a v = Ok (0, m1) /\ native_VRAM_READ m1 a v = Ok w /\
    (forall k, k <> vram_slot v -> getZ (vram m1) k = getZ (vram m) k).
Proof.
  intros Hm Ho Hw Hr. destruct (vram_wf m Hm) as [Lv Fv].
  pose proof (Z.mod_pos_bound (as_u64 v) 4 ltac:(lia)) as Hk.
  destruct (getZ_lt_Some (vram m) (as_u64 v mod 4)) as [s Hs]; [lia|].
  pose proof (Forall_getZ _ _ _ _ Fv Hs) as [Ls Fs].
  assert (Hb : len (Z_to_le 8 (as_u64 w)) = 8) by apply len_Z_to_le.
  unfold native_VRAM_WRITE. rewrite Ho, Hw. simpl. rewrite (as_u64_small off) by lia.
  rewrite (proj2 (idx_Ok _ _ _) Hs). simpl.
  destruct (Z.leb_spec (2 ^ 64) (off + 8)); [lia|].
  destruct (Z.leb_spec (off + 8) (len s)); [|lia].
  rewrite (proj2 (blit_Ok s (Z_to_le 8 (as_u64 w)) _ off)) by (split_and!; [lia|lia|reflexivity]).
  simpl. eexists. split; [reflexivity|]. split.
  - unfold native_VRAM_READ.
    change (arg_before (set_vram m _) a 0 0) with (arg_before m a 0 0).
    rewrite Ho. simpl. rewrite (as_u64_small off) by lia.
    unfold idx. rewrite getZ_setZ_eq by lia. simpl.
    destruct (Z.leb_spec (2 ^ 64) (off + 8)); [lia|].
    rewrite len_splice by lia. destruct (Z.leb_spec (off + 8) (len s)); [|lia].
    rewrite (proj2 (slice_Ok _ off (off + 8) (Z_to_le 8 (as_u64 w)))).
    + cbn [mbind outcome_bind mret outcome_ret]. rewrite le_to_Z_to_le.
      change (as_u64 w mod 256 ^ Z.of_nat 8) with (as_u64 (as_u64 w)).
      rewrite (as_u64_small (as_u64 w)) by apply as_u64_range.
      rewrite as_i64_as_u64; [done|]. exact (arg_before_range m a 1 0 w Hm in_i64_0 Hw).
    + rewrite len_splice by lia. split; [lia|].
      rewrite <-(sub_splice s (Z_to_le 8 (as_u64 w)) off) at 1 by lia. by rewrite Hb.
  - intros k Hne. simpl. by rewrite getZ_setZ_ne.
Qed.

Theorem vram_write_read_witness :
  let m := set_reg (set_reg new 2 40) 1 (-5) in
  exists m1, native_VRAM_WRITE m 3 6 = Ok (0, m1) /\ native_VRAM_READ m1 3 6 = Ok (-5).
Proof.
  intros m. destruct (vram_write_read m 3 6 40 (-5)) as (m1 & H1 & H2 & _).
  - apply set_reg_wf; [apply set_reg_wf; [exact new_wf|done]|done].
  - reflexivity.
  - reflexivity.
  - lia.
  - by exists m1.
Defined.

(** * Tagged results *)

(** Values below the tag bits: what a script may pass to [@ok] and [@err]. *)
Definition untagged (v : Z) : Prop := 0 <= v < 2 ^ 60.

Lemma untagged_land_err v : untagged v -> Z.land v ERR_TAG = 0.
Proof.
  intros Hv. unfold untagged in Hv. apply Z.bits_inj'. intros n Hn.
  rewrite Z.land_spec, Z.bits_0. change ERR_TAG with (2 ^ 60).
  rewrite Z.pow2_bits_eqb by lia. destruct (Z.eqb_spec 60 n) as [<-|]; [|by rewrite andb_false_r].
  rewrite andb_true_r, Z.testbit_eqb by lia. rewrite Z.div_small by lia. done.
Qed.

Lemma land_lnot_disjoint v t : Z.land v t = 0 -> Z.land v (Z.lnot t) = v.
Proof.
  intros H. apply Z.bits_inj'. intros n Hn. apply (f_equal (fun z => Z.testbit z n)) in H.
  revert H. rewrite !Z.land_spec, Z.lnot_spec, Z.bits_0 by done.
  by destruct (Z.testbit v n), (Z.testbit t n).
Qed.

Lemma land_lor_absorb t v : Z.land (Z.lor t v) t = t.
Proof.
  apply Z.bits_inj'. intros n Hn. rewrite Z.land_spec, Z.lor_spec.
  by destruct (Z.testbit t n), (Z.testbit v n).
Qed.

(** Tagged results behave as a sum type on every value below the tag bits:
    [@ok(v)] is ok, is not an error, and unwraps to [v]; [@err(v)] is an error,
    is not ok, and unwrapping it fails with [ERR_PX64_UNWRAP_FAILED]; and
    [@ok(@err(v))] recovers the payload [v]. *)
Theorem tagged_result_laws v :
  untagged v ->
  (native_IS_OK (native_TAG_OK v) = 1 /\ native_IS_ERR (native_TAG_OK v) = 0 /\
   native_UNWRAP (native_TAG_OK v) = Ok v) /\
  (native_IS_OK (native_TAG_ERR v) = 0 /\ native_IS_ERR (native_TAG_ERR v) = 1 /\
   exists e, native_UNWRAP (native_TAG_ERR v) = Err e /\ Error.code e = "ERR_PX64_UNWRAP_FAILED"%string) /\
  native_TAG_OK (native_TAG_ERR v) = v.
Proof.
  intros Hv. pose proof (untagged_land_err v Hv) as H0.
  assert (Hok : native_TAG_OK v = v) by (by apply land_lnot_disjoint).
  assert (He : native_TAG_ERR v = Z.lor ERR_TAG v).
  { unfold native_TAG_ERR. by rewrite (land_lnot_disjoint v ERR_TAG H0). }
  rewrite Hok, He. unfold native_IS_OK, native_IS_ERR, native_UNWRAP, native_TAG_OK.
  rewrite H0, land_lor_absorb. split_and!; try done; [by eexists|].
  rewrite Z.land_lor_distr_l, Z.land_lnot_diag. by rewrite (land_lnot_disjoint v).
Qed.

Theorem tagged_result_laws_witness :
  native_UNWRAP (native_TAG_OK 42) = Ok 42 /\ native_TAG_OK (native_TAG_ERR 42) = 42.
Proof.
  destruct (tagged_result_laws 42) as ((_ & _ & H1) & _ & H2); [unfold untagged; lia|].
  by split.
Defined.

(** The value passes for an error, a string and an argument. *)
Definition looks_tagged (v : Z) : Prop := native_IS_ERR v = 1 /\ tagged v = true.

(** The tag bits are payload bits of negative numbers: for every integer
    from [-ERR_TAG] to [-1] the value is taken for an error and for a string
    (so [@unwrap(-5)] fails, [@is_err(-5)] is 1 and [@print(-5)] prints an
    argument or nothing instead of a number), and [@ok] changes it. *)
Theorem negative_numbers_look_tagged p v :
  - ERR_TAG <= v < 0 ->
  looks_tagged v /\ (exists e, native_UNWRAP v = Err e) /\ native_TAG_OK v <> v /\
  print_text p v = default [] (getZ (args p) (Z.land v 255)).
Proof.
  intros Hv. change ERR_TAG with (2 ^ 60) in Hv.
  assert (Hb : forall k, 60 <= k -> Z.testbit v k = true).
  { intros k Hk. rewrite <-(Z.lnot_involutive v), Z.lnot_spec by lia.
    unfold Z.lnot. rewrite Z.testbit_eqb by lia. rewrite Z.div_small; [done|].
    split; [lia|]. apply Z.lt_le_trans with (2 ^ 60); [lia|]. apply Z.pow_le_mono_r; lia. }
  assert (Hl : forall k, 60 <= k -> Z.land v (2 ^ k) = 2 ^ k).
  { intros k Hk. apply Z.bits_inj'. intros n Hn. rewrite Z.land_spec, Z.pow2_bits_eqb by lia.
    destruct (Z.eqb_spec k n) as [<-|]; [by rewrite Hb | by rewrite andb_false_r]. }
  pose proof (Hl 60 ltac:(lia)) as H60. pose proof (Hl 61 ltac:(lia)) as H61.
  unfold looks_tagged, native_IS_ERR, native_UNWRAP, native_TAG_OK, tagged, print_text.
  change ERR_TAG with (2 ^ 60). change ARG_TAG with (2 ^ 61). rewrite H60, H61.
  split_and!; [done|by rewrite orb_true_r|by eexists| |done].
  intros E. apply (f_equal (fun z => Z.land z (2 ^ 60))) in E. rewrite H60 in E.
  rewrite <-Z.land_assoc, (Z.land_comm (Z.lnot _)), Z.land_lnot_diag, Z.land_0_r in E. done.
Qed.

Theorem negative_numbers_look_tagged_witness :
  native_IS_ERR (-5) = 1 /\ print_text countdown (-5) = [].
Proof.
  destruct (negative_numbers_look_tagged countdown (-5)) as ((H & _) & _ & _ & Hp);
    [vm_compute; split; congruence|].
  split; [exact H|]. rewrite Hp. reflexivity.
Defined.
