(* ===== verification/Binary.v ===== *)
(** The px64 binary container: the writer (the end of
    [compile_pulse_to_binary_with_tokens], pulselang-core/src/lib.rs), the
    loader ([run_binary_with_output], pulselang-core/src/vm.rs) and the test
    runner ([run_test_case_with_replay], lib.rs).

    Layout: a 16-byte header (magic, version, code length, string pool length,
    constant count, register count, reserved), the code, the string pool, and
    the constants, big-endian. *)

From S2P Require Import Prelude RustStd Isa Token Error Crc VmState VmExec Vm VmRun.
Local Open Scope Z_scope.

(** * Writing *)

Definition blit_at (i : Z) (s : list Z) (buf : list Z) : result (list Z) := blit buf i s.

(** The loop that copies the constants, from constant [i] on. *)
Fixpoint write_consts (const_start i : Z) (cs : list Z) (buf : list Z) : result (list Z) :=
  match cs with
  | [] => mret buf
  | c :: cs =>
    buf ← blit_at (const_start + i * 8) (Z_to_be 8 (as_u64 c)) buf;
    write_consts const_start (i + 1) cs buf
  end.

(** The size of the container and the buffer it was written to. The buffer is
    returned with its whole length. *)
Definition write_binary (code str_pool const_pool : list Z) (out_buf : list Z)
    : result (Z * list Z) :=
  let code_len := len code in
  let str_pool_len := len str_pool in
  let const_pool_count := len const_pool in
  let const_pool_bytes := const_pool_count * 8 in
  let total_size := PX64_HEADER_SIZE + code_len + str_pool_len + const_pool_bytes in
  if len out_buf <? total_size then
    err "ERR_BINARY_BUFFER_OVERFLOW" "Output buffer too small for compiled px64 binary payload"
  else
    buf ← blit_at 0 PX64_BIN_MAGIC out_buf;
    buf ← blit_at 4 (Z_to_be 2 PX64_BIN_VERSION) buf;
    buf ← blit_at 6 (Z_to_be 2 (as_u16 code_len)) buf;
    buf ← blit_at 8 (Z_to_be 2 (as_u16 str_pool_len)) buf;
    buf ← blit_at 10 (Z_to_be 2 (as_u16 const_pool_count)) buf;
    buf ← blit_at 12 (Z_to_be 2 (as_u16 PX64_NUM_REGISTERS)) buf;
    buf ← blit_at 14 [0; 0] buf;
    buf ← blit_at PX64_HEADER_SIZE code buf;
    buf ← blit_at (PX64_HEADER_SIZE + code_len) str_pool buf;
    buf ← write_consts (PX64_HEADER_SIZE + code_len + str_pool_len) 0 const_pool buf;
    mret (total_size, buf).

(** * Loading *)

(** [u16::from_be_bytes([bin[i], bin[i + 1]])]. *)
Definition read_u16 (bin : list Z) (i : Z) : result Z :=
  a ← idx bin i; b ← idx bin (i + 1); mret (be_to_Z [a; b]).

(** The loop over the first [n] constants. *)
Fixpoint read_consts (n : nat) (i : Z) (raw : list Z) : result (list Z) :=
  match n with
  | O => mret []
  | S n =>
    b ← slice raw (i * 8) ((i + 1) * 8);
    cs ← read_consts n (i + 1) raw;
    mret (as_i64 (be_to_Z b) :: cs)
  end.

(** The sections of a container, once its magic has been checked. [None] when
    it is shorter than its header says. *)
Definition read_sections (bin : list Z) (args : list (list Z)) : result (option program) :=
  code_len ← read_u16 bin 6;
  str_pool_len ← read_u16 bin 8;
  const_count ← read_u16 bin 10;
  let const_bytes := const_count * 8 in
  if len bin <? PX64_HEADER_SIZE + code_len + str_pool_len + const_bytes then mret None
  else
    code ← slice bin PX64_HEADER_SIZE (PX64_HEADER_SIZE + code_len);
    str_pool ← slice bin (PX64_HEADER_SIZE + code_len)
                 (PX64_HEADER_SIZE + code_len + str_pool_len);
    let const_start := PX64_HEADER_SIZE + code_len + str_pool_len in
    const_slice_raw ← slice bin const_start (const_start + const_bytes);
    let count := Z.min const_count 64 in
    const_pool ← read_consts (Z.to_nat count) 0 const_slice_raw;
    mret (Some (mkProgram code str_pool const_pool args)).

(** [bin.len() >= PX64_HEADER_SIZE && &bin[0..4] == &PX64_BIN_MAGIC]. *)
Definition has_magic (bin : list Z) : bool :=
  (PX64_HEADER_SIZE <=? len bin) && bytes_eqb (sub bin 0 4) PX64_BIN_MAGIC.

Definition load_binary (bin : list Z) (args : list (list Z)) : result program :=
  if has_magic bin then
    version ← read_u16 bin 4;
    if negb (version =? PX64_BIN_VERSION) then
      err "ERR_BINARY_VERSION_MISMATCH" "Unsupported px64 binary version"
    else
      s ← read_sections bin args;
      match s with
      | Some p => mret p
      | None => err "ERR_BINARY_TRUNCATED" "Truncated px64 binary payload"
      end
  else err "ERR_BINARY_INVALID_MAGIC" "Invalid executable binary magic (expected PX64)".

Definition run_binary_with_output (fuel : nat) (h : host) (bin : list Z) (args : list (list Z))
    : option (vm * result unit) :=
  match load_binary bin args with
  | Ok p => run_with_output fuel h p new
  | Err e => Some (new, Err e)
  | Panic k => Some (new, Panic k)
  end.

(** * The test runner *)

Record TestCaseCompiled : Set := mkTest {
  test_name : list Z;
  test_line : Z;
  test_budget_ns : option Z;
  bytecode : list Z;
}.

Record TestExecutionResult : Set := mkTestResult {
  passed : bool;
  error : option (list Z);
  res_steps : Z;
  elapsed_ns : Z;
  res_budget_ns : option Z;
}.

(** [saturating_mul(15)] on [u64]. *)
Definition saturating_mul15 (n : Z) : Z := Z.min (n * 15) (2 ^ 64 - 1).

Definition over_budget_message (elapsed budget : Z) : list Z :=
  bytes "Test exceeded budget: elapsed " ++ show_Z elapsed ++ bytes "ns > budget "
    ++ show_Z budget ++ bytes "ns".

(** The verdict on a finished run; [wall_ns] is the clock reading, used
    without replay. *)
Definition test_verdict (t : TestCaseCompiled) (replay : option DeterministicReplayConfig)
    (wall_ns : Z) (m : vm) (exec_res : result unit) : outcome CompileError TestExecutionResult :=
  let elapsed := if replay then saturating_mul15 (steps m) else wall_ns in
  match exec_res with
  | Ok _ =>
    match test_budget_ns t with
    | Some budget =>
      if budget <? elapsed then
        mret (mkTestResult false (Some (over_budget_message elapsed budget))
                (steps m) elapsed (test_budget_ns t))
      else mret (mkTestResult true None (steps m) elapsed (test_budget_ns t))
    | None => mret (mkTestResult true None (steps m) elapsed (test_budget_ns t))
    end
  | Err e =>
    mret (mkTestResult false
            (Some (bytes (Error.code e) ++ bytes ": " ++ bytes (message e)))
            (steps m) elapsed (test_budget_ns t))
  | Panic k => Panic k
  end.

Definition rejected_test (t : TestCaseCompiled) (msg : string) : TestExecutionResult :=
  mkTestResult false (Some (bytes msg)) 0 0 (test_budget_ns t).

Definition set_replay (m : vm) (replay : option DeterministicReplayConfig) : vm :=
  match replay with Some r => set_replay_config m (Some r) | None => m end.

(** [None] when the fuel runs out. The version field is not read. *)
Definition run_test_case_with_replay (fuel : nat) (h : host) (wall_ns : Z)
    (t : TestCaseCompiled) (replay : option DeterministicReplayConfig)
    : option (outcome CompileError TestExecutionResult) :=
  if negb (has_magic (bytecode t)) then
    Some (mret (rejected_test t "Invalid px64 binary payload"))
  else
    match read_sections (bytecode t) [] with
    | Ok (Some p) =>
      match run_with_output fuel h p (set_replay new replay) with
      | Some (m, r) => Some (test_verdict t replay wall_ns m r)
      | None => None
      end
    | Ok None => Some (mret (rejected_test t "Truncated px64 binary payload"))
    | Err e => Some (Err e)
    | Panic k => Some (Panic k)
    end.

(** * The container as a list *)

Definition header (code_len str_pool_len const_count : Z) : list Z :=
  PX64_BIN_MAGIC ++ Z_to_be 2 PX64_BIN_VERSION ++ Z_to_be 2 (as_u16 code_len)
    ++ Z_to_be 2 (as_u16 str_pool_len) ++ Z_to_be 2 (as_u16 const_count)
    ++ Z_to_be 2 (as_u16 PX64_NUM_REGISTERS) ++ [0; 0].

Fixpoint encode_consts (cs : list Z) : list Z :=
  match cs with [] => [] | c :: cs => Z_to_be 8 (as_u64 c) ++ encode_consts cs end.

Definition encode (code str_pool const_pool : list Z) : list Z :=
  header (len code) (len str_pool) (len const_pool) ++ code ++ str_pool
    ++ encode_consts const_pool.

Lemma len_Z_to_be n z : len (Z_to_be n z) = Z.of_nat n.
Proof. unfold len. by rewrite length_Z_to_be. Qed.

Lemma len_header a b c : len (header a b c) = 16.
Proof. unfold header. rewrite !len_app, !len_Z_to_be. reflexivity. Qed.

Lemma len_encode_consts cs : len (encode_consts cs) = len cs * 8.
Proof.
  induction cs as [|c cs IH]; [done|]. cbn [encode_consts]. rewrite len_app, len_Z_to_be, IH, len_cons. lia.
Qed.

Lemma len_encode code sp cp : len (encode code sp cp) = 16 + len code + len sp + len cp * 8.
Proof. unfold encode. rewrite !len_app, len_header, len_encode_consts. lia. Qed.

(** Writing the next section after the sections already written. *)
Lemma blit_at_next out pre i s :
  len pre = i -> i + len s <= len out ->
  blit_at i s (pre ++ drop (length pre) out) = Ok ((pre ++ s) ++ drop (length (pre ++ s)) out).
Proof.
  intros Hi Hs. unfold blit_at, blit.
  assert (Hl : len (pre ++ drop (length pre) out) = len out).
  { pose proof (len_nonneg s). rewrite len_app. unfold len in *. rewrite length_drop. lia. }
  rewrite decide_True by (rewrite Hl; split; [subst; apply len_nonneg | done]).
  f_equal. unfold splice. replace (Z.to_nat i) with (length pre) by (unfold len in Hi; lia).
  rewrite take_app_length, drop_app_ge by lia.
  replace (length pre + length s - length pre)%nat with (length s) by lia.
  rewrite drop_drop, length_app, <-app_assoc. done.
Qed.

Lemma write_consts_ok out cs : forall pre start i,
  len pre = start + i * 8 -> start + (i + len cs) * 8 <= len out ->
  write_consts start i cs (pre ++ drop (length pre) out) =
    Ok ((pre ++ encode_consts cs) ++ drop (length (pre ++ encode_consts cs)) out).
Proof.
  induction cs as [|c cs IH]; intros pre start i Hi Hs; cbn [write_consts].
  - cbn [encode_consts]. by rewrite app_nil_r.
  - rewrite len_cons in Hs. pose proof (len_nonneg cs).
    rewrite blit_at_next by (rewrite ?len_Z_to_be; lia). cbn [mbind outcome_bind].
    rewrite IH by (rewrite ?len_app, ?len_Z_to_be; lia).
    cbn [encode_consts]. by rewrite app_assoc.
Qed.

(** What the writer returns. *)
Lemma write_binary_result code sp cp out :
  let total := 16 + len code + len sp + len cp * 8 in
  if len out <? total
  then exists e, write_binary code sp cp out = Err e /\
         Error.code e = "ERR_BINARY_BUFFER_OVERFLOW"%string
  else write_binary code sp cp out =
         Ok (total, encode code sp cp ++ drop (length (encode code sp cp)) out).
Proof.
  intros total. unfold write_binary. change PX64_HEADER_SIZE with 16. cbv zeta.
  fold total. destruct (Z.ltb_spec (len out) total) as [|Hle]; [by eexists|].
  unfold total in Hle. pose proof (len_nonneg code). pose proof (len_nonneg sp).
  pose proof (len_nonneg cp). assert (HM : len PX64_BIN_MAGIC = 4) by done.
  change out with ([] ++ drop (length (@nil Z)) out) at 1.
  rewrite (blit_at_next out []) by (rewrite ?HM, ?len_nil; lia). cbn [mbind outcome_bind].
  do 5 (rewrite (blit_at_next out); [|rewrite ?len_app, ?len_Z_to_be, ?HM, ?len_nil; lia..];
        cbn [mbind outcome_bind]).
  rewrite (blit_at_next out _ 14); [|rewrite ?len_app, ?len_Z_to_be, ?HM, ?len_nil; try lia..];
    [|change (len [0; 0]) with 2; lia]. cbn [mbind outcome_bind].
  set (h := _ ++ [0; 0]).
  assert (Hh : h = header (len code) (len sp) (len cp)).
  { unfold h, header. by rewrite <-!app_assoc. }
  rewrite Hh. pose proof (len_header (len code) (len sp) (len cp)) as Hlh.
  rewrite (blit_at_next out) by (rewrite ?Hlh; lia). cbn [mbind outcome_bind].
  rewrite (blit_at_next out) by (rewrite ?len_app, ?Hlh; lia). cbn [mbind outcome_bind].
  rewrite write_consts_ok by (rewrite ?len_app, ?Hlh; lia). cbn [mbind outcome_bind mret outcome_ret].
  unfold encode. by rewrite <-!app_assoc.
Qed.

(** The container writer is exact: it fails with
    [ERR_BINARY_BUFFER_OVERFLOW] when the output buffer is shorter than the
    container, and otherwise writes header, code, string pool and big-endian
    constants at the start of the buffer, leaves the rest of the buffer as it
    was, returns the container's size, and never panics. *)
Theorem write_binary_exact code sp cp out :
  let total := 16 + len code + len sp + len cp * 8 in
  if len out <? total
  then exists e, write_binary code sp cp out = Err e /\
         Error.code e = "ERR_BINARY_BUFFER_OVERFLOW"%string
  else write_binary code sp cp out =
         Ok (total, encode code sp cp ++ drop (length (encode code sp cp)) out).
Proof. apply write_binary_result. Qed.

(** * Reading it back *)

Lemma slice_middle {A} (pre s post : list A) i j :
  i = len pre -> j = len pre + len s -> @slice CompileError A (pre ++ s ++ post) i j = Ok s.
Proof.
  intros -> ->. pose proof (len_nonneg pre). pose proof (len_nonneg s).
  apply slice_Ok. split.
  - rewrite !len_app. pose proof (len_nonneg post). lia.
  - unfold sub, len. rewrite Nat2Z.id, drop_app_length.
    replace (Z.to_nat (_ - _)) with (length s) by lia. by rewrite take_app_length.
Qed.

Lemma Z_to_be_2 z : Z_to_be 2 z = [(z / 256) mod 256; z mod 256].
Proof. reflexivity. Qed.

(** The three lengths of a header read back modulo [2^16]. *)
Lemma read_header a b c tl :
  @read_u16 (header a b c ++ tl) 4 = Ok PX64_BIN_VERSION /\
  read_u16 (header a b c ++ tl) 6 = Ok (as_u16 a) /\
  read_u16 (header a b c ++ tl) 8 = Ok (as_u16 b) /\
  read_u16 (header a b c ++ tl) 10 = Ok (as_u16 c).
Proof.
  assert (H : forall x, Ok (be_to_Z [(as_u16 x / 256) mod 256; as_u16 x mod 256])
    = @Ok CompileError Z (as_u16 x)).
  { intros x. rewrite <-Z_to_be_2, be_to_Z_to_be. f_equal. apply Z.mod_small.
    apply as_u16_range. }
  unfold header. rewrite !Z_to_be_2. unfold read_u16.
  split_and!; [reflexivity | rewrite <-H; reflexivity..].
Qed.

Lemma as_i64_be8 c : in_i64 c -> as_i64 (be_to_Z (Z_to_be 8 (as_u64 c))) = c.
Proof.
  intros Hc. rewrite be_to_Z_to_be. change (256 ^ Z.of_nat 8) with (2 ^ 64).
  rewrite Z.mod_small by apply as_u64_range.
  unfold as_i64, as_u64, wrapS, wrapU. rewrite Zplus_mod_idemp_l. by apply as_i64_small.
Qed.

Lemma read_consts_encode cs : forall pre i post,
  len pre = i * 8 -> Forall in_i64 cs ->
  read_consts (length cs) i (pre ++ encode_consts cs ++ post) = Ok cs.
Proof.
  induction cs as [|c cs IH]; intros pre i post Hi Hcs; [done|].
  inversion_clear Hcs. cbn [length read_consts encode_consts]. rewrite <-app_assoc.
  rewrite (slice_middle pre (Z_to_be 8 (as_u64 c)))
    by (rewrite ?len_Z_to_be; lia). cbn [mbind outcome_bind].
  rewrite app_assoc, IH; [|rewrite len_app, len_Z_to_be; lia|done].
  cbn [mbind outcome_bind mret outcome_ret]. by rewrite as_i64_be8.
Qed.

Lemma has_magic_encode code sp cp tl : has_magic (encode code sp cp ++ tl) = true.
Proof.
  unfold has_magic. apply andb_true_iff. split; [|reflexivity].
  apply Z.leb_le. rewrite len_app, len_encode. change PX64_HEADER_SIZE with 16.
  pose proof (len_nonneg code). pose proof (len_nonneg sp). pose proof (len_nonneg cp).
  pose proof (len_nonneg tl). lia.
Qed.

Lemma read_encode_header code sp cp tl :
  read_u16 (encode code sp cp ++ tl) 4 = Ok PX64_BIN_VERSION /\
  read_u16 (encode code sp cp ++ tl) 6 = Ok (as_u16 (len code)) /\
  read_u16 (encode code sp cp ++ tl) 8 = Ok (as_u16 (len sp)) /\
  read_u16 (encode code sp cp ++ tl) 10 = Ok (as_u16 (len cp)).
Proof. unfold encode. rewrite <-!app_assoc. apply read_header. Qed.

Lemma read_sections_encode code sp cp args tl :
  len code < 2 ^ 16 -> len sp < 2 ^ 16 -> len cp <= 64 -> Forall in_i64 cp ->
  read_sections (encode code sp cp ++ tl) args = Ok (Some (mkProgram code sp cp args)).
Proof.
  intros Hc Hs Hp Hf. pose proof (len_nonneg code). pose proof (len_nonneg sp).
  pose proof (len_nonneg cp). pose proof (len_nonneg tl).
  unfold read_sections. destruct (read_encode_header code sp cp tl) as (_ & -> & -> & ->).
  cbn [mbind outcome_bind].
  unfold as_u16. rewrite !wrapU_small by lia. change PX64_HEADER_SIZE with 16.
  rewrite len_app, len_encode. destruct (Z.ltb_spec (16 + len code + len sp + len cp * 8 + len tl)
    (16 + len code + len sp + len cp * 8)); [lia|].
  unfold encode. rewrite <-!app_assoc. set (h := header _ _ _).
  assert (Hh : len h = 16) by apply len_header.
  rewrite (slice_middle h code _ 16 (16 + len code)) by lia. cbn [mbind outcome_bind].
  rewrite (app_assoc h code).
  rewrite (slice_middle (h ++ code) sp _ (16 + len code) (16 + len code + len sp))
    by (rewrite ?len_app; lia). cbn [mbind outcome_bind].
  rewrite (app_assoc (h ++ code) sp), (slice_middle ((h ++ code) ++ sp) (encode_consts cp))
    by (rewrite ?len_app, ?len_encode_consts; lia). cbn [mbind outcome_bind].
  replace (Z.to_nat (Z.min (len cp) 64)) with (length cp) by (unfold len in *; lia).
  pose proof (read_consts_encode cp [] 0 [] eq_refl Hf) as Hr.
  rewrite app_nil_r in Hr. simpl in Hr. by rewrite Hr.
Qed.

(** What has been written loads. *)
Lemma load_encode code sp cp args tl :
  len code < 2 ^ 16 -> len sp < 2 ^ 16 -> len cp <= 64 -> Forall in_i64 cp ->
  load_binary (encode code sp cp ++ tl) args = Ok (mkProgram code sp cp args).
Proof.
  intros Hc Hs Hp Hf. unfold load_binary. rewrite has_magic_encode.
  destruct (read_encode_header code sp cp tl) as (-> & _ & _ & _). cbn [mbind outcome_bind]. rewrite Z.eqb_refl. cbn [negb].
  by rewrite read_sections_encode.
Qed.

(** C13: loading inverts writing: a container written from code and string pool
    below 64 KiB and at most 64 constants loads (whatever bytes follow it in
    the buffer) as exactly the program it was written from. *)
Theorem load_write_roundtrip code sp cp args tl :
  len code < 2 ^ 16 -> len sp < 2 ^ 16 -> len cp <= 64 -> Forall in_i64 cp ->
  load_binary (encode code sp cp ++ tl) args = Ok (mkProgram code sp cp args).
Proof. apply load_encode. Qed.

Theorem load_write_roundtrip_witness :
  load_binary (encode (code countdown) (bytes "hi") [-7; 2 ^ 62] ++ [1; 2; 3]) [] =
  Ok (mkProgram (code countdown) (bytes "hi") [-7; 2 ^ 62] []).
Proof.
  apply load_write_roundtrip.
  - vm_compute. reflexivity.
  - vm_compute. reflexivity.
  - vm_compute. discriminate.
  - compute_fact.
Defined.

(** * Arbitrary input *)

Lemma read_u16_ok bin i :
  bytes_ok bin -> 0 <= i -> i + 2 <= len bin -> exists v, read_u16 bin i = Ok v /\ in_u16 v.
Proof.
  intros Hb Hi Hl. unfold read_u16.
  destruct (@idx_in_range CompileError _ bin i ltac:(lia)) as (a & -> & Ha).
  destruct (@idx_in_range CompileError _ bin (i + 1) ltac:(lia)) as (b & -> & Hb').
  simpl. eexists. split; [reflexivity|].
  apply (Forall_getZ _ _ _ _ Hb) in Ha, Hb'. unfold in_u8, in_u16 in *.
  unfold be_to_Z. simpl. lia.
Qed.

Lemma read_consts_total raw n i :
  0 <= i -> (i + Z.of_nat n) * 8 <= len raw ->
  exists cs, read_consts n i raw = Ok cs /\ Forall in_i64 cs.
Proof.
  revert i. induction n as [|n IH]; intros i Hi Hl; cbn [read_consts]; [by eexists|].
  rewrite slice_in_range by lia. cbn [mbind outcome_bind].
  destruct (IH (i + 1)) as (cs & -> & Hcs); [lia..|]. cbn [mbind outcome_bind mret outcome_ret].
  eexists. split; [reflexivity|]. constructor; [apply as_i64_range | done].
Qed.

Lemma read_sections_total bin args :
  bytes_ok bin -> 16 <= len bin ->
  Forall (fun a => bytes_ok a /\ len a < 2 ^ 63) args -> len args < 2 ^ 63 ->
  exists s, read_sections bin args = Ok s /\ (forall p, s = Some p -> program_wf p).
Proof.
  intros Hb Hl Ha Hn. unfold read_sections.
  destruct (read_u16_ok bin 6 Hb) as (c & -> & Hc); [lia..|].
  destruct (read_u16_ok bin 8 Hb) as (s & -> & Hs); [lia..|].
  destruct (read_u16_ok bin 10 Hb) as (k & -> & Hk); [lia..|].
  cbn [mbind outcome_bind]. change PX64_HEADER_SIZE with 16. unfold in_u16 in *.
  destruct (Z.ltb_spec (len bin) (16 + c + s + k * 8)) as [|Hle]; [by eexists|].
  rewrite !slice_in_range by lia. cbn [mbind outcome_bind].
  set (raw := sub bin (16 + c + s) (16 + c + s + k * 8)).
  assert (Hr : len raw = k * 8) by (unfold raw; rewrite len_sub; lia).
  destruct (read_consts_total raw (Z.to_nat (Z.min k 64)) 0) as (cs & -> & Hcs); [lia..|].
  cbn [mbind outcome_bind mret outcome_ret].
  eexists. split; [reflexivity|]. intros p [= <-].
  constructor; simpl; try done; try (by apply Forall_sub); rewrite len_sub; lia.
Qed.

(** What the loader returns. *)
Lemma load_binary_result bin args :
  bytes_ok bin -> Forall (fun a => bytes_ok a /\ len a < 2 ^ 63) args -> len args < 2 ^ 63 ->
  (exists p, load_binary bin args = Ok p /\ program_wf p) \/
  (exists e, load_binary bin args = Err e /\
     Error.code e ∈ ["ERR_BINARY_INVALID_MAGIC"; "ERR_BINARY_VERSION_MISMATCH";
                     "ERR_BINARY_TRUNCATED"]%string).
Proof.
  intros Hb Ha Hn. unfold load_binary. destruct (has_magic bin) eqn:Hm; [|right; eexists; split; [reflexivity|]; simpl; set_solver].
  apply andb_true_iff in Hm as [Hm _]. apply Z.leb_le in Hm. change PX64_HEADER_SIZE with 16 in Hm.
  destruct (read_u16_ok bin 4 Hb) as (v & -> & _); [lia..|]. cbn [mbind outcome_bind].
  case_match; [right; eexists; split; [reflexivity|]; simpl; set_solver|].
  destruct (read_sections_total bin args Hb Hm Ha Hn) as ([p|] & -> & Hp); cbn [mbind outcome_bind].
  - left. exists p. split; [reflexivity | by apply Hp].
  - right. eexists. split; [reflexivity|]. simpl. set_solver.
Qed.

(** The loader is total on arbitrary bytes: it never panics; it fails with
    one of its three errors (bad magic, unsupported version, truncated) or
    gives a well-formed program, whatever lengths the header claims. Running
    any byte string that does not contain a keyboard poll therefore always
    ends. *)
Theorem load_binary_total bin args :
  bytes_ok bin -> Forall (fun a => bytes_ok a /\ len a < 2 ^ 63) args -> len args < 2 ^ 63 ->
  (exists p, load_binary bin args = Ok p /\ program_wf p) \/
  (exists e, load_binary bin args = Err e /\
     Error.code e ∈ ["ERR_BINARY_INVALID_MAGIC"; "ERR_BINARY_VERSION_MISMATCH";
                     "ERR_BINARY_TRUNCATED"]%string).
Proof. apply load_binary_result. Qed.

Theorem load_binary_total_witness :
  (exists p, load_binary [80; 88; 54; 52; 0; 3; 0; 9; 0; 0; 0; 0; 0; 0; 0; 0] [] = Ok p /\
     program_wf p) \/
  (exists e, load_binary [80; 88; 54; 52; 0; 3; 0; 9; 0; 0; 0; 0; 0; 0; 0; 0] [] = Err e /\
     Error.code e ∈ ["ERR_BINARY_INVALID_MAGIC"; "ERR_BINARY_VERSION_MISMATCH";
                     "ERR_BINARY_TRUNCATED"]%string).
Proof.
  apply load_binary_total.
  - compute_fact.
  - constructor.
  - vm_compute. reflexivity.
Defined.

(** Replayed tests are reproducible: with an enabled replay configuration
    the test runner gives the same result (verdict, message, steps and elapsed
    time) for every time-stamp counter, every wall clock reading and every
    bytecode, since all time is derived from the instruction count. *)
Theorem replay_test_reproducible fuel h1 h2 wall1 wall2 t r :
  same_but_tsc h1 h2 -> enabled r = true ->
  run_test_case_with_replay fuel h1 wall1 t (Some r) =
  run_test_case_with_replay fuel h2 wall2 t (Some r).
Proof.
  intros Hh Hr. unfold run_test_case_with_replay. case_match; [done|].
  destruct (read_sections (bytecode t) []) as [[p|]|e|k]; try done.
  rewrite (run_replay h1 h2); [|done|by exists r].
  by destruct (run_with_output fuel h2 p (set_replay new (Some r))) as [[m x]|].
Qed.

Definition tsc_test : TestCaseCompiled :=
  mkTest (bytes "tsc") 1 (Some 20) (encode (code print_tsc) [] []).

Theorem replay_test_reproducible_witness :
  run_test_case_with_replay 5 (no_std_host (fun _ => 3)) 1000 tsc_test (Some (with_seed 7)) =
  run_test_case_with_replay 5 (no_std_host (fun n => Z.of_nat n)) 9 tsc_test (Some (with_seed 7)).
Proof. apply replay_test_reproducible; [done | reflexivity]. Defined.

(** Two steps are 30 ns of virtual time, over the budget of 20 ns. *)
Example tsc_test_over_budget :
  run_test_case_with_replay 5 (no_std_host (fun _ => 3)) 1000 tsc_test (Some (with_seed 7)) =
  Some (Ok (mkTestResult false
    (Some (bytes "Test exceeded budget: elapsed 30ns > budget 20ns")) 2 30 (Some 20))).
Proof. vm_compute. reflexivity. Qed.
