(* ===== verification/Lexer.v ===== *)
(** The PulseLang lexer (pulselang-core/src/lexer.rs): [Lexer::tokenize] with
    its scanners, on the source bytes and a token buffer of fixed size.

    [oc] says whether the build checks integer overflow (a debug build does, a
    release build wraps); only the time literals depend on it. *)

From S2P Require Import Prelude RustStd Isa Token Error.
Local Open Scope Z_scope.

Notation lres := (outcome CompileError).

(** The mutable fields of [Lexer]; the source is an argument. *)
Record lexer : Set := mkLexer { pos : Z; lline : Z }.

Definition lexer_new : lexer := mkLexer 0 1.

(** * Scanners

    Each [while self.pos < self.src.len() && p(self.src[self.pos])] loop is a
    count of the bytes from [pos] on. *)

Definition rest (src : list Z) (i : Z) : list Z := drop (Z.to_nat i) src.

Definition scan_while (p : Z -> bool) (src : list Z) (i : Z) : Z :=
  i + count_while p (rest src i).

(** The body of a block comment, after the opening two bytes: it ends after
    the closing bytes, or one byte before the end of the source. *)
Fixpoint scan_block (l : list Z) (i line : Z) : Z * Z :=
  match l with
  | b :: ((c :: _) as l') =>
    let line := if b =? 10 then line + 1 else line in
    if (b =? 42) && (c =? 47) then (i + 2, line) else scan_block l' (i + 1) line
  | _ => (i, line)
  end.

(** One iteration of the loop of [skip_whitespace_and_comments]: [None] when
    the loop ends. *)
Definition skip_step (src : list Z) (st : lexer) : option lexer :=
  match rest src (pos st) with
  | [] => None
  | b :: l =>
    if (b =? 32) || (b =? 9) || (b =? 13) then Some (mkLexer (pos st + 1) (lline st))
    else if b =? 10 then Some (mkLexer (pos st + 1) (lline st + 1))
    else if (b =? 47) && match l with c :: _ => c =? 47 | [] => false end then
      Some (mkLexer (scan_while (fun c => negb (c =? 10)) src (pos st)) (lline st))
    else if (b =? 47) && match l with c :: _ => c =? 42 | [] => false end then
      let '(i, line) := scan_block (drop 1 l) (pos st + 2) (lline st) in
      Some (mkLexer i line)
    else None
  end.

(** The loop; every iteration consumes a byte, so a fuel of the source's length
    is enough ([skip_complete]). *)
Fixpoint skip_loop (fuel : nat) (src : list Z) (st : lexer) : lexer :=
  match fuel with
  | O => st
  | S fuel =>
    match skip_step src st with
    | Some st => skip_loop fuel src st
    | None => st
    end
  end.

Definition skip_whitespace_and_comments (src : list Z) (st : lexer) : lexer :=
  skip_loop (length src) src st.

(** [self.peek_next() == Some(c)]. *)
Definition next_is (src : list Z) (i c : Z) : bool :=
  bool_decide (getZ src (i + 1) = Some c).

Definition match_suffix (src : list Z) (i : Z) (suffix : list Z) : bool :=
  (i + len suffix <=? len src) && bytes_eqb (sub src i (i + len suffix)) suffix.

(** The string literal loop: stops at the closing quote or the end. *)
Fixpoint scan_string (l : list Z) (i line : Z) : Z * Z :=
  match l with
  | b :: l =>
    if b =? 34 then (i, line)
    else scan_string l (i + 1) (if b =? 10 then line + 1 else line)
  | [] => (i, line)
  end.

Definition hex_digit (b : Z) : Z :=
  if in_range 48 b 57 then b - 48
  else if in_range 97 b 102 then b - 97 + 10
  else if in_range 65 b 70 then b - 65 + 10
  else 0.

Fixpoint scan_hex (l : list Z) (i num : Z) : Z * Z :=
  match l with
  | b :: l =>
    if is_ascii_hexdigit b
    then scan_hex l (i + 1) (Z.lor (as_i64 (Z.shiftl num 4)) (hex_digit b))
    else (i, num)
  | [] => (i, num)
  end.

Fixpoint scan_dec (l : list Z) (i num : Z) : Z * Z :=
  match l with
  | b :: l =>
    if is_ascii_digit b
    then scan_dec l (i + 1) (wrapping_add (wrapping_mul num 10) (b - 48))
    else (i, num)
  | [] => (i, num)
  end.

Definition saturate_i64 (z : Z) : Z := Z.max (- 2 ^ 63) (Z.min z (2 ^ 63 - 1)).

(** The fraction: the scaled value, saturating, and the digit count, saturating
    at 255. *)
Fixpoint scan_frac (l : list Z) (i scaled digits : Z) : Z * Z * Z :=
  match l with
  | b :: l =>
    if is_ascii_digit b
    then scan_frac l (i + 1) (saturate_i64 (saturate_i64 (scaled * 10) + (b - 48)))
           (Z.min 255 (digits + 1))
    else (i, scaled, digits)
  | [] => (i, scaled, digits)
  end.

Definition is_ident_byte (b : Z) : bool := is_ascii_alphanumeric b || (b =? 95).
Definition is_dotted_byte (b : Z) : bool := is_ident_byte b || (b =? 46).

(** * Keywords *)

(** A [match] on a byte string: the first entry that is equal. *)
Fixpoint keyword (s : list Z) (table : list (string * TokenKind.t)) (d : TokenKind.t)
    : TokenKind.t :=
  match table with
  | (k, t) :: table => if bytes_eqb s (bytes k) then t else keyword s table d
  | [] => d
  end.

Definition directives : list (string * TokenKind.t) :=
  [("contract", TokenKind.AtContract); ("pipeline", TokenKind.AtPipeline);
   ("budget", TokenKind.AtBudget); ("wcet", TokenKind.AtWcet); ("within", TokenKind.AtWithin);
   ("while", TokenKind.AtWhile); ("for", TokenKind.AtFor); ("assert", TokenKind.AtAssert);
   ("requires", TokenKind.AtRequires); ("ensures", TokenKind.AtEnsures);
   ("invariant", TokenKind.AtInvariant); ("loop", TokenKind.AtLoop);
   ("on_vblank", TokenKind.AtOnVblank); ("pool_size", TokenKind.AtPoolSize);
   ("test", TokenKind.AtTest); ("import", TokenKind.AtImport)]%string.

Definition keywords : list (string * TokenKind.t) :=
  [("let", TokenKind.Let); ("mut", TokenKind.Mut); ("match", TokenKind.Match);
   ("if", TokenKind.If); ("else", TokenKind.Else); ("while", TokenKind.While);
   ("for", TokenKind.For); ("in", TokenKind.In); ("within", TokenKind.Within);
   ("or", TokenKind.Or); ("drop", TokenKind.Drop); ("pipeline", TokenKind.Pipeline);
   ("task", TokenKind.Task); ("stage", TokenKind.Stage); ("core", TokenKind.Core);
   ("zero_copy", TokenKind.ZeroCopy); ("hardware", TokenKind.Hardware);
   ("input", TokenKind.Input); ("output", TokenKind.Output); ("on", TokenKind.On);
   ("emit", TokenKind.Emit); ("return", TokenKind.Return); ("budget", TokenKind.Budget);
   ("fn", TokenKind.Fn); ("struct", TokenKind.Struct); ("const", TokenKind.Const);
   ("enum", TokenKind.Enum); ("fixed", TokenKind.Fixed); ("i64", TokenKind.I64);
   ("u8", TokenKind.U8); ("u16", TokenKind.U16); ("u32", TokenKind.U32);
   ("u64", TokenKind.U64); ("_", TokenKind.Underscore)]%string.

(** * One token *)

(** [a * b] on [u64]. *)
Definition mul_u64 (oc : bool) (a b : Z) : lres Z :=
  if a * b <? 2 ^ 64 then Ok (a * b)
  else if oc then Panic ArithmeticOverflow else Ok (as_u64 (a * b)).

(** A decimal number at [i]: number, float or time literal. *)
Definition lex_decimal (oc : bool) (src : list Z) (i : Z) : lres (TokenKind.t * Z) :=
  let '(j, num) := scan_dec (rest src i) i 0 in
  if bool_decide (getZ src j = Some 46)
     && match getZ src (j + 1) with Some d => is_ascii_digit d | None => false end then
    let '(k, scaled, digits) := scan_frac (rest src (j + 1)) (j + 1) num 0 in
    mret (TokenKind.FloatLit scaled digits, k)
  else if match_suffix src j (bytes "ns") then
    mret (TokenKind.TimeLiteral (as_u64 num), j + 2)
  else if match_suffix src j (bytes "us") then
    n ← mul_u64 oc (as_u64 num) 1000; mret (TokenKind.TimeLiteral n, j + 2)
  else if match_suffix src j (bytes "ms") then
    n ← mul_u64 oc (as_u64 num) 1000000; mret (TokenKind.TimeLiteral n, j + 2)
  else if match_suffix src j (bytes "s") then
    n ← mul_u64 oc (as_u64 num) 1000000000; mret (TokenKind.TimeLiteral n, j + 1)
  else mret (TokenKind.Number num, j).

Definition lex_number (oc : bool) (src : list Z) (i b : Z) : lres (TokenKind.t * Z) :=
  if (b =? 48) && (next_is src i 120 || next_is src i 88) then
    let '(j, num) := scan_hex (rest src (i + 2)) (i + 2) 0 in
    mret (TokenKind.Number num, j)
  else lex_decimal oc src i.

(** A symbol of one byte, or of two when the next byte is one of [alts]. *)
Definition lex_op (src : list Z) (i : Z) (alts : list (Z * TokenKind.t)) (d : TokenKind.t)
    : lres (TokenKind.t * Z) :=
  match find (fun a => next_is src i (fst a)) alts with
  | Some a => mret (snd a, i + 2)
  | None => mret (d, i + 1)
  end.

(** The [match b] of [tokenize]: the token kind and the new position and line;
    [None] for a byte that starts no token and is skipped. *)
Definition lex_one (oc : bool) (src : list Z) (st : lexer) (b : Z)
    : lres (option TokenKind.t * lexer) :=
  let i := pos st in
  let tok (r : lres (TokenKind.t * Z)) :=
    '(k, j) ← r; mret (Some k, mkLexer j (lline st)) in
  let op alts d := tok (lex_op src i alts d) in
  if b =? 40 then op [] TokenKind.LParen
  else if b =? 41 then op [] TokenKind.RParen
  else if b =? 123 then op [] TokenKind.LBrace
  else if b =? 125 then op [] TokenKind.RBrace
  else if b =? 59 then op [] TokenKind.Semi
  else if b =? 44 then op [] TokenKind.Comma
  else if b =? 46 then op [(46, TokenKind.DotDot)] TokenKind.Dot
  else if b =? 63 then op [] TokenKind.Question
  else if b =? 58 then op [(61, TokenKind.ColonEq); (58, TokenKind.ColonColon)] TokenKind.Colon
  else if b =? 43 then op [(61, TokenKind.PlusEq)] TokenKind.Plus
  else if b =? 45 then op [(61, TokenKind.MinusEq); (62, TokenKind.Arrow)] TokenKind.Minus
  else if b =? 42 then op [] TokenKind.Star
  else if b =? 47 then op [] TokenKind.Slash
  else if b =? 37 then op [] TokenKind.Percent
  else if b =? 91 then op [] TokenKind.LBracket
  else if b =? 93 then op [] TokenKind.RBracket
  else if b =? 94 then op [] TokenKind.Caret
  else if b =? 124 then op [(62, TokenKind.Pipe); (124, TokenKind.OrOp)] TokenKind.PipeSingle
  else if b =? 61 then op [(61, TokenKind.EqEq); (62, TokenKind.FatArrow)] TokenKind.Eq
  else if b =? 33 then op [(61, TokenKind.NotEq)] TokenKind.Exclamation
  else if b =? 60 then op [(60, TokenKind.Shl); (61, TokenKind.LtEq)] TokenKind.Lt
  else if b =? 62 then op [(62, TokenKind.Shr); (61, TokenKind.GtEq)] TokenKind.Gt
  else if b =? 38 then op [(38, TokenKind.And)] TokenKind.Amp
  else if b =? 34 then
    let '(j, line) := scan_string (rest src (i + 1)) (i + 1) (lline st) in
    mret (Some TokenKind.StringLit, mkLexer (if j <? len src then j + 1 else j) line)
  else if is_ascii_digit b then tok (lex_number oc src i b)
  else if b =? 36 then
    tok (mret (TokenKind.VarIdent, scan_while is_ident_byte src (i + 1)))
  else if b =? 35 then
    tok (mret (TokenKind.HardwareIdent, scan_while is_ident_byte src (i + 1)))
  else if b =? 64 then
    let j := scan_while is_dotted_byte src (i + 1) in
    tok (mret (keyword (sub src (i + 1) j) directives TokenKind.IntrinsicIdent, j))
  else if is_ascii_alphabetic b || (b =? 95) then
    let j := scan_while is_dotted_byte src i in
    tok (mret (keyword (sub src i j) keywords TokenKind.Ident, j))
  else mret (None, mkLexer (i + 1) (lline st)).

(** * [tokenize] *)

(** The [while] loop. The fuel is the source's length plus one: every iteration
    but the last consumes a byte ([tokenize_total]). *)
Fixpoint lex_loop (fuel : nat) (oc : bool) (src : list Z) (st : lexer) (count : Z)
    (tokens : list Token) : option (lres (lexer * Z * list Token)) :=
  match fuel with
  | O => None
  | S fuel =>
    if (pos st <? len src) && (count + 1 <? len tokens) then
      let st := skip_whitespace_and_comments src st in
      if len src <=? pos st then Some (mret (st, count, tokens))
      else
        let start := pos st in
        let '(line, col) := get_line_and_col src start in
        match idx src start with
        | Ok b =>
          match lex_one oc src st b with
          | Ok (Some kind, st) =>
            match upd tokens count (mkToken kind start (pos st - start) line col) with
            | Ok tokens => lex_loop fuel oc src st (count + 1) tokens
            | Err e => Some (Err e)
            | Panic k => Some (Panic k)
            end
          | Ok (None, st) => lex_loop fuel oc src st count tokens
          | Err e => Some (Err e)
          | Panic k => Some (Panic k)
          end
        | Err e => Some (Err e)
        | Panic k => Some (Panic k)
        end
    else Some (mret (st, count, tokens))
  end.

Definition max_tokens_error (src : list Z) (i : Z) : CompileError :=
  let '(line, col) := get_line_and_col src i in
  mkCompileError "ERR_MAX_TOKENS_EXCEEDED" "Source script exceeds maximum tokens capacity"
    line col i TokenKind.Eof 0
    "Script with fewer tokens or split into smaller functions/modules"
    "Lexer -> Tokenization" "Reduce code size or split logic into modules".

Definition tokenize_fuel (fuel : nat) (oc : bool) (src : list Z) (tokens : list Token)
    : option (lres (Z * list Token)) :=
  if len tokens =? 0 then
    Some (Err (simple "ERR_TOKEN_BUFFER_EMPTY" "Supplied token slice has 0 capacity"))
  else
    match lex_loop fuel oc src lexer_new 0 tokens with
    | Some (Ok (st, count, tokens)) =>
      let st := skip_whitespace_and_comments src st in
      if pos st <? len src then Some (Err (max_tokens_error src (pos st)))
      else
        let '(line, col) := get_line_and_col src (pos st) in
        Some (tokens ← upd tokens count (mkToken TokenKind.Eof (pos st) 0 line col);
              mret (count, tokens))
    | Some (Err e) => Some (Err e)
    | Some (Panic k) => Some (Panic k)
    | None => None
    end.

Definition tokenize (oc : bool) (src : list Z) (tokens : list Token)
    : option (lres (Z * list Token)) :=
  tokenize_fuel (S (length src)) oc src tokens.

(** The kinds of the tokens a source gives, the final [Eof] included. *)
Definition token_kinds (src : string) : option (list TokenKind.t) :=
  match tokenize true (bytes src) (replicate 64 empty_token) with
  | Some (Ok (n, ts)) => Some (map kind (take (Z.to_nat (n + 1)) ts))
  | _ => None
  end.

Example lex_assignment :
  token_kinds "let $x := 0x1F + 2.50; // five" =
  Some [TokenKind.Let; TokenKind.VarIdent; TokenKind.ColonEq; TokenKind.Number 31;
        TokenKind.Plus; TokenKind.FloatLit 250 2; TokenKind.Semi; TokenKind.Eof].
Proof. vm_compute. reflexivity. Qed.

Example lex_within :
  token_kinds "@within(50us) { @capture(#f); } /* done */" =
  Some [TokenKind.AtWithin; TokenKind.LParen; TokenKind.TimeLiteral 50000; TokenKind.RParen;
        TokenKind.LBrace; TokenKind.IntrinsicIdent; TokenKind.LParen; TokenKind.HardwareIdent;
        TokenKind.RParen; TokenKind.Semi; TokenKind.RBrace; TokenKind.Eof].
Proof. vm_compute. reflexivity. Qed.

(** Three inputs the lexer accepts without a diagnostic: a literal of
    [2^64 + 5] is the number 5; the last byte of an unterminated block comment
    is lexed as code; and a byte that starts no token is dropped, so that
    [a~b] gives the tokens of [a b]. *)
Theorem lexer_silent_inputs :
  token_kinds "18446744073709551621" = Some [TokenKind.Number 5; TokenKind.Eof] /\
  token_kinds "/* oops x" = Some [TokenKind.Ident; TokenKind.Eof] /\
  token_kinds "a~b" = Some [TokenKind.Ident; TokenKind.Ident; TokenKind.Eof].
Proof. split_and!; vm_compute; reflexivity. Qed.
