(* ===== verification/LexerProps.v ===== *)
(** The lexer is total: on every source and token buffer it ends with a token
    list whose spans tile the source in order, or with one of its two errors.
    The decimal printer and the lexer are inverse. *)

From S2P Require Import Prelude RustStd Isa Token Error Lexer.
Local Open Scope Z_scope.

(** * Scanners stay inside the source *)

Lemma len_rest src i : 0 <= i <= len src -> len (rest src i) = len src - i.
Proof. unfold len, rest. intros. rewrite length_drop. lia. Qed.

Lemma rest_cons src i b l :
  0 <= i -> rest src i = b :: l -> getZ src i = Some b /\ rest src (i + 1) = l /\ i < len src.
Proof.
  unfold rest, getZ, len. intros Hi H. rewrite decide_True by done.
  assert (Hb : src !! Z.to_nat i = Some b).
  { pose proof (lookup_drop src (Z.to_nat i) 0) as E. rewrite H, Nat.add_0_r in E. by symmetry. }
  split_and!; [done| |apply lookup_lt_Some in Hb; lia].
  replace (Z.to_nat (i + 1)) with (Z.to_nat i + 1)%nat by lia.
  by rewrite <-drop_drop, H.
Qed.

Lemma rest_getZ src i b : getZ src i = Some b -> rest src i = b :: rest src (i + 1).
Proof.
  intros H. pose proof (getZ_Some_lt _ _ _ H) as Hi.
  destruct (rest src i) as [|c l] eqn:E.
  - pose proof (len_rest src i ltac:(lia)) as L. rewrite E, len_nil in L. lia.
  - apply rest_cons in E as (E1 & <- & _); [|lia]. congruence.
Qed.

Lemma rest_nil src i : 0 <= i <= len src -> rest src i = [] -> i = len src.
Proof. intros Hi H. pose proof (len_rest src i Hi) as L. rewrite H, len_nil in L. lia. Qed.

Lemma scan_while_bound p src i : 0 <= i <= len src -> i <= scan_while p src i <= len src.
Proof.
  intros Hi. unfold scan_while. pose proof (count_while_bound p (rest src i)).
  rewrite len_rest in * by done. lia.
Qed.

Lemma scan_while_progress p src i b :
  getZ src i = Some b -> p b = true -> i < scan_while p src i.
Proof.
  intros Hb Hp. unfold scan_while. rewrite (rest_getZ src i b Hb). simpl. rewrite Hp.
  pose proof (count_while_bound p (rest src (i + 1))). lia.
Qed.

Lemma scan_block_bound l i line : i <= fst (scan_block l i line) <= i + len l.
Proof.
  revert i line. induction l as [|b l IH]; intros i line; simpl; [unfold len; simpl; lia|].
  destruct l as [|c l]; [unfold len; simpl; lia|].
  rewrite len_cons. case_match.
  - simpl. rewrite len_cons. pose proof (len_nonneg l). lia.
  - pose proof (IH (i + 1) (if b =? 10 then line + 1 else line)). lia.
Qed.

Lemma skip_step_progress src st st' :
  0 <= pos st <= len src -> skip_step src st = Some st' -> pos st < pos st' <= len src.
Proof.
  intros Hp. unfold skip_step. destruct (rest src (pos st)) as [|b l] eqn:E; [done|].
  apply rest_cons in E as (Hb & <- & Hlt); [|lia].
  destruct (_ || _); [intros [= <-]; simpl; lia|].
  destruct (b =? 10); [intros [= <-]; simpl; lia|].
  destruct (Z.eqb_spec b 47) as [->|]; [cbn [andb] | done].
  destruct (rest src (pos st + 1)) as [|c l'] eqn:E2; [done|].
  apply rest_cons in E2 as (_ & E3 & Hlt2); [|lia].
  destruct (c =? 47).
  { intros [= <-]. cbn [pos].
    pose proof (scan_while_bound (fun c => negb (c =? 10)) src (pos st) Hp).
    pose proof (scan_while_progress (fun c => negb (c =? 10)) src (pos st) 47 Hb eq_refl). lia. }
  destruct (c =? 42); [|done].
  destruct (scan_block _ _ _) as [j ln] eqn:Es. intros [= <-]. simpl in *.
  pose proof (scan_block_bound (drop 0 l') (pos st + 2) (lline st)) as B.
  rewrite Es in B. simpl in B. rewrite drop_0, <-E3, len_rest in B by lia. lia.
Qed.

Lemma skip_loop_bound fuel src st :
  0 <= pos st <= len src -> pos st <= pos (skip_loop fuel src st) <= len src.
Proof.
  revert st. induction fuel as [|fuel IH]; intros st Hp; simpl; [lia|].
  destruct (skip_step src st) as [st'|] eqn:E; [|lia].
  apply skip_step_progress in E; [|done]. specialize (IH st'). lia.
Qed.

Lemma skip_loop_complete fuel src st :
  0 <= pos st <= len src -> len src - pos st <= Z.of_nat fuel ->
  skip_step src (skip_loop fuel src st) = None.
Proof.
  revert st. induction fuel as [|fuel IH]; intros st Hp Hf; simpl.
  - unfold skip_step. assert (rest src (pos st) = []) as ->; [|done].
    apply nil_length_inv. pose proof (len_rest src (pos st) Hp). unfold len in *. lia.
  - destruct (skip_step src st) as [st'|] eqn:E; [|done].
    apply skip_step_progress in E; [|done]. apply IH; lia.
Qed.

(** Skipping stops at the end or at a byte that starts no space or comment:
    the fuel given by [skip_whitespace_and_comments] never runs out. *)
Lemma skip_complete src st :
  0 <= pos st <= len src -> skip_step src (skip_whitespace_and_comments src st) = None.
Proof. intros Hp. apply skip_loop_complete; [done|]. unfold len in *. lia. Qed.

Lemma skip_bound src st :
  0 <= pos st <= len src -> pos st <= pos (skip_whitespace_and_comments src st) <= len src.
Proof. apply skip_loop_bound. Qed.

(** * One token *)

Lemma scan_string_bound l i ln : i <= fst (scan_string l i ln) <= i + len l.
Proof.
  revert i ln. induction l as [|b l IH]; intros i ln; simpl; [unfold len; simpl; lia|].
  rewrite len_cons. pose proof (len_nonneg l). case_match; [simpl; lia|].
  specialize (IH (i + 1) (if b =? 10 then ln + 1 else ln)). lia.
Qed.

Lemma scan_hex_bound l i n : i <= fst (scan_hex l i n) <= i + len l.
Proof.
  revert i n. induction l as [|b l IH]; intros i n; simpl; [unfold len; simpl; lia|].
  rewrite len_cons. pose proof (len_nonneg l). case_match; [|simpl; lia].
  match goal with |- context [scan_hex l ?a ?b] => specialize (IH a b) end. lia.
Qed.

Lemma scan_dec_bound l i n : i <= fst (scan_dec l i n) <= i + len l.
Proof.
  revert i n. induction l as [|b l IH]; intros i n; simpl; [unfold len; simpl; lia|].
  rewrite len_cons. pose proof (len_nonneg l). case_match; [|simpl; lia].
  match goal with |- context [scan_dec l ?a ?b] => specialize (IH a b) end. lia.
Qed.

Lemma scan_frac_bound l i s d : i <= fst (fst (scan_frac l i s d)) <= i + len l.
Proof.
  revert i s d. induction l as [|b l IH]; intros i s d; simpl; [unfold len; simpl; lia|].
  rewrite len_cons. pose proof (len_nonneg l). case_match; [|simpl; lia].
  match goal with |- context [scan_frac l ?a ?b ?c] => specialize (IH a b c) end. lia.
Qed.

Lemma next_is_lt src i c : next_is src i c = true -> i + 1 < len src.
Proof. unfold next_is. intros H%bool_decide_eq_true. apply getZ_Some_lt in H. lia. Qed.

Lemma match_suffix_le src i s : match_suffix src i s = true -> i + len s <= len src.
Proof. unfold match_suffix. intros [H _]%andb_true_iff. by apply Z.leb_le in H. Qed.

(** What a token scanner may return from position [i]. *)
Definition lexed (oc : bool) (src : list Z) (i : Z) (r : lres (TokenKind.t * Z)) : Prop :=
  match r with
  | Ok (k, j) => i < j <= len src /\ k <> TokenKind.Eof
  | Err _ => False
  | Panic q => oc = true /\ q = ArithmeticOverflow
  end.

Lemma lexed_op oc src i alts d :
  0 <= i < len src -> Forall (fun a => snd a <> TokenKind.Eof) alts -> d <> TokenKind.Eof ->
  lexed oc src i (lex_op src i alts d).
Proof.
  intros Hi Ha Hd. unfold lex_op. destruct (find _ alts) as [a|] eqn:E; simpl; [|split; [lia|done]].
  apply find_some in E as [Hin Hn]. apply next_is_lt in Hn.
  split; [lia|]. rewrite Forall_forall in Ha. apply Ha. by apply list_elem_of_In.
Qed.

Lemma lexed_time oc src i j num w m :
  0 <= i < j -> j + w <= len src -> 0 < w ->
  lexed oc src i (n ← mul_u64 oc num m; mret (TokenKind.TimeLiteral n, j + w)).
Proof.
  intros. unfold mul_u64. case_match; [simpl; split; [lia|done]|].
  destruct oc; simpl; [done | split; [lia|done]].
Qed.

Lemma lexed_decimal oc src i b :
  getZ src i = Some b -> is_ascii_digit b = true -> lexed oc src i (lex_decimal oc src i).
Proof.
  intros Hb Hd. pose proof (getZ_Some_lt _ _ _ Hb) as Hi. unfold lex_decimal.
  assert (Hj : i < fst (scan_dec (rest src i) i 0) <= len src).
  { rewrite (rest_getZ src i b Hb). simpl. rewrite Hd.
    match goal with |- context [scan_dec ?l ?a ?c] => pose proof (scan_dec_bound l a c) as B end.
    rewrite len_rest in B by lia. lia. }
  destruct (scan_dec (rest src i) i 0) as [j num]. simpl in Hj.
  destruct (bool_decide (getZ src j = Some 46) && _) eqn:Hdot.
  { apply andb_true_iff in Hdot as [Hdot%bool_decide_eq_true _].
    apply getZ_Some_lt in Hdot.
    pose proof (scan_frac_bound (rest src (j + 1)) (j + 1) num 0) as B.
    rewrite len_rest in B by lia.
    destruct (scan_frac _ _ _ _) as [[k sc] dg]. simpl in *. split; [lia|done]. }
  destruct (match_suffix src j (bytes "ns")) eqn:H1.
  { apply match_suffix_le in H1. change (len (bytes "ns")) with 2 in H1. simpl. split; [lia|done]. }
  destruct (match_suffix src j (bytes "us")) eqn:H2.
  { apply match_suffix_le in H2. change (len (bytes "us")) with 2 in H2. apply lexed_time; lia. }
  destruct (match_suffix src j (bytes "ms")) eqn:H3.
  { apply match_suffix_le in H3. change (len (bytes "ms")) with 2 in H3. apply lexed_time; lia. }
  destruct (match_suffix src j (bytes "s")) eqn:H4.
  { apply match_suffix_le in H4. change (len (bytes "s")) with 1 in H4. apply lexed_time; lia. }
  simpl. split; [lia|done].
Qed.

Lemma lexed_number oc src i b :
  getZ src i = Some b -> is_ascii_digit b = true -> lexed oc src i (lex_number oc src i b).
Proof.
  intros Hb Hd. pose proof (getZ_Some_lt _ _ _ Hb) as Hi. unfold lex_number.
  destruct ((b =? 48) && _) eqn:Hx; [|by eapply lexed_decimal].
  apply andb_true_iff in Hx as [_ Hx].
  assert (i + 1 < len src) by (apply orb_true_iff in Hx as [Hx|Hx]; by apply next_is_lt in Hx).
  pose proof (scan_hex_bound (rest src (i + 2)) (i + 2) 0) as B. rewrite len_rest in B by lia.
  destruct (scan_hex _ _ _) as [j n]. simpl in *. split; [lia|done].
Qed.

Lemma keyword_not_eof s table d :
  Forall (fun a => snd a <> TokenKind.Eof) table -> d <> TokenKind.Eof ->
  keyword s table d <> TokenKind.Eof.
Proof.
  intros H Hd. induction H as [|[k t] table Ht _ IH]; simpl; [done|]. by case_match.
Qed.

Lemma directives_not_eof : Forall (fun a => snd a <> TokenKind.Eof) directives.
Proof. repeat constructor; discriminate. Qed.

Lemma keywords_not_eof : Forall (fun a => snd a <> TokenKind.Eof) keywords.
Proof. repeat constructor; discriminate. Qed.

(** The result of [lex_one]. *)
Definition lexed_one (oc : bool) (src : list Z) (i : Z) (r : lres (option TokenKind.t * lexer)) : Prop :=
  match r with
  | Ok (k, st) => i < pos st <= len src /\ k <> Some TokenKind.Eof
  | Err _ => False
  | Panic q => oc = true /\ q = ArithmeticOverflow
  end.

Lemma lexed_tok oc src i ln r :
  lexed oc src i r ->
  lexed_one oc src i ('(k, j) ← r; mret (Some k, mkLexer j ln)).
Proof.
  destruct r as [[k j]|e|q]; simpl; [|done..]. intros [? ?]. split; [done|congruence].
Qed.

Lemma lex_one_ok oc src st b :
  getZ src (pos st) = Some b -> lexed_one oc src (pos st) (lex_one oc src st b).
Proof.
  intros Hb. pose proof (getZ_Some_lt _ _ _ Hb) as Hi. unfold lex_one. cbv zeta.
  repeat match goal with
  | |- lexed_one _ _ _ (if _ =? _ then ('(_, _) ← lex_op _ _ _ _; _) else _) =>
    case_match;
    [apply lexed_tok, lexed_op; [done | repeat constructor; discriminate | discriminate]|]
  end.
  case_match.
  { pose proof (scan_string_bound (rest src (pos st + 1)) (pos st + 1) (lline st)) as B.
    rewrite len_rest in B by lia. destruct (scan_string _ _ _) as [j ln]. simpl in *.
    split; [|done]. destruct (Z.ltb_spec j (len src)); lia. }
  case_match; [apply lexed_tok; by apply lexed_number|].
  pose proof (scan_while_bound is_ident_byte src (pos st + 1) ltac:(lia)).
  pose proof (scan_while_bound is_dotted_byte src (pos st + 1) ltac:(lia)).
  case_match; [apply lexed_tok; simpl; split; [lia|done]|].
  case_match; [apply lexed_tok; simpl; split; [lia|done]|].
  case_match.
  { apply lexed_tok. cbn [lexed mret outcome_ret]. split; [lia|]. apply keyword_not_eof; [apply directives_not_eof | done]. }
  case_match eqn:Ha.
  { apply lexed_tok. cbn [lexed mret outcome_ret].
    assert (Hd : is_dotted_byte b = true).
    { unfold is_dotted_byte, is_ident_byte, is_ascii_alphanumeric.
      apply orb_true_iff in Ha as [-> | ->]; by rewrite ?orb_true_r. }
    pose proof (scan_while_progress _ src (pos st) b Hb Hd).
    pose proof (scan_while_bound is_dotted_byte src (pos st) ltac:(lia)).
    split; [lia|]. apply keyword_not_eof; [apply keywords_not_eof | done]. }
  simpl. split; [lia|done].
Qed.

(** * The token list *)

(** The tokens lie in [src] from [lo] on, in order and without overlap; each is
    non-empty, carries its own line and column, and is no end marker. *)
Fixpoint spans (src : list Z) (lo : Z) (ts : list Token) : Prop :=
  match ts with
  | [] => lo <= len src
  | t :: ts =>
    lo <= start t /\ 0 < tlen t /\ kind t <> TokenKind.Eof /\
    get_line_and_col src (start t) = (line t, col t) /\ spans src (start t + tlen t) ts
  end.

(** A buffer after [ts] has been written from index [n] on. *)
Definition written (tokens : list Token) (n : Z) (ts : list Token) : list Token :=
  take (Z.to_nat n) tokens ++ ts ++ drop (Z.to_nat n + length ts) tokens.

Lemma len_written tokens n ts :
  0 <= n -> n + len ts <= len tokens -> len (written tokens n ts) = len tokens.
Proof. apply len_splice. Qed.

Lemma written_upd tokens n t ts :
  0 <= n -> n + 1 + len ts <= len tokens ->
  written (setZ tokens n t) (n + 1) ts = written tokens n (t :: ts).
Proof.
  unfold written, setZ, len. intros Hn Hl. rewrite decide_True by done.
  replace (Z.to_nat (n + 1)) with (S (Z.to_nat n)) by lia.
  rewrite (take_S_r _ _ t) by (apply list_lookup_insert_eq; lia).
  rewrite take_insert_ge by lia. rewrite drop_insert_lt by lia.
  rewrite <-app_assoc. simpl. do 3 f_equal. f_equal. lia.
Qed.

(** What the loop ends with, from position [lo] with [count] tokens written. *)
Definition loop_result (oc : bool) (src : list Z) (lo count : Z) (tokens : list Token)
    (r : lres (lexer * Z * list Token)) : Prop :=
  match r with
  | Ok (st, n, out) =>
    exists ts, n = count + len ts /\ n < len tokens /\ out = written tokens count ts /\
      spans src lo ts /\ 0 <= pos st <= len src /\
      (n + 1 = len tokens \/ pos st = len src)
  | Err _ => False
  | Panic q => oc = true /\ q = ArithmeticOverflow
  end.

Lemma written_nil tokens n : written tokens n [] = tokens.
Proof. unfold written. simpl. rewrite Nat.add_0_r. apply take_drop. Qed.

Lemma spans_weaken src lo lo' ts : spans src lo ts -> lo' <= lo -> spans src lo' ts.
Proof. destruct ts as [|t ts]; simpl; [lia|]. intros (? & H) ?. split; [lia|done]. Qed.

Lemma lex_loop_ok oc src fuel st count tokens :
  0 <= pos st <= len src -> 0 <= count < len tokens ->
  len src - pos st < Z.of_nat fuel ->
  exists r, lex_loop fuel oc src st count tokens = Some r /\
    loop_result oc src (pos st) count tokens r.
Proof.
  revert st count tokens. induction fuel as [|fuel IH]; intros st count tokens Hp Hc Hf; [lia|].
  cbn [lex_loop].
  assert (Hend : forall st' : lexer, pos st <= pos st' <= len src ->
    (count + 1 = len tokens \/ pos st' = len src) ->
    loop_result oc src (pos st) count tokens (mret (st', count, tokens))).
  { intros st' H1 H2. exists []. rewrite written_nil. unfold len at 1. simpl.
    split_and!; try done; lia. }
  destruct ((pos st <? len src) && (count + 1 <? len tokens)) eqn:Hg.
  2: { eexists. split; [reflexivity|]. apply Hend; [lia|].
       apply andb_false_iff in Hg as [Hg|Hg]; apply Z.ltb_ge in Hg; lia. }
  apply andb_true_iff in Hg as [Hg1%Z.ltb_lt Hg2%Z.ltb_lt].
  pose proof (skip_bound src st Hp) as Hs. set (st1 := skip_whitespace_and_comments src st) in *.
  destruct (Z.leb_spec (len src) (pos st1)).
  { eexists. split; [reflexivity|]. apply Hend; lia. }
  destruct (get_line_and_col src (pos st1)) as [ln cl] eqn:Elc.
  destruct (@idx_in_range CompileError _ src (pos st1) ltac:(lia)) as (b & -> & Hb).
  pose proof (lex_one_ok oc src st1 b Hb) as Hone.
  destruct (lex_one oc src st1 b) as [[[k|] st2]|e|q]; cbn [lexed_one] in Hone;
    [destruct Hone as [Hp2 Hk] | destruct Hone as [Hp2 _] | done | by eexists].
  - rewrite upd_in_range by lia.
    set (t := mkToken k (pos st1) (pos st2 - pos st1) ln cl).
    destruct (IH st2 (count + 1) (setZ tokens count t)) as (r & Hr & Hres);
      [lia | rewrite len_setZ; lia | lia |].
    exists r. split; [exact Hr|]. destruct r as [[[st3 n] out]|e|q]; [|done..].
    destruct Hres as (ts & -> & Hn & -> & Hsp & Hp3 & He). rewrite len_setZ in Hn, He.
    exists (t :: ts). rewrite len_cons. split_and!; [lia|lia| | |lia|lia|lia].
    + apply written_upd; lia.
    + simpl. split_and!; [lia|lia|congruence|done|].
      replace (pos st1 + (pos st2 - pos st1)) with (pos st2) by lia. done.
  - destruct (IH st2 count tokens) as (r & Hr & Hres); [lia..|].
    exists r. split; [exact Hr|]. destruct r as [[[st3 n] out]|e|q]; [|done..].
    destruct Hres as (ts & -> & Hn & -> & Hsp & Hp3 & He).
    exists ts. split_and!; try done; [|lia..]. eapply spans_weaken; [done | lia].
Qed.

(** The possible results of [tokenize]. *)
Definition tokenized (oc : bool) (src : list Z) (tokens : list Token)
    (r : lres (Z * list Token)) : Prop :=
  match r with
  | Ok (n, out) =>
    exists ts eof, n = len ts /\ n < len tokens /\ out = written tokens 0 (ts ++ [eof]) /\
      spans src 0 ts /\ kind eof = TokenKind.Eof /\ start eof = len src /\ tlen eof = 0
  | Err e =>
    (tokens = [] /\ Error.code e = "ERR_TOKEN_BUFFER_EMPTY"%string) \/
    (exists ts, len ts + 1 = len tokens /\ spans src 0 ts /\
       Error.code e = "ERR_MAX_TOKENS_EXCEEDED"%string /\ byte_offset e < len src)
  | Panic q => oc = true /\ q = ArithmeticOverflow
  end.

(** What the lexer returns. *)
Lemma tokenize_result oc src tokens :
  exists r, tokenize oc src tokens = Some r /\ tokenized oc src tokens r.
Proof.
  unfold tokenize, tokenize_fuel. destruct (Z.eqb_spec (len tokens) 0) as [H0|H0].
  { eexists. split; [reflexivity|]. left. split; [|done].
    destruct tokens as [|t l]; [done|]. rewrite len_cons in H0. pose proof (len_nonneg l). lia. }
  pose proof (len_nonneg tokens). pose proof (len_nonneg src).
  destruct (lex_loop_ok oc src (S (length src)) lexer_new 0 tokens) as (r & -> & Hr);
    [simpl; lia | lia | simpl; unfold len; lia |].
  destruct r as [[[st n] out]|e|q]; [|done|by eexists].
  destruct Hr as (ts & -> & Hn & -> & Hsp & Hp & He).
  pose proof (skip_bound src st Hp) as Hs. set (st1 := skip_whitespace_and_comments src st) in *.
  destruct (Z.ltb_spec (pos st1) (len src)) as [Hlt|Hge].
  - eexists. split; [reflexivity|]. right. exists ts.
    split_and!; [lia | done | |]; unfold max_tokens_error;
      destruct (get_line_and_col src (pos st1)); [done | simpl; lia].
  - destruct (get_line_and_col src (pos st1)) as [ln cl].
    pose proof (len_nonneg ts).
    rewrite upd_in_range by (rewrite len_written; lia). eexists. split; [reflexivity|].
    set (eof := mkToken TokenKind.Eof (pos st1) 0 ln cl).
    exists ts, eof. split_and!; [lia|lia| |done|done|simpl; lia|done].
    unfold written, setZ. rewrite decide_True by lia.
    replace (Z.to_nat (0 + len ts)) with (length ts + 0)%nat by (unfold len; lia). simpl.
    rewrite insert_app_r. rewrite length_app. simpl. rewrite <-app_assoc. f_equal.
    destruct (drop (length ts) tokens) as [|x l] eqn:Ed.
    + assert (length (drop (length ts) tokens) = 0%nat) as E0 by by rewrite Ed.
      rewrite length_drop in E0. unfold len in *. lia.
    + simpl. f_equal. by rewrite <-drop_drop, Ed.
Qed.

(** C27: the lexer is total and its tokens tile the source: on every byte string
    and every buffer, [tokenize] ends (its loops never run out of fuel) with
    either non-overlapping, non-empty tokens in source order, each carrying the
    line and column of its first byte, followed by one [Eof] token at the end
    of the source, all within the buffer, whose remaining entries are
    untouched; or [ERR_TOKEN_BUFFER_EMPTY] for an empty buffer; or
    [ERR_MAX_TOKENS_EXCEEDED] when the source has as many tokens as the buffer
    has entries, the last of which is kept for [Eof]. It never indexes out of
    bounds; only a build with overflow checks can panic, on a time literal too
    large for nanoseconds in 64 bits. *)
Theorem tokenize_total oc src tokens :
  exists r, tokenize oc src tokens = Some r /\ tokenized oc src tokens r.
Proof. apply tokenize_result. Qed.

(** * Numbers *)

(** The value of a digit string, without a width. *)
Definition dec_step (a b : Z) : Z := a * 10 + (b - 48).
Definition dec_value (ds : list Z) : Z := foldl dec_step 0 ds.

Definition digits (ds : list Z) : Prop := Forall (fun b => is_ascii_digit b = true) ds.

Lemma dec_digits_value fuel n acc :
  0 <= n < 10 ^ Z.of_nat fuel -> foldl dec_step 0 (dec_digits fuel n acc) = foldl dec_step n acc.
Proof.
  revert n acc. induction fuel as [|fuel IH]; intros n acc Hn.
  { change (10 ^ Z.of_nat 0) with 1 in Hn. simpl. f_equal. lia. }
  rewrite Nat2Z.inj_succ, Z.pow_succ_r in Hn by lia. cbn [dec_digits].
  destruct (Z.ltb_spec n 10).
  - simpl. f_equal. unfold dec_step. rewrite Z.mod_small; lia.
  - rewrite IH.
    + simpl. f_equal. unfold dec_step. pose proof (Z.div_mod n 10 ltac:(lia)). lia.
    + split; [apply Z.div_pos; lia | apply Z.div_lt_upper_bound; lia].
Qed.

Lemma dec_digits_digits fuel n acc : digits acc -> digits (dec_digits fuel n acc).
Proof.
  revert n acc. induction fuel as [|fuel IH]; intros n acc H; [done|]. cbn [dec_digits].
  assert (digits ((48 + n mod 10) :: acc)).
  { constructor; [|done]. pose proof (Z.mod_pos_bound n 10 ltac:(lia)).
    unfold is_ascii_digit, in_range. apply andb_true_iff. rewrite !Z.leb_le. lia. }
  case_match; [done | by apply IH].
Qed.

Lemma scan_dec_digits ds tl : forall i num,
  digits ds ->
  (forall b l, tl = b :: l -> is_ascii_digit b = false) ->
  in_i64 num ->
  scan_dec (ds ++ tl) i num = (i + len ds, as_i64 (foldl dec_step num ds)).
Proof.
  induction ds as [|d ds IH]; intros i num Hd Ht Hn; cbn [app scan_dec foldl].
  - rewrite as_i64_small by done. unfold len. simpl. rewrite Z.add_0_r.
    destruct tl as [|b l]; [done|]. simpl. by rewrite (Ht b l eq_refl).
  - inversion_clear Hd as [|? ? Hd1 Hds]. rewrite Hd1.
    rewrite IH; [|done..|apply as_i64_range]. rewrite len_cons. f_equal; [lia|].
    assert (Hcong : forall x y, x mod 2 ^ 64 = y mod 2 ^ 64 ->
      (foldl dec_step x ds) mod 2 ^ 64 = (foldl dec_step y ds) mod 2 ^ 64).
    { clear. induction ds as [|e ds IH]; intros x y E; simpl; [done|]. apply IH.
      unfold dec_step. rewrite <-(Zplus_mod_idemp_l (x * 10)), <-(Zplus_mod_idemp_l (y * 10)).
      rewrite <-(Zmult_mod_idemp_l x), <-(Zmult_mod_idemp_l y). by rewrite E. }
    assert (Has : forall x, as_i64 x mod 2 ^ 64 = x mod 2 ^ 64).
    { intros x. unfold as_i64, wrapS. rewrite Zminus_mod_idemp_l. f_equal. lia. }
    assert (Hcong2 : forall x y, x mod 2 ^ 64 = y mod 2 ^ 64 -> as_i64 x = as_i64 y).
    { intros x y E. unfold as_i64, wrapS. rewrite <-(Zplus_mod_idemp_l x), E.
      by rewrite Zplus_mod_idemp_l. }
    apply Hcong2, Hcong. unfold wrapping_add, wrapping_mul, dec_step.
    rewrite Has, <-(Zplus_mod_idemp_l (as_i64 _)), Has. by rewrite Zplus_mod_idemp_l.
Qed.

(** A byte that can follow a plain number: it continues neither the digits nor a
    fraction, a time suffix or a hexadecimal prefix. *)
Definition ends_number (tl : list Z) : Prop :=
  match tl with
  | [] => True
  | b :: _ => is_ascii_digit b = false /\ b ∉ [46; 110; 117; 109; 115; 120; 88]
  end.

Lemma rest_app pre l : rest (pre ++ l) (len pre) = l.
Proof. unfold rest, len. by rewrite Nat2Z.id, drop_app_length. Qed.

Lemma getZ_app_head {A} (pre l : list A) :
  getZ (pre ++ l) (len pre) = match l with b :: _ => Some b | [] => None end.
Proof.
  unfold getZ, len. rewrite decide_True, Nat2Z.id by lia.
  rewrite lookup_app_r, Nat.sub_diag by lia. by destruct l.
Qed.

(** No suffix starting with [c] matches where the next byte is not [c]. *)
Lemma match_suffix_no pre tl c s :
  (forall b l, tl = b :: l -> b <> c) -> match_suffix (pre ++ tl) (len pre) (c :: s) = false.
Proof.
  intros Hb. unfold match_suffix. apply andb_false_iff.
  destruct tl as [|b l].
  - left. apply Z.leb_gt. rewrite len_app, len_cons, len_nil. pose proof (len_nonneg s). lia.
  - right. unfold bytes_eqb. apply bool_decide_eq_false. unfold sub, len.
    rewrite Nat2Z.id, drop_app_length.
    destruct (Z.to_nat _); simpl; [done|]. intros [= -> _]. by apply (Hb c l).
Qed.

(** Lexing a digit string gives its value, as a wrapped 64-bit integer. *)
Lemma lex_digits oc pre d ds tl :
  digits (d :: ds) -> ends_number tl -> d <> 48 \/ ds = [] ->
  lex_number oc (pre ++ (d :: ds) ++ tl) (len pre) d =
    Ok (TokenKind.Number (as_i64 (dec_value (d :: ds))), len pre + len (d :: ds)).
Proof.
  intros Hds Htl H0.
  assert (Ht : forall c, c ∈ [46; 110; 117; 109; 115; 120; 88] -> forall b l, tl = b :: l -> b <> c).
  { intros c Hc b l -> ->. by destruct Htl. }
  unfold lex_number.
  replace ((d =? 48) && _) with false.
  2: { symmetry. apply andb_false_iff. destruct H0 as [H0| ->]; [left; by apply Z.eqb_neq | right].
       unfold next_is. change (pre ++ [d] ++ tl) with (pre ++ ([d] ++ tl)). rewrite app_assoc.
       replace (len pre + 1) with (len (pre ++ [d])) by (rewrite len_app; done).
       rewrite getZ_app_head. apply orb_false_iff.
       destruct tl as [|b l]; [done|].
       split; apply bool_decide_eq_false; intros [= ->];
         (refine (Ht _ _ _ _ eq_refl eq_refl); set_solver). }
  unfold lex_decimal. rewrite rest_app, scan_dec_digits; [|done| |done].
  2: { intros b l ->. by destruct Htl. }
  rewrite app_assoc. rewrite <-(len_app pre).
  change (bytes "ns") with [110; 115]. change (bytes "us") with [117; 115].
  change (bytes "ms") with [109; 115]. change (bytes "s") with [115].
  rewrite getZ_app_head, !match_suffix_no by (apply Ht; set_solver).
  rewrite bool_decide_eq_false_2; [done|].
  destruct tl as [|b l]; [done|]. intros [= ->].
  refine (Ht _ _ _ _ eq_refl eq_refl). set_solver.
Qed.

Lemma show_Z_head n : 0 <= n < 2 ^ 64 ->
  exists d ds, show_Z n = d :: ds /\ digits (d :: ds) /\ (d <> 48 \/ ds = []).
Proof.
  intros Hn. assert (E : show_Z n = dec_digits 20 n []).
  { unfold show_Z. destruct (Z.ltb_spec n 0); [lia|done]. }
  rewrite E. pose proof (dec_digits_digits 20 n [] ltac:(constructor)) as Hd.
  assert (W : forall fuel m acc, 0 < m < 10 ^ Z.of_nat fuel ->
    exists d ds, dec_digits fuel m acc = d :: ds /\ d <> 48).
  { clear. induction fuel as [|fuel IH]; intros m acc Hm.
    { change (10 ^ Z.of_nat 0) with 1 in Hm. lia. }
    rewrite Nat2Z.inj_succ, Z.pow_succ_r in Hm by lia. cbn [dec_digits].
    destruct (Z.ltb_spec m 10).
    - eexists _, _. split; [reflexivity|]. rewrite Z.mod_small; lia.
    - apply IH. split; [apply Z.div_str_pos; lia | apply Z.div_lt_upper_bound; lia]. }
  destruct (decide (n = 0)) as [->|Hn0].
  - exists 48, []. split_and!; [done|exact Hd|by right].
  - destruct (W 20%nat n []) as (d & ds & E2 & Hne); [lia|].
    rewrite E2 in Hd |- *. exists d, ds. split_and!; [done..|by left].
Qed.

(** C12: printing and lexing decimal integers are inverse: the text the virtual
    machine prints for a non-negative 64-bit integer is lexed back, wherever
    it stands in a source and whatever follows it (other than a byte that
    continues a number), as a [Number] token with that value and that text as
    its span. *)
Theorem print_lex_roundtrip oc pre n tl :
  0 <= n < 2 ^ 63 -> ends_number tl ->
  exists b, getZ (pre ++ show_Z n ++ tl) (len pre) = Some b /\
    lex_number oc (pre ++ show_Z n ++ tl) (len pre) b =
      Ok (TokenKind.Number n, len pre + len (show_Z n)).
Proof.
  intros Hn Htl. destruct (show_Z_head n ltac:(lia)) as (d & ds & E & Hd & H0).
  assert (Hv : dec_value (show_Z n) = n).
  { unfold dec_value, show_Z. destruct (Z.ltb_spec n 0); [lia|].
    rewrite dec_digits_value by lia. done. }
  rewrite E in Hv |- *. exists d. split; [by rewrite getZ_app_head|].
  rewrite lex_digits by done. rewrite Hv, as_i64_small; [done|]. unfold in_i64. lia.
Qed.

Theorem print_lex_roundtrip_witness :
  exists b, getZ (bytes "x := " ++ show_Z 1234 ++ bytes ";") 5 = Some b /\
    lex_number true (bytes "x := " ++ show_Z 1234 ++ bytes ";") 5 b =
      Ok (TokenKind.Number 1234, 9).
Proof.
  apply (print_lex_roundtrip true (bytes "x := ") 1234 (bytes ";")).
  - lia.
  - split; [done|]. compute_fact.
Defined.
