(* ===== verification/Editor.v ===== *)
(** PulseEditor (kernel/src/editor.rs): the edit buffer, its operations and the
    keyboard state machine of [start_editor]. What the editor prints is not
    modelled: [redraw], [redraw_current_line] and [update_cursor_only] are
    their effects on the editor's state.

    The editor reaches the file system through [file_read] and [file_write]; it is
    a client of the [FileStore] interface, which the [Fs] file implements. *)

From S2P Require Import Prelude RustStd.
Local Open Scope Z_scope.

(** No operation of the editor reports an error: only panics are possible. *)
Notation eres := (outcome Empty_set).

Definition MAX_EDITOR_BUF : Z := 4096.

(** * The interface to the file system *)

Class FileStore (D : Type) : Type := {
  file_read : D -> list Z -> option (list Z);
  file_write : D -> list Z -> list Z -> D * bool;
}.

(** What a store promises for the names it serves as regular files: a write
    keeps it in order, and a successful write is read back. *)
Class FileStoreLaws (D : Type) `{FileStore D} : Type := {
  store_ok : D -> Prop;
  regular_name : list Z -> bool;
  file_write_ok : forall s n d, store_ok s -> regular_name n = true ->
    store_ok (fst (file_write s n d));
  file_read_write : forall s n d s', store_ok s -> regular_name n = true ->
    file_write s n d = (s', true) -> file_read s' n = Some d;
}.

Inductive EditorEscState : Set :=
| Normal
| Esc
| Ss3
| Csi (params : list Z) (param_count : Z).

Record PulseEditor : Set := mkEditor {
  buffer : list Z;
  buf_len : Z;
  cursor : Z;
  top_line : Z;
  filename : list Z;
  filename_len : Z;
  status_msg : list Z;
  status_msg_len : Z;
  needs_redraw : bool;
  is_running : bool;
  esc_state : EditorEscState;
}.

Definition editor_new : PulseEditor := {|
  buffer := replicate 4096 0; buf_len := 0; cursor := 0; top_line := 1;
  filename := replicate 32 0; filename_len := 0;
  status_msg := replicate 64 0; status_msg_len := 0;
  needs_redraw := true; is_running := false; esc_state := Normal |}.

(** Field updates. *)
Definition with_text (e : PulseEditor) (b : list Z) (n c : Z) : PulseEditor :=
  mkEditor b n c (top_line e) (filename e) (filename_len e) (status_msg e) (status_msg_len e)
    (needs_redraw e) (is_running e) (esc_state e).
Definition with_top (e : PulseEditor) (t : Z) : PulseEditor :=
  mkEditor (buffer e) (buf_len e) (cursor e) t (filename e) (filename_len e) (status_msg e)
    (status_msg_len e) (needs_redraw e) (is_running e) (esc_state e).
Definition with_filename (e : PulseEditor) (f : list Z) (n : Z) : PulseEditor :=
  mkEditor (buffer e) (buf_len e) (cursor e) (top_line e) f n (status_msg e)
    (status_msg_len e) (needs_redraw e) (is_running e) (esc_state e).
Definition with_status (e : PulseEditor) (s : list Z) (n : Z) : PulseEditor :=
  mkEditor (buffer e) (buf_len e) (cursor e) (top_line e) (filename e) (filename_len e) s n
    (needs_redraw e) (is_running e) (esc_state e).
Definition with_redraw (e : PulseEditor) (r : bool) : PulseEditor :=
  mkEditor (buffer e) (buf_len e) (cursor e) (top_line e) (filename e) (filename_len e)
    (status_msg e) (status_msg_len e) r (is_running e) (esc_state e).
Definition with_running (e : PulseEditor) (r : bool) : PulseEditor :=
  mkEditor (buffer e) (buf_len e) (cursor e) (top_line e) (filename e) (filename_len e)
    (status_msg e) (status_msg_len e) (needs_redraw e) r (esc_state e).
Definition with_esc (e : PulseEditor) (s : EditorEscState) : PulseEditor :=
  mkEditor (buffer e) (buf_len e) (cursor e) (top_line e) (filename e) (filename_len e)
    (status_msg e) (status_msg_len e) (needs_redraw e) (is_running e) s.

Definition with_cursor (e : PulseEditor) (c : Z) : PulseEditor :=
  with_text e (buffer e) (buf_len e) c.

(** * Names and status *)

Definition set_filename (e : PulseEditor) (name : list Z) : PulseEditor :=
  let n := Z.min (len name) 32 in
  with_filename e (splice (filename e) 0 (sub name 0 n)) n.

Definition filename_str (e : PulseEditor) : list Z :=
  let untitled := bytes "untitled.pul" in
  if filename_len e =? 0 then untitled
  else
    let s := sub (filename e) 0 (filename_len e) in
    if utf8_valid s then s else untitled.

Definition set_status (e : PulseEditor) (msg : string) : PulseEditor :=
  let n := Z.min (len (bytes msg)) 64 in
  with_status e (splice (status_msg e) 0 (sub (bytes msg) 0 n)) n.

(** * Loops over the buffer *)

(** [while pos < end && p(buffer[pos]) { pos += 1 }], with [n] positions left. *)
Fixpoint scan_fwd (p : Z -> bool) (buf : list Z) (n : nat) (i : Z) : eres Z :=
  match n with
  | O => mret i
  | S n => b ← idx buf i; if p b then scan_fwd p buf n (i + 1) else mret i
  end.

(** [while pos > 0 && p(buffer[pos - 1]) { pos -= 1 }]. *)
Fixpoint scan_back (p : Z -> bool) (buf : list Z) (n : nat) : eres Z :=
  match n with
  | O => mret 0
  | S n' => b ← idx buf (Z.of_nat n'); if p b then scan_back p buf n' else mret (Z.of_nat n)
  end.

Definition is_blank (b : Z) : bool := (b =? 32) || (b =? 9) || (b =? 10).
Definition not_newline (b : Z) : bool := negb (b =? 10).

(** [for i in start..start + n { buffer[i] = buffer[i + k] }]. *)
Fixpoint shift_left (n : nat) (i k : Z) (buf : list Z) : eres (list Z) :=
  match n with
  | O => mret buf
  | S n => b ← idx buf (i + k); buf ← upd buf i b; shift_left n (i + 1) k buf
  end.

(** [for i in (start..start + n).rev() { buffer[i + k] = buffer[i] }]. *)
Fixpoint shift_right (n : nat) (start k : Z) (buf : list Z) : eres (list Z) :=
  match n with
  | O => mret buf
  | S n =>
    let i := start + Z.of_nat n in
    b ← idx buf i; buf ← upd buf (i + k) b; shift_right n start k buf
  end.

(** * Editing *)

Definition insert_char (e : PulseEditor) (c : Z) : eres PulseEditor :=
  if buf_len e <? MAX_EDITOR_BUF - 1 then
    if cursor e =? buf_len e then
      b ← upd (buffer e) (cursor e) c;
      mret (with_redraw (with_text e b (buf_len e + 1) (cursor e + 1)) true)
    else
      b ← shift_right (Z.to_nat (buf_len e - cursor e)) (cursor e) 1 (buffer e);
      b ← upd b (cursor e) c;
      mret (with_redraw (with_text e b (buf_len e + 1) (cursor e + 1)) true)
  else mret e.

Definition insert_str (e : PulseEditor) (s : list Z) : eres PulseEditor :=
  let n := len s in
  if buf_len e + n <=? MAX_EDITOR_BUF then
    if cursor e =? buf_len e then
      b ← blit (buffer e) (cursor e) s;
      mret (with_redraw (with_text e b (buf_len e + n) (cursor e + n)) true)
    else
      b ← shift_right (Z.to_nat (buf_len e - cursor e)) (cursor e) n (buffer e);
      b ← blit b (cursor e) s;
      mret (with_redraw (with_text e b (buf_len e + n) (cursor e + n)) true)
  else mret e.

(** The loop [for i in start..self.buf_len - count] that closes a gap. *)
Definition close_gap (e : PulseEditor) (start count : Z) : eres (list Z) :=
  shift_left (Z.to_nat (buf_len e - count - start)) start count (buffer e).

Definition delete_char_backspace (e : PulseEditor) : eres PulseEditor :=
  if 0 <? cursor e then
    let c := cursor e - 1 in
    b ← close_gap e c 1;
    mret (with_redraw (with_text e b (buf_len e - 1) c) true)
  else mret e.

Definition delete_char_under_cursor (e : PulseEditor) : eres PulseEditor :=
  if cursor e <? buf_len e then
    b ← close_gap e (cursor e) 1;
    mret (with_redraw (with_text e b (buf_len e - 1) (cursor e)) true)
  else mret e.

(** * Moving *)

Definition move_word_left (e : PulseEditor) : eres PulseEditor :=
  if cursor e =? 0 then mret e
  else
    p ← scan_back is_blank (buffer e) (Z.to_nat (cursor e));
    p ← scan_back (fun b => negb (is_blank b)) (buffer e) (Z.to_nat p);
    mret (with_redraw (with_cursor e p) true).

Definition move_word_right (e : PulseEditor) : eres PulseEditor :=
  if buf_len e <=? cursor e then mret e
  else
    p ← scan_fwd (fun b => negb (is_blank b)) (buffer e)
          (Z.to_nat (buf_len e - cursor e)) (cursor e);
    p ← scan_fwd is_blank (buffer e) (Z.to_nat (buf_len e - p)) p;
    mret (with_redraw (with_cursor e p) true).

(** The loop looks for the last newline before the cursor. *)
Definition get_current_line_start_and_col (e : PulseEditor) : eres (Z * Z) :=
  line_start ← scan_back not_newline (buffer e) (Z.to_nat (cursor e));
  mret (line_start, cursor e - line_start).

(** The first newline at or after [i], or the end of the text. *)
Definition line_end_from (e : PulseEditor) (i : Z) : eres Z :=
  scan_fwd not_newline (buffer e) (Z.to_nat (buf_len e - i)) i.

Definition move_cursor_up (e : PulseEditor) : eres PulseEditor :=
  '(cur_line_start, col) ← get_current_line_start_and_col e;
  if 0 <? cur_line_start then
    let prev_line_end := cur_line_start - 1 in
    prev_line_start ← scan_back not_newline (buffer e) (Z.to_nat prev_line_end);
    let prev_line_len := prev_line_end - prev_line_start in
    mret (with_redraw (with_cursor e (prev_line_start + Z.min col prev_line_len)) true)
  else mret e.

Definition move_cursor_down (e : PulseEditor) : eres PulseEditor :=
  '(_, col) ← get_current_line_start_and_col e;
  nl ← line_end_from e (cursor e);
  if nl <? buf_len e then
    let start := nl + 1 in
    line_end ← line_end_from e start;
    let next_line_len := line_end - start in
    mret (with_redraw (with_cursor e (start + Z.min col next_line_len)) true)
  else mret e.

Definition kill_line_forward (e : PulseEditor) : eres PulseEditor :=
  if buf_len e <=? cursor e then mret e
  else
    stop ← line_end_from e (cursor e);
    let stop := if (stop =? cursor e) && (stop <? buf_len e) then stop + 1 else stop in
    let count := stop - cursor e in
    if 0 <? count then
      b ← close_gap e (cursor e) count;
      mret (with_redraw (with_text e b (buf_len e - count) (cursor e)) true)
    else mret e.

Definition kill_line_backward (e : PulseEditor) : eres PulseEditor :=
  '(start, _) ← get_current_line_start_and_col e;
  let count := cursor e - start in
  if 0 <? count then
    b ← close_gap e start count;
    mret (with_redraw (with_text e b (buf_len e - count) start) true)
  else mret e.

(** Ctrl+K: the whole current line with its newline. *)
Definition cut_line (e : PulseEditor) : eres PulseEditor :=
  '(start, _) ← get_current_line_start_and_col e;
  stop ← line_end_from e start;
  let stop := if stop <? buf_len e then stop + 1 else stop in
  let count := stop - start in
  if 0 <? count then
    b ← close_gap e start count;
    mret (with_text e b (buf_len e - count) start)
  else mret e.

Definition cursor_home (e : PulseEditor) : eres PulseEditor :=
  '(start, _) ← get_current_line_start_and_col e; mret (with_cursor e start).

Definition cursor_end (e : PulseEditor) : eres PulseEditor :=
  '(start, _) ← get_current_line_start_and_col e;
  stop ← line_end_from e start;
  mret (with_cursor e stop).

Definition cursor_right (e : PulseEditor) : PulseEditor :=
  if cursor e <? buf_len e then with_cursor e (cursor e + 1) else e.
Definition cursor_left (e : PulseEditor) : PulseEditor :=
  if 0 <? cursor e then with_cursor e (cursor e - 1) else e.

(** * Scrolling *)

(** The loop of [get_row_col] over the text before the cursor. *)
Fixpoint row_col (l : list Z) (row col : Z) : Z * Z :=
  match l with
  | [] => (row, col)
  | b :: l =>
    if b =? 10 then row_col l (row + 1) 1
    else if b =? 9 then row_col l row (col + 4)
    else row_col l row (col + 1)
  end.

Definition get_row_col (e : PulseEditor) : Z * Z := row_col (sub (buffer e) 0 (cursor e)) 1 1.

Definition adjust_scroll (e : PulseEditor) : bool * PulseEditor :=
  let '(row, _) := get_row_col e in
  let old_top := top_line e in
  let e := if top_line e =? 0 then with_top e 1 else e in
  let e :=
    if row <? top_line e then with_top e row
    else if top_line e + 21 <=? row then with_top e (row - 21 + 1)
    else e in
  (negb (top_line e =? old_top), e).

(** The three redraws, up to what they print. *)
Definition redraw (e : PulseEditor) : PulseEditor := with_redraw (snd (adjust_scroll e)) false.

Definition redraw_current_line (e : PulseEditor) : PulseEditor :=
  let '(scrolled, e) := adjust_scroll e in
  if scrolled then redraw e
  else
    let '(row, _) := get_row_col e in
    if (top_line e <=? row) && (row <? top_line e + 21) then with_redraw e false
    else redraw e.

Definition update_cursor_only (e : PulseEditor) : PulseEditor :=
  let '(scrolled, e) := adjust_scroll e in if scrolled then redraw e else e.

(** The screen row the cursor is drawn on. *)
Definition cursor_screen_row (e : PulseEditor) : Z := fst (get_row_col e) - top_line e + 2.

(** * Files and keys *)

(** What changed since the last redraw, and the carriage-return flag. *)
Record input_flags : Set := mkFlags {
  last_was_cr : bool;
  line_changed : bool;
  structure_changed : bool;
  cursor_only : bool;
}.

Definition set_cr (f : input_flags) (b : bool) : input_flags :=
  mkFlags b (line_changed f) (structure_changed f) (cursor_only f).
Definition set_line (f : input_flags) : input_flags :=
  mkFlags (last_was_cr f) true (structure_changed f) (cursor_only f).
Definition set_structure (f : input_flags) : input_flags :=
  mkFlags (last_was_cr f) (line_changed f) true (cursor_only f).
Definition set_cursor_only (f : input_flags) : input_flags :=
  mkFlags (last_was_cr f) (line_changed f) (structure_changed f) true.

Section Keys.
Context {D : Type} `{!FileStore D}.

(** [lang::run_pulse_auto] on the text: whether it succeeded. *)
Context (run_pulse_auto : list Z -> bool).

Definition load_file (s : D) (e : PulseEditor) (name : list Z) : PulseEditor :=
  let e := set_filename e name in
  let e := with_esc (with_top (with_text e (buffer e) 0 0) 1) Normal in
  let e :=
    match file_read s name with
    | Some data =>
      let n := Z.min (len data) MAX_EDITOR_BUF in
      set_status (with_text e (splice (buffer e) 0 (sub data 0 n)) n (cursor e))
        "Loaded from LatencyFS."
    | None => set_status e "New buffer."
    end in
  with_redraw e true.

Definition save_file (s : D) (e : PulseEditor) : D * PulseEditor :=
  let '(s, ok) := file_write s (filename_str e) (sub (buffer e) 0 (buf_len e)) in
  (s, with_redraw (set_status e (if ok then "Saved to LatencyFS." else "Save failed!")) true).

Definition run_code (e : PulseEditor) : PulseEditor :=
  let e :=
    if run_pulse_auto (sub (buffer e) 0 (buf_len e))
    then set_status e "Code executed successfully."
    else set_status e "Compile/Runtime error! (Diagnostic displayed)" in
  redraw (with_redraw e true).

(** The machine the input loop runs on. *)
Record session : Type := mkSession { store : D; ed : PulseEditor; flags : input_flags }.

Definition on_ed (x : session) (e : PulseEditor) : session := mkSession (store x) e (flags x).
Definition on_flags (x : session) (f : input_flags) : session := mkSession (store x) (ed x) f.

Definition edit (x : session) (r : eres PulseEditor) (g : input_flags -> input_flags)
    : eres session :=
  e ← r; mret (mkSession (store x) e (g (flags x))).

(** [for _ in 0..n { f }]. *)
Fixpoint repeat_op (n : nat) (f : PulseEditor -> eres PulseEditor) (e : PulseEditor)
    : eres PulseEditor :=
  match n with O => mret e | S n => e ← f e; repeat_op n f e end.

Definition save_key (x : session) : session :=
  let '(s, e) := save_file (store x) (ed x) in mkSession s e (set_structure (flags x)).
Definition run_key (x : session) : session :=
  mkSession (store x) (run_code (ed x)) (set_structure (flags x)).
Definition quit_key (x : session) : session := on_ed x (with_running (ed x) false).

Definition is_printable (b : Z) : bool := in_range 0x20 b 0x7E.

(** The arm [EditorEscState::Normal]. *)
Definition key_normal (x : session) (b : Z) : eres session :=
  let e := ed x in
  if b =? 0x1B then mret (on_ed x (with_esc e Esc))
  else if b =? 0x11 then mret (quit_key x)
  else if b =? 0x13 then mret (save_key x)
  else if b =? 0x12 then mret (run_key x)
  else if b =? 0x18 then mret (let '(s, e) := save_file (store x) e in
                               mkSession s (with_running e false) (flags x))
  else if b =? 0x0C then mret (on_flags x (set_structure (flags x)))
  else if b =? 0x19 then edit x (repeat_op 20 move_cursor_up e) set_structure
  else if b =? 0x16 then edit x (repeat_op 20 move_cursor_down e) set_structure
  else if b =? 0x0B then edit x (cut_line e) set_structure
  else if b =? 0x15 then mret (on_flags x (set_structure (flags x)))
  else if b =? 9 then
    edit x (insert_str e (bytes "    ")) (fun f => set_cr (set_line f) false)
  else if (b =? 0x08) || (b =? 0x7F) then
    edit x (delete_char_backspace e) (fun f => set_cr (set_structure f) false)
  else if b =? 13 then
    edit x (insert_char e 10) (fun f => set_cr (set_structure f) true)
  else if b =? 10 then
    if negb (last_was_cr (flags x)) then
      edit x (insert_char e 10) (fun f => set_cr (set_structure f) false)
    else mret (on_flags x (set_cr (flags x) false))
  else if is_printable b then
    edit x (insert_char e b) (fun f => set_cr (set_line f) false)
  else mret (on_flags x (set_cr (flags x) false)).

(** The arm [EditorEscState::Esc]. *)
Definition key_esc (x : session) (b : Z) : eres session :=
  let e := ed x in
  let to_normal y := on_ed y (with_esc (ed y) Normal) in
  if b =? 91 then mret (on_ed x (with_esc e (Csi [0; 0; 0; 0] 0)))
  else if b =? 79 then mret (on_ed x (with_esc e Ss3))
  else if (b =? 115) || (b =? 83) then mret (to_normal (save_key x))
  else if (b =? 114) || (b =? 82) then mret (to_normal (run_key x))
  else if (b =? 113) || (b =? 81) then mret (quit_key x)
  else if (b =? 99) || (b =? 67) then
    let e := set_status (with_text e (buffer e) 0 0) "Buffer cleared." in
    mret (to_normal (mkSession (store x) e (set_structure (flags x))))
  else if is_printable b then to_normal <$> edit x (insert_char e b) set_line
  else mret (to_normal x).

(** The arm [EditorEscState::Ss3]. *)
Definition key_ss3 (x : session) (b : Z) : eres session :=
  let e := ed x in
  let to_normal y := on_ed y (with_esc (ed y) Normal) in
  to_normal <$>
    (if b =? 65 then edit x (move_cursor_up e) set_cursor_only
     else if b =? 66 then edit x (move_cursor_down e) set_cursor_only
     else if b =? 67 then edit x (mret (cursor_right e)) set_cursor_only
     else if b =? 68 then edit x (mret (cursor_left e)) set_cursor_only
     else if b =? 72 then edit x (cursor_home e) set_cursor_only
     else if b =? 70 then edit x (cursor_end e) set_cursor_only
     else if b =? 81 then mret (save_key x)
     else if b =? 82 then mret (on_flags x (set_structure (flags x)))
     else mret x).

Definition saturating_u16 (z : Z) : Z := Z.min z 65535.

(** The arm [b'~'] of a CSI sequence, by its first parameter. *)
Definition key_tilde (x : session) (p0 : Z) : eres session :=
  let e := ed x in
  if p0 =? 12 then mret (save_key x)
  else if p0 =? 15 then mret (run_key x)
  else if p0 =? 3 then edit x (delete_char_under_cursor e) set_structure
  else if (p0 =? 1) || (p0 =? 7) then edit x (cursor_home e) set_cursor_only
  else if (p0 =? 4) || (p0 =? 8) then edit x (cursor_end e) set_cursor_only
  else if p0 =? 5 then edit x (repeat_op 20 move_cursor_up e) set_structure
  else if p0 =? 6 then edit x (repeat_op 20 move_cursor_down e) set_structure
  else if (p0 =? 200) || (p0 =? 201) then mret (on_flags x (set_structure (flags x)))
  else mret x.

(** The arm [EditorEscState::Csi]. *)
Definition key_csi (x : session) (params : list Z) (count b : Z) : eres session :=
  let e := ed x in
  let to_normal y := on_ed y (with_esc (ed y) Normal) in
  p0 ← idx params 0;
  p1 ← idx params 1;
  let is_ctrl := (p0 =? 1) && (p1 =? 5) in
  if is_ascii_digit b then
    if count <? 4 then
      p ← idx params count;
      params ← upd params count (saturating_u16 (saturating_u16 (p * 10) + (b - 48)));
      mret (on_ed x (with_esc e (Csi params count)))
    else mret x
  else if b =? 59 then
    mret (if count <? 3 then on_ed x (with_esc e (Csi params (count + 1))) else x)
  else if b =? 65 then
    to_normal <$> edit x (repeat_op (if is_ctrl then 5 else 1) move_cursor_up e) set_cursor_only
  else if b =? 66 then
    to_normal <$> edit x (repeat_op (if is_ctrl then 5 else 1) move_cursor_down e) set_cursor_only
  else if b =? 67 then
    to_normal <$> edit x (if is_ctrl then move_word_right e else mret (cursor_right e))
      set_cursor_only
  else if b =? 68 then
    to_normal <$> edit x (if is_ctrl then move_word_left e else mret (cursor_left e))
      set_cursor_only
  else if b =? 72 then to_normal <$> edit x (cursor_home e) set_cursor_only
  else if b =? 70 then to_normal <$> edit x (cursor_end e) set_cursor_only
  else if b =? 126 then
    if p0 =? 21 then mret (quit_key x) else to_normal <$> key_tilde x p0
  else if b =? 80 then to_normal <$> edit x (delete_char_under_cursor e) set_structure
  else mret (to_normal x).

(** The [match EDITOR.esc_state]. *)
Definition handle_byte (x : session) (b : Z) : eres session :=
  match esc_state (ed x) with
  | Normal => key_normal x b
  | Esc => key_esc x b
  | Ss3 => key_ss3 x b
  | Csi params count => key_csi x params count b
  end.

(** The block after the input has been drained. *)
Definition refresh (x : session) : session :=
  let f := flags x in
  if (structure_changed f || line_changed f || cursor_only f) && is_running (ed x) then
    if structure_changed f then
      mkSession (store x) (redraw (ed x)) (mkFlags (last_was_cr f) false false false)
    else if line_changed f then
      mkSession (store x) (redraw_current_line (ed x))
        (mkFlags (last_was_cr f) false (structure_changed f) false)
    else
      mkSession (store x) (update_cursor_only (ed x))
        (mkFlags (last_was_cr f) (line_changed f) (structure_changed f) false)
  else x.

(** The inner loop over one burst of input: it stops at a quit key. *)
Fixpoint drain (x : session) (burst : list Z) : eres session :=
  match burst with
  | [] => mret x
  | b :: burst =>
    x ← handle_byte x b;
    if is_running (ed x) then drain x burst else mret x
  end.

(** The editor's main loop over the bursts of input the serial port delivers
    (the pending input that [run_code] throws away is not part of them). *)
Fixpoint run_session (x : session) (bursts : list (list Z)) : eres session :=
  match bursts with
  | [] => mret x
  | burst :: bursts =>
    if is_running (ed x) then
      x ← drain x burst; run_session (refresh x) bursts
    else mret x
  end.

Definition no_flags : input_flags := mkFlags false false false false.

Definition start_editor (s : D) (e : PulseEditor) (name : list Z) (bursts : list (list Z))
    : eres session :=
  let e := load_file s e name in
  let e := set_status (with_running e true)
             "Ready. (^S: Save, ^R: Run, ^Q: Quit, ^X: Save&Quit, Esc C: Clear)" in
  run_session (mkSession s (redraw e) no_flags) bursts.
End Keys.
Arguments mkSession {D} _ _ _.
Arguments store {D} _.
Arguments ed {D} _.
Arguments flags {D} _.
