(* ===== verification/EditorProps.v ===== *)
(** The editor refines a text with a cursor: its in-place loops over the edit
    buffer are insertions and deletions at a cursor between two strings, and no
    sequence of keys makes it index out of bounds. *)

From S2P Require Import Prelude RustStd Editor.
Local Open Scope Z_scope.

(** * The invariant and the abstract document *)

Definition esc_wf (s : EditorEscState) : Prop :=
  match s with Csi params count => len params = 4 /\ 0 <= count <= 3 | _ => True end.

Record ed_wf (e : PulseEditor) : Prop := {
  wf_buffer : len (buffer e) = 4096;
  wf_cursor : 0 <= cursor e <= buf_len e;
  wf_len : buf_len e <= 4096;
  wf_top : 0 <= top_line e;
  wf_filename : len (filename e) = 32 /\ 0 <= filename_len e <= 32;
  wf_status : len (status_msg e) = 64 /\ 0 <= status_msg_len e <= 64;
  wf_esc : esc_wf (esc_state e);
}.

(** The text before and after the cursor. *)
Definition doc : Type := list Z * list Z.

Definition doc_of (e : PulseEditor) : doc :=
  (sub (buffer e) 0 (cursor e), sub (buffer e) (cursor e) (buf_len e)).

Definition doc_text (d : doc) : list Z := fst d ++ snd d.

Lemma doc_of_text e : ed_wf e -> doc_text (doc_of e) = sub (buffer e) 0 (buf_len e).
Proof. intros He. pose proof (wf_cursor e He). apply sub_app; lia. Qed.

(** An editor operation that neither panics nor leaves the invariant, and does
    [f] to the document. *)
Definition refines (e : PulseEditor) (r : eres PulseEditor) (f : doc -> doc) : Prop :=
  exists e', r = Ok e' /\ ed_wf e' /\ doc_of e' = f (doc_of e).

(** * The abstract operations *)

(** Insert [s] at the cursor if the text then has at most [limit] bytes. *)
Definition doc_insert (limit : Z) (s : list Z) (d : doc) : doc :=
  if len (doc_text d) + len s <=? limit then (fst d ++ s, snd d) else d.

Definition doc_backspace (d : doc) : doc := (sub (fst d) 0 (len (fst d) - 1), snd d).
Definition doc_delete (n : Z) (d : doc) : doc := (fst d, drop (Z.to_nat n) (snd d)).

(** Move the cursor to position [c] of the text. *)
Definition doc_goto (c : Z) (d : doc) : doc :=
  (sub (doc_text d) 0 c, sub (doc_text d) c (len (doc_text d))).

(** The number of bytes since the last newline, and before the next one. *)
Definition doc_col (d : doc) : Z := count_while not_newline (rev (fst d)).
Definition doc_ahead (d : doc) : Z := count_while not_newline (snd d).

Definition doc_kill_forward (d : doc) : doc :=
  doc_delete (if doc_ahead d =? 0 then 1 else doc_ahead d) d.
Definition doc_kill_backward (d : doc) : doc :=
  (sub (fst d) 0 (len (fst d) - doc_col d), snd d).
(** The whole line, with its newline if it has one. *)
Definition doc_cut_line (d : doc) : doc := doc_delete (doc_ahead d + 1) (doc_kill_backward d).

(** * The loops *)

Lemma shift_left_spec n : forall i k (buf : list Z),
  0 <= i -> 1 <= k -> i + k + Z.of_nat n <= len buf ->
  exists buf', shift_left n i k buf = Ok buf' /\ len buf' = len buf /\
    forall j, getZ buf' j =
      if (i <=? j) && (j <? i + Z.of_nat n) then getZ buf (j + k) else getZ buf j.
Proof.
  induction n as [|n IH]; intros i k buf Hi Hk Hl; cbn [shift_left].
  - exists buf. split_and!; [done..|]. intros j.
    destruct (Z.leb_spec i j), (Z.ltb_spec j (i + Z.of_nat 0)); simpl; (done || lia).
  - destruct (@idx_in_range Empty_set _ buf (i + k) ltac:(lia)) as (v & -> & Hv).
    cbn [mbind outcome_bind]. rewrite upd_in_range by lia. cbn [mbind outcome_bind].
    destruct (IH (i + 1) k (setZ buf i v)) as (buf' & -> & Hlen & Hg);
      [lia | lia | rewrite len_setZ; lia |].
    exists buf'. rewrite len_setZ in Hlen. split_and!; [done..|]. intros j. rewrite Hg.
    destruct (Z.leb_spec (i + 1) j), (Z.ltb_spec j (i + 1 + Z.of_nat n)),
      (Z.leb_spec i j), (Z.ltb_spec j (i + Z.of_nat (S n))); simpl; try lia;
      try (rewrite getZ_setZ_ne by lia; done).
    replace j with i by lia. rewrite getZ_setZ_eq by lia. done.
Qed.

Lemma shift_right_spec n : forall i k (buf : list Z),
  0 <= i -> 1 <= k -> i + Z.of_nat n + k <= len buf ->
  exists buf', shift_right n i k buf = Ok buf' /\ len buf' = len buf /\
    forall j, getZ buf' j =
      if (i + k <=? j) && (j <? i + k + Z.of_nat n) then getZ buf (j - k)
      else if (i + k + Z.of_nat n <=? j) || (j <? i + k) then getZ buf j else None.
Proof.
  induction n as [|n IH]; intros i k buf Hi Hk Hl; cbn [shift_right].
  - exists buf. split_and!; [done..|]. intros j.
    destruct (Z.leb_spec (i + k) j), (Z.ltb_spec j (i + k + Z.of_nat 0)),
      (Z.leb_spec (i + k + Z.of_nat 0) j), (Z.ltb_spec j (i + k)); simpl; (done || lia).
  - destruct (@idx_in_range Empty_set _ buf (i + Z.of_nat n) ltac:(lia)) as (v & -> & Hv).
    cbn [mbind outcome_bind]. rewrite upd_in_range by lia. cbn [mbind outcome_bind].
    destruct (IH i k (setZ buf (i + Z.of_nat n + k) v)) as (buf' & -> & Hlen & Hg);
      [lia | lia | rewrite len_setZ; lia |].
    exists buf'. rewrite len_setZ in Hlen. split_and!; [done..|]. intros j. rewrite Hg.
    destruct (Z.leb_spec (i + k) j), (Z.ltb_spec j (i + k + Z.of_nat n)),
      (Z.leb_spec (i + k + Z.of_nat n) j), (Z.ltb_spec j (i + k + Z.of_nat (S n))),
      (Z.leb_spec (i + k + Z.of_nat (S n)) j), (Z.ltb_spec j (i + k)); simpl; try lia;
      try (rewrite getZ_setZ_ne by lia; done).
    replace j with (i + Z.of_nat n + k) by lia. rewrite getZ_setZ_eq by lia.
    rewrite <-Hv. f_equal. lia.
Qed.

Lemma sub_single {A} (l : list A) i v : getZ l i = Some v -> sub l i (i + 1) = [v].
Proof.
  intros Hv. pose proof (getZ_Some_lt _ _ _ Hv). unfold getZ in Hv.
  rewrite decide_True in Hv by lia. unfold sub.
  replace (Z.to_nat (i + 1 - i)) with 1%nat by lia. by rewrite (drop_S _ _ _ Hv).
Qed.

Lemma scan_fwd_spec p buf n : forall i,
  0 <= i -> i + Z.of_nat n <= len buf ->
  scan_fwd p buf n i = Ok (i + count_while p (sub buf i (i + Z.of_nat n))).
Proof.
  induction n as [|n IH]; intros i Hi Hl; cbn [scan_fwd].
  - rewrite Z.add_0_r. unfold sub. rewrite Z.sub_diag. simpl. by rewrite Z.add_0_r.
  - destruct (@idx_in_range Empty_set _ buf i ltac:(lia)) as (v & -> & Hv).
    cbn [mbind outcome_bind].
    assert (E : sub buf i (i + Z.of_nat (S n)) = v :: sub buf (i + 1) (i + 1 + Z.of_nat n)).
    { rewrite <-(sub_app buf i (i + 1)) by lia.
      replace (i + Z.of_nat (S n)) with (i + 1 + Z.of_nat n) by lia.
      by rewrite (sub_single buf i v). }
    rewrite E. simpl. destruct (p v).
    + rewrite IH by lia. f_equal. lia.
    + by rewrite Z.add_0_r.
Qed.

Lemma scan_back_spec p buf n :
  Z.of_nat n <= len buf ->
  scan_back p buf n = Ok (Z.of_nat n - count_while p (rev (sub buf 0 (Z.of_nat n)))).
Proof.
  induction n as [|n IH]; intros Hl; cbn [scan_back]; [done|].
  destruct (@idx_in_range Empty_set _ buf (Z.of_nat n) ltac:(lia)) as (v & -> & Hv).
  cbn [mbind outcome_bind].
  assert (E : sub buf 0 (Z.of_nat (S n)) = sub buf 0 (Z.of_nat n) ++ [v]).
  { rewrite <-(sub_app buf 0 (Z.of_nat n)) by lia. f_equal.
    rewrite Nat2Z.inj_succ. by apply sub_single. }
  rewrite E, rev_app_distr. simpl. destruct (p v).
  - rewrite IH by lia. f_equal. lia.
  - by rewrite Z.sub_0_r.
Qed.

(** * Editing operations *)

Lemma close_gap_spec e start count :
  ed_wf e -> 0 <= start -> 1 <= count -> start + count <= buf_len e ->
  exists b, close_gap e start count = Ok b /\ len b = 4096 /\
    sub b 0 start = sub (buffer e) 0 start /\
    sub b start (buf_len e - count) = sub (buffer e) (start + count) (buf_len e).
Proof.
  intros He Hs Hc Hl. pose proof (wf_buffer e He) as Hb. pose proof (wf_len e He).
  unfold close_gap.
  destruct (shift_left_spec (Z.to_nat (buf_len e - count - start)) start count (buffer e))
    as (b & -> & Hlen & Hg); [lia..|].
  exists b. rewrite Hb in Hlen. split_and!; [done|done| |].
  - apply sub_ext; [lia..|]. intros k Hk. rewrite Hg.
    destruct (Z.leb_spec start k); [lia|done].
  - replace (buf_len e) with (buf_len e - count + count) at 2 by lia.
    apply sub_shift; [lia..|]. intros k Hk. rewrite Hg.
    destruct (Z.leb_spec start k), (Z.ltb_spec k (start + Z.of_nat (Z.to_nat (buf_len e - count - start))));
      simpl; (done || lia).
Qed.

(** The text after a block of [count] bytes at [start] has been removed and the
    cursor put there. *)
Lemma refines_close_gap e start count (r : bool) f :
  ed_wf e -> 0 <= start <= cursor e -> 1 <= count -> start + count <= buf_len e ->
  f (doc_of e) = (sub (buffer e) 0 start, sub (buffer e) (start + count) (buf_len e)) ->
  refines e
    (b ← close_gap e start count;
     mret (let e' := with_text e b (buf_len e - count) start in
           if r then with_redraw e' true else e')) f.
Proof.
  intros He Hs Hc Hl Hf. destruct (close_gap_spec e start count He) as (b & -> & Hb & H1 & H2);
    [lia..|].
  cbn [mbind outcome_bind mret outcome_ret]. eexists. split; [reflexivity|].
  rewrite Hf. destruct He, r; (split; [constructor; simpl; (done || lia)|]);
    unfold doc_of; simpl; by rewrite H1, H2.
Qed.

Lemma len_left e : ed_wf e -> len (fst (doc_of e)) = cursor e.
Proof.
  intros He. pose proof (wf_cursor e He). pose proof (wf_len e He). pose proof (wf_buffer e He).
  simpl. rewrite len_sub; lia.
Qed.

Lemma len_right e : ed_wf e -> len (snd (doc_of e)) = buf_len e - cursor e.
Proof.
  intros He. pose proof (wf_cursor e He). pose proof (wf_len e He). pose proof (wf_buffer e He).
  simpl. rewrite len_sub; lia.
Qed.

Lemma drop_sub {A} (l : list A) i j n :
  0 <= i -> 0 <= n -> drop (Z.to_nat n) (sub l i j) = sub l (i + n) j.
Proof.
  unfold sub. intros. rewrite skipn_firstn_comm, drop_drop.
  f_equal; [lia|]. f_equal. lia.
Qed.

Lemma refines_same e f : ed_wf e -> f (doc_of e) = doc_of e -> refines e (mret e) f.
Proof. intros He Hf. by exists e. Qed.

Lemma backspace_refines e : ed_wf e -> refines e (delete_char_backspace e) doc_backspace.
Proof.
  intros He. pose proof (wf_cursor e He). unfold delete_char_backspace.
  pose proof (len_left e He) as Hl. destruct (Z.ltb_spec 0 (cursor e)).
  - apply (refines_close_gap e (cursor e - 1) 1 true); [done|lia..|].
    unfold doc_backspace. rewrite Hl. simpl.
    rewrite sub_sub by lia. f_equal; f_equal; lia.
  - apply refines_same; [done|]. unfold doc_backspace. rewrite Hl. unfold doc_of. simpl.
    replace (cursor e) with 0 by lia. unfold sub at 1 2. done.
Qed.

Lemma delete_refines e :
  ed_wf e -> refines e (delete_char_under_cursor e) (doc_delete 1).
Proof.
  intros He. pose proof (wf_cursor e He). unfold delete_char_under_cursor.
  destruct (Z.ltb_spec (cursor e) (buf_len e)).
  - apply (refines_close_gap e (cursor e) 1 true); [done|lia..|].
    unfold doc_delete. simpl fst. by rewrite <-(drop_sub _ _ _ 1) by lia.
  - apply refines_same; [done|]. unfold doc_delete, doc_of. simpl fst. simpl snd.
    rewrite drop_sub by lia. f_equal. unfold sub.
    by replace (Z.to_nat (buf_len e - (cursor e + 1))) with (Z.to_nat (buf_len e - cursor e)) by lia;
    replace (Z.to_nat (buf_len e - cursor e)) with 0%nat by lia.
Qed.

Lemma len_doc_text e : ed_wf e -> len (doc_text (doc_of e)) = buf_len e.
Proof.
  intros He. unfold doc_text. rewrite len_app, len_left, len_right by done. lia.
Qed.

(** Opening a gap of [k] bytes at the cursor and filling it with [s]. *)
Lemma open_gap_spec e s :
  ed_wf e -> buf_len e + len s <= 4096 -> 1 <= len s ->
  exists b b', shift_right (Z.to_nat (buf_len e - cursor e)) (cursor e) (len s) (buffer e) = Ok b /\
    len b = 4096 /\ b' = splice b (cursor e) s /\ len b' = 4096 /\
    sub b' 0 (cursor e + len s) = sub (buffer e) 0 (cursor e) ++ s /\
    sub b' (cursor e + len s) (buf_len e + len s) = sub (buffer e) (cursor e) (buf_len e).
Proof.
  intros He Hl Hs. pose proof (wf_buffer e He) as Hb. pose proof (wf_cursor e He).
  destruct (shift_right_spec (Z.to_nat (buf_len e - cursor e)) (cursor e) (len s) (buffer e))
    as (b & -> & Hlen & Hg); [lia..|]. rewrite Hb in Hlen.
  exists b, (splice b (cursor e) s). assert (len (splice b (cursor e) s) = 4096)
    by (rewrite len_splice; lia). split_and!; try done.
  - rewrite <-(sub_app _ 0 (cursor e)) by lia. rewrite sub_splice by lia. f_equal.
    apply sub_ext; [lia..|]. intros k Hk. rewrite getZ_splice_out by lia. rewrite Hg.
    destruct (Z.leb_spec (cursor e + len s) k); [lia|]. simpl.
    destruct (Z.ltb_spec k (cursor e + len s)); [|lia]. by rewrite orb_true_r.
  - replace (cursor e) with (cursor e + len s + - len s) at 3 by lia.
    replace (buf_len e) with (buf_len e + len s + - len s) at 2 by lia.
    apply sub_shift; [lia..|]. intros k Hk. rewrite getZ_splice_out by lia. rewrite Hg.
    destruct (Z.leb_spec (cursor e + len s) k); [|lia].
    destruct (Z.ltb_spec k (cursor e + len s + Z.of_nat (Z.to_nat (buf_len e - cursor e))));
      [done|lia].
Qed.

(** At the end of the text nothing is moved. *)
Lemma append_spec e s :
  ed_wf e -> buf_len e + len s <= 4096 -> cursor e = buf_len e ->
  len (splice (buffer e) (cursor e) s) = 4096 /\
  sub (splice (buffer e) (cursor e) s) 0 (cursor e + len s) = sub (buffer e) 0 (cursor e) ++ s.
Proof.
  intros He Hl Hc. pose proof (wf_buffer e He) as Hb. pose proof (wf_cursor e He).
  pose proof (len_nonneg s). split; [rewrite len_splice; lia|].
  rewrite <-(sub_app _ 0 (cursor e)) by lia. rewrite sub_splice by lia. f_equal.
  apply sub_ext; [lia | rewrite len_splice; lia | lia |].
  intros k Hk. by rewrite getZ_splice_out by lia.
Qed.

Lemma sub_nil {A} (l : list A) i j : j <= i -> sub l i j = [].
Proof. intros. unfold sub. by replace (Z.to_nat (j - i)) with 0%nat by lia. Qed.

Lemma insert_str_refines e s :
  ed_wf e -> s <> [] -> refines e (insert_str e s) (doc_insert 4096 s).
Proof.
  intros He Hs. pose proof (wf_cursor e He). pose proof (len_nonneg s).
  assert (1 <= len s) by (destruct s; [done|]; rewrite len_cons; pose proof (len_nonneg s); lia).
  assert (Hd : doc_insert 4096 s (doc_of e) =
    if buf_len e + len s <=? 4096 then (sub (buffer e) 0 (cursor e) ++ s,
      sub (buffer e) (cursor e) (buf_len e)) else doc_of e).
  { unfold doc_insert. by rewrite len_doc_text. }
  unfold insert_str, MAX_EDITOR_BUF.
  destruct (Z.leb_spec (buf_len e + len s) 4096) as [Hl|]; [|by apply refines_same].
  destruct (Z.eqb_spec (cursor e) (buf_len e)) as [Hc|].
  - destruct (append_spec e s He Hl Hc) as [E1 E2].
    rewrite (proj2 (blit_Ok _ _ _ _)) by (split_and!; [lia| |done]; rewrite (wf_buffer e He); lia).
    cbn [mbind outcome_bind mret outcome_ret]. eexists. split; [reflexivity|]. rewrite Hd.
    destruct He. split; [constructor; simpl; (done || lia)|].
    unfold doc_of. simpl. rewrite E2. f_equal. rewrite Hc. by rewrite !sub_nil by lia.
  - destruct (open_gap_spec e s He Hl) as (b & b' & -> & Hb & Eb & Hb' & E1 & E2); [done|].
    cbn [mbind outcome_bind].
    rewrite (proj2 (blit_Ok _ _ b' _)) by (split_and!; [lia|lia|done]).
    cbn [mbind outcome_bind mret outcome_ret]. eexists. split; [reflexivity|]. rewrite Hd.
    destruct He. split; [constructor; simpl; (done || lia)|].
    unfold doc_of. simpl. by rewrite E1, E2.
Qed.

Lemma insert_char_refines e c :
  ed_wf e -> refines e (insert_char e c) (doc_insert 4095 [c]).
Proof.
  intros He. pose proof (wf_cursor e He).
  assert (Hd : doc_insert 4095 [c] (doc_of e) =
    if buf_len e <? 4095 then doc_insert 4096 [c] (doc_of e) else doc_of e).
  { unfold doc_insert. rewrite len_doc_text by done. change (len [c]) with 1.
    destruct (Z.ltb_spec (buf_len e) 4095), (Z.leb_spec (buf_len e + 1) 4095),
      (Z.leb_spec (buf_len e + 1) 4096); (done || lia). }
  unfold insert_char, MAX_EDITOR_BUF. change (4096 - 1) with 4095.
  destruct (Z.ltb_spec (buf_len e) 4095) as [Hl|]; [|by apply refines_same].
  destruct (insert_str_refines e [c] He ltac:(done)) as (e' & E & Hw & Hdoc).
  exists e'. rewrite Hd. split; [|done]. rewrite <-E. unfold insert_str, MAX_EDITOR_BUF.
  change (len [c]) with 1. destruct (Z.leb_spec (buf_len e + 1) 4096); [|lia].
  pose proof (wf_buffer e He) as Hb.
  case_match.
  - rewrite upd_in_range, setZ_splice by lia. unfold blit. rewrite decide_True; [done|].
    change (len [c]) with 1. lia.
  - destruct (shift_right_spec (Z.to_nat (buf_len e - cursor e)) (cursor e) 1 (buffer e))
      as (b & -> & Hlen & _); [lia..|]. cbn [mbind outcome_bind].
    rewrite upd_in_range, setZ_splice by lia. unfold blit. rewrite decide_True; [done|].
    change (len [c]) with 1. lia.
Qed.

(** ** Lines *)

Lemma col_bound e : ed_wf e -> 0 <= doc_col (doc_of e) <= cursor e.
Proof.
  intros He. unfold doc_col. pose proof (count_while_bound not_newline (rev (fst (doc_of e)))) as H.
  assert (E : len (rev (fst (doc_of e))) = cursor e).
  { unfold len. rewrite length_rev. apply (len_left e He). }
  lia.
Qed.

Lemma ahead_bound e : ed_wf e -> 0 <= doc_ahead (doc_of e) <= buf_len e - cursor e.
Proof.
  intros He. pose proof (count_while_bound not_newline (snd (doc_of e))).
  rewrite len_right in * by done. done.
Qed.

Lemma line_start_spec e :
  ed_wf e -> get_current_line_start_and_col e =
    Ok (cursor e - doc_col (doc_of e), doc_col (doc_of e)).
Proof.
  intros He. pose proof (wf_cursor e He). pose proof (wf_len e He). pose proof (wf_buffer e He).
  unfold get_current_line_start_and_col. rewrite scan_back_spec by lia.
  rewrite Z2Nat.id by lia. cbn [mbind outcome_bind mret outcome_ret].
  unfold doc_col, doc_of. simpl. do 2 f_equal. lia.
Qed.

Lemma line_end_spec e i :
  ed_wf e -> 0 <= i <= buf_len e ->
  line_end_from e i = Ok (i + count_while not_newline (sub (buffer e) i (buf_len e))).
Proof.
  intros He Hi. pose proof (wf_len e He). pose proof (wf_buffer e He).
  unfold line_end_from. rewrite scan_fwd_spec by lia. do 4 f_equal. lia.
Qed.

Lemma count_while_app {A} (p : A -> bool) l k :
  Forall (fun x => p x = true) l -> count_while p (l ++ k) = len l + count_while p k.
Proof. induction 1 as [|x l Hx _ IH]; simpl; [done|]. rewrite Hx, len_cons, IH. lia. Qed.

Lemma count_while_take {A} (p : A -> bool) l :
  Forall (fun x => p x = true) (take (Z.to_nat (count_while p l)) l).
Proof.
  induction l as [|x l IH]; simpl; [constructor|].
  destruct (p x) eqn:Hp; [|constructor].
  pose proof (count_while_bound p l).
  replace (Z.to_nat (1 + count_while p l)) with (S (Z.to_nat (count_while p l))) by lia.
  by constructor.
Qed.

(** No newline between the start of the line and the cursor. *)
Lemma line_prefix e :
  ed_wf e ->
  Forall (fun b => not_newline b = true)
    (sub (buffer e) (cursor e - doc_col (doc_of e)) (cursor e)).
Proof.
  intros He. pose proof (col_bound e He). pose proof (wf_len e He). pose proof (wf_buffer e He).
  pose proof (wf_cursor e He). pose proof (len_left e He) as Hl.
  set (c := doc_col (doc_of e)) in *.
  assert (E : sub (buffer e) (cursor e - c) (cursor e) =
    rev (take (Z.to_nat c) (rev (fst (doc_of e))))).
  { rewrite firstn_rev, rev_involutive.
    replace (length (fst (doc_of e)) - Z.to_nat c)%nat with (Z.to_nat (cursor e - c))
      by (unfold len in Hl; lia).
    simpl fst. rewrite drop_sub by lia. by rewrite Z.add_0_l. }
  rewrite E. apply Forall_rev, count_while_take.
Qed.

Lemma line_end_of_line e :
  ed_wf e -> line_end_from e (cursor e - doc_col (doc_of e)) =
    Ok (cursor e + doc_ahead (doc_of e)).
Proof.
  intros He. pose proof (col_bound e He). pose proof (wf_cursor e He).
  pose proof (wf_len e He). pose proof (wf_buffer e He).
  rewrite line_end_spec by (done || lia).
  rewrite <-(sub_app _ _ (cursor e)) by lia.
  rewrite count_while_app by (by apply line_prefix). rewrite len_sub by lia.
  unfold doc_ahead. simpl. f_equal. lia.
Qed.

Lemma kill_forward_refines e :
  ed_wf e -> refines e (kill_line_forward e) doc_kill_forward.
Proof.
  intros He. pose proof (wf_cursor e He). pose proof (ahead_bound e He) as Ha.
  unfold kill_line_forward.
  assert (Hd : doc_kill_forward (doc_of e) = (sub (buffer e) 0 (cursor e),
    sub (buffer e) (cursor e + (if doc_ahead (doc_of e) =? 0 then 1 else doc_ahead (doc_of e)))
      (buf_len e))).
  { unfold doc_kill_forward, doc_delete. simpl fst. simpl snd. f_equal.
    apply drop_sub; [lia|]. case_match; lia. }
  destruct (Z.leb_spec (buf_len e) (cursor e)).
  { apply refines_same; [done|]. rewrite Hd.
    rewrite (sub_nil _ (cursor e + _)) by (case_match; lia). unfold doc_of.
    by rewrite (sub_nil _ (cursor e)) by lia. }
  rewrite line_end_spec by (done || lia). cbn [mbind outcome_bind]. cbv zeta.
  change (count_while not_newline (sub (buffer e) (cursor e) (buf_len e)))
    with (doc_ahead (doc_of e)).
  set (a := doc_ahead (doc_of e)) in *.
  replace (if (cursor e + a =? cursor e) && (cursor e + a <? buf_len e)
    then cursor e + a + 1 else cursor e + a) with (cursor e + (if a =? 0 then 1 else a)).
  2: { destruct (Z.eqb_spec (cursor e + a) (cursor e)), (Z.ltb_spec (cursor e + a) (buf_len e)),
         (Z.eqb_spec a 0); simpl; lia. }
  assert (1 <= (if a =? 0 then 1 else a) <= buf_len e - cursor e)
    by (destruct (Z.eqb_spec a 0); lia).
  set (n := if a =? 0 then 1 else a) in *.
  replace (cursor e + n - cursor e) with n by lia.
  destruct (Z.ltb_spec 0 n); [|lia].
  apply (refines_close_gap e (cursor e) n true); [done|lia..|done].
Qed.

Lemma kill_backward_refines e :
  ed_wf e -> refines e (kill_line_backward e) doc_kill_backward.
Proof.
  intros He. pose proof (wf_cursor e He). pose proof (col_bound e He).
  unfold kill_line_backward. rewrite line_start_spec by done. cbn [mbind outcome_bind]. cbv zeta.
  set (c := doc_col (doc_of e)) in *.
  replace (cursor e - (cursor e - c)) with c by lia.
  assert (Hd : doc_kill_backward (doc_of e) =
    (sub (buffer e) 0 (cursor e - c), sub (buffer e) (cursor e) (buf_len e))).
  { unfold doc_kill_backward. rewrite len_left by done. fold c. simpl.
    by rewrite sub_sub by lia. }
  destruct (Z.ltb_spec 0 c).
  - apply (refines_close_gap e (cursor e - c) c true); [done|lia..|].
    rewrite Hd. do 2 f_equal. lia.
  - apply refines_same; [done|]. rewrite Hd. unfold doc_of. by replace (cursor e - c) with (cursor e) by lia.
Qed.

Lemma cut_line_refines e : ed_wf e -> refines e (cut_line e) doc_cut_line.
Proof.
  intros He. pose proof (wf_cursor e He). pose proof (col_bound e He).
  pose proof (ahead_bound e He). unfold cut_line.
  rewrite line_start_spec by done. cbn [mbind outcome_bind].
  rewrite line_end_of_line by done. cbn [mbind outcome_bind]. cbv zeta.
  set (c := doc_col (doc_of e)) in *. set (a := doc_ahead (doc_of e)) in *.
  assert (Hd : doc_cut_line (doc_of e) =
    (sub (buffer e) 0 (cursor e - c), sub (buffer e) (cursor e + (a + 1)) (buf_len e))).
  { unfold doc_cut_line, doc_delete, doc_kill_backward. rewrite len_left by done. fold c a.
    cbn [fst snd doc_of]. rewrite sub_sub, drop_sub by lia. done. }
  set (n := if cursor e + a <? buf_len e then cursor e + a + 1 else cursor e + a).
  assert (Hn : cursor e + a <= n <= buf_len e /\
    sub (buffer e) n (buf_len e) = sub (buffer e) (cursor e + (a + 1)) (buf_len e)).
  { unfold n. destruct (Z.ltb_spec (cursor e + a) (buf_len e)).
    - split; [lia|]. f_equal. lia.
    - split; [lia|]. by rewrite !sub_nil by lia. }
  destruct Hn as [Hn Hs].
  destruct (Z.ltb_spec 0 (n - (cursor e - c))).
  - apply (refines_close_gap e (cursor e - c) (n - (cursor e - c)) false); [done|lia..|].
    rewrite Hd, <-Hs. do 2 f_equal. lia.
  - apply refines_same; [done|]. rewrite Hd, <-Hs. unfold doc_of.
    by replace (cursor e - c) with (cursor e) by lia; replace n with (cursor e) by lia.
Qed.

(** C9: the editing operations refine a text with a cursor: on every
    well-formed editor state, inserting a byte or a non-empty string, deleting
    backwards or forwards, killing to either end of the line and cutting the
    line neither panic nor break the invariant, and do to the text before and
    after the cursor exactly the list operation of that name, although the
    code shifts bytes in place in a fixed buffer. An insertion that does not
    fit (4095 bytes for a character, 4096 for a string) changes nothing. *)
Theorem editing_refines e c s :
  ed_wf e -> s <> [] ->
  refines e (insert_char e c) (doc_insert 4095 [c]) /\
  refines e (insert_str e s) (doc_insert 4096 s) /\
  refines e (delete_char_backspace e) doc_backspace /\
  refines e (delete_char_under_cursor e) (doc_delete 1) /\
  refines e (kill_line_forward e) doc_kill_forward /\
  refines e (kill_line_backward e) doc_kill_backward /\
  refines e (cut_line e) doc_cut_line.
Proof.
  intros He Hs. split_and!; [by apply insert_char_refines | by apply insert_str_refines
    | by apply backspace_refines | by apply delete_refines | by apply kill_forward_refines
    | by apply kill_backward_refines | by apply cut_line_refines].
Qed.

(** * Moving the cursor *)

Lemma goto_wf e c : ed_wf e -> 0 <= c <= buf_len e -> ed_wf (with_cursor e c).
Proof. intros [] Hc. constructor; simpl; done. Qed.

Lemma goto_doc e c :
  ed_wf e -> 0 <= c <= buf_len e -> doc_of (with_cursor e c) = doc_goto c (doc_of e).
Proof.
  intros He Hc. unfold doc_goto. rewrite len_doc_text, doc_of_text by done.
  pose proof (wf_len e He). rewrite !sub_sub by lia. by rewrite !Z.add_0_l.
Qed.

Lemma goto_refines e c f (r : bool) :
  ed_wf e -> 0 <= c <= buf_len e -> f (doc_of e) = doc_goto c (doc_of e) ->
  refines e (mret (if r then with_redraw (with_cursor e c) true else with_cursor e c)) f.
Proof.
  intros He Hc Hf. eexists. split; [reflexivity|]. rewrite Hf, <-goto_doc by done.
  pose proof (goto_wf e c He Hc) as [].
  destruct r; (split; [constructor; done | done]).
Qed.

Lemma goto_here e : ed_wf e -> doc_goto (cursor e) (doc_of e) = doc_of e.
Proof.
  intros He. rewrite <-goto_doc by (done || apply He). done.
Qed.

(** The target of each move, on the document. *)
Definition home_pos (d : doc) : Z := len (fst d) - doc_col d.
Definition end_pos (d : doc) : Z := len (fst d) + doc_ahead d.
Definition word_left_pos (d : doc) : Z :=
  let l := rev (fst d) in
  let blanks := count_while is_blank l in
  len (fst d) - blanks - count_while (fun b => negb (is_blank b)) (drop (Z.to_nat blanks) l).
Definition word_right_pos (d : doc) : Z :=
  let word := count_while (fun b => negb (is_blank b)) (snd d) in
  len (fst d) + word + count_while is_blank (drop (Z.to_nat word) (snd d)).
Definition up_pos (d : doc) : Z :=
  let start := len (fst d) - doc_col d in
  if 0 <? start then
    let above := count_while not_newline (rev (sub (fst d) 0 (start - 1))) in
    start - 1 - above + Z.min (doc_col d) above
  else len (fst d).
Definition down_pos (d : doc) : Z :=
  if doc_ahead d <? len (snd d) then
    len (fst d) + doc_ahead d + 1
      + Z.min (doc_col d)
          (count_while not_newline (drop (Z.to_nat (doc_ahead d + 1)) (snd d)))
  else len (fst d).

Definition goes (pos : doc -> Z) (d : doc) : doc := doc_goto (pos d) d.

Lemma home_refines e : ed_wf e -> refines e (cursor_home e) (goes home_pos).
Proof.
  intros He. pose proof (wf_cursor e He). pose proof (col_bound e He).
  unfold cursor_home. rewrite line_start_spec by done. cbn [mbind outcome_bind].
  apply (goto_refines e _ _ false); [done | lia |].
  unfold goes, home_pos. by rewrite len_left.
Qed.

Lemma end_refines e : ed_wf e -> refines e (cursor_end e) (goes end_pos).
Proof.
  intros He. pose proof (wf_cursor e He). pose proof (ahead_bound e He).
  unfold cursor_end. rewrite line_start_spec by done. cbn [mbind outcome_bind].
  rewrite line_end_of_line by done. cbn [mbind outcome_bind].
  apply (goto_refines e _ _ false); [done | lia |].
  unfold goes, end_pos. by rewrite len_left.
Qed.

Lemma cursor_right_refines e :
  ed_wf e -> refines e (mret (cursor_right e)) (goes (fun d => Z.min (len (fst d) + 1) (len (doc_text d)))).
Proof.
  intros He. pose proof (wf_cursor e He). unfold cursor_right, goes.
  destruct (Z.ltb_spec (cursor e) (buf_len e)).
  - apply (goto_refines e _ _ false); [done | lia |]. rewrite len_left, len_doc_text by done.
    f_equal. lia.
  - apply refines_same; [done|]. rewrite len_left, len_doc_text by done.
    rewrite Z.min_r by lia. replace (buf_len e) with (cursor e) by lia. by apply goto_here.
Qed.

Lemma cursor_left_refines e :
  ed_wf e -> refines e (mret (cursor_left e)) (goes (fun d => Z.max 0 (len (fst d) - 1))).
Proof.
  intros He. pose proof (wf_cursor e He). unfold cursor_left, goes.
  destruct (Z.ltb_spec 0 (cursor e)).
  - apply (goto_refines e _ _ false); [done | lia |]. rewrite len_left by done. f_equal. lia.
  - apply refines_same; [done|]. rewrite len_left by done.
    rewrite Z.max_l by lia. replace 0 with (cursor e) by lia. by apply goto_here.
Qed.

(** The reversed text before a position, as a tail of the reversed text. *)
Lemma rev_sub_drop {A} (l : list A) c k :
  0 <= k <= c -> c <= len l -> rev (sub l 0 (c - k)) = drop (Z.to_nat k) (rev (sub l 0 c)).
Proof.
  intros Hk Hc. rewrite skipn_rev. f_equal. unfold sub. rewrite !Z.sub_0_r.
  change (Z.to_nat 0) with 0%nat. rewrite drop_0, length_take, take_take. f_equal. unfold len in Hc. lia.
Qed.

Lemma word_left_refines e : ed_wf e -> refines e (move_word_left e) (goes word_left_pos).
Proof.
  intros He. pose proof (wf_cursor e He). pose proof (wf_len e He). pose proof (wf_buffer e He).
  pose proof (len_left e He) as Hl. unfold move_word_left.
  destruct (Z.eqb_spec (cursor e) 0) as [Hz|].
  { apply refines_same; [done|]. unfold goes, word_left_pos. rewrite Hl.
    assert (E : fst (doc_of e) = []) by (simpl; rewrite Hz; by apply sub_nil).
    rewrite E. simpl. replace (cursor e - 0 - 0) with (cursor e) by lia.
    by apply goto_here. }
  rewrite scan_back_spec by lia. rewrite Z2Nat.id by lia. cbn [mbind outcome_bind].
  set (k := count_while is_blank _).
  assert (Hk : 0 <= k <= cursor e).
  { pose proof (count_while_bound is_blank (rev (sub (buffer e) 0 (cursor e)))) as B.
    fold k in B. unfold len in B. rewrite length_rev in B. fold (len (sub (buffer e) 0 (cursor e))) in B.
    rewrite len_sub in B by lia. lia. }
  rewrite scan_back_spec by lia. rewrite Z2Nat.id by lia. cbn [mbind outcome_bind].
  rewrite (rev_sub_drop (buffer e) (cursor e) k) by lia.
  set (w := count_while _ _).
  assert (Hw : 0 <= w <= cursor e - k).
  { pose proof (count_while_bound (fun b => negb (is_blank b))
      (drop (Z.to_nat k) (rev (sub (buffer e) 0 (cursor e))))) as B.
    fold w in B. unfold len in B. rewrite length_drop, length_rev in B.
    pose proof (len_sub (buffer e) 0 (cursor e) ltac:(lia) ltac:(lia)) as L. unfold len in L. lia. }
  apply (goto_refines e _ _ true); [done | lia |].
  unfold goes, word_left_pos. by rewrite Hl.
Qed.

Lemma word_right_refines e : ed_wf e -> refines e (move_word_right e) (goes word_right_pos).
Proof.
  intros He. pose proof (wf_cursor e He). pose proof (wf_len e He). pose proof (wf_buffer e He).
  pose proof (len_left e He) as Hl. pose proof (len_right e He) as Hr. unfold move_word_right.
  destruct (Z.leb_spec (buf_len e) (cursor e)).
  { apply refines_same; [done|]. unfold goes, word_right_pos. rewrite Hl.
    assert (E : snd (doc_of e) = []) by (simpl; apply sub_nil; lia).
    rewrite E. simpl. rewrite !Z.add_0_r. by apply goto_here. }
  rewrite scan_fwd_spec by lia. cbn [mbind outcome_bind].
  replace (cursor e + Z.of_nat (Z.to_nat (buf_len e - cursor e))) with (buf_len e) by lia.
  set (w := count_while (fun b => negb (is_blank b)) (sub (buffer e) (cursor e) (buf_len e))).
  assert (Hw : 0 <= w <= buf_len e - cursor e).
  { pose proof (count_while_bound (fun b => negb (is_blank b)) (snd (doc_of e))) as B.
    rewrite Hr in B. exact B. }
  rewrite scan_fwd_spec by lia. cbn [mbind outcome_bind].
  replace (cursor e + w + Z.of_nat (Z.to_nat (buf_len e - (cursor e + w)))) with (buf_len e) by lia.
  pose proof (count_while_bound is_blank (sub (buffer e) (cursor e + w) (buf_len e))) as B.
  rewrite len_sub in B by lia.
  apply (goto_refines e _ _ true); [done | lia |].
  unfold goes, word_right_pos. rewrite Hl. simpl snd. fold w. by rewrite drop_sub by lia.
Qed.

Lemma refines_ext e r f g : f (doc_of e) = g (doc_of e) -> refines e r g -> refines e r f.
Proof. unfold refines. by intros ->. Qed.

Lemma up_refines e : ed_wf e -> refines e (move_cursor_up e) (goes up_pos).
Proof.
  intros He. pose proof (wf_cursor e He). pose proof (wf_len e He). pose proof (wf_buffer e He).
  pose proof (len_left e He) as Hl. pose proof (col_bound e He).
  unfold move_cursor_up. rewrite line_start_spec by done. cbn [mbind outcome_bind]. cbv zeta.
  apply (refines_ext _ _ _ (doc_goto (up_pos (doc_of e)))); [done|].
  unfold up_pos. rewrite Hl. cbv zeta. set (c := doc_col (doc_of e)) in *.
  destruct (Z.ltb_spec 0 (cursor e - c)).
  - rewrite scan_back_spec by lia. rewrite Z2Nat.id by lia. cbn [mbind outcome_bind].
    assert (E : sub (fst (doc_of e)) 0 (cursor e - c - 1) = sub (buffer e) 0 (cursor e - c - 1)).
    { simpl. rewrite sub_sub by lia. done. }
    rewrite <-E. set (k := count_while not_newline _).
    assert (0 <= k <= cursor e - c - 1).
    { pose proof (count_while_bound not_newline (rev (sub (fst (doc_of e)) 0 (cursor e - c - 1)))) as B.
      fold k in B. unfold len in B. rewrite length_rev, E in B.
      pose proof (len_sub (buffer e) 0 (cursor e - c - 1) ltac:(lia) ltac:(lia)) as L.
      unfold len in L. lia. }
    apply (goto_refines e _ _ true); [done | lia |]. f_equal. lia.
  - apply refines_same; [done|]. by apply goto_here.
Qed.

Lemma down_refines e : ed_wf e -> refines e (move_cursor_down e) (goes down_pos).
Proof.
  intros He. pose proof (wf_cursor e He). pose proof (wf_len e He). pose proof (wf_buffer e He).
  pose proof (len_left e He) as Hl. pose proof (len_right e He) as Hr.
  pose proof (col_bound e He). pose proof (ahead_bound e He).
  unfold move_cursor_down. rewrite line_start_spec by done. cbn [mbind outcome_bind].
  rewrite line_end_spec by (done || lia). cbn [mbind outcome_bind]. cbv zeta.
  apply (refines_ext _ _ _ (doc_goto (down_pos (doc_of e)))); [done|].
  unfold down_pos. rewrite Hl, Hr.
  change (count_while not_newline (sub (buffer e) (cursor e) (buf_len e)))
    with (doc_ahead (doc_of e)).
  set (a := doc_ahead (doc_of e)) in *. set (c := doc_col (doc_of e)) in *.
  destruct (Z.ltb_spec (cursor e + a) (buf_len e)), (Z.ltb_spec a (buf_len e - cursor e)); try lia.
  - rewrite line_end_spec by (done || lia). cbn [mbind outcome_bind].
    assert (E : drop (Z.to_nat (a + 1)) (snd (doc_of e)) =
      sub (buffer e) (cursor e + a + 1) (buf_len e)).
    { simpl snd. rewrite drop_sub by lia. f_equal. lia. }
    rewrite <-E. set (k := count_while not_newline _).
    assert (0 <= k <= buf_len e - (cursor e + a + 1)).
    { pose proof (count_while_bound not_newline (drop (Z.to_nat (a + 1)) (snd (doc_of e)))) as B.
      fold k in B. rewrite E, len_sub in B by lia. lia. }
    apply (goto_refines e _ _ true); [done | lia |]. f_equal. lia.
  - apply refines_same; [done|]. by apply goto_here.
Qed.

(** Every cursor movement keeps the text and lands where it should, on every
    well-formed state and without panicking: left and right by one byte within
    the text, home and end at the ends of the line, word-wise movement at the
    boundaries of words, and up and down to the same column of the line above
    or below, or to that line's end when it is shorter. *)
Theorem movement_refines e :
  ed_wf e ->
  refines e (mret (cursor_left e)) (goes (fun d => Z.max 0 (len (fst d) - 1))) /\
  refines e (mret (cursor_right e)) (goes (fun d => Z.min (len (fst d) + 1) (len (doc_text d)))) /\
  refines e (cursor_home e) (goes home_pos) /\
  refines e (cursor_end e) (goes end_pos) /\
  refines e (move_word_left e) (goes word_left_pos) /\
  refines e (move_word_right e) (goes word_right_pos) /\
  refines e (move_cursor_up e) (goes up_pos) /\
  refines e (move_cursor_down e) (goes down_pos) /\
  (forall pos, 0 <= pos <= len (doc_text (doc_of e)) ->
     doc_text (doc_goto pos (doc_of e)) = doc_text (doc_of e)).
Proof.
  intros He. split_and!; [by apply cursor_left_refines | by apply cursor_right_refines
    | by apply home_refines | by apply end_refines | by apply word_left_refines
    | by apply word_right_refines | by apply up_refines | by apply down_refines |].
  intros pos Hp. unfold doc_goto, doc_text at 1. simpl fst. simpl snd.
  rewrite sub_app by lia. by apply sub_all.
Qed.

(** * Witness state: [ab\nc|de], the bar being the cursor *)

Definition sample : PulseEditor :=
  with_text editor_new (splice (replicate 4096 0) 0 [97; 98; 10; 99; 100; 101]) 6 4.

Lemma editor_new_wf : ed_wf editor_new.
Proof. constructor; simpl; rewrite ?len_replicate; (done || lia). Qed.

Lemma sample_wf : ed_wf sample.
Proof.
  destruct editor_new_wf. constructor; try done; simpl; lia.
Qed.

Theorem editing_refines_witness :
  exists e', cut_line sample = Ok e' /\ doc_of e' = ([97; 98; 10], []).
Proof.
  destruct (editing_refines sample 33 [34] sample_wf ltac:(discriminate))
    as (_ & _ & _ & _ & _ & _ & e' & E & _ & Hd).
  exists e'. split; [exact E|]. rewrite Hd. vm_compute. reflexivity.
Defined.

Theorem movement_refines_witness :
  exists e', move_cursor_up sample = Ok e' /\ doc_of e' = ([97], [98; 10; 99; 100; 101]).
Proof.
  destruct (movement_refines sample sample_wf) as (_ & _ & _ & _ & _ & _ & (e' & E & _ & Hd) & _).
  exists e'. split; [exact E|]. rewrite Hd. vm_compute. reflexivity.
Defined.
