(* ===== verification/EditorSession.v ===== *)
(** The keyboard state machine of the editor: no input makes it panic, the
    cursor stays on the screen, and the keys that open, save and quit do what
    they say to the file store, whichever store implements the interface. *)

From S2P Require Import Prelude RustStd Editor EditorProps.
Local Open Scope Z_scope.

(** * Updates that do not touch the text *)

Lemma with_esc_wf e s : ed_wf e -> esc_wf s -> ed_wf (with_esc e s).
Proof. intros [] ?. by constructor. Qed.
Lemma with_running_wf e b : ed_wf e -> ed_wf (with_running e b).
Proof. intros []. by constructor. Qed.
Lemma with_redraw_wf e b : ed_wf e -> ed_wf (with_redraw e b).
Proof. intros []. by constructor. Qed.
Lemma with_top_wf e t : ed_wf e -> 0 <= t -> ed_wf (with_top e t).
Proof. intros [] ?. by constructor. Qed.

Lemma set_status_wf e msg : ed_wf e -> ed_wf (set_status e msg).
Proof.
  intros []. pose proof (len_nonneg (bytes msg)). constructor; try done. simpl.
  destruct wf_status as [Hs _]. split; [|lia].
  rewrite len_splice; rewrite ?len_sub; lia.
Qed.

Lemma set_filename_wf e name : ed_wf e -> ed_wf (set_filename e name).
Proof.
  intros []. pose proof (len_nonneg name). constructor; try done. simpl.
  destruct wf_filename as [Hs _]. split; [|lia].
  rewrite len_splice; rewrite ?len_sub; lia.
Qed.

Lemma clear_wf e : ed_wf e -> ed_wf (with_text e (buffer e) 0 0).
Proof. intros []. constructor; simpl; (done || lia). Qed.

#[export] Hint Resolve with_esc_wf with_running_wf with_redraw_wf with_top_wf set_status_wf
  set_filename_wf clear_wf : editor.

(** * Scrolling *)

Lemma row_col_row l row col : row <= fst (row_col l row col).
Proof.
  revert row col. induction l as [|b l IH]; intros row col; simpl; [lia|].
  case_match; [|case_match]; (etransitivity; [|apply IH]); lia.
Qed.

Lemma row_pos e : 1 <= fst (get_row_col e).
Proof. apply row_col_row. Qed.

Ltac scroll_case :=
  cbn -[Z.eqb]; split_and!; try done; try lia;
  intros Hf; apply negb_false_iff, Z.eqb_eq in Hf; done.

(** [adjust_scroll] brings the cursor's row into the 21-line viewport and keeps
    everything else. *)
Lemma adjust_scroll_spec e :
  0 <= top_line e ->
  exists t, snd (adjust_scroll e) = with_top e t /\ 1 <= t /\
    t <= fst (get_row_col e) < t + 21 /\ (fst (adjust_scroll e) = false -> t = top_line e).
Proof.
  intros Ht. pose proof (row_pos e) as Hr. unfold adjust_scroll.
  destruct (get_row_col e) as [row col] eqn:E. simpl in Hr.
  destruct (Z.eqb_spec (top_line e) 0) as [H0|H0]; cbn [with_top top_line].
  - destruct (Z.ltb_spec row 1); [lia|]. destruct (Z.leb_spec (1 + 21) row);
      [exists (row - 21 + 1) | exists 1]; scroll_case.
  - destruct (Z.ltb_spec row (top_line e)); [exists row; scroll_case|].
    destruct (Z.leb_spec (top_line e + 21) row); [exists (row - 21 + 1); scroll_case|].
    exists (top_line e). simpl. split_and!; try done; try lia. by destruct e.
Qed.

Lemma adjust_scroll_wf e : ed_wf e -> ed_wf (snd (adjust_scroll e)).
Proof.
  intros He. destruct (adjust_scroll_spec e (wf_top e He)) as (t & -> & Ht & _).
  apply with_top_wf; [done | lia].
Qed.

Lemma redraw_wf e : ed_wf e -> ed_wf (redraw e).
Proof. intros. by apply with_redraw_wf, adjust_scroll_wf. Qed.

Lemma redraw_current_line_wf e : ed_wf e -> ed_wf (redraw_current_line e).
Proof.
  intros He. unfold redraw_current_line. pose proof (adjust_scroll_wf e He) as Hw.
  destruct (adjust_scroll e) as [b e1]. simpl in Hw. case_match; [by apply redraw_wf|].
  destruct (get_row_col e1). case_match; [by apply with_redraw_wf | by apply redraw_wf].
Qed.

Lemma update_cursor_only_wf e : ed_wf e -> ed_wf (update_cursor_only e).
Proof.
  intros He. unfold update_cursor_only. pose proof (adjust_scroll_wf e He) as Hw.
  destruct (adjust_scroll e) as [b e1]. simpl in Hw. case_match; [by apply redraw_wf | done].
Qed.

(** The cursor is drawn on one of the 21 text rows of the screen. *)
Definition cursor_on_screen (e : PulseEditor) : Prop := 2 <= cursor_screen_row e <= 22.

Lemma top_on_screen e t :
  t <= fst (get_row_col e) < t + 21 -> cursor_on_screen (with_top e t).
Proof. unfold cursor_on_screen, cursor_screen_row. simpl. unfold get_row_col. simpl. lia. Qed.

Lemma redraw_on_screen e : 0 <= top_line e -> cursor_on_screen (redraw e).
Proof.
  intros Ht. unfold redraw. destruct (adjust_scroll_spec e Ht) as (t & -> & _ & H & _).
  by apply top_on_screen.
Qed.

(** The cursor is always drawn inside the text area: whatever the text, the
    cursor and the previous scroll position, each of the three redraws ends
    with the cursor on screen rows 2 to 22 (in particular the unsigned
    subtraction [row - top_line] that computes the row never underflows), and
    none changes the text or the cursor. *)
Theorem redraws_show_cursor e :
  ed_wf e ->
  (cursor_on_screen (redraw e) /\ doc_of (redraw e) = doc_of e) /\
  (cursor_on_screen (redraw_current_line e) /\ doc_of (redraw_current_line e) = doc_of e) /\
  (cursor_on_screen (update_cursor_only e) /\ doc_of (update_cursor_only e) = doc_of e).
Proof.
  intros He. pose proof (wf_top e He) as Ht.
  assert (Hd : forall e', doc_of (redraw e') = doc_of e' \/ top_line e' < 0).
  { intros e'. destruct (decide (0 <= top_line e')) as [Ht'|]; [left | right; lia].
    unfold redraw. by destruct (adjust_scroll_spec e' Ht') as (t & -> & _). }
  assert (Hr : doc_of (redraw e) = doc_of e) by (destruct (Hd e); [done | lia]).
  split; [split; [by apply redraw_on_screen | done]|].
  destruct (adjust_scroll_spec e Ht) as (t & Ea & Hp & Hb & Hf).
  assert (Hs : cursor_on_screen (with_top e t)) by by apply top_on_screen.
  unfold redraw_current_line, update_cursor_only. destruct (adjust_scroll e) as [b e1].
  simpl in Ea, Hf. subst e1.
  assert (Hrt : cursor_on_screen (redraw (with_top e t)) /\ doc_of (redraw (with_top e t)) = doc_of e).
  { split; [apply redraw_on_screen; simpl; lia|].
    destruct (Hd (with_top e t)) as [-> | H]; [done | simpl in H; lia]. }
  split; (destruct b; [done|]); [|done].
  destruct (get_row_col (with_top e t)) eqn:E. by case_match.
Qed.

Theorem redraws_show_cursor_witness :
  cursor_on_screen (update_cursor_only (with_top sample 40)).
Proof.
  apply (redraws_show_cursor (with_top sample 40)).
  apply with_top_wf; [exact sample_wf | lia].
Defined.

(** * Keys *)

Definition safe (r : eres PulseEditor) : Prop := exists e', r = Ok e' /\ ed_wf e'.

Lemma refines_safe e r f : refines e r f -> safe r.
Proof. intros (e' & -> & Hw & _). by exists e'. Qed.

Lemma safe_ret e : ed_wf e -> safe (mret e).
Proof. by exists e. Qed.

Lemma repeat_safe n f e :
  (forall e, ed_wf e -> safe (f e)) -> ed_wf e -> safe (repeat_op n f e).
Proof.
  intros Hf. revert e. induction n as [|n IH]; intros e He; simpl; [by apply safe_ret|].
  destruct (Hf e He) as (e1 & -> & H1). simpl. by apply IH.
Qed.

Section Session.
Context {D : Type} `{!FileStore D} (run : list Z -> bool).

Definition ses_wf (x : session (D:=D)) : Prop := ed_wf (ed x).
Definition ses_safe (r : eres (session (D:=D))) : Prop := exists x, r = Ok x /\ ses_wf x.

Lemma ses_ret x : ses_wf x -> ses_safe (mret x).
Proof. by exists x. Qed.

Lemma edit_safe x r g : safe r -> ses_safe (edit x r g).
Proof. intros (e & -> & He). simpl. by eexists. Qed.

Lemma fmap_safe (f : session (D:=D) -> session (D:=D)) r :
  (forall y, ses_wf y -> ses_wf (f y)) -> ses_safe r -> ses_safe (f <$> r).
Proof. intros Hf (x & -> & Hx). simpl. exists (f x). split; [done | by apply Hf]. Qed.

Lemma save_key_wf x : ses_wf x -> ses_wf (save_key x).
Proof.
  intros Hx. unfold save_key, save_file, ses_wf.
  destruct (file_write _ _ _) as [s ok]. simpl. by apply with_redraw_wf, set_status_wf.
Qed.

Lemma run_key_wf x : ses_wf x -> ses_wf (run_key run x).
Proof.
  intros Hx. unfold run_key, run_code, ses_wf. simpl. apply redraw_wf, with_redraw_wf.
  case_match; by apply set_status_wf.
Qed.

Lemma quit_key_wf x : ses_wf x -> ses_wf (quit_key x).
Proof. intros. by apply with_running_wf. Qed.

Lemma to_normal_wf x : ses_wf x -> ses_wf (on_ed x (with_esc (ed x) Normal)).
Proof. intros. by apply with_esc_wf. Qed.

Lemma ses_if (b : bool) (x y : eres (session (D:=D))) :
  ses_safe x -> ses_safe y -> ses_safe (if b then x else y).
Proof. by destruct b. Qed.

Lemma up_safe e : ed_wf e -> safe (move_cursor_up e).
Proof. intros. by eapply refines_safe, up_refines. Qed.
Lemma down_safe e : ed_wf e -> safe (move_cursor_down e).
Proof. intros. by eapply refines_safe, down_refines. Qed.
Lemma home_safe e : ed_wf e -> safe (cursor_home e).
Proof. intros. by eapply refines_safe, home_refines. Qed.
Lemma end_safe e : ed_wf e -> safe (cursor_end e).
Proof. intros. by eapply refines_safe, end_refines. Qed.
Lemma left_safe e : ed_wf e -> safe (mret (cursor_left e)).
Proof. intros. by eapply refines_safe, cursor_left_refines. Qed.
Lemma right_safe e : ed_wf e -> safe (mret (cursor_right e)).
Proof. intros. by eapply refines_safe, cursor_right_refines. Qed.
Lemma word_left_safe e : ed_wf e -> safe (move_word_left e).
Proof. intros. by eapply refines_safe, word_left_refines. Qed.
Lemma word_right_safe e : ed_wf e -> safe (move_word_right e).
Proof. intros. by eapply refines_safe, word_right_refines. Qed.
Lemma insert_safe e c : ed_wf e -> safe (insert_char e c).
Proof. intros. by eapply refines_safe, insert_char_refines. Qed.
Lemma tab_safe e : ed_wf e -> safe (insert_str e (bytes "    ")).
Proof. intros. by eapply refines_safe, insert_str_refines. Qed.
Lemma backspace_safe e : ed_wf e -> safe (delete_char_backspace e).
Proof. intros. by eapply refines_safe, backspace_refines. Qed.
Lemma delete_safe e : ed_wf e -> safe (delete_char_under_cursor e).
Proof. intros. by eapply refines_safe, delete_refines. Qed.
Lemma cut_safe e : ed_wf e -> safe (cut_line e).
Proof. intros. by eapply refines_safe, cut_line_refines. Qed.

Hint Resolve ses_ret edit_safe save_key_wf run_key_wf quit_key_wf to_normal_wf up_safe down_safe
  home_safe end_safe left_safe right_safe word_left_safe word_right_safe insert_safe tab_safe
  backspace_safe delete_safe cut_safe repeat_safe : editor.

(** Split a handler into its arms; each is a return, an edit, or either
    followed by the return to the normal state. *)
Ltac arms :=
  repeat match goal with
  | |- ses_safe (if _ then _ else _) => apply ses_if
  | |- ses_safe (_ <$> _) => apply fmap_safe; [by intros; apply to_normal_wf|]
  | |- safe (if _ then _ else _) => case_match
  | |- ses_safe (edit _ _ _) => apply edit_safe
  end; auto with editor.

Lemma key_normal_safe x b : ses_wf x -> ses_safe (key_normal run x b).
Proof.
  intros Hx. unfold key_normal. arms.
  - apply ses_ret, with_esc_wf; done.
  - unfold save_file. destruct (file_write _ _ _) as [s ok]. apply ses_ret.
    by apply with_running_wf, with_redraw_wf, set_status_wf.
Qed.

Lemma key_esc_safe x b : ses_wf x -> ses_safe (key_esc run x b).
Proof.
  intros Hx. unfold key_esc. cbv zeta. arms.
  - by apply ses_ret, with_esc_wf.
  - by apply ses_ret, with_esc_wf.
  - apply ses_ret, with_esc_wf; [|done]. by apply set_status_wf, clear_wf.
Qed.

Lemma key_ss3_safe x b : ses_wf x -> ses_safe (key_ss3 x b).
Proof. intros Hx. unfold key_ss3. cbv zeta. arms. Qed.

Lemma key_tilde_safe x p : ses_wf x -> ses_safe (key_tilde run x p).
Proof. intros Hx. unfold key_tilde. cbv zeta. arms. Qed.

Lemma key_csi_safe x params count b :
  ses_wf x -> esc_wf (Csi params count) -> ses_safe (key_csi run x params count b).
Proof.
  intros Hx [Hl Hc]. unfold key_csi.
  destruct (@idx_in_range Empty_set _ params 0 ltac:(lia)) as (p0 & -> & _).
  destruct (@idx_in_range Empty_set _ params 1 ltac:(lia)) as (p1 & -> & _).
  cbn [mbind outcome_bind]. cbv zeta. apply ses_if.
  { destruct (@idx_in_range Empty_set _ params count ltac:(lia)) as (p & -> & _).
    cbn [mbind outcome_bind]. rewrite upd_in_range by lia. cbn [mbind outcome_bind].
    apply ses_if; [|by apply ses_ret]. apply ses_ret, with_esc_wf; [done|].
    split; [by rewrite len_setZ | done]. }
  apply ses_if.
  { apply ses_ret. destruct (Z.ltb_spec count 3); [|done]. apply with_esc_wf; [done|].
    split; [done | lia]. }
  arms. by apply key_tilde_safe.
Qed.

Lemma handle_byte_safe x b : ses_wf x -> ses_safe (handle_byte run x b).
Proof.
  intros Hx. unfold handle_byte. pose proof (wf_esc _ Hx) as Hesc.
  destruct (esc_state (ed x)); [by apply key_normal_safe | by apply key_esc_safe
    | by apply key_ss3_safe | by apply key_csi_safe].
Qed.

Lemma refresh_wf x : ses_wf x -> ses_wf (refresh x).
Proof.
  intros Hx. unfold refresh. repeat case_match; try done;
    [by apply redraw_wf | by apply redraw_current_line_wf | by apply update_cursor_only_wf].
Qed.

Lemma drain_safe x burst : ses_wf x -> ses_safe (drain run x burst).
Proof.
  revert x. induction burst as [|b burst IH]; intros x Hx; simpl; [by apply ses_ret|].
  destruct (handle_byte_safe x b Hx) as (x1 & -> & H1). cbn [mbind outcome_bind].
  apply ses_if; [by apply IH | by apply ses_ret].
Qed.

Lemma run_session_safe x bursts : ses_wf x -> ses_safe (run_session run x bursts).
Proof.
  revert x. induction bursts as [|burst bursts IH]; intros x Hx; simpl; [by apply ses_ret|].
  apply ses_if; [|by apply ses_ret].
  destruct (drain_safe x burst Hx) as (x1 & -> & H1). cbn [mbind outcome_bind].
  by apply IH, refresh_wf.
Qed.

Lemma load_file_wf s e name : ed_wf e -> ed_wf (load_file s e name).
Proof.
  intros He. unfold load_file. apply with_redraw_wf.
  assert (H1 : ed_wf (with_esc (with_top (with_text (set_filename e name)
    (buffer (set_filename e name)) 0 0) 1) Normal)).
  { apply with_esc_wf; [|done]. apply with_top_wf; [|lia]. by apply clear_wf, set_filename_wf. }
  case_match; [|by apply set_status_wf]. apply set_status_wf.
  match goal with |- context [len ?d] => pose proof (len_nonneg d) as Hd end.
  destruct H1. constructor; simpl in *; try done; unfold MAX_EDITOR_BUF; try lia.
  rewrite len_splice; rewrite ?len_sub; lia.
Qed.

(** The editor never panics: for every file store, every file opened and
    every sequence of bursts of input bytes (control keys, escape sequences
    complete or not, arbitrary binary data), [start_editor] runs without an
    index out of bounds and ends in a well-formed state. *)
Theorem start_editor_safe s e name bursts :
  ed_wf e -> ses_safe (start_editor run s e name bursts).
Proof.
  intros He. unfold start_editor. apply run_session_safe. apply redraw_wf, set_status_wf,
    with_running_wf. by apply load_file_wf.
Qed.

(** * Saving and reopening *)

(** What the editor shows, and where its cursor is, once [name] has been opened. *)
Definition opened_as (s : D) (e : PulseEditor) (name : list Z) : list Z * list Z :=
  doc_of (load_file s e name).

(** The part of a name the editor keeps. *)
Definition kept_name (name : list Z) : list Z := sub name 0 32.

Lemma load_doc s e name data :
  ed_wf e -> file_read s name = Some data -> len data <= 4096 ->
  doc_of (load_file s e name) = ([], data).
Proof.
  intros He Hr Hl. unfold load_file. rewrite Hr. pose proof (len_nonneg data).
  unfold doc_of, MAX_EDITOR_BUF. simpl. rewrite Z.min_l by lia. f_equal.
  rewrite (sub_all data) by lia. pose proof (sub_splice (buffer e) data 0 ltac:(lia)) as E.
  rewrite Z.add_0_l in E. apply E. rewrite (wf_buffer e He). lia.
Qed.

(** C32: saving loses nothing. On any store that keeps its promise, [save_file]
    keeps the text and the cursor of the editor and a good store, and either it
    reports success, and opening the name again, in any editor state, shows exactly
    the saved text with the cursor at its start; or the store has refused, and it
    reports that the save failed. *)
Theorem save_reopen `{!FileStoreLaws D} s e e2 :
  ed_wf e -> ed_wf e2 -> store_ok s -> regular_name (filename_str e) = true ->
  let '(s', e') := save_file s e in
  store_ok s' /\ doc_of e' = doc_of e /\
  ((e' = with_redraw (set_status e "Saved to LatencyFS.") true /\
    opened_as s' e2 (filename_str e) = ([], doc_text (doc_of e))) \/
   (e' = with_redraw (set_status e "Save failed!") true /\
    snd (file_write s (filename_str e) (doc_text (doc_of e))) = false)).
Proof.
  intros He He2 Ho Hn. unfold save_file. rewrite doc_of_text by done.
  pose proof (file_write_ok s (filename_str e) (sub (buffer e) 0 (buf_len e)) Ho Hn) as Hok.
  destruct (file_write _ _ _) as [s' ok] eqn:Hw. split_and!; [exact Hok|done|].
  destruct ok; [left|by right]. split; [done|].
  apply load_doc; [done|eapply file_read_write; [exact Ho|exact Hn|exact Hw]|].
  pose proof (wf_cursor e He). pose proof (wf_len e He). rewrite len_sub; [lia|lia|].
  rewrite (wf_buffer e He). lia.
Qed.

(** A file opened under a name longer than 32 bytes is not saved under that
    name: the editor keeps 32 bytes of the name, so saving writes to the name's
    32-byte prefix (the file system allows 63 bytes) and leaves the file that
    was opened as it was. *)
Theorem long_names_are_truncated s e name :
  ed_wf e -> 32 < len name -> utf8_valid (kept_name name) = true ->
  filename_str (load_file s e name) = kept_name name /\
  filename_str (load_file s e name) <> name /\
  fst (save_file s (load_file s e name)) =
    fst (file_write s (kept_name name)
           (sub (buffer (load_file s e name)) 0 (buf_len (load_file s e name)))).
Proof.
  unfold kept_name.
  intros He Hl Hu.
  assert (E : filename_str (load_file s e name) = sub name 0 32).
  { assert (Hf : filename (load_file s e name) = splice (filename e) 0 (sub name 0 32) /\
      filename_len (load_file s e name) = 32).
    { unfold load_file, set_filename. rewrite Z.min_r by lia. by destruct (file_read s name). }
    destruct Hf as [Hf1 Hf2]. unfold filename_str. rewrite Hf1, Hf2. simpl.
    assert (L : len (sub name 0 32) = 32) by (rewrite len_sub; lia).
    pose proof (sub_splice (filename e) (sub name 0 32) 0 ltac:(lia)) as E.
    rewrite L, Z.add_0_l, (proj1 (wf_filename e He)) in E.
    rewrite E by lia. by rewrite Hu. }
  split_and!; [done| |].
  - rewrite E. intros F. apply (f_equal len) in F. rewrite len_sub in F; lia.
  - unfold save_file. rewrite E. by destruct (file_write _ _ _).
Qed.

End Session.

(** * Witnesses: a store that keeps a list of files *)

#[local] Instance list_store : FileStore (list (list Z * list Z)) := {
  file_read s n := snd <$> find (fun f => bytes_eqb (fst f) n) s;
  file_write s n d := ((n, d) :: s, true);
}.

#[local] Instance list_store_laws : FileStoreLaws (list (list Z * list Z)).
Proof.
  refine {| store_ok := fun _ => True; regular_name := fun _ => true |}; [done|].
  intros s n d s' _ _ [= <-]. simpl. unfold bytes_eqb. by rewrite bool_decide_eq_true_2.
Defined.

(** Typing [hi], a cursor key, an incomplete escape sequence and a quit. *)
Theorem start_editor_safe_witness :
  exists x, start_editor (fun _ => true) [] editor_new (bytes "a.txt")
      [[104; 105]; [27; 91; 68; 27; 91; 51]; [17]] = Ok x /\ ed_wf (ed x).
Proof.
  apply (start_editor_safe (fun _ => true) [] editor_new (bytes "a.txt")
           [[104; 105]; [27; 91; 68; 27; 91; 51]; [17]]).
  exact editor_new_wf.
Defined.

Theorem save_reopen_witness :
  opened_as (fst (save_file [] sample)) editor_new (bytes "untitled.pul") =
    ([], [97; 98; 10; 99; 100; 101]).
Proof.
  pose proof (save_reopen [] sample editor_new sample_wf editor_new_wf I eq_refl) as H.
  assert (E : snd (file_write [] (filename_str sample) (doc_text (doc_of sample))) = true) by reflexivity.
  destruct (save_file [] sample) as [s' e']. destruct H as (_ & _ & [[_ H]|[_ H]]).
  - exact H.
  - exfalso. rewrite H in E. discriminate E.
Defined.

Theorem long_names_are_truncated_witness :
  filename_str (load_file [] editor_new (replicate 40 97)) = replicate 32 97.
Proof.
  destruct (long_names_are_truncated [] editor_new (replicate 40 97)) as [H _].
  - exact editor_new_wf.
  - vm_compute. reflexivity.
  - vm_compute. reflexivity.
  - rewrite H. vm_compute. reflexivity.
Defined.
