(* ===== verification/RustStr.v ===== *)
(** The [str] methods the kernel's file system uses, on the UTF-8 bytes of a
    string: [trim] and its relatives (Unicode white space), [split], [rfind],
    [starts_with], [trim_start_matches] and [parse::<usize>]. *)

From S2P Require Import Prelude RustStd.
Local Open Scope Z_scope.

(** * White space

    The characters of Unicode's White_Space property, by the length of their
    UTF-8 encoding. *)

Definition ws1 (b : Z) : bool := in_range 9 b 13 || (b =? 32).
Definition ws2 (b c : Z) : bool := (b =? 0xC2) && ((c =? 0x85) || (c =? 0xA0)).
Definition ws3 (b c d : Z) : bool :=
  (b =? 0xE1) && (c =? 0x9A) && (d =? 0x80)
  || (b =? 0xE2) && (c =? 0x80)
     && (in_range 0x80 d 0x8A || (d =? 0xA8) || (d =? 0xA9) || (d =? 0xAF))
  || (b =? 0xE2) && (c =? 0x81) && (d =? 0x9F)
  || (b =? 0xE3) && (c =? 0x80) && (d =? 0x80).

(** Drop leading characters recognised by their one, two or three bytes. *)
Fixpoint strip (one : Z -> bool) (two : Z -> Z -> bool) (three : Z -> Z -> Z -> bool)
    (l : list Z) : list Z :=
  match l with
  | [] => []
  | b :: l1 =>
    if one b then strip one two three l1
    else
      match l1 with
      | [] => l
      | c :: l2 =>
        if two b c then strip one two three l2
        else
          match l2 with
          | [] => l
          | d :: l3 => if three b c d then strip one two three l3 else l
          end
      end
  end.

Definition trim_start (l : list Z) : list Z := strip ws1 ws2 ws3 l.

(** The bytes of a character are met in reverse order from the end. *)
Definition trim_end (l : list Z) : list Z :=
  rev (strip ws1 (fun c b => ws2 b c) (fun d c b => ws3 b c d) (rev l)).

Definition trim (l : list Z) : list Z := trim_end (trim_start l).

Lemma strip_suffix one two three l : exists k, l = k ++ strip one two three l.
Proof.
  remember (length l) as n eqn:Hn. revert l Hn.
  induction n as [n IH] using lt_wf_ind. intros l ->.
  destruct l as [|b l1]; [by exists []|]. cbn [strip]. case_match.
  { destruct (IH (length l1) ltac:(simpl; lia) l1 eq_refl) as [k E]. exists (b :: k). simpl. congruence. }
  destruct l1 as [|c l2]; [by exists []|]. case_match.
  { destruct (IH (length l2) ltac:(simpl; lia) l2 eq_refl) as [k E]. exists (b :: c :: k). simpl. congruence. }
  destruct l2 as [|d l3]; [by exists []|]. case_match; [|by exists []].
  destruct (IH (length l3) ltac:(simpl; lia) l3 eq_refl) as [k E]. exists (b :: c :: d :: k). simpl. congruence.
Qed.

(** Trimming keeps what holds of every byte. *)
Lemma trim_start_Forall (P : Z -> Prop) l : Forall P l -> Forall P (trim_start l).
Proof.
  unfold trim_start. destruct (strip_suffix ws1 ws2 ws3 l) as [k E]. rewrite E at 1.
  intros [_ H]%Forall_app. exact H.
Qed.

Lemma trim_end_Forall (P : Z -> Prop) l : Forall P l -> Forall P (trim_end l).
Proof.
  unfold trim_end. intros H%Forall_rev. apply Forall_rev. revert H.
  destruct (strip_suffix ws1 (fun c b => ws2 b c) (fun d c b => ws3 b c d) (rev l)) as [k E].
  rewrite E at 1. intros [_ H]%Forall_app. exact H.
Qed.

Lemma trim_Forall (P : Z -> Prop) l : Forall P l -> Forall P (trim l).
Proof. intros. by apply trim_end_Forall, trim_start_Forall. Qed.

(** * Searching and splitting *)

(** [s.starts_with(p)]. *)
Definition starts_with (s p : list Z) : bool := bytes_eqb (take (length p) s) p.

(** [s.split(c)] for an ASCII character [c]. *)
Fixpoint split (c : Z) (l : list Z) : list (list Z) :=
  match l with
  | [] => [[]]
  | b :: l =>
    match split c l with
    | p :: ps => if b =? c then [] :: p :: ps else (b :: p) :: ps
    | [] => []
    end
  end.

(** [s.rfind(c)]: the position of the last occurrence. *)
Fixpoint rfind (c : Z) (l : list Z) : option Z :=
  match l with
  | [] => None
  | b :: l =>
    match rfind c l with
    | Some i => Some (i + 1)
    | None => if b =? c then Some 0 else None
    end
  end.

(** [s.trim_start_matches(p)], for a non-empty pattern. *)
Fixpoint trim_start_matches (fuel : nat) (p l : list Z) : list Z :=
  match fuel with
  | O => l
  | S fuel =>
    if starts_with l p then trim_start_matches fuel p (drop (length p) l) else l
  end.

(** [s.parse::<usize>().ok()]: an optional plus sign and at least one digit,
    without overflow. *)
Fixpoint parse_digits (acc : Z) (l : list Z) : option Z :=
  match l with
  | [] => Some acc
  | b :: l =>
    if is_ascii_digit b then
      let acc := acc * 10 + (b - 48) in
      if acc <? 2 ^ 64 then parse_digits acc l else None
    else None
  end.

Definition parse_usize (l : list Z) : option Z :=
  let digits := match l with 43 :: (_ :: _) as k => k | _ => l end in
  match digits with [] => None | _ => parse_digits 0 digits end.

Example trim_ex : trim (bytes "  /a b	") = bytes "/a b".
Proof. reflexivity. Qed.
Example trim_nbsp : trim [0xC2; 0xA0; 65; 0xE3; 0x80; 0x80] = [65].
Proof. reflexivity. Qed.
Example split_ex : split 47 (bytes "/a//b") = [[]; bytes "a"; []; bytes "b"].
Proof. reflexivity. Qed.
Example rfind_ex : rfind 47 (bytes "/a/b") = Some 2.
Proof. reflexivity. Qed.
Example parse_ex :
  (parse_usize (bytes "+12"), parse_usize (bytes "+"), parse_usize (bytes "1x"),
   parse_usize (bytes "18446744073709551616")) = (Some 12, None, None, None).
Proof. reflexivity. Qed.

(** * Laws of [split] *)

Fixpoint join (c : Z) (ps : list (list Z)) : list Z :=
  match ps with
  | [] => []
  | [p] => p
  | p :: ps => p ++ c :: join c ps
  end.

Lemma split_nonempty c l : split c l <> [].
Proof.
  induction l as [|b l IH]; simpl; [done|]. destruct (split c l); [done|]. by destruct (b =? c).
Qed.

Lemma join_cons c p ps : ps <> [] -> join c (p :: ps) = p ++ c :: join c ps.
Proof. by destruct ps. Qed.

Lemma join_split c l : join c (split c l) = l.
Proof.
  induction l as [|b l IH]; [done|]. cbn [split].
  pose proof (split_nonempty c l) as Hs. destruct (split c l) as [|p ps] eqn:E; [done|].
  destruct (Z.eqb_spec b c) as [->|Hb].
  - rewrite join_cons by done. by rewrite IH.
  - rewrite <-IH. destruct ps; [done|]. by rewrite !join_cons by done.
Qed.

Lemma split_no_sep c l : Forall (fun p => c ∉ p) (split c l).
Proof.
  induction l as [|b l IH]; cbn [split].
  - repeat constructor. by intros ?%elem_of_nil.
  - destruct (split c l) as [|p ps]; [constructor|]. inversion IH; subst.
    destruct (Z.eqb_spec b c); repeat constructor; try done.
    + by intros ?%elem_of_nil.
    + rewrite elem_of_cons. naive_solver.
Qed.

Lemma split_app c l k p :
  c ∉ p -> split c (p ++ c :: k) = p :: split c k /\ (l = p -> split c l = [p]).
Proof.
  intros Hp. split.
  - induction p as [|b p IH]; simpl.
    + pose proof (split_nonempty c k). destruct (split c k); [done|]. by rewrite Z.eqb_refl.
    + apply not_elem_of_cons in Hp as [Hb Hp]. rewrite IH by done.
      destruct (Z.eqb_spec b c); [congruence|done].
  - intros ->. induction p as [|b p IH]; simpl; [done|].
    apply not_elem_of_cons in Hp as [Hb Hp]. rewrite IH by done.
    destruct (Z.eqb_spec b c); [congruence|done].
Qed.

Lemma split_plain c p : c ∉ p -> split c p = [p].
Proof. intros Hp. by apply (split_app c p [] p Hp). Qed.

Lemma split_join c ps : ps <> [] -> Forall (fun p => c ∉ p) ps -> split c (join c ps) = ps.
Proof.
  induction ps as [|p ps IH]; [done|]. intros _ Hf. inversion Hf; subst.
  destruct ps as [|q ps]; [by apply split_plain|]. rewrite join_cons by done.
  rewrite (proj1 (split_app c [] _ p ltac:(done))). by rewrite IH.
Qed.

(** * Laws of [rfind] *)

Lemma rfind_None c l : c ∉ l -> rfind c l = None.
Proof.
  induction l as [|b l IH]; simpl; [done|]. intros [Hb Hl]%not_elem_of_cons.
  rewrite IH by done. destruct (Z.eqb_spec b c); [congruence|done].
Qed.

Lemma rfind_last c l k : c ∉ k -> rfind c (l ++ c :: k) = Some (len l).
Proof.
  intros Hk. induction l as [|b l IH]; simpl.
  - rewrite rfind_None by done. by rewrite Z.eqb_refl.
  - rewrite IH, len_cons. f_equal. lia.
Qed.

(** * UTF-8 validity of parts *)

Definition starts_cont (l : list Z) : bool :=
  match l with b :: _ => is_cont b | [] => false end.

Lemma in_range_spec lo b hi : in_range lo b hi = true <-> lo <= b <= hi.
Proof. unfold in_range. rewrite andb_true_iff, !Z.leb_le. done. Qed.

Lemma utf8_valid_app l k : utf8_valid l = true -> utf8_valid (l ++ k) = utf8_valid k.
Proof.
  remember (length l) as n eqn:Hn. revert l Hn.
  induction n as [n IH] using lt_wf_ind. intros l Hn Hv.
  destruct l as [|b0 l1]; [done|].
  cbn [utf8_valid app] in *. case_match; [apply (IH (length l1)); simpl in *; (lia || done)|].
  case_match.
  { destruct l1 as [|b1 l2]; [done|]. cbn [app]. apply andb_true_iff in Hv as [-> Hv].
    simpl. apply (IH (length l2)); simpl in *; (lia || done). }
  case_match.
  { destruct l1 as [|b1 [|b2 l3]]; [done..|]. cbn [app].
    apply andb_true_iff in Hv as [-> Hv]. simpl. apply (IH (length l3)); simpl in *; (lia || done). }
  case_match; [|done].
  destruct l1 as [|b1 [|b2 [|b3 l4]]]; [done..|]. cbn [app].
  apply andb_true_iff in Hv as [-> Hv]. simpl. apply (IH (length l4)); simpl in *; (lia || done).
Qed.

Ltac cont_clash :=
  repeat match goal with
  | H : _ && _ = true |- _ => apply andb_true_iff in H as [? ?]
  end; simpl in *; unfold is_cont in *;
  repeat match goal with
  | H : in_range _ _ _ = true |- _ => rewrite in_range_spec in H
  | H : in_range _ _ _ = false |- _ => apply not_true_iff_false in H; rewrite in_range_spec in H
  | H : (if ?b then _ else _) <= _ <= (if ?c then _ else _) |- _ => destruct b, c
  end; lia.

(** A valid string cut where a character starts is valid on the left. *)
Lemma utf8_valid_left l k :
  utf8_valid (l ++ k) = true -> starts_cont k = false -> utf8_valid l = true.
Proof.
  remember (length l) as n eqn:Hn. revert l Hn.
  induction n as [n IH] using lt_wf_ind. intros l Hn Hv Hk.
  destruct l as [|b0 l1]; [done|].
  cbn [utf8_valid app] in *. case_match; [apply (IH (length l1)); simpl in *; (lia || done)|].
  case_match.
  { destruct l1 as [|b1 l2]; cbn [app] in Hv.
    - exfalso. destruct k as [|b1 k]; [done|]. cont_clash.
    - apply andb_true_iff in Hv as [-> Hv]. simpl.
      apply (IH (length l2)); simpl in *; (lia || done). }
  case_match.
  { destruct l1 as [|b1 [|b2 l3]]; cbn [app] in Hv.
    - exfalso. destruct k as [|b1 [|b2 k]]; [done..|]. cont_clash.
    - exfalso. destruct k as [|b2 k]; [done|]. cont_clash.
    - apply andb_true_iff in Hv as [-> Hv]. simpl.
      apply (IH (length l3)); simpl in *; (lia || done). }
  case_match; [|done].
  destruct l1 as [|b1 [|b2 [|b3 l4]]]; cbn [app] in Hv.
  - exfalso. destruct k as [|b1 [|b2 [|b3 k]]]; [done..|]. cont_clash.
  - exfalso. destruct k as [|b2 [|b3 k]]; [done..|]. cont_clash.
  - exfalso. destruct k as [|b3 k]; [done|]. cont_clash.
  - apply andb_true_iff in Hv as [-> Hv]. simpl.
    apply (IH (length l4)); simpl in *; (lia || done).
Qed.

Lemma utf8_valid_cut l k :
  utf8_valid (l ++ k) = true -> starts_cont k = false ->
  utf8_valid l = true /\ utf8_valid k = true.
Proof.
  intros Hv Hk. pose proof (utf8_valid_left l k Hv Hk) as Hl. split; [done|].
  by rewrite utf8_valid_app in Hv.
Qed.

Lemma utf8_valid_split l :
  utf8_valid l = true -> Forall (fun p => utf8_valid p = true) (split 47 l).
Proof.
  intros Hv. rewrite <-(join_split 47 l) in Hv. pose proof (split_nonempty 47 l) as Hn.
  revert Hv Hn. generalize (split 47 l). intros ps. induction ps as [|p ps IH]; [done|].
  intros Hv _. destruct ps as [|q ps]; [by repeat constructor|].
  rewrite join_cons in Hv by done. apply utf8_valid_cut in Hv as [Hp Hv]; [|done].
  constructor; [done|]. by apply IH.
Qed.

Lemma utf8_valid_cat l k :
  utf8_valid l = true -> utf8_valid k = true -> utf8_valid (l ++ k) = true.
Proof. intros. by rewrite utf8_valid_app. Qed.
