(* ===== verification/LexerSpec.v ===== *)
(** What the lexer's tokens mean: a declarative description of the lexemes of
    PulseLang and of what may stand between them, and the proof that the tokens
    of lexer.rs tile the source by it. The spellings are listed here anew. *)

From S2P Require Import Prelude RustStd RustStr Isa Token Error VmState VmExec Lexer LexerProps.
Local Open Scope Z_scope.

(** * Spellings *)

Definition spelled (l : list (string * TokenKind.t)) : list (list Z * TokenKind.t) :=
  map (fun s => (bytes (fst s), snd s)) l.

Definition symbols : list (list Z * TokenKind.t) := spelled
  [("(", TokenKind.LParen); (")", TokenKind.RParen); ("[", TokenKind.LBracket); ("]", TokenKind.RBracket);
   ("{", TokenKind.LBrace); ("}", TokenKind.RBrace); (";", TokenKind.Semi); (",", TokenKind.Comma);
   (".", TokenKind.Dot); ("..", TokenKind.DotDot); ("?", TokenKind.Question);
   (":", TokenKind.Colon); ("::", TokenKind.ColonColon); (":=", TokenKind.ColonEq);
   ("+", TokenKind.Plus); ("+=", TokenKind.PlusEq); ("-", TokenKind.Minus); ("-=", TokenKind.MinusEq);
   ("->", TokenKind.Arrow); ("*", TokenKind.Star); ("/", TokenKind.Slash); ("%", TokenKind.Percent);
   ("^", TokenKind.Caret); ("|", TokenKind.PipeSingle); ("||", TokenKind.OrOp); ("|>", TokenKind.Pipe);
   ("&", TokenKind.Amp); ("&&", TokenKind.And); ("=", TokenKind.Eq); ("==", TokenKind.EqEq);
   ("=>", TokenKind.FatArrow); ("!", TokenKind.Exclamation); ("!=", TokenKind.NotEq);
   ("<", TokenKind.Lt); ("<=", TokenKind.LtEq); ("<<", TokenKind.Shl);
   (">", TokenKind.Gt); (">=", TokenKind.GtEq); (">>", TokenKind.Shr)]%string.

Definition words : list (list Z * TokenKind.t) := spelled
  [("_", TokenKind.Underscore); ("budget", TokenKind.Budget); ("const", TokenKind.Const); ("core", TokenKind.Core);
   ("drop", TokenKind.Drop); ("else", TokenKind.Else); ("emit", TokenKind.Emit); ("enum", TokenKind.Enum);
   ("fixed", TokenKind.Fixed); ("fn", TokenKind.Fn); ("for", TokenKind.For); ("hardware", TokenKind.Hardware);
   ("i64", TokenKind.I64); ("if", TokenKind.If); ("in", TokenKind.In); ("input", TokenKind.Input);
   ("let", TokenKind.Let); ("match", TokenKind.Match); ("mut", TokenKind.Mut); ("on", TokenKind.On);
   ("or", TokenKind.Or); ("output", TokenKind.Output); ("pipeline", TokenKind.Pipeline);
   ("return", TokenKind.Return); ("stage", TokenKind.Stage); ("struct", TokenKind.Struct);
   ("task", TokenKind.Task); ("u16", TokenKind.U16); ("u32", TokenKind.U32); ("u64", TokenKind.U64);
   ("u8", TokenKind.U8); ("while", TokenKind.While); ("within", TokenKind.Within);
   ("zero_copy", TokenKind.ZeroCopy)]%string.

(** After an [@]. *)
Definition at_words : list (list Z * TokenKind.t) := spelled
  [("assert", TokenKind.AtAssert); ("budget", TokenKind.AtBudget); ("contract", TokenKind.AtContract);
   ("ensures", TokenKind.AtEnsures); ("for", TokenKind.AtFor); ("import", TokenKind.AtImport);
   ("invariant", TokenKind.AtInvariant); ("loop", TokenKind.AtLoop); ("on_vblank", TokenKind.AtOnVblank);
   ("pipeline", TokenKind.AtPipeline); ("pool_size", TokenKind.AtPoolSize); ("requires", TokenKind.AtRequires);
   ("test", TokenKind.AtTest); ("wcet", TokenKind.AtWcet); ("while", TokenKind.AtWhile);
   ("within", TokenKind.AtWithin)]%string.

(** Nanoseconds in a unit of time. *)
Definition units : list (list Z * Z) :=
  [(bytes "ns", 1); (bytes "us", 1000); (bytes "ms", 1000000); (bytes "s", 1000000000)]%string.

Definition is_letter (b : Z) : bool := is_ascii_alphabetic b || (b =? 95).

(** * Lexemes *)

(** A run of bytes of a class ends here. *)
Definition stops (p : Z -> bool) (next : list Z) : Prop :=
  match next with b :: _ => p b = false | [] => True end.

Definition run_of (p : Z -> bool) (l : list Z) : Prop := Forall (fun b => p b = true) l.

Definition hex_value (ds : list Z) : Z := foldl (fun a b => a * 16 + hex_digit b) 0 ds.

(** No longer symbol and no comment begins here. *)
Definition longest (s next : list Z) : Prop :=
  Forall (fun t => t `prefix_of` s ++ next -> (length t <= length s)%nat)
    (map fst symbols ++ [[47; 47]; [47; 42]]).

Definition fraction_follows (next : list Z) : Prop :=
  exists d l, next = 46 :: d :: l /\ is_ascii_digit d = true.

Inductive lexeme (next : list Z) : TokenKind.t -> list Z -> Prop :=
| lex_symbol s k : (s, k) ∈ symbols -> longest s next -> lexeme next k s
| lex_word s k : (s, k) ∈ words -> stops is_dotted_byte next -> lexeme next k s
| lex_ident b name : is_letter b = true -> run_of is_dotted_byte name -> stops is_dotted_byte next ->
    b :: name ∉ map fst words -> lexeme next TokenKind.Ident (b :: name)
| lex_directive name k : (name, k) ∈ at_words -> stops is_dotted_byte next -> lexeme next k (64 :: name)
| lex_intrinsic name : run_of is_dotted_byte name -> stops is_dotted_byte next ->
    name ∉ map fst at_words -> lexeme next TokenKind.IntrinsicIdent (64 :: name)
| lex_variable name : run_of is_ident_byte name -> stops is_ident_byte next ->
    lexeme next TokenKind.VarIdent (36 :: name)
| lex_handle name : run_of is_ident_byte name -> stops is_ident_byte next ->
    lexeme next TokenKind.HardwareIdent (35 :: name)
| lex_text body : 34 ∉ body -> lexeme next TokenKind.StringLit (34 :: body ++ [34])
| lex_open_text body : 34 ∉ body -> next = [] -> lexeme next TokenKind.StringLit (34 :: body)
| lex_hexadecimal x ds : x ∈ [120; 88] -> run_of is_ascii_hexdigit ds -> stops is_ascii_hexdigit next ->
    lexeme next (TokenKind.Number (as_i64 (hex_value ds))) (48 :: x :: ds)
| lex_integer ds : digits ds -> ds <> [] -> stops is_ascii_digit next -> ~ fraction_follows next ->
    Forall (fun u => ~ fst u `prefix_of` next) units ->
    (ds = [48] -> stops (fun b => (b =? 120) || (b =? 88)) next) ->
    lexeme next (TokenKind.Number (as_i64 (dec_value ds))) ds
| lex_float ds fs scaled : digits ds -> ds <> [] -> digits fs -> fs <> [] -> stops is_ascii_digit next ->
    (dec_value (ds ++ fs) < 2 ^ 63 -> scaled = dec_value (ds ++ fs)) ->
    lexeme next (TokenKind.FloatLit scaled (Z.min 255 (len fs))) (ds ++ 46 :: fs)
| lex_time ds suffix unit : digits ds -> ds <> [] -> (suffix, unit) ∈ units ->
    lexeme next (TokenKind.TimeLiteral (as_u64 (dec_value ds * unit))) (ds ++ suffix).

(** What begins no lexeme, no blank and no comment: the lexer drops it. *)
Definition begins_nothing (b : Z) : Prop :=
  b ∉ [32; 9; 13; 10; 34; 36; 35; 64] /\ is_ascii_digit b = false /\ is_letter b = false /\
  Forall (fun s => head (fst s) <> Some b) symbols.

(** No [*/] inside. *)
Definition unclosed (l : list Z) : Prop := forall p q, l <> p ++ 42 :: 47 :: q.

Inductive filler (next : list Z) : list Z -> Prop :=
| fill_blank b : b ∈ [32; 9; 13; 10] -> filler next [b]
| fill_line body : 10 ∉ body -> stops (fun b => negb (b =? 10)) next -> filler next (47 :: 47 :: body)
| fill_block body : unclosed (body ++ [42]) -> filler next (47 :: 42 :: body ++ [42; 47])
| fill_open_block body : unclosed (body ++ next) -> len next <= 1 -> (next = [] -> body = []) ->
    filler next (47 :: 42 :: body)
| fill_dropped b : begins_nothing b -> filler next [b].

(** The source from [i] to [e] is these tokens and fillers. *)
Inductive tiling (src : list Z) : Z -> list Token -> Z -> Prop :=
| tiling_end i : tiling src i [] i
| tiling_filler i text next ts e : rest src i = text ++ next -> filler next text ->
    tiling src (i + len text) ts e -> tiling src i ts e
| tiling_token t text next ts e : rest src (start t) = text ++ next -> tlen t = len text ->
    lexeme next (kind t) text -> get_line_and_col src (start t) = (line t, col t) ->
    tiling src (start t + len text) ts e -> tiling src (start t) (t :: ts) e.

(** * Runs *)

Lemma count_while_cut p l : exists run next, l = run ++ next /\ run_of p run /\ stops p next /\
  count_while p l = len run.
Proof.
  assert (Hnil : run_of p []) by constructor.
  induction l as [|b l (run & next & E & Hr & Hs & Hc)]; [by exists [], []|]. cbn [count_while].
  destruct (p b) eqn:Hb.
  - exists (b :: run), next. rewrite E at 1. split_and!; [done|by constructor|done|]. rewrite len_cons. lia.
  - by exists [], (b :: l).
Qed.

Lemma scan_while_cut p src i : exists run next, rest src i = run ++ next /\ run_of p run /\ stops p next /\
  scan_while p src i = i + len run.
Proof.
  destruct (count_while_cut p (rest src i)) as (run & next & E & Hr & Hs & Hc).
  exists run, next. unfold scan_while. by rewrite Hc.
Qed.

Lemma rest_app_skip src i text next : 0 <= i -> rest src i = text ++ next -> rest src (i + len text) = next.
Proof.
  intros Hi E. unfold rest, len in *. rewrite Z2Nat.inj_add, Nat2Z.id by lia.
  rewrite <-drop_drop, E. apply drop_app_length.
Qed.

Lemma sub_app_skip src i text next : 0 <= i -> rest src i = text ++ next -> sub src i (i + len text) = text.
Proof.
  intros Hi E. unfold sub, rest, len in *. rewrite E.
  replace (Z.to_nat (i + Z.of_nat (length text) - i)) with (length text) by lia. apply take_app_length.
Qed.

Lemma scan_string_cut l : forall i ln, exists body next, l = body ++ next /\ 34 ∉ body /\
  fst (scan_string l i ln) = i + len body /\ (next = [] \/ exists k, next = 34 :: k).
Proof.
  induction l as [|b l IH]; intros i ln.
  - exists [], []. split_and!; [done|set_solver|cbn; rewrite ?len_nil; lia|by left].
  - cbn [scan_string]. destruct (Z.eqb_spec b 34) as [->|Hb].
    + exists [], (34 :: l). split_and!; [done|set_solver|cbn; rewrite ?len_nil; lia|right; by exists l].
    + destruct (IH (i + 1) (if b =? 10 then ln + 1 else ln)) as (body & next & -> & Hq & E & Hn).
      exists (b :: body), next. rewrite E, len_cons. split_and!; [done|set_solver|lia|done].
Qed.

Lemma unclosed_cons b c l : unclosed (c :: l) -> (b = 42 -> c <> 47) -> unclosed (b :: c :: l).
Proof.
  intros H Hb [|x p] q E; [by injection E as -> -> _; apply Hb|]. injection E as -> E. by apply (H p q).
Qed.

Lemma scan_block_cut l : forall i ln, exists body next,
  (l = body ++ [42; 47] ++ next /\ unclosed (body ++ [42]) /\ fst (scan_block l i ln) = i + len body + 2) \/
  (l = body ++ next /\ unclosed l /\ len next <= 1 /\ (next = [] -> body = []) /\
   fst (scan_block l i ln) = i + len body).
Proof.
  induction l as [|b l IH]; intros i ln.
  { exists [], []. right. split_and!; try done; [by intros [|]|cbn; rewrite ?len_nil; lia]. }
  destruct l as [|c l].
  { exists [], [b]. right. split_and!; try done; [by intros [|x [|]]|cbn; rewrite ?len_nil; lia]. }
  set (ln' := if b =? 10 then ln + 1 else ln).
  change (scan_block (b :: c :: l) i ln) with
    (if (b =? 42) && (c =? 47) then (i + 2, ln') else scan_block (c :: l) (i + 1) ln').
  destruct ((b =? 42) && (c =? 47)) eqn:Ec.
  { apply andb_true_iff in Ec as [->%Z.eqb_eq ->%Z.eqb_eq]. exists [], l. left.
    split_and!; [done|by intros [|x [|]]|cbn; rewrite ?len_nil; lia]. }
  assert (Hbc : b = 42 -> c <> 47) by (intros -> ->; discriminate Ec).
  destruct (IH (i + 1) ln') as (body & next & [(E & Hu & Hf)|(E & Hu & Hn & Hb & Hf)]).
  - exists (b :: body), next. left. rewrite Hf, len_cons. split; [by rewrite E|]. split; [|lia].
    cbn [app]. destruct body as [|d body].
    + injection E as -> _. intros [|x [|y [|]]] q Eq; injection Eq; intros; subst; try done.
    + injection E as -> E. by apply unclosed_cons.
  - exists (b :: body), next. right. rewrite Hf, len_cons. split; [by rewrite E|].
    split; [by apply unclosed_cons|]. split; [done|]. split; [|lia].
    intros ->. specialize (Hb eq_refl). by subst.
Qed.

(** * Blanks and comments *)

(** What one step skips is a filler. *)
Lemma skip_step_filler src st st' : 0 <= pos st <= len src -> skip_step src st = Some st' ->
  exists text next, rest src (pos st) = text ++ next /\ filler next text /\ pos st' = pos st + len text.
Proof.
  intros Hp. unfold skip_step. destruct (rest src (pos st)) as [|b l] eqn:E; [done|].
  assert (Hblank : b ∈ [32; 9; 13; 10] -> forall ln, pos (mkLexer (pos st + 1) ln) = pos st + len [b] /\ filler l [b])
    by (intros Hb ln; split; [done|by constructor]).
  destruct (_ || _) eqn:Eb.
  { intros [= <-]. exists [b], l. destruct (Hblank ltac:(rewrite !orb_true_iff, !Z.eqb_eq in Eb; set_solver) (lline st)).
    by split_and!. }
  destruct (Z.eqb_spec b 10) as [->|Hn].
  { intros [= <-]. exists [10], l. destruct (Hblank ltac:(set_solver) (lline st + 1)). by split_and!. }
  destruct (Z.eqb_spec b 47) as [->|]; [cbn [andb]|done].
  destruct l as [|c l]; [done|]. destruct (Z.eqb_spec c 47) as [->|Hc].
  { intros [= <-]. destruct (scan_while_cut (fun c => negb (c =? 10)) src (pos st)) as (run & next & Er & Hr & Hs & ->).
    rewrite E in Er. destruct run as [|x [|y run]].
    - cbn in Er. subst next. discriminate Hs.
    - cbn in Er. injection Er as <- <-. discriminate Hs.
    - injection Er as <- <- Er. exists (47 :: 47 :: run), next. split_and!; [by rewrite Er| |done].
      constructor; [|done]. intros Hin. unfold run_of in Hr. rewrite !Forall_cons in Hr. destruct Hr as (_ & _ & Hr).
      rewrite Forall_forall in Hr. by specialize (Hr 10 Hin). }
  destruct (Z.eqb_spec c 42) as [->|]; [|done]. change (drop 1 (42 :: l)) with l.
  destruct (scan_block_cut l (pos st + 2) (lline st)) as (body & next & H).
  destruct (scan_block l (pos st + 2) (lline st)) as [j ln]. cbn [fst] in H. intros [= <-]. cbn [pos].
  destruct H as [(El & Hu & ->)|(El & Hu & Hl & Hb & ->)].
  - exists (47 :: 42 :: body ++ [42; 47]), next. split_and!; [cbn; by rewrite El, <-app_assoc|by constructor|].
    rewrite !len_cons, len_app. change (len [42; 47]) with 2. lia.
  - exists (47 :: 42 :: body), next. split_and!; [by rewrite El|constructor; [by rewrite <-El|done..]|].
    rewrite !len_cons. lia.
Qed.

Lemma skip_loop_tiling fuel src : forall st ts e, 0 <= pos st <= len src ->
  tiling src (pos (skip_loop fuel src st)) ts e -> tiling src (pos st) ts e.
Proof.
  induction fuel as [|fuel IH]; intros st ts e Hp; cbn [skip_loop]; [done|].
  destruct (skip_step src st) as [st'|] eqn:E; [|done]. intros Ht.
  pose proof (skip_step_progress src st st' Hp E). apply IH in Ht; [|lia].
  destruct (skip_step_filler src st st' Hp E) as (text & next & Er & Hf & Ep). rewrite Ep in Ht.
  by eapply tiling_filler.
Qed.

(** * Symbols *)

Definition listed (t : list (list Z * TokenKind.t)) (s : list Z) (k : TokenKind.t) : bool :=
  existsb (fun e => bytes_eqb (fst e) s && bool_decide (snd e = k)) t.

Lemma listed_in t s k : listed t s k = true -> (s, k) ∈ t.
Proof.
  unfold listed. rewrite existsb_exists. intros ([s' k'] & Hin & [Hs Hk]%andb_true_iff).
  unfold bytes_eqb in Hs. apply bool_decide_eq_true in Hs, Hk. cbn in Hs, Hk. subst. by apply list_elem_of_In.
Qed.

(** The symbols that begin with [b] are [d] alone, and with one of [alts]. *)
Definition symbol_group (b : Z) (alts : list (Z * TokenKind.t)) (d : TokenKind.t) : bool :=
  listed symbols [b] d && forallb (fun a => listed symbols [b; fst a] (snd a)) alts &&
  forallb (fun e => match fst e with
                    | [_] => true
                    | [x; y] => negb (x =? b) || existsb (fun a => fst a =? y) alts
                    | _ => false
                    end) symbols.

Lemma prefix_two {x y : Z} {s l} : [x; y] `prefix_of` s :: l -> x = s /\ head l = Some y.
Proof. intros [k E]. injection E as -> ->. done. Qed.

Lemma lex_op_lexeme src i b alts d : 0 <= i -> getZ src i = Some b -> symbol_group b alts d = true ->
  (b = 47 -> stops (fun c => (c =? 47) || (c =? 42)) (rest src (i + 1))) ->
  exists k text next, lex_op src i alts d = Ok (k, i + len text) /\ rest src i = text ++ next /\ lexeme next k text.
Proof.
  intros Hi Hb Hg Hc. unfold symbol_group in Hg. rewrite !andb_true_iff, !forallb_forall in Hg.
  destruct Hg as [[Hd Ha] Hs]. apply rest_getZ in Hb. unfold lex_op.
  assert (Hnext : forall c, next_is src i c = bool_decide (head (rest src (i + 1)) = Some c)).
  { intros c. unfold next_is. f_equal. destruct (getZ src (i + 1)) as [x|] eqn:E.
    - by rewrite (rest_getZ _ _ _ E).
    - destruct (rest src (i + 1)) as [|x l] eqn:Er; [done|]. apply rest_cons in Er as (Er & _); [congruence|lia]. }
  destruct (find _ alts) as [[c k]|] eqn:Ef.
  - apply find_some in Ef as [Hin Hn]. rewrite Hnext in Hn. apply bool_decide_eq_true in Hn. cbn [fst] in Hn.
    destruct (rest src (i + 1)) as [|c' l] eqn:Er; [done|]. injection Hn as ->.
    exists k, [b; c], l. cbn [snd]. split_and!; [done|by rewrite Hb|]. constructor; [by apply listed_in, (Ha _ Hin)|].
    apply Forall_app. split; [|repeat constructor].
    apply Forall_forall. intros t ([s' k'] & -> & Ht%list_elem_of_In)%list_elem_of_fmap Hp.
    specialize (Hs _ Ht). cbn [fst] in *. destruct s' as [|x [|y [|]]]; try done; simpl; lia.
  - exists d, [b], (rest src (i + 1)). split_and!; [done|done|]. constructor; [by apply listed_in|].
    apply Forall_app. split.
    + apply Forall_forall. intros t ([s' k'] & -> & Ht%list_elem_of_In)%list_elem_of_fmap Hp.
      specialize (Hs _ Ht). cbn [fst] in *. destruct s' as [|x [|y [|]]]; try done.
      apply prefix_two in Hp as [-> Hp]. rewrite Z.eqb_refl in Hs. apply existsb_exists in Hs as ([c k] & Hin & Hy).
      apply (find_none _ _ Ef) in Hin. apply Z.eqb_eq in Hy. cbn [fst] in *. subst c.
      rewrite Hnext in Hin. by rewrite bool_decide_eq_true_2 in Hin.
    + assert (H : forall c, c ∈ [47; 42] -> [47; c] `prefix_of` b :: rest src (i + 1) -> False).
      { intros c Hin [<- Hp]%prefix_two. specialize (Hc eq_refl).
        destruct (rest src (i + 1)) as [|x l]; [done|]. injection Hp as ->. simpl in Hc.
        apply orb_false_iff in Hc as [?%Z.eqb_neq ?%Z.eqb_neq]. set_solver. }
      do 2 (constructor; [intros Hp; exfalso; eapply H; [|exact Hp]; set_solver|]). constructor.
Qed.

(** * Words *)

Lemma keyword_cases s table d : (exists n, (n, keyword s table d) ∈ table /\ s = bytes n) \/
  (keyword s table d = d /\ s ∉ map (fun e => bytes (fst e)) table).
Proof.
  induction table as [|[n k] table IH]; [right; split; [done|set_solver]|]. cbn [keyword].
  unfold bytes_eqb. case_bool_decide as E.
  - left. exists n. split; [set_solver|done].
  - destruct IH as [(m & Hm & ->)|[Hk Hn]]; [left; exists m; split; [set_solver|done]|right; split; [done|]].
    cbn. set_solver.
Qed.

(** Two tables have the same words. *)
Definition same_words (table : list (string * TokenKind.t)) (spec : list (list Z * TokenKind.t)) : bool :=
  forallb (fun e => listed spec (bytes (fst e)) (snd e)) table &&
  forallb (fun e => existsb (fun n => bytes_eqb n (fst e)) (map (fun e => bytes (fst e)) table)) spec.

Lemma keyword_spec s table spec d : same_words table spec = true ->
  (s, keyword s table d) ∈ spec \/ (keyword s table d = d /\ s ∉ map fst spec).
Proof.
  unfold same_words. rewrite andb_true_iff, !forallb_forall. intros [H1 H2].
  destruct (keyword_cases s table d) as [(n & Hn & ->)|[Hk Hn]].
  - left. apply list_elem_of_In, H1 in Hn. by apply listed_in.
  - right. split; [done|]. intros ([s' k] & -> & Hin%list_elem_of_In)%list_elem_of_fmap.
    apply H2, existsb_exists in Hin as (x & Hx & E). unfold bytes_eqb in E. apply bool_decide_eq_true in E. subst x.
    by apply Hn, list_elem_of_In.
Qed.

Lemma words_same : same_words keywords words = true.
Proof. vm_compute. reflexivity. Qed.
Lemma at_words_same : same_words directives at_words = true.
Proof. vm_compute. reflexivity. Qed.

(** * Numbers *)

Lemma i64_mod z : as_i64 z mod 2 ^ 64 = z mod 2 ^ 64.
Proof. unfold as_i64, wrapS. rewrite Zminus_mod_idemp_l. f_equal. lia. Qed.

Lemma i64_cong x y : x mod 2 ^ 64 = y mod 2 ^ 64 -> as_i64 x = as_i64 y.
Proof. intros E. unfold as_i64, wrapS. rewrite <-(Zplus_mod_idemp_l x), E. by rewrite Zplus_mod_idemp_l. Qed.

Lemma u64_of_i64 z : as_u64 (as_i64 z) = as_u64 z.
Proof. apply i64_mod. Qed.

Lemma u64_mul x u : as_u64 (as_u64 x * u) = as_u64 (x * u).
Proof. unfold as_u64, wrapU. by rewrite Zmult_mod_idemp_l. Qed.

Lemma decimal_byte_range b : is_ascii_digit b = true -> 0 <= b - 48 <= 9.
Proof. unfold is_ascii_digit. intros H%in_range_spec. lia. Qed.

Lemma hex_byte_range b : is_ascii_hexdigit b = true -> 0 <= hex_digit b < 16.
Proof.
  unfold is_ascii_hexdigit, hex_digit, is_ascii_digit. intros H. revert H.
  destruct (in_range 48 b 57) eqn:E1; [apply in_range_spec in E1; lia|].
  destruct (in_range 97 b 102) eqn:E2; [apply in_range_spec in E2; lia|].
  destruct (in_range 65 b 70) eqn:E3; [apply in_range_spec in E3; lia|]. lia.
Qed.

Lemma lor_low q d : 0 <= d < 16 -> Z.lor (q * 16) d = q * 16 + d.
Proof.
  intros Hd. rewrite <-Z.lxor_lor; [rewrite <-Z.add_nocarry_lxor; [done|]|];
    (apply Z.bits_inj'; intros n Hn; rewrite Z.land_spec, Z.bits_0; change (q * 16) with (q * 2 ^ 4);
     destruct (Z.ltb_spec n 4); [by rewrite Z.mul_pow2_bits_low|];
     rewrite (Z.bits_above_log2 d), andb_false_r; [done|lia|];
     destruct (decide (d = 0)) as [->|]; [simpl; lia|];
     apply Z.log2_lt_pow2; [lia|]; apply Z.lt_le_trans with (2 ^ 4); [lia|apply Z.pow_le_mono_r; lia]).
Qed.

Lemma hex_step num d : 0 <= d < 16 ->
  Z.lor (as_i64 (Z.shiftl (as_i64 num) 4)) d = as_i64 (num * 16 + d).
Proof.
  intros Hd. rewrite Z.shiftl_mul_pow2 by lia. change (2 ^ 4) with 16.
  assert (E : as_i64 (as_i64 num * 16) = as_i64 (num * 16)).
  { apply i64_cong. rewrite <-Zmult_mod_idemp_l, i64_mod. by rewrite Zmult_mod_idemp_l. }
  rewrite E. pose proof (as_i64_range (num * 16)) as Hr. pose proof (i64_mod (num * 16)) as Hm.
  assert (Hq : exists q, as_i64 (num * 16) = q * 16).
  { exists (num - 2 ^ 60 * ((num * 16 + 2 ^ 63) / 2 ^ 64)). unfold as_i64, wrapS.
    change (2 ^ (64 - 1)) with (2 ^ 63). pose proof (Z.div_mod (num * 16 + 2 ^ 63) (2 ^ 64) ltac:(done)) as E1. lia. }
  destruct Hq as [q Hq]. rewrite Hq, lor_low by done. rewrite <-Hq.
  rewrite (i64_cong (num * 16 + d) (as_i64 (num * 16) + d)).
  - symmetry. apply as_i64_small. unfold in_i64 in *. rewrite Hq in *. lia.
  - rewrite <-Zplus_mod_idemp_l, <-Hm. by rewrite Zplus_mod_idemp_l.
Qed.

Lemma scan_hex_digits ds tl : forall i num, run_of is_ascii_hexdigit ds -> stops is_ascii_hexdigit tl ->
  scan_hex (ds ++ tl) i (as_i64 num) = (i + len ds, as_i64 (foldl (fun a b => a * 16 + hex_digit b) num ds)).
Proof.
  induction ds as [|d ds IH]; intros i num Hd Ht; cbn [app scan_hex foldl].
  - rewrite len_nil, Z.add_0_r. destruct tl as [|b l]; [done|]. cbn [scan_hex]. by rewrite Ht.
  - apply Forall_cons in Hd as [Hd Hds]. rewrite Hd, hex_step by by apply hex_byte_range.
    rewrite IH by done. rewrite len_cons. f_equal. lia.
Qed.

Lemma dec_value_app ds fs : dec_value (ds ++ fs) = foldl dec_step (dec_value ds) fs.
Proof. apply foldl_app. Qed.

Lemma dec_grows fs : forall a, digits fs -> 0 <= a -> a <= foldl dec_step a fs.
Proof.
  induction fs as [|b fs IH]; intros a Hd Ha; [done|]. apply Forall_cons in Hd as [Hb Hd].
  apply decimal_byte_range in Hb. cbn [foldl]. specialize (IH (dec_step a b) Hd). unfold dec_step in *. lia.
Qed.

Lemma dec_value_nonneg ds : digits ds -> 0 <= dec_value ds.
Proof. intros. by apply (dec_grows ds 0). Qed.

Lemma scan_frac_digits fs tl : forall i s d, digits fs -> stops is_ascii_digit tl -> 0 <= d <= 255 ->
  exists s', scan_frac (fs ++ tl) i s d = (i + len fs, s', Z.min 255 (d + len fs)) /\
    (0 <= s -> foldl dec_step s fs < 2 ^ 63 -> s' = foldl dec_step s fs).
Proof.
  induction fs as [|b fs IH]; intros i s d Hd Ht Hr; cbn [app scan_frac foldl].
  - exists s. rewrite len_nil, !Z.add_0_r, Z.min_r by lia. split; [|done].
    destruct tl as [|b l]; [done|]. cbn [scan_frac]. by rewrite Ht.
  - apply Forall_cons in Hd as [Hb Hd]. rewrite Hb. pose proof (decimal_byte_range b Hb) as Hb'.
    destruct (IH (i + 1) (saturate_i64 (saturate_i64 (s * 10) + (b - 48))) (Z.min 255 (d + 1)) Hd Ht ltac:(lia))
      as (s' & -> & Hs).
    exists s'. rewrite len_cons. pose proof (len_nonneg fs). split; [f_equal; [f_equal; lia|lia]|].
    intros H0 Hlt. pose proof (dec_grows fs (dec_step s b) Hd) as Hg. unfold dec_step in Hg at 1 2.
    assert (E : saturate_i64 (saturate_i64 (s * 10) + (b - 48)) = dec_step s b)
      by (unfold saturate_i64, dec_step in *; lia).
    rewrite E in *. apply Hs; [unfold dec_step; lia|done].
Qed.

Lemma match_suffix_prefix src j s : 0 <= j <= len src ->
  match_suffix src j s = true <-> s `prefix_of` rest src j.
Proof.
  intros Hj. unfold match_suffix, bytes_eqb, sub. fold (rest src j).
  replace (Z.to_nat (j + len s - j)) with (length s) by (unfold len; lia).
  pose proof (len_rest src j Hj) as Hl. rewrite andb_true_iff, bool_decide_eq_true, Z.leb_le. split.
  - intros [_ E]. exists (drop (length s) (rest src j)). rewrite <-E at 1. by rewrite take_drop.
  - intros [k E]. rewrite E, take_app_length in *. rewrite len_app in Hl. pose proof (len_nonneg k). split; [lia|done].
Qed.

(** A time literal at [i] of 2^64 nanoseconds or more. *)
Definition overflows (src : list Z) (i : Z) : Prop :=
  exists ds suffix unit next, rest src i = ds ++ suffix ++ next /\ digits ds /\ ds <> [] /\
    (suffix, unit) ∈ units /\ 2 ^ 64 <= as_u64 (dec_value ds) * unit.

(** What a scanner gives at [i]. *)
Definition scanned (oc : bool) (src : list Z) (i : Z) (r : lres (TokenKind.t * Z)) : Prop :=
  match r with
  | Ok (k, j) => exists text next, rest src i = text ++ next /\ j = i + len text /\ lexeme next k text
  | Err _ => False
  | Panic q => oc = true /\ q = ArithmeticOverflow /\ overflows src i
  end.

Lemma time_scanned oc src i ds suffix unit next : rest src i = ds ++ suffix ++ next ->
  digits ds -> ds <> [] -> (suffix, unit) ∈ units ->
  scanned oc src i (n ← mul_u64 oc (as_u64 (as_i64 (dec_value ds))) unit;
                    mret (TokenKind.TimeLiteral n, i + len ds + len suffix)).
Proof.
  intros E Hd Hne Hu. rewrite u64_of_i64. unfold mul_u64.
  assert (Hok : forall n, n = as_u64 (dec_value ds * unit) ->
    scanned oc src i (Ok (TokenKind.TimeLiteral n, i + len ds + len suffix))).
  { intros n ->. exists (ds ++ suffix), next. rewrite len_app, E, app_assoc. split_and!; [done|lia|by constructor]. }
  assert (Hpos : 0 <= unit).
  { assert (Ha : Forall (fun u => 0 <= snd u) units) by (repeat constructor; cbn; lia).
    rewrite Forall_forall in Ha. exact (Ha _ Hu). }
  destruct (Z.ltb_spec (as_u64 (dec_value ds) * unit) (2 ^ 64)) as [Hlt|Hge].
  - apply Hok. rewrite <-u64_mul. unfold as_u64 at 2, wrapU. rewrite Z.mod_small; [done|].
    pose proof (as_u64_range (dec_value ds)). unfold in_u64 in *. nia.
  - destruct oc; [by split_and!; [..|exists ds, suffix, unit, next]|]. apply Hok. apply u64_mul.
Qed.

Lemma decimal_scanned oc src i b : 0 <= i -> getZ src i = Some b -> is_ascii_digit b = true ->
  (b = 48 -> next_is src i 120 || next_is src i 88 = false) -> scanned oc src i (lex_decimal oc src i).
Proof.
  intros Hi Hb Hdig Hx. pose proof (getZ_Some_lt _ _ _ Hb) as Hil.
  destruct (count_while_cut is_ascii_digit (rest src i)) as (ds & next & E & Hd & Hs & _).
  assert (Hne : ds <> []).
  { intros ->. rewrite (rest_getZ _ _ _ Hb) in E. cbn in E. subst next. cbn in Hs. congruence. }
  unfold lex_decimal. rewrite E, scan_dec_digits; [|done|intros c l ->; exact Hs|done].
  fold (dec_value ds). pose proof (rest_app_skip src i ds next Hi E) as Er.
  pose proof (len_nonneg ds). assert (Hj : 0 <= i + len ds <= len src).
  { pose proof (len_rest src i ltac:(lia)) as L. rewrite E, len_app in L. pose proof (len_nonneg next). lia. }
  destruct (bool_decide (getZ src (i + len ds) = Some 46) && _) eqn:Hdot.
  { apply andb_true_iff in Hdot as [Hdot%bool_decide_eq_true Hdd].
    apply rest_getZ in Hdot as E1. rewrite Er in E1.
    destruct (getZ src (i + len ds + 1)) as [c|] eqn:Ec; [|done]. apply rest_getZ in Ec.
    destruct (count_while_cut is_ascii_digit (rest src (i + len ds + 1))) as (fs & tl & E2 & Hf & Ht & _).
    assert (Hfne : fs <> []) by (intros ->; rewrite Ec in E2; cbn in E2; subst tl; cbn in Ht; congruence).
    rewrite E2. destruct (scan_frac_digits fs tl (i + len ds + 1) (as_i64 (dec_value ds)) 0 Hf Ht ltac:(lia)) as (s' & -> & Hsc).
    exists (ds ++ 46 :: fs), tl. rewrite E, E1, E2, <-app_assoc, len_app, len_cons. split_and!; [done|lia|].
    rewrite Z.add_0_l. apply lex_float; [exact Hd|done|exact Hf|done|exact Ht|]. rewrite dec_value_app. intros Hlt.
    pose proof (dec_value_nonneg ds Hd). pose proof (dec_grows fs (dec_value ds) Hf ltac:(done)).
    rewrite as_i64_small in Hsc by (unfold in_i64; lia). by apply Hsc. }
  pose proof (fun s => match_suffix_prefix src (i + len ds) s Hj) as Hm. rewrite Er in Hm.
  assert (Htime : forall s u, (s, u) ∈ units -> match_suffix src (i + len ds) s = true ->
    scanned oc src i (n ← mul_u64 oc (as_u64 (as_i64 (dec_value ds))) u; mret (TokenKind.TimeLiteral n, i + len ds + len s))).
  { intros s u Hu [k Ek]%Hm. apply (time_scanned _ _ _ _ _ _ k); [by rewrite E, Ek|done..]. }
  destruct (match_suffix src _ (bytes "ns")) eqn:M1.
  { pose proof (Htime (bytes "ns") 1 ltac:(by left) M1) as H1. unfold mul_u64 in H1. rewrite Z.mul_1_r in H1.
    pose proof (as_u64_range (as_i64 (dec_value ds))) as Hr. unfold in_u64 in Hr.
    rewrite (proj2 (Z.ltb_lt _ _)) in H1 by lia. exact H1. }
  destruct (match_suffix src _ (bytes "us")) eqn:M2; [apply (Htime (bytes "us") 1000); [by right; left|done]|].
  destruct (match_suffix src _ (bytes "ms")) eqn:M3; [apply (Htime (bytes "ms") 1000000); [by right; right; left|done]|].
  destruct (match_suffix src _ (bytes "s")) eqn:M4; [apply (Htime (bytes "s") 1000000000); [by right; right; right; left|done]|].
  exists ds, next. split_and!; [done|done|]. apply lex_integer; [exact Hd|done|exact Hs|..].
  - intros (d & l & -> & Hfd). apply rest_cons in Er as (E1 & Er & _); [|lia].
    apply rest_cons in Er as (E2 & _); [|lia]. rewrite E1, E2 in Hdot. rewrite bool_decide_eq_true_2 in Hdot by done.
    cbn in Hdot. congruence.
  - repeat constructor; cbn [fst]; rewrite <-Hm; congruence.
  - intros ->. rewrite (rest_getZ _ _ _ Hb) in E. injection E as -> E. specialize (Hx eq_refl).
    destruct next as [|c l]; [done|]. apply rest_cons in E as (E & _); [|lia]. unfold next_is in Hx. rewrite E in Hx.
    cbn. apply orb_false_iff in Hx as [H1%bool_decide_eq_false H2%bool_decide_eq_false].
    apply orb_false_iff. rewrite !Z.eqb_neq. split; congruence.
Qed.

Lemma number_scanned oc src i b : 0 <= i -> getZ src i = Some b -> is_ascii_digit b = true ->
  scanned oc src i (lex_number oc src i b).
Proof.
  intros Hi Hb Hd. unfold lex_number. destruct ((b =? 48) && _) eqn:Hx.
  2: { apply (decimal_scanned _ _ _ b); [done..|]. intros ->. by rewrite Z.eqb_refl in Hx. }
  apply andb_true_iff in Hx as [->%Z.eqb_eq Hx]. apply rest_getZ in Hb.
  assert (exists x, x ∈ [120; 88] /\ getZ src (i + 1) = Some x) as (x & Hxin & Ex).
  { unfold next_is in Hx. rewrite orb_true_iff, !bool_decide_eq_true in Hx.
    destruct Hx as [Hx|Hx]; rewrite Hx; eexists; (split; [|reflexivity]); set_solver. }
  apply rest_getZ in Ex. replace (i + 1 + 1) with (i + 2) in Ex by lia.
  destruct (count_while_cut is_ascii_hexdigit (rest src (i + 2))) as (ds & next & E & Hh & Hs & _).
  rewrite E. change 0 with (as_i64 0). rewrite scan_hex_digits by done. cbn [as_i64].
  exists (48 :: x :: ds), next. rewrite Hb, Ex, E, !len_cons. split_and!; [done|lia|]. by constructor.
Qed.

(** What the [match] of [tokenize] gives at [pos st]. *)
Definition matched (oc : bool) (src : list Z) (i b : Z) (r : lres (option TokenKind.t * lexer)) : Prop :=
  match r with
  | Ok (Some k, st) => exists text next, rest src i = text ++ next /\ pos st = i + len text /\ lexeme next k text
  | Ok (None, st) => pos st = i + 1 /\ begins_nothing b
  | Err _ => False
  | Panic q => oc = true /\ q = ArithmeticOverflow /\ overflows src i
  end.

Lemma scanned_matched oc src i b ln r : scanned oc src i r ->
  matched oc src i b ('(k, j) ← r; mret (Some k, mkLexer j ln)).
Proof.
  destruct r as [[k j]|e|q]; [|done..]. intros (text & next & E & -> & Hl). by exists text, next.
Qed.

Lemma op_scanned oc src i b alts d : 0 <= i -> getZ src i = Some b -> symbol_group b alts d = true ->
  (b = 47 -> stops (fun c => (c =? 47) || (c =? 42)) (rest src (i + 1))) -> scanned oc src i (lex_op src i alts d).
Proof.
  intros Hi Hb Hg Hc. destruct (lex_op_lexeme src i b alts d Hi Hb Hg Hc) as (k & text & next & -> & E & Hl).
  by exists text, next.
Qed.

(** A slash that is lexed begins no comment. *)
Lemma no_comment src st : skip_step src st = None -> 0 <= pos st -> getZ src (pos st) = Some 47 ->
  stops (fun c => (c =? 47) || (c =? 42)) (rest src (pos st + 1)).
Proof.
  intros Hs Hp Hb. apply rest_getZ in Hb. unfold skip_step in Hs. rewrite Hb in Hs.
  destruct (rest src (pos st + 1)) as [|c l]; [done|]. cbn in *.
  destruct (c =? 47); [done|]. destruct (c =? 42); [|done].
  by destruct (scan_block _ _ _).
Qed.

Lemma string_matched oc src st : 0 <= pos st -> getZ src (pos st) = Some 34 ->
  matched oc src (pos st) 34
    (let '(j, line) := scan_string (rest src (pos st + 1)) (pos st + 1) (lline st) in
     mret (Some TokenKind.StringLit, mkLexer (if j <? len src then j + 1 else j) line)).
Proof.
  intros Hp Hb. pose proof (getZ_Some_lt _ _ _ Hb). apply rest_getZ in Hb.
  destruct (scan_string_cut (rest src (pos st + 1)) (pos st + 1) (lline st)) as (body & next & E & Hq & Ej & Hn).
  destruct (scan_string _ _ _) as [j ln]. cbn [fst] in Ej. subst j.
  pose proof (len_rest src (pos st + 1) ltac:(lia)) as L. rewrite E, len_app in L. pose proof (len_nonneg body).
  destruct Hn as [->|[k ->]].
  - rewrite len_nil in L. rewrite (proj2 (Z.ltb_ge _ _)) by lia. exists (34 :: body), [].
    rewrite Hb, E, len_cons. split_and!; [done|cbn; lia|by constructor].
  - rewrite len_cons in L. pose proof (len_nonneg k). rewrite (proj2 (Z.ltb_lt _ _)) by lia.
    exists (34 :: body ++ [34]), k. rewrite Hb, E, len_cons, len_app. change (len [34]) with 1.
    split_and!; [cbn; by rewrite <-app_assoc|cbn; lia|by constructor].
Qed.

(** The bytes that begin an operator. *)
Definition symbol_bytes : list Z := [40; 41; 123; 125; 59; 44; 46; 63; 58; 43; 45; 42; 47; 37; 91; 93; 94; 124; 61; 33; 60; 62; 38].

Lemma symbol_heads : forallb (fun s => match fst s with b :: _ => existsb (Z.eqb b) symbol_bytes | [] => false end) symbols = true.
Proof. vm_compute. reflexivity. Qed.

Lemma dropped_byte b : b ∉ [32; 9; 13; 10] -> b ∉ [34; 36; 35; 64] -> b ∉ symbol_bytes ->
  is_ascii_digit b = false -> is_letter b = false -> begins_nothing b.
Proof.
  intros H1 H2 H3 Hd Hl. split_and!; [set_solver|done|done|]. apply Forall_forall. intros s Hs%list_elem_of_In Hh.
  pose proof symbol_heads as H. rewrite forallb_forall in H. specialize (H _ Hs).
  destruct (fst s) as [|x l]; [done|]. injection Hh as ->. apply existsb_exists in H as (y & Hy & ->%Z.eqb_eq).
  by apply H3, list_elem_of_In.
Qed.

Lemma no_blank src st b : skip_step src st = None -> 0 <= pos st -> getZ src (pos st) = Some b -> b ∉ [32; 9; 13; 10].
Proof.
  intros Hs Hp Hb Hin. apply rest_getZ in Hb. unfold skip_step in Hs. rewrite Hb in Hs.
  destruct (_ || _) eqn:E in Hs; [done|]. rewrite !orb_false_iff, !Z.eqb_neq in E.
  destruct (Z.eqb_spec b 10); [done|]. set_solver.
Qed.

(** The word that begins at [i] with [b], a byte of its class. *)
Lemma run_at p src i b : 0 <= i -> getZ src i = Some b -> p b = true ->
  exists name next, rest src i = (b :: name) ++ next /\ run_of p name /\ stops p next /\
    scan_while p src i = i + len (b :: name).
Proof.
  intros Hi Hb Hp. destruct (scan_while_cut p src i) as (run & next & E & Hr & Hs & Hw).
  pose proof E as E'. rewrite (rest_getZ _ _ _ Hb) in E'. destruct run as [|c name].
  { cbn in E'. subst next. cbn in Hs. congruence. }
  injection E' as <- E'. exists name, next. apply Forall_cons in Hr as [_ Hr]. by split_and!.
Qed.

Lemma word_matched oc src i b ln : 0 <= i -> getZ src i = Some b -> is_letter b = true ->
  matched oc src i b (let j := scan_while is_dotted_byte src i in
    '(k, j) ← mret (keyword (sub src i j) keywords TokenKind.Ident, j); mret (Some k, mkLexer j ln)).
Proof.
  intros Hi Hb Hl. cbv zeta. apply scanned_matched.
  destruct (run_at is_dotted_byte src i b Hi Hb) as (name & next & E & Hr & Hs & ->).
  { unfold is_dotted_byte, is_ident_byte, is_ascii_alphanumeric. unfold is_letter in Hl.
    apply orb_true_iff in Hl as [-> | ->]; by rewrite ?orb_true_r. }
  rewrite (sub_app_skip src i _ next Hi E). exists (b :: name), next. split_and!; [done|done|].
  destruct (keyword_spec (b :: name) keywords words TokenKind.Ident words_same) as [H|[-> H]];
    [by apply lex_word|by apply lex_ident].
Qed.

(** A word after a byte that marks its kind. *)
Lemma marked_run p src i b : 0 <= i -> getZ src i = Some b ->
  exists name next, rest src i = (b :: name) ++ next /\ run_of p name /\ stops p next /\
    scan_while p src (i + 1) = i + len (b :: name) /\ sub src (i + 1) (i + len (b :: name)) = name.
Proof.
  intros Hi Hb. destruct (scan_while_cut p src (i + 1)) as (name & next & E & Hr & Hs & Hw).
  exists name, next. rewrite (rest_getZ _ _ _ Hb), E, Hw, len_cons. replace (i + 1 + len name) with (i + (1 + len name)) by lia.
  split_and!; [done..|]. replace (i + (1 + len name)) with (i + 1 + len name) by lia. apply (sub_app_skip _ _ _ next); [lia|done].
Qed.

Lemma lex_one_matched oc src st b : 0 <= pos st -> getZ src (pos st) = Some b -> skip_step src st = None ->
  matched oc src (pos st) b (lex_one oc src st b).
Proof.
  intros Hp Hb Hskip. unfold lex_one. cbv zeta.
  repeat match goal with
  | |- matched _ _ _ _ (if ?c =? ?n then ('(_, _) ← lex_op _ _ _ _; _) else _) =>
    destruct (Z.eqb_spec c n) as [->|?];
    [apply scanned_matched, (op_scanned _ _ _ n); [done|done|vm_compute; reflexivity|]; intros Hc;
     first [discriminate Hc | by apply no_comment]|]
  end.
  destruct (Z.eqb_spec b 34) as [->|?]; [by apply string_matched|].
  destruct (is_ascii_digit b) eqn:Hd; [by apply scanned_matched, number_scanned|].
  destruct (Z.eqb_spec b 36) as [->|?].
  { apply scanned_matched. destruct (marked_run is_ident_byte src (pos st) 36 Hp Hb) as (name & next & E & Hr & Hs & -> & _).
    exists (36 :: name), next. split_and!; [done|done|by constructor]. }
  destruct (Z.eqb_spec b 35) as [->|?].
  { apply scanned_matched. destruct (marked_run is_ident_byte src (pos st) 35 Hp Hb) as (name & next & E & Hr & Hs & -> & _).
    exists (35 :: name), next. split_and!; [done|done|by constructor]. }
  destruct (Z.eqb_spec b 64) as [->|?].
  { apply scanned_matched. destruct (marked_run is_dotted_byte src (pos st) 64 Hp Hb) as (name & next & E & Hr & Hs & -> & ->).
    exists (64 :: name), next. split_and!; [done|done|].
    destruct (keyword_spec name directives at_words TokenKind.IntrinsicIdent at_words_same) as [H|[-> H]];
      [by apply lex_directive|by apply lex_intrinsic]. }
  fold (is_letter b). destruct (is_letter b) eqn:Hl; [by apply word_matched|].
  split; [done|]. apply dropped_byte; try done; [by eapply no_blank|set_solver|].
  unfold symbol_bytes. set_solver.
Qed.

(** * The token list *)

Lemma matched_bound src i text next : 0 <= i <= len src -> rest src i = text ++ next -> i + len text <= len src.
Proof. intros Hi E. pose proof (len_rest src i Hi) as L. rewrite E, len_app in L. pose proof (len_nonneg next). lia. Qed.

Lemma written_eof tokens ts eof : len ts < len tokens ->
  setZ (written tokens 0 ts) (0 + len ts) eof = written tokens 0 (ts ++ [eof]).
Proof.
  intros Hn. pose proof (len_nonneg ts). unfold written, setZ. rewrite decide_True by lia.
  replace (Z.to_nat (0 + len ts)) with (length ts + 0)%nat by (unfold len; lia). simpl.
  rewrite insert_app_r. rewrite length_app. simpl. rewrite <-app_assoc. f_equal.
  destruct (drop (length ts) tokens) as [|x l] eqn:Ed.
  - assert (length (drop (length ts) tokens) = 0%nat) as E0 by by rewrite Ed.
    rewrite length_drop in E0. unfold len in *. lia.
  - simpl. f_equal. by rewrite <-drop_drop, Ed.
Qed.

(** What the loop gives from [lo] on, with [count] tokens written. *)
Definition loop_tiles (oc : bool) (src : list Z) (lo count : Z) (tokens : list Token)
    (r : lres (lexer * Z * list Token)) : Prop :=
  match r with
  | Ok (st, n, out) => exists ts, n = count + len ts /\ n < len tokens /\ out = written tokens count ts /\
      0 <= pos st <= len src /\ (n + 1 = len tokens \/ pos st = len src) /\ tiling src lo ts (pos st)
  | Err _ => False
  | Panic q => oc = true /\ q = ArithmeticOverflow /\ exists ts e, tiling src lo ts e /\ overflows src e
  end.

Lemma lex_loop_tiles oc src fuel : forall st count tokens,
  0 <= pos st <= len src -> 0 <= count < len tokens -> len src - pos st < Z.of_nat fuel ->
  exists r, lex_loop fuel oc src st count tokens = Some r /\ loop_tiles oc src (pos st) count tokens r.
Proof.
  induction fuel as [|fuel IH]; intros st count tokens Hp Hc Hf; [lia|]. cbn [lex_loop].
  destruct ((pos st <? len src) && (count + 1 <? len tokens)) eqn:Hg.
  2: { apply andb_false_iff in Hg. rewrite !Z.ltb_ge in Hg.
       eexists. split; [reflexivity|]. exists []. rewrite written_nil, len_nil. split_and!; try done; try lia.
       constructor. }
  apply andb_true_iff in Hg as [Hg1%Z.ltb_lt Hg2%Z.ltb_lt].
  pose proof (skip_bound src st Hp) as Hs. pose proof (skip_complete src st Hp) as Hsk.
  assert (Hskip : forall ts e, tiling src (pos (skip_whitespace_and_comments src st)) ts e -> tiling src (pos st) ts e)
    by (intros ts e; by apply skip_loop_tiling).
  set (st1 := skip_whitespace_and_comments src st) in *.
  destruct (Z.leb_spec (len src) (pos st1)).
  { eexists. split; [reflexivity|]. exists []. rewrite written_nil, len_nil. split_and!; try done; try lia; try (apply Hskip; constructor). }
  destruct (get_line_and_col src (pos st1)) as [ln cl] eqn:Elc.
  destruct (@idx_in_range CompileError _ src (pos st1) ltac:(lia)) as (b & -> & Hb).
  pose proof (lex_one_ok oc src st1 b Hb) as Hone. pose proof (lex_one_matched oc src st1 b ltac:(lia) Hb Hsk) as Hm.
  destruct (lex_one oc src st1 b) as [[[k|] st2]|e|q]; cbn [lexed_one matched] in Hone, Hm; [| |done|].
  - destruct Hm as (text & next & E & E2 & Hl). rewrite upd_in_range by lia.
    set (t := mkToken k (pos st1) (pos st2 - pos st1) ln cl).
    destruct (IH st2 (count + 1) (setZ tokens count t)) as (r & Hr & Hres); [lia|rewrite len_setZ; lia|lia|].
    assert (Ht : forall ts e, tiling src (pos st2) ts e -> tiling src (pos st) (t :: ts) e).
    { intros ts e H'. apply Hskip. apply (tiling_token src t text next); cbn [t start tlen kind line col]; [done|lia|done|done|].
      by rewrite <-E2. }
    exists r. split; [exact Hr|]. destruct r as [[[st3 n] out]|e|q]; [|done|].
    + destruct Hres as (ts & -> & Hn & -> & Hp3 & He & Htl). rewrite len_setZ in Hn, He.
      exists (t :: ts). rewrite len_cons. split_and!; [lia|lia|by apply written_upd; lia|lia|lia|lia|by apply Ht].
    + destruct Hres as (-> & -> & ts & e & Htl & Ho). split_and!; [done..|]. exists (t :: ts), e. split; [by apply Ht|done].
  - destruct Hm as [E2 Hn]. destruct (IH st2 count tokens) as (r & Hr & Hres); [lia..|].
    assert (Ht : forall ts e, tiling src (pos st2) ts e -> tiling src (pos st) ts e).
    { intros ts e H'. apply Hskip. eapply (tiling_filler src _ [b] (rest src (pos st1 + 1))); [by apply rest_getZ|by constructor|].
      change (len [b]) with 1. by rewrite <-E2. }
    exists r. split; [exact Hr|]. destruct r as [[[st3 n] out]|e|q]; [|done|].
    + destruct Hres as (ts & -> & Hn' & -> & Hp3 & He & Htl). exists ts. split_and!; try done; try lia. by apply Ht.
    + destruct Hres as (-> & -> & ts & e & Htl & Ho). split_and!; [done..|]. exists ts, e. split; [by apply Ht|done].
  - destruct Hm as (-> & -> & Ho). eexists. split; [reflexivity|]. split_and!; [done..|].
    exists [], (pos st1). split; [apply Hskip; constructor|done].
Qed.

(** The results of [tokenize]. *)
Definition tiled (oc : bool) (src : list Z) (tokens : list Token) (r : lres (Z * list Token)) : Prop :=
  match r with
  | Ok (n, out) => exists ts eof, n = len ts /\ n < len tokens /\ out = written tokens 0 (ts ++ [eof]) /\
      tiling src 0 ts (len src) /\
      kind eof = TokenKind.Eof /\ start eof = len src /\ tlen eof = 0 /\
      get_line_and_col src (len src) = (line eof, col eof)
  | Err e =>
    (tokens = [] /\ Error.code e = "ERR_TOKEN_BUFFER_EMPTY"%string) \/
    (exists ts, len ts + 1 = len tokens /\ tiling src 0 ts (byte_offset e) /\ byte_offset e < len src /\
       Error.code e = "ERR_MAX_TOKENS_EXCEEDED"%string /\
       get_line_and_col src (byte_offset e) = (err_line e, err_col e))
  | Panic q => oc = true /\ q = ArithmeticOverflow /\ exists ts i, tiling src 0 ts i /\ overflows src i
  end.

(** C27: the lexer is total and its tokens tile the source. On every byte string
    and every buffer, [tokenize] ends. Either the source is, from its first byte to
    its last, the lexemes of its tokens in order, with the kind, the value, the line
    and the column of each, and between them nothing but blanks, comments and
    bytes that begin no lexeme, and an [Eof] token follows; symbols are the longest
    possible, words end where their bytes do. Or the buffer is empty; or the buffer
    is full of such tokens and the source has more. A build with overflow checks panics, and
    only at a time literal of 2^64 nanoseconds or more that follows such tokens. *)
Theorem tokenize_tiles oc src tokens :
  exists r, tokenize oc src tokens = Some r /\ tiled oc src tokens r.
Proof.
  unfold tokenize, tokenize_fuel. destruct (Z.eqb_spec (len tokens) 0) as [H0|H0].
  { eexists. split; [reflexivity|]. left. split; [|done].
    destruct tokens as [|t l]; [done|]. rewrite len_cons in H0. pose proof (len_nonneg l). lia. }
  pose proof (len_nonneg tokens). pose proof (len_nonneg src).
  destruct (lex_loop_tiles oc src (S (length src)) lexer_new 0 tokens) as (r & -> & Hr);
    [simpl; lia | lia | simpl; unfold len; lia |].
  destruct r as [[[st n] out]|e|q]; [|done|by eexists].
  destruct Hr as (ts & -> & Hn & -> & Hp & He & Ht). change (pos lexer_new) with 0 in Ht.
  assert (Htiles : tiling src 0 ts (pos (skip_whitespace_and_comments src st))).
  { assert (Hend : tiling src (pos st) [] (pos (skip_whitespace_and_comments src st)))
      by (eapply skip_loop_tiling; [done|constructor]).
    clear -Ht Hend. induction Ht; [done|by eapply tiling_filler; [..|apply IHHt]|by eapply tiling_token; [..|apply IHHt]]. }
  pose proof (skip_bound src st Hp) as Hs. set (st1 := skip_whitespace_and_comments src st) in *.
  pose proof (len_nonneg ts). destruct (Z.ltb_spec (pos st1) (len src)) as [Hlt|Hge].
  - eexists. split; [reflexivity|]. right. exists ts. unfold max_tokens_error.
    destruct (get_line_and_col src (pos st1)) as [ln cl] eqn:E. cbn [byte_offset Error.code err_line err_col].
    split_and!; [lia|done|done|done|done].
  - assert (Epos : pos st1 = len src) by lia. rewrite Epos in *.
    destruct (get_line_and_col src (len src)) as [ln cl] eqn:E.
    rewrite upd_in_range by (rewrite len_written; lia). eexists. split; [reflexivity|].
    exists ts, (mkToken TokenKind.Eof (len src) 0 ln cl). split_and!; [lia|lia| |done..].
    by apply written_eof; lia.
Qed.

(** * The numbers a program prints *)

(** A value without the bits that mark arguments and texts. *)
Definition untagged (v : Z) : Prop := Z.land v ARG_TAG = 0 /\ Z.land v STR_TAG = 0.

(** The tokens of a printed number: its digits, after a minus if it is negative. *)
Definition number_tokens (v : Z) : list Token :=
  let n := len (show_Z v) in
  if v <? 0 then [mkToken TokenKind.Minus 0 1 1 1; mkToken (TokenKind.Number (as_i64 (- v))) 1 (n - 1) 1 2]
  else [mkToken (TokenKind.Number v) 0 n 1 1].

Lemma one_line src i : 10 ∉ src -> 0 <= i <= len src -> get_line_and_col src i = (1, i + 1).
Proof.
  intros Hn Hi. rewrite (get_line_and_col_split src i [] (take (Z.to_nat i) src)).
  - unfold newlines, len. rewrite filter_nil. cbn. rewrite length_take. unfold len in *. f_equal. lia.
  - done.
  - done.
  - intros Hin. apply Hn. rewrite <-(take_drop (Z.to_nat i) src). apply elem_of_app. by left.
  - by left.
Qed.

(** One round of the loop, on a token that is not preceded by a blank. *)
Lemma lex_loop_token fuel oc src st count tokens b k j :
  10 ∉ src -> 0 <= pos st -> getZ src (pos st) = Some b -> count + 1 < len tokens -> 0 <= count ->
  skip_step src st = None -> lex_one oc src st b = Ok (Some k, mkLexer j (lline st)) ->
  lex_loop (S fuel) oc src st count tokens =
  lex_loop fuel oc src (mkLexer j (lline st)) (count + 1)
    (setZ tokens count (mkToken k (pos st) (j - pos st) 1 (pos st + 1))).
Proof.
  intros Hn Hp Hb Hc Hc0 Hs Hl. pose proof (getZ_Some_lt _ _ _ Hb). cbn [lex_loop].
  rewrite !(proj2 (Z.ltb_lt _ _)) by lia. cbn [andb].
  assert (E : skip_whitespace_and_comments src st = st).
  { unfold skip_whitespace_and_comments. destruct (length src); cbn [skip_loop]; [done|by rewrite Hs]. }
  rewrite E, (proj2 (Z.leb_gt _ _)) by lia. rewrite one_line by (done || lia).
  destruct (@idx_in_range CompileError _ src (pos st) ltac:(lia)) as (b' & -> & Hb'). assert (b' = b) as -> by congruence.
  rewrite Hl, upd_in_range by lia. done.
Qed.

Lemma lex_one_digit oc src st b : is_ascii_digit b = true ->
  lex_one oc src st b = ('(k, j) ← lex_number oc src (pos st) b; mret (Some k, mkLexer j (lline st))).
Proof.
  intros Hd. pose proof (decimal_byte_range b Hd). unfold lex_one. cbv zeta.
  repeat match goal with |- context [if b =? ?n then _ else _] => rewrite (proj2 (Z.eqb_neq b n)) by lia end.
  by rewrite Hd.
Qed.

Lemma skip_step_token src st b : 0 <= pos st -> getZ src (pos st) = Some b -> 45 <= b -> b <> 47 -> skip_step src st = None.
Proof.
  intros Hp Hb Hl Hn. unfold skip_step. rewrite (rest_getZ _ _ _ Hb).
  by rewrite !(proj2 (Z.eqb_neq b _)) by lia.
Qed.

Lemma digits_no_newline ds : digits ds -> 10 ∉ ds.
Proof. intros Hd Hin. unfold digits in Hd. rewrite Forall_forall in Hd. by specialize (Hd 10 Hin). Qed.

(** The digits of a number at [st], up to the end of the source. *)
Lemma lex_loop_number fuel oc pre n count tokens :
  0 <= n < 2 ^ 64 -> 10 ∉ pre -> 0 <= count -> count + 1 < len tokens ->
  let src := pre ++ show_Z n in
  lex_loop (S (S fuel)) oc src (mkLexer (len pre) 1) count tokens =
    Some (Ok (mkLexer (len src) 1, count + 1,
      setZ tokens count (mkToken (TokenKind.Number (as_i64 n)) (len pre) (len (show_Z n)) 1 (len pre + 1)))).
Proof.
  intros Hn Hpre Hc Hl src. destruct (show_Z_head n Hn) as (d & ds & E & Hd & H0).
  assert (Hv : dec_value (show_Z n) = n).
  { unfold dec_value, show_Z. rewrite (proj2 (Z.ltb_ge _ _)) by lia. by rewrite dec_digits_value by lia. }
  assert (Hdig : is_ascii_digit d = true) by by apply Forall_cons in Hd as [Hd _].
  pose proof (decimal_byte_range d Hdig). pose proof (len_nonneg pre).
  assert (Hb : getZ src (len pre) = Some d) by (unfold src; by rewrite E, getZ_app_head).
  pose proof (lex_digits oc pre d ds [] Hd I H0) as Hnum. rewrite app_nil_r, <-E, Hv in Hnum. fold src in Hnum.
  rewrite (lex_loop_token (S fuel) oc src (mkLexer (len pre) 1) count tokens d (TokenKind.Number (as_i64 n)) (len src)).
  - cbn [lex_loop pos lline]. rewrite Z.ltb_irrefl. cbn [andb]. do 5 f_equal.
    unfold src. rewrite len_app. f_equal. lia.
  - unfold src. rewrite not_elem_of_app. split; [done|]. rewrite E. by apply digits_no_newline.
  - done.
  - exact Hb.
  - done.
  - done.
  - apply (skip_step_token _ _ d); cbn [pos]; [done|exact Hb|lia|].
    intros ->. discriminate Hdig.
  - rewrite lex_one_digit by done. cbn [pos]. rewrite Hnum. cbn. unfold src. by rewrite len_app.
Qed.

(** C12: the machine's numbers read back. Of a value without tag bits, [@print]
    writes the decimal digits, after a minus if it is negative, and the lexer on
    that text gives exactly one number, of that value and with the whole text as
    its span, or a minus and the number of the opposite value, and the end. *)
Theorem printed_values_lex oc p v tokens :
  in_i64 v -> untagged v -> 4 <= len tokens ->
  tokenize oc (print_text p v) tokens =
    Some (Ok (len (number_tokens v),
              written tokens 0 (number_tokens v ++
                [mkToken TokenKind.Eof (len (show_Z v)) 0 1 (len (show_Z v) + 1)]))).
Proof.
  intros Hv [Ha Hs] Hl. assert (E : print_text p v = show_Z v) by (unfold print_text; by rewrite Ha, Hs). rewrite E.
  unfold in_i64 in Hv. unfold tokenize, tokenize_fuel. rewrite (proj2 (Z.eqb_neq _ _)) by lia.
  assert (Hloop : lex_loop (S (length (show_Z v))) oc (show_Z v) lexer_new 0 tokens =
    Some (Ok (mkLexer (len (show_Z v)) 1, len (number_tokens v), written tokens 0 (number_tokens v))) /\ 10 ∉ show_Z v).
  { unfold number_tokens. destruct (Z.ltb_spec v 0) as [Hneg|Hpos].
    - assert (Es : show_Z v = [45] ++ show_Z (- v)).
      { unfold show_Z. rewrite (proj2 (Z.ltb_lt v 0)), (proj2 (Z.ltb_ge (- v) 0)) by lia. done. }
      destruct (show_Z_head (- v) ltac:(lia)) as (d & ds & Ed & Hd & _).
      assert (Hn : 10 ∉ show_Z v).
      { rewrite Es, not_elem_of_app, Ed. split; [set_solver|by apply digits_no_newline]. }
      split; [|exact Hn]. assert (Hlen : exists k, length (show_Z v) = S (S k)) by (rewrite Es, Ed; by eexists).
      destruct Hlen as [k Hlen]. rewrite Hlen.
      rewrite (lex_loop_token (S (S k)) oc (show_Z v) lexer_new 0 tokens 45 TokenKind.Minus 1).
      + cbn [lexer_new pos lline]. rewrite Es.
        rewrite (lex_loop_number k oc [45] (- v) 1); [|lia|set_solver|lia|rewrite len_setZ; lia].
        do 3 f_equal. rewrite len_app. change (len [45]) with 1. replace (1 + len (show_Z (- v)) - 1) with (len (show_Z (- v))) by lia.
        rewrite <-(written_upd tokens 0), <-(written_upd _ (0 + 1)) by (rewrite ?len_setZ; change (len [_]) with 1; change (len []) with 0; lia).
        by rewrite written_nil.
      + exact Hn.
      + done.
      + by rewrite Es.
      + lia.
      + done.
      + by apply (skip_step_token _ _ 45); [|rewrite Es| |].
      + unfold lex_one. cbn [pos lexer_new]. rewrite Es, Ed. 
        assert (Hd9 : d <> 61 /\ d <> 62).
        { apply Forall_cons in Hd as [Hd _]. apply decimal_byte_range in Hd. lia. }
        unfold lex_op, next_is. cbn. rewrite !bool_decide_eq_false_2 by (intros [=]; lia). done.
    - destruct (show_Z_head v ltac:(lia)) as (d & ds & Ed & Hd & _).
      split; [|rewrite Ed; by apply digits_no_newline]. rewrite Ed at 1. cbn [length].
      pose proof (lex_loop_number (length ds) oc [] v 0 tokens ltac:(lia) ltac:(set_solver) ltac:(lia) ltac:(lia)) as H.
      cbn [app] in H. change (len []) with 0 in H. unfold lexer_new. rewrite H. rewrite as_i64_small by (unfold in_i64; lia).
      do 4 f_equal. rewrite <-(written_upd tokens 0) by (change (len []) with 0; lia). by rewrite written_nil. }
  destruct Hloop as [-> Hn]. pose proof (len_nonneg (show_Z v)).
  assert (Hskip : skip_whitespace_and_comments (show_Z v) (mkLexer (len (show_Z v)) 1) = mkLexer (len (show_Z v)) 1).
  { pose proof (skip_bound (show_Z v) (mkLexer (len (show_Z v)) 1) ltac:(cbn; lia)) as Hb.
    unfold skip_whitespace_and_comments in *. destruct (length (show_Z v)) as [|n] eqn:El; [done|].
    cbn [skip_loop]. unfold skip_step. cbn [pos]. unfold rest. rewrite drop_ge by (unfold len; lia). done. }
  rewrite Hskip. cbn [pos]. rewrite Z.ltb_irrefl, one_line by (done || lia).
  assert (Hc : len (number_tokens v) <= 2) by (unfold number_tokens; case_match; unfold len; cbn; lia).
  pose proof (len_nonneg (number_tokens v)).
  rewrite upd_in_range by (rewrite len_written; lia). cbn [mbind outcome_bind].
  do 3 f_equal. rewrite <-written_eof by lia. done.
Qed.

Example printed_values_lex_witness :
  tokenize true (print_text (mkProgram [] [] [] []) (- 2 ^ 63)) (replicate 5 empty_token) =
    Some (Ok (2, [mkToken TokenKind.Minus 0 1 1 1; mkToken (TokenKind.Number (- 2 ^ 63)) 1 19 1 2;
                  mkToken TokenKind.Eof 20 0 1 21; empty_token; empty_token])).
Proof.
  rewrite (printed_values_lex true (mkProgram [] [] [] []) (- 2 ^ 63) (replicate 5 empty_token)).
  - vm_compute. reflexivity.
  - unfold in_i64. lia.
  - split; vm_compute; reflexivity.
  - vm_compute. congruence.
Defined.
