(* ===== verification/Vfs.v ===== *)
(** The virtual files under /vram (kernel/src/vfs.rs) and the frame slots they
    expose (kernel/src/gpu.rs): the scratch pad, the raw frame slots and the
    statistics text. *)

From S2P Require Import Prelude RustStd RustStr.
Local Open Scope Z_scope.

Definition VFS_SCRATCH_SIZE : Z := 65536.
Definition NUM_FRAME_SLOTS : Z := 4.

(** The video memory the virtual files show: the scratch buffer, the length of
    the last write to it, and the pool of frame slots. *)
Record vram : Type := mkVram {
  scratch_buffer : list Z;
  scratch_len : Z;
  frame_pool : list (list Z);
}.

Definition raw_frame_slot (b : Z) : list Z := replicate 65536 b.

Definition vram_new : vram := {|
  scratch_buffer := replicate 65536 0; scratch_len := 0;
  frame_pool := [raw_frame_slot 0x5A; raw_frame_slot 0xA5; raw_frame_slot 0x3C;
                 raw_frame_slot 0xC3] |}.

(** The index is in range for a pool of [NUM_FRAME_SLOTS] slots. *)
Definition get_frame_slot_data (v : vram) (slot_id : Z) : list Z :=
  default [] (getZ (frame_pool v) (slot_id mod NUM_FRAME_SLOTS)).

Definition vfs_is_vram_path (path : list Z) : bool :=
  let p := trim path in
  bytes_eqb p (bytes "/vram") || bytes_eqb p (bytes "/vram/") || starts_with p (bytes "/vram/")
  || bytes_eqb p (bytes "vram") || starts_with p (bytes "vram/").

(** [append_str] into a buffer of 1024 bytes: what does not fit is cut off. *)
Definition append_str (buf s : list Z) : list Z :=
  buf ++ take (Z.to_nat (Z.min (len s) (Z.max 0 (1024 - len buf)))) s.

Definition stats_lines : list string := [
  "==================== [LatencyVFS: GPU VRAM FILE SYSTEM] ====================";
  "Mount Point: /vram/ | Backing: Physical GPU DMA Framebuffer Pool";
  "Resolution: 1920x1080 @ 32bpp | Total VRAM Slots: 8 (63.28 MB DMA Pool)";
  "Status: ACTIVE | Zero-Copy GPU Direct Access: ENABLED";
  "----------------------------------------------------------------------------";
  "Virtual Files:";
  "  /vram/slot0..slot7 : Raw RGBA32 Frame Buffer Slots (8,294,400 bytes each)";
  "  /vram/scratch      : High-Speed Zero-Copy Scratch Pad (65,536 bytes)";
  "  /vram/stats        : Telemetry & Memory Allocation Statistics";
  "----------------------------------------------------------------------------" ]%string.

Definition stats_text : list Z :=
  fold_left (fun buf s => append_str buf (bytes s ++ [10])) stats_lines [].

(** The name of the virtual file: the path without its slashes and mount point. *)
Definition vfs_clean (path : list Z) : list Z :=
  let n := length path in
  trim_start_matches n [47] (trim_start_matches n (bytes "vram") (trim_start_matches n [47] path)).

Definition slot_index (clean : list Z) : option Z :=
  i ← parse_usize (drop 4 clean);
  if i <? NUM_FRAME_SLOTS then Some i else None.

Definition vfs_read (v : vram) (path : list Z) : option (list Z) :=
  let clean := vfs_clean path in
  if bytes_eqb clean [] then None
  else if bytes_eqb clean (bytes "stats") then Some stats_text
  else if starts_with clean (bytes "slot") then get_frame_slot_data v <$> slot_index clean
  else if bytes_eqb clean (bytes "scratch") then
    let n := Z.min (scratch_len v) VFS_SCRATCH_SIZE in
    Some (if 0 <? n then sub (scratch_buffer v) 0 n else scratch_buffer v)
  else None.

(** The error is a message: [None]. *)
Definition vfs_write (v : vram) (path data : list Z) : option vram :=
  let clean := vfs_clean path in
  if bytes_eqb clean (bytes "scratch") then
    let n := Z.min (len data) VFS_SCRATCH_SIZE in
    Some (mkVram (splice (scratch_buffer v) 0 (sub data 0 n)) n (frame_pool v))
  else if starts_with clean (bytes "slot") then
    i ← slot_index clean;
    let slot := get_frame_slot_data v i in
    let n := Z.min (len data) (len slot) in
    Some (mkVram (scratch_buffer v) (scratch_len v)
            (setZ (frame_pool v) (i mod NUM_FRAME_SLOTS) (splice slot 0 (sub data 0 n))))
  else None.

(** [capture_frame_zero_copy]: the slot whose first four bytes become the
    frame number. *)
Definition capture_pattern (v : vram) (slot_id frame_id : Z) : vram :=
  let i := slot_id mod NUM_FRAME_SLOTS in
  mkVram (scratch_buffer v) (scratch_len v)
    (setZ (frame_pool v) i (splice (get_frame_slot_data v slot_id) 0 (Z_to_le 4 frame_id))).

(** * Well-formed video memory *)

Record vram_wf (v : vram) : Prop := {
  wf_scratch : len (scratch_buffer v) = 65536;
  wf_scratch_len : 0 <= scratch_len v <= 65536;
  wf_pool : len (frame_pool v) = 4;
  wf_slots : Forall (fun s => len s = 65536) (frame_pool v);
}.

Lemma vram_new_wf : vram_wf vram_new.
Proof.
  constructor; try done.
  repeat constructor; unfold raw_frame_slot; rewrite len_replicate; reflexivity.
Qed.

Lemma get_frame_slot_in v i :
  vram_wf v -> 0 <= i -> exists s, getZ (frame_pool v) (i mod 4) = Some s /\
    get_frame_slot_data v i = s /\ len s = 65536.
Proof.
  intros [] Hi. pose proof (Z.mod_pos_bound i 4 ltac:(lia)).
  destruct (getZ_lt_Some (frame_pool v) (i mod 4) ltac:(lia)) as [s Hs].
  exists s. unfold get_frame_slot_data, NUM_FRAME_SLOTS. rewrite Hs. split_and!; try done.
  by apply (Forall_getZ _ _ _ _ wf_slots0 Hs).
Qed.

Lemma parse_digits_nonneg l acc i : 0 <= acc -> parse_digits acc l = Some i -> 0 <= i.
Proof.
  revert acc. induction l as [|b l IH]; intros acc Ha; simpl; [congruence|].
  case_match eqn:E; [|done]. apply in_range_spec in E. case_match; [|done]. apply IH. lia.
Qed.

Lemma parse_usize_nonneg l i : parse_usize l = Some i -> 0 <= i.
Proof.
  unfold parse_usize. generalize (match l with 43 :: (_ :: _) as k => k | _ => l end).
  intros k. destruct k; [done|]. by apply parse_digits_nonneg.
Qed.

Lemma slot_index_range c i : slot_index c = Some i -> 0 <= i < 4.
Proof.
  unfold slot_index. destruct (parse_usize (drop 4 c)) eqn:E; simpl; [|done].
  apply parse_usize_nonneg in E. unfold NUM_FRAME_SLOTS. case_match eqn:H; [|done].
  apply Z.ltb_lt in H. intros [= <-]. lia.
Qed.

Lemma vfs_write_wf v p d v' : vram_wf v -> vfs_write v p d = Some v' -> vram_wf v'.
Proof.
  intros Hv. pose proof Hv as []. pose proof (len_nonneg d). unfold vfs_write, VFS_SCRATCH_SIZE.
  case_match; [|case_match; [|done]].
  - intros [= <-]. constructor; simpl; try done; [|lia].
    rewrite len_splice; rewrite ?len_sub; lia.
  - destruct (slot_index (vfs_clean p)) as [i|] eqn:Ei; simpl; [|done]. intros [= <-].
    apply slot_index_range in Ei. destruct (get_frame_slot_in v i Hv ltac:(lia)) as (s & Hs & -> & Hl).
    constructor; simpl; try done; [by rewrite len_setZ|].
    apply Forall_setZ; [done|]. rewrite Hl. rewrite len_splice; rewrite ?len_sub; lia.
Qed.

(** * What a write leaves to be read *)

(** What is read back from a virtual file after [data] was written over [old]:
    a frame slot keeps its bytes after the data, the scratch pad forgets them,
    but shows the whole pad after an empty write. *)
Definition read_back (slot : bool) (old data : list Z) : list Z :=
  let cut := sub data 0 (Z.min (len data) 65536) in
  if slot then splice old 0 cut else if 0 <? len data then cut else old.

Lemma read_slot v p :
  starts_with (vfs_clean p) (bytes "slot") = true ->
  vfs_read v p = get_frame_slot_data v <$> slot_index (vfs_clean p).
Proof.
  intros Hs. unfold vfs_read. rewrite Hs.
  destruct (bytes_eqb (vfs_clean p) []) eqn:E1.
  { unfold bytes_eqb in E1. apply bool_decide_eq_true in E1. by rewrite E1 in Hs. }
  destruct (bytes_eqb (vfs_clean p) (bytes "stats")) eqn:E2; [|done].
  unfold bytes_eqb in E2. apply bool_decide_eq_true in E2. by rewrite E2 in Hs.
Qed.

Lemma read_scratch v p :
  vfs_clean p = bytes "scratch" ->
  vfs_read v p = Some (let n := Z.min (scratch_len v) 65536 in
    if 0 <? n then sub (scratch_buffer v) 0 n else scratch_buffer v).
Proof. intros Hc. unfold vfs_read. by rewrite Hc. Qed.

Lemma scratch_pool_irrelevant v b n q :
  vfs_clean q <> bytes "scratch" ->
  vfs_read (mkVram b n (frame_pool v)) q = vfs_read v q.
Proof.
  intros Hq. unfold vfs_read, bytes_eqb, get_frame_slot_data.
  repeat (case_bool_decide; try done).
Qed.

Lemma slot_index_read v i s q :
  0 <= i < 4 -> slot_index (vfs_clean q) <> Some i ->
  vfs_read (mkVram (scratch_buffer v) (scratch_len v) (setZ (frame_pool v) (i mod 4) s)) q =
  vfs_read v q.
Proof.
  intros Hi Hq. unfold vfs_read. case_match; [done|]. case_match; [done|].
  case_match; [|done].
  destruct (slot_index (vfs_clean q)) as [j|] eqn:Ej; simpl; [|done].
  pose proof (slot_index_range _ _ Ej). f_equal. unfold get_frame_slot_data, NUM_FRAME_SLOTS. simpl.
  rewrite getZ_setZ_ne; [done|]. rewrite !Z.mod_small by lia. congruence.
Qed.

(** A successful write to a virtual file is what a read of that file, under
    any of its names, returns afterwards: over the old bytes in a frame slot,
    alone in the scratch pad (where an empty write brings back the whole pad);
    data beyond 64 KB is cut off without an error, and every virtual file but
    the one written keeps its contents. *)
Theorem vfs_write_read v p d v' :
  vram_wf v -> vfs_write v p d = Some v' ->
  let slot := starts_with (vfs_clean p) (bytes "slot") in
  let same q := if slot then slot_index (vfs_clean q) = slot_index (vfs_clean p)
                             /\ starts_with (vfs_clean q) (bytes "slot") = true
                else vfs_clean q = bytes "scratch" in
  (exists old, (slot = true -> vfs_read v p = Some old) /\
     (slot = false -> old = splice (scratch_buffer v) 0 (sub d 0 (Z.min (len d) 65536))) /\
     forall q, same q -> vfs_read v' q = Some (read_back slot old d)) /\
  (forall q, (if slot then slot_index (vfs_clean q) <> slot_index (vfs_clean p)
              else vfs_clean q <> bytes "scratch") -> vfs_read v' q = vfs_read v q).
Proof.
  intros Hv Hw slot same. pose proof (len_nonneg d) as Hd. unfold vfs_write, VFS_SCRATCH_SIZE in Hw.
  case_match eqn:Hc.
  - unfold bytes_eqb in Hc. apply bool_decide_eq_true in Hc. subst slot. subst same.
    rewrite Hc. simpl. injection Hw as <-. split.
    + eexists. split_and!; [done..|]. intros q Hq. rewrite read_scratch by done. simpl.
      rewrite Z.min_l by lia. f_equal.
      pose proof (wf_scratch v Hv) as Hl. destruct (Z.ltb_spec 0 (len d)).
      * destruct (Z.ltb_spec 0 (Z.min (len d) 65536)); [|lia].
        assert (E : len (sub d 0 (Z.min (len d) 65536)) = Z.min (len d) 65536)
          by (rewrite len_sub; lia).
        rewrite <-E at 2. rewrite <-(Z.add_0_l (len (sub d _ _))). apply sub_splice; lia.
      * destruct (Z.ltb_spec 0 (Z.min (len d) 65536)); [lia|done].
    + intros q Hq. by apply scratch_pool_irrelevant.
  - case_match eqn:Hs; [|done]. subst slot same. simpl.
    destruct (slot_index (vfs_clean p)) as [i|] eqn:Ei; simpl in Hw; [|done].
    injection Hw as <-. pose proof (slot_index_range _ _ Ei).
    destruct (get_frame_slot_in v i Hv ltac:(lia)) as (s & Hg & Hs' & Hl). split.
    + exists s. split_and!; [|done|].
      * intros _. rewrite read_slot by done. by rewrite Ei, <-Hs'.
      * intros q [Hq Hq2]. rewrite read_slot by done. rewrite Hq. cbn [fmap option_fmap option_map].
        f_equal. unfold get_frame_slot_data at 1, NUM_FRAME_SLOTS. simpl frame_pool.
        rewrite getZ_setZ_eq.
        -- rewrite Hs', Hl. done.
        -- rewrite (wf_pool v Hv). apply Z.mod_pos_bound. lia.
    + intros q Hq. unfold NUM_FRAME_SLOTS. by apply slot_index_read.
Qed.

Definition vram_demo : vram := mkVram (replicate 65536 7) 3 (frame_pool vram_new).

Lemma vram_demo_wf : vram_wf vram_demo.
Proof.
  pose proof vram_new_wf as []. constructor.
  - vm_compute. reflexivity.
  - cbn [vram_demo scratch_len]. lia.
  - exact wf_pool0.
  - exact wf_slots0.
Qed.

Theorem vfs_write_read_witness : exists v' old,
  vfs_write vram_demo (bytes "/vram/slot2") [1; 2] = Some v' /\
  vfs_read vram_demo (bytes "vram/slot2") = Some old /\
  vfs_read v' (bytes "vram/slot+2") = Some (splice old 0 [1; 2]).
Proof.
  destruct (vfs_write vram_demo (bytes "/vram/slot2") [1; 2]) as [v'|] eqn:E; [|discriminate E].
  destruct (vfs_write_read vram_demo (bytes "/vram/slot2") [1; 2] v' vram_demo_wf E)
    as [(old & Ho & _ & H) _].
  exists v', old. split; [reflexivity|]. split; [exact (Ho eq_refl)|].
  exact (H (bytes "vram/slot+2") (conj eq_refl eq_refl)).
Defined.
