(* ===== verification/ExportDisk.v ===== *)
(** The export disk (kernel/src/export_disk.rs): the 8.3 names under which the
    files of the memory file system appear on the FAT16 disk, and the interface
    through which the file system writes its changes through to it. *)

From S2P Require Import Prelude RustStd RustStr.
Local Open Scope Z_scope.

(** * The interface to the disk

    The two write-through entry points return nothing, and ignore every error
    of the disk. *)

Class SyncDisk (X : Type) : Type := {
  export_disk_auto_sync_file : X -> list Z -> list Z -> X;
  export_disk_auto_sync_delete : X -> list Z -> X;
}.

(** * 8.3 names *)

Definition to_ascii_uppercase (b : Z) : Z := if is_ascii_lowercase b then b - 32 else b.

(** The part after the last slash, or else after the last backslash. *)
Definition base_name (name : list Z) : list Z :=
  let name := trim name in
  match rfind 47 name with
  | Some i => drop (Z.to_nat (i + 1)) name
  | None =>
    match rfind 92 name with
    | Some i => drop (Z.to_nat (i + 1)) name
    | None => name
    end
  end.

Definition stem_ext (base : list Z) : list Z * list Z :=
  match rfind 46 base with
  | Some i => (take (Z.to_nat i) base, drop (Z.to_nat (i + 1)) base)
  | None => (base, [])
  end.

(** The loop that copies at most [n] bytes to the array at [i]. *)
Fixpoint put_upper (res : list Z) (i : Z) (n : nat) (s : list Z) : list Z :=
  match n, s with
  | S n, b :: s => put_upper (setZ res i (to_ascii_uppercase b)) (i + 1) n s
  | _, _ => res
  end.

Definition to_83_name (name : list Z) : list Z :=
  let '(stem, ext) := stem_ext (base_name name) in
  put_upper (put_upper (replicate 11 32) 0 8 stem) 8 3 ext.

Example to_83_ex : to_83_name (bytes "/pulselang/my_long_name.pul") = bytes "MY_LONG_PUL".
Proof. reflexivity. Qed.

(** * What an 8.3 name keeps of a name *)

(** The first [n] bytes in upper case, padded with spaces. *)
Definition field83 (n : nat) (s : list Z) : list Z :=
  let u := to_ascii_uppercase <$> take n s in u ++ replicate (n - length u) 32.

Lemma put_upper_spec s : forall n res i,
  0 <= i -> i + Z.of_nat n <= len res ->
  put_upper res i n s =
  take (Z.to_nat i) res ++ (to_ascii_uppercase <$> take n s)
    ++ drop (Z.to_nat i + length (take n s)) res.
Proof.
  induction s as [|b s IH]; intros n res i Hi Hl.
  - destruct n; simpl; by rewrite Nat.add_0_r, take_drop.
  - destruct n as [|n]; cbn [put_upper take].
    { simpl. by rewrite Nat.add_0_r, take_drop. }
    rewrite IH by (rewrite ?len_setZ; lia).
    unfold setZ, len in *. rewrite decide_True by done.
    replace (Z.to_nat (i + 1)) with (S (Z.to_nat i)) by lia.
    rewrite (take_S_r _ _ (to_ascii_uppercase b)) by (apply list_lookup_insert_eq; lia).
    rewrite take_insert_ge by lia. rewrite drop_insert_lt by lia.
    rewrite fmap_cons, <-!app_assoc. simpl. do 4 f_equal. lia.
Qed.

(** The 8.3 name of a name is the first eight bytes of its stem and the first
    three of its extension, in upper case and padded with spaces; so it always
    has eleven bytes, and two names collide exactly when these fields do. *)
Theorem to_83_name_fields name :
  let '(stem, ext) := stem_ext (base_name name) in
  to_83_name name = field83 8 stem ++ field83 3 ext /\ len (to_83_name name) = 11.
Proof.
  unfold to_83_name. destruct (stem_ext (base_name name)) as [stem ext].
  assert (E : put_upper (put_upper (replicate 11 32) 0 8 stem) 8 3 ext =
              field83 8 stem ++ field83 3 ext).
  { rewrite (put_upper_spec stem) by (vm_compute; congruence). rewrite take_0, app_nil_l.
    assert (L : length (to_ascii_uppercase <$> take 8 stem) = length (take 8 stem))
      by apply length_fmap.
    assert (L8 : (length (take 8 stem) <= 8)%nat) by (rewrite length_take; lia).
    rewrite drop_replicate, Nat.add_0_l.
    assert (E : (to_ascii_uppercase <$> take 8 stem) ++ replicate (11 - length (take 8 stem)) 32 =
                field83 8 stem ++ replicate 3 32).
    { unfold field83. rewrite L, <-app_assoc. f_equal. rewrite <-replicate_add. f_equal. lia. }
    rewrite E. assert (F : length (field83 8 stem) = 8%nat).
    { unfold field83. rewrite length_app, length_replicate, L. lia. }
    rewrite put_upper_spec by (unfold len; rewrite ?length_app, ?F; simpl; lia).
    replace (Z.to_nat 8) with (length (field83 8 stem)) by lia. rewrite take_app_length.
    rewrite <-drop_drop, drop_app_length, drop_replicate. unfold field83. rewrite length_fmap.
    by rewrite length_fmap. }
  rewrite E. split; [done|]. unfold field83, len.
  rewrite !length_app, !length_replicate, !length_fmap, !length_take. lia.
Qed.
