(* ===== verification/Fs.v ===== *)
(** LatencyFS (kernel/src/fs.rs): the static table of 128 files, path
    normalisation, and every operation of the file system. The write-through to
    the export disk is the [SyncDisk] interface; the current directory and the
    time stamp counter, which the operations read, are arguments. *)

From S2P Require Import Prelude RustStd RustStr Vfs ExportDisk.
Local Open Scope Z_scope.

Definition MAX_FILES : Z := 128.
Definition MAX_FILENAME_LEN : Z := 64.
Definition MAX_FILE_SIZE : Z := 4096.

Inductive FsError : Set :=
| FileNotFound | DiskFull | FileTooLarge | ReadOnly | InvalidName | NotADirectory
| IsADirectory | DirectoryNotEmpty | AlreadyExists.

#[export] Instance FsError_eq_dec : EqDecision FsError.
Proof. solve_decision. Defined.

Notation fres := (outcome FsError).

(** [name] has 64 bytes and [data] 4096. *)
Record FileEntry : Set := mkEntry {
  name : list Z;
  name_len : Z;
  data : list Z;
  size : Z;
  is_dir : bool;
  read_only : bool;
  modified_tsc : Z;
  used : bool;
}.

Definition empty_entry : FileEntry :=
  mkEntry (replicate 64 0) 0 (replicate 4096 0) 0 false false 0 false.

(** The length is in range in every entry the operations build. *)
Definition name_str (f : FileEntry) : list Z :=
  if name_len f =? 0 then []
  else
    let s := sub (name f) 0 (name_len f) in
    if utf8_valid s then s else bytes "<invalid utf8>".

Definition contents (f : FileEntry) : list Z := sub (data f) 0 (size f).

(** * Path normalisation *)

Definition slash : Z := 47.

(** The loop [for part in path_str.split('/')] over [out] and [out_len]. *)
Fixpoint norm_parts (parts : list (list Z)) (out : list Z) (out_len : Z) : fres (list Z * Z) :=
  match parts with
  | [] => mret (out, out_len)
  | part :: parts =>
    if bytes_eqb part [] || bytes_eqb part (bytes ".") then norm_parts parts out out_len
    else if bytes_eqb part (bytes "..") then
      if 1 <? out_len then
        cur ← slice out 0 out_len;
        let cur_str := if utf8_valid cur then cur else bytes "/" in
        match rfind slash cur_str with
        | Some pos => norm_parts parts out (if pos =? 0 then 1 else pos)
        | None => norm_parts parts out out_len
        end
      else norm_parts parts out out_len
    else
      '(out, out_len) ←
        (if 1 <? out_len then
           if MAX_FILENAME_LEN <=? out_len + 1 + len part then Err InvalidName
           else out ← upd out out_len slash; mret (out, out_len + 1)
         else mret (out, out_len));
      if MAX_FILENAME_LEN <=? out_len + len part then Err InvalidName
      else
        out ← blit out out_len part;
        norm_parts parts out (out_len + len part)
  end.

(** The absolute path before its parts are resolved: [temp] and [temp_len]. *)
Definition temp_path (clean cwd : list Z) : fres (list Z * Z) :=
  let temp := replicate 64 0 in
  if starts_with clean (bytes "/") then
    if MAX_FILENAME_LEN <=? len clean then Err InvalidName
    else temp ← blit temp 0 clean; mret (temp, len clean)
  else
    let clean_cwd := match cwd with [] => bytes "/" | _ => cwd end in
    if bytes_eqb clean_cwd (bytes "/") then
      let total := 1 + len clean in
      if MAX_FILENAME_LEN <=? total then Err InvalidName
      else
        temp ← upd temp 0 slash; temp ← blit temp 1 clean; mret (temp, total)
    else
      let total := len clean_cwd + 1 + len clean in
      if MAX_FILENAME_LEN <=? total then Err InvalidName
      else
        temp ← blit temp 0 clean_cwd;
        temp ← upd temp (len clean_cwd) slash;
        temp ← blit temp (len clean_cwd + 1) clean;
        mret (temp, total).

Definition fs_normalize_path (input cwd out : list Z) : fres (list Z * Z) :=
  let clean := trim input in
  match clean with
  | [] => Err InvalidName
  | _ =>
    '(temp, temp_len) ← temp_path clean cwd;
    out ← upd out 0 slash;
    path ← slice temp 0 temp_len;
    if utf8_valid path then norm_parts (split slash path) out 1 else Err InvalidName
  end.

(** The first lines of every operation: the normalised path as a string. *)
Definition norm_path (cwd input : list Z) : fres (list Z) :=
  '(buf, n) ← fs_normalize_path input cwd (replicate 64 0);
  s ← slice buf 0 n;
  if utf8_valid s then mret s else Err InvalidName.

(** * The state of the file system *)

Record state (X : Type) : Type := mkState {
  files : list FileEntry;
  vfs : vram;
  disk : X;
}.
Arguments mkState {X} _ _ _.
Arguments files {X} _.
Arguments vfs {X} _.
Arguments disk {X} _.

Definition fs_new {X} (d : X) : state X := mkState (replicate 128 empty_entry) vram_new d.

Definition set_file {X} (s : state X) (i : nat) (f : FileEntry) : state X :=
  mkState (<[i := f]> (files s)) (vfs s) (disk s).
Definition set_disk {X} (s : state X) (d : X) : state X := mkState (files s) (vfs s) d.

(** [file.used && file.name_str() == path]. *)
Definition named (path : list Z) (f : FileEntry) : bool :=
  used f && bytes_eqb (name_str f) path.

Definition is_free (f : FileEntry) : bool := negb (used f).

(** The first entry of the table that satisfies [p], with its index. *)
Definition find_file (p : FileEntry -> bool) (l : list FileEntry) : option (nat * FileEntry) :=
  list_find (fun f => p f = true) l.

(** [fname.starts_with(path) && fname.as_bytes().get(path.len()) == Some(&b'/')]. *)
Definition below (path fname : list Z) : bool :=
  starts_with fname path && bool_decide (getZ fname (len path) = Some slash).

Section Ops.
Context {X : Type} `{!SyncDisk X}.

(** The current directory, as a string, and the time stamp counter. *)
Context (cwd : list Z) (now : Z).

(** A Rust [Result] with the state the call leaves. *)
Notation M A := (state X -> state X * fres A).

(** [path.starts_with("/vram")] guards the write-through. *)
Definition synced (path : list Z) : bool := negb (starts_with path (bytes "/vram")).

Definition fs_mkdir (path : list Z) : M nat := fun s =>
  match norm_path cwd path with
  | Ok p =>
    match find_file (named p) (files s) with
    | Some (i, _) => (s, Ok i)
    | None =>
      match find_file is_free (files s) with
      | Some (i, f) =>
        (set_file s i (mkEntry (splice (name f) 0 p) (len p) (data f) 0 true false now true), Ok i)
      | None => (s, Err DiskFull)
      end
    end
  | Err e => (s, Err e)
  | Panic k => (s, Panic k)
  end.

Definition fs_is_dir (path : list Z) (s : state X) : bool :=
  let clean := trim path in
  let eq := bytes_eqb clean in
  if eq (bytes "/") || eq (bytes ".") || eq (bytes "..") then true
  else if vfs_is_vram_path clean &&
          (eq (bytes "/vram") || eq (bytes "/vram/") || eq (bytes "vram") || eq (bytes "vram/"))
  then true
  else
    match norm_path cwd clean with
    | Ok p =>
      bytes_eqb p (bytes "/") || bytes_eqb p (bytes "/vram")
      || existsb (fun f => used f && is_dir f && bytes_eqb (name_str f) p) (files s)
      || existsb (fun f => used f && below p (name_str f)) (files s)
    | _ => false
    end.

(** The write-through at the end of both branches of a creation. *)
Definition sync_create (ro : bool) (p content : list Z) (s : state X) : state X :=
  if negb ro && synced p then set_disk s (export_disk_auto_sync_file (disk s) p content) else s.

Definition fs_create_internal (path content : list Z) (ro : bool) : M nat := fun s =>
  if MAX_FILE_SIZE <? len content then (s, Err FileTooLarge)
  else
    match norm_path cwd path with
    | Ok p =>
      match find_file (named p) (files s) with
      | Some (i, f) =>
        if read_only f then (s, Err ReadOnly)
        else
          let f := mkEntry (name f) (name_len f) (splice (data f) 0 content) (len content)
                     false (read_only f) now (used f) in
          (sync_create ro p content (set_file s i f), Ok i)
      | None =>
        match find_file is_free (files s) with
        | Some (i, f) =>
          let f := mkEntry (splice (name f) 0 p) (len p) (splice (data f) 0 content) (len content)
                     false ro now true in
          (sync_create ro p content (set_file s i f), Ok i)
        | None => (s, Err DiskFull)
        end
      end
    | Err e => (s, Err e)
    | Panic k => (s, Panic k)
    end.

Definition is_file (p : list Z -> bool) (f : FileEntry) : bool :=
  used f && negb (is_dir f) && p (name_str f).

(** The name after its last slash is [clean]; a name without one never is. *)
Definition has_basename (clean fname : list Z) : bool :=
  match rfind slash fname with
  | Some pos => bytes_eqb (drop (Z.to_nat (pos + 1)) fname) clean
  | None => false
  end.

Definition fs_read (path : list Z) (s : state X) : option (list Z) :=
  let clean := trim path in
  if bytes_eqb clean [] then None
  else if vfs_is_vram_path clean then vfs_read (vfs s) clean
  else
    match norm_path cwd clean with
    | Ok p =>
      let exact := find_file (is_file (fun n => bytes_eqb n p)) (files s) in
      let by_base := find_file (is_file (has_basename clean)) (files s) in
      let by_83 := find_file (is_file (fun n => bytes_eqb (to_83_name n) (to_83_name clean)))
                     (files s) in
      match exact, by_base, by_83 with
      | Some (_, f), _, _ | None, Some (_, f), _ | None, None, Some (_, f) => Some (contents f)
      | None, None, None => None
      end
    | _ => None
    end.

Definition fs_write (path content : list Z) : M () := fun s =>
  let clean := trim path in
  if vfs_is_vram_path clean then
    match vfs_write (vfs s) clean content with
    | Some v => (mkState (files s) v (disk s), Ok ())
    | None => (s, Err DiskFull)
    end
  else let '(s, r) := fs_create_internal path content false s in (s, (fun _ => ()) <$> r).

Definition fs_delete (path : list Z) : M () := fun s =>
  match norm_path cwd path with
  | Ok p =>
    if existsb (fun f => used f && negb (bytes_eqb (name_str f) p) && below p (name_str f)) (files s)
    then (s, Err DirectoryNotEmpty)
    else
      match find_file (named p) (files s) with
      | Some (i, f) =>
        if read_only f then (s, Err ReadOnly)
        else
          let s := set_file s i empty_entry in
          (if synced p then set_disk s (export_disk_auto_sync_delete (disk s) p) else s, Ok ())
      | None => (s, Err FileNotFound)
      end
  | Err e => (s, Err e)
  | Panic k => (s, Panic k)
  end.

Definition fs_rename (old_name new_name : list Z) : M () := fun s =>
  match norm_path cwd old_name, norm_path cwd new_name with
  | Ok p, Ok q =>
    if bytes_eqb q [] || (MAX_FILENAME_LEN <? len q) then (s, Err InvalidName)
    else if existsb (named q) (files s) then (s, Err AlreadyExists)
    else
      match find_file (named p) (files s) with
      | Some (i, f) =>
        if read_only f then (s, Err ReadOnly)
        else
          let f := mkEntry (splice (name f) 0 q) (len q) (data f) (size f) (is_dir f)
                     (read_only f) now (used f) in
          let s := set_file s i f in
          let s := if synced p then set_disk s (export_disk_auto_sync_delete (disk s) p) else s in
          (if synced q && negb (is_dir f)
           then set_disk s (export_disk_auto_sync_file (disk s) q (contents f)) else s, Ok ())
      | None => (s, Err FileNotFound)
      end
  | Ok _, Err e | Err e, _ => (s, Err e)
  | Ok _, Panic k | Panic k, _ => (s, Panic k)
  end.

Definition fs_copy (src_name dst_name : list Z) : M () := fun s =>
  match norm_path cwd src_name, norm_path cwd dst_name with
  | Ok p, Ok q =>
    match fs_read p s with
    | Some d => fs_write q d s
    | None => (s, Err FileNotFound)
    end
  | Ok _, Err e | Err e, _ => (s, Err e)
  | Ok _, Panic k | Panic k, _ => (s, Panic k)
  end.

(** No normalisation: the name is compared as it is given. *)
Definition fs_exists (path : list Z) (s : state X) : bool :=
  existsb (named path) (files s)
  || existsb (fun f => used f && bytes_eqb (to_83_name (name_str f)) (to_83_name path)) (files s).

(** The shell's [cd]: the new current directory, when there is one. *)
Definition cd (arg : list Z) (s : state X) : option (list Z) :=
  let target := match arg with [] => bytes "/" | _ => arg end in
  match fs_normalize_path target cwd (replicate 64 0) with
  | Ok (buf, n) =>
    let p := sub buf 0 n in
    let p := if utf8_valid p then p else bytes "/" in
    if fs_is_dir p s then Some p else None
  | _ => None
  end.
End Ops.

(** A disk that records what it is asked to do. *)
Inductive sync_event : Set :=
| SyncFile (path content : list Z)
| SyncDelete (path : list Z).

#[export] Instance sync_log : SyncDisk (list sync_event) := {
  export_disk_auto_sync_file l p d := l ++ [SyncFile p d];
  export_disk_auto_sync_delete l p := l ++ [SyncDelete p];
}.

Definition demo : state (list sync_event) :=
  fst (fs_create_internal (bytes "/home") 1 (bytes "a/../b.txt") [1; 2; 3] false (fs_new [])).

Example demo_log : disk demo = [SyncFile (bytes "/home/b.txt") [1; 2; 3]].
Proof. vm_compute. reflexivity. Qed.
Example demo_read : fs_read (bytes "/") (bytes "b.txt") demo = Some [1; 2; 3].
Proof. vm_compute. reflexivity. Qed.
Example demo_norm : norm_path (bytes "/home") (bytes " x//./y/../z ") = Ok (bytes "/home/x/z").
Proof. vm_compute. reflexivity. Qed.
