(* ===== verification/FsPath.v ===== *)
(** Path normalisation is what it should be: a stack of components. The buffer
    code of [fs_normalize_path] is proved equal to a resolution that pushes and
    pops components, and the paths it returns are the canonical ones. *)

From S2P Require Import Prelude RustStd RustStr Vfs ExportDisk Fs.
Local Open Scope Z_scope.

(** * Trimming keeps a string valid *)

Ltac ws_bytes :=
  unfold ws1, ws2, ws3 in *;
  repeat match goal with
  | H : _ || _ = true |- _ => apply orb_true_iff in H as [H|H]
  | H : _ && _ = true |- _ => apply andb_true_iff in H as [H ?]
  | H : (_ =? _) = true |- _ => apply Z.eqb_eq in H; subst
  | H : in_range _ _ _ = true |- _ => rewrite in_range_spec in H
  end.

Lemma ws1_valid b : ws1 b = true -> utf8_valid [b] = true /\ is_cont b = false.
Proof.
  intros H. assert (Hb : 0 <= b <= 127) by (ws_bytes; lia). split.
  - cbn [utf8_valid]. by rewrite (proj2 (in_range_spec 0 b 127) Hb).
  - unfold is_cont. apply not_true_iff_false. rewrite in_range_spec. lia.
Qed.

Lemma ws2_valid b c : ws2 b c = true -> utf8_valid [b; c] = true /\ is_cont b = false.
Proof. intros H. ws_bytes; done. Qed.

Lemma ws3_valid b c d : ws3 b c d = true -> utf8_valid [b; c; d] = true /\ is_cont b = false.
Proof.
  intros H. ws_bytes; try done. split; [|done]. change (is_cont d && true = true).
  rewrite andb_true_r. apply in_range_spec. lia.
Qed.

Lemma trim_start_valid l : utf8_valid l = true -> utf8_valid (trim_start l) = true.
Proof.
  remember (length l) as n eqn:Hn. revert l Hn.
  induction n as [n IH] using lt_wf_ind. intros l Hn Hv.
  destruct l as [|b l1]; [done|]. unfold trim_start. cbn [strip].
  case_match eqn:E1.
  { apply (IH (length l1)); [simpl in *; lia|done|].
    change (utf8_valid ([b] ++ l1) = true) in Hv.
    by rewrite utf8_valid_app in Hv by (by apply ws1_valid). }
  destruct l1 as [|c l2]; [done|]. case_match eqn:E2.
  { apply (IH (length l2)); [simpl in *; lia|done|].
    change (utf8_valid ([b; c] ++ l2) = true) in Hv.
    by rewrite utf8_valid_app in Hv by (by apply ws2_valid). }
  destruct l2 as [|d l3]; [done|]. case_match eqn:E3; [|done].
  apply (IH (length l3)); [simpl in *; lia|done|].
  change (utf8_valid ([b; c; d] ++ l3) = true) in Hv.
  by rewrite utf8_valid_app in Hv by (by apply ws3_valid).
Qed.

Lemma trim_end_valid l : utf8_valid l = true -> utf8_valid (trim_end l) = true.
Proof.
  rewrite <-(rev_involutive l) at 1. unfold trim_end. generalize (rev l). clear l. intros r.
  remember (length r) as n eqn:Hn. revert r Hn.
  induction n as [n IH] using lt_wf_ind. intros r Hn Hv.
  destruct r as [|b l1]; [done|]. cbn [strip]. cbn [rev] in Hv.
  case_match eqn:E1.
  { apply (IH (length l1)); [simpl in *; lia|done|].
    apply (utf8_valid_left _ [b]); [done|]. by apply ws1_valid. }
  destruct l1 as [|c l2]; [done|]. cbn [rev] in Hv. case_match eqn:E2.
  { apply (IH (length l2)); [simpl in *; lia|done|].
    apply (utf8_valid_left _ [c; b]); [by rewrite <-app_assoc in Hv|]. by eapply ws2_valid. }
  destruct l2 as [|d l3]; [done|]. cbn [rev] in Hv. case_match eqn:E3; [|done].
  apply (IH (length l3)); [simpl in *; lia|done|].
  apply (utf8_valid_left _ [d; c; b]); [by rewrite <-!app_assoc in Hv|]. by eapply ws3_valid.
Qed.

Lemma trim_valid l : utf8_valid l = true -> utf8_valid (trim l) = true.
Proof. intros. by apply trim_end_valid, trim_start_valid. Qed.

(** * Components *)

(** A component a path may keep. *)
Record plain (p : list Z) : Prop := {
  plain_nonempty : p <> [];
  plain_not_dot : p <> bytes ".";
  plain_not_dotdot : p <> bytes "..";
  plain_no_slash : slash ∉ p;
  plain_utf8 : utf8_valid p = true;
}.

(** The components as a stack: the last one first. *)
Fixpoint body (st : list (list Z)) : list Z :=
  match st with [] => [] | p :: st => body st ++ slash :: p end.

Definition render (st : list (list Z)) : list Z :=
  match st with [] => [slash] | _ => body st end.

Definition canonical (p : list Z) : Prop := exists st, Forall plain st /\ p = render st.

(** What resolving the parts of a path does to the stack. *)
Fixpoint resolve (parts st : list (list Z)) : list (list Z) :=
  match parts with
  | [] => st
  | p :: parts =>
    if bytes_eqb p [] || bytes_eqb p (bytes ".") then resolve parts st
    else if bytes_eqb p (bytes "..") then resolve parts (tail st)
    else resolve parts (p :: st)
  end.

(** The bytes of the parts with a slash before each. *)
Fixpoint plen (ps : list (list Z)) : Z :=
  match ps with [] => 0 | p :: ps => 1 + len p + plen ps end.

Lemma plen_nonneg ps : 0 <= plen ps.
Proof. induction ps as [|p ps IH]; simpl; [lia|]. pose proof (len_nonneg p). lia. Qed.

Lemma len_body st : len (body st) = plen st.
Proof. induction st as [|p st IH]; [done|]. cbn [body plen]. rewrite len_app, len_cons. lia. Qed.

Lemma len_render st : len (render st) = match st with [] => 1 | _ => plen st end.
Proof. destruct st; [done|]. apply len_body. Qed.

Lemma render_cons p st : render (p :: st) = match st with [] => [slash] | _ => render st ++ [slash] end ++ p.
Proof. destruct st; [done|]. unfold render. cbn [body]. by rewrite <-!app_assoc. Qed.

Lemma body_valid st : Forall plain st -> utf8_valid (body st) = true.
Proof.
  induction 1 as [|p st Hp _ IH]; [done|]. cbn [body].
  apply utf8_valid_cat; [done|]. apply (utf8_valid_cat [slash]); [done|]. by apply plain_utf8.
Qed.

Lemma render_valid st : Forall plain st -> utf8_valid (render st) = true.
Proof. destruct st; [done|]. apply body_valid. Qed.

Lemma body_head st : st <> [] -> exists l, body st = slash :: l.
Proof.
  induction st as [|p st IH]; [done|]. intros _. cbn [body]. destruct st as [|q st]; [by exists p|].
  destruct IH as [l E]; [done|]. rewrite E. by exists (l ++ slash :: p).
Qed.

Lemma render_head st : exists l, render st = slash :: l.
Proof. destruct st; [by exists []|]. by apply body_head. Qed.

Lemma join_split_plen c l : plen (split c l) = len l + 1.
Proof.
  induction l as [|b l IH]; [done|]. cbn [split]. pose proof (split_nonempty c l).
  rewrite len_cons. destruct (split c l) as [|p ps]; [done|]. destruct (b =? c);
    cbn [plen] in *; rewrite ?len_nil, ?len_cons in *; lia.
Qed.

(** * The buffer code refines the stack *)

Lemma sub_extend {A} (l s : list A) n r :
  0 <= n -> n + len s <= len l -> sub l 0 n = r -> sub (splice l n s) 0 (n + len s) = r ++ s.
Proof.
  intros Hn Hl <-. pose proof (len_nonneg s).
  rewrite <-(sub_app _ 0 n) by lia. rewrite sub_splice by lia. f_equal.
  unfold sub, splice, len in *. rewrite !drop_0, !Z.sub_0_r.
  rewrite take_app_le by (rewrite length_take; lia). rewrite take_take. f_equal. lia.
Qed.

(** The state of the loop: [out] holds the rendered stack. *)
Definition holds (out : list Z) (n : Z) (st : list (list Z)) : Prop :=
  len out = 64 /\ n = len (render st) /\ sub out 0 n = render st.

Lemma plen_plain p st : Forall plain (p :: st) -> 2 <= plen (p :: st).
Proof.
  intros H. inversion H as [|? ? [] ?]; subst. cbn [plen]. pose proof (plen_nonneg st).
  destruct p; [done|]. rewrite len_cons. pose proof (len_nonneg p). lia.
Qed.

Lemma push_holds out n st p :
  holds out n st -> Forall plain st -> plen st + 1 + len p <= 63 ->
  let n' := if 1 <? n then n + 1 else n in
  exists out', (if 1 <? n then upd out n slash else mret out : fres _) = Ok out' /\
    len out' = 64 /\ holds (splice out' n' p) (n' + len p) (p :: st).
Proof.
  intros (Hl & Hn & Hs) Hst Hp n'. rewrite len_render in Hn. pose proof (len_nonneg p).
  pose proof (plen_nonneg st). unfold holds. rewrite len_render, render_cons.
  destruct st as [|q st].
  - subst n n'. simpl in *. exists out. split_and!; try done; [rewrite len_splice; lia|lia|].
    apply (sub_extend out p 1 [slash]); [lia|lia|done].
  - pose proof (plen_plain q st Hst) as H2. assert (Hq : 1 < n) by lia. subst n'.
    destruct (Z.ltb_spec 1 n); [|lia].
    rewrite upd_in_range by lia. eexists. split; [reflexivity|].
    rewrite setZ_splice by lia.
    assert (L : len (splice out n [slash]) = 64)
      by (rewrite len_splice; [done|lia|rewrite len_cons, len_nil; lia]).
    split_and!; try done; [rewrite len_splice; lia | cbn [plen] in *; lia |].
    apply sub_extend; [lia|lia|].
    replace (n + 1) with (n + len [slash]) by (rewrite len_cons, len_nil; lia).
    apply sub_extend; [lia|rewrite len_cons, len_nil; lia|done].
Qed.

Lemma pop_holds out n st p :
  holds out n (p :: st) -> Forall plain (p :: st) ->
  rfind slash (render (p :: st)) = Some (len (body st)) /\
  holds out (if len (body st) =? 0 then 1 else len (body st)) st.
Proof.
  intros (Hl & Hn & Hs) Hp. assert (Hst : Forall plain st) by by inversion Hp. split.
  - apply rfind_last. by inversion Hp as [|? ? [] ?].
  - assert (Hn' : n = len (body st) + 1 + len p).
    { rewrite Hn, len_render, len_body. cbn [plen]. lia. }
    pose proof (len_nonneg p). pose proof (len_nonneg (body st)).
    assert (E : forall k, 0 <= k <= len (body st) + 1 -> sub out 0 k = sub (body st ++ [slash]) 0 k).
    { intros k Hk. assert (sub out 0 k = sub (sub out 0 n) 0 k) as -> by by rewrite sub_sub by lia.
      rewrite Hs. change (render (p :: st)) with (body st ++ [slash] ++ p).
      rewrite app_assoc. unfold sub, len in *. rewrite !drop_0. apply take_app_le.
      rewrite length_app. simpl. lia. }
    destruct (Z.eqb_spec (len (body st)) 0) as [E0|E0].
    + destruct st as [|q st]; [|rewrite len_body in E0; pose proof (plen_plain q st Hst); lia].
      split_and!; [done|done|]. by rewrite E.
    + destruct st as [|q st]; [done|]. split_and!; [done..|]. rewrite E by lia.
      unfold sub, len. rewrite drop_0, Z.sub_0_r, Nat2Z.id. apply take_app_length.
Qed.

Lemma norm_parts_refines parts : forall out n st,
  holds out n st -> Forall plain st -> plen st + plen parts <= 63 ->
  Forall (fun p => slash ∉ p /\ utf8_valid p = true) parts ->
  exists out' n', norm_parts parts out n = Ok (out', n') /\
    holds out' n' (resolve parts st) /\ Forall plain (resolve parts st) /\
    len (render (resolve parts st)) <= 63.
Proof.
  induction parts as [|p parts IH]; intros out n st Hh Hst Hlen Hp; cbn [norm_parts resolve].
  { exists out, n. split_and!; try done. rewrite len_render. cbn [plen] in Hlen.
    destruct st; lia. }
  inversion Hp as [|? ? [Hp1 Hp2] Hps]; subst. cbn [plen] in Hlen. pose proof (len_nonneg p).
  case_match eqn:E1; [apply IH; (done || lia)|]. apply orb_false_iff in E1 as [E0 E1].
  case_match eqn:E2.
  - pose proof Hh as (Hl & Hn & Hs). destruct st as [|q st].
    { subst n. simpl. apply IH; (done || lia). }
    pose proof (plen_plain q st Hst). rewrite len_render in Hn.
    destruct (Z.ltb_spec 1 n); [|lia]. pose proof (plen_nonneg parts).
    rewrite slice_in_range by lia. cbn [mbind outcome_bind].
    rewrite Hs, render_valid by done.
    destruct (pop_holds out n st q) as [-> Hh']; [done..|]. cbn [tail].
    cbn [plen] in Hlen. pose proof (len_nonneg q).
    apply IH; [done | by inversion Hst | lia | done].
  - pose proof (plen_nonneg parts).
    assert (Hplain : plain p).
    { unfold bytes_eqb in *. repeat match goal with H : bool_decide _ = false |- _ =>
        apply bool_decide_eq_false in H end. by constructor. }
    destruct (push_holds out n st p Hh Hst ltac:(lia)) as (out' & Ho & Hl' & Hh').
    assert (Hn : (if 1 <? n then n + 1 else n) + len p <= 63).
    { destruct Hh' as (_ & -> & _). rewrite len_render. cbn [plen]. lia. }
    unfold MAX_FILENAME_LEN. destruct (1 <? n) eqn:E3.
    + destruct (Z.leb_spec 64 (n + 1 + len p)); [lia|]. rewrite Ho. cbn [mbind outcome_bind mret outcome_ret].
      destruct (Z.leb_spec 64 (n + 1 + len p)); [lia|]. apply Z.ltb_lt in E3.
      rewrite blit_in_range by lia. cbn [mbind outcome_bind].
      apply IH; [done | by constructor | cbn [plen]; lia | done].
    + cbn [mbind outcome_bind mret outcome_ret]. injection Ho as <-.
      destruct (Z.leb_spec 64 (n + len p)); [lia|].
      assert (1 <= n) by (destruct Hh as (_ & -> & _); rewrite len_render; destruct st as [|q st];
        [lia | pose proof (plen_plain q st Hst); lia]).
      rewrite blit_in_range by lia. cbn [mbind outcome_bind].
      apply IH; [done | by constructor | cbn [plen]; lia | done].
Qed.

(** * What the normalised path is *)

(** The absolute path a trimmed input stands for. *)
Definition full_path (clean cwd : list Z) : list Z :=
  if starts_with clean (bytes "/") then clean
  else if bytes_eqb cwd [] || bytes_eqb cwd (bytes "/") then slash :: clean
  else cwd ++ slash :: clean.

Definition norm_spec (cwd input : list Z) : option (list Z) :=
  let full := full_path (trim input) cwd in
  if bytes_eqb (trim input) [] || (64 <=? len full) then None
  else Some (render (resolve (split slash full) [])).

(** A current directory: [CURRENT_DIR] starts as the root and [cd] stores
    canonical paths in it. *)
Definition cwd_ok (cwd : list Z) : Prop :=
  utf8_valid cwd = true /\ (cwd = [] \/ starts_with cwd (bytes "/") = true).

Lemma starts_slash l : starts_with l (bytes "/") = true -> exists k, l = slash :: k.
Proof.
  unfold starts_with, bytes_eqb. intros H%bool_decide_eq_true. destruct l as [|b l]; [done|].
  exists l. simpl in H. by injection H as ->.
Qed.

Lemma bytes_eqb_spec a b : reflect (a = b) (bytes_eqb a b).
Proof. unfold bytes_eqb. case_bool_decide; by constructor. Qed.

Lemma full_path_slash clean cwd : cwd_ok cwd -> exists k, full_path clean cwd = slash :: k.
Proof.
  intros [_ Hc]. unfold full_path. case_match eqn:E; [by apply starts_slash|].
  case_match eqn:E2; [by eexists|]. apply orb_false_iff in E2 as [E2 _].
  destruct Hc as [->|Hc]; [done|]. apply starts_slash in Hc as [k ->]. by eexists.
Qed.

Lemma full_path_valid clean cwd :
  cwd_ok cwd -> utf8_valid clean = true -> utf8_valid (full_path clean cwd) = true.
Proof.
  intros [Hc _] Hv. unfold full_path. case_match; [done|].
  assert (utf8_valid (slash :: clean) = true) by by apply (utf8_valid_cat [slash]).
  case_match; [done|]. by apply utf8_valid_cat.
Qed.

Lemma temp_path_spec clean cwd :
  let full := full_path clean cwd in
  if 64 <=? len full then temp_path clean cwd = Err InvalidName
  else exists temp, temp_path clean cwd = Ok (temp, len full) /\ len temp = 64 /\
         sub temp 0 (len full) = full.
Proof.
  pose proof (len_nonneg clean). pose proof (len_nonneg cwd).
  assert (L0 : len (replicate 64 0) = 64) by done.
  unfold temp_path, full_path, MAX_FILENAME_LEN. destruct (starts_with clean (bytes "/")).
  { destruct (Z.leb_spec 64 (len clean)); [done|]. eexists.
    rewrite blit_in_range by lia. split; [reflexivity|]. rewrite len_splice by lia. split; [done|].
    apply (sub_splice _ clean 0); lia. }
  set (root := bytes_eqb cwd [] || bytes_eqb cwd (bytes "/")).
  assert (E : bytes_eqb (match cwd with [] => bytes "/" | _ => cwd end) (bytes "/") = root).
  { subst root. by destruct cwd. }
  rewrite E. destruct root eqn:Er.
  - rewrite len_cons. destruct (Z.leb_spec 64 (1 + len clean)); [done|].
    rewrite upd_in_range by lia. cbn [mbind outcome_bind].
    rewrite blit_in_range by (rewrite ?len_setZ; lia). eexists. split; [reflexivity|].
    rewrite len_splice by (rewrite ?len_setZ; lia). rewrite len_setZ. split; [done|].
    apply (sub_extend (setZ (replicate 64 0) 0 slash) clean 1 [slash]);
      rewrite ?len_setZ; (lia || done).
  - apply orb_false_iff in Er as [Er _].
    assert (match cwd with [] => bytes "/" | _ => cwd end = cwd) as -> by by destruct cwd.
    rewrite len_app, len_cons. replace (len cwd + (1 + len clean)) with (len cwd + 1 + len clean) by lia.
    destruct (Z.leb_spec 64 (len cwd + 1 + len clean)); [done|].
    rewrite blit_in_range by lia. cbn [mbind outcome_bind].
    rewrite upd_in_range by (rewrite len_splice; lia). cbn [mbind outcome_bind].
    assert (L1 : len (splice (replicate 64 0) 0 cwd) = 64) by (rewrite len_splice; lia).
    assert (L2 : len [slash] = 1) by done.
    rewrite blit_in_range by (rewrite ?len_setZ; lia). eexists. split; [reflexivity|].
    rewrite setZ_splice by lia. assert (L3 : len (splice (splice (replicate 64 0) 0 cwd) (len cwd) [slash]) = 64)
      by (rewrite len_splice; lia).
    rewrite len_splice by lia. split; [done|].
    replace (cwd ++ slash :: clean) with ((cwd ++ [slash]) ++ clean) by by rewrite <-app_assoc.
    apply sub_extend; [lia|lia|]. rewrite <-L2 at 1. apply sub_extend; [lia|lia|].
    apply (sub_splice _ cwd 0); lia.
Qed.

Lemma resolve_spec clean cwd :
  cwd_ok cwd -> utf8_valid clean = true -> len (full_path clean cwd) < 64 ->
  exists parts, split slash (full_path clean cwd) = [] :: parts /\
    plen parts = len (full_path clean cwd) /\
    Forall (fun p => slash ∉ p /\ utf8_valid p = true) parts.
Proof.
  intros Hc Hv Hl. destruct (full_path_slash clean cwd Hc) as [k Hk].
  pose proof (full_path_valid clean cwd Hc Hv) as Hu.
  pose proof (join_split_plen slash (full_path clean cwd)) as Hp.
  pose proof (split_no_sep slash (full_path clean cwd)) as Hn.
  apply utf8_valid_split in Hu. change 47 with slash in Hu.
  assert (E : exists parts, split slash (full_path clean cwd) = [] :: parts).
  { rewrite Hk. simpl. pose proof (split_nonempty slash k). destruct (split slash k); [done|]. eauto. }
  destruct E as [parts E]. rewrite E in *. exists parts. split; [done|].
  cbn [plen] in Hp. rewrite len_nil in Hp. split; [lia|].
  inversion Hn; inversion Hu; subst. by apply Forall_and.
Qed.

Lemma normalize_spec input cwd out :
  utf8_valid input = true -> cwd_ok cwd -> len out = 64 ->
  match norm_spec cwd input with
  | Some p =>
    (exists buf, fs_normalize_path input cwd out = Ok (buf, len p) /\
       len buf = 64 /\ sub buf 0 (len p) = p) /\ canonical p /\ len p <= 63
  | None => fs_normalize_path input cwd out = Err InvalidName
  end.
Proof.
  intros Hi Hc Ho. unfold norm_spec, fs_normalize_path. pose proof (trim_valid input Hi) as Hv.
  destruct (bytes_eqb_spec (trim input) []) as [->|Hne]; [done|]. rewrite orb_false_l.
  pose proof (temp_path_spec (trim input) cwd) as Ht. cbv zeta in Ht.
  set (full := full_path (trim input) cwd) in *.
  destruct (Z.leb_spec 64 (len full)) as [H64|H64].
  { rewrite Ht. by destruct (trim input). }
  destruct Ht as (temp & Ht & Hlt & Hst). 
  assert (Em : forall (A : Type) (x y : A), match trim input with [] => x | _ => y end = y)
    by (intros; by destruct (trim input)).
  rewrite Em, Ht. cbn [mbind outcome_bind]. rewrite upd_in_range by lia. cbn [mbind outcome_bind].
  pose proof (len_nonneg full).
  rewrite slice_in_range by lia. cbn [mbind outcome_bind]. rewrite Hst.
  subst full. rewrite full_path_valid by done.
  destruct (resolve_spec (trim input) cwd Hc Hv H64) as (parts & -> & Hp & Hf).
  cbn [norm_parts resolve]. change (bytes_eqb [] []) with true. cbn [orb].
  destruct (norm_parts_refines parts (setZ out 0 slash) 1 []) as (buf & n & -> & Hh & Hpl & Hlen).
  - split_and!; [by rewrite len_setZ|done|].
    rewrite setZ_splice by lia. apply (sub_splice out [slash] 0); [lia|].
    change (len [slash]) with 1. lia.
  - constructor.
  - simpl. lia.
  - done.
  - destruct Hh as (Hb & -> & Hs). split_and!; [by exists buf | by eexists | done].
Qed.

Lemma canonical_valid p : canonical p -> utf8_valid p = true.
Proof. intros (st & Hst & ->). by apply render_valid. Qed.

(** The prologue every operation shares. *)
Lemma norm_path_spec cwd input :
  utf8_valid input = true -> cwd_ok cwd ->
  norm_path cwd input =
    match norm_spec cwd input with Some p => Ok p | None => Err InvalidName end.
Proof.
  intros Hi Hc. unfold norm_path.
  pose proof (normalize_spec input cwd (replicate 64 0) Hi Hc eq_refl) as H.
  destruct (norm_spec cwd input) as [p|]; [|by rewrite H].
  destruct H as ((buf & -> & Hl & Hs) & Hp & Hlen). cbn [mbind outcome_bind].
  pose proof (len_nonneg p). rewrite slice_in_range by lia. cbn [mbind outcome_bind].
  by rewrite Hs, canonical_valid.
Qed.

Lemma norm_path_canonical cwd input p :
  utf8_valid input = true -> cwd_ok cwd -> norm_path cwd input = Ok p ->
  canonical p /\ len p <= 63.
Proof.
  intros Hi Hc. rewrite norm_path_spec by done.
  pose proof (normalize_spec input cwd (replicate 64 0) Hi Hc eq_refl) as H.
  destruct (norm_spec cwd input) as [q|]; [|done]. intros [= ->]. by destruct H as [_ H].
Qed.

(** C35: path normalisation refines a stack of components: for every string and
    every current directory, [fs_normalize_path] leaves in its buffer the
    rendering of the stack that the parts of the absolute path build (a name
    pushes, [..] pops and stops at the root, [.] and empty parts do nothing), or
    reports [InvalidName] when the trimmed input is empty or the absolute path
    has 64 bytes or more. It never panics and never fails for another reason. *)
Theorem fs_normalize_path_refines input cwd out :
  utf8_valid input = true -> cwd_ok cwd -> len out = 64 ->
  match norm_spec cwd input with
  | Some p => exists buf, fs_normalize_path input cwd out = Ok (buf, len p) /\
                len buf = 64 /\ sub buf 0 (len p) = p
  | None => fs_normalize_path input cwd out = Err InvalidName
  end.
Proof.
  intros Hi Hc Ho. pose proof (normalize_spec input cwd out Hi Hc Ho) as H.
  by destruct (norm_spec cwd input); [destruct H as [H _]|].
Qed.

(** * Canonical paths *)

Lemma join_snoc c ps p : ps <> [] -> join c (ps ++ [p]) = join c ps ++ c :: p.
Proof.
  induction ps as [|q ps IH]; [done|]. intros _. destruct ps as [|r ps]; [done|].
  rewrite <-app_comm_cons, !join_cons by done. by rewrite IH, <-app_assoc.
Qed.

Lemma body_join st : st <> [] -> body st = slash :: join slash (rev st).
Proof.
  induction st as [|p st IH]; [done|]. intros _. cbn [body rev].
  destruct st as [|q st]; [done|]. rewrite IH by done. rewrite (join_snoc _ (rev (q :: st))); [done|].
  intros E. apply (f_equal length) in E. by rewrite length_rev in E.
Qed.

Lemma resolve_plain ps st : Forall plain ps -> resolve ps st = rev ps ++ st.
Proof.
  intros H. revert st. induction H as [|p ps [] _ IH]; intros st; [done|]. cbn [resolve rev].
  destruct (bytes_eqb_spec p []); [done|]. destruct (bytes_eqb_spec p (bytes ".")); [done|].
  destruct (bytes_eqb_spec p (bytes "..")); [done|]. simpl. by rewrite IH, <-app_assoc.
Qed.

(** Reading a canonical path gives its stack back. *)
Lemma resolve_render st : Forall plain st -> resolve (split slash (render st)) [] = st.
Proof.
  intros H. destruct st as [|p st]; [done|]. change (render (p :: st)) with (body (p :: st)).
  rewrite body_join by done. cbn [split]. assert (Hr : Forall plain (rev (p :: st))) by by apply Forall_rev.
  rewrite split_join.
  - destruct (rev (p :: st)) eqn:E; [by apply (f_equal length) in E; rewrite length_rev in E|].
    rewrite Z.eqb_refl. rewrite <-E in *. cbn [resolve]. change (bytes_eqb [] []) with true.
    cbn [orb]. by rewrite resolve_plain, rev_involutive, app_nil_r.
  - intros E. apply (f_equal length) in E. by rewrite length_rev in E.
  - eapply Forall_impl; [exact Hr|]. by intros q [].
Qed.

Lemma render_inj st st' : Forall plain st -> Forall plain st' -> render st = render st' -> st = st'.
Proof. intros H H' E. rewrite <-(resolve_render st), E by done. by apply resolve_render. Qed.

(** The paths [fs_normalize_path] returns are canonical (slash-separated
    names, none of them empty, [.] or [..], at most 63 bytes), canonical paths
    have one list of components each, and normalising one again, from whatever
    current directory, returns it unchanged unless it begins or ends with white
    space. *)
Theorem normalized_paths_canonical cwd cwd' input p :
  utf8_valid input = true -> cwd_ok cwd -> cwd_ok cwd' -> norm_path cwd input = Ok p ->
  (exists! st, Forall plain st /\ p = render st) /\ len p <= 63 /\
  (trim p = p -> norm_path cwd' p = Ok p).
Proof.
  intros Hi Hc Hc' Hn. apply norm_path_canonical in Hn as [Hp Hl]; [|done..].
  pose proof (canonical_valid p Hp) as Hv. destruct Hp as (st & Hst & ->).
  split_and!; [|done|].
  - exists st. split; [done|]. intros st' [Hst' E]. by apply render_inj.
  - intros Ht. rewrite norm_path_spec by done. unfold norm_spec. rewrite Ht.
    assert (E : full_path (render st) cwd' = render st).
    { destruct (render_head st) as [l E]. unfold full_path. by rewrite E. }
    rewrite E. destruct (render_head st) as [l Eh].
    destruct (bytes_eqb_spec (render st) []); [congruence|].
    destruct (Z.leb_spec 64 (len (render st))); [lia|]. cbn [orb]. by rewrite resolve_render.
Qed.

Lemma root_ok : cwd_ok (bytes "/").
Proof. split; [done|by right]. Qed.

Theorem fs_normalize_path_refines_witness : exists buf,
  fs_normalize_path (bytes "a/./b/../../../c") (bytes "/x") (replicate 64 7) = Ok (buf, 2) /\
  sub buf 0 2 = bytes "/c".
Proof.
  destruct (fs_normalize_path_refines (bytes "a/./b/../../../c") (bytes "/x") (replicate 64 7))
    as (buf & H & _ & H'); [done | split; [done|by right] | done |].
  exists buf. split; [exact H|exact H'].
Defined.

Theorem normalized_paths_canonical_witness : norm_path (bytes "/home") (bytes "/etc/hosts") = Ok (bytes "/etc/hosts").
Proof.
  destruct (normalized_paths_canonical (bytes "/") (bytes "/home") (bytes " etc//hosts ")
    (bytes "/etc/hosts")) as (_ & _ & H).
  - reflexivity.
  - exact root_ok.
  - split; [reflexivity|by right].
  - reflexivity.
  - apply H. reflexivity.
Defined.

(** White space inside a path can end up at its end. *)
Theorem norm_not_idempotent :
  norm_path (bytes "/") (bytes "/a /.") = Ok (bytes "/a ") /\
  norm_path (bytes "/") (bytes "/a ") = Ok (bytes "/a").
Proof. by split. Qed.
