(* ===== verification/FsTable.v ===== *)
(** The table of LatencyFS as a finite map: the invariant of the 128 entries and
    the abstraction that forgets their order, their buffers and the free ones. *)

From stdpp Require Import gmap.
From S2P Require Import Prelude RustStd RustStr Vfs ExportDisk Fs FsPath.
Local Open Scope Z_scope.

(** * The abstraction *)

(** What the file system keeps under a path. *)
Record node : Set := mkNode { n_dir : bool; n_ro : bool; n_content : list Z }.

#[export] Instance node_eq_dec : EqDecision node.
Proof. solve_decision. Defined.

Definition node_of (f : FileEntry) : node := mkNode (is_dir f) (read_only f) (contents f).

Notation fmap_t := (gmap (list Z) node).

Fixpoint abs (l : list FileEntry) : fmap_t :=
  match l with
  | [] => ∅
  | f :: l => if used f then <[name_str f := node_of f]> (abs l) else abs l
  end.

(** * The invariant *)

Record entry_wf (f : FileEntry) : Prop := {
  wf_name : len (name f) = 64;
  wf_name_len : 0 <= name_len f <= 63;
  wf_data : len (data f) = 4096;
  wf_size : 0 <= size f <= 4096;
  wf_path : used f = true -> canonical (name_str f);
}.

(** No two used entries have the same name. *)
Fixpoint uniq (l : list FileEntry) : Prop :=
  match l with
  | [] => True
  | f :: l => (used f = true -> abs l !! name_str f = None) /\ uniq l
  end.

Record table_wf (l : list FileEntry) : Prop := {
  wf_length : length l = 128%nat;
  wf_entries : Forall entry_wf l;
  wf_uniq : uniq l;
}.

(** * Names *)

Lemma named_spec p f : named p f = true <-> used f = true /\ name_str f = p.
Proof.
  unfold named. rewrite andb_true_iff. destruct (bytes_eqb_spec (name_str f) p); naive_solver.
Qed.

Lemma canonical_len p : canonical p -> 1 <= len p.
Proof. intros (st & _ & ->). destruct (render_head st) as [l ->]. rewrite len_cons. pose proof (len_nonneg l). lia. Qed.

(** Storing a path in an entry makes it the entry's name. *)
Lemma name_str_set f p d n dir ro t u :
  len (name f) = 64 -> canonical p -> len p <= 63 ->
  name_str (mkEntry (splice (name f) 0 p) (len p) d n dir ro t u) = p.
Proof.
  intros Hf Hp Hl. unfold name_str. simpl. pose proof (canonical_len p Hp).
  destruct (Z.eqb_spec (len p) 0); [lia|].
  pose proof (sub_splice (name f) p 0 ltac:(lia) ltac:(lia)) as E. rewrite Z.add_0_l in E.
  by rewrite E, canonical_valid.
Qed.

Lemma contents_set f c : len (data f) = 4096 -> len c <= 4096 -> sub (splice (data f) 0 c) 0 (len c) = c.
Proof.
  intros. pose proof (sub_splice (data f) c 0 ltac:(lia) ltac:(lia)) as E.
  by rewrite Z.add_0_l in E.
Qed.

Lemma entry_set_wf f p c dir ro t :
  entry_wf f -> canonical p -> len p <= 63 -> len c <= 4096 ->
  entry_wf (mkEntry (splice (name f) 0 p) (len p) (splice (data f) 0 c) (len c) dir ro t true).
Proof.
  intros [] Hp Hl Hc. pose proof (len_nonneg p). pose proof (len_nonneg c).
  constructor; simpl; try (rewrite len_splice; lia); try lia.
  intros _. by rewrite name_str_set.
Qed.

Lemma entry_wf_same f d n dir ro t :
  entry_wf f -> len d = 4096 -> 0 <= n <= 4096 ->
  entry_wf (mkEntry (name f) (name_len f) d n dir ro t (used f)).
Proof. intros [] Hd Hn. by constructor. Qed.

Lemma empty_entry_wf : entry_wf empty_entry.
Proof. by constructor. Qed.

(** * Looking up *)

Lemma find_Some (p : FileEntry -> bool) l i f :
  find_file p l = Some (i, f) -> l !! i = Some f /\ p f = true.
Proof. unfold find_file. rewrite list_find_Some. naive_solver. Qed.

Lemma find_None (p : FileEntry -> bool) l f : find_file p l = None -> f ∈ l -> p f = false.
Proof.
  unfold find_file. rewrite list_find_None, Forall_forall. intros H Hf.
  apply not_true_iff_false. by apply H.
Qed.

Lemma find_cons p f l :
  find_file p (f :: l) = if p f then Some (0%nat, f) else prod_map S id <$> find_file p l.
Proof. unfold find_file. simpl. by destruct (p f). Qed.

Lemma abs_lookup l p : abs l !! p = (fun x => node_of (snd x)) <$> find_file (named p) l.
Proof.
  induction l as [|f l IH]; [done|]. rewrite find_cons. cbn [abs].
  unfold named at 1. destruct (used f); simpl.
  - destruct (bytes_eqb_spec (name_str f) p) as [->|Hn]; [by rewrite lookup_insert_eq|].
    rewrite lookup_insert_ne by done. rewrite IH. by destruct (find_file (named p) l) as [[]|].
  - rewrite IH. by destruct (find_file (named p) l) as [[]|].
Qed.

Lemma abs_found l p i f : find_file (named p) l = Some (i, f) -> abs l !! p = Some (node_of f).
Proof. intros H. by rewrite abs_lookup, H. Qed.

Lemma abs_missing l p : find_file (named p) l = None -> abs l !! p = None.
Proof. intros H. by rewrite abs_lookup, H. Qed.

Lemma abs_used l f : uniq l -> f ∈ l -> used f = true -> abs l !! name_str f = Some (node_of f).
Proof.
  induction l as [|g l IH]; [by intros _ ?%elem_of_nil|].
  intros [Hg Hu] [->|Hf]%elem_of_cons Hused; cbn [abs].
  - by rewrite Hused, lookup_insert_eq.
  - specialize (IH Hu Hf Hused). destruct (used g) eqn:Eg; [|done].
    rewrite lookup_insert_ne; [done|]. intros E. rewrite E in Hg. by rewrite Hg in IH.
Qed.

Lemma abs_inv l p n :
  abs l !! p = Some n -> exists f, f ∈ l /\ used f = true /\ name_str f = p /\ n = node_of f.
Proof.
  rewrite abs_lookup. destruct (find_file (named p) l) as [[i f]|] eqn:E; [|done].
  intros [= <-]. apply find_Some in E as [Hi [Hu Hn]%named_spec]. exists f.
  split_and!; [by eapply list_elem_of_lookup_2|done..].
Qed.

Lemma existsb_ext {A} (f g : A -> bool) l : (forall x, f x = g x) -> existsb f l = existsb g l.
Proof. intros H. induction l as [|x l IH]; simpl; [done|]. by rewrite H, IH. Qed.

(** A test of the used entries is a test of the map. *)
Lemma existsb_abs (P : list Z -> node -> bool) l :
  uniq l -> existsb (fun f => used f && P (name_str f) (node_of f)) l = true <->
  exists p n, abs l !! p = Some n /\ P p n = true.
Proof.
  intros Hu. rewrite existsb_exists. split.
  - intros (f & Hf & [Hused HP]%andb_true_iff). exists (name_str f), (node_of f).
    split; [|done]. apply abs_used; [done|by apply list_elem_of_In|done].
  - intros (p & n & (f & Hf & Hused & <- & ->)%abs_inv & HP). exists f.
    rewrite Hused, HP. split; [by apply list_elem_of_In|done].
Qed.

(** * Updating *)

Lemma abs_put l : forall i f g p,
  uniq l -> l !! i = Some f -> named p g = true ->
  named p f = true \/ used f = false /\ abs l !! p = None ->
  abs (<[i := g]> l) = <[p := node_of g]> (abs l) /\ uniq (<[i := g]> l).
Proof.
  induction l as [|h l IH]; intros i f g p Hu Hi [Hg Hgn]%named_spec Hf; [done|].
  destruct Hu as [Hh Hu]. destruct i as [|i].
  - change (<[0%nat := g]> (h :: l)) with (g :: l). cbn [abs uniq].
    injection Hi as ->. rewrite Hg, Hgn. cbn [abs] in Hf.
    destruct Hf as [[Hfu Hfn]%named_spec | [Hfu Hfn]]; rewrite Hfu in *.
    + rewrite Hfn in *. rewrite insert_insert_eq. auto.
    + auto.
  - change (<[S i := g]> (h :: l)) with (h :: <[i := g]> l). cbn [abs uniq]. simpl in Hi.
    assert (Hf' : named p f = true \/ used f = false /\ abs l !! p = None).
    { destruct Hf as [|[Hfu Hp]]; [by left|right]. split; [done|]. cbn [abs] in Hp.
      destruct (used h); [by apply lookup_insert_None in Hp as [? _] | done]. }
    destruct (IH i f g p Hu Hi (proj2 (named_spec _ _) (conj Hg Hgn)) Hf') as [-> Hu'].
    destruct (used h) eqn:Eh; [|by split_and!].
    assert (Hne : name_str h <> p).
    { destruct Hf as [[Hfu Hfn]%named_spec|[_ Hp]].
      - intros E. specialize (Hh eq_refl). rewrite E, <-Hfn in Hh.
        by rewrite (abs_used l f) in Hh by (done || by eapply list_elem_of_lookup_2).
      - cbn [abs] in Hp. rewrite Eh in Hp. by apply lookup_insert_None in Hp as [_ ?]. }
    split; [by rewrite insert_insert_ne|]. split; [|done]. intros _.
    by rewrite lookup_insert_ne by done; apply Hh.
Qed.

Lemma abs_drop l : forall i f g p,
  uniq l -> l !! i = Some f -> named p f = true -> used g = false ->
  abs (<[i := g]> l) = delete p (abs l) /\ uniq (<[i := g]> l).
Proof.
  induction l as [|h l IH]; intros i f g p Hu Hi Hf Hg; [done|].
  destruct Hu as [Hh Hu]. destruct i as [|i].
  - change (<[0%nat := g]> (h :: l)) with (g :: l). cbn [abs uniq].
    injection Hi as ->. apply named_spec in Hf as [Hfu Hfn]. rewrite Hg, Hfu, Hfn in *.
    rewrite delete_insert_eq, delete_id by auto. done.
  - change (<[S i := g]> (h :: l)) with (h :: <[i := g]> l). cbn [abs uniq]. simpl in Hi.
    destruct (IH i f g p Hu Hi Hf Hg) as [-> Hu']. destruct (used h) eqn:Eh; [|by split_and!].
    apply named_spec in Hf as [Hfu Hfn].
    assert (Hne : name_str h <> p).
    { intros E. specialize (Hh eq_refl). rewrite E, <-Hfn in Hh.
      by rewrite (abs_used l f) in Hh by (done || by eapply list_elem_of_lookup_2). }
    split; [by rewrite delete_insert_ne|]. split; [|done]. intros _.
    by rewrite lookup_delete_ne by done; apply Hh.
Qed.

(** * Counting *)

Definition map_size (m : fmap_t) : nat := base.size m.

Lemma map_size_abs l : uniq l -> map_size (abs l) = length (filter (fun f => used f = true) l).
Proof.
  unfold map_size. induction l as [|f l IH]; intros Hu; [done|].
  destruct Hu as [Hf Hu]. cbn [abs]. rewrite filter_cons. destruct (used f) eqn:E.
  - rewrite decide_True by done. simpl. rewrite map_size_insert_None by auto. by rewrite IH.
  - rewrite decide_False by done. auto.
Qed.

Lemma free_slot l : table_wf l ->
  find_file is_free l = None <-> map_size (abs l) = 128%nat.
Proof.
  intros [Hl _ Hu]. rewrite map_size_abs by done. rewrite <-Hl.
  unfold find_file. rewrite list_find_None. split.
  - intros Hf. clear Hl Hu. induction Hf as [|f l Hf _ IH]; [done|]. rewrite filter_cons.
    unfold is_free in Hf. destruct (used f); [|done]. rewrite decide_True by done.
    simpl. by rewrite IH.
  - intros Hf. clear Hl Hu. induction l as [|f l IH]; [constructor|].
    rewrite filter_cons in Hf. unfold is_free. simpl in Hf.
    pose proof (length_filter (fun f => used f = true) l).
    case_decide as Hd; simpl in Hf; [|lia]. constructor; [by rewrite Hd|]. apply IH. lia.
Qed.

(** * Keeping the invariant *)

Lemma table_put l i f g p :
  table_wf l -> l !! i = Some f -> entry_wf g -> named p g = true ->
  named p f = true \/ used f = false /\ abs l !! p = None ->
  table_wf (<[i := g]> l) /\ abs (<[i := g]> l) = <[p := node_of g]> (abs l).
Proof.
  intros [Hl He Hu] Hi Hg Hpg Hf. destruct (abs_put l i f g p) as [E Hu']; [done..|].
  split; [|done]. constructor; [by rewrite length_insert|by apply Forall_insert|done].
Qed.

Lemma table_drop l i f p :
  table_wf l -> l !! i = Some f -> named p f = true ->
  table_wf (<[i := empty_entry]> l) /\ abs (<[i := empty_entry]> l) = delete p (abs l).
Proof.
  intros [Hl He Hu] Hi Hf. destruct (abs_drop l i f empty_entry p) as [E Hu']; [done..|].
  split; [|done]. constructor; [by rewrite length_insert| |done].
  apply Forall_insert; [done|apply empty_entry_wf].
Qed.

Lemma table_entry l i f : table_wf l -> l !! i = Some f -> entry_wf f.
Proof. intros [_ He _] Hi. by eapply Forall_lookup_1. Qed.

Lemma table_new : table_wf (replicate 128 empty_entry) /\ abs (replicate 128 empty_entry) = ∅.
Proof.
  split; [|reflexivity]. constructor; [done| |].
  - apply Forall_replicate, empty_entry_wf.
  - by vm_compute.
Qed.
