(* ===== verification/FsProps.v ===== *)
(** The operations of LatencyFS refine operations on a finite map from canonical
    paths to files and directories, with the write-through to the disk as part
    of what they do; what follows for reading back, protection and errors. *)

From stdpp Require Import gmap.
From S2P Require Import Prelude RustStd RustStr Vfs ExportDisk Fs FsPath FsTable.
Local Open Scope Z_scope.

Section Spec.
Context {X : Type} `{!SyncDisk X}.
Context (cwd : list Z) (now : Z).

(** * The specification: a map, a disk, and a result *)

Notation spec_state := (fmap_t * X)%type.

Definition spec_insert (p : list Z) (n : node) (m : fmap_t) : fmap_t * fres () :=
  if bool_decide (map_size m = 128%nat) then (m, Err DiskFull) else (<[p := n]> m, Ok ()).

Definition spec_sync (ro : bool) (p c : list Z) (d : X) : X :=
  if negb ro && synced p then export_disk_auto_sync_file d p c else d.

Definition spec_mkdir (p : list Z) (s : spec_state) : spec_state * fres () :=
  let '(m, d) := s in
  match m !! p with
  | Some _ => (s, Ok ())
  | None => let '(m, r) := spec_insert p (mkNode true false []) m in ((m, d), r)
  end.

Definition spec_create (p c : list Z) (ro : bool) (s : spec_state) : spec_state * fres () :=
  let '(m, d) := s in
  match m !! p with
  | Some n =>
    if n_ro n then (s, Err ReadOnly)
    else ((<[p := mkNode false false c]> m, spec_sync ro p c d), Ok ())
  | None =>
    match spec_insert p (mkNode false ro c) m with
    | (m, Ok _) => ((m, spec_sync ro p c d), Ok ())
    | (m, r) => ((m, d), r)
    end
  end.

Definition has_child (p : list Z) (m : fmap_t) : Prop :=
  exists q n, m !! q = Some n /\ q <> p /\ below p q = true.

#[local] Instance has_child_dec p m : Decision (has_child p m).
Proof.
  refine (cast_if (decide (map_Exists (fun q (_ : node) => q <> p /\ below p q = true) m)));
    unfold has_child; unfold map_Exists in *; naive_solver.
Defined.

Definition spec_delete (p : list Z) (s : spec_state) : spec_state * fres () :=
  let '(m, d) := s in
  if decide (has_child p m) then (s, Err DirectoryNotEmpty)
  else
    match m !! p with
    | Some n =>
      if n_ro n then (s, Err ReadOnly)
      else ((delete p m, if synced p then export_disk_auto_sync_delete d p else d), Ok ())
    | None => (s, Err FileNotFound)
    end.

Definition spec_rename (p q : list Z) (s : spec_state) : spec_state * fres () :=
  let '(m, d) := s in
  match m !! q, m !! p with
  | Some _, _ => (s, Err AlreadyExists)
  | None, None => (s, Err FileNotFound)
  | None, Some n =>
    if n_ro n then (s, Err ReadOnly)
    else
      let d := if synced p then export_disk_auto_sync_delete d p else d in
      let d := spec_sync (n_dir n) q (n_content n) d in
      ((<[q := n]> (delete p m), d), Ok ())
  end.

(** An operation on the path an input normalises to. *)
Definition on_path {A} (input : list Z) (s : A) (f : list Z -> A * fres ()) : A * fres () :=
  match norm_spec cwd input with Some p => f p | None => (s, Err InvalidName) end.

(** * The refinement *)

Definition view (s : state X) : spec_state := (abs (files s), disk s).

Definition fs_wf (s : state X) : Prop := table_wf (files s) /\ vram_wf (vfs s).

(** [r] is what the specification [t] does to the view of [s]: the invariant
    holds afterwards and the video memory is untouched. *)
Definition implements {A} (s : state X) (r : state X * fres A) (t : spec_state * fres ()) : Prop :=
  fs_wf (fst r) /\ vfs (fst r) = vfs s /\ view (fst r) = fst t /\ ((fun _ => ()) <$> snd r) = snd t.

Lemma implements_err {A} s e :
  fs_wf s -> implements s (s, @Err FsError A e) (view s, Err e).
Proof. by intros. Qed.

Lemma implements_ok {A} s (a : A) : fs_wf s -> implements s (s, Ok a) (view s, Ok ()).
Proof. by intros. Qed.

Lemma set_file_wf s i l :
  fs_wf s -> table_wf (<[i := l]> (files s)) -> fs_wf (set_file s i l).
Proof. by intros [_ Hv] Ht. Qed.

Lemma set_disk_wf s d : fs_wf s -> fs_wf (set_disk s d).
Proof. by intros []. Qed.

Lemma missing_free l p i f :
  abs l !! p = None -> find_file is_free l = Some (i, f) ->
  l !! i = Some f /\ (named p f = true \/ used f = false /\ abs l !! p = None).
Proof.
  intros Hp [Hi Hf]%find_Some. split; [done|]. right. split; [|done].
  unfold is_free in Hf. by apply negb_true_iff in Hf.
Qed.

Lemma spec_insert_full l p n :
  table_wf l -> find_file is_free l = None -> spec_insert p n (abs l) = (abs l, Err DiskFull).
Proof. intros Hl Hf%free_slot; [|done]. unfold spec_insert. by rewrite bool_decide_eq_true_2. Qed.

Lemma spec_insert_room l p n x :
  table_wf l -> find_file is_free l = Some x -> spec_insert p n (abs l) = (<[p := n]> (abs l), Ok ()).
Proof.
  intros Hl Hf. unfold spec_insert. rewrite bool_decide_eq_false_2; [done|].
  rewrite <-free_slot by done. congruence.
Qed.

Lemma norm_cases input :
  utf8_valid input = true -> cwd_ok cwd ->
  (exists p, norm_spec cwd input = Some p /\ norm_path cwd input = Ok p /\
     canonical p /\ 1 <= len p <= 63) \/
  (norm_spec cwd input = None /\ norm_path cwd input = Err InvalidName).
Proof.
  intros Hi Hc. pose proof (norm_path_spec cwd input Hi Hc) as E.
  destruct (norm_spec cwd input) as [p|]; [left|by right].
  exists p. destruct (norm_path_canonical cwd input p) as [Hcan Hl]; [done..|].
  pose proof (canonical_len p Hcan). by split_and!.
Qed.

Lemma fs_mkdir_implements path s :
  fs_wf s -> utf8_valid path = true -> cwd_ok cwd ->
  implements s (fs_mkdir cwd now path s) (on_path path (view s) (fun p => spec_mkdir p (view s))).
Proof.
  intros Hs Hp Hc. pose proof Hs as [Ht Hv]. unfold fs_mkdir, on_path.
  destruct (norm_cases path Hp Hc) as [(p & -> & -> & Hcan & Hlen)|[-> ->]];
    [|by apply implements_err].
  unfold spec_mkdir. cbn [view].
  destruct (find_file (named p) (files s)) as [[i f]|] eqn:Ef.
  { rewrite (abs_found _ _ _ _ Ef). by apply implements_ok. }
  apply abs_missing in Ef as Em. rewrite Em.
  destruct (find_file is_free (files s)) as [[i f]|] eqn:Eg.
  - rewrite (spec_insert_room _ p _ _ Ht Eg).
    destruct (missing_free _ _ _ _ Em Eg) as [Hi Hf]. pose proof (table_entry _ _ _ Ht Hi) as He.
    destruct (table_put (files s) i f
      (mkEntry (splice (name f) 0 p) (len p) (data f) 0 true false now true) p) as [Ht' Ea].
    + done.
    + done.
    + destruct He. constructor; simpl; try lia.
      * rewrite len_splice; lia.
      * intros _. by rewrite name_str_set by (done || lia).
    + apply named_spec. split; [done|]. apply name_str_set; [by apply wf_name|done|lia].
    + done.
    + split_and!; [by apply set_file_wf|done| |done]. unfold view. simpl. by rewrite Ea.
  - rewrite (spec_insert_full _ p _ Ht Eg). by apply implements_err.
Qed.

Lemma sync_create_view ro p c s i f :
  view (sync_create ro p c (set_file s i f)) =
  (abs (<[i := f]> (files s)), spec_sync ro p c (disk s)).
Proof. unfold sync_create, spec_sync. by destruct (negb ro && synced p). Qed.

Lemma sync_create_wf ro p c s : fs_wf s -> fs_wf (sync_create ro p c s).
Proof. unfold sync_create. case_match; [apply set_disk_wf|done]. Qed.

Lemma sync_create_vfs ro p c s : vfs (sync_create ro p c s) = vfs s.
Proof. unfold sync_create. by case_match. Qed.

Lemma fs_create_implements path c ro s :
  fs_wf s -> utf8_valid path = true -> cwd_ok cwd ->
  implements s (fs_create_internal cwd now path c ro s)
    (if 4096 <? len c then (view s, Err FileTooLarge)
     else on_path path (view s) (fun p => spec_create p c ro (view s))).
Proof.
  intros Hs Hp Hc. pose proof Hs as [Ht Hv]. unfold fs_create_internal, on_path, MAX_FILE_SIZE.
  destruct (Z.ltb_spec 4096 (len c)); [by apply implements_err|].
  destruct (norm_cases path Hp Hc) as [(p & -> & -> & Hcan & Hlen)|[-> ->]];
    [|by apply implements_err].
  unfold spec_create. cbn [view]. pose proof (len_nonneg c).
  destruct (find_file (named p) (files s)) as [[i f]|] eqn:Ef.
  - rewrite (abs_found _ _ _ _ Ef). cbn [node_of n_ro]. destruct (read_only f) eqn:Ero;
      [by apply implements_err|].
    apply find_Some in Ef as [Hi Hf]. pose proof (table_entry _ _ _ Ht Hi) as He.
    destruct (table_put (files s) i f (mkEntry (name f) (name_len f) (splice (data f) 0 c) (len c)
      false false now (used f)) p) as [Ht' Ea]; [done|done| | |by left|].
    + apply entry_wf_same; [done| |lia]. rewrite len_splice; [by apply wf_data|lia|].
      rewrite (wf_data f He). lia.
    + apply named_spec in Hf as [Hu Hn]. by apply named_spec.
    + split_and!; [by apply sync_create_wf, set_file_wf|cbn [fst]; by rewrite sync_create_vfs| |done].
      cbn [fst]. rewrite sync_create_view, Ea. unfold node_of, contents. simpl.
      by rewrite contents_set by (apply He || lia).
  - apply abs_missing in Ef as Em. rewrite Em.
    destruct (find_file is_free (files s)) as [[i f]|] eqn:Eg.
    + rewrite (spec_insert_room _ p _ _ Ht Eg).
      destruct (missing_free _ _ _ _ Em Eg) as [Hi Hf]. pose proof (table_entry _ _ _ Ht Hi) as He.
      destruct (table_put (files s) i f (mkEntry (splice (name f) 0 p) (len p)
        (splice (data f) 0 c) (len c) false ro now true) p) as [Ht' Ea]; [done|done| | |done|].
      * apply entry_set_wf; (done || lia).
      * apply named_spec. split; [done|]. apply name_str_set; [by apply wf_name|done|lia].
      * split_and!; [by apply sync_create_wf, set_file_wf|cbn [fst]; by rewrite sync_create_vfs| |done].
        cbn [fst]. rewrite sync_create_view, Ea. unfold node_of, contents. simpl.
        by rewrite contents_set by (apply He || lia).
    + rewrite (spec_insert_full _ p _ Ht Eg). by apply implements_err.
Qed.

Lemma has_child_spec p l :
  uniq l ->
  existsb (fun f => used f && negb (bytes_eqb (name_str f) p) && below p (name_str f)) l =
  bool_decide (has_child p (abs l)).
Proof.
  intros Hu. apply eq_true_iff_eq. rewrite bool_decide_eq_true. unfold has_child.
  pose proof (existsb_abs (fun q (_ : node) => negb (bytes_eqb q p) && below p q) l Hu) as E.
  cbv beta in E. erewrite existsb_ext; [rewrite E|intros f; symmetry; apply andb_assoc].
  split.
  - intros (q & n & Hq & [H1 H2]%andb_true_iff). exists q, n.
    by destruct (bytes_eqb_spec q p).
  - intros (q & n & Hq & H1 & H2). exists q, n. rewrite H2. by destruct (bytes_eqb_spec q p).
Qed.

Lemma set_sync_view (b : bool) (g : X -> X) s :
  view (if b then set_disk s (g (disk s)) else s) = (abs (files s), if b then g (disk s) else disk s).
Proof. by destruct b. Qed.

Lemma fs_delete_implements path s :
  fs_wf s -> utf8_valid path = true -> cwd_ok cwd ->
  implements s (fs_delete cwd path s) (on_path path (view s) (fun p => spec_delete p (view s))).
Proof.
  intros Hs Hp Hc. pose proof Hs as [Ht Hv]. unfold fs_delete, on_path.
  destruct (norm_cases path Hp Hc) as [(p & -> & -> & Hcan & Hlen)|[-> ->]];
    [|by apply implements_err].
  unfold spec_delete. cbn [view]. rewrite has_child_spec by apply Ht.
  rewrite decide_bool_decide. case_bool_decide; [by apply implements_err|].
  destruct (find_file (named p) (files s)) as [[i f]|] eqn:Ef.
  - rewrite (abs_found _ _ _ _ Ef). cbn [node_of n_ro].
    destruct (read_only f); [by apply implements_err|].
    apply find_Some in Ef as [Hi Hf].
    destruct (table_drop (files s) i f p) as [Ht' Ea]; [done..|].
    split_and!.
    + cbn [fst]. case_match; [apply set_disk_wf|]; by apply set_file_wf.
    + cbn [fst]. by case_match.
    + cbn [fst]. rewrite (set_sync_view _ (fun d => export_disk_auto_sync_delete d p)). simpl.
      by rewrite Ea.
    + done.
  - rewrite (abs_missing _ _ Ef). by apply implements_err.
Qed.

Lemma existsb_named p l : uniq l -> existsb (named p) l = bool_decide (is_Some (abs l !! p)).
Proof.
  intros Hu. apply eq_true_iff_eq. rewrite bool_decide_eq_true.
  pose proof (existsb_abs (fun q (_ : node) => bytes_eqb q p) l Hu) as E.
  cbv beta in E. unfold named. rewrite E. unfold bytes_eqb. setoid_rewrite bool_decide_eq_true.
  split; [by intros (q & n & ? & ->); exists n|]. intros [n Hn]. by exists p, n.
Qed.

Lemma fs_rename_implements old new s :
  fs_wf s -> utf8_valid old = true -> utf8_valid new = true -> cwd_ok cwd ->
  implements s (fs_rename cwd now old new s)
    (on_path old (view s) (fun p => on_path new (view s) (fun q => spec_rename p q (view s)))).
Proof.
  intros Hs Hp Hq Hc. pose proof Hs as [Ht Hv]. unfold fs_rename, on_path.
  destruct (norm_cases old Hp Hc) as [(p & -> & -> & Hpcan & Hplen)|[-> ->]];
    [|by apply implements_err].
  destruct (norm_cases new Hq Hc) as [(q & -> & -> & Hqcan & Hqlen)|[-> ->]];
    [|by apply implements_err].
  unfold spec_rename, MAX_FILENAME_LEN. cbn [view].
  destruct (bytes_eqb_spec q []) as [->|_]; [rewrite len_nil in Hqlen; lia|].
  destruct (Z.ltb_spec 64 (len q)); [lia|]. cbn [orb].
  rewrite existsb_named by apply Ht. destruct (abs (files s) !! q) eqn:Eq.
  { rewrite bool_decide_eq_true_2 by done. by apply implements_err. }
  rewrite bool_decide_eq_false_2 by by apply eq_None_not_Some.
  destruct (find_file (named p) (files s)) as [[i f]|] eqn:Ef.
  - pose proof (abs_found _ _ _ _ Ef) as Ep. rewrite Ep. cbn [node_of n_ro n_dir n_content].
    destruct (read_only f) eqn:Ero; [by apply implements_err|].
    apply find_Some in Ef as [Hi Hf]. pose proof (table_entry _ _ _ Ht Hi) as He.
    assert (Hil : (i < length (files s))%nat) by by apply lookup_lt_Some in Hi.
    destruct (table_drop (files s) i f p) as [Ht1 Ea1]; [done..|].
    set (g := mkEntry (splice (name f) 0 q) (len q) (data f) (size f) (is_dir f) false now (used f)).
    assert (Eg : node_of g = node_of f) by (unfold node_of; by rewrite Ero).
    assert (Hg : named q g = true).
    { apply named_spec in Hf as [Hu _]. apply named_spec. split; [done|].
      apply name_str_set; [by apply wf_name|done|lia]. }
    destruct (table_put (<[i := empty_entry]> (files s)) i empty_entry g q) as [Ht2 Ea2].
    + done.
    + by apply list_lookup_insert_eq.
    + pose proof He as []. constructor; simpl; try done; [rewrite len_splice; lia|lia|].
      intros _. apply named_spec in Hg as [_ Hg]. by rewrite Hg.
    + done.
    + right. split; [done|]. rewrite Ea1. rewrite lookup_delete_ne; [done|]. intros ->. congruence.
    + rewrite list_insert_insert_eq in Ht2, Ea2. rewrite Ea1 in Ea2.
      split_and!.
      * cbn [fst]. repeat case_match; repeat apply set_disk_wf; by apply set_file_wf.
      * cbn [fst]. by repeat case_match.
      * cbn [fst]. unfold spec_sync. change (is_dir g) with (is_dir f).
        change (contents g) with (contents f).
        rewrite (set_sync_view _ (fun d => export_disk_auto_sync_file d q (contents f))).
        rewrite (andb_comm (synced q)). destruct (synced p); simpl; by rewrite Ea2, Eg.
      * done.
  - rewrite (abs_missing _ _ Ef). by apply implements_err.
Qed.

(** * Writing and copying *)

Lemma fs_write_vram path c s :
  fs_wf s -> vfs_is_vram_path (trim path) = true ->
  fs_wf (fst (fs_write cwd now path c s)) /\ view (fst (fs_write cwd now path c s)) = view s /\
  is_panic (snd (fs_write cwd now path c s)) = false.
Proof.
  intros [Ht Hv] Hp. unfold fs_write. rewrite Hp.
  destruct (vfs_write (vfs s) (trim path) c) as [v|] eqn:E; [|done].
  by apply vfs_write_wf in E.
Qed.

Lemma fs_write_file path c s :
  fs_wf s -> utf8_valid path = true -> cwd_ok cwd -> vfs_is_vram_path (trim path) = false ->
  implements s (fs_write cwd now path c s)
    (if 4096 <? len c then (view s, Err FileTooLarge)
     else on_path path (view s) (fun p => spec_create p c false (view s))).
Proof.
  intros Hs Hp Hc Hv. unfold fs_write. rewrite Hv.
  pose proof (fs_create_implements path c false s Hs Hp Hc) as H.
  destruct (fs_create_internal cwd now path c false s) as [s' r].
  destruct H as (H1 & H2 & H3 & H4). split_and!; try done. rewrite <-H4. by destruct r.
Qed.

(** [s'] is a state an operation may leave: well-formed, and nothing that is
    read-only has changed. *)
Definition keeps_ro (m m' : fmap_t) : Prop :=
  forall p n, m !! p = Some n -> n_ro n = true -> m' !! p = Some n.

Definition safe_step {A} (s : state X) (r : state X * fres A) : Prop :=
  fs_wf (fst r) /\ is_panic (snd r) = false /\ keeps_ro (abs (files s)) (abs (files (fst r))).

Lemma implements_safe {A} s (r : state X * fres A) t :
  implements s r t -> is_panic (snd t) = false -> keeps_ro (abs (files s)) (fst (fst t)) ->
  safe_step s r.
Proof.
  intros (H1 & _ & H3 & H4) Hp Hk. split_and!; [done| |by rewrite <-H3 in Hk].
  rewrite <-H4 in Hp. by destruct (snd r).
Qed.

Lemma keeps_refl m : keeps_ro m m.
Proof. by intros p n. Qed.

Lemma keeps_insert m p n : (forall n', m !! p = Some n' -> n_ro n' = false) -> keeps_ro m (<[p := n]> m).
Proof.
  intros Hp q n' Hq Hn. destruct (decide (p = q)) as [->|Hne]; [|by rewrite lookup_insert_ne].
  specialize (Hp n' Hq). congruence.
Qed.

Lemma keeps_delete m p : (forall n', m !! p = Some n' -> n_ro n' = false) -> keeps_ro m (delete p m).
Proof.
  intros Hp q n' Hq Hn. destruct (decide (p = q)) as [->|Hne]; [|by rewrite lookup_delete_ne].
  specialize (Hp n' Hq). congruence.
Qed.

Lemma keeps_trans m1 m2 m3 : keeps_ro m1 m2 -> keeps_ro m2 m3 -> keeps_ro m1 m3.
Proof. intros H1 H2 p n Hp Hn. by apply H2; [apply H1|]. Qed.

Lemma safe_mkdir path s : fs_wf s -> utf8_valid path = true -> cwd_ok cwd ->
  safe_step s (fs_mkdir cwd now path s).
Proof.
  intros Hs Hp Hc. eapply implements_safe; [by apply fs_mkdir_implements|..];
    unfold on_path, spec_mkdir, spec_insert; simpl; repeat (case_match; simplify_eq/=; try done);
    apply keeps_refl || (apply keeps_insert; naive_solver).
Qed.

Lemma safe_create path c ro s : fs_wf s -> utf8_valid path = true -> cwd_ok cwd ->
  safe_step s (fs_create_internal cwd now path c ro s).
Proof.
  intros Hs Hp Hc. eapply implements_safe; [by apply fs_create_implements|..];
    unfold on_path, spec_create, spec_insert; simpl; repeat (case_match; simplify_eq/=; try done);
    apply keeps_refl || (apply keeps_insert; naive_solver).
Qed.

Lemma safe_write path c s : fs_wf s -> utf8_valid path = true -> cwd_ok cwd ->
  safe_step s (fs_write cwd now path c s).
Proof.
  intros Hs Hp Hc. destruct (vfs_is_vram_path (trim path)) eqn:Hv.
  - destruct (fs_write_vram path c s Hs Hv) as (H1 & H2 & H3). split_and!; [done|done|].
    injection H2 as -> _. apply keeps_refl.
  - destruct (safe_create path c false s Hs Hp Hc) as (H1 & H2 & H3). unfold fs_write, safe_step.
    rewrite Hv. destruct (fs_create_internal cwd now path c false s) as [s' r]. simpl in *.
    by destruct r.
Qed.

Lemma safe_delete path s : fs_wf s -> utf8_valid path = true -> cwd_ok cwd ->
  safe_step s (fs_delete cwd path s).
Proof.
  intros Hs Hp Hc. eapply implements_safe; [by apply fs_delete_implements|..];
    unfold on_path, spec_delete; simpl; repeat (case_match; simplify_eq/=; try done);
    apply keeps_refl || (apply keeps_delete; naive_solver).
Qed.

Lemma safe_rename old new s :
  fs_wf s -> utf8_valid old = true -> utf8_valid new = true -> cwd_ok cwd ->
  safe_step s (fs_rename cwd now old new s).
Proof.
  intros Hs Hp Hq Hc. eapply implements_safe; [by apply fs_rename_implements|..];
    unfold on_path, spec_rename; simpl; repeat (case_match; simplify_eq/=; try done);
    try apply keeps_refl.
  eapply keeps_trans; [eapply keeps_delete|apply keeps_insert].
  - intros n' E. congruence.
  - intros n' [_ E]%lookup_delete_Some. congruence.
Qed.

Lemma safe_copy src dst s :
  fs_wf s -> utf8_valid src = true -> utf8_valid dst = true -> cwd_ok cwd ->
  safe_step s (fs_copy cwd now src dst s).
Proof.
  intros Hs Hp Hq Hc. unfold fs_copy.
  assert (Herr : forall e, safe_step s (s, @Err FsError () e)) by
    (intros e; split_and!; [done|done|apply keeps_refl]).
  destruct (norm_cases src Hp Hc) as [(p & _ & -> & _ & _)|[_ ->]]; [|apply Herr].
  destruct (norm_cases dst Hq Hc) as [(q & _ & -> & Hcan & _)|[_ ->]]; [|apply Herr].
  case_match; [|apply Herr]. apply safe_write; [done|by apply canonical_valid|done].
Qed.
(** C7: [fs_mkdir], [fs_create_internal], [fs_delete] and [fs_rename] implement
    operations on a finite map from canonical paths to files and directories,
    on every branch and for every error: creation is bounded by 128 paths and
    4096 bytes, a directory with something below it is not deleted, a rename
    moves one path to a free one, read-only entries are refused, and each
    success is written through to the disk as specified; a failure changes
    neither the map nor the disk. *)
Theorem fs_refines_map p q c ro s :
  fs_wf s -> cwd_ok cwd -> utf8_valid p = true -> utf8_valid q = true ->
  implements s (fs_mkdir cwd now p s)
    (on_path p (view s) (fun p => spec_mkdir p (view s))) /\
  implements s (fs_create_internal cwd now p c ro s)
    (if 4096 <? len c then (view s, Err FileTooLarge)
     else on_path p (view s) (fun p => spec_create p c ro (view s))) /\
  implements s (fs_delete cwd p s)
    (on_path p (view s) (fun p => spec_delete p (view s))) /\
  implements s (fs_rename cwd now p q s)
    (on_path p (view s) (fun p => on_path q (view s) (fun q => spec_rename p q (view s)))).
Proof.
  intros. split_and!.
  - by apply fs_mkdir_implements.
  - by apply fs_create_implements.
  - by apply fs_delete_implements.
  - by apply fs_rename_implements.
Qed.
End Spec.

Lemma fs_new_wf {X} (d : X) : fs_wf (fs_new d).
Proof. split; [apply table_new|apply vram_new_wf]. Qed.

Theorem fs_refines_map_witness :
  let s := fs_new ([] : list sync_event) in
  view (fst (fs_create_internal (bytes "/") 5 (bytes "a") [7] false s)) =
  (<[bytes "/a" := mkNode false false [7]]> ∅, [SyncFile (bytes "/a") [7]]).
Proof.
  intros s. destruct (fs_refines_map (bytes "/") 5 (bytes "a") (bytes "b") [7] false s)
    as (_ & (_ & _ & H & _) & _).
  - apply fs_new_wf.
  - exact root_ok.
  - reflexivity.
  - reflexivity.
  - rewrite H. vm_compute. reflexivity.
Defined.
