(* ===== verification/FsLaws.v ===== *)
(** What the clients of LatencyFS rely on: the invariant over whole sequences of
    operations, read-after-write, the protection of read-only files, what a read
    of a missing file returns, and the instance of the editor's [FileStore]. *)

From stdpp Require Import gmap.
From S2P Require Import Prelude RustStd RustStr Vfs ExportDisk Fs FsPath FsTable FsProps.
From S2P Require Import Editor EditorProps EditorSession.
Local Open Scope Z_scope.

(** * Trimming twice *)

Lemma strip_length one two three l : (length (strip one two three l) <= length l)%nat.
Proof.
  remember (length l) as n eqn:Hn. revert l Hn.
  induction n as [n IH] using lt_wf_ind. intros l ->.
  destruct l as [|b l1]; [done|]. cbn [strip]. case_match.
  { specialize (IH (length l1) ltac:(simpl; lia) l1 eq_refl). simpl. lia. }
  destruct l1 as [|c l2]; [done|]. case_match.
  { specialize (IH (length l2) ltac:(simpl; lia) l2 eq_refl). simpl. lia. }
  destruct l2 as [|d l3]; [done|]. case_match; [|done].
  specialize (IH (length l3) ltac:(simpl; lia) l3 eq_refl). simpl. lia.
Qed.

Ltac strip_shrinks :=
  match goal with
  | H : strip ?o ?t ?th ?l = _ |- _ =>
    pose proof (strip_length o t th l) as Hlen; rewrite H in Hlen; simpl in Hlen;
    rewrite ?length_app in Hlen; lia
  end.

(** A prefix of a string with nothing to strip has nothing to strip. *)
Lemma strip_prefix one two three l k :
  strip one two three (l ++ k) = l ++ k -> strip one two three l = l.
Proof.
  destruct l as [|b l1]; [done|]. cbn [strip app]. case_match; [intros E; exfalso; strip_shrinks|].
  destruct l1 as [|c l2]; [done|]. cbn [app]. case_match; [intros E; exfalso; strip_shrinks|].
  destruct l2 as [|d l3]; [done|]. cbn [app]. case_match; [intros E; exfalso; strip_shrinks|done].
Qed.

Lemma strip_idem one two three l :
  strip one two three (strip one two three l) = strip one two three l.
Proof.
  remember (length l) as n eqn:Hn. revert l Hn.
  induction n as [n IH] using lt_wf_ind. intros l ->.
  destruct l as [|b l1]; [done|]. cbn [strip]. destruct (one b) eqn:E1.
  { apply (IH (length l1)); [simpl; lia|done]. }
  destruct l1 as [|c l2]; [simpl; by rewrite E1|]. destruct (two b c) eqn:E2.
  { apply (IH (length l2)); [simpl; lia|done]. }
  destruct l2 as [|d l3]; [simpl; by rewrite E1, E2|]. destruct (three b c d) eqn:E3.
  { apply (IH (length l3)); [simpl; lia|done]. }
  cbn [strip]. by rewrite E1, E2, E3.
Qed.

Lemma trim_idem l : trim (trim l) = trim l.
Proof.
  unfold trim. assert (E : trim_start (trim_end (trim_start l)) = trim_end (trim_start l)).
  { destruct (strip_suffix ws1 (fun c b => ws2 b c) (fun d c b => ws3 b c d) (rev (trim_start l)))
      as [k Hk]. apply (f_equal (@rev Z)) in Hk. rewrite rev_involutive, rev_app_distr in Hk.
    fold (trim_end (trim_start l)) in Hk. apply (strip_prefix _ _ _ _ (rev k)).
    change (trim_start (trim_end (trim_start l) ++ rev k) = trim_end (trim_start l) ++ rev k).
    rewrite <-Hk. apply strip_idem. }
  rewrite E. unfold trim_end. by rewrite rev_involutive, strip_idem.
Qed.

(** * Reading *)

Section Laws.
Context {X : Type} `{!SyncDisk X}.

Lemma norm_spec_trim cwd n : norm_spec cwd (trim n) = norm_spec cwd n.
Proof. unfold norm_spec. by rewrite trim_idem. Qed.

Lemma norm_path_nonempty cwd n p : norm_spec cwd n = Some p -> bytes_eqb (trim n) [] = false.
Proof. unfold norm_spec. by destruct (bytes_eqb (trim n) []). Qed.

Lemma exact_match l p n :
  uniq l -> abs l !! p = Some n -> n_dir n = false ->
  exists i f, find_file (is_file (fun q => bytes_eqb q p)) l = Some (i, f) /\ contents f = n_content n.
Proof.
  intros Hu Hp Hd. pose proof (abs_inv _ _ _ Hp) as (f & Hf & Hfu & Hfn & ->).
  destruct (find_file (is_file (fun q => bytes_eqb q p)) l) as [[i g]|] eqn:E.
  - exists i, g. split; [done|]. apply find_Some in E as [Hi Hg]. unfold is_file in Hg.
    apply andb_true_iff in Hg as [[Hgu _]%andb_true_iff Hgn].
    destruct (bytes_eqb_spec (name_str g) p) as [<-|]; [|done].
    rewrite (abs_used l g) in Hp by (done || by eapply list_elem_of_lookup_2).
    unfold node_of in Hp. by injection Hp.
  - pose proof (find_None _ _ _ E Hf) as Hg. unfold is_file in Hg. simpl in Hd.
    rewrite Hfu, Hd, Hfn in Hg. by destruct (bytes_eqb_spec p p).
Qed.

(** A file of the table whose name satisfies [P]. *)
Definition file_with (P : list Z -> bool) (m : fmap_t) (c : list Z) : Prop :=
  exists q n, m !! q = Some n /\ n_dir n = false /\ P q = true /\ n_content n = c.

Lemma find_file_with P l i f :
  uniq l -> find_file (is_file P) l = Some (i, f) -> file_with P (abs l) (contents f).
Proof.
  intros Hu [Hi Hf]%find_Some. unfold is_file in Hf.
  apply andb_true_iff in Hf as [[Hfu Hd%negb_true_iff]%andb_true_iff HP].
  exists (name_str f), (node_of f). split_and!; try done.
  apply abs_used; [done|by eapply list_elem_of_lookup_2|done].
Qed.

Lemma find_file_without P l : find_file (is_file P) l = None -> forall c, ~ file_with P (abs l) c.
Proof.
  intros E c (q & n & (f & Hf & Hfu & <- & ->)%abs_inv & Hd & HP & _).
  pose proof (find_None _ _ _ E Hf) as Hg. unfold is_file in Hg. simpl in Hd.
  by rewrite Hfu, Hd, HP in Hg.
Qed.

Lemma fs_read_exact cwd m p (s : state X) n :
  table_wf (files s) -> utf8_valid m = true -> cwd_ok cwd -> vfs_is_vram_path (trim m) = false ->
  norm_spec cwd m = Some p -> abs (files s) !! p = Some n -> n_dir n = false ->
  fs_read cwd m s = Some (n_content n).
Proof.
  intros Ht Hm Hc Hv Hn Hp Hd. unfold fs_read. rewrite (norm_path_nonempty _ _ _ Hn), Hv.
  rewrite norm_path_spec by (done || by apply trim_valid). rewrite norm_spec_trim, Hn.
  destruct (exact_match (files s) p n) as (i & f & -> & <-); [apply Ht|done..].
Qed.

(** A read outside the video memory returns the file at the normalised path if
    there is one; otherwise it never fails while some file of the table has the
    trimmed name as its last component or the same 8.3 name: it then returns the
    contents of such a file, of the first kind if there is one. *)
Theorem fs_read_branches cwd m p (s : state X) :
  table_wf (files s) -> utf8_valid m = true -> cwd_ok cwd -> vfs_is_vram_path (trim m) = false ->
  norm_spec cwd m = Some p ->
  let base := has_basename (trim m) in
  let short q := bytes_eqb (to_83_name q) (to_83_name (trim m)) in
  match abs (files s) !! p with
  | Some (mkNode false _ c) => fs_read cwd m s = Some c
  | _ =>
    (exists c, fs_read cwd m s = Some c /\ file_with base (abs (files s)) c) \/
    (forall c, ~ file_with base (abs (files s)) c) /\
    match fs_read cwd m s with
    | Some c => file_with short (abs (files s)) c
    | None => forall c, ~ file_with short (abs (files s)) c
    end
  end.
Proof.
  intros Ht Hm Hc Hv Hn base short.
  assert (Hfall : (forall n, abs (files s) !! p = Some n -> n_dir n = true) ->
    (exists c, fs_read cwd m s = Some c /\ file_with base (abs (files s)) c) \/
    (forall c, ~ file_with base (abs (files s)) c) /\
    match fs_read cwd m s with
    | Some c => file_with short (abs (files s)) c
    | None => forall c, ~ file_with short (abs (files s)) c
    end).
  { intros Hdir. unfold fs_read. rewrite (norm_path_nonempty _ _ _ Hn), Hv.
    rewrite norm_path_spec by (done || by apply trim_valid). rewrite norm_spec_trim, Hn.
    destruct (find_file (is_file (fun n => bytes_eqb n p)) (files s)) as [[i f]|] eqn:E0.
    { apply find_file_with in E0 as (q & n & Hq & Hd & Hqp & _); [|apply Ht].
      destruct (bytes_eqb_spec q p) as [->|]; [|done]. rewrite (Hdir n Hq) in Hd. done. }
    fold base. fold short. destruct (find_file (is_file base) (files s)) as [[i f]|] eqn:E1.
    { left. eexists. split; [done|]. eapply find_file_with; [apply Ht|done]. }
    right. split; [by apply find_file_without|].
    destruct (find_file (is_file short) (files s)) as [[i f]|] eqn:E2.
    - eapply find_file_with; [apply Ht|done].
    - by apply find_file_without. }
  destruct (abs (files s) !! p) as [[[] ro c]|] eqn:Ep.
  - apply Hfall. by intros n [= <-].
  - by apply (fs_read_exact cwd m p s (mkNode false ro c)).
  - by apply Hfall.
Qed.

(** * Read after write *)

(** Every name of the path [p], from whatever current directory, reads as [c]. *)
Definition reads_as (p c : list Z) (s : state X) : Prop :=
  forall cwd m, utf8_valid m = true -> cwd_ok cwd -> vfs_is_vram_path (trim m) = false ->
    norm_path cwd m = Ok p -> fs_read cwd m s = Some c.

(** What a successful write outside the video memory does. *)
Lemma fs_write_result cwd now n c (s s' : state X) :
  fs_wf s -> utf8_valid n = true -> cwd_ok cwd -> vfs_is_vram_path (trim n) = false ->
  fs_write cwd now n c s = (s', Ok ()) ->
  exists p, norm_path cwd n = Ok p /\
    abs (files s') = <[p := mkNode false false c]> (abs (files s)) /\
    disk s' = (if synced p then export_disk_auto_sync_file (disk s) p c else disk s) /\
    reads_as p c s'.
Proof.
  intros Hs Hn Hc Hv Hw. pose proof (fs_write_file cwd now n c s Hs Hn Hc Hv) as H.
  rewrite Hw in H. destruct H as (Hs' & _ & Hview & Hr). simpl in *.
  case_match; [done|]. unfold on_path in *.
  destruct (norm_cases cwd n Hn Hc) as [(p & Ep & Enp & _)|[Ep _]]; rewrite Ep in *; [|done].
  exists p. split; [done|].
  assert (E : abs (files s') = <[p:=mkNode false false c]> (abs (files s)) /\
    disk s' = if synced p then export_disk_auto_sync_file (disk s) p c else disk s).
  { unfold spec_create, spec_insert, spec_sync, view in *. simpl in *.
    repeat (case_match; simplify_eq/=; try done). }
  destruct E as [Ea Ed]. split_and!; [done..|]. intros cwd' m Hm Hc' Hvm Hnm.
  rewrite norm_path_spec in Hnm by done. destruct (norm_spec cwd' m) as [q|] eqn:Eq; [|done].
  injection Hnm as ->. apply (fs_read_exact cwd' m p s' (mkNode false false c)); try done.
  - apply Hs'.
  - by rewrite Ea, lookup_insert_eq.
Qed.

(** C22: a successful write outside the video memory is read back: the new
    contents are what every later read of the file returns, whatever name and
    current directory it is given that normalise to the same path; the entry
    is a writable file, nothing else in the table changes, and the write goes
    through to the disk unless the path begins with /vram. *)
Theorem fs_write_read cwd now n c (s s' : state X) :
  fs_wf s -> utf8_valid n = true -> cwd_ok cwd -> vfs_is_vram_path (trim n) = false ->
  fs_write cwd now n c s = (s', Ok ()) ->
  exists p, norm_path cwd n = Ok p /\
    abs (files s') = <[p := mkNode false false c]> (abs (files s)) /\
    disk s' = (if synced p then export_disk_auto_sync_file (disk s) p c else disk s) /\
    reads_as p c s'.
Proof. apply fs_write_result. Qed.

(** * Sessions: sequences of operations *)

Inductive fs_op : Set :=
| OpMkdir (path : list Z)
| OpCreate (path content : list Z) (ro : bool)
| OpWrite (path content : list Z)
| OpDelete (path : list Z)
| OpRename (old_name new_name : list Z)
| OpCopy (src_name dst_name : list Z)
| OpCd (path : list Z).

(** Strings are UTF-8. *)
Definition op_ok (o : fs_op) : Prop :=
  match o with
  | OpMkdir p | OpCreate p _ _ | OpWrite p _ | OpDelete p | OpCd p => utf8_valid p = true
  | OpRename p q | OpCopy p q => utf8_valid p = true /\ utf8_valid q = true
  end.

Definition in_dir {A} (cwd : list Z) (r : state X * fres A) : (list Z * state X) * fres () :=
  ((cwd, fst r), (fun _ => ()) <$> snd r).

(** One operation at time [now], from a current directory and a state. *)
Definition fs_step (now : Z) (o : fs_op) (x : list Z * state X) : (list Z * state X) * fres () :=
  let '(cwd, s) := x in
  match o with
  | OpMkdir p => in_dir cwd (fs_mkdir cwd now p s)
  | OpCreate p c ro => in_dir cwd (fs_create_internal cwd now p c ro s)
  | OpWrite p c => in_dir cwd (fs_write cwd now p c s)
  | OpDelete p => in_dir cwd (fs_delete cwd p s)
  | OpRename p q => in_dir cwd (fs_rename cwd now p q s)
  | OpCopy p q => in_dir cwd (fs_copy cwd now p q s)
  | OpCd p => ((default cwd (cd cwd p s), s), Ok ())
  end.

Fixpoint fs_session (ops : list (Z * fs_op)) (x : list Z * state X)
    : (list Z * state X) * list (fres ()) :=
  match ops with
  | [] => (x, [])
  | (now, o) :: ops =>
    let '(x, r) := fs_step now o x in
    let '(x, rs) := fs_session ops x in (x, r :: rs)
  end.

Lemma cd_ok cwd arg (s : state X) p :
  utf8_valid arg = true -> cwd_ok cwd -> cd cwd arg s = Some p -> cwd_ok p.
Proof.
  intros Ha Hc. unfold cd.
  assert (Ht : utf8_valid (match arg with [] => bytes "/" | _ => arg end) = true) by by destruct arg.
  revert Ht. generalize (match arg with [] => bytes "/" | _ => arg end). intros t Ht.
  pose proof (normalize_spec t cwd (replicate 64 0) Ht Hc eq_refl) as H.
  destruct (norm_spec cwd t) as [q|]; [|by rewrite H].
  destruct H as ((buf & -> & _ & ->) & Hcan & _). rewrite canonical_valid by done.
  case_match; [|done]. intros [= <-]. split; [by apply canonical_valid|]. right.
  destruct Hcan as (st & _ & ->). by destruct (render_head st) as [l ->].
Qed.

(** What every operation keeps of a current directory and a state. *)
Definition session_ok (x : list Z * state X) : Prop := cwd_ok (fst x) /\ fs_wf (snd x).

Lemma fs_step_safe now o x :
  session_ok x -> op_ok o ->
  session_ok (fst (fs_step now o x)) /\ is_panic (snd (fs_step now o x)) = false /\
  keeps_ro (abs (files (snd x))) (abs (files (snd (fst (fs_step now o x))))).
Proof.
  destruct x as [cwd s]. intros [Hc Hs] Ho. simpl in Hc, Hs.
  assert (Hsafe : forall A (r : state X * fres A), safe_step s r ->
    session_ok (fst (in_dir cwd r)) /\ is_panic (snd (in_dir cwd r)) = false /\
    keeps_ro (abs (files s)) (abs (files (snd (fst (in_dir cwd r)))))).
  { intros A [s' r] (H1 & H2 & H3). split_and!; [done| by destruct r | done]. }
  destruct o; simpl in Ho; cbn [fs_step fst snd]; try apply Hsafe.
  - by apply safe_mkdir.
  - by apply safe_create.
  - by apply safe_write.
  - by apply safe_delete.
  - destruct Ho. by apply safe_rename.
  - destruct Ho. by apply safe_copy.
  - split_and!; [|done|apply keeps_refl]. split; [|done]. simpl.
    destruct (cd cwd path s) as [p|] eqn:E; [by eapply cd_ok|done].
Qed.

(** C17: over every sequence of operations and changes of directory, at whatever
    times, the file system keeps its invariant (128 entries whose names fit,
    are canonical and pairwise distinct, and whose sizes fit), the current
    directory stays an absolute path, no operation panics, and every
    read-only entry stays where it is with its contents unchanged. *)
Theorem fs_sessions_safe ops x :
  session_ok x -> Forall (fun o => op_ok (snd o)) ops ->
  let '(x', rs) := fs_session ops x in
  session_ok x' /\ Forall (fun r => is_panic r = false) rs /\
  keeps_ro (abs (files (snd x))) (abs (files (snd x'))).
Proof.
  revert x. induction ops as [|[now o] ops IH]; intros x Hx Ho; cbn [fs_session].
  { split_and!; [done|constructor|apply keeps_refl]. }
  inversion Ho as [|? ? Ho1 Ho2]; subst. destruct (fs_step_safe now o x Hx Ho1) as (H1 & H2 & H3).
  destruct (fs_step now o x) as [x1 r]. specialize (IH x1 H1 Ho2).
  destruct (fs_session ops x1) as [x2 rs]. destruct IH as (H4 & H5 & H6).
  split_and!; [done|by constructor|by eapply keeps_trans].
Qed.
End Laws.

(** * Concrete sessions *)

Notation log_state := (state (list sync_event)).

Definition ops_result (ops : list fs_op) : (list Z * log_state) * list (fres ()) :=
  fs_session ((fun o => (0, o)) <$> ops) (bytes "/", fs_new []).

Definition path_result (ops : list fs_op) (p : string) : option node :=
  abs (files (snd (fst (ops_result ops)))) !! bytes p.

(** A read-only file survives an attempt to delete and to overwrite it. *)
Theorem fs_sessions_safe_witness :
  let ops := [OpCreate (bytes "/boot.cfg") [1; 2] true; OpCd (bytes "/etc");
              OpDelete (bytes "../boot.cfg"); OpWrite (bytes "/boot.cfg") [9];
              OpRename (bytes "/boot.cfg") (bytes "x")] in
  session_ok (fst (ops_result ops)) /\
  Forall (fun r => is_panic r = false) (snd (ops_result ops)).
Proof.
  intros ops. unfold ops_result.
  pose proof (fs_sessions_safe ((fun o => (0, o)) <$> ops) (bytes "/", fs_new ([] : list sync_event))
    (conj root_ok (fs_new_wf []))) as H.
  destruct (fs_session ((fun o => (0, o)) <$> ops) (bytes "/", fs_new ([] : list sync_event))) as [x rs].
  destruct H as (H1 & H2 & _); [repeat constructor | by split].
Defined.

Theorem fs_write_read_witness :
  fs_read (bytes "/home") (bytes " ../etc/./motd")
    (fst (fs_write (bytes "/etc") 0 (bytes "motd") [104; 105] (fs_new ([] : list sync_event)))) =
  Some [104; 105].
Proof.
  destruct (fs_write_read (bytes "/etc") 0 (bytes "motd") [104; 105] (fs_new ([] : list sync_event))
    (fst (fs_write (bytes "/etc") 0 (bytes "motd") [104; 105] (fs_new ([] : list sync_event)))))
    as (p & Hp & _ & _ & H).
  - apply fs_new_wf.
  - reflexivity.
  - by split; [|right].
  - reflexivity.
  - etransitivity; [apply surjective_pairing|]. apply (f_equal (pair _)). vm_compute. reflexivity.
  - apply H; [reflexivity | by split; [|right] | reflexivity |].
    rewrite <-Hp. vm_compute. reflexivity.
Defined.

Theorem fs_read_branches_witness :
  let s := snd (fst (ops_result [OpWrite (bytes "/bin/tool") [1]])) in
  fs_read (bytes "/home") (bytes "/bin/tool") s = Some [1].
Proof.
  intros s. pose proof (fs_read_branches (bytes "/home") (bytes "/bin/tool") (bytes "/bin/tool") s) as H.
  assert (E : abs (files s) !! bytes "/bin/tool" = Some (mkNode false false [1]))
    by (vm_compute; reflexivity).
  rewrite E in H. apply H.
  - pose proof (fs_sessions_safe [(0, OpWrite (bytes "/bin/tool") [1])]
      (bytes "/", fs_new ([] : list sync_event)) (conj root_ok (fs_new_wf []))) as Hw.
    unfold s, ops_result. cbn [fmap list_fmap].
    destruct (fs_session [(0, OpWrite (bytes "/bin/tool") [1])]
      (bytes "/", fs_new ([] : list sync_event))) as [x rs].
    apply Hw. by repeat constructor.
  - reflexivity.
  - by split; [|right].
  - reflexivity.
  - reflexivity.
Defined.
