(* ===== verification/FsClient.v ===== *)
(** LatencyFS as the file store of the editor, and what its operations do that
    their names do not say. *)

From stdpp Require Import gmap.
From S2P Require Import Prelude RustStd RustStr Vfs ExportDisk Fs FsPath FsTable FsProps FsLaws.
From S2P Require Import Editor EditorProps EditorSession.
Local Open Scope Z_scope.

(** * The editor's file store *)

Section Client.
Context {X : Type} `{!SyncDisk X}.
Context (cwd : list Z) (now : Z).

#[export] Instance latency_fs : FileStore (state X) := {
  file_read s n := fs_read cwd n s;
  file_write s n d := let '(s, r) := fs_write cwd now n d s in (s, is_ok r);
}.

Context (Hcwd : cwd_ok cwd).

#[export] Instance latency_fs_laws : FileStoreLaws (state X).
Proof.
  refine {|
    store_ok := fs_wf;
    regular_name := fun n => utf8_valid n && negb (vfs_is_vram_path (trim n)) |}.
  - intros s n d Hs [Hu _]%andb_true_iff. simpl.
    destruct (safe_write cwd now n d s Hs Hu Hcwd) as [Hw _].
    by destruct (fs_write cwd now n d s).
  - intros s n d s' Hs [Hu Hv%negb_true_iff]%andb_true_iff Hw. simpl in *.
    destruct (fs_write cwd now n d s) as [s1 [[]|e|k]] eqn:E; [|done..]. injection Hw as <-.
    destruct (fs_write_read cwd now n d s s1 Hs Hu Hcwd Hv E) as (p & Hp & _ & _ & Hr).
    by apply (Hr cwd).
Defined.

(** What the disk holds after a file has been written. *)
Definition disk_after (p c : list Z) (d : X) : X :=
  if synced p then export_disk_auto_sync_file d p c else d.

(** C36: saving from the editor to LatencyFS, end to end: either the save is
    reported as a success, and then the map of files holds exactly the edited text at the normalised
    file name and is otherwise unchanged, the disk gets the same text unless the
    path begins with /vram, and opening the name again shows the text; or the
    file system refuses, the editor reports it, no file changes, and the editor still holds the text. *)
Theorem editor_saves_to_latencyfs e e2 s :
  ed_wf e -> ed_wf e2 -> fs_wf s -> vfs_is_vram_path (trim (filename_str e)) = false ->
  utf8_valid (filename_str e) = true ->
  let '(s', e') := save_file s e in
  let text := doc_text (doc_of e) in
  doc_of e' = doc_of e /\ fs_wf s' /\
  ((e' = with_redraw (set_status e "Saved to LatencyFS.") true /\
    exists p, norm_path cwd (filename_str e) = Ok p /\
      abs (files s') = <[p := mkNode false false text]> (abs (files s)) /\
      disk s' = disk_after p text (disk s) /\
      doc_of (load_file s' e2 (filename_str e)) = ([], text)) \/
   e' = with_redraw (set_status e "Save failed!") true /\ view s' = view s).
Proof.
  intros He He2 Hs Hv Hu. unfold save_file. simpl.
  pose proof (safe_write cwd now (filename_str e) (sub (buffer e) 0 (buf_len e)) s Hs Hu Hcwd)
    as (Hs' & _ & _).
  pose proof (fs_write_file cwd now (filename_str e) (sub (buffer e) 0 (buf_len e)) s Hs Hu Hcwd Hv)
    as (_ & _ & Hview & Hres).
  destruct (fs_write cwd now (filename_str e) (sub (buffer e) 0 (buf_len e)) s) as [s1 r] eqn:E.
  simpl in *. rewrite doc_of_text by done. split_and!; [done|done|].
  destruct r as [[]|err|k].
  - left. split; [done|]. destruct (fs_write_read cwd now _ _ s s1 Hs Hu Hcwd Hv E) as (p & Hp & Ha & Hd & Hr).
    exists p. split_and!; [done..|]. apply load_doc; [done|by apply (Hr cwd)|].
    pose proof (wf_cursor e He). pose proof (wf_len e He).
    rewrite len_sub; [lia|lia|]. rewrite (wf_buffer e He). lia.
  - right. split; [done|]. rewrite Hview. case_match; [done|]. unfold on_path, spec_create, spec_insert in *.
    repeat (case_match; simplify_eq/=; try done).
  - right. split; [done|]. rewrite Hview. case_match; [done|]. unfold on_path, spec_create, spec_insert in *.
    repeat (case_match; simplify_eq/=; try done).
Qed.
End Client.

Theorem editor_saves_to_latencyfs_witness :
  let s := fs_new ([] : list sync_event) in
  let '(s', e') := @save_file _ (latency_fs (bytes "/home") 3) s sample in
  doc_of (@load_file _ (latency_fs (bytes "/home") 3) s' editor_new (bytes "untitled.pul")) =
    ([], [97; 98; 10; 99; 100; 101]).
Proof.
  intros s.
  pose proof (editor_saves_to_latencyfs (bytes "/home") 3 (conj eq_refl (or_intror eq_refl))
    sample editor_new s sample_wf editor_new_wf (fs_new_wf []) eq_refl eq_refl) as H.
  destruct (@save_file _ (latency_fs (bytes "/home") 3) s sample) as [s' e'] eqn:E.
  destruct H as (_ & _ & [(_ & p & _ & _ & _ & H)|(H & _)]).
  - exact H.
  - exfalso. apply (f_equal (fun x => status_msg_len (snd x))) in E. rewrite H in E.
    vm_compute in E. discriminate E.
Defined.

(** * Surprises

    Each of these runs the file system on a short sequence of operations. *)

Definition after (ops : list fs_op) : log_state := snd (fst (ops_result ops)).

(** A file that does not exist can be read, and [fs_exists] says that it is
    there: [/b/long_name_2.txt] is absent from the table, but reading it returns
    the contents of [/a/long_name_1.txt], which has the same 8.3 name; and a
    [notes] that is missing from the current directory reads as any file of
    that name elsewhere. *)
Theorem missing_files_read_as_others :
  let s := after [OpWrite (bytes "/a/long_name_1.txt") [1; 2; 3]; OpWrite (bytes "/etc/notes") [4]] in
  abs (files s) !! bytes "/b/long_name_2.txt" = None /\
  fs_read (bytes "/") (bytes "/b/long_name_2.txt") s = Some [1; 2; 3] /\
  fs_exists (bytes "/b/long_name_2.txt") s = true /\
  abs (files s) !! bytes "/home/notes" = None /\
  fs_read (bytes "/home") (bytes "notes") s = Some [4].
Proof. split_and!; vm_compute; reflexivity. Qed.

(** The table does not protect the directory tree: writing a file over a
    directory that is not empty succeeds and leaves its files below a file;
    renaming a directory leaves its files under the old path; making a directory
    over a file succeeds without making one; and a file whose path begins with
    /vram but is not under it is never written through to the disk. *)
Theorem tree_is_not_protected :
  (let s := after [OpMkdir (bytes "/d"); OpWrite (bytes "/d/f") [1]; OpWrite (bytes "/d") [2]] in
   abs (files s) !! bytes "/d" = Some (mkNode false false [2]) /\
   abs (files s) !! bytes "/d/f" = Some (mkNode false false [1])) /\
  (let s := after [OpMkdir (bytes "/d"); OpWrite (bytes "/d/f") [1];
                   OpRename (bytes "/d") (bytes "/e")] in
   abs (files s) !! bytes "/d" = None /\ abs (files s) !! bytes "/e/f" = None /\
   abs (files s) !! bytes "/d/f" = Some (mkNode false false [1])) /\
  (let '(_, s, rs) := ops_result [OpWrite (bytes "/x") [1]; OpMkdir (bytes "/x")] in
   rs = [Ok (); Ok ()] /\ fs_is_dir (bytes "/") (bytes "/x") s = false) /\
  disk (after [OpWrite (bytes "/vramdisk.txt") [1]]) = [].
Proof. split_and!; vm_compute; repeat split; reflexivity. Qed.
