(* ===== verification/Crypto.v ===== *)
(** AES-128-GCM (kernel/src/crypto.rs), as the SRTP sender uses it: the key
    schedule, the block cipher, the multiplication of GHASH and the encryption
    of a payload with its tag. Blocks and keys are lists of 16 bytes; the result
    of the CPUID instruction is an argument. *)

From S2P Require Import Prelude RustStd.
Local Open Scope Z_scope.

(** Indexing of fixed-size arrays by indices that are in range. *)
Notation "l .[ i ]" := (default 0 (getZ l i)) (at level 2, left associativity, format "l .[ i ]").
Notation "l .[ i <- v ]" := (setZ l i v)
  (at level 2, left associativity, format "l .[ i  <-  v ]").

(** The answer of CPUID in ECX: the reason why the processor will not do. *)
Definition check_crypto_cpu_support (ecx : Z) : option string :=
  let has_aesni := negb (Z.land ecx (Z.shiftl 1 25) =? 0) in
  let has_pclmul := negb (Z.land ecx (Z.shiftl 1 1) =? 0) in
  if negb has_aesni then
    Some "CPUID error: AES-NI hardware instruction set (ECX bit 25) is not supported."%string
  else if negb has_pclmul then
    Some "CPUID error: PCLMULQDQ hardware instruction set (ECX bit 1) is not supported."%string
  else None.

Record Aes128Key : Set := mkKey { round_keys : list Z; h : list Z }.

Definition RCON : list Z := [
  0x01000000; 0x02000000; 0x04000000; 0x08000000; 0x10000000;
  0x20000000; 0x40000000; 0x80000000; 0x1B000000; 0x36000000 ].

Definition SBOX : list Z := [
  0x63; 0x7c; 0x77; 0x7b; 0xf2; 0x6b; 0x6f; 0xc5; 0x30; 0x01; 0x67; 0x2b; 0xfe; 0xd7; 0xab; 0x76;
  0xca; 0x82; 0xc9; 0x7d; 0xfa; 0x59; 0x47; 0xf0; 0xad; 0xd4; 0xa2; 0xaf; 0x9c; 0xa4; 0x72; 0xc0;
  0xb7; 0xfd; 0x93; 0x26; 0x36; 0x3f; 0xf7; 0xcc; 0x34; 0xa5; 0xe5; 0xf1; 0x71; 0xd8; 0x31; 0x15;
  0x04; 0xc7; 0x23; 0xc3; 0x18; 0x96; 0x05; 0x9a; 0x07; 0x12; 0x80; 0xe2; 0xeb; 0x27; 0xb2; 0x75;
  0x09; 0x83; 0x2c; 0x1a; 0x1b; 0x6e; 0x5a; 0xa0; 0x52; 0x3b; 0xd6; 0xb3; 0x29; 0xe3; 0x2f; 0x84;
  0x53; 0xd1; 0x00; 0xed; 0x20; 0xfc; 0xb1; 0x5b; 0x6a; 0xcb; 0xbe; 0x39; 0x4a; 0x4c; 0x58; 0xcf;
  0xd0; 0xef; 0xaa; 0xfb; 0x43; 0x4d; 0x33; 0x85; 0x45; 0xf9; 0x02; 0x7f; 0x50; 0x3c; 0x9f; 0xa8;
  0x51; 0xa3; 0x40; 0x8f; 0x92; 0x9d; 0x38; 0xf5; 0xbc; 0xb6; 0xda; 0x21; 0x10; 0xff; 0xf3; 0xd2;
  0xcd; 0x0c; 0x13; 0xec; 0x5f; 0x97; 0x44; 0x17; 0xc4; 0xa7; 0x7e; 0x3d; 0x64; 0x5d; 0x19; 0x73;
  0x60; 0x81; 0x4f; 0xdc; 0x22; 0x2a; 0x90; 0x88; 0x46; 0xee; 0xb8; 0x14; 0xde; 0x5e; 0x0b; 0xdb;
  0xe0; 0x32; 0x3a; 0x0a; 0x49; 0x06; 0x24; 0x5e; 0xc2; 0xd3; 0xac; 0x62; 0x91; 0x95; 0xe4; 0x79;
  0xe7; 0xc8; 0x37; 0x6d; 0x8d; 0xd5; 0x4e; 0xa9; 0x6c; 0x56; 0xf4; 0xea; 0x65; 0x7a; 0xae; 0x08;
  0xba; 0x78; 0x25; 0x2e; 0x1c; 0xa6; 0xb4; 0xc6; 0xe8; 0xdd; 0x74; 0x1f; 0x4b; 0xbd; 0x8b; 0x8a;
  0x70; 0x3e; 0xb5; 0x66; 0x48; 0x03; 0xf6; 0x0e; 0x61; 0x35; 0x57; 0xb9; 0x86; 0xc1; 0x1d; 0x9e;
  0xe1; 0xf8; 0x98; 0x11; 0x69; 0xd9; 0x8e; 0x94; 0x9b; 0x1e; 0x87; 0xe9; 0xce; 0x55; 0x28; 0xdf;
  0x8c; 0xa1; 0x89; 0x0d; 0xbf; 0xe6; 0x42; 0x68; 0x41; 0x99; 0x2d; 0x0f; 0xb0; 0x54; 0xbb; 0x16 ].

Definition sub_word (w : Z) : Z :=
  let b0 := SBOX.[Z.land (Z.shiftr w 24) 0xFF] in
  let b1 := SBOX.[Z.land (Z.shiftr w 16) 0xFF] in
  let b2 := SBOX.[Z.land (Z.shiftr w 8) 0xFF] in
  let b3 := SBOX.[Z.land w 0xFF] in
  Z.lor (Z.lor (Z.lor (Z.shiftl b0 24) (Z.shiftl b1 16)) (Z.shiftl b2 8)) b3.

(** [u32::rotate_left(8)]. *)
Definition rot_word (w : Z) : Z := Z.lor (as_u32 (Z.shiftl w 8)) (Z.shiftr w 24).

(** The word of the key at [i]. *)
Definition key_word (key : list Z) (i : Z) : Z :=
  Z.lor (Z.lor (Z.lor (Z.shiftl key.[4 * i] 24) (Z.shiftl key.[4 * i + 1] 16))
               (Z.shiftl key.[4 * i + 2] 8)) key.[4 * i + 3].

Definition load_key (key : list Z) : list Z :=
  foldl (fun w i => w.[i <- key_word key i]) (replicate 44 0) [0; 1; 2; 3].

(** The body of [for i in 4..44]. *)
Definition expand_step (w : list Z) (i : Z) : list Z :=
  let temp := w.[i - 1] in
  let temp := if i mod 4 =? 0 then Z.lxor (sub_word (rot_word temp)) RCON.[i / 4 - 1] else temp in
  w.[i <- Z.lxor w.[i - 4] temp].

Definition expand_key (key : list Z) : list Z := foldl expand_step (load_key key) (seqZ 4 40).

(** * The block cipher *)

(** [for i in 0..4]: xor the four bytes of a round key into column [i]. *)
Definition add_key_column (rks : list Z) (base : Z) (state : list Z) (i : Z) : list Z :=
  let rk := rks.[base + i] in
  let state := state.[4 * i <- Z.lxor state.[4 * i] (as_u8 (Z.shiftr rk 24))] in
  let state := state.[4 * i + 1 <- Z.lxor state.[4 * i + 1] (as_u8 (Z.shiftr rk 16))] in
  let state := state.[4 * i + 2 <- Z.lxor state.[4 * i + 2] (as_u8 (Z.shiftr rk 8))] in
  state.[4 * i + 3 <- Z.lxor state.[4 * i + 3] (as_u8 rk)].

Definition add_round_key (rks : list Z) (base : Z) (state : list Z) : list Z :=
  foldl (add_key_column rks base) state [0; 1; 2; 3].

Definition sub_bytes (state : list Z) : list Z := (fun b => SBOX.[b]) <$> state.

Definition shift_rows (state : list Z) : list Z :=
  let s1 := state.[1] in
  let state := state.[1 <- state.[5]] in
  let state := state.[5 <- state.[9]] in
  let state := state.[9 <- state.[13]] in
  let state := state.[13 <- s1] in
  let s2 := state.[2] in
  let s6 := state.[6] in
  let state := state.[2 <- state.[10]] in
  let state := state.[6 <- state.[14]] in
  let state := state.[10 <- s2] in
  let state := state.[14 <- s6] in
  let s15 := state.[15] in
  let state := state.[15 <- state.[11]] in
  let state := state.[11 <- state.[7]] in
  let state := state.[7 <- state.[3]] in
  state.[3 <- s15].

(** [(a << 1) ^ (if (a & 0x80) != 0 { 0x1B } else { 0 })] on a byte. *)
Definition g2 (a : Z) : Z :=
  Z.lxor (as_u8 (Z.shiftl a 1)) (if Z.land a 0x80 =? 0 then 0 else 0x1B).

Definition mix_column (state : list Z) (c : Z) : list Z :=
  let a0 := state.[4 * c] in
  let a1 := state.[4 * c + 1] in
  let a2 := state.[4 * c + 2] in
  let a3 := state.[4 * c + 3] in
  let x a b := Z.lxor a b in
  let state := state.[4 * c <- x (x (x (x (g2 a0) (g2 a1)) a1) a2) a3] in
  let state := state.[4 * c + 1 <- x (x (x (x a0 (g2 a1)) (g2 a2)) a2) a3] in
  let state := state.[4 * c + 2 <- x (x (x (x a0 a1) (g2 a2)) (g2 a3)) a3] in
  state.[4 * c + 3 <- x (x (x (x (g2 a0) a0) a1) a2) (g2 a3)].

Definition mix_columns (state : list Z) : list Z := foldl mix_column state [0; 1; 2; 3].

(** One of the nine main rounds. *)
Definition main_round (rks : list Z) (state : list Z) (round : Z) : list Z :=
  add_round_key rks (4 * round) (mix_columns (shift_rows (sub_bytes state))).

Definition encrypt_block (rks : list Z) (block : list Z) : list Z :=
  let state := add_round_key rks 0 block in
  let state := foldl (main_round rks) state (seqZ 1 9) in
  add_round_key rks 40 (shift_rows (sub_bytes state)).

(** [Aes128Key::new]. *)
Definition aes_key_new (key : list Z) : Aes128Key :=
  let w := expand_key key in mkKey w (encrypt_block w (replicate 16 0)).

(** * GHASH *)

(** The loop body for one bit of [x]: the accumulator [z0, z1] and the shifted
    multiplicand [v0, v1], in 64-bit words. *)
Definition ghash_bit (b : Z) (s : (Z * Z) * (Z * Z)) (bit_idx : Z) : (Z * Z) * (Z * Z) :=
  let '((z0, z1), (v0, v1)) := s in
  let '(z0, z1) :=
    if Z.land (Z.shiftr b bit_idx) 1 =? 0 then (z0, z1) else (Z.lxor z0 v0, Z.lxor z1 v1) in
  let lsb := Z.land v1 1 in
  let v1 := Z.lor (Z.shiftr v1 1) (as_u64 (Z.shiftl (Z.land v0 1) 63)) in
  let v0 := Z.shiftr v0 1 in
  let v0 := if lsb =? 0 then v0 else Z.lxor v0 0xE100000000000000 in
  ((z0, z1), (v0, v1)).

Definition ghash_byte (s : (Z * Z) * (Z * Z)) (b : Z) : (Z * Z) * (Z * Z) :=
  foldl (ghash_bit b) s [7; 6; 5; 4; 3; 2; 1; 0].

Definition ghash_multiply (x y : list Z) : list Z :=
  let v0 := be_to_Z (sub y 0 8) in
  let v1 := be_to_Z (sub y 8 16) in
  let '((z0, z1), _) := foldl ghash_byte ((0, 0), (v0, v1)) x in
  Z_to_be 8 z0 ++ Z_to_be 8 z1.

(** * GCM *)

Definition xor_bytes (a b : list Z) : list Z := zip_with Z.lxor a b.

(** The counter block for the value [ctr_val]. *)
Definition set_counter (counter : list Z) (ctr_val : Z) : list Z :=
  let counter := counter.[12 <- as_u8 (Z.shiftr ctr_val 24)] in
  let counter := counter.[13 <- as_u8 (Z.shiftr ctr_val 16)] in
  let counter := counter.[14 <- as_u8 (Z.shiftr ctr_val 8)] in
  counter.[15 <- as_u8 ctr_val].

(** [while offset < payload.len()]: at most one turn per byte. *)
Fixpoint ctr_loop (fuel : nat) (rks counter : list Z) (ctr_val offset : Z) (payload : list Z)
    : list Z :=
  match fuel with
  | O => payload
  | S fuel =>
    if offset <? len payload then
      let ctr_val := as_u32 (ctr_val + 1) in
      let counter := set_counter counter ctr_val in
      let ks := encrypt_block rks counter in
      let chunk := Z.min 16 (len payload - offset) in
      let payload :=
        splice payload offset (xor_bytes (sub payload offset (offset + chunk)) (sub ks 0 chunk)) in
      ctr_loop fuel rks counter ctr_val (offset + chunk) payload
    else payload
  end.

(** The two loops that hash the additional data and the ciphertext. *)
Fixpoint ghash_loop (fuel : nat) (hk data : list Z) (offset : Z) (ghash_state : list Z) : list Z :=
  match fuel with
  | O => ghash_state
  | S fuel =>
    if offset <? len data then
      let chunk := Z.min 16 (len data - offset) in
      let block := splice (replicate 16 0) 0 (sub data offset (offset + chunk)) in
      ghash_loop fuel hk data (offset + chunk) (ghash_multiply (xor_bytes ghash_state block) hk)
    else ghash_state
  end.

(** The encrypted payload and the tag. *)
Definition aes_128_gcm_encrypt (key : Aes128Key) (iv aad payload : list Z) : list Z * list Z :=
  let hk := h key in
  let j0 := splice (replicate 16 0) 0 iv in
  let j0 := j0.[15 <- 1] in
  let ek0 := encrypt_block (round_keys key) j0 in
  let payload := ctr_loop (length payload) (round_keys key) j0 1 0 payload in
  let g := ghash_loop (length aad) hk aad 0 (replicate 16 0) in
  let g := ghash_loop (length payload) hk payload 0 g in
  let len_block :=
    Z_to_be 8 (as_u64 (len aad * 8)) ++ Z_to_be 8 (as_u64 (len payload * 8)) in
  let s := ghash_multiply (xor_bytes g len_block) hk in
  (payload, xor_bytes s ek0).
