(* ===== verification/CryptoAes.v ===== *)
(** The block cipher against FIPS 197: the rounds on arrays compute the AES
    rounds on the 4 by 4 state, with the matrix of GF(2^8), and the key schedule
    follows its recurrence; the table of the S-box has one wrong entry. *)

From Stdlib Require Import Btauto.
From S2P Require Import Prelude RustStd Crypto.
Local Open Scope Z_scope.

(** * Words made of fields *)

Lemma cat_bit w hi lo n : 0 <= w -> 0 <= lo < 2 ^ w -> 0 <= n ->
  Z.testbit (hi * 2 ^ w + lo) n = if n <? w then Z.testbit lo n else Z.testbit hi (n - w).
Proof.
  intros Hw Hl Hn. destruct (Z.ltb_spec n w).
  - rewrite <-(Z.mod_pow2_bits_low _ w) by lia. f_equal.
    rewrite Z.add_comm, Z.mod_add by lia. by apply Z.mod_small.
  - replace n with (n - w + w) at 1 by lia. rewrite <-Z.div_pow2_bits by lia. f_equal.
    rewrite Z.div_add_l by lia. rewrite Z.div_small by lia. lia.
Qed.

Lemma cat_lxor w h l h' l' : 0 <= w -> 0 <= l < 2 ^ w -> 0 <= l' < 2 ^ w ->
  Z.lxor (h * 2 ^ w + l) (h' * 2 ^ w + l') = Z.lxor h h' * 2 ^ w + Z.lxor l l'.
Proof.
  intros Hw Hl Hl'. apply Z.bits_inj'. intros n Hn.
  pose proof (uw_lxor w l l' Hw Hl Hl').
  rewrite Z.lxor_spec, !cat_bit by lia. by destruct (n <? w); rewrite Z.lxor_spec.
Qed.

Lemma cat_lor w h l : 0 <= w -> 0 <= l < 2 ^ w -> Z.lor (Z.shiftl h w) l = h * 2 ^ w + l.
Proof.
  intros Hw Hl. apply Z.bits_inj'. intros n Hn. rewrite Z.lor_spec, cat_bit by lia.
  rewrite Z.shiftl_spec by lia. destruct (Z.ltb_spec n w).
  - by rewrite Z.testbit_neg_r by lia.
  - destruct (decide (l = 0)) as [->|]; [by rewrite Z.bits_0, orb_false_r|].
    pose proof (Z.pow_le_mono_r 2 w n ltac:(lia) ltac:(lia)).
    rewrite (Z.bits_above_log2 l n); [by rewrite orb_false_r|lia|]. apply Z.log2_lt_pow2; lia.
Qed.

(** The big-endian value of four bytes, as the code assembles it. *)
Lemma lor_word a b c d :
  in_u8 a -> in_u8 b -> in_u8 c -> in_u8 d ->
  Z.lor (Z.lor (Z.lor (Z.shiftl a 24) (Z.shiftl b 16)) (Z.shiftl c 8)) d = be_to_Z [a; b; c; d].
Proof.
  unfold in_u8. intros. 
  assert (E1 : Z.lor (Z.shiftl a 24) (Z.shiftl b 16) = Z.shiftl (a * 256 + b) 16).
  { rewrite (cat_lor 24) by (rewrite ?Z.shiftl_mul_pow2; lia). rewrite !Z.shiftl_mul_pow2 by lia. lia. }
  assert (E2 : Z.lor (Z.shiftl (a * 256 + b) 16) (Z.shiftl c 8) = Z.shiftl ((a * 256 + b) * 256 + c) 8).
  { rewrite (cat_lor 16) by (rewrite ?Z.shiftl_mul_pow2; lia). rewrite !Z.shiftl_mul_pow2 by lia. lia. }
  rewrite E1, E2, cat_lor by lia. unfold be_to_Z. simpl. lia.
Qed.

(** The four bytes of a word, as the code takes them out. *)
Lemma word_bytes w :
  Z_to_be 4 w = [as_u8 (Z.shiftr w 24); as_u8 (Z.shiftr w 16); as_u8 (Z.shiftr w 8); as_u8 w].
Proof.
  unfold Z_to_be, Z_to_le, as_u8, wrapU. simpl rev. rewrite !Z.shiftr_div_pow2 by lia.
  rewrite !Z.div_div by lia. done.
Qed.

Lemma as_u8_land w n : 0 <= n -> Z.land (Z.shiftr w n) 0xFF = as_u8 (Z.shiftr w n).
Proof. intros. unfold as_u8, wrapU. by rewrite <-(Z.land_ones _ 8). Qed.

Lemma be_word w : in_u32 w -> be_to_Z (Z_to_be 4 w) = w.
Proof. intros Hw. rewrite be_to_Z_to_be. by apply Z.mod_small. Qed.

(** * The reference cipher

    Row [r] and column [c] of the state are the byte [r + 4 c]. *)

(** Multiplication in GF(2^8), by doubling. *)
Definition xtime (a : Z) : Z := if a <? 128 then 2 * a else Z.lxor (2 * a) 0x11B.
Fixpoint gmul (n : nat) (a b : Z) : Z :=
  match n with
  | O => 0
  | S n => Z.lxor (if Z.odd b then a else 0) (gmul n (xtime a) (b / 2))
  end.
Definition gf_mul8 (a b : Z) : Z := gmul 8 a b.

Definition indices : list Z := seqZ 0 16.
Definition row (k : Z) : Z := k mod 4.
Definition col (k : Z) : Z := k / 4.

Definition ref_sub (sbox : Z -> Z) (st : list Z) : list Z := sbox <$> st.
Definition ref_shift (st : list Z) : list Z :=
  (fun k => st.[row k + 4 * ((col k + row k) mod 4)]) <$> indices.

(** The matrix is circulant, with first row [2 3 1 1]. *)
Definition ref_mix (st : list Z) : list Z :=
  (fun k => foldl Z.lxor 0
     ((fun j => gf_mul8 [2; 3; 1; 1].[(j - row k) mod 4] st.[j + 4 * col k]) <$> seqZ 0 4)) <$> indices.
Definition ref_key (w : list Z) (round : Z) : list Z :=
  concat ((fun c => Z_to_be 4 w.[4 * round + c]) <$> seqZ 0 4).
Definition ref_add (w : list Z) (round : Z) (st : list Z) : list Z := xor_bytes st (ref_key w round).

Definition ref_round (sbox : Z -> Z) (w : list Z) (st : list Z) (round : Z) : list Z :=
  ref_add w round (ref_mix (ref_shift (ref_sub sbox st))).

Definition ref_cipher (sbox : Z -> Z) (w : list Z) (block : list Z) : list Z :=
  ref_add w 10 (ref_shift (ref_sub sbox
    (foldl (ref_round sbox w) (ref_add w 0 block) (seqZ 1 9)))).

(** The S-box of FIPS 197: inversion and an affine map. *)
Definition gf_inv (a : Z) : Z := Nat.iter 254 (gf_mul8 a) 1.
Definition rotl8 (b n : Z) : Z := Z.lor (as_u8 (Z.shiftl b n)) (Z.shiftr b (8 - n)).
Definition fips_sbox (a : Z) : Z :=
  let b := gf_inv a in
  foldl Z.lxor 0x63 [b; rotl8 b 1; rotl8 b 2; rotl8 b 3; rotl8 b 4].

(** * The round functions *)

(** A state is a list of sixteen bytes. *)
Definition is_block (st : list Z) : Prop := length st = 16%nat /\ bytes_ok st.

Ltac block_bytes H :=
  let L := fresh "L" in let B := fresh "B" in
  destruct H as [L B];
  repeat (match type of L with
          | length ?l = _ => is_var l; destruct l as [|? l]; [discriminate L|];
              cbn [length] in L; apply eq_add_S in L
          end);
  match type of L with length ?l = _ => destruct l; [|discriminate L] end; clear L;
  unfold bytes_ok in B; repeat match goal with H : Forall in_u8 (_ :: _) |- _ => apply Forall_cons in H as [? H] end.

Lemma shift_rows_ref st : is_block st -> shift_rows st = ref_shift st.
Proof. intros H. block_bytes H. reflexivity. Qed.

Lemma byte_table (P : Z -> bool) a :
  forallb P (seqZ 0 256) = true -> in_u8 a -> P a = true.
Proof.
  rewrite forallb_forall. intros H Ha. apply H. apply list_elem_of_In, elem_of_seqZ.
  unfold in_u8 in Ha. lia.
Qed.

Lemma gf_mul8_2 a : in_u8 a -> gf_mul8 2 a = g2 a.
Proof.
  intros Ha. apply Z.eqb_eq. apply (byte_table (fun a => gf_mul8 2 a =? g2 a)); [|done].
  vm_compute. reflexivity.
Qed.

Lemma gf_mul8_3 a : in_u8 a -> gf_mul8 3 a = Z.lxor (g2 a) a.
Proof.
  intros Ha. apply Z.eqb_eq. apply (byte_table (fun a => gf_mul8 3 a =? Z.lxor (g2 a) a)); [|done].
  vm_compute. reflexivity.
Qed.

Lemma gf_mul8_1 a : in_u8 a -> gf_mul8 1 a = a.
Proof.
  intros Ha. apply Z.eqb_eq. apply (byte_table (fun a => gf_mul8 1 a =? a)); [|done].
  vm_compute. reflexivity.
Qed.

Ltac xor_ac :=
  apply Z.bits_inj'; intros ? ?; rewrite ?Z.lxor_spec, ?Z.bits_0; btauto.

Lemma mix_columns_ref st : is_block st -> mix_columns st = ref_mix st.
Proof.
  intros H. block_bytes H. unfold ref_mix, mix_columns. cbv -[gf_mul8 g2 Z.lxor].
  rewrite !gf_mul8_1, !gf_mul8_2, !gf_mul8_3 by done.
  repeat (apply f_equal2; [xor_ac|]). reflexivity.
Qed.

Lemma add_round_key_ref w round st : is_block st ->
  add_round_key w (4 * round) st = ref_add w round st.
Proof.
  intros H. block_bytes H. unfold ref_add, ref_key, add_round_key.
  cbn [foldl concat fmap list_fmap seqZ]. change (seqZ 0 4) with [0; 1; 2; 3].
  cbn [foldl concat fmap list_fmap]. rewrite !word_bytes. reflexivity.
Qed.

(** * Blocks stay blocks *)

Lemma getZ_u8 l i : bytes_ok l -> in_u8 l.[i].
Proof.
  intros H. destruct (getZ l i) eqn:E; [by apply (Forall_getZ _ _ _ _ H E)|done].
Qed.

Lemma SBOX_bytes : bytes_ok SBOX.
Proof. unfold bytes_ok. compute_fact. Qed.

Lemma in_u8_lxor a b : in_u8 a -> in_u8 b -> in_u8 (Z.lxor a b).
Proof. apply uw_lxor. lia. Qed.

Lemma g2_u8 a : in_u8 (g2 a).
Proof. apply in_u8_lxor; [apply as_u8_range|by case_match]. Qed.

#[export] Hint Resolve in_u8_lxor g2_u8 getZ_u8 as_u8_range Z_to_be_bytes : aes.

Lemma sub_block st : is_block st -> is_block (sub_bytes st).
Proof.
  intros [L B]. split; [by rewrite <-L; apply length_fmap|].
  unfold bytes_ok, sub_bytes. rewrite Forall_fmap. apply Forall_true. intros b. simpl.
  apply getZ_u8, SBOX_bytes.
Qed.

Lemma shift_block st : is_block st -> is_block (shift_rows st).
Proof.
  intros H. pose proof H as [_ B]. rewrite shift_rows_ref by done. split; [done|].
  unfold bytes_ok, ref_shift. rewrite Forall_fmap. apply Forall_true. intros k. by apply getZ_u8.
Qed.

Lemma mix_block st : is_block st -> is_block (mix_columns st).
Proof.
  intros H. block_bytes H. split; [reflexivity|]. cbv -[g2 Z.lxor in_u8].
  repeat first [apply Forall_nil_2 | apply Forall_cons_2]; auto 10 with aes.
Qed.

Lemma bytes_xor a b : bytes_ok a -> bytes_ok b -> bytes_ok (xor_bytes a b).
Proof.
  intros Ha. revert b. induction Ha as [|x a Hx _ IH]; intros b Hb; [constructor|].
  destruct Hb as [|y b Hy Hb]; [constructor|]. constructor; [by apply in_u8_lxor|by apply IH].
Qed.

Lemma ref_key_block w round : is_block (ref_key w round).
Proof.
  unfold ref_key. change (seqZ 0 4) with [0; 1; 2; 3]. split.
  - cbn [concat fmap list_fmap]. by rewrite !length_app, !length_Z_to_be.
  - cbn [concat fmap list_fmap]. unfold bytes_ok. rewrite !Forall_app.
    repeat split; try apply Z_to_be_bytes. constructor.
Qed.

Lemma add_block w round st : is_block st -> is_block (ref_add w round st).
Proof.
  intros [L B]. destruct (ref_key_block w round) as [L' B']. split; [|by apply bytes_xor].
  unfold ref_add, xor_bytes. rewrite length_zip_with. lia.
Qed.

Definition code_sbox (b : Z) : Z := SBOX.[b].

Lemma sub_bytes_ref st : sub_bytes st = ref_sub code_sbox st.
Proof. reflexivity. Qed.

Lemma main_round_ref w st round : is_block st ->
  main_round w st round = ref_round code_sbox w st round /\ is_block (main_round w st round).
Proof.
  intros H. unfold main_round, ref_round.
  assert (H3 : is_block (mix_columns (shift_rows (sub_bytes st))))
    by by apply mix_block, shift_block, sub_block.
  rewrite add_round_key_ref by done. split; [|by apply add_block].
  rewrite mix_columns_ref by by apply shift_block, sub_block.
  by rewrite shift_rows_ref by by apply sub_block.
Qed.

Lemma rounds_ref w rs st : is_block st ->
  foldl (main_round w) st rs = foldl (ref_round code_sbox w) st rs /\
  is_block (foldl (main_round w) st rs).
Proof.
  revert st. induction rs as [|r rs IH]; intros st H; [done|]. cbn [foldl].
  destruct (main_round_ref w st r H) as [<- H']. by apply IH.
Qed.

Lemma encrypt_block_ref w block : is_block block ->
  encrypt_block w block = ref_cipher code_sbox w block /\ is_block (encrypt_block w block).
Proof.
  intros H. unfold encrypt_block, ref_cipher.
  rewrite (add_round_key_ref w 0) by done. pose proof (add_block w 0 block H) as H0.
  destruct (rounds_ref w (seqZ 1 9) _ H0) as [<- H9].
  pose proof (sub_block _ H9) as Hs. pose proof (shift_block _ Hs) as Ht.
  rewrite (add_round_key_ref w 10) by done. split; [|by apply add_block].
  rewrite shift_rows_ref by exact Hs. rewrite sub_bytes_ref. exact eq_refl.
Qed.

(** * The key schedule *)

(** The recurrence of FIPS 197 on the words of the schedule, by bytes. *)
Definition schedule_ok (sbox : Z -> Z) (key w : list Z) : Prop :=
  len w = 44 /\
  (forall i, 0 <= i < 4 -> w.[i] = be_to_Z (sub key (4 * i) (4 * i + 4))) /\
  (forall i, 4 <= i < 44 ->
     w.[i] = Z.lxor w.[i - 4]
       (if i mod 4 =? 0 then
          match Z_to_be 4 w.[i - 1] with
          | [b0; b1; b2; b3] =>
            Z.lxor (be_to_Z (sbox <$> [b1; b2; b3; b0]))
              (be_to_Z [Nat.iter (Z.to_nat (i / 4 - 1)) xtime 1; 0; 0; 0])
          | _ => 0
          end
        else w.[i - 1])).

Lemma sub_rot_word w : in_u32 w ->
  sub_word (rot_word w) = be_to_Z (code_sbox <$>
    [as_u8 (Z.shiftr w 16); as_u8 (Z.shiftr w 8); as_u8 w; as_u8 (Z.shiftr w 24)]).
Proof.
  intros Hw. unfold in_u32 in Hw.
  assert (E : rot_word w = w mod 2 ^ 24 * 2 ^ 8 + w / 2 ^ 24).
  { unfold rot_word, as_u32, wrapU. rewrite Z.shiftl_mul_pow2, Z.shiftr_div_pow2 by lia.
    change (2 ^ 32) with (2 ^ 24 * 2 ^ 8). rewrite Z.mul_mod_distr_r by lia.
    rewrite <-Z.shiftl_mul_pow2 by lia. rewrite cat_lor; [|lia|].
    - by rewrite Z.shiftl_mul_pow2 by lia.
    - split; [apply Z.div_pos; lia|]. apply Z.div_lt_upper_bound; lia. }
  assert (B : forall k, 0 <= k -> Z.land (Z.shiftr (rot_word w) k) 255 = (rot_word w / 2 ^ k) mod 256).
  { intros k Hk. rewrite as_u8_land by done. unfold as_u8, wrapU. by rewrite Z.shiftr_div_pow2. }
  unfold sub_word. rewrite <-(Z.shiftr_0_r (rot_word w)) at 4. rewrite !B by lia.
  rewrite lor_word by apply getZ_u8, SBOX_bytes. cbn [fmap list_fmap]. unfold code_sbox.
  rewrite E. unfold as_u8, wrapU. rewrite !Z.shiftr_div_pow2 by lia.
  pose proof (Z.div_mod w (2 ^ 24) ltac:(lia)) as D.
  pose proof (Z.mod_pos_bound w (2 ^ 24) ltac:(lia)) as M.
  assert (Q : 0 <= w / 2 ^ 24 < 256) by
    (split; [apply Z.div_pos; lia|apply Z.div_lt_upper_bound; lia]).
  revert D M Q. generalize (w mod 2 ^ 24) (w / 2 ^ 24). intros m q D M Q. rewrite D.
  change (2 ^ 24) with 16777216. change (2 ^ 16) with 65536. change (2 ^ 8) with 256.
  change (2 ^ 0) with 1. rewrite Z.div_1_r.
  assert (F : forall d k, d = 256 * k -> 0 < k -> (m * 256 + q) / d = m / k).
  { intros d k -> Hk. rewrite <-Z.div_div by lia. f_equal. rewrite Z.div_add_l by lia.
    rewrite Z.div_small by lia. lia. }
  assert (G : forall c k j, c = k * (256 * j) -> 0 < k -> (c * q + m) / k mod 256 = m / k mod 256).
  { intros c k j -> Hk. replace (k * (256 * j) * q + m) with (j * q * 256 * k + m) by lia.
    rewrite Z.div_add_l by lia. rewrite Z.add_comm. by apply Z.mod_add. }
  assert (E1 : (m * 256 + q) / 16777216 mod 256 = (16777216 * q + m) / 65536 mod 256)
    by (rewrite (F _ 65536), (G _ 65536 1); lia).
  assert (E2 : (m * 256 + q) / 65536 mod 256 = (16777216 * q + m) / 256 mod 256)
    by (rewrite (F _ 256), (G _ 256 256); lia).
  assert (E3 : (m * 256 + q) / 256 mod 256 = (16777216 * q + m) mod 256).
  { rewrite (F _ 1), <-(Z.div_1_r (16777216 * q + m)), (G _ 1 65536) by lia. done. }
  assert (E4 : (m * 256 + q) mod 256 = q mod 256) by (rewrite Z.add_comm; by apply Z.mod_add).
  by rewrite E1, E2, E3, E4.
Qed.

Lemma be_word_range l : bytes_ok l -> length l = 4%nat -> in_u32 (be_to_Z l).
Proof. intros H L. pose proof (be_to_Z_range l H) as R. unfold len in R. by rewrite L in R. Qed.

Lemma key_word_ref key i : is_block key -> 0 <= i < 4 ->
  key_word key i = be_to_Z (sub key (4 * i) (4 * i + 4)).
Proof.
  intros H Hi. block_bytes H. unfold key_word.
  rewrite lor_word by (apply getZ_u8; unfold bytes_ok; repeat (apply Forall_cons_2; [done|]); done).
  assert (i = 0 \/ i = 1 \/ i = 2 \/ i = 3) as [-> | [-> | [-> | ->]]] by lia; reflexivity.
Qed.

(** The words of the schedule are 32 bits wide; the array has 44 of them. *)
Definition words_ok (w : list Z) : Prop := len w = 44 /\ Forall in_u32 w.

Lemma words_get w i : words_ok w -> in_u32 w.[i].
Proof.
  intros [_ H]. destruct (getZ w i) eqn:E; [by apply (Forall_getZ _ _ _ _ H E)|done].
Qed.

Lemma words_set w i x : words_ok w -> in_u32 x -> words_ok w.[i <- x].
Proof. intros [L H] Hx. split; [by rewrite len_setZ|by apply Forall_setZ]. Qed.

Lemma set_get_eq w i x : words_ok w -> 0 <= i < 44 -> w.[i <- x].[i] = x.
Proof. intros [L _] Hi. by rewrite getZ_setZ_eq by lia. Qed.

Lemma set_get_ne (w : list Z) i j x : i <> j -> w.[i <- x].[j] = w.[j].
Proof. intros Hi. by rewrite getZ_setZ_ne. Qed.

Lemma load_key_ok key : is_block key ->
  words_ok (load_key key) /\
  (forall i, 0 <= i < 4 -> (load_key key).[i] = be_to_Z (sub key (4 * i) (4 * i + 4))).
Proof.
  intros H.
  assert (Hw : forall i, 0 <= i < 4 -> in_u32 (key_word key i)).
  { intros i Hi. rewrite key_word_ref by done. destruct H as [L B]. apply be_word_range.
    - by apply Forall_sub.
    - assert (E : len (sub key (4 * i) (4 * i + 4)) = 4) by (rewrite len_sub; unfold len; lia).
      unfold len in E. lia. }
  assert (W0 : words_ok (replicate 44 0)) by (split; [done|by apply Forall_replicate]).
  unfold load_key. cbn [foldl]. split; [repeat apply words_set; try apply Hw; (done || lia)|].
  intros i Hi. rewrite <-key_word_ref by done.
  assert (i = 0 \/ i = 1 \/ i = 2 \/ i = 3) as [-> | [-> | [-> | ->]]] by lia; reflexivity.
Qed.

(** What one turn of the loop writes at its index. *)
Definition next_word (sbox : Z -> Z) (w : list Z) (i : Z) : Z :=
  Z.lxor w.[i - 4]
    (if i mod 4 =? 0 then
       match Z_to_be 4 w.[i - 1] with
       | [b0; b1; b2; b3] =>
         Z.lxor (be_to_Z (sbox <$> [b1; b2; b3; b0]))
           (be_to_Z [Nat.iter (Z.to_nat (i / 4 - 1)) xtime 1; 0; 0; 0])
       | _ => 0
       end
     else w.[i - 1]).

Lemma RCON_ref k : 0 <= k < 10 -> RCON.[k] = be_to_Z [Nat.iter (Z.to_nat k) xtime 1; 0; 0; 0].
Proof.
  intros Hk. apply Z.eqb_eq.
  apply (proj1 (forallb_forall (fun k =>
    RCON.[k] =? be_to_Z [Nat.iter (Z.to_nat k) xtime 1; 0; 0; 0]) (seqZ 0 10)) eq_refl).
  apply list_elem_of_In, elem_of_seqZ. lia.
Qed.

Lemma in_u32_lxor a b : in_u32 a -> in_u32 b -> in_u32 (Z.lxor a b).
Proof. apply uw_lxor. lia. Qed.

Lemma expand_step_ref w i : words_ok w -> 4 <= i < 44 ->
  expand_step w i = w.[i <- next_word code_sbox w i] /\ words_ok (expand_step w i).
Proof.
  intros Hw Hi. unfold expand_step, next_word. rewrite word_bytes.
  destruct (Z.eqb_spec (i mod 4) 0) as [E|E].
  - rewrite sub_rot_word by by apply words_get.
    rewrite RCON_ref by (split; [|]; pose proof (Z.div_mod i 4 ltac:(lia)); lia).
    split; [done|]. apply words_set; [done|]. apply in_u32_lxor; [by apply words_get|].
    apply in_u32_lxor.
    + apply be_word_range; [|done]. repeat (apply Forall_cons_2; [apply getZ_u8, SBOX_bytes|]). done.
    + rewrite <-RCON_ref by (pose proof (Z.div_mod i 4 ltac:(lia)); lia).
      destruct (getZ RCON (i / 4 - 1)) eqn:G; [|done].
      apply (Forall_getZ in_u32 RCON (i / 4 - 1)); [|done]. compute_fact.
  - split; [done|]. apply words_set; [done|]. by apply in_u32_lxor; apply words_get.
Qed.

Lemma seqZ_4_S n : seqZ 4 (Z.of_nat (S n)) = seqZ 4 (Z.of_nat n) ++ [4 + Z.of_nat n].
Proof. rewrite Nat2Z.inj_succ, <-Z.add_1_r, seqZ_app by lia. done. Qed.

Lemma expand_loop key n : is_block key -> (n <= 40)%nat ->
  let w := foldl expand_step (load_key key) (seqZ 4 (Z.of_nat n)) in
  words_ok w /\ (forall i, 0 <= i < 4 -> w.[i] = be_to_Z (sub key (4 * i) (4 * i + 4))) /\
  (forall i, 4 <= i < 4 + Z.of_nat n -> w.[i] = next_word code_sbox w i).
Proof.
  intros Hk. induction n as [|n IH]; intros Hn.
  { destruct (load_key_ok key Hk) as [H1 H2]. split_and!; [done..|lia]. }
  rewrite seqZ_4_S, foldl_app. cbn [foldl]. destruct (IH ltac:(lia)) as (H1 & H2 & H3).
  set (w := foldl expand_step (load_key key) (seqZ 4 (Z.of_nat n))) in *.
  destruct (expand_step_ref w (4 + Z.of_nat n) H1) as [E Hw]; [lia|].
  cbv zeta. rewrite E in *. split_and!; [done| |].
  - intros i Hi. rewrite set_get_ne by lia. by apply H2.
  - intros i Hi. destruct (decide (i = 4 + Z.of_nat n)) as [->|Hne].
    + rewrite set_get_eq by (done || lia). unfold next_word.
      by rewrite !set_get_ne by lia.
    + rewrite set_get_ne by lia. rewrite H3 by lia. unfold next_word.
      by rewrite !set_get_ne by lia.
Qed.

(** C31: for every 128-bit key and every block, the key schedule has the 44 words
    of the FIPS 197 recurrence and [encrypt_block] is the FIPS 197 cipher
    (SubBytes, ShiftRows and MixColumns over GF(2^8), AddRoundKey, ten rounds)
    with the code's table as its S-box; the result is a block of 16 bytes. *)
Theorem aes_refines_fips197 key block :
  is_block key -> is_block block ->
  let w := expand_key key in
  schedule_ok code_sbox key w /\ encrypt_block w block = ref_cipher code_sbox w block /\
  is_block (encrypt_block w block).
Proof.
  intros Hk Hb w. destruct (expand_loop key 40 Hk) as (H1 & H2 & H3); [done|].
  destruct (encrypt_block_ref w block Hb) as [H4 H5].
  split_and!; [split_and!; [apply H1|done|]|done|done].
  intros i Hi. apply (H3 i). lia.
Qed.

(** * The S-box *)

Definition block_with (b0 : Z) : list Z := b0 :: replicate 15 0.

Lemma add_key_first w b : in_u8 b ->
  add_round_key w 0 (block_with b) =
  Z.lxor b (as_u8 (Z.shiftr w.[0] 24)) :: xor_bytes (replicate 15 0) (drop 1 (ref_key w 0)).
Proof.
  intros Hb. rewrite (add_round_key_ref w 0).
  - unfold ref_add, ref_key. change (seqZ 0 4) with [0; 1; 2; 3]. cbn [fmap list_fmap concat].
    rewrite (word_bytes w.[4 * 0 + 0]). reflexivity.
  - split; [done|]. apply Forall_cons_2; [done|]. by apply Forall_replicate.
Qed.

Lemma sbox_entries : forallb (fun a =>
  Bool.eqb (code_sbox a =? fips_sbox a) (negb (a =? 0xA7))) (seqZ 0 256) = true.
Proof. vm_compute. reflexivity. Qed.

Lemma sub_bytes_cons b st : sub_bytes (b :: st) = code_sbox b :: sub_bytes st.
Proof. reflexivity. Qed.

Lemma sbox_collision : code_sbox 0xA7 = code_sbox 0x9D.
Proof. vm_compute. reflexivity. Qed.

Lemma foldl_cons {A B} (f : A -> B -> A) a x l : foldl f a (x :: l) = foldl f (f a x) l.
Proof. reflexivity. Qed.

(** The cipher reads the block only through the first substitution. *)
Definition after_sub (w s : list Z) : list Z :=
  add_round_key w 40 (shift_rows (sub_bytes (foldl (main_round w)
    (add_round_key w (4 * 1) (mix_columns (shift_rows s))) (seqZ 2 8)))).

Lemma encrypt_after_sub w b : encrypt_block w b = after_sub w (sub_bytes (add_round_key w 0 b)).
Proof.
  unfold encrypt_block, after_sub. assert (E : seqZ 1 9 = 1 :: seqZ 2 8) by reflexivity.
  rewrite E, foldl_cons. unfold main_round at 2. reflexivity.
Qed.

(** Two blocks that only differ in a first byte that the key turns into the two
    colliding inputs of the table. *)
Lemma encrypt_collision w : exists b b',
  is_block b /\ is_block b' /\ b <> b' /\ encrypt_block w b = encrypt_block w b'.
Proof.
  pose proof (as_u8_range (Z.shiftr w.[0] 24)) as Hk.
  set (k := as_u8 (Z.shiftr w.[0] 24)) in *.
  assert (Hx : forall x, in_u8 x -> in_u8 (Z.lxor x k)) by (intros; by apply in_u8_lxor).
  assert (Hb : forall x, in_u8 x -> is_block (block_with (Z.lxor x k))).
  { intros x ?. split; [reflexivity|]. apply Forall_cons_2; [by apply Hx|].
    by apply Forall_replicate. }
  assert (HA : in_u8 0xA7) by (unfold in_u8; lia). assert (HD : in_u8 0x9D) by (unfold in_u8; lia).
  exists (block_with (Z.lxor 0xA7 k)), (block_with (Z.lxor 0x9D k)).
  split_and!; [by apply Hb|by apply Hb|intros E; injection E as E; by apply lxor_cancel_r in E|].
  assert (S : sub_bytes (add_round_key w 0 (block_with (Z.lxor 0xA7 k))) =
              sub_bytes (add_round_key w 0 (block_with (Z.lxor 0x9D k)))).
  { rewrite !add_key_first by (by apply Hx). fold k.
    rewrite !Z.lxor_assoc, Z.lxor_nilpotent, !Z.lxor_0_r, !sub_bytes_cons.
    by rewrite sbox_collision. }
  rewrite !encrypt_after_sub. by rewrite S.
Qed.

(** The key schedule of FIPS 197, with its S-box. *)
Definition fips_schedule (key : list Z) : list Z :=
  foldl (fun w i => w.[i <- next_word fips_sbox w i]) (load_key key) (seqZ 4 40).

Definition first_counter : list Z := replicate 15 0 ++ [2].

Lemma keystream_code :
  take 4 (encrypt_block (expand_key (replicate 16 0)) first_counter) = [0xF4; 0x11; 0x17; 0x7F].
Proof. vm_compute. reflexivity. Qed.

Lemma keystream_fips :
  take 4 (ref_cipher fips_sbox (fips_schedule (replicate 16 0)) first_counter) =
  [0x03; 0x88; 0xDA; 0xCE].
Proof. vm_compute. reflexivity. Qed.

(** The S-box table has exactly one wrong entry: [SBOX[0xA7]] is [0x5E], which
    is already [SBOX[0x9D]], where FIPS 197 has [0x5C]. So the cipher is not a
    permutation: under every key schedule two different blocks have the same
    ciphertext; and the first GCM keystream block of the all-zero key and nonce
    is not the one of AES (it starts f4 11 17 7f instead of 03 88 da ce). *)
Theorem sbox_typo :
  (forall a, 0 <= a < 256 -> code_sbox a = fips_sbox a <-> a <> 0xA7) /\
  code_sbox 0xA7 = code_sbox 0x9D /\
  (forall w, exists b b', is_block b /\ is_block b' /\ b <> b' /\
     encrypt_block w b = encrypt_block w b') /\
  take 4 (encrypt_block (expand_key (replicate 16 0)) first_counter) = [0xF4; 0x11; 0x17; 0x7F] /\
  take 4 (ref_cipher fips_sbox (fips_schedule (replicate 16 0)) first_counter) =
    [0x03; 0x88; 0xDA; 0xCE].
Proof.
  split; [|exact (conj sbox_collision (conj encrypt_collision (conj keystream_code keystream_fips)))].
  intros a Ha. pose proof sbox_entries as H. rewrite forallb_forall in H. specialize (H a).
  rewrite <-list_elem_of_In, elem_of_seqZ in H. specialize (H ltac:(lia)). apply Bool.eqb_prop in H.
  destruct (Z.eqb_spec (code_sbox a) (fips_sbox a)), (Z.eqb_spec a 0xA7);
    first [discriminate H | tauto].
Qed.

Theorem aes_refines_fips197_witness :
  encrypt_block (expand_key (seqZ 0 16)) (replicate 16 0xFF) =
  ref_cipher code_sbox (expand_key (seqZ 0 16)) (replicate 16 0xFF).
Proof.
  apply (aes_refines_fips197 (seqZ 0 16) (replicate 16 0xFF)).
  - split; [reflexivity|]. unfold bytes_ok. compute_fact.
  - split; [reflexivity|]. unfold bytes_ok. compute_fact.
Defined.
