(* ===== verification/CryptoGcm.v ===== *)
(** AES-128-GCM against NIST SP 800-38D: GHASH on 64-bit words is the
    multiplication of 128-bit blocks, the two loops over data hash its padded
    blocks, the counter loop is the exclusive or with the key stream. *)

From S2P Require Import Prelude RustStd Crypto CryptoAes.
Local Open Scope Z_scope.

(** * Multiplication in GF(2^128)

    SP 800-38D, algorithm 1, on blocks read as big-endian integers: bit 127 is
    the block's first. *)

Definition R128 : Z := 0xE1 * 2 ^ 120.

Definition mul_bit (x : Z) (s : Z * Z) (i : Z) : Z * Z :=
  let '(z, v) := s in
  (if Z.testbit x i then Z.lxor z v else z,
   if Z.testbit v 0 then Z.lxor (Z.shiftr v 1) R128 else Z.shiftr v 1).

Definition bits_down (n : Z) : list Z := rev (seqZ 0 n).

Definition gf128_mul (x y : Z) : Z := fst (foldl (mul_bit x) (0, y) (bits_down 128)).

(** A block in two words of 64 bits. *)
Definition cat64 (hi lo : Z) : Z := hi * 2 ^ 64 + lo.

Definition words_of (s : (Z * Z) * (Z * Z)) (t : Z * Z) : Prop :=
  let '((z0, z1), (v0, v1)) := s in
  in_u64 z0 /\ in_u64 z1 /\ in_u64 v0 /\ in_u64 v1 /\ t = (cat64 z0 z1, cat64 v0 v1).

Lemma land_1_testbit b k : 0 <= k -> Z.land (Z.shiftr b k) 1 = Z.b2z (Z.testbit b k).
Proof.
  intros Hk. rewrite (Z.land_ones _ 1) by lia. rewrite <-(Z.add_0_l k) at 2.
  rewrite <-Z.shiftr_spec by lia. by rewrite Z.bit0_mod.
Qed.

Lemma cat64_lxor a b c d : in_u64 b -> in_u64 d ->
  Z.lxor (cat64 a b) (cat64 c d) = cat64 (Z.lxor a c) (Z.lxor b d).
Proof. intros. by apply (cat_lxor 64). Qed.

Lemma in_u64_lxor a b : in_u64 a -> in_u64 b -> in_u64 (Z.lxor a b).
Proof. apply uw_lxor. lia. Qed.

(** Shifting the two words right by one. *)
Lemma cat64_shiftr v0 v1 : in_u64 v0 -> in_u64 v1 ->
  let w1 := Z.lor (Z.shiftr v1 1) (as_u64 (Z.shiftl (Z.land v0 1) 63)) in
  in_u64 w1 /\ in_u64 (Z.shiftr v0 1) /\ Z.shiftr (cat64 v0 v1) 1 = cat64 (Z.shiftr v0 1) w1.
Proof.
  intros H0 H1. unfold in_u64, cat64 in *. cbv zeta.
  assert (L : Z.land v0 1 = v0 mod 2) by by rewrite (Z.land_ones _ 1).
  pose proof (Z.mod_pos_bound v0 2 ltac:(lia)).
  assert (E : Z.lor (Z.shiftr v1 1) (as_u64 (Z.shiftl (Z.land v0 1) 63)) = v0 mod 2 * 2 ^ 63 + v1 / 2).
  { rewrite L, Z.lor_comm. unfold as_u64. rewrite wrapU_small by (rewrite Z.shiftl_mul_pow2; lia).
    rewrite cat_lor; [by rewrite (Z.shiftr_div_pow2 v1 1)|lia|].
    rewrite (Z.shiftr_div_pow2 v1 1) by lia. change (2 ^ 1) with 2. Z.to_euclidean_division_equations. lia. }
  rewrite E, !Z.shiftr_div_pow2 by lia. change (2 ^ 1) with 2.
  split_and!; Z.to_euclidean_division_equations; lia.
Qed.

Lemma ghash_bit_ref b k x i s t :
  words_of s t -> 0 <= k -> Z.testbit b k = Z.testbit x i -> words_of (ghash_bit b s k) (mul_bit x t i).
Proof.
  destruct s as [[z0 z1] [v0 v1]], t as [z v]. intros (H1 & H2 & H3 & H4 & [= -> ->]) Hk Hb.
  unfold ghash_bit, mul_bit. rewrite land_1_testbit by done. rewrite Hb.
  destruct (cat64_shiftr v0 v1 H3 H4) as (Hw1 & Hw0 & ->).
  assert (E0 : Z.testbit (cat64 v0 v1) 0 = Z.testbit v1 0) by by apply (cat_bit 64).
  pose proof (land_1_testbit v1 0 ltac:(lia)) as E1. rewrite Z.shiftr_0_r in E1.
  rewrite E0, E1.
  assert (ER : R128 = cat64 0xE100000000000000 0) by reflexivity. rewrite ER.
  rewrite !cat64_lxor, Z.lxor_0_r by done.
  destruct (Z.testbit x i), (Z.testbit v1 0); cbn [Z.b2z Z.eqb]; unfold words_of;
    split_and!; try done; by apply in_u64_lxor.
Qed.

Lemma bits_down_app n m : 0 <= n -> 0 <= m ->
  bits_down (n + m) = map (Z.add n) (bits_down m) ++ bits_down n.
Proof.
  intros Hn Hm. unfold bits_down. rewrite seqZ_app by lia. rewrite rev_app_distr. f_equal.
  rewrite map_rev. f_equal. symmetry. rewrite (Z.add_comm 0 n). apply (fmap_add_seqZ n 0 m).
Qed.

Lemma ghash_byte_ref b x n s t :
  words_of s t -> 0 <= n -> (forall k, 0 <= k < 8 -> Z.testbit b k = Z.testbit x (n + k)) ->
  words_of (ghash_byte s b) (foldl (mul_bit x) t (map (Z.add n) (bits_down 8))).
Proof.
  intros H Hn Hb. unfold ghash_byte. change (bits_down 8) with [7; 6; 5; 4; 3; 2; 1; 0].
  cbn [map foldl]. repeat (apply ghash_bit_ref; [|lia|apply Hb; lia]). done.
Qed.

Lemma foldl_ext_in {A B} (f g : A -> B -> A) l a :
  (forall a x, x ∈ l -> f a x = g a x) -> foldl f a l = foldl g a l.
Proof.
  revert a. induction l as [|x l IH]; intros a H; [done|]. simpl. rewrite H by set_solver.
  apply IH. intros. apply H. set_solver.
Qed.

Lemma be_cons b l : be_to_Z (b :: l) = b * 2 ^ (8 * len l) + be_to_Z l.
Proof.
  unfold be_to_Z. cbn [be_to_Z_acc]. rewrite Z.mul_0_l, Z.add_0_l.
  assert (G : forall acc, be_to_Z_acc acc l = acc * 2 ^ (8 * len l) + be_to_Z_acc 0 l).
  { induction l as [|c l IH]; intros acc; [change (len []) with 0; cbn; lia|].
    cbn [be_to_Z_acc]. rewrite (IH (acc * 256 + c)), (IH (0 * 256 + c)), len_cons.
    pose proof (len_nonneg l). replace (8 * (1 + len l)) with (8 + 8 * len l) by lia.
    rewrite Z.pow_add_r by lia. change (2 ^ 8) with 256. lia. }
  apply G.
Qed.

Lemma be_bound l : bytes_ok l -> 0 <= be_to_Z l < 2 ^ (8 * len l).
Proof. intros H. pose proof (be_to_Z_range l H). by rewrite Z.pow_mul_r by (pose proof (len_nonneg l); lia). Qed.

Lemma ghash_bytes_ref l s t : bytes_ok l -> words_of s t ->
  words_of (foldl ghash_byte s l) (foldl (mul_bit (be_to_Z l)) t (bits_down (8 * len l))).
Proof.
  intros Hl. revert s t. induction Hl as [|b l Hb Hl IH]; intros s t H; [done|].
  rewrite len_cons. pose proof (len_nonneg l). replace (8 * (1 + len l)) with (8 * len l + 8) by lia.
  rewrite bits_down_app, foldl_app by lia. cbn [foldl].
  assert (E : forall t, foldl (mul_bit (be_to_Z (b :: l))) t (bits_down (8 * len l)) =
                        foldl (mul_bit (be_to_Z l)) t (bits_down (8 * len l))).
  { intros t'. apply foldl_ext_in. intros [z v] i Hi. unfold bits_down in Hi.
    apply list_elem_of_In, in_rev, list_elem_of_In, elem_of_seqZ in Hi.
    unfold mul_bit. rewrite be_cons, cat_bit by (try apply be_bound; (done || lia)).
    by destruct (Z.ltb_spec i (8 * len l)); [|lia]. }
  rewrite E. apply IH. apply ghash_byte_ref; [done|lia|]. intros k Hk.
  rewrite be_cons, cat_bit by (try apply be_bound; (done || lia)).
  destruct (Z.ltb_spec (8 * len l + k) (8 * len l)); [lia|]. f_equal. lia.
Qed.

Lemma Z_to_be_app n m z :
  Z_to_be (n + m) z = Z_to_be n (z / 256 ^ Z.of_nat m) ++ Z_to_be m z.
Proof.
  unfold Z_to_be. rewrite <-rev_app_distr. f_equal. rewrite Nat.add_comm. revert z.
  induction m as [|m IH]; intros z; [by rewrite Z.div_1_r|].
  change (Z_to_le (S m + n) z) with (z mod 256 :: Z_to_le (m + n) (z / 256)).
  change (Z_to_le (S m) z) with (z mod 256 :: Z_to_le m (z / 256)).
  rewrite IH, <-app_comm_cons. do 3 f_equal.
  rewrite Z.div_div by lia. f_equal. rewrite Nat2Z.inj_succ, Z.pow_succ_r by lia. lia.
Qed.

Lemma Z_to_be_mod n z : Z_to_be n (z mod 256 ^ Z.of_nat n) = Z_to_be n z.
Proof.
  unfold Z_to_be. f_equal. revert z. induction n as [|n IH]; intros z; [done|].
  assert (S : forall k, Z_to_le (S n) k = k mod 256 :: Z_to_le n (k / 256)) by done.
  rewrite !S, Nat2Z.inj_succ, Z.pow_succ_r by lia.
  rewrite (Z.rem_mul_r z 256) by lia. set (q := (z / 256) mod 256 ^ Z.of_nat n).
  assert (E1 : (z mod 256 + 256 * q) mod 256 = z mod 256)
    by (rewrite (Z.mul_comm 256), Z.mod_add by lia; by apply Z.mod_mod).
  assert (E2 : (z mod 256 + 256 * q) / 256 = q).
  { rewrite (Z.mul_comm 256), Z.div_add by lia.
    rewrite Z.div_small by (apply Z.mod_pos_bound; lia). done. }
  rewrite E1, E2. by rewrite <-(IH (z / 256)).
Qed.

Lemma Z_to_be_cat64 hi lo : in_u64 lo -> Z_to_be 16 (cat64 hi lo) = Z_to_be 8 hi ++ Z_to_be 8 lo.
Proof.
  intros Hl. unfold in_u64 in Hl. change 16%nat with (8 + 8)%nat. rewrite Z_to_be_app.
  change (256 ^ Z.of_nat 8) with (2 ^ 64). unfold cat64. f_equal.
  - f_equal. rewrite Z.div_add_l by lia. rewrite Z.div_small by lia. lia.
  - rewrite <-Z_to_be_mod. change (256 ^ Z.of_nat 8) with (2 ^ 64). f_equal.
    rewrite Z.add_comm, Z.mod_add by lia. by apply Z.mod_small.
Qed.

Lemma be_app a b : be_to_Z (a ++ b) = be_to_Z a * 2 ^ (8 * len b) + be_to_Z b.
Proof.
  induction a as [|x a IH]; [done|]. rewrite <-app_comm_cons, !be_cons, IH, len_app.
  pose proof (len_nonneg a). pose proof (len_nonneg b).
  replace (8 * (len a + len b)) with (8 * len a + 8 * len b) by lia.
  rewrite Z.pow_add_r by lia. lia.
Qed.

Lemma block_split y : is_block y ->
  be_to_Z y = cat64 (be_to_Z (sub y 0 8)) (be_to_Z (sub y 8 16)) /\
  in_u64 (be_to_Z (sub y 0 8)) /\ in_u64 (be_to_Z (sub y 8 16)).
Proof.
  intros [L B]. assert (Ly : len y = 16) by (unfold len; lia).
  assert (E : y = sub y 0 8 ++ sub y 8 16) by (rewrite sub_app, sub_all by lia; done).
  assert (L1 : len (sub y 0 8) = 8) by (rewrite len_sub; lia).
  assert (L2 : len (sub y 8 16) = 8) by (rewrite len_sub; lia).
  pose proof (be_bound (sub y 0 8) ltac:(by apply Forall_sub)) as B1.
  pose proof (be_bound (sub y 8 16) ltac:(by apply Forall_sub)) as B2.
  rewrite L1 in B1. rewrite L2 in B2. split_and!; [|done|done].
  rewrite E at 1. rewrite be_app, L2. done.
Qed.

(** The multiplication on bytes is the one on integers. *)
Lemma ghash_multiply_ref x y : is_block x -> is_block y ->
  ghash_multiply x y = Z_to_be 16 (gf128_mul (be_to_Z x) (be_to_Z y)) /\
  is_block (ghash_multiply x y).
Proof.
  intros [Lx Bx] Hy. unfold ghash_multiply, gf128_mul.
  destruct (block_split y Hy) as (Ey & H1 & H2).
  assert (W : words_of ((0, 0), (be_to_Z (sub y 0 8), be_to_Z (sub y 8 16))) (0, be_to_Z y)).
  { rewrite Ey. unfold words_of. split_and!; done. }
  pose proof (ghash_bytes_ref x _ _ Bx W) as H. unfold len in H. rewrite Lx in H.
  change (8 * Z.of_nat 16) with 128 in H.
  destruct (foldl ghash_byte _ x) as [[z0 z1] [v0 v1]].
  destruct H as (Hz0 & Hz1 & _ & _ & ->). cbn [fst]. split.
  - by rewrite Z_to_be_cat64.
  - split; [by rewrite length_app, !length_Z_to_be|]. apply Forall_app_2; apply Z_to_be_bytes.
Qed.

(** * The hash of a sequence of blocks *)

Definition pad16 (l : list Z) : list Z := l ++ replicate (16 - length l) 0.

(** The padded blocks of some data. *)
Fixpoint blocks (fuel : nat) (l : list Z) : list (list Z) :=
  match fuel, l with
  | S fuel, _ :: _ => pad16 (take 16 l) :: blocks fuel (drop 16 l)
  | _, _ => []
  end.

Definition blocks_of (l : list Z) : list (list Z) := blocks (length l) l.

Definition ghash_step (hk x : Z) (b : list Z) : Z := gf128_mul (Z.lxor x (be_to_Z b)) hk.
Definition ghash (hk x : Z) (bs : list (list Z)) : Z := foldl (ghash_step hk) x bs.

Lemma be_lxor a b : bytes_ok a -> bytes_ok b -> length a = length b ->
  be_to_Z (xor_bytes a b) = Z.lxor (be_to_Z a) (be_to_Z b).
Proof.
  intros Ha. revert b. induction Ha as [|x a Hx Ha IH]; intros [|y b] Hb L; try done.
  inversion Hb; subst. injection L as L. unfold xor_bytes. cbn [zip_with].
  rewrite !be_cons. fold (xor_bytes a b). rewrite IH by done.
  assert (E1 : len (xor_bytes a b) = len a) by (unfold len, xor_bytes; rewrite length_zip_with; lia).
  assert (E2 : len b = len a) by (unfold len; lia). rewrite E1, E2.
  pose proof (len_nonneg a). rewrite cat_lxor; [done|lia|by apply be_bound|].
  rewrite <-E2. by apply be_bound.
Qed.

Lemma xor_block a b : is_block a -> is_block b -> is_block (xor_bytes a b).
Proof.
  intros [La Ba] [Lb Bb]. split; [|by apply bytes_xor].
  unfold xor_bytes. rewrite length_zip_with. lia.
Qed.

Lemma Z_to_be_block z : is_block (Z_to_be 16 z).
Proof. split; [apply length_Z_to_be|apply Z_to_be_bytes]. Qed.

Lemma gf128_bound x y : is_block x -> is_block y -> 0 <= gf128_mul (be_to_Z x) (be_to_Z y) < 2 ^ 128.
Proof.
  intros [Lx Bx] Hy. unfold gf128_mul. destruct (block_split y Hy) as (Ey & H1 & H2).
  assert (W : words_of ((0, 0), (be_to_Z (sub y 0 8), be_to_Z (sub y 8 16))) (0, be_to_Z y)).
  { rewrite Ey. unfold words_of. split_and!; done. }
  pose proof (ghash_bytes_ref x _ _ Bx W) as H. unfold len in H. rewrite Lx in H.
  change (8 * Z.of_nat 16) with 128 in H.
  destruct (foldl ghash_byte _ x) as [[z0 z1] [v0 v1]].
  destruct H as (Hz0 & Hz1 & _ & _ & ->). cbn [fst]. unfold cat64, in_u64 in *. lia.
Qed.

Lemma pad_splice s : (length s <= 16)%nat -> splice (replicate 16 0) 0 s = pad16 s.
Proof. intros. unfold splice, pad16. by rewrite drop_replicate. Qed.

Lemma pad_block s : (length s <= 16)%nat -> bytes_ok s -> is_block (pad16 s).
Proof.
  intros L B. unfold pad16. split; [rewrite length_app, length_replicate; lia|].
  apply Forall_app_2; [done|]. by apply Forall_replicate.
Qed.

Lemma blocks_ok fuel l : bytes_ok l -> Forall is_block (blocks fuel l).
Proof.
  revert l. induction fuel as [|fuel IH]; intros l H; [constructor|]. destruct l as [|x l]; [constructor|].
  cbn [blocks]. constructor; [|apply IH; by apply Forall_drop].
  apply pad_block; [rewrite length_take; lia|]. by apply Forall_take.
Qed.

(** One turn hashes one padded block. *)
Lemma ghash_multiply_step g b hk : is_block g -> is_block b -> is_block hk ->
  ghash_multiply (xor_bytes g b) hk = Z_to_be 16 (ghash_step (be_to_Z hk) (be_to_Z g) b) /\
  is_block (ghash_multiply (xor_bytes g b) hk) /\
  be_to_Z (ghash_multiply (xor_bytes g b) hk) = ghash_step (be_to_Z hk) (be_to_Z g) b.
Proof.
  intros Hg Hb Hk. pose proof (xor_block g b Hg Hb) as Hx.
  destruct (ghash_multiply_ref _ _ Hx Hk) as [E H].
  assert (EX : be_to_Z (xor_bytes g b) = Z.lxor (be_to_Z g) (be_to_Z b)).
  { destruct Hg, Hb. apply be_lxor; (done || lia). }
  unfold ghash_step. rewrite <-EX. split_and!; [done|done|].
  rewrite E, be_to_Z_to_be. apply Z.mod_small. by apply gf128_bound.
Qed.

Lemma ghash_cons hk x b bs : ghash hk x (b :: bs) = ghash hk (ghash_step hk x b) bs.
Proof. reflexivity. Qed.

Lemma ghash_app hk x a b : ghash hk x (a ++ b) = ghash hk (ghash hk x a) b.
Proof. apply foldl_app. Qed.

Lemma ghash_snoc hk x bs b : ghash hk x (bs ++ [b]) = ghash_step hk (ghash hk x bs) b.
Proof. unfold ghash. by rewrite foldl_app. Qed.

(** The hash of blocks is the number of a block. *)
Lemma ghash_block hk g bs : is_block hk -> is_block g -> Forall is_block bs ->
  exists y, is_block y /\ be_to_Z y = ghash (be_to_Z hk) (be_to_Z g) bs.
Proof.
  intros Hk Hg. induction bs as [|b bs IH] using rev_ind; intros H; [by exists g|].
  apply Forall_app in H as [H1 H2]. inversion H2; subst. destruct (IH H1) as (y & Hy & E).
  destruct (ghash_multiply_step y b hk) as (_ & Hm & Em); [done..|].
  eexists; split; [exact Hm|]. by rewrite ghash_snoc, <-E.
Qed.

Lemma ghash_bound hk g bs : is_block hk -> is_block g -> Forall is_block bs ->
  0 <= ghash (be_to_Z hk) (be_to_Z g) bs < 256 ^ Z.of_nat 16.
Proof.
  intros Hk Hg H. destruct (ghash_block hk g bs Hk Hg H) as (y & [L B] & <-).
  pose proof (be_to_Z_range y B) as R. unfold len in R. by rewrite L in R.
Qed.

Lemma ghash_loop_ref fuel hk data : forall offset g,
  is_block hk -> is_block g -> bytes_ok data -> 0 <= offset ->
  len data - offset <= Z.of_nat fuel ->
  ghash_loop fuel hk data offset g =
    match blocks fuel (drop (Z.to_nat offset) data) with
    | [] => g
    | bs => Z_to_be 16 (ghash (be_to_Z hk) (be_to_Z g) bs)
    end.
Proof.
  induction fuel as [|fuel IH]; intros offset g Hk Hg Hd Ho Hf; [done|].
  cbn [ghash_loop]. destruct (Z.ltb_spec offset (len data)) as [Hlt|Hge].
  - set (chunk := Z.min 16 (len data - offset)).
    assert (Es : sub data offset (offset + chunk) = take 16 (drop (Z.to_nat offset) data)).
    { unfold sub. subst chunk. destruct (Z.min_spec 16 (len data - offset)) as [[_ ->]|[Hm ->]].
      - by replace (Z.to_nat (offset + 16 - offset)) with 16%nat by lia.
      - rewrite !take_ge; [done|rewrite length_drop; unfold len in *; lia|].
        rewrite length_drop. unfold len in *. lia. }
    rewrite Es, pad_splice by (rewrite length_take; lia).
    assert (Hb : is_block (pad16 (take 16 (drop (Z.to_nat offset) data)))).
    { apply pad_block; [rewrite length_take; lia|]. by apply Forall_take, Forall_drop. }
    destruct (ghash_multiply_step g _ hk Hg Hb Hk) as (E1 & H1 & E2).
    rewrite IH by (try done; subst chunk; lia).
    destruct (drop (Z.to_nat offset) data) as [|x l] eqn:Ed.
    { apply (f_equal length) in Ed. rewrite length_drop in Ed. unfold len in *. simpl in Ed. lia. }
    cbn [blocks]. rewrite <-Ed in *.
    assert (En : drop (Z.to_nat (offset + chunk)) data = drop 16 (drop (Z.to_nat offset) data)).
    { rewrite drop_drop. subst chunk. destruct (Z.min_spec 16 (len data - offset)) as [[_ ->]|[Hm ->]].
      - f_equal. lia.
      - rewrite !drop_ge; [done| |]; unfold len in *; lia. }
    rewrite En, E2, ghash_cons.
    destruct (blocks fuel (drop 16 (drop (Z.to_nat offset) data))); [exact E1|reflexivity].
  - rewrite drop_ge by (unfold len in *; lia). done.
Qed.

(** As an integer, whether or not there is a block. *)
Lemma ghash_loop_value hk data g :
  is_block hk -> is_block g -> bytes_ok data ->
  is_block (ghash_loop (length data) hk data 0 g) /\
  be_to_Z (ghash_loop (length data) hk data 0 g) = ghash (be_to_Z hk) (be_to_Z g) (blocks_of data).
Proof.
  intros Hk Hg Hd. rewrite ghash_loop_ref by (try done; unfold len; lia).
  rewrite drop_0. unfold blocks_of. destruct (blocks (length data) data) as [|b bs] eqn:E; [done|].
  split; [apply Z_to_be_block|]. rewrite be_to_Z_to_be. apply Z.mod_small.
  assert (Hbs : Forall is_block (b :: bs)) by (rewrite <-E; by apply blocks_ok).
  by apply ghash_bound.
Qed.

(** * The counter mode *)

(** GCTR: each block of data is xored with the cipher of the next counter block. *)
Fixpoint gctr (fuel : nat) (E : list Z -> list Z) (iv : list Z) (ctr : Z) (l : list Z) : list Z :=
  match fuel, l with
  | S fuel, _ :: _ =>
    xor_bytes (take 16 l) (E (iv ++ Z_to_be 4 ctr)) ++ gctr fuel E iv (ctr + 1) (drop 16 l)
  | _, _ => []
  end.

Definition gctr_of (E : list Z -> list Z) (iv l : list Z) : list Z := gctr (length l) E iv 2 l.

Lemma set_counter_ref counter z : length counter = 16%nat ->
  set_counter counter (as_u32 z) = take 12 counter ++ Z_to_be 4 z.
Proof.
  intros L. rewrite <-(Z_to_be_mod 4 z). change (256 ^ Z.of_nat 4) with (2 ^ 32).
  change (z mod 2 ^ 32) with (as_u32 z). rewrite (word_bytes (as_u32 z)).
  do 17 (destruct counter as [|? counter]; try discriminate L). reflexivity.
Qed.

Lemma xor_bytes_comm_take (a k : list Z) n : (n <= length k)%nat -> length a = n ->
  xor_bytes a (take n k) = xor_bytes a k.
Proof.
  intros H L. unfold xor_bytes. rewrite <-L, <-(take_ge a (length a)) at 1 by lia.
  rewrite <-zip_with_take. apply take_ge. rewrite length_zip_with. lia.
Qed.

Lemma as_u32_succ c : as_u32 (as_u32 c + 1) = as_u32 (c + 1).
Proof. unfold as_u32, wrapU. by rewrite Z.add_mod_idemp_l. Qed.

Lemma counter_block iv z : len iv = 12 -> bytes_ok iv -> is_block (iv ++ Z_to_be 4 z).
Proof.
  intros L B. split; [rewrite length_app, length_Z_to_be; unfold len in L; lia|].
  apply Forall_app_2; [done|apply Z_to_be_bytes].
Qed.

Lemma sub_to_end {A} (l : list A) i n : 0 <= i -> 0 <= n ->
  sub l i (i + Z.min n (len l - i)) = take (Z.to_nat n) (drop (Z.to_nat i) l).
Proof.
  intros Hi Hn. unfold sub. replace (i + Z.min n (len l - i) - i) with (Z.min n (len l - i)) by lia.
  destruct (Z.min_spec n (len l - i)) as [[_ ->]|[Hm ->]]; [done|].
  rewrite !take_ge; [done|rewrite length_drop; unfold len in *; lia|].
  rewrite length_drop. unfold len in *. lia.
Qed.

(** One turn of the loop replaces a block. *)
Lemma ctr_turn payload offset ks : 0 <= offset < len payload -> length ks = 16%nat ->
  let chunk := Z.min 16 (len payload - offset) in
  splice payload offset (xor_bytes (sub payload offset (offset + chunk)) (sub ks 0 chunk)) =
  take (Z.to_nat offset) payload ++
  xor_bytes (take 16 (drop (Z.to_nat offset) payload)) ks ++
  drop 16 (drop (Z.to_nat offset) payload).
Proof.
  intros Ho Hk chunk. subst chunk. rewrite sub_to_end by lia. change (Z.to_nat 16) with 16%nat.
  set (b := take 16 (drop (Z.to_nat offset) payload)).
  assert (Lb : length b = Z.to_nat (Z.min 16 (len payload - offset))).
  { subst b. rewrite length_take, length_drop. unfold len in *. lia. }
  assert (Ek : sub ks 0 (Z.min 16 (len payload - offset)) = take (length b) ks).
  { rewrite Lb. unfold sub. by rewrite Z.sub_0_r. }
  rewrite Ek, xor_bytes_comm_take by lia. unfold splice. do 2 f_equal.
  unfold xor_bytes. rewrite length_zip_with, drop_drop, Hk.
  destruct (decide (length b = 16)%nat) as [->|Hs]; [f_equal; lia|].
  rewrite !drop_ge; [done| |]; unfold len in *; lia.
Qed.

Lemma gctr_cons fuel E iv c l : (0 < length l)%nat ->
  gctr (S fuel) E iv c l =
  xor_bytes (take 16 l) (E (iv ++ Z_to_be 4 c)) ++ gctr fuel E iv (c + 1) (drop 16 l).
Proof. destruct l; [simpl; lia|reflexivity]. Qed.

Lemma ctr_loop_ref fuel rks iv : len iv = 12 -> bytes_ok iv ->
  forall counter c offset payload,
  length counter = 16%nat -> take 12 counter = iv -> 0 <= offset ->
  len payload - offset <= Z.of_nat fuel ->
  ctr_loop fuel rks counter (as_u32 c) offset payload =
  take (Z.to_nat offset) payload ++
  gctr fuel (encrypt_block rks) iv (c + 1) (drop (Z.to_nat offset) payload).
Proof.
  intros Li Bi. induction fuel as [|fuel IH]; intros counter c offset payload Lc Ec Ho Hf.
  { cbn [ctr_loop gctr]. rewrite app_nil_r, take_ge; [done|unfold len in *; lia]. }
  cbn [ctr_loop]. destruct (Z.ltb_spec offset (len payload)) as [Hlt|Hge].
  - rewrite as_u32_succ, set_counter_ref, Ec by done.
    pose proof (counter_block iv (c + 1) Li Bi) as Hb.
    destruct (encrypt_block_ref rks _ Hb) as [_ [Lk _]].
    set (ks := encrypt_block rks (iv ++ Z_to_be 4 (c + 1))) in *.
    rewrite (ctr_turn payload offset ks) by (done || lia).
    set (chunk := Z.min 16 (len payload - offset)).
    set (a := take (Z.to_nat offset) payload). set (d := drop (Z.to_nat offset) payload).
    set (x := xor_bytes (take 16 d) ks).
    assert (Ld : length d = Z.to_nat (len payload - offset))
      by (subst d; rewrite length_drop; unfold len in *; lia).
    assert (Lx : length x = Z.to_nat chunk).
    { subst x. unfold xor_bytes. rewrite length_zip_with, length_take. lia. }
    assert (La : length a = Z.to_nat offset)
      by (subst a; rewrite length_take; unfold len in *; lia).
    assert (Ln : Z.to_nat (offset + chunk) = (length (a ++ x))%nat)
      by (rewrite length_app; lia).
    rewrite IH; [| apply Hb | | lia | ].
    + rewrite Ln, (app_assoc a x), take_app_length, drop_app_length, <-app_assoc. f_equal.
      symmetry. apply gctr_cons. lia.
    + rewrite take_app_le, take_ge; [done| |]; unfold len in Li; lia.
    + rewrite !len_app. assert (len (drop 16 d) = len payload - offset - chunk)
        by (unfold len at 1; rewrite length_drop; lia). unfold len in *. lia.
  - rewrite take_ge, drop_ge by (unfold len in *; lia). destruct fuel; by rewrite app_nil_r.
Qed.

Lemma length_xor_bytes a b : length (xor_bytes a b) = Nat.min (length a) (length b).
Proof. unfold xor_bytes. apply length_zip_with. Qed.

(** The cipher of every counter block is a block. *)
Definition block_cipher (E : list Z -> list Z) : Prop := forall b, is_block b -> is_block (E b).

Section Gctr.
Context (E : list Z -> list Z) (HE : block_cipher E) (iv : list Z).
Context (Li : len iv = 12) (Bi : bytes_ok iv).

Lemma gctr_nil fuel c : gctr fuel E iv c [] = [].
Proof using. by destruct fuel. Qed.

Lemma key_block c : is_block (E (iv ++ Z_to_be 4 c)).
Proof using All. by apply HE, counter_block. Qed.

Lemma length_gctr fuel c l : (length l <= fuel)%nat -> length (gctr fuel E iv c l) = length l.
Proof using All.
  revert c l. induction fuel as [|fuel IH]; intros c l H; [destruct l; simpl in *; lia|].
  destruct (decide (length l = 0)%nat) as [H0|H0].
  { by rewrite (length_zero_iff_nil l) in H0; subst. }
  rewrite gctr_cons, length_app, length_xor_bytes, length_take by lia.
  destruct (key_block c) as [-> _]. rewrite IH; rewrite length_drop; lia.
Qed.

Lemma bytes_gctr fuel c l : bytes_ok l -> bytes_ok (gctr fuel E iv c l).
Proof using All.
  revert c l. induction fuel as [|fuel IH]; intros c l H; [constructor|].
  destruct (decide (length l = 0)%nat) as [H0|H0].
  { rewrite (length_zero_iff_nil l) in H0; subst. constructor. }
  rewrite gctr_cons by lia. apply Forall_app_2; [|apply IH; by apply Forall_drop].
  apply bytes_xor; [by apply Forall_take|apply key_block].
Qed.

Lemma xor_bytes_twice a k : (length a <= length k)%nat -> xor_bytes (xor_bytes a k) k = a.
Proof using.
  revert k. induction a as [|x a IH]; intros [|y k] H; simpl in H; try lia; try done.
  unfold xor_bytes in *. cbn [zip_with]. rewrite IH by lia. f_equal.
  by rewrite Z.lxor_assoc, Z.lxor_nilpotent, Z.lxor_0_r.
Qed.

Lemma gctr_twice fuel c l : (length l <= fuel)%nat -> gctr fuel E iv c (gctr fuel E iv c l) = l.
Proof using All.
  revert c l. induction fuel as [|fuel IH]; intros c l H; [destruct l; simpl in *; [done|lia]|].
  destruct (decide (length l = 0)%nat) as [H0|H0].
  { by rewrite (length_zero_iff_nil l) in H0; subst. }
  rewrite (gctr_cons fuel E iv c l) by lia. destruct (key_block c) as [Lk _].
  set (k := E (iv ++ Z_to_be 4 c)) in *. set (x := xor_bytes (take 16 l) k).
  assert (Lx : length x = Nat.min 16 (length l)).
  { subst x. rewrite length_xor_bytes, length_take. lia. }
  rewrite gctr_cons by (rewrite length_app; lia). fold k.
  assert (Ex : take 16 (x ++ gctr fuel E iv (c + 1) (drop 16 l)) = x /\
               drop 16 (x ++ gctr fuel E iv (c + 1) (drop 16 l)) = gctr fuel E iv (c + 1) (drop 16 l)).
  { destruct (decide (16 <= length l)%nat).
    - rewrite take_app_length', drop_app_length' by lia. done.
    - rewrite (drop_ge l 16), gctr_nil, app_nil_r by lia. rewrite take_ge, drop_ge by lia. done. }
  destruct Ex as [-> ->]. rewrite IH by (rewrite length_drop; lia).
  subst x. rewrite xor_bytes_twice by (rewrite length_take; lia). apply take_drop.
Qed.
End Gctr.

(** * The theorems *)

(** The cipher under a key, the hash key, and the tag of SP 800-38D (section 7.1)
    for a nonce of 96 bits. *)
Definition cipher_of (key : list Z) : list Z -> list Z := encrypt_block (expand_key key).

Definition gcm_tag (E : list Z -> list Z) (iv aad ct : list Z) : list Z :=
  let hk := be_to_Z (E (replicate 16 0)) in
  let len_block := Z_to_be 8 (8 * len aad) ++ Z_to_be 8 (8 * len ct) in
  xor_bytes (Z_to_be 16 (ghash hk 0 (blocks_of aad ++ blocks_of ct ++ [len_block])))
            (E (iv ++ Z_to_be 4 1)).

Lemma zero_block : is_block (replicate 16 0).
Proof. split; [done|]. by apply Forall_replicate. Qed.

Lemma cipher_block key : block_cipher (cipher_of key).
Proof. intros b Hb. by apply encrypt_block_ref. Qed.

Lemma j0_ref iv : len iv = 12 -> (splice (replicate 16 0) 0 iv).[15 <- 1] = iv ++ Z_to_be 4 1.
Proof.
  intros L. unfold len in L. do 13 (destruct iv as [|? iv]; try (simpl in L; lia)). reflexivity.
Qed.

Lemma len_field n : Z_to_be 8 (as_u64 (n * 8)) = Z_to_be 8 (8 * n).
Proof.
  rewrite <-(Z_to_be_mod 8 (8 * n)), Z.mul_comm. reflexivity.
Qed.

Lemma len_block_ok a b : is_block (Z_to_be 8 a ++ Z_to_be 8 b).
Proof. split; [by rewrite length_app, !length_Z_to_be|]. apply Forall_app_2; apply Z_to_be_bytes. Qed.

(** The encryption with the hash key of the key schedule. *)
Lemma gcm_encrypt_eq key iv aad payload :
  aes_128_gcm_encrypt (aes_key_new key) iv aad payload =
  let hk := cipher_of key (replicate 16 0) in
  let j0 := (splice (replicate 16 0) 0 iv).[15 <- 1] in
  let payload := ctr_loop (length payload) (expand_key key) j0 1 0 payload in
  let g := ghash_loop (length aad) hk aad 0 (replicate 16 0) in
  let g := ghash_loop (length payload) hk payload 0 g in
  (payload, xor_bytes (ghash_multiply (xor_bytes g
     (Z_to_be 8 (as_u64 (len aad * 8)) ++ Z_to_be 8 (as_u64 (len payload * 8)))) hk) (cipher_of key j0)).
Proof.
  cbv beta iota zeta delta [aes_128_gcm_encrypt aes_key_new round_keys h cipher_of]. exact eq_refl.
Qed.

Lemma ctr_loop_start rks iv payload : len iv = 12 -> bytes_ok iv ->
  ctr_loop (length payload) rks (iv ++ Z_to_be 4 1) 1 0 payload = gctr_of (encrypt_block rks) iv payload.
Proof.
  intros Li Bi. unfold gctr_of. change 1 with (as_u32 1) at 2.
  pose proof (ctr_loop_ref (length payload) rks iv Li Bi (iv ++ Z_to_be 4 1) 1 0 payload) as H.
  rewrite take_0, drop_0, app_nil_l in H. apply H; clear H; [| |lia|unfold len; lia].
  - by apply counter_block.
  - rewrite take_app_le, take_ge; [done| |]; unfold len in Li; lia.
Qed.

(** The whole encryption, for any payload. *)
Lemma gcm_encrypt_value key iv aad payload :
  len iv = 12 -> bytes_ok iv -> bytes_ok aad -> bytes_ok payload ->
  let ct := gctr_of (cipher_of key) iv payload in
  aes_128_gcm_encrypt (aes_key_new key) iv aad payload = (ct, gcm_tag (cipher_of key) iv aad ct).
Proof.
  intros Li Bi Ba Bp ct. rewrite gcm_encrypt_eq. cbv zeta. set (hk := cipher_of key (replicate 16 0)).
  assert (Hk : is_block hk) by apply (cipher_block key), zero_block.
  rewrite j0_ref by done.
  assert (Ect : ctr_loop (length payload) (expand_key key) (iv ++ Z_to_be 4 1) 1 0 payload = ct).
  { subst ct. apply ctr_loop_start; done. }
  rewrite Ect. assert (Bc : bytes_ok ct) by (apply bytes_gctr; [apply cipher_block|done..]).
  f_equal. unfold gcm_tag. fold hk.
  destruct (ghash_loop_value hk aad _ Hk zero_block Ba) as [H1 E1].
  destruct (ghash_loop_value hk ct _ Hk H1 Bc) as [H2 E2].
  rewrite !len_field. destruct (ghash_multiply_step _ _ hk H2 (len_block_ok (8 * len aad) (8 * len ct)) Hk)
    as (E3 & _ & _).
  rewrite E3, E2, E1, app_assoc, ghash_snoc. rewrite <-ghash_app. exact eq_refl.
Qed.

(** C16: [aes_128_gcm_encrypt] is the authenticated encryption of NIST SP 800-38D
    over the code's block cipher: the payload becomes the GCTR stream from
    counter 2, of the same length, and the tag is GHASH (the multiplication of
    GF(2^128), algorithm 1) of the padded additional data, the padded ciphertext
    and the two bit lengths, xored with the cipher of counter block 1. Applied
    again with the same key and nonce it gives the payload back. *)
Theorem gcm_refines_sp800_38d key iv aad payload :
  len iv = 12 -> bytes_ok iv -> bytes_ok aad -> bytes_ok payload ->
  let ct := gctr_of (cipher_of key) iv payload in
  aes_128_gcm_encrypt (aes_key_new key) iv aad payload = (ct, gcm_tag (cipher_of key) iv aad ct) /\
  len ct = len payload /\ bytes_ok ct /\
  fst (aes_128_gcm_encrypt (aes_key_new key) iv aad ct) = payload.
Proof.
  intros Li Bi Ba Bp ct. pose proof (cipher_block key) as HE.
  assert (Lc : length ct = length payload) by (by apply length_gctr).
  assert (Bc : bytes_ok ct) by (by apply bytes_gctr).
  split_and!; [by apply gcm_encrypt_value|unfold len; by rewrite Lc|done|].
  rewrite gcm_encrypt_value by done. cbn [fst]. unfold gctr_of. rewrite Lc.
  by apply gctr_twice.
Qed.

(** The theorem on a payload of one block and a part of one. *)
Theorem gcm_refines_sp800_38d_witness :
  aes_128_gcm_encrypt (aes_key_new (seqZ 0 16)) (replicate 12 7) [1; 2; 3] (seqZ 0 20) =
  (let ct := gctr_of (cipher_of (seqZ 0 16)) (replicate 12 7) (seqZ 0 20) in
   (ct, gcm_tag (cipher_of (seqZ 0 16)) (replicate 12 7) [1; 2; 3] ct)).
Proof.
  apply (gcm_refines_sp800_38d (seqZ 0 16) (replicate 12 7) [1; 2; 3] (seqZ 0 20)).
  - reflexivity.
  - unfold bytes_ok. compute_fact.
  - unfold bytes_ok. compute_fact.
  - unfold bytes_ok. compute_fact.
Defined.

(** The GHASH multiplication on the values of test case 2 of the GCM
    specification: the hash key 66e94bd4... and the first block 0388dace.... *)
Example ghash_test_case :
  gf128_mul 0x0388dace60b6a392f328c2b971b2fe78 0x66e94bd4ef8a2c3b884cfa59ca342b2e =
  0x5e2ec746917062882c85b0685353deb7.
Proof. vm_compute. reflexivity. Qed.
