(* ===== verification/Ring.v ===== *)
(** The lock-free single-producer single-consumer ring of kernel/src/ring_buffer.rs.
    [push] and [pop] are given as the code runs them alone, and as the steps of
    a producer and a consumer that interleave at every access to shared memory
    (the loads and stores of [head] and [tail] and the access to a slot).
    Memory is sequentially consistent: the Acquire/Release pairs on [head] and
    [tail] order the slot accesses, and [ring_race_free] shows that no two of
    these are concurrent. *)

From S2P Require Import Prelude RustStd.
Local Open Scope Z_scope.

Section Ring.
Context {T : Type}.

Record SpscRingBuffer : Type := mkRing { buffer : list T; head : Z; tail : Z }.

Definition ring_new (CAP : Z) (default_val : T) : SpscRingBuffer :=
  mkRing (replicate (Z.to_nat CAP) default_val) 0 0.

Definition set_slot (r : SpscRingBuffer) (i : Z) (x : T) : SpscRingBuffer :=
  mkRing (setZ (buffer r) i x) (head r) (tail r).
Definition set_head (r : SpscRingBuffer) (h : Z) : SpscRingBuffer := mkRing (buffer r) h (tail r).
Definition set_tail (r : SpscRingBuffer) (t : Z) : SpscRingBuffer := mkRing (buffer r) (head r) t.

Definition usize_sub (a b : Z) : Z := as_u64 (a - b).
Definition usize_add (a b : Z) : Z := as_u64 (a + b).

Section Capacity.
Context (CAP : Z).

(** [Ok(())] is [true], [Err(())] is [false]. *)
Definition push (r : SpscRingBuffer) (item : T) : bool * SpscRingBuffer :=
  let h := head r in
  let t := tail r in
  if usize_sub h t >=? CAP then (false, r)
  else
    let r := set_slot r (h mod CAP) item in
    (true, set_head r (usize_add h 1)).

Definition pop (r : SpscRingBuffer) : option T * SpscRingBuffer :=
  let t := tail r in
  let h := head r in
  if t =? h then (None, r)
  else
    let item := getZ (buffer r) (t mod CAP) in
    (item, set_tail r (usize_add t 1)).

Definition is_empty (r : SpscRingBuffer) : bool := tail r =? head r.
Definition is_full (r : SpscRingBuffer) : bool := usize_sub (head r) (tail r) >=? CAP.

Definition ring_len (r : SpscRingBuffer) : Z :=
  if head r >=? tail r then
    let diff := head r - tail r in if diff <=? CAP then diff else CAP
  else 0.

(** * Interleaved steps *)

(** Where the producer is in [push item]: before the load of [tail], before
    the write of the slot, before the store of [head]. *)
Inductive producer : Type :=
| PIdle
| PCalled (item : T)
| PLoaded (item : T) (h : Z)
| PChecked (item : T) (h : Z)
| PWritten (item : T) (h : Z).

Inductive consumer : Type :=
| CIdle
| CCalled
| CLoaded (t : Z)
| CChecked (t : Z)
| CTaken (t : Z) (item : T).

(** What a step makes visible to the callers: the outcome of a call, at the
    access that decides it. *)
Inductive event : Type :=
| Tau
| PushOk (item : T)
| PushErr (item : T)
| PopSome (item : T)
| PopNone.

Record system : Type := mkSys { ring : SpscRingBuffer; prod : producer; cons : consumer }.

Inductive step : system -> event -> system -> Prop :=
| p_call item r c : step (mkSys r PIdle c) Tau (mkSys r (PCalled item) c)
| p_load_head item r c : step (mkSys r (PCalled item) c) Tau (mkSys r (PLoaded item (head r)) c)
| p_load_tail_full item h r c :
    usize_sub h (tail r) >= CAP ->
    step (mkSys r (PLoaded item h) c) (PushErr item) (mkSys r PIdle c)
| p_load_tail_ok item h r c :
    usize_sub h (tail r) < CAP ->
    step (mkSys r (PLoaded item h) c) Tau (mkSys r (PChecked item h) c)
| p_write item h r c :
    step (mkSys r (PChecked item h) c) Tau (mkSys (set_slot r (h mod CAP) item) (PWritten item h) c)
| p_store item h r c :
    step (mkSys r (PWritten item h) c) (PushOk item)
         (mkSys (set_head r (usize_add h 1)) PIdle c)
| c_call r p : step (mkSys r p CIdle) Tau (mkSys r p CCalled)
| c_load_tail r p : step (mkSys r p CCalled) Tau (mkSys r p (CLoaded (tail r)))
| c_load_head_empty t r p :
    t = head r -> step (mkSys r p (CLoaded t)) PopNone (mkSys r p CIdle)
| c_load_head_ok t r p :
    t <> head r -> step (mkSys r p (CLoaded t)) Tau (mkSys r p (CChecked t))
| c_read t item r p :
    getZ (buffer r) (t mod CAP) = Some item ->
    step (mkSys r p (CChecked t)) Tau (mkSys r p (CTaken t item))
| c_store t item r p :
    step (mkSys r p (CTaken t item)) (PopSome item)
         (mkSys (set_tail r (usize_add t 1)) p CIdle).

(** Runs, with the visible events in order. *)
Inductive steps : system -> list event -> system -> Prop :=
| steps_nil s : steps s [] s
| steps_tau s tr s1 s2 : steps s tr s1 -> step s1 Tau s2 -> steps s tr s2
| steps_ev s tr s1 e s2 : steps s tr s1 -> step s1 e s2 -> e <> Tau -> steps s (tr ++ [e]) s2.

(** * The bounded queue *)

Inductive queue_step : list T -> event -> list T -> Prop :=
| q_push q x : len q < CAP -> queue_step q (PushOk x) (q ++ [x])
| q_full q x : len q = CAP -> queue_step q (PushErr x) q
| q_pop q x : queue_step (x :: q) (PopSome x) q
| q_empty : queue_step [] PopNone [].

Inductive queue_run : list T -> list event -> list T -> Prop :=
| q_nil q : queue_run q [] q
| q_snoc q tr q1 e q2 : queue_run q tr q1 -> queue_step q1 e q2 -> queue_run q (tr ++ [e]) q2.

(** The queue a ring holds: the slots from [tail] up to [head]. *)
Definition used (r : SpscRingBuffer) : Z := usize_sub (head r) (tail r).

Definition slot (r : SpscRingBuffer) (k : Z) : option T :=
  getZ (buffer r) (usize_add (tail r) k mod CAP).

Definition holds (r : SpscRingBuffer) (q : list T) : Prop :=
  len q = used r /\ forall k, 0 <= k < used r -> getZ q k = slot r k.

Definition ring_ok (r : SpscRingBuffer) : Prop :=
  len (buffer r) = CAP /\ in_u64 (head r) /\ in_u64 (tail r) /\ used r <= CAP.

Definition prod_ok (r : SpscRingBuffer) (p : producer) : Prop :=
  match p with
  | PIdle | PCalled _ => True
  | PLoaded _ h => h = head r
  | PChecked _ h => h = head r /\ used r < CAP
  | PWritten x h => h = head r /\ used r < CAP /\ getZ (buffer r) (h mod CAP) = Some x
  end.

Definition cons_ok (r : SpscRingBuffer) (c : consumer) : Prop :=
  match c with
  | CIdle | CCalled => True
  | CLoaded t => t = tail r
  | CChecked t => t = tail r /\ 0 < used r
  | CTaken t x => t = tail r /\ 0 < used r /\ getZ (buffer r) (t mod CAP) = Some x
  end.

Definition sys_ok (s : system) : Prop :=
  ring_ok (ring s) /\ prod_ok (ring s) (prod s) /\ cons_ok (ring s) (cons s).

(** The slot a thread is about to access without synchronisation. *)
Definition prod_access (p : producer) : option Z :=
  match p with PChecked _ h => Some (h mod CAP) | _ => None end.
Definition cons_access (c : consumer) : option Z :=
  match c with CChecked t => Some (t mod CAP) | _ => None end.

(** How many accesses an operation still has to make. *)
Definition prod_left (p : producer) : nat :=
  match p with PIdle => 0 | PWritten _ _ => 1 | PChecked _ _ => 2 | PLoaded _ _ => 3 | PCalled _ => 4 end.
Definition cons_left (c : consumer) : nat :=
  match c with CIdle => 0 | CTaken _ _ => 1 | CChecked _ => 2 | CLoaded _ => 3 | CCalled => 4 end.

Definition pushed (tr : list event) : list T :=
  omap (fun e => match e with PushOk x => Some x | _ => None end) tr.
Definition popped (tr : list event) : list T :=
  omap (fun e => match e with PopSome x => Some x | _ => None end) tr.
End Capacity.
End Ring.

Arguments SpscRingBuffer : clear implicits.
Arguments producer : clear implicits.
Arguments consumer : clear implicits.
Arguments event : clear implicits.
Arguments system : clear implicits.

(** * Proofs *)

Section Proofs.
Context {T : Type} (CAP : Z).
Context (Hpos : 0 < CAP < 2 ^ 64) (Hdiv : (CAP | 2 ^ 64)).
Implicit Types (r : SpscRingBuffer T) (q : list T) (s : system T).

Lemma usize_add_mod t k : usize_add t k mod CAP = (t + k) mod CAP.
Proof using Hdiv. unfold usize_add, as_u64, wrapU. by apply Z.mod_mod_divide. Qed.

Lemma slot_inj t j k : 0 <= j < CAP -> 0 <= k < CAP -> (t + j) mod CAP = (t + k) mod CAP -> j = k.
Proof using Hpos.
  intros Hj Hk E.
  assert (E' : (t + j - (t + k)) mod CAP = 0) by (rewrite Zminus_mod, E, Z.sub_diag; by apply Z.mod_0_l; lia).
  apply Z.mod_divide in E' as [z Hz]; [|lia].
  destruct (Z.lt_trichotomy z 0) as [Hz0|[->|Hz0]]; [|lia|].
  - assert (z * CAP <= -1 * CAP) by (apply Z.mul_le_mono_nonneg_r; lia). lia.
  - assert (1 * CAP <= z * CAP) by (apply Z.mul_le_mono_nonneg_r; lia). lia.
Qed.

Lemma used_bounds r : in_u64 (used r).
Proof using. apply as_u64_range. Qed.

(** [head] is [tail] advanced by the number of used slots. *)
Lemma head_tail r : in_u64 (head r) -> usize_add (tail r) (used r) = head r.
Proof using.
  intros H. unfold usize_add, used, usize_sub, as_u64, wrapU. rewrite Z.add_mod_idemp_r by lia.
  replace (tail r + (head r - tail r)) with (head r) by lia. by apply Z.mod_small.
Qed.

Lemma head_slot r : in_u64 (head r) -> head r mod CAP = (tail r + used r) mod CAP.
Proof using Hdiv. intros H. by rewrite <-(head_tail r H) at 1; rewrite usize_add_mod. Qed.

Lemma slot_eq r k : slot CAP r k = getZ (buffer r) ((tail r + k) mod CAP).
Proof using Hdiv. unfold slot. by rewrite usize_add_mod. Qed.

Lemma tail_slot r : getZ (buffer r) (tail r mod CAP) = slot CAP r 0.
Proof using Hdiv. by rewrite slot_eq, Z.add_0_r. Qed.

Lemma used_empty r : in_u64 (head r) -> in_u64 (tail r) -> used r = 0 <-> tail r = head r.
Proof using.
  intros Hh Ht. split; intros H.
  - rewrite <-(head_tail r Hh), H. unfold usize_add. rewrite Z.add_0_r. symmetry. by apply wrapU_small.
  - unfold used, usize_sub. by rewrite H, Z.sub_diag.
Qed.

Lemma used_advance_head r : in_u64 (head r) -> used r < CAP ->
  used (set_head r (usize_add (head r) 1)) = used r + 1.
Proof using Hpos.
  intros Hh Hu. pose proof (used_bounds r) as B. unfold in_u64 in *.
  assert (E : used r + 1 = (used r + 1) mod 2 ^ 64) by (rewrite Z.mod_small; lia).
  rewrite E. unfold used, usize_sub, usize_add, as_u64, wrapU. cbn [head tail set_head].
  rewrite Zminus_mod_idemp_l, Z.add_mod_idemp_l by lia. f_equal. lia.
Qed.

Lemma used_advance_tail r : 0 < used r ->
  used (set_tail r (usize_add (tail r) 1)) = used r - 1.
Proof using.
  intros Hu. pose proof (used_bounds r) as B. unfold in_u64 in *.
  assert (E : used r - 1 = (used r - 1) mod 2 ^ 64) by (rewrite Z.mod_small; lia).
  rewrite E. unfold used, usize_sub, usize_add, as_u64, wrapU. cbn [head tail set_tail].
  rewrite Zminus_mod_idemp_r, Zminus_mod_idemp_l. f_equal. lia.
Qed.

(** ** The queue a ring holds *)

Lemma holds_functional r q q' : holds CAP r q -> holds CAP r q' -> q = q'.
Proof using.
  intros [L H] [L' H']. apply list_eq_getZ; [lia|]. intros i.
  destruct (decide (0 <= i < used r)) as [Hi|Hi]; [by rewrite H, H'|].
  assert (E : forall l : list T, len l = used r -> getZ l i = None) by (intros l Hl; apply getZ_None; lia).
  by rewrite !E.
Qed.

Lemma holds_write r q i x : ring_ok CAP r -> used r < CAP -> i = head r mod CAP ->
  holds CAP r q -> holds CAP (set_slot r i x) q.
Proof using Hpos Hdiv.
  intros (L & Hh & Ht & _) Hu -> [Lq H]. split; [done|]. intros k Hk. rewrite H by done.
  rewrite !slot_eq. cbn [buffer tail set_slot]. symmetry. apply getZ_setZ_ne.
  rewrite head_slot by done. intros E. apply slot_inj in E; change (used (set_slot r _ x)) with (used r) in *; lia.
Qed.

Lemma holds_store r q x : ring_ok CAP r -> used r < CAP ->
  getZ (buffer r) (head r mod CAP) = Some x ->
  holds CAP r q -> holds CAP (set_head r (usize_add (head r) 1)) (q ++ [x]).
Proof using Hpos Hdiv.
  intros (L & Hh & Ht & _) Hu Hx [Lq H]. pose proof (used_bounds r) as [B _].
  unfold holds. rewrite used_advance_head, len_app by done. split; [change (len [x]) with 1; lia|].
  intros k Hk. rewrite slot_eq. cbn [buffer tail set_head]. rewrite <-slot_eq.
  destruct (Z.eq_dec k (used r)) as [->|Hne].
  - rewrite getZ_app_r by lia. replace (used r - len q) with 0 by lia.
    by rewrite getZ_cons_0, slot_eq, <-head_slot.
  - rewrite getZ_app_l by lia. apply H. lia.
Qed.

Lemma getZ_tail (x : T) q k : 0 <= k -> getZ (x :: q) (k + 1) = getZ q k.
Proof using.
  intros Hk. change (x :: q) with ([x] ++ q). rewrite getZ_app_r by (change (len [x]) with 1; lia).
  f_equal. change (len [x]) with 1. lia.
Qed.

Lemma holds_take r q x : ring_ok CAP r -> 0 < used r ->
  getZ (buffer r) (tail r mod CAP) = Some x -> holds CAP r q ->
  exists q', q = x :: q' /\ holds CAP (set_tail r (usize_add (tail r) 1)) q'.
Proof using Hpos Hdiv.
  intros (L & Hh & Ht & _) Hu Hx [Lq H]. destruct q as [|y q]; [change (len []) with 0 in Lq; lia|].
  assert (y = x) as ->.
  { specialize (H 0 ltac:(lia)). rewrite getZ_cons_0, <-tail_slot, Hx in H. congruence. }
  exists q. split; [done|]. unfold holds. rewrite used_advance_tail by done. rewrite len_cons in Lq.
  split; [lia|]. intros k Hk. specialize (H (k + 1) ltac:(lia)). rewrite getZ_tail in H by lia.
  rewrite H, !slot_eq. cbn [buffer tail set_tail]. f_equal.
  rewrite <-(Z.add_mod_idemp_l (usize_add _ _)), usize_add_mod, Z.add_mod_idemp_l by lia. f_equal. lia.
Qed.
(** ** Every step keeps the invariant and is a step of the queue *)

Lemma ring_ok_slot r i x : ring_ok CAP r -> ring_ok CAP (set_slot r i x).
Proof using. intros (L & H). split; [|exact H]. cbn [buffer set_slot]. by rewrite len_setZ. Qed.

Lemma ring_ok_head r : ring_ok CAP r -> used r < CAP ->
  ring_ok CAP (set_head r (usize_add (head r) 1)).
Proof using Hpos.
  intros (L & Hh & Ht & Hu) Hlt. split_and!; [done|apply as_u64_range|done|].
  rewrite used_advance_head by done. lia.
Qed.

Lemma ring_ok_tail r : ring_ok CAP r -> 0 < used r ->
  ring_ok CAP (set_tail r (usize_add (tail r) 1)).
Proof using.
  intros (L & Hh & Ht & Hu) Hlt. split_and!; [done|done|apply as_u64_range|].
  rewrite used_advance_tail by done. lia.
Qed.

Lemma cons_ok_write r x c : ring_ok CAP r -> used r < CAP -> cons_ok CAP r c ->
  cons_ok CAP (set_slot r (head r mod CAP) x) c.
Proof using Hpos Hdiv.
  intros (L & Hh & Ht & _) Hlt Hc. destruct c as [| |t|t|t y]; try exact Hc.
  destruct Hc as (-> & Hu & Hy). split_and!; [done|done|]. cbn [buffer set_slot].
  rewrite getZ_setZ_ne; [done|]. rewrite head_slot by done. intros E.
  replace (tail r mod CAP) with ((tail r + 0) mod CAP) in E by (f_equal; lia).
  pose proof (used_bounds r) as [B _]. apply slot_inj in E; lia.
Qed.

Lemma cons_ok_store r c : in_u64 (head r) -> used r < CAP -> cons_ok CAP r c ->
  cons_ok CAP (set_head r (usize_add (head r) 1)) c.
Proof using Hpos.
  intros Hh Hlt Hc. pose proof (used_bounds r) as [B _].
  destruct c as [| |t|t|t y]; try exact Hc; unfold cons_ok in *;
    rewrite used_advance_head by done; destruct Hc as [-> Hc]; (split; [done|]).
  - lia.
  - destruct Hc. split; [lia|done].
Qed.

Lemma prod_ok_take r p : 0 < used r -> prod_ok CAP r p ->
  prod_ok CAP (set_tail r (usize_add (tail r) 1)) p.
Proof using.
  intros Hu Hp. destruct p as [|x|x h|x h|x h]; try exact Hp; unfold prod_ok in *;
    rewrite used_advance_tail by done; destruct Hp as [-> Hp]; (split; [done|]).
  - lia.
  - destruct Hp. split; [lia|done].
Qed.

(** What the queue does on a visible event; nothing on the others. *)
Definition queue_sim (q : list T) (e : event T) (q' : list T) : Prop :=
  match e with Tau => q' = q | _ => queue_step CAP q e q' end.

Lemma step_simulates s e s' q :
  sys_ok CAP s -> holds CAP (ring s) q -> step CAP s e s' ->
  sys_ok CAP s' /\ exists q', queue_sim q e q' /\ holds CAP (ring s') q'.
Proof using Hpos Hdiv.
  intros (Hr & Hp & Hc) Hq Hs. pose proof Hr as (L & Hh & Ht & Hu). pose proof Hq as [Lq _].
  destruct Hs; cbn [ring prod cons] in *; cbn [prod_ok cons_ok] in Hp, Hc.
  - split; [done|]. by exists q.
  - split; [done|]. by exists q.
  - split; [done|]. exists q. split; [|done]. subst h. constructor. unfold used in *. lia.
  - subst h. split; [done|]. by exists q.
  - destruct Hp as [-> Hlt]. split; [split_and!|].
    + by apply ring_ok_slot.
    + split_and!; [done|done|]. cbn [buffer set_slot ring]. apply getZ_setZ_eq. rewrite L.
      apply Z.mod_pos_bound. lia.
    + by apply cons_ok_write.
    + exists q. split; [done|]. by apply holds_write.
  - destruct Hp as (-> & Hlt & Hx). split; [split_and!|].
    + by apply ring_ok_head.
    + done.
    + by apply cons_ok_store.
    + exists (q ++ [item]). split; [constructor; lia|]. by apply holds_store.
  - split; [done|]. by exists q.
  - split; [done|]. by exists q.
  - split; [done|]. exists q. split; [|done].
    assert (U : used r = 0) by (apply used_empty; [done..|congruence]).
    destruct q; [constructor|]. rewrite len_cons in Lq. pose proof (len_nonneg q). lia.
  - split; [|by exists q]. split_and!; [done|done|]. split; [done|].
    cbn [ring]. pose proof (used_bounds r) as [B _]. pose proof (used_empty r Hh Ht) as U.
    destruct (Z.eq_dec (used r) 0) as [E|]; [|lia]. apply U in E. congruence.
  - split; [|by exists q]. split_and!; [done|done|]. destruct Hc. by split_and!.
  - destruct Hc as (-> & Hpu & Hx). destruct (holds_take r q item Hr Hpu Hx Hq) as (q' & -> & Hq').
    split; [split_and!|].
    + by apply ring_ok_tail.
    + by apply prod_ok_take.
    + done.
    + exists q'. split; [constructor|done].
Qed.

Definition init (d : T) : system T := mkSys (ring_new CAP d) PIdle CIdle.

Lemma init_ok d : sys_ok CAP (init d) /\ holds CAP (ring (init d)) [].
Proof using Hpos.
  assert (U : used (ring_new CAP d) = 0) by reflexivity.
  split; [split_and!|split]; cbn [ring prod cons init]; try done.
  - split_and!; try (unfold in_u64; cbn; lia). cbn [buffer ring_new]. rewrite len_replicate. lia.
  - rewrite U. intros k ?. lia.
Qed.

Lemma steps_simulates d tr s : steps CAP (init d) tr s ->
  sys_ok CAP s /\ exists q, queue_run CAP [] tr q /\ holds CAP (ring s) q.
Proof using Hpos Hdiv.
  intros H. remember (init d) as s0 eqn:E0. induction H as [s|s tr s1 s2 Hst IH Hs|s tr s1 e s2 Hst IH Hs Hne]; subst.
  - destruct (init_ok d). split; [done|]. exists []. split; [constructor|done].
  - destruct (IH eq_refl) as (Hok & q & Hr & Hq).
    destruct (step_simulates _ _ _ q Hok Hq Hs) as (Hok' & q' & Hsim & Hq'). cbn in Hsim. subst.
    split; [done|]. by exists q.
  - destruct (IH eq_refl) as (Hok & q & Hr & Hq).
    destruct (step_simulates _ _ _ q Hok Hq Hs) as (Hok' & q' & Hsim & Hq').
    split; [done|]. exists q'. split; [|done]. econstructor; [done|]. by destruct e.
Qed.

Lemma queue_run_fifo tr q : queue_run CAP [] tr q -> pushed tr = popped tr ++ q /\ len q <= CAP.
Proof using Hpos.
  intros H. remember [] as q0 eqn:E0. induction H as [q|q tr q1 e q2 Hr IH Hs]; subst.
  - split; [done|]. change (len (@nil T)) with 0. lia.
  - destruct (IH eq_refl) as [E L]. unfold pushed, popped in *. rewrite !omap_app, E.
    destruct Hs; cbn [omap list_omap]; rewrite ?app_nil_r, ?len_app, ?len_cons in *.
    + split; [by rewrite app_assoc|]. change (len (@nil T)) with 0. lia.
    + done.
    + split; [by rewrite <-app_assoc|lia].
    + done.
Qed.
(** ** The operations run whole *)

Lemma push_queue r q x : ring_ok CAP r -> holds CAP r q ->
  exists r', push CAP r x = (bool_decide (len q < CAP), r') /\ ring_ok CAP r' /\
    holds CAP r' (if bool_decide (len q < CAP) then q ++ [x] else q).
Proof using Hpos Hdiv.
  intros Hr Hq. pose proof Hr as (L & Hh & Ht & Hu). pose proof Hq as [Lq _].
  unfold push. fold (used r). destruct (Z.geb_spec (used r) CAP) as [Hf|Hf].
  - rewrite bool_decide_false by lia. eexists; split; [reflexivity|done].
  - rewrite bool_decide_true by lia. eexists; split; [reflexivity|].
    assert (Hs : ring_ok CAP (set_slot r (head r mod CAP) x)) by by apply ring_ok_slot.
    split; [by apply (ring_ok_head (set_slot r (head r mod CAP) x))|].
    apply (holds_store (set_slot r (head r mod CAP) x)); [done|done| |by apply holds_write].
    cbn [buffer set_slot head]. apply getZ_setZ_eq. rewrite L. apply Z.mod_pos_bound. lia.
Qed.

Lemma pop_queue r q : ring_ok CAP r -> holds CAP r q ->
  exists r', pop CAP r = (match q with [] => None | x :: _ => Some x end, r') /\ ring_ok CAP r' /\
    holds CAP r' (match q with [] => [] | _ :: q' => q' end).
Proof using Hpos Hdiv.
  intros Hr Hq. pose proof Hr as (L & Hh & Ht & Hu). pose proof Hq as [Lq Hg].
  pose proof (used_empty r Hh Ht) as U. unfold pop.
  destruct (Z.eqb_spec (tail r) (head r)) as [E|E].
  - apply U in E. destruct q as [|x q]; [by eexists|]. rewrite len_cons in Lq. pose proof (len_nonneg q). lia.
  - destruct q as [|x q].
    { exfalso. apply E, U. by rewrite <-Lq. }
    pose proof (len_nonneg q). rewrite len_cons in Lq.
    assert (Hx : getZ (buffer r) (tail r mod CAP) = Some x).
    { rewrite tail_slot, <-Hg by lia. apply getZ_cons_0. }
    rewrite Hx. eexists; split; [reflexivity|]. split; [apply ring_ok_tail; [done|lia]|].
    destruct (holds_take r (x :: q) x) as (q' & [= <-] & Hq'); [done|lia|done|done|done].
Qed.
End Proofs.

(** * The properties *)

(** C11: the ring is a linearisable bounded queue: whatever the producer's and the
    consumer's accesses to shared memory interleave to, the outcomes of [push]
    and [pop] so far, ordered by the access that decides each, are a run of a
    first-in first-out queue of capacity [CAP] that starts empty (a push fails
    exactly when the queue is full, a pop exactly when it is empty), and the
    slots from [tail] to [head] hold that queue. So the items popped are those
    pushed, in order, without the last ones that are still queued. *)
Theorem ring_linearizable {T} CAP (d : T) tr s :
  0 < CAP < 2 ^ 64 -> (CAP | 2 ^ 64) ->
  steps CAP (mkSys (ring_new CAP d) PIdle CIdle) tr s ->
  exists q, queue_run CAP [] tr q /\ holds CAP (ring s) q /\
            pushed tr = popped tr ++ q /\ len q <= CAP.
Proof.
  intros Hp Hd H. destruct (steps_simulates CAP Hp Hd d tr s H) as (_ & q & Hr & Hq).
  destruct (queue_run_fifo CAP Hp tr q Hr). by exists q.
Qed.

(** C40: the accesses to the slots never race: in no reachable state is the
    producer about to write the slot that the consumer is about to read, so each
    [UnsafeCell] access is exclusive; the indices stay inside the buffer and a
    taken item is what was in the slot. *)
Theorem ring_race_free {T} CAP (d : T) tr s :
  0 < CAP < 2 ^ 64 -> (CAP | 2 ^ 64) ->
  steps CAP (mkSys (ring_new CAP d) PIdle CIdle) tr s ->
  (forall i j, prod_access CAP (prod s) = Some i -> cons_access CAP (cons s) = Some j ->
     i <> j /\ 0 <= i < len (buffer (ring s)) /\ 0 <= j < len (buffer (ring s))) /\
  (forall t x, cons s = CTaken t x -> getZ (buffer (ring s)) (t mod CAP) = Some x).
Proof.
  intros Hp Hd H. destruct (steps_simulates CAP Hp Hd d tr s H) as (((L & Hh & _) & Hpr & Hc) & _).
  split.
  - intros i j Hi Hj. destruct (prod s); try discriminate Hi. destruct (cons s); try discriminate Hj.
    injection Hi as <-. injection Hj as <-. destruct Hpr as [-> Hu]. destruct Hc as [-> Hu'].
    rewrite L. split_and!; try (apply Z.mod_pos_bound; lia).
    rewrite (head_slot CAP Hd) by done. rewrite <-(Z.add_0_r (tail (ring s))) at 2.
    intros E. apply slot_inj in E; lia.
  - intros t x E. rewrite E in Hc. apply Hc.
Qed.

Ltac next_access rule :=
  do 2 eexists; split; [by eapply rule|split; [reflexivity|cbn; lia]].

(** Both operations are wait-free: in every reachable state an operation in
    progress can make its next access by itself, whatever the other side is
    doing, and has fewer of its at most four accesses left after it; a step of
    the other side does not add to them. *)
Theorem ring_wait_free {T} CAP (d : T) tr s :
  0 < CAP < 2 ^ 64 -> (CAP | 2 ^ 64) ->
  steps CAP (mkSys (ring_new CAP d) PIdle CIdle) tr s ->
  (prod s <> PIdle -> exists e s', step CAP s e s' /\ cons s' = cons s /\
     (prod_left (prod s') < prod_left (prod s) <= 4)%nat) /\
  (cons s <> CIdle -> exists e s', step CAP s e s' /\ prod s' = prod s /\
     (cons_left (cons s') < cons_left (cons s) <= 4)%nat) /\
  (forall e s', step CAP s e s' -> prod s' = prod s \/ cons s' = cons s).
Proof.
  intros Hp Hd H. destruct (steps_simulates CAP Hp Hd d tr s H) as (((L & _) & _ & Hc) & _).
  destruct s as [r p c]; cbn [ring prod cons] in *. split_and!.
  - intros Hne. destruct p as [|x|x h|x h|x h]; [done| | | |].
    + next_access @p_load_head.
    + destruct (Z_lt_ge_dec (usize_sub h (tail r)) CAP);
        [next_access @p_load_tail_ok|next_access @p_load_tail_full].
    + next_access @p_write.
    + next_access @p_store.
  - intros Hne. destruct c as [| |t|t|t x]; [done| | | |].
    + next_access @c_load_tail.
    + destruct (Z.eq_dec t (head r)); [next_access @c_load_head_empty|next_access @c_load_head_ok].
    + destruct (getZ_lt_Some (buffer r) (t mod CAP)) as [x Hx].
      { rewrite L. apply Z.mod_pos_bound. lia. }
      next_access @c_read.
    + next_access @c_store.
  - intros e s' Hs. inversion Hs; subst; cbn; tauto.
Qed.

(** Undisturbed, the steps of an operation are the function. *)
Ltac silent rule := eapply steps_tau; [|eapply rule].

Lemma push_steps {T} CAP (r : SpscRingBuffer T) x c :
  steps CAP (mkSys r PIdle c) [if fst (push CAP r x) then PushOk x else PushErr x]
    (mkSys (snd (push CAP r x)) PIdle c).
Proof.
  unfold push. destruct (Z.geb_spec (usize_sub (head r) (tail r)) CAP); cbn [fst snd].
  - apply (steps_ev CAP _ [] (mkSys r (PLoaded x (head r)) c)); [|by apply p_load_tail_full; lia|done].
    silent @p_load_head. silent @p_call. constructor.
  - eapply (steps_ev CAP _ []); [|apply p_store|done].
    silent @p_write. silent @p_load_tail_ok; [|done]. silent @p_load_head. silent @p_call. constructor.
Qed.

Lemma pop_steps {T} CAP (r : SpscRingBuffer T) p x :
  fst (pop CAP r) = Some x \/ tail r = head r ->
  steps CAP (mkSys r p CIdle) [if fst (pop CAP r) is Some x then PopSome x else PopNone]
    (mkSys (snd (pop CAP r)) p CIdle).
Proof.
  unfold pop. destruct (Z.eqb_spec (tail r) (head r)) as [E|E]; cbn [fst snd]; intros H.
  - eapply (steps_ev CAP _ []); [|by apply c_load_head_empty|done].
    silent @c_load_tail. silent @c_call. constructor.
  - destruct H as [H|H]; [|done]. rewrite H.
    eapply (steps_ev CAP _ []); [|apply c_store|done].
    silent @c_read; [|done]. silent @c_load_head_ok; [|done].
    silent @c_load_tail. silent @c_call. constructor.
Qed.

(** What the queries return of the queue a ring holds. *)
Lemma is_empty_holds {T} CAP (r : SpscRingBuffer T) q :
  ring_ok CAP r -> holds CAP r q -> is_empty r = bool_decide (q = []).
Proof.
  intros (_ & Hh & Ht & _) [L _]. unfold is_empty. pose proof (used_empty r Hh Ht) as U.
  destruct (Z.eqb_spec (tail r) (head r)) as [E|E].
  - apply U in E. rewrite bool_decide_true; [done|]. destruct q; [done|].
    rewrite len_cons in L. pose proof (len_nonneg q). lia.
  - rewrite bool_decide_false; [done|]. intros ->. apply E, U. rewrite <-L. done.
Qed.

Lemma is_full_holds {T} CAP (r : SpscRingBuffer T) q :
  ring_ok CAP r -> holds CAP r q -> is_full CAP r = bool_decide (len q = CAP).
Proof.
  intros (_ & _ & _ & U) [L _]. unfold is_full. fold (used r). rewrite L.
  case_bool_decide; destruct (Z.geb_spec (used r) CAP); (done || lia).
Qed.

(** The reported length is the queue's, except that it is 0 while [head] has
    wrapped around past [tail]. *)
Lemma ring_len_holds {T} CAP (r : SpscRingBuffer T) q :
  ring_ok CAP r -> holds CAP r q -> ring_len CAP r = if head r <? tail r then 0 else len q.
Proof.
  intros (_ & Hh & Ht & U) [L _]. unfold ring_len. rewrite L. unfold in_u64 in *.
  assert (E : tail r <= head r -> used r = head r - tail r).
  { intros. unfold used, usize_sub, as_u64. apply wrapU_small. lia. }
  destruct (Z.geb_spec (head r) (tail r)), (Z.ltb_spec (head r) (tail r)); try lia.
  rewrite <-E by done. destruct (Z.leb_spec (used r) CAP); lia.
Qed.

(** ** A run of the code's rings of 16 slots: the pop starts before the push has
    stored [head] and finds its item, a later pop finds nothing. *)
Definition demo_state : system Z :=
  mkSys (set_tail (set_head (set_slot (ring_new 16 0) (0 mod 16) 7) (usize_add 0 1)) (usize_add 0 1))
        PIdle CIdle.

Lemma demo_run : steps 16 (mkSys (ring_new 16 0) PIdle CIdle) [PushOk 7; PopSome 7; PopNone] demo_state.
Proof.
  eapply (steps_ev 16 _ [PushOk 7; PopSome 7]); [|by apply c_load_head_empty|done].
  silent @c_load_tail. silent @c_call.
  eapply (steps_ev 16 _ [PushOk 7]); [|apply (c_store 16 0)|done].
  silent @c_read; [|reflexivity]. silent @c_load_head_ok; [|done].
  eapply (steps_ev 16 _ []); [|apply (p_store 16 _ 0)|done].
  silent @c_load_tail. silent @c_call.
  silent (p_write 16 7 0). silent @p_load_tail_ok; [|done]. silent @p_load_head. silent @p_call.
  constructor.
Qed.

Lemma demo_capacity : 0 < 16 < 2 ^ 64 /\ (16 | 2 ^ 64).
Proof. split; [lia|]. by exists (2 ^ 60). Qed.

Theorem ring_linearizable_witness :
  exists q, queue_run 16 [] [PushOk 7; PopSome 7; PopNone] q /\ holds 16 (ring demo_state) q /\
            pushed [PushOk 7; PopSome 7; PopNone] = popped [PushOk 7; PopSome 7; PopNone] ++ q /\
            len q <= 16.
Proof.
  exact (ring_linearizable 16 0 _ _ (proj1 demo_capacity) (proj2 demo_capacity) demo_run).
Defined.

(** A state where the producer is about to write slot 1 and the consumer to read
    slot 0. *)
Definition busy_ring : SpscRingBuffer Z := set_head (set_slot (ring_new 16 0) (0 mod 16) 7) (usize_add 0 1).
Definition busy_state : system Z := mkSys busy_ring (PChecked 8 1) (CChecked 0).

Lemma busy_run : steps 16 (mkSys (ring_new 16 0) PIdle CIdle) [PushOk 7] busy_state.
Proof.
  silent @p_load_tail_ok; [|done]. silent (@p_load_head Z 16 8 busy_ring). silent @p_call.
  silent @c_load_head_ok; [|done]. silent @c_load_tail. silent @c_call.
  eapply (steps_ev 16 _ []); [|apply (p_store 16 _ 0)|done].
  silent (p_write 16 7 0). silent @p_load_tail_ok; [|done]. silent @p_load_head. silent @p_call.
  constructor.
Qed.

Theorem ring_race_free_witness : 1 <> 0 /\ 0 <= 1 < len (buffer busy_ring) /\ 0 <= 0 < len (buffer busy_ring).
Proof.
  exact (proj1 (ring_race_free 16 0 _ _ (proj1 demo_capacity) (proj2 demo_capacity) busy_run) 1 0
    eq_refl eq_refl).
Defined.

Theorem ring_wait_free_witness :
  exists e s', step 16 busy_state e s' /\ cons s' = cons busy_state /\
    (prod_left (prod s') < prod_left (prod busy_state) <= 4)%nat.
Proof.
  refine (proj1 (ring_wait_free 16 0 _ _ (proj1 demo_capacity) (proj2 demo_capacity) busy_run) _).
  discriminate.
Defined.
