(* ===== verification/Tsc.v ===== *)
(** Conversions between time-stamp-counter cycles and nanoseconds, and the
    calibration of the counter's frequency (kernel/src/tsc.rs). The counter and
    the timer port are devices: their readings are arguments. *)

From S2P Require Import Prelude.
Local Open Scope Z_scope.

(** The product is taken in [u128], where it cannot overflow; the quotient is
    cut to [u64]. *)
Definition tsc_to_ns (tsc_cycles freq_hz : Z) : Z :=
  if freq_hz =? 0 then 0 else as_u64 (tsc_cycles * 1000000000 / freq_hz).

Definition ns_to_tsc (ns freq_hz : Z) : Z := as_u64 (ns * freq_hz / 1000000000).

Definition GLOBAL_TSC_FREQ_HZ : Z := 2500000000.

(** ** Calibration *)

Definition PIT_FREQ_HZ : Z := 1193182.
Definition CALIBRATION_MS : Z := 10.
Definition PIT_TICKS : Z := as_u16 (PIT_FREQ_HZ * CALIBRATION_MS / 1000).
Definition MAX_LOOPS : Z := 50000000.

(** The poll of port 0x61: [polls n] is the [n]-th reading, bit 5 is the timer's
    output. The count of turns that found it low. *)
Fixpoint poll_pit (fuel : nat) (polls : Z -> Z) (loop_count : Z) : Z :=
  match fuel with
  | O => loop_count
  | S fuel =>
    if Z.land (polls loop_count) 0x20 =? 0 then
      let loop_count := loop_count + 1 in
      if loop_count >=? MAX_LOOPS then loop_count else poll_pit fuel polls loop_count
    else loop_count
  end.

(** The frequency from the readings before and after the poll. *)
Definition calibrated (loop_count start_tsc end_tsc : Z) : Z :=
  if (loop_count <? MAX_LOOPS) && (end_tsc >? start_tsc) then
    (end_tsc - start_tsc) * (1000 / CALIBRATION_MS)
  else GLOBAL_TSC_FREQ_HZ.

Definition calibrate_tsc_freq (polls : Z -> Z) (start_tsc end_tsc : Z) : Z :=
  calibrated (poll_pit (Z.to_nat MAX_LOOPS) polls 0) start_tsc end_tsc.

(** * Properties *)

(** Neither product leaves [u128]. *)
Lemma conversions_fit_u128 a b : in_u64 a -> in_u64 b -> 0 <= a * b < 2 ^ 128.
Proof. unfold in_u64. intros. nia. Qed.

Lemma floor_bounds a b : 0 < b -> b * (a / b) <= a < b * (a / b) + b.
Proof. intros. pose proof (Z.mul_div_le a b). pose proof (Z.mul_succ_div_gt a b). lia. Qed.

Lemma tsc_to_ns_exact c f : 0 <= c -> 0 < f -> c * 1000000000 < 2 ^ 64 * f ->
  tsc_to_ns c f = c * 1000000000 / f.
Proof.
  intros Hc Hf H. unfold tsc_to_ns. destruct (Z.eqb_spec f 0); [lia|].
  apply wrapU_small. split; [apply Z.div_pos; lia|]. apply Z.div_lt_upper_bound; lia.
Qed.

Lemma ns_to_tsc_exact n f : 0 <= n -> 0 <= f -> n * f < 2 ^ 64 * 1000000000 ->
  ns_to_tsc n f = n * f / 1000000000.
Proof.
  intros Hn Hf H. apply wrapU_small. split; [apply Z.div_pos; lia|].
  apply Z.div_lt_upper_bound; lia.
Qed.

Lemma tsc_to_ns_range c f : in_u64 (tsc_to_ns c f).
Proof. unfold tsc_to_ns. destruct (f =? 0); [unfold in_u64; lia|apply as_u64_range]. Qed.

Lemma tsc_to_ns_monotone c c' f : 0 <= c <= c' -> 0 < f -> c' * 1000000000 < 2 ^ 64 * f ->
  tsc_to_ns c f <= tsc_to_ns c' f.
Proof. intros. rewrite !tsc_to_ns_exact by lia. apply Z.div_le_mono; lia. Qed.

(** The poll stops after at most [MAX_LOOPS] turns, at the first high reading. *)
Lemma poll_pit_value fuel polls n : 0 <= n < MAX_LOOPS -> MAX_LOOPS <= n + Z.of_nat fuel ->
  n <= poll_pit fuel polls n <= MAX_LOOPS /\
  (forall k, n <= k < poll_pit fuel polls n -> Z.land (polls k) 0x20 = 0) /\
  (poll_pit fuel polls n < MAX_LOOPS -> Z.land (polls (poll_pit fuel polls n)) 0x20 <> 0).
Proof.
  revert n. induction fuel as [|fuel IH]; intros n Hn Hf; [lia|]. cbn [poll_pit].
  destruct (Z.eqb_spec (Z.land (polls n) 0x20) 0) as [E|E]; [|split_and!; lia].
  destruct (Z.geb_spec (n + 1) MAX_LOOPS).
  - split_and!; [lia|lia| |lia]. intros k ?. replace k with n by lia. done.
  - destruct (IH (n + 1)) as (H1 & H2 & H3); [lia..|]. split_and!; [lia|lia| |done].
    intros k ?. destruct (Z.eq_dec k n) as [->|]; [done|]. apply H2. lia.
Qed.

(** Within the range of 64 bits both conversions are the exact quotients,
    rounded down and monotone, and they invert each other up to rounding: going
    through cycles loses at most one nanosecond at a frequency of at least 1 GHz,
    going through nanoseconds less than one nanosecond's worth of cycles and one
    cycle. So a deadline set with [ns_to_tsc] is never later than asked. *)
Theorem tsc_roundtrip n c f :
  0 <= n -> in_u64 c -> 1000000000 <= f ->
  n * f < 2 ^ 64 * 1000000000 -> c * 1000000000 < 2 ^ 64 * f ->
  ns_to_tsc n f = n * f / 1000000000 /\ tsc_to_ns c f = c * 1000000000 / f /\
  n - 1 <= tsc_to_ns (ns_to_tsc n f) f <= n /\
  ns_to_tsc (tsc_to_ns c f) f <= c /\
  (c - ns_to_tsc (tsc_to_ns c f) f) * 1000000000 < f + 1000000000.
Proof.
  intros Hn Hc Hf Bn Bc. unfold in_u64 in Hc. rewrite (ns_to_tsc_exact n f), (tsc_to_ns_exact c f) by lia.
  set (m := n * f / 1000000000). set (k := c * 1000000000 / f).
  pose proof (floor_bounds (n * f) 1000000000 ltac:(lia)) as Hm. fold m in Hm.
  pose proof (floor_bounds (c * 1000000000) f ltac:(lia)) as Hk. fold k in Hk.
  assert (0 <= m) by (apply Z.div_pos; lia). assert (0 <= k) by (apply Z.div_pos; lia).
  assert (m < 2 ^ 64) by (apply Z.div_lt_upper_bound; lia).
  assert (k < 2 ^ 64) by (apply Z.div_lt_upper_bound; lia).
  split_and!; [done|done|..].
  - rewrite tsc_to_ns_exact by lia. apply Z.div_le_lower_bound; [lia|].
    replace (f * (n - 1)) with (n * f - f) by ring. lia.
  - rewrite tsc_to_ns_exact by lia. apply Z.lt_succ_r, Z.div_lt_upper_bound; [lia|].
    replace (f * Z.succ n) with (n * f + f) by ring. lia.
  - rewrite ns_to_tsc_exact by lia. apply Z.lt_succ_r, Z.div_lt_upper_bound; lia.
  - rewrite ns_to_tsc_exact by lia.
    pose proof (floor_bounds (k * f) 1000000000 ltac:(lia)). lia.
Qed.

(** The 20 ms deadline of the sender at 2.5 GHz. *)
Theorem tsc_roundtrip_witness :
  ns_to_tsc 20000000 2500000000 = 50000000 /\ tsc_to_ns 50000000 2500000000 = 20000000 /\
  20000000 - 1 <= tsc_to_ns (ns_to_tsc 20000000 2500000000) 2500000000 <= 20000000.
Proof.
  destruct (tsc_roundtrip 20000000 50000000 2500000000) as (_ & _ & H & _); [unfold in_u64; lia..|].
  split_and!; [reflexivity|reflexivity|exact (proj1 H)|exact (proj2 H)].
Defined.

(** The calibration loop ends, and its result is the fallback frequency unless
    the timer's output rose in time between two readings in order. *)
Lemma calibrate_value polls start_tsc end_tsc :
  calibrate_tsc_freq polls start_tsc end_tsc = GLOBAL_TSC_FREQ_HZ \/
  (start_tsc < end_tsc /\ calibrate_tsc_freq polls start_tsc end_tsc = 100 * (end_tsc - start_tsc) /\
   exists n, 0 <= n < MAX_LOOPS /\ Z.land (polls n) 0x20 <> 0 /\
     forall k, 0 <= k < n -> Z.land (polls k) 0x20 = 0).
Proof.
  unfold calibrate_tsc_freq.
  destruct (poll_pit_value (Z.to_nat MAX_LOOPS) polls 0) as (H1 & H2 & H3);
    [unfold MAX_LOOPS; lia..|]. set (n := poll_pit _ _ _) in *. unfold calibrated.
  destruct (Z.ltb_spec n MAX_LOOPS); [|by left]. destruct (Z.gtb_spec end_tsc start_tsc); [|by left].
  right. cbn [andb]. split_and!; [lia|change (1000 / CALIBRATION_MS) with 100; lia|].
  exists n. split_and!; [lia..|by apply H3|done].
Qed.
