(* ===== verification/Latency.v ===== *)
(** Latency measurement (kernel/src/latency.rs): the event log, the samples of
    the pipeline stages with their statistics, and the timeline of the report.
    Printing is left out: a report is the list of the values it prints. *)

From Stdlib Require Import Sorting.Permutation.
From stdpp Require Import sorting.
From S2P Require Import Prelude Tsc.
Local Open Scope Z_scope.

Definition EVENT_INPUT_TRIGGER : Z := 0.
Definition EVENT_NET_SENT : Z := 6.
Definition EVENT_LOOP_ITER_START : Z := 7.
Definition EVENT_LOOP_ITER_END : Z := 8.
Definition MAX_EVENTS : Z := 16.
Definition NUM_PIPELINE_STAGES : Z := 7.
Definition STATS_SAMPLE_COUNT : Z := 1000.

Record LatencyRecord : Set := mkRecord { tsc : Z; core_id : Z; event_id : Z; valid : bool }.

Definition record_new : LatencyRecord := mkRecord 0 0 0 false.
Definition record_store (tsc core_id event_id : Z) : LatencyRecord := mkRecord tsc core_id event_id true.

Definition event_log : Type := list LatencyRecord.
Definition event_log_new : event_log := replicate (Z.to_nat MAX_EVENTS) record_new.

(** [tsc] and [core_id] are the readings of the counter and of the local APIC. *)
Definition latency_mark (tsc core_id : Z) (log : event_log) (event_id : Z) : event_log :=
  setZ log (event_id mod MAX_EVENTS) (record_store tsc core_id event_id).

(** The budget of a stage in microseconds. *)
Definition get_stage_info (stage : Z) : Z :=
  if stage =? 0 then 50 else if stage =? 1 then 100 else if stage =? 2 then 150
  else if stage =? 3 then 1700 else if stage =? 4 then 2500 else if stage =? 5 then 500
  else if stage =? 6 then 5000 else 0.

(** ** Quicksort *)

(** [arr.swap(i, j)] for indices in range. *)
Definition swap (l : list Z) (i j : Z) : list Z :=
  match getZ l i, getZ l j with
  | Some a, Some b => setZ (setZ l i b) j a
  | _, _ => l
  end.

(** The body of [for j in 0..len - 1]: the array and [i]. *)
Definition partition_step (pivot : Z) (s : list Z * Z) (j : Z) : list Z * Z :=
  let '(arr, i) := s in
  if default 0 (getZ arr j) <=? pivot then (swap arr i j, i + 1) else (arr, i).

Definition partition (arr : list Z) : list Z * Z :=
  let n := len arr in
  let pivot := default 0 (getZ arr (n - 1)) in
  let '(arr, i) := foldl (partition_step pivot) (arr, 0) (seqZ 0 (n - 1)) in
  (swap arr i (n - 1), i).

(** The recursion on the two sides of the pivot, in place; a slice is the part
    of the list. [fuel] bounds the depth. *)
Fixpoint quicksort_u32 (fuel : nat) (arr : list Z) : list Z :=
  match fuel with
  | O => arr
  | S fuel =>
    if len arr <=? 1 then arr
    else
      let '(arr, pivot_idx) := partition arr in
      let arr := splice arr 0 (quicksort_u32 fuel (sub arr 0 pivot_idx)) in
      splice arr (pivot_idx + 1) (quicksort_u32 fuel (sub arr (pivot_idx + 1) (len arr)))
  end.

(** The comparisons [arr[j] <= pivot] it makes, with the same recursion. *)
Fixpoint quicksort_compares (fuel : nat) (arr : list Z) : Z :=
  match fuel with
  | O => 0
  | S fuel =>
    if len arr <=? 1 then 0
    else
      let '(arr, pivot_idx) := partition arr in
      (len arr - 1) + quicksort_compares fuel (sub arr 0 pivot_idx)
      + quicksort_compares fuel (sub arr (pivot_idx + 1) (len arr))
  end.

(** ** Statistics *)

Definition samples : Type := list (list Z).
Definition samples_new : samples :=
  replicate (Z.to_nat NUM_PIPELINE_STAGES) (replicate (Z.to_nat STATS_SAMPLE_COUNT) 0).

Definition record_stage_sample (ss : samples) (stage_idx sample_idx val_ns : Z) : samples :=
  if (stage_idx <? NUM_PIPELINE_STAGES) && (sample_idx <? STATS_SAMPLE_COUNT) then
    match getZ ss stage_idx with
    | Some row => setZ ss stage_idx (setZ row sample_idx val_ns)
    | None => ss
    end
  else ss.

Record StageStats : Set := mkStats {
  mean_us : Z; p50_us : Z; p95_us : Z; p99_us : Z; max_us : Z; min_us : Z }.

Definition nth0 (l : list Z) (i : Z) : Z := default 0 (getZ l i).

Definition sum_u64 (l : list Z) : Z := foldl (fun sum val => as_u64 (sum + val)) 0 l.

(** [None]: the index of the stage is out of range, which panics. *)
Definition compute_stage_stats (ss : samples) (stage_idx : Z) : option StageStats :=
  row ← getZ ss stage_idx;
  let sorted := quicksort_u32 (length row) row in
  let sum := sum_u64 sorted in
  let mean_ns := as_u32 (sum / STATS_SAMPLE_COUNT) in
  let p50_ns := nth0 sorted (STATS_SAMPLE_COUNT * 50 / 100) in
  let p95_ns := nth0 sorted (STATS_SAMPLE_COUNT * 95 / 100) in
  let p99_ns := nth0 sorted (STATS_SAMPLE_COUNT * 99 / 100) in
  let min_ns := nth0 sorted 0 in
  let max_ns := nth0 sorted (STATS_SAMPLE_COUNT - 1) in
  Some (mkStats (mean_ns / 1000) (p50_ns / 1000) (p95_ns / 1000) (p99_ns / 1000)
                (max_ns / 1000) (min_ns / 1000)).

Inductive status := PASS | PASS_p99 | EXCEEDED.

Definition stage_status (budget_us : Z) (stats : StageStats) : status :=
  if max_us stats <=? budget_us then PASS
  else if p99_us stats <=? budget_us then PASS_p99 else EXCEEDED.

(** ** The timeline of [latency_report]: event, core, time and difference. *)

Definition saturating_sub (a b : Z) : Z := Z.max 0 (a - b).

Definition timeline_step (log : event_log) (base_tsc freq_hz : Z)
    (s : option Z * list (Z * Z * Z * Z)) (event : Z) : option Z * list (Z * Z * Z * Z) :=
  let '(prev_ns, rows) := s in
  let record := default record_new (getZ log event) in
  if valid record then
    let rel_tsc := saturating_sub (tsc record) base_tsc in
    let time_ns := tsc_to_ns rel_tsc freq_hz in
    let delta_ns := match prev_ns with Some p => saturating_sub time_ns p | None => 0 end in
    (Some time_ns, rows ++ [(event, core_id record, time_ns, delta_ns)])
  else (prev_ns, rows).

Definition latency_report (log : event_log) (freq_hz : Z) : list (Z * Z * Z * Z) :=
  let base_event := default record_new (getZ log EVENT_INPUT_TRIGGER) in
  let base_tsc := if valid base_event then tsc base_event else 0 in
  snd (foldl (timeline_step log base_tsc freq_hz) (None, []) (seqZ 0 (EVENT_NET_SENT + 1))).

(** The cost of one of the 10,000 turns of the loop benchmark, in nanoseconds
    and cycles. *)
Definition loop_cost (log : event_log) (freq_hz : Z) : option (Z * Z) :=
  let loop_start := default record_new (getZ log EVENT_LOOP_ITER_START) in
  let loop_end := default record_new (getZ log EVENT_LOOP_ITER_END) in
  if valid loop_start && valid loop_end && (tsc loop_end >? tsc loop_start) then
    let loop_cycles := tsc loop_end - tsc loop_start in
    Some (tsc_to_ns loop_cycles freq_hz / 10000, loop_cycles / 10000)
  else None.

Example quicksort_example : quicksort_u32 6 [5; 3; 9; 1; 3; 7] = [1; 3; 3; 5; 7; 9].
Proof. vm_compute. reflexivity. Qed.

Example quicksort_equal : quicksort_compares 10 (replicate 10 0) = 45.
Proof. vm_compute. reflexivity. Qed.

(** * Quicksort sorts *)

Lemma getZ_mid {A} (l k : list A) x : getZ (l ++ x :: k) (len l) = Some x.
Proof. rewrite getZ_app_r by lia. by rewrite Z.sub_diag, getZ_cons_0. Qed.

Lemma splice_mid {A} (l k s : list A) t : length s = length t -> splice (l ++ s ++ k) (len l) t = l ++ t ++ k.
Proof.
  intros H. unfold splice, len. rewrite Nat2Z.id, take_app_length. do 2 f_equal.
  rewrite app_assoc, <-H. apply drop_app_length'. by rewrite length_app.
Qed.

Lemma setZ_mid {A} (l k : list A) x y : setZ (l ++ x :: k) (len l) y = l ++ y :: k.
Proof.
  rewrite setZ_splice; [|rewrite len_app, len_cons; pose proof (len_nonneg l); pose proof (len_nonneg k); lia].
  by apply (splice_mid l k [x] [y]).
Qed.

Lemma swap_mid A b B c C :
  swap (A ++ b :: B ++ c :: C) (len A) (len A + 1 + len B) = A ++ c :: B ++ b :: C.
Proof.
  unfold swap. rewrite getZ_mid.
  assert (E : forall x, A ++ x :: B ++ c :: C = (A ++ x :: B) ++ c :: C) by (intros; by rewrite <-app_assoc).
  assert (L : forall x, len A + 1 + len B = len (A ++ x :: B)) by (intros; rewrite len_app, len_cons; lia).
  rewrite (E b) at 1. rewrite (L b) at 1. rewrite getZ_mid, setZ_mid, (E c), (L c), setZ_mid.
  by rewrite <-app_assoc.
Qed.

Lemma swap_same l i : swap l i i = l.
Proof.
  unfold swap. destruct (getZ l i) as [x|] eqn:H; [|done]. apply list_eq_getZ; [by rewrite !len_setZ|].
  intros k. pose proof (getZ_Some_lt _ _ _ H). destruct (Z.eq_dec k i) as [->|].
  - rewrite getZ_setZ_eq by (rewrite len_setZ; lia). done.
  - by rewrite !getZ_setZ_ne by congruence.
Qed.

Lemma seqZ_cons_len {A} (c : A) C j : seqZ j (len (c :: C)) = j :: seqZ (j + 1) (len C).
Proof. rewrite len_cons. pose proof (len_nonneg C). rewrite seqZ_cons by lia. do 2 f_equal; lia. Qed.

Definition low (p : Z) (l : list Z) : Prop := Forall (fun x => x <= p) l.
Definition high (p : Z) (l : list Z) : Prop := Forall (fun x => p < x) l.

(** The loop keeps the scanned part as low elements followed by high ones. *)
Lemma partition_loop p C : forall A B, low p A -> high p B ->
  exists A' B', low p A' /\ high p B' /\ A' ++ B' ≡ₚ A ++ B ++ C /\
    foldl (partition_step p) (A ++ B ++ C ++ [p], len A) (seqZ (len A + len B) (len C)) =
    (A' ++ B' ++ [p], len A').
Proof.
  induction C as [|c C IH]; intros A B HA HB.
  { exists A, B. rewrite app_nil_r. done. }
  rewrite seqZ_cons_len. cbn [foldl]. unfold partition_step at 2.
  assert (E : getZ (A ++ B ++ (c :: C) ++ [p]) (len A + len B) = Some c).
  { rewrite <-len_app, app_assoc. apply getZ_mid. }
  rewrite E. cbn [default from_option]. unfold id. destruct (Z.leb_spec c p) as [Hc|Hc].
  - assert (Es : exists B', swap (A ++ B ++ (c :: C) ++ [p]) (len A) (len A + len B) =
                   (A ++ [c]) ++ B' ++ C ++ [p] /\ B ≡ₚ B').
    { destruct B as [|b B].
      - exists []. change (len []) with 0. rewrite Z.add_0_r, swap_same. by rewrite <-app_assoc.
      - exists (B ++ [b]). rewrite len_cons, Z.add_assoc. rewrite <-app_comm_cons. cbn [app].
        rewrite swap_mid. split; [by rewrite <-!app_assoc|]. apply Permutation_cons_append. }
    destruct Es as (B' & -> & HP).
    assert (LB : len B' = len B) by (unfold len; by rewrite HP).
    destruct (IH (A ++ [c]) B') as (A2 & B2 & H1 & H2 & H3 & H4).
    { apply Forall_app_2; [done|]. by constructor. }
    { unfold high. by rewrite <-HP. }
    exists A2, B2. split_and!; [done|done| |].
    + rewrite H3, <-HP, <-app_assoc. apply Permutation_app_head. cbn [app]. apply Permutation_middle.
    + rewrite <-H4, len_app, LB. change (len [c]) with 1.
      replace (len A + 1 + len B) with (len A + len B + 1) by lia. done.
  - destruct (IH A (B ++ [c])) as (A2 & B2 & H1 & H2 & H3 & H4); [done| |].
    { apply Forall_app_2; [done|]. by constructor. }
    exists A2, B2. split_and!; [done|done| |].
    + rewrite H3. by rewrite <-!app_assoc.
    + rewrite <-H4, len_app, <-!app_assoc. change (len [c]) with 1. by rewrite Z.add_assoc.
Qed.

(** The pivot ends between the elements up to it and those above it. *)
Lemma partition_spec arr : arr <> [] ->
  exists A p B, partition arr = (A ++ p :: B, len A) /\ low p A /\ high p B /\ arr ≡ₚ A ++ p :: B.
Proof.
  intros Hne. destruct (exists_last Hne) as (C & p & ->). unfold partition.
  assert (L : len (C ++ [p]) - 1 = len C) by (rewrite len_app; change (len [p]) with 1; lia).
  rewrite L, getZ_mid. cbn [default from_option]. unfold id.
  destruct (partition_loop p C [] []) as (A & B & HA & HB & HP & E); [constructor..|].
  cbn [app] in E. change (len [] + len []) with 0 in E. change (len []) with 0 in E. rewrite E.
  assert (LC : len C = len A + len B).
  { rewrite <-len_app. unfold len. by rewrite HP. }
  rewrite LC. destruct B as [|b B].
  - exists A, p, []. change (len []) with 0. rewrite Z.add_0_r, swap_same. split_and!; try done.
    cbn [app] in HP. rewrite app_nil_r in HP. by rewrite HP.
  - exists A, p, (B ++ [b]). rewrite len_cons, Z.add_assoc, <-app_comm_cons, swap_mid.
    split_and!; [done|done| |].
    + inversion HB; subst. apply Forall_app_2; [done|]. by constructor.
    + cbn [app] in HP. rewrite <-HP, <-app_assoc. apply Permutation_app_head.
      rewrite <-app_comm_cons. rewrite <-(Permutation_cons_append B b).
      rewrite (Permutation_cons_append (b :: B) p). done.
Qed.

Lemma sub_mid (A B : list Z) p :
  sub (A ++ p :: B) 0 (len A) = A /\ sub (A ++ p :: B) (len A + 1) (len (A ++ p :: B)) = B.
Proof.
  unfold sub. rewrite len_app, len_cons. unfold len. split.
  - rewrite drop_0. replace (Z.to_nat (Z.of_nat (length A) - 0)) with (length A) by lia.
    apply take_app_length.
  - replace (Z.to_nat (Z.of_nat (length A) + 1)) with (length (A ++ [p])) by (rewrite length_app; simpl; lia).
    change (A ++ p :: B) with (A ++ [p] ++ B). rewrite app_assoc, drop_app_length. apply take_ge. lia.
Qed.

(** The recursion on an array that [partition] has split. *)
Lemma quicksort_unfold fuel arr A p B :
  1 < len arr -> partition arr = (A ++ p :: B, len A) ->
  length (quicksort_u32 fuel A) = length A -> length (quicksort_u32 fuel B) = length B ->
  quicksort_u32 (S fuel) arr = quicksort_u32 fuel A ++ p :: quicksort_u32 fuel B.
Proof.
  intros Hn E LA LB. cbn [quicksort_u32]. destruct (Z.leb_spec (len arr) 1); [lia|]. rewrite E.
  destruct (sub_mid A B p) as [EA EB]. rewrite EA.
  pose proof (splice_mid [] (p :: B) A (quicksort_u32 fuel A) (eq_sym LA)) as S1.
  change (len (@nil Z)) with 0 in S1. cbn [app] in S1. rewrite S1.
  assert (LQ : len (quicksort_u32 fuel A) = len A) by (unfold len; by rewrite LA).
  destruct (sub_mid (quicksort_u32 fuel A) B p) as [_ EB']. rewrite LQ in EB'. rewrite EB'.
  pose proof (splice_mid (quicksort_u32 fuel A ++ [p]) [] B (quicksort_u32 fuel B) (eq_sym LB)) as S2.
  rewrite len_app, LQ, !app_nil_r, <-!app_assoc in S2. exact S2.
Qed.

Lemma Sorted_app_le A p B : low p A -> high p B -> StronglySorted Z.le A -> StronglySorted Z.le B ->
  StronglySorted Z.le (A ++ p :: B).
Proof.
  intros HA HB SA SB. apply StronglySorted_app. split_and!; [|done|].
  - intros x y Hx Hy. unfold low, high in *. rewrite !Forall_forall in *. specialize (HA x Hx).
    apply elem_of_cons in Hy as [->|Hy]; [done|]. specialize (HB y Hy). lia.
  - constructor; [done|]. eapply Forall_impl; [exact HB|]. simpl. lia.
Qed.

Lemma quicksort_correct fuel arr : (length arr <= fuel)%nat ->
  quicksort_u32 fuel arr ≡ₚ arr /\ StronglySorted Z.le (quicksort_u32 fuel arr).
Proof.
  revert arr. induction fuel as [|fuel IH]; intros arr H.
  { destruct arr; [|simpl in H; lia]. split; [done|constructor]. }
  destruct (Z.leb_spec (len arr) 1) as [Hs|Hn].
  - cbn [quicksort_u32]. destruct (Z.leb_spec (len arr) 1); [|lia]. split; [done|].
    destruct arr as [|x [|y arr]]; [constructor|repeat constructor|].
    rewrite !len_cons in Hs. pose proof (len_nonneg arr). lia.
  - destruct (partition_spec arr) as (A & p & B & E & HA & HB & HP); [by intros ->|].
    pose proof (Permutation_length HP) as L. rewrite length_app in L. cbn [length] in L.
    destruct (IH A) as [PA SA]; [lia|]. destruct (IH B) as [PB SB]; [lia|].
    rewrite (quicksort_unfold fuel arr A p B Hn E) by (by apply Permutation_length). split.
    + by rewrite PA, PB, HP.
    + apply Sorted_app_le; [unfold low; by rewrite PA|unfold high; by rewrite PB|done|done].
Qed.

(** ** Its cost *)

Definition pairs (n : Z) : Z := n * (n - 1) / 2.

Lemma pairs_double n : 2 * pairs n = n * (n - 1).
Proof.
  unfold pairs. pose proof (Z.mul_div_le (n * (n - 1)) 2 ltac:(lia)).
  assert (E : (n * (n - 1)) mod 2 = 0).
  { rewrite Zmult_mod, Zminus_mod. destruct (Z.mod_pos_bound n 2 ltac:(lia)) as [H1 H2].
    assert (n mod 2 = 0 \/ n mod 2 = 1) as [->| ->] by lia; reflexivity. }
  rewrite (Z.div_mod (n * (n - 1)) 2) at 2 by lia. lia.
Qed.

Lemma compares_unfold fuel arr A p B :
  1 < len arr -> partition arr = (A ++ p :: B, len A) -> len arr = len A + 1 + len B ->
  quicksort_compares (S fuel) arr =
  len A + len B + quicksort_compares fuel A + quicksort_compares fuel B.
Proof.
  intros Hn E L. cbn [quicksort_compares]. destruct (Z.leb_spec (len arr) 1); [lia|]. rewrite E.
  destruct (sub_mid A B p) as [-> ->]. rewrite len_app, len_cons. lia.
Qed.

Lemma partition_len (arr A : list Z) p (B : list Z) : arr ≡ₚ A ++ p :: B -> len arr = len A + 1 + len B.
Proof. intros H%Permutation_length. rewrite length_app in H. simpl in H. unfold len. lia. Qed.

Lemma compares_bound fuel arr : 0 <= quicksort_compares fuel arr <= pairs (len arr).
Proof.
  revert arr. induction fuel as [|fuel IH]; intros arr; cbn [quicksort_compares].
  { pose proof (pairs_double (len arr)). pose proof (len_nonneg arr). nia. }
  destruct (Z.leb_spec (len arr) 1) as [|Hn].
  { pose proof (pairs_double (len arr)). pose proof (len_nonneg arr). nia. }
  destruct (partition_spec arr) as (A & p & B & E & _ & _ & HP); [by intros ->|].
  pose proof (partition_len _ _ _ _ HP) as L. pose proof (compares_unfold fuel arr A p B Hn E L) as U.
  cbn [quicksort_compares] in U. destruct (Z.leb_spec (len arr) 1); [lia|]. rewrite U.
  destruct (IH A), (IH B). pose proof (pairs_double (len arr)). pose proof (pairs_double (len A)).
  pose proof (pairs_double (len B)). pose proof (len_nonneg A). pose proof (len_nonneg B).
  rewrite L in *. nia.
Qed.

(** Equal elements all go to the low side. *)
Lemma compares_constant fuel n c : (n <= fuel)%nat ->
  quicksort_compares fuel (replicate n c) = pairs (Z.of_nat n).
Proof.
  revert n. induction fuel as [|fuel IH]; intros n Hf.
  { by replace n with O by lia. }
  destruct (decide (n <= 1)%nat).
  { destruct n as [|[|]]; [done|done|lia]. }
  destruct (partition_spec (replicate n c)) as (A & p & B & E & HA & HB & HP).
  { destruct n; [lia|done]. }
  assert (HC : Forall (eq c) (A ++ p :: B)).
  { rewrite <-HP. apply Forall_replicate. done. }
  apply Forall_app in HC as [CA CB]. inversion CB as [|? ? Ec CB']; rewrite <-Ec in *; clear CB Ec p.
  assert (B = []) as ->.
  { destruct B as [|b B]; [done|]. inversion CB'; subst. inversion HB; subst. lia. }
  pose proof (partition_len _ _ _ _ HP) as L. rewrite len_replicate in L. change (len (@nil Z)) with 0 in L.
  assert (A = replicate (n - 1) c) as EA.
  { symmetry. apply replicate_as_Forall_2; [unfold len in L; lia|done]. }
  assert (Hn : 1 < len (replicate n c)) by (rewrite len_replicate; lia).
  rewrite (compares_unfold fuel _ A c [] Hn E) by (rewrite len_replicate; done).
  subst A. rewrite IH, len_replicate by lia.
  assert (E0 : quicksort_compares fuel [] = 0) by (by destruct fuel). rewrite E0.
  change (len (@nil Z)) with 0. pose proof (pairs_double (Z.of_nat n)).
  pose proof (pairs_double (Z.of_nat (n - 1))).
  replace (Z.of_nat (n - 1)) with (Z.of_nat n - 1) in * by lia. lia.
Qed.

(** * Statistics *)

Lemma quicksort_merge_sort arr : quicksort_u32 (length arr) arr = merge_sort Z.le arr.
Proof.
  destruct (quicksort_correct (length arr) arr) as [HP HS]; [done|].
  apply (StronglySorted_unique Z.le); [done|apply (StronglySorted_merge_sort Z.le)|].
  by rewrite HP, merge_sort_Permutation.
Qed.

Lemma sorted_get l i j x y : StronglySorted Z.le l -> i <= j ->
  getZ l i = Some x -> getZ l j = Some y -> x <= y.
Proof.
  intros S. revert i j. induction S as [|z l S IH F]; intros i j Hij Hx Hy.
  { apply getZ_Some_lt in Hx. change (len (@nil Z)) with 0 in Hx. lia. }
  pose proof (getZ_Some_lt _ _ _ Hx). pose proof (getZ_Some_lt _ _ _ Hy).
  destruct (Z.eq_dec i 0) as [->|Hi].
  - rewrite getZ_cons_0 in Hx. injection Hx as <-. destruct (Z.eq_dec j 0) as [->|Hj].
    + rewrite getZ_cons_0 in Hy. injection Hy as <-. done.
    + change (z :: l) with ([z] ++ l) in Hy. rewrite getZ_app_r in Hy by (change (len [z]) with 1; lia).
      apply (Forall_getZ _ _ _ _ F Hy).
  - change (z :: l) with ([z] ++ l) in Hx, Hy.
    rewrite getZ_app_r in Hx, Hy by (change (len [z]) with 1; lia).
    by apply (IH (i - len [z]) (j - len [z])); [lia|..].
Qed.

(** How many samples are at most [b]. *)
Definition count_le (b : Z) (l : list Z) : Z := len (filter (fun x => x <= b) l).

Lemma count_le_perm b l k : l ≡ₚ k -> count_le b l = count_le b k.
Proof. intros H. unfold count_le, len. by rewrite H. Qed.

Lemma count_le_all b l : Forall (fun x => x <= b) l -> count_le b l = len l.
Proof.
  unfold count_le. induction 1 as [|x l Hx Hl IH]; [done|].
  rewrite filter_cons_True by done. by rewrite !len_cons, IH.
Qed.

(** At least [i + 1] elements are at most the one at index [i]. *)
Lemma count_le_rank l i x : StronglySorted Z.le l -> getZ l i = Some x -> i + 1 <= count_le x l.
Proof.
  intros S Hx. pose proof (getZ_Some_lt _ _ _ Hx) as Hi.
  assert (F : Forall (fun y => y <= x) (sub l 0 (i + 1))).
  { apply Forall_forall. intros y Hy. apply list_elem_of_lookup in Hy as [k Hk].
    assert (G : getZ (sub l 0 (i + 1)) (Z.of_nat k) = Some y).
    { unfold getZ. rewrite decide_True by lia. by rewrite Nat2Z.id. }
    pose proof (getZ_Some_lt _ _ _ G) as R. rewrite len_sub in R by lia.
    rewrite getZ_sub in G by lia. apply (sorted_get l (0 + Z.of_nat k) i); [done|lia|done|done]. }
  rewrite <-(sub_all l (len l)) by done.
  rewrite <-(sub_app l 0 (i + 1) (len l)) by lia.
  unfold count_le. rewrite filter_app, len_app. fold (count_le x (sub l 0 (i + 1))).
  rewrite count_le_all by done. rewrite len_sub by lia. pose proof (len_nonneg (filter (fun y => y <= x) (sub l (i + 1) (len l)))). lia.
Qed.

Lemma sum_u64_value l acc : Forall in_u32 l -> 0 <= acc -> acc + 2 ^ 32 * len l < 2 ^ 64 ->
  foldl (fun sum val => as_u64 (sum + val)) acc l = acc + foldr Z.add 0 l.
Proof.
  intros H. revert acc. induction H as [|x l Hx Hl IH]; intros acc Ha Hb; cbn [foldl foldr]; [lia|].
  rewrite len_cons in Hb. pose proof (len_nonneg l). unfold in_u32 in Hx.
  assert (E : as_u64 (acc + x) = acc + x) by (apply wrapU_small; lia).
  rewrite E, IH by lia. lia.
Qed.

Lemma sum_bounds l lo hi : Forall (fun x => lo <= x <= hi) l -> lo * len l <= foldr Z.add 0 l <= hi * len l.
Proof.
  induction 1 as [|x l Hx Hl IH]; cbn [foldr]; [change (len (@nil Z)) with 0; lia|].
  rewrite len_cons. lia.
Qed.

Lemma sum_perm l k : l ≡ₚ k -> foldr Z.add 0 l = foldr Z.add 0 k.
Proof. induction 1; cbn [foldr]; lia. Qed.

(** What is computed of a row of samples, as a function of the sorted row. *)
Lemma stats_value ss stage row : getZ ss stage = Some row -> len row = 1000 -> Forall in_u32 row ->
  let s := merge_sort Z.le row in
  compute_stage_stats ss stage = Some (mkStats (foldr Z.add 0 row / 1000 / 1000)
    (nth0 s 500 / 1000) (nth0 s 950 / 1000) (nth0 s 990 / 1000) (nth0 s 999 / 1000) (nth0 s 0 / 1000)).
Proof.
  intros Hr L HU s. unfold compute_stage_stats. rewrite Hr. cbn [mbind option_bind].
  rewrite quicksort_merge_sort. fold s.
  assert (HP : s ≡ₚ row) by apply merge_sort_Permutation.
  assert (Es : sum_u64 s = foldr Z.add 0 row).
  { unfold sum_u64. rewrite sum_u64_value; [by rewrite (sum_perm s row)|by rewrite HP|lia|].
    assert (len s = len row) as -> by (unfold len; by rewrite HP). lia. }
  rewrite Es. change STATS_SAMPLE_COUNT with 1000.
  assert (Em : as_u32 (foldr Z.add 0 row / 1000) = foldr Z.add 0 row / 1000).
  { apply wrapU_small. destruct (sum_bounds row 0 (2 ^ 32 - 1)) as [B1 B2].
    { eapply Forall_impl; [exact HU|]. unfold in_u32. lia. }
    rewrite L in *. split; [apply Z.div_pos; lia|apply Z.div_lt_upper_bound; lia]. }
  rewrite Em. reflexivity.
Qed.

Lemma nth0_get (l : list Z) i : 0 <= i < len l -> getZ l i = Some (nth0 l i).
Proof. intros H. unfold nth0. by destruct (getZ_lt_Some l i H) as [x ->]. Qed.

Lemma us_count b l : count_le (b * 1000 + 999) l = count_le b (map (fun x => x / 1000) l).
Proof.
  unfold count_le. induction l as [|x l IH]; [done|]. cbn [map]. rewrite !filter_cons.
  assert (E : x <= b * 1000 + 999 <-> x / 1000 <= b) by (Z.to_euclidean_division_equations; lia).
  repeat case_decide; rewrite ?len_cons, ?IH; (done || tauto).
Qed.

Lemma count_le_mono a b l : a <= b -> count_le a l <= count_le b l.
Proof.
  intros H. unfold count_le. induction l as [|x l IH]; [done|]. rewrite !filter_cons.
  repeat case_decide; rewrite ?len_cons; lia.
Qed.

(** The in-place quicksort sorts every array: the result is the sorted
    permutation of it, and the recursion is no deeper than the length (more fuel
    changes nothing). It makes at most n(n-1)/2 comparisons, and makes that many
    on an array of equal samples, such as the zeros a stage starts with: 499,500
    for 1000 samples. *)
Theorem quicksort_sorts arr extra :
  let s := quicksort_u32 (length arr + extra) arr in
  s = merge_sort Z.le arr /\ s ≡ₚ arr /\ StronglySorted Z.le s /\
  0 <= quicksort_compares (length arr + extra) arr <= len arr * (len arr - 1) / 2 /\
  (forall n c, quicksort_compares n (replicate n c) = Z.of_nat n * (Z.of_nat n - 1) / 2).
Proof.
  intros s. destruct (quicksort_correct (length arr + extra) arr) as [HP HS]; [lia|].
  split_and!; [|done|done|apply compares_bound..|].
  - rewrite <-quicksort_merge_sort. destruct (quicksort_correct (length arr) arr) as [HP' HS']; [lia|].
    apply (StronglySorted_unique Z.le); [done|done|]. by rewrite HP', <-HP.
  - intros n c. by apply compares_constant.
Qed.

(** For a stage with 1000 samples the statistics are what their names say, in
    whole microseconds: they are ordered, minimum and maximum are attained and
    bound every sample, the mean lies between them and nothing overflows, and at
    least 501, 951 and 991 of the samples are within the three percentiles. So
    the report's PASS means that every sample is within the budget and
    PASS (p99) that at least 991 of them are. *)
Theorem stage_stats_meaning ss stage row budget :
  getZ ss stage = Some row -> len row = 1000 -> Forall in_u32 row ->
  let us := map (fun x => x / 1000) row in
  exists st, compute_stage_stats ss stage = Some st /\
    mean_us st = foldr Z.add 0 row / 1000 / 1000 /\
    min_us st <= p50_us st <= p95_us st /\ p95_us st <= p99_us st <= max_us st /\
    min_us st <= mean_us st <= max_us st /\
    min_us st ∈ us /\ max_us st ∈ us /\ Forall (fun x => min_us st <= x <= max_us st) us /\
    501 <= count_le (p50_us st) us /\ 951 <= count_le (p95_us st) us /\ 991 <= count_le (p99_us st) us /\
    (stage_status budget st = PASS <-> Forall (fun x => x <= budget) us) /\
    (stage_status budget st = PASS_p99 -> 991 <= count_le budget us).
Proof.
  intros Hr L HU us. rewrite (stats_value ss stage row) by done. eexists; split; [reflexivity|].
  cbn [mean_us p50_us p95_us p99_us max_us min_us]. set (s := merge_sort Z.le row).
  assert (HP : s ≡ₚ row) by apply merge_sort_Permutation.
  assert (HS : StronglySorted Z.le s) by apply (StronglySorted_merge_sort Z.le).
  assert (Ls : len s = 1000) by (unfold len in *; by rewrite HP).
  assert (G : forall i, 0 <= i < 1000 -> getZ s i = Some (nth0 s i)) by (intros; apply nth0_get; lia).
  assert (M : forall i j, 0 <= i -> i <= j -> j < 1000 -> nth0 s i / 1000 <= nth0 s j / 1000).
  { intros i j H1 H2 H3. apply Z.div_le_mono; [lia|]. by apply (sorted_get s i j); [| |apply G; lia..]. }
  assert (Mem : forall i, 0 <= i < 1000 -> nth0 s i / 1000 ∈ us).
  { intros i Hi. apply list_elem_of_fmap. exists (nth0 s i). split; [done|]. rewrite <-HP.
    apply (list_elem_of_lookup_2 s (Z.to_nat i)). pose proof (G i Hi) as E. unfold getZ in E.
    by rewrite decide_True in E by lia. }
  assert (C : forall i, 0 <= i < 1000 -> i + 1 <= count_le (nth0 s i / 1000) us).
  { intros i Hi. subst us. rewrite <-us_count. rewrite <-(count_le_perm _ s row HP).
    pose proof (count_le_rank s i _ HS (G i Hi)).
    enough (count_le (nth0 s i) s <= count_le (nth0 s i / 1000 * 1000 + 999) s) by lia.
    apply count_le_mono. Z.to_euclidean_division_equations; lia. }
  assert (All : Forall (fun x => nth0 s 0 <= x <= nth0 s 999) row).
  { rewrite <-HP. apply Forall_forall. intros x Hx. apply list_elem_of_lookup in Hx as [k Hk].
    assert (E : getZ s (Z.of_nat k) = Some x) by (unfold getZ; rewrite decide_True by lia; by rewrite Nat2Z.id).
    pose proof (getZ_Some_lt _ _ _ E). split.
    - apply (sorted_get s 0 (Z.of_nat k)); [done|lia|apply G; lia|done].
    - apply (sorted_get s (Z.of_nat k) 999); [done|lia|done|apply G; lia]. }
  assert (AllUs : Forall (fun x => nth0 s 0 / 1000 <= x <= nth0 s 999 / 1000) us).
  { subst us. apply Forall_map. eapply Forall_impl; [exact All|]. simpl. intros x [H1 H2].
    split; apply Z.div_le_mono; lia. }
  split_and!; try done; try (apply M; lia); try (apply Mem; lia); try (apply C; lia).
  1,2: destruct (sum_bounds row _ _ All); rewrite L in *; apply Z.div_le_mono; [lia|];
    Z.to_euclidean_division_equations; lia.
  - apply (C 500). lia.
  - apply (C 950). lia.
  - apply (C 990). lia.
  - unfold stage_status. cbn [max_us p99_us]. destruct (Z.leb_spec (nth0 s 999 / 1000) budget) as [H|H].
    + split; [|done]. intros _. eapply Forall_impl; [exact AllUs|]. simpl. lia.
    + split; [by destruct (_ <=? _)|]. intros F. rewrite Forall_forall in F.
      specialize (F _ (Mem 999 ltac:(lia))). simpl in F. lia.
  - unfold stage_status. cbn [max_us p99_us]. destruct (_ <=? _); [done|].
    destruct (Z.leb_spec (nth0 s 990 / 1000) budget) as [H|H]; [|done]. intros _.
    pose proof (C 990 ltac:(lia)). pose proof (count_le_mono _ _ us H). lia.
Qed.

(** A stage with 1000 samples of 1.9 ms, over its budget of 1.7 ms. *)
Theorem stage_stats_meaning_witness :
  exists st, compute_stage_stats [replicate 1000 1900000] 0 = Some st /\ 991 <= count_le (p99_us st)
    (map (fun x => x / 1000) (replicate 1000 1900000)).
Proof.
  destruct (stage_stats_meaning [replicate 1000 1900000] 0 (replicate 1000 1900000) 1700)
    as (st & H & _ & _ & _ & _ & _ & _ & _ & _ & _ & H99 & _).
  - reflexivity.
  - reflexivity.
  - apply Forall_replicate. unfold in_u32. lia.
  - exists st. exact (conj H H99).
Defined.
