(* ===== verification/Nic.v ===== *)
(** The poll-mode driver of the e1000 network adapter (kernel/src/e1000.rs): the
    descriptor rings, transmission and reception. Registers are memory-mapped:
    the driver's writes are a log, what the adapter does to the rings in memory
    is an argument ([complete_tx], [arrive]). *)

From S2P Require Import Prelude RustStd.
Local Open Scope Z_scope.

Definition E1000_ICR : Z := 0xC0.
Definition E1000_IMC : Z := 0xD8.
Definition E1000_RCTL : Z := 0x100.
Definition E1000_TCTL : Z := 0x400.
Definition E1000_RDBAL : Z := 0x2800.
Definition E1000_RDBAH : Z := 0x2804.
Definition E1000_RDLEN : Z := 0x2808.
Definition E1000_RDH : Z := 0x2810.
Definition E1000_RDT : Z := 0x2818.
Definition E1000_TDBAL : Z := 0x3800.
Definition E1000_TDBAH : Z := 0x3804.
Definition E1000_TDLEN : Z := 0x3808.
Definition E1000_TDH : Z := 0x3810.
Definition E1000_TDT : Z := 0x3818.
Definition NUM_TX_DESCS : Z := 64.
Definition NUM_RX_DESCS : Z := 64.
Definition PACKET_BUFFER_SIZE : Z := 2048.

(** The fields the driver uses; the others stay 0. *)
Record TxDesc : Set := mkTx { tx_addr : Z; tx_length : Z; tx_cmd : Z; tx_status : Z }.
Record RxDesc : Set := mkRx { rx_addr : Z; rx_length : Z; rx_status : Z }.

Record nic : Set := mkNic {
  TX_DESCS : list TxDesc; TX_BUFFERS : list (list Z);
  RX_DESCS : list RxDesc; RX_BUFFERS : list (list Z);
  E1000_BAR0 : Z; E1000_TX_TAIL : Z; E1000_RX_TAIL : Z;
  E1000_MAC : list Z; E1000_INITIALIZED : bool;
  writes : list (Z * Z) (** register offset and value, oldest first *) }.

Definition packet_buffer : list Z := replicate (Z.to_nat PACKET_BUFFER_SIZE) 0.

Definition nic_static : nic := mkNic
  (replicate (Z.to_nat NUM_TX_DESCS) (mkTx 0 0 0 0)) (replicate (Z.to_nat NUM_TX_DESCS) packet_buffer)
  (replicate (Z.to_nat NUM_RX_DESCS) (mkRx 0 0 0)) (replicate (Z.to_nat NUM_RX_DESCS) packet_buffer)
  0 0 0 (replicate 6 0) false [].

Definition mmio_write32 (offset val : Z) (n : nic) : nic :=
  mkNic (TX_DESCS n) (TX_BUFFERS n) (RX_DESCS n) (RX_BUFFERS n) (E1000_BAR0 n) (E1000_TX_TAIL n)
    (E1000_RX_TAIL n) (E1000_MAC n) (E1000_INITIALIZED n) (writes n ++ [(offset, val)]).

Definition set_tx (descs : list TxDesc) (bufs : list (list Z)) (tail : Z) (n : nic) : nic :=
  mkNic descs bufs (RX_DESCS n) (RX_BUFFERS n) (E1000_BAR0 n) tail
    (E1000_RX_TAIL n) (E1000_MAC n) (E1000_INITIALIZED n) (writes n).
Definition set_rx (descs : list RxDesc) (tail : Z) (n : nic) : nic :=
  mkNic (TX_DESCS n) (TX_BUFFERS n) descs (RX_BUFFERS n) (E1000_BAR0 n) (E1000_TX_TAIL n)
    tail (E1000_MAC n) (E1000_INITIALIZED n) (writes n).
Definition set_device (bar0 : Z) (mac : list Z) (n : nic) : nic :=
  mkNic (TX_DESCS n) (TX_BUFFERS n) (RX_DESCS n) (RX_BUFFERS n) bar0 0 0 mac true (writes n).

(** The address of the adapter from its two registers, with the default. *)
Definition read_mac (ral rah : Z) : list Z :=
  let mac := [Z.land ral 0xFF; Z.land (Z.shiftr ral 8) 0xFF; Z.land (Z.shiftr ral 16) 0xFF;
              Z.land (Z.shiftr ral 24) 0xFF; Z.land rah 0xFF; Z.land (Z.shiftr rah 8) 0xFF] in
  if bool_decide (mac = replicate 6 0) || bool_decide (mac = replicate 6 0xFF)
  then [0x52; 0x54; 0x00; 0x12; 0x34; 0x56] else mac.

(** [tx_ring], [rx_ring] and the two functions are the addresses of the static
    rings and buffers, [ral] and [rah] the address registers. *)
Definition init_e1000 (tx_ring rx_ring : Z) (tx_buf rx_buf : Z -> Z) (ral rah bar0 : Z) (n : nic) : nic :=
  let w := mmio_write32 in
  let n := w E1000_IMC 0xFFFFFFFF n in
  let mac := read_mac ral rah in
  let tx := imap (fun i d => mkTx (tx_buf (Z.of_nat i)) (tx_length d) 0 1) (TX_DESCS n) in
  let n := set_tx tx (TX_BUFFERS n) (E1000_TX_TAIL n) n in
  let n := w E1000_TDBAL (Z.land tx_ring 0xFFFFFFFF) n in
  let n := w E1000_TDBAH (as_u32 (Z.shiftr tx_ring 32)) n in
  let n := w E1000_TDLEN (NUM_TX_DESCS * 16) n in
  let n := w E1000_TDH 0 n in
  let n := w E1000_TDT 0 n in
  let n := w E1000_TCTL (Z.lor (Z.lor (Z.lor (Z.shiftl 1 1) (Z.shiftl 1 3)) (Z.shiftl 15 4)) (Z.shiftl 64 12)) n in
  let rx := imap (fun i d => mkRx (rx_buf (Z.of_nat i)) (rx_length d) 0) (RX_DESCS n) in
  let n := set_rx rx (E1000_RX_TAIL n) n in
  let n := w E1000_RDBAL (Z.land rx_ring 0xFFFFFFFF) n in
  let n := w E1000_RDBAH (as_u32 (Z.shiftr rx_ring 32)) n in
  let n := w E1000_RDLEN (NUM_RX_DESCS * 16) n in
  let n := w E1000_RDH 0 n in
  let n := w E1000_RDT (NUM_RX_DESCS - 1) n in
  let n := w E1000_RCTL (Z.lor (Z.lor (Z.shiftl 1 1) (Z.shiftl 1 15)) (Z.shiftl 1 26)) n in
  set_device bar0 mac n.

(** [Ok(())] is [true]. *)
Definition send_packet (packet : list Z) (n : nic) : bool * nic :=
  if negb (E1000_INITIALIZED n) then (false, n)
  else if E1000_BAR0 n =? 0 then (false, n)
  else
    let idx := E1000_TX_TAIL n mod NUM_TX_DESCS in
    match getZ (TX_DESCS n) idx, getZ (TX_BUFFERS n) idx with
    | Some desc, Some buf =>
      if (Z.land (tx_status desc) 1 =? 0) && negb (tx_cmd desc =? 0) then (false, n)
      else
        let copy_len := Z.min (len packet) PACKET_BUFFER_SIZE in
        let buf := splice buf 0 (sub packet 0 copy_len) in
        let desc := mkTx (tx_addr desc) (as_u16 copy_len) 0xB 0 in
        let next_tail := (idx + 1) mod NUM_TX_DESCS in
        let n := set_tx (setZ (TX_DESCS n) idx desc) (setZ (TX_BUFFERS n) idx buf) next_tail n in
        (true, mmio_write32 E1000_TDT next_tail n)
    | _, _ => (false, n)
    end.

(** The length copied, and the buffer [out] after the call. *)
Definition poll_rx_packet (out : list Z) (n : nic) : option Z * list Z * nic :=
  if negb (E1000_INITIALIZED n) then (None, out, n)
  else if E1000_BAR0 n =? 0 then (None, out, n)
  else
    let idx := (E1000_RX_TAIL n + 1) mod NUM_RX_DESCS in
    match getZ (RX_DESCS n) idx, getZ (RX_BUFFERS n) idx with
    | Some desc, Some buf =>
      if Z.land (rx_status desc) 1 =? 0 then (None, out, n)
      else
        let copy_len := Z.min (rx_length desc) (len out) in
        let out := splice out 0 (sub buf 0 copy_len) in
        let n := set_rx (setZ (RX_DESCS n) idx (mkRx (rx_addr desc) (rx_length desc) 0)) idx n in
        (Some copy_len, out, mmio_write32 E1000_RDT idx n)
    | _, _ => (None, out, n)
    end.

(** * The adapter's side of the rings *)

(** The adapter has sent descriptor [i]: it sets Descriptor Done. *)
Definition complete_tx (i : Z) (n : nic) : nic :=
  match getZ (TX_DESCS n) i with
  | Some d => set_tx (setZ (TX_DESCS n) i (mkTx (tx_addr d) (tx_length d) (tx_cmd d) 1)) (TX_BUFFERS n)
                (E1000_TX_TAIL n) n
  | None => n
  end.

(** The adapter has put a frame into descriptor [i]. *)
Definition arrive (i : Z) (frame : list Z) (n : nic) : nic :=
  match getZ (RX_DESCS n) i, getZ (RX_BUFFERS n) i with
  | Some d, Some buf =>
    mkNic (TX_DESCS n) (TX_BUFFERS n) (setZ (RX_DESCS n) i (mkRx (rx_addr d) (len frame) 1))
      (setZ (RX_BUFFERS n) i (splice buf 0 frame)) (E1000_BAR0 n) (E1000_TX_TAIL n) (E1000_RX_TAIL n)
      (E1000_MAC n) (E1000_INITIALIZED n) (writes n)
  | _, _ => n
  end.

(** The last value written to a register. *)
Definition reg (off : Z) (n : nic) : option Z :=
  snd <$> last (filter (fun w => w.1 = off) (writes n)).

(** * Properties *)

Definition in_flight (n : nic) (i : Z) : bool :=
  match getZ (TX_DESCS n) i with
  | Some d => (Z.land (tx_status d) 1 =? 0) && negb (tx_cmd d =? 0)
  | None => false
  end.

Definition rings_ok (n : nic) : Prop :=
  len (TX_DESCS n) = NUM_TX_DESCS /\ len (TX_BUFFERS n) = NUM_TX_DESCS /\
  len (RX_DESCS n) = NUM_RX_DESCS /\ len (RX_BUFFERS n) = NUM_RX_DESCS /\
  Forall (fun b => len b = PACKET_BUFFER_SIZE) (TX_BUFFERS n) /\
  Forall (fun b => len b = PACKET_BUFFER_SIZE) (RX_BUFFERS n) /\
  E1000_INITIALIZED n = true /\ E1000_BAR0 n <> 0 /\
  0 <= E1000_TX_TAIL n < NUM_TX_DESCS /\ 0 <= E1000_RX_TAIL n < NUM_RX_DESCS.

(** What can happen to the rings: the driver's two operations and the adapter's. *)
Inductive nic_op : Type :=
| Send (packet : list Z)
| Complete (i : Z)
| Arrive (i : Z) (frame : list Z)
| Poll (out : list Z).

Definition run_op (op : nic_op) (n : nic) : nic :=
  match op with
  | Send packet => snd (send_packet packet n)
  | Complete i => complete_tx i n
  | Arrive i frame => arrive i frame n
  | Poll out => snd (poll_rx_packet out n)
  end.

(** The adapter stores no more than a buffer holds. *)
Definition op_ok (op : nic_op) : Prop :=
  match op with Arrive _ frame => len frame <= PACKET_BUFFER_SIZE | _ => True end.

Lemma rings_get (n : nic) i : rings_ok n -> 0 <= i < 64 ->
  exists td tb rd rb, getZ (TX_DESCS n) i = Some td /\ getZ (TX_BUFFERS n) i = Some tb /\
    getZ (RX_DESCS n) i = Some rd /\ getZ (RX_BUFFERS n) i = Some rb /\ len tb = 2048 /\ len rb = 2048.
Proof.
  intros (L1 & L2 & L3 & L4 & B1 & B2 & _) Hi.
  assert (Hi' : 0 <= i < NUM_TX_DESCS) by done. assert (Hi'' : 0 <= i < NUM_RX_DESCS) by done.
  destruct (getZ_lt_Some (TX_DESCS n) i) as [td ?]; [lia|].
  destruct (getZ_lt_Some (TX_BUFFERS n) i) as [tb ?]; [lia|].
  destruct (getZ_lt_Some (RX_DESCS n) i) as [rd ?]; [lia|].
  destruct (getZ_lt_Some (RX_BUFFERS n) i) as [rb ?]; [lia|].
  exists td, tb, rd, rb. split_and!; try done; [by apply (Forall_getZ _ _ i _ B1)|by apply (Forall_getZ _ _ i _ B2)].
Qed.

Definition sent_desc (d : TxDesc) (packet : list Z) : TxDesc :=
  mkTx (tx_addr d) (Z.min (len packet) 2048) 0xB 0.

(** The state after an accepted packet. *)
Definition after_send (packet : list Z) (d : TxDesc) (buf : list Z) (n : nic) : nic :=
  let t := E1000_TX_TAIL n in
  mmio_write32 E1000_TDT ((t + 1) mod 64)
    (set_tx (setZ (TX_DESCS n) t (sent_desc d packet))
            (setZ (TX_BUFFERS n) t (splice buf 0 (sub packet 0 (Z.min (len packet) 2048))))
            ((t + 1) mod 64) n).

Lemma tail_mod n : rings_ok n -> E1000_TX_TAIL n mod NUM_TX_DESCS = E1000_TX_TAIL n.
Proof. intros H. apply Z.mod_small. apply H. Qed.

Lemma send_packet_value packet n d buf : rings_ok n ->
  getZ (TX_DESCS n) (E1000_TX_TAIL n) = Some d -> getZ (TX_BUFFERS n) (E1000_TX_TAIL n) = Some buf ->
  send_packet packet n =
    if in_flight n (E1000_TX_TAIL n) then (false, n) else (true, after_send packet d buf n).
Proof.
  intros H Hd Hb. pose proof (tail_mod n H) as Ht. destruct H as (_ & _ & _ & _ & _ & _ & Hi & H0 & _).
  unfold send_packet. rewrite Hi, Ht, Hd, Hb. cbn [negb]. destruct (Z.eqb_spec (E1000_BAR0 n) 0); [done|].
  unfold in_flight. rewrite Hd. destruct (_ && _); [done|].
  assert (E : as_u16 (Z.min (len packet) PACKET_BUFFER_SIZE) = Z.min (len packet) 2048).
  { apply wrapU_small. pose proof (len_nonneg packet). unfold PACKET_BUFFER_SIZE. lia. }
  rewrite E. reflexivity.
Qed.

Lemma poll_rx_value out n d buf : rings_ok n -> let i := (E1000_RX_TAIL n + 1) mod 64 in
  getZ (RX_DESCS n) i = Some d -> getZ (RX_BUFFERS n) i = Some buf ->
  poll_rx_packet out n =
    if Z.land (rx_status d) 1 =? 0 then (None, out, n)
    else let k := Z.min (rx_length d) (len out) in
      (Some k, splice out 0 (sub buf 0 k),
       mmio_write32 E1000_RDT i (set_rx (setZ (RX_DESCS n) i (mkRx (rx_addr d) (rx_length d) 0)) i n)).
Proof.
  intros H i Hd Hb. destruct H as (_ & _ & _ & _ & _ & _ & Hi & H0 & _).
  unfold poll_rx_packet. rewrite Hi. cbn [negb]. destruct (Z.eqb_spec (E1000_BAR0 n) 0); [done|].
  change NUM_RX_DESCS with 64. fold i. rewrite Hd, Hb. reflexivity.
Qed.

Lemma len_splice_0 (b s : list Z) : len s <= len b -> len (splice b 0 s) = len b.
Proof. intros. apply len_splice; lia. Qed.

Lemma len_sub_min (l : list Z) n : 0 <= n -> len (sub l 0 (Z.min (len l) n)) = Z.min (len l) n.
Proof. intros. pose proof (len_nonneg l). rewrite len_sub; lia. Qed.

Lemma rings_ok_op op n : op_ok op -> rings_ok n -> rings_ok (run_op op n).
Proof.
  intros Hop H. pose proof H as (L1 & L2 & L3 & L4 & B1 & B2 & Hi & H0 & T1 & T2). 
  destruct op as [packet|i|i frame|out]; cbn [run_op op_ok] in *.
  - destruct (rings_get n (E1000_TX_TAIL n) H T1) as (d & b & _ & _ & Hd & Hb & _ & _ & Lb & _).
    rewrite (send_packet_value packet n d b) by done. destruct (in_flight _ _); [done|].
    unfold after_send, rings_ok; cbn. rewrite !len_setZ.
    split_and!; try done; try apply T2; try (apply (Z.mod_pos_bound _ 64); lia).
    apply Forall_setZ; [done|]. rewrite len_splice_0; [done|]. rewrite len_sub_min by lia. lia.
  - unfold complete_tx. destruct (getZ _ _); [|done]. unfold rings_ok; cbn. rewrite len_setZ. done.
  - unfold arrive. destruct (getZ (RX_DESCS n) i) as [d|] eqn:Hd; [|done].
    destruct (getZ (RX_BUFFERS n) i) as [b|] eqn:Hb; [|done].
    unfold rings_ok; cbn. rewrite !len_setZ. split_and!; try done; try apply T1; try apply T2.
    apply Forall_setZ; [done|]. pose proof (Forall_getZ _ _ i _ B2 Hb) as Lb. cbn in Lb.
    rewrite len_splice_0; [done|]. lia.
  - assert (R : 0 <= (E1000_RX_TAIL n + 1) mod 64 < 64) by (apply Z.mod_pos_bound; lia).
    destruct (rings_get n _ H R) as (_ & _ & d & b & _ & _ & Hd & Hb & _ & Lb).
    rewrite (poll_rx_value out n d b) by done. destruct (_ =? 0); [done|].
    unfold rings_ok; cbn. rewrite !len_setZ. split_and!; try done; try apply T1; apply R.
Qed.

(** The frame in descriptor [i], as the adapter sends it. *)
Definition frame_of (n : nic) (i : Z) : list Z :=
  match getZ (TX_DESCS n) i, getZ (TX_BUFFERS n) i with
  | Some d, Some buf => sub buf 0 (tx_length d)
  | _, _ => []
  end.

Lemma flight_kept op n i : rings_ok n -> op_ok op -> op <> Complete i -> in_flight n i = true ->
  in_flight (run_op op n) i = true /\ frame_of (run_op op n) i = frame_of n i.
Proof.
  intros H Hop Hne Hi. pose proof H as (_ & _ & _ & _ & _ & _ & _ & _ & T1 & T2).
  destruct op as [packet|k|k frame|out]; cbn [run_op op_ok] in *.
  - destruct (rings_get n (E1000_TX_TAIL n) H T1) as (d & b & _ & _ & Hd & Hb & _).
    rewrite (send_packet_value packet n d b) by done. destruct (in_flight n (E1000_TX_TAIL n)) eqn:Ht; [done|].
    assert (i <> E1000_TX_TAIL n) by congruence.
    unfold in_flight, frame_of in *. cbn. by rewrite !getZ_setZ_ne.
  - assert (i <> k) by congruence. unfold complete_tx. destruct (getZ (TX_DESCS n) k); [|done].
    unfold in_flight, frame_of in *. cbn. by rewrite !getZ_setZ_ne.
  - unfold arrive. destruct (getZ (RX_DESCS n) k); [|done]. by destruct (getZ (RX_BUFFERS n) k).
  - assert (R : 0 <= (E1000_RX_TAIL n + 1) mod 64 < 64) by (apply Z.mod_pos_bound; lia).
    destruct (rings_get n _ H R) as (_ & _ & d & b & _ & _ & Hd & Hb & _ & Lb).
    rewrite (poll_rx_value out n d b) by done. by destruct (_ =? 0).
Qed.

Lemma flight_kept_all ops n i : rings_ok n -> Forall op_ok ops -> Complete i ∉ ops -> in_flight n i = true ->
  let n' := foldl (flip run_op) n ops in in_flight n' i = true /\ frame_of n' i = frame_of n i.
Proof.
  intros H Hops. revert n H. induction Hops as [|op ops Hop Hops IH]; intros n H Hc Hi; [done|].
  apply not_elem_of_cons in Hc as [Hne Hc]. cbn [foldl].
  destruct (flight_kept op n i) as [H1 H2]; [done|done|congruence|done|].
  rewrite <-H2. apply IH; [by apply rings_ok_op|done|done].
Qed.

Lemma reg_write off v n : reg off (mmio_write32 off v n) = Some v.
Proof. unfold reg, mmio_write32; cbn. by rewrite filter_app, filter_cons_True, filter_nil, last_snoc. Qed.

Lemma getZ_lt {A} (l : list A) i x : 0 <= i < len l -> getZ (setZ l i x) i = Some x.
Proof. intros. by rewrite getZ_setZ_eq. Qed.

Lemma after_send_flight packet d buf n : rings_ok n ->
  getZ (TX_DESCS n) (E1000_TX_TAIL n) = Some d -> getZ (TX_BUFFERS n) (E1000_TX_TAIL n) = Some buf ->
  in_flight (after_send packet d buf n) (E1000_TX_TAIL n) = true /\
  frame_of (after_send packet d buf n) (E1000_TX_TAIL n) = sub packet 0 2048.
Proof.
  intros H Hd Hb. pose proof H as (L1 & L2 & _ & _ & B1 & _ & _ & _ & T1 & _).
  unfold in_flight, frame_of, after_send. cbn. rewrite !getZ_setZ_eq by lia. split; [done|].
  cbn [tx_length sent_desc]. pose proof (len_nonneg packet).
  set (s := sub packet 0 (Z.min (len packet) 2048)).
  assert (Ls : len s = Z.min (len packet) 2048) by (apply len_sub_min; lia).
  rewrite <-Ls. rewrite <-(Z.add_0_l (len s)) at 1.
  pose proof (Forall_getZ _ _ (E1000_TX_TAIL n) _ B1 Hb) as Lb. cbn in Lb. unfold PACKET_BUFFER_SIZE in Lb.
  rewrite sub_splice by lia. subst s. destruct (Z.min_spec (len packet) 2048) as [[? ->]|[? ->]]; [|done].
  by rewrite !sub_all by lia.
Qed.

(** Transmission never overwrites a frame that is still to be sent. A packet
    is refused exactly when the descriptor at the tail is in flight, and then
    nothing changes; otherwise its first 2048 bytes are in that descriptor, which
    is handed to the adapter by the tail register, and whatever is sent, polled,
    received or completed afterwards, they stay there until the adapter has
    completed this descriptor. *)
Theorem sent_frames_are_kept packet n ops :
  rings_ok n -> Forall op_ok ops -> let t := E1000_TX_TAIL n in
  fst (send_packet packet n) = negb (in_flight n t) /\
  (in_flight n t = true -> snd (send_packet packet n) = n) /\
  (in_flight n t = false ->
     let n' := snd (send_packet packet n) in
     reg E1000_TDT n' = Some ((t + 1) mod 64) /\ E1000_TX_TAIL n' = (t + 1) mod 64 /\
     (Complete t ∉ ops ->
      in_flight (foldl (flip run_op) n' ops) t = true /\
      frame_of (foldl (flip run_op) n' ops) t = sub packet 0 2048)).
Proof.
  intros H Hops t. pose proof H as (_ & _ & _ & _ & _ & _ & _ & _ & T1 & _).
  destruct (rings_get n (E1000_TX_TAIL n) H T1) as (d & b & _ & _ & Hd & Hb & _).
  assert (OK : rings_ok (snd (send_packet packet n))) by (by apply (rings_ok_op (Send packet))).
  rewrite (send_packet_value packet n d b) in * by done. fold t.
  destruct (in_flight n t) eqn:Ht; cbn [fst snd negb] in *; [done|].
  split; [done|]. split; [done|]. intros _. split; [apply reg_write|]. split; [done|].
  intros Hc. destruct (after_send_flight packet d b n H Hd Hb) as [F1 F2]. rewrite <-F2.
  apply (flight_kept_all ops _ t); [|done..]. fold t in OK. by rewrite Ht in OK.
Qed.

(** ** A full ring *)

(** Sending to a ring whose descriptors are all free. *)
Lemma send_many (packets : list (list Z)) n :
  rings_ok n -> E1000_TX_TAIL n = 0 -> (forall i, in_flight n i = false) ->
  (length packets <= 64)%nat ->
  let n' := foldl (fun n p => snd (send_packet p n)) n packets in
  rings_ok n' /\ E1000_TX_TAIL n' = len packets mod 64 /\
  (forall i, in_flight n' i = bool_decide (0 <= i < len packets)) /\
  (packets <> [] -> reg E1000_TDT n' = Some (len packets mod 64)).
Proof.
  intros H Ht Hf. induction packets as [|p packets IH] using rev_ind; intros Hl.
  { split_and!; [done|done| |done]. intros i. rewrite Hf. rewrite bool_decide_false; [done|].
    change (len (@nil (list Z))) with 0. lia. }
  rewrite length_app in Hl. cbn [length] in Hl. destruct IH as (H1 & T1 & F1 & _); [lia|].
  rewrite foldl_snoc. set (n1 := foldl _ n packets) in *. cbv zeta.
  assert (Lp : 0 <= len packets < 64) by (unfold len; lia).
  rewrite Z.mod_small in T1 by done.
  destruct (rings_get n1 (len packets) H1 Lp) as (d & b & _ & _ & Hd & Hb & _).
  rewrite <-T1 in Hd, Hb. pose proof (rings_ok_op (Send p) n1 I H1) as H2. cbn [run_op] in H2.
  rewrite (send_packet_value p n1 d b) in * by done. rewrite F1, T1 in *.
  rewrite bool_decide_false in * by lia. cbn [snd] in *.
  rewrite len_app. change (len [p]) with 1. split_and!; [done|by cbn; rewrite T1| |].
  - intros i. pose proof H1 as (L1 & _).
    unfold in_flight, after_send. cbn. rewrite T1. destruct (Z.eq_dec i (len packets)) as [->|Hne].
    + rewrite getZ_setZ_eq by (rewrite L1; done). rewrite bool_decide_true by lia. done.
    + rewrite getZ_setZ_ne by done. fold (in_flight n1 i). rewrite F1.
      apply bool_decide_ext. lia.
  - intros _. unfold after_send. rewrite reg_write. by rewrite T1.
Qed.

Lemma arrive_value i frame n d b : getZ (RX_DESCS n) i = Some d -> getZ (RX_BUFFERS n) i = Some b ->
  arrive i frame n = mkNic (TX_DESCS n) (TX_BUFFERS n) (setZ (RX_DESCS n) i (mkRx (rx_addr d) (len frame) 1))
      (setZ (RX_BUFFERS n) i (splice b 0 frame)) (E1000_BAR0 n) (E1000_TX_TAIL n) (E1000_RX_TAIL n)
      (E1000_MAC n) (E1000_INITIALIZED n) (writes n).
Proof. intros Hd Hb. unfold arrive. by rewrite Hd, Hb. Qed.

(** The driver looks at descriptor 1 first. *)
Lemma early_polls n a0 a1 a2 f0 f1 out : rings_ok n -> E1000_RX_TAIL n = 0 ->
  getZ (RX_DESCS n) 0 = Some (mkRx a0 0 0) -> getZ (RX_DESCS n) 1 = Some (mkRx a1 0 0) ->
  getZ (RX_DESCS n) 2 = Some (mkRx a2 0 0) -> len f0 <= 128 -> len f1 <= 128 -> len out = 128 ->
  poll_rx_packet out (arrive 0 f0 n) = (None, out, arrive 0 f0 n) /\
  exists n', poll_rx_packet out (arrive 1 f1 (arrive 0 f0 n)) =
      (Some (len f1), splice out 0 f1, n') /\
    poll_rx_packet out n' = (None, out, n') /\ reg E1000_RDT n' = Some 1.
Proof.
  intros OK T R0 R1 R2 H0 H1 Ho.
  assert (OK0 : rings_ok (arrive 0 f0 n)) by (apply (rings_ok_op (Arrive 0 f0)); [cbn; unfold PACKET_BUFFER_SIZE; lia|done]).
  assert (OK1 : rings_ok (arrive 1 f1 (arrive 0 f0 n)))
    by (apply (rings_ok_op (Arrive 1 f1)); [cbn; unfold PACKET_BUFFER_SIZE; lia|done]).
  destruct (rings_get n 0 OK) as (_ & _ & _ & b0 & _ & _ & _ & B0 & _); [lia|].
  destruct (rings_get n 1 OK) as (_ & _ & _ & b1 & _ & _ & _ & B1 & _ & L1); [lia|].
  destruct (rings_get n 2 OK) as (_ & _ & _ & b2 & _ & _ & _ & B2 & _); [lia|].
  pose proof OK as (_ & _ & L3 & L4 & _). change NUM_RX_DESCS with 64 in L3, L4.
  assert (E0 := arrive_value 0 f0 n _ _ R0 B0). set (n0 := arrive 0 f0 n) in *.
  assert (D1 : getZ (RX_DESCS n0) 1 = Some (mkRx a1 0 0)) by (rewrite E0; cbn; by rewrite getZ_setZ_ne).
  assert (C1 : getZ (RX_BUFFERS n0) 1 = Some b1) by (rewrite E0; cbn; by rewrite getZ_setZ_ne).
  assert (T0 : E1000_RX_TAIL n0 = 0) by (rewrite E0; exact T).
  clearbody n0.
  assert (E1 := arrive_value 1 f1 n0 _ _ D1 C1). set (n1 := arrive 1 f1 n0) in *. clearbody n1.
  assert (T1 : E1000_RX_TAIL n1 = 0) by (rewrite E1; exact T0).
  assert (D1' : getZ (RX_DESCS n1) 1 = Some (mkRx a1 (len f1) 1)).
  { rewrite E1. cbn. rewrite E0. cbn. rewrite getZ_setZ_eq; [done|]. rewrite len_setZ, L3. lia. }
  assert (C1' : getZ (RX_BUFFERS n1) 1 = Some (splice b1 0 f1)).
  { rewrite E1. cbn. rewrite E0. cbn. rewrite getZ_setZ_eq; [done|]. rewrite len_setZ, L4. lia. }
  assert (D2 : getZ (RX_DESCS n1) 2 = Some (mkRx a2 0 0)).
  { rewrite E1. cbn. rewrite E0. cbn. by rewrite !getZ_setZ_ne. }
  assert (C2 : getZ (RX_BUFFERS n1) 2 = Some b2).
  { rewrite E1. cbn. rewrite E0. cbn. by rewrite !getZ_setZ_ne. }
  split.
  - rewrite (poll_rx_value out n0 (mkRx a1 0 0) b1 OK0) by (rewrite T0; done). done.
  - rewrite (poll_rx_value out n1 (mkRx a1 (len f1) 1) (splice b1 0 f1) OK1) by (rewrite T1; done).
    cbn [rx_status rx_length rx_addr]. change (Z.land 1 1 =? 0) with false. cbv iota zeta.
    rewrite Z.min_l by lia. assert (Es : sub (splice b1 0 f1) 0 (len f1) = f1).
    { rewrite <-(Z.add_0_l (len f1)). apply sub_splice; lia. }
    rewrite Es. eexists; split; [reflexivity|]. rewrite T1. split; [|apply reg_write].
    assert (OK2 : rings_ok (run_op (Poll out) n1)) by (apply rings_ok_op; done).
    cbn [run_op] in OK2. rewrite (poll_rx_value out n1 (mkRx a1 (len f1) 1) (splice b1 0 f1) OK1) in OK2 by (rewrite T1; done).
    cbn [rx_status rx_length rx_addr] in OK2. change (Z.land 1 1 =? 0) with false in OK2. cbv iota zeta in OK2.
    cbn [snd] in OK2. rewrite T1 in OK2.
    rewrite (poll_rx_value out _ (mkRx a2 0 0) b2 OK2); [done| |done].
    cbn. by rewrite getZ_setZ_ne.
Qed.
Section Init.
Context (tx_ring rx_ring : Z) (tx_buf rx_buf : Z -> Z) (ral rah bar0 : Z) (Hbar : bar0 <> 0).

Definition booted : nic := init_e1000 tx_ring rx_ring tx_buf rx_buf ral rah bar0 nic_static.

Lemma len_imap {A B} (f : nat -> A -> B) l : len (imap f l) = len l.
Proof using. unfold len. by rewrite length_imap. Qed.

Lemma booted_ok : rings_ok booted.
Proof using Hbar.
  assert (B : Forall (fun b => len b = PACKET_BUFFER_SIZE) (replicate 64 packet_buffer)).
  { apply Forall_replicate. unfold packet_buffer. by rewrite len_replicate. }
  unfold rings_ok, booted, init_e1000; cbn [TX_DESCS TX_BUFFERS RX_DESCS RX_BUFFERS E1000_INITIALIZED
    E1000_BAR0 E1000_TX_TAIL E1000_RX_TAIL set_device mmio_write32 set_rx set_tx nic_static].
  rewrite !len_imap, !len_replicate. split_and!; try done.
Qed.

Lemma getZ_imap {A B} (f : nat -> A -> B) l i :
  getZ (imap f l) i = f (Z.to_nat i) <$> getZ l i.
Proof using. unfold getZ. case_decide; [|done]. by rewrite list_lookup_imap. Qed.

Lemma booted_free i : in_flight booted i = false.
Proof using.
  unfold in_flight, booted, init_e1000; cbn [TX_DESCS set_device mmio_write32 set_rx set_tx nic_static].
  rewrite getZ_imap. by destruct (getZ (replicate _ _) i).
Qed.

Lemma booted_rx i : 0 <= i < 64 -> exists a, getZ (RX_DESCS booted) i = Some (mkRx a 0 0).
Proof using.
  intros Hi. unfold booted, init_e1000; cbn [RX_DESCS set_device mmio_write32 set_rx set_tx nic_static].
  rewrite getZ_imap. unfold getZ. rewrite decide_True by lia.
  rewrite lookup_replicate_2 by (unfold NUM_RX_DESCS; lia). cbn. eauto.
Qed.

Lemma first_polls f0 f1 out : len f0 <= 128 -> len f1 <= 128 -> len out = 128 ->
  poll_rx_packet out (arrive 0 f0 booted) = (None, out, arrive 0 f0 booted) /\
  exists n', poll_rx_packet out (arrive 1 f1 (arrive 0 f0 booted)) =
      (Some (len f1), splice out 0 f1, n') /\
    poll_rx_packet out n' = (None, out, n') /\ reg E1000_RDT n' = Some 1.
Proof using Hbar.
  intros H0 H1 Ho. destruct (booted_rx 0) as [a0 R0]; [lia|]. destruct (booted_rx 1) as [a1 R1]; [lia|].
  destruct (booted_rx 2) as [a2 R2]; [lia|].
  exact (early_polls booted a0 a1 a2 f0 f1 out booted_ok eq_refl R0 R1 R2 H0 H1 Ho).
Qed.
End Init.

(** Two faults of the rings after [init_e1000]. Transmission: 64 packets are
    accepted before the adapter completes one; then the tail register is back at
    the value of the head, 0, which to the adapter is an empty ring, while the
    driver refuses every further packet because all descriptors are in flight.
    Reception: the adapter fills descriptor 0 first (the head was set to 0), but
    the driver polls descriptor 1 first: the first frame is not delivered when it
    arrives, and when the second one has arrived the driver delivers that one and
    passes descriptor 0 by. *)
Theorem nic_rings_off_by_one tx_ring rx_ring tx_buf rx_buf ral rah bar0 packets packet f0 f1 out :
  bar0 <> 0 -> length packets = 64%nat -> len f0 <= 128 -> len f1 <= 128 -> len out = 128 ->
  let n := booted tx_ring rx_ring tx_buf rx_buf ral rah bar0 in
  let n' := foldl (fun n p => snd (send_packet p n)) n packets in
  (forall i, 0 <= i < 64 -> in_flight n' i = true) /\
  reg E1000_TDH n = Some 0 /\ reg E1000_TDT n' = Some 0 /\ send_packet packet n' = (false, n') /\
  poll_rx_packet out (arrive 0 f0 n) = (None, out, arrive 0 f0 n) /\
  (exists n2, poll_rx_packet out (arrive 1 f1 (arrive 0 f0 n)) = (Some (len f1), splice out 0 f1, n2) /\
     poll_rx_packet out n2 = (None, out, n2) /\ reg E1000_RDT n2 = Some 1).
Proof.
  intros Hb L H0 H1 Ho n n'. destruct (send_many packets n) as (OK & T & F & R).
  { by apply booted_ok. } { done. } { apply booted_free. } { lia. }
  fold n' in OK, T, F, R.
  assert (Lp : len packets = 64) by (unfold len; lia). rewrite Lp in *.
  pose proof (first_polls tx_ring rx_ring tx_buf rx_buf ral rah bar0 Hb f0 f1 out H0 H1 Ho) as P.
  fold n in P.
  split_and!.
  - intros i Hi. rewrite F. by apply bool_decide_true.
  - reflexivity.
  - apply R. by destruct packets.
  - change (64 mod 64) with 0 in T. destruct (rings_get n' 0 OK) as (d & b & _ & _ & Hd & Hbf & _); [lia|].
    rewrite (send_packet_value packet n' d b) by (try rewrite T; done). rewrite T, F.
    by rewrite bool_decide_true.
  - exact (proj1 P).
  - exact (proj2 P).
Qed.

Theorem nic_rings_off_by_one_witness :
  let n := booted 0x10000 0x20000 (fun i => 2048 * i) (fun i => 2048 * i) 0 0 0xFEB00000 in
  send_packet [1] (foldl (fun n p => snd (send_packet p n)) n (replicate 64 [7])) =
    (false, foldl (fun n p => snd (send_packet p n)) n (replicate 64 [7])).
Proof.
  exact (proj1 (proj2 (proj2 (proj2 (nic_rings_off_by_one 0x10000 0x20000 (fun i => 2048 * i)
    (fun i => 2048 * i) 0 0 0xFEB00000 (replicate 64 [7]) [1] [1; 2] [3] (replicate 128 0)
    ltac:(lia) eq_refl ltac:(unfold len; simpl; lia) ltac:(unfold len; simpl; lia) eq_refl))))).
Defined.

Theorem sent_frames_are_kept_witness :
  let n := booted 0x10000 0x20000 (fun i => 2048 * i) (fun i => 2048 * i) 0 0 0xFEB00000 in
  frame_of (foldl (flip run_op) (snd (send_packet [1; 2; 3] n)) [Send [4]; Complete 1]) 0 =
  sub [1; 2; 3] 0 2048.
Proof.
  intros n. destruct (sent_frames_are_kept [1; 2; 3] n [Send [4]; Complete 1]) as (_ & _ & H).
  - apply booted_ok. lia.
  - by repeat constructor.
  - destruct (H eq_refl) as (_ & _ & K). apply K. intros Hin. rewrite !elem_of_cons in Hin.
    destruct Hin as [E|[E|Hin]]; [discriminate E|discriminate E|by apply elem_of_nil in Hin].
Defined.
