(* ===== verification/Gpu.v ===== *)
(** Frame capture (kernel/src/gpu.rs): frame handles, the CRC of a frame, the
    poll for the vertical blank and the capture into a slot of the frame pool.
    The display's status port and the time-stamp counter are arguments. *)

From S2P Require Import Prelude RustStd Crc Vfs.
Local Open Scope Z_scope.

Definition FRAME_WIDTH : Z := 1920.
Definition FRAME_HEIGHT : Z := 1080.
Definition FRAME_BYTES_PER_PIXEL : Z := 4.
Definition FRAME_STRIDE : Z := FRAME_WIDTH * FRAME_BYTES_PER_PIXEL.
Definition VGA_STATUS_VBLANK_MASK : Z := 0x08.

Record FrameHandle : Set := mkFrame {
  slot_id : Z; frame_id : Z; width : Z; height : Z; stride : Z;
  phys_addr : Z; size : Z; crc32 : Z; vblank_tsc : Z; capture_done_tsc : Z }.

Definition frame_empty : FrameHandle := mkFrame 0 0 0 0 0 0 0 0 0 0.

#[export] Instance FrameHandle_eq_dec : EqDecision FrameHandle.
Proof. solve_decision. Defined.

(** The table and the loop are those of the virtual machine's checksum. *)
Definition frame_crc32 (data : list Z) : Z := compute_crc32 data.

Definition is_vblank_active (status : Z) : bool := negb (Z.land status VGA_STATUS_VBLANK_MASK =? 0).

(** One of the two polling loops: [port k] is the [k]-th reading of the status
    port, [want] the state that keeps it spinning. The readings used up. *)
Fixpoint poll_loop (fuel : nat) (port : Z -> Z) (want : bool) (max_spins spins k : Z) : Z :=
  match fuel with
  | O => k
  | S fuel =>
    if bool_decide (is_vblank_active (port k) = want) && (spins <? max_spins)
    then poll_loop fuel port want max_spins (spins + 1) (k + 1)
    else k + 1
  end.

Definition poll_vblank_edge (port clock : Z -> Z) (max_spins : Z) : Z :=
  let fuel := S (Z.to_nat max_spins) in
  let k := poll_loop fuel port true max_spins 0 0 in
  let k := poll_loop fuel port false max_spins 0 k in
  clock k.

(** [addr] gives the address of a slot of the pool, [tsc] is the reading at the
    end. The slot is marked with the frame's number and its first 4 KB are
    summed. *)
Definition capture_frame_zero_copy (addr : Z -> Z) (v : vram) (slot frame vblank tsc : Z)
    : FrameHandle * vram :=
  let idx := slot mod NUM_FRAME_SLOTS in
  let v := capture_pattern v slot frame in
  let data := get_frame_slot_data v idx in
  let sample_len := Z.min 4096 (len data) in
  let crc := frame_crc32 (sub data 0 sample_len) in
  (mkFrame idx frame FRAME_WIDTH FRAME_HEIGHT FRAME_STRIDE (addr idx) (len data) crc vblank tsc, v).
