(* ===== verification/Net.v ===== *)
(** Network transmission (kernel/src/net.rs): the congestion controller, the
    IPv4 checksum, the acknowledgement parser and the packetisation and
    encryption of a frame. The time-stamp counter is an argument; packets go to
    a [PacketSink], which the e1000 driver implements. *)

From S2P Require Import Prelude RustStd Tsc Crypto Nic Gpu.
Local Open Scope Z_scope.

Definition STATIC_MASTER_KEY : list Z := [
  0x01; 0x23; 0x45; 0x67; 0x89; 0xAB; 0xCD; 0xEF;
  0xFE; 0xDC; 0xBA; 0x98; 0x76; 0x54; 0x32; 0x10 ].
Definition STATIC_MASTER_SALT : list Z := [
  0xA5; 0x5A; 0xA5; 0x5A; 0xA5; 0x5A; 0xA5; 0x5A; 0xA5; 0x5A; 0xA5; 0x5A ].
Definition RTP_PAYLOAD_TYPE_VIDEO : Z := 96.
Definition RTP_SSRC_VIDEO : Z := 0x12345678.
Definition MAX_SRTP_PAYLOAD_CHUNK : Z := 1380.
Definition CONGESTION_THRESHOLD_NS : Z := 200000.
Definition ACK_MAGIC : Z := 0x41434B31.

Variant SendError : Set := DeadlineExceeded | NicQueueFull | InvalidFrame.

#[export] Instance SendError_eq_dec : EqDecision SendError.
Proof. solve_decision. Defined.

(** ** The congestion controller *)

Record controller : Set := mkCtl {
  MIN_RTT_NS : Z; LAST_RTT_NS : Z; DELTA_DELAY_NS : Z; CONGESTION_RATE_PCT : Z;
  CONSECUTIVE_GOOD_FRAMES : Z; TOTAL_PACKETS_SENT : Z; TOTAL_FRAMES_DROPPED : Z;
  TOTAL_ACKS_RECEIVED : Z }.

Definition controller_new : controller := mkCtl 50000 50000 0 100 0 0 0 0.

(** [now_tsc] is the reading of the counter. *)
Definition on_ack_received (now_tsc t_pkt_tx freq_hz : Z) (c : controller) : controller :=
  if now_tsc <? t_pkt_tx then c
  else
    let rtt_ns := tsc_to_ns (now_tsc - t_pkt_tx) freq_hz in
    let acks := as_u64 (TOTAL_ACKS_RECEIVED c + 1) in
    let min_rtt := MIN_RTT_NS c in
    let min_rtt := if (rtt_ns <? min_rtt) || (min_rtt =? 0) then rtt_ns else min_rtt in
    let delta_delay := Z.max 0 (rtt_ns - min_rtt) in
    if delta_delay >? CONGESTION_THRESHOLD_NS then
      let curr := CONGESTION_RATE_PCT c in
      let new_rate := as_u8 (curr * 80 / 100) in
      mkCtl min_rtt rtt_ns delta_delay (Z.max 20 new_rate) 0
        (TOTAL_PACKETS_SENT c) (TOTAL_FRAMES_DROPPED c) acks
    else
      let good := CONSECUTIVE_GOOD_FRAMES c + 1 in
      if good >=? 4 then
        let curr := CONGESTION_RATE_PCT c in
        let new_rate := Z.min 100 (Z.min 255 (curr + 5)) in
        mkCtl min_rtt rtt_ns delta_delay new_rate 0
          (TOTAL_PACKETS_SENT c) (TOTAL_FRAMES_DROPPED c) acks
      else
        mkCtl min_rtt rtt_ns delta_delay (CONGESTION_RATE_PCT c) good
          (TOTAL_PACKETS_SENT c) (TOTAL_FRAMES_DROPPED c) acks.

Definition count_sent (c : controller) : controller :=
  mkCtl (MIN_RTT_NS c) (LAST_RTT_NS c) (DELTA_DELAY_NS c) (CONGESTION_RATE_PCT c)
    (CONSECUTIVE_GOOD_FRAMES c) (as_u64 (TOTAL_PACKETS_SENT c + 1)) (TOTAL_FRAMES_DROPPED c)
    (TOTAL_ACKS_RECEIVED c).
Definition count_dropped (c : controller) : controller :=
  mkCtl (MIN_RTT_NS c) (LAST_RTT_NS c) (DELTA_DELAY_NS c) (CONGESTION_RATE_PCT c)
    (CONSECUTIVE_GOOD_FRAMES c) (TOTAL_PACKETS_SENT c) (as_u64 (TOTAL_FRAMES_DROPPED c + 1))
    (TOTAL_ACKS_RECEIVED c).

(** An acknowledgement in the receive ring, if there is one. *)
Definition poll_rx_ack (now_tsc freq_hz : Z) (n : nic) (c : controller) : bool * nic * controller :=
  let '(r, rx_buf, n) := poll_rx_packet (replicate 128 0) n in
  match r with
  | Some k =>
    if k >=? 66 then
      let payload_offset := 14 + 20 + 8 in
      let ack_bytes := sub rx_buf payload_offset (payload_offset + 24) in
      if be_to_Z (sub ack_bytes 0 4) =? ACK_MAGIC then
        (true, n, on_ack_received now_tsc (be_to_Z (sub ack_bytes 8 16)) freq_hz c)
      else (false, n, c)
    else (false, n, c)
  | None => (false, n, c)
  end.

(** ** The IPv4 header checksum *)

(** [while i < header.len()]: two bytes a turn; an odd length indexes past the
    end. *)
Fixpoint sum_words {E} (fuel : nat) (header : list Z) (i sum : Z) : outcome E Z :=
  match fuel with
  | O => Ok sum
  | S fuel =>
    if i <? len header then
      hi ← idx header i;
      lo ← idx header (i + 1);
      let word := Z.lor (Z.shiftl hi 8) lo in
      sum_words fuel header (i + 2) (as_u32 (sum + word))
    else Ok sum
  end.

(** [while (sum >> 16) != 0]: a 32-bit sum is folded at most twice. *)
Fixpoint fold_carries (fuel : nat) (sum : Z) : Z :=
  match fuel with
  | O => sum
  | S fuel =>
    if Z.shiftr sum 16 =? 0 then sum
    else fold_carries fuel (Z.land sum 0xFFFF + Z.shiftr sum 16)
  end.

Definition compute_ip_checksum {E} (header : list Z) : outcome E Z :=
  sum ← sum_words (length header) header 0 0;
  mret (0xFFFF - as_u16 (fold_carries 3 sum)).

(** ** The nonce *)

Definition make_iv (seq : Z) : list Z :=
  let iv := STATIC_MASTER_SALT in
  let x iv i b := setZ iv i (Z.lxor (default 0 (getZ iv i)) b) in
  let iv := x iv 4 (Z.land (Z.shiftr RTP_SSRC_VIDEO 24) 0xFF) in
  let iv := x iv 5 (Z.land (Z.shiftr RTP_SSRC_VIDEO 16) 0xFF) in
  let iv := x iv 6 (Z.land (Z.shiftr RTP_SSRC_VIDEO 8) 0xFF) in
  let iv := x iv 7 (Z.land RTP_SSRC_VIDEO 0xFF) in
  let iv := x iv 10 (Z.land (Z.shiftr seq 8) 0xFF) in
  x iv 11 (Z.land seq 0xFF).

(** ** A packet *)

Notation nres := (outcome SendError).

Definition put (buf : list Z) (i : Z) (s : list Z) : nres (list Z) := blit buf i s.
Definition put1 (buf : list Z) (i b : Z) : nres (list Z) := upd buf i b.

Definition dst_mac : list Z := replicate 6 0xFF.

Definition eth_header (src_mac : list Z) (buf : list Z) : nres (list Z) :=
  buf ← put buf 0 dst_mac;
  buf ← put buf 6 src_mac;
  put buf 12 (Z_to_be 2 0x0800).

Definition ip_header (frame : FrameHandle) (chunk_len : Z) (buf : list Z) : nres (list Z) :=
  let ip_total_len := as_u16 (20 + 8 + 12 + chunk_len + 16) in
  buf ← put1 buf 14 0x45;
  buf ← put1 buf 15 0x00;
  buf ← put buf 16 (Z_to_be 2 ip_total_len);
  buf ← put buf 18 (sub (Z_to_be 8 (frame_id frame)) 6 8);
  buf ← put buf 20 (Z_to_be 2 0x4000);
  buf ← put1 buf 22 64;
  buf ← put1 buf 23 17;
  buf ← put buf 24 (Z_to_be 2 0);
  buf ← put buf 26 [192; 168; 1; 10];
  buf ← put buf 30 [192; 168; 1; 20];
  header ← slice buf 14 34;
  ip_csum ← compute_ip_checksum header;
  put buf 24 (Z_to_be 2 ip_csum).

Definition udp_header (chunk_len : Z) (buf : list Z) : nres (list Z) :=
  let udp_len := as_u16 (8 + 12 + chunk_len + 16) in
  buf ← put buf 34 (Z_to_be 2 5004);
  buf ← put buf 36 (Z_to_be 2 5004);
  buf ← put buf 38 (Z_to_be 2 udp_len);
  put buf 40 (Z_to_be 2 0).

Definition srtp_header (frame : FrameHandle) (seq : Z) (buf : list Z) : nres (list Z) :=
  buf ← put1 buf 42 0x80;
  buf ← put1 buf 43 RTP_PAYLOAD_TYPE_VIDEO;
  buf ← put buf 44 (Z_to_be 2 seq);
  let rtp_ts := as_u32 (Z.land (vblank_tsc frame) 0xFFFFFFFF) in
  buf ← put buf 46 (Z_to_be 4 rtp_ts);
  put buf 50 (Z_to_be 4 RTP_SSRC_VIDEO).

Definition encrypt_payload (key : Aes128Key) (seq : Z) (chunk buf : list Z) : nres (list Z) :=
  let chunk_len := len chunk in
  buf ← put buf 54 chunk;
  let iv := make_iv seq in
  aad ← slice buf 42 54;
  payload ← slice buf 54 (54 + chunk_len);
  let '(payload, tag) := aes_128_gcm_encrypt key iv aad payload in
  buf ← put buf 54 payload;
  put buf (54 + chunk_len) tag.

Definition build_packet (src_mac : list Z) (key : Aes128Key) (frame : FrameHandle) (seq : Z)
    (chunk buf : list Z) : nres (list Z) :=
  buf ← eth_header src_mac buf;
  buf ← ip_header frame (len chunk) buf;
  buf ← udp_header (len chunk) buf;
  buf ← srtp_header frame seq buf;
  encrypt_payload key seq chunk buf.

(** ** Sending a frame *)

(** Where packets go: the state of the device and the attempt to send. *)
Class PacketSink (S : Type) := sink_send : list Z -> S -> bool * S.

#[export] Instance nic_sink : PacketSink nic := send_packet.

Record sender (S : Type) : Type := mkSender { packet_seq : Z; sink : S; ctl : controller }.
Arguments mkSender {_} _ _ _.
Arguments packet_seq {_} _.
Arguments sink {_} _.
Arguments ctl {_} _.

Section Send.
Context {S : Type} `{PacketSink S}.

(** The loop over the chunks; [clock k] is the reading of the [k]-th turn. Every
    turn sends at least one byte of the frame. *)
Fixpoint send_loop (fuel : nat) (clock : Z -> Z) (deadline_tsc : Z) (src_mac : list Z)
    (key : Aes128Key) (frame : FrameHandle) (data : list Z) (turn offset bytes_sent : Z)
    (buf : list Z) (s : sender S) : nres Z * sender S :=
  match fuel with
  | O => (Ok bytes_sent, s)
  | Datatypes.S fuel =>
    if offset <? len data then
      if clock turn >? deadline_tsc then
        (Err DeadlineExceeded, mkSender (packet_seq s) (sink s) (count_dropped (ctl s)))
      else
        let chunk_len := Z.min MAX_SRTP_PAYLOAD_CHUNK (len data - offset) in
        let total_packet_len := 14 + 20 + 8 + 12 + chunk_len + 16 in
        let seq := packet_seq s in
        let next_seq := as_u16 (seq + 1) in
        match build_packet src_mac key frame seq (sub data offset (offset + chunk_len)) buf with
        | Ok buf =>
          match slice buf 0 total_packet_len with
          | Ok packet =>
            let '(sent, sk) := sink_send packet (sink s) in
            if sent then
              send_loop fuel clock deadline_tsc src_mac key frame data (turn + 1)
                (offset + chunk_len) (bytes_sent + total_packet_len) buf
                (mkSender next_seq sk (count_sent (ctl s)))
            else (Err NicQueueFull, mkSender next_seq sk (ctl s))
          | Err e => (Err e, s)
          | Panic p => (Panic p, s)
          end
        | Err e => (Err e, s)
        | Panic p => (Panic p, s)
        end
    else (Ok bytes_sent, s)
  end.

(** [memory addr size] is the frame's memory, [clock 0] the first reading. *)
Definition stream_send_frame (memory : Z -> Z -> list Z) (clock : Z -> Z) (src_mac : list Z)
    (frame : FrameHandle) (deadline_tsc : Z) (s : sender S) : nres Z * sender S :=
  if clock 0 >? deadline_tsc then
    (Err DeadlineExceeded, mkSender (packet_seq s) (sink s) (count_dropped (ctl s)))
  else
    let key := aes_key_new STATIC_MASTER_KEY in
    if (phys_addr frame <? 0x1000) || (size frame =? 0) || (size frame >? 16 * 1024 * 1024) then
      (Ok 0, s)
    else
      let data := memory (phys_addr frame) (size frame) in
      send_loop (length data) clock deadline_tsc src_mac key frame data 1 0 0 (replicate 1514 0) s.
End Send.

(** The adapter's address, or the default before it is initialised. *)
Definition src_mac_of (n : nic) : list Z :=
  if E1000_INITIALIZED n then E1000_MAC n else [0x52; 0x54; 0x00; 0x12; 0x34; 0x56].

(** * The congestion controller: properties *)

Definition ctl_ok (c : controller) : Prop :=
  20 <= CONGESTION_RATE_PCT c <= 100 /\ 0 <= CONSECUTIVE_GOOD_FRAMES c < 4 /\
  in_u64 (MIN_RTT_NS c) /\ in_u64 (LAST_RTT_NS c) /\ in_u64 (DELTA_DELAY_NS c).

(** Acknowledgements in order: the counter when it arrives, the counter it carries. *)
Definition ack : Type := (Z * Z)%type.

Definition on_ack (freq_hz : Z) (c : controller) (a : ack) : controller :=
  on_ack_received a.1 a.2 freq_hz c.

(** The round trip of a timely acknowledgement, and the base it is compared to. *)
Definition rtt_of (freq_hz : Z) (a : ack) : Z := tsc_to_ns (a.1 - a.2) freq_hz.

Definition base_of (freq_hz : Z) (c : controller) (a : ack) : Z :=
  if (rtt_of freq_hz a <? MIN_RTT_NS c) || (MIN_RTT_NS c =? 0) then rtt_of freq_hz a else MIN_RTT_NS c.

Definition congested (freq_hz : Z) (c : controller) (a : ack) : bool :=
  rtt_of freq_hz a - base_of freq_hz c a >? CONGESTION_THRESHOLD_NS.

(** Every acknowledgement of the sequence is timely and (not) congested when it
    arrives. *)
Fixpoint all_acks (want : bool) (freq_hz : Z) (c : controller) (acks : list ack) : Prop :=
  match acks with
  | [] => True
  | a :: acks => a.2 <= a.1 /\ congested freq_hz c a = want /\ all_acks want freq_hz (on_ack freq_hz c a) acks
  end.

Definition slow_down (rate : Z) : Z := Z.max 20 (rate * 80 / 100).

Lemma base_of_le freq c a : base_of freq c a <= rtt_of freq a.
Proof.
  unfold base_of. destruct (Z.ltb_spec (rtt_of freq a) (MIN_RTT_NS c)); cbn [orb]; [lia|].
  destruct (MIN_RTT_NS c =? 0); lia.
Qed.

(** What a timely acknowledgement does to the rate and the count. *)
Lemma on_ack_value freq c a : ctl_ok c -> a.2 <= a.1 ->
  let c' := on_ack freq c a in
  MIN_RTT_NS c' = base_of freq c a /\ LAST_RTT_NS c' = rtt_of freq a /\
  DELTA_DELAY_NS c' = rtt_of freq a - base_of freq c a /\
  (CONGESTION_RATE_PCT c', CONSECUTIVE_GOOD_FRAMES c') =
    if congested freq c a then (slow_down (CONGESTION_RATE_PCT c), 0)
    else if CONSECUTIVE_GOOD_FRAMES c =? 3 then (Z.min 100 (CONGESTION_RATE_PCT c + 5), 0)
    else (CONGESTION_RATE_PCT c, CONSECUTIVE_GOOD_FRAMES c + 1).
Proof.
  intros (Hr & Hg & _) Ht. unfold on_ack, on_ack_received.
  destruct (Z.ltb_spec a.1 a.2); [lia|]. fold (rtt_of freq a). fold (base_of freq c a).
  pose proof (base_of_le freq c a). rewrite Z.max_r by lia. unfold congested.
  destruct (_ >? _).
  - cbn. split_and!; try done. f_equal. unfold slow_down. f_equal.
    apply wrapU_small. split; [apply Z.div_pos; lia|apply Z.div_lt_upper_bound; lia].
  - destruct (Z.geb_spec (CONSECUTIVE_GOOD_FRAMES c + 1) 4), (Z.eqb_spec (CONSECUTIVE_GOOD_FRAMES c) 3); try lia; cbn.
    + split_and!; try done. f_equal. lia.
    + done.
Qed.

Lemma slow_down_bounds r : 20 <= r <= 100 -> 20 <= slow_down r <= r.
Proof. unfold slow_down. intros. Z.to_euclidean_division_equations. lia. Qed.

Lemma slow_down_mono r r' : r <= r' -> slow_down r <= slow_down r'.
Proof. unfold slow_down. intros. Z.to_euclidean_division_equations. lia. Qed.

Lemma on_ack_ok freq c a : ctl_ok c -> ctl_ok (on_ack freq c a).
Proof.
  intros H. destruct (Z.lt_ge_cases a.1 a.2) as [Hl|Hg].
  - unfold on_ack, on_ack_received. by destruct (Z.ltb_spec a.1 a.2); [|lia].
  - destruct (on_ack_value freq c a H Hg) as (E1 & E2 & E3 & E4).
    destruct H as (Hr & Hc & Hm & Hla & Hd). unfold ctl_ok. rewrite E1, E2, E3.
    assert (Hrtt : in_u64 (rtt_of freq a)) by apply tsc_to_ns_range.
    assert (Hb : in_u64 (base_of freq c a)) by (unfold base_of; by destruct (_ || _)).
    pose proof (base_of_le freq c a). unfold in_u64 in *. split_and!; try lia.
    all: destruct (congested freq c a); [|destruct (Z.eqb_spec (CONSECUTIVE_GOOD_FRAMES c) 3)];
      injection E4 as E5 E6; rewrite ?E5, ?E6; try lia; pose proof (slow_down_bounds _ Hr); lia.
Qed.

Lemma acks_ok freq acks c : ctl_ok c -> ctl_ok (foldl (on_ack freq) c acks).
Proof. revert c. induction acks as [|a acks IH]; intros c H; [done|]. by apply IH, on_ack_ok. Qed.

(** Without congestion the rate climbs to 100. *)
Lemma good_acks freq acks c k : ctl_ok c -> all_acks false freq c acks ->
  CONGESTION_RATE_PCT c = 100 \/ 80 + 5 * k <= 4 * CONGESTION_RATE_PCT c + 5 * CONSECUTIVE_GOOD_FRAMES c ->
  let c' := foldl (on_ack freq) c acks in
  CONGESTION_RATE_PCT c' = 100 \/
  80 + 5 * (k + len acks) <= 4 * CONGESTION_RATE_PCT c' + 5 * CONSECUTIVE_GOOD_FRAMES c'.
Proof.
  revert c k. induction acks as [|a acks IH]; intros c k H Ha Hk.
  { change (len []) with 0. by rewrite Z.add_0_r. }
  destruct Ha as (Ht & Hc & Ha). cbn [foldl]. rewrite len_cons, Z.add_assoc.
  destruct (on_ack_value freq c a H Ht) as (_ & _ & _ & E). rewrite Hc in E.
  apply IH; [by apply on_ack_ok|done|]. destruct H as (Hr & Hg & _).
  destruct (Z.eqb_spec (CONSECUTIVE_GOOD_FRAMES c) 3); injection E as E5 E6; rewrite E5, E6; lia.
Qed.

(** Under congestion it falls to 20. *)
Lemma bad_acks freq acks c r : ctl_ok c -> all_acks true freq c acks -> CONGESTION_RATE_PCT c <= r ->
  CONGESTION_RATE_PCT (foldl (on_ack freq) c acks) <= Nat.iter (length acks) slow_down r.
Proof.
  revert c r. induction acks as [|a acks IH]; intros c r H Ha Hr; [done|].
  destruct Ha as (Ht & Hc & Ha). cbn [foldl length].
  destruct (on_ack_value freq c a H Ht) as (_ & _ & _ & E). rewrite Hc in E. injection E as E1 E2.
  rewrite Nat.iter_succ_r. apply IH; [by apply on_ack_ok|done|]. rewrite E1. by apply slow_down_mono.
Qed.

(** The rate the controller grants always stays between 20 and 100 percent,
    whatever the acknowledgements (late, early or forged), and it converges:
    67 acknowledgements in a row without congestion bring it to 100, 7 with
    congestion bring it to 20. A late acknowledgement changes nothing. *)
Theorem congestion_control freq c acks :
  ctl_ok c ->
  (let c' := foldl (on_ack freq) c acks in ctl_ok c') /\
  (all_acks false freq c acks -> 67 <= len acks ->
     CONGESTION_RATE_PCT (foldl (on_ack freq) c acks) = 100) /\
  (all_acks true freq c acks -> len acks = 7 ->
     CONGESTION_RATE_PCT (foldl (on_ack freq) c acks) = 20) /\
  (forall a, a.1 < a.2 -> on_ack freq c a = c).
Proof.
  intros H. pose proof (acks_ok freq acks c H) as OK. split_and!.
  - done.
  - intros Ha L. destruct H as (Hr & Hg & Hrest).
    destruct (good_acks freq acks c 0) as [E|E]; [done|done|right; lia|done|].
    destruct OK as (Hr' & Hg' & _). lia.
  - intros Ha L. pose proof (bad_acks freq acks c 100 H Ha ltac:(apply H)) as E.
    replace (length acks) with 7%nat in E by (unfold len in L; lia).
    change (Nat.iter 7 slow_down 100) with 20 in E. destruct OK as (Hr' & _). lia.
  - intros a Hl. unfold on_ack, on_ack_received. by destruct (Z.ltb_spec a.1 a.2); [|lia].
Qed.

(** Seven round trips of 1 ms at 1 GHz, when the best so far was 50 us. *)
Theorem congestion_control_witness :
  CONGESTION_RATE_PCT (foldl (on_ack 1000000000) controller_new (replicate 7 (1000000, 0))) = 20.
Proof.
  destruct (congestion_control 1000000000 controller_new (replicate 7 (1000000, 0))) as (_ & _ & H & _).
  - unfold ctl_ok, in_u64. cbn. lia.
  - apply H; [vm_compute; repeat split; discriminate|reflexivity].
Defined.
