(* ===== verification/NetPacket.v ===== *)
(** The packets of a frame: the IPv4 checksum verifies, every packet is what a
    receiver of the stream expects, and the packets accepted by the device carry
    the frame. Nonces repeat after 65,536 packets. *)

From S2P Require Import Prelude RustStd Crypto CryptoAes CryptoGcm Nic Gpu Net.
Local Open Scope Z_scope.

(** * The checksum *)

(** The sum of the 16-bit words, high byte first. *)
Fixpoint word_sum (l : list Z) : Z :=
  match l with
  | hi :: lo :: l => hi * 256 + lo + word_sum l
  | _ => 0
  end.

Definition even_length (l : list Z) : Prop := exists k, length l = (2 * k)%nat.

Lemma even_cons2 (x y : Z) l : even_length (x :: y :: l) -> even_length l.
Proof. intros [k H]. exists (k - 1)%nat. simpl in H. lia. Qed.

Lemma word_sum_app a b : even_length a -> word_sum (a ++ b) = word_sum a + word_sum b.
Proof.
  intros [k H]. revert a H. induction k as [|k IH]; intros [|x [|y a]] H; simpl in H; try lia; try done.
  cbn [app word_sum]. rewrite IH by lia. lia.
Qed.

Lemma word_sum_bounds l : bytes_ok l -> even_length l -> 0 <= 2 * word_sum l <= 65535 * len l.
Proof.
  intros Hb [k H]. revert l Hb H. induction k as [|k IH]; intros [|x [|y l]] Hb H; simpl in H; try lia.
  { cbn. change (len (@nil Z)) with 0. lia. }
  inversion Hb as [|? ? Hx Hb']; subst. inversion Hb' as [|? ? Hy Hb'']; subst.
  cbn [word_sum]. rewrite !len_cons. specialize (IH l Hb'' ltac:(lia)). unfold in_u8 in *. lia.
Qed.

Lemma idx_next {E} (pre l : list Z) x : @idx E _ (pre ++ x :: l) (len pre) = Ok x.
Proof. apply idx_Ok. rewrite getZ_app_r by lia. by rewrite Z.sub_diag, getZ_cons_0. Qed.

Lemma idx_second {E} (pre l : list Z) x y : @idx E _ (pre ++ x :: y :: l) (len pre + 1) = Ok y.
Proof. apply idx_Ok. rewrite getZ_app_r by lia. replace (len pre + 1 - len pre) with 1 by lia. done. Qed.

Lemma sum_words_value {E} k : forall fuel (pre l : list Z) sum, length l = (2 * k)%nat -> (k <= fuel)%nat ->
  bytes_ok l -> 0 <= sum -> sum + 65536 * len l < 2 ^ 32 ->
  @sum_words E fuel (pre ++ l) (len pre) sum = Ok (sum + word_sum l).
Proof.
  induction k as [|k IH]; intros fuel pre l sum Hl Hf Hb Hs Hm.
  - destruct l; [|simpl in Hl; lia]. rewrite app_nil_r. destruct fuel; cbn [sum_words].
    + cbn. by rewrite Z.add_0_r.
    + destruct (Z.ltb_spec (len pre) (len pre)); [lia|]. cbn. by rewrite Z.add_0_r.
  - destruct l as [|x [|y l]]; simpl in Hl; try lia. destruct fuel as [|fuel]; [lia|].
    inversion Hb as [|? ? Hx Hb']; subst. inversion Hb' as [|? ? Hy Hb'']; subst.
    cbn [sum_words]. rewrite !len_cons in Hm. pose proof (len_nonneg l). pose proof (len_nonneg pre).
    destruct (Z.ltb_spec (len pre) (len (pre ++ x :: y :: l))) as [_|Hlt];
      [|rewrite len_app, !len_cons in Hlt; lia].
    rewrite idx_next, idx_second. cbn [mbind outcome_bind]. unfold in_u8 in *.
    assert (EL : Z.lor (Z.shiftl x 8) y = x * 256 + y) by (rewrite cat_lor; lia).
    assert (EW : as_u32 (sum + Z.lor (Z.shiftl x 8) y) = sum + (x * 256 + y)).
    { rewrite EL. apply wrapU_small. lia. }
    rewrite EW. specialize (IH fuel (pre ++ [x; y]) l (sum + (x * 256 + y))).
    rewrite <-app_assoc in IH. cbn [app] in IH. rewrite len_app in IH. change (len [x; y]) with 2 in IH.
    rewrite IH by (try done; lia). cbn [word_sum]. f_equal. lia.
Qed.

Lemma sum_words_odd {E} k : forall fuel (pre l : list Z) sum, length l = (2 * k + 1)%nat -> (k < fuel)%nat ->
  @sum_words E fuel (pre ++ l) (len pre) sum = Panic IndexOutOfBounds.
Proof.
  induction k as [|k IH]; intros fuel pre l sum Hl Hf; (destruct fuel as [|fuel]; [lia|]).
  - destruct l as [|x [|]]; simpl in Hl; try lia. cbn [sum_words]. pose proof (len_nonneg pre).
    destruct (Z.ltb_spec (len pre) (len (pre ++ [x]))) as [_|Hlt]; [|rewrite len_app in Hlt; change (len [x]) with 1 in Hlt; lia].
    assert (EN : getZ (pre ++ [x]) (len pre + 1) = None).
    { apply getZ_None. right. rewrite len_app. change (len [x]) with 1. lia. }
    rewrite idx_next. unfold idx. by rewrite EN.
  - destruct l as [|x [|y l]]; simpl in Hl; try lia. cbn [sum_words]. pose proof (len_nonneg pre). pose proof (len_nonneg l).
    destruct (Z.ltb_spec (len pre) (len (pre ++ x :: y :: l))) as [_|Hlt];
      [|rewrite len_app, !len_cons in Hlt; lia].
    rewrite idx_next, idx_second. cbn [mbind outcome_bind].
    specialize (IH fuel (pre ++ [x; y]) l (as_u32 (sum + Z.lor (Z.shiftl x 8) y)) ltac:(lia) ltac:(lia)).
    rewrite <-app_assoc in IH. cbn [app] in IH. rewrite len_app in IH. exact IH.
Qed.

(** Folding keeps the value modulo 65535 and stays 0 only for 0. *)
Lemma fold_step s : 0 <= s -> Z.land s 0xFFFF + Z.shiftr s 16 = s - 65535 * (s / 65536).
Proof.
  intros Hs. assert (E : Z.land s 0xFFFF = s mod 65536) by by apply (Z.land_ones s 16).
  rewrite E, (Z.shiftr_div_pow2 s 16) by lia. change (2 ^ 16) with 65536. Z.to_euclidean_division_equations. lia.
Qed.

Lemma fold_carries_spec s : 0 <= s < 2 ^ 32 ->
  exists q, fold_carries 3 s = s - 65535 * q /\ 0 <= q /\ 0 <= fold_carries 3 s <= 65535 /\
    (fold_carries 3 s = 0 -> s = 0).
Proof.
  intros Hs. cbn [fold_carries].
  assert (Z0 : forall x, 0 <= x -> (Z.shiftr x 16 =? 0) = (x <? 65536)).
  { intros x Hx. rewrite (Z.shiftr_div_pow2 x 16) by lia. change (2 ^ 16) with 65536.
    destruct (Z.eqb_spec (x / 65536) 0), (Z.ltb_spec x 65536); try done; Z.to_euclidean_division_equations; lia. }
  rewrite Z0 by lia. destruct (Z.ltb_spec s 65536); [exists 0; lia|].
  rewrite fold_step by lia. set (q1 := s / 65536).
  assert (B1 : 1 <= q1 <= 65535 /\ 0 <= s - 65536 * q1 < 65536) by (subst q1; Z.to_euclidean_division_equations; lia).
  rewrite Z0 by lia. destruct (Z.ltb_spec (s - 65535 * q1) 65536); [exists q1; lia|].
  rewrite fold_step by lia. set (q2 := (s - 65535 * q1) / 65536).
  assert (B2 : q2 = 1) by (subst q2; Z.to_euclidean_division_equations; lia). rewrite B2.
  rewrite Z0 by lia. destruct (Z.ltb_spec (s - 65535 * q1 - 65535 * 1) 65536); [|lia].
  exists (q1 + 1). lia.
Qed.

Definition header_ok (h : list Z) : Prop := bytes_ok h /\ even_length h /\ len h <= 60.

Lemma checksum_value {E} h : header_ok h ->
  @compute_ip_checksum E h = Ok (65535 - fold_carries 3 (word_sum h)) /\
  0 <= word_sum h < 2 ^ 32 /\ 0 <= fold_carries 3 (word_sum h) <= 65535.
Proof.
  intros (Hb & Hk & Hl). pose proof (word_sum_bounds h Hb Hk) as B. 
  assert (W : 0 <= word_sum h < 2 ^ 32) by lia.
  destruct (fold_carries_spec _ W) as (q & _ & _ & Bf & _). split_and!; try lia.
  unfold compute_ip_checksum. destruct Hk as [k Hk].
  pose proof (@sum_words_value E k (length h) [] h 0 Hk ltac:(lia) Hb ltac:(lia) ltac:(lia)) as S.
  cbn [app] in S. change (len []) with 0 in S. rewrite S. cbn [mbind outcome_bind]. rewrite Z.add_0_l.
  unfold mret, outcome_ret. do 2 f_equal. apply wrapU_small. lia.
Qed.

(** A header with its checksum sums to all ones. *)
Lemma checksum_field a b : header_ok (a ++ Z_to_be 2 0 ++ b) -> even_length a ->
  @compute_ip_checksum SendError
    (a ++ Z_to_be 2 (65535 - fold_carries 3 (word_sum (a ++ Z_to_be 2 0 ++ b))) ++ b) = Ok 0.
Proof.
  change (Z_to_be 2 0) with [0; 0]. intros H Ha. destruct (@checksum_value SendError _ H) as (E & W & B).
  set (r := fold_carries 3 _) in *.
  destruct H as (Hb & Hk & Hl). apply Forall_app in Hb as [Hba Hb]. apply Forall_app in Hb as [_ Hbb].
  assert (H' : header_ok (a ++ Z_to_be 2 (65535 - r) ++ b)).
  { split_and!.
    - apply Forall_app_2; [done|]. apply Forall_app_2; [apply Z_to_be_bytes|done].
    - destruct Hk as [k Hk]. exists k. by rewrite !length_app, length_Z_to_be, <-Hk, !length_app.
    - unfold len in *. by rewrite !length_app, length_Z_to_be; rewrite !length_app in Hl. }
  destruct (@checksum_value SendError _ H') as (E' & W' & B'). rewrite E'.
  assert (S : forall x y, word_sum (a ++ [x; y] ++ b) = word_sum a + (x * 256 + y) + word_sum b).
  { intros. rewrite word_sum_app by done. cbn [app word_sum]. lia. }
  assert (EW : word_sum (a ++ Z_to_be 2 (65535 - r) ++ b) = word_sum (a ++ [0; 0] ++ b) + (65535 - r)).
  { change (Z_to_be 2 (65535 - r)) with [(65535 - r) / 256 mod 256; (65535 - r) mod 256].
    rewrite !S. Z.to_euclidean_division_equations. lia. }
  destruct (fold_carries_spec _ W) as (q & Eq & Hq & _ & Z1). fold r in Eq, Z1.
  destruct (fold_carries_spec _ W') as (q' & Eq' & Hq' & _ & Z1').
  rewrite EW in *. set (r' := fold_carries 3 _) in *. f_equal. lia.
Qed.

(** The checksum is the one of RFC 1071: a header of at most 60 bytes in which
    it replaces a zeroed field sums to all ones, so the same function returns 0
    on it; and it panics on every header of odd length. *)
Theorem ip_checksum_verifies a b :
  header_ok (a ++ [0; 0] ++ b) -> even_length a ->
  exists c, @compute_ip_checksum SendError (a ++ [0; 0] ++ b) = Ok c /\ in_u16 c /\
    @compute_ip_checksum SendError (a ++ Z_to_be 2 c ++ b) = Ok 0 /\
    (forall h k, length h = (2 * k + 1)%nat -> @compute_ip_checksum SendError h = Panic IndexOutOfBounds).
Proof.
  intros H Ha. destruct (@checksum_value SendError _ H) as (E & W & B). eexists; split; [exact E|].
  split; [unfold in_u16; lia|]. split; [by apply checksum_field|].
  intros h k Hh. unfold compute_ip_checksum.
  pose proof (@sum_words_odd SendError k (length h) [] h 0 Hh ltac:(lia)) as P. cbn [app] in P.
  change (len []) with 0 in P. by rewrite P.
Qed.

(** The header of the first packet of a frame. *)
Theorem ip_checksum_verifies_witness :
  exists c, @compute_ip_checksum SendError ([69; 0; 5; 156; 0; 0; 64; 0; 64; 17] ++ [0; 0] ++
    [192; 168; 1; 10; 192; 168; 1; 20]) = Ok c /\ in_u16 c.
Proof.
  destruct (ip_checksum_verifies [69; 0; 5; 156; 0; 0; 64; 0; 64; 17] [192; 168; 1; 10; 192; 168; 1; 20])
    as (c & H1 & H2 & _).
  - split_and!; [unfold bytes_ok; compute_fact|by exists 10%nat|unfold len; simpl; lia].
  - by exists 5%nat.
  - exists c. exact (conj H1 H2).
Defined.

(** * A packet *)

(** A buffer whose beginning has been overwritten. *)
Definition written (p buf : list Z) : list Z := p ++ drop (length p) buf.

Lemma len_overwritten p buf : len p <= len buf -> len (written p buf) = len buf.
Proof. intros H. unfold written. rewrite len_app. unfold len in *. rewrite length_drop. lia. Qed.

Lemma drop_written a (s s' b buf : list Z) : length s = length s' ->
  drop (length a + length s') (written (a ++ s ++ b) buf) = b ++ drop (length (a ++ s ++ b)) buf.
Proof.
  intros H. unfold written. rewrite <-H, <-length_app, <-!app_assoc, (app_assoc a). apply drop_app_length.
Qed.

Lemma put_replace a s s' b buf i : i = len a -> length s = length s' -> len (a ++ s ++ b) <= len buf ->
  put (written (a ++ s ++ b) buf) i s' = Ok (written (a ++ s' ++ b) buf).
Proof.
  intros -> Hs Hl. unfold put. rewrite blit_in_range.
  - f_equal. unfold splice. replace (Z.to_nat (len a)) with (length a) by (unfold len; lia).
    rewrite drop_written by done. unfold written. rewrite <-app_assoc, take_app_length, <-!app_assoc.
    do 4 f_equal. rewrite !length_app. lia.
  - apply len_nonneg.
  - rewrite len_overwritten by done. rewrite !len_app in Hl. pose proof (len_nonneg b).
    unfold len in *. lia.
Qed.

Lemma written_app p s buf : written (p ++ s) buf = p ++ written s (drop (length p) buf).
Proof. unfold written. by rewrite <-app_assoc, drop_drop, length_app. Qed.

Lemma put_next p s buf i : i = len p -> len p + len s <= len buf ->
  put (written p buf) i s = Ok (written (p ++ s) buf).
Proof.
  intros -> Hl. unfold put. pose proof (len_nonneg p). pose proof (len_nonneg s).
  rewrite blit_in_range by (rewrite ?len_overwritten; lia). f_equal.
  unfold splice, written. replace (Z.to_nat (len p)) with (length p) by (unfold len; lia).
  rewrite take_app_length, <-app_assoc. do 2 f_equal.
  rewrite drop_app_ge by lia. rewrite drop_drop, length_app. f_equal. lia.
Qed.

Lemma put1_next p x buf i : i = len p -> len p + 1 <= len buf ->
  put1 (written p buf) i x = Ok (written (p ++ [x]) buf).
Proof.
  intros -> Hl. pose proof (len_nonneg p). unfold put1.
  rewrite upd_in_range by (rewrite ?len_overwritten; lia).
  rewrite setZ_splice by (rewrite ?len_overwritten; lia).
  pose proof (put_next p [x] buf (len p) eq_refl Hl) as E. unfold put in E.
  rewrite blit_in_range in E by (rewrite ?len_overwritten; change (len [x]) with 1; lia). exact E.
Qed.

Lemma slice_written p buf i j : 0 <= i <= j -> j <= len p -> len p <= len buf ->
  (slice (written p buf) i j : nres _) = Ok (sub p i j).
Proof.
  intros Hi Hj Hl. rewrite slice_in_range by (rewrite ?len_overwritten; lia). f_equal.
  unfold sub, written. rewrite drop_app_le by (unfold len in *; lia).
  apply take_app_le. rewrite length_drop. unfold len in *. lia.
Qed.

Lemma len_be n z : len (Z_to_be n z) = Z.of_nat n.
Proof. unfold len. by rewrite length_Z_to_be. Qed.

Ltac lens := rewrite ?len_app, ?len_be, ?len_replicate, ?len_cons, ?len_nil; try lia.

Definition eth_bytes (mac : list Z) : list Z := dst_mac ++ mac ++ Z_to_be 2 0x0800.

Definition ip_start (frame : FrameHandle) (n : Z) : list Z :=
  [0x45; 0] ++ Z_to_be 2 (as_u16 (20 + 8 + 12 + n + 16)) ++ sub (Z_to_be 8 (frame_id frame)) 6 8 ++
  Z_to_be 2 0x4000 ++ [64; 17].
Definition ip_addresses : list Z := [192; 168; 1; 10; 192; 168; 1; 20].
Definition ip_bytes (frame : FrameHandle) (n : Z) (csum : list Z) : list Z :=
  ip_start frame n ++ csum ++ ip_addresses.

Definition udp_bytes (n : Z) : list Z :=
  Z_to_be 2 5004 ++ Z_to_be 2 5004 ++ Z_to_be 2 (as_u16 (8 + 12 + n + 16)) ++ Z_to_be 2 0.

Definition srtp_bytes (frame : FrameHandle) (seq : Z) : list Z :=
  [0x80; RTP_PAYLOAD_TYPE_VIDEO] ++ Z_to_be 2 seq ++
  Z_to_be 4 (as_u32 (Z.land (vblank_tsc frame) 0xFFFFFFFF)) ++ Z_to_be 4 RTP_SSRC_VIDEO.

Definition ip_csum (frame : FrameHandle) (n : Z) : Z :=
  65535 - fold_carries 3 (word_sum (ip_bytes frame n (Z_to_be 2 0))).

Definition stream_key : Aes128Key := aes_key_new STATIC_MASTER_KEY.
Definition stream_cipher : list Z -> list Z := cipher_of STATIC_MASTER_KEY.

Definition payload_of (seq : Z) (chunk : list Z) : list Z := gctr_of stream_cipher (make_iv seq) chunk.
Definition tag_of (seq : Z) (aad ct : list Z) : list Z := gcm_tag stream_cipher (make_iv seq) aad ct.

Definition header_bytes (mac : list Z) (frame : FrameHandle) (seq n : Z) : list Z :=
  (eth_bytes mac ++ ip_bytes frame n (Z_to_be 2 (ip_csum frame n)) ++ udp_bytes n) ++ srtp_bytes frame seq.

Definition packet_bytes (mac : list Z) (frame : FrameHandle) (seq : Z) (chunk : list Z) : list Z :=
  header_bytes mac frame seq (len chunk) ++ payload_of seq chunk ++
  tag_of seq (srtp_bytes frame seq) (payload_of seq chunk).

Section Packet.
Context (mac : list Z) (frame : FrameHandle) (seq : Z) (buf : list Z).
Context (Lmac : len mac = 6) (Lbuf : len buf = 1514).

Lemma eth_header_value : eth_header mac buf = Ok (written (eth_bytes mac) buf).
Proof using All.
  unfold eth_header, eth_bytes. change buf with (written [] buf) at 1.
  rewrite put_next by (try done; unfold dst_mac; lens). cbn [mbind outcome_bind app].
  rewrite put_next by (unfold dst_mac; lens). cbn [mbind outcome_bind].
  rewrite put_next by (unfold dst_mac; lens). by rewrite app_assoc.
Qed.

Lemma len_id : len (sub (Z_to_be 8 (frame_id frame)) 6 8) = 2.
Proof using. rewrite len_sub; rewrite ?len_be; lia. Qed.

Lemma len_ip n csum : len csum = 2 -> len (ip_bytes frame n csum) = 20 /\ len (ip_start frame n) = 10.
Proof using. intros H. unfold ip_bytes, ip_start, ip_addresses. lens. rewrite len_id. lia. Qed.

Lemma len_eth : len (eth_bytes mac) = 14.
Proof using Lmac. unfold eth_bytes, dst_mac. lens. Qed.

Lemma ip_bytes_ok n csum : bytes_ok csum -> bytes_ok (ip_bytes frame n csum).
Proof using.
  intros H. unfold ip_bytes, ip_start, ip_addresses, bytes_ok. rewrite !Forall_app. split_and!.
  all: first [apply Z_to_be_bytes|exact H|apply Forall_sub, Z_to_be_bytes|compute_fact].
Qed.

Lemma ip_header_ok n : header_ok (ip_bytes frame n (Z_to_be 2 0)).
Proof using.
  destruct (len_ip n (Z_to_be 2 0)) as [L _]; [by rewrite len_be|].
  split_and!; [apply ip_bytes_ok, Z_to_be_bytes|exists 10%nat; unfold len in L; lia|lia].
Qed.

Lemma ip_header_value n :
  ip_header frame n (written (eth_bytes mac) buf) =
  Ok (written (eth_bytes mac ++ ip_bytes frame n (Z_to_be 2 (ip_csum frame n))) buf).
Proof using Lmac Lbuf.
  unfold ip_header. pose proof len_eth as Le. pose proof len_id as Li.
  rewrite put1_next by lens. cbn [mbind outcome_bind].
  rewrite put1_next by lens. cbn [mbind outcome_bind].
  do 3 (rewrite put_next by (lens; rewrite ?Li; lia); cbn [mbind outcome_bind]).
  do 2 (rewrite put1_next by (lens; rewrite ?Li; lia); cbn [mbind outcome_bind]).
  do 3 (rewrite put_next by (lens; rewrite ?Li; lia); cbn [mbind outcome_bind]).
  rewrite <-!app_assoc.
  assert (E : forall c, eth_bytes mac ++ [69] ++ [0] ++ Z_to_be 2 (as_u16 (20 + 8 + 12 + n + 16)) ++
    sub (Z_to_be 8 (frame_id frame)) 6 8 ++ Z_to_be 2 0x4000 ++ [64] ++ [17] ++ c ++
    [192; 168; 1; 10] ++ [192; 168; 1; 20] = eth_bytes mac ++ ip_bytes frame n c).
  { intros c. unfold ip_bytes, ip_start. by rewrite <-!app_assoc. }
  rewrite E. destruct (len_ip n (Z_to_be 2 0)) as [L1 L2]; [by rewrite len_be|].
  rewrite slice_written by lens. cbn [mbind outcome_bind].
  assert (Es : sub (eth_bytes mac ++ ip_bytes frame n (Z_to_be 2 0)) 14 34 = ip_bytes frame n (Z_to_be 2 0)).
  { unfold sub. replace (Z.to_nat 14) with (length (eth_bytes mac)) by (unfold len in Le; lia).
    rewrite drop_app_length. apply take_ge. unfold len in L1. lia. }
  rewrite Es. destruct (@checksum_value SendError _ (ip_header_ok n)) as (-> & _ & _).
  cbn [mbind outcome_bind]. unfold ip_bytes. rewrite (app_assoc (eth_bytes mac)).
  rewrite put_replace; [by rewrite <-app_assoc|lens|by rewrite !length_Z_to_be|unfold ip_addresses; lens].
Qed.

Lemma len_csum_ip n : len (ip_bytes frame n (Z_to_be 2 (ip_csum frame n))) = 20.
Proof using. apply len_ip. by rewrite len_be. Qed.

Lemma udp_header_value p n : len p = 34 ->
  udp_header n (written p buf) = Ok (written (p ++ udp_bytes n) buf).
Proof using Lbuf.
  intros Lp. unfold udp_header, udp_bytes.
  do 3 (rewrite put_next by lens; cbn [mbind outcome_bind]).
  rewrite put_next by lens. by rewrite <-!app_assoc.
Qed.

Lemma srtp_header_value p : len p = 42 ->
  srtp_header frame seq (written p buf) = Ok (written (p ++ srtp_bytes frame seq) buf).
Proof using Lbuf.
  intros Lp. unfold srtp_header, srtp_bytes.
  do 2 (rewrite put1_next by lens; cbn [mbind outcome_bind]).
  do 2 (rewrite put_next by lens; cbn [mbind outcome_bind]).
  rewrite put_next by lens. by rewrite <-!app_assoc.
Qed.

Lemma len_iv : len (make_iv seq) = 12.
Proof using. unfold make_iv. by rewrite !len_setZ. Qed.
End Packet.

Lemma default_u8 l i : bytes_ok l -> in_u8 (default 0 (getZ l i)).
Proof.
  intros H. destruct (getZ l i) eqn:E; [|unfold in_u8; cbn; lia]. exact (Forall_getZ _ _ i _ H E).
Qed.

Lemma make_iv_ok seq : bytes_ok (make_iv seq).
Proof.
  assert (M : forall x, in_u8 (Z.land x 0xFF)).
  { intros x. change 0xFF with (Z.ones 8). rewrite Z.land_ones by lia. apply Z.mod_pos_bound. lia. }
  assert (S : forall iv i x, bytes_ok iv ->
    bytes_ok (setZ iv i (Z.lxor (default 0 (getZ iv i)) (Z.land x 0xFF)))).
  { intros iv i x H. apply Forall_setZ; [done|]. apply in_u8_lxor; [by apply default_u8|apply M]. }
  unfold make_iv. do 6 apply S. unfold bytes_ok, STATIC_MASTER_SALT. compute_fact.
Qed.

Lemma len_srtp frame seq : len (srtp_bytes frame seq) = 12.
Proof. unfold srtp_bytes. lens. Qed.

Lemma srtp_ok frame seq : bytes_ok (srtp_bytes frame seq).
Proof.
  unfold srtp_bytes, bytes_ok. rewrite !Forall_app.
  split_and!; first [apply Z_to_be_bytes|compute_fact].
Qed.

Lemma len_tag seq aad ct : len (tag_of seq aad ct) = 16.
Proof.
  unfold tag_of, gcm_tag, len. rewrite length_xor_bytes, length_Z_to_be.
  assert (B : is_block (stream_cipher (make_iv seq ++ Z_to_be 4 1))).
  { apply cipher_block, counter_block; [apply len_iv|apply make_iv_ok]. }
  destruct B as [-> _]. done.
Qed.

Lemma stream_encrypt seq frame chunk : bytes_ok chunk ->
  aes_128_gcm_encrypt stream_key (make_iv seq) (srtp_bytes frame seq) chunk =
  (payload_of seq chunk, tag_of seq (srtp_bytes frame seq) (payload_of seq chunk)) /\
  len (payload_of seq chunk) = len chunk /\ bytes_ok (payload_of seq chunk).
Proof.
  intros H. split; [|split].
  - apply gcm_encrypt_value; [apply len_iv|apply make_iv_ok|apply srtp_ok|done].
  - unfold len. f_equal. apply length_gctr; [apply cipher_block|apply len_iv|apply make_iv_ok|done].
  - apply bytes_gctr; [apply cipher_block|apply len_iv|apply make_iv_ok|done].
Qed.

Lemma encrypt_payload_value frame seq chunk p buf : len p = 42 -> len buf = 1514 -> bytes_ok chunk ->
  len chunk <= 1380 -> let ct := payload_of seq chunk in
  encrypt_payload stream_key seq chunk (written (p ++ srtp_bytes frame seq) buf) =
  Ok (written ((p ++ srtp_bytes frame seq) ++ ct ++ tag_of seq (srtp_bytes frame seq) ct) buf).
Proof.
  intros Lp Lb Hc Lc ct. unfold encrypt_payload. pose proof (len_srtp frame seq) as Ls.
  destruct (stream_encrypt seq frame chunk Hc) as (E & Le & _). pose proof (len_nonneg chunk).
  set (q := p ++ srtp_bytes frame seq). assert (Lq : len q = 54) by (subst q; lens).
  rewrite put_next by lens. cbn [mbind outcome_bind].
  rewrite slice_written by lens. cbn [mbind outcome_bind].
  rewrite slice_written by lens. cbn [mbind outcome_bind].
  assert (E1 : sub (q ++ chunk) 42 54 = srtp_bytes frame seq).
  { subst q. unfold sub. rewrite <-app_assoc. replace (Z.to_nat 42) with (length p) by (unfold len in Lp; lia).
    rewrite drop_app_length. rewrite take_app_le, take_ge; [done| |]; unfold len in Ls; lia. }
  assert (E2 : sub (q ++ chunk) 54 (54 + len chunk) = chunk).
  { unfold sub. replace (Z.to_nat 54) with (length q) by (unfold len in Lq; lia).
    rewrite drop_app_length. apply take_ge. unfold len. lia. }
  rewrite E1, E2, E. fold ct in Le |- *.
  assert (Er : put (written (q ++ chunk) buf) 54 ct = Ok (written (q ++ ct) buf)).
  { pose proof (put_replace q chunk ct [] buf 54) as R. rewrite !app_nil_r in R.
    apply R; [lia|unfold len in Le; lia|lens]. }
  rewrite Er. cbn [mbind outcome_bind]. pose proof (len_tag seq (srtp_bytes frame seq) ct) as Lt.
  rewrite put_next by (lens; rewrite ?Lt; lia). by rewrite <-app_assoc.
Qed.

(** The packet is at the beginning of the buffer, the rest is unchanged. *)
Lemma build_packet_value mac frame seq chunk buf :
  len mac = 6 -> len buf = 1514 -> bytes_ok chunk -> len chunk <= 1380 ->
  build_packet mac stream_key frame seq chunk buf = Ok (written (packet_bytes mac frame seq chunk) buf).
Proof.
  intros Lm Lb Hc Lc. unfold build_packet.
  rewrite eth_header_value by done. cbn [mbind outcome_bind].
  rewrite ip_header_value by done. cbn [mbind outcome_bind].
  pose proof (len_eth mac Lm) as Le. pose proof (len_csum_ip frame (len chunk)) as Li.
  rewrite udp_header_value by (done || lens). cbn [mbind outcome_bind].
  rewrite srtp_header_value by (done || (unfold udp_bytes; lens)). cbn [mbind outcome_bind].
  rewrite encrypt_payload_value by (try done; unfold udp_bytes; lens).
  unfold packet_bytes, header_bytes. by rewrite <-!app_assoc.
Qed.

(** * The receiver *)

(** What the peer of the stream does with a packet: the checks of IPv4, UDP and
    SRTP, and the decryption. The sequence number and the payload. *)
Definition receive (p : list Z) : option (Z * list Z) :=
  let n := len p in
  let seq := be_to_Z (sub p 44 46) in
  let ct := sub p 54 (n - 16) in
  if bool_decide (@compute_ip_checksum SendError (sub p 14 34) = Ok 0)
     && (be_to_Z (sub p 16 18) =? n - 14) && (be_to_Z (sub p 38 40) =? n - 34)
     && (be_to_Z (sub p 50 54) =? RTP_SSRC_VIDEO)
     && bool_decide (sub p (n - 16) n = tag_of seq (sub p 42 54) ct)
  then Some (seq, payload_of seq ct) else None.

Lemma field (p a b c : list Z) i j : p = a ++ b ++ c -> i = len a -> j = len a + len b -> sub p i j = b.
Proof.
  intros -> -> ->. unfold sub. replace (Z.to_nat (len a)) with (length a) by (unfold len; lia).
  rewrite drop_app_length. rewrite take_app_le by (unfold len; lia). apply take_ge. unfold len. lia.
Qed.

Lemma be_small n z : 0 <= z < 256 ^ Z.of_nat n -> be_to_Z (Z_to_be n z) = z.
Proof. intros H. rewrite be_to_Z_to_be. by apply Z.mod_small. Qed.

Lemma payload_twice seq chunk : payload_of seq (payload_of seq chunk) = chunk.
Proof.
  unfold payload_of, gctr_of. pose proof (cipher_block STATIC_MASTER_KEY) as B.
  rewrite length_gctr; [|done|apply len_iv|apply make_iv_ok|done].
  apply gctr_twice; [done|apply len_iv|apply make_iv_ok|done].
Qed.

Lemma ip_verifies frame n : @compute_ip_checksum SendError (ip_bytes frame n (Z_to_be 2 (ip_csum frame n))) = Ok 0.
Proof.
  pose proof (ip_header_ok frame n) as H. unfold ip_bytes in H |- *.
  destruct (@checksum_value SendError _ H) as (E & W & B).
  pose proof (checksum_field (ip_start frame n) ip_addresses H) as F. unfold ip_csum.
  unfold ip_bytes. apply F. destruct (len_ip frame n (Z_to_be 2 0)) as [_ L]; [by rewrite len_be|].
  exists 5%nat. unfold len in L. lia.
Qed.

Lemma len_packet mac frame seq chunk : len mac = 6 -> bytes_ok chunk ->
  len (packet_bytes mac frame seq chunk) = 70 + len chunk.
Proof.
  intros Lm Hc. destruct (stream_encrypt seq frame chunk Hc) as (_ & Le & _).
  unfold packet_bytes, header_bytes, udp_bytes. rewrite !len_app, len_eth, len_csum_ip, len_srtp, len_tag, Le by done.
  rewrite !len_be. lia.
Qed.

Lemma receive_packet mac frame seq chunk : len mac = 6 -> in_u16 seq -> bytes_ok chunk -> len chunk <= 1380 ->
  receive (packet_bytes mac frame seq chunk) = Some (seq, chunk).
Proof.
  intros Lm Hs Hc Lc. pose proof (len_packet mac frame seq chunk Lm Hc) as Lp. unfold receive. rewrite Lp.
  set (n := len chunk) in *. assert (Hn : 0 <= n) by apply len_nonneg.
  destruct (stream_encrypt seq frame chunk Hc) as (_ & Le & _). fold n in Le.
  pose proof (len_eth mac Lm) as L1. pose proof (len_csum_ip frame n) as L2. pose proof (len_srtp frame seq) as L3.
  set (ct := payload_of seq chunk) in *. pose proof (len_tag seq (srtp_bytes frame seq) ct) as L4.
  set (p := packet_bytes mac frame seq chunk) in *.
  set (e := eth_bytes mac) in *. set (ip := ip_bytes frame n (Z_to_be 2 (ip_csum frame n))) in *.
  set (tag := tag_of seq (srtp_bytes frame seq) ct) in *.
  assert (Ep : p = e ++ ip ++ udp_bytes n ++ srtp_bytes frame seq ++ ct ++ tag).
  { unfold p, packet_bytes, header_bytes. by rewrite <-!app_assoc. }
  assert (Lu : len (udp_bytes n) = 8) by (unfold udp_bytes; lens).
  assert (F1 : sub p 14 34 = ip) by (apply (field p e ip _ 14 34 Ep); lia).
  assert (F2 : sub p 42 54 = srtp_bytes frame seq).
  { apply (field p (e ++ ip ++ udp_bytes n) _ (ct ++ tag)); [by rewrite Ep, <-!app_assoc|lens|lens]. }
  assert (F3 : sub p 54 (70 + n - 16) = ct).
  { apply (field p (e ++ ip ++ udp_bytes n ++ srtp_bytes frame seq) _ tag); [by rewrite Ep, <-!app_assoc|lens|lens]. }
  assert (F4 : sub p (70 + n - 16) (70 + n) = tag).
  { apply (field p (e ++ ip ++ udp_bytes n ++ srtp_bytes frame seq ++ ct) _ []);
      [by rewrite Ep, <-!app_assoc, app_nil_r|lens|lens]. }
  assert (F5 : sub p 44 46 = Z_to_be 2 seq).
  { eapply (field p ((e ++ ip ++ udp_bytes n) ++ [0x80; RTP_PAYLOAD_TYPE_VIDEO]) _ _);
      [rewrite Ep; unfold srtp_bytes; by rewrite <-!app_assoc|lens|lens]. }
  assert (F6 : sub p 50 54 = Z_to_be 4 RTP_SSRC_VIDEO).
  { eapply (field p ((e ++ ip ++ udp_bytes n) ++ [0x80; RTP_PAYLOAD_TYPE_VIDEO] ++ Z_to_be 2 seq ++
      Z_to_be 4 (as_u32 (Z.land (vblank_tsc frame) 0xFFFFFFFF))) _ _);
      [rewrite Ep; unfold srtp_bytes; by rewrite <-!app_assoc|lens|lens]. }
  assert (F7 : sub p 16 18 = Z_to_be 2 (as_u16 (20 + 8 + 12 + n + 16))).
  { eapply (field p (e ++ [0x45; 0]) _ _);
      [rewrite Ep; unfold ip, ip_bytes, ip_start; by rewrite <-!app_assoc|lens|lens]. }
  assert (F8 : sub p 38 40 = Z_to_be 2 (as_u16 (8 + 12 + n + 16))).
  { eapply (field p ((e ++ ip) ++ Z_to_be 2 5004 ++ Z_to_be 2 5004) _ _);
      [rewrite Ep; unfold udp_bytes; by rewrite <-!app_assoc|lens|lens]. }
  rewrite F1, F2, F3, F4, F5, F6, F7, F8.
  assert (U : forall x, 0 <= x < 65536 -> be_to_Z (Z_to_be 2 (as_u16 x)) = x).
  { intros x Hx. assert (E : as_u16 x = x) by (apply wrapU_small; lia). rewrite E. apply be_small. done. }
  rewrite !U by lia. rewrite (be_small 2 seq Hs). rewrite (be_small 4 RTP_SSRC_VIDEO) by (unfold RTP_SSRC_VIDEO; lia).
  rewrite (bool_decide_true _ (ip_verifies frame n)).
  rewrite (bool_decide_true (tag = _)) by reflexivity.
  destruct (Z.eqb_spec (20 + 8 + 12 + n + 16) (70 + n - 14)); [|lia].
  destruct (Z.eqb_spec (8 + 12 + n + 16) (70 + n - 34)); [|lia].
  rewrite Z.eqb_refl. cbn [andb]. unfold ct. by rewrite payload_twice.
Qed.

(** * The frame on the wire *)

Definition next_seq (seq : Z) : Z := as_u16 (seq + 1).

Fixpoint chunks (fuel : nat) (data : list Z) : list (list Z) :=
  match fuel, data with
  | S fuel, _ :: _ => take 1380 data :: chunks fuel (drop 1380 data)
  | _, _ => []
  end.

Definition chunks_of (data : list Z) : list (list Z) := chunks (length data) data.

Fixpoint packets_from (mac : list Z) (frame : FrameHandle) (seq : Z) (cs : list (list Z)) : list (list Z) :=
  match cs with
  | [] => []
  | c :: cs => packet_bytes mac frame seq c :: packets_from mac frame (next_seq seq) cs
  end.

(** Chunks with their sequence numbers. *)
Fixpoint numbered (seq : Z) (cs : list (list Z)) : list (Z * list Z) :=
  match cs with
  | [] => []
  | c :: cs => (seq, c) :: numbered (next_seq seq) cs
  end.

(** A sink that also records the packets that were accepted, oldest first. *)
#[export] Instance logged_sink {S} `{PacketSink S} : PacketSink (S * list (list Z)) :=
  fun p s => let '(ok, sk) := sink_send p s.1 in (ok, (sk, if ok then s.2 ++ [p] else s.2)).

Definition wire_bytes (cs : list (list Z)) : Z := foldr (fun c n => 70 + len c + n) 0 cs.

Section Loop.
Context {S : Type} `{PacketSink S} (clock : Z -> Z) (deadline : Z) (mac : list Z) (frame : FrameHandle).
Context (data : list Z) (Lmac : len mac = 6) (Hdata : bytes_ok data).

(** How a run ended: [k] of the chunks [cs] were accepted. *)
Definition ended (r : nres Z) (cs : list (list Z)) (k : nat) (turn bytes seq seq' : Z) (c c' : controller)
    : Prop :=
  match r with
  | Ok n => k = length cs /\ n = bytes + wire_bytes cs /\ seq' = Nat.iter k next_seq seq /\
      c' = Nat.iter k count_sent c
  | Err DeadlineExceeded => (k < length cs)%nat /\ clock (turn + Z.of_nat k) > deadline /\
      seq' = Nat.iter k next_seq seq /\ c' = count_dropped (Nat.iter k count_sent c)
  | Err NicQueueFull => (k < length cs)%nat /\ seq' = Nat.iter (Datatypes.S k) next_seq seq /\
      c' = Nat.iter k count_sent c
  | _ => False
  end.

Lemma next_seq_u16 seq : in_u16 (next_seq seq).
Proof using. apply as_u16_range. Qed.

Lemma chunk_turn offset : 0 <= offset < len data ->
  let n := Z.min MAX_SRTP_PAYLOAD_CHUNK (len data - offset) in
  let c := sub data offset (offset + n) in
  c = take 1380 (drop (Z.to_nat offset) data) /\ len c = n /\ bytes_ok c /\
  drop (Z.to_nat (offset + n)) data = drop 1380 (drop (Z.to_nat offset) data).
Proof using Lmac Hdata.
  intros Ho n c. assert (E : c = take 1380 (drop (Z.to_nat offset) data)) by (apply (sub_to_end data offset 1380); lia).
  unfold MAX_SRTP_PAYLOAD_CHUNK in n. split_and!; [done| | |].
  - subst c. rewrite len_sub; lia.
  - by apply Forall_sub.
  - rewrite drop_drop. subst n. destruct (Z.min_spec 1380 (len data - offset)) as [[_ ->]|[? ->]].
    + f_equal. lia.
    + rewrite !drop_ge; [done| |]; unfold len in *; lia.
Qed.

Lemma iter_succ_r' {A} (f : A -> A) k x : Nat.iter k f (f x) = Nat.iter (Datatypes.S k) f x.
Proof using. by rewrite Nat.iter_succ_r. Qed.

Lemma ended_step r c d k turn bytes seq seq' ct ct' n : len c = n ->
  ended r d k (turn + 1) (bytes + (14 + 20 + 8 + 12 + n + 16)) (next_seq seq) seq' (count_sent ct) ct' ->
  ended r (c :: d) (Datatypes.S k) turn bytes seq seq' ct ct'.
Proof using.
  intros Lc He. destruct r as [m|[| |]|]; cbn [ended] in *; rewrite ?iter_succ_r' in He; cbn [length].
  - destruct He as (-> & -> & -> & ->). split_and!; [done| |done|done].
    unfold wire_bytes. cbn [foldr]. fold (wire_bytes d). lia.
  - destruct He as (H1 & H2 & -> & ->). split_and!; [lia| |done|done].
    by replace (turn + Z.of_nat (Datatypes.S k)) with (turn + 1 + Z.of_nat k) by lia.
  - destruct He as (H1 & -> & ->). split_and!; [lia|done|done].
  - done.
  - done.
Qed.

Lemma send_loop_spec fuel : forall turn offset bytes buf (s : sender (S * list (list Z))),
  len buf = 1514 -> 0 <= offset -> len data - offset <= Z.of_nat fuel ->
  let '(r, s') := send_loop fuel clock deadline mac stream_key frame data turn offset bytes buf s in
  let cs := chunks fuel (drop (Z.to_nat offset) data) in
  exists k, (sink s').2 = (sink s).2 ++ packets_from mac frame (packet_seq s) (take k cs) /\
    ended r cs k turn bytes (packet_seq s) (packet_seq s') (ctl s) (ctl s').
Proof using Lmac Hdata.
  induction fuel as [|fuel IH]; intros turn offset bytes buf s Lb Ho Hf.
  { cbn. exists 0%nat. cbn. rewrite app_nil_r. split_and!; done || lia. }
  cbn [send_loop]. destruct (Z.ltb_spec offset (len data)) as [Hlt|Hge].
  2: { rewrite drop_ge by (unfold len in *; lia). exists 0%nat. cbn. rewrite app_nil_r. split_and!; done || lia. }
  assert (Ec : exists d, chunks (Datatypes.S fuel) (drop (Z.to_nat offset) data) =
    take 1380 (drop (Z.to_nat offset) data) :: d /\ d = chunks fuel (drop 1380 (drop (Z.to_nat offset) data))).
  { destruct (drop (Z.to_nat offset) data) eqn:Ed; [|eexists; split; reflexivity].
    apply (f_equal length) in Ed. rewrite length_drop in Ed. simpl in Ed. unfold len in *. lia. }
  destruct Ec as (d & Ec & Ed). rewrite Ec.
  destruct (Z.gtb_spec (clock turn) deadline) as [Hc|Hc].
  { exists 0%nat. cbn. rewrite app_nil_r, Z.add_0_r. split_and!; (done || lia). }
  destruct (chunk_turn offset ltac:(lia)) as (E1 & E2 & E3 & E4).
  set (n := Z.min MAX_SRTP_PAYLOAD_CHUNK (len data - offset)) in *.
  set (c := sub data offset (offset + n)) in *. rewrite <-E1.
  assert (Ln : 1 <= n <= 1380) by (subst n; unfold MAX_SRTP_PAYLOAD_CHUNK; lia).
  rewrite build_packet_value by (done || lia).
  pose proof (len_packet mac frame (packet_seq s) c Lmac E3) as Lp.
  rewrite slice_written by lia. rewrite sub_all by lia.
  unfold sink_send at 1. unfold logged_sink at 1. fold (@sink_send S H).
  destruct (sink_send (packet_bytes mac frame (packet_seq s) c) (sink s).1) as [[] sk].
  2: { exists 0%nat. cbn. rewrite app_nil_r. split_and!; (done || lia). }
  set (p := packet_bytes mac frame (packet_seq s) c) in *.
  assert (Lw : len (written p buf) = 1514) by (rewrite len_overwritten; lia).
  specialize (IH (turn + 1) (offset + n) (bytes + (14 + 20 + 8 + 12 + n + 16)) (written p buf)
    (mkSender (as_u16 (packet_seq s + 1)) (sk, (sink s).2 ++ [p]) (count_sent (ctl s))) Lw ltac:(lia) ltac:(lia)).
  destruct (send_loop fuel _ _ _ _ _ _ _ _ _ _ _) as [r s'].
  rewrite E4, <-Ed in IH. destruct IH as (k & Hlog & Hend). cbn [sink snd packet_seq ctl] in Hlog, Hend.
  exists (Datatypes.S k). cbn [take packets_from]. fold p. split; [by rewrite Hlog, <-app_assoc|].
  by apply ended_step with (n := n).
Qed.
End Loop.

Lemma iter_next_seq seq k : in_u16 seq -> Nat.iter k next_seq seq = (seq + Z.of_nat k) mod 2 ^ 16.
Proof.
  intros Hs. induction k as [|k IH]; [cbn [Nat.iter]; rewrite Z.add_0_r; symmetry; by apply Z.mod_small|].
  rewrite Nat.iter_succ, IH. unfold next_seq, as_u16, wrapU. rewrite Z.add_mod_idemp_l by lia. f_equal. lia.
Qed.

Lemma iter_count_sent c k : in_u64 (TOTAL_PACKETS_SENT c) ->
  TOTAL_PACKETS_SENT (Nat.iter k count_sent c) = (TOTAL_PACKETS_SENT c + Z.of_nat k) mod 2 ^ 64 /\
  TOTAL_FRAMES_DROPPED (Nat.iter k count_sent c) = TOTAL_FRAMES_DROPPED c.
Proof.
  intros Hs. induction k as [|k [IH IH']].
  { cbn [Nat.iter]. rewrite Z.add_0_r. split; [symmetry; by apply Z.mod_small|done]. }
  rewrite Nat.iter_succ. unfold count_sent at 1 3. cbn. rewrite IH, IH'. split; [|done].
  unfold as_u64, wrapU. rewrite Z.add_mod_idemp_l by lia. f_equal. lia.
Qed.

Lemma chunks_spec fuel data : (length data <= fuel)%nat -> bytes_ok data ->
  concat (chunks fuel data) = data /\
  Forall (fun c => 1 <= len c <= 1380 /\ bytes_ok c) (chunks fuel data).
Proof.
  revert data. induction fuel as [|fuel IH]; intros data Hf Hb; [destruct data; simpl in *; [done|lia]|].
  destruct data as [|x data]; [done|]. set (l := x :: data) in *.
  assert (E : chunks (S fuel) l = take 1380 l :: chunks fuel (drop 1380 l)) by done. rewrite E.
  destruct (IH (drop 1380 l)) as [IH1 IH2]; [rewrite length_drop; subst l; simpl in *; lia|by apply Forall_drop|].
  split.
  - cbn [concat]. rewrite IH1. apply take_drop.
  - constructor; [|done]. split; [|by apply Forall_take]. unfold len. rewrite length_take. subst l. simpl length. lia.
Qed.

Lemma receive_all mac frame seq cs : len mac = 6 -> in_u16 seq ->
  Forall (fun c => 1 <= len c <= 1380 /\ bytes_ok c) cs ->
  map receive (packets_from mac frame seq cs) = map Some (numbered seq cs).
Proof.
  intros Lm Hs Hc. revert seq Hs. induction Hc as [|c cs [H1 H2] Hc IH]; intros seq Hs; [done|].
  cbn [packets_from numbered map]. rewrite receive_packet by (done || lia). f_equal.
  apply IH, next_seq_u16.
Qed.

(** C10: for every frame of at most 16 MB, every reading of the clock and every
    behaviour of the device, the packets that the device accepted are, to a
    receiver that checks IPv4 checksum, lengths and GCM tag and decrypts, the
    first chunks of the frame with consecutive sequence numbers; nothing panics.
    The result says how far it got: [Ok] with the bytes on the wire when all
    chunks are accepted, which together are the frame; the deadline error after
    a late reading, counted as a dropped frame; the queue error when the device
    refused a packet, whose sequence number is then skipped. *)
Theorem stream_delivers_frame {S} `{PacketSink S} memory clock mac frame deadline sk seq c :
  let data := memory (phys_addr frame) (size frame) in
  len mac = 6 -> bytes_ok data -> len data = size frame -> 0x1000 <= phys_addr frame ->
  0 < size frame <= 16 * 1024 * 1024 -> in_u16 seq -> in_u64 (TOTAL_PACKETS_SENT c) ->
  let '(r, s') := stream_send_frame memory clock mac frame deadline (mkSender seq (sk, []) c) in
  let cs := chunks_of data in
  exists k, (k <= length cs)%nat /\
    map receive (sink s').2 = map Some (numbered seq (take k cs)) /\ concat cs = data /\
    TOTAL_PACKETS_SENT (ctl s') = (TOTAL_PACKETS_SENT c + Z.of_nat k) mod 2 ^ 64 /\
    match r with
    | Ok n => k = length cs /\ n = wire_bytes cs /\ packet_seq s' = (seq + Z.of_nat k) mod 2 ^ 16
    | Err DeadlineExceeded =>
        (exists t, 0 <= t <= Z.of_nat k + 1 /\ clock t > deadline) /\
        packet_seq s' = (seq + Z.of_nat k) mod 2 ^ 16 /\
        TOTAL_FRAMES_DROPPED (ctl s') = as_u64 (TOTAL_FRAMES_DROPPED c + 1)
    | Err NicQueueFull => (k < length cs)%nat /\ packet_seq s' = (seq + Z.of_nat k + 1) mod 2 ^ 16
    | _ => False
    end.
Proof.
  intros data Lm Hb Ld Ha Hsz Hs Hc. unfold stream_send_frame. fold data.
  destruct (chunks_spec (length data) data ltac:(done) Hb) as [Hcat Hcs].
  assert (E0 : seq = (seq + Z.of_nat 0) mod 2 ^ 16) by (rewrite Z.add_0_r; symmetry; by apply Z.mod_small).
  destruct (Z.gtb_spec (clock 0) deadline) as [Hl|Hl].
  { exists 0%nat. cbn [sink ctl snd packet_seq]. split_and!; [lia|done|done| |exists 0; lia|done|done].
    cbn. rewrite Z.add_0_r. symmetry. by apply Z.mod_small. }
  destruct (Z.ltb_spec (phys_addr frame) 0x1000); [lia|].
  destruct (Z.eqb_spec (size frame) 0); [lia|].
  destruct (Z.gtb_spec (size frame) (16 * 1024 * 1024)); [lia|]. cbn [orb].
  fold stream_key. pose proof (send_loop_spec clock deadline mac frame data Lm Hb (length data) 1 0 0
    (replicate 1514 0) (mkSender seq (sk, []) c) eq_refl ltac:(lia) ltac:(unfold len; lia)) as L.
  destruct (send_loop _ _ _ _ _ _ _ _ _ _ _ _) as [r s']. destruct L as (k & Hlog & Hend).
  cbn [sink snd packet_seq ctl app] in Hlog, Hend. rewrite drop_0 in Hlog, Hend.
  fold (chunks_of data) in Hlog, Hend, Hcat, Hcs. destruct (iter_count_sent c k Hc) as [C1 C2].
  exists k. rewrite Hlog. pose proof (receive_all mac frame seq (take k (chunks_of data)) Lm Hs
    ltac:(by apply Forall_take)) as HR.
  destruct r as [m|[| |]|]; cbn [ended] in Hend; try done.
  - destruct Hend as (-> & -> & -> & ->). split_and!; try done. by apply iter_next_seq.
  - destruct Hend as (Hk & Ht & -> & ->). split_and!; try done; try lia.
    + exists (1 + Z.of_nat k). lia.
    + by apply iter_next_seq.
    + cbn. by rewrite C2.
  - destruct Hend as (Hk & -> & ->). split_and!; try done; try lia.
    rewrite iter_next_seq by done. f_equal. lia.
Qed.

Lemma make_iv_eq seq : make_iv seq =
  [0xA5; 0x5A; 0xA5; 0x5A; Z.lxor 0xA5 0x12; Z.lxor 0x5A 0x34; Z.lxor 0xA5 0x56; Z.lxor 0x5A 0x78; 0xA5; 0x5A;
   Z.lxor 0xA5 (Z.land (Z.shiftr seq 8) 0xFF); Z.lxor 0x5A (Z.land seq 0xFF)].
Proof. reflexivity. Qed.

Lemma make_iv_inj a b : in_u16 a -> in_u16 b -> make_iv a = make_iv b -> a = b.
Proof.
  intros Ha Hb. rewrite !make_iv_eq. intros H.
  assert (H1 : Z.lxor 0xA5 (Z.land (Z.shiftr a 8) 0xFF) = Z.lxor 0xA5 (Z.land (Z.shiftr b 8) 0xFF)) by congruence.
  assert (H2 : Z.lxor 0x5A (Z.land a 0xFF) = Z.lxor 0x5A (Z.land b 0xFF)) by congruence.
  apply lxor_cancel_l in H1, H2.
  assert (M : forall x, Z.land x 0xFF = x mod 256) by (intros x; by apply (Z.land_ones x 8)).
  rewrite !M, !(Z.shiftr_div_pow2 _ 8) in * by lia. change (2 ^ 8) with 256 in *. unfold in_u16 in *.
  Z.to_euclidean_division_equations. lia.
Qed.

Lemma xor_bytes_app a a' b b' : length a = length a' ->
  xor_bytes (a ++ b) (a' ++ b') = xor_bytes a a' ++ xor_bytes b b'.
Proof. intros. unfold xor_bytes. by apply zip_with_app. Qed.

Lemma xor_common a b k : length a = length b -> (length a <= length k)%nat ->
  xor_bytes (xor_bytes a k) (xor_bytes b k) = xor_bytes a b.
Proof.
  revert b k. induction a as [|x a IH]; intros [|y b] [|z k] L Lk; simpl in *; try lia; try done.
  unfold xor_bytes in *. cbn [zip_with]. rewrite IH by lia. f_equal.
  rewrite (Z.lxor_comm y z), Z.lxor_assoc, <-(Z.lxor_assoc z z y).
  by rewrite Z.lxor_nilpotent, Z.lxor_0_l.
Qed.

Lemma gctr_xor E iv fuel c p q : block_cipher E -> len iv = 12 -> bytes_ok iv ->
  length p = length q -> (length p <= fuel)%nat ->
  xor_bytes (gctr fuel E iv c p) (gctr fuel E iv c q) = xor_bytes p q.
Proof.
  intros HE Li Bi. revert c p q. induction fuel as [|fuel IH]; intros c p q L Lf.
  { destruct p, q; simpl in *; (done || lia). }
  destruct (decide (length p = 0)%nat) as [H0|H0].
  { destruct p, q; simpl in *; (done || lia). }
  rewrite !gctr_cons by lia. destruct (key_block E HE iv Li Bi c) as [Lk _].
  rewrite xor_bytes_app by (rewrite !length_xor_bytes, !length_take; lia).
  rewrite xor_common by (rewrite ?length_take; lia).
  rewrite IH by (rewrite ?length_drop; lia). rewrite <-xor_bytes_app by (rewrite !length_take; lia).
  by rewrite !take_drop.
Qed.

(** The nonce is determined by the 16-bit sequence number (no rollover counter
    enters it, and the key is a constant), so packets 65,536 apart use the same
    key and nonce, and the exclusive or of their payloads is that of their
    plaintexts. Within 65,536 packets nonces are distinct. *)
Theorem nonce_reuse :
  (forall seq k p q, in_u16 seq -> (65536 | Z.of_nat k) -> length p = length q ->
     let seq' := Nat.iter k next_seq seq in
     make_iv seq' = make_iv seq /\
     xor_bytes (payload_of seq p) (payload_of seq' q) = xor_bytes p q) /\
  (forall a b, in_u16 a -> in_u16 b -> make_iv a = make_iv b -> a = b).
Proof.
  split; [|exact make_iv_inj]. intros seq k p q Hs [m Hm] L seq'. assert (E : seq' = seq).
  { subst seq'. rewrite iter_next_seq, Hm by done. change 65536 with (2 ^ 16).
    rewrite Z.mod_add by lia. by apply Z.mod_small. }
  rewrite E. split; [done|]. unfold payload_of, gctr_of. rewrite <-L.
  apply gctr_xor; [apply cipher_block|apply len_iv|apply make_iv_ok|done|lia].
Qed.

(** A frame of 1,400 bytes to a device that accepts everything, at 1 us a turn. *)
#[local] Instance open_sink : PacketSink unit := fun _ s => (true, s).

Definition demo_frame : FrameHandle := mkFrame 0 1 1920 1080 7680 0x100000 1400 0 0 0.

Theorem stream_delivers_frame_witness :
  exists k, map receive (sink (stream_send_frame (fun _ n => replicate (Z.to_nat n) 7) (fun k => k)
      [2; 0; 0; 0; 0; 1] demo_frame 1000 (mkSender 65535 (tt, []) controller_new)).2).2 =
    map Some (numbered 65535 (take k (chunks_of (replicate 1400 7)))).
Proof.
  pose proof (stream_delivers_frame (fun _ n => replicate (Z.to_nat n) 7) (fun k => k)
    [2; 0; 0; 0; 0; 1] demo_frame 1000 tt 65535 controller_new eq_refl) as T.
  cbv zeta in T. assert (H7 : bytes_ok (replicate 1400 7)) by (apply Forall_replicate; unfold in_u8; lia).
  specialize (T H7 eq_refl ltac:(cbn; lia) ltac:(cbn; lia) ltac:(unfold in_u16; lia) ltac:(unfold in_u64; cbn; lia)).
  destruct (stream_send_frame _ _ _ _ _ _) as [r s']. destruct T as (k & _ & T & _).
  exists k. exact T.
Defined.
