(* ===== verification/Pipeline.v ===== *)
(** The frame pipeline of the cores (kernel/src/smp.rs): the turns of the capture,
    encode and network loops on the shared frame pool and the two rings, from the
    state in which main.rs starts them, and the turns of the control core, whose
    scripts and commands use the same pool, adapter and rate (lang.rs, shell.rs).
    A turn runs its ring operation whole, which [ring_linearizable] of Ring.v
    allows when one core pushes and one pops; the turns of the cores interleave
    freely. Only the control core's benchmark pushes and pops a ring of other
    cores: the theorems on the order of the frames leave it out, and
    [benchmark_takes_frame] shows what it does to them. *)

From S2P Require Import Prelude RustStd Crc Vfs Tsc Ring Nic Gpu Net.
Local Open Scope Z_scope.

Inductive CoreRole := Control | Capture | Encode | Network.

Definition NUM_CORES : Z := 4.
Definition CORE_ROLES : list CoreRole := [Control; Capture; Encode; Network].

Definition get_core_role (core_id : Z) : CoreRole :=
  if core_id <? NUM_CORES then default Control (getZ CORE_ROLES core_id) else Control.

(** The capacity of both rings. *)
Definition RING_CAP : Z := 16.

Record machine : Type := mkMachine {
  pool : vram;
  CAPTURE_TO_ENCODE_RING : SpscRingBuffer FrameHandle;
  ENCODE_TO_NET_RING : SpscRingBuffer FrameHandle;
  frame_seq : Z; capture_slot : Z; (** locals of the capture loop *)
  net : sender nic; (** [packet_seq] is a local of the network loop *)
  CAPTURED_FRAMES : Z; CONSUMED_FRAMES : Z; NETWORK_FRAMES_SENT : Z;
  LAST_CAPTURE_LATENCY_NS : Z; LAST_FRAME_CRC : Z;
  LAST_CONSUMED_FRAME_ID : Z; LAST_CONSUMED_CRC : Z;
  LAST_NET_SEND_LATENCY_NS : Z; LAST_NET_BYTES_SENT : Z }.

(** The statics as the image has them, and the locals the loops begin with; [n]
    is the adapter as it was found. *)
Definition kernel_image (n : nic) : machine :=
  mkMachine vram_new (ring_new RING_CAP frame_empty) (ring_new RING_CAP frame_empty) 0 0
    (mkSender 1 n controller_new) 0 0 0 0 0 0 0 0 0.

Definition set_net (w : machine) (x : sender nic) : machine :=
  mkMachine (pool w) (CAPTURE_TO_ENCODE_RING w) (ENCODE_TO_NET_RING w) (frame_seq w)
    (capture_slot w) x (CAPTURED_FRAMES w) (CONSUMED_FRAMES w) (NETWORK_FRAMES_SENT w)
    (LAST_CAPTURE_LATENCY_NS w) (LAST_FRAME_CRC w) (LAST_CONSUMED_FRAME_ID w)
    (LAST_CONSUMED_CRC w) (LAST_NET_SEND_LATENCY_NS w) (LAST_NET_BYTES_SENT w).

Definition set_pool (w : machine) (v : vram) : machine :=
  mkMachine v (CAPTURE_TO_ENCODE_RING w) (ENCODE_TO_NET_RING w) (frame_seq w)
    (capture_slot w) (net w) (CAPTURED_FRAMES w) (CONSUMED_FRAMES w) (NETWORK_FRAMES_SENT w)
    (LAST_CAPTURE_LATENCY_NS w) (LAST_FRAME_CRC w) (LAST_CONSUMED_FRAME_ID w)
    (LAST_CONSUMED_CRC w) (LAST_NET_SEND_LATENCY_NS w) (LAST_NET_BYTES_SENT w).

Definition set_capture_ring (w : machine) (r : SpscRingBuffer FrameHandle) : machine :=
  mkMachine (pool w) r (ENCODE_TO_NET_RING w) (frame_seq w)
    (capture_slot w) (net w) (CAPTURED_FRAMES w) (CONSUMED_FRAMES w) (NETWORK_FRAMES_SENT w)
    (LAST_CAPTURE_LATENCY_NS w) (LAST_FRAME_CRC w) (LAST_CONSUMED_FRAME_ID w)
    (LAST_CONSUMED_CRC w) (LAST_NET_SEND_LATENCY_NS w) (LAST_NET_BYTES_SENT w).

Definition set_rate (w : machine) (rate : Z) : machine :=
  let c := ctl (net w) in
  set_net w (mkSender (packet_seq (net w)) (sink (net w))
    (mkCtl (MIN_RTT_NS c) (LAST_RTT_NS c) (DELTA_DELAY_NS c) (as_u8 rate) (CONSECUTIVE_GOOD_FRAMES c)
       (TOTAL_PACKETS_SENT c) (TOTAL_FRAMES_DROPPED c) (TOTAL_ACKS_RECEIVED c))).

Section Turns.
(** The addresses of the slots and the frequency of the counter. *)
Context (addr : Z -> Z) (freq : Z).

(** A turn of the capture core; [vblank] and [done_tsc] are its readings of the
    counter. The handle it captured, and whether it was queued. *)
Definition capture_turn (vblank done_tsc : Z) (m : machine) : (FrameHandle * bool) * machine :=
  let '(handle, v) := capture_frame_zero_copy addr (pool m) (capture_slot m) (frame_seq m) vblank done_tsc in
  let latency := tsc_to_ns (Z.max 0 (capture_done_tsc handle - vblank)) freq in
  let '(ok, r) := push RING_CAP (CAPTURE_TO_ENCODE_RING m) handle in
  ((handle, ok),
   mkMachine v r (ENCODE_TO_NET_RING m)
    (if ok then as_u64 (frame_seq m + 1) else frame_seq m)
    (if ok then (capture_slot m + 1) mod NUM_FRAME_SLOTS else capture_slot m)
    (net m)
    (if ok then as_u64 (CAPTURED_FRAMES m + 1) else CAPTURED_FRAMES m)
    (CONSUMED_FRAMES m) (NETWORK_FRAMES_SENT m) latency (crc32 handle)
    (LAST_CONSUMED_FRAME_ID m) (LAST_CONSUMED_CRC m) (LAST_NET_SEND_LATENCY_NS m) (LAST_NET_BYTES_SENT m)).

(** A turn of the encode core: the handle it took and whether it was forwarded
    (the result of the second push is ignored). *)
Definition encode_turn (m : machine) : option (FrameHandle * bool) * machine :=
  let '(h, r1) := pop RING_CAP (CAPTURE_TO_ENCODE_RING m) in
  match h with
  | Some handle =>
    let '(ok, r2) := push RING_CAP (ENCODE_TO_NET_RING m) handle in
    (Some (handle, ok),
     mkMachine (pool m) r1 r2 (frame_seq m) (capture_slot m) (net m) (CAPTURED_FRAMES m)
       (as_u64 (CONSUMED_FRAMES m + 1)) (NETWORK_FRAMES_SENT m) (LAST_CAPTURE_LATENCY_NS m)
       (LAST_FRAME_CRC m) (frame_id handle) (crc32 handle)
       (LAST_NET_SEND_LATENCY_NS m) (LAST_NET_BYTES_SENT m))
  | None => (None, m)
  end.

(** The bytes at an address: those of the slot it belongs to. *)
Definition slot_memory (v : vram) (a size : Z) : list Z :=
  match List.find (fun i => addr i =? a) (seqZ 0 NUM_FRAME_SLOTS) with
  | Some i => sub (get_frame_slot_data v i) 0 size
  | None => []
  end.

(** A turn of the network core. [clock] gives its readings of the counter: at
    the acknowledgement, for the deadline, before and after sending; [clk] the
    readings while sending. The handle it took and the result of sending it. *)
Definition network_turn (now dl start_tsc end_tsc : Z) (clk : Z -> Z) (m : machine)
    : option (FrameHandle * nres Z) * machine :=
  let s := net m in
  let '(_, n, c) := poll_rx_ack now freq (sink s) (ctl s) in
  let s := mkSender (packet_seq s) n c in
  let '(h, r2) := pop RING_CAP (ENCODE_TO_NET_RING m) in
  match h with
  | Some frame =>
    let deadline_tsc := as_u64 (dl + ns_to_tsc 20000000 freq) in
    let '(res, s) := stream_send_frame (slot_memory (pool m)) clk (src_mac_of n) frame
                       deadline_tsc s in
    (Some (frame, res),
     match res with
     | Ok bytes =>
       mkMachine (pool m) (CAPTURE_TO_ENCODE_RING m) r2 (frame_seq m) (capture_slot m) s
         (CAPTURED_FRAMES m) (CONSUMED_FRAMES m) (as_u64 (NETWORK_FRAMES_SENT m + 1))
         (LAST_CAPTURE_LATENCY_NS m) (LAST_FRAME_CRC m) (LAST_CONSUMED_FRAME_ID m) (LAST_CONSUMED_CRC m)
         (tsc_to_ns (as_u64 (end_tsc - start_tsc)) freq) (as_u64 bytes)
     | _ =>
       mkMachine (pool m) (CAPTURE_TO_ENCODE_RING m) r2 (frame_seq m) (capture_slot m) s
         (CAPTURED_FRAMES m) (CONSUMED_FRAMES m) (NETWORK_FRAMES_SENT m)
         (LAST_CAPTURE_LATENCY_NS m) (LAST_FRAME_CRC m) (LAST_CONSUMED_FRAME_ID m) (LAST_CONSUMED_CRC m)
         (LAST_NET_SEND_LATENCY_NS m) (LAST_NET_BYTES_SENT m)
     end)
  | None =>
    (None,
     mkMachine (pool m) (CAPTURE_TO_ENCODE_RING m) (ENCODE_TO_NET_RING m) (frame_seq m) (capture_slot m) s
       (CAPTURED_FRAMES m) (CONSUMED_FRAMES m) (NETWORK_FRAMES_SENT m) (LAST_CAPTURE_LATENCY_NS m)
       (LAST_FRAME_CRC m) (LAST_CONSUMED_FRAME_ID m) (LAST_CONSUMED_CRC m)
       (LAST_NET_SEND_LATENCY_NS m) (LAST_NET_BYTES_SENT m))
  end.

(** ** The control core *)

(** A frame sent by the control core: the sequence number is a local of its own.
    The result of sending is ignored. *)
Definition control_send (frame : FrameHandle) (deadline seq : Z) (clk : Z -> Z) (m : machine) : machine :=
  let '(_, x) := stream_send_frame (slot_memory (pool m)) clk (src_mac_of (sink (net m))) frame deadline
                   (mkSender seq (sink (net m)) (ctl (net m))) in
  set_net m (mkSender (packet_seq (net m)) (sink x) (ctl x)).

(** [capture_frame_zero_copy] by the control core. *)
Definition control_capture (slot frame vblank done_tsc : Z) (m : machine) : FrameHandle * machine :=
  let '(handle, v) := capture_frame_zero_copy addr (pool m) slot frame vblank done_tsc in
  (handle, set_pool m v).

Definition deadline_50ms (now : Z) : Z := as_u64 (now + ns_to_tsc 50000000 freq).

(** [@gpu_capture]: the handle is dropped. *)
Definition script_capture (vblank done_tsc : Z) (m : machine) : machine :=
  (control_capture 0 1 vblank done_tsc m).2.

(** [@net_send]: the first 1400 bytes of a slot as frame 1. *)
Definition script_send (slot now : Z) (clk : Z -> Z) (m : machine) : machine :=
  let slot := as_u8 slot mod NUM_FRAME_SLOTS in
  let data_slice := get_frame_slot_data (pool m) slot in
  control_send (mkFrame slot 1 FRAME_WIDTH FRAME_HEIGHT FRAME_STRIDE (addr slot)
                  (Z.min 1400 (len data_slice)) 0x12345678 now now)
    (deadline_50ms now) 1 clk m.

(** [@net_send] in the old container: a frame is captured and sent whole. *)
Definition legacy_send (vblank done_tsc now : Z) (clk : Z -> Z) (m : machine) : machine :=
  let '(handle, m) := control_capture 0 1 vblank done_tsc m in
  control_send handle (deadline_50ms now) 1 clk m.

(** [@vram_write]: eight bytes into a slot, where they fit. *)
Definition script_write (slot offset val : Z) (m : machine) : machine :=
  let slot := as_u64 slot mod NUM_FRAME_SLOTS in
  let offset := as_u64 offset in
  let v := pool m in
  let slot_data := get_frame_slot_data v slot in
  if offset + 8 <=? len slot_data then
    set_pool m (mkVram (scratch_buffer v) (scratch_len v)
                  (setZ (frame_pool v) slot (splice slot_data offset (Z_to_le 8 (as_u64 val)))))
  else m.

(** A file written under /vram. *)
Definition shell_write (path data : list Z) (m : machine) : machine :=
  match vfs_write (pool m) path data with Some v => set_pool m v | None => m end.

(** A sample of the shell's [benchmark]: a frame is captured, pushed, a frame is
    popped, and the captured one is sent. *)
Definition benchmark_sample (sample vblank done_tsc now seq : Z) (clk : Z -> Z) (m : machine) : machine :=
  let '(handle, m) := control_capture (sample mod 4) sample vblank done_tsc m in
  let '(_, r) := push RING_CAP (CAPTURE_TO_ENCODE_RING m) handle in
  let '(_, r) := pop RING_CAP r in
  control_send handle (deadline_50ms now) seq clk (set_capture_ring m r).

(** ** The start *)

(** The counter's readings in the checks of main.rs before the loops start. *)
Record startup : Type := mkStartup {
  vblank_start : Z; capture_done : Z; deadline_read : Z; send_clock : Z -> Z;
  expired_read : Z; drop_clock : Z -> Z; tx_read : Z; ack_read : Z }.

(** The state in which START_SIGNAL is set: a test frame with the number 1 has
    been captured into slot 0 and pushed, sent twice, once with a deadline that
    has passed, and an acknowledgement was simulated. The loops' own locals and
    the counters are as they were. The test frame and the state. *)
Definition started (b : startup) (n : nic) : FrameHandle * machine :=
  let '(test_handle, m) := control_capture 0 1 (vblank_start b) (capture_done b) (kernel_image n) in
  let '(_, r) := push RING_CAP (CAPTURE_TO_ENCODE_RING m) test_handle in
  let m := set_capture_ring m r in
  let '(_, s) := stream_send_frame (slot_memory (pool m)) (send_clock b) (src_mac_of n) test_handle
                   (deadline_50ms (deadline_read b)) (net m) in
  let expired_deadline := Z.max 0 (expired_read b - 1000000) in
  let '(_, s) := stream_send_frame (slot_memory (pool m)) (drop_clock b) (src_mac_of (sink s)) test_handle
                   expired_deadline s in
  let c := on_ack_received (ack_read b) (Z.max 0 (tx_read b - 200000)) freq (ctl s) in
  (test_handle, set_net m (mkSender 1 (sink s) c)).

(** * Interleaving *)

Inductive turn : Type :=
| TCapture (vblank done_tsc : Z)
| TEncode
| TNetwork (now dl start_tsc end_tsc : Z) (clk : Z -> Z)
| TAdapter (op : nic_op) (** what the network adapter does by itself *)
| TScriptCapture (vblank done_tsc : Z)
| TScriptSend (slot now : Z) (clk : Z -> Z)
| TLegacySend (vblank done_tsc now : Z) (clk : Z -> Z)
| TScriptRate (rate : Z)
| TScriptWrite (slot offset val : Z)
| TShellWrite (path data : list Z)
| TBenchmark (sample vblank done_tsc now seq : Z) (clk : Z -> Z).

(** A turn of the control core that pushes and pops the first ring. *)
Definition is_benchmark (t : turn) : bool :=
  match t with TBenchmark _ _ _ _ _ _ => true | _ => false end.

(** A turn in which the control core can write a frame slot. *)
Definition writes_slots (t : turn) : bool :=
  match t with
  | TScriptCapture _ _ | TLegacySend _ _ _ _ | TScriptWrite _ _ _ | TShellWrite _ _
  | TBenchmark _ _ _ _ _ _ => true
  | _ => false
  end.

(** The frames that were queued by the capture core, taken by the encode core
    and taken by the network core. *)
Record history : Type := mkHistory {
  queued : list FrameHandle; encoded : list FrameHandle; transmitted : list FrameHandle }.

Definition set_net_nic (m : machine) (n : nic) : machine :=
  set_net m (mkSender (packet_seq (net m)) n (ctl (net m))).

Definition run_turn (t : turn) (s : machine * history) : machine * history :=
  let '(m, hs) := s in
  match t with
  | TCapture vblank done_tsc =>
    let '((h, ok), m) := capture_turn vblank done_tsc m in
    (m, if ok then mkHistory (queued hs ++ [h]) (encoded hs) (transmitted hs) else hs)
  | TEncode =>
    let '(r, m) := encode_turn m in
    (m, if r is Some (h, _) then mkHistory (queued hs) (encoded hs ++ [h]) (transmitted hs) else hs)
  | TNetwork now dl start_tsc end_tsc clk =>
    let '(r, m) := network_turn now dl start_tsc end_tsc clk m in
    (m, if r is Some (h, _) then mkHistory (queued hs) (encoded hs) (transmitted hs ++ [h]) else hs)
  | TAdapter op => (set_net_nic m (run_op op (sink (net m))), hs)
  | TScriptCapture vblank done_tsc => (script_capture vblank done_tsc m, hs)
  | TScriptSend slot now clk => (script_send slot now clk m, hs)
  | TLegacySend vblank done_tsc now clk => (legacy_send vblank done_tsc now clk m, hs)
  | TScriptRate rate => (set_rate m rate, hs)
  | TScriptWrite slot offset val => (script_write slot offset val m, hs)
  | TShellWrite path data => (shell_write path data m, hs)
  | TBenchmark sample vblank done_tsc now seq clk =>
    (benchmark_sample sample vblank done_tsc now seq clk m, hs)
  end.

Definition run_turns (b : startup) (n : nic) (ts : list turn) : machine * history :=
  foldl (flip run_turn) ((started b n).2, mkHistory [] [] []) ts.
End Turns.

(** * The invariant *)

Lemma cap_ok : 0 < RING_CAP < 2 ^ 64 /\ (RING_CAP | 2 ^ 64).
Proof. split; [unfold RING_CAP; lia|]. by exists (2 ^ 60). Qed.

Definition frame_ids (n : nat) : list Z := (fun k => k mod 2 ^ 64) <$> seqZ 0 (Z.of_nat n).

(** The data of a handle's slot still has the checksum of the handle. *)
Definition intact (v : vram) (h : FrameHandle) : Prop :=
  frame_crc32 (sub (get_frame_slot_data v (slot_id h)) 0 4096) = crc32 h.

(** [test] is the frame pushed before the loops start; [undisturbed]: the control
    core has written no slot. *)
Record pipe_ok (test : FrameHandle) (undisturbed : bool) (m : machine) (hs : history) : Prop := {
  ok_ring1 : ring_ok RING_CAP (CAPTURE_TO_ENCODE_RING m);
  ok_ring2 : ring_ok RING_CAP (ENCODE_TO_NET_RING m);
  ok_q1 : exists q1, holds RING_CAP (CAPTURE_TO_ENCODE_RING m) q1 /\ test :: queued hs = encoded hs ++ q1 /\ len q1 <= 16;
  ok_q2 : exists q2, holds RING_CAP (ENCODE_TO_NET_RING m) q2 /\ transmitted hs ++ q2 `sublist_of` encoded hs;
  ok_ids : frame_id <$> queued hs = frame_ids (length (queued hs));
  ok_slots : slot_id <$> queued hs = (fun k => k mod 4) <$> seqZ 0 (len (queued hs));
  ok_seq : frame_seq m = len (queued hs) mod 2 ^ 64;
  ok_slot : capture_slot m = len (queued hs) mod 4;
  ok_captured : CAPTURED_FRAMES m = len (queued hs) mod 2 ^ 64;
  ok_consumed : CONSUMED_FRAMES m = len (encoded hs) mod 2 ^ 64;
  ok_pool : vram_wf (pool m);
  ok_data : undisturbed = true -> forall i h, queued hs !! i = Some h -> (length (queued hs) <= i + 3)%nat -> intact (pool m) h
}.

Section Invariant.
Context (addr : Z -> Z) (freq : Z).

Lemma pattern_wf v slot frame : vram_wf v -> 0 <= slot -> vram_wf (capture_pattern v slot frame).
Proof.
  intros Hv Hs. destruct (get_frame_slot_in v slot Hv Hs) as (s & Hg & Hd & Ls). destruct Hv.
  constructor; try done; cbn [capture_pattern frame_pool].
  - by rewrite len_setZ.
  - apply Forall_setZ; [done|]. rewrite Hd, len_splice; [done|lia|].
    unfold len at 1. rewrite length_Z_to_le. lia.
Qed.

Lemma pattern_same v slot frame : vram_wf v -> 0 <= slot ->
  get_frame_slot_data (capture_pattern v slot frame) slot = splice (get_frame_slot_data v slot) 0 (Z_to_le 4 frame).
Proof.
  intros Hv Hs. unfold get_frame_slot_data at 1. cbn [capture_pattern frame_pool].
  rewrite getZ_setZ_eq; [done|]. rewrite (wf_pool _ Hv). apply Z.mod_pos_bound. unfold NUM_FRAME_SLOTS. lia.
Qed.

Lemma pattern_other v slot frame k : slot mod 4 <> k mod 4 ->
  get_frame_slot_data (capture_pattern v slot frame) k = get_frame_slot_data v k.
Proof.
  intros Hne. unfold get_frame_slot_data at 1 2. cbn [capture_pattern frame_pool].
  rewrite getZ_setZ_ne; [done|]. unfold NUM_FRAME_SLOTS. congruence.
Qed.

(** The handle that a capture makes. *)
Lemma capture_value v slot frame vb dt : vram_wf v -> 0 <= slot ->
  let '(h, v') := capture_frame_zero_copy addr v slot frame vb dt in
  v' = capture_pattern v slot frame /\ slot_id h = slot mod 4 /\ frame_id h = frame /\ intact v' h.
Proof.
  intros Hv Hs. unfold capture_frame_zero_copy. split_and!; try done.
  unfold intact. cbn [slot_id crc32]. 
  destruct (get_frame_slot_in _ (slot mod NUM_FRAME_SLOTS) (pattern_wf v slot frame Hv Hs)) as (s & _ & -> & ->).
  { apply Z.mod_pos_bound. unfold NUM_FRAME_SLOTS. lia. }
  done.
Qed.

(** The start, and the part of it that the order of the frames depends on. *)
Lemma started_ok b n :
  let '(test, m) := started addr freq b n in
  pipe_ok test true m (mkHistory [] [] []) /\ frame_id test = 1 /\ slot_id test = 0 /\
  pool m = capture_pattern vram_new 0 1.
Proof.
  unfold started, control_capture. pose proof vram_new_wf as W0.
  pose proof (capture_value (pool (kernel_image n)) 0 1 (vblank_start b) (capture_done b) W0 ltac:(lia)) as V.
  destruct (capture_frame_zero_copy addr _ _ _ _ _) as [test v]. destruct V as (-> & Vs & Vf & _).
  destruct (init_ok RING_CAP (proj1 cap_ok) frame_empty) as [(Hr & _ & _) Hh].
  cbn [CAPTURE_TO_ENCODE_RING set_pool kernel_image]. change (ring_new RING_CAP frame_empty) with (ring (init RING_CAP frame_empty)).
  destruct (push_queue RING_CAP (proj1 cap_ok) (proj2 cap_ok) _ [] test Hr Hh) as (r & -> & Hr' & Hh').
  destruct (stream_send_frame _ _ _ _ _ _) as [? s1]. destruct (stream_send_frame _ _ _ _ _ _) as [? s2].
  split; [|done]. constructor; try done.
  - exists [test]. split_and!; [done|done|change (len [test]) with 1; lia].
  - exists []. split; [done|]. apply sublist_nil_l.
  - by apply pattern_wf.
Qed.

Lemma frame_ids_snoc n : frame_ids (S n) = frame_ids n ++ [Z.of_nat n mod 2 ^ 64].
Proof. unfold frame_ids. by rewrite seqZ_S, fmap_app. Qed.

(** Handles are determined by their position up to the last three. *)
Lemma slot_at l i h : slot_id <$> l = (fun k => k mod 4) <$> seqZ 0 (len l) -> l !! i = Some h ->
  slot_id h = Z.of_nat i mod 4.
Proof.
  intros E Hi. apply (f_equal (fun k => k !! i)) in E. rewrite !list_lookup_fmap, Hi in E.
  pose proof (lookup_lt_Some _ _ _ Hi). rewrite lookup_seqZ_lt in E by (unfold len; lia).
  cbn in E. injection E as ->. done.
Qed.

Lemma data_kept test m hs frame n : pipe_ok test true m hs -> n = length (queued hs) ->
  forall i h, queued hs !! i = Some h -> (n <= i + 3)%nat ->
  intact (capture_pattern (pool m) (capture_slot m) frame) h.
Proof.
  intros H -> i h Hi Hl. unfold intact.
  rewrite pattern_other; [by apply (ok_data _ _ _ _ H eq_refl i)|].
  rewrite (ok_slot _ _ _ _ H), (slot_at _ _ _ (ok_slots _ _ _ _ H) Hi).
  pose proof (lookup_lt_Some _ _ _ Hi). unfold len. rewrite !Z.mod_mod by lia.
  Z.to_euclidean_division_equations. lia.
Qed.

Lemma capture_ok test k m hs vb dt : pipe_ok test k m hs ->
  let '(m', hs') := run_turn addr freq (TCapture vb dt) (m, hs) in pipe_ok test k m' hs'.
Proof.
  intros H. pose proof H as [R1 R2 (q1 & Hq1 & Eq1 & L1) Q2 Hids Hslots Hseq Hslot Hcap Hcon Hpool Hdata].
  cbn [run_turn]. unfold capture_turn.
  assert (Hs0 : 0 <= capture_slot m) by (rewrite Hslot; apply Z.mod_pos_bound; lia).
  pose proof (capture_value (pool m) (capture_slot m) (frame_seq m) vb dt Hpool Hs0) as V.
  destruct (capture_frame_zero_copy addr _ _ _ _ _) as [h v]. destruct V as (-> & Vs & Vf & Vi).
  destruct (push_queue RING_CAP (proj1 cap_ok) (proj2 cap_ok) _ q1 h R1 Hq1) as (r' & -> & R1' & Hq1').
  pose proof (pattern_wf (pool m) (capture_slot m) (frame_seq m) Hpool Hs0) as Hwf.
  assert (Hkept : k = true -> forall i h, queued hs !! i = Some h -> (length (queued hs) <= i + 3)%nat ->
    intact (capture_pattern (pool m) (capture_slot m) (frame_seq m)) h).
  { intros ->. exact (data_kept test m hs (frame_seq m) _ H eq_refl). }
  case_bool_decide as Hlt; [|constructor; try done; by exists q1].
  assert (LQ : len (queued hs ++ [h]) = len (queued hs) + 1) by by rewrite len_app.
  assert (AS : forall x n, x = n mod 2 ^ 64 -> as_u64 (x + 1) = (n + 1) mod 2 ^ 64).
  { intros x n ->. unfold as_u64, wrapU. by rewrite Z.add_mod_idemp_l by lia. }
  unfold RING_CAP in Hlt.
  constructor; cbn [pool CAPTURE_TO_ENCODE_RING ENCODE_TO_NET_RING frame_seq capture_slot CAPTURED_FRAMES
    CONSUMED_FRAMES queued encoded transmitted]; try done.
  - exists (q1 ++ [h]). split_and!; [done|by rewrite app_comm_cons, Eq1, app_assoc|rewrite len_app; change (len [h]) with 1; lia].
  - rewrite fmap_app, Hids, length_app, Nat.add_1_r, frame_ids_snoc. cbn [fmap list_fmap].
    by rewrite Vf, Hseq.
  - rewrite fmap_app, Hslots, LQ.
    replace (len (queued hs) + 1) with (Z.of_nat (S (length (queued hs)))) by (unfold len; lia).
    rewrite seqZ_S, fmap_app. cbn [fmap list_fmap]. by rewrite Vs, Hslot, Z.mod_mod by lia.
  - rewrite LQ. by apply AS.
  - rewrite LQ, Hslot. unfold NUM_FRAME_SLOTS. by rewrite Z.add_mod_idemp_l by lia.
  - rewrite LQ. by apply AS.
  - intros Hk i x Hi Hl. rewrite length_app in Hl. cbn [length] in Hl.
    apply lookup_app_Some in Hi as [Hi|[Hge Hi]].
    + by apply (Hkept Hk i); [|lia].
    + pose proof (lookup_lt_Some _ _ _ Hi) as Hb. cbn in Hb.
      replace (i - length (queued hs))%nat with 0%nat in Hi by lia. cbn in Hi. by injection Hi as <-.
Qed.

Lemma encode_ok test k m hs : pipe_ok test k m hs ->
  let '(m', hs') := run_turn addr freq TEncode (m, hs) in pipe_ok test k m' hs'.
Proof.
  intros H. pose proof H as [R1 R2 (q1 & Hq1 & Eq1 & L1) (q2 & Hq2 & S2) Hids Hslots Hseq Hslot Hcap Hcon Hpool Hdata].
  cbn [run_turn]. unfold encode_turn.
  destruct (pop_queue RING_CAP (proj1 cap_ok) (proj2 cap_ok) _ q1 R1 Hq1) as (r1 & -> & R1' & Hq1').
  destruct q1 as [|h q1]; [done|].
  destruct (push_queue RING_CAP (proj1 cap_ok) (proj2 cap_ok) _ q2 h R2 Hq2) as (r2 & -> & R2' & Hq2').
  rewrite len_cons in L1.
  constructor; cbn [pool CAPTURE_TO_ENCODE_RING ENCODE_TO_NET_RING frame_seq capture_slot CAPTURED_FRAMES
    CONSUMED_FRAMES queued encoded transmitted]; try done.
  - exists q1. split_and!; [done|by rewrite Eq1, <-app_assoc|lia].
  - eexists; split; [exact Hq2'|]. case_bool_decide.
    + rewrite app_assoc. by apply sublist_app.
    + by apply sublist_inserts_r.
  - rewrite Hcon, len_app. change (len [h]) with 1. unfold as_u64, wrapU. by rewrite Z.add_mod_idemp_l by lia.
Qed.

Lemma network_ok test k m hs now dl st en clk : pipe_ok test k m hs ->
  let '(m', hs') := run_turn addr freq (TNetwork now dl st en clk) (m, hs) in pipe_ok test k m' hs'.
Proof.
  intros H. pose proof H as [R1 R2 Q1 (q2 & Hq2 & S2) Hids Hslots Hseq Hslot Hcap Hcon Hpool Hdata].
  cbn [run_turn]. unfold network_turn. destruct (poll_rx_ack _ _ _ _) as [[? n] c].
  destruct (pop_queue RING_CAP (proj1 cap_ok) (proj2 cap_ok) _ q2 R2 Hq2) as (r2 & -> & R2' & Hq2').
  destruct q2 as [|h q2]; [constructor; try done; by exists []|].
  destruct (stream_send_frame _ _ _ _ _ _) as [res s].
  assert (Q2 : exists q, holds RING_CAP r2 q /\ (transmitted hs ++ [h]) ++ q `sublist_of` encoded hs).
  { exists q2. split; [done|]. by rewrite <-app_assoc. }
  by destruct res; constructor.
Qed.
(** What the control core does to a machine: another pool, other network state. *)
Definition disturbs (m m' : machine) : Prop := exists v x, m' = set_net (set_pool m v) x /\ vram_wf v.

Lemma send_net frame deadline seq clk m : exists x, control_send addr frame deadline seq clk m = set_net m x.
Proof. unfold control_send. destruct (stream_send_frame _ _ _ _ _ _) as [? x]. by eexists. Qed.

Lemma control_capture_disturbs slot frame vb dt m : vram_wf (pool m) -> 0 <= slot ->
  disturbs m (control_capture addr slot frame vb dt m).2.
Proof.
  intros Hv Hs. unfold control_capture.
  pose proof (capture_value (pool m) slot frame vb dt Hv Hs) as V.
  destruct (capture_frame_zero_copy addr _ _ _ _ _) as [h v]. destruct V as (-> & _).
  eexists _, (net m). split; [reflexivity|]. by apply pattern_wf.
Qed.

Lemma send_disturbs frame deadline seq clk m m' : disturbs m m' -> disturbs m (control_send addr frame deadline seq clk m').
Proof.
  intros (v & x & -> & Hv). destruct (send_net frame deadline seq clk (set_net (set_pool m v) x)) as [y ->].
  by exists v, y.
Qed.

Lemma script_write_disturbs slot offset val m : vram_wf (pool m) -> disturbs m (script_write slot offset val m).
Proof.
  intros Hv. unfold script_write.
  assert (H0 : 0 <= as_u64 slot mod NUM_FRAME_SLOTS) by (apply Z.mod_pos_bound; unfold NUM_FRAME_SLOTS; lia).
  assert (Ho : 0 <= as_u64 offset) by (unfold as_u64, wrapU; apply Z.mod_pos_bound; lia).
  revert H0 Ho. generalize (as_u64 slot mod NUM_FRAME_SLOTS), (as_u64 offset), (as_u64 val). intros sl o x H0 Ho.
  destruct (get_frame_slot_in _ _ Hv H0) as (s & _ & -> & Ls).
  destruct (Z.leb_spec (o + 8) (len s)) as [Hle|_].
  - eexists _, (net m). split; [reflexivity|]. destruct Hv. constructor; try done; cbn [frame_pool].
    + by rewrite len_setZ.
    + apply Forall_setZ; [done|]. rewrite len_splice; [done|lia|].
      unfold len at 1. rewrite length_Z_to_le. lia.
  - exists (pool m), (net m). by destruct m.
Qed.

Lemma shell_write_disturbs path data m : vram_wf (pool m) -> disturbs m (shell_write path data m).
Proof.
  intros Hv. unfold shell_write. destruct (vfs_write (pool m) path data) as [v|] eqn:E.
  - exists v, (net m). split; [done|]. by apply (vfs_write_wf (pool m) path data).
  - exists (pool m), (net m). by destruct m.
Qed.

Lemma pipe_ok_disturbed test k m m' hs : pipe_ok test k m hs -> disturbs m m' -> pipe_ok test false m' hs.
Proof. intros [] (v & x & -> & Hv). by constructor. Qed.

Lemma pipe_ok_net test k m hs x : pipe_ok test k m hs -> pipe_ok test k (set_net m x) hs.
Proof. intros []. by constructor. Qed.

Lemma turn_ok test k m hs t : pipe_ok test k m hs -> is_benchmark t = false ->
  let '(m', hs') := run_turn addr freq t (m, hs) in pipe_ok test (k && negb (writes_slots t)) m' hs'.
Proof.
  intros H. pose proof (ok_pool _ _ _ _ H) as Hv.
  destruct t; cbn [is_benchmark writes_slots negb]; rewrite ?andb_true_r, ?andb_false_r; intros Hb.
  - by apply capture_ok.
  - by apply encode_ok.
  - by apply network_ok.
  - by apply pipe_ok_net.
  - by eapply pipe_ok_disturbed, control_capture_disturbs.
  - cbn [run_turn]. unfold script_send. edestruct send_net as [x ->]. by apply pipe_ok_net.
  - eapply pipe_ok_disturbed; [exact H|]. unfold legacy_send.
    pose proof (control_capture_disturbs 0 1 vblank done_tsc m Hv ltac:(lia)) as D.
    destruct (control_capture addr _ _ _ _ m) as [h m']. by apply send_disturbs.
  - by apply pipe_ok_net.
  - by eapply pipe_ok_disturbed, script_write_disturbs.
  - by eapply pipe_ok_disturbed, shell_write_disturbs.
  - discriminate Hb.
Qed.

Lemma turns_ok test ts : forall k m hs, pipe_ok test k m hs -> existsb is_benchmark ts = false ->
  let '(m', hs') := foldl (flip (run_turn addr freq)) (m, hs) ts in
  pipe_ok test (k && negb (existsb writes_slots ts)) m' hs'.
Proof.
  induction ts as [|t ts IH]; intros k m hs H Hb; cbn [existsb foldl] in *.
  { by rewrite andb_true_r. }
  apply orb_false_elim in Hb as [Hb Hbs]. unfold flip at 2.
  pose proof (turn_ok test k m hs t H Hb) as H'. destruct (run_turn addr freq t (m, hs)) as [m' hs'].
  rewrite negb_orb, andb_assoc. by apply IH.
Qed.

Lemma run_turns_ok b n ts : existsb is_benchmark ts = false ->
  let '(test, _) := started addr freq b n in
  let '(m, hs) := run_turns addr freq b n ts in
  pipe_ok test (negb (existsb writes_slots ts)) m hs /\ frame_id test = 1 /\ slot_id test = 0.
Proof.
  intros Hb. unfold run_turns. pose proof (started_ok b n) as S. destruct (started addr freq b n) as [test m].
  destruct S as (OK & Hid & Hsl & _). pose proof (turns_ok test ts true m _ OK Hb) as H.
  cbn [snd]. destruct (foldl _ _ ts) as [m' hs']. by split_and!.
Qed.
End Invariant.

(** * The theorems *)

(** C28: from the state in which main.rs starts the loops, however the turns of
    the cores interleave (each turn whole), whatever the adapter, the counters and
    the control core's scripts do, as long as the shell's benchmark, which pushes
    and pops the first ring itself, is not run: the first ring gets the boot's test
    frame, with the number 1, then the captured frames, numbered from 0 in the
    order they are queued, without gaps; the encode core takes exactly a prefix of
    these, at most 16 behind; the network core takes a subsequence of that prefix,
    so no frame is sent twice or out of order; the capture counter counts the
    captured frames and the other one the encoded ones, the test frame included;
    and unless the control core writes frame slots itself, the slots of the last
    three captured frames still hold what their checksum was computed on. *)
Theorem pipeline_order addr freq b n ts : existsb is_benchmark ts = false ->
  let '(test, _) := started addr freq b n in
  let '(m, hs) := run_turns addr freq b n ts in
  frame_id <$> test :: queued hs = 1 :: ((fun k => k mod 2 ^ 64) <$> seqZ 0 (len (queued hs))) /\
  (exists waiting, test :: queued hs = encoded hs ++ waiting /\ len waiting <= 16) /\
  transmitted hs `sublist_of` encoded hs /\
  CAPTURED_FRAMES m = len (queued hs) mod 2 ^ 64 /\ CONSUMED_FRAMES m = len (encoded hs) mod 2 ^ 64 /\
  (existsb writes_slots ts = false ->
   forall i h, queued hs !! i = Some h -> len (queued hs) <= Z.of_nat i + 3 -> intact (pool m) h).
Proof.
  intros Hb. pose proof (run_turns_ok addr freq b n ts Hb) as H.
  destruct (started addr freq b n) as [test m0]. destruct (run_turns addr freq b n ts) as [m hs].
  destruct H as ([_ _ (q1 & _ & E1 & L1) (q2 & _ & S2) Hids _ _ _ Hcap Hcon _ Hdata] & Hid & _).
  split_and!; [|by exists q1| |done|done|].
  - cbn [fmap list_fmap]. rewrite Hid. f_equal. exact Hids.
  - etransitivity; [|exact S2]. by apply sublist_inserts_r.
  - intros Hw i h Hi Hl. rewrite Hw in Hdata. apply (Hdata eq_refl i h Hi). unfold len in Hl. lia.
Qed.

(** Readings of a counter that stands still. *)
Definition standstill : startup := mkStartup 0 0 0 (fun _ => 0) 0 (fun _ => 0) 0 0.

(** Two captures around a script that sends a slot, and a turn of each other core. *)
Theorem pipeline_order_witness :
  let ts := [TCapture 1 2; TScriptSend 0 3 (fun k => k); TEncode; TCapture 4 5; TEncode;
             TNetwork 6 7 8 9 (fun k => k)] in
  existsb is_benchmark ts = false /\
  let '(m, hs) := run_turns (fun i => 0x100000 + 65536 * i) 2500000000 standstill nic_static ts in
  transmitted hs `sublist_of` encoded hs /\ CONSUMED_FRAMES m = len (encoded hs) mod 2 ^ 64.
Proof.
  intros ts. split; [reflexivity|].
  pose proof (pipeline_order (fun i => 0x100000 + 65536 * i) 2500000000 standstill nic_static ts eq_refl) as T.
  destruct (started _ _ _ _) as [test m0]. destruct (run_turns _ _ _ _ ts) as [m hs].
  destruct T as (_ & _ & T & _ & C & _). exact (conj T C).
Defined.

(** One sample of the benchmark right after the start takes the test frame out of
    the ring and leaves its own: the encode core takes a frame that the capture
    core never queued, and never the test frame. *)
Theorem benchmark_takes_frame addr freq b n sample vb dt now seq clk :
  let '(test, _) := started addr freq b n in
  let '(m, hs) := run_turns addr freq b n [TBenchmark sample vb dt now seq clk; TEncode] in
  exists h, encoded hs = [h] /\ frame_id h = sample /\ frame_id test = 1 /\
    queued hs = [] /\ holds RING_CAP (CAPTURE_TO_ENCODE_RING m) [].
Proof.
  unfold run_turns. pose proof (started_ok addr freq b n) as S.
  destruct (started addr freq b n) as [test m]. destruct S as ([R1 R2 Q1 Q2 _ _ _ _ _ _ Hv _] & Hid & _ & _).
  destruct Q1 as (q1 & Hq1 & Eq1 & _). cbn [queued encoded] in Eq1. rewrite app_nil_l in Eq1. subst q1.
  destruct Q2 as (q2 & Hq2 & _).
  cbn [foldl snd]. unfold flip at 2. cbn [run_turn]. unfold benchmark_sample, control_capture.
  assert (Hs : 0 <= sample mod 4) by (apply Z.mod_pos_bound; lia).
  pose proof (capture_value addr (pool m) (sample mod 4) sample vb dt Hv Hs) as V.
  destruct (capture_frame_zero_copy addr _ _ _ _ _) as [h v]. destruct V as (_ & _ & Vf & _).
  cbn [CAPTURE_TO_ENCODE_RING set_pool].
  destruct (push_queue RING_CAP (proj1 cap_ok) (proj2 cap_ok) _ [test] h R1 Hq1) as (r & -> & R & Hq).
  cbn [bool_decide] in Hq. destruct (pop_queue RING_CAP (proj1 cap_ok) (proj2 cap_ok) _ _ R Hq) as (r' & -> & R' & Hq').
  edestruct send_net as [x ->]. unfold flip. cbn [run_turn]. unfold encode_turn.
  cbn [CAPTURE_TO_ENCODE_RING set_net set_capture_ring].
  destruct (pop_queue RING_CAP (proj1 cap_ok) (proj2 cap_ok) _ _ R' Hq') as (r2 & -> & _ & Hq2').
  destruct (push RING_CAP _ _) as [ok r3]. by exists h.
Qed.

(** The slot after frames 0 and 4 have been captured into it. *)
Lemma two_marks s a b : len s = 65536 -> in_u8 a -> in_u8 b -> bytes_ok s -> a <> b ->
  let s1 := splice s 0 (Z_to_le 4 a) in let s2 := splice s1 0 (Z_to_le 4 b) in
  frame_crc32 (sub s2 0 4096) <> frame_crc32 (sub s1 0 4096).
Proof.
  intros L Ha Hb Hs Hne s1 s2.
  assert (M : forall x, in_u8 x -> Z_to_le 4 x = [x; 0; 0; 0]).
  { intros x Hx. unfold in_u8 in Hx. unfold Z_to_le.
    by rewrite (Z.mod_small x), (Z.div_small x) by lia. }
  assert (D : forall x l, in_u8 x -> splice l 0 (Z_to_le 4 x) = x :: 0 :: 0 :: 0 :: drop 4 l).
  { intros x l Hx. unfold splice. by rewrite (M x Hx). }
  assert (E1 : sub s1 0 4096 = [] ++ a :: (0 :: 0 :: 0 :: take 4092 (drop 4 s))).
  { subst s1. by rewrite D. }
  assert (E2 : sub s2 0 4096 = [] ++ b :: (0 :: 0 :: 0 :: take 4092 (drop 4 s))).
  { subst s2 s1. by rewrite !D. }
  rewrite E1, E2. unfold frame_crc32. apply crc32_byte_change; [constructor| |done|done|congruence].
  do 3 (constructor; [unfold in_u8; lia|]). by apply Forall_take, Forall_drop.
Qed.

(** A capture into a ring that is not full, on the parts it uses. *)
Lemma capture_room addr freq test m hs vb dt : pipe_ok test true m hs -> (length (queued hs) < 15)%nat ->
  let '(m', hs') := run_turn addr freq (TCapture vb dt) (m, hs) in
  exists h, queued hs' = queued hs ++ [h] /\ encoded hs' = encoded hs /\
    pool m' = capture_pattern (pool m) (capture_slot m) (frame_seq m) /\
    slot_id h = capture_slot m mod 4 /\ frame_id h = frame_seq m /\ intact (pool m') h.
Proof.
  intros H Hl. pose proof H as [R1 _ (q1 & Hq1 & Eq1 & _) _ _ _ _ Hslot _ _ Hpool _].
  cbn [run_turn]. unfold capture_turn.
  assert (Hs0 : 0 <= capture_slot m) by (rewrite Hslot; apply Z.mod_pos_bound; lia).
  pose proof (capture_value addr (pool m) (capture_slot m) (frame_seq m) vb dt Hpool Hs0) as V.
  destruct (capture_frame_zero_copy addr _ _ _ _ _) as [h v]. destruct V as (-> & Vs & Vf & Vi).
  destruct (push_queue RING_CAP (proj1 cap_ok) (proj2 cap_ok) _ q1 h R1 Hq1) as (r' & -> & _ & _).
  apply (f_equal length) in Eq1. rewrite length_app in Eq1. cbn [length] in Eq1.
  rewrite bool_decide_true; [by exists h|]. unfold RING_CAP, len. lia.
Qed.

(** Turns of the capture core alone. *)
Definition capture_all (readings : list (Z * Z)) : list turn := map (fun r => TCapture r.1 r.2) readings.

(** The pool after the test frame, and then [n] captures. *)
Definition marks (n : Z) : vram :=
  foldl (fun v i => capture_pattern v (i mod 4) i) (capture_pattern vram_new 0 1) (seqZ 0 n).

(** Only captures, while the first ring has room. *)
Lemma only_captures addr freq b n (readings : list (Z * Z)) : (length readings <= 15)%nat ->
  let '(test, _) := started addr freq b n in
  let '(m, hs) := run_turns addr freq b n (capture_all readings) in
  pipe_ok test true m hs /\ length (queued hs) = length readings /\ encoded hs = [] /\
  pool m = marks (len readings).
Proof.
  unfold run_turns. pose proof (started_ok addr freq b n) as S.
  destruct (started addr freq b n) as [test m0]. destruct S as (OK0 & _ & _ & P0). cbn [snd].
  induction readings as [|r readings IH] using rev_ind; intros L.
  { cbn [capture_all map foldl]. by split_and!. }
  rewrite length_app in L. cbn [length] in L. specialize (IH ltac:(lia)).
  unfold capture_all in *. rewrite map_app, foldl_app. cbn [map foldl]. unfold flip at 1.
  destruct (foldl _ _ (map _ readings)) as [m hs]. destruct IH as (OK & Lq & He & Hp).
  pose proof (capture_ok addr freq test true m hs r.1 r.2 OK) as OK'.
  pose proof (capture_room addr freq test m hs r.1 r.2 OK ltac:(lia)) as R.
  destruct (run_turn addr freq (TCapture r.1 r.2) (m, hs)) as [m' hs'].
  destruct R as (h & E1 & E2 & E3 & _). split_and!; [done| |congruence|].
  - rewrite E1, !length_app. cbn [length]. lia.
  - rewrite E3, (ok_slot _ _ _ _ OK), (ok_seq _ _ _ _ OK), len_app. change (len [r]) with 1.
    assert (Lr : len (queued hs) = len readings) by (unfold len; lia). rewrite Lr.
    replace (len readings + 1) with (Z.of_nat (S (length readings))) by (unfold len; lia).
    unfold marks. rewrite seqZ_S, foldl_app. cbn [foldl]. fold (len readings). fold (marks (len readings)).
    rewrite <-Hp. f_equal. apply Z.mod_small. unfold len. lia.
Qed.

Lemma queued_grows addr freq ts m hs :
  let '(_, hs') := foldl (flip (run_turn addr freq)) (m, hs) ts in exists l, queued hs' = queued hs ++ l.
Proof.
  revert m hs. induction ts as [|t ts IH]; intros m hs; [exists []; by rewrite app_nil_r|].
  cbn [foldl]. unfold flip at 2.
  assert (H : let '(m', hs') := run_turn addr freq t (m, hs) in exists l, queued hs' = queued hs ++ l).
  { destruct t; cbn [run_turn]; try (exists []; by rewrite app_nil_r).
    - destruct (capture_turn _ _ _ _ _) as [[h []] m']; [by exists [h]|exists []; by rewrite app_nil_r].
    - destruct (encode_turn m) as [[[h ok]|] m']; exists []; by rewrite app_nil_r.
    - destruct (network_turn _ _ _ _ _ _ _ _) as [[[h ok]|] m']; exists []; by rewrite app_nil_r. }
  destruct (run_turn addr freq t (m, hs)) as [m' hs']. destruct H as [l E].
  specialize (IH m' hs'). destruct (foldl _ (m', hs') ts) as [m2 hs2]. destruct IH as [l2 E2].
  exists (l ++ l2). by rewrite E2, E, app_assoc.
Qed.

Lemma bytes_ok_splice_mark b f : in_u8 b -> bytes_ok (splice (raw_frame_slot b) 0 (Z_to_le 4 f)).
Proof.
  intros Hb. unfold splice. rewrite take_0, app_nil_l. apply Forall_app; split.
  - apply Z_to_le_bytes.
  - apply Forall_drop. by apply Forall_replicate.
Qed.

(** Slot 0 of the pool after the first and after the fifth capture. *)
Lemma slot_0_history :
  exists s, len s = 65536 /\ bytes_ok s /\
    get_frame_slot_data (marks 1) 0 = splice s 0 (Z_to_le 4 0) /\
    get_frame_slot_data (marks 5) 0 = splice (splice s 0 (Z_to_le 4 0)) 0 (Z_to_le 4 4).
Proof.
  pose proof vram_new_wf as W. assert (W0 := pattern_wf vram_new 0 1 W ltac:(lia)).
  exists (splice (raw_frame_slot 0x5A) 0 (Z_to_le 4 1)). split; [reflexivity|].
  split; [by apply bytes_ok_splice_mark|]. unfold marks.
  assert (E0 : get_frame_slot_data (capture_pattern vram_new 0 1) 0 = splice (raw_frame_slot 0x5A) 0 (Z_to_le 4 1))
    by (by apply pattern_same).
  revert W0 E0. generalize (capture_pattern vram_new 0 1), (splice (raw_frame_slot 0x5A) 0 (Z_to_le 4 1)).
  intros v0 s0 W0 E0. set (s1 := splice s0 0 (Z_to_le 4 0)).
  change (seqZ 0 1) with [0]. change (seqZ 0 5) with [0; 1; 2; 3; 4]. cbn [foldl].
  change (0 mod 4) with 0. change (1 mod 4) with 1. change (2 mod 4) with 2. change (3 mod 4) with 3.
  change (4 mod 4) with 0.
  assert (W1 := pattern_wf v0 0 0 W0 ltac:(lia)). set (v1 := capture_pattern v0 0 0) in *.
  assert (E1 : get_frame_slot_data v1 0 = s1) by (unfold v1, s1; rewrite pattern_same by (done || lia); by rewrite E0).
  assert (W2 := pattern_wf v1 1 1 W1 ltac:(lia)). set (v2 := capture_pattern v1 1 1) in *.
  assert (W3 := pattern_wf v2 2 2 W2 ltac:(lia)). set (v3 := capture_pattern v2 2 2) in *.
  assert (W4 := pattern_wf v3 3 3 W3 ltac:(lia)). set (v4 := capture_pattern v3 3 3) in *.
  split; [done|]. rewrite pattern_same by (done || lia).
  assert (E4 : get_frame_slot_data v4 0 = s1) by (unfold v4, v3, v2; by rewrite !pattern_other).
  by rewrite E4.
Qed.

Lemma run_captures_cons addr freq b n r rs :
  run_turns addr freq b n (capture_all (r :: rs)) =
  foldl (flip (run_turn addr freq)) (run_turns addr freq b n (capture_all [r])) (capture_all rs).
Proof. unfold run_turns, capture_all. cbn [map foldl]. reflexivity. Qed.

Lemma id_at test k m hs i h : pipe_ok test k m hs -> queued hs !! i = Some h -> frame_id h = Z.of_nat i mod 2 ^ 64.
Proof.
  intros OK Hi. pose proof (ok_ids _ _ _ _ OK) as E. apply (f_equal (fun k => k !! i)) in E.
  unfold frame_ids in E. rewrite !list_lookup_fmap, Hi in E. pose proof (lookup_lt_Some _ _ _ Hi).
  rewrite lookup_seqZ_lt in E by lia. cbn in E. by injection E as ->.
Qed.

Lemma overwritten test m1 hs1 m hs l s :
  pipe_ok test true m1 hs1 -> length (queued hs1) = 1%nat -> pipe_ok test true m hs -> length (queued hs) = 5%nat ->
  queued hs = queued hs1 ++ l -> len s = 65536 -> bytes_ok s ->
  get_frame_slot_data (pool m1) 0 = splice s 0 (Z_to_le 4 0) ->
  get_frame_slot_data (pool m) 0 = splice (splice s 0 (Z_to_le 4 0)) 0 (Z_to_le 4 4) ->
  exists h0 h4, queued hs !! 0%nat = Some h0 /\ queued hs !! 4%nat = Some h4 /\
    frame_id h0 = 0 /\ frame_id h4 = 4 /\ slot_id h0 = slot_id h4 /\
    intact (pool m) h4 /\ ~ intact (pool m) h0 /\
    take 4 (get_frame_slot_data (pool m) (slot_id h0)) = Z_to_le 4 4.
Proof.
  intros OK1 L1 OK L5 G Ls Bs S1 S5.
  destruct (lookup_lt_is_Some_2 (queued hs1) 0) as [h0 Q1]; [lia|].
  destruct (lookup_lt_is_Some_2 (queued hs) 4) as [h4 Q4]; [lia|].
  assert (Q0 : queued hs !! 0%nat = Some h0) by (rewrite G; by apply lookup_app_l_Some).
  assert (I0 : intact (pool m1) h0) by (apply (ok_data _ _ _ _ OK1 eq_refl 0%nat); [done|lia]).
  assert (D0 : slot_id h0 = 0) by exact (slot_at _ _ _ (ok_slots _ _ _ _ OK) Q0).
  assert (D4 : slot_id h4 = 0) by exact (slot_at _ _ _ (ok_slots _ _ _ _ OK) Q4).
  exists h0, h4. split; [exact Q0|]. split; [exact Q4|].
  split; [exact (id_at _ _ _ _ _ _ OK Q0)|]. split; [exact (id_at _ _ _ _ _ _ OK Q4)|].
  split; [by rewrite D0, D4|]. split; [apply (ok_data _ _ _ _ OK eq_refl 4%nat); [done|lia]|]. rewrite D0. split.
  - unfold intact in *. rewrite D0 in *. rewrite S5, <-I0, S1. by apply two_marks.
  - rewrite S5. unfold splice at 1. rewrite take_0, app_nil_l.
    apply take_app_length'. by rewrite length_Z_to_le.
Qed.

(** There are four slots for rings of sixteen handles, and nothing keeps the
    capture core from a slot that is still queued: after five captures with no
    turn of another core, the first queued handle refers to a slot that holds
    frame 4, whose checksum is not the handle's, so the network core will send
    frame 4's data as frame 0. *)
Theorem queued_frames_overwritten addr freq b n (readings : list (Z * Z)) :
  length readings = 5%nat ->
  let '(m, hs) := run_turns addr freq b n (capture_all readings) in
  exists h0 h4, queued hs !! 0%nat = Some h0 /\ queued hs !! 4%nat = Some h4 /\ encoded hs = [] /\
    frame_id h0 = 0 /\ frame_id h4 = 4 /\ slot_id h0 = slot_id h4 /\
    intact (pool m) h4 /\ ~ intact (pool m) h0 /\
    take 4 (get_frame_slot_data (pool m) (slot_id h0)) = Z_to_le 4 4.
Proof.
  intros L. destruct readings as [|r0 readings]; [discriminate L|].
  pose proof (only_captures addr freq b n [r0] ltac:(cbn [length]; lia)) as H1.
  pose proof (only_captures addr freq b n (r0 :: readings) ltac:(rewrite L; lia)) as H5.
  rewrite run_captures_cons in *. destruct (started addr freq b n) as [test m0].
  destruct (run_turns addr freq b n (capture_all [r0])) as [m1 hs1]. destruct H1 as (OK1 & L1 & _ & P1).
  pose proof (queued_grows addr freq (capture_all readings) m1 hs1) as G.
  destruct (foldl _ (m1, hs1) _) as [m hs]. destruct H5 as (OK & L5 & He & P5), G as [l G].
  destruct slot_0_history as (s & Ls & Bs & S1 & S5).
  assert (LR : len (r0 :: readings) = 5) by (unfold len; by rewrite L).
  rewrite LR in P5. change (len [r0]) with 1 in P1. rewrite L in L5. rewrite <-P1 in S1. rewrite <-P5 in S5.
  destruct (overwritten test m1 hs1 m hs l s OK1 L1 OK L5 G Ls Bs S1 S5) as (h0 & h4 & H1 & H2 & H).
  exists h0, h4. exact (conj H1 (conj H2 (conj He H))).
Qed.

Theorem queued_frames_overwritten_witness :
  exists h0, queued (run_turns (fun i => 0x100000 + 65536 * i) 2500000000 standstill nic_static
      (capture_all (replicate 5 (0, 0)))).2 !! 0%nat = Some h0 /\ frame_id h0 = 0.
Proof.
  pose proof (queued_frames_overwritten (fun i => 0x100000 + 65536 * i) 2500000000 standstill nic_static
    (replicate 5 (0, 0)) eq_refl) as T.
  destruct (run_turns _ _ _ _) as [m hs]. destruct T as (h0 & h4 & H & _ & _ & H0 & _).
  exists h0. exact (conj H H0).
Defined.
