(* ===== verification/CompErrors.v ===== *)
(** The diagnostics of the compiler (pulselang-core/src/compiler.rs): one
    definition per text, with the code, the message and the three hints of
    [Compiler::error]. The location is that of the next token. *)

From S2P Require Import Prelude.
Local Open Scope string_scope.

Record diag : Set := mkDiag {
  d_code : string;
  d_message : string;
  d_expected : string;
  d_stage : string;
  d_suggestion : string;
}.

Definition dquote : string := String (Ascii.ascii_of_nat 34) EmptyString.

#[export] Instance diag_eq_dec : EqDecision diag.
Proof. solve_decision. Defined.

Definition E_MAX_ARRAYS_EXCEEDED : diag := mkDiag "ERR_MAX_ARRAYS_EXCEEDED"
  "Maximum distinct arrays limit reached"
  "Fewer distinct arrays or configure with @pool_size(arrays: N)"
  "Array Allocation"
  "Reduce distinct array declarations across script or declare @pool_size".
Definition E_ARRAY_CAPACITY_EXCEEDED : diag := mkDiag "ERR_ARRAY_CAPACITY_EXCEEDED"
  "Total static array capacity exceeded"
  "Smaller array size or configure with @pool_size(elements: N)"
  "Array Allocation"
  "Reduce total array elements in script or declare @pool_size".
Definition E_ARRAY_UNDEFINED : diag := mkDiag "ERR_ARRAY_UNDEFINED"
  "Array variable is not defined"
  "Declare array with 'let $buf: [i64; N];'"
  "Array Access"
  "Define array buffer before indexing elements".
Definition E_MAX_VIEWS_EXCEEDED : diag := mkDiag "ERR_MAX_VIEWS_EXCEEDED"
  "Maximum distinct array views limit reached (8 views limit)"
  "Fewer distinct array views"
  "View Declaration"
  "Reuse view variables across script".
Definition E_UNKNOWN_FUNCTION : diag := mkDiag "ERR_UNKNOWN_FUNCTION"
  "Function name passed to combinator is not defined"
  "Valid function or intrinsic name"
  "Combinator -> Function Lookup"
  "Define static function with 'fn name(...) { ... }' or pass built-in intrinsic".
Definition E_UNKNOWN_FUNCTION_2 : diag := mkDiag "ERR_UNKNOWN_FUNCTION"
  "Function name passed to combinator is not defined"
  "Valid function name"
  "Combinator -> Function Lookup"
  "Define static function with 'fn name(...) { ... }' before using in combinators".
Definition E_EXPECTED_STRUCT_NAME : diag := mkDiag "ERR_EXPECTED_STRUCT_NAME"
  "Expected struct identifier name after 'struct' keyword"
  "Struct name identifier"
  "Statement -> Struct Definition"
  "Specify struct name, e.g. 'struct Point'".
Definition E_MAX_STRUCTS_EXCEEDED : diag := mkDiag "ERR_MAX_STRUCTS_EXCEEDED"
  "Maximum distinct struct definitions reached (8 struct types limit)"
  "Fewer struct definitions"
  "Struct Definition"
  "Reduce distinct struct declarations across script".
Definition E_STRUCT_REDEFINED : diag := mkDiag "ERR_STRUCT_REDEFINED"
  "Struct type is already defined"
  "Unique struct type name"
  "Struct Definition"
  "Rename duplicate struct type".
Definition E_EXPECTED_LBRACE : diag := mkDiag "ERR_EXPECTED_LBRACE"
  "Expected opening brace '{' after struct name"
  "Left brace '{'"
  "Statement -> Struct Definition"
  "Add '{' to start struct field list".
Definition E_EXPECTED_FIELD_NAME : diag := mkDiag "ERR_EXPECTED_FIELD_NAME"
  "Expected field identifier in struct definition"
  "Field name identifier"
  "Statement -> Struct Fields"
  "Specify field name, e.g. 'x: i64'".
Definition E_MAX_FIELDS_EXCEEDED : diag := mkDiag "ERR_MAX_FIELDS_EXCEEDED"
  "Maximum struct fields reached (8 fields limit per struct)"
  "Fewer struct fields"
  "Statement -> Struct Fields"
  "Reduce field count to 8 or fewer".
Definition E_EXPECTED_COLON : diag := mkDiag "ERR_EXPECTED_COLON"
  "Expected ':' after struct field name"
  "Colon ':'"
  "Statement -> Struct Fields"
  "Specify field type annotation 'field: i64'".
Definition E_EXPECTED_RBRACE : diag := mkDiag "ERR_EXPECTED_RBRACE"
  "Expected closing brace '}' after struct definition fields"
  "Right brace '}'"
  "Statement -> Struct Definition"
  "Close struct fields with '}'".
Definition E_EXPECTED_ENUM_NAME : diag := mkDiag "ERR_EXPECTED_ENUM_NAME"
  "Expected enum identifier name after 'enum' keyword"
  "Enum name identifier"
  "Statement -> Enum Definition"
  "Specify enum name, e.g. 'enum State'".
Definition E_MAX_ENUMS_EXCEEDED : diag := mkDiag "ERR_MAX_ENUMS_EXCEEDED"
  "Maximum distinct enum definitions reached (16 enum types limit)"
  "Fewer enum definitions"
  "Enum Definition"
  "Reduce distinct enum declarations across script".
Definition E_DUPLICATE_ENUM_NAME : diag := mkDiag "ERR_DUPLICATE_ENUM_NAME"
  "Enum type name is already defined"
  "Unique enum type name"
  "Enum Definition"
  "Rename duplicate enum type".
Definition E_EXPECTED_LBRACE_2 : diag := mkDiag "ERR_EXPECTED_LBRACE"
  "Expected opening brace '{' after enum name"
  "Left brace '{'"
  "Statement -> Enum Definition"
  "Add '{' to start enum variant list".
Definition E_EXPECTED_VARIANT_NAME : diag := mkDiag "ERR_EXPECTED_VARIANT_NAME"
  "Expected variant identifier in enum definition"
  "Variant name identifier"
  "Statement -> Enum Variants"
  "Specify variant name, e.g. 'Idle'".
Definition E_MAX_VARIANTS_EXCEEDED : diag := mkDiag "ERR_MAX_VARIANTS_EXCEEDED"
  "Maximum enum variants reached (16 variants limit per enum)"
  "Fewer enum variants"
  "Statement -> Enum Variants"
  "Reduce variant count to 16 or fewer".
Definition E_DUPLICATE_ENUM_VARIANT : diag := mkDiag "ERR_DUPLICATE_ENUM_VARIANT"
  "Duplicate enum variant name within enum definition"
  "Unique variant identifier"
  "Statement -> Enum Variants"
  "Rename or remove duplicate enum variant".
Definition E_EXPECTED_RBRACE_2 : diag := mkDiag "ERR_EXPECTED_RBRACE"
  "Expected closing brace '}' after enum definition variants"
  "Right brace '}'"
  "Statement -> Enum Definition"
  "Close enum variants with '}'".
Definition E_UNKNOWN_STRUCT_TYPE : diag := mkDiag "ERR_UNKNOWN_STRUCT_TYPE"
  "Struct type name is not defined"
  "Declared struct type name"
  "Statement -> Struct Instantiation"
  "Declare struct before instantiating, e.g. 'struct Point { ... }'".
Definition E_MAX_STRUCT_INSTS_EXCEEDED : diag := mkDiag "ERR_MAX_STRUCT_INSTS_EXCEEDED"
  "Maximum struct instances limit reached (8 struct instances limit)"
  "Fewer struct instances"
  "Struct Instantiation"
  "Reduce distinct struct instances across script".
Definition E_STRUCT_CAPACITY_EXCEEDED : diag := mkDiag "ERR_STRUCT_CAPACITY_EXCEEDED"
  "Total static struct field capacity exceeded (max 256 fields)"
  "Fewer struct fields"
  "Struct Allocation"
  "Reduce number of fields across struct instances".
Definition E_UNKNOWN_STRUCT_VAR : diag := mkDiag "ERR_UNKNOWN_STRUCT_VAR"
  "Variable is not a declared struct instance"
  "Struct variable"
  "Expression -> Field Access"
  "Declare struct instance with 'let $var: StructName;'".
Definition E_UNKNOWN_STRUCT_FIELD : diag := mkDiag "ERR_UNKNOWN_STRUCT_FIELD"
  "Field does not exist on struct type"
  "Valid struct field name"
  "Expression -> Field Access"
  "Check field name in struct definition".
Definition E_EXPECTED_CONST_NAME : diag := mkDiag "ERR_EXPECTED_CONST_NAME"
  "Expected table identifier name after 'const' keyword"
  "Const table identifier name"
  "Statement -> Const Table Declaration"
  "Specify const table name, e.g. 'const LUT: [i64; 4] = [1, 2, 3, 4];'".
Definition E_MAX_TABLES_EXCEEDED : diag := mkDiag "ERR_MAX_TABLES_EXCEEDED"
  "Maximum distinct const table limit reached (8 const tables limit)"
  "Fewer const tables"
  "Const Table Allocation"
  "Reduce distinct const tables across script".
Definition E_TABLE_REDEFINED : diag := mkDiag "ERR_TABLE_REDEFINED"
  "Const table name is already defined"
  "Unique const table name"
  "Const Table Declaration"
  "Rename duplicate const table".
Definition E_EXPECTED_COLON_2 : diag := mkDiag "ERR_EXPECTED_COLON"
  "Expected ':' after const table name"
  "Colon ':'"
  "Statement -> Const Table Declaration"
  "Specify type annotation, e.g. 'const LUT: [i64; 4]'".
Definition E_EXPECTED_LBRACKET : diag := mkDiag "ERR_EXPECTED_LBRACKET"
  "Expected '[' in const table type annotation"
  "Left bracket '['"
  "Statement -> Const Table Declaration"
  "Specify table type as '[i64; N]'".
Definition E_TABLE_SYNTAX : diag := mkDiag "ERR_TABLE_SYNTAX"
  "Expected ';' in table type [i64; N]"
  "Semicolon ';'"
  "Statement -> Const Table Declaration"
  "Specify table type as '[i64; N]'".
Definition E_TABLE_INVALID_LEN : diag := mkDiag "ERR_TABLE_INVALID_LEN"
  "Const table size must be a positive constant integer (1..64)"
  "Positive integer (1..64)"
  "Statement -> Const Table Declaration"
  "Specify valid table size, e.g. '[i64; 16]'".
Definition E_TABLE_SYNTAX_2 : diag := mkDiag "ERR_TABLE_SYNTAX"
  "Expected ']' after table length"
  "Right bracket ']'"
  "Statement -> Const Table Declaration"
  "Close table type with ']'".
Definition E_EXPECTED_EQ : diag := mkDiag "ERR_EXPECTED_EQ"
  "Expected '=' before table initialization array"
  "Equals sign '='"
  "Statement -> Const Table Declaration"
  "Assign initial values, e.g. '= [10, 20, 30]'".
Definition E_EXPECTED_LBRACKET_2 : diag := mkDiag "ERR_EXPECTED_LBRACKET"
  "Expected '[' to start table elements list"
  "Left bracket '['"
  "Statement -> Const Table Declaration"
  "Start elements list with '['".
Definition E_CONST_POOL_EXCEEDED : diag := mkDiag "ERR_CONST_POOL_EXCEEDED"
  "Constant pool capacity exceeded (max 256 constants)"
  "Fewer constants"
  "Constant Pool Allocation"
  "Reduce total constants and table elements across script".
Definition E_TABLE_NON_CONSTANT_ELEMENT : diag := mkDiag "ERR_TABLE_NON_CONSTANT_ELEMENT"
  "Const table elements must be compile-time constant integer or time literals"
  "Constant literal value"
  "Statement -> Const Table Declaration"
  "Use constant literals for all table elements".
Definition E_TABLE_LENGTH_MISMATCH : diag := mkDiag "ERR_TABLE_LENGTH_MISMATCH"
  "Number of table elements does not match declared type length"
  "Matching number of elements"
  "Statement -> Const Table Declaration"
  "Ensure array element count matches declared length [i64; N]".
Definition E_EXPECTED_RBRACKET : diag := mkDiag "ERR_EXPECTED_RBRACKET"
  "Expected closing bracket ']' after table elements list"
  "Right bracket ']'"
  "Statement -> Const Table Declaration"
  "Close elements list with ']'".
Definition E_UNKNOWN_CONST_TABLE : diag := mkDiag "ERR_UNKNOWN_CONST_TABLE"
  "Const table identifier is not defined"
  "Declared const table name"
  "Expression -> Const Table Access"
  "Define const table with 'const TABLE: [i64; N] = [...];'".
Definition E_EXPR_TOO_COMPLEX : diag := mkDiag "ERR_EXPR_TOO_COMPLEX"
  "Expression nesting too deep (exceeded register scratch pool)"
  "Simpler expression or intermediate variables"
  "Expression Evaluation"
  "Split complex expression into intermediate variables".
Definition E_CONST_POOL_FULL : diag := mkDiag "ERR_CONST_POOL_FULL"
  "64-bit constant pool exhausted (64 entries limit reached)"
  "Fewer unique 64-bit constants"
  "Constant Pool Allocation"
  "Reduce large constant literals".
Definition E_CONST_POOL_FULL_2 : diag := mkDiag "ERR_CONST_POOL_FULL"
  "64-bit constant pool exhausted (64 entries limit reached)"
  "Fewer unique 64-bit constants"
  "Constant Pool Allocation"
  "Reduce large constant literals or table size".
Definition E_BYTECODE_OVERFLOW : diag := mkDiag "ERR_BYTECODE_OVERFLOW"
  "px64 bytecode buffer overflow (1024 bytes limit reached)"
  "Smaller script size or simplify expressions"
  "Code Generation"
  "Reduce script length or complexity".
Definition E_MAX_VARS_EXCEEDED : diag := mkDiag "ERR_MAX_VARS_EXCEEDED"
  "Maximum distinct variables limit reached (13 GPRs + 32 spill slots limit)"
  "Reuse existing $variables or registers ($rax, $rcx, etc.)"
  "Register Allocation"
  "Reduce distinct variable count in script".
Definition E_MAX_VARS_EXCEEDED_2 : diag := mkDiag "ERR_MAX_VARS_EXCEEDED"
  "Maximum distinct variables limit reached (32 spill slots exhausted)"
  "Reuse existing variables"
  "Register Allocation"
  "Reduce distinct variable count in script".
Definition E_MUTABILITY_VIOLATION : diag := mkDiag "ERR_MUTABILITY_VIOLATION"
  "Cannot reassign/mutate immutable variable; variables are immutable by default in PulseLang"
  "Mutable variable declaration ('let mut')"
  "Statement -> Variable Assignment"
  "Declare variable with 'let mut $var = ...;' to permit mutation".
Definition E_LINEAR_OVERWRITE : diag := mkDiag "ERR_LINEAR_OVERWRITE"
  "Hardware handle overwritten before previous buffer was consumed/sent"
  "Consume prior handle with @send(#h) before reassigning"
  "Linear Ownership Verification"
  "Ensure '@send(#h)' is invoked before overwriting '#h := @capture()'".
Definition E_RESOURCE_USE_AFTER_MOVE : diag := mkDiag "ERR_RESOURCE_USE_AFTER_MOVE"
  "Resource handle used after ownership was moved"
  "Active resource handle"
  "Linear Ownership Verification"
  "Ensure handle has not been moved before using it".
Definition E_LINEAR_USE_BEFORE_ALLOC : diag := mkDiag "ERR_LINEAR_USE_BEFORE_ALLOC"
  "Hardware handle used before being captured/allocated"
  "Capture handle with '#f := @capture()' before using"
  "Linear Ownership Verification"
  "Initialize hardware handle with '@capture()' before assignment".
Definition E_RESOURCE_USE_AFTER_MOVE_2 : diag := mkDiag "ERR_RESOURCE_USE_AFTER_MOVE"
  "Resource handle used after being consumed or released"
  "Active resource handle"
  "Linear Ownership Verification"
  "Ensure handle has not been consumed before using it".
Definition E_MAX_VARS_EXCEEDED_3 : diag := mkDiag "ERR_MAX_VARS_EXCEEDED"
  "Maximum distinct variables limit reached (13 general-purpose registers)"
  "Reuse existing $variables or registers ($rax, $rcx, etc.)"
  "Register Allocation"
  "Reduce distinct variable count in script".
Definition E_LINEAR_UNCONSUMED_HANDLE : diag := mkDiag "ERR_LINEAR_UNCONSUMED_HANDLE"
  "Hardware handle captured but never sent/consumed (linear ownership violation)"
  "Consume handle with @send(#handle)"
  "Linear Ownership Verification"
  "Add '@send(#handle);' along all execution paths to release DMA buffer".
Definition E_WCET_CONTRACT_MISMATCH : diag := mkDiag "ERR_WCET_CONTRACT_MISMATCH"
  "Synthesized script total WCET exceeds top-level @contract @wcet limit"
  "Fewer instructions or higher @contract @wcet bound"
  "Script Contract -> WCET Synthesis"
  "Optimize script logic or increase @contract @wcet limit".
Definition E_RUNTIME_NOT_IMPORTED : diag := mkDiag "ERR_RUNTIME_NOT_IMPORTED"
  "Intrinsic function requires a runtime module that was not imported via @import"
  "Imported runtime module"
  "Intrinsic Call -> Runtime Verification"
  ("Add '@import " ++ dquote ++ "<runtime>" ++ dquote ++ ";' (e.g. core, math, sys, net, vram, gpu) at top of script").
Definition E_IMPORT_SYNTAX : diag := mkDiag "ERR_IMPORT_SYNTAX"
  ("Expected runtime module name after @import (e.g. @import " ++ dquote ++ "core" ++ dquote ++ ";)")
  "Module name string or identifier"
  "Module Import -> Syntax"
  ("Specify import as '@import " ++ dquote ++ "core" ++ dquote ++ ";' or '@import " ++ dquote ++ "math" ++ dquote ++ ";'").
Definition E_UNKNOWN_RUNTIME : diag := mkDiag "ERR_UNKNOWN_RUNTIME"
  "Unknown runtime module in @import"
  ("Supported runtimes: " ++ dquote ++ "tiny" ++ dquote ++ ", " ++ dquote ++ "core" ++ dquote ++ ", " ++ dquote ++ "math" ++ dquote ++ ", " ++ dquote ++ "fix" ++ dquote ++ ", " ++ dquote ++ "sys" ++ dquote ++ ", " ++ dquote ++ "net" ++ dquote ++ ", " ++ dquote ++ "vram" ++ dquote ++ ", " ++ dquote ++ "gpu" ++ dquote ++ ", " ++ dquote ++ "term" ++ dquote ++ ", " ++ dquote ++ "file" ++ dquote)
  "Module Import -> Validation"
  ("Import one of: " ++ dquote ++ "tiny" ++ dquote ++ ", " ++ dquote ++ "core" ++ dquote ++ ", " ++ dquote ++ "math" ++ dquote ++ ", " ++ dquote ++ "fix" ++ dquote ++ ", " ++ dquote ++ "sys" ++ dquote ++ ", " ++ dquote ++ "net" ++ dquote ++ ", " ++ dquote ++ "vram" ++ dquote ++ ", " ++ dquote ++ "gpu" ++ dquote ++ ", " ++ dquote ++ "term" ++ dquote ++ ", " ++ dquote ++ "file" ++ dquote).
Definition E_MISSING_SEMICOLON : diag := mkDiag "ERR_MISSING_SEMICOLON"
  "Missing semicolon ';' after @contract directive"
  "Semicolon ';'"
  "Statement -> @contract Directive"
  "Add ';' at end of @contract: ...;".
Definition E_EXPECTED_TIME_LITERAL : diag := mkDiag "ERR_EXPECTED_TIME_LITERAL"
  "Expected time duration literal after @within (e.g. 500us, 10ms, 100ns)"
  "Time literal with unit suffix (e.g. 500us, 5ms, 100ns)"
  "Statement -> @within Block"
  "Specify duration like @within(500us) { ... }".
Definition E_EXPECTED_LBRACE_3 : diag := mkDiag "ERR_EXPECTED_LBRACE"
  "Missing opening brace '{' to begin within block"
  "Left brace '{'"
  "Statement -> @within Block"
  "Add opening brace '{' after @within(...)".
Definition E_UNBOUNDED_LOOP : diag := mkDiag "ERR_UNBOUNDED_LOOP"
  "Constant infinite loop (@while(1)) rejected: loops must have statically bounded monotonic conditions"
  "Bounded condition e.g. @while($i < 100)"
  "Static Loop Bound Verification"
  "Replace infinite loop with bounded loop counter".
Definition E_INVARIANT_SYNTAX : diag := mkDiag "ERR_INVARIANT_SYNTAX"
  "Expected '(' after @invariant"
  "Left parenthesis '('"
  "Loop Contract -> Invariant"
  "Specify loop invariant as '@invariant(condition)'".
Definition E_EXPECTED_LBRACE_4 : diag := mkDiag "ERR_EXPECTED_LBRACE"
  "Missing opening brace '{' after while condition"
  "Left brace '{'"
  "Statement -> While Loop"
  "Add opening brace '{' after while condition".
Definition E_TYPESTATE_MISMATCH : diag := mkDiag "ERR_TYPESTATE_MISMATCH"
  "Loop body violates handle confinement (handle captured inside loop must be consumed within the same iteration)"
  "Consistent handle state across loop iterations"
  "Typestate Flow Verification"
  "Ensure handle captured in while loop is consumed with @send before next iteration".
Definition E_FOR_EXPECTED_VAR : diag := mkDiag "ERR_FOR_EXPECTED_VAR"
  "Expected variable identifier (e.g., $i) after 'for'"
  "Variable identifier '$var'"
  "Statement -> For Loop"
  "Specify loop variable, e.g., 'for $i in 0..10'".
Definition E_FOR_EXPECTED_IN : diag := mkDiag "ERR_FOR_EXPECTED_IN"
  "Expected 'in' keyword after loop variable"
  "'in'"
  "Statement -> For Loop"
  "Add 'in' keyword after variable, e.g., 'for $i in 0..10'".
Definition E_FOR_NON_CONSTANT_BOUND : diag := mkDiag "ERR_FOR_NON_CONSTANT_BOUND"
  "Static range for loop requires compile-time constant start bound (0..N)"
  "Integer literal e.g. '0'"
  "Statement -> For Loop"
  "Use constant literal for loop range start, or use 'while' for dynamic bounds".
Definition E_FOR_EXPECTED_DOTDOT : diag := mkDiag "ERR_FOR_EXPECTED_DOTDOT"
  "Expected range operator '..' between loop bounds"
  "'..'"
  "Statement -> For Loop"
  "Specify range with '..', e.g., '0..100'".
Definition E_FOR_NON_CONSTANT_BOUND_2 : diag := mkDiag "ERR_FOR_NON_CONSTANT_BOUND"
  "Static range for loop requires compile-time constant end bound (0..N)"
  "Integer literal e.g. '100'"
  "Statement -> For Loop"
  "Use constant literal for loop range end, or use 'while' for dynamic bounds".
Definition E_EXPECTED_LBRACE_5 : diag := mkDiag "ERR_EXPECTED_LBRACE"
  "Missing opening brace '{' for for loop body"
  "Left brace '{'"
  "Statement -> For Loop"
  "Add opening brace '{' after for loop range".
Definition E_TYPESTATE_MISMATCH_2 : diag := mkDiag "ERR_TYPESTATE_MISMATCH"
  "Loop body violates handle confinement (handle captured inside loop must be consumed within the same iteration)"
  "Consistent handle state across loop iterations"
  "Typestate Flow Verification"
  "Ensure handle captured in for loop is consumed with @send before next iteration".
Definition E_FOR_WCET_EXCEEDED : diag := mkDiag "ERR_FOR_WCET_EXCEEDED"
  "Static loop WCET exceeds MAX_VM_STEPS step limit (10,000 steps)"
  "Loop with total steps <= 10,000"
  "Static Loop WCET Verification"
  "Reduce loop upper bound or simplify loop body to satisfy real-time step budget".
Definition E_ARRAY_SYNTAX : diag := mkDiag "ERR_ARRAY_SYNTAX"
  "Expected ';' in array type [i64; N]"
  "Semicolon ';'"
  "Statement -> Array Declaration"
  "Specify array type as '[i64; N]'".
Definition E_ARRAY_INVALID_LEN : diag := mkDiag "ERR_ARRAY_INVALID_LEN"
  "Array size must be a positive constant integer"
  "Positive integer"
  "Statement -> Array Declaration"
  "Specify constant array size, e.g. '[i64; 16]'".
Definition E_ARRAY_SYNTAX_2 : diag := mkDiag "ERR_ARRAY_SYNTAX"
  "Expected ']' after array length"
  "Right bracket ']'"
  "Statement -> Array Declaration"
  "Close array type with ']'".
Definition E_EXPECTED_LBRACKET_3 : diag := mkDiag "ERR_EXPECTED_LBRACKET"
  "Expected '[' to start array literal initialization"
  "Left bracket '['"
  "Statement -> Array Initialization"
  "Initialize array elements with '= [elem0, elem1, ...]'".
Definition E_ARRAY_INIT_TOO_MANY_ELEMENTS : diag := mkDiag "ERR_ARRAY_INIT_TOO_MANY_ELEMENTS"
  "Array literal has more elements than declared array capacity"
  "Matching number of elements"
  "Statement -> Array Initialization"
  "Ensure element count does not exceed declared array size".
Definition E_ARRAY_SYNTAX_3 : diag := mkDiag "ERR_ARRAY_SYNTAX"
  "Expected ']' after array initialization elements"
  "Right bracket ']'"
  "Statement -> Array Initialization"
  "Close array initialization list with ']'".
Definition E_FIXED_SYNTAX : diag := mkDiag "ERR_FIXED_SYNTAX"
  "Expected '<' after 'fixed' type keyword"
  "Left angle bracket '<'"
  "Type Specification -> Fixed-Point"
  "Specify fixed-point type as 'fixed<N>' (e.g. fixed<16>)".
Definition E_INVALID_FIXED_SCALE : diag := mkDiag "ERR_INVALID_FIXED_SCALE"
  "Fixed-point fractional scale must be an integer between 1 and 31"
  "Integer 1..=31"
  "Type Specification -> Fixed-Point"
  "Specify scale between 1 and 31 (e.g. fixed<16>)".
Definition E_FIXED_SYNTAX_2 : diag := mkDiag "ERR_FIXED_SYNTAX"
  "Expected '>' after fixed-point scale"
  "Right angle bracket '>'"
  "Type Specification -> Fixed-Point"
  "Close fixed-point scale with '>'".
Definition E_ARRAY_INVALID_LEN_2 : diag := mkDiag "ERR_ARRAY_INVALID_LEN"
  "Array literal cannot be empty"
  "At least one element"
  "Statement -> Array Initialization"
  "Provide elements in array literal, e.g. '[1, 2, 3]'".
Definition E_EXPECTED_LBRACE_6 : diag := mkDiag "ERR_EXPECTED_LBRACE"
  "Missing opening brace '{' after if condition"
  "Left brace '{'"
  "Statement -> If Branch"
  "Add opening brace '{' after if (...) condition".
Definition E_EXPECTED_LBRACE_7 : diag := mkDiag "ERR_EXPECTED_LBRACE"
  "Missing opening brace '{' after else keyword"
  "Left brace '{' or 'if'"
  "Statement -> Else Branch"
  "Add opening brace '{' or 'if' after else".
Definition E_TYPESTATE_MISMATCH_3 : diag := mkDiag "ERR_TYPESTATE_MISMATCH"
  "Branches diverge in hardware handle typestate (both branches must leave handle in the same state)"
  "Consistent handle state across branches"
  "Typestate Flow Verification"
  "Ensure handle is consumed/sent in both if and else branches".
Definition E_EXPECTED_LBRACE_8 : diag := mkDiag "ERR_EXPECTED_LBRACE"
  "Missing opening brace '{' after match expression"
  "Left brace '{'"
  "Statement -> Match Block"
  "Add '{' to open match arms".
Definition E_MAX_MATCH_ARMS_EXCEEDED : diag := mkDiag "ERR_MAX_MATCH_ARMS_EXCEEDED"
  "Maximum match arms exceeded (up to 16 arms supported)"
  "<= 16 arms"
  "Statement -> Match Arm"
  "Reduce the number of match arms".
Definition E_EXPECTED_FAT_ARROW : diag := mkDiag "ERR_EXPECTED_FAT_ARROW"
  "Expected '=>' after match pattern"
  "Fat arrow '=>'"
  "Statement -> Match Arm"
  "Specify arm as 'pattern => { ... },'".
Definition E_EXPECTED_VARIANT_NAME_2 : diag := mkDiag "ERR_EXPECTED_VARIANT_NAME"
  "Expected variant identifier after '::'"
  "Enum variant identifier"
  "Match Pattern -> Enum Arm"
  "Specify arm as 'EnumName::Variant => { ... }'".
Definition E_UNKNOWN_ENUM_TYPE : diag := mkDiag "ERR_UNKNOWN_ENUM_TYPE"
  "Enum type name is not defined"
  "Declared enum type name"
  "Match Pattern -> Enum Arm"
  "Declare enum before matching its variants, e.g. 'enum State { ... }'".
Definition E_ENUM_TYPE_MISMATCH : diag := mkDiag "ERR_ENUM_TYPE_MISMATCH"
  "Pattern enum type does not match matched expression enum type"
  "Matching enum type"
  "Match Pattern -> Enum Arm"
  "Use variants from the same enum type being matched".
Definition E_UNKNOWN_ENUM_VARIANT : diag := mkDiag "ERR_UNKNOWN_ENUM_VARIANT"
  "Enum variant does not exist on enum type"
  "Valid enum variant name"
  "Match Pattern -> Enum Arm"
  "[AI_REPAIR_HINT] Valid variants are declared in the enum definition".
Definition E_UNREACHABLE_PATTERN : diag := mkDiag "ERR_UNREACHABLE_PATTERN"
  "Duplicate or unreachable match pattern arm"
  "Unique pattern arm"
  "Statement -> Match Arm"
  "[AI_REPAIR_HINT] Remove duplicate or unreachable pattern arm".
Definition E_EXPECTED_FAT_ARROW_2 : diag := mkDiag "ERR_EXPECTED_FAT_ARROW"
  "Expected '=>' after match pattern"
  "Fat arrow '=>'"
  "Statement -> Match Arm"
  "Specify arm as 'Enum::Variant => { ... },'".
Definition E_EXPECTED_LPAREN : diag := mkDiag "ERR_EXPECTED_LPAREN"
  "Expected '(' in Ok($var) pattern"
  "Left parenthesis '('"
  "Match Pattern -> Ok Variant"
  "Specify as 'Ok($val) => { ... }'".
Definition E_UNCLOSED_PAREN : diag := mkDiag "ERR_UNCLOSED_PAREN"
  "Expected ')' after Ok pattern binding variable"
  "Right parenthesis ')'"
  "Match Pattern -> Ok Variant"
  "Close Ok pattern with ')'".
Definition E_EXPECTED_FAT_ARROW_3 : diag := mkDiag "ERR_EXPECTED_FAT_ARROW"
  "Expected '=>' after match pattern"
  "Fat arrow '=>'"
  "Statement -> Match Arm"
  "Specify arm as 'Ok($var) => { ... },'".
Definition E_EXPECTED_LPAREN_2 : diag := mkDiag "ERR_EXPECTED_LPAREN"
  "Expected '(' in Err($var) pattern"
  "Left parenthesis '('"
  "Match Pattern -> Err Variant"
  "Specify as 'Err($code) => { ... }'".
Definition E_UNCLOSED_PAREN_2 : diag := mkDiag "ERR_UNCLOSED_PAREN"
  "Expected ')' after Err pattern binding variable"
  "Right parenthesis ')'"
  "Match Pattern -> Err Variant"
  "Close Err pattern with ')'".
Definition E_EXPECTED_FAT_ARROW_4 : diag := mkDiag "ERR_EXPECTED_FAT_ARROW"
  "Expected '=>' after match pattern"
  "Fat arrow '=>'"
  "Statement -> Match Arm"
  "Specify arm as 'Err($var) => { ... },'".
Definition E_EXPECTED_FAT_ARROW_5 : diag := mkDiag "ERR_EXPECTED_FAT_ARROW"
  "Expected '=>' after match pattern"
  "Fat arrow '=>'"
  "Statement -> Match Arm"
  "Specify arm as 'value => { ... },'".
Definition E_UNCLOSED_BRACE : diag := mkDiag "ERR_UNCLOSED_BRACE"
  "Missing closing brace '}' in match statement"
  "Right brace '}'"
  "Statement -> Match Block"
  "Add '}' to close match statement".
Definition E_NON_EXHAUSTIVE_MATCH : diag := mkDiag "ERR_NON_EXHAUSTIVE_MATCH"
  "Non-exhaustive match: missing variant EnumName::MissingVariant"
  "Exhaustive match covering all enum variants"
  "Pattern Matching -> Exhaustiveness Check"
  "Add a match arm for 'EnumName::MissingVariant => ...' or add a wildcard arm '_ => ...'".
Definition E_NON_EXHAUSTIVE_MATCH_2 : diag := mkDiag "ERR_NON_EXHAUSTIVE_MATCH"
  "Result pattern match is not exhaustive: must handle both 'Ok($val)' and 'Err($code)', or provide wildcard '_' arm"
  "Exhaustive Ok and Err arms or wildcard '_'"
  "Statement -> Match Block"
  "Add missing 'Ok(...)' / 'Err(...)' or wildcard '_ => { ... }' arm".
Definition E_NON_EXHAUSTIVE_MATCH_3 : diag := mkDiag "ERR_NON_EXHAUSTIVE_MATCH"
  "Value pattern match is not exhaustive: must provide a wildcard '_' fallback arm to ensure deterministic safety"
  "Wildcard '_' arm"
  "Statement -> Match Block"
  "Add wildcard arm '_ => { ... }' at the end of match statement".
Definition E_EXPECTED_FN_NAME : diag := mkDiag "ERR_EXPECTED_FN_NAME"
  "Expected function identifier name after 'fn' keyword"
  "Function name identifier"
  "Statement -> Function Declaration"
  "Specify function name e.g. 'fn my_func()'".
Definition E_MAX_FNS_EXCEEDED : diag := mkDiag "ERR_MAX_FNS_EXCEEDED"
  "Maximum static function limit reached (16 functions limit)"
  "Fewer functions"
  "Function Declaration"
  "Reduce distinct function declarations in script".
Definition E_FN_REDEFINED : diag := mkDiag "ERR_FN_REDEFINED"
  "Function is already defined"
  "Unique function name"
  "Function Declaration"
  "Rename duplicate function".
Definition E_EXPECTED_LPAREN_3 : diag := mkDiag "ERR_EXPECTED_LPAREN"
  "Expected '(' after function name"
  "Opening parenthesis '('"
  "Statement -> Function Declaration"
  "Add '(' after function name".
Definition E_EXPECTED_PARAM_VAR : diag := mkDiag "ERR_EXPECTED_PARAM_VAR"
  "Expected variable identifier '$param' in parameter list"
  "Variable identifier '$param'"
  "Statement -> Function Parameters"
  "Use '$param' name in parameter list".
Definition E_MAX_PARAMS_EXCEEDED : diag := mkDiag "ERR_MAX_PARAMS_EXCEEDED"
  "Maximum parameter count exceeded (up to 4 parameters supported)"
  "<= 4 parameters"
  "Statement -> Function Parameters"
  "Reduce parameter count to 4 or fewer".
Definition E_EXPECTED_RPAREN : diag := mkDiag "ERR_EXPECTED_RPAREN"
  "Expected ')' after parameter list"
  "Closing parenthesis ')'"
  "Statement -> Function Declaration"
  "Add ')' to close parameter list".
Definition E_CONTRACT_SYNTAX : diag := mkDiag "ERR_CONTRACT_SYNTAX"
  "Expected '(' after @wcet"
  "Left parenthesis '('"
  "Function Contract -> WCET"
  "Specify WCET as '@wcet(time)' (e.g. @wcet(50ns))".
Definition E_EXPECTED_TIME_LITERAL_2 : diag := mkDiag "ERR_EXPECTED_TIME_LITERAL"
  "Expected time literal in @wcet"
  "Time literal (e.g. 50ns, 100us)"
  "Function Contract -> WCET"
  "Specify valid time literal in @wcet".
Definition E_UNCLOSED_PAREN_3 : diag := mkDiag "ERR_UNCLOSED_PAREN"
  "Missing closing parenthesis ')' in @wcet"
  "Closing parenthesis ')'"
  "Function Contract -> WCET"
  "Close @wcet with ')'".
Definition E_CONTRACT_SYNTAX_2 : diag := mkDiag "ERR_CONTRACT_SYNTAX"
  "Expected '(' after @requires"
  "Left parenthesis '('"
  "Function Contract -> Precondition"
  "Specify precondition as '@requires(condition)'".
Definition E_UNCLOSED_PAREN_4 : diag := mkDiag "ERR_UNCLOSED_PAREN"
  "Missing closing parenthesis ')' in @requires condition"
  "Closing parenthesis ')'"
  "Function Contract -> Precondition"
  "Add matching ')' after @requires condition".
Definition E_CONTRACT_SYNTAX_3 : diag := mkDiag "ERR_CONTRACT_SYNTAX"
  "Expected '(' after @ensures"
  "Left parenthesis '('"
  "Function Contract -> Postcondition"
  "Specify postcondition as '@ensures(condition)'".
Definition E_UNCLOSED_PAREN_5 : diag := mkDiag "ERR_UNCLOSED_PAREN"
  "Missing closing parenthesis ')' in @ensures condition"
  "Closing parenthesis ')'"
  "Function Contract -> Postcondition"
  "Add matching ')' after @ensures condition".
Definition E_EXPECTED_LBRACE_9 : diag := mkDiag "ERR_EXPECTED_LBRACE"
  "Expected opening brace '{' before function body"
  "Left brace '{'"
  "Statement -> Function Body"
  "Add '{' to start function body".
Definition E_WCET_CONTRACT_MISMATCH_2 : diag := mkDiag "ERR_WCET_CONTRACT_MISMATCH"
  "Function estimated WCET exceeds declared @wcet contract"
  "Lower instruction count or higher @wcet limit"
  "Function Contract -> WCET Verification"
  "Optimize function body instructions or increase declared @wcet bound".
Definition E_EXPECTED_FIELD_NAME_2 : diag := mkDiag "ERR_EXPECTED_FIELD_NAME"
  "Expected field name identifier after '.'"
  "Field identifier name"
  "Statement -> Struct Field Assignment"
  "Specify field name, e.g. '$pt.x := 10;'".
Definition E_EXPECTED_COLON_EQ : diag := mkDiag "ERR_EXPECTED_COLON_EQ"
  "Expected ':=' or '=' in struct field assignment"
  "':=' or '='"
  "Statement -> Struct Field Assignment"
  "Assign field value with '$inst.field := val;'".
Definition E_EXPECTED_COLON_EQ_2 : diag := mkDiag "ERR_EXPECTED_COLON_EQ"
  "Expected ':=' in array element assignment"
  "':='"
  "Statement -> Array Assignment"
  "Assign value with '$arr[$idx] := val;'".
Definition E_MISSING_SEMICOLON_2 : diag := mkDiag "ERR_MISSING_SEMICOLON"
  "Missing semicolon ';' at end of assignment"
  "Semicolon ';'"
  "Statement -> Variable Assignment"
  "Append ';' at end of assignment statement".
Definition E_MISSING_SEMICOLON_3 : diag := mkDiag "ERR_MISSING_SEMICOLON"
  "Missing semicolon ';' at end of compound assignment"
  "Semicolon ';'"
  "Statement -> Compound Addition Assignment"
  "Append ';' at end of statement".
Definition E_MISSING_SEMICOLON_4 : diag := mkDiag "ERR_MISSING_SEMICOLON"
  "Missing semicolon ';' at end of compound assignment"
  "Semicolon ';'"
  "Statement -> Compound Subtraction Assignment"
  "Append ';' at end of statement".
Definition E_MISSING_SEMICOLON_5 : diag := mkDiag "ERR_MISSING_SEMICOLON"
  "Missing semicolon ';' at end of expression statement"
  "Semicolon ';'"
  "Statement -> Expression Statement"
  "Append ';' to terminate the statement".
Definition E_LINEAR_USE_BEFORE_ALLOC_2 : diag := mkDiag "ERR_LINEAR_USE_BEFORE_ALLOC"
  "Hardware handle sent before being captured/allocated"
  "Capture handle with '#f := @capture()' before sending"
  "Linear Ownership Verification"
  "Initialize hardware handle with '@capture()' before '@send()'".
Definition E_LINEAR_DOUBLE_SEND : diag := mkDiag "ERR_LINEAR_DOUBLE_SEND"
  "Hardware handle sent multiple times (double-send / double-free violation)"
  "Single @send per allocated handle"
  "Linear Ownership Verification"
  "Remove duplicate '@send(#f);' calls on the same handle".
Definition E_LINEAR_USE_BEFORE_ALLOC_3 : diag := mkDiag "ERR_LINEAR_USE_BEFORE_ALLOC"
  "Resource handle released before being allocated"
  "Allocate resource before releasing"
  "Linear Ownership Verification"
  "Initialize resource handle before releasing".
Definition E_RESOURCE_DOUBLE_RELEASE : diag := mkDiag "ERR_RESOURCE_DOUBLE_RELEASE"
  "Resource released or moved multiple times (double-release violation)"
  "Single @release per allocated resource"
  "Linear Ownership Verification"
  "Remove duplicate '@release(#h);' calls on the same resource".
Definition E_INVALID_PIPE_TARGET : diag := mkDiag "ERR_INVALID_PIPE_TARGET"
  "Invalid pipe target function"
  "One of @send, @print, @println, @rate"
  "Expression -> Pipe"
  "Pipe value to a valid intrinsic like |> @send".
Definition E_FIXED_SCALE_MISMATCH : diag := mkDiag "ERR_FIXED_SCALE_MISMATCH"
  "Mismatched fixed-point scales in addition or subtraction"
  "Matching fixed-point scales"
  "Expression -> Fixed-Point Arithmetic"
  "Explicitly align fixed-point scales before performing arithmetic".
Definition E_DIV_BY_ZERO : diag := mkDiag "ERR_DIV_BY_ZERO"
  "Division by zero encountered in constant expression"
  "Non-zero divisor"
  "Expression -> Constant Division"
  "Ensure denominator constant is not zero".
Definition E_DIV_BY_ZERO_2 : diag := mkDiag "ERR_DIV_BY_ZERO"
  "Modulo by zero encountered in constant expression"
  "Non-zero divisor"
  "Expression -> Constant Modulo"
  "Ensure denominator constant is not zero".
Definition E_FIXED_SCALE_MISMATCH_2 : diag := mkDiag "ERR_FIXED_SCALE_MISMATCH"
  "Mismatched fixed-point scales in multiplication"
  "Matching fixed-point scales"
  "Expression -> Fixed-Point Arithmetic"
  "Explicitly align fixed-point scales before arithmetic".
Definition E_FIXED_SCALE_MISMATCH_3 : diag := mkDiag "ERR_FIXED_SCALE_MISMATCH"
  "Mismatched fixed-point scales in division"
  "Matching fixed-point scales"
  "Expression -> Fixed-Point Arithmetic"
  "Explicitly align fixed-point scales before arithmetic".
Definition E_STRING_POOL_FULL : diag := mkDiag "ERR_STRING_POOL_FULL"
  "String literal pool exhausted (512 bytes limit reached)"
  "Shorter string constants"
  "String Pool Allocation"
  "Reduce the size of string constants".
Definition E_EXPECTED_FIELD_NAME_3 : diag := mkDiag "ERR_EXPECTED_FIELD_NAME"
  "Expected field name identifier after '.'"
  "Field identifier name"
  "Expression -> Struct Field Access"
  "Specify field name, e.g. '$pt.x'".
Definition E_EXPECTED_VARIANT_NAME_3 : diag := mkDiag "ERR_EXPECTED_VARIANT_NAME"
  "Expected variant identifier after '::'"
  "Enum variant identifier"
  "Expression -> Enum Variant"
  "Specify variant name, e.g. 'State::Idle'".
Definition E_UNKNOWN_ENUM_TYPE_2 : diag := mkDiag "ERR_UNKNOWN_ENUM_TYPE"
  "Enum type name is not defined"
  "Declared enum type name"
  "Expression -> Enum Variant"
  "Declare enum before using variants, e.g. 'enum State { ... }'".
Definition E_UNKNOWN_ENUM_VARIANT_2 : diag := mkDiag "ERR_UNKNOWN_ENUM_VARIANT"
  "Enum variant does not exist on enum type"
  "Valid enum variant name"
  "Expression -> Enum Variant"
  "[AI_REPAIR_HINT] Valid variants are declared in the enum definition".
Definition E_STRUCT_LITERAL_UNSUPPORTED : diag := mkDiag "ERR_STRUCT_LITERAL_UNSUPPORTED"
  "Struct literal initialization 'Type { field: val }' is not supported in PulseLang"
  "Struct instance declaration with 'let mut $var: Type;'"
  "Expression -> Struct Literal"
  "PulseLang uses zero-allocation static slots. Declare with 'let mut $var: Type;', then assign fields: '$var.field = value;'".
Definition E_TOO_MANY_ARGS : diag := mkDiag "ERR_TOO_MANY_ARGS"
  "Too many arguments passed to static function"
  "Matching number of function parameters"
  "Expression -> Function Call"
  "Check function parameter signature".
Definition E_TOO_FEW_ARGS : diag := mkDiag "ERR_TOO_FEW_ARGS"
  "Too few arguments passed to static function"
  "Matching number of function parameters"
  "Expression -> Function Call"
  "Provide all required function arguments".
Definition E_UNCLOSED_PAREN_6 : diag := mkDiag "ERR_UNCLOSED_PAREN"
  "Missing closing parenthesis ')' in function argument list"
  "Closing parenthesis ')'"
  "Expression -> Function Call"
  "Add matching ')' after argument list".
Definition E_EXPECTED_COMMA : diag := mkDiag "ERR_EXPECTED_COMMA"
  "Expected ',' between arguments in @streq($s1, $s2)"
  "Comma ','"
  "Expression -> Intrinsic Function Call"
  "Provide two string arguments, e.g. '@streq($s1, $s2)'".
Definition E_UNCLOSED_PAREN_7 : diag := mkDiag "ERR_UNCLOSED_PAREN"
  "Missing closing parenthesis ')' in @streq($s1, $s2)"
  "Closing parenthesis ')'"
  "Expression -> Intrinsic Function Call"
  "Add matching ')' after argument list".
Definition E_EXPECTED_COMMA_2 : diag := mkDiag "ERR_EXPECTED_COMMA"
  "Expected ',' between views in @zip_with"
  "Comma ','"
  "Expression -> Combinator Call"
  "Provide two views and function, e.g. '@zip_with($v1, $v2, mul)'".
Definition E_EXPECTED_COMMA_3 : diag := mkDiag "ERR_EXPECTED_COMMA"
  "Expected ',' before function name in @zip_with"
  "Comma ','"
  "Expression -> Combinator Call"
  "Provide function name, e.g. '@zip_with($v1, $v2, mul)'".
Definition E_UNCLOSED_PAREN_8 : diag := mkDiag "ERR_UNCLOSED_PAREN"
  "Missing closing parenthesis ')' in @zip_with"
  "Closing parenthesis ')'"
  "Expression -> Combinator Call"
  "Close with ')'".
Definition E_UNCLOSED_PAREN_9 : diag := mkDiag "ERR_UNCLOSED_PAREN"
  "Missing closing parenthesis ')' in @sum"
  "Closing parenthesis ')'"
  "Expression -> Combinator Call"
  "Close with ')'".
Definition E_EXPECTED_COMMA_4 : diag := mkDiag "ERR_EXPECTED_COMMA"
  "Expected ',' after view in @reduce"
  "Comma ','"
  "Expression -> Combinator Call"
  "Provide view, initial value, and reducer function".
Definition E_EXPECTED_COMMA_5 : diag := mkDiag "ERR_EXPECTED_COMMA"
  "Expected ',' before function name in @reduce"
  "Comma ','"
  "Expression -> Combinator Call"
  "Provide reducer function name".
Definition E_UNCLOSED_PAREN_10 : diag := mkDiag "ERR_UNCLOSED_PAREN"
  "Missing closing parenthesis ')' in @reduce"
  "Closing parenthesis ')'"
  "Expression -> Combinator Call"
  "Close with ')'".
Definition E_UNKNOWN_INTRINSIC : diag := mkDiag "ERR_UNKNOWN_INTRINSIC"
  "Unknown intrinsic function name"
  "Supported intrinsics: @print, @println, @tsc, @rtt, @rate, @capture, @send, @argc, @arg, @ok, @err, @is_ok, @is_err, @unwrap, @core_id, @tsc_freq, @uptime_ns, @busy_wait, @ring_depth, @min, @max, @abs, @clamp, @popcnt, @lzcnt, @crc32, @vram_read, @vram_write"
  "Expression -> Intrinsic Call"
  "Verify that the intrinsic name matches supported DSL intrinsics".
Definition E_EXPECTED_COMMA_6 : diag := mkDiag "ERR_EXPECTED_COMMA"
  "Expected ',' between 2 intrinsic arguments"
  "Comma ','"
  "Expression -> Intrinsic Function Call"
  "Provide 2 arguments separated by a comma".
Definition E_EXPECTED_COMMA_7 : diag := mkDiag "ERR_EXPECTED_COMMA"
  "Expected ',' between intrinsic arguments"
  "Comma ','"
  "Expression -> Intrinsic Function Call"
  "Provide 3 arguments separated by commas".
Definition E_UNCLOSED_PAREN_11 : diag := mkDiag "ERR_UNCLOSED_PAREN"
  "Missing closing parenthesis ')' in function argument list"
  "Closing parenthesis ')'"
  "Expression -> Intrinsic Function Call"
  "Add matching ')' after argument list".
Definition E_UNCLOSED_PAREN_12 : diag := mkDiag "ERR_UNCLOSED_PAREN"
  "Expected closing parenthesis ')' after sub-expression"
  "Closing parenthesis ')'"
  "Expression -> Grouping"
  "Add matching ')' to close the grouped expression".
Definition E_SYNTAX_UNEXPECTED_TOKEN : diag := mkDiag "ERR_SYNTAX_UNEXPECTED_TOKEN"
  "Unexpected token encountered in expression"
  "Literal value, variable ($var), hardware handle (#h), or intrinsic call (@fn)"
  "Expression -> Primary"
  "Replace invalid token with a valid variable name, number, or expression".
