(* ===== verification/Compiler.v ===== *)
(** The compiler's state and its basic operations
    (pulselang-core/src/compiler.rs): the token cursor, the emission of
    instructions and constants, scratch registers, variables and the tables of
    arrays, views, structs, enums, constant tables and functions.

    A fixed array with a counter is the list of the entries in use, and a name
    with its length is the list of its bytes, cut where the array ends; only the
    variables keep their whole array, since a function gives its variables back
    with their contents. The source and the tokens are arguments. *)

From S2P Require Import Prelude RustStd Isa Token Error CompErrors.
Local Open Scope Z_scope.

(** * Data *)

Inductive ResourceKind := HardwareFrame | PacketBuffer | RingSlot | FileHandle.

Module Typestate.
Inductive t : Set :=
| Unallocated
| Captured (line col : Z) (kind : ResourceKind)
| Sent
| Dropped
| Moved (line col : Z).
End Typestate.

(** [params] holds the names of the parameters with their fixed-point scales. *)
Record FnMeta : Set := mkFn {
  fn_name : list Z;
  entry_pc : Z;
  params : list (list Z * option Z);
  ensures_tokens : list (Z * Z);
  declared_wcet_ns : option Z;
  estimated_wcet_ns : Z;
}.

Definition set_params (x : FnMeta) (v : list (list Z * option Z)) : FnMeta :=
  mkFn (fn_name x) (entry_pc x) v (ensures_tokens x) (declared_wcet_ns x) (estimated_wcet_ns x).
Definition set_ensures_tokens (x : FnMeta) (v : list (Z * Z)) : FnMeta :=
  mkFn (fn_name x) (entry_pc x) (params x) v (declared_wcet_ns x) (estimated_wcet_ns x).
Definition set_declared_wcet_ns (x : FnMeta) (v : option Z) : FnMeta :=
  mkFn (fn_name x) (entry_pc x) (params x) (ensures_tokens x) v (estimated_wcet_ns x).
Definition set_estimated_wcet_ns (x : FnMeta) (v : Z) : FnMeta :=
  mkFn (fn_name x) (entry_pc x) (params x) (ensures_tokens x) (declared_wcet_ns x) v.

Record WcetItem : Set := mkWcet { w_name : list Z; declared_ns : option Z; estimated_ns : Z }.

Record ArrayMeta : Set := mkArray { a_name : list Z; a_id : Z; a_base : Z; a_len : Z }.

Record StructFieldMeta : Set := mkField { f_name : list Z; f_offset : Z }.

Record StructDefMeta : Set := mkStructDef { sd_name : list Z; sd_fields : list StructFieldMeta }.

Record EnumDefMeta : Set := mkEnumDef { e_name : list Z; variants : list (list Z) }.

Record StructInstMeta : Set := mkInst {
  si_var_name : list Z;
  struct_def_idx : Z;
  inst_id : Z;
  base_slot : Z;
  si_field_count : Z;
}.

Record ConstTableMeta : Set := mkTable { t_name : list Z; tbl_id : Z; base_idx : Z; t_len : Z }.

Record ViewMeta : Set := mkView {
  vw_name : list Z;
  vw_arr_id : Z;
  base_reg : Z;
  stride_imm : Z;
  len_imm : Z;
}.

Inductive CombinatorFnTarget :=
| UserDefined (f : FnMeta)
| Builtin (func_id : Z).

(** One index of the arrays [var_names], [var_regs], [var_mut], [var_spill],
    [var_spill_slot], [var_enum_types] and [var_fixed_scales]. *)
Record var_slot : Set := mkVar {
  v_name : list Z;
  v_reg : Z;
  v_mut : bool;
  v_spill : bool;
  v_spill_slot : Z;
  v_enum : option Z;
  v_scale : option Z;
}.

Definition set_v_name (x : var_slot) (v : list Z) : var_slot :=
  mkVar v (v_reg x) (v_mut x) (v_spill x) (v_spill_slot x) (v_enum x) (v_scale x).
Definition set_v_reg (x : var_slot) (v : Z) : var_slot :=
  mkVar (v_name x) v (v_mut x) (v_spill x) (v_spill_slot x) (v_enum x) (v_scale x).
Definition set_v_mut (x : var_slot) (v : bool) : var_slot :=
  mkVar (v_name x) (v_reg x) v (v_spill x) (v_spill_slot x) (v_enum x) (v_scale x).
Definition set_v_spill (x : var_slot) (v : bool) : var_slot :=
  mkVar (v_name x) (v_reg x) (v_mut x) v (v_spill_slot x) (v_enum x) (v_scale x).
Definition set_v_spill_slot (x : var_slot) (v : Z) : var_slot :=
  mkVar (v_name x) (v_reg x) (v_mut x) (v_spill x) v (v_enum x) (v_scale x).
Definition set_v_enum (x : var_slot) (v : option Z) : var_slot :=
  mkVar (v_name x) (v_reg x) (v_mut x) (v_spill x) (v_spill_slot x) v (v_scale x).
Definition set_v_scale (x : var_slot) (v : option Z) : var_slot :=
  mkVar (v_name x) (v_reg x) (v_mut x) (v_spill x) (v_spill_slot x) (v_enum x) v.

Definition empty_var : var_slot := mkVar [] 0 true false 0 None None.

(** What the compiler emits. *)
Record Out : Set := mkOut {
  code : list Z;
  str_pool : list Z;
  const_pool : list Z;
}.

Definition set_code (x : Out) (v : list Z) : Out :=
  mkOut v (str_pool x) (const_pool x).
Definition set_str_pool (x : Out) (v : list Z) : Out :=
  mkOut (code x) v (const_pool x).
Definition set_const_pool (x : Out) (v : list Z) : Out :=
  mkOut (code x) (str_pool x) v.

(** What names stand for. *)
Record Names : Set := mkNames {
  vars : list var_slot;
  var_count : Z;
  spill_count : Z;
  enums : list EnumDefMeta;
  arrays : list ArrayMeta;
  total_array_elements : Z;
  functions : list FnMeta;
  struct_defs : list StructDefMeta;
  struct_insts : list StructInstMeta;
  total_struct_fields : Z;
  const_tables : list ConstTableMeta;
  views : list ViewMeta;
}.

Definition set_vars (x : Names) (v : list var_slot) : Names :=
  mkNames v (var_count x) (spill_count x) (enums x) (arrays x) (total_array_elements x)
    (functions x) (struct_defs x) (struct_insts x) (total_struct_fields x) (const_tables x)
    (views x).
Definition set_var_count (x : Names) (v : Z) : Names :=
  mkNames (vars x) v (spill_count x) (enums x) (arrays x) (total_array_elements x)
    (functions x) (struct_defs x) (struct_insts x) (total_struct_fields x) (const_tables x)
    (views x).
Definition set_spill_count (x : Names) (v : Z) : Names :=
  mkNames (vars x) (var_count x) v (enums x) (arrays x) (total_array_elements x) (functions x)
    (struct_defs x) (struct_insts x) (total_struct_fields x) (const_tables x) (views x).
Definition set_enums (x : Names) (v : list EnumDefMeta) : Names :=
  mkNames (vars x) (var_count x) (spill_count x) v (arrays x) (total_array_elements x)
    (functions x) (struct_defs x) (struct_insts x) (total_struct_fields x) (const_tables x)
    (views x).
Definition set_arrays (x : Names) (v : list ArrayMeta) : Names :=
  mkNames (vars x) (var_count x) (spill_count x) (enums x) v (total_array_elements x)
    (functions x) (struct_defs x) (struct_insts x) (total_struct_fields x) (const_tables x)
    (views x).
Definition set_total_array_elements (x : Names) (v : Z) : Names :=
  mkNames (vars x) (var_count x) (spill_count x) (enums x) (arrays x) v (functions x)
    (struct_defs x) (struct_insts x) (total_struct_fields x) (const_tables x) (views x).
Definition set_functions (x : Names) (v : list FnMeta) : Names :=
  mkNames (vars x) (var_count x) (spill_count x) (enums x) (arrays x) (total_array_elements x)
    v (struct_defs x) (struct_insts x) (total_struct_fields x) (const_tables x) (views x).
Definition set_struct_defs (x : Names) (v : list StructDefMeta) : Names :=
  mkNames (vars x) (var_count x) (spill_count x) (enums x) (arrays x) (total_array_elements x)
    (functions x) v (struct_insts x) (total_struct_fields x) (const_tables x) (views x).
Definition set_struct_insts (x : Names) (v : list StructInstMeta) : Names :=
  mkNames (vars x) (var_count x) (spill_count x) (enums x) (arrays x) (total_array_elements x)
    (functions x) (struct_defs x) v (total_struct_fields x) (const_tables x) (views x).
Definition set_total_struct_fields (x : Names) (v : Z) : Names :=
  mkNames (vars x) (var_count x) (spill_count x) (enums x) (arrays x) (total_array_elements x)
    (functions x) (struct_defs x) (struct_insts x) v (const_tables x) (views x).
Definition set_const_tables (x : Names) (v : list ConstTableMeta) : Names :=
  mkNames (vars x) (var_count x) (spill_count x) (enums x) (arrays x) (total_array_elements x)
    (functions x) (struct_defs x) (struct_insts x) (total_struct_fields x) v (views x).
Definition set_views (x : Names) (v : list ViewMeta) : Names :=
  mkNames (vars x) (var_count x) (spill_count x) (enums x) (arrays x) (total_array_elements x)
    (functions x) (struct_defs x) (struct_insts x) (total_struct_fields x) (const_tables x) v.

(** The pool sizes and the imports, which pragmas change. *)
Record Limits : Set := mkLimits {
  max_elements : Z;
  max_arrays : Z;
  max_struct_defs : Z;
  max_struct_insts : Z;
  max_struct_fields : Z;
  max_const_tables : Z;
  imported_runtimes : Z;
  has_explicit_imports : bool;
}.

Definition set_max_elements (x : Limits) (v : Z) : Limits :=
  mkLimits v (max_arrays x) (max_struct_defs x) (max_struct_insts x) (max_struct_fields x)
    (max_const_tables x) (imported_runtimes x) (has_explicit_imports x).
Definition set_max_arrays (x : Limits) (v : Z) : Limits :=
  mkLimits (max_elements x) v (max_struct_defs x) (max_struct_insts x) (max_struct_fields x)
    (max_const_tables x) (imported_runtimes x) (has_explicit_imports x).
Definition set_max_struct_defs (x : Limits) (v : Z) : Limits :=
  mkLimits (max_elements x) (max_arrays x) v (max_struct_insts x) (max_struct_fields x)
    (max_const_tables x) (imported_runtimes x) (has_explicit_imports x).
Definition set_max_struct_insts (x : Limits) (v : Z) : Limits :=
  mkLimits (max_elements x) (max_arrays x) (max_struct_defs x) v (max_struct_fields x)
    (max_const_tables x) (imported_runtimes x) (has_explicit_imports x).
Definition set_max_struct_fields (x : Limits) (v : Z) : Limits :=
  mkLimits (max_elements x) (max_arrays x) (max_struct_defs x) (max_struct_insts x) v
    (max_const_tables x) (imported_runtimes x) (has_explicit_imports x).
Definition set_max_const_tables (x : Limits) (v : Z) : Limits :=
  mkLimits (max_elements x) (max_arrays x) (max_struct_defs x) (max_struct_insts x)
    (max_struct_fields x) v (imported_runtimes x) (has_explicit_imports x).
Definition set_imported_runtimes (x : Limits) (v : Z) : Limits :=
  mkLimits (max_elements x) (max_arrays x) (max_struct_defs x) (max_struct_insts x)
    (max_struct_fields x) (max_const_tables x) v (has_explicit_imports x).
Definition set_has_explicit_imports (x : Limits) (v : bool) : Limits :=
  mkLimits (max_elements x) (max_arrays x) (max_struct_defs x) (max_struct_insts x)
    (max_struct_fields x) (max_const_tables x) (imported_runtimes x) v.

(** The execution-time contract. *)
Record Wcet : Set := mkWcetState {
  declared_script_wcet_ns : option Z;
  declared_script_budget_ns : option Z;
  wcet_items : list WcetItem;
  total_synthesized_wcet_ns : Z;
}.

Definition set_declared_script_wcet_ns (x : Wcet) (v : option Z) : Wcet :=
  mkWcetState v (declared_script_budget_ns x) (wcet_items x) (total_synthesized_wcet_ns x).
Definition set_declared_script_budget_ns (x : Wcet) (v : option Z) : Wcet :=
  mkWcetState (declared_script_wcet_ns x) v (wcet_items x) (total_synthesized_wcet_ns x).
Definition set_wcet_items (x : Wcet) (v : list WcetItem) : Wcet :=
  mkWcetState (declared_script_wcet_ns x) (declared_script_budget_ns x) v
    (total_synthesized_wcet_ns x).
Definition set_total_synthesized_wcet_ns (x : Wcet) (v : Z) : Wcet :=
  mkWcetState (declared_script_wcet_ns x) (declared_script_budget_ns x) (wcet_items x) v.

Record Compiler : Set := mkCompiler {
  current : Z;
  temp_used : Z;
  out : Out;
  names : Names;
  handle_states : list Typestate.t;
  current_fn : option Z;
  current_expr_enum_type : option Z;
  current_expr_fixed_scale : option Z;
  target_fixed_scale : option Z;
  limits : Limits;
  wcet : Wcet;
}.

Definition set_current (x : Compiler) (v : Z) : Compiler :=
  mkCompiler v (temp_used x) (out x) (names x) (handle_states x) (current_fn x)
    (current_expr_enum_type x) (current_expr_fixed_scale x) (target_fixed_scale x) (limits x)
    (wcet x).
Definition set_temp_used (x : Compiler) (v : Z) : Compiler :=
  mkCompiler (current x) v (out x) (names x) (handle_states x) (current_fn x)
    (current_expr_enum_type x) (current_expr_fixed_scale x) (target_fixed_scale x) (limits x)
    (wcet x).
Definition set_out (x : Compiler) (v : Out) : Compiler :=
  mkCompiler (current x) (temp_used x) v (names x) (handle_states x) (current_fn x)
    (current_expr_enum_type x) (current_expr_fixed_scale x) (target_fixed_scale x) (limits x)
    (wcet x).
Definition set_names (x : Compiler) (v : Names) : Compiler :=
  mkCompiler (current x) (temp_used x) (out x) v (handle_states x) (current_fn x)
    (current_expr_enum_type x) (current_expr_fixed_scale x) (target_fixed_scale x) (limits x)
    (wcet x).
Definition set_handle_states (x : Compiler) (v : list Typestate.t) : Compiler :=
  mkCompiler (current x) (temp_used x) (out x) (names x) v (current_fn x)
    (current_expr_enum_type x) (current_expr_fixed_scale x) (target_fixed_scale x) (limits x)
    (wcet x).
Definition set_current_fn (x : Compiler) (v : option Z) : Compiler :=
  mkCompiler (current x) (temp_used x) (out x) (names x) (handle_states x) v
    (current_expr_enum_type x) (current_expr_fixed_scale x) (target_fixed_scale x) (limits x)
    (wcet x).
Definition set_current_expr_enum_type (x : Compiler) (v : option Z) : Compiler :=
  mkCompiler (current x) (temp_used x) (out x) (names x) (handle_states x) (current_fn x) v
    (current_expr_fixed_scale x) (target_fixed_scale x) (limits x) (wcet x).
Definition set_current_expr_fixed_scale (x : Compiler) (v : option Z) : Compiler :=
  mkCompiler (current x) (temp_used x) (out x) (names x) (handle_states x) (current_fn x)
    (current_expr_enum_type x) v (target_fixed_scale x) (limits x) (wcet x).
Definition set_target_fixed_scale (x : Compiler) (v : option Z) : Compiler :=
  mkCompiler (current x) (temp_used x) (out x) (names x) (handle_states x) (current_fn x)
    (current_expr_enum_type x) (current_expr_fixed_scale x) v (limits x) (wcet x).
Definition set_limits (x : Compiler) (v : Limits) : Compiler :=
  mkCompiler (current x) (temp_used x) (out x) (names x) (handle_states x) (current_fn x)
    (current_expr_enum_type x) (current_expr_fixed_scale x) (target_fixed_scale x) v (wcet x).
Definition set_wcet (x : Compiler) (v : Wcet) : Compiler :=
  mkCompiler (current x) (temp_used x) (out x) (names x) (handle_states x) (current_fn x)
    (current_expr_enum_type x) (current_expr_fixed_scale x) (target_fixed_scale x) (limits x) v.

Definition put_code (c : Compiler) (v : list Z) : Compiler := set_out c (set_code (out c) v).
Definition put_str_pool (c : Compiler) (v : list Z) : Compiler := set_out c (set_str_pool (out c) v).
Definition put_const_pool (c : Compiler) (v : list Z) : Compiler := set_out c (set_const_pool (out c) v).
Definition put_vars (c : Compiler) (v : list var_slot) : Compiler := set_names c (set_vars (names c) v).
Definition put_var_count (c : Compiler) (v : Z) : Compiler := set_names c (set_var_count (names c) v).
Definition put_spill_count (c : Compiler) (v : Z) : Compiler := set_names c (set_spill_count (names c) v).
Definition put_enums (c : Compiler) (v : list EnumDefMeta) : Compiler := set_names c (set_enums (names c) v).
Definition put_arrays (c : Compiler) (v : list ArrayMeta) : Compiler := set_names c (set_arrays (names c) v).
Definition put_total_array_elements (c : Compiler) (v : Z) : Compiler := set_names c (set_total_array_elements (names c) v).
Definition put_functions (c : Compiler) (v : list FnMeta) : Compiler := set_names c (set_functions (names c) v).
Definition put_struct_defs (c : Compiler) (v : list StructDefMeta) : Compiler := set_names c (set_struct_defs (names c) v).
Definition put_struct_insts (c : Compiler) (v : list StructInstMeta) : Compiler := set_names c (set_struct_insts (names c) v).
Definition put_total_struct_fields (c : Compiler) (v : Z) : Compiler := set_names c (set_total_struct_fields (names c) v).
Definition put_const_tables (c : Compiler) (v : list ConstTableMeta) : Compiler := set_names c (set_const_tables (names c) v).
Definition put_views (c : Compiler) (v : list ViewMeta) : Compiler := set_names c (set_views (names c) v).
Definition put_max_elements (c : Compiler) (v : Z) : Compiler := set_limits c (set_max_elements (limits c) v).
Definition put_max_arrays (c : Compiler) (v : Z) : Compiler := set_limits c (set_max_arrays (limits c) v).
Definition put_max_struct_defs (c : Compiler) (v : Z) : Compiler := set_limits c (set_max_struct_defs (limits c) v).
Definition put_max_struct_insts (c : Compiler) (v : Z) : Compiler := set_limits c (set_max_struct_insts (limits c) v).
Definition put_max_struct_fields (c : Compiler) (v : Z) : Compiler := set_limits c (set_max_struct_fields (limits c) v).
Definition put_max_const_tables (c : Compiler) (v : Z) : Compiler := set_limits c (set_max_const_tables (limits c) v).
Definition put_imported_runtimes (c : Compiler) (v : Z) : Compiler := set_limits c (set_imported_runtimes (limits c) v).
Definition put_has_explicit_imports (c : Compiler) (v : bool) : Compiler := set_limits c (set_has_explicit_imports (limits c) v).
Definition put_declared_script_wcet_ns (c : Compiler) (v : option Z) : Compiler := set_wcet c (set_declared_script_wcet_ns (wcet c) v).
Definition put_declared_script_budget_ns (c : Compiler) (v : option Z) : Compiler := set_wcet c (set_declared_script_budget_ns (wcet c) v).
Definition put_wcet_items (c : Compiler) (v : list WcetItem) : Compiler := set_wcet c (set_wcet_items (wcet c) v).
Definition put_total_synthesized_wcet_ns (c : Compiler) (v : Z) : Compiler := set_wcet c (set_total_synthesized_wcet_ns (wcet c) v).

Definition RUNTIME_TINY : Z := 1.
Definition RUNTIME_CORE : Z := 2.
Definition RUNTIME_MATH : Z := 4.
Definition RUNTIME_FIX : Z := 8.
Definition RUNTIME_SYS : Z := 16.
Definition RUNTIME_NET : Z := 32.
Definition RUNTIME_VRAM : Z := 64.
Definition RUNTIME_GPU : Z := 128.
Definition RUNTIME_TERM : Z := 256.
Definition RUNTIME_FILE : Z := 512.
Definition RUNTIME_ALL : Z := 0x3FF.

(** [Compiler::new]. *)
Definition new_compiler : Compiler :=
  mkCompiler 0 0 (mkOut [] [] [])
    (mkNames (replicate (Z.to_nat MAX_VARS) empty_var) 0 0 [] [] 0 [] [] [] 0 [] [])
    (replicate 4 Typestate.Unallocated) None None None None
    (mkLimits 256 8 8 8 256 8 RUNTIME_ALL false)
    (mkWcetState None None [] 0).

(** * The monad of the compiler

    A diagnostic ends the compilation; so does a panic. The model has one
    failure of its own: running out of fuel, which never happens
    ([compile_total]). *)

Inductive failure := Diagnostic (e : CompileError) | OutOfFuel.

Definition comp (A : Type) : Type := Compiler -> outcome failure (A * Compiler).

#[export] Instance comp_ret : MRet comp := fun A a c => Ok (a, c).

#[export] Instance comp_bind : MBind comp := fun A B f m c =>
  match m c with
  | Ok (a, c) => f a c
  | Err e => Err e
  | Panic p => Panic p
  end.

Definition gets {A} (f : Compiler -> A) : comp A := fun c => Ok (f c, c).
Definition modify (f : Compiler -> Compiler) : comp unit := fun c => Ok (tt, f c).

(** A Rust operation that only panics. *)
Definition lift {A} (r : outcome Empty_set A) : comp A := fun c =>
  match r with
  | Ok a => Ok (a, c)
  | Err e => match e with end
  | Panic p => Panic p
  end.

(** [if let Ok(x) = m] where [m] changes nothing when it fails. *)
Definition try {A} (m : comp A) : comp (option A) := fun c =>
  match m c with
  | Ok (a, c) => Ok (Some a, c)
  | Err (Diagnostic _) => Ok (None, c)
  | Err OutOfFuel => Err OutOfFuel
  | Panic p => Panic p
  end.

(** A loop: [body] says with its result whether to go round again. *)
Fixpoint loop {T} (n : nat) (body : T -> comp (T * bool)) (s : T) : comp T :=
  match n with
  | O => fun _ => Err OutOfFuel
  | S n =>
    '(s, again) ← body s;
    if again : bool then loop n body s else mret s
  end.

Definition when (b : bool) (m : comp unit) : comp unit := if b then m else mret tt.
Definition when_some {A} (o : option A) (f : A -> comp unit) : comp unit :=
  match o with Some a => f a | None => mret tt end.

Definition keq (a b : TokenKind.t) : bool := bool_decide (a = b).
Definition kin (a : TokenKind.t) (l : list TokenKind.t) : bool := bool_decide (a ∈ l).

(** [match name { b"x" | b"y" => ... }]. *)
Definition is_name (name : list Z) (l : list string) : bool :=
  existsb (fun s => bytes_eqb name (bytes s)) l.

Fixpoint by_name {A} (name : list Z) (table : list (list string * A)) : option A :=
  match table with
  | [] => None
  | (l, a) :: table => if is_name name l then Some a else by_name name table
  end.

(** The index and the value of the first element that satisfies [p]. *)
Fixpoint find_from {A} (i : Z) (p : A -> bool) (l : list A) : option (Z * A) :=
  match l with
  | [] => None
  | x :: l => if p x then Some (i, x) else find_from (i + 1) p l
  end.
Definition find_index {A} := @find_from A 0.

(** The compiler's input: the source bytes, the tokens of the lexer, and whether
    the build checks integer overflow. *)
Class Input : Set := mkInput { src : list Z; tokens : list Token; oc : bool }.

Section Compiler.
Context `{inp : Input}.

(** * Tokens *)

Definition token_at (i : Z) : Token := default empty_token (getZ tokens i).

Definition peek : comp Token := gets (fun c => token_at (current c)).
Definition peek_kind : comp TokenKind.t := tok ← peek; mret (kind tok).
Definition peek_ahead (offset : Z) : comp Token := gets (fun c => token_at (current c + offset)).

Definition advance : comp Token := fun c =>
  Ok (token_at (current c),
      if current c <? len tokens then set_current c (current c + 1) else c).

Definition match_token (k : TokenKind.t) : comp bool :=
  k' ← peek_kind;
  if keq k' k then advance;; mret true else mret false.

(** [Err(self.error(...))]. *)
Definition fail {A} (d : diag) : comp A := fun c =>
  let tok := token_at (current c) in
  Err (Diagnostic (mkCompileError (d_code d) (d_message d) (line tok) (col tok) (start tok)
         (kind tok) (tlen tok) (d_expected d) (d_stage d) (d_suggestion d))).

(** [if !self.match_token(k) { return Err(...) }]. *)
Definition expect (k : TokenKind.t) (d : diag) : comp unit :=
  b ← match_token k; if b : bool then mret tt else fail d.

(** [match_token(a) || match_token(b)]. *)
Definition match_either (a b : TokenKind.t) : comp bool :=
  x ← match_token a; if x : bool then mret true else match_token b.

(** [&self.src[tok.start..tok.start + tok.len]]. *)
Definition text (tok : Token) : comp (list Z) :=
  lift (slice src (start tok) (start tok + tlen tok)).

(** The same, when the compiler looks whether the token is in the source. *)
Definition text_or_empty (tok : Token) : list Z :=
  if start tok + tlen tok <=? len src then sub src (start tok) (start tok + tlen tok) else [].

(** * Emission *)

Definition code_len : comp Z := gets (fun c => len (code (out c))).

Definition emit_inst (op rd rs1 rs2 : Z) : comp Z :=
  code ← gets (fun c => code (out c));
  if MAX_BYTECODE_SIZE <? len code + 4 then fail E_BYTECODE_OVERFLOW
  else modify (fun c => put_code c (code ++ [op; rd; rs1; rs2]));; mret (len code).

Definition emit (op rd rs1 rs2 : Z) : comp unit := emit_inst op rd rs1 rs2;; mret tt.

Definition emit_imm16 (op rd imm : Z) : comp Z :=
  emit_inst op rd (as_u8 (Z.shiftr imm 8)) (Z.land imm 0xFF).

Definition patch_imm16 (pos imm : Z) : comp unit :=
  when (pos + 3 <? MAX_BYTECODE_SIZE)
    (modify (fun c => put_code c
       (setZ (setZ (code (out c)) (pos + 2) (as_u8 (Z.shiftr imm 8))) (pos + 3) (Z.land imm 0xFF)))).

(** [self.patch_imm16(pos, self.code_len as u16)]. *)
Definition patch_here (pos : Z) : comp unit := n ← code_len; patch_imm16 pos (as_u16 n).

Definition add_constant (val : Z) : comp Z :=
  pool ← gets (fun c => const_pool (out c));
  match find_index (Z.eqb val) pool with
  | Some (i, _) => mret i
  | None =>
    if MAX_CONST_POOL <=? len pool then fail E_CONST_POOL_FULL
    else modify (fun c => put_const_pool c (pool ++ [val]));; mret (len pool)
  end.

Definition append_table_constant (val : Z) : comp Z :=
  pool ← gets (fun c => const_pool (out c));
  if MAX_CONST_POOL <=? len pool then fail E_CONST_POOL_FULL_2
  else modify (fun c => put_const_pool c (pool ++ [val]));; mret (len pool).

Definition emit_const (dst val : Z) : comp unit :=
  if (0 <=? val) && (val <=? 65535) then emit_imm16 PX64_OP_MOV_IMM dst val;; mret tt
  else idx ← add_constant val; emit_imm16 PX64_OP_LDC dst idx;; mret tt.

(** * Scratch registers: 15 down to 8 *)

Definition alloc_temp : comp Z :=
  used ← gets temp_used;
  match List.find (fun i => negb (Z.testbit used i)) (seqZ 0 8) with
  | Some i => modify (fun c => set_temp_used c (Z.setbit used i));; mret (15 - i)
  | None => fail E_EXPR_TOO_COMPLEX
  end.

Definition free_temp (reg : Z) : comp unit :=
  when ((8 <=? reg) && (reg <=? 15))
    (modify (fun c => set_temp_used c (Z.clearbit (temp_used c) (15 - reg)))).

(** * Variables *)

(** The registers and frame slots that have names of their own. *)
Definition fixed_reg (name : list Z) : option Z := by_name name [
  (["$rax"; "$r0"; "$result"; "$ret"], 0); (["$rcx"; "$r1"], 1); (["$rdx"; "$r2"], 2);
  (["$rbx"; "$r3"], 3); (["$rsp"; "$r4"], 4); (["$rbp"; "$r5"], 5); (["$rsi"; "$r6"], 6);
  (["$rdi"; "$r7"], 7); (["$r8"], 8); (["$r9"], 9); (["$r10"], 10); (["$r11"], 11);
  (["$r12"], 12); (["$r13"], 13); (["$r14"], 14); (["$r15"], 15);
  (["#f"; "#frame"; "#f0"; "#slot0"], 16); (["#f1"; "#slot1"], 17); (["#f2"; "#slot2"], 18);
  (["#f3"; "#slot3"], 19)]%string.

Definition live_vars (c : Compiler) : list var_slot :=
  take (Z.to_nat (var_count (names c))) (vars (names c)).

Definition find_var (name : list Z) (c : Compiler) : option (Z * var_slot) :=
  find_index (fun v => bytes_eqb (v_name v) name) (live_vars c).

(** [self.vars[i] = f(self.vars[i])]. *)
Definition update_var (i : Z) (f : var_slot -> var_slot) : comp unit :=
  modify (fun c => put_vars c (alter f (Z.to_nat i) (vars (names c)))).

Definition declare_var (tok : Token) (is_mut : bool) : comp Z :=
  let name := text_or_empty tok in
  match fixed_reg name with
  | Some r => mret r
  | None =>
    found ← gets (find_var name);
    match found with
    | Some (i, v) => update_var i (fun v => set_v_mut v is_mut);; mret (v_reg v)
    | None =>
      n ← gets (fun c => var_count (names c));
      if MAX_VARS <=? n then fail E_MAX_VARS_EXCEEDED
      else
        update_var n (fun v => set_v_mut (set_v_name v (take 16 name)) is_mut);;
        if n <? 13 then
          update_var n (fun v => set_v_spill_slot (set_v_spill (set_v_reg v (1 + n)) false) 0);;
          modify (fun c => put_var_count c (n + 1));;
          mret (1 + n)
        else
          slot ← gets (fun c => spill_count (names c));
          if 32 <=? slot then fail E_MAX_VARS_EXCEEDED_2
          else
            modify (fun c => put_spill_count c (slot + 1));;
            update_var n (fun v => set_v_spill_slot (set_v_spill (set_v_reg v 255) true) slot);;
            modify (fun c => put_var_count c (n + 1));;
            mret 255
    end
  end.

Definition is_spilled_var (tok : Token) : comp (option Z) :=
  gets (fun c =>
    match find_index (fun v => bytes_eqb (v_name v) (text_or_empty tok) && v_spill v)
            (live_vars c) with
    | Some (_, v) => Some (v_spill_slot v)
    | None => None
    end).

Definition name_starts_with (name : list Z) (p : string) : bool :=
  bytes_eqb (take (String.length p) name) (bytes p).

(** Only variables declared without [mut] are refused. *)
Definition check_var_mutation (tok : Token) : comp unit :=
  name ← text tok;
  if name_starts_with name "#" ||
     is_name name ["$rax"; "$result"; "$ret"; "$rcx"; "$rdx"; "$rbx"; "$rsp"; "$rbp"; "$rsi";
                   "$rdi"]%string ||
     name_starts_with name "$r"
  then mret tt
  else
    found ← gets (find_var name);
    match found with
    | Some (_, v) => if v_mut v then mret tt else fail E_MUTABILITY_VIOLATION
    | None => mret tt
    end.

(** The function being compiled. *)
Definition current_meta (c : Compiler) : option FnMeta :=
  i ← current_fn c; getZ (functions (names c)) i.

Definition param_regs : list Z := [7; 6; 2; 1].

Definition find_param (name : list Z) (c : Compiler) : option (Z * (list Z * option Z)) :=
  meta ← current_meta c; find_index (fun p => bytes_eqb p.1 name) (params meta).

Definition resolve_var (tok : Token) : comp Z :=
  name ← text tok;
  match fixed_reg name with
  | Some r => mret r
  | None =>
    param ← gets (find_param name);
    match param with
    | Some (p, _) => lift (idx param_regs p)
    | None =>
      found ← gets (find_var name);
      match found with
      | Some (_, v) => mret (v_reg v)
      | None =>
        n ← gets (fun c => var_count (names c));
        if 13 <=? n then fail E_MAX_VARS_EXCEEDED_3
        else
          update_var n (fun v => set_v_mut (set_v_reg (set_v_name v (take 16 name)) (1 + n)) true);;
          modify (fun c => put_var_count c (n + 1));;
          mret (1 + n)
      end
    end
  end.

Definition get_var_index (tok : Token) (c : Compiler) : option Z :=
  if start tok + tlen tok <=? len src then fst <$> find_var (text_or_empty tok) c else None.

Definition get_var_enum_type (tok : Token) : comp (option Z) :=
  gets (fun c => i ← get_var_index tok c; v ← getZ (vars (names c)) i; v_enum v).

Definition get_var_fixed_scale (tok : Token) : comp (option Z) :=
  name ← text tok;
  gets (fun c =>
    match find_param name c with
    | Some (_, p) => p.2
    | None => i ← get_var_index tok c; v ← getZ (vars (names c)) i; v_scale v
    end).

End Compiler.
