(* ===== verification/CompDecl.v ===== *)
(** The declarations of the compiler (pulselang-core/src/compiler.rs): arrays,
    views, structs, enums, constant tables and pool sizes, the look-ups of what
    was declared, and the ownership of the frame handles. *)

From S2P Require Import Prelude RustStd Isa Token Error CompErrors Compiler.
Local Open Scope Z_scope.

Section Decl.
Context `{inp : Input}.

(** The number of rounds that is enough for every loop over the tokens. *)
Definition rounds : nat := S (length tokens).

(** [while self.peek().kind != close && self.peek().kind != Eof { body }]; the
    body says whether to go on. *)
Definition until (close : TokenKind.t) (body : comp bool) : comp unit :=
  loop rounds (fun _ =>
    k ← peek_kind;
    if keq k close || keq k TokenKind.Eof then mret (tt, false)
    else again ← body; mret (tt, again)) tt.

(** [if !self.match_token(Comma) { break; }]. *)
Definition comma : comp bool := match_token TokenKind.Comma.

Definition panic {A} (p : panic_kind) : comp A := fun _ => Panic p.

(** [-n] on an [i64]. *)
Definition neg (n : Z) : comp Z :=
  if oc && (n =? - 2 ^ 63) then panic ArithmeticOverflow else mret (as_i64 (- n)).

(** * Arrays and views *)

Definition declare_array (tok : Token) (n : Z) : comp Z :=
  let name := text_or_empty tok in
  count ← gets (fun c => len (arrays (names c)));
  most ← gets (fun c => max_arrays (limits c));
  total ← gets (fun c => total_array_elements (names c));
  most_elements ← gets (fun c => max_elements (limits c));
  if (most <=? count) || (16 <=? count) then fail E_MAX_ARRAYS_EXCEEDED
  else if (most_elements <? total + n) || (1024 <? total + n) then fail E_ARRAY_CAPACITY_EXCEEDED
  else if 8 <=? count then panic IndexOutOfBounds
  else
    let meta := mkArray (take 16 name) (as_u8 count) (as_u16 total) (as_u16 n) in
    modify (fun c => put_arrays c (arrays (names c) ++ [meta]));;
    modify (fun c => put_total_array_elements c (total + n));;
    mret (as_u8 count).

(** The value of a named pool size. *)
Definition set_pool (name : list Z) (val : Z) (c : Compiler) : Compiler :=
  if is_name name ["elements"; "capacity"]%string then put_max_elements c (Z.min val 1024)
  else if is_name name ["arrays"]%string then put_max_arrays c (Z.min val 16)
  else if is_name name ["structs"]%string then
    put_max_struct_insts (put_max_struct_defs c (Z.min val 16)) (Z.min val 16)
  else if is_name name ["fields"]%string then put_max_struct_fields c (Z.min val 1024)
  else if is_name name ["tables"]%string then put_max_const_tables c (Z.min val 16)
  else c.

Definition declare_pool_size : comp unit :=
  match_token TokenKind.LParen;;
  until TokenKind.RParen (
    tok ← advance;
    match kind tok with
    | TokenKind.Number n =>
      when (0 <? n) (modify (fun c => put_max_elements c (Z.min n 1024)))
    | TokenKind.Ident =>
      name ← text tok;
      match_token TokenKind.Colon;;
      val_tok ← advance;
      match kind val_tok with
      | TokenKind.Number n => modify (set_pool name (if 0 <? n then n else 1))
      | _ => mret tt
      end
    | _ => mret tt
    end;;
    comma);;
  match_token TokenKind.RParen;;
  match_token TokenKind.Semi;;
  mret tt.

Definition lookup_array (tok : Token) : comp Z :=
  name ← text tok;
  found ← gets (fun c => find_index (fun a => bytes_eqb (a_name a) name) (arrays (names c)));
  match found with
  | Some (_, a) => mret (a_id a)
  | None => fail E_ARRAY_UNDEFINED
  end.

Definition is_array (tok : Token) : comp bool :=
  name ← text tok;
  gets (fun c => existsb (fun a => bytes_eqb (a_name a) name) (arrays (names c))).

(** [self.arrays[arr_id].len]. *)
Definition array_len (arr_id : Z) : comp Z :=
  l ← gets (fun c => arrays (names c)); a ← lift (idx l arr_id); mret (a_len a).

Definition declare_view (tok : Token) (arr_id base_reg stride_imm len_imm : Z) : comp unit :=
  name ← text tok;
  l ← gets (fun c => views (names c));
  if 8 <=? len l then fail E_MAX_VIEWS_EXCEEDED
  else
    match find_index (fun v => bytes_eqb (vw_name v) name) l with
    | Some (i, v) =>
      modify (fun c => put_views c (setZ l i (mkView (vw_name v) arr_id base_reg stride_imm len_imm)))
    | None =>
      modify (fun c => put_views c (l ++ [mkView (take 16 name) arr_id base_reg stride_imm len_imm]))
    end.

Definition lookup_view (tok : Token) : comp (option ViewMeta) :=
  name ← text tok;
  gets (fun c => snd <$> find_index (fun v => bytes_eqb (vw_name v) name) (views (names c))).

Definition is_view (tok : Token) : comp bool :=
  v ← lookup_view tok; mret (if v is Some _ then true else false).

(** * Functions *)

Definition find_fn (name : list Z) (c : Compiler) : option FnMeta :=
  snd <$> find_index (fun f => bytes_eqb (fn_name f) name) (functions (names c)).

Definition builtin_id (name : list Z) : option Z := by_name name [
  (["@min"; "min"], NATIVE_MATH_MIN); (["@max"; "max"], NATIVE_MATH_MAX);
  (["@abs"; "abs"], NATIVE_MATH_ABS); (["@clamp"; "clamp"], NATIVE_MATH_CLAMP);
  (["@popcnt"; "popcnt"], NATIVE_BIT_POPCNT); (["@lzcnt"; "lzcnt"], NATIVE_BIT_LZCNT);
  (["@crc32"; "crc32"], NATIVE_CRC32); (["@to_fix"; "to_fix"], NATIVE_FIX_TO_FIX);
  (["@to_i64"; "to_i64"], NATIVE_FIX_TO_I64); (["@fix_mul"; "fix_mul"], NATIVE_FIX_MUL);
  (["@fix_div"; "fix_div"], NATIVE_FIX_DIV); (["@print"; "print"], NATIVE_PRINT);
  (["@println"; "println"], NATIVE_PRINTLN)]%string.

Definition lookup_combinator_fn (name : list Z) : comp CombinatorFnTarget :=
  found ← gets (find_fn name);
  match found with
  | Some f => mret (UserDefined f)
  | None =>
    match builtin_id name with
    | Some id => mret (Builtin id)
    | None => fail E_UNKNOWN_FUNCTION
    end
  end.

Definition lookup_fn_by_name (name : list Z) : comp FnMeta :=
  found ← gets (find_fn name);
  match found with Some f => mret f | None => fail E_UNKNOWN_FUNCTION_2 end.

(** * Strings *)

Definition find_string_in_pool (s pool : list Z) : option Z :=
  if len s =? 0 then Some 0
  else if len pool <? len s then None
  else List.find (fun i => bytes_eqb (sub pool i (i + len s)) s) (seqZ 0 (len pool - len s + 1)).

(** * Structs *)

(** One field of a struct definition: its name, and what it makes of the fields
    before it. *)
Definition struct_field (fields : list StructFieldMeta) : comp (list StructFieldMeta) :=
  f_tok ← advance;
  if negb (keq (kind f_tok) TokenKind.Ident) then fail E_EXPECTED_FIELD_NAME
  else
    f_name ← text f_tok;
    if 8 <=? len fields then fail E_MAX_FIELDS_EXCEEDED
    else
      expect TokenKind.Colon E_EXPECTED_COLON;;
      advance;;
      mret (fields ++ [mkField (take 16 f_name) (as_u8 (len fields))]).

Definition struct_fields : comp (list StructFieldMeta) :=
  loop rounds (fun fields =>
    k ← peek_kind;
    if keq k TokenKind.RBrace || keq k TokenKind.Eof then mret (fields, false)
    else fields ← struct_field fields; again ← comma; mret (fields, again)) [].

Definition declare_struct_def : comp unit :=
  name_tok ← advance;
  if negb (keq (kind name_tok) TokenKind.Ident) then fail E_EXPECTED_STRUCT_NAME
  else
    s_name ← text name_tok;
    defs ← gets (fun c => struct_defs (names c));
    if 8 <=? len defs then fail E_MAX_STRUCTS_EXCEEDED
    else if existsb (fun d => bytes_eqb (sd_name d) s_name) defs then fail E_STRUCT_REDEFINED
    else
      expect TokenKind.LBrace E_EXPECTED_LBRACE;;
      fields ← struct_fields;
      expect TokenKind.RBrace E_EXPECTED_RBRACE;;
      match_token TokenKind.Semi;;
      modify (fun c => put_struct_defs c (struct_defs (names c) ++ [mkStructDef (take 16 s_name) fields])).

Definition is_struct_type (type_tok : Token) : comp bool :=
  name ← text type_tok;
  gets (fun c => existsb (fun d => bytes_eqb (sd_name d) name) (struct_defs (names c))).

Definition declare_struct_inst (var_tok type_tok : Token) : comp Z :=
  var_name ← text var_tok;
  type_name ← text type_tok;
  found ← gets (fun c => find_index (fun d => bytes_eqb (sd_name d) type_name) (struct_defs (names c)));
  match found with
  | None => fail E_UNKNOWN_STRUCT_TYPE
  | Some (i, def) =>
    count ← gets (fun c => len (struct_insts (names c)));
    total ← gets (fun c => total_struct_fields (names c));
    let field_count := len (sd_fields def) in
    if 8 <=? count then fail E_MAX_STRUCT_INSTS_EXCEEDED
    else if 256 <? total + field_count then fail E_STRUCT_CAPACITY_EXCEEDED
    else
      modify (fun c => put_total_struct_fields c (total + field_count));;
      let inst := mkInst (take 16 var_name) (as_u8 i) (as_u8 count) (as_u16 total) field_count in
      modify (fun c => put_struct_insts c (struct_insts (names c) ++ [inst]));;
      emit PX64_OP_STRUCT_DEF (as_u8 count) field_count 0;;
      mret (as_u8 count)
  end.

Definition find_inst (var_name : list Z) (c : Compiler) : option StructInstMeta :=
  snd <$> find_index (fun i => bytes_eqb (si_var_name i) var_name) (struct_insts (names c)).

(** The instance and the offset of a field. *)
Definition lookup_struct_field (var_name field_name : list Z) : comp (Z * Z) :=
  found ← gets (find_inst var_name);
  match found with
  | None => fail E_UNKNOWN_STRUCT_VAR
  | Some inst =>
    defs ← gets (fun c => struct_defs (names c));
    def ← lift (idx defs (struct_def_idx inst));
    match find_index (fun f => bytes_eqb (f_name f) field_name) (sd_fields def) with
    | Some (_, f) => mret (inst_id inst, f_offset f)
    | None => fail E_UNKNOWN_STRUCT_FIELD
    end
  end.

Definition is_struct_inst (var_name : list Z) : comp bool :=
  gets (fun c => if find_inst var_name c is Some _ then true else false).

(** * Enums *)

Definition enum_variant (vs : list (list Z)) : comp (list (list Z)) :=
  v_tok ← advance;
  if negb (keq (kind v_tok) TokenKind.Ident) then fail E_EXPECTED_VARIANT_NAME
  else
    v_name ← text v_tok;
    if MAX_ENUM_VARIANTS <=? len vs then fail E_MAX_VARIANTS_EXCEEDED
    else if existsb (bytes_eqb v_name) vs then fail E_DUPLICATE_ENUM_VARIANT
    else match_either TokenKind.Comma TokenKind.Semi;; mret (vs ++ [take 32 v_name]).

Definition enum_variants : comp (list (list Z)) :=
  loop rounds (fun vs =>
    k ← peek_kind;
    if keq k TokenKind.RBrace || keq k TokenKind.Eof then mret (vs, false)
    else vs ← enum_variant vs; mret (vs, true)) [].

Definition declare_enum_def : comp unit :=
  name_tok ← advance;
  if negb (keq (kind name_tok) TokenKind.Ident) then fail E_EXPECTED_ENUM_NAME
  else
    e_name' ← text name_tok;
    defs ← gets (fun c => enums (names c));
    if MAX_ENUMS <=? len defs then fail E_MAX_ENUMS_EXCEEDED
    else if existsb (fun d => bytes_eqb (e_name d) e_name') defs then fail E_DUPLICATE_ENUM_NAME
    else
      expect TokenKind.LBrace E_EXPECTED_LBRACE_2;;
      vs ← enum_variants;
      expect TokenKind.RBrace E_EXPECTED_RBRACE_2;;
      match_token TokenKind.Semi;;
      modify (fun c => put_enums c (enums (names c) ++ [mkEnumDef (take 32 e_name') vs])).

Definition lookup_enum_by_name (name : list Z) (c : Compiler) : option Z :=
  fst <$> find_index (fun d => bytes_eqb (e_name d) name) (enums (names c)).

Definition lookup_enum_variant (enum_idx : Z) (variant_name : list Z) (c : Compiler) : option Z :=
  def ← getZ (enums (names c)) enum_idx;
  fst <$> find_index (fun v => bytes_eqb v variant_name) (variants def).

(** * Constant tables *)

Definition table_elem : comp Z :=
  k ← peek_kind;
  is_neg ← (if keq k TokenKind.Minus then advance;; mret true else mret false);
  elem_tok ← advance;
  match kind elem_tok with
  | TokenKind.Number n => if is_neg : bool then neg n else mret n
  | TokenKind.TimeLiteral ns => mret (as_i64 ns)
  | _ => fail E_TABLE_NON_CONSTANT_ELEMENT
  end.

(** The elements go to the constant pool; the result is their number. *)
Definition table_elems : comp Z :=
  loop rounds (fun actual_len =>
    k ← peek_kind;
    if keq k TokenKind.RBracket || keq k TokenKind.Eof then mret (actual_len, false)
    else
      val ← table_elem;
      append_table_constant val;;
      again ← comma;
      mret (actual_len + 1, again)) 0.

(** [: [type; N] = [], up to the opening bracket; the result is [N]. *)
Definition table_header : comp Z :=
  expect TokenKind.Colon E_EXPECTED_COLON_2;;
  expect TokenKind.LBracket E_EXPECTED_LBRACKET;;
  advance;;
  expect TokenKind.Semi E_TABLE_SYNTAX;;
  len_tok ← advance;
  expected_len ← match kind len_tok with
                 | TokenKind.Number n =>
                   if (0 <? n) && (n <=? 64) then mret n else fail E_TABLE_INVALID_LEN
                 | _ => fail E_TABLE_INVALID_LEN
                 end;
  expect TokenKind.RBracket E_TABLE_SYNTAX_2;;
  expect TokenKind.Eq E_EXPECTED_EQ;;
  expect TokenKind.LBracket E_EXPECTED_LBRACKET_2;;
  mret expected_len.

Definition declare_const_table : comp unit :=
  name_tok ← advance;
  if negb (keq (kind name_tok) TokenKind.Ident) then fail E_EXPECTED_CONST_NAME
  else
    name ← text name_tok;
    tables ← gets (fun c => const_tables (names c));
    if 8 <=? len tables then fail E_MAX_TABLES_EXCEEDED
    else if existsb (fun t => bytes_eqb (t_name t) name) tables then fail E_TABLE_REDEFINED
    else
      expected_len ← table_header;
      pool_len ← gets (fun c => len (const_pool (out c)));
      if 256 <? pool_len + expected_len then fail E_CONST_POOL_EXCEEDED
      else
        let tbl_id := as_u8 (len tables) in
        let base_idx := as_u8 pool_len in
        actual_len ← table_elems;
        if negb (actual_len =? expected_len) then fail E_TABLE_LENGTH_MISMATCH
        else
          expect TokenKind.RBracket E_EXPECTED_RBRACKET;;
          match_token TokenKind.Semi;;
          modify (fun c => put_const_tables c
            (tables ++ [mkTable (take 16 name) tbl_id base_idx (as_u8 expected_len)]));;
          emit PX64_OP_TBL_DEF tbl_id base_idx (as_u8 expected_len).

(** The identifier and the length of a table. *)
Definition lookup_const_table (name : list Z) : comp (Z * Z) :=
  found ← gets (fun c => find_index (fun t => bytes_eqb (t_name t) name) (const_tables (names c)));
  match found with
  | Some (_, t) => mret (tbl_id t, t_len t)
  | None => fail E_UNKNOWN_CONST_TABLE
  end.

(** The number of elements of an array literal, from the tokens after its
    opening bracket on. *)
Fixpoint count_elements (l : list Token) (depth count : Z) (has_elem : bool) : Z :=
  match l with
  | [] => count
  | t :: l =>
    if kin (kind t) [TokenKind.LBracket; TokenKind.LParen; TokenKind.LBrace] then
      count_elements l (depth + 1) count true
    else if kin (kind t) [TokenKind.RBracket; TokenKind.RParen; TokenKind.RBrace] then
      if depth =? 1 then if has_elem then count + 1 else count
      else count_elements l (depth - 1) count has_elem
    else if keq (kind t) TokenKind.Comma && (depth =? 1) then
      count_elements l depth (count + 1) false
    else if keq (kind t) TokenKind.Eof then count
    else count_elements l depth count true
  end.

Definition count_array_literal_elements (c : Compiler) : Z :=
  count_elements (drop (Z.to_nat (current c)) tokens) 1 0 false.

(** * Frame handles: a slot is captured once and sent or released once *)

Definition is_hw (reg : Z) : bool := (16 <=? reg) && (reg <=? 19).

Definition handle_state (slot : Z) : comp Typestate.t :=
  gets (fun c => default Typestate.Unallocated (getZ (handle_states c) slot)).

Definition set_handle (slot : Z) (s : Typestate.t) : comp unit :=
  modify (fun c => set_handle_states c (setZ (handle_states c) slot s)).

Definition check_hw_assign_pre (var_reg : Z) : comp (option (Z * ResourceKind)) :=
  if negb (is_hw var_reg) then mret None
  else
    state ← handle_state (var_reg - 16);
    match state with
    | Typestate.Captured _ _ _ => fail E_LINEAR_OVERWRITE
    | _ =>
      rhs_tok ← peek;
      if negb (keq (kind rhs_tok) TokenKind.HardwareIdent) then mret None
      else
        src_reg ← try (resolve_var rhs_tok);
        match src_reg with
        | None => mret None
        | Some src_reg =>
          if negb (is_hw src_reg) then mret None
          else
            state ← handle_state (src_reg - 16);
            match state with
            | Typestate.Moved _ _ => fail E_RESOURCE_USE_AFTER_MOVE
            | Typestate.Unallocated => fail E_LINEAR_USE_BEFORE_ALLOC
            | Typestate.Sent | Typestate.Dropped => fail E_RESOURCE_USE_AFTER_MOVE_2
            | Typestate.Captured _ _ kind => mret (Some (src_reg - 16, kind))
            end
        end
    end.

Definition apply_hw_assign_post (var_reg : Z) (ident : Token)
    (moved_from : option (Z * ResourceKind)) : comp unit :=
  when (is_hw var_reg)
    match moved_from with
    | Some (src_slot, kind) =>
      set_handle src_slot (Typestate.Moved (line ident) (col ident));;
      set_handle (var_reg - 16) (Typestate.Captured (line ident) (col ident) kind)
    | None => set_handle (var_reg - 16) (Typestate.Captured (line ident) (col ident) HardwareFrame)
    end.

(** A call that consumes the handle in [reg]: sending it ([after] is [Sent]) or
    releasing it ([after] is [Dropped]). *)
Definition consume_handle (reg : Z) (after : Typestate.t) (unallocated consumed : diag) : comp unit :=
  when (is_hw reg)
    (state ← handle_state (reg - 16);
     match state with
     | Typestate.Unallocated => fail unallocated
     | Typestate.Moved _ _ => fail E_RESOURCE_USE_AFTER_MOVE
     | Typestate.Sent | Typestate.Dropped => fail consumed
     | Typestate.Captured _ _ _ => set_handle (reg - 16) after
     end).

Definition send_handle (reg : Z) : comp unit :=
  consume_handle reg Typestate.Sent E_LINEAR_USE_BEFORE_ALLOC_2 E_LINEAR_DOUBLE_SEND.
Definition release_handle (reg : Z) : comp unit :=
  consume_handle reg Typestate.Dropped E_LINEAR_USE_BEFORE_ALLOC_3 E_RESOURCE_DOUBLE_RELEASE.

(** * Imports *)

(** The runtime a native function belongs to. *)
Definition required_runtime (func_id : Z) : Z :=
  let among l := bool_decide (func_id ∈ l) in
  if among [NATIVE_PRINT; NATIVE_PRINTLN] then RUNTIME_TINY
  else if among [NATIVE_SCRIPT_ARGC; NATIVE_SCRIPT_ARG; NATIVE_TAG_OK; NATIVE_TAG_ERR; NATIVE_IS_OK;
              NATIVE_IS_ERR; NATIVE_UNWRAP; NATIVE_STREQ] then RUNTIME_CORE
  else if among [NATIVE_MATH_MIN; NATIVE_MATH_MAX; NATIVE_MATH_ABS; NATIVE_MATH_CLAMP;
              NATIVE_BIT_POPCNT; NATIVE_BIT_LZCNT; NATIVE_CRC32] then RUNTIME_MATH
  else if among [NATIVE_FIX_TO_FIX; NATIVE_FIX_TO_I64; NATIVE_FIX_MUL; NATIVE_FIX_DIV] then RUNTIME_FIX
  else if among [NATIVE_SYS_TSC; NATIVE_CORE_ID; NATIVE_TSC_FREQ; NATIVE_UPTIME_NS; NATIVE_BUSY_WAIT;
              NATIVE_RING_DEPTH] then RUNTIME_SYS
  else if among [NATIVE_NET_RTT; NATIVE_NET_SET_RATE; NATIVE_NET_SEND] then RUNTIME_NET
  else if among [NATIVE_VRAM_READ; NATIVE_VRAM_WRITE] then RUNTIME_VRAM
  else if among [NATIVE_GPU_CAPTURE] then RUNTIME_GPU
  else if among [NATIVE_TERM_RAW; NATIVE_TERM_READ_KEY; NATIVE_TERM_SIZE] then RUNTIME_TERM
  else if among [NATIVE_FILE_READ; NATIVE_FILE_WRITE; NATIVE_FILE_EXISTS] then RUNTIME_FILE
  else RUNTIME_CORE.

Definition check_intrinsic_runtime (func_id : Z) : comp unit :=
  l ← gets limits;
  if negb (has_explicit_imports l) then mret tt
  else if Z.land (imported_runtimes l) (required_runtime func_id) =? 0 then fail E_RUNTIME_NOT_IMPORTED
  else mret tt.

End Decl.
