(* ===== verification/CompExpr.v ===== *)
(** The expression compiler (pulselang-core/src/compiler.rs): the levels of
    precedence from [expression] down to [primary], with constant folding,
    calls, the view combinators and string literals.

    A level that calls itself through a longer way (an argument, a group, a
    branch) does so through the record [calls], which CompStmt.v ties. *)

From S2P Require Import Prelude RustStd Isa Token Error CompErrors Compiler CompDecl.
Local Open Scope Z_scope.

Record calls : Type := mkCalls {
  call_expression : Z -> comp unit;
  call_ternary : Z -> comp (option Z);
  call_primary : Z -> comp (option Z);
  call_statement : comp unit;
}.

Section Expr.
Context `{inp : Input}.
Context (self : calls).

Notation expression' := (call_expression self).
Notation statement' := (call_statement self).

(** * Views and combinators *)

Inductive view_fn := Row | Col | Slice.

Definition view_fn_of (name : list Z) : option view_fn := by_name name
  [(["@row"], Row); (["@col"], Col); (["@slice"], Slice)]%string.

(** [let x = match tok.kind { Number(n) if n > 0 => n, _ => d }]. *)
Definition positive_or (tok : Token) (d : Z) : Z :=
  match kind tok with TokenKind.Number n => if 0 <? n then n else d | _ => d end.

(** [emit_inst(PX64_OP_MOV_IMM, reg, (n >> 8) as u8, (n & 0xff) as u8)]. *)
Definition emit_mov_imm (reg n : Z) : comp unit :=
  emit PX64_OP_MOV_IMM reg (as_u8 (Z.shiftr n 8)) (Z.land n 0xFF).

(** [@row(a, i, n)], [@col(a, i, n)] and [@slice(a, i, n)]. *)
Definition view_call (base_reg : Z) (f : view_fn) : comp ViewMeta :=
  advance;;
  match_token TokenKind.LParen;;
  arr_tok ← advance;
  arr_id ← lookup_array arr_tok;
  total_len ← array_len arr_id;
  match_token TokenKind.Comma;;
  expression' base_reg;;
  match_token TokenKind.Comma;;
  n_tok ← advance;
  match_token TokenKind.RParen;;
  match f with
  | Row =>
    let cols := positive_or n_tok 3 in
    cols_reg ← alloc_temp;
    emit_mov_imm cols_reg cols;;
    emit PX64_OP_MUL base_reg base_reg cols_reg;;
    free_temp cols_reg;;
    mret (mkView [] arr_id base_reg 1 (as_u16 cols))
  | Col =>
    let cols := positive_or n_tok 3 in
    mret (mkView [] arr_id base_reg (as_u16 cols) (as_u16 (total_len / cols)))
  | Slice => mret (mkView [] arr_id base_reg 1 (as_u16 (positive_or n_tok 1)))
  end.

Definition parse_view_source_to_reg (base_reg : Z) : comp ViewMeta :=
  tok ← peek;
  f ← (if kin (kind tok) [TokenKind.IntrinsicIdent; TokenKind.Ident]
       then name ← text tok; mret (view_fn_of name) else mret None);
  match f with
  | Some f => view_call base_reg f
  | None =>
    tok ← advance;
    view ← lookup_view tok;
    match view with
    | Some v => mret v
    | None =>
      arr_id ← lookup_array tok;
      n ← array_len arr_id;
      emit PX64_OP_MOV_IMM base_reg 0 0;;
      mret (mkView [] arr_id base_reg 1 n)
    end
  end.

(** A view or an array named in an expression; the register of a call's base is
    not given back. *)
Definition parse_view_source : comp ViewMeta :=
  tok ← peek;
  named ← (if kin (kind tok) [TokenKind.VarIdent; TokenKind.Ident]
           then name ← text tok; mret (if view_fn_of name is None then true else false)
           else mret false);
  if named : bool then
    advance;;
    view ← lookup_view tok;
    match view with
    | Some v => mret v
    | None =>
      arr_id ← lookup_array tok;
      n ← array_len arr_id;
      mret (mkView [] arr_id 0 1 n)
    end
  else temp_base ← alloc_temp; parse_view_source_to_reg temp_base.

(** The index of element [loop_i] of a view. *)
Definition emit_view_index (v : ViewMeta) (idx_reg loop_i : Z) : comp unit :=
  if stride_imm v =? 1 then emit PX64_OP_ADD idx_reg (base_reg v) loop_i
  else
    stride_reg ← alloc_temp;
    emit_mov_imm stride_reg (stride_imm v);;
    emit PX64_OP_MUL idx_reg loop_i stride_reg;;
    emit PX64_OP_ADD idx_reg idx_reg (base_reg v);;
    free_temp stride_reg.

(** The element itself, in a register that stays allocated. *)
Definition emit_view_elem (v : ViewMeta) (loop_i : Z) : comp Z :=
  idx_reg ← alloc_temp;
  emit_view_index v idx_reg loop_i;;
  elem_reg ← alloc_temp;
  emit PX64_OP_ARR_LOAD elem_reg (vw_arr_id v) idx_reg;;
  free_temp idx_reg;;
  mret elem_reg.

(** The registers of a counting loop: the counter and the bound. *)
Definition emit_counter (count : Z) : comp (Z * Z) :=
  loop_i ← alloc_temp;
  emit PX64_OP_MOV_IMM loop_i 0 0;;
  count_reg ← alloc_temp;
  emit_mov_imm count_reg count;;
  mret (loop_i, count_reg).

(** The test at the head of the loop: its register and its jump. *)
Definition emit_loop_test (loop_i count_reg : Z) : comp (Z * Z) :=
  cond_reg ← alloc_temp;
  emit PX64_OP_CMP_LT cond_reg loop_i count_reg;;
  jz_pc ← emit_imm16 PX64_OP_JZ cond_reg 0;
  mret (cond_reg, jz_pc).

(** The end of the loop: count up, jump back, and point the exit here. *)
Definition emit_loop_end (loop_i loop_start_pc jz_pc : Z) : comp unit :=
  emit PX64_OP_ADDI loop_i loop_i 1;;
  emit_imm16 PX64_OP_JMP 0 (as_u16 loop_start_pc);;
  patch_here jz_pc.

(** The call of the combined function on two elements. *)
Definition emit_zip_call (dst elem1_reg elem2_reg : Z) (f : CombinatorFnTarget) (is_sum : bool)
    : comp unit :=
  match f with
  | UserDefined f =>
    emit PX64_OP_MOV_REG 7 elem1_reg 0;;
    emit PX64_OP_MOV_REG 6 elem2_reg 0;;
    free_temp elem2_reg;;
    free_temp elem1_reg;;
    emit_imm16 PX64_OP_CALL 0 (entry_pc f);;
    if is_sum then emit PX64_OP_ADD dst dst 0 else emit PX64_OP_MOV_REG dst 0 0
  | Builtin func_id =>
    emit PX64_OP_CALL_NAT elem1_reg func_id elem1_reg;;
    free_temp elem2_reg;;
    (if is_sum then emit PX64_OP_ADD dst dst elem1_reg else emit PX64_OP_MOV_REG dst elem1_reg 0);;
    free_temp elem1_reg
  end.

Definition compile_zip_with_to_reg (dst : Z) (v1 v2 : ViewMeta) (fn_name : list Z) (is_sum : bool)
    : comp unit :=
  f ← lookup_combinator_fn fn_name;
  when is_sum (emit PX64_OP_MOV_IMM dst 0 0);;
  '(loop_i, count_reg) ← emit_counter (Z.min (len_imm v1) (len_imm v2));
  loop_start_pc ← code_len;
  '(cond_reg, jz_pc) ← emit_loop_test loop_i count_reg;
  free_temp cond_reg;;
  elem1_reg ← emit_view_elem v1 loop_i;
  elem2_reg ← emit_view_elem v2 loop_i;
  emit_zip_call dst elem1_reg elem2_reg f is_sum;;
  emit_loop_end loop_i loop_start_pc jz_pc;;
  free_temp count_reg;;
  free_temp loop_i.

Definition compile_sum_to_reg (dst : Z) (v : ViewMeta) : comp unit :=
  emit PX64_OP_MOV_IMM dst 0 0;;
  '(loop_i, count_reg) ← emit_counter (len_imm v);
  loop_start_pc ← code_len;
  '(cond_reg, jz_pc) ← emit_loop_test loop_i count_reg;
  elem_reg ← emit_view_elem v loop_i;
  emit PX64_OP_ADD dst dst elem_reg;;
  free_temp elem_reg;;
  emit_loop_end loop_i loop_start_pc jz_pc;;
  free_temp cond_reg;;
  free_temp count_reg;;
  free_temp loop_i.

Definition compile_reduce_to_reg (dst : Z) (v : ViewMeta) (init_val : option Z) (fn_name : list Z)
    : comp unit :=
  f ← lookup_fn_by_name fn_name;
  match init_val with
  | Some init => emit_const dst init
  | None => emit PX64_OP_MOV_IMM dst 0 0
  end;;
  '(loop_i, count_reg) ← emit_counter (len_imm v);
  loop_start_pc ← code_len;
  '(cond_reg, jz_pc) ← emit_loop_test loop_i count_reg;
  elem_reg ← emit_view_elem v loop_i;
  emit PX64_OP_MOV_REG 7 dst 0;;
  emit PX64_OP_MOV_REG 6 elem_reg 0;;
  free_temp elem_reg;;
  emit_imm16 PX64_OP_CALL 0 (entry_pc f);;
  emit PX64_OP_MOV_REG dst 0 0;;
  emit_loop_end loop_i loop_start_pc jz_pc;;
  free_temp cond_reg;;
  free_temp count_reg;;
  free_temp loop_i.

(** * String literals *)

Definition hex_digit (h : Z) : option Z :=
  if in_range 48 h 57 then Some (h - 48)
  else if in_range 97 h 102 then Some (h - 97 + 10)
  else if in_range 65 h 70 then Some (h - 65 + 10)
  else None.

(** The byte an escape sequence stands for, and what follows it: [s] is what
    follows the backslash. *)
Definition escape (s : list Z) : Z * list Z :=
  match s with
  | 110 :: s => (10, s)
  | 114 :: s => (13, s)
  | 116 :: s => (9, s)
  | 101 :: s => (0x1B, s)
  | 120 :: h1 :: h2 :: rest =>
    match hex_digit h1, hex_digit h2 with
    | Some v1, Some v2 => (Z.lor (Z.shiftl v1 4) v2, rest)
    | _, _ => (92, s)
    end
  | other :: s => (other, s)
  | [] => (92, [])
  end.

(** One round of the copying loop, on a literal that is not empty. *)
Definition unescape_byte (s : list Z) : Z * list Z :=
  match s with
  | 92 :: c :: s => escape (c :: s)
  | b :: s => (b, s)
  | [] => (0, [])
  end.

(** The bytes a literal adds to a pool of [offset] bytes. *)
Definition literal_bytes (offset : Z) (s : list Z) : comp (list Z) :=
  '(_, acc) ← loop (S (length s)) (fun '(s, acc) =>
    match s with
    | [] => mret ((s, acc), false)
    | _ :: _ =>
      if MAX_STRING_POOL <=? offset + len acc then fail E_STRING_POOL_FULL
      else let '(b, s) := unescape_byte s in mret ((s, acc ++ [b]), true)
    end) (s, []);
  mret acc.

(** A reference to [n] bytes of the pool at [offset]. *)
Definition emit_string (dst offset n : Z) : comp unit :=
  if offset <? 256 then emit PX64_OP_MOV_STR dst offset (as_u8 n)
  else emit_const dst (as_i64 (Z.lor (Z.lor STR_TAG (Z.shiftl offset 32)) n)).

Definition primary_string (dst : Z) (tok : Token) : comp (option Z) :=
  s ← (if 2 <=? tlen tok then lift (slice src (start tok + 1) (start tok + tlen tok - 1))
       else mret []);
  pool ← gets (fun c => str_pool (out c));
  s ← literal_bytes (len pool) s;
  match find_string_in_pool s pool with
  | Some prev_offset => emit_string dst prev_offset (len s);; mret None
  | None =>
    modify (fun c => put_str_pool c (pool ++ s));;
    emit_string dst (len pool) (len s);;
    mret None
  end.

(** * Variables, handles, elements and fields *)

(** The fixed-point representation of a decimal literal. *)
Definition fixed_repr (scale scaled_val frac_digits : Z) : Z :=
  let divisor := Nat.iter (Z.to_nat frac_digits) (fun d => Z.min (d * 10) (2 ^ 63 - 1)) 1 in
  as_i64 (Z.quot (scaled_val * 2 ^ scale) divisor).

Definition primary_float (dst scaled_val frac_digits : Z) : comp (option Z) :=
  scale ← gets (fun c => default 16 (target_fixed_scale c));
  let int_repr := fixed_repr scale scaled_val frac_digits in
  c_idx ← add_constant int_repr;
  emit_imm16 PX64_OP_LDC dst c_idx;;
  modify (fun c => set_current_expr_fixed_scale c (Some scale));;
  mret (Some int_repr).

(** [name[index]] of an array or a table: [find] gives the identifier. *)
Definition primary_index (dst op : Z) (find : comp Z) : comp (option Z) :=
  id ← find;
  advance;;
  idx_reg ← alloc_temp;
  expression' idx_reg;;
  match_token TokenKind.RBracket;;
  emit op dst id idx_reg;;
  free_temp idx_reg;;
  mret None.

Definition primary_field (dst : Z) (tok : Token) : comp (option Z) :=
  advance;;
  field_tok ← advance;
  if negb (keq (kind field_tok) TokenKind.Ident) then fail E_EXPECTED_FIELD_NAME_3
  else
    var_name ← text tok;
    field_name ← text field_tok;
    '(inst_id, field_offset) ← lookup_struct_field var_name field_name;
    emit PX64_OP_STRUCT_LOAD dst inst_id field_offset;;
    mret None.

(** [self.current_expr_enum_type = self.get_var_enum_type(tok)], and the scale. *)
Definition load_var_types (tok : Token) : comp unit :=
  e ← get_var_enum_type tok;
  modify (fun c => set_current_expr_enum_type c e);;
  s ← get_var_fixed_scale tok;
  modify (fun c => set_current_expr_fixed_scale c s).

Definition primary_var (dst : Z) (tok : Token) : comp (option Z) :=
  k ← peek_kind;
  if keq k TokenKind.LBracket then primary_index dst PX64_OP_ARR_LOAD (lookup_array tok)
  else if keq k TokenKind.Dot then primary_field dst tok
  else
    spilled ← is_spilled_var tok;
    match spilled with
    | Some slot =>
      load_var_types tok;;
      emit PX64_OP_SPILL_LOAD dst slot 0;;
      mret None
    | None =>
      load_var_types tok;;
      var_reg ← resolve_var tok;
      state ← handle_state (var_reg - 16);
      if is_hw var_reg && (if state is Typestate.Moved _ _ then true else false) then fail E_RESOURCE_USE_AFTER_MOVE
      else
        when (negb (var_reg =? dst)) (emit PX64_OP_MOV_REG dst var_reg 0);;
        mret None
    end.

(** * Calls *)

Definition primary_variant (dst : Z) (name : list Z) : comp (option Z) :=
  advance;;
  variant_tok ← advance;
  if negb (keq (kind variant_tok) TokenKind.Ident) then fail E_EXPECTED_VARIANT_NAME_3
  else
    variant_name ← text variant_tok;
    e ← gets (lookup_enum_by_name name);
    match e with
    | None => fail E_UNKNOWN_ENUM_TYPE_2
    | Some enum_idx =>
      v ← gets (lookup_enum_variant enum_idx variant_name);
      match v with
      | None => fail E_UNKNOWN_ENUM_VARIANT_2
      | Some variant_idx =>
        modify (fun c => set_current_expr_enum_type c (Some enum_idx));;
        emit_imm16 PX64_OP_MOV_IMM dst variant_idx;;
        mret (Some variant_idx)
      end
    end.

(** The arguments of a call, each in a scratch register. *)
Definition call_args (param_count : Z) : comp (list Z) :=
  loop rounds (fun temps =>
    k ← peek_kind;
    if keq k TokenKind.RParen || keq k TokenKind.Eof then mret (temps, false)
    else if param_count <=? len temps then fail E_TOO_MANY_ARGS
    else
      tmp ← alloc_temp;
      expression' tmp;;
      again ← comma;
      mret (temps ++ [tmp], again)) [].

(** Moves the arguments to the parameter registers. *)
Fixpoint move_args (regs temps : list Z) : comp unit :=
  match regs, temps with
  | r :: regs, t :: temps =>
    emit PX64_OP_MOV_REG r t 0;; free_temp t;; move_args regs temps
  | _, _ => mret tt
  end.

Definition primary_call (dst : Z) (f : FnMeta) : comp (option Z) :=
  advance;;
  let param_count := len (params f) in
  temps ← call_args param_count;
  move_args param_regs temps;;
  if len temps <? param_count then fail E_TOO_FEW_ARGS
  else
    expect TokenKind.RParen E_UNCLOSED_PAREN_6;;
    emit_imm16 PX64_OP_CALL 0 (entry_pc f);;
    when (negb (dst =? 0)) (emit PX64_OP_MOV_REG dst 0 0);;
    mret None.

Definition primary_streq (dst : Z) : comp (option Z) :=
  advance;;
  s1_reg ← alloc_temp;
  expression' s1_reg;;
  expect TokenKind.Comma E_EXPECTED_COMMA;;
  s2_reg ← alloc_temp;
  expression' s2_reg;;
  expect TokenKind.RParen E_UNCLOSED_PAREN_7;;
  emit PX64_OP_STREQ dst s1_reg s2_reg;;
  free_temp s2_reg;;
  free_temp s1_reg;;
  mret None.

(** [|> @sum()] after [@zip_with(...)]. *)
Definition chained_sum : comp bool :=
  k ← peek_kind;
  if negb (keq k TokenKind.Pipe) then mret false
  else
    next_tok ← peek_ahead 1;
    next_name ← text next_tok;
    if is_name next_name ["@sum"; "sum"]%string then
      advance;;
      advance;;
      k ← peek_kind;
      when (keq k TokenKind.LParen) (advance;; match_token TokenKind.RParen;; mret tt);;
      mret true
    else mret false.

Definition primary_zip_with (dst : Z) : comp (option Z) :=
  advance;;
  v1 ← parse_view_source;
  expect TokenKind.Comma E_EXPECTED_COMMA_2;;
  v2 ← parse_view_source;
  expect TokenKind.Comma E_EXPECTED_COMMA_3;;
  fn_tok ← advance;
  fn_name ← text fn_tok;
  expect TokenKind.RParen E_UNCLOSED_PAREN_8;;
  is_sum ← chained_sum;
  compile_zip_with_to_reg dst v1 v2 fn_name is_sum;;
  mret None.

Definition primary_sum (dst : Z) : comp (option Z) :=
  advance;;
  k ← peek_kind;
  if keq k TokenKind.RParen then advance;; mret None
  else
    v ← parse_view_source;
    expect TokenKind.RParen E_UNCLOSED_PAREN_9;;
    compile_sum_to_reg dst v;;
    mret None.

(** The initial value is moved to [dst], and [compile_reduce_to_reg] clears it. *)
Definition primary_reduce (dst : Z) : comp (option Z) :=
  advance;;
  v ← parse_view_source;
  expect TokenKind.Comma E_EXPECTED_COMMA_4;;
  init_reg ← alloc_temp;
  expression' init_reg;;
  expect TokenKind.Comma E_EXPECTED_COMMA_5;;
  fn_tok ← advance;
  fn_name ← text fn_tok;
  expect TokenKind.RParen E_UNCLOSED_PAREN_10;;
  emit PX64_OP_MOV_REG dst init_reg 0;;
  free_temp init_reg;;
  compile_reduce_to_reg dst v None fn_name;;
  mret None.

(** The native function a name stands for, with its arity. *)
Definition intrinsic (name : list Z) : option (Z * Z) := by_name name [
  (["@print"; "print"], (NATIVE_PRINT, 1)); (["@println"; "println"], (NATIVE_PRINTLN, 1));
  (["@tsc"; "sys.tsc"], (NATIVE_SYS_TSC, 0)); (["@rtt"; "net.rtt"], (NATIVE_NET_RTT, 0));
  (["@rate"; "net.set_rate"], (NATIVE_NET_SET_RATE, 1));
  (["@capture"; "gpu.capture"], (NATIVE_GPU_CAPTURE, 0));
  (["@send"; "net.send"], (NATIVE_NET_SEND, 1)); (["@release"; "@drop"], (NATIVE_DROP, 1));
  (["@argc"; "sys.argc"], (NATIVE_SCRIPT_ARGC, 0)); (["@arg"; "sys.arg"], (NATIVE_SCRIPT_ARG, 1));
  (["@ok"], (NATIVE_TAG_OK, 1)); (["@err"], (NATIVE_TAG_ERR, 1));
  (["@is_ok"], (NATIVE_IS_OK, 1)); (["@is_err"], (NATIVE_IS_ERR, 1));
  (["@unwrap"], (NATIVE_UNWRAP, 1)); (["@core_id"; "sys.core_id"], (NATIVE_CORE_ID, 0));
  (["@tsc_freq"; "sys.tsc_freq"], (NATIVE_TSC_FREQ, 0));
  (["@uptime_ns"; "sys.uptime_ns"], (NATIVE_UPTIME_NS, 0));
  (["@busy_wait"; "sys.busy_wait"], (NATIVE_BUSY_WAIT, 1));
  (["@ring_depth"; "sys.ring_depth"], (NATIVE_RING_DEPTH, 1));
  (["@min"; "math.min"], (NATIVE_MATH_MIN, 2)); (["@max"; "math.max"], (NATIVE_MATH_MAX, 2));
  (["@abs"; "math.abs"], (NATIVE_MATH_ABS, 1)); (["@clamp"; "math.clamp"], (NATIVE_MATH_CLAMP, 3));
  (["@popcnt"; "bit.popcnt"], (NATIVE_BIT_POPCNT, 1));
  (["@lzcnt"; "bit.lzcnt"], (NATIVE_BIT_LZCNT, 1)); (["@crc32"; "hash.crc32"], (NATIVE_CRC32, 2));
  (["@vram_read"; "vram.read"], (NATIVE_VRAM_READ, 2));
  (["@vram_write"; "vram.write"], (NATIVE_VRAM_WRITE, 3));
  (["@to_fix"; "fix.to_fix"], (NATIVE_FIX_TO_FIX, 2));
  (["@to_i64"; "fix.to_i64"], (NATIVE_FIX_TO_I64, 2));
  (["@fix_mul"; "fix.mul"], (NATIVE_FIX_MUL, 3)); (["@fix_div"; "fix.div"], (NATIVE_FIX_DIV, 3));
  (["@term_raw"; "term.raw"], (NATIVE_TERM_RAW, 1));
  (["@term_read_key"; "term.read_key"], (NATIVE_TERM_READ_KEY, 0));
  (["@term_size"; "term.size"], (NATIVE_TERM_SIZE, 0));
  (["@file_read"; "file.read"], (NATIVE_FILE_READ, 1));
  (["@file_write"; "file.write"], (NATIVE_FILE_WRITE, 2));
  (["@file_exists"; "file.exists"], (NATIVE_FILE_EXISTS, 1));
  (["@str_len"; "str.len"], (NATIVE_STR_LEN, 1));
  (["@char_at"; "str.char_at"], (NATIVE_CHAR_AT, 2))]%string.

(** The register of the handle that is the argument of a call, or 0. *)
Definition handle_arg : comp Z :=
  arg_tok ← peek;
  if keq (kind arg_tok) TokenKind.HardwareIdent then
    reg ← try (resolve_var arg_tok); mret (default 0 reg)
  else mret 0.

(** The only argument of a call: sending and releasing consume a handle. *)
Definition intrinsic_arg1 (func_id : Z) : comp Z :=
  k ← peek_kind;
  if keq k TokenKind.RParen then mret 0
  else
    raw_h_reg ← handle_arg;
    when (func_id =? NATIVE_NET_SEND) (send_handle raw_h_reg);;
    when (func_id =? NATIVE_DROP) (release_handle raw_h_reg);;
    arg0_reg ← alloc_temp;
    expression' arg0_reg;;
    mret arg0_reg.

(** The registers of the arguments of a call. *)
Definition intrinsic_args (func_id arity : Z) : comp (list Z) :=
  if arity =? 0 then mret []
  else if arity =? 1 then arg0_reg ← intrinsic_arg1 func_id; mret [arg0_reg]
  else if arity =? 2 then
    arg0_reg ← alloc_temp;
    expression' arg0_reg;;
    expect TokenKind.Comma E_EXPECTED_COMMA_6;;
    arg1_reg ← alloc_temp;
    expression' arg1_reg;;
    mret [arg0_reg; arg1_reg]
  else
    arg0_reg ← alloc_temp;
    expression' arg0_reg;;
    expect TokenKind.Comma E_EXPECTED_COMMA_7;;
    arg1_reg ← alloc_temp;
    expression' arg1_reg;;
    expect TokenKind.Comma E_EXPECTED_COMMA_7;;
    arg2_reg ← alloc_temp;
    expression' arg2_reg;;
    mret [arg0_reg; arg1_reg; arg2_reg].

Fixpoint free_temps (regs : list Z) : comp unit :=
  match regs with [] => mret tt | r :: regs => free_temp r;; free_temps regs end.

Definition primary_intrinsic (dst : Z) (name : list Z) : comp (option Z) :=
  match intrinsic name with
  | None => fail E_UNKNOWN_INTRINSIC
  | Some (func_id, arity) =>
    advance;;
    args ← intrinsic_args func_id arity;
    expect TokenKind.RParen E_UNCLOSED_PAREN_11;;
    check_intrinsic_runtime func_id;;
    emit PX64_OP_CALL_NAT dst func_id (default 0 (head args));;
    free_temps (rev args);;
    mret None
  end.

(** A name followed by an opening parenthesis. *)
Definition primary_named_call (dst : Z) (name : list Z) : comp (option Z) :=
  found ← gets (find_fn name);
  match found with
  | Some f => primary_call dst f
  | None =>
    if is_name name ["@streq"; "str.eq"]%string then primary_streq dst
    else if is_name name ["@zip_with"]%string then primary_zip_with dst
    else if is_name name ["@sum"; "sum"]%string then primary_sum dst
    else if is_name name ["@reduce"; "reduce"]%string then primary_reduce dst
    else primary_intrinsic dst name
  end.

Definition primary_ident (dst : Z) (tok : Token) : comp (option Z) :=
  name ← text tok;
  k ← peek_kind;
  if keq k TokenKind.ColonColon then primary_variant dst name
  else if keq k TokenKind.LBracket then
    primary_index dst PX64_OP_TBL_LOAD ('(tbl_id, _) ← lookup_const_table name; mret tbl_id)
  else
    literal ← (if keq k TokenKind.LBrace then is_struct_type tok else mret false);
    if literal : bool then fail E_STRUCT_LITERAL_UNSUPPORTED
    else if keq k TokenKind.LParen then primary_named_call dst name
    else
      var_reg ← resolve_var tok;
      when (negb (var_reg =? dst)) (emit PX64_OP_MOV_REG dst var_reg 0);;
      mret None.

(** * Unary operators and groups *)

Definition primary_minus (dst : Z) : comp (option Z) :=
  zero_reg ← alloc_temp;
  emit_const zero_reg 0;;
  rhs_reg ← alloc_temp;
  rhs_val ← call_primary self rhs_reg;
  match rhs_val with
  | Some b => free_temp rhs_reg;; free_temp zero_reg;; b ← neg b; mret (Some b)
  | None =>
    emit PX64_OP_SUB dst zero_reg rhs_reg;;
    free_temp rhs_reg;;
    free_temp zero_reg;;
    mret None
  end.

Definition primary_not (dst : Z) : comp (option Z) :=
  rhs_reg ← alloc_temp;
  rhs_val ← call_primary self rhs_reg;
  match rhs_val with
  | Some b => free_temp rhs_reg;; mret (Some (if b =? 0 then 1 else 0))
  | None =>
    zero_reg ← alloc_temp;
    emit_const zero_reg 0;;
    emit PX64_OP_CMP_EQ dst rhs_reg zero_reg;;
    free_temp zero_reg;;
    free_temp rhs_reg;;
    mret None
  end.

Definition primary_group (dst : Z) : comp (option Z) :=
  val ← call_ternary self dst;
  expect TokenKind.RParen E_UNCLOSED_PAREN_12;;
  mret val.

Definition primary (dst : Z) : comp (option Z) :=
  tok ← advance;
  match kind tok with
  | TokenKind.Number n => mret (Some n)
  | TokenKind.TimeLiteral ns => mret (Some (as_i64 ns))
  | TokenKind.FloatLit scaled_val frac_digits => primary_float dst scaled_val frac_digits
  | TokenKind.StringLit => primary_string dst tok
  | TokenKind.VarIdent | TokenKind.HardwareIdent => primary_var dst tok
  | TokenKind.IntrinsicIdent | TokenKind.Ident => primary_ident dst tok
  | TokenKind.Minus => primary_minus dst
  | TokenKind.Exclamation => primary_not dst
  | TokenKind.LParen => primary_group dst
  | _ => fail E_SYNTAX_UNEXPECTED_TOKEN
  end.

(** * Levels of precedence *)

(** The end of a round of every level: two constants are folded, otherwise the
    constants are loaded and an instruction computes. *)
Definition fold_or_emit (dst rhs_reg : Z) (val rhs_val : option Z) (fold : Z -> Z -> comp Z)
    (instr : comp unit) : comp (option Z) :=
  match val, rhs_val with
  | Some a, Some b => v ← fold a b; mret (Some v)
  | _, _ =>
    when_some val (emit_const dst);;
    when_some rhs_val (emit_const rhs_reg);;
    instr;;
    mret None
  end.

(** The loop of a left-associative level: [operand] is the level below, [round]
    combines the value so far with the operand in [rhs_reg]. *)
Definition left_assoc (ops : list TokenKind.t) (operand : Z -> comp (option Z))
    (round : TokenKind.t -> Z -> option Z -> option Z -> comp (option Z)) (dst : Z)
    : comp (option Z) :=
  val ← operand dst;
  loop rounds (fun val =>
    k ← peek_kind;
    if negb (kin k ops) then mret (val, false)
    else
      advance;;
      rhs_reg ← alloc_temp;
      rhs_val ← operand rhs_reg;
      val ← round k rhs_reg val rhs_val;
      free_temp rhs_reg;;
      mret (val, true)) val.

Definition of_bool (b : bool) : Z := if b then 1 else 0.

(** An operator that folds with a function and runs as one instruction. *)
Definition simple_round (fold : TokenKind.t -> Z -> Z -> Z) (op : TokenKind.t -> Z) (dst : Z)
    (k : TokenKind.t) (rhs_reg : Z) (val rhs_val : option Z) : comp (option Z) :=
  fold_or_emit dst rhs_reg val rhs_val (fun a b => mret (fold k a b)) (emit (op k) dst dst rhs_reg).

(** Multiplication of fixed-point values, in the register [dst]. *)
Definition emit_fixed_mul (dst rhs_reg scale : Z) : comp unit :=
  emit PX64_OP_MUL dst dst rhs_reg;;
  shift_reg ← alloc_temp;
  emit_imm16 PX64_OP_MOV_IMM shift_reg scale;;
  emit PX64_OP_SHR dst dst shift_reg;;
  free_temp shift_reg.

Definition set_scale (s : option Z) : comp unit :=
  modify (fun c => set_current_expr_fixed_scale c s).

Definition emit_star (dst rhs_reg : Z) (lhs_scale rhs_scale : option Z) : comp unit :=
  match lhs_scale, rhs_scale with
  | Some s1, Some s2 =>
    if negb (s1 =? s2) then fail E_FIXED_SCALE_MISMATCH_2
    else emit_fixed_mul dst rhs_reg s1;; set_scale (Some s1)
  | Some s, None | None, Some s => emit_fixed_mul dst rhs_reg s;; set_scale None
  | None, None => emit PX64_OP_MUL dst dst rhs_reg;; set_scale None
  end.

Definition emit_slash (dst rhs_reg : Z) (lhs_scale rhs_scale : option Z) : comp unit :=
  match lhs_scale, rhs_scale with
  | Some s1, Some s2 =>
    if negb (s1 =? s2) then fail E_FIXED_SCALE_MISMATCH_3
    else
      shift_reg ← alloc_temp;
      emit_imm16 PX64_OP_MOV_IMM shift_reg s1;;
      emit PX64_OP_SHL dst dst shift_reg;;
      free_temp shift_reg;;
      emit PX64_OP_DIV dst dst rhs_reg;;
      set_scale (Some s1)
  | _, _ => emit PX64_OP_DIV dst dst rhs_reg;; set_scale None
  end.

Definition fold_factor (k : TokenKind.t) (a b : Z) : comp Z :=
  match k with
  | TokenKind.Star => mret (wrapping_mul a b)
  | TokenKind.Slash => if b =? 0 then fail E_DIV_BY_ZERO else mret (wrapping_div a b)
  | TokenKind.Percent => if b =? 0 then fail E_DIV_BY_ZERO_2 else mret (wrapping_rem a b)
  | _ => mret 0
  end.

Definition emit_factor (dst : Z) (k : TokenKind.t) (rhs_reg : Z) (lhs_scale rhs_scale : option Z)
    : comp unit :=
  match k with
  | TokenKind.Star => emit_star dst rhs_reg lhs_scale rhs_scale
  | TokenKind.Slash => emit_slash dst rhs_reg lhs_scale rhs_scale
  | TokenKind.Percent => emit PX64_OP_MOD dst dst rhs_reg;; set_scale None
  | _ => mret tt
  end.

Definition factor (dst : Z) : comp (option Z) :=
  val ← primary dst;
  loop rounds (fun val =>
    k ← peek_kind;
    if negb (kin k [TokenKind.Star; TokenKind.Slash; TokenKind.Percent]) then mret (val, false)
    else
      advance;;
      lhs_scale ← gets current_expr_fixed_scale;
      rhs_reg ← alloc_temp;
      rhs_val ← primary rhs_reg;
      rhs_scale ← gets current_expr_fixed_scale;
      val ← fold_or_emit dst rhs_reg val rhs_val (fold_factor k)
              (emit_factor dst k rhs_reg lhs_scale rhs_scale);
      free_temp rhs_reg;;
      mret (val, true)) val.

Definition fold_term (k : TokenKind.t) (a b : Z) : Z :=
  match k with
  | TokenKind.Plus => wrapping_add a b
  | TokenKind.Minus => wrapping_sub a b
  | _ => 0
  end.

(** The scales of the two sides of a sum. *)
Definition term_scales (lhs_scale rhs_scale : option Z) : comp unit :=
  match lhs_scale, rhs_scale with
  | Some s1, Some s2 => if negb (s1 =? s2) then fail E_FIXED_SCALE_MISMATCH else set_scale (Some s1)
  | _, _ => mret tt
  end.

Definition term (dst : Z) : comp (option Z) :=
  val ← factor dst;
  loop rounds (fun val =>
    k ← peek_kind;
    if negb (kin k [TokenKind.Plus; TokenKind.Minus]) then mret (val, false)
    else
      advance;;
      lhs_scale ← gets current_expr_fixed_scale;
      rhs_reg ← alloc_temp;
      rhs_val ← factor rhs_reg;
      rhs_scale ← gets current_expr_fixed_scale;
      term_scales lhs_scale rhs_scale;;
      val ← simple_round fold_term
              (fun k => if keq k TokenKind.Plus then PX64_OP_ADD else PX64_OP_SUB)
              dst k rhs_reg val rhs_val;
      free_temp rhs_reg;;
      mret (val, true)) val.

(** [a.wrapping_shl(b & 63)] and [(a as u64 >> (b & 63)) as i64]. *)
Definition fold_shift (k : TokenKind.t) (a b : Z) : Z :=
  match k with
  | TokenKind.Shl => wrapping_shl a (Z.land b 63)
  | TokenKind.Shr => as_i64 (Z.shiftr (as_u64 a) (Z.land b 63))
  | _ => 0
  end.

Definition shift (dst : Z) : comp (option Z) :=
  left_assoc [TokenKind.Shl; TokenKind.Shr] term
    (simple_round fold_shift
       (fun k => if keq k TokenKind.Shl then PX64_OP_SHL else PX64_OP_SHR) dst) dst.

Definition bitwise_and (dst : Z) : comp (option Z) :=
  left_assoc [TokenKind.Amp] shift
    (simple_round (fun _ => Z.land) (fun _ => PX64_OP_AND) dst) dst.

Definition bitwise_xor (dst : Z) : comp (option Z) :=
  left_assoc [TokenKind.Caret] bitwise_and
    (simple_round (fun _ => Z.lxor) (fun _ => PX64_OP_XOR) dst) dst.

Definition bitwise_or (dst : Z) : comp (option Z) :=
  left_assoc [TokenKind.PipeSingle] bitwise_xor
    (simple_round (fun _ => Z.lor) (fun _ => PX64_OP_OR) dst) dst.

Definition fold_comparison (k : TokenKind.t) (a b : Z) : Z :=
  match k with
  | TokenKind.Lt => of_bool (a <? b)
  | TokenKind.LtEq => of_bool (a <=? b)
  | TokenKind.Gt => of_bool (b <? a)
  | TokenKind.GtEq => of_bool (b <=? a)
  | _ => 0
  end.

Definition op_comparison (k : TokenKind.t) : Z :=
  match k with
  | TokenKind.Lt => PX64_OP_CMP_LT
  | TokenKind.LtEq => PX64_OP_CMP_LE
  | TokenKind.Gt => PX64_OP_CMP_GT
  | _ => PX64_OP_CMP_GE
  end.

Definition comparison (dst : Z) : comp (option Z) :=
  left_assoc [TokenKind.Lt; TokenKind.LtEq; TokenKind.Gt; TokenKind.GtEq] bitwise_or
    (simple_round fold_comparison op_comparison dst) dst.

Definition equality (dst : Z) : comp (option Z) :=
  left_assoc [TokenKind.EqEq; TokenKind.NotEq] comparison
    (simple_round
       (fun k a b => of_bool (if keq k TokenKind.EqEq then a =? b else negb (a =? b)))
       (fun k => if keq k TokenKind.EqEq then PX64_OP_CMP_EQ else PX64_OP_CMP_NE) dst) dst.

(** Both sides are made booleans, and combined by [op]: both are evaluated. *)
Definition emit_logic (op dst rhs_reg : Z) : comp unit :=
  zero_reg ← alloc_temp;
  emit_const zero_reg 0;;
  emit PX64_OP_CMP_NE dst dst zero_reg;;
  rhs_bool ← alloc_temp;
  emit PX64_OP_CMP_NE rhs_bool rhs_reg zero_reg;;
  emit op dst dst rhs_bool;;
  free_temp rhs_bool;;
  free_temp zero_reg.

Definition logic_round (op : Z) (fold : bool -> bool -> bool) (dst : Z) (k : TokenKind.t)
    (rhs_reg : Z) (val rhs_val : option Z) : comp (option Z) :=
  fold_or_emit dst rhs_reg val rhs_val
    (fun a b => mret (of_bool (fold (negb (a =? 0)) (negb (b =? 0))))) (emit_logic op dst rhs_reg).

Definition logic_and (dst : Z) : comp (option Z) :=
  left_assoc [TokenKind.And] equality (logic_round PX64_OP_AND andb dst) dst.

Definition logic_or (dst : Z) : comp (option Z) :=
  left_assoc [TokenKind.OrOp] logic_and (logic_round PX64_OP_OR orb dst) dst.

(** [{ statements }], the opening brace being consumed. *)
Definition block : comp unit :=
  until TokenKind.RBrace (statement';; mret true);;
  match_token TokenKind.RBrace;;
  mret tt.

(** A branch of the conditional operator. *)
Definition branch (dst : Z) : comp unit :=
  b ← match_token TokenKind.LBrace;
  if b : bool then block else expression' dst.

Definition ternary (dst : Z) : comp (option Z) :=
  val ← logic_or dst;
  question ← match_token TokenKind.Question;
  if negb question then mret val
  else
    when_some val (emit_const dst);;
    jz_pos ← emit_inst PX64_OP_JZ dst 0 0;
    branch dst;;
    colon ← match_token TokenKind.Colon;
    (if colon : bool then
       jmp_end_pos ← emit_inst PX64_OP_JMP 0 0 0;
       patch_here jz_pos;;
       branch dst;;
       patch_here jmp_end_pos
     else patch_here jz_pos);;
    mret None.

(** The function after [|>], which consumes the handle in [dst]. *)
Definition pipe_target (dst : Z) (name : list Z) : comp Z :=
  if is_name name ["@send"; "net.send"]%string then send_handle dst;; mret NATIVE_NET_SEND
  else if is_name name ["@release"; "@drop"]%string then release_handle dst;; mret NATIVE_DROP
  else if is_name name ["@print"; "print"]%string then mret NATIVE_PRINT
  else if is_name name ["@println"; "println"]%string then mret NATIVE_PRINTLN
  else if is_name name ["@rate"; "net.set_rate"]%string then mret NATIVE_NET_SET_RATE
  else fail E_INVALID_PIPE_TARGET.

Definition pipe (dst : Z) : comp unit :=
  k ← peek_kind;
  when (kin k [TokenKind.IntrinsicIdent; TokenKind.Ident])
    (tok ← advance;
     name ← text tok;
     func_id ← pipe_target dst name;
     check_intrinsic_runtime func_id;;
     emit PX64_OP_CALL_NAT dst func_id dst).

Definition expression (dst : Z) : comp unit :=
  val ← ternary dst;
  when_some val (emit_const dst);;
  loop rounds (fun _ =>
    b ← match_token TokenKind.Pipe;
    if b : bool then pipe dst;; mret (tt, true) else mret (tt, false)) tt.

Definition expression_statement : comp unit :=
  expression 0;;
  expect TokenKind.Semi E_MISSING_SEMICOLON_5.

End Expr.
