(* ===== verification/CompStmt.v ===== *)
(** The statement compiler (pulselang-core/src/compiler.rs): [statement], one
    definition per kind of statement, the recursion, and [compile]. *)

From S2P Require Import Prelude RustStd Isa Token Error CompErrors Compiler CompDecl CompExpr.
Local Open Scope Z_scope.

Section Stmt.
Context `{inp : Input}.
Context (self : calls).

Notation expression' := (call_expression self).
Notation statement' := (call_statement self).

Definition skip (k : TokenKind.t) : comp unit := match_token k;; mret tt.

(** * Pragmas *)

Definition import_mask (name : list Z) : option Z :=
  let all := fold_right Z.lor 0 in
  by_name name [
  (["tiny"], RUNTIME_TINY); (["core"], all [RUNTIME_CORE; RUNTIME_TINY]);
  (["math"], all [RUNTIME_MATH; RUNTIME_CORE; RUNTIME_TINY]);
  (["fix"], all [RUNTIME_FIX; RUNTIME_CORE]); (["sys"], all [RUNTIME_SYS; RUNTIME_CORE]);
  (["net"], all [RUNTIME_NET; RUNTIME_SYS; RUNTIME_CORE]);
  (["vram"], all [RUNTIME_VRAM; RUNTIME_CORE]);
  (["gpu"], all [RUNTIME_GPU; RUNTIME_VRAM; RUNTIME_SYS; RUNTIME_CORE]);
  (["term"; "tui"], all [RUNTIME_TERM; RUNTIME_FILE; RUNTIME_SYS; RUNTIME_CORE; RUNTIME_TINY]);
  (["file"], all [RUNTIME_FILE; RUNTIME_CORE; RUNTIME_TINY])]%string.

Definition stmt_import : comp unit :=
  advance;;
  name_tok ← advance;
  raw_name ← match kind name_tok with
             | TokenKind.StringLit =>
               if 2 <=? tlen name_tok
               then lift (slice src (start name_tok + 1) (start name_tok + tlen name_tok - 1))
               else mret []
             | TokenKind.Ident => text name_tok
             | _ => fail E_IMPORT_SYNTAX
             end;
  skip TokenKind.Semi;;
  l ← gets limits;
  when (negb (has_explicit_imports l))
    (modify (fun c => put_imported_runtimes (put_has_explicit_imports c true) 0));;
  match import_mask raw_name with
  | Some mask =>
    modify (fun c => put_imported_runtimes c (Z.lor (imported_runtimes (limits c)) mask))
  | None => fail E_UNKNOWN_RUNTIME
  end.

(** Skips tokens until [depth] brackets are closed: the number of tokens and the
    depth that is left at the end of the input. *)
Fixpoint skip_nested (opening closing : TokenKind.t) (l : list Token) (depth n : Z) : Z * Z :=
  if depth =? 0 then (n, depth)
  else
    match l with
    | [] => (n, depth)
    | t :: l =>
      if keq (kind t) opening then skip_nested opening closing l (depth + 1) (n + 1)
      else if keq (kind t) closing then skip_nested opening closing l (depth - 1) (n + 1)
      else if keq (kind t) TokenKind.Eof then (n, depth)
      else skip_nested opening closing l depth (n + 1)
    end.

(** The same from the current token on; the result is the depth. *)
Definition skip_group (opening closing : TokenKind.t) : comp Z :=
  i ← gets current;
  let '(n, depth) := skip_nested opening closing (drop (Z.to_nat i) tokens) 1 0 in
  modify (fun c => set_current c (i + n));;
  mret depth.

(** [@budget(...)] or [budget(...)]. *)
Definition skip_budget : comp unit :=
  k ← peek_kind;
  when (kin k [TokenKind.AtBudget; TokenKind.Budget])
    (advance;;
     b ← match_token TokenKind.LParen;
     when b (advance;; skip TokenKind.RParen)).

Definition stmt_test : comp unit :=
  advance;;
  k ← peek_kind;
  when (keq k TokenKind.StringLit) (advance;; mret tt);;
  skip_budget;;
  brace ← match_token TokenKind.LBrace;
  (if brace : bool then skip_group TokenKind.LBrace TokenKind.RBrace;; mret tt
   else
     paren ← match_token TokenKind.LParen;
     when paren
       (until TokenKind.RParen (advance;; mret true);;
        skip TokenKind.RParen;;
        skip TokenKind.Semi));;
  skip TokenKind.Semi.

(** [(time)] after [@wcet] or [@budget]. *)
Definition contract_time (set : Compiler -> option Z -> Compiler) : comp unit :=
  advance;;
  b ← match_token TokenKind.LParen;
  when b
    (t ← advance;
     match kind t with
     | TokenKind.TimeLiteral ns => modify (fun c => set c (Some ns))
     | TokenKind.Number n => modify (fun c => set c (Some (as_u64 n)))
     | _ => mret tt
     end;;
     skip TokenKind.RParen).

Definition stmt_contract : comp unit :=
  advance;;
  skip TokenKind.Colon;;
  until TokenKind.Semi (
    k ← peek_kind;
    (if keq k TokenKind.AtWcet then contract_time put_declared_script_wcet_ns
     else if kin k [TokenKind.AtBudget; TokenKind.Budget] then
       contract_time put_declared_script_budget_ns
     else advance;; mret tt);;
    mret true);;
  expect TokenKind.Semi E_MISSING_SEMICOLON.

Definition stmt_pool_size : comp unit := advance;; declare_pool_size.

(** [block], when there is a brace. *)
Definition optional_block : comp bool :=
  b ← match_token TokenKind.LBrace;
  if b : bool then block self;; mret true else mret false.

Definition stmt_pipeline : comp unit :=
  advance;;
  skip TokenKind.Colon;;
  advance;;
  skip_budget;;
  semi ← match_token TokenKind.Semi;
  when (negb semi) (optional_block;; mret tt).

Definition stmt_on : comp unit :=
  advance;;
  skip TokenKind.Colon;;
  paren ← match_token TokenKind.LParen;
  when paren (advance;; skip TokenKind.RParen);;
  b ← optional_block;
  when b (skip TokenKind.Semi).

Definition is_captured (s : Typestate.t) : bool :=
  if s is Typestate.Captured _ _ _ then true else false.

Definition drop_captured (c : Compiler) : Compiler :=
  set_handle_states c
    (map (fun s => if is_captured s then Typestate.Dropped else s) (handle_states c)).

(** [self.emit_imm16(MOV_IMM)] or [LDC], as for every constant. *)
Definition stmt_within : comp unit :=
  advance;;
  has_paren ← match_token TokenKind.LParen;
  time_tok ← advance;
  when has_paren (skip TokenKind.RParen);;
  deadline_ns ← match kind time_tok with
                | TokenKind.TimeLiteral ns => mret ns
                | TokenKind.Number n => mret (as_u64 n)
                | _ => fail E_EXPECTED_TIME_LITERAL
                end;
  emit_const 0 (as_i64 deadline_ns);;
  emit PX64_OP_WITHIN_START 0 0 0;;
  expect TokenKind.LBrace E_EXPECTED_LBRACE_3;;
  block self;;
  emit PX64_OP_WITHIN_END 0 0 0;;
  or_drop ← match_either TokenKind.Exclamation TokenKind.Or;
  when or_drop
    (d ← match_token TokenKind.Drop;
     when d (emit PX64_OP_DROP 0 0 0;; modify drop_captured));;
  skip TokenKind.Semi.

(** * Loops *)

(** [@invariant(...)]: the position of the condition, which is compiled later. *)
Definition invariant_clause : comp (option Z) :=
  b ← match_token TokenKind.AtInvariant;
  if negb b then mret None
  else
    expect TokenKind.LParen E_INVARIANT_SYNTAX;;
    inv_start ← gets current;
    loop rounds (fun depth =>
      k ← peek_kind;
      if keq k TokenKind.Eof then mret (depth, false)
      else
        let depth := if keq k TokenKind.LParen then depth + 1
                     else if keq k TokenKind.RParen then depth - 1 else depth in
        if 0 <? depth then advance;; mret (depth, true) else mret (depth, false)) 1;;
    skip TokenKind.RParen;;
    mret (Some inv_start).

(** Compiles the condition at token [start_tok] as an assertion. *)
Definition assert_at (start_tok : Z) : comp unit :=
  modify (fun c => set_current c start_tok);;
  cond_reg ← alloc_temp;
  expression' cond_reg;;
  emit PX64_OP_ASSERT cond_reg 0 0;;
  free_temp cond_reg.

Definition emit_invariant_check (start_tok : Z) : comp unit :=
  saved_current ← gets current;
  assert_at start_tok;;
  modify (fun c => set_current c saved_current).

(** What a loop may do with a handle. *)
Definition loop_confined (s_start s_end : Typestate.t) : bool :=
  match s_start, s_end with
  | Typestate.Unallocated, Typestate.Captured _ _ _ => false
  | Typestate.Unallocated, _ => true
  | Typestate.Captured _ _ _, Typestate.Captured _ _ _ => true
  | Typestate.Sent, Typestate.Sent => true
  | Typestate.Dropped, Typestate.Dropped => true
  | Typestate.Moved _ _, Typestate.Moved _ _ => true
  | _, _ => false
  end.

(** All the slots satisfy [ok]. *)
Fixpoint all2 (ok : Typestate.t -> Typestate.t -> bool) (l k : list Typestate.t) : bool :=
  match l, k with
  | a :: l, b :: k => ok a b && all2 ok l k
  | _, _ => true
  end.

Definition check_confined (pre : list Typestate.t) (d : diag) : comp unit :=
  post ← gets handle_states;
  if all2 loop_confined pre post then mret tt else fail d.

Definition stmt_while : comp unit :=
  advance;;
  loop_start ← code_len;
  skip TokenKind.LParen;;
  cond_kind ← peek_kind;
  (if cond_kind is TokenKind.Number n then if n =? 0 then mret tt else fail E_UNBOUNDED_LOOP else mret tt);;
  expression' 0;;
  skip TokenKind.RParen;;
  inv ← invariant_clause;
  when_some inv emit_invariant_check;;
  jz_pos ← emit_inst PX64_OP_JZ 0 0 0;
  pre_loop_states ← gets handle_states;
  expect TokenKind.LBrace E_EXPECTED_LBRACE_4;;
  block self;;
  when_some inv emit_invariant_check;;
  check_confined pre_loop_states E_TYPESTATE_MISMATCH;;
  emit_imm16 PX64_OP_JMP 0 (as_u16 loop_start);;
  patch_here jz_pos.

(** A bound of a [for] loop. *)
Definition const_bound (d : diag) : comp Z :=
  k ← peek_kind;
  match k with
  | TokenKind.Number n => advance;; mret n
  | TokenKind.TimeLiteral ns => advance;; mret (as_i64 ns)
  | _ => fail d
  end.

(** The variable and the bounds: [( $i in a .. b )]. *)
Definition for_header : comp (Z * Z * Z) :=
  has_paren ← match_token TokenKind.LParen;
  k ← peek_kind;
  if negb (keq k TokenKind.VarIdent) then fail E_FOR_EXPECTED_VAR
  else
    var_tok ← advance;
    var_reg ← resolve_var var_tok;
    expect TokenKind.In E_FOR_EXPECTED_IN;;
    start_val ← const_bound E_FOR_NON_CONSTANT_BOUND;
    expect TokenKind.DotDot E_FOR_EXPECTED_DOTDOT;;
    end_val ← const_bound E_FOR_NON_CONSTANT_BOUND_2;
    when has_paren (skip TokenKind.RParen);;
    mret (var_reg, start_val, end_val).

(** [(end_val - start_val) as u64], when positive. *)
Definition for_iterations (start_val end_val : Z) : comp Z :=
  if end_val <=? start_val then mret 0
  else if oc && (2 ^ 63 <=? end_val - start_val) then panic ArithmeticOverflow
  else mret (as_u64 (end_val - start_val)).

(** The number of instructions of a loop, against the limit of the machine. *)
Definition estimated_steps (body_len iterations : Z) : Z :=
  Z.min ((body_len / 4 + 4) * iterations) (2 ^ 64 - 1).

Definition stmt_for : comp unit :=
  advance;;
  '(var_reg, start_val, end_val) ← for_header;
  iterations ← for_iterations start_val end_val;
  emit_const var_reg start_val;;
  end_reg ← alloc_temp;
  emit_const end_reg end_val;;
  loop_start ← code_len;
  emit PX64_OP_CMP_LT 0 var_reg end_reg;;
  jz_pos ← emit_inst PX64_OP_JZ 0 0 0;
  inv ← invariant_clause;
  when_some inv emit_invariant_check;;
  expect TokenKind.LBrace E_EXPECTED_LBRACE_5;;
  pre_loop_states ← gets handle_states;
  body_code_start ← code_len;
  block self;;
  when_some inv emit_invariant_check;;
  body_code_end ← code_len;
  check_confined pre_loop_states E_TYPESTATE_MISMATCH_2;;
  if MAX_VM_STEPS <? estimated_steps (body_code_end - body_code_start) iterations then fail E_FOR_WCET_EXCEEDED
  else
    emit PX64_OP_ADDI var_reg var_reg 1;;
    emit_imm16 PX64_OP_JMP 0 (as_u16 loop_start);;
    patch_here jz_pos;;
    free_temp end_reg.

(** * Declarations of variables *)

(** The elements of an array literal; [most] is the declared length. *)
Definition array_elems (arr_id : Z) (most : option Z) : comp unit :=
  loop rounds (fun elem_idx =>
    k ← peek_kind;
    if keq k TokenKind.RBracket || keq k TokenKind.Eof then mret (elem_idx, false)
    else if (if most is Some n then n <=? elem_idx else false) then fail E_ARRAY_INIT_TOO_MANY_ELEMENTS
    else
      idx_reg ← alloc_temp;
      val_reg ← alloc_temp;
      emit_mov_imm idx_reg elem_idx;;
      expression' val_reg;;
      emit PX64_OP_ARR_STORE arr_id idx_reg val_reg;;
      free_temp val_reg;;
      free_temp idx_reg;;
      again ← comma;
      mret (elem_idx + 1, again)) 0;;
  mret tt.

(** [: [type; N]], with or without a literal. *)
Definition let_array (ident : Token) : comp unit :=
  advance;;
  expect TokenKind.Semi E_ARRAY_SYNTAX;;
  len_tok ← advance;
  n ← match kind len_tok with
      | TokenKind.Number n => if 0 <? n then mret n else fail E_ARRAY_INVALID_LEN
      | _ => fail E_ARRAY_INVALID_LEN
      end;
  expect TokenKind.RBracket E_ARRAY_SYNTAX_2;;
  arr_id ← declare_array ident n;
  emit_imm16 PX64_OP_ARR_DEF arr_id (as_u16 n);;
  eq ← match_either TokenKind.ColonEq TokenKind.Eq;
  when eq
    (expect TokenKind.LBracket E_EXPECTED_LBRACKET_3;;
     array_elems arr_id (Some n);;
     expect TokenKind.RBracket E_ARRAY_SYNTAX_3);;
  skip TokenKind.Semi.

(** [fixed<N>]. *)
Definition fixed_scale : comp Z :=
  expect TokenKind.Lt E_FIXED_SYNTAX;;
  n_tok ← advance;
  scale ← match kind n_tok with
          | TokenKind.Number n => if (1 <=? n) && (n <=? 31) then mret n else fail E_INVALID_FIXED_SCALE
          | _ => fail E_INVALID_FIXED_SCALE
          end;
  expect TokenKind.Gt E_FIXED_SYNTAX_2;;
  mret scale.

(** The annotation after [let $x]: the type of an enum and a fixed-point scale.
    There is no result when it was a declaration of an array or of a struct. *)
Definition let_annotation (ident : Token) : comp (option (option Z * option Z)) :=
  colon ← match_token TokenKind.Colon;
  if negb colon then mret (Some (None, None))
  else
    bracket ← match_token TokenKind.LBracket;
    if bracket : bool then let_array ident;; mret None
    else
      type_tok ← advance;
      if keq (kind type_tok) TokenKind.Fixed then
        scale ← fixed_scale; mret (Some (None, Some scale))
      else
        is_struct ← is_struct_type type_tok;
        if is_struct : bool then
          declare_struct_inst ident type_tok;; skip TokenKind.Semi;; mret None
        else if kin (kind type_tok)
                  [TokenKind.U8; TokenKind.U16; TokenKind.U32; TokenKind.U64; TokenKind.I64]
        then mret (Some (None, None))
        else
          type_name ← text type_tok;
          e ← gets (lookup_enum_by_name type_name);
          mret (Some (e, None)).

(** [= [a, b, c]] without an annotation. *)
Definition let_array_literal (ident : Token) : comp unit :=
  advance;;
  advance;;
  n ← gets count_array_literal_elements;
  if n =? 0 then fail E_ARRAY_INVALID_LEN_2
  else
    arr_id ← declare_array ident n;
    emit_imm16 PX64_OP_ARR_DEF arr_id (as_u16 n);;
    array_elems arr_id None;;
    expect TokenKind.RBracket E_ARRAY_SYNTAX_3;;
    skip TokenKind.Semi.

Definition let_view (ident : Token) (is_mut : bool) : comp unit :=
  advance;;
  var_reg ← declare_var ident is_mut;
  view ← parse_view_source_to_reg self var_reg;
  declare_view ident (vw_arr_id view) var_reg (stride_imm view) (len_imm view);;
  skip TokenKind.Semi.

(** The types of a variable, if it has an index. *)
Definition set_var_types (ident : Token) (e s : option Z) : comp unit :=
  i ← gets (get_var_index ident);
  when_some i (fun i => update_var i (fun v => set_v_scale (set_v_enum v e) s)).

Definition union_opt (a b : option Z) : option Z := match a with Some _ => a | None => b end.

(** The initial value, into the variable's register or its spill slot. *)
Definition let_init (ident : Token) (var_reg : Z) (ann_enum ann_scale : option Z) : comp unit :=
  hw_move ← check_hw_assign_pre var_reg;
  modify (fun c => set_target_fixed_scale
    (set_current_expr_fixed_scale (set_current_expr_enum_type c None) None) ann_scale);;
  spilled ← is_spilled_var ident;
  match spilled with
  | Some slot =>
    temp_val ← alloc_temp;
    expression' temp_val;;
    emit PX64_OP_SPILL_STORE slot temp_val 0;;
    free_temp temp_val
  | None => expression' var_reg
  end;;
  apply_hw_assign_post var_reg ident hw_move;;
  e ← gets current_expr_enum_type;
  s ← gets current_expr_fixed_scale;
  set_var_types ident (union_opt ann_enum e) (union_opt ann_scale s);;
  modify (fun c => set_target_fixed_scale c None).

Definition let_value (ident : Token) (is_mut : bool) (ann_enum ann_scale : option Z) : comp unit :=
  var_reg ← declare_var ident is_mut;
  eq ← match_either TokenKind.ColonEq TokenKind.Eq;
  (if eq : bool then let_init ident var_reg ann_enum ann_scale
   else when (if ann_enum is Some _ then true else if ann_scale is Some _ then true else false)
          (set_var_types ident ann_enum ann_scale));;
  skip TokenKind.Semi.

(** [= @row(...)], [= @col(...)] or [= @slice(...)]. *)
Definition is_view_init (next_tok : Token) : bool :=
  kin (kind next_tok) [TokenKind.IntrinsicIdent; TokenKind.Ident] &&
  (start next_tok + tlen next_tok <=? len src) &&
  (if view_fn_of (text_or_empty next_tok) is Some _ then true else false).

Definition stmt_let : comp unit :=
  advance;;
  is_mut ← match_token TokenKind.Mut;
  ident ← advance;
  annotation ← let_annotation ident;
  match annotation with
  | None => mret tt
  | Some (ann_enum, ann_scale) =>
    k ← peek_kind;
    next_tok ← peek_ahead 1;
    if kin k [TokenKind.ColonEq; TokenKind.Eq] && keq (kind next_tok) TokenKind.LBracket then
      let_array_literal ident
    else if kin k [TokenKind.ColonEq; TokenKind.Eq] && is_view_init next_tok then
      let_view ident is_mut
    else let_value ident is_mut ann_enum ann_scale
  end.

(** * Branches *)

Definition stmt_assert : comp unit :=
  advance;;
  skip TokenKind.LParen;;
  expression' 0;;
  skip TokenKind.RParen;;
  skip TokenKind.Semi;;
  emit PX64_OP_ASSERT 0 0 0.

(** The states of a handle that two branches may leave. *)
Definition branches_agree (s_if s_else : Typestate.t) : bool :=
  match s_if, s_else with
  | Typestate.Unallocated, Typestate.Unallocated => true
  | Typestate.Captured _ _ _, Typestate.Captured _ _ _ => true
  | Typestate.Sent, (Typestate.Sent | Typestate.Dropped) => true
  | Typestate.Dropped, (Typestate.Sent | Typestate.Dropped) => true
  | Typestate.Moved _ _, Typestate.Moved _ _ => true
  | _, _ => false
  end.

Definition else_branch : comp unit :=
  k ← peek_kind;
  if keq k TokenKind.If then statement'
  else expect TokenKind.LBrace E_EXPECTED_LBRACE_7;; block self.

Definition stmt_if : comp unit :=
  advance;;
  skip TokenKind.LParen;;
  expression' 0;;
  skip TokenKind.RParen;;
  jz_pos ← emit_inst PX64_OP_JZ 0 0 0;
  pre_if_states ← gets handle_states;
  expect TokenKind.LBrace E_EXPECTED_LBRACE_6;;
  block self;;
  states_if ← gets handle_states;
  has_else ← match_token TokenKind.Else;
  states_else ←
    (if has_else : bool then
       jmp_pos ← emit_inst PX64_OP_JMP 0 0 0;
       patch_here jz_pos;;
       modify (fun c => set_handle_states c pre_if_states);;
       else_branch;;
       patch_here jmp_pos;;
       gets handle_states
     else patch_here jz_pos;; mret pre_if_states);
  if all2 branches_agree states_if states_else then
    modify (fun c => set_handle_states c states_if)
  else fail E_TYPESTATE_MISMATCH_3.

(** What the arms of a [match] so far have covered. *)
Record arms : Set := mkArms {
  arm_jmp_ends : list Z;
  has_ok_arm : bool;
  has_err_arm : bool;
  has_wildcard : bool;
  handled_variants : list bool;
  match_enum_type : option Z;
}.

Definition add_jmp_end (a : arms) (pos : Z) : arms :=
  mkArms (arm_jmp_ends a ++ [pos]) (has_ok_arm a) (has_err_arm a) (has_wildcard a)
    (handled_variants a) (match_enum_type a).

(** The body of an arm, and the jump after it. *)
Definition arm_body (a : arms) : comp arms :=
  brace ← match_token TokenKind.LBrace;
  (if brace : bool then block self else statement');;
  skip TokenKind.Comma;;
  jmp_end ← emit_imm16 PX64_OP_JMP 0 0;
  mret (add_jmp_end a jmp_end).

Definition arm_wildcard (a : arms) : comp arms :=
  advance;;
  expect TokenKind.FatArrow E_EXPECTED_FAT_ARROW;;
  arm_body (mkArms (arm_jmp_ends a) (has_ok_arm a) (has_err_arm a) true
    (map (fun _ => true) (handled_variants a)) (match_enum_type a)).

(** The test of an arm that compares: the rest of the arm when it fails. *)
Definition arm_compared (a : arms) (match_reg pat_reg : Z) : comp arms :=
  cmp_reg ← alloc_temp;
  emit PX64_OP_CMP_EQ cmp_reg match_reg pat_reg;;
  free_temp pat_reg;;
  jz_skip ← emit_imm16 PX64_OP_JZ cmp_reg 0;
  free_temp cmp_reg;;
  a ← arm_body a;
  patch_here jz_skip;;
  mret a.

(** [E::V =>]: the index of the enum and of the variant. *)
Definition variant_pattern (a : arms) : comp (Z * Z) :=
  enum_tok ← advance;
  advance;;
  var_tok ← advance;
  if negb (keq (kind var_tok) TokenKind.Ident) then fail E_EXPECTED_VARIANT_NAME_2
  else
    enum_name ← text enum_tok;
    var_name ← text var_tok;
    e ← gets (lookup_enum_by_name enum_name);
    match e with
    | None => fail E_UNKNOWN_ENUM_TYPE
    | Some enum_idx =>
      if (if match_enum_type a is Some e then negb (e =? enum_idx) else false) then fail E_ENUM_TYPE_MISMATCH
      else
        v ← gets (lookup_enum_variant enum_idx var_name);
        match v with
        | None => fail E_UNKNOWN_ENUM_VARIANT
        | Some variant_idx => mret (enum_idx, variant_idx)
        end
    end.

Definition arm_variant (a : arms) (match_reg : Z) : comp arms :=
  '(enum_idx, variant_idx) ← variant_pattern a;
  handled ← lift (idx (handled_variants a) variant_idx);
  if handled : bool then fail E_UNREACHABLE_PATTERN
  else
    expect TokenKind.FatArrow E_EXPECTED_FAT_ARROW_2;;
    pat_reg ← alloc_temp;
    emit_imm16 PX64_OP_MOV_IMM pat_reg variant_idx;;
    arm_compared (mkArms (arm_jmp_ends a) (has_ok_arm a) (has_err_arm a) (has_wildcard a)
      (setZ (handled_variants a) variant_idx true) (Some enum_idx)) match_reg pat_reg.

(** [Ok($x) =>] and [Err($x) =>]: the bound variable. *)
Definition binding (lparen rparen arrow : diag) : comp Token :=
  advance;;
  expect TokenKind.LParen lparen;;
  bind_tok ← advance;
  expect TokenKind.RParen rparen;;
  expect TokenKind.FatArrow arrow;;
  mret bind_tok.

(** Skips the arm when the native test answers 1. *)
Definition arm_test (func_id match_reg : Z) : comp Z :=
  test_reg ← alloc_temp;
  emit PX64_OP_CALL_NAT test_reg func_id match_reg;;
  jnz_skip ← emit_imm16 PX64_OP_JNZ test_reg 0;
  free_temp test_reg;;
  mret jnz_skip.

Definition arm_ok (a : arms) (match_reg : Z) : comp arms :=
  bind_tok ← binding E_EXPECTED_LPAREN E_UNCLOSED_PAREN E_EXPECTED_FAT_ARROW_3;
  jnz_skip ← arm_test NATIVE_IS_ERR match_reg;
  bind_reg ← resolve_var bind_tok;
  unwrap_reg ← alloc_temp;
  emit PX64_OP_CALL_NAT unwrap_reg NATIVE_UNWRAP match_reg;;
  emit PX64_OP_MOV_REG bind_reg unwrap_reg 0;;
  free_temp unwrap_reg;;
  a ← arm_body (mkArms (arm_jmp_ends a) true (has_err_arm a) (has_wildcard a)
        (handled_variants a) (match_enum_type a));
  patch_here jnz_skip;;
  mret a.

Definition arm_err (a : arms) (match_reg : Z) : comp arms :=
  bind_tok ← binding E_EXPECTED_LPAREN_2 E_UNCLOSED_PAREN_2 E_EXPECTED_FAT_ARROW_4;
  jnz_skip ← arm_test NATIVE_IS_OK match_reg;
  bind_reg ← resolve_var bind_tok;
  tag_reg ← alloc_temp;
  emit_const tag_reg ERR_TAG;;
  emit PX64_OP_XOR bind_reg match_reg tag_reg;;
  free_temp tag_reg;;
  a ← arm_body (mkArms (arm_jmp_ends a) (has_ok_arm a) true (has_wildcard a)
        (handled_variants a) (match_enum_type a));
  patch_here jnz_skip;;
  mret a.

Definition arm_expr (a : arms) (match_reg : Z) : comp arms :=
  pat_reg ← alloc_temp;
  expression' pat_reg;;
  expect TokenKind.FatArrow E_EXPECTED_FAT_ARROW_5;;
  arm_compared a match_reg pat_reg.

(** One arm; a wildcard is the last. *)
Definition arm (match_reg : Z) (a : arms) : comp (arms * bool) :=
  pat_tok ← peek;
  name ← text pat_tok;
  next_tok ← peek_ahead 1;
  if keq (kind pat_tok) TokenKind.Underscore || is_name name ["_"]%string then
    a ← arm_wildcard a; mret (a, false)
  else if kin (kind pat_tok) [TokenKind.Ident; TokenKind.IntrinsicIdent] &&
          keq (kind next_tok) TokenKind.ColonColon then
    a ← arm_variant a match_reg; mret (a, true)
  else if is_name name ["Ok"]%string then a ← arm_ok a match_reg; mret (a, true)
  else if is_name name ["Err"]%string then a ← arm_err a match_reg; mret (a, true)
  else a ← arm_expr a match_reg; mret (a, true).

(** The check that the arms cover every case. *)
Definition check_exhaustive (a : arms) : comp unit :=
  match match_enum_type a with
  | Some enum_idx =>
    if has_wildcard a then mret tt
    else
      l ← gets (fun c => enums (names c));
      def ← lift (idx l enum_idx);
      if forallb (fun b => b) (take (length (variants def)) (handled_variants a)) then mret tt
      else fail E_NON_EXHAUSTIVE_MATCH
  | None =>
    if (has_ok_arm a || has_err_arm a) && (negb (has_ok_arm a) || negb (has_err_arm a)) &&
       negb (has_wildcard a) then fail E_NON_EXHAUSTIVE_MATCH_2
    else if negb (has_ok_arm a) && negb (has_err_arm a) && negb (has_wildcard a) then fail E_NON_EXHAUSTIVE_MATCH_3
    else mret tt
  end.

Fixpoint patch_all (l : list Z) : comp unit :=
  match l with [] => mret tt | pos :: l => patch_here pos;; patch_all l end.

Definition stmt_match : comp unit :=
  advance;;
  modify (fun c => set_current_expr_enum_type c None);;
  match_reg ← alloc_temp;
  expression' match_reg;;
  e ← gets current_expr_enum_type;
  expect TokenKind.LBrace E_EXPECTED_LBRACE_8;;
  a ← loop rounds (fun a =>
        k ← peek_kind;
        if keq k TokenKind.RBrace || keq k TokenKind.Eof then mret (a, false)
        else if 16 <=? len (arm_jmp_ends a) then fail E_MAX_MATCH_ARMS_EXCEEDED
        else arm match_reg a)
      (mkArms [] false false false (replicate (Z.to_nat MAX_ENUM_VARIANTS) false) e);
  expect TokenKind.RBrace E_UNCLOSED_BRACE;;
  check_exhaustive a;;
  patch_all (arm_jmp_ends a);;
  free_temp match_reg;;
  skip TokenKind.Semi.

(** * Functions *)

(** The type of a parameter: its fixed-point scale, if it has one. *)
Definition param_type : comp (option Z) :=
  colon ← match_token TokenKind.Colon;
  if negb colon then mret None
  else
    t_tok ← advance;
    if negb (keq (kind t_tok) TokenKind.Fixed) then mret None
    else
      lt ← match_token TokenKind.Lt;
      if negb lt then mret None
      else
        n_tok ← advance;
        skip TokenKind.Gt;;
        mret match kind n_tok with
             | TokenKind.Number n => if (1 <=? n) && (n <=? 31) then Some n else None
             | _ => None
             end.

Definition fn_params : comp (list (list Z * option Z)) :=
  loop rounds (fun ps =>
    k ← peek_kind;
    if keq k TokenKind.RParen || keq k TokenKind.Eof then mret (ps, false)
    else
      p_tok ← advance;
      if negb (keq (kind p_tok) TokenKind.VarIdent) then fail E_EXPECTED_PARAM_VAR
      else
        p_name ← text p_tok;
        if 4 <=? len ps then fail E_MAX_PARAMS_EXCEEDED
        else
          scale ← param_type;
          again ← comma;
          mret (ps ++ [(take 16 p_name, scale)], again)) [].

(** [self.functions[fn_idx] = f(self.functions[fn_idx])]. *)
Definition update_fn (fn_idx : Z) (f : FnMeta -> FnMeta) : comp unit :=
  modify (fun c => put_functions c (alter f (Z.to_nat fn_idx) (functions (names c)))).

Definition clause_wcet (fn_idx : Z) : comp unit :=
  expect TokenKind.LParen E_CONTRACT_SYNTAX;;
  t ← advance;
  wcet_ns ← match kind t with
            | TokenKind.TimeLiteral ns => mret ns
            | TokenKind.Number n => if 0 <=? n then mret n else fail E_EXPECTED_TIME_LITERAL_2
            | _ => fail E_EXPECTED_TIME_LITERAL_2
            end;
  expect TokenKind.RParen E_UNCLOSED_PAREN_3;;
  update_fn fn_idx (fun f => set_declared_wcet_ns f (Some wcet_ns)).

Definition clause_requires : comp unit :=
  expect TokenKind.LParen E_CONTRACT_SYNTAX_2;;
  cond_reg ← alloc_temp;
  expression' cond_reg;;
  expect TokenKind.RParen E_UNCLOSED_PAREN_4;;
  emit PX64_OP_ASSERT cond_reg 0 0;;
  free_temp cond_reg.

(** The positions of the condition are kept, for the first four clauses. *)
Definition clause_ensures (fn_idx : Z) : comp unit :=
  expect TokenKind.LParen E_CONTRACT_SYNTAX_3;;
  start_tok ← gets current;
  depth ← skip_group TokenKind.LParen TokenKind.RParen;
  if 0 <? depth then fail E_UNCLOSED_PAREN_5
  else
    end_tok ← gets (fun c => current c - 1);
    update_fn fn_idx (fun f =>
      if len (ensures_tokens f) <? 4
      then set_ensures_tokens f (ensures_tokens f ++ [(start_tok, end_tok)]) else f).

Definition fn_clauses (fn_idx : Z) : comp unit :=
  loop rounds (fun _ =>
    k ← peek_kind;
    match k with
    | TokenKind.AtWcet => advance;; clause_wcet fn_idx;; mret (tt, true)
    | TokenKind.AtRequires => advance;; clause_requires;; mret (tt, true)
    | TokenKind.AtEnsures => advance;; clause_ensures fn_idx;; mret (tt, true)
    | _ => mret (tt, false)
    end) tt.

(** Compiles the conditions of the [@ensures] clauses. *)
Fixpoint assert_all (l : list (Z * Z)) : comp unit :=
  match l with [] => mret tt | (start_tok, _) :: l => assert_at start_tok;; assert_all l end.

Definition emit_ensures_checks (fn_idx : Z) : comp unit :=
  l ← gets (fun c => functions (names c));
  f ← lift (idx l fn_idx);
  saved_current ← gets current;
  assert_all (ensures_tokens f);;
  modify (fun c => set_current c saved_current).

(** The estimate of the execution time of a body of [n] bytes, and the check of
    the declared time. *)
Definition fn_wcet (fn_idx n : Z) : comp unit :=
  let estimated := Z.max (Z.min (n / 4 * 3) (2 ^ 64 - 1)) 10 in
  update_fn fn_idx (fun f => set_estimated_wcet_ns f estimated);;
  l ← gets (fun c => functions (names c));
  f ← lift (idx l fn_idx);
  items ← gets (fun c => wcet_items (wcet c));
  when (len items <? 16)
    (modify (fun c => put_wcet_items c (items ++ [mkWcet (fn_name f) (declared_wcet_ns f) estimated])));;
  if (if declared_wcet_ns f is Some d then d <? estimated else false) then fail E_WCET_CONTRACT_MISMATCH_2 else mret tt.

Definition fn_body (fn_idx : Z) : comp unit :=
  expect TokenKind.LBrace E_EXPECTED_LBRACE_9;;
  fn_body_start ← code_len;
  block self;;
  fn_body_end ← code_len;
  fn_wcet fn_idx (Z.max 0 (fn_body_end - fn_body_start));;
  emit_ensures_checks fn_idx;;
  emit PX64_OP_RET 0 0 0.

(** The name of a new function. *)
Definition fn_header : comp (list Z) :=
  name_tok ← advance;
  if negb (keq (kind name_tok) TokenKind.Ident) then fail E_EXPECTED_FN_NAME
  else
    name ← text name_tok;
    l ← gets (fun c => functions (names c));
    if 16 <=? len l then fail E_MAX_FNS_EXCEEDED
    else if existsb (fun f => bytes_eqb (fn_name f) name) l then fail E_FN_REDEFINED
    else mret name.

Definition stmt_fn : comp unit :=
  advance;;
  name ← fn_header;
  jmp_skip ← emit_imm16 PX64_OP_JMP 0 0;
  entry_pc ← code_len;
  expect TokenKind.LParen E_EXPECTED_LPAREN_3;;
  ps ← fn_params;
  expect TokenKind.RParen E_EXPECTED_RPAREN;;
  arrow ← match_token TokenKind.Arrow;
  when arrow (advance;; mret tt);;
  fn_idx ← gets (fun c => len (functions (names c)));
  modify (fun c => put_functions c
    (functions (names c) ++ [mkFn (take 32 name) (as_u16 entry_pc) ps [] None 0]));;
  prev_fn ← gets current_fn;
  modify (fun c => set_current_fn c (Some fn_idx));;
  saved_var_count ← gets (fun c => var_count (names c));
  fn_clauses fn_idx;;
  fn_body fn_idx;;
  modify (fun c => set_current_fn (put_var_count c saved_var_count) prev_fn);;
  patch_here jmp_skip.

Definition stmt_return : comp unit :=
  advance;;
  k ← peek_kind;
  when (negb (keq k TokenKind.Semi)) (expression' 0);;
  skip TokenKind.Semi;;
  f ← gets current_fn;
  when_some f emit_ensures_checks;;
  emit PX64_OP_RET 0 0 0.

(** * Assignments *)

(** [= e] or [:= e]. *)
Definition expect_assign (d : diag) : comp unit :=
  eq ← match_either TokenKind.ColonEq TokenKind.Eq;
  if eq : bool then mret tt else fail d.

Definition assign_field : comp unit :=
  var_tok ← advance;
  skip TokenKind.Dot;;
  field_tok ← advance;
  if negb (keq (kind field_tok) TokenKind.Ident) then fail E_EXPECTED_FIELD_NAME_2
  else
    var_name ← text var_tok;
    field_name ← text field_tok;
    '(inst_id, field_offset) ← lookup_struct_field var_name field_name;
    expect_assign E_EXPECTED_COLON_EQ;;
    val_reg ← alloc_temp;
    expression' val_reg;;
    skip TokenKind.Semi;;
    emit PX64_OP_STRUCT_STORE inst_id field_offset val_reg;;
    free_temp val_reg.

Definition assign_element : comp unit :=
  ident ← advance;
  arr_id ← lookup_array ident;
  skip TokenKind.LBracket;;
  idx_reg ← alloc_temp;
  expression' idx_reg;;
  skip TokenKind.RBracket;;
  expect_assign E_EXPECTED_COLON_EQ_2;;
  val_reg ← alloc_temp;
  expression' val_reg;;
  skip TokenKind.Semi;;
  emit PX64_OP_ARR_STORE arr_id idx_reg val_reg;;
  free_temp val_reg;;
  free_temp idx_reg.

(** The enum type of the last expression becomes the variable's. *)
Definition set_var_enum (ident : Token) : comp unit :=
  i ← gets (get_var_index ident);
  e ← gets current_expr_enum_type;
  when_some i (fun i => update_var i (fun v => set_v_enum v e)).

(** [$x += e] and [$x -= e] of a variable in a spill slot. *)
Definition spilled_update (ident : Token) (slot op : Z) (d : diag) : comp unit :=
  check_var_mutation ident;;
  temp_lhs ← alloc_temp;
  emit PX64_OP_SPILL_LOAD temp_lhs slot 0;;
  temp_rhs ← alloc_temp;
  expression' temp_rhs;;
  emit op temp_lhs temp_lhs temp_rhs;;
  emit PX64_OP_SPILL_STORE slot temp_lhs 0;;
  free_temp temp_rhs;;
  free_temp temp_lhs;;
  expect TokenKind.Semi d.

Definition spilled_assign (ident : Token) (slot : Z) : comp unit :=
  check_var_mutation ident;;
  modify (fun c => set_current_expr_enum_type c None);;
  temp_val ← alloc_temp;
  expression' temp_val;;
  emit PX64_OP_SPILL_STORE slot temp_val 0;;
  free_temp temp_val;;
  set_var_enum ident;;
  expect TokenKind.Semi E_MISSING_SEMICOLON_2.

(** An assignment to a spilled variable; [false] when the statement is none. *)
Definition assign_spilled (ident : Token) (slot : Z) : comp bool :=
  eq ← match_either TokenKind.ColonEq TokenKind.Eq;
  if eq : bool then spilled_assign ident slot;; mret true
  else
    plus ← match_token TokenKind.PlusEq;
    if plus : bool then spilled_update ident slot PX64_OP_ADD E_MISSING_SEMICOLON_3;; mret true
    else
      minus ← match_token TokenKind.MinusEq;
      if minus : bool then spilled_update ident slot PX64_OP_SUB E_MISSING_SEMICOLON_4;; mret true
      else mret false.

Definition reg_assign (ident : Token) (var_reg : Z) : comp unit :=
  check_var_mutation ident;;
  hw_move ← check_hw_assign_pre var_reg;
  modify (fun c => set_current_expr_enum_type c None);;
  expression' var_reg;;
  apply_hw_assign_post var_reg ident hw_move;;
  set_var_enum ident;;
  expect TokenKind.Semi E_MISSING_SEMICOLON_2.

(** [$x += e] and [$x -= e]: small literals have an instruction of their own. *)
Definition reg_update (ident : Token) (var_reg op opi : Z) (d : diag) : comp unit :=
  check_var_mutation ident;;
  k ← peek_kind;
  match (match k with
         | TokenKind.Number n => if (0 <=? n) && (n <=? 255) then Some n else None
         | _ => None
         end) with
  | Some n => advance;; emit opi var_reg var_reg n
  | None =>
    tmp_reg ← alloc_temp;
    expression' tmp_reg;;
    emit op var_reg var_reg tmp_reg;;
    free_temp tmp_reg
  end;;
  expect TokenKind.Semi d.

Definition assign_reg (ident : Token) : comp unit :=
  var_reg ← resolve_var ident;
  eq ← match_either TokenKind.ColonEq TokenKind.Eq;
  if eq : bool then reg_assign ident var_reg
  else
    plus ← match_token TokenKind.PlusEq;
    if plus : bool then reg_update ident var_reg PX64_OP_ADD PX64_OP_ADDI E_MISSING_SEMICOLON_3
    else
      minus ← match_token TokenKind.MinusEq;
      if minus : bool then reg_update ident var_reg PX64_OP_SUB PX64_OP_SUBI E_MISSING_SEMICOLON_4
      else
        modify (fun c => set_current c (current c - 1));;
        expression_statement self.

Definition stmt_var : comp unit :=
  next_tok ← peek_ahead 1;
  if keq (kind next_tok) TokenKind.Dot then assign_field
  else if keq (kind next_tok) TokenKind.LBracket then assign_element
  else
    ident ← advance;
    spilled ← is_spilled_var ident;
    done ← match spilled with Some slot => assign_spilled ident slot | None => mret false end;
    if done : bool then mret tt else assign_reg ident.

(** * Statements *)

Definition statement : comp unit :=
  k ← peek_kind;
  match k with
  | TokenKind.Semi => advance;; mret tt
  | TokenKind.AtImport => stmt_import
  | TokenKind.AtTest => stmt_test
  | TokenKind.AtContract => stmt_contract
  | TokenKind.AtPoolSize => stmt_pool_size
  | TokenKind.AtPipeline | TokenKind.Pipeline => stmt_pipeline
  | TokenKind.AtOnVblank | TokenKind.On => stmt_on
  | TokenKind.AtWithin | TokenKind.Within => stmt_within
  | TokenKind.AtWhile | TokenKind.While => stmt_while
  | TokenKind.For | TokenKind.AtFor => stmt_for
  | TokenKind.Let => stmt_let
  | TokenKind.AtAssert => stmt_assert
  | TokenKind.If => stmt_if
  | TokenKind.Match => stmt_match
  | TokenKind.Fn => stmt_fn
  | TokenKind.Return => stmt_return
  | TokenKind.Struct => advance;; declare_struct_def
  | TokenKind.Enum => advance;; declare_enum_def
  | TokenKind.Const => advance;; declare_const_table
  | TokenKind.VarIdent | TokenKind.HardwareIdent => stmt_var
  | _ => expression_statement self
  end.

End Stmt.

(** * The whole compiler *)

Section Compile.
Context `{inp : Input}.

(** The recursion: [n] bounds the depth of the calls. *)
Fixpoint tie (n : nat) : calls :=
  match n with
  | O => mkCalls (fun _ _ => Err OutOfFuel) (fun _ _ => Err OutOfFuel) (fun _ _ => Err OutOfFuel)
           (fun _ => Err OutOfFuel)
  | S n =>
    let self := tie n in
    mkCalls (expression self) (ternary self) (primary self) (statement self)
  end.

(** The first handle that is still captured. *)
Definition unconsumed_handle (c : Compiler) : option CompileError :=
  match List.find is_captured (handle_states c) with
  | Some (Typestate.Captured l k _) =>
    let d := E_LINEAR_UNCONSUMED_HANDLE in
    Some (mkCompileError (d_code d) (d_message d) l k 0 TokenKind.HardwareIdent 2 (d_expected d)
            (d_stage d) (d_suggestion d))
  | _ => None
  end.

Definition check_consumed : comp unit := fun c =>
  match unconsumed_handle c with Some e => Err (Diagnostic e) | None => Ok (tt, c) end.

Definition script_wcet : comp unit :=
  n ← code_len;
  let total_calc_wcet := Z.min (n / 4 * 3) (2 ^ 64 - 1) in
  modify (fun c => put_total_synthesized_wcet_ns c total_calc_wcet);;
  decl ← gets (fun c => declared_script_wcet_ns (wcet c));
  if (if decl is Some d then d <? total_calc_wcet else false) then fail E_WCET_CONTRACT_MISMATCH else mret tt.

(** [Compiler::compile]. *)
Definition compile (fuel : nat) : comp Z :=
  until TokenKind.Eof (statement (tie fuel);; mret true);;
  check_consumed;;
  emit PX64_OP_HALT 0 0 0;;
  script_wcet;;
  code_len.

End Compile.
