(* ===== verification/CompLogic.v ===== *)
(** A program logic for the compiler's monad: weakest preconditions, the
    invariant of the compiler's state, what an operation may do to the state it
    is given, and the rules that the proofs of CompTotal.v apply. *)

From S2P Require Import Prelude RustStd Isa Token Error CompErrors Compiler CompDecl.
Local Open Scope Z_scope.

(** * Masks of scratch registers *)

Definition subset (m m' : Z) : Prop :=
  forall i, 0 <= i < 8 -> Z.testbit m i = true -> Z.testbit m' i = true.

#[export] Instance subset_preorder : PreOrder subset.
Proof. split; [by intros m i | intros a b c H1 H2 i Hi Ha; auto]. Qed.

Definition clear (m i : Z) : Z := Z.b2z (negb (Z.testbit m i)).

(** The number of scratch registers that are free. *)
Definition free (m : Z) : Z :=
  clear m 0 + clear m 1 + clear m 2 + clear m 3 + clear m 4 + clear m 5 + clear m 6 + clear m 7.

Lemma clear_range m i : 0 <= clear m i <= 1.
Proof. unfold clear. by destruct (Z.testbit m i). Qed.

Lemma free_range m : 0 <= free m <= 8.
Proof.
  unfold free. pose proof (clear_range m 0). pose proof (clear_range m 1).
  pose proof (clear_range m 2). pose proof (clear_range m 3). pose proof (clear_range m 4).
  pose proof (clear_range m 5). pose proof (clear_range m 6). pose proof (clear_range m 7). lia.
Qed.

Lemma clear_subset m m' i : subset m m' -> 0 <= i < 8 -> clear m' i <= clear m i.
Proof.
  intros H Hi. specialize (H i Hi). unfold clear.
  destruct (Z.testbit m i); [by rewrite H | by destruct (Z.testbit m' i)].
Qed.

Lemma free_subset m m' : subset m m' -> free m' <= free m.
Proof.
  intros H. unfold free.
  pose proof (clear_subset m m' 0 H). pose proof (clear_subset m m' 1 H).
  pose proof (clear_subset m m' 2 H). pose proof (clear_subset m m' 3 H).
  pose proof (clear_subset m m' 4 H). pose proof (clear_subset m m' 5 H).
  pose proof (clear_subset m m' 6 H). pose proof (clear_subset m m' 7 H). lia.
Qed.

Lemma clear_setbit m i j : 0 <= i -> 0 <= j ->
  clear (Z.setbit m i) j = if j =? i then 0 else clear m j.
Proof.
  intros Hi Hj. unfold clear. destruct (Z.eqb_spec j i) as [->|Hn].
  - by rewrite Z.setbit_eq.
  - by rewrite Z.setbit_neq by lia.
Qed.

Lemma free_setbit m i : 0 <= i < 8 -> Z.testbit m i = false -> free (Z.setbit m i) = free m - 1.
Proof.
  intros Hi Hm. unfold free. rewrite !clear_setbit by lia.
  assert (Hc : clear m i = 1) by (unfold clear; by rewrite Hm).
  assert (Hs : i = 0 \/ i = 1 \/ i = 2 \/ i = 3 \/ i = 4 \/ i = 5 \/ i = 6 \/ i = 7) by lia.
  destruct Hs as [->|[->|[->|[->|[->|[->|[->| ->]]]]]]]; simpl; lia.
Qed.

(** [rs] are registers taken from those that [base] leaves free, and all are in
    use in [used]. *)
Record owned (base : Z) (rs : list Z) (used : Z) : Prop := mkOwned {
  ow_nodup : NoDup rs;
  ow_free : forall r, r ∈ rs -> 8 <= r <= 15 /\ Z.testbit base (15 - r) = false;
  ow_used : forall r, r ∈ rs -> Z.testbit used (15 - r) = true;
  ow_base : subset base used;
}.

Lemma owned_nil base used : owned base [] used <-> subset base used.
Proof. split; [by intros [] | intros H; constructor; [constructor|set_solver..|done]]. Qed.

Lemma owned_subset base rs used used' : owned base rs used -> subset used used' -> owned base rs used'.
Proof.
  intros [Hn Hf Hu Hb] Hs. constructor; [done|done| |by etransitivity].
  intros r Hr. apply Hs; [|by apply Hu]. destruct (Hf r Hr). lia.
Qed.

Lemma owned_alloc base rs used i : owned base rs used -> 0 <= i < 8 -> Z.testbit used i = false ->
  owned base ((15 - i) :: rs) (Z.setbit used i).
Proof.
  intros [Hn Hf Hu Hb] Hi Hfree.
  assert (Hbase : Z.testbit base i = false).
  { destruct (Z.testbit base i) eqn:E; [|done]. by rewrite (Hb i Hi E) in Hfree. }
  constructor.
  - constructor; [|done]. intros Hr. specialize (Hu _ Hr).
    replace (15 - (15 - i)) with i in Hu by lia. congruence.
  - intros r [->|Hr]%elem_of_cons; [|auto]. split; [lia|].
    by replace (15 - (15 - i)) with i by lia.
  - intros r Hr%elem_of_cons. destruct (decide (r = 15 - i)) as [->|Hne].
    + replace (15 - (15 - i)) with i by lia. apply Z.setbit_eq. lia.
    + destruct Hr as [?|Hr]; [done|]. destruct (Hf r Hr). rewrite Z.setbit_neq by lia. auto.
  - intros j Hj Hbj. destruct (decide (i = j)) as [->|?]; [apply Z.setbit_eq; lia|].
    rewrite Z.setbit_neq by lia. auto.
Qed.

Lemma owned_free base rs used r : owned base rs used -> r ∈ rs ->
  owned base (list_difference rs [r]) (Z.clearbit used (15 - r)).
Proof.
  intros [Hn Hf Hu Hb] Hr. destruct (Hf r Hr) as [Hr8 Hrb]. constructor.
  - by apply NoDup_list_difference.
  - intros x [Hx _]%list_elem_of_difference. auto.
  - intros x [Hx Hne]%list_elem_of_difference. destruct (Hf x Hx).
    assert (x <> r) by (intros ->; apply Hne; set_solver).
    rewrite Z.clearbit_neq by lia. auto.
  - intros j Hj Hbj. rewrite Z.clearbit_neq; [auto|]. intros <-. congruence.
Qed.

Lemma free_owned base rs used : owned base rs used -> free used <= free base - len rs.
Proof.
  revert base. induction rs as [|r rs IH]; intros base [Hn Hf Hu Hb].
  { rewrite len_nil. apply free_subset in Hb. lia. }
  apply NoDup_cons in Hn as [Hr Hn]. destruct (Hf r) as [Hr8 Hrb]; [set_solver|].
  specialize (IH (Z.setbit base (15 - r))).
  rewrite free_setbit in IH by (lia || done). rewrite len_cons.
  enough (free used <= free base - 1 - len rs) by lia. apply IH. constructor; [done|..].
  - intros x Hx. destruct (Hf x) as [Hx8 Hxb]; [set_solver|]. split; [done|].
    rewrite Z.setbit_neq; [done|lia|]. intros E. apply Hr. by replace r with x by lia.
  - intros x Hx. apply Hu. set_solver.
  - intros j Hj. destruct (decide (15 - r = j)) as [<-|?].
    + intros _. apply Hu. set_solver.
    + rewrite Z.setbit_neq by lia. by apply Hb.
Qed.

(** * The invariant *)

Definition tok_ok `{Input} (t : Token) : Prop :=
  0 <= start t /\ 0 <= tlen t /\ start t + tlen t <= len src.

(** The program has a [@pool_size] pragma. *)
Definition pool_pragma `{Input} : Prop := exists t, t ∈ tokens /\ kind t = TokenKind.AtPoolSize.

Definition input_ok `{Input} : Prop := bytes_ok src /\ Forall tok_ok tokens.

Definition opt_below (o : option Z) (n : Z) : Prop := forall e, o = Some e -> 0 <= e < n.

Definition var_ok (n : Z) (v : var_slot) : Prop :=
  in_u8 (v_reg v) /\ in_u8 (v_spill_slot v) /\ opt_below (v_enum v) n.

Definition array_ok (a : ArrayMeta) : Prop := in_u8 (a_id a).

Definition fn_ok `{Input} (f : FnMeta) : Prop :=
  len (params f) <= 4 /\ Forall (fun p : Z * Z => 0 <= p.1 <= len tokens) (ensures_tokens f).

Definition def_ok (d : StructDefMeta) : Prop :=
  len (sd_fields d) <= 8 /\ Forall (fun f => in_u8 (f_offset f)) (sd_fields d).

Definition inst_ok (n : Z) (i : StructInstMeta) : Prop :=
  0 <= struct_def_idx i < n /\ in_u8 (inst_id i).

Definition view_ok (v : ViewMeta) : Prop :=
  in_u8 (vw_arr_id v) /\ in_u8 (base_reg v).

Record names_ok `{Input} (n : Names) : Prop := {
  nm_vars : length (vars n) = 48%nat /\ Forall (var_ok (len (enums n))) (vars n);
  nm_count : 0 <= var_count n <= 48 /\ 0 <= spill_count n <= 32;
  nm_arrays : len (arrays n) <= 8 /\ forall i a, getZ (arrays n) i = Some a -> a_id a = i;
  nm_fns : Forall fn_ok (functions n);
  nm_defs : Forall def_ok (struct_defs n);
  nm_insts : Forall (inst_ok (len (struct_defs n))) (struct_insts n);
  nm_tables : Forall (fun t => in_u8 (tbl_id t)) (const_tables n);
  nm_views : Forall view_ok (views n);
  nm_enums : Forall (fun d => len (variants d) <= 16) (enums n);
}.

Record out_ok (o : Out) : Prop := {
  ok_code : bytes_ok (code o) /\ len (code o) mod 4 = 0 /\ len (code o) <= 4096;
  ok_str : bytes_ok (str_pool o) /\ len (str_pool o) <= 512;
  ok_pool : len (const_pool o) <= 64;
}.

Record Inv `{Input} (c : Compiler) : Prop := {
  inv_current : 0 <= current c <= len tokens;
  inv_out : out_ok (out c);
  inv_names : names_ok (names c);
  inv_enum : opt_below (current_expr_enum_type c) (len (enums (names c)));
  inv_fn : opt_below (current_fn c) (len (functions (names c)));
  inv_max : max_arrays (limits c) <= 8 \/ pool_pragma;
}.

(** What an operation may do to the state: scratch registers stay in use, the
    cursor moves forward, and declarations are kept. *)
Record ext (c c' : Compiler) : Prop := {
  ext_temps : subset (temp_used c) (temp_used c');
  ext_current : current c <= current c';
  ext_enums : len (enums (names c)) <= len (enums (names c'));
  ext_fns : len (functions (names c)) <= len (functions (names c'));
  ext_fn : current_fn c' = current_fn c;
}.

#[export] Instance ext_preorder : PreOrder ext.
Proof.
  split; [by intros c|]. intros a b c [] []. constructor; try lia; [by etransitivity|congruence].
Qed.

(** The state [c] of an operation that started in [c0]: the scratch registers
    [rs] are taken, the cursor is at [p] or after. *)
Record at_state `{Input} (c0 : Compiler) (rs : list Z) (p : Z) (c : Compiler) : Prop := {
  at_inv : Inv c;
  at_owned : owned (temp_used c0) rs (temp_used c);
  at_current : p <= current c;
  at_enums : len (enums (names c0)) <= len (enums (names c));
  at_fns : len (functions (names c0)) <= len (functions (names c));
  at_fn : current_fn c = current_fn c0;
}.

Section Logic.
Context `{inp : Input}.

Lemma at_start c : Inv c -> at_state c [] (current c) c.
Proof. intros H. constructor; try done. by apply owned_nil. Qed.

Lemma at_ext c0 rs p c c' d : at_state c0 rs p c -> at_state c [] (current c + d) c' -> 
  at_state c0 rs (p + d) c'.
Proof.
  intros [? Ho ? ? ? ?] [? Ho'%owned_nil ? ? ? ?]. constructor; try lia; [done| |congruence].
  by eapply owned_subset.
Qed.

Lemma at_weaken c0 rs p q c : at_state c0 rs p c -> q <= p -> at_state c0 rs q c.
Proof. intros [] ?. constructor; try done; lia. Qed.

(** The measure that bounds the depth of the calls: lexicographically, the free
    scratch registers and the tokens that are left. *)
Definition need (c : Compiler) : Z := free (temp_used c) * (len tokens + 1) + (len tokens - current c).

Lemma need_at c0 rs p c : at_state c0 rs p c ->
  need c <= (free (temp_used c0) - len rs) * (len tokens + 1) + (len tokens - p).
Proof.
  intros [Hi Ho ? ? ? ?]. apply free_owned in Ho. unfold need. pose proof (len_nonneg tokens). nia.
Qed.

Lemma need_step c0 p c : at_state c0 [] p c -> need c + (p - current c0) <= need c0.
Proof.
  intros H%need_at. rewrite len_nil in H. unfold need in *. lia.
Qed.

(** * Weakest preconditions

    Diagnostics are always allowed. A panic is an overflow in a build that
    checks, or an array too many in a program with a [@pool_size] pragma. *)

Definition allowed (p : panic_kind) : Prop :=
  match p with
  | ArithmeticOverflow => oc = true
  | IndexOutOfBounds => pool_pragma
  | SliceOutOfRange => False
  end.

Definition wp {A} (m : comp A) (Q : A -> Compiler -> Prop) (c : Compiler) : Prop :=
  match m c with
  | Ok (a, c') => Q a c'
  | Err (Diagnostic _) => True
  | Err OutOfFuel => False
  | Panic p => allowed p
  end.

Lemma wp_ret {A} (a : A) Q c : Q a c -> wp (mret a) Q c.
Proof. done. Qed.

Lemma wp_bind {A B} (m : comp A) (f : A -> comp B) Q c :
  wp m (fun a c => wp (f a) Q c) c -> wp (m ≫= f) Q c.
Proof. unfold wp, mbind, comp_bind. by destruct (m c) as [[a c']|[]|]. Qed.

Lemma wp_mono {A} (m : comp A) (Q Q' : A -> Compiler -> Prop) c :
  wp m Q c -> (forall a c', Q a c' -> Q' a c') -> wp m Q' c.
Proof. unfold wp. destruct (m c) as [[a c']|[]|]; auto. Qed.

Lemma wp_fail {A} d (Q : A -> Compiler -> Prop) c : wp (fail d) Q c.
Proof. done. Qed.

Lemma wp_gets {A} (f : Compiler -> A) Q c : Q (f c) c -> wp (gets f) Q c.
Proof. done. Qed.

Lemma wp_modify f (Q : unit -> Compiler -> Prop) c : Q tt (f c) -> wp (modify f) Q c.
Proof. done. Qed.

Lemma wp_panic {A} p (Q : A -> Compiler -> Prop) c : allowed p -> wp (panic p) Q c.
Proof. done. Qed.

Lemma wp_peek Q c : Q (token_at (current c)) c -> wp peek Q c.
Proof. done. Qed.

Lemma wp_peek_kind Q c : Q (kind (token_at (current c))) c -> wp peek_kind Q c.
Proof. done. Qed.

Lemma wp_peek_ahead k Q c : Q (token_at (current c + k)) c -> wp (peek_ahead k) Q c.
Proof. done. Qed.

Lemma wp_lift {A} (r : outcome Empty_set A) Q c :
  (forall a, r = Ok a -> Q a c) -> (forall p, r = Panic p -> allowed p) -> wp (lift r) Q c.
Proof. unfold wp, lift. destruct r as [a|[]|p]; auto. Qed.

Lemma wp_try {A} (m : comp A) Q c :
  wp m (fun a c' => Q (Some a) c') c -> Q None c -> wp (try m) Q c.
Proof. unfold wp, try. destruct (m c) as [[a c']|[]|]; auto. Qed.

Lemma wp_if {A} (b : bool) (m k : comp A) Q c :
  (b = true -> wp m Q c) -> (b = false -> wp k Q c) -> wp (if b then m else k) Q c.
Proof. destruct b; auto. Qed.

Lemma wp_when b m Q c : (b = true -> wp m Q c) -> (b = false -> Q tt c) -> wp (when b m) Q c.
Proof. intros H1 H2. destruct b; [by apply H1 | by apply wp_ret, H2]. Qed.

Lemma wp_when_some {A} (o : option A) f Q c :
  (forall a, o = Some a -> wp (f a) Q c) -> (o = None -> Q tt c) -> wp (when_some o f) Q c.
Proof. intros H1 H2. destruct o; [by apply H1 | by apply wp_ret, H2]. Qed.

(** Loops: a decreasing bound on the rounds. *)
Lemma wp_loop {T} (body : T -> comp (T * bool)) (P : T -> Compiler -> Prop) (left : T -> Compiler -> Z)
    (Q : T -> Compiler -> Prop) :
  (forall s c, P s c -> wp (body s) (fun r c' => P r.1 c' /\
     if r.2 then left r.1 c' < left s c else Q r.1 c') c) ->
  forall n s c, P s c -> 0 <= left s c < Z.of_nat n -> (forall s c, P s c -> 0 <= left s c) ->
  wp (loop n body s) Q c.
Proof.
  intros Hbody. induction n as [|n IH]; intros s c HP Hn Hpos; [lia|].
  simpl. apply wp_bind. eapply wp_mono; [by apply Hbody|].
  intros [s' again] c' [HP' H]. simpl in *. destruct again; [|done].
  apply IH; [done| |done]. split; [by eapply Hpos|]. lia.
Qed.

(** * Specifications

    [Spec N m d φ]: with calls of depth less than [N], [m] ends in a state that
    extends the one it started in, [d] tokens further on, with a result that
    satisfies [φ]. *)

Definition Spec (N : Z) {A} (m : comp A) (d : Z) (φ : A -> Prop) : Prop :=
  forall c, Inv c -> need c < N -> wp m (fun a c' => at_state c [] (current c + d) c' /\ φ a) c.

(** The same without calls. *)
Definition Prim {A} (m : comp A) (d : Z) (φ : A -> Prop) : Prop :=
  forall c, Inv c -> wp m (fun a c' => at_state c [] (current c + d) c' /\ φ a) c.

Lemma Prim_Spec N {A} (m : comp A) d φ : Prim m d φ -> Spec N m d φ.
Proof. intros H c Hc _. by apply H. Qed.

Lemma Spec_weaken N N' {A} (m : comp A) d φ : Spec N m d φ -> N' <= N -> Spec N' m d φ.
Proof. intros H HN c Hc Hn. apply H; [done|lia]. Qed.

(** An operation that is verified from the state it starts in. *)
Lemma wp_rebase {A} (m : comp A) d (φ : A -> Prop) c0 rs p c Q : at_state c0 rs p c ->
  wp m (fun a c' => at_state c [] (current c + d) c' /\ φ a) c ->
  (forall a c', at_state c0 rs (p + d) c' -> φ a -> Q a c') -> wp m Q c.
Proof.
  intros Hat Hm HQ. eapply wp_mono; [exact Hm|]. intros a c' [Hat' Ha].
  apply HQ; [|done]. by eapply at_ext.
Qed.

Lemma wp_prim {A} (m : comp A) d φ c0 rs p c Q : Prim m d φ -> at_state c0 rs p c ->
  (forall a c', at_state c0 rs (p + d) c' -> φ a -> Q a c') -> wp m Q c.
Proof.
  intros Hm Hat HQ. eapply wp_mono; [apply Hm, Hat|]. intros a c' [Hat' Ha].
  apply HQ; [|done]. by eapply at_ext.
Qed.

Lemma wp_spec N {A} (m : comp A) d φ c0 rs p c Q : Spec N m d φ -> at_state c0 rs p c ->
  (free (temp_used c0) - len rs) * (len tokens + 1) + (len tokens - p) < N ->
  (forall a c', at_state c0 rs (p + d) c' -> φ a -> Q a c') -> wp m Q c.
Proof.
  intros Hm Hat HN HQ. eapply wp_mono; [apply Hm; [apply Hat|]|].
  - apply need_at in Hat. lia.
  - intros a c' [Hat' Ha]. apply HQ; [|done]. by eapply at_ext.
Qed.

(** * Scratch registers *)

Lemma at_drop c0 rs p c : at_state c0 rs p c -> at_state c0 [] p c.
Proof. intros []. constructor; try done. apply owned_nil. by eapply ow_base. Qed.

Lemma wp_alloc c0 rs p c (Q : Z -> Compiler -> Prop) : at_state c0 rs p c ->
  (forall r c', at_state c0 (r :: rs) p c' -> 8 <= r <= 15 -> Q r c') -> wp alloc_temp Q c.
Proof.
  intros [Hi Ho ? ? ? ?] HQ. unfold alloc_temp. apply wp_bind, wp_gets.
  destruct (List.find _ _) as [i|] eqn:E; [|done].
  apply List.find_some in E as [Hin Hfree]. apply negb_true_iff in Hfree.
  assert (0 <= i < 8) by (simpl in Hin; unfold_leibniz; lia).
  apply wp_bind, wp_modify, wp_ret. apply HQ; [|lia].
  constructor; try done.
  - destruct Hi. by constructor.
  - by apply owned_alloc.
Qed.

Lemma wp_free l1 r l2 c0 p c (Q : unit -> Compiler -> Prop) : at_state c0 (l1 ++ r :: l2) p c ->
  (forall c', at_state c0 (l1 ++ l2) p c' -> Q tt c') -> wp (free_temp r) Q c.
Proof.
  intros [Hi Ho ? ? ? ?] HQ. destruct (ow_free _ _ _ Ho r) as [Hr Hb]; [set_solver|].
  unfold free_temp. replace ((8 <=? r) && (r <=? 15)) with true by lia.
  apply wp_when; [|done]. intros _. apply wp_modify, HQ. constructor; try done.
  - destruct Hi. by constructor.
  - destruct Ho as [Hn Hf Hu Hbase]. constructor.
    + apply NoDup_app in Hn as (H1 & H2 & H3). apply NoDup_cons in H3 as [H3 H4].
      apply NoDup_app. set_solver.
    + set_solver.
    + intros x Hx. simpl. destruct (Hf x) as [? _]; [set_solver|].
      rewrite Z.clearbit_neq; [apply Hu; set_solver|]. intros E.
      assert (x = r) as -> by lia. apply NoDup_app in Hn as (_ & H2 & [H3 _]%NoDup_cons).
      apply elem_of_app in Hx as [Hx|Hx]; [|done]. apply (H2 r Hx). set_solver.
    + intros j Hj Hbj. simpl. rewrite Z.clearbit_neq; [by apply Hbase|]. intros <-. congruence.
Qed.

(** * Tokens *)

Lemma token_at_ok i : input_ok -> tok_ok (token_at i).
Proof.
  intros [_ Ht]. unfold token_at. destruct (getZ tokens i) as [t|] eqn:E; simpl.
  - by eapply Forall_getZ in Ht.
  - pose proof (len_nonneg src). unfold tok_ok. simpl. lia.
Qed.

Lemma token_at_in i : kind (token_at i) <> TokenKind.Eof -> 0 <= i < len tokens.
Proof.
  unfold token_at. destruct (getZ tokens i) eqn:E; [|done]. intros _. by eapply getZ_Some_lt.
Qed.

Lemma set_current_inv c i : Inv c -> 0 <= i <= len tokens -> Inv (set_current c i).
Proof. intros [] ?. by constructor. Qed.

(** [advance], which knows the token it returns. *)
Lemma wp_advance c0 rs p c (Q : Token -> Compiler -> Prop) : at_state c0 rs p c ->
  (forall c', at_state c0 rs p c' ->
     (kind (token_at (current c)) <> TokenKind.Eof -> at_state c0 rs (p + 1) c') ->
     names c' = names c -> limits c' = limits c ->
     Q (token_at (current c)) c') -> wp advance Q c.
Proof.
  intros [Hi Ho Hp ? ? ?] HQ. unfold wp, advance. pose proof (inv_current _ Hi).
  destruct (Z.ltb_spec (current c) (len tokens)).
  - assert (Hi' : Inv (set_current c (current c + 1))) by (apply set_current_inv; [done|lia]).
    apply HQ; [|intros _|done..]; constructor; simpl; try done; lia.
  - apply HQ; [done| |done..]. intros Hk%token_at_in. lia.
Qed.

End Logic.
