(* ===== verification/CompPrim.v ===== *)
(** The specifications of the compiler's basic operations and declarations, in
    the logic of CompLogic.v, and the tactic that runs through an operation. *)

From S2P Require Import Prelude RustStd Isa Token Error CompErrors Compiler CompDecl CompLogic.
Local Open Scope Z_scope.

Create HintDb prim discriminated.
Create HintDb spec discriminated.

(** * Bytes *)

Lemma land_255_u8 z : in_u8 (Z.land z 0xFF).
Proof.
  unfold in_u8. change 0xFF with (Z.ones 8). rewrite Z.land_ones by lia.
  by apply Z.mod_pos_bound.
Qed.

Lemma small_u8 z : 0 <= z <= 255 -> in_u8 z.
Proof. unfold in_u8. lia. Qed.

Ltac u8 :=
  first [ assumption | apply as_u8_range | apply land_255_u8
        | apply small_u8; lia
        | apply small_u8; vm_compute; split; congruence
        | match goal with
          | H : in_u8 (_, _).1 /\ _ |- _ => exact (proj1 H)
          | H : _ /\ in_u8 (_, _).2 |- _ => exact (proj2 H)
          end
        | unfold in_u8 in *; lia ].

#[export] Hint Extern 1 (in_u8 _) => u8 : prim spec.

(** * Running through an operation *)

Ltac at_latest k :=
  match goal with H : at_state ?c0 ?rs ?p ?c |- wp _ _ ?c => k H end.

(** Frees register [r], wherever it is in the list of [H]. *)
Ltac run_free H :=
  match goal with
  | |- wp (free_temp ?r) _ _ =>
    match type of H with
    | at_state _ (r :: ?l) _ _ => eapply (wp_free [] r l); [exact H|]
    | at_state _ (?a :: r :: ?l) _ _ => eapply (wp_free [a] r l); [exact H|]
    | at_state _ (?a :: ?b :: r :: ?l) _ _ => eapply (wp_free [a; b] r l); [exact H|]
    | at_state _ (?a :: ?b :: ?d :: r :: ?l) _ _ => eapply (wp_free [a; b; d] r l); [exact H|]
    end;
    let c := fresh "c" in let H' := fresh "Hat" in
    intros c H'; cbn [app] in H'; clear H; cbv beta
  end.

Ltac need_solve :=
  rewrite ?len_cons, ?len_nil; unfold need in *;
  first [ lia | nia ].

Ltac run_call H :=
  first
    [ eapply wp_prim; [solve [eauto 3 with prim] | exact H |]
    | eapply wp_spec; [solve [eauto 3 with spec] | exact H | need_solve |] ];
  let a := fresh "a" in let c := fresh "c" in let H' := fresh "Hat" in let Hf := fresh "Hf" in
  intros a c H' Hf; clear H; cbv beta in Hf |- *; rewrite ?Z.add_0_r in H'.

(** The call of an operation whose specification is given. *)
Ltac run_prim L :=
  at_latest ltac:(fun H =>
    eapply wp_prim; [apply L; solve [eauto 3 with prim] | exact H |];
    let a := fresh "a" in let c := fresh "c" in let H' := fresh "Hat" in let Hf := fresh "Hf" in
    intros a c H' Hf; clear H; cbv beta in Hf |- *; rewrite ?Z.add_0_r in H').

Ltac not_eof :=
  let E := fresh in
  intros E;
  match goal with
  | H : _ = _ |- _ => rewrite E in H; vm_compute in H; discriminate H
  end.

(** Uses what is known of a token that was consumed. *)
Ltac progressed :=
  match goal with
  | H : at_state ?c0 ?rs ?p ?c, Hi : _ <> TokenKind.Eof -> at_state ?c0 ?rs (?p + 1) ?c |- _ =>
    let H' := fresh "Hat" in
    assert (H' := Hi ltac:(first [assumption | discriminate | not_eof])); clear Hi H; rename H' into H
  end.

Ltac run_advance H :=
  eapply wp_advance; [exact H|];
  let c := fresh "c" in let H' := fresh "Hat" in
  intros c H' ? ? ?; clear H; cbv beta; try progressed.

(** Steps that later files add. *)
Ltac run_special := fail.

Ltac run1 :=
  try progressed;
  first [run_special | lazymatch goal with
  | |- wp (mret _) _ _ => apply wp_ret; cbv beta
  | |- wp (fail _) _ _ => exact I
  | |- wp (_ ≫= _) _ _ => apply wp_bind
  | |- wp (gets _) _ _ => apply wp_gets; cbv beta
  | |- wp peek _ _ => apply wp_peek; cbv beta
  | |- wp peek_kind _ _ => apply wp_peek_kind; cbv beta
  | |- wp (peek_ahead _) _ _ => apply wp_peek_ahead; cbv beta
  | |- wp (when _ _) _ _ => apply wp_when; intros; cbv beta
  | |- wp (when_some _ _) _ _ => apply wp_when_some; intros; cbv beta
  | |- wp (if ?b then _ else _) _ _ => destruct b eqn:?
  | |- wp (match ?x with _ => _ end) _ _ => destruct x eqn:?
  | |- wp (let '(_, _) := ?x in _) _ _ => destruct x eqn:?
  | |- wp (try _) _ _ => apply wp_try; cbv beta
  | |- wp alloc_temp _ _ =>
    at_latest ltac:(fun H => eapply wp_alloc; [exact H|];
      let r := fresh "r" in let c := fresh "c" in let H' := fresh "Hat" in
      intros r c H' ?; clear H; cbv beta)
  | |- wp (free_temp _) _ _ => at_latest run_free
  | |- wp advance _ _ => at_latest run_advance
  | |- wp _ _ _ => at_latest run_call
  end].

(** The end of an operation. *)
Ltac at_weak :=
  first [ eapply at_weaken; [eassumption | lia]
        | eapply at_weaken; [eapply at_drop; eassumption | lia] ].

Ltac at_less :=
  match goal with
  | H : at_state _ _ _ ?c |- _ < current ?c => pose proof (at_current _ _ _ _ H); lia
  end.

Ltac finish :=
  lazymatch goal with
  | |- at_state _ _ _ ?c /\ (_ = true -> _ < current ?c) =>
    split; [at_weak | intros; first [discriminate | at_less | idtac]]
  | |- (at_state _ _ _ _ /\ _) /\ _ =>
    split; [split; [at_weak|] | simpl; intros; first [discriminate | at_less | idtac]]
  | |- at_state _ _ _ _ /\ _ =>
    split; [at_weak|]
  end; try done; try u8;
  try match goal with H : forall v, Some ?x = Some v -> _ |- _ => exact (H _ eq_refl) end.

Ltac run := repeat run1; try finish.

Ltac start_prim :=
  let c := fresh "c" in let Hc := fresh "Hc" in
  intros c Hc; pose proof (at_start c Hc).
Ltac start_spec :=
  let c := fresh "c" in let Hc := fresh "Hc" in let Hn := fresh "Hn" in
  intros c Hc Hn; pose proof (at_start c Hc); pose proof (inv_current c Hc);
  pose proof (free_range (temp_used c)).

Section Prim.
Context `{inp : Input} (Hin : input_ok).

(** * Tokens *)

Lemma wp_match_token k c0 rs p c (Q : bool -> Compiler -> Prop) : k <> TokenKind.Eof ->
  at_state c0 rs p c ->
  (forall c', at_state c0 rs (p + 1) c' -> kind (token_at (current c)) = k -> Q true c') ->
  (kind (token_at (current c)) <> k -> Q false c) -> wp (match_token k) Q c.
Proof.
  intros Hk Hat H1 H2. unfold match_token. apply wp_bind, wp_peek_kind. unfold keq.
  case_bool_decide as E.
  - apply wp_bind. eapply wp_advance; [done|]. intros c' H H' _ _. apply wp_ret.
    apply H1; [apply H'|]; congruence.
  - by apply wp_ret, H2.
Qed.

Lemma match_token_prim k : Prim (match_token k) 0 (fun _ => True).
Proof.
  start_prim. unfold match_token. run.
Qed.

Lemma wp_text tok (Q : list Z -> Compiler -> Prop) c : tok_ok tok ->
  (forall s, bytes_ok s -> Q s c) -> wp (text tok) Q c.
Proof.
  intros (H1 & H2 & H3) HQ. unfold text. apply wp_lift.
  - intros s (_ & ->)%slice_Ok. apply HQ, Forall_sub, Hin.
  - intros q. rewrite slice_in_range by lia. done.
Qed.

Lemma text_prim tok : tok_ok tok -> Prim (text tok) 0 bytes_ok.
Proof.
  intros Ht. start_prim. apply wp_text; [done|]. intros s Hs. finish.
Qed.

Lemma expect_prim k d : k <> TokenKind.Eof -> Prim (expect k d) 1 (fun _ => True).
Proof.
  intros Hk. start_prim. unfold expect. apply wp_bind.
  at_latest ltac:(fun H => eapply (wp_match_token _ _ _ _ _ _ Hk H)); intros; run.
Qed.

Lemma comma_prim : Prim comma 0 (fun _ => True).
Proof. apply match_token_prim. Qed.

Lemma match_either_prim a b : Prim (match_either a b) 0 (fun _ => True).
Proof.
  start_prim. unfold match_either. apply wp_bind.
  at_latest ltac:(fun H => eapply wp_prim; [apply match_token_prim|exact H|]).
  intros x c1 H1 _. run. at_latest ltac:(fun H => eapply wp_prim; [apply match_token_prim|exact H|]).
  intros. rewrite Z.add_0_r in *. finish.
Qed.

(** * Emission *)

Lemma set_code_inv c l : Inv c -> bytes_ok l -> len l mod 4 = 0 -> len l <= 4096 -> Inv (put_code c l).
Proof. intros [? [] ? ? ? ?] ???. by constructor. Qed.

(** An update of the state that leaves the cursor and the registers alone. *)
Lemma at_update c0 rs p c c' : at_state c0 rs p c -> Inv c' -> temp_used c' = temp_used c ->
  current c' = current c -> len (enums (names c)) <= len (enums (names c')) ->
  len (functions (names c)) <= len (functions (names c')) -> current_fn c' = current_fn c ->
  at_state c0 rs p c'.
Proof. intros [] ? Ht Hp ? ? Hf. constructor; try done; [by rewrite Ht|lia|lia|lia|congruence]. Qed.

Lemma Prim_modify f :
  (forall c, Inv c -> Inv (f c) /\ temp_used (f c) = temp_used c /\ current (f c) = current c /\
     len (enums (names c)) <= len (enums (names (f c))) /\
     len (functions (names c)) <= len (functions (names (f c))) /\ current_fn (f c) = current_fn c) ->
  Prim (modify f) 0 (fun _ => True).
Proof.
  intros Hf c Hc. destruct (Hf c Hc) as (? & ? & ? & ? & ? & ?). apply wp_modify.
  split; [|done]. rewrite Z.add_0_r. eapply at_update; [by apply at_start|done..].
Qed.

Lemma emit_inst_prim op rd rs1 rs2 : in_u8 op -> in_u8 rd -> in_u8 rs1 -> in_u8 rs2 ->
  Prim (emit_inst op rd rs1 rs2) 0 (fun _ => True).
Proof.
  intros. start_prim. unfold emit_inst. apply wp_bind, wp_gets. run1; [run|]. apply wp_bind, wp_modify, wp_ret.
  destruct (inv_out _ Hc) as [(Hb & Hm & Hl) _ _]. split; [|done]. rewrite Z.add_0_r.
  apply Z.ltb_ge in Heqb. unfold MAX_BYTECODE_SIZE in Heqb.
  eapply at_update; [done|..]; try done. apply set_code_inv; [done|..].
  - apply Forall_app. split; [done|]. do 4 (apply Forall_cons_2; [done|]). apply Forall_nil_2.
  - rewrite len_app. change (len [op; rd; rs1; rs2]) with 4. rewrite Z.add_mod, Hm by lia. done.
  - rewrite len_app. change (len [op; rd; rs1; rs2]) with 4. lia.
Qed.

Lemma emit_prim op rd rs1 rs2 : in_u8 op -> in_u8 rd -> in_u8 rs1 -> in_u8 rs2 ->
  Prim (emit op rd rs1 rs2) 0 (fun _ => True).
Proof.
  intros. start_prim. unfold emit. apply wp_bind. at_latest ltac:(fun H =>
    eapply wp_prim; [by apply emit_inst_prim|exact H|]). intros. rewrite Z.add_0_r in *. run.
Qed.

Lemma emit_imm16_prim op rd imm : in_u8 op -> in_u8 rd -> Prim (emit_imm16 op rd imm) 0 (fun _ => True).
Proof. intros. apply emit_inst_prim; u8. Qed.

Lemma setZ_u8 l i v : bytes_ok l -> in_u8 v -> bytes_ok (setZ l i v).
Proof. apply Forall_setZ. Qed.

Lemma patch_imm16_prim pos imm : Prim (patch_imm16 pos imm) 0 (fun _ => True).
Proof.
  start_prim. unfold patch_imm16. apply wp_when; intros _; [apply wp_modify | finish].
  destruct (inv_out _ Hc) as [(Hb & Hm & Hl) _ _]. split; [|done]. rewrite Z.add_0_r.
  eapply at_update; [done|..]; try done.
  apply set_code_inv; [done| |by rewrite !len_setZ..].
  apply setZ_u8; [apply setZ_u8|]; [done|u8..].
Qed.

Lemma code_len_prim : Prim code_len 0 (fun _ => True).
Proof. start_prim. unfold code_len. run. Qed.

End Prim.

#[export] Hint Resolve match_token_prim comma_prim expect_prim match_either_prim text_prim emit_inst_prim
  emit_prim emit_imm16_prim patch_imm16_prim code_len_prim token_at_ok : prim.
#[export] Hint Extern 1 (_ <> TokenKind.Eof) => discriminate : prim spec.

Section Prim2.
Context `{inp : Input} (Hin : input_ok).

(** * Loops over the tokens *)

(** The registers that a loop holds may depend on what it has computed. *)
Lemma wp_rounds_regs {T} (body : T -> comp (T * bool)) (rs : T -> list Z)
    (I : T -> Compiler -> Prop) c0 p s c (Q : T -> Compiler -> Prop) :
  at_state c0 (rs s) p c -> I s c ->
  (forall s c1, at_state c0 (rs s) (current c1) c1 -> p <= current c1 -> I s c1 ->
     wp (body s) (fun r c2 => (at_state c0 (rs r.1) p c2 /\ I r.1 c2) /\
       (r.2 = true -> current c1 < current c2)) c1) ->
  (forall s c', at_state c0 (rs s) p c' -> I s c' -> Q s c') ->
  wp (loop rounds body s) Q c.
Proof.
  intros Hat HI Hbody HQ.
  apply (wp_loop body (fun s c => at_state c0 (rs s) p c /\ I s c)
           (fun _ c => len tokens - current c)).
  - intros s1 c1 [Hat1 HI1].
    assert (Hat1' : at_state c0 (rs s1) (current c1) c1) by (destruct Hat1; by constructor).
    eapply wp_mono; [apply Hbody; [done|apply Hat1|done]|].
    intros [s2 again] c2 [[Hat2 HI2] Hlt]. simpl in *. split; [done|].
    destruct again; [specialize (Hlt eq_refl); lia | by apply HQ].
  - done.
  - pose proof (inv_current _ (at_inv _ _ _ _ Hat)). unfold rounds, len in *. lia.
  - intros s1 c1 [Hat1 _]. pose proof (inv_current _ (at_inv _ _ _ _ Hat1)). lia.
Qed.

Lemma wp_rounds {T} (body : T -> comp (T * bool)) (I : T -> Compiler -> Prop) c0 rs p s c
    (Q : T -> Compiler -> Prop) :
  at_state c0 rs p c -> I s c ->
  (forall s c1, at_state c0 rs (current c1) c1 -> p <= current c1 -> I s c1 ->
     wp (body s) (fun r c2 => (at_state c0 rs p c2 /\ I r.1 c2) /\
       (r.2 = true -> current c1 < current c2)) c1) ->
  (forall s c', at_state c0 rs p c' -> I s c' -> Q s c') ->
  wp (loop rounds body s) Q c.
Proof. apply (wp_rounds_regs body (fun _ => rs)). Qed.

Lemma wp_until close body c0 rs p c (Q : unit -> Compiler -> Prop) :
  at_state c0 rs p c ->
  (forall c1, at_state c0 rs (current c1) c1 -> p <= current c1 ->
     kind (token_at (current c1)) <> TokenKind.Eof ->
     wp body (fun again c2 => at_state c0 rs p c2 /\ (again = true -> current c1 < current c2)) c1) ->
  (forall c', at_state c0 rs p c' -> Q tt c') ->
  wp (until close body) Q c.
Proof.
  intros Hat Hbody HQ. unfold until.
  eapply (wp_rounds _ (fun _ _ => True)); [done|done| |intros [] c' ? _; auto].
  intros _ c1 Hat1 Hp _. run1. run1. run1.
  - run1. finish.
  - apply orb_false_iff in Heqb as [_ Hk]. unfold keq in Hk. apply bool_decide_eq_false in Hk.
    apply wp_bind. eapply wp_mono; [by apply Hbody|]. intros again c2 [Hat2 Hlt]. run1. done.
Qed.

Lemma patch_here_prim pos : Prim (patch_here pos) 0 (fun _ => True).
Proof. start_prim. unfold patch_here. run. Qed.

Lemma set_pool_inv c l : Inv c -> len l <= 64 -> Inv (put_const_pool c l).
Proof. intros [? [] ? ? ? ?] ?. by constructor. Qed.

Lemma append_constant c0 rs p c val : at_state c0 rs p c ->
  (MAX_CONST_POOL <=? len (const_pool (out c))) = false ->
  at_state c0 rs p (put_const_pool c (const_pool (out c) ++ [val])).
Proof.
  intros H Hl%Z.leb_gt. unfold MAX_CONST_POOL in Hl. eapply at_update; [done|..]; try done.
  apply set_pool_inv; [apply H|]. rewrite len_app. change (len [val]) with 1. lia.
Qed.

Lemma add_constant_prim val : Prim (add_constant val) 0 (fun _ => True).
Proof.
  start_prim. unfold add_constant. apply wp_bind, wp_gets. run1; [run1; run|].
  run1; [run|]. apply wp_bind, wp_modify, wp_ret. split; [|done]. rewrite Z.add_0_r.
  by apply append_constant.
Qed.

Lemma append_table_constant_prim val : Prim (append_table_constant val) 0 (fun _ => True).
Proof.
  start_prim. unfold append_table_constant. apply wp_bind, wp_gets.
  run1; [run|]. apply wp_bind, wp_modify, wp_ret. split; [|done]. rewrite Z.add_0_r.
  by apply append_constant.
Qed.

Lemma emit_const_prim dst val : in_u8 dst -> Prim (emit_const dst val) 0 (fun _ => True).
Proof.
  intros. start_prim. unfold emit_const. run1; [run|]. apply wp_bind.
  at_latest ltac:(fun H => eapply wp_prim; [apply add_constant_prim|exact H|]).
  intros. rewrite Z.add_0_r in *. run.
Qed.

(** * Variables *)

Lemma by_name_Some {A} (P : A -> Prop) name table a :
  Forall (fun e => P e.2) table -> by_name name table = Some a -> P a.
Proof.
  induction 1 as [|[l b] table Hb _ IH]; simpl; [done|]. case_match; [|done].
  by intros [= <-].
Qed.

Lemma fixed_reg_u8 name r : fixed_reg name = Some r -> in_u8 r.
Proof.
  apply (by_name_Some in_u8). repeat (constructor; [simpl; u8|]). constructor.
Qed.

Lemma find_from_Some {A} p (l : list A) i j x : find_from i p l = Some (j, x) ->
  i <= j < i + len l /\ getZ l (j - i) = Some x /\ p x = true.
Proof.
  revert i. induction l as [|y l IH]; intros i; simpl; [done|]. rewrite len_cons.
  pose proof (len_nonneg l). case_match eqn:Ep.
  - intros [= -> ->]. split; [lia|]. by rewrite Z.sub_diag.
  - intros (H1 & H2 & H3)%IH. split; [lia|]. split; [|done].
    unfold getZ in *. rewrite decide_True in H2 by lia. rewrite decide_True by lia.
    by replace (Z.to_nat (j - i)) with (S (Z.to_nat (j - (i + 1)))) by lia.
Qed.

Lemma find_index_Some {A} p (l : list A) j x : find_index p l = Some (j, x) ->
  0 <= j < len l /\ getZ l j = Some x /\ p x = true.
Proof. intros (H1 & H2 & H3)%find_from_Some. by rewrite Z.sub_0_r in H2. Qed.

Lemma find_index_Forall {A} (P : A -> Prop) p l j x :
  Forall P l -> find_index p l = Some (j, x) -> P x.
Proof. intros Hl (_ & H & _)%find_index_Some. by eapply Forall_getZ in Hl. Qed.

Lemma find_var_ok c name i v : Inv c -> find_var name c = Some (i, v) ->
  var_ok (len (enums (names c))) v.
Proof.
  intros Hc. destruct (inv_names _ Hc) as [[_ Hv] _ _ _ _ _ _ _ _].
  eapply find_index_Forall. by apply Forall_take.
Qed.

Lemma set_vars_inv c l : Inv c -> length l = 48%nat -> Forall (var_ok (len (enums (names c)))) l ->
  Inv (put_vars c l).
Proof. intros [? ? [] ? ? ?] ??. by constructor. Qed.

Lemma update_var_prim i f : (forall n v, var_ok n v -> var_ok n (f v)) ->
  Prim (update_var i f) 0 (fun _ => True).
Proof.
  intros Hf. apply Prim_modify. intros c Hc. destruct (inv_names _ Hc) as [[Hl Hv] _ _ _ _ _ _ _ _].
  split; [|done]. apply set_vars_inv; [done|by rewrite length_alter|].
  apply Forall_alter; [done|]. intros v Hi. apply Hf.
Qed.

Lemma set_counts_inv c n k : Inv c -> 0 <= n <= 48 -> 0 <= k <= 32 ->
  Inv (put_spill_count (put_var_count c n) k).
Proof. intros [? ? [] ? ? ?] ??. by constructor. Qed.

Lemma put_var_count_inv c n : Inv c -> 0 <= n <= 48 -> Inv (put_var_count c n).
Proof. intros [? ? [? []] ? ? ?] ?. by constructor. Qed.

Lemma put_var_count_prim n : 0 <= n <= 48 ->
  Prim (modify (fun c => put_var_count c n)) 0 (fun _ => True).
Proof. intros. apply Prim_modify. intros c Hc. split; [|done]. by apply put_var_count_inv. Qed.

Lemma put_spill_count_prim n : 0 <= n <= 32 ->
  Prim (modify (fun c => put_spill_count c n)) 0 (fun _ => True).
Proof.
  intros. apply Prim_modify. intros c Hc. split; [|done]. destruct Hc as [? ? [? []] ? ? ?].
  by constructor.
Qed.

End Prim2.

#[export] Hint Resolve patch_here_prim add_constant_prim append_table_constant_prim emit_const_prim
  put_var_count_prim put_spill_count_prim : prim.
#[export] Hint Extern 4 (Prim (update_var _ _) _ _) =>
  apply update_var_prim; unfold var_ok; simpl; intros ? ? (? & ? & ?);
  split_and!; first [done | u8] : prim.
#[export] Hint Extern 3 (_ <= _ <= _) => lia : prim spec.
#[export] Hint Resolve token_at_ok : spec.
