(* ===== verification/CompDeclSpec.v ===== *)
(** The specifications of the compiler's variables and declarations. *)

From S2P Require Import Prelude RustStd Isa Token Error CompErrors Compiler CompDecl CompLogic CompPrim.
Local Open Scope Z_scope.

(** An assignment to a field that the invariant does not mention. *)
Ltac unmentioned :=
  apply Prim_modify;
  let c := fresh "c" in let Hc := fresh "Hc" in intros c Hc; split; [destruct Hc; by constructor | done].

Section Vars.
Context `{inp : Input} (Hin : input_ok).

Lemma declare_var_prim tok is_mut : Prim (declare_var tok is_mut) 0 in_u8.
Proof.
  start_prim. unfold declare_var. destruct (fixed_reg _) as [r|] eqn:Er.
  { run. by eapply fixed_reg_u8. }
  apply wp_bind, wp_gets. destruct (find_var _ _) as [[i v]|] eqn:Ev.
  { apply find_var_ok in Ev as (Hr & _ & _); [|done]. run. }
  apply wp_bind, wp_gets. destruct (inv_names _ Hc) as [_ [Hn Hs] _ _ _ _ _ _ _].
  unfold MAX_VARS. run1; [run|]. run1. run1. run1.
  - run; try u8.
  - run1. apply wp_gets.
    destruct (inv_names _ (at_inv _ _ _ _ Hat)) as [_ [Hn' Hs'] _ _ _ _ _ _ _].
    run1; [run|]. run.
Qed.

Lemma is_spilled_var_prim tok : Prim (is_spilled_var tok) 0 (fun o => forall s, o = Some s -> in_u8 s).
Proof.
  start_prim. unfold is_spilled_var. apply wp_gets. finish. intros s.
  destruct (find_index _ _) as [[i v]|] eqn:Ev; [|done]. intros [= <-].
  destruct (inv_names _ Hc) as [[_ Hv] _ _ _ _ _ _ _ _].
  pose proof (find_index_Forall _ _ _ _ _ (Forall_take _ _ _ Hv) Ev) as (_ & Hs & _). done.
Qed.

Lemma check_var_mutation_prim tok : tok_ok tok -> Prim (check_var_mutation tok) 0 (fun _ => True).
Proof. intros. start_prim. unfold check_var_mutation. run. Qed.

Lemma find_param_lt name c p x : Inv c -> find_param name c = Some (p, x) -> 0 <= p < 4.
Proof.
  intros Hc. unfold find_param, current_meta.
  destruct (current_fn c) as [f|]; simpl; [|done].
  destruct (getZ _ f) as [m|] eqn:Em; simpl; [|done].
  destruct (inv_names _ Hc) as [_ _ _ Hf _ _ _ _ _].
  pose proof (Forall_getZ _ _ _ _ Hf Em) as [Hl _]. intros (Hp & _ & _)%find_index_Some. lia.
Qed.

Lemma resolve_var_prim tok : tok_ok tok -> Prim (resolve_var tok) 0 in_u8.
Proof.
  intros. start_prim. unfold resolve_var. run1. run1. destruct (fixed_reg _) as [r|] eqn:Er.
  { run. by eapply fixed_reg_u8. }
  pose proof (at_inv _ _ _ _ Hat) as Hc'.
  apply wp_bind, wp_gets. destruct (find_param _ _) as [[q x]|] eqn:Ep.
  { apply find_param_lt in Ep; [|done].
    assert (Hq : q = 0 \/ q = 1 \/ q = 2 \/ q = 3) by lia. apply wp_lift.
    - intros r Hr. finish. destruct Hq as [-> | [-> | [-> | ->]]]; vm_compute in Hr;
        injection Hr as <-; u8.
    - intros k Hk. by destruct Hq as [-> | [-> | [-> | ->]]]. }
  apply wp_bind, wp_gets. destruct (find_var _ _) as [[i v]|] eqn:Ev.
  { apply find_var_ok in Ev as (Hr & _ & _); [|done]. run. }
  apply wp_bind, wp_gets. destruct (inv_names _ Hc') as [_ [Hn Hs] _ _ _ _ _ _ _].
  run1; [run|]. run.
Qed.

Lemma get_var_enum_below tok c e : Inv c -> (i ← get_var_index tok c; v ← getZ (vars (names c)) i; v_enum v)
  = Some e -> 0 <= e < len (enums (names c)).
Proof.
  intros Hc. destruct (get_var_index tok c) as [i|]; simpl; [|done].
  destruct (getZ _ i) as [v|] eqn:Ev; simpl; [|done].
  destruct (inv_names _ Hc) as [[_ Hv] _ _ _ _ _ _ _ _].
  pose proof (Forall_getZ _ _ _ _ Hv Ev) as (_ & _ & He). apply He.
Qed.

Lemma get_var_fixed_scale_prim tok : tok_ok tok -> Prim (get_var_fixed_scale tok) 0 (fun _ => True).
Proof. intros. start_prim. unfold get_var_fixed_scale. run. Qed.

(** Assignments to the fields that the invariant does not mention. *)
Lemma set_scale_prim s : Prim (modify (fun c => set_current_expr_fixed_scale c s)) 0 (fun _ => True).
Proof. unmentioned. Qed.

Lemma set_target_prim s : Prim (modify (fun c => set_target_fixed_scale c s)) 0 (fun _ => True).
Proof. unmentioned. Qed.

Lemma set_enum_none_prim : Prim (modify (fun c => set_current_expr_enum_type c None)) 0 (fun _ => True).
Proof. unmentioned. Qed.

Lemma set_init_types_prim s : Prim (modify (fun c => set_target_fixed_scale
    (set_current_expr_fixed_scale (set_current_expr_enum_type c None) None) s)) 0 (fun _ => True).
Proof. unmentioned. Qed.

Lemma set_handles_prim f : Prim (modify (fun c => set_handle_states c (f c))) 0 (fun _ => True).
Proof. unmentioned. Qed.

Lemma put_limits_prim f : (forall l, max_arrays (f l) = max_arrays l) ->
  Prim (modify (fun c => set_limits c (f (limits c)))) 0 (fun _ => True).
Proof. intros Hf. apply Prim_modify. intros c Hc. split; [|done]. destruct Hc. constructor; try done.
  simpl. by rewrite Hf. Qed.

Lemma set_wcet_prim f : Prim (modify (fun c => set_wcet c (f c))) 0 (fun _ => True).
Proof. unmentioned. Qed.

(** The type of an expression is that of an enum. *)
Lemma at_set_enum c0 rs p c e : at_state c0 rs p c -> opt_below e (len (enums (names c))) ->
  at_state c0 rs p (set_current_expr_enum_type c e).
Proof. intros H He. eapply at_update; [done|..]; try done. destruct (at_inv _ _ _ _ H). by constructor. Qed.

End Vars.

#[export] Hint Resolve declare_var_prim is_spilled_var_prim check_var_mutation_prim resolve_var_prim
  get_var_fixed_scale_prim set_scale_prim set_target_prim set_enum_none_prim set_init_types_prim : prim.
#[export] Hint Extern 2 (Prim (modify (fun c => set_handle_states c _)) _ _) =>
  apply set_handles_prim : prim.

Section Decl.
Context `{inp : Input} (Hin : input_ok).

Lemma neg_prim n : Prim (neg n) 0 (fun _ => True).
Proof.
  start_prim. unfold neg. run1; [|run]. apply wp_panic. by apply andb_true_iff in Heqb as [? _].
Qed.

Lemma wp_idx {A} (l : list A) i x Q c : getZ l i = Some x -> Q x c -> wp (lift (idx l i)) Q c.
Proof.
  intros Hx HQ. apply wp_lift.
  - intros y [= ->]%idx_Ok%(eq_trans (eq_sym Hx)). done.
  - intros k Hk%idx_Panic. apply getZ_Some_lt in Hx. lia.
Qed.

(** * Arrays and views *)

Lemma declare_array_prim tok n : Prim (declare_array tok n) 0 in_u8.
Proof.
  start_prim. unfold declare_array. do 4 (apply wp_bind, wp_gets). run1; [run|]. run1; [run|].
  run1.
  - apply wp_panic. destruct (inv_max _ Hc); [|done]. lia.
  - destruct (inv_names _ Hc) as [Hv ? [Hl Ha] ? ? ? ? ? ?].
    apply wp_bind, wp_modify, wp_bind, wp_modify, wp_ret. split; [|u8]. rewrite Z.add_0_r.
    eapply at_update; [done| |done..]. destruct Hc. constructor; try done. constructor; try done.
    simpl. split; [rewrite len_app; change (len [_]) with 1; lia|].
    intros i a. destruct (decide (i < len (arrays (names c)))).
    + rewrite getZ_app_l by lia. apply Ha.
    + intros Hi. pose proof (getZ_Some_lt _ _ _ Hi) as Hr. rewrite len_app in Hr.
      change (len [_]) with 1 in Hr. assert (i = len (arrays (names c))) as -> by lia.
      unfold getZ in Hi. rewrite decide_True in Hi by lia. unfold len in Hi at 1.
      rewrite Nat2Z.id, lookup_app_r, Nat.sub_diag in Hi by lia. injection Hi as <-. simpl.
      unfold as_u8, wrapU. rewrite Z.mod_small; [done|]. pose proof (len_nonneg (arrays (names c))). lia.
Qed.

Lemma wp_lookup_array tok Q c0 rs p c : tok_ok tok -> at_state c0 rs p c ->
  (forall id, in_u8 id -> is_Some (getZ (arrays (names c)) id) -> Q id c) ->
  wp (lookup_array tok) Q c.
Proof.
  intros (H1 & H2 & H3) Hat HQ. unfold lookup_array. apply wp_bind. unfold text. apply wp_lift.
  - intros s _. apply wp_bind, wp_gets. destruct (find_index _ _) as [[i a]|] eqn:Ea; [|done].
    apply find_index_Some in Ea as (Hi & Ha & _). apply wp_ret.
    destruct (inv_names _ (at_inv _ _ _ _ Hat)) as [_ _ [Hl Hid] _ _ _ _ _ _].
    rewrite (Hid _ _ Ha). apply HQ; [u8|by rewrite Ha].
  - intros q. rewrite slice_in_range by lia. done.
Qed.

Lemma lookup_array_prim tok : tok_ok tok -> Prim (lookup_array tok) 0 in_u8.
Proof.
  intros Ht. start_prim. eapply wp_lookup_array; [done|done|]. intros. finish.
Qed.

Lemma wp_array_len id Q c : is_Some (getZ (arrays (names c)) id) ->
  (forall n, Q n c) -> wp (array_len id) Q c.
Proof.
  intros [a Ha] HQ. unfold array_len. apply wp_bind, wp_gets, wp_bind.
  eapply wp_idx; [done|]. by apply wp_ret.
Qed.

Lemma set_pool_prim name val : pool_pragma -> Prim (modify (set_pool name val)) 0 (fun _ => True).
Proof.
  intros Hp. apply Prim_modify. intros c Hc. unfold set_pool.
  repeat case_match; (split; [destruct Hc; constructor; try done; by right | done]).
Qed.

Lemma put_max_prim n : Prim (modify (fun c => put_max_elements c n)) 0 (fun _ => True).
Proof. unmentioned. Qed.

Lemma declare_pool_size_prim : pool_pragma -> Prim declare_pool_size 0 (fun _ => True).
Proof.
  intros Hp. start_prim. unfold declare_pool_size. run1. run1. run1.
  at_latest ltac:(fun H => eapply wp_until; [exact H| |]).
  - intros c1 H1 Hle Hk. pose proof set_pool_prim. pose proof put_max_prim.
    assert (Ht : tok_ok (token_at (current c1))) by by apply token_at_ok.
    run1. run1. run1. destruct (kind (token_at (current c1))) eqn:E; run.
  - intros. run.
Qed.

End Decl.

#[export] Hint Resolve neg_prim declare_array_prim : prim.

(** [lookup_array] and [array_len] are followed state by state. *)
Ltac run_special ::=
  lazymatch goal with
  | |- wp (lookup_array _) _ _ => at_latest ltac:(fun H =>
      eapply wp_lookup_array; [solve [eauto 2 with prim]|exact H|intros; cbv beta])
  | |- wp (array_len _) _ _ => apply wp_array_len; [assumption|intros; cbv beta]
  end.

Section Decl2.
Context `{inp : Input} (Hin : input_ok).

Lemma put_views_prim l : Forall view_ok l -> Prim (modify (fun c => put_views c l)) 0 (fun _ => True).
Proof.
  intros Hl. apply Prim_modify. intros c Hc. split; [|done]. destruct Hc as [? ? [] ? ? ?].
  by constructor.
Qed.

Lemma declare_view_prim tok arr_id base_reg stride_imm len_imm :
  tok_ok tok -> in_u8 arr_id -> in_u8 base_reg ->
  Prim (declare_view tok arr_id base_reg stride_imm len_imm) 0 (fun _ => True).
Proof.
  intros. start_prim. unfold declare_view. run1. run1. apply wp_bind, wp_gets.
  destruct (inv_names _ (at_inv _ _ _ _ Hat)) as [_ _ _ _ _ _ _ Hv _].
  pose proof put_views_prim as Hput.
  assert (Hm : forall n, view_ok (mkView n arr_id base_reg stride_imm len_imm)) by done.
  run1; [run|]. destruct (find_index _ _) as [[i v]|] eqn:Ei.
  - assert (Hl := Forall_setZ _ _ i _ Hv (Hm (vw_name v))). run.
  - assert (Hl := proj2 (Forall_app _ _ [mkView (take 16 a) arr_id base_reg stride_imm len_imm])
      (conj Hv (Forall_cons_2 _ _ _ (Hm _) (Forall_nil_2 _)))). run.
Qed.

Lemma lookup_view_prim tok : tok_ok tok ->
  Prim (lookup_view tok) 0 (fun o => forall v, o = Some v -> view_ok v).
Proof.
  intros. start_prim. unfold lookup_view. run. intros v.
  destruct (find_index _ _) as [[i v']|] eqn:Ei; simpl; [|done]. intros [= <-].
  destruct (inv_names _ (at_inv _ _ _ _ Hat)) as [_ _ _ _ _ _ _ Hv _].
  by eapply (find_index_Forall _ _ _ _ _ Hv).
Qed.

Lemma lookup_combinator_fn_prim name : Prim (lookup_combinator_fn name) 0
  (fun f => if f is Builtin id then in_u8 id else True).
Proof.
  start_prim. unfold lookup_combinator_fn. run1. run1. run1; [run|].
  destruct (builtin_id name) as [id|] eqn:Eb; [|run]. run.
  revert Eb. apply (by_name_Some in_u8). repeat (constructor; [simpl; u8|]). constructor.
Qed.

Lemma lookup_fn_by_name_prim name : Prim (lookup_fn_by_name name) 0 (fun _ => True).
Proof. start_prim. unfold lookup_fn_by_name. run. Qed.

(** * Structs *)

Lemma struct_field_prim fields : Forall (fun f => in_u8 (f_offset f)) fields ->
  Prim (struct_field fields) 1 (fun l => len l <= 8 /\ Forall (fun f => in_u8 (f_offset f)) l).
Proof.
  intros Hf. start_prim. unfold struct_field. run1. run1. run1; [run|]. run1.
  pose proof (token_at_ok (current c) Hin). run. split.
  - rewrite len_app. change (len [_]) with 1. lia.
  - apply Forall_app. split; [done|]. constructor; [|done]. simpl. u8.
Qed.

Lemma struct_fields_prim : Prim struct_fields 0
  (fun l => len l <= 8 /\ Forall (fun f => in_u8 (f_offset f)) l).
Proof.
  start_prim. unfold struct_fields.
  eapply (wp_rounds _ (fun l _ => len l <= 8 /\ Forall (fun f => in_u8 (f_offset f)) l));
    [exact H|split; [done|constructor]| |].
  - intros l c1 H1 Hle [Hl Hf]. pose proof (struct_field_prim l Hf). run.
  - intros l c' H' Hl. finish.
Qed.

Lemma put_struct_defs_prim d : def_ok d ->
  Prim (modify (fun c => put_struct_defs c (struct_defs (names c) ++ [d]))) 0 (fun _ => True).
Proof.
  intros Hd. apply Prim_modify. intros c Hc. split; [|done].
  destruct Hc as [? ? [? ? ? ? Hds Hi ? ? ?] ? ? ?]. constructor; try done.
  constructor; try done; simpl.
  - apply Forall_app. split; [done|by constructor].
  - eapply Forall_impl; [exact Hi|]. intros i [Hi1 Hi2]. split; [|done].
    rewrite len_app. change (len [d]) with 1. lia.
Qed.

End Decl2.

#[export] Hint Resolve declare_view_prim lookup_view_prim lookup_combinator_fn_prim
  lookup_fn_by_name_prim struct_fields_prim : prim.

Section Decl3.
Context `{inp : Input} (Hin : input_ok).

Lemma declare_struct_def_prim : Prim declare_struct_def 0 (fun _ => True).
Proof.
  start_prim. unfold declare_struct_def. pose proof (token_at_ok (current c) Hin).
  pose proof put_struct_defs_prim as Hput.
  run1. run1. run1; [run|]. run1. run1. run1. run1. run1; [run|]. run1; [run|].
  run1. run1. run1. run1. rename Hf1 into Hfields.
  assert (Hd : def_ok (mkStructDef (take 16 a) a1)) by done.
  specialize (Hput _ Hd). run.
Qed.

Lemma is_struct_type_prim tok : tok_ok tok -> Prim (is_struct_type tok) 0 (fun _ => True).
Proof. intros. start_prim. unfold is_struct_type. run. Qed.

Lemma as_u8_le i : 0 <= i -> 0 <= as_u8 i <= i.
Proof.
  intros. unfold as_u8, wrapU. split; [by apply Z.mod_pos_bound|]. by apply Z.mod_le.
Qed.

Lemma declare_struct_inst_prim var_tok type_tok : tok_ok var_tok -> tok_ok type_tok ->
  Prim (declare_struct_inst var_tok type_tok) 0 (fun _ => True).
Proof.
  intros. start_prim. unfold declare_struct_inst. run1. run1. run1. run1. apply wp_bind, wp_gets.
  destruct (find_index _ _) as [[i d]|] eqn:Ei; [|run].
  apply find_index_Some in Ei as (Hi & Hd & _).
  destruct (inv_names _ (at_inv _ _ _ _ Hat0)) as [Hv ? ? ? Hds Hin' ? ? ?].
  pose proof (Forall_getZ _ _ _ _ Hds Hd) as [Hdl _]. pose proof (len_nonneg (sd_fields d)).
  do 2 (apply wp_bind, wp_gets). run1; [run|]. run1; [run|].
  apply wp_bind, wp_modify. cbv zeta. apply wp_bind, wp_modify.
  match goal with |- wp _ _ ?c => set (c2 := c) end.
  assert (Hat : at_state c [] (current c) c2).
  { eapply at_update; [done| |done..]. pose proof (as_u8_le i).
    destruct (at_inv _ _ _ _ Hat0) as [? ? [] ? ? ?]. constructor; try done. constructor; try done.
    simpl. apply Forall_app. split; [done|]. constructor; [|done]. split; simpl; [lia|u8]. }
  run.
Qed.

Lemma lookup_struct_field_prim var_name field_name :
  Prim (lookup_struct_field var_name field_name) 0 (fun r => in_u8 r.1 /\ in_u8 r.2).
Proof.
  start_prim. unfold lookup_struct_field. apply wp_bind, wp_gets.
  destruct (find_inst _ _) as [inst|] eqn:Ei; [|run].
  destruct (inv_names _ Hc) as [_ _ _ _ Hds His _ _ _].
  assert (Hi : inst_ok (len (struct_defs (names c))) inst).
  { unfold find_inst in Ei. destruct (find_index _ _) as [[k x]|] eqn:Ek; [|done].
    injection Ei as <-. by eapply (find_index_Forall _ _ _ _ _ His). }
  destruct Hi as [Hi1 Hi2]. apply wp_bind, wp_gets, wp_bind.
  destruct (getZ_lt_Some _ _ Hi1) as [d Hd]. eapply wp_idx; [done|].
  pose proof (Forall_getZ _ _ _ _ Hds Hd) as [_ Hf].
  destruct (find_index _ _) as [[k f]|] eqn:Ef; [|run]. run. split; [done|].
  by eapply (find_index_Forall _ _ _ _ _ Hf).
Qed.

(** * Enums *)

Lemma enum_variant_prim vs : Prim (enum_variant vs) 1 (fun l => len l <= 16).
Proof.
  start_prim. unfold enum_variant, MAX_ENUM_VARIANTS. pose proof (token_at_ok (current c) Hin).
  run1. run1. run1; [run|]. run. rewrite len_app. change (len [_]) with 1. lia.
Qed.

Lemma enum_variants_prim : Prim enum_variants 0 (fun l => len l <= 16).
Proof.
  start_prim. unfold enum_variants.
  eapply (wp_rounds _ (fun l _ => len l <= 16)); [exact H|done| |].
  - intros l c1 H1 Hle Hl. pose proof (enum_variant_prim l). run.
  - intros l c' H' Hl. finish.
Qed.

Lemma put_enums_prim d : len (variants d) <= 16 ->
  Prim (modify (fun c => put_enums c (enums (names c) ++ [d]))) 0 (fun _ => True).
Proof.
  intros Hd. apply Prim_modify. intros c Hc.
  assert (Hl : forall l : list EnumDefMeta, len (l ++ [d]) = len l + 1)
    by (intros; rewrite len_app; change (len [d]) with 1; lia).
  split; [|split_and!; try done; simpl; rewrite Hl; lia].
  destruct Hc as [? ? [[Hl1 Hv] ? ? ? ? ? ? ? He] Hen ? ?]. constructor; try done.
  - constructor; try done; simpl.
    + split; [done|]. eapply Forall_impl; [exact Hv|]. intros v (H1 & H2 & H3). split_and!; try done.
      intros e Hve. specialize (H3 e Hve). rewrite Hl. lia.
    + apply Forall_app. split; [done|by constructor].
  - intros e Hce. specialize (Hen e Hce). simpl. rewrite Hl. lia.
Qed.

Lemma declare_enum_def_prim : Prim declare_enum_def 0 (fun _ => True).
Proof.
  start_prim. unfold declare_enum_def. pose proof (token_at_ok (current c) Hin).
  pose proof enum_variants_prim as Hvs. pose proof put_enums_prim as Hput.
  run1. run1. run1; [run|]. run1. run1. run1. run1. run1; [run|]. run1; [run|].
  run1. run1. run1. run1. run.
Qed.

Lemma lookup_enum_by_name_below name c e :
  lookup_enum_by_name name c = Some e -> 0 <= e < len (enums (names c)).
Proof.
  unfold lookup_enum_by_name. destruct (find_index _ _) as [[i d]|] eqn:E; simpl; [|done].
  intros [= <-]. by apply find_index_Some in E as (? & _).
Qed.

Lemma lookup_enum_variant_below e name c v : Inv c ->
  lookup_enum_variant e name c = Some v -> 0 <= v < 16.
Proof.
  intros Hc. unfold lookup_enum_variant. destruct (getZ _ e) as [d|] eqn:Ed; simpl; [|done].
  destruct (find_index _ _) as [[i x]|] eqn:E; simpl; [|done]. intros [= <-].
  apply find_index_Some in E as (? & _).
  destruct (inv_names _ Hc) as [_ _ _ _ _ _ _ _ He].
  pose proof (Forall_getZ _ _ _ _ He Ed). simpl in *. lia.
Qed.

(** * Constant tables *)

Lemma table_elem_prim : Prim table_elem 1 (fun _ => True).
Proof.
  start_prim. unfold table_elem. run1. run1. run1. run1; run.
Qed.

Lemma table_elems_prim : Prim table_elems 0 (fun _ => True).
Proof.
  start_prim. unfold table_elems. pose proof table_elem_prim.
  eapply (wp_rounds _ (fun _ _ => True)); [exact H|done| |].
  - intros l c1 H1 Hle _. run.
  - intros l c' H' _. finish.
Qed.

Lemma table_header_prim : Prim table_header 0 (fun _ => True).
Proof. start_prim. unfold table_header. run. Qed.

Lemma put_tables_prim l : Forall (fun t => in_u8 (tbl_id t)) l ->
  Prim (modify (fun c => put_const_tables c l)) 0 (fun _ => True).
Proof.
  intros Hl. apply Prim_modify. intros c Hc. split; [|done]. destruct Hc as [? ? [] ? ? ?].
  by constructor.
Qed.

Lemma declare_const_table_prim : Prim declare_const_table 0 (fun _ => True).
Proof.
  start_prim. unfold declare_const_table. pose proof (token_at_ok (current c) Hin).
  pose proof table_header_prim. pose proof table_elems_prim. pose proof put_tables_prim as Hput.
  run1. run1. run1; [run|]. run1. run1. apply wp_bind, wp_gets.
  destruct (inv_names _ (at_inv _ _ _ _ Hat0)) as [_ _ _ _ _ _ Ht _ _].
  assert (Hl : forall n i b k, in_u8 i ->
    Prim (modify (fun c => put_const_tables c (const_tables (names c1) ++ [mkTable n i b k]))) 0
      (fun _ => True)).
  { intros. apply Hput, Forall_app. split; [done|by constructor]. }
  run.
Qed.

Lemma lookup_const_table_prim name : Prim (lookup_const_table name) 0 (fun r => in_u8 r.1).
Proof.
  start_prim. unfold lookup_const_table. apply wp_bind, wp_gets.
  destruct (find_index _ _) as [[i t]|] eqn:Ei; run.
  destruct (inv_names _ Hc) as [_ _ _ _ _ _ Ht _ _]. by eapply (find_index_Forall _ _ _ _ _ Ht).
Qed.

(** * Handles and imports *)

Lemma set_handle_prim slot s : Prim (set_handle slot s) 0 (fun _ => True).
Proof. start_prim. unfold set_handle. run. Qed.

Lemma handle_state_prim slot : Prim (handle_state slot) 0 (fun _ => True).
Proof. start_prim. unfold handle_state. run. Qed.

End Decl3.

#[export] Hint Resolve declare_struct_def_prim is_struct_type_prim declare_struct_inst_prim
  lookup_struct_field_prim declare_enum_def_prim declare_const_table_prim lookup_const_table_prim
  set_handle_prim handle_state_prim : prim.

Section Decl4.
Context `{inp : Input} (Hin : input_ok).

Lemma check_hw_assign_pre_prim r : Prim (check_hw_assign_pre r) 0 (fun _ => True).
Proof.
  start_prim. unfold check_hw_assign_pre. run.
Qed.

Lemma apply_hw_assign_post_prim r tok m : Prim (apply_hw_assign_post r tok m) 0 (fun _ => True).
Proof. start_prim. unfold apply_hw_assign_post. run. Qed.

Lemma consume_handle_prim r s d1 d2 : Prim (consume_handle r s d1 d2) 0 (fun _ => True).
Proof. start_prim. unfold consume_handle. run. Qed.

Lemma send_handle_prim r : Prim (send_handle r) 0 (fun _ => True).
Proof. apply consume_handle_prim. Qed.

Lemma release_handle_prim r : Prim (release_handle r) 0 (fun _ => True).
Proof. apply consume_handle_prim. Qed.

Lemma check_intrinsic_runtime_prim f : Prim (check_intrinsic_runtime f) 0 (fun _ => True).
Proof. start_prim. unfold check_intrinsic_runtime. run. Qed.

End Decl4.

#[export] Hint Resolve check_hw_assign_pre_prim apply_hw_assign_post_prim send_handle_prim
  release_handle_prim check_intrinsic_runtime_prim : prim.
