(* ===== verification/CompExprSpec.v ===== *)
(** The specifications of the expression compiler: given calls that behave up to
    a depth, every level ends, consumes a token, and keeps the invariant. *)

From S2P Require Import Prelude RustStd Isa Token Error CompErrors Compiler CompDecl CompExpr.
From S2P Require Import CompLogic CompPrim CompDeclSpec.
Local Open Scope Z_scope.

(** The calls of depth less than [n] behave. *)
Record calls_ok `{Input} (n : Z) (self : calls) : Prop := {
  expression_ok dst : in_u8 dst -> Spec n (call_expression self dst) 1 (fun _ => True);
  ternary_ok dst : in_u8 dst -> Spec n (call_ternary self dst) 1 (fun _ => True);
  primary_ok dst : in_u8 dst -> Spec n (call_primary self dst) 1 (fun _ => True);
  statement_ok : Spec n (call_statement self) 1 (fun _ => True);
}.

#[export] Hint Resolve expression_ok ternary_ok primary_ok statement_ok : spec.

Lemma view_arr_u8 v : view_ok v -> in_u8 (vw_arr_id v).
Proof. by intros []. Qed.
Lemma view_base_u8 v : view_ok v -> in_u8 (base_reg v).
Proof. by intros []. Qed.
#[export] Hint Resolve view_arr_u8 view_base_u8 : prim.

Section Views.
Context `{inp : Input} (Hin : input_ok) (n : Z) (self : calls) (Hself : calls_ok n self).

Lemma emit_mov_imm_prim reg v : in_u8 reg -> Prim (emit_mov_imm reg v) 0 (fun _ => True).
Proof. intros. apply emit_prim; u8. Qed.

Lemma view_call_spec b f : in_u8 b -> Spec n (view_call self b f) 0 view_ok.
Proof.
  intros Hb. start_spec. unfold view_call. pose proof emit_mov_imm_prim.
  run.
Qed.

Hint Resolve view_call_spec : spec.
Hint Resolve emit_mov_imm_prim : prim.

Lemma parse_view_source_to_reg_spec b : in_u8 b -> Spec n (parse_view_source_to_reg self b) 0 view_ok.
Proof.
  intros Hb. start_spec. unfold parse_view_source_to_reg. run1. run1. run1.
  run.
Qed.

Hint Resolve parse_view_source_to_reg_spec : spec.

Lemma parse_view_source_spec : Spec n (parse_view_source self) 0 view_ok.
Proof.
  start_spec. unfold parse_view_source. run.
Qed.

Lemma emit_view_index_prim v i l : view_ok v -> in_u8 i -> in_u8 l ->
  Prim (emit_view_index v i l) 0 (fun _ => True).
Proof. intros [? ?] ? ?. start_prim. unfold emit_view_index. run. Qed.

Lemma emit_zip_call_prim dst e1 e2 f s c0 rs p c (Q : unit -> Compiler -> Prop) :
  in_u8 dst -> (if f is Builtin id then in_u8 id else True) ->
  at_state c0 (e2 :: e1 :: rs) p c -> 8 <= e1 <= 15 -> 8 <= e2 <= 15 ->
  (forall c', at_state c0 rs p c' -> Q tt c') -> wp (emit_zip_call dst e1 e2 f s) Q c.
Proof.
  intros Hd Hf Hat He1 He2 HQ. unfold emit_zip_call. destruct f; run.
  all: repeat match goal with a : () |- _ => destruct a end; by apply HQ.
Qed.

Hint Resolve emit_view_index_prim : prim.

Lemma emit_loop_end_prim l s j : in_u8 l -> Prim (emit_loop_end l s j) 0 (fun _ => True).
Proof. intros. start_prim. unfold emit_loop_end. run. Qed.

Hint Resolve emit_loop_end_prim : prim.

Lemma compile_sum_prim dst v : in_u8 dst -> view_ok v ->
  Prim (compile_sum_to_reg dst v) 0 (fun _ => True).
Proof.
  intros Hd Hv. start_prim.
  unfold compile_sum_to_reg, emit_view_elem, emit_counter, emit_loop_test. run.
Qed.

Lemma compile_reduce_prim dst v i name : in_u8 dst -> view_ok v ->
  Prim (compile_reduce_to_reg dst v i name) 0 (fun _ => True).
Proof.
  intros Hd Hv. start_prim.
  unfold compile_reduce_to_reg, emit_view_elem, emit_counter, emit_loop_test. run.
Qed.

Lemma compile_zip_prim dst v1 v2 name s : in_u8 dst -> view_ok v1 -> view_ok v2 ->
  Prim (compile_zip_with_to_reg dst v1 v2 name s) 0 (fun _ => True).
Proof.
  intros Hd Hv1 Hv2. start_prim.
  unfold compile_zip_with_to_reg, emit_view_elem, emit_counter, emit_loop_test. run.
  all: at_latest ltac:(fun H => eapply emit_zip_call_prim; [done|exact Hf|exact H|done..|]).
  all: intros; run.
Qed.

(** * String literals *)

Lemma put_str_prim l : bytes_ok l -> len l <= 512 ->
  Prim (modify (fun c => put_str_pool c l)) 0 (fun _ => True).
Proof.
  intros. apply Prim_modify. intros c Hc. split; [|done]. destruct Hc as [? [] ? ? ? ?].
  by constructor.
Qed.

Lemma hex_digit_range h v : hex_digit h = Some v -> 0 <= v < 16.
Proof. unfold hex_digit, in_range. repeat case_match; intros [= <-]; lia. Qed.

Lemma hex_byte v1 v2 : 0 <= v1 < 16 -> 0 <= v2 < 16 -> in_u8 (Z.lor (Z.shiftl v1 4) v2).
Proof.
  intros. apply (uw_lor 8); [lia| |lia]. rewrite Z.shiftl_mul_pow2 by lia. lia.
Qed.

Lemma escape_ok c s : bytes_ok (c :: s) -> in_u8 (escape (c :: s)).1 /\ bytes_ok (escape (c :: s)).2 /\
  (length (escape (c :: s)).2 <= S (length s))%nat.
Proof.
  intros [Hc Hs]%Forall_cons. 
  assert (Hx : bytes_ok (120 :: s)) by (constructor; [u8|done]).
  unfold escape. repeat case_match; simplify_eq; simpl; split_and!; try done; try u8; try lia.
  all: try (apply Forall_cons in Hs as [? [? ?]%Forall_cons]; done).
  all: try (apply hex_byte; eapply hex_digit_range; eassumption).
Qed.

Lemma unescape_ok s : bytes_ok s -> s <> [] -> in_u8 (unescape_byte s).1 /\
  bytes_ok (unescape_byte s).2 /\ (length (unescape_byte s).2 < length s)%nat.
Proof.
  intros Hs Hne. unfold unescape_byte. repeat case_match; simplify_eq; cbn [fst snd].
  all: try (apply Forall_cons in Hs as [? Hs]; split_and!; [done|done|simpl; lia]).
  apply Forall_cons in Hs as [_ Hs]. match goal with |- context [escape (?a :: ?l)] =>
    destruct (escape_ok a l Hs) as (? & ? & ?) end.
  split_and!; [done|done|simpl in *; lia].
Qed.

Lemma literal_bytes_prim offset s : 0 <= offset <= 512 -> bytes_ok s ->
  Prim (literal_bytes offset s) 0 (fun l => bytes_ok l /\ offset + len l <= 512).
Proof.
  intros Ho Hs. start_prim. unfold literal_bytes. apply wp_bind.
  eapply (wp_loop _ (fun st c1 => (at_state c [] (current c) c1 /\ bytes_ok st.1) /\
    bytes_ok st.2 /\ offset + len st.2 <= 512) (fun st _ => len st.1)).
  - intros [s1 acc] c1 [[H1 Hs1] [Ha Hl]]. simpl in Hs1, Ha, Hl. unfold MAX_STRING_POOL.
    destruct s1 as [|b s1]; [run1; simpl; split; [done|]; run|].
    run1; [run|]. destruct (unescape_ok (b :: s1) Hs1) as (Hu1 & Hu2 & Hu3); [done|].
    destruct (unescape_byte (b :: s1)) as [b' s'] eqn:Eu. apply wp_ret. simpl in *.
    split_and!; try done; [apply Forall_app; split; [done|by constructor] | |].
    + rewrite len_app. change (len [b']) with 1. lia.
    + unfold len. simpl. lia.
  - simpl. split_and!; try done; [by constructor|rewrite len_nil; lia].
  - simpl. unfold len. lia.
  - intros [s1 acc] c1 _. apply len_nonneg.
Qed.

End Views.

#[export] Hint Resolve emit_mov_imm_prim emit_view_index_prim emit_loop_end_prim compile_sum_prim
  compile_reduce_prim compile_zip_prim put_str_prim literal_bytes_prim : prim.
#[export] Hint Resolve view_call_spec parse_view_source_to_reg_spec parse_view_source_spec : spec.

Section Primary.
Context `{inp : Input} (Hin : input_ok) (n : Z) (self : calls) (Hself : calls_ok n self).

Lemma emit_string_prim dst offset k : in_u8 dst -> 0 <= offset ->
  Prim (emit_string dst offset k) 0 (fun _ => True).
Proof.
  intros. start_prim. unfold emit_string. run.
Qed.

Lemma literal_prim tok : tok_ok tok -> Prim (if 2 <=? tlen tok
  then lift (slice src (start tok + 1) (start tok + tlen tok - 1)) else mret []) 0 bytes_ok.
Proof.
  intros (H1 & H2 & H3). start_prim. run1; [|run; by constructor]. apply Z.leb_le in Heqb.
  apply wp_lift.
  - intros s (_ & ->)%slice_Ok. finish. apply Forall_sub, Hin.
  - intros q. rewrite slice_in_range by lia. done.
Qed.

Lemma find_string_nonneg s pool i : find_string_in_pool s pool = Some i -> 0 <= i.
Proof.
  unfold find_string_in_pool. case_match; [by intros [= <-]|]. case_match; [done|].
  intros [Hin' _]%List.find_some. apply list_elem_of_In, elem_of_seqZ in Hin'. lia.
Qed.

Lemma primary_string_prim dst tok : in_u8 dst -> tok_ok tok ->
  Prim (primary_string dst tok) 0 (fun _ => True).
Proof.
  intros Hd Ht. start_prim. unfold primary_string.
  pose proof emit_string_prim. run1. run_prim literal_prim.
  rename Hf into Hlit. apply wp_bind, wp_gets.
  destruct (inv_out _ (at_inv _ _ _ _ Hat)) as [_ [Hpb Hpl] _].
  pose proof (len_nonneg (str_pool (out c0))).
  pose proof (literal_bytes_prim (len (str_pool (out c0))) a ltac:(lia) Hlit) as Hlb.
  run1. run1. destruct Hf as [Hb Hlen].
  destruct (find_string_in_pool _ _) eqn:Ef.
  - apply find_string_nonneg in Ef. run.
  - assert (Hp := put_str_prim (str_pool (out c0) ++ a0)).
    rewrite len_app in Hp. specialize (Hp ltac:(by apply Forall_app) Hlen). run.
Qed.

Lemma primary_float_prim dst v d : in_u8 dst -> Prim (primary_float dst v d) 0 (fun _ => True).
Proof. intros. start_prim. unfold primary_float. run. Qed.

Lemma primary_index_spec dst op find : in_u8 dst -> in_u8 op -> Prim find 0 in_u8 ->
  Spec n (primary_index self dst op find) 0 (fun _ => True).
Proof. intros. start_spec. unfold primary_index. run. Qed.

End Primary.
#[export] Hint Resolve emit_string_prim primary_string_prim primary_float_prim : prim.
#[export] Hint Resolve primary_index_spec : spec.
