(* ===== verification/CompLevelSpec.v ===== *)
(** The specifications of the expression compiler, continued: variables, calls,
    the unary operators, and the levels of precedence up to [expression]. *)

From S2P Require Import Prelude RustStd Isa Token Error CompErrors Compiler CompDecl CompExpr.
From S2P Require Import CompLogic CompPrim CompDeclSpec CompExprSpec.
Local Open Scope Z_scope.

Section Names.
Context `{inp : Input} (Hin : input_ok).

Lemma primary_field_prim dst tok : in_u8 dst -> tok_ok tok ->
  Prim (primary_field dst tok) 0 (fun _ => True).
Proof.
  intros. start_prim. unfold primary_field. run.
Qed.

Lemma load_var_types_prim tok : tok_ok tok -> Prim (load_var_types tok) 0 (fun _ => True).
Proof.
  intros. start_prim. unfold load_var_types, get_var_enum_type.
  apply wp_bind, wp_gets, wp_bind, wp_modify.
  pose proof (at_set_enum _ _ _ _ _ H0 (fun e => get_var_enum_below tok c e Hc)) as Hat. clear H0.
  run.
Qed.

Hint Resolve primary_field_prim load_var_types_prim : prim.
Hint Resolve lookup_array_prim : prim spec.

Lemma primary_var_spec n self dst tok : calls_ok n self -> in_u8 dst -> tok_ok tok ->
  Spec n (primary_var self dst tok) 0 (fun _ => True).
Proof.
  intros. start_spec. unfold primary_var. run1. run1. run1; [run|]. run1; [run|].
  run1. run_prim is_spilled_var_prim. destruct a as [slot|]; [specialize (Hf slot eq_refl)|]; run.
Qed.

Lemma primary_variant_prim dst name : in_u8 dst -> Prim (primary_variant dst name) 0 (fun _ => True).
Proof.
  intros. start_prim. unfold primary_variant. do 4 run1. run1; [run|]. do 2 run1.
  apply wp_bind, wp_gets. destruct (lookup_enum_by_name _ _) as [e|] eqn:Ee; [|run].
  apply lookup_enum_by_name_below in Ee.
  apply wp_bind, wp_gets. destruct (lookup_enum_variant _ _ _) as [v|] eqn:Ev; [|run].
  apply wp_bind, wp_modify. assert (Hs : opt_below (Some e) (len (enums (names c2))))
    by by intros ? [= <-].
  pose proof (at_set_enum _ _ _ _ _ Hat Hs). clear Hat. run.
Qed.

End Names.

#[export] Hint Resolve primary_field_prim load_var_types_prim primary_variant_prim : prim.
#[export] Hint Resolve primary_var_spec : spec.
#[export] Hint Resolve lookup_array_prim : prim spec.

Section Calls.
Context `{inp : Input} (Hin : input_ok) (n : Z) (self : calls) (Hself : calls_ok n self).

(** The registers of the arguments are owned, the last one first. *)
Lemma wp_call_args k c0 p c (Q : list Z -> Compiler -> Prop) : at_state c0 [] p c ->
  free (temp_used c0) * (len tokens + 1) + (len tokens - p) < n + (len tokens + 1) ->
  0 <= p -> k <= 4 ->
  (forall temps c', at_state c0 (rev temps) p c' -> len temps <= 4 ->
     Forall (fun r => 8 <= r <= 15) temps -> Q temps c') ->
  wp (call_args self k) Q c.
Proof.
  intros Hat Hn Hp Hk HQ. unfold call_args.
  eapply (wp_rounds_regs _ (@rev Z) (fun temps _ => len temps <= 4 /\
    Forall (fun r => 8 <= r <= 15) temps)); [exact Hat|by split; [rewrite len_nil; lia|]| |].
  - intros temps c1 H1 Hle [Hl Hf]. run1. run1. run1; [run1; simpl; split_and!; [at_weak|..]; done|].
    run1; [run1|]. pose proof (len_nonneg (rev temps)). pose proof (len_nonneg tokens). do 6 run1.
    run1. cbn [fst snd]. rewrite rev_unit. split_and!; [at_weak| | |intros _; at_less].
    + apply Z.leb_gt in Heqb0. rewrite len_app. change (len [r]) with 1. lia.
    + apply Forall_app. split; [done|by constructor].
  - intros temps c' H' [? ?]. by apply HQ.
Qed.

Lemma wp_move_args regs temps c0 p c (Q : unit -> Compiler -> Prop) :
  Forall in_u8 regs -> Forall (fun r => 8 <= r <= 15) temps ->
  at_state c0 (rev temps) p c -> (forall c', at_state c0 [] p c' -> Q tt c') ->
  wp (move_args regs temps) Q c.
Proof.
  intros Hr. revert temps c. induction Hr as [|r regs Hr _ IH]; intros [|t temps] c Ht Hat HQ; simpl.
  1-3: apply wp_ret, HQ; by eapply at_drop.
  apply Forall_cons in Ht as [Ht Hts]. run1. run1. run1. simpl in Hat0.
  eapply (wp_free (rev temps) t []); [done|]. intros c' Hat. rewrite app_nil_r in Hat. by apply IH.
Qed.

Lemma wp_free_temps rs c0 p c (Q : unit -> Compiler -> Prop) :
  at_state c0 rs p c -> (forall c', at_state c0 [] p c' -> Q tt c') -> wp (free_temps rs) Q c.
Proof.
  revert c. induction rs as [|r rs IH]; intros c Hat HQ; simpl; [by apply wp_ret, HQ|].
  apply wp_bind, (wp_free [] r rs c0 p); [done|]. intros c' Hat'. by apply IH.
Qed.

Lemma find_fn_ok name c f : Inv c -> find_fn name c = Some f -> fn_ok f.
Proof.
  intros Hc. unfold find_fn. destruct (inv_names _ Hc) as [_ _ _ Hf _ _ _ _ _].
  destruct (find_index _ _) as [[i x]|] eqn:E; [|done]. intros [= <-].
  by eapply (find_index_Forall _ _ _ _ _ Hf).
Qed.

Lemma primary_call_spec dst f : in_u8 dst -> fn_ok f -> Spec n (primary_call self dst f) 0 (fun _ => True).
Proof.
  intros Hd [Hp _]. start_spec. unfold primary_call. run1. run1. run1.
  at_latest ltac:(fun H => eapply wp_call_args; [exact H| |lia|done|]);
    [unfold need in Hn; pose proof (len_nonneg tokens); lia|].
  intros temps c1 Hat1 Hl Hf. run1.
  eapply wp_move_args; [|exact Hf|exact Hat1|].
  { repeat (constructor; [u8|]). constructor. }
  intros c2 Hat2. clear Hat1. run.
Qed.

Lemma primary_streq_spec dst : in_u8 dst -> Spec n (primary_streq self dst) 0 (fun _ => True).
Proof. intros. start_spec. unfold primary_streq. run. Qed.

Lemma chained_sum_prim : Prim chained_sum 0 (fun _ => True).
Proof. start_prim. unfold chained_sum. run. Qed.

Hint Resolve chained_sum_prim : prim.

Lemma primary_zip_with_spec dst : in_u8 dst -> Spec n (primary_zip_with self dst) 0 (fun _ => True).
Proof. intros. start_spec. unfold primary_zip_with. run. Qed.

Lemma primary_sum_spec dst : in_u8 dst -> Spec n (primary_sum self dst) 0 (fun _ => True).
Proof. intros. start_spec. unfold primary_sum. run. Qed.

Lemma primary_reduce_spec dst : in_u8 dst -> Spec n (primary_reduce self dst) 0 (fun _ => True).
Proof. intros. start_spec. unfold primary_reduce. run. Qed.

Lemma handle_arg_prim : Prim handle_arg 0 (fun _ => True).
Proof. start_prim. unfold handle_arg. run. Qed.

Hint Resolve handle_arg_prim : prim.

(** The registers that the arguments of an intrinsic take: none when the
    argument is missing. *)
Definition args_held `{inp : Input} c0 (args : list Z) p c : Prop :=
  Forall in_u8 args /\
  (at_state c0 (rev args) p c \/ args = [0] /\ at_state c0 [] p c).

Lemma wp_intrinsic_args func_id arity c0 p c (Q : list Z -> Compiler -> Prop) :
  at_state c0 [] p c -> need c0 < n -> current c0 <= p ->
  (forall args c', args_held c0 args p c' -> Q args c') ->
  wp (intrinsic_args self func_id arity) Q c.
Proof.
  intros Hat Hn Hp HQ. unfold intrinsic_args, intrinsic_arg1. pose proof (len_nonneg tokens).
  pose proof (free_range (temp_used c0)).
  run; apply HQ; (split; [repeat (constructor; [u8|]); constructor|]); simpl.
  all: first [left; at_weak | right; split; [done|at_weak]].
Qed.

Lemma wp_free_args args c0 p c (Q : unit -> Compiler -> Prop) :
  args_held c0 args p c -> (forall c', at_state c0 [] p c' -> Q tt c') ->
  wp (free_temps (rev args)) Q c.
Proof.
  intros [_ [Hat | [-> Hat]]] HQ; [by eapply wp_free_temps|].
  simpl. apply wp_bind, wp_when; [done|]. intros _. by apply wp_ret, HQ.
Qed.

Lemma args_held_at args c0 p c : args_held c0 args p c -> exists rs, at_state c0 rs p c /\
  (forall c' q, at_state c0 rs q c' -> args_held c0 args q c').
Proof.
  intros [Hf [H | [-> H]]]; eexists; (split; [exact H|]); intros c' q Hq; split; auto.
Qed.

Lemma primary_intrinsic_spec dst name : in_u8 dst ->
  Spec n (primary_intrinsic self dst name) 0 (fun _ => True).
Proof.
  intros Hd. start_spec. unfold primary_intrinsic. destruct (intrinsic name) as [[func_id arity]|] eqn:Ei; [|run].
  assert (Hf : in_u8 func_id).
  { apply (by_name_Some (fun x => in_u8 x.1)) in Ei; [done|].
    repeat (constructor; [simpl; u8|]). constructor. }
  run1. run1. run1. at_latest ltac:(fun H => eapply wp_intrinsic_args; [exact H|done|lia|]).
  intros args c1 Hheld. destruct (args_held_at _ _ _ _ Hheld) as (rs & Hat1 & Hback).
  assert (in_u8 (default 0 (head args))).
  { destruct Hheld as [[|x l Hx _] _]; simpl; [u8|done]. }
  clear Hheld Hat. do 7 run1.
  at_latest ltac:(fun H => eapply wp_free_args; [by apply Hback in H|]). intros. run.
Qed.

(** * Unary operators and groups *)

Lemma primary_minus_spec dst : in_u8 dst -> Spec n (primary_minus self dst) 0 (fun _ => True).
Proof. intros. start_spec. unfold primary_minus. run. Qed.

Lemma primary_not_spec dst : in_u8 dst -> Spec n (primary_not self dst) 0 (fun _ => True).
Proof. intros. start_spec. unfold primary_not. run. Qed.

Lemma primary_group_spec dst : in_u8 dst -> Spec n (primary_group self dst) 0 (fun _ => True).
Proof. intros. start_spec. unfold primary_group. run. Qed.

End Calls.

#[export] Hint Resolve primary_call_spec primary_streq_spec primary_zip_with_spec primary_sum_spec
  primary_reduce_spec primary_intrinsic_spec primary_minus_spec primary_not_spec primary_group_spec : spec.

Section Levels.
Context `{inp : Input} (Hin : input_ok) (n : Z) (self : calls) (Hself : calls_ok n self).

Lemma primary_named_call_spec dst name : in_u8 dst ->
  Spec n (primary_named_call self dst name) 0 (fun _ => True).
Proof.
  intros. start_spec. unfold primary_named_call. apply wp_bind, wp_gets.
  destruct (find_fn name c) as [f|] eqn:Ef; [apply find_fn_ok in Ef; [|done]|]; run.
Qed.

Hint Resolve primary_named_call_spec : spec.

Lemma table_id_prim name : Prim ('(tbl_id, _) ← lookup_const_table name; mret tbl_id) 0 in_u8.
Proof. start_prim. run. Qed.

Hint Resolve table_id_prim : spec.

Lemma primary_ident_spec dst tok : in_u8 dst -> tok_ok tok ->
  Spec n (primary_ident self dst tok) 0 (fun _ => True).
Proof. intros. start_spec. unfold primary_ident. run. Qed.

Hint Resolve primary_ident_spec : spec.

(** From here on, operations consume a token before they call back. *)
Lemma primary_spec dst : in_u8 dst -> Spec (n + 1) (primary self dst) 1 (fun _ => True).
Proof.
  intros. start_spec. unfold primary. pose proof (len_nonneg tokens). run.
Qed.

Hint Resolve primary_spec : spec.

(** * Levels of precedence *)

Lemma fold_or_emit_prim dst r v1 v2 fold instr : in_u8 dst -> in_u8 r ->
  (forall a b, Prim (fold a b) 0 (fun _ => True)) -> Prim instr 0 (fun _ => True) ->
  Prim (fold_or_emit dst r v1 v2 fold instr) 0 (fun _ => True).
Proof. intros. start_prim. unfold fold_or_emit. run. Qed.

Lemma simple_round_prim fold op dst k r v1 v2 : in_u8 dst -> in_u8 r -> in_u8 (op k) ->
  Prim (simple_round fold op dst k r v1 v2) 0 (fun _ => True).
Proof.
  intros. apply fold_or_emit_prim; [done..| |by apply emit_prim].
  intros a b. start_prim. run.
Qed.

Lemma left_assoc_spec ops operand round dst : in_u8 dst -> TokenKind.Eof ∉ ops ->
  (forall r, in_u8 r -> Spec (n + 1) (operand r) 1 (fun _ => True)) ->
  (forall k r v1 v2, in_u8 r -> Prim (round k r v1 v2) 0 (fun _ => True)) ->
  Spec (n + 1) (left_assoc ops operand round dst) 1 (fun _ => True).
Proof.
  intros Hd Hops Hoperand Hround. start_spec. unfold left_assoc. pose proof (len_nonneg tokens).
  run1. run1.
  at_latest ltac:(fun H => eapply (wp_rounds _ (fun _ _ => True)); [exact H|done| |intros; by split]).
  intros val c1 Hat1 Hp _. run1. run1. run1; [run1; finish|].
  assert (Hk : kind (token_at (current c1)) <> TokenKind.Eof).
  { intros E. rewrite E in Heqb. apply negb_false_iff, bool_decide_eq_true in Heqb. done. }
  run.
Qed.

Lemma set_scale_spec s : Prim (set_scale s) 0 (fun _ => True).
Proof. apply set_scale_prim. Qed.

Hint Resolve set_scale_spec : prim.

Lemma emit_fixed_mul_prim dst r s : in_u8 dst -> in_u8 r -> Prim (emit_fixed_mul dst r s) 0 (fun _ => True).
Proof. intros. start_prim. unfold emit_fixed_mul. run. Qed.

Hint Resolve emit_fixed_mul_prim : prim.

Lemma emit_factor_prim dst k r s1 s2 : in_u8 dst -> in_u8 r ->
  Prim (emit_factor dst k r s1 s2) 0 (fun _ => True).
Proof. intros. start_prim. unfold emit_factor, emit_star, emit_slash. run. Qed.

Lemma fold_factor_prim k a b : Prim (fold_factor k a b) 0 (fun _ => True).
Proof. start_prim. unfold fold_factor. run. Qed.

Lemma factor_spec dst : in_u8 dst -> Spec (n + 1) (factor self dst) 1 (fun _ => True).
Proof.
  intros. start_spec. unfold factor. pose proof (len_nonneg tokens).
  assert (Hround : forall k r v1 v2 s1 s2, in_u8 r -> Prim (fold_or_emit dst r v1 v2 (fold_factor k)
    (emit_factor dst k r s1 s2)) 0 (fun _ => True)).
  { intros. apply fold_or_emit_prim; [done..|apply fold_factor_prim|by apply emit_factor_prim]. }
  run1. run1.
  at_latest ltac:(fun H => eapply (wp_rounds _ (fun _ _ => True)); [exact H|done| |intros; by split]).
  intros val c1 Hat1 Hp _. run.
Qed.

Hint Resolve factor_spec : spec.

Lemma term_scales_prim s1 s2 : Prim (term_scales s1 s2) 0 (fun _ => True).
Proof. start_prim. unfold term_scales. run. Qed.

Hint Resolve term_scales_prim simple_round_prim : prim.

Lemma term_spec dst : in_u8 dst -> Spec (n + 1) (term self dst) 1 (fun _ => True).
Proof.
  intros. start_spec. unfold term. pose proof (len_nonneg tokens).
  assert (forall k, in_u8 (if keq k TokenKind.Plus then PX64_OP_ADD else PX64_OP_SUB))
    by (intros; case_match; u8).
  run1. run1.
  at_latest ltac:(fun H => eapply (wp_rounds _ (fun _ _ => True)); [exact H|done| |intros; by split]).
  intros val c1 Hat1 Hp _. run.
Qed.

(** The levels between sums and equality. *)
Ltac simple_level below :=
  intros; apply left_assoc_spec; [done|vm_compute; set_solver|exact below|];
  intros; apply simple_round_prim; [done..|]; try (case_match; u8); first [u8 | by eauto with prim].

Lemma shift_spec dst : in_u8 dst -> Spec (n + 1) (shift self dst) 1 (fun _ => True).
Proof. simple_level term_spec. Qed.

Lemma bitwise_and_spec dst : in_u8 dst -> Spec (n + 1) (bitwise_and self dst) 1 (fun _ => True).
Proof. simple_level shift_spec. Qed.

Lemma bitwise_xor_spec dst : in_u8 dst -> Spec (n + 1) (bitwise_xor self dst) 1 (fun _ => True).
Proof. simple_level bitwise_and_spec. Qed.

Lemma bitwise_or_spec dst : in_u8 dst -> Spec (n + 1) (bitwise_or self dst) 1 (fun _ => True).
Proof. simple_level bitwise_xor_spec. Qed.

Lemma op_comparison_u8 k : in_u8 (op_comparison k).
Proof. destruct k; u8. Qed.

Hint Resolve op_comparison_u8 : prim.

Lemma comparison_spec dst : in_u8 dst -> Spec (n + 1) (comparison self dst) 1 (fun _ => True).
Proof. simple_level bitwise_or_spec. Qed.

Lemma equality_spec dst : in_u8 dst -> Spec (n + 1) (equality self dst) 1 (fun _ => True).
Proof. simple_level comparison_spec. Qed.

Lemma logic_round_prim op fold dst k r v1 v2 : in_u8 dst -> in_u8 r -> in_u8 op ->
  Prim (logic_round op fold dst k r v1 v2) 0 (fun _ => True).
Proof.
  intros. apply fold_or_emit_prim; [done..| |].
  - intros a b. start_prim. run.
  - start_prim. unfold emit_logic. run.
Qed.

Lemma logic_and_spec dst : in_u8 dst -> Spec (n + 1) (logic_and self dst) 1 (fun _ => True).
Proof.
  intros. apply left_assoc_spec; [done|vm_compute; set_solver|exact equality_spec|].
  intros. apply logic_round_prim; [done..|u8].
Qed.

Lemma logic_or_spec dst : in_u8 dst -> Spec (n + 1) (logic_or self dst) 1 (fun _ => True).
Proof.
  intros. apply left_assoc_spec; [done|vm_compute; set_solver|exact logic_and_spec|].
  intros. apply logic_round_prim; [done..|u8].
Qed.

Hint Resolve logic_or_spec : spec.

(** * Blocks, the conditional operator and pipes *)

Lemma block_spec : Spec n (block self) 0 (fun _ => True).
Proof.
  start_spec. unfold block. run1.
  at_latest ltac:(fun H => eapply wp_until; [exact H| |]).
  - intros c1 Hat1 Hp Hk. run.
  - intros. run.
Qed.

Hint Resolve block_spec : spec.

Lemma branch_spec dst : in_u8 dst -> Spec n (branch self dst) 0 (fun _ => True).
Proof. intros. start_spec. unfold branch. run. Qed.

Hint Resolve branch_spec : spec.

Lemma ternary_spec dst : in_u8 dst -> Spec (n + 1) (ternary self dst) 1 (fun _ => True).
Proof.
  intros. start_spec. unfold ternary. pose proof (len_nonneg tokens). run.
Qed.

Hint Resolve ternary_spec : spec.

Lemma pipe_prim dst : in_u8 dst -> Prim (pipe dst) 0 (fun _ => True).
Proof.
  intros. start_prim. unfold pipe, pipe_target. run.
Qed.

Hint Resolve pipe_prim : prim.

Lemma when_const_prim dst v : in_u8 dst -> Prim (when_some v (emit_const dst)) 0 (fun _ => True).
Proof. intros. start_prim. run. Qed.

Lemma expression_spec dst : in_u8 dst -> Spec (n + 1) (expression self dst) 1 (fun _ => True).
Proof.
  intros. start_spec. unfold expression. pose proof (len_nonneg tokens).
  run1. run1. run1. run_prim when_const_prim.
  at_latest ltac:(fun H => eapply (wp_rounds _ (fun _ _ => True)); [exact H|done| |intros; by split]).
  intros [] c2 Hat2 Hp _. run1.
  eapply wp_match_token; [discriminate|exact Hat2| |]; intros; run.
Qed.

End Levels.

#[export] Hint Resolve primary_spec expression_spec ternary_spec block_spec : spec.
#[export] Hint Resolve set_scale_spec op_comparison_u8 when_const_prim : prim.
