(* ===== verification/CompStmtSpec.v ===== *)
(** The specifications of the statements: every statement ends, consumes its
    first token, and keeps the invariant. *)

From S2P Require Import Prelude RustStd Isa Token Error CompErrors Compiler CompDecl CompExpr CompStmt.
From S2P Require Import CompLogic CompPrim CompDeclSpec CompExprSpec CompLevelSpec.
Local Open Scope Z_scope.

(** A statement, whose first token is not the end of the input. *)
Definition Stmt `{inp : Input} (n : Z) (m : comp unit) : Prop :=
  forall c, Inv c -> need c < n + 1 -> kind (token_at (current c)) <> TokenKind.Eof ->
    wp m (fun _ c' => at_state c [] (current c + 1) c' /\ True) c.

Ltac start_stmt :=
  let c := fresh "c" in let Hc := fresh "Hc" in let Hn := fresh "Hn" in let Hk := fresh "Hk" in
  intros c Hc Hn Hk; pose proof (at_start c Hc); pose proof (inv_current c Hc);
  pose proof (free_range (temp_used c)); pose proof (len_nonneg tokens).

Section Pragmas.
Context `{inp : Input} (Hin : input_ok) (n : Z) (self : calls) (Hself : calls_ok n self).

Lemma skip_prim k : Prim (skip k) 0 (fun _ => True).
Proof. start_prim. unfold skip. run. Qed.

Hint Resolve skip_prim : prim.
Hint Resolve literal_prim : prim.

Lemma set_imports_prim : Prim (modify (fun c => put_imported_runtimes (put_has_explicit_imports c true) 0)) 0
  (fun _ => True).
Proof. unmentioned. Qed.

Lemma add_imports_prim mask :
  Prim (modify (fun c => put_imported_runtimes c (Z.lor (imported_runtimes (limits c)) mask))) 0 (fun _ => True).
Proof. unmentioned. Qed.

Hint Resolve set_imports_prim add_imports_prim : prim.

Lemma import_name_prim tok : tok_ok tok -> Prim (match kind tok with
   | TokenKind.StringLit =>
     if 2 <=? tlen tok
     then lift (slice src (start tok + 1) (start tok + tlen tok - 1))
     else mret []
   | TokenKind.Ident => text tok
   | _ => fail E_IMPORT_SYNTAX
   end) 0 (fun _ => True).
Proof.
  intros Ht. start_prim. destruct (kind tok).
  all: first [exact I | run_prim literal_prim; finish | run].
Qed.

Lemma stmt_import_ok : Stmt n stmt_import.
Proof.
  start_stmt. unfold stmt_import. do 4 run1. run1. run_prim import_name_prim. run.
Qed.

Lemma skip_nested_range o k l depth m : 0 <= m ->
  m <= (skip_nested o k l depth m).1 <= m + len l.
Proof.
  revert depth m. induction l as [|t l IH]; intros depth m Hm; simpl.
  - change (len (@nil Token)) with 0. case_match; simpl; lia.
  - rewrite len_cons. pose proof (len_nonneg l).
    assert (IH' := fun d => IH d (m + 1) ltac:(lia)). clear IH.
    repeat case_match; simpl; try lia.
    + specialize (IH' (depth + 1)). lia.
    + specialize (IH' (depth - 1)). lia.
    + specialize (IH' depth). lia.
Qed.

Lemma skip_group_prim o k : Prim (skip_group o k) 0 (fun _ => True).
Proof.
  start_prim. unfold skip_group. apply wp_bind, wp_gets.
  pose proof (skip_nested_range o k (drop (Z.to_nat (current c)) tokens) 1 0 ltac:(lia)) as Hr.
  destruct (skip_nested _ _ _ _ _) as [m depth]. simpl in Hr.
  apply wp_bind, wp_modify, wp_ret. split; [|done]. pose proof (inv_current _ Hc).
  assert (len (drop (Z.to_nat (current c)) tokens) = len tokens - current c).
  { unfold len. rewrite length_drop. unfold len in *. lia. }
  rewrite Z.add_0_r. destruct H. constructor; try done; [|simpl; lia].
  apply set_current_inv; [done|lia].
Qed.

Hint Resolve skip_group_prim : prim.

Lemma skip_budget_prim : Prim skip_budget 0 (fun _ => True).
Proof. start_prim. unfold skip_budget. run. Qed.

Hint Resolve skip_budget_prim : prim.

Lemma skip_until_prim close : Prim (until close (advance;; mret true)) 0 (fun _ => True).
Proof.
  start_prim. at_latest ltac:(fun H => eapply wp_until; [exact H| |]); intros; run.
Qed.

Hint Resolve skip_until_prim : prim.

Lemma stmt_test_ok : Stmt n stmt_test.
Proof. start_stmt. unfold stmt_test. run. Qed.

(** An operation that is called when there is a token: it consumes it. *)
Definition Eats {A} (m : comp A) : Prop := forall c, Inv c -> kind (token_at (current c)) <> TokenKind.Eof ->
  wp m (fun _ c' => at_state c [] (current c + 1) c' /\ True) c.

Lemma wp_eats {A} (m : comp A) c0 rs p c (Q : A -> Compiler -> Prop) : Eats m -> at_state c0 rs p c ->
  kind (token_at (current c)) <> TokenKind.Eof ->
  (forall a c', at_state c0 rs (p + 1) c' -> current c < current c' -> Q a c') -> wp m Q c.
Proof.
  intros Hm Hat Hk HQ. eapply wp_mono; [apply Hm; [apply Hat|done]|]. intros a c' [Hat' _].
  apply HQ; [by eapply at_ext|]. apply at_current in Hat'. lia.
Qed.

Lemma contract_time_eats set : (forall o, Prim (modify (fun c => set c o)) 0 (fun _ => True)) ->
  Eats (contract_time set).
Proof. intros Hset c Hc Hk. pose proof (at_start c Hc). unfold contract_time. run. Qed.

Lemma stmt_contract_ok : Stmt n stmt_contract.
Proof.
  start_stmt. unfold stmt_contract.
  assert (Hw : Eats (contract_time put_declared_script_wcet_ns)).
  { apply contract_time_eats. intros o. unmentioned. }
  assert (Hb : Eats (contract_time put_declared_script_budget_ns)).
  { apply contract_time_eats. intros o. unmentioned. }
  do 5 run1. at_latest ltac:(fun H => eapply wp_until; [exact H| |]).
  - intros c2 Hat2 Hp Hk2. do 4 run1; [|run1].
    1-2: eapply wp_eats; [done|exact Hat2|exact Hk2|]; intros; run.
    run.
  - intros. run.
Qed.

Lemma stmt_pool_size_ok c : Inv c -> kind (token_at (current c)) = TokenKind.AtPoolSize ->
  wp stmt_pool_size (fun _ c' => at_state c [] (current c + 1) c' /\ True) c.
Proof.
  intros Hc Hk. pose proof (at_start c Hc). unfold stmt_pool_size.
  assert (Hp : pool_pragma).
  { exists (token_at (current c)). split; [|done].
    assert (Hr : 0 <= current c < len tokens) by (apply token_at_in; congruence).
    apply getZ_lt_Some in Hr as [t Ht]. unfold token_at. rewrite Ht. simpl.
    unfold getZ in Ht. case_decide; [|done]. by eapply list_elem_of_lookup_2. }
  run1. run1. run_prim declare_pool_size_prim. run.
Qed.

Lemma optional_block_spec : Spec n (optional_block self) 0 (fun _ => True).
Proof. start_spec. unfold optional_block. run. Qed.

Hint Resolve optional_block_spec : spec.

Lemma stmt_pipeline_ok : Stmt n (stmt_pipeline self).
Proof. start_stmt. unfold stmt_pipeline. run. Qed.

Lemma stmt_on_ok : Stmt n (stmt_on self).
Proof. start_stmt. unfold stmt_on. run. Qed.

Lemma drop_captured_prim : Prim (modify drop_captured) 0 (fun _ => True).
Proof. unmentioned. Qed.

Hint Resolve drop_captured_prim : prim.

Lemma stmt_within_ok : Stmt n (stmt_within self).
Proof. start_stmt. unfold stmt_within. run. Qed.

End Pragmas.

#[export] Hint Resolve skip_prim skip_group_prim skip_budget_prim skip_until_prim drop_captured_prim : prim.
#[export] Hint Resolve optional_block_spec : spec.

Section Loops.
Context `{inp : Input} (Hin : input_ok) (n : Z) (self : calls) (Hself : calls_ok n self).

(** * Conditions that are compiled at another place *)

Definition place_ok (o : option Z) : Prop := forall s, o = Some s -> 0 <= s <= len tokens.

Lemma paren_scan_prim : Prim (loop rounds (fun depth =>
      k ← peek_kind;
      if keq k TokenKind.Eof then mret (depth, false)
      else
        let depth := if keq k TokenKind.LParen then depth + 1
                     else if keq k TokenKind.RParen then depth - 1 else depth in
        if 0 <? depth then advance;; mret (depth, true) else mret (depth, false)) 1) 0 (fun _ => True).
Proof.
  start_prim.
  at_latest ltac:(fun H => eapply (wp_rounds _ (fun _ _ => True)); [exact H|done| |intros; finish]).
  intros depth c1 Hat1 Hp _. do 3 run1; [run|]. cbv zeta. run.
Qed.

Lemma invariant_clause_prim : Prim invariant_clause 0 place_ok.
Proof.
  start_prim. unfold invariant_clause. do 2 run1. run1; [run; by intros s|].
  do 2 run1. apply wp_bind, wp_gets, wp_bind.
  match goal with H : at_state c [] _ ?c1 |- _ => pose proof (inv_current _ (at_inv _ _ _ _ H)) end.
  run_prim paren_scan_prim. run. intros s. by intros [= <-].
Qed.

Lemma wp_assert_at start c0 rs p c (Q : unit -> Compiler -> Prop) : at_state c0 rs p c ->
  0 <= start <= len tokens ->
  (free (temp_used c0) - len rs - 1) * (len tokens + 1) + (len tokens - start) < n ->
  (forall c', at_state c0 rs start c' -> Q tt c') -> wp (assert_at self start) Q c.
Proof.
  intros Hat Hs Hn HQ. unfold assert_at. apply wp_bind, wp_modify.
  assert (Hat' : at_state c0 rs start (set_current c start)).
  { destruct Hat. constructor; try done. by apply set_current_inv. }
  clear Hat. run1. run1. run1.
  at_latest ltac:(fun H => eapply wp_spec; [by apply (expression_ok n self); [|u8]| exact H | | ]);
    [rewrite len_cons; lia|].
  intros a c2 Hat2 _. do 3 run1.
  apply HQ. eapply at_weaken; [eassumption|lia].
Qed.

Lemma wp_restore saved c0 rs p q c (Q : unit -> Compiler -> Prop) : at_state c0 rs q c ->
  p <= saved <= len tokens -> 0 <= saved ->
  (forall c', at_state c0 rs p c' -> Q tt c') -> wp (modify (fun c => set_current c saved)) Q c.
Proof.
  intros Hat Hs H0 HQ. apply wp_modify, HQ. destruct Hat. constructor; try done; [|simpl; lia].
  apply set_current_inv; [done|lia].
Qed.

(** The conditions start over, with a register fewer. *)
Lemma wp_invariant_check start c0 rs p c (Q : unit -> Compiler -> Prop) : at_state c0 rs p c ->
  0 <= start <= len tokens -> need c0 < n + 1 -> 0 <= current c0 <= len tokens ->
  (forall c', at_state c0 rs p c' -> Q tt c') -> wp (emit_invariant_check self start) Q c.
Proof.
  intros Hat Hs Hn Hcur HQ. unfold emit_invariant_check, need in *. apply wp_bind, wp_gets, wp_bind.
  pose proof (len_nonneg rs). pose proof (len_nonneg tokens).
  eapply wp_assert_at; [exact Hat|done|nia|]. intros c' Hat'.
  eapply wp_restore; [exact Hat'| | |done].
  all: pose proof (inv_current _ (at_inv _ _ _ _ Hat)); pose proof (at_current _ _ _ _ Hat); lia.
Qed.

Lemma wp_when_invariant o c0 rs p c (Q : unit -> Compiler -> Prop) : at_state c0 rs p c ->
  place_ok o -> need c0 < n + 1 -> 0 <= current c0 <= len tokens ->
  (forall c', at_state c0 rs p c' -> Q tt c') -> wp (when_some o (emit_invariant_check self)) Q c.
Proof.
  intros Hat Ho Hn Hcur HQ. apply wp_when_some; [|intros ->; by apply HQ].
  intros start ->. eapply wp_invariant_check; try done. by apply Ho.
Qed.

Hint Resolve invariant_clause_prim : prim.

Lemma check_confined_prim pre d : Prim (check_confined pre d) 0 (fun _ => True).
Proof. start_prim. unfold check_confined. run. Qed.

Hint Resolve check_confined_prim : prim.

Lemma condition_kind_prim k : Prim (if k is TokenKind.Number n
  then if n =? 0 then mret tt else fail E_UNBOUNDED_LOOP else mret tt) 0 (fun _ => True).
Proof. start_prim. run. Qed.

End Loops.

#[export] Hint Resolve invariant_clause_prim check_confined_prim : prim.

(** Steps of loops, whose calls go back in the tokens. *)
Ltac run_loop_step :=
  lazymatch goal with
  | |- wp (when_some _ (emit_invariant_check _)) _ _ =>
    at_latest ltac:(fun H => eapply wp_when_invariant; [eassumption|exact H|eassumption|eassumption|eassumption|
      let c := fresh "c" in let H' := fresh "Hat" in intros c H'; clear H; cbv beta])
  | |- wp (if _ is TokenKind.Number _ then _ else _) _ _ => run_prim condition_kind_prim
  end.

Ltac run_special ::=
  lazymatch goal with
  | |- wp (lookup_array _) _ _ => at_latest ltac:(fun H =>
      eapply wp_lookup_array; [solve [eauto 2 with prim]|exact H|intros; cbv beta])
  | |- wp (array_len _) _ _ => apply wp_array_len; [assumption|intros; cbv beta]
  | |- _ => run_loop_step
  end.

Section Loops2.
Context `{inp : Input} (Hin : input_ok) (n : Z) (self : calls) (Hself : calls_ok n self).

Lemma stmt_while_ok : Stmt n (stmt_while self).
Proof.
  start_stmt. unfold stmt_while. run.
Qed.

Lemma const_bound_prim d : Prim (const_bound d) 0 (fun _ => True).
Proof. start_prim. unfold const_bound. run. Qed.

Hint Resolve const_bound_prim : prim.

Lemma for_header_prim : Prim for_header 0 (fun r => in_u8 r.1.1).
Proof. start_prim. unfold for_header. run. Qed.

Lemma for_iterations_prim a b : Prim (for_iterations a b) 0 (fun _ => True).
Proof.
  start_prim. unfold for_iterations. run1; [run|]. run1; [|run].
  apply wp_panic. by apply andb_true_iff in Heqb1 as [? _].
Qed.

Hint Resolve for_header_prim for_iterations_prim : prim.

Lemma stmt_for_ok : Stmt n (stmt_for self).
Proof.
  start_stmt. unfold stmt_for. run.
Qed.
End Loops2.

Section Lets.
Context `{inp : Input} (Hin : input_ok) (n : Z) (self : calls) (Hself : calls_ok n self).

Lemma array_elems_spec arr_id most : in_u8 arr_id -> Spec n (array_elems self arr_id most) 0 (fun _ => True).
Proof.
  intros. start_spec. unfold array_elems. pose proof (len_nonneg tokens). run1.
  at_latest ltac:(fun H => eapply (wp_rounds _ (fun _ _ => True)); [exact H|done| |intros; run]).
  intros i c1 Hat1 Hp _. run.
Qed.

Hint Resolve array_elems_spec : spec.

Lemma let_array_spec ident : tok_ok ident -> Spec n (let_array self ident) 0 (fun _ => True).
Proof. intros. start_spec. unfold let_array. run. Qed.

Hint Resolve let_array_spec : spec.

Lemma fixed_scale_prim : Prim fixed_scale 0 (fun _ => True).
Proof. start_prim. unfold fixed_scale. run. Qed.

Hint Resolve fixed_scale_prim : prim.

(** The enum of an annotation is one that is declared. *)
Lemma wp_let_annotation ident c0 p c (Q : option (option Z * option Z) -> Compiler -> Prop) :
  tok_ok ident -> at_state c0 [] p c -> need c0 < n + 1 -> current c0 < p ->
  (forall o c', at_state c0 [] p c' ->
     (forall e s, o = Some (e, s) -> opt_below e (len (enums (names c')))) -> Q o c') ->
  wp (let_annotation self ident) Q c.
Proof.
  intros Hid Hat Hn Hp HQ. unfold let_annotation. pose proof (len_nonneg tokens).
  pose proof (free_range (temp_used c0)).
  run; apply HQ; try at_weak; intros e s; first [done | intros [= <- <-]; try done].
  intros e. apply lookup_enum_by_name_below.
Qed.

Lemma let_array_literal_spec ident : tok_ok ident -> Spec n (let_array_literal self ident) 0 (fun _ => True).
Proof. intros. start_spec. unfold let_array_literal. pose proof (len_nonneg tokens). run. Qed.

Lemma let_view_spec ident is_mut : tok_ok ident -> Spec n (let_view self ident is_mut) 0 (fun _ => True).
Proof. intros. start_spec. unfold let_view. run. Qed.

(** A variable takes the type of an enum that is declared. *)
Lemma wp_update_enum i f c0 rs p c (Q : unit -> Compiler -> Prop) : at_state c0 rs p c ->
  (forall v, var_ok (len (enums (names c))) v -> var_ok (len (enums (names c))) (f v)) ->
  (forall c', at_state c0 rs p c' -> Q tt c') -> wp (update_var i f) Q c.
Proof.
  intros Hat Hf HQ. apply wp_modify, HQ. pose proof (at_inv _ _ _ _ Hat) as Hc.
  destruct (inv_names _ Hc) as [[Hl Hv] _ _ _ _ _ _ _ _].
  eapply at_update; [done| |done..]. apply set_vars_inv; [done|by rewrite length_alter|].
  apply Forall_alter; [done|]. intros v Hi. apply Hf.
Qed.

Lemma wp_set_var_types ident e s c0 rs p c (Q : unit -> Compiler -> Prop) : at_state c0 rs p c ->
  opt_below e (len (enums (names c))) -> (forall c', at_state c0 rs p c' -> Q tt c') ->
  wp (set_var_types ident e s) Q c.
Proof.
  intros Hat He HQ. unfold set_var_types. apply wp_bind, wp_gets, wp_when_some; [|intros _; by apply HQ].
  intros i _. eapply wp_update_enum; [exact Hat| |done]. intros v (? & ? & _). by split_and!.
Qed.

Lemma union_opt_below a b m : opt_below a m -> opt_below b m -> opt_below (union_opt a b) m.
Proof. by destruct a. Qed.

Lemma opt_below_mono o m m' : opt_below o m -> m <= m' -> opt_below o m'.
Proof. intros H Hm e He. specialize (H e He). lia. Qed.

Lemma init_value_spec reg (spilled : option Z) : in_u8 reg -> (forall s, spilled = Some s -> in_u8 s) ->
  Spec n (match spilled with
          | Some slot =>
            temp_val ← alloc_temp;
            call_expression self temp_val;;
            emit PX64_OP_SPILL_STORE slot temp_val 0;;
            free_temp temp_val
          | None => call_expression self reg
          end) 0 (fun _ => True).
Proof.
  intros Hr Hs. start_spec. pose proof (len_nonneg tokens).
  destruct spilled as [slot|]; [specialize (Hs slot eq_refl)|]; run.
Qed.

(** Uses that the enums which were declared at the start still are. *)
Ltac at_latest_enum :=
  match goal with H : at_state _ [] _ ?c1 |- opt_below _ (len (enums (names ?c1))) =>
    by eapply opt_below_mono, (at_enums _ _ _ _ H) end.

Lemma wp_let_init ident reg e s c : tok_ok ident -> in_u8 reg -> Inv c -> need c < n ->
  opt_below e (len (enums (names c))) ->
  wp (let_init self ident reg e s) (fun _ c' => at_state c [] (current c + 0) c' /\ True) c.
Proof.
  intros Hid Hr Hc Hn He. pose proof (at_start c Hc). unfold let_init. do 5 run1.
  run_prim is_spilled_var_prim. run1.
  at_latest ltac:(fun H => eapply wp_spec; [by apply init_value_spec|exact H| |]);
    [need_solve|].
  intros a2 c3 Hat3 _. rewrite Z.add_0_r in Hat3. do 2 run1. 
  apply wp_bind, wp_gets, wp_bind, wp_gets, wp_bind.
  at_latest ltac:(fun H => eapply wp_set_var_types; [exact H| |]).
  - apply union_opt_below; [at_latest_enum|].
    match goal with H : at_state c [] _ ?c1 |- opt_below _ (len (enums (names ?c1))) =>
      apply (inv_enum _ (at_inv _ _ _ _ H)) end.
  - intros. run.
Qed.

Lemma wp_let_value ident m e s c : tok_ok ident -> Inv c -> need c < n ->
  opt_below e (len (enums (names c))) ->
  wp (let_value self ident m e s) (fun _ c' => at_state c [] (current c + 0) c' /\ True) c.
Proof.
  intros Hid Hc Hn He. pose proof (at_start c Hc). unfold let_value. run1.
  run_prim declare_var_prim. do 3 run1. run1.
  - at_latest ltac:(fun H =>
      pose proof (need_step _ _ _ H); pose proof (opt_below_mono _ _ _ He (at_enums _ _ _ _ H));
      eapply wp_rebase; [exact H|apply wp_let_init; [done..|apply H|lia|done]|]).
    intros. run.
  - run1; [|run].
    at_latest ltac:(fun H => eapply wp_set_var_types; [exact H| |]).
    + at_latest_enum.
    + intros. run.
Qed.

Lemma stmt_let_ok : Stmt n (stmt_let self).
Proof.
  start_stmt. unfold stmt_let. do 7 run1.
  assert (Hid : tok_ok (token_at (current c1))) by by apply token_at_ok.
  at_latest ltac:(fun H => eapply wp_let_annotation; [done|exact H|done|lia|]).
  intros o c3 Hat3 He. destruct o as [[e s]|]; [specialize (He e s eq_refl)|run].
  pose proof (need_step _ _ _ Hat3).
  do 4 run1. run1; [eapply wp_spec; [by apply let_array_literal_spec|exact Hat3|need_solve|]; intros; run|].
  run1; [eapply wp_spec; [by apply let_view_spec|exact Hat3|need_solve|]; intros; run|].
  eapply wp_rebase; [exact Hat3|apply wp_let_value; [done|apply Hat3|lia|done]|]. intros. run.
Qed.

End Lets.

Section Branches.
Context `{inp : Input} (Hin : input_ok) (n : Z) (self : calls) (Hself : calls_ok n self).

Lemma stmt_assert_ok : Stmt n (stmt_assert self).
Proof. start_stmt. unfold stmt_assert. run. Qed.

Lemma else_branch_spec : Spec n (else_branch self) 0 (fun _ => True).
Proof. start_spec. unfold else_branch. pose proof (len_nonneg tokens). run. Qed.

Hint Resolve else_branch_spec : spec.

Lemma stmt_if_ok : Stmt n (stmt_if self).
Proof. start_stmt. unfold stmt_if. run.
Qed.

End Branches.
