(* ===== verification/CompMatchSpec.v ===== *)
(** The specifications of [match], of functions with their contracts, of
    assignments, and of [statement]. *)

From S2P Require Import Prelude RustStd Isa Token Error CompErrors Compiler CompDecl CompExpr CompStmt.
From S2P Require Import CompLogic CompPrim CompDeclSpec CompExprSpec CompLevelSpec CompStmtSpec.
Local Open Scope Z_scope.

Section Match.
Context `{inp : Input} (Hin : input_ok) (n : Z) (self : calls) (Hself : calls_ok n self).

(** The arms so far have a flag per variant, and the type of an enum that is one
    of the [m] declared. *)
Definition arms_ok (m : Z) (a : arms) : Prop :=
  len (handled_variants a) = 16 /\ opt_below (match_enum_type a) m.

(** An operation that adds no case. *)
Definition same_cases (a a' : arms) : Prop :=
  handled_variants a' = handled_variants a /\ match_enum_type a' = match_enum_type a.

Lemma same_cases_ok m a a' : arms_ok m a -> same_cases a a' -> arms_ok m a'.
Proof. unfold arms_ok. by intros [? ?] [-> ->]. Qed.

Lemma arms_ok_mono m m' a : arms_ok m a -> m <= m' -> arms_ok m' a.
Proof. intros [? ?] ?. split; [done|]. by eapply opt_below_mono. Qed.

Lemma arm_body_spec a : Spec n (arm_body self a) 0 (same_cases a).
Proof. start_spec. unfold arm_body. pose proof (len_nonneg tokens). run. Qed.

Hint Resolve arm_body_spec : spec.

Lemma arm_wildcard_spec m a : arms_ok m a -> Spec n (arm_wildcard self a) 0 (arms_ok m).
Proof.
  intros [Hl He]. start_spec. unfold arm_wildcard. pose proof (len_nonneg tokens).
  run. eapply same_cases_ok; [|eassumption]. split; [|done]. simpl.
  unfold len in *. by rewrite length_map.
Qed.

Lemma wp_arm_compared a match_reg pat_reg c0 rs p c (Q : arms -> Compiler -> Prop) :
  at_state c0 (pat_reg :: rs) p c -> in_u8 match_reg -> 8 <= pat_reg <= 15 ->
  (free (temp_used c0) - len rs) * (len tokens + 1) + (len tokens - p) < n ->
  (forall a' c', at_state c0 rs p c' -> same_cases a a' -> Q a' c') ->
  wp (arm_compared self a match_reg pat_reg) Q c.
Proof.
  intros Hat Hm Hp Hn HQ. unfold arm_compared. pose proof (len_nonneg rs). pose proof (len_nonneg tokens).
  run. by eapply HQ.
Qed.

Lemma wp_variant_pattern a c (Q : Z * Z -> Compiler -> Prop) : Inv c ->
  kind (token_at (current c)) <> TokenKind.Eof ->
  (forall e v c', at_state c [] (current c + 1) c' -> 0 <= e < len (enums (names c')) -> 0 <= v < 16 ->
     Q (e, v) c') -> wp (variant_pattern a) Q c.
Proof.
  intros Hc Hk HQ. pose proof (at_start c Hc). unfold variant_pattern. do 6 run1.
  run1; [run|]. do 4 run1.
  apply wp_bind, wp_gets. destruct (lookup_enum_by_name _ _) as [e|] eqn:Ee; [|run].
  apply lookup_enum_by_name_below in Ee. run1; [run|].
  apply wp_bind, wp_gets. destruct (lookup_enum_variant _ _ _) as [v|] eqn:Ev; [|run].
  match goal with H : at_state c _ _ ?c1 |- wp _ _ ?c1 =>
    apply lookup_enum_variant_below in Ev; [|apply H] end.
  apply wp_ret. apply HQ; [at_weak|done|done].
Qed.

(** After an arm, the arms so far are those of the enums declared by then. *)
Definition arm_done c (again : bool) (a : arms) c' : Prop :=
  at_state c [] (current c + (if again then 1 else 0)) c' /\ arms_ok (len (enums (names c'))) a.

Lemma wp_arm_variant a match_reg c : in_u8 match_reg -> Inv c -> need c < n ->
  kind (token_at (current c)) <> TokenKind.Eof -> arms_ok (len (enums (names c))) a ->
  wp (arm_variant self a match_reg) (arm_done c true) c.
Proof.
  intros Hm Hc Hn Hk Ha. unfold arm_variant. pose proof (len_nonneg tokens). run1.
  apply wp_variant_pattern; [done..|]. intros e v c1 Hat1 He Hv.
  pose proof (need_step _ _ _ Hat1) as Hn1.
  destruct (arms_ok_mono _ _ _ Ha (at_enums _ _ _ _ Hat1)) as [Hl _].
  assert (Hinv : Inv c1) by apply Hat1.
  apply (wp_mono _ (fun a' c' => at_state c1 [] (current c1 + 0) c' /\ arms_ok (len (enums (names c'))) a')).
  2: { intros a' c' [H1 H2]. split; [|done]. eapply at_weaken; [by eapply at_ext|lia]. }
  clear Hat1. pose proof (at_start c1 Hinv) as Hat1.
  destruct (getZ_lt_Some (handled_variants a) v) as [h Hh]; [lia|].
  apply wp_bind. eapply wp_idx; [exact Hh|]. do 7 run1.
  at_latest ltac:(fun H => eapply wp_arm_compared; [exact H|done|done|unfold need in *; rewrite len_nil; lia|]).
  intros a' c' Hat' Hsame. split; [at_weak|]. eapply same_cases_ok; [|exact Hsame]. split; simpl.
  - by rewrite len_setZ.
  - intros e' [= <-]. pose proof (at_enums _ _ _ _ Hat'). lia.
Qed.

Lemma binding_eats lparen rparen arrow c (Q : Token -> Compiler -> Prop) : Inv c ->
  kind (token_at (current c)) <> TokenKind.Eof ->
  (forall t c', at_state c [] (current c + 1) c' -> tok_ok t -> Q t c') ->
  wp (binding lparen rparen arrow) Q c.
Proof.
  intros Hc Hk HQ. pose proof (at_start c Hc). unfold binding. run.
  apply HQ; [at_weak|by apply token_at_ok].
Qed.

Lemma arm_test_prim f r : in_u8 f -> in_u8 r -> Prim (arm_test f r) 0 (fun _ => True).
Proof. intros. start_prim. unfold arm_test. run. Qed.

Hint Resolve arm_test_prim : prim.

Lemma arm_done_same c a a' c' again : at_state c [] (current c + (if again : bool then 1 else 0)) c' ->
  arms_ok (len (enums (names c))) a -> same_cases a a' -> arm_done c again a' c'.
Proof.
  intros Hat Ha Hs. split; [done|]. eapply same_cases_ok; [|done].
  eapply arms_ok_mono; [done|]. apply (at_enums _ _ _ _ Hat).
Qed.

Lemma wp_arm_ok a match_reg c : in_u8 match_reg -> Inv c -> need c < n ->
  kind (token_at (current c)) <> TokenKind.Eof -> arms_ok (len (enums (names c))) a ->
  wp (arm_ok self a match_reg) (arm_done c true) c.
Proof.
  intros Hm Hc Hn Hk Ha. unfold arm_ok. pose proof (len_nonneg tokens). run1.
  apply binding_eats; [done..|]. intros t c1 Hat1 Ht. pose proof (free_range (temp_used c)).
  run. eapply arm_done_same; [simpl; eassumption|exact Ha|eassumption].
Qed.

Lemma wp_arm_err a match_reg c : in_u8 match_reg -> Inv c -> need c < n ->
  kind (token_at (current c)) <> TokenKind.Eof -> arms_ok (len (enums (names c))) a ->
  wp (arm_err self a match_reg) (arm_done c true) c.
Proof.
  intros Hm Hc Hn Hk Ha. unfold arm_err. pose proof (len_nonneg tokens). run1.
  apply binding_eats; [done..|]. intros t c1 Hat1 Ht. pose proof (free_range (temp_used c)).
  run. eapply arm_done_same; [simpl; eassumption|exact Ha|eassumption].
Qed.

Lemma wp_arm_expr a match_reg c : in_u8 match_reg -> Inv c -> need c < n ->
  arms_ok (len (enums (names c))) a -> wp (arm_expr self a match_reg) (arm_done c true) c.
Proof.
  intros Hm Hc Hn Ha. unfold arm_expr. pose proof (len_nonneg tokens). pose proof (at_start c Hc).
  do 6 run1.
  at_latest ltac:(fun H => eapply wp_arm_compared; [exact H|done|done|unfold need in *; rewrite len_nil; lia|]).
  intros. eapply arm_done_same; [simpl; at_weak|exact Ha|eassumption].
Qed.

Lemma wp_arm a match_reg c : in_u8 match_reg -> Inv c -> need c < n ->
  kind (token_at (current c)) <> TokenKind.Eof -> arms_ok (len (enums (names c))) a ->
  wp (arm self match_reg a) (fun r => arm_done c r.2 r.1) c.
Proof.
  intros Hm Hc Hn Hk Ha. unfold arm. pose proof (at_start c Hc).
  do 2 run1. apply wp_bind, wp_text; [done|by apply token_at_ok|]. intros name _. do 2 run1.
  run1; [|run1; [|run1; [|run1]]]; apply wp_bind.
  - at_latest ltac:(fun H => eapply wp_spec; [by apply (arm_wildcard_spec (len (enums (names c))))|exact H|need_solve|]).
    intros a' c' Hat' Ha'. apply wp_ret. split; [simpl; at_weak|].
    eapply arms_ok_mono; [exact Ha'|apply (at_enums _ _ _ _ Hat')].
  - eapply wp_mono; [by apply wp_arm_variant|done].
  - eapply wp_mono; [by apply wp_arm_ok|done].
  - eapply wp_mono; [by apply wp_arm_err|done].
  - eapply wp_mono; [by apply wp_arm_expr|done].
Qed.

Lemma wp_check_exhaustive a c (Q : unit -> Compiler -> Prop) :
  arms_ok (len (enums (names c))) a -> Q tt c -> wp (check_exhaustive a) Q c.
Proof.
  intros [Hl He] HQ. unfold check_exhaustive. destruct (match_enum_type a) as [e|].
  - run1; [by apply wp_ret|]. apply wp_bind, wp_gets, wp_bind.
    destruct (getZ_lt_Some (enums (names c)) e) as [d Hd]; [by apply He|].
    eapply wp_idx; [exact Hd|]. run1; [by apply wp_ret|run].
  - run1; [run|]. run1; [run|by apply wp_ret].
Qed.

Lemma patch_all_prim l : Prim (patch_all l) 0 (fun _ => True).
Proof. induction l as [|x l IH]; start_prim; simpl; run. Qed.

Hint Resolve patch_all_prim : prim.

(** An operation that keeps what was known of the enums. *)
Lemma wp_prim_enum {A} (m : comp A) d φ o c0 rs p c Q : Prim m d φ -> at_state c0 rs p c ->
  opt_below o (len (enums (names c))) ->
  (forall a c', at_state c0 rs (p + d) c' -> φ a -> opt_below o (len (enums (names c'))) -> Q a c') ->
  wp m Q c.
Proof.
  intros Hm Hat Ho HQ. eapply wp_mono; [apply Hm, Hat|]. intros a c' [Hat' Ha].
  apply HQ; [by eapply at_ext|done|]. eapply opt_below_mono; [done|apply (at_enums _ _ _ _ Hat')].
Qed.

Lemma stmt_match_ok : Stmt n (stmt_match self).
Proof.
  start_stmt. unfold stmt_match. do 8 run1. apply wp_bind, wp_gets, wp_bind.
  at_latest ltac:(fun H => pose proof (inv_enum _ (at_inv _ _ _ _ H)) as He;
    eapply wp_prim_enum; [by apply expect_prim|exact H|exact He|]).
  intros _ c7 Hat7 _ He3. clear He. apply wp_bind.
  eapply (wp_rounds _ (fun a c => arms_ok (len (enums (names c))) a)); [exact Hat7|done| |].
  - intros a8 c8 Hat4 Hp4 Ha. do 2 run1. run1; [run1; split; [split; [at_weak|done]|done]|].
    run1; [run|]. apply orb_false_iff in Heqb as [_ Hk4%bool_decide_eq_false].
    pose proof (need_at _ _ _ _ Hat4) as Hn4. rewrite len_cons, len_nil in Hn4.
    eapply wp_mono; [apply wp_arm; [u8|apply Hat4|unfold need in *; nia|exact Hk4|exact Ha]|].
    intros [a9 again] c9 [Hat5 Ha9]. simpl in *. pose proof (at_current _ _ _ _ Hat5).
    split; [split; [|done]|intros ->; lia].
    eapply at_weaken; [eapply at_ext; [exact Hat4|exact Hat5]|]. case_match; lia.
  - intros a8 c8 Hat4 [Hl He]. run1.
    eapply wp_prim_enum; [by apply expect_prim|exact Hat4|exact He|]. intros _ c9 Hat5 _ He5.
    run1. apply wp_check_exhaustive; [done|]. run.
Qed.

End Match.

Section Functions.
Context `{inp : Input} (Hin : input_ok) (n : Z) (self : calls) (Hself : calls_ok n self).

Lemma param_type_prim : Prim param_type 0 (fun _ => True).
Proof. start_prim. unfold param_type. run. Qed.

Hint Resolve param_type_prim : prim.

Lemma fn_params_prim : Prim fn_params 0 (fun l => len l <= 4).
Proof.
  start_prim. unfold fn_params.
  eapply (wp_rounds _ (fun l _ => len l <= 4)); [exact H|done| |].
  - intros l c1 H1 Hle Hl. run; simpl; rewrite ?len_app; change (len [_]) with 1; lia.
  - intros l c' H' Hl. finish.
Qed.

Lemma update_fn_prim i f : (forall m, fn_ok m -> fn_ok (f m)) -> Prim (update_fn i f) 0 (fun _ => True).
Proof.
  intros Hf. apply Prim_modify. intros c Hc.
  assert (Hl : forall l : list FnMeta, len (alter f (Z.to_nat i) l) = len l)
    by (intros; unfold len; by rewrite length_alter).
  split; [|split_and!; try done; simpl; by rewrite Hl].
  destruct Hc as [? ? [? ? ? Hfn ? ? ? ? ?] ? Hcf ?]. constructor; try done; simpl.
  - constructor; try done. simpl. apply Forall_alter; [done|]. intros m _. apply Hf.
  - by rewrite Hl.
Qed.

Lemma clause_wcet_prim i : Prim (clause_wcet i) 0 (fun _ => True).
Proof.
  start_prim. unfold clause_wcet.
  assert (forall w, Prim (update_fn i (fun f => set_declared_wcet_ns f (Some w))) 0 (fun _ => True)).
  { intros w. by apply update_fn_prim. }
  run.
Qed.

Lemma clause_requires_spec : Spec n (clause_requires self) 0 (fun _ => True).
Proof. start_spec. unfold clause_requires. pose proof (len_nonneg tokens). run. Qed.

Lemma add_ensures_ok a b m : 0 <= a <= len tokens -> fn_ok m ->
  fn_ok (if len (ensures_tokens m) <? 4 then set_ensures_tokens m (ensures_tokens m ++ [(a, b)]) else m).
Proof.
  intros Ha [Hp He]. case_match; [|done]. split; [done|]. simpl. apply Forall_app. split; [done|].
  by constructor.
Qed.

Lemma clause_ensures_prim i : Prim (clause_ensures i) 0 (fun _ => True).
Proof.
  start_prim. unfold clause_ensures. do 2 run1. apply wp_bind, wp_gets.
  at_latest ltac:(fun H => pose proof (inv_current _ (at_inv _ _ _ _ H)) as Hcur).
  do 2 run1. run1; [run|]. apply wp_bind, wp_gets.
  assert (Hu := fun b => update_fn_prim i _ (fun m => add_ensures_ok _ b m Hcur)). run.
Qed.

Hint Resolve clause_wcet_prim clause_ensures_prim : prim.
Hint Resolve clause_requires_spec : spec.

Lemma fn_clauses_spec i : Spec n (fn_clauses self i) 0 (fun _ => True).
Proof.
  start_spec. unfold fn_clauses. pose proof (len_nonneg tokens).
  at_latest ltac:(fun H => eapply (wp_rounds _ (fun _ _ => True)); [exact H|done| |intros; by split; [at_weak|]]).
  intros u c1 Hat1 Hp _. run1. run1. destruct (kind (token_at (current c1))) eqn:Ek; run.
Qed.

(** The function that is compiled is one of those declared. *)
Lemma wp_fn_at {A} i c (f : FnMeta -> comp A) Q : 0 <= i < len (functions (names c)) -> Inv c ->
  (forall m, fn_ok m -> wp (f m) Q c) ->
  wp (l ← gets (fun c => functions (names c)); m ← lift (idx l i); f m) Q c.
Proof.
  intros Hi Hc HQ. apply wp_bind, wp_gets, wp_bind. apply getZ_lt_Some in Hi as [m Hm].
  eapply wp_idx; [exact Hm|]. apply HQ. destruct (inv_names _ Hc) as [_ _ _ Hf _ _ _ _ _].
  by eapply Forall_getZ in Hf.
Qed.

Lemma wp_assert_all l c0 p c (Q : unit -> Compiler -> Prop) : at_state c0 [] p c ->
  Forall (fun x => 0 <= x.1 <= len tokens) l -> need c0 < n + 1 -> 0 <= current c0 <= len tokens ->
  (forall c' q, at_state c0 [] q c' -> Q tt c') -> wp (assert_all self l) Q c.
Proof.
  intros Hat Hl Hn Hcur HQ. unfold need in Hn. revert p c Hat.
  induction Hl as [|[a b] l Ha _ IH]; intros p c Hat; simpl; [by eapply wp_ret, HQ|].
  simpl in Ha. apply wp_bind. eapply wp_assert_at; [done|exact Hat|exact Ha|rewrite len_nil; lia|].
  intros c' Hat'. by eapply IH.
Qed.

Lemma wp_ensures_checks i c0 p c (Q : unit -> Compiler -> Prop) : at_state c0 [] p c ->
  need c0 < n + 1 -> 0 <= current c0 <= len tokens -> 0 <= i < len (functions (names c)) ->
  (forall c', at_state c0 [] p c' -> Q tt c') -> wp (emit_ensures_checks self i) Q c.
Proof.
  intros Hat Hn Hcur Hi HQ. unfold emit_ensures_checks. apply wp_fn_at; [done|apply Hat|].
  intros m [_ Hm]. apply wp_bind, wp_gets, wp_bind. eapply wp_assert_all; [exact Hat|done..|].
  intros c' q Hat'. eapply wp_restore; [exact Hat'| | |done].
  all: pose proof (inv_current _ (at_inv _ _ _ _ Hat)); pose proof (at_current _ _ _ _ Hat); lia.
Qed.

Lemma put_items_prim l : Prim (modify (fun c => put_wcet_items c l)) 0 (fun _ => True).
Proof. unmentioned. Qed.

Hint Resolve put_items_prim : prim.

Lemma wp_fn_wcet i k c : Inv c -> 0 <= i < len (functions (names c)) ->
  wp (fn_wcet i k) (fun _ c' => at_state c [] (current c + 0) c' /\ True) c.
Proof.
  intros Hc Hi. pose proof (at_start c Hc). unfold fn_wcet. cbv zeta. run1.
  at_latest ltac:(fun H => eapply wp_prim; [apply update_fn_prim|exact H|]); [by intros m|].
  intros _ c1 Hat1 _. pose proof (at_fns _ _ _ _ Hat1). rewrite Z.add_0_r in Hat1.
  apply wp_fn_at; [lia|apply Hat1|]. intros m Hm. run.
Qed.

Lemma wp_fn_body i c : Inv c -> need c < n -> 0 <= i < len (functions (names c)) ->
  wp (fn_body self i) (fun _ c' => at_state c [] (current c + 0) c' /\ True) c.
Proof.
  intros Hc Hn Hi. pose proof (at_start c Hc). pose proof (inv_current c Hc).
  unfold fn_body. pose proof (len_nonneg tokens). do 9 run1.
  at_latest ltac:(fun H => pose proof (at_fns _ _ _ _ H);
    eapply wp_rebase; [exact H|apply wp_fn_wcet; [apply H|lia]|]).
  intros _ c7 Hat7 _. pose proof (at_fns _ _ _ _ Hat7). run1.
  at_latest ltac:(fun H => eapply wp_ensures_checks; [exact H|lia|lia|lia|]). intros. run.
Qed.

Lemma fn_header_prim : Prim fn_header 0 (fun _ => True).
Proof. start_prim. unfold fn_header. run. Qed.

Hint Resolve fn_header_prim fn_params_prim fn_clauses_spec : prim spec.

(** The state after a new function has been declared, which is then the one
    being compiled. *)
Definition enter_fn (f : FnMeta) (c : Compiler) : Compiler :=
  set_current_fn (put_functions c (functions (names c) ++ [f])) (Some (len (functions (names c)))).

Lemma enter_fn_inv f c : fn_ok f -> Inv c -> Inv (enter_fn f c).
Proof.
  intros Hf [? ? [? ? ? Hfn ? ? ? ? ?] ? Hcf ?]. pose proof (len_nonneg (functions (names c))).
  constructor; try done; simpl.
  - constructor; try done. simpl. apply Forall_app. by split; [|constructor].
  - intros e [= <-]. rewrite len_app. change (len [f]) with 1. lia.
Qed.

(** Back in the function that encloses it. *)
Lemma leave_fn f c0 rs p c q c' k : at_state c0 rs p c -> at_state (enter_fn f c) [] q c' -> p <= q ->
  0 <= k <= 48 -> at_state c0 rs p (set_current_fn (put_var_count c' k) (current_fn c)).
Proof.
  intros Hat Hat' Hq Hk. pose proof (at_fns _ _ _ _ Hat') as Hfns.
  pose proof (inv_fn _ (at_inv _ _ _ _ Hat)) as Hfn. simpl in Hfns.
  rewrite len_app in Hfns. change (len [f]) with 1 in Hfns.
  destruct Hat as [Hi Ho ? ? ? ?], Hat' as [Hi' Ho' ? ? ? ?]. simpl in *. constructor; simpl; try done; try lia.
  - pose proof (put_var_count_inv _ k Hi' Hk) as Hv. destruct Hv. constructor; try done. simpl.
    eapply opt_below_mono; [exact Hfn|]. lia.
  - apply owned_nil in Ho'. by eapply owned_subset.
Qed.

Lemma when_advance_prim b : Prim (when b (advance;; mret tt)) 0 (fun _ => True).
Proof. start_prim. run. Qed.

Lemma stmt_fn_ok : Stmt n (stmt_fn self).
Proof.
  start_stmt. unfold stmt_fn. do 17 run1. run_prim when_advance_prim.
  match goal with H : at_state c [] _ ?c1 |- _ => rename c1 into c8; rename H into Hat8 end.
  apply wp_bind, wp_gets, wp_bind, wp_modify, wp_bind, wp_gets, wp_bind, wp_modify, wp_bind, wp_gets.
  assert (Hfok : fn_ok (mkFn (take 32 a) (as_u16 a1) a3 [] None 0)) by by split.
  pose proof (need_step _ _ _ Hat8). pose proof (at_inv _ _ _ _ Hat8) as Hc8.
  assert (Hc9 := enter_fn_inv _ _ Hfok Hc8). set (f := mkFn _ _ _ _ _ _) in *.
  match goal with |- wp _ _ ?c1 => change c1 with (enter_fn f c8) end.
  assert (Hlen : len (functions (names (enter_fn f c8))) = len (functions (names c8)) + 1)
    by (simpl; by rewrite len_app).
  assert (Hneed : need (enter_fn f c8) = need c8) by done.
  pose proof (len_nonneg (functions (names c8))). pose proof (at_start _ Hc9) as Hat9.
  run1. run1. run1.
  match goal with H : at_state _ _ _ ?c1 |- wp _ _ ?c1 => rename H into Hat10 end.
  pose proof (at_fns _ _ _ _ Hat10). pose proof (need_step _ _ _ Hat10).
  eapply wp_rebase; [exact Hat10|apply wp_fn_body; [apply Hat10|lia|lia]|].
  intros _ c11 Hat11 _. apply wp_bind, wp_modify.
  destruct (inv_names _ Hc8) as [_ [Hv _] _ _ _ _ _ _ _].
  pose proof (at_current _ _ _ _ Hat8) as Hcur.
  pose proof (leave_fn f c [] _ c8 _ c11 (var_count (names c8))
    (at_weaken _ _ _ _ _ Hat8 (Z.le_refl _)) Hat11 ltac:(simpl; lia) Hv) as Hat12.
  eapply wp_prim; [apply patch_here_prim|exact Hat12|]. intros. run.
Qed.

Lemma stmt_return_ok : Stmt n (stmt_return self).
Proof.
  start_stmt. unfold stmt_return. do 5 run1.
  assert (Hvalue : Spec n (when (negb (keq (kind (token_at (current c0))) TokenKind.Semi))
    (call_expression self 0)) 0 (fun _ => True)) by (start_spec; run).
  at_latest ltac:(fun H => eapply wp_spec; [exact Hvalue|exact H|need_solve|]).
  intros _ c1 Hat1 _. rewrite Z.add_0_r in Hat1. do 2 run1. apply wp_bind, wp_gets, wp_bind, wp_when_some.
  - intros f Hcf. at_latest ltac:(fun H => eapply wp_ensures_checks;
      [exact H|lia|lia|by apply (inv_fn _ (at_inv _ _ _ _ H))|]). intros. run.
  - intros _. run.
Qed.

End Functions.

Section Assign.
Context `{inp : Input} (Hin : input_ok) (n : Z) (self : calls) (Hself : calls_ok n self).

Lemma expect_assign_prim d : Prim (expect_assign d) 0 (fun _ => True).
Proof. start_prim. unfold expect_assign. run. Qed.

Hint Resolve expect_assign_prim : prim.

Lemma assign_field_ok : Stmt n (assign_field self).
Proof. start_stmt. unfold assign_field. run. Qed.

Lemma assign_element_ok : Stmt n (assign_element self).
Proof. start_stmt. unfold assign_element. run. Qed.

(** The type of the last expression is an enum that is declared. *)
Lemma set_var_enum_prim ident : Prim (set_var_enum ident) 0 (fun _ => True).
Proof.
  start_prim. unfold set_var_enum. apply wp_bind, wp_gets, wp_bind, wp_gets, wp_when_some; [|intros _; run].
  intros i _. eapply wp_update_enum; [exact H| |intros; run].
  intros v (? & ? & _). split_and!; [done..|]. apply (inv_enum _ Hc).
Qed.

Hint Resolve set_var_enum_prim : prim.

Lemma spilled_update_spec ident slot op d : tok_ok ident -> in_u8 slot -> in_u8 op ->
  Spec n (spilled_update self ident slot op d) 0 (fun _ => True).
Proof. intros. start_spec. unfold spilled_update. pose proof (len_nonneg tokens). run. Qed.

Lemma spilled_assign_spec ident slot : tok_ok ident -> in_u8 slot ->
  Spec n (spilled_assign self ident slot) 0 (fun _ => True).
Proof. intros. start_spec. unfold spilled_assign. pose proof (len_nonneg tokens). run. Qed.

Hint Resolve spilled_update_spec spilled_assign_spec : spec.

Lemma assign_spilled_spec ident slot : tok_ok ident -> in_u8 slot ->
  Spec n (assign_spilled self ident slot) 0 (fun _ => True).
Proof. intros. start_spec. unfold assign_spilled. run. Qed.

Lemma reg_assign_spec ident r : tok_ok ident -> in_u8 r -> Spec n (reg_assign self ident r) 0 (fun _ => True).
Proof. intros. start_spec. unfold reg_assign. pose proof (len_nonneg tokens). run. Qed.

Lemma small_number_u8 k z : (match k with
   | TokenKind.Number n => if (0 <=? n) && (n <=? 255) then Some n else None
   | _ => None
   end) = Some z -> in_u8 z.
Proof. destruct k; try done. case_match eqn:E; [|done]. intros [= <-]. u8. Qed.

Lemma reg_update_spec ident r op opi d : tok_ok ident -> in_u8 r -> in_u8 op -> in_u8 opi ->
  Spec n (reg_update self ident r op opi d) 0 (fun _ => True).
Proof.
  intros. start_spec. unfold reg_update. pose proof (len_nonneg tokens). run.
  match goal with H : _ = Some z |- _ => apply small_number_u8 in H end. run.
Qed.

Hint Resolve assign_spilled_spec reg_assign_spec reg_update_spec : spec.

Lemma expression_statement_ok : Stmt n (expression_statement self).
Proof. start_stmt. unfold expression_statement. run. Qed.

(** An expression statement starts over at the variable. *)
Lemma wp_assign_reg ident c0 c : tok_ok ident -> need c0 < n + 1 -> 0 <= current c0 ->
  at_state c0 [] (current c0 + 1) c ->
  wp (assign_reg self ident) (fun _ c' => at_state c0 [] (current c0 + 1) c' /\ True) c.
Proof.
  intros Hid Hn Hcur Hat. pose proof (len_nonneg tokens). pose proof (free_range (temp_used c0)).
  unfold assign_reg. run.
  apply wp_modify. pose proof (at_inv _ _ _ _ Hat) as Hi. pose proof (inv_current _ Hi).
  pose proof (at_current _ _ _ _ Hat).
  assert (Hback : at_state c0 [] (current c0) (set_current c4 (current c4 - 1))).
  { destruct Hat. constructor; try done; [apply set_current_inv; [done|lia] | simpl; lia]. }
  clear Hat. unfold expression_statement. run.
Qed.

Lemma stmt_var_ok : Stmt n (stmt_var self).
Proof.
  start_stmt. unfold stmt_var. do 2 run1. run1; [by apply assign_field_ok|].
  run1; [by apply assign_element_ok|]. do 3 run1. run_prim is_spilled_var_prim.
  assert (Hid : tok_ok (token_at (current c))) by by apply token_at_ok.
  assert (Hspec : Spec n (match a with Some slot => assign_spilled self (token_at (current c)) slot
    | None => mret false end) 0 (fun _ => True)).
  { destruct a as [slot|]; [specialize (Hf slot eq_refl)|]; start_spec; run. }
  run1. at_latest ltac:(fun H => eapply wp_spec; [exact Hspec|exact H|need_solve|]).
  intros b c3 Hat3 _. rewrite Z.add_0_r in Hat3. run1; [run|]. apply wp_assign_reg; [done|done|lia|done].
Qed.

Lemma keyword_ok (m : comp unit) : Prim m 0 (fun _ => True) -> Stmt n (advance;; m).
Proof. intros Hm. start_stmt. run. Qed.

(** The specification of the statement that a keyword starts. *)
Ltac statement_of :=
  lazymatch goal with
  | |- wp (expression_statement _) _ _ => eapply expression_statement_ok
  | |- wp stmt_import _ _ => eapply stmt_import_ok
  | |- wp stmt_test _ _ => eapply stmt_test_ok
  | |- wp stmt_contract _ _ => eapply stmt_contract_ok
  | |- wp (stmt_pipeline _) _ _ => eapply stmt_pipeline_ok
  | |- wp (stmt_on _) _ _ => eapply stmt_on_ok
  | |- wp (stmt_within _) _ _ => eapply stmt_within_ok
  | |- wp (stmt_while _) _ _ => eapply stmt_while_ok
  | |- wp (stmt_for _) _ _ => eapply stmt_for_ok
  | |- wp (stmt_let _) _ _ => eapply stmt_let_ok
  | |- wp (stmt_assert _) _ _ => eapply stmt_assert_ok
  | |- wp (stmt_if _) _ _ => eapply stmt_if_ok
  | |- wp (stmt_match _) _ _ => eapply stmt_match_ok
  | |- wp (stmt_fn _) _ _ => eapply stmt_fn_ok
  | |- wp (stmt_return _) _ _ => eapply stmt_return_ok
  | |- wp (stmt_var _) _ _ => eapply stmt_var_ok
  | |- wp stmt_pool_size _ _ => eapply stmt_pool_size_ok
  | |- wp (advance ≫= _) _ _ => eapply keyword_ok
  end.

Lemma statement_spec : Spec (n + 1) (statement self) 1 (fun _ => True).
Proof.
  start_spec. unfold statement. do 2 run1.
  destruct (decide (kind (token_at (current c)) = TokenKind.Eof)) as [E|Hk].
  { rewrite E. unfold expression_statement. pose proof (len_nonneg tokens). run. }
  destruct (kind (token_at (current c))) eqn:Ek; try done; statement_of.
  all: try first [eassumption | rewrite Ek; discriminate].
  all: lazymatch goal with
       | |- Prim declare_struct_def _ _ => by apply declare_struct_def_prim
       | |- Prim declare_enum_def _ _ => by apply declare_enum_def_prim
       | |- Prim declare_const_table _ _ => by apply declare_const_table_prim
       | |- Prim (mret tt) _ _ => start_prim; run
       end.
Qed.

End Assign.
