(* ===== verification/CompTotal.v ===== *)
(** The compiler ends: the calls of the recursive descent are never deeper than
    the tokens and the scratch registers allow, it panics only where [allowed]
    says, and what it emits fits the container. *)

From S2P Require Import Prelude RustStd Isa Token Error CompErrors Compiler CompDecl CompExpr CompStmt.
From S2P Require Import CompLogic CompPrim CompDeclSpec CompExprSpec CompLevelSpec CompStmtSpec CompMatchSpec.
Local Open Scope Z_scope.

Section Total.
Context `{inp : Input} (Hin : input_ok).

Lemma need_nonneg c : Inv c -> 0 <= need c.
Proof.
  intros Hc. unfold need. pose proof (free_range (temp_used c)). pose proof (inv_current c Hc). nia.
Qed.

Lemma tie_ok k : calls_ok (Z.of_nat k) (tie k).
Proof.
  induction k as [|k IH].
  - split; intros; intros c Hc Hn; pose proof (need_nonneg c Hc); lia.
  - replace (Z.of_nat (S k)) with (Z.of_nat k + 1) by lia. simpl.
    split; intros; [by apply expression_spec|by apply ternary_spec|by apply primary_spec|].
    by apply statement_spec.
Qed.

Lemma new_compiler_inv : Inv new_compiler.
Proof.
  assert (Hn : names_ok (names new_compiler)).
  { constructor; try by constructor.
    - split; [done|]. simpl. repeat (constructor; [split_and!; [u8|u8|done]|]). constructor.
    - split; [by vm_compute|]. intros i a Hi%getZ_Some_lt. simpl in Hi. change (len (@nil ArrayMeta)) with 0 in Hi. lia. }
  constructor; try done; simpl.
  - pose proof (len_nonneg tokens). lia.
  - split; simpl; [|by split; [constructor|]|done]. by split; [constructor|].
  - by left.
Qed.

(** What the compiler needs: nine calls per token, and nine more. *)
Definition compile_fuel : nat := 9 * S (length tokens).

Lemma check_consumed_prim : Prim check_consumed 0 (fun _ => True).
Proof.
  start_prim. unfold check_consumed, wp. destruct (unconsumed_handle c); [done|]. finish.
Qed.

Lemma script_wcet_prim : Prim script_wcet 0 (fun _ => True).
Proof.
  start_prim. unfold script_wcet. cbv zeta.
  assert (forall w, Prim (modify (fun c => put_total_synthesized_wcet_ns c w)) 0 (fun _ => True)).
  { intros w. unmentioned. }
  run.
Qed.

Hint Resolve check_consumed_prim script_wcet_prim : prim.

Lemma compile_wp fuel : (compile_fuel <= fuel)%nat ->
  wp (compile fuel) (fun n c => Inv c /\ n = len (code (out c))) new_compiler.
Proof.
  intros Hf. unfold compile. pose proof new_compiler_inv as Hc.
  pose proof (at_start new_compiler Hc) as Hat. run1.
  eapply wp_until; [exact Hat| |].
  - intros c1 Hat1 Hp Hk. run1.
    eapply wp_spec; [by apply statement_spec, tie_ok|exact Hat1| |].
    + unfold compile_fuel in Hf. change (free (temp_used new_compiler)) with 8. rewrite len_nil.
      change (current new_compiler) with 0 in Hp. unfold len. lia.
    + intros. run.
  - intros c1 Hat1. do 5 run1. run1. apply wp_gets. split; [|done]. eapply at_inv. eassumption.
Qed.

(** The results of [compile]. *)
Lemma compile_result fuel : (compile_fuel <= fuel)%nat ->
  match compile fuel new_compiler with
  | Ok (n, c) => n = len (code (out c)) /\ out_ok (out c)
  | Err (Diagnostic _) => True
  | Err OutOfFuel => False
  | Panic p => allowed p
  end.
Proof.
  intros Hf. pose proof (compile_wp fuel Hf) as H. unfold wp in H.
  destruct (compile fuel new_compiler) as [[n c]|[]|]; [|done..]. destruct H as [Hc ->].
  split; [done|]. apply (inv_out c Hc).
Qed.

(** C3: the compiler is total and safe. On the tokens of any source (they lie in
    it), and whatever the program says, [compile] returns within nine nested
    calls per token (a measure of the free scratch registers and of the tokens
    left bounds the recursive descent, although [@invariant] and [@ensures]
    compile their conditions again): with a diagnostic, or with code that is a
    sequence of whole instructions of at most 4096 bytes, at most 512 bytes of
    strings and at most 64 constants. It never slices out of range; it indexes
    out of bounds only in a program with a [@pool_size] pragma, and a build with
    overflow checks panics only on arithmetic. *)
Theorem compile_total fuel : (compile_fuel <= fuel)%nat ->
  match compile fuel new_compiler with
  | Ok (n, c) => n = len (code (out c)) /\ out_ok (out c)
  | Err (Diagnostic _) => True
  | Err OutOfFuel => False
  | Panic p => allowed p
  end.
Proof. by apply compile_result. Qed.

End Total.

(** [return -$x;] at the top level. *)
Definition sample_input : Input := mkInput (bytes "return -$x;")
  [mkToken TokenKind.Return 0 6 1 1; mkToken TokenKind.Minus 7 1 1 8; mkToken TokenKind.VarIdent 8 2 1 9;
   mkToken TokenKind.Semi 10 1 1 11; mkToken TokenKind.Eof 11 0 1 12] true.

Theorem compile_total_witness :
  let inp := sample_input in
  input_ok /\
  match compile compile_fuel new_compiler with
  | Ok (n, c) => n = len (code (out c)) /\ out_ok (out c)
  | Err (Diagnostic _) => True
  | Err OutOfFuel => False
  | Panic p => allowed p
  end.
Proof.
  intros inp. assert (H : input_ok).
  { split; [compute_fact|]. repeat (constructor; [vm_compute; split_and!; congruence|]). constructor. }
  split; [exact H|]. exact (compile_total H compile_fuel (le_n _)).
Defined.
