(* ===== verification/Toolchain.v ===== *)
(** The entry points of the library (pulselang-core/src/lib.rs): from source
    text to a px64 container ([compile_pulse_to_binary_with_tokens] and its
    wrappers), the statistics of [check], and [compile_pulse_tests]. They
    compose the lexer, the compiler and the container writer. *)

From S2P Require Import Prelude RustStd Isa Token Error Crc VmState VmExec Vm VmRun Binary Lexer LexerProps.
From S2P Require Import CompErrors Compiler CompDecl CompExpr CompStmt.
From S2P Require Import CompLogic CompPrim CompDeclSpec CompExprSpec CompLevelSpec CompStmtSpec CompMatchSpec CompTotal.
Local Open Scope Z_scope.

(** * Errors of the parts *)

(** A result of the lexer or of the writer, among the failures of the compiler. *)
Definition diagnose {A} (r : outcome CompileError A) : outcome failure A :=
  match r with
  | Ok a => Ok a
  | Err e => Err (Diagnostic e)
  | Panic p => Panic p
  end.

Definition lexed {A} (r : option (outcome CompileError A)) : outcome failure A :=
  match r with
  | Some r => diagnose r
  | None => Err OutOfFuel
  end.

(** [Compiler::new(src, toks).compile()]. *)
Definition run_compiler (oc : bool) (src : list Z) (toks : list Token) : outcome failure (Z * Compiler) :=
  let inp := mkInput src toks oc in compile compile_fuel new_compiler.

(** * Compiling a program *)

(** The lexer and the compiler: the length of the code, and the compiler. *)
Definition compile_tokens (oc : bool) (src : list Z) (tokens : list Token)
    : outcome failure (Z * Compiler) :=
  '(tok_count, tokens) ← lexed (tokenize oc src tokens);
  toks ← slice tokens 0 (tok_count + 1);
  run_compiler oc src toks.

Definition compile_pulse_to_binary_with_tokens (oc : bool) (src : list Z) (tokens : list Token)
    (out_buf : list Z) : outcome failure (Z * list Z) :=
  '(code_len, c) ← compile_tokens oc src tokens;
  diagnose (write_binary (code (out c)) (str_pool (out c)) (const_pool (out c)) out_buf).

(** The variant with an allocator. *)
Definition compile_pulse_to_binary (oc : bool) (src : list Z) (out_buf : list Z)
    : outcome failure (Z * list Z) :=
  compile_pulse_to_binary_with_tokens oc src (replicate (Z.to_nat MAX_TOKENS) empty_token) out_buf.

(** [compile], named apart from the method of the compiler. *)
Definition compile_source (oc : bool) (src : list Z) : outcome failure (list Z) :=
  let max_size := PX64_HEADER_SIZE + MAX_BYTECODE_SIZE + MAX_STRING_POOL + MAX_CONST_POOL * 8 in
  '(size, buf) ← compile_pulse_to_binary oc src (replicate (Z.to_nat max_size) 0);
  mret (take (Z.to_nat size) buf).

(** * Statistics *)

Record CompileStats : Set := mkStats {
  code_size : Z;
  instruction_count : Z;
  str_pool_len : Z;
  const_pool_len : Z;
  st_var_count : Z;
  function_count : Z;
  array_count : Z;
  struct_def_count : Z;
  struct_inst_count : Z;
  const_table_count : Z;
  total_binary_size : Z;
  estimated_wcet : Z;
  declared_wcet : option Z;
  declared_budget : option Z;
  wcet_breakdown : list WcetItem;
  st_imported_runtimes : Z;
}.

Definition stats (c : Compiler) : CompileStats :=
  let o := out c in
  let n := names c in
  let w := wcet c in
  mkStats (len (code o)) (len (code o) / 4) (len (str_pool o)) (len (const_pool o)) (var_count n)
    (len (functions n)) (len (arrays n)) (len (struct_defs n)) (len (struct_insts n))
    (len (const_tables n))
    (PX64_HEADER_SIZE + len (code o) + len (str_pool o) + len (const_pool o) * 8)
    (total_synthesized_wcet_ns w) (declared_script_wcet_ns w) (declared_script_budget_ns w)
    (wcet_items w)
    (if has_explicit_imports (limits c) then imported_runtimes (limits c) else RUNTIME_ALL).

Definition check (oc : bool) (src : list Z) : outcome failure CompileStats :=
  '(_, c) ← compile_tokens oc src (replicate (Z.to_nat MAX_TOKENS) empty_token);
  mret (stats c).

(** * The [@test] blocks *)

Record TestBlockInfo : Set := mkBlock {
  b_name : list Z;
  b_line : Z;
  b_budget_ns : option Z;
  body_start_tok : Z;
  body_end_tok : Z;
  test_tok_start : Z;
  test_tok_end : Z;
}.

(** [String::from_utf8_lossy]: the longest ill-formed prefixes become U+FFFD. *)
Fixpoint from_utf8_lossy (fuel : nat) (l : list Z) : list Z :=
  match fuel, l with
  | O, _ | _, [] => []
  | S fuel, b0 :: l1 =>
    let bad n := [0xEF; 0xBF; 0xBD] ++ from_utf8_lossy fuel (drop n l) in
    let good n := take n l ++ from_utf8_lossy fuel (drop n l) in
    let at_ n := nth n l 0 in
    let second lo hi := in_range lo (at_ 1%nat) hi in
    if in_range 0 b0 0x7F then good 1%nat
    else if in_range 0xC2 b0 0xDF then if is_cont (at_ 1%nat) then good 2%nat else bad 1%nat
    else if in_range 0xE0 b0 0xEF then
      if second (if b0 =? 0xE0 then 0xA0 else 0x80) (if b0 =? 0xED then 0x9F else 0xBF) then
        if is_cont (at_ 2%nat) then good 3%nat else bad 2%nat
      else bad 1%nat
    else if in_range 0xF0 b0 0xF4 then
      if second (if b0 =? 0xF0 then 0x90 else 0x80) (if b0 =? 0xF4 then 0x8F else 0xBF) then
        if is_cont (at_ 2%nat) then if is_cont (at_ 3%nat) then good 4%nat else bad 3%nat
        else bad 2%nat
      else bad 1%nat
    else bad 1%nat
  end.

Section Tests.
Context (src : list Z) (tokens : list Token) (tok_count : Z).

(** [i <= tok_count && tokens[i].kind ...]. *)
Definition kind_at (i : Z) : outcome failure (option TokenKind.t) :=
  if i <=? tok_count then t ← idx tokens i; mret (Some (kind t)) else mret None.

Definition test_name_at (i : Z) : outcome failure (list Z * Z) :=
  k ← kind_at i;
  match k with
  | Some TokenKind.StringLit =>
    tok ← idx tokens i;
    if 2 <=? tlen tok then
      s ← slice src (start tok + 1) (start tok + tlen tok - 1);
      mret (from_utf8_lossy (length s) s, i + 1)
    else mret ([], i + 1)
  | _ => mret ([], i)
  end.

(** The time in the parentheses of [@budget]: the budget and the next token. *)
Definition test_time_at (i : Z) : outcome failure (option Z * Z) :=
  k ← kind_at i;
  match k with
  | None => mret (None, i)
  | Some (TokenKind.TimeLiteral ns) => mret (Some ns, i + 1)
  | Some (TokenKind.Number n) => mret (if 0 <=? n then Some (as_u64 n) else None, i + 1)
  | Some _ => mret (None, i + 1)
  end.

Definition test_budget_at (i : Z) : outcome failure (option Z * Z) :=
  k ← kind_at i;
  match k with
  | Some (TokenKind.AtBudget | TokenKind.Budget) =>
    let i := i + 1 in
    k ← kind_at i;
    match k with
    | Some TokenKind.LParen =>
      '(budget, i) ← test_time_at (i + 1);
      k ← kind_at i;
      match k with
      | Some TokenKind.RParen => mret (budget, i + 1)
      | _ => mret (budget, i)
      end
    | _ => mret (None, i)
    end
  | _ => mret (None, i)
  end.

(** The token after the closing brace, or the [Eof] that comes before it. *)
Fixpoint test_body_end (fuel : nat) (i depth : Z) : outcome failure Z :=
  match fuel with
  | O => Err OutOfFuel
  | S fuel =>
    if (i <=? tok_count) && (0 <? depth) then
      t ← idx tokens i;
      match kind t with
      | TokenKind.LBrace => test_body_end fuel (i + 1) (depth + 1)
      | TokenKind.RBrace => test_body_end fuel (i + 1) (depth - 1)
      | TokenKind.Eof => mret i
      | _ => test_body_end fuel (i + 1) depth
      end
    else mret i
  end.

(** Enough rounds for a loop over the tokens. *)
Definition token_rounds : nat := S (S (Z.to_nat tok_count)).

(** One block, from the token [@test] on; a header without a body is none. *)
Definition test_block (i : Z) : outcome failure (option TestBlockInfo * Z) :=
  t ← idx tokens i;
  '(name, j) ← test_name_at (i + 1);
  '(budget, j) ← test_budget_at j;
  k ← kind_at j;
  match k with
  | Some TokenKind.LBrace =>
    e ← test_body_end token_rounds (j + 1) 1;
    mret (Some (mkBlock name (line t) budget (j + 1) (e - 1) i e), e)
  | _ => mret (None, j)
  end.

Fixpoint test_blocks (fuel : nat) (i : Z) : outcome failure (list TestBlockInfo) :=
  match fuel with
  | O => Err OutOfFuel
  | S fuel =>
    if i <=? tok_count then
      t ← idx tokens i;
      if bool_decide (kind t = TokenKind.AtTest) then
        '(b, i) ← test_block i;
        bs ← test_blocks fuel i;
        mret (match b with Some b => b :: bs | None => bs end)
      else test_blocks fuel (i + 1)
    else mret []
  end.

(** [for b_idx in a..b { push(tokens[b_idx]) }]. *)
Definition tokens_between (a b : Z) : outcome failure (list Token) :=
  mapM (fun i => idx tokens i) (seqZ a (b - a)).

(** The tokens of one test: everything, with the block replaced by its body. *)
Fixpoint test_tokens (fuel : nat) (b : TestBlockInfo) (i : Z) : outcome failure (list Token) :=
  match fuel with
  | O => Err OutOfFuel
  | S fuel =>
    if i <=? tok_count then
      if i =? test_tok_start b then
        body ← tokens_between (body_start_tok b) (body_end_tok b);
        rest ← test_tokens fuel b (test_tok_end b);
        mret (body ++ rest)
      else
        t ← idx tokens i;
        rest ← test_tokens fuel b (i + 1);
        mret (t :: rest)
    else mret []
  end.

(** An [Eof] at the end, when there is none. *)
Definition with_eof (b : TestBlockInfo) (toks : list Token) : list Token :=
  match last toks with
  | Some t => if bool_decide (kind t = TokenKind.Eof) then toks
              else toks ++ [mkToken TokenKind.Eof (len src) 0 (b_line b) 1]
  | None => toks ++ [mkToken TokenKind.Eof (len src) 0 (b_line b) 1]
  end.

Definition compile_test (oc : bool) (b : TestBlockInfo) : outcome failure TestCaseCompiled :=
  toks ← test_tokens token_rounds b 0;
  '(code_len, c) ← run_compiler oc src (with_eof b toks);
  let o := out c in
  let total_size := PX64_HEADER_SIZE + code_len + len (str_pool o) + len (const_pool o) * 8 in
  '(_, bin) ← diagnose (write_binary (code o) (str_pool o) (const_pool o)
                          (replicate (Z.to_nat total_size) 0));
  mret (mkTest (b_name b) (b_line b) (b_budget_ns b) bin).

End Tests.

Definition compile_pulse_tests (oc : bool) (src : list Z) : outcome failure (list TestCaseCompiled) :=
  '(tok_count, tokens) ← lexed (tokenize oc src (replicate (Z.to_nat MAX_TOKENS) empty_token));
  blocks ← test_blocks src tokens tok_count (token_rounds tok_count) 0;
  mapM (compile_test src tokens tok_count oc) blocks.

(** * What the parts guarantee *)

Section Parts.
Context (oc : bool) (src : list Z) (Hsrc : bytes_ok src).

Definition token_in_src (t : Token) : Prop :=
  0 <= start t /\ 0 <= tlen t /\ start t + tlen t <= len src.

(** What a program may make the compiler panic on. *)
Definition panic_of (toks : list Token) (k : panic_kind) : Prop :=
  k = ArithmeticOverflow /\ oc = true \/
  k = IndexOutOfBounds /\ exists t, t ∈ toks /\ kind t = TokenKind.AtPoolSize.

Definition compiled (toks : list Token) (r : outcome failure (Z * Compiler)) : Prop :=
  match r with
  | Ok (n, c) => n = len (code (out c)) /\ out_ok (out c)
  | Err (Diagnostic _) => True
  | Err OutOfFuel => False
  | Panic k => panic_of toks k
  end.

Lemma run_compiler_ok toks : Forall token_in_src toks -> compiled toks (run_compiler oc src toks).
Proof.
  intros Ht. unfold run_compiler. set (inp := mkInput src toks oc).
  assert (Hin : input_ok) by (split; [exact Hsrc|exact Ht]).
  pose proof (compile_result Hin compile_fuel (le_n _)) as H. unfold compiled.
  destruct (compile compile_fuel new_compiler) as [[n c]|[]|[]]; try done; [by right|by left].
Qed.

Lemma spans_in_src lo ts : 0 <= lo -> spans src lo ts -> Forall token_in_src ts /\ lo <= len src.
Proof.
  revert lo. induction ts as [|t ts IH]; intros lo Hlo; simpl; [done|].
  intros (H1 & H2 & _ & _ & H3). apply IH in H3 as [H3 H4]; [|lia].
  split; [|lia]. constructor; [unfold token_in_src; lia|done].
Qed.

(** The tokens of a source, and the buffer they were written to. *)
Definition lexed_as (toks : list Token) (n : Z) (buf : list Token) : Prop :=
  n + 1 = len toks /\ n + 1 <= len buf /\ sub buf 0 (n + 1) = toks /\ Forall token_in_src toks /\
  exists t, last toks = Some t /\ kind t = TokenKind.Eof.

Lemma lex_ok tokens :
  match lexed (tokenize oc src tokens) with
  | Ok (n, buf) => exists toks, lexed_as toks n buf
  | Err (Diagnostic _) => True
  | Err OutOfFuel => False
  | Panic k => k = ArithmeticOverflow /\ oc = true
  end.
Proof.
  destruct (tokenize_result oc src tokens) as (r & -> & Hr). unfold lexed.
  destruct r as [[n buf]|e|k]; simpl in *; [|done|by destruct Hr].
  destruct Hr as (ts & eof & -> & Hn & -> & Hsp & Hk & Hs & Hl). exists (ts ++ [eof]).
  apply spans_in_src in Hsp as [Hts _]; [|lia]. pose proof (len_nonneg ts).
  assert (Hlen : len (ts ++ [eof]) = len ts + 1) by (rewrite len_app; done).
  split_and!; [lia| | | |].
  - rewrite len_written; lia.
  - unfold written, sub. change (Z.to_nat 0) with 0%nat. rewrite take_0, drop_0, app_nil_l.
    rewrite take_app_le, take_ge; [done|..]; unfold len in *; lia.
  - apply Forall_app. split; [done|]. constructor; [|done]. pose proof (len_nonneg src).
    unfold token_in_src. lia.
  - exists eof. by rewrite last_snoc.
Qed.

End Parts.

(** * Compiling a program, correctly *)

(** The program has a [@pool_size] pragma. *)
Definition uses_pool_size (oc : bool) (src : list Z) (tokens : list Token) : Prop :=
  exists n buf t, tokenize oc src tokens = Some (Ok (n, buf)) /\ t ∈ sub buf 0 (n + 1) /\
    kind t = TokenKind.AtPoolSize.

(** The panics of the whole pipeline. *)
Definition panic_from (oc : bool) (src : list Z) (tokens : list Token) (k : panic_kind) : Prop :=
  k = ArithmeticOverflow /\ oc = true \/ k = IndexOutOfBounds /\ uses_pool_size oc src tokens.

Lemma compile_tokens_ok oc src tokens : bytes_ok src ->
  match compile_tokens oc src tokens with
  | Ok (n, c) => n = len (code (out c)) /\ out_ok (out c)
  | Err (Diagnostic _) => True
  | Err OutOfFuel => False
  | Panic k => panic_from oc src tokens k
  end.
Proof.
  intros Hs. unfold compile_tokens. pose proof (lex_ok oc src tokens) as Hl.
  destruct (tokenize oc src tokens) as [[[n buf]|e|k]|] eqn:Et; simpl in *; [|done|by left|done].
  destruct Hl as (toks & Hn & Hb & Hsub & Ht & _). pose proof (len_nonneg toks).
  rewrite slice_in_range by lia. simpl. rewrite Hsub.
  pose proof (run_compiler_ok oc src Hs toks Ht) as H'. unfold compiled in H'.
  destruct (run_compiler oc src toks) as [[m c]|[]|k]; try done.
  destruct H' as [?|[-> (t & Ht' & Hk)]]; [by left|]. right. split; [done|].
  exists n, buf, t. by rewrite Hsub.
Qed.

(** The constants of a container are read as 64-bit integers. *)
Lemma as_u64_as_i64 z : as_u64 (as_i64 z) = as_u64 z.
Proof.
  unfold as_u64, as_i64, wrapS, wrapU. rewrite Zminus_mod_idemp_l. f_equal. lia.
Qed.

Lemma encode_consts_as_i64 cs : encode_consts (map as_i64 cs) = encode_consts cs.
Proof. induction cs as [|c cs IH]; simpl; [done|]. by rewrite IH, as_u64_as_i64. Qed.

Lemma encode_as_i64 c s cs : encode c s (map as_i64 cs) = encode c s cs.
Proof. unfold encode. rewrite encode_consts_as_i64. unfold len. by rewrite length_map. Qed.

(** The program that the code of a compiler is. *)
Definition program_of (o : Out) : program :=
  mkProgram (Compiler.code o) (Compiler.str_pool o) (map as_i64 (Compiler.const_pool o)) [].

Lemma program_of_wf o : out_ok o -> program_wf (program_of o).
Proof.
  intros [(H1 & _ & H2) [H3 H4] H5]. constructor; simpl; try done; try lia.
  apply Forall_map, Forall_true. intros. apply as_i64_range.
Qed.

Lemma load_compiled o tl : out_ok o ->
  load_binary (encode (Compiler.code o) (Compiler.str_pool o) (Compiler.const_pool o) ++ tl) [] =
  Ok (program_of o).
Proof.
  intros Ho. destruct (program_of_wf o Ho) as [_ Hc _ Hs Hp _ _]. destruct Ho as [_ _ Hl].
  rewrite <-encode_as_i64. apply load_encode; try done. unfold len in *. by rewrite length_map.
Qed.

(** What is written for the program of [c]. *)
Definition written_as (c : Compiler) (out_buf : list Z) (size : Z) (buf : list Z) : Prop :=
  size = total_binary_size (stats c) /\ size <= len buf /\ len buf = len out_buf /\
  drop (Z.to_nat size) buf = drop (Z.to_nat size) out_buf /\
  forall tl, load_binary (take (Z.to_nat size) buf ++ tl) [] = Ok (program_of (out c)).

Lemma write_compiled c out_buf size buf : out_ok (out c) ->
  write_binary (Compiler.code (out c)) (Compiler.str_pool (out c)) (Compiler.const_pool (out c)) out_buf
    = Ok (size, buf) -> written_as c out_buf size buf.
Proof.
  unfold written_as, stats. set (o := out c). simpl. intros Ho H.
  pose proof (load_compiled o) as Hload. pose proof (write_binary_result (Compiler.code o)
    (Compiler.str_pool o) (Compiler.const_pool o) out_buf) as Hw. cbv zeta in Hw.
  pose proof (len_encode (Compiler.code o) (Compiler.str_pool o) (Compiler.const_pool o)) as He.
  set (e := encode (Compiler.code o) (Compiler.str_pool o) (Compiler.const_pool o)) in *.
  clearbody e. rewrite <-He in Hw. destruct (Z.ltb_spec (len out_buf) (len e)) as [|Hle];
    [by destruct Hw as (x & Hx & _); congruence|].
  rewrite Hw in H. injection H as <- <-.
  assert (Ee : Z.to_nat (len e) = length e) by (unfold len; lia).
  pose proof (len_nonneg (drop (length e) out_buf)).
  split_and!; [exact He| | | |].
  - rewrite len_app. lia.
  - rewrite len_app. unfold len in *. rewrite length_drop. lia.
  - by rewrite Ee, drop_app_length.
  - intros tl. rewrite Ee, take_app_length. by apply Hload.
Qed.

Lemma write_compiled_total c out_buf :
  match write_binary (Compiler.code (out c)) (Compiler.str_pool (out c)) (Compiler.const_pool (out c)) out_buf with
  | Ok _ => total_binary_size (stats c) <= len out_buf
  | Err e => len out_buf < total_binary_size (stats c)
  | Panic _ => False
  end.
Proof.
  pose proof (write_binary_result (Compiler.code (out c)) (Compiler.str_pool (out c))
    (Compiler.const_pool (out c)) out_buf) as Hw. cbv zeta in Hw. unfold stats. simpl.
  change PX64_HEADER_SIZE with 16.
  destruct (Z.ltb_spec (len out_buf) (16 + len (Compiler.code (out c)) + len (Compiler.str_pool (out c)) +
    len (Compiler.const_pool (out c)) * 8)); [by destruct Hw as (e & -> & _)|by rewrite Hw].
Qed.

(** A program with a test. *)
Definition sample : list Z := bytes
  "let mut $x = 5; @test budget(1us) { $x += 1; @assert($x == 6); } $x := 7;".

(** C2: what the pipeline writes runs. For any source, any token buffer and any
    output buffer, [compile_pulse_to_binary_with_tokens] ends. It reports a
    diagnostic, or it panics, only on arithmetic in a build with overflow checks, or
    on an index in a program with a [@pool_size] pragma; or it writes a container
    and leaves the rest of the buffer alone, and the loader of the machine, on the container
    and whatever follows it, gives exactly the program the compiler emitted: a
    well-formed one, which, if none of its instructions calls TERM_READ_KEY, the
    machine runs to its end within the instruction limit. A program that polls
    the keyboard is not counted against the limit and can run for ever. *)
Theorem compiled_programs_run oc src tokens out_buf : bytes_ok src ->
  match compile_pulse_to_binary_with_tokens oc src tokens out_buf with
  | Ok (size, buf) =>
    exists n c, compile_tokens oc src tokens = Ok (n, c) /\ written_as c out_buf size buf /\
      program_wf (program_of (out c)) /\
      (calls_native (Compiler.code (out c)) NATIVE_TERM_READ_KEY = false -> forall h tl,
       exists m r, run_binary_with_output 10001 h (take (Z.to_nat size) buf ++ tl) [] = Some (m, r) /\
         vm_wf m /\ steps m <= 10000)
  | Err (Diagnostic _) => True
  | Err OutOfFuel => False
  | Panic k => panic_from oc src tokens k
  end.
Proof.
  intros Hs. unfold compile_pulse_to_binary_with_tokens.
  pose proof (compile_tokens_ok oc src tokens Hs) as Hc.
  destruct (compile_tokens oc src tokens) as [[n c]|[]|k]; simpl; [|done..].
  destruct Hc as [-> Ho]. pose proof (write_compiled_total c out_buf) as Hw.
  destruct (write_binary _ _ _ out_buf) as [[size buf]|e|k] eqn:Ew; simpl; [|done..].
  apply write_compiled in Ew; [|done]. pose proof (program_of_wf _ Ho) as Hwf.
  exists (len (Compiler.code (out c))), c. split_and!; [done..|]. intros Hkey h tl.
  destruct Ew as (_ & _ & _ & _ & Hload). unfold run_binary_with_output. rewrite Hload.
  destruct (run_within_limit h (program_of (out c)) new 10001) as (m & r & Hr & Hm & Hst);
    [done|exact new_wf|exact Hkey|vm_compute; lia|].
  exists m, r. split_and!; [done..|]. destruct Hst as [_ Hst]. exact Hst.
Qed.

Theorem compiled_programs_run_witness :
  is_ok (compile_pulse_to_binary_with_tokens true sample (replicate 64 empty_token) (replicate 99 7)) = true /\
  match compile_pulse_to_binary_with_tokens true sample (replicate 64 empty_token) (replicate 99 7) with
  | Ok (size, buf) =>
    exists n c, compile_tokens true sample (replicate 64 empty_token) = Ok (n, c) /\
      written_as c (replicate 99 7) size buf /\ program_wf (program_of (out c)) /\
      (calls_native (Compiler.code (out c)) NATIVE_TERM_READ_KEY = false -> forall h tl,
       exists m r, run_binary_with_output 10001 h (take (Z.to_nat size) buf ++ tl) [] = Some (m, r) /\
         vm_wf m /\ steps m <= 10000)
  | Err (Diagnostic _) => True
  | Err OutOfFuel => False
  | Panic k => panic_from true sample (replicate 64 empty_token) k
  end.
Proof.
  split; [vm_compute; reflexivity|].
  apply (compiled_programs_run true sample (replicate 64 empty_token) (replicate 99 7)). compute_fact.
Defined.

(** * Statistics agree with the container *)

Lemma total_size_bound c : out_ok (out c) -> 16 <= total_binary_size (stats c) <= 5136.
Proof.
  intros [(_ & _ & H1) [_ H2] H3]. unfold stats. simpl. change PX64_HEADER_SIZE with 16.
  pose proof (len_nonneg (Compiler.code (out c))). pose proof (len_nonneg (Compiler.str_pool (out c))).
  pose proof (len_nonneg (Compiler.const_pool (out c))). lia.
Qed.

(** C23: [check] predicts [compile]. On every source the two give the same
    diagnostic or panic the same way, and when [check] succeeds so does
    [compile] (its buffer is large enough for every program): the container has
    the size and the number of instructions that the statistics say. *)
Theorem check_predicts_compile oc src : bytes_ok src ->
  match check oc src, compile_source oc src with
  | Ok st, Ok bin => len bin = total_binary_size st /\ code_size st = 4 * instruction_count st /\
      exists p, load_binary bin [] = Ok p /\ len (VmState.code p) = code_size st
  | Err a, Err b => a = b
  | Panic a, Panic b => a = b
  | _, _ => False
  end.
Proof.
  intros Hs. unfold check, compile_source, compile_pulse_to_binary, compile_pulse_to_binary_with_tokens.
  set (tokens := replicate (Z.to_nat MAX_TOKENS) empty_token).
  pose proof (compile_tokens_ok oc src tokens Hs) as Hc.
  destruct (compile_tokens oc src tokens) as [[n c]|f|k]; cbn [mbind outcome_bind mret outcome_ret]; [|done..].
  destruct Hc as [_ Ho]. set (out_buf := replicate _ 0).
  assert (Hb : len out_buf = 5136) by (unfold out_buf, len; rewrite length_replicate; done).
  pose proof (write_compiled_total c out_buf) as Hw. pose proof (total_size_bound c Ho).
  destruct (write_binary _ _ _ out_buf) as [[size buf]|e|k] eqn:Ew; [|lia|done].
  apply write_compiled in Ew; [|done]. destruct Ew as (-> & Hsz & _ & _ & Hload).
  cbn [diagnose mbind outcome_bind mret outcome_ret]. specialize (Hload []). rewrite app_nil_r in Hload.
  split_and!.
  - unfold len in *. rewrite length_take. lia.
  - destruct Ho as [(_ & Hm & _) _ _]. simpl. pose proof (Z_div_mod_eq_full (len (Compiler.code (out c))) 4). lia.
  - by exists (program_of (out c)).
Qed.

Theorem check_predicts_compile_witness :
  is_ok (check true sample) = true /\
  match check true sample, compile_source true sample with
  | Ok st, Ok bin => len bin = total_binary_size st /\ code_size st = 4 * instruction_count st /\
      exists p, load_binary bin [] = Ok p /\ len (VmState.code p) = code_size st
  | Err a, Err b => a = b
  | Panic a, Panic b => a = b
  | _, _ => False
  end.
Proof.
  split; [vm_compute; reflexivity|]. apply (check_predicts_compile true sample). compute_fact.
Defined.

(** * The tests of a program *)

Section TestProps.
Context (src : list Z) (toks : list Token) (n : Z) (buf : list Token).
Context (Hlex : lexed_as src toks n buf).

Lemma idx_lexed i : 0 <= i <= n -> exists t, idx (E := failure) buf i = Ok t /\ t ∈ toks /\ token_in_src src t.
Proof.
  destruct Hlex as (Hn & Hb & Hsub & Ht & _). intros Hi.
  assert (Hl : getZ (sub buf 0 (n + 1)) i = getZ buf i) by (rewrite getZ_sub by lia; f_equal; lia).
  destruct (getZ_lt_Some buf i) as [t Hg]; [lia|]. exists t.
  unfold idx. rewrite Hg. rewrite Hg, Hsub in Hl. split; [done|].
  split; [unfold getZ in Hl; case_decide; [|done]; by eapply list_elem_of_lookup_2|].
  by eapply Forall_getZ in Hl.
Qed.

Lemma kind_at_lexed i : 0 <= i -> exists k, kind_at buf n i = Ok k /\ (k = None \/ i <= n).
Proof.
  intros Hi. unfold kind_at. destruct (Z.leb_spec i n); [|by eexists; split; [done|left]].
  destruct (idx_lexed i) as (t & -> & _); [lia|]. simpl. eexists. split; [done|by right].
Qed.

(** Looks at the kind of the next token. *)
Ltac next_kind i :=
  let k := fresh "k" in let Hk := fresh "Hk" in let E := fresh "E" in
  destruct (kind_at_lexed i) as (k & E & Hk); [lia|]; rewrite E; cbn [mbind outcome_bind].

Lemma test_name_lexed i : 0 <= i -> exists s j, test_name_at src buf n i = Ok (s, j) /\ i <= j.
Proof.
  intros Hi. unfold test_name_at. next_kind i. destruct k as [[]|]; try by (eexists _, _; split; [done|lia]).
  destruct Hk as [|Hk]; [done|]. destruct (idx_lexed i) as (t & -> & _ & Ht1 & Ht2 & Ht3); [lia|].
  cbn [mbind outcome_bind]. destruct (Z.leb_spec 2 (tlen t)); [|by eexists _, _; split; [done|lia]].
  rewrite slice_in_range by lia. eexists _, _. split; [done|lia].
Qed.

Lemma test_time_lexed i : 0 <= i -> exists b j, test_time_at buf n i = Ok (b, j) /\ i <= j.
Proof.
  intros Hi. unfold test_time_at. next_kind i. destruct k as [[]|]; by (eexists _, _; split; [done|lia]).
Qed.

Lemma test_budget_lexed i : 0 <= i -> exists b j, test_budget_at buf n i = Ok (b, j) /\ i <= j.
Proof.
  intros Hi. unfold test_budget_at. next_kind i.
  destruct k as [[]|]; try by (eexists _, _; split; [done|lia]).
  all: next_kind (i + 1); destruct k as [[]|]; try by (eexists _, _; split; [done|lia]).
  all: destruct (test_time_lexed (i + 1 + 1)) as (b & j & -> & Hj); [lia|]; cbn [mbind outcome_bind].
  all: next_kind j; destruct k as [[]|]; by (eexists _, _; split; [done|lia]).
Qed.

Lemma test_body_lexed fuel i depth : 0 <= i -> Z.max 0 (n + 1 - i) < Z.of_nat fuel ->
  exists e, test_body_end buf n fuel i depth = Ok e /\ i <= e /\ (i <= n + 1 -> e <= n + 1).
Proof.
  revert i depth. induction fuel as [|fuel IH]; intros i depth Hi Hf; simpl.
  { lia. }
  destruct (Z.leb_spec i n) as [Hin|]; simpl; [|eexists; split; [done|lia]].
  destruct (0 <? depth); [|eexists; split; [done|lia]].
  destruct (idx_lexed i) as (t & -> & _); [lia|]. cbn [mbind outcome_bind].
  assert (Hrec : forall d, exists e, test_body_end buf n fuel (i + 1) d = Ok e /\ i <= e /\ (i <= n + 1 -> e <= n + 1)).
  { intros d. destruct (IH (i + 1) d) as (e & He & H1 & H2); [lia..|]. exists e. split; [done|]. lia. }
  destruct (kind t); try apply Hrec. eexists. split; [done|lia].
Qed.

(** A block and its tokens are in the program. *)
Definition block_ok (b : TestBlockInfo) : Prop :=
  0 <= test_tok_start b < test_tok_end b /\ 0 <= body_start_tok b /\ body_end_tok b <= n.

Lemma test_block_lexed i : 0 <= i <= n -> exists b j, test_block src buf n i = Ok (b, j) /\ i < j /\
  (forall x, b = Some x -> block_ok x).
Proof.
  intros Hi. unfold test_block. destruct (idx_lexed i) as (t & -> & _); [lia|]. cbn [mbind outcome_bind].
  destruct (test_name_lexed (i + 1)) as (s & j & -> & Hj); [lia|]. cbn [mbind outcome_bind].
  destruct (test_budget_lexed j) as (b & k & -> & Hk); [lia|]. cbn [mbind outcome_bind].
  next_kind k. destruct k0 as [[]|]; try by (eexists _, _; split; [done|split; [lia|done]]).
  destruct Hk0 as [|Hk0]; [done|].
  destruct (test_body_lexed (token_rounds n) (k + 1) 1) as (e & -> & He1 & He2);
    [lia|unfold token_rounds; lia|].
  eexists _, _. split; [done|]. split; [lia|]. intros x [= <-]. unfold block_ok. simpl. lia.
Qed.

Lemma test_blocks_lexed fuel i : 0 <= i -> Z.max 0 (n + 1 - i) < Z.of_nat fuel ->
  exists bs, test_blocks src buf n fuel i = Ok bs /\ Forall block_ok bs.
Proof.
  revert i. induction fuel as [|fuel IH]; intros i Hi Hf; simpl; [lia|].
  destruct (Z.leb_spec i n); [|by exists []].
  destruct (idx_lexed i) as (t & -> & _); [lia|]. cbn [mbind outcome_bind].
  case_bool_decide; [|apply IH; lia].
  destruct (test_block_lexed i) as (b & j & -> & Hj & Hb); [lia|]. cbn [mbind outcome_bind].
  destruct (IH j) as (bs & -> & Hbs); [lia..|]. eexists. split; [done|].
  destruct b; [constructor; [by apply Hb|done]|done].
Qed.

Lemma tokens_between_lexed a b : 0 <= a -> b <= n + 1 -> exists l, tokens_between buf a b = Ok l /\ Forall (.∈ toks) l.
Proof.
  intros Ha Hb. unfold tokens_between.
  assert (Hr : Forall (fun i => 0 <= i <= n) (seqZ a (b - a))).
  { apply Forall_forall. intros i Hi%elem_of_seqZ. lia. }
  induction Hr as [|i l Hi _ (k & Hk & Hkt)]; simpl; [by exists []|].
  destruct (idx_lexed i Hi) as (t & -> & Ht & _). simpl. rewrite Hk. simpl.
  eexists. split; [done|]. by constructor.
Qed.

Lemma test_tokens_lexed fuel b i : block_ok b -> 0 <= i -> Z.max 0 (n + 1 - i) < Z.of_nat fuel ->
  exists l, test_tokens buf n fuel b i = Ok l /\ Forall (.∈ toks) l.
Proof.
  intros (Hs & H1 & H2). revert i. induction fuel as [|fuel IH]; intros i Hi Hf; simpl; [lia|].
  destruct (Z.leb_spec i n); [|by exists []]. destruct (Z.eqb_spec i (test_tok_start b)).
  - destruct (tokens_between_lexed (body_start_tok b) (body_end_tok b)) as (l & -> & Hl); [lia..|].
    cbn [mbind outcome_bind]. destruct (IH (test_tok_end b)) as (k & -> & Hk); [lia..|].
    eexists. split; [done|]. by apply Forall_app.
  - destruct (idx_lexed i) as (t & -> & Ht & _); [lia|]. cbn [mbind outcome_bind].
    destruct (IH (i + 1)) as (k & -> & Hk); [lia..|]. eexists. split; [done|]. by constructor.
Qed.
End TestProps.

(** The tests of a program load and their names and budgets are those of its blocks. *)
Definition test_loads (t : TestCaseCompiled) : Prop :=
  exists o, out_ok o /\ load_binary (bytecode t) [] = Ok (program_of o).

Lemma with_eof_in_src src toks b l : Forall (token_in_src src) toks -> Forall (.∈ toks) l ->
  Forall (token_in_src src) (with_eof src b l) /\
  forall t, t ∈ with_eof src b l -> t ∈ toks \/ kind t = TokenKind.Eof.
Proof.
  intros Ht Hl. assert (Hl' : Forall (token_in_src src) l).
  { eapply Forall_impl; [exact Hl|]. intros t Hin. by eapply (proj1 (Forall_forall _ _)) in Ht. }
  assert (Hall : forall t, t ∈ l -> t ∈ toks) by by apply Forall_forall.
  set (eof := mkToken TokenKind.Eof (len src) 0 (b_line b) 1).
  assert (He : token_in_src src eof) by (pose proof (len_nonneg src); unfold token_in_src; simpl; lia).
  assert (Hs : Forall (token_in_src src) (l ++ [eof]) /\ forall t, t ∈ l ++ [eof] -> t ∈ toks \/ kind t = TokenKind.Eof).
  { split; [apply Forall_app; by split; [|constructor]|].
    intros t [Ht1|Ht1]%elem_of_app; [left; auto|right]. by apply list_elem_of_singleton in Ht1 as ->. }
  unfold with_eof. destruct (last l) as [t|]; [case_bool_decide|]; [|exact Hs..].
  split; [done|]. intros x Hx. left. auto.
Qed.

Lemma compile_test_ok oc src toks n buf b : bytes_ok src -> lexed_as src toks n buf -> block_ok n b ->
  match compile_test src buf n oc b with
  | Ok t => test_name t = b_name b /\ test_budget_ns t = b_budget_ns b /\ test_loads t
  | Err (Diagnostic _) => True
  | Err OutOfFuel => False
  | Panic k => panic_of oc toks k
  end.
Proof.
  intros Hs Hlex Hb. assert (Ht := Hlex). destruct Ht as (_ & _ & _ & Ht & _).
  unfold compile_test. destruct (test_tokens_lexed src toks n buf Hlex (token_rounds n) b 0 Hb) as (l & -> & Hl);
    [lia|unfold token_rounds; lia|]. cbn [mbind outcome_bind].
  destruct (with_eof_in_src src toks b l Ht Hl) as [Hw Hin].
  pose proof (run_compiler_ok oc src Hs _ Hw) as Hr. unfold compiled in Hr.
  destruct (run_compiler oc src (with_eof src b l)) as [[m c]|[]|k]; [|done..|].
  - destruct Hr as [-> Ho]. cbn [mbind outcome_bind]. cbv zeta. set (out_buf := replicate _ 0).
    assert (Hlen : len out_buf = total_binary_size (stats c)).
    { pose proof (total_size_bound c Ho). unfold out_buf, len at 1. rewrite length_replicate, Z2Nat.id; [done|].
      change (0 <= total_binary_size (stats c)). lia. }
    pose proof (write_compiled_total c out_buf) as Hwt.
    destruct (write_binary _ _ _ out_buf) as [[size bin]|e|k] eqn:Ew; [|lia|done].
    apply write_compiled in Ew; [|done]. destruct Ew as (-> & Hsz & Hbin & _ & Hload).
    simpl. split_and!; [done..|]. exists (out c). split; [done|]. specialize (Hload []).
    rewrite app_nil_r, take_ge in Hload; [exact Hload|]. unfold len in *. lia.
  - destruct Hr as [?|[-> (t & Ht' & Hk)]]; [by left|]. right. split; [done|]. exists t. split; [|done].
    destruct (Hin t Ht') as [?|?]; [done|congruence].
Qed.

(** The tests of a program. For any source, [compile_pulse_tests] returns: a
    diagnostic, or one test per [@test] block that has a body, each of them a
    container that loads as the program the compiler emitted for it (so that
    the runner never rejects it as malformed). Its scans over the tokens end and
    stay in the buffer; the panics are those of [compiled_programs_run]. *)
Theorem compiled_tests_load oc src : bytes_ok src ->
  match compile_pulse_tests oc src with
  | Ok ts => Forall test_loads ts
  | Err (Diagnostic _) => True
  | Err OutOfFuel => False
  | Panic k => panic_from oc src (replicate (Z.to_nat MAX_TOKENS) empty_token) k
  end.
Proof.
  intros Hs. unfold compile_pulse_tests. set (tokens := replicate _ _). pose proof (lex_ok oc src tokens) as Hl.
  destruct (tokenize oc src tokens) as [[[n buf]|e|k]|] eqn:Et; cbn [lexed diagnose mbind outcome_bind] in Hl |- *; [|done|by left|done].
  destruct Hl as (toks & Hlex).
  destruct (test_blocks_lexed src toks n buf Hlex (token_rounds n) 0) as (bs & -> & Hbs);
    [lia|unfold token_rounds; lia|]. cbn [mbind outcome_bind].
  induction Hbs as [|b bs Hb _ IH]; simpl; [constructor|].
  pose proof (compile_test_ok oc src toks n buf b Hs Hlex Hb) as Hc.
  destruct (compile_test src buf n oc b) as [t|[]|k]; simpl; [|done..|].
  - destruct Hc as (_ & _ & Ht). destruct (mapM _ bs) as [ts|[]|k]; simpl in *; try done. by constructor.
  - destruct Hc as [?|[-> (t & Ht & Hk)]]; [by left|right]. split; [done|].
    destruct Hlex as (_ & _ & Hsub & _ & _). exists n, buf, t. by rewrite Hsub.
Qed.

Theorem compiled_tests_load_witness :
  (exists t, compile_pulse_tests true sample = Ok [t] /\ test_budget_ns t = Some 1000) /\
  match compile_pulse_tests true sample with
  | Ok ts => Forall test_loads ts
  | Err (Diagnostic _) => True
  | Err OutOfFuel => False
  | Panic k => panic_from true sample (replicate (Z.to_nat MAX_TOKENS) empty_token) k
  end.
Proof.
  split; [eexists; split; [vm_compute; reflexivity|reflexivity]|].
  apply (compiled_tests_load true sample). compute_fact.
Defined.
