(* ===== verification/Programs.v ===== *)
(** Programs from source text to registers: the lexer, the compiler and the
    machine composed and evaluated. The first group shows the composition at
    work, the second what the compiler gets wrong. *)

From S2P Require Import Prelude RustStd Isa Token Error Crc VmState VmExec Vm VmRun Binary Lexer.
From S2P Require Import CompErrors Compiler CompDecl CompExpr CompStmt CompTotal Toolchain.
Local Open Scope Z_scope.

(** How a source ends: the code of the diagnostic, a panic, or the registers and
    the output of the machine, or the code of its error. *)
Inductive ending :=
| Refused (code : string)
| Panics (k : panic_kind)
| Halts (regs : list Z) (output : list Z)
| Stops (code : string).

(** Runs a source on a machine without a terminal, files or arguments. *)
Definition run_text (s : string) : option ending :=
  match compile_tokens true (bytes s) (replicate 200 empty_token) with
  | Err OutOfFuel => None
  | Err (Diagnostic e) => Some (Refused (Error.code e))
  | Panic k => Some (Panics k)
  | Ok (_, c) =>
    match run_with_output 2000 (no_std_host (fun _ => 0)) (program_of (out c)) new with
    | None => None
    | Some (m, Ok _) => Some (Halts (VmState.regs m) (VmState.output m))
    | Some (m, Err e) => Some (Stops (Error.code e))
    | Some (m, Panic k) => Some (Panics k)
    end
  end.

(** Register [r] at the end; the variables are in registers 1 to 13, in the order
    of their declarations. *)
Definition reg_after (s : string) (r : Z) : option Z :=
  match run_text s with Some (Halts regs _) => getZ regs r | _ => None end.

(** What the compiler gets wrong, on whole programs.
    - The variable that is assigned is written before the right-hand side has
      been read: [$x := $y - $x] is 0.
    - A call moves its arguments to registers 7, 6, 2 and 1, and the variables
      there are not saved: after [id(0)], the seventh variable is 0.
    - A call in an expression that is computed in register 0 overwrites the left
      operand: the factorial of 5 is 1.
    - Scratch registers are 15 down to 8, and the variables from the eighth on
      are in 8 to 13: nested sums overwrite the twelfth.
    - The product of two fixed-point constants is folded as one of integers, and
      comes out 65536 times too large.
    - [@reduce] ignores its initial value, 100.
    - [@sum] of an array starts at the index that is in register 0, which the
      condition of an [if] has set: the machine stops.
    - A name of more than 16 bytes is never found again, and reads as 0.
    - With [@pool_size(arrays: 16)] the ninth array is beyond the table of the
      compiler, which panics. *)
Theorem miscompiled_programs :
  reg_after "let mut $x = 5; let $y = 11; $x := $y - $x;" 1 = Some 0 /\
  reg_after "fn id($p) { return $p; } let $a = 1; let $b = 2; let $c = 3; let $d = 4; let $e = 5; let $f = 6; let $g = 7; let $h = id(0);" 7 = Some 0 /\
  reg_after "fn fact($n) { if $n <= 1 { return 1; } return $n * fact($n - 1); } let $x = fact(5);" 1 = Some 1 /\
  reg_after "let $a = 1; let $b = 2; let $c = 3; let $d = 4; let $e = 5; let $f = 6; let $g = 7; let $h = 8; let $i = 9; let $j = 10; let $k = 11; let $l = 12; let $z = $a + ($b + ($c + ($d + $e)));" 12 = Some 5 /\
  reg_after "let $x: fixed<16> = 1.5 * 1.5;" 1 = Some (147456 * 65536) /\
  reg_after "fn add($a, $b) { return $a + $b; } let $v: [i64; 3] = [1, 2, 3]; let $w = @slice($v, 0, 3); let $z = @reduce($w, 100, add);" 2 = Some 6 /\
  run_text "let $v: [i64; 3] = [1, 2, 3]; if 1 == 1 { } let $s = @sum($v);" = Some (Stops "ERR_PX64_ARRAY_OUT_OF_BOUNDS") /\
  reg_after "let $verylongvariablename = 3; let $z = $verylongvariablename + 1;" 2 = Some 1 /\
  run_text "@pool_size(arrays: 16); let $a: [i64; 1]; let $b: [i64; 1]; let $c: [i64; 1]; let $d: [i64; 1]; let $e: [i64; 1]; let $f: [i64; 1]; let $g: [i64; 1]; let $h: [i64; 1]; let $i: [i64; 1];" = Some (Panics IndexOutOfBounds).
Proof. split_and!; vm_compute; reflexivity. Qed.

(** Programs that run as they say: precedence, a loop, a fixed-point product, an
    array, a struct, a view, an enum and a tagged result. *)
Example programs_run :
  reg_after "let $a = 7; let $b = ($a + 1) * ($a - 1) / 3 % 5;" 2 = Some 1 /\
  reg_after "let mut $s = 0; for $i in 0..10 { $s += $i; }" 1 = Some 45 /\
  reg_after "let $x: fixed<16> = 1.5; let $y: fixed<16> = $x * 1.5;" 2 = Some 147456 /\
  reg_after "let $v: [i64; 3] = [10, 20, 30]; let $i = 2; let $s = $v[$i] - $v[0];" 2 = Some 20 /\
  reg_after "struct P { x: i64, y: i64 } let $p: P; $p.x := 4; $p.y := 5; let $s = $p.x * $p.y;" 1 = Some 20 /\
  reg_after "let $v: [i64; 4] = [5, 6, 7, 8]; let $w = @slice($v, 1, 2); let $s = @sum($w);" 2 = Some 13 /\
  reg_after "enum Color { Red, Green } let $c = Color::Green; let mut $r = 0; match $c { Color::Red => { $r := 1; } Color::Green => { $r := 2; } }" 2 = Some 2 /\
  reg_after "let $x = @ok(5); let mut $y = 0; match $x { Ok($v) => { $y := $v; } Err($e) => { $y := 99; } }" 2 = Some 5.
Proof. split_and!; vm_compute; reflexivity. Qed.
