(* ===== verification/Fmt.v ===== *)
(** The source formatter (pulselang-core/src/fmt.rs): [format_source], which
    checks a source with the lexer and then rewrites it line by line.

    A line is the byte list of its UTF-8 text. The scanners of the source walk
    an index [i] over the bytes; here they walk the bytes that are left. A
    string slice [&line[a..b]] panics when [a] or [b] is inside a character;
    the one slice that can be is that of a number's time suffix ([suffix2]),
    the others start and end at ASCII bytes. *)

From S2P Require Import Prelude RustStd Isa Token Error RustStr Lexer.
Local Open Scope Z_scope.

(** * Tokens of a line *)

Inductive TokenCategory : Set :=
| IdentOrLiteral | Colon | ColonColon | Comma | Semi | Dot | DotDot
| LParen | RParen | LBracket | RBracket | LBrace | RBrace
| BinaryOp | UnaryMinus | Exclamation | Question.

#[export] Instance TokenCategory_eq_dec : EqDecision TokenCategory.
Proof. solve_decision. Defined.

Record LineToken : Set := mkLine { text : list Z; category : TokenCategory }.

#[export] Instance LineToken_eq_dec : EqDecision LineToken.
Proof. solve_decision. Defined.

Definition is_cat (t : LineToken) (c : TokenCategory) : bool := bool_decide (category t = c).
Definition is_text (t : LineToken) (s : string) : bool := bytes_eqb (text t) (bytes s).

(** The locals of [tokenize_line]: the tokens, last one first, and the flags. *)
Record scan : Set := mkScan { tokens : list LineToken; after_fixed : bool; in_fixed_lt : bool }.

Definition scan_new : scan := mkScan [] false false.

Definition push (st : scan) (t : list Z) (c : TokenCategory) : scan :=
  mkScan (mkLine t c :: tokens st) (after_fixed st) (in_fixed_lt st).

(** The longest prefix of bytes that satisfy [p], and what follows. *)
Fixpoint span (p : Z -> bool) (l : list Z) : list Z * list Z :=
  match l with
  | b :: l' => if p b then let '(s, r) := span p l' in (b :: s, r) else ([], l)
  | [] => ([], [])
  end.

(** A string literal after its opening quote: a backslash takes the byte after
    it along; the closing quote, if there is one, belongs to the literal. *)
Fixpoint string_body (l : list Z) : list Z * list Z :=
  match l with
  | [] => ([], [])
  | b :: l1 =>
    if b =? 34 then ([b], l1)
    else
      match l1 with
      | c :: l2 =>
        if b =? 92 then let '(s, r) := string_body l2 in (b :: c :: s, r)
        else let '(s, r) := string_body l1 in (b :: s, r)
      | [] => ([b], [])
      end
  end.

(** [-] is unary at the start and after an operator, an opening delimiter, a
    separator, [return] or [in]. *)
Definition unary_after (st : scan) : bool :=
  match tokens st with
  | [] => true
  | prev :: _ =>
    match category prev with
    | BinaryOp | UnaryMinus | LParen | LBracket | Comma | Colon | Semi => true
    | IdentOrLiteral => is_text prev "return" || is_text prev "in"
    | _ => false
    end
  end.

(** [&line[i..i + 2]] with [i] at the head of [l]: the end of the slice must
    not be a continuation byte. *)
Definition suffix2 (l : list Z) : outcome CompileError (list Z) :=
  match drop 2 l with
  | b :: _ => if is_cont b then Panic SliceOutOfRange else mret (take 2 l)
  | [] => mret (take 2 l)
  end.

Definition is_suffix (s : list Z) : bool :=
  bytes_eqb s (bytes "ns") || bytes_eqb s (bytes "us") || bytes_eqb s (bytes "ms").

(** The time suffix of a number: how many bytes it has. *)
Definition time_suffix (l : list Z) : outcome CompileError nat :=
  two ← (if 2 <=? len l then s ← suffix2 l; mret (is_suffix s) else mret false);
  mret (if two : bool then 2%nat
        else match l with b :: _ => if b =? 115 then 1%nat else 0%nat | [] => 0%nat end).

(** The fraction of a number: a dot with a digit behind it, and the digits. *)
Definition fraction (l : list Z) : list Z * list Z :=
  match l with
  | 46 :: ((d :: _) as r) =>
    if is_ascii_digit d then let '(s, k) := span is_ascii_digit r in (46 :: s, k) else ([], l)
  | _ => ([], l)
  end.

Definition decimal (l : list Z) : outcome CompileError (list Z * list Z) :=
  let '(s, r) := span is_ascii_digit l in
  let '(f, r) := fraction r in
  n ← time_suffix r;
  mret (s ++ f ++ take n r, drop n r).

(** The arm of a digit [b], with [l] behind it. *)
Definition number (b : Z) (l : list Z) : outcome CompileError (list Z * list Z) :=
  match l with
  | c :: l' =>
    if (b =? 48) && ((c =? 120) || (c =? 88))
    then let '(s, r) := span is_ascii_hexdigit l' in mret (b :: c :: s, r)
    else decimal (b :: l)
  | [] => decimal [b]
  end.

(** The symbols of one byte that are no part of a longer one. *)
Definition symbol1 (b : Z) : option TokenCategory :=
  if b =? 59 then Some Semi
  else if b =? 44 then Some Comma
  else if b =? 40 then Some LParen
  else if b =? 41 then Some RParen
  else if b =? 91 then Some LBracket
  else if b =? 93 then Some RBracket
  else if b =? 123 then Some LBrace
  else if b =? 125 then Some RBrace
  else if b =? 63 then Some Question
  else if (b =? 42) || (b =? 47) || (b =? 37) || (b =? 94) then Some BinaryOp
  else None.

(** The second bytes that make a longer symbol of [b], with its category. *)
Definition symbol2 (b c : Z) : option TokenCategory :=
  if b =? 58 then
    if c =? 61 then Some BinaryOp else if c =? 58 then Some ColonColon else None
  else if b =? 46 then if c =? 46 then Some DotDot else None
  else if b =? 33 then if c =? 61 then Some BinaryOp else None
  else if b =? 61 then if (c =? 61) || (c =? 62) then Some BinaryOp else None
  else if b =? 43 then if c =? 61 then Some BinaryOp else None
  else if b =? 45 then if (c =? 61) || (c =? 62) then Some BinaryOp else None
  else if b =? 38 then if c =? 38 then Some BinaryOp else None
  else if b =? 124 then if (c =? 124) || (c =? 62) then Some BinaryOp else None
  else if b =? 60 then if (c =? 60) || (c =? 61) then Some BinaryOp else None
  else if b =? 62 then if (c =? 62) || (c =? 61) then Some BinaryOp else None
  else None.

(** The category of such a [b] alone; [None] when [b] starts no such symbol. *)
Definition symbol (st : scan) (b : Z) : option TokenCategory :=
  if b =? 58 then Some Colon
  else if b =? 46 then Some Dot
  else if b =? 33 then Some Exclamation
  else if b =? 45 then Some (if unary_after st then UnaryMinus else BinaryOp)
  else if (b =? 61) || (b =? 43) || (b =? 38) || (b =? 124) || (b =? 60) || (b =? 62)
  then Some BinaryOp
  else None.

(** The arms of these symbols. After [fixed], [<] and the next [>] stand
    alone. *)
Definition lex_symbol (st : scan) (b : Z) (l : list Z) (c : TokenCategory) : scan * list Z :=
  if (b =? 60) && after_fixed st then
    (mkScan (mkLine [b] BinaryOp :: tokens st) false true, l)
  else if (b =? 62) && in_fixed_lt st then
    (mkScan (mkLine [b] BinaryOp :: tokens st) (after_fixed st) false, l)
  else
    match l with
    | d :: l' =>
      match symbol2 b d with
      | Some c2 => (push st [b; d] c2, l')
      | None => (push st [b] c, l)
      end
    | [] => (push st [b] c, l)
    end.

Definition is_blank (b : Z) : bool := (b =? 32) || (b =? 9) || (b =? 13).

(** One round of the loop of [tokenize_line] on the byte [b]. *)
Definition lex_byte (st : scan) (b : Z) (l : list Z) : outcome CompileError (scan * list Z) :=
  if is_blank b then mret (st, l)
  else if b =? 34 then
    let '(s, r) := string_body l in mret (push st (b :: s) IdentOrLiteral, r)
  else
    match symbol1 b, symbol st b with
    | Some c, _ => mret (push st [b] c, l)
    | None, Some c => mret (lex_symbol st b l c)
    | None, None =>
      if (b =? 36) || (b =? 35) || (b =? 64) then
        let '(s, r) := span is_dotted_byte l in mret (push st (b :: s) IdentOrLiteral, r)
      else if is_ascii_digit b then
        '(s, r) ← number b l; mret (push st s IdentOrLiteral, r)
      else
        let '(s, r) := span is_dotted_byte (b :: l) in
        match s with
        | [] => mret (st, l)
        | _ => mret (mkScan (mkLine s IdentOrLiteral :: tokens st)
                       (bytes_eqb s (bytes "fixed")) (in_fixed_lt st), r)
        end
    end.

(** The loop. Every round takes a byte, so a fuel of the line's length is
    enough ([lex_line_fuel]). *)
Fixpoint lex_line (fuel : nat) (st : scan) (l : list Z) : outcome CompileError scan :=
  match fuel, l with
  | S fuel, b :: l => '(st, l) ← lex_byte st b l; lex_line fuel st l
  | _, _ => mret st
  end.

Definition tokenize_line (line : list Z) : outcome CompileError (list LineToken) :=
  st ← lex_line (length line) scan_new line; mret (rev (tokens st)).

(** * Printing the tokens of a line *)

Definition is_space_needed (prev curr : LineToken) (has_fixed_lt : bool) : bool :=
  if is_cat curr Semi || is_cat curr Comma then false
  else if is_cat curr Colon then false
  else if is_cat curr Dot || is_cat prev Dot then false
  else if is_cat curr DotDot || is_cat prev DotDot then false
  else if is_cat curr ColonColon || is_cat prev ColonColon then false
  else if is_cat curr Question then false
  else if is_cat prev Exclamation then false
  else if is_cat prev Colon then true
  else if is_cat prev Semi then true
  else if is_cat prev Comma then true
  else if is_cat curr RParen then false
  else if is_cat prev LParen then false
  else if is_cat curr RBracket then false
  else if is_cat prev LBracket then false
  else if is_cat curr LParen then
    if is_cat prev IdentOrLiteral then
      is_text prev "if" || is_text prev "while" || is_text prev "match"
      || is_text prev "for" || is_text prev "return" || is_text prev "in"
    else if is_cat prev BinaryOp then true
    else if is_cat prev LParen || is_cat prev LBracket then false
    else true
  else if is_cat curr LBracket then
    if is_cat prev IdentOrLiteral then is_text prev "return" || is_text prev "in"
    else if is_cat prev RParen || is_cat prev RBracket then false
    else true
  else if is_text curr "<" && is_text prev "fixed" then false
  else if is_text prev "<" && has_fixed_lt then false
  else if is_text curr ">" && has_fixed_lt then false
  else if is_cat curr UnaryMinus then
    if is_cat prev LParen || is_cat prev LBracket then false else true
  else if is_cat prev UnaryMinus then false
  else if is_cat curr BinaryOp || is_cat prev BinaryOp then true
  else if is_cat curr LBrace then true
  else if is_cat prev LBrace then true
  else if is_cat curr RBrace then true
  else if is_cat prev RBrace then
    if is_cat curr Semi || is_cat curr Comma then false else true
  else true.

Definition ends_with (l : list Z) (b : Z) : bool := bool_decide (last l = Some b).

(** The loop of [format_tokens]: the previous token, the flag [in_fixed], and
    what is printed so far. *)
Fixpoint format_loop (prev : option LineToken) (in_fixed : bool) (out : list Z)
    (ts : list LineToken) : list Z :=
  match ts with
  | [] => out
  | curr :: ts =>
    let in_fixed :=
      match prev with
      | Some p => if is_text curr "<" && is_text p "fixed" then true else in_fixed
      | None => in_fixed
      end in
    let out :=
      match prev with
      | Some p =>
        if is_space_needed p curr in_fixed && negb (ends_with out 32) then out ++ [32] else out
      | None => out
      end in
    let out := out ++ text curr in
    format_loop (Some curr) (if in_fixed && is_text curr ">" then false else in_fixed) out ts
  end.

Definition format_tokens (ts : list LineToken) : list Z := format_loop None false [] ts.

Definition format_line (line : list Z) : outcome CompileError (list Z) :=
  ts ← tokenize_line line; mret (format_tokens ts).

(** A line of source and its formatted text, as strings. *)
Definition formatted (s : string) : option (list Z) :=
  match format_line (bytes s) with Ok l => Some l | _ => None end.

Example format_operators :
  formatted "let mut $x:i64=10+20*3; let $b=$x==70; let $gain:fixed<16>=1.5; $arr[0]:= -$x;" =
  Some (bytes "let mut $x: i64 = 10 + 20 * 3; let $b = $x == 70; let $gain: fixed<16> = 1.5; $arr[0] := -$x;").
Proof. vm_compute. reflexivity. Qed.

(** * Lines *)

(** Walks over the code of a line, the flag says whether inside a string. *)
Fixpoint comment_at (in_str : bool) (l : list Z) : option nat :=
  match l with
  | [] => None
  | b :: l1 =>
    if (b =? 92) && in_str then
      match l1 with _ :: l2 => (fun n => S (S n)) <$> comment_at in_str l2 | [] => None end
    else if b =? 34 then S <$> comment_at (negb in_str) l1
    else if (b =? 47) && negb in_str && match l1 with c :: _ => c =? 47 | [] => false end
    then Some O
    else S <$> comment_at in_str l1
  end.

(** [split_line_comment]: the code, and the comment with its two slashes. *)
Definition split_line_comment (line : list Z) : list Z * option (list Z) :=
  match comment_at false line with
  | Some n => (take n line, Some (drop n line))
  | None => (line, None)
  end.

(** [count_braces] and [count_brackets] are one loop on two pairs of bytes. *)
Fixpoint count_pairs (o c : Z) (in_str : bool) (l : list Z) : nat * nat :=
  match l with
  | [] => (O, O)
  | b :: l1 =>
    if (b =? 92) && in_str then
      match l1 with _ :: l2 => count_pairs o c in_str l2 | [] => (O, O) end
    else if b =? 34 then count_pairs o c (negb in_str) l1
    else
      let '(m, n) := count_pairs o c in_str l1 in
      if (b =? o) && negb in_str then (S m, n)
      else if (b =? c) && negb in_str then (m, S n)
      else (m, n)
  end.

Definition count_braces (l : list Z) : nat * nat := count_pairs 123 125 false l.
Definition count_brackets (l : list Z) : nat * nat := count_pairs 91 93 false l.

(** * Validation *)

Definition at_token (code message : string) (t : Token) (expected suggestion : string)
    : CompileError :=
  mkCompileError code message (line t) (col t) (start t) (kind t) (tlen t) expected
    "Formatter -> Validation" suggestion.

Record counts : Set := mkCounts { braces : Z; parens : Z; brackets : Z }.

Definition closed_string (src : list Z) (t : Token) : outcome CompileError bool :=
  if tlen t <? 2 then mret false
  else
    a ← idx src (start t);
    if negb (a =? 34) then mret false
    else b ← idx src (start t + tlen t - 1); mret (b =? 34).

Definition validate_token (src : list Z) (n : counts) (t : Token) : outcome CompileError counts :=
  match kind t with
  | TokenKind.LBrace => mret (mkCounts (braces n + 1) (parens n) (brackets n))
  | TokenKind.RBrace =>
    if braces n - 1 <? 0 then
      Err (at_token "ERR_UNMATCHED_BRACE" "Unexpected closing brace '}' without matching '{'" t
             "Matching opening brace '{'" "Remove redundant '}' or add opening '{'")
    else mret (mkCounts (braces n - 1) (parens n) (brackets n))
  | TokenKind.LParen => mret (mkCounts (braces n) (parens n + 1) (brackets n))
  | TokenKind.RParen =>
    if parens n - 1 <? 0 then
      Err (at_token "ERR_UNMATCHED_PAREN"
             "Unexpected closing parenthesis ')' without matching '('" t
             "Matching opening parenthesis '('" "Remove redundant ')' or add opening '('")
    else mret (mkCounts (braces n) (parens n - 1) (brackets n))
  | TokenKind.LBracket => mret (mkCounts (braces n) (parens n) (brackets n + 1))
  | TokenKind.RBracket =>
    if brackets n - 1 <? 0 then
      Err (at_token "ERR_UNMATCHED_BRACKET"
             "Unexpected closing bracket ']' without matching '['" t
             "Matching opening bracket '['" "Remove redundant ']' or add opening '['")
    else mret (mkCounts (braces n) (parens n) (brackets n - 1))
  | TokenKind.StringLit =>
    ok ← closed_string src t;
    if ok : bool then mret n
    else
      Err (at_token "ERR_UNCLOSED_STRING" "Unclosed string literal in source script" t
             ("Closing quote '" ++ String (Ascii.ascii_of_nat 34) "'")
             ("Add closing quote '" ++ String (Ascii.ascii_of_nat 34)
                "' to terminate string literal"))
  | _ => mret n
  end.

Fixpoint validate_tokens (src : list Z) (n : counts) (ts : list Token)
    : outcome CompileError counts :=
  match ts with
  | [] => mret n
  | t :: ts => n ← validate_token src n t; validate_tokens src n ts
  end.

Definition validate (src : list Z) (ts : list Token) : outcome CompileError unit :=
  n ← validate_tokens src (mkCounts 0 0 0) ts;
  if negb (braces n =? 0) then
    Err (simple "ERR_UNCLOSED_BRACE" "Unclosed opening brace '{' in source script")
  else if negb (parens n =? 0) then
    Err (simple "ERR_UNCLOSED_PAREN" "Unclosed opening parenthesis '(' in source script")
  else if negb (brackets n =? 0) then
    Err (simple "ERR_UNCLOSED_BRACKET" "Unclosed opening bracket '[' in source script")
  else mret tt.

(** * The line loop *)

(** [src.lines()]: the pieces between newlines; a carriage return before a
    newline is dropped, and so is an empty last piece. *)
Definition strip_cr (l : list Z) : list Z := if ends_with l 13 then removelast l else l.

Fixpoint lines_of (ps : list (list Z)) : list (list Z) :=
  match ps with
  | [] => []
  | [p] => match p with [] => [] | _ => [p] end
  | p :: ps => strip_cr p :: lines_of ps
  end.

Definition lines (src : list Z) : list (list Z) := lines_of (split 10 src).

Record layout : Set := mkLayout { out : list Z; depth : nat; last_was_empty : bool }.

Definition spaces (n : nat) : list Z := replicate n 32.

Definition is_contract_clause (l : list Z) : bool :=
  starts_with l (bytes "@wcet(") || starts_with l (bytes "@requires(")
  || starts_with l (bytes "@ensures(") || starts_with l (bytes "@invariant(").

(** The depth a line of code is printed at, and the depth after it. *)
Definition line_depth (depth : nat) (l : list Z) : nat :=
  if starts_with l [125] || starts_with l [93] then pred depth
  else if is_contract_clause l then S depth
  else depth.

Definition next_depth (depth : nat) (l : list Z) : nat :=
  let '(open_braces, close_braces) := count_braces l in
  let '(open_brackets, close_brackets) := count_brackets l in
  depth - close_braces - close_brackets + open_braces + open_brackets.

(** The body of the loop over the lines. *)
Definition format_step (y : layout) (raw_line : list Z) : outcome CompileError layout :=
  let '(code_part, comment_opt) := split_line_comment raw_line in
  let trimmed_code := trim code_part in
  let trimmed_comment := trim <$> comment_opt in
  match trimmed_code, trimmed_comment with
  | [], None =>
    mret (if last_was_empty y then y else mkLayout (out y ++ [10]) (depth y) true)
  | [], Some comment =>
    mret (mkLayout (out y ++ spaces (depth y * 4) ++ comment ++ [10]) (depth y) false)
  | _, _ =>
    formatted_code ← format_line trimmed_code;
    mret (mkLayout
            (out y ++ spaces (line_depth (depth y) trimmed_code * 4) ++ formatted_code ++
             match trimmed_comment with Some comment => 32 :: comment | None => [] end ++ [10])
            (next_depth (depth y) trimmed_code) false)
  end.

Fixpoint format_steps (y : layout) (ls : list (list Z)) : outcome CompileError layout :=
  match ls with
  | [] => mret y
  | l :: ls => y ← format_step y l; format_steps y ls
  end.

(** [format_source]; [None] when the lexer's fuel runs out, which it does not
    ([tokenize_result]). *)
Definition format_source (oc : bool) (src : list Z) : option (outcome CompileError (list Z)) :=
  match trim src with
  | [] => Some (mret [])
  | _ =>
    match tokenize oc src (replicate (Z.to_nat MAX_TOKENS) empty_token) with
    | None => None
    | Some r =>
      Some ('(tok_count, toks) ← r;
            _ ← validate src (take (Z.to_nat tok_count) toks);
            y ← format_steps (mkLayout [] 0 true) (lines src);
            mret (if ends_with (out y) 10 then out y else out y ++ [10]))
    end
  end.
