(* ===== verification/FmtProps.v ===== *)
(** What the formatter keeps: a formatted line has the visible text of the line
    it came from, formatting a formatted line changes nothing when no two of
    its tokens run together, and no ASCII line makes it panic. *)

From S2P Require Import Prelude RustStd Isa Token Error RustStr Lexer LexerProps Fmt.
Local Open Scope Z_scope.

(** * The visible text of a line

    What is left when blanks, and bytes that start no token, are taken out of
    the code between the string literals. *)

Definition is_code (b : Z) : bool :=
  is_dotted_byte b || (b =? 36) || (b =? 35) || (b =? 64)
  || match symbol1 b with Some _ => true | None => false end
  || match symbol scan_new b with Some _ => true | None => false end.

Fixpoint visible (in_str : bool) (l : list Z) : list Z :=
  match l with
  | [] => []
  | b :: l1 =>
    if in_str then
      if b =? 34 then b :: visible false l1
      else
        match l1 with
        | c :: l2 => if b =? 92 then b :: c :: visible true l2 else b :: visible true l1
        | [] => [b]
        end
    else if b =? 34 then b :: visible true l1
    else if is_code b then b :: visible false l1
    else visible false l1
  end.

Definition code_only (s : list Z) : Prop := Forall (fun b => is_code b = true /\ b <> 34) s.

Lemma visible_code s k : code_only s -> visible false (s ++ k) = s ++ visible false k.
Proof.
  induction 1 as [|b s [Hb Hq] _ IH]; [done|]. simpl. rewrite Hb.
  destruct (Z.eqb_spec b 34); [done|]. by rewrite IH.
Qed.

(** * Spans and string bodies *)

Lemma span_eq p l s r : span p l = (s, r) -> l = s ++ r /\ Forall (fun b => p b = true) s.
Proof.
  revert s r. induction l as [|b l IH]; intros s r; simpl; [by intros [= <- <-]|].
  destruct (p b) eqn:Hb; [|by intros [= <- <-]].
  destruct (span p l) as [s1 r1]. destruct (IH s1 r1 eq_refl) as [-> Hf].
  intros [= <- <-]. split; [done | by constructor].
Qed.

(** The byte at the head of [k] is not one of [p]. *)
Definition stops_at (p : Z -> bool) (k : list Z) : Prop :=
  match k with c :: _ => p c = false | [] => True end.

Lemma span_cut p s k :
  Forall (fun b => p b = true) s -> stops_at p k -> span p (s ++ k) = (s, k).
Proof.
  intros Hs Hk. induction Hs as [|b s Hb _ IH]; simpl.
  - destruct k as [|c k]; simpl in *; [done | by rewrite Hk].
  - by rewrite Hb, IH.
Qed.

Lemma string_body_eq l s r :
  string_body l = (s, r) ->
  l = s ++ r /\ visible true l = s ++ visible false r /\
  (r <> [] -> last s = Some 34 /\ forall k, string_body (s ++ k) = (s, k)).
Proof.
  revert s r. induction l as [|b l IH1 IH2] using list_ind_two; intros s r; [by intros [= <- <-]|].
  cbn [string_body visible]. destruct (Z.eqb_spec b 34) as [->|Hq]; [by intros [= <- <-]|].
  destruct l as [|c l2]; [by intros [= <- <-]|].
  destruct (Z.eqb_spec b 92) as [->|Hb].
  - destruct (string_body l2) as [s1 r1] eqn:E. intros [= <- <-].
    destruct (IH2 c l2 eq_refl s1 r1 E) as (-> & Hv & Hr). split_and!; [done | by rewrite Hv|].
    intros [Hl Hk]%Hr. split; [|intros k; cbn; by rewrite Hk].
    destruct s1; [done|]. by rewrite !last_cons_cons.
  - destruct (string_body (c :: l2)) as [s1 r1] eqn:E. intros [= <- <-].
    destruct (IH1 s1 r1 eq_refl) as (He & Hv & Hr). rewrite He. split_and!; [done | by rewrite <-He, Hv|].
    intros [Hl Hk]%Hr. destruct s1 as [|x s1]; [done|]. split; [by rewrite last_cons_cons|].
    intros k. specialize (Hk k). cbn [app string_body] in *.
    destruct (Z.eqb_spec b 34); [done|]. destruct (Z.eqb_spec b 92); [done|]. by rewrite Hk.
Qed.

(** * The token a round reads *)

Definition ascii (l : list Z) : Prop := Forall (fun b => 0 <= b < 128) l.

Lemma is_cont_ascii b : b < 128 -> is_cont b = false.
Proof. intros H. unfold is_cont, in_range. apply andb_false_iff. left. apply Z.leb_gt. lia. Qed.

Lemma is_code_digit b : is_ascii_digit b = true -> is_code b = true.
Proof.
  intros H. unfold is_code, is_dotted_byte, is_ident_byte, is_ascii_alphanumeric.
  by rewrite H, orb_true_r.
Qed.

Lemma is_code_dotted b : is_dotted_byte b = true -> is_code b = true.
Proof. intros H. unfold is_code. by rewrite H. Qed.

Lemma in_range_true lo b hi : in_range lo b hi = true <-> lo <= b <= hi.
Proof. apply in_range_spec. Qed.

Lemma dotted_range b :
  is_dotted_byte b = true <->
  97 <= b <= 122 \/ 65 <= b <= 90 \/ 48 <= b <= 57 \/ b = 95 \/ b = 46.
Proof.
  unfold is_dotted_byte, is_ident_byte, is_ascii_alphanumeric, is_ascii_alphabetic,
    is_ascii_lowercase, is_ascii_uppercase, is_ascii_digit.
  rewrite !orb_true_iff, !in_range_true, !Z.eqb_eq. tauto.
Qed.

Lemma ident_range b :
  is_ident_byte b = true <-> 97 <= b <= 122 \/ 65 <= b <= 90 \/ 48 <= b <= 57 \/ b = 95.
Proof.
  unfold is_ident_byte, is_ascii_alphanumeric, is_ascii_alphabetic,
    is_ascii_lowercase, is_ascii_uppercase, is_ascii_digit.
  rewrite !orb_true_iff, !in_range_true, !Z.eqb_eq. tauto.
Qed.

Lemma digit_range b : is_ascii_digit b = true <-> 48 <= b <= 57.
Proof. apply in_range_true. Qed.

Lemma hexdigit_range b :
  is_ascii_hexdigit b = true <-> 48 <= b <= 57 \/ 97 <= b <= 102 \/ 65 <= b <= 70.
Proof. unfold is_ascii_hexdigit, is_ascii_digit. rewrite !orb_true_iff, !in_range_true. tauto. Qed.

Lemma code_of_dotted s : Forall (fun b => is_dotted_byte b = true) s -> code_only s.
Proof.
  intros Hs. eapply Forall_impl; [exact Hs|]. intros b Hb. split; [by apply is_code_dotted|].
  apply dotted_range in Hb. lia.
Qed.

Lemma digits_dotted s :
  Forall (fun b => is_ascii_digit b = true) s -> Forall (fun b => is_dotted_byte b = true) s.
Proof. intros Hs. eapply Forall_impl; [exact Hs|]. intros b Hb%digit_range. apply dotted_range. lia. Qed.

Lemma suffix_letters r :
  is_suffix (take 2 r) = true ->
  exists a k, r = a :: 115 :: k /\ (a = 110 \/ a = 117 \/ a = 109).
Proof.
  unfold is_suffix, bytes_eqb. rewrite !orb_true_iff, !bool_decide_eq_true.
  destruct r as [|a [|b k]]; [naive_solver..|]. cbn.
  intros [[[= -> ->]|[= -> ->]]|[= -> ->]]; eauto 8.
Qed.

Lemma time_suffix_cases r n :
  time_suffix r = Ok n ->
  (n = 2%nat /\ is_suffix (take 2 r) = true) \/
  (n = 1%nat /\ exists k, r = 115 :: k) \/ n = 0%nat.
Proof.
  unfold time_suffix. intros (two & Ht & [= <-])%bind_Ok. destruct two.
  - left. split; [done|]. destruct (2 <=? len r); [|done].
    apply bind_Ok in Ht as (s & Hs & [= Ht]). unfold suffix2 in Hs.
    destruct (drop 2 r) as [|b k]; [by injection Hs as <-|].
    destruct (is_cont b); [done | by injection Hs as <-].
  - right. destruct r as [|b k]; [by right|]. destruct (Z.eqb_spec b 115) as [->|]; [left | by right].
    eauto.
Qed.

Lemma fraction_eq l f r :
  fraction l = (f, r) ->
  l = f ++ r /\
  (f = [] \/ exists d s, f = 46 :: d :: s /\ Forall (fun b => is_ascii_digit b = true) (d :: s)).
Proof.
  unfold fraction. destruct l as [|b l]; [intros [= <- <-]; auto|].
  destruct (decide (b = 46)) as [->|Hb].
  2: { intros H. assert ((f, r) = ([], b :: l)) as [= -> ->]; [|auto].
       rewrite <-H. repeat (case_match; try done). }
  destruct l as [|d l]; [intros [= <- <-]; auto|].
  destruct (is_ascii_digit d) eqn:Hd; [|intros [= <- <-]; auto].
  destruct (span is_ascii_digit (d :: l)) as [s k] eqn:E. intros [= <- <-].
  pose proof E as E1. apply span_eq in E as [He Hf]. split; [by rewrite He|]. right.
  cbn in E1. rewrite Hd in E1. destruct (span is_ascii_digit l) as [s1 r1].
  injection E1 as <- <-. eauto.
Qed.

(** The numbers. *)
Lemma decimal_eq l s r :
  decimal l = Ok (s, r) ->
  l = s ++ r /\ Forall (fun b => is_dotted_byte b = true) s /\
  (is_ascii_digit (default 0 (head l)) = true -> s <> []).
Proof.
  unfold decimal. destruct (span is_ascii_digit l) as [d r1] eqn:E1.
  destruct (fraction r1) as [f r2] eqn:E2. intros (n & Hn & [= <- <-])%bind_Ok.
  pose proof E1 as E0. apply span_eq in E1 as [-> Hd]. apply fraction_eq in E2 as [-> Hf].
  split_and!; [by rewrite <-!app_assoc, take_drop| |].
  - rewrite !Forall_app. split_and!; [by apply digits_dotted | |].
    + destruct Hf as [->|(x & t & -> & Hx)]; [done|]. constructor; [done | by apply digits_dotted].
    + apply time_suffix_cases in Hn as [[-> Hs]|[[-> [k ->]]| ->]].
      * apply suffix_letters in Hs as (a & k & -> & Ha). cbn. repeat constructor.
        destruct Ha as [->|[->| ->]]; done.
      * by repeat constructor.
      * constructor.
  - intros Hh. destruct d as [|x d]; [|done]. exfalso. cbn in E0, Hh.
    destruct (f ++ r2) as [|x k]; [done|]. cbn in *. rewrite Hh in E0.
    by destruct (span is_ascii_digit k).
Qed.

Lemma number_eq b l s r :
  is_ascii_digit b = true -> number b l = Ok (s, r) ->
  b :: l = s ++ r /\ Forall (fun b => is_dotted_byte b = true) s /\ s <> [].
Proof.
  intros Hb. unfold number.
  assert (Hd : forall s r, decimal (b :: l) = Ok (s, r) ->
    b :: l = s ++ r /\ Forall (fun b => is_dotted_byte b = true) s /\ s <> []).
  { intros s0 r0 (? & ? & ?)%decimal_eq. auto. }
  destruct l as [|c l]; [apply Hd|]. case_match eqn:Hx; [|apply Hd].
  destruct (span is_ascii_hexdigit l) as [h k] eqn:E. intros [= <- <-].
  apply span_eq in E as [-> Hh]. apply andb_true_iff in Hx as [-> %Z.eqb_eq Hx].
  apply orb_true_iff in Hx. rewrite !Z.eqb_eq in Hx.
  split_and!; [done| |done]. constructor; [done|].
  constructor; [destruct Hx as [->| ->]; done|].
  eapply Forall_impl; [exact Hh|]. intros x Hhx%hexdigit_range. apply dotted_range. lia.
Qed.

(** A round on [b :: l] reads no token and leaves [l], or reads the token [t]
    and leaves [r]. *)
Definition reads (st st' : scan) (b : Z) (l : list Z) (t : LineToken) (r : list Z) : Prop :=
  tokens st' = t :: tokens st /\ b :: l = text t ++ r /\ head (text t) = Some b.

Lemma symbol1_code b c : symbol1 b = Some c -> is_code b = true /\ b <> 34.
Proof.
  intros H. split; [by unfold is_code; rewrite H, !orb_true_r|].
  by intros ->.
Qed.

Lemma symbol_code st b c : symbol st b = Some c -> is_code b = true /\ b <> 34.
Proof.
  intros H. assert (Hs : is_Some (symbol scan_new b)).
  { unfold symbol in *. repeat (destruct (_ =? _); [eauto|]). simpl in *. done. }
  split; [|intros ->; by destruct Hs].
  unfold is_code. destruct Hs as [x ->]. by rewrite !orb_true_r.
Qed.

Lemma symbol2_code b c x : symbol2 b c = Some x -> is_code c = true /\ c <> 34.
Proof.
  unfold symbol2.
  repeat match goal with
  | |- context [if ?u =? ?v then _ else _] => destruct (Z.eqb_spec u v); [subst|]
  | |- context [if (?u =? ?v) || _ then _ else _] => destruct (Z.eqb_spec u v); [subst|]; simpl
  end; try done; intros _; done.
Qed.

(** The texts of tokens: code, or a string literal. *)
Definition string_text (t : LineToken) (l r : list Z) : Prop :=
  exists s, text t = 34 :: s /\ l = 34 :: s ++ r /\ string_body (s ++ r) = (s, r).

Lemma lex_symbol_reads st b l c st' r :
  symbol st b = Some c -> lex_symbol st b l c = (st', r) ->
  exists t, reads st st' b l t r /\ code_only (text t).
Proof.
  intros Hb H. apply symbol_code in Hb as [Hb Hq]. unfold lex_symbol in H.
  assert (H1 : code_only [b]) by (by constructor).
  destruct ((b =? 60) && after_fixed st); [injection H as <- <-; by exists (mkLine [b] BinaryOp)|].
  destruct ((b =? 62) && in_fixed_lt st); [injection H as <- <-; by exists (mkLine [b] BinaryOp)|].
  destruct l as [|d l]; [injection H as <- <-; by exists (mkLine [b] c)|].
  destruct (symbol2 b d) as [x|] eqn:E; injection H as <- <-.
  - apply symbol2_code in E. exists (mkLine [b; d] x). split; [done|].
    by apply (Forall_cons_2 _ b [d]); [|apply (Forall_cons_2 _ d [])].
  - by exists (mkLine [b] c).
Qed.

Lemma lex_byte_reads st b l st' r :
  lex_byte st b l = Ok (st', r) ->
  (st' = st /\ r = l /\ is_code b = false /\ b <> 34) \/
  exists t, reads st st' b l t r /\ (code_only (text t) \/ string_text t (b :: l) r).
Proof.
  unfold lex_byte. destruct (is_blank b) eqn:Hbl.
  { intros [= <- <-]. left. split_and!; [done..| |]; unfold is_blank in Hbl;
      apply orb_true_iff in Hbl as [[->%Z.eqb_eq| ->%Z.eqb_eq]%orb_true_iff| ->%Z.eqb_eq]; done. }
  destruct (Z.eqb_spec b 34) as [->|Hq].
  { destruct (string_body l) as [s k] eqn:E. intros [= <- <-]. right.
    pose proof E as E0. apply string_body_eq in E as (-> & _).
    exists (mkLine (34 :: s) IdentOrLiteral). split; [done|]. right. by exists s. }
  destruct (symbol1 b) as [c|] eqn:H1.
  { intros [= <- <-]. right. exists (mkLine [b] c). split; [done|]. left.
    constructor; [by eapply symbol1_code | constructor]. }
  destruct (symbol st b) as [c|] eqn:H2.
  { intros [= H]. right. destruct (lex_symbol_reads st b l c st' r) as (t & ? & ?); eauto. }
  destruct ((b =? 36) || (b =? 35) || (b =? 64)) eqn:H3.
  { destruct (span is_dotted_byte l) as [s k] eqn:E. intros [= <- <-]. right.
    apply span_eq in E as [-> Hs]. exists (mkLine (b :: s) IdentOrLiteral). split; [done|]. left.
    constructor; [|by apply code_of_dotted]. split; [|done].
    unfold is_code. rewrite !orb_true_iff in H3. destruct H3 as [[-> | ->] | ->];
      by rewrite ?orb_true_r. }
  destruct (is_ascii_digit b) eqn:Hd.
  { intros ([s k] & H & [= <- <-])%bind_Ok. right.
    apply number_eq in H as (He & Hs & Hn); [|done]. exists (mkLine s IdentOrLiteral).
    split; [|left; by apply code_of_dotted]. split_and!; [done..|].
    destruct s as [|x s]; [done|]. by injection He as <- _. }
  destruct (span is_dotted_byte (b :: l)) as [s k] eqn:E. pose proof E as E0.
  apply span_eq in E as [He Hs]. destruct s as [|x s].
  - intros [= <- <-]. left. split_and!; [done..| |done]. simpl in E0.
    destruct (is_dotted_byte b) eqn:Hw; [by destruct (span is_dotted_byte l)|].
    unfold is_code. rewrite Hw, H1. rewrite !orb_false_iff in H3. destruct H3 as [[-> ->] ->]. simpl.
    unfold symbol in *. repeat (destruct (_ =? _); [done|]). simpl in *. done.
  - intros [= <- <-]. right. exists (mkLine (x :: s) IdentOrLiteral).
    split; [|left; by apply code_of_dotted]. split_and!; [done..|]. by injection He as <- _.
Qed.

(** * Formatting keeps the visible text *)

(** The text of [t] is read as it is whatever follows. *)
Definition solid (t : LineToken) : Prop :=
  (forall k, visible false (text t ++ k) = text t ++ visible false k) /\
  last (text t) <> Some 32.

(** Every token is solid, but for the last, which may be an open string. *)
Fixpoint well_read (ts : list LineToken) : Prop :=
  match ts with
  | [] => True
  | [t] => visible false (text t) = text t
  | t :: ts => solid t /\ well_read ts
  end.

Definition all_text (ts : list LineToken) : list Z := concat (map text ts).

Lemma code_only_solid t : code_only (text t) -> solid t.
Proof.
  intros Hc. split; [by intros; apply visible_code|]. intros Hl.
  apply last_Some in Hl as [l Hl]. unfold code_only in Hc. rewrite Hl in Hc.
  apply Forall_app in Hc as [_ Hc]. inversion Hc as [|? ? [Hd _]]. done.
Qed.

Lemma string_text_visible t l r :
  string_text t l r ->
  visible false l = text t ++ visible false r /\ (r <> [] -> solid t).
Proof.
  intros (s & Ht & -> & (_ & Hv & Hr)%string_body_eq). rewrite Ht.
  split; [simpl; by rewrite Hv|]. intros [Hl Hk]%Hr. split.
  - intros k. rewrite Ht. simpl. destruct (string_body_eq _ _ _ (Hk k)) as (_ & -> & _). done.
  - rewrite Ht. destruct s; [done|]. rewrite last_cons_cons. congruence.
Qed.

Lemma token_visible t b l st st' r :
  reads st st' b l t r -> code_only (text t) \/ string_text t (b :: l) r ->
  visible false (b :: l) = text t ++ visible false r /\ (r <> [] -> solid t).
Proof.
  intros (_ & He & _) [Hc|Hs]; [|by apply string_text_visible].
  rewrite He. split; [by apply visible_code | by intros; apply code_only_solid].
Qed.

Lemma lex_line_nil n st : lex_line n st [] = Ok st.
Proof. by destruct n. Qed.

(** A round leaves fewer bytes, so more fuel than bytes changes nothing. *)
Lemma lex_byte_shorter st b l st' r :
  lex_byte st b l = Ok (st', r) -> (length r <= length l)%nat.
Proof.
  intros [(_ & -> & _)|(t & (_ & He & Hh) & _)]%lex_byte_reads; [done|].
  destruct (text t) as [|x tl]; [done|]. apply (f_equal length) in He. simpl in He.
  rewrite length_app in He. lia.
Qed.

Lemma lex_line_fuel n l st : (length l <= n)%nat -> lex_line n st l = lex_line (length l) st l.
Proof.
  assert (forall n m l st, (length l <= n)%nat -> (length l <= m)%nat ->
    lex_line n st l = lex_line m st l); [|eauto].
  clear. intros n. induction n as [|n IH]; intros [|m] [|b l] st Hn Hm; try done;
    simpl in Hn, Hm; try lia.
  cbn [lex_line]. destruct (lex_byte st b l) as [[st' r]|e|q] eqn:E; [cbn|done..].
  apply lex_byte_shorter in E. apply IH; lia.
Qed.

Lemma lex_line_visible n l st st1 :
  (length l <= n)%nat -> lex_line n st l = Ok st1 ->
  exists ts, tokens st1 = rev ts ++ tokens st /\ visible false l = all_text ts /\ well_read ts.
Proof.
  revert l st. induction n as [|n IH]; intros l st Hn.
  { destruct l; [|simpl in Hn; lia]. intros [= <-]. by exists []. }
  destruct l as [|b l]; [intros [= <-]; by exists []|]. simpl in Hn.
  intros ([st' r] & Hb & H)%bind_Ok. apply lex_byte_reads in Hb as [(-> & -> & Hc & Hq)|(t & Ht & Hk)].
  { apply IH in H as (ts & ? & Hv & ?); [|lia]. exists ts. split_and!; [done| |done].
    cbn [visible]. by rewrite Hc, (proj2 (Z.eqb_neq b 34) Hq). }
  destruct (token_visible _ _ _ _ _ _ Ht Hk) as [Hv Hs]. destruct Ht as (Ht & He & Hh).
  assert (length r <= n)%nat.
  { destruct (text t) as [|x tl]; [done|]. apply (f_equal length) in He. simpl in He.
    rewrite length_app in He. lia. }
  destruct r as [|x r].
  { exists [t]. rewrite lex_line_nil in H. injection H as <-.
    rewrite app_nil_r in He. rewrite Ht, Hv. cbn. by rewrite He, app_nil_r in *. }
  apply IH in H as (ts & Hts & Hr & Hw); [|done]. exists (t :: ts). split_and!.
  - rewrite Hts, Ht. simpl. by rewrite <-app_assoc.
  - by rewrite Hv, Hr.
  - destruct Hs as [Hs Hl]; [done|]. destruct ts; [|by repeat split].
    specialize (Hs []). by rewrite !app_nil_r in Hs.
Qed.

(** Printing adds blanks between the tokens. *)
Lemma format_visible ts prev f out :
  well_read ts ->
  exists x, format_loop prev f out ts = out ++ x /\ visible false x = all_text ts.
Proof.
  revert prev f out. induction ts as [|t ts IH]; intros prev f out Hw.
  { exists []. by rewrite app_nil_r. }
  cbn [format_loop]. set (f1 := match prev with Some p => _ | None => f end).
  set (f2 := if f1 && is_text t ">" then false else f1).
  set (o := match prev with Some p => _ | None => out end).
  assert (Ho : exists sep, o = out ++ sep /\ forall k, visible false (sep ++ k) = visible false k).
  { subst o. destruct prev as [p|]; [case_match|]; [by exists [32]| |];
      exists []; by rewrite app_nil_r. }
  destruct Ho as (sep & -> & Hsep). destruct ts as [|t2 ts].
  { exists (sep ++ text t). split; [by rewrite app_assoc|]. rewrite Hsep. cbn. by rewrite app_nil_r. }
  destruct Hw as [[Hs _] Hw].
  destruct (IH (Some t) f2 ((out ++ sep) ++ text t) Hw) as (x & -> & Hx).
  exists (sep ++ text t ++ x). rewrite Hsep, Hs, Hx. by rewrite !app_assoc.
Qed.

(** C30: formatting a line changes nothing but its blanks: outside string
    literals the visible bytes are the same and in the same order, and the
    string literals are the same, byte for byte. *)
Theorem format_changes_only_blanks l k :
  format_line l = Ok k -> visible false k = visible false l.
Proof.
  unfold format_line, tokenize_line, format_tokens.
  intros (ts & (st & H & [= <-])%bind_Ok & [= <-])%bind_Ok.
  apply lex_line_visible in H as (ts & Hts & -> & Hw); [|done].
  rewrite Hts, app_nil_r, rev_involutive.
  by destruct (format_visible ts None false [] Hw) as (x & -> & Hx).
Qed.

(** * Reading a printed line

    [joins p t]: printed without a blank between them, [p] and [t] are read as
    two tokens again. *)

Definition joins (p t : LineToken) : bool :=
  match text p, text t with
  | b :: s, c :: u =>
    if b =? 34 then true
    else if is_ascii_digit b then
      negb (is_ident_byte c)
      && negb ((c =? 46) && match u with d :: _ => is_ascii_digit d | [] => true end)
    else if is_dotted_byte b && negb (b =? 46) || (b =? 36) || (b =? 35) || (b =? 64) then
      negb (is_dotted_byte c)
    else match s with [] => bool_decide (symbol2 b c = None) | _ => true end
  | _, _ => false
  end.

(** Every two tokens are printed with a blank, or join. *)
Fixpoint stable_loop (prev : option LineToken) (in_fixed : bool) (ts : list LineToken) : bool :=
  match ts with
  | [] => true
  | curr :: ts =>
    let in_fixed :=
      match prev with
      | Some p => if is_text curr "<" && is_text p "fixed" then true else in_fixed
      | None => in_fixed
      end in
    match prev with
    | Some p => is_space_needed p curr in_fixed || joins p curr
    | None => true
    end && stable_loop (Some curr) (if in_fixed && is_text curr ">" then false else in_fixed) ts
  end.

Definition stable (ts : list LineToken) : bool := stable_loop None false ts.

(** The token [t] ends where [k] begins. *)
Definition ends_before (t : LineToken) (k : list Z) : Prop :=
  match text t with
  | b :: s =>
    b = 34 \/
    if is_ascii_digit b then
      stops_at is_ident_byte k /\ (forall d u, k = 46 :: d :: u -> is_ascii_digit d = false)
    else if is_dotted_byte b && negb (b =? 46) || (b =? 36) || (b =? 35) || (b =? 64) then
      stops_at is_dotted_byte k
    else s = [] -> stops_at (fun c => negb (bool_decide (symbol2 b c = None))) k
  | [] => False
  end.

Lemma ends_before_nil t : text t <> [] -> ends_before t [].
Proof. unfold ends_before. destruct (text t); [done|]. intros _. right. by repeat case_match. Qed.

Lemma symbol2_blank b : symbol2 b 32 = None.
Proof. unfold symbol2. by repeat case_match. Qed.

Lemma ends_before_blank t k : text t <> [] -> ends_before t (32 :: k).
Proof.
  unfold ends_before. destruct (text t) as [|b s]; [done|]. intros _. right.
  repeat case_match; [done..|]. intros _. simpl. by rewrite symbol2_blank.
Qed.

Lemma joins_ends t u k : joins t u = true -> ends_before t (text u ++ k).
Proof.
  unfold joins, ends_before. destruct (text t) as [|b s]; [done|].
  destruct (text u) as [|c r]; [done|]. destruct (Z.eqb_spec b 34); [by left|]. right.
  destruct (is_ascii_digit b).
  - apply andb_true_iff in H as [Hc Hd]. rewrite !negb_true_iff in *. split; [done|].
    intros d v [= -> Hr]. simpl in Hd. destruct r as [|x r]; [done|]. by injection Hr as -> _.
  - case_match; [simpl; by apply negb_true_iff|].
    intros ->. simpl. by rewrite H.
Qed.

Lemma span_digit_stop s k :
  Forall (fun b => is_ascii_digit b = true) s -> stops_at is_ascii_digit k ->
  span is_ascii_digit (s ++ k) = (s, k).
Proof. apply span_cut. Qed.

Lemma ident_digit c : is_ident_byte c = false -> is_ascii_digit c = false.
Proof.
  intros H. apply not_true_iff_false. intros Hd. apply not_true_iff_false in H. apply H.
  apply ident_range. apply digit_range in Hd. lia.
Qed.

Lemma time_suffix_ascii a k :
  ascii (a :: k) ->
  time_suffix (a :: k) =
  Ok (if is_suffix (take 2 (a :: k)) then 2%nat else if a =? 115 then 1%nat else 0%nat).
Proof.
  intros Hk. unfold time_suffix. destruct k as [|b k].
  { destruct (is_suffix (take 2 [a])) eqn:E; [|by destruct (a =? 115)].
    by apply suffix_letters in E as (? & ? & ? & _). }
  rewrite (proj2 (Z.leb_le 2 (len (a :: b :: k))))
    by (rewrite !len_cons; pose proof (len_nonneg k); lia).
  unfold suffix2. cbn [drop]. destruct k as [|c k]; [done|].
  unfold ascii in Hk. rewrite !Forall_cons in Hk. 
  rewrite drop_0. by rewrite is_cont_ascii by lia.
Qed.

(** The time suffix of a number is read again before a byte that is no part of
    a word. *)
Lemma time_suffix_again r n k :
  time_suffix r = Ok n -> ascii (take n r ++ k) -> stops_at is_ident_byte k ->
  time_suffix (take n r ++ k) = Ok n /\ length (take n r) = n.
Proof.
  intros Hn Hk Hs. apply time_suffix_cases in Hn as [[-> Hl]|[[-> [j ->]]| ->]].
  - apply suffix_letters in Hl as (a & j & -> & Ha). split; [|done].
    cbn [take app] in *; rewrite ?take_0 in *; cbn [app] in *. rewrite time_suffix_ascii by done. by destruct Ha as [->|[->| ->]].
  - split; [|done]. cbn [take app] in *; rewrite ?take_0 in *; cbn [app] in *. rewrite time_suffix_ascii by done.
    destruct (is_suffix (take 2 (115 :: k))) eqn:Hf; [|done].
    apply suffix_letters in Hf as (a & j' & [= <- _] & Ha). lia.
  - split; [|done]. cbn [take app] in *; rewrite ?take_0 in *; cbn [app] in *. destruct k as [|c k]; [done|].
    rewrite time_suffix_ascii by done. simpl in Hs. apply not_true_iff_false in Hs.
    rewrite ident_range in Hs.
    destruct (is_suffix (take 2 (c :: k))) eqn:Hf.
    { apply suffix_letters in Hf as (a & j' & [= <- _] & Ha). lia. }
    destruct (Z.eqb_spec c 115); [lia | done].
Qed.

(** What follows the digits of a number, and the digits of its fraction. *)
Lemma suffix_head r n k :
  time_suffix r = Ok n -> stops_at is_ident_byte k -> stops_at is_ascii_digit (take n r ++ k).
Proof.
  intros Hn Hs. apply time_suffix_cases in Hn as [[-> Hl]|[[-> [j ->]]| ->]]; [|done|].
  - apply suffix_letters in Hl as (a & j & -> & Ha). simpl. by destruct Ha as [->|[->| ->]].
  - destruct k as [|c k]; [done|]. by apply ident_digit.
Qed.

Lemma fraction_again l f r n k :
  fraction l = (f, r) -> time_suffix r = Ok n -> stops_at is_ident_byte k ->
  (forall d u, k = 46 :: d :: u -> is_ascii_digit d = false) ->
  fraction (f ++ take n r ++ k) = (f, take n r ++ k).
Proof.
  intros Hf Hn Hs Hd. pose proof (suffix_head r n k Hn Hs) as Hh.
  apply fraction_eq in Hf as [_ [->|(d & s & -> & Hx)]].
  - cbn [app]. apply time_suffix_cases in Hn as [[-> Hl]|[[-> [j ->]]| ->]]; [|done|].
    + apply suffix_letters in Hl as (a & j & -> & Ha). by destruct Ha as [->|[->| ->]].
    + cbn [take app]; rewrite ?take_0; cbn [app]. destruct k as [|c k]; [done|]. destruct (decide (c = 46)) as [->|Hc].
      * destruct k as [|d u]; [done|]. unfold fraction. by rewrite (Hd d u eq_refl).
      * unfold fraction. repeat (case_match; try done).
  - unfold fraction. cbn [app]. inversion Hx as [|? ? H1]; subst. rewrite H1.
    pose proof (span_cut is_ascii_digit (d :: s) (take n r ++ k) Hx Hh) as E. cbn [app] in E.
    by rewrite E.
Qed.

Lemma decimal_again l s r k :
  decimal l = Ok (s, r) -> ascii (s ++ k) -> stops_at is_ident_byte k ->
  (forall d u, k = 46 :: d :: u -> is_ascii_digit d = false) ->
  decimal (s ++ k) = Ok (s, k).
Proof.
  unfold decimal. destruct (span is_ascii_digit l) as [d r1] eqn:E1.
  destruct (fraction r1) as [f r2] eqn:E2. intros (n & Hn & [= <- <-])%bind_Ok Ha Hs Hd.
  rewrite <-!app_assoc in *. unfold ascii in Ha. rewrite !Forall_app in Ha.
  destruct Ha as (_ & _ & Ha1 & Ha2).
  pose proof (fraction_again r1 f r2 n k E2 Hn Hs Hd) as Hf.
  destruct (time_suffix_again r2 n k Hn) as [Ht Hl]; [by apply Forall_app|done|].
  apply span_eq in E1 as [-> Hx]. apply fraction_eq in E2 as [-> Hfc].
  rewrite span_cut; [|done|].
  - rewrite Hf, Ht. cbn [mbind outcome_bind mret outcome_ret].
    rewrite take_app_le, take_ge by lia. rewrite drop_app_le, drop_ge by lia. done.
  - destruct Hfc as [->|(x & u & -> & _)]; [|done]. by apply suffix_head.
Qed.

Lemma number_again b l s r tl k :
  is_ascii_digit b = true -> number b l = Ok (s, r) -> s = b :: tl -> ascii (s ++ k) ->
  stops_at is_ident_byte k -> (forall d u, k = 46 :: d :: u -> is_ascii_digit d = false) ->
  number b (tl ++ k) = Ok (s, k).
Proof.
  intros Hb H -> Ha Hs Hd. pose proof H as (He & _ & _)%number_eq; [|done]. unfold number in H.
  assert (Hdec : decimal (b :: l) = Ok (b :: tl, r) -> decimal (b :: tl ++ k) = Ok (b :: tl, k)).
  { intros Hl. by apply (decimal_again (b :: l) (b :: tl) r k). }
  injection He as ->. destruct tl as [|c tl]; cbn [app] in *.
  - assert (H1 : decimal (b :: r) = Ok ([b], r)).
    { destruct r as [|x r]; [done|]. destruct ((b =? 48) && _); [|done].
      by destruct (span is_ascii_hexdigit r). }
    specialize (Hdec H1). unfold number. destruct k as [|c k]; [done|].
    simpl in Hs. apply not_true_iff_false in Hs. rewrite ident_range in Hs.
    destruct (Z.eqb_spec c 120); [lia|]. destruct (Z.eqb_spec c 88); [lia|].
    by rewrite andb_false_r.
  - unfold number. destruct ((b =? 48) && _) eqn:Hx; [|by apply Hdec].
    destruct (span is_ascii_hexdigit (tl ++ r)) as [h u] eqn:E. injection H as -> ->.
    apply span_eq in E as [_ Hh]. rewrite span_cut; [done..|].
    destruct k as [|d k]; [done|]. simpl in *. apply not_true_iff_false in Hs.
    rewrite ident_range in Hs. apply not_true_iff_false. rewrite hexdigit_range. lia.
Qed.

(** A round reads its token again before any [k] the token ends before. *)
Lemma lex_symbol_again st b l c st' r t tl k :
  symbol st b = Some c -> lex_symbol st b l c = (st', r) -> reads st st' b l t r ->
  text t = b :: tl -> ends_before t k -> lex_symbol st b (tl ++ k) c = (st', k).
Proof.
  intros Hb H (Ht & He & _) Htl Hk. unfold ends_before in Hk. rewrite Htl in He, Hk.
  injection He as ->. unfold lex_symbol in *.
  assert (Hh : tl = [] -> stops_at (fun c => negb (bool_decide (symbol2 b c = None))) k).
  { destruct Hk as [->|Hk]; [by apply symbol_code in Hb as [_ ?]|].
    assert (is_ascii_digit b = false /\
      (is_dotted_byte b && negb (b =? 46)) || (b =? 36) || (b =? 35) || (b =? 64) = false)
      as [Hd1 Hd2]; [|by rewrite Hd1, Hd2 in Hk].
    clear -Hb. unfold symbol in Hb.
    repeat match type of Hb with
    | (if ?u =? ?v then _ else _) = _ => destruct (Z.eqb_spec u v); [by subst|]
    | (if ?x then _ else _) = _ => destruct x eqn:Hx; [|done]
    end.
    rewrite !orb_true_iff, !Z.eqb_eq in Hx.
    by destruct Hx as [[[[[-> | ->] | ->] | ->] | ->] | ->]. }
  destruct ((b =? 60) && after_fixed st).
  { injection H as <- _. simpl in Ht. injection Ht as <-. by injection Htl as <-. }
  destruct ((b =? 62) && in_fixed_lt st).
  { injection H as <- _. simpl in Ht. injection Ht as <-. by injection Htl as <-. }
  destruct tl as [|d tl]; cbn [app] in *.
  - assert (Hst : st' = push st [b] c).
    { destruct r as [|d r]; [by injection H as <-|]. destruct (symbol2 b d); [|by injection H as <-].
      injection H as _ H. apply (f_equal length) in H. simpl in H. lia. }
    subst st'. destruct k as [|d k]; [done|]. specialize (Hh eq_refl). simpl in Hh.
    rewrite negb_false_iff, bool_decide_eq_true in Hh. by rewrite Hh.
  - destruct (symbol2 b d); injection H as <- H.
    + simpl in Ht. injection Ht as <-. by injection Htl as <-.
    + simpl in Ht. injection Ht as <-. done.
Qed.

Lemma ends_word t b tl k :
  text t = b :: tl -> ends_before t k -> b <> 34 -> is_ascii_digit b = false ->
  (is_dotted_byte b && negb (b =? 46)) || (b =? 36) || (b =? 35) || (b =? 64) = true ->
  stops_at is_dotted_byte k.
Proof. unfold ends_before. intros -> [->|Hk] Hq Hd Hw; [done | by rewrite Hd, Hw in Hk]. Qed.

Lemma symbol_dot st b : symbol st b = None -> b <> 46.
Proof. by intros H ->. Qed.

Lemma lex_byte_again st b l st' r t tl k :
  lex_byte st b l = Ok (st', r) -> reads st st' b l t r -> text t = b :: tl ->
  ascii (text t ++ k) -> ends_before t k -> (r = [] -> k = []) ->
  lex_byte st b (tl ++ k) = Ok (st', k).
Proof.
  unfold lex_byte. intros H Hr Htl Ha Hk Hrk. pose proof Hr as (Ht & He & _).
  rewrite Htl in He. injection He as Hl.
  destruct (is_blank b).
  { injection H as <- _. apply (f_equal length) in Ht. simpl in Ht. lia. }
  destruct (Z.eqb_spec b 34) as [->|Hq].
  { destruct (string_body l) as [s u] eqn:E. injection H as <- ->.
    simpl in Ht. injection Ht as <-. injection Htl as ->.
    pose proof E as (_ & _ & Hc)%string_body_eq. destruct r as [|x r].
    - rewrite (Hrk eq_refl). rewrite app_nil_r in Hl |- *. subst l. by rewrite E.
    - destruct Hc as [_ Hc]; [done|]. by rewrite Hc. }
  destruct (symbol1 b) as [c|] eqn:H1.
  { injection H as <- ->. simpl in Ht. injection Ht as <-. by injection Htl as <-. }
  destruct (symbol st b) as [c|] eqn:H2.
  { injection H as H. f_equal. by eapply lex_symbol_again. }
  destruct ((b =? 36) || (b =? 35) || (b =? 64)) eqn:H3.
  { destruct (span is_dotted_byte l) as [s u] eqn:E. injection H as <- ->.
    simpl in Ht. injection Ht as <-. injection Htl as ->.
    apply span_eq in E as [_ Hs]. rewrite span_cut; [done..|].
    apply (ends_word (mkLine (b :: tl) IdentOrLiteral) b tl _ eq_refl Hk Hq).
    - rewrite !orb_true_iff, !Z.eqb_eq in H3. by destruct H3 as [[-> | ->] | ->].
    - rewrite !orb_true_iff, !Z.eqb_eq in H3. destruct H3 as [[-> | ->] | ->]; by rewrite ?orb_true_r. }
  destruct (is_ascii_digit b) eqn:Hd.
  { apply bind_Ok in H as ([s u] & H & [= <- ->]). simpl in Ht. injection Ht as <-.
    simpl in Htl. subst s. unfold ends_before in Hk. simpl in Hk. rewrite Hd in Hk.
    destruct Hk as [->|[Hk1 Hk2]]; [done|].
    erewrite number_again by done. done. }
  destruct (span is_dotted_byte (b :: l)) as [s u] eqn:E.
  destruct s as [|x s]; [injection H as <- _; apply (f_equal length) in Ht; simpl in Ht; lia|].
  injection H as <- ->. simpl in Ht. injection Ht as <-. simpl in Htl. injection Htl as -> ->.
  apply span_eq in E as [_ Hs]. pose proof Hs as Hs0. inversion Hs0; subst.
  change (b :: tl ++ k) with ((b :: tl) ++ k). rewrite span_cut; [done..|].
  apply (ends_word (mkLine (b :: tl) IdentOrLiteral) b tl _ eq_refl Hk Hq Hd). apply symbol_dot in H2. apply Z.eqb_neq in H2. rewrite H2. rewrite H4. done.
Qed.

Lemma ends_with_app l t b :
  t <> [] -> last t <> Some b -> ends_with (l ++ t) b = false.
Proof.
  intros Ht Hl. unfold ends_with. apply bool_decide_eq_false. rewrite last_app.
  destruct (last t) eqn:E; [done|]. by apply last_None in E.
Qed.

(** What [format_loop] prints for the tokens after [prev] reads as these
    tokens. *)
Definition reprints (st st1 : scan) (ts : list LineToken) : Prop :=
  forall prev f out,
    stable_loop prev f ts = true ->
    match prev with
    | Some p => text p <> [] /\ (ts <> [] -> ends_with out 32 = false)
    | None => True
    end ->
    exists x, format_loop prev f out ts = out ++ x /\ ascii x /\
      (forall m, (length x <= m)%nat -> lex_line m st x = Ok st1) /\
      match prev with Some p => ends_before p x | None => True end.

Lemma reprints_nil st : reprints st st [].
Proof.
  intros prev f out _ Hp. exists []. split_and!.
  - by rewrite app_nil_r.
  - constructor.
  - intros m _. apply lex_line_nil.
  - destruct prev; [by apply ends_before_nil, Hp | done].
Qed.

(** One token in front. *)
Lemma reprints_cons st st' st1 b l t tl r ts :
  lex_byte st b l = Ok (st', r) -> reads st st' b l t r -> text t = b :: tl ->
  ascii (text t) -> (r = [] -> ts = []) -> (ts <> [] -> last (text t) <> Some 32) ->
  reprints st' st1 ts -> reprints st st1 (t :: ts).
Proof.
  intros Hb Hr Htl Ha Hrt Hl IH prev f out Hst Hp. cbn [stable_loop format_loop] in *.
  set (f1 := match prev with Some p => _ | None => f end) in *.
  set (f2 := if f1 && is_text t ">" then false else f1) in *.
  apply andb_true_iff in Hst as [Hj Hst].
  set (o := match prev with Some p => _ | None => out end).
  assert (Ho : exists sep, o = out ++ sep /\ (sep = [] \/ sep = [32]) /\
    match prev with Some p => sep = [32] \/ joins p t = true | None => True end).
  { subst o. destruct prev as [p|]; [|exists []; rewrite app_nil_r; auto].
    destruct Hp as [_ Hp]. rewrite Hp, andb_true_r by done.
    apply orb_true_iff in Hj as [->|Hj]; [exists [32]; auto|].
    case_match; [exists [32] | exists []; rewrite app_nil_r]; auto. }
  destruct Ho as (sep & -> & Hsep & Hpt).
  assert (Hn : text t <> []) by (by rewrite Htl).
  destruct (IH (Some t) f2 ((out ++ sep) ++ text t) Hst) as (x & Hf & Hx & Hrun & He).
  { split; [done|]. intros. apply ends_with_app; auto. }
  assert (Hagain : lex_byte st b (tl ++ x) = Ok (st', x)).
  { eapply lex_byte_again; [done..| |done|]; [by apply Forall_app|].
    intros Hr0. rewrite (Hrt Hr0) in Hf. simpl in Hf. symmetry in Hf.
    rewrite <-(app_nil_r ((out ++ sep) ++ text t)) in Hf at 2. by apply app_inv_head in Hf. }
  assert (Hread : forall m, (length (text t ++ x) <= m)%nat -> lex_line m st (text t ++ x) = Ok st1).
  { rewrite Htl. intros m Hm. simpl in Hm. destruct m as [|m]; [lia|].
    cbn [lex_line app]. rewrite Hagain. cbn. apply Hrun. rewrite length_app in Hm. lia. }
  exists (sep ++ text t ++ x). split_and!.
  - rewrite Hf. by rewrite !app_assoc.
  - unfold ascii. rewrite !Forall_app. split_and!; [|done..]. by destruct Hsep as [->| ->]; repeat constructor.
  - intros m Hm. destruct Hsep as [->| ->]; [by apply Hread|].
    simpl in Hm. destruct m as [|m]; [lia|]. cbn. apply Hread. lia.
  - destruct prev as [p|]; [|done]. destruct Hsep as [->| ->]; [|by apply ends_before_blank, Hp].
    destruct Hpt as [|Hpt]; [done|]. by apply joins_ends.
Qed.

Lemma ascii_app l k : ascii (l ++ k) <-> ascii l /\ ascii k.
Proof. apply Forall_app. Qed.

Lemma lex_line_reprints n l st st1 :
  (length l <= n)%nat -> ascii l -> lex_line n st l = Ok st1 ->
  exists ts, tokens st1 = rev ts ++ tokens st /\ (l = [] -> ts = []) /\ reprints st st1 ts.
Proof.
  revert l st. induction n as [|n IH]; intros l st Hn Ha.
  { destruct l; [|simpl in Hn; lia]. intros [= <-]. exists []. by split_and!; [..|apply reprints_nil]. }
  destruct l as [|b l].
  { intros [= <-]. exists []. by split_and!; [..|apply reprints_nil]. }
  simpl in Hn. intros ([st' r] & Hb & H)%bind_Ok. pose proof Hb as Hb0.
  apply lex_byte_reads in Hb as [(-> & -> & _)|(t & Ht & Hk)].
  { apply IH in H as (ts & ? & _ & ?); [|lia|by inversion Ha]. by exists ts. }
  destruct (token_visible _ _ _ _ _ _ Ht Hk) as [_ Hs].
  pose proof Ht as (Htk & He & Hh). destruct (text t) as [|x tl] eqn:Htl; [done|].
  injection Hh as ->. rewrite He in Ha. apply ascii_app in Ha as [Ha1 Ha2].
  apply IH in H as (ts & Hts & Hnil & Hre); [| |done].
  2: { injection He as He. rewrite He, length_app in Hn. lia. }
  exists (t :: ts). split_and!; [|done|].
  - rewrite Hts, Htk. simpl. by rewrite <-app_assoc.
  - eapply reprints_cons; [exact Hb0|exact Ht|exact Htl|by rewrite Htl|exact Hnil| |done].
    intros Hne. apply Hs. auto.
Qed.

(** C15: the formatter is idempotent on the ASCII lines whose tokens stay apart.
    [stable] looks at every two neighbours that are printed without a blank between
    them and asks that the scanner would not read them as one token: the two
    colons of [: :] are printed as [::], which is one, so that line is not stable
    and a second pass does change it. On a stable line, strings included, the formatted text
    has the same tokens, and formatting it again changes nothing. *)
Theorem format_line_idempotent l ts k :
  ascii l -> tokenize_line l = Ok ts -> stable ts = true -> format_line l = Ok k ->
  tokenize_line k = Ok ts /\ format_line k = Ok k.
Proof.
  intros Ha Ht Hs Hk. unfold format_line in *. rewrite Ht in Hk. injection Hk as <-.
  assert (Hagain : tokenize_line (format_tokens ts) = Ok ts); [|by rewrite Hagain].
  unfold tokenize_line in *. apply bind_Ok in Ht as (st & H & [= <-]).
  apply lex_line_reprints in H as (ts & Hts & _ & Hre); [|done|done].
  change (tokens scan_new) with (@nil LineToken) in Hts. rewrite app_nil_r in Hts.
  rewrite Hts, rev_involutive in *. destruct (Hre None false [] Hs I) as (x & Hx & _ & Hrun & _).
  unfold format_tokens. rewrite Hx. cbn [app]. rewrite Hrun by done.
  cbn. by rewrite Hts, rev_involutive.
Qed.

(** * ASCII sources are formatted without a panic *)

Lemma span_app p l : l = fst (span p l) ++ snd (span p l).
Proof. destruct (span p l) as [s r] eqn:E. by apply span_eq in E as [-> _]. Qed.

Lemma time_suffix_ok r : ascii r -> exists n, time_suffix r = Ok n.
Proof. destruct r as [|a k]; [by exists O|]. intros Hr. eexists. by apply time_suffix_ascii. Qed.

Lemma decimal_ok l : ascii l -> exists x, decimal l = Ok x.
Proof.
  intros Ha. unfold decimal. destruct (span is_ascii_digit l) as [d r1] eqn:E1.
  destruct (fraction r1) as [f r2] eqn:E2.
  apply span_eq in E1 as [-> _]. apply fraction_eq in E2 as [-> _].
  apply ascii_app in Ha as [_ [_ Ha]%ascii_app].
  destruct (time_suffix_ok r2 Ha) as [n ->]. by eexists.
Qed.

Lemma number_ok b l : ascii (b :: l) -> exists x, number b l = Ok x.
Proof.
  intros Ha. unfold number. destruct l as [|c l]; [by apply decimal_ok|].
  case_match; [|by apply decimal_ok]. destruct (span is_ascii_hexdigit l). by eexists.
Qed.

Lemma lex_byte_ok st b l : ascii (b :: l) -> exists x, lex_byte st b l = Ok x.
Proof.
  intros Ha. unfold lex_byte. case_match; [by eexists|]. case_match.
  { destruct (string_body l). by eexists. }
  destruct (symbol1 b); [by eexists|]. destruct (symbol st b); [by eexists|].
  case_match; [destruct (span is_dotted_byte l); by eexists|].
  case_match; [|destruct (span is_dotted_byte (b :: l)) as [[|] ?]; by eexists].
  destruct (number_ok b l Ha) as [[s r] ->]. by eexists.
Qed.

Lemma lex_line_ok n l st : (length l <= n)%nat -> ascii l -> exists st1, lex_line n st l = Ok st1.
Proof.
  revert l st. induction n as [|n IH]; intros l st Hn Ha; [by eexists|].
  destruct l as [|b l]; [by eexists|]. cbn [lex_line]. simpl in Hn.
  destruct (lex_byte_ok st b l Ha) as [[st' r] Hb]. rewrite Hb. cbn.
  assert (Hr : (length r <= length l)%nat /\ ascii r); [|apply IH; [lia|tauto]].
  apply lex_byte_reads in Hb as [(_ & -> & _)|(t & (_ & He & Hh) & _)]; [by inversion Ha|].
  rewrite He in Ha. split; [|by apply ascii_app in Ha as [_ ?]].
  destruct (text t); [done|]. injection He as _ ->. rewrite length_app. lia.
Qed.

Lemma format_line_ok l : ascii l -> exists k, format_line l = Ok k.
Proof.
  intros Ha. unfold format_line, tokenize_line.
  destruct (lex_line_ok (length l) l scan_new) as [st ->]; [done..|]. by eexists.
Qed.

Lemma format_step_ok y l : ascii l -> exists y', format_step y l = Ok y'.
Proof.
  intros Ha. unfold format_step. destruct (split_line_comment l) as [c o] eqn:E.
  assert (Hc : ascii c).
  { unfold split_line_comment in E. destruct (comment_at false l); injection E as <- _; [|done].
    by apply Forall_take. }
  destruct (format_line_ok (trim c)) as [k Hk]; [by apply trim_Forall|].
  destruct (trim c) eqn:Et; [by destruct o; eexists|]. rewrite Hk. by eexists.
Qed.

Lemma format_steps_ok ls y : Forall ascii ls -> exists y', format_steps y ls = Ok y'.
Proof.
  intros H. revert y. induction H as [|l ls Hl _ IH]; intros y; [by eexists|].
  cbn [format_steps]. destruct (format_step_ok y l Hl) as [y1 ->]. apply IH.
Qed.

Lemma lines_ascii src : ascii src -> Forall ascii (lines src).
Proof.
  intros Ha. unfold lines. rewrite <-(join_split 10 src) in Ha. revert Ha.
  induction (split 10 src) as [|p ps IH]; [done|]. cbn [lines_of].
  destruct ps as [|q ps]; [intros Hp; destruct p; [apply Forall_nil_2|by apply Forall_singleton]|].
  rewrite join_cons by done. intros [Hp [_ Hq]%Forall_cons]%ascii_app.
  constructor; [|by apply IH]. unfold strip_cr. case_match; [|done].
  destruct p as [|x p] using rev_ind; [done|]. rewrite removelast_last. by apply ascii_app in Hp as [? _].
Qed.

Definition token_in (src : list Z) (t : Token) : Prop :=
  0 <= start t /\ 0 <= tlen t /\ start t + tlen t <= len src.

Definition no_panic {A} (r : outcome CompileError A) : Prop := is_panic r = false.

Lemma validate_token_ok src n t : token_in src t -> no_panic (validate_token src n t).
Proof.
  intros (H1 & H2 & H3). unfold no_panic, validate_token. destruct (kind t); try done;
    try (by case_match).
  unfold closed_string. destruct (Z.ltb_spec (tlen t) 2); [done|].
  destruct (@idx_in_range CompileError _ src (start t)) as (a & -> & _); [lia|]. cbn.
  destruct (negb (a =? 34)); [done|].
  destruct (@idx_in_range CompileError _ src (start t + tlen t - 1)) as (b & -> & _); [lia|]. cbn.
  by destruct (b =? 34).
Qed.

Lemma validate_ok src ts : Forall (token_in src) ts -> no_panic (validate src ts).
Proof.
  intros H. unfold validate. generalize (mkCounts 0 0 0). induction H as [|t ts Ht _ IH]; intros n.
  - unfold no_panic. cbn. by repeat case_match.
  - cbn [validate_tokens]. pose proof (validate_token_ok src n t Ht) as Hv.
    destruct (validate_token src n t) as [m|e|p]; [|done|done]. apply IH.
Qed.

Lemma spans_tokens src lo ts : 0 <= lo -> spans src lo ts -> Forall (token_in src) ts.
Proof.
  intros Hlo Hs. assert (Forall (token_in src) ts /\ lo <= len src); [|tauto].
  revert lo Hlo Hs. induction ts as [|t ts IH]; intros lo Hlo; simpl; [done|].
  intros (H1 & H2 & _ & _ & H3). apply IH in H3 as [H3 H4]; [|lia].
  split; [|lia]. constructor; [unfold token_in; lia|done].
Qed.

(** The formatter returns on every source, with a text or a diagnostic; on
    an ASCII source it does not panic, except that the lexer of a checked build
    panics on a time literal that overflows; a text it returns is empty or
    ends in a newline. *)
Theorem format_source_total oc src :
  exists r, format_source oc src = Some r /\
    (ascii src -> is_panic r = true -> oc = true /\ r = Panic ArithmeticOverflow) /\
    (forall k, r = Ok k -> k = [] \/ ends_with k 10 = true).
Proof.
  unfold format_source. destruct (trim src) as [|b t]; [eexists; split_and!; [done..|]; intros ? [= <-]; by left|].
  destruct (tokenize_result oc src (replicate (Z.to_nat MAX_TOKENS) empty_token)) as (r & -> & Hr).
  eexists. split; [reflexivity|]. destruct r as [[n toks]|e|p]; [|done|by destruct Hr as [-> ->]].
  destruct Hr as (ts & eof & -> & Hn & -> & Hsp & _). cbn [mbind outcome_bind]. split.
  - intros Ha. assert (Hv : Forall (token_in src) (take (Z.to_nat (len ts)) (written (replicate (Z.to_nat MAX_TOKENS) empty_token) 0 (ts ++ [eof])))).
    { unfold written. change (Z.to_nat 0) with 0%nat. rewrite take_0. cbn [app].
      rewrite <-app_assoc, take_app_le, take_ge by (unfold len; lia). by eapply spans_tokens. }
    apply validate_ok in Hv. destruct (validate _ _) as [u|e|p]; [|done|done]. cbn.
    destruct (format_steps_ok (lines src) (mkLayout [] 0 true) (lines_ascii src Ha)) as [y ->]. done.
  - intros k (u & _ & (y & _ & [= <-])%bind_Ok)%bind_Ok. right.
    destruct (ends_with (out y) 10) eqn:E; [done|]. unfold ends_with. by rewrite last_snoc, bool_decide_eq_true_2.
Qed.

(** * What formatting does to some programs *)

(** The kinds of the tokens of a source. *)
Definition kinds_of (src : list Z) : option (list TokenKind.t) :=
  match tokenize true src (replicate 64 empty_token) with
  | Some (Ok (n, ts)) => Some (map kind (take (Z.to_nat n) ts))
  | _ => None
  end.

(** The formatted text of a source, and whether the two have the same tokens. *)
Definition format_report (src : list Z) : option (list Z * bool) :=
  match format_source true src with
  | Some (Ok k) => Some (k, bool_decide (kinds_of src = kinds_of k))
  | _ => None
  end.

Definition newline : list Z := [10].

(** Formatting can change a program: a block comment becomes code, a range
    between two names becomes one name, a separated [!] and [=] become one
    operator, and the lines of a string literal are trimmed; and it panics on a
    number with a character of more than one byte behind it. *)
Theorem formatter_breaks_programs :
  format_report (bytes "/* unit */ let $x := 1;") =
    Some (bytes "/ * unit * / let $x := 1;" ++ newline, false) /\
  format_report (bytes "for $i in LO .. HI { }") =
    Some (bytes "for $i in LO..HI { }" ++ newline, false) /\
  format_report (bytes "if ($a ! = $b) { }") =
    Some (bytes "if ($a != $b) { }" ++ newline, false) /\
  format_report ([34; 97] ++ newline ++ [32; 32; 98; 34]) =
    Some ([34; 97] ++ newline ++ [98; 32; 34] ++ newline, true) /\
  format_source true (bytes "let $y := 5" ++ [0xE3; 0x81; 0x82] ++ bytes ";") =
    Some (Panic SliceOutOfRange).
Proof. split_and!; vm_compute; reflexivity. Qed.

(** * Witnesses *)

Example format_changes_only_blanks_witness :
  exists k, format_line (bytes "let   $x=10+20;") = Ok k /\
    visible false k = visible false (bytes "let   $x=10+20;").
Proof.
  eexists. split; [vm_compute; reflexivity|].
  apply (format_changes_only_blanks (bytes "let   $x=10+20;")). vm_compute. reflexivity.
Defined.

Definition sample_line : list Z := bytes "for $i in 0 .. 4 { $a[$i]:=-$i+1.5; @print(5us);".

Definition sample_tokens : list LineToken :=
  match tokenize_line sample_line with Ok ts => ts | _ => [] end.

Lemma sample_ascii : ascii sample_line.
Proof. unfold ascii, sample_line. vm_compute. repeat (constructor; [split; (done || discriminate)|]). constructor. Qed.

Example format_line_idempotent_witness :
  exists k, format_line sample_line = Ok k /\ tokenize_line k = Ok sample_tokens /\ format_line k = Ok k.
Proof.
  eexists. split; [vm_compute; reflexivity|].
  apply (format_line_idempotent sample_line sample_tokens); [apply sample_ascii | vm_compute; reflexivity..].
Defined.

Example format_source_total_witness :
  exists r, format_source true sample_line = Some r /\ is_panic r = false.
Proof.
  destruct (format_source_total true sample_line) as (r & Hr & Hp & _). exists r. split; [exact Hr|].
  destruct (is_panic r) eqn:E; [|reflexivity]. exfalso.
  destruct (Hp sample_ascii eq_refl) as [_ ->]. revert Hr. vm_compute. discriminate.
Defined.
