(* ===== verification/Include.v ===== *)
(** The include preprocessor (pulselang-core/src/include.rs):
    [preprocess_includes] replaces every [@include "path";] by the expanded
    text of the file, with a limit on the depth and a check for cycles.

    The resolver is a closure of the caller that may keep a state; it is an
    argument. The call stack is a vector the source pushes to and pops from;
    every call that returns leaves it as it was, so it is passed by value. *)

From S2P Require Import Prelude RustStd Isa Token Error RustStr.
Local Open Scope Z_scope.

Definition MAX_INCLUDE_DEPTH : nat := 8.

(** [result.push(b as char)]: the character U+00b, in UTF-8. *)
Definition push_char (b : Z) : list Z :=
  if b <? 0x80 then [b] else [Z.lor 0xC0 (Z.shiftr b 6); Z.lor 0x80 (Z.land b 0x3F)].

Definition include_kw : list Z := bytes "@include".

Definition is_tab (b : Z) : bool := (b =? 32) || (b =? 9).

Fixpoint skip_tabs (l : list Z) : list Z :=
  match l with b :: l' => if is_tab b then skip_tabs l' else l | [] => [] end.

(** The path up to a quote or the end of the line, and what follows. *)
Fixpoint path_span (l : list Z) : list Z * list Z :=
  match l with
  | b :: l' =>
    if (b =? 34) || (b =? 10) || (b =? 13) then ([], l)
    else let '(p, r) := path_span l' in (b :: p, r)
  | [] => ([], [])
  end.

(** What follows the word [@include], when it is a directive: the path, and the
    text behind the directive. *)
Definition directive (l : list Z) : option (list Z * list Z) :=
  match skip_tabs l with
  | 34 :: l =>
    let '(path, l) := path_span l in
    match l with
    | 34 :: l =>
      let l := skip_tabs l in
      Some (path, match l with 59 :: l' => l' | _ => l end)
    | _ => None
    end
  | _ => None
  end.

(** The directive at the head of [l], if there is one. *)
Definition include_at (l : list Z) : option (list Z * list Z) :=
  if starts_with l include_kw then directive (drop 8 l) else None.

Definition circular : CompileError :=
  simple "ERR_CIRCULAR_INCLUDE" "Circular @include dependency detected in script".
Definition not_found : CompileError :=
  simple "ERR_INCLUDE_NOT_FOUND" "Included file could not be found or loaded by resolver".
Definition too_deep : CompileError :=
  simple "ERR_MAX_INCLUDE_DEPTH" "Maximum @include depth exceeded (max 8 levels limit reached)".

(** [if !expanded_child.ends_with('\n') { result.push('\n') }]. *)
Definition end_line (l : list Z) : list Z :=
  if bool_decide (last l = Some 10) then l else l ++ [10].

Section Preprocess.
Context {S : Type} (resolver : S -> list Z -> option (list Z) * S).

Notation res := (outcome CompileError (list Z * S)).

(** The [while] loop; [expand] is the recursive call. Every round takes a byte,
    so a fuel of the source's length is enough ([scan_includes_fuel]). *)
Fixpoint scan_includes (expand : S -> list Z -> list Z -> res) (call_stack : list (list Z))
    (fuel : nat) (l : list Z) (result : list Z) (s : S) : res :=
  match fuel, l with
  | Datatypes.S fuel, b :: l' =>
    match include_at l with
    | Some (inc_path, rest) =>
      if bool_decide (inc_path ∈ call_stack) then Err circular
      else
        match resolver s inc_path with
        | (Some inc_content, s) =>
          '(expanded_child, s) ← expand s inc_path inc_content;
          scan_includes expand call_stack fuel rest (result ++ end_line expanded_child) s
        | (None, _) => Err not_found
        end
    | None => scan_includes expand call_stack fuel l' (result ++ push_char b) s
    end
  | _, _ => mret (result, s)
  end.

(** [levels] is [MAX_INCLUDE_DEPTH + 1 - depth]: the call at a depth above the
    limit is the one with no level left. *)
Fixpoint preprocess_recursive (levels : nat) (call_stack : list (list Z)) (s : S)
    (current_file src : list Z) : res :=
  match levels with
  | O => Err too_deep
  | Datatypes.S levels =>
    let call_stack := current_file :: call_stack in
    scan_includes (preprocess_recursive levels call_stack) call_stack (length src) src [] s
  end.

Definition preprocess_includes (s : S) (root_src : list Z) : outcome CompileError (list Z) :=
  '(text, _) ← preprocess_recursive (MAX_INCLUDE_DEPTH + 1) [] s (bytes "<root>") root_src;
  mret text.

End Preprocess.

(** A resolver that looks files up in a table. *)
Definition table_resolver (files : list (list Z * list Z)) (s : unit) (p : list Z)
    : option (list Z) * unit :=
  (snd <$> find (fun f => bytes_eqb (fst f) p) files, s).

Definition quoted (s : string) : list Z := 34 :: bytes s ++ [34].

Definition include_line (path : string) : list Z := include_kw ++ [32] ++ quoted path ++ [59].

Example include_one :
  preprocess_includes (table_resolver [(bytes "lib.pul", bytes "fn f() {}")]) tt
    (bytes "a; " ++ include_line "lib.pul" ++ bytes " b;") =
  Ok (bytes "a; fn f() {}" ++ [10] ++ bytes " b;").
Proof. vm_compute. reflexivity. Qed.

(** * Reading directives *)

Lemma skip_tabs_length l : (length (skip_tabs l) <= length l)%nat.
Proof. induction l as [|b l IH]; simpl; [done|]. case_match; simpl; lia. Qed.

Lemma path_span_eq l p r : path_span l = (p, r) -> l = p ++ r.
Proof.
  revert p r. induction l as [|b l IH]; intros p r; simpl; [by intros [= <- <-]|].
  case_match; [by intros [= <- <-]|]. destruct (path_span l) as [p1 r1].
  intros [= <- <-]. simpl. by rewrite (IH p1 r1 eq_refl).
Qed.

Lemma directive_length l p r : directive l = Some (p, r) -> (length r < length l)%nat.
Proof.
  unfold directive. pose proof (skip_tabs_length l) as H0.
  destruct (skip_tabs l) as [|b k] eqn:E0; [done|].
  destruct (decide (b = 34)) as [->|]; [|repeat (case_match; try done)].
  destruct (path_span k) as [q u] eqn:E. apply path_span_eq in E as ->.
  destruct u as [|c u]; [done|]. destruct (decide (c = 34)) as [->|]; [|repeat (case_match; try done)].
  pose proof (skip_tabs_length u) as H1; intros [= <- <-]. simpl in H0.
  rewrite length_app in H0. simpl in H0.
  repeat (case_match; simpl in *; try lia).
Qed.

Lemma include_at_length b l p r : include_at (b :: l) = Some (p, r) -> (length r <= length l)%nat.
Proof.
  unfold include_at. case_match; [|done]. intros Hd%directive_length.
  rewrite length_drop in Hd. simpl in Hd. lia.
Qed.

(** More fuel than bytes changes nothing. *)
Lemma scan_includes_fuel {S} (resolver : S -> list Z -> option (list Z) * S) expand stack n l result s :
  (length l <= n)%nat ->
  scan_includes resolver expand stack n l result s =
  scan_includes resolver expand stack (length l) l result s.
Proof.
  assert (forall n m l result s, (length l <= n)%nat -> (length l <= m)%nat ->
    scan_includes resolver expand stack n l result s =
    scan_includes resolver expand stack m l result s); [|eauto].
  clear. intros n. induction n as [|n IH]; intros [|m] [|b l] result s Hn Hm; try done;
    simpl in Hn, Hm; try lia.
  cbn [scan_includes]. destruct (include_at (b :: l)) as [[p r]|] eqn:E; [|apply IH; lia].
  apply include_at_length in E. case_match; [done|].
  destruct (resolver s p) as [[c|] s1]; [|done].
  destruct (expand s1 p c) as [[d s2]|e|q]; [cbn|done..]. apply IH; lia.
Qed.

(** The paths a text includes, in order. *)
Fixpoint includes (fuel : nat) (l : list Z) : list (list Z) :=
  match fuel, l with
  | S fuel, b :: l' =>
    match include_at l with
    | Some (p, rest) => p :: includes fuel rest
    | None => includes fuel l'
    end
  | _, _ => []
  end.

Definition includes_of (src : list Z) : list (list Z) := includes (length src) src.

(** * The specification: substitution of the included texts *)

Section Flatten.
Variable files : list Z -> option (list Z).

Fixpoint flat_text (expand : list Z -> list Z) (fuel : nat) (l : list Z) : list Z :=
  match fuel, l with
  | S fuel, b :: l' =>
    match include_at l with
    | Some (p, rest) => end_line (expand (default [] (files p))) ++ flat_text expand fuel rest
    | None => push_char b ++ flat_text expand fuel l'
    end
  | _, _ => []
  end.

(** The text with the includes of [n] levels put in, without any check. *)
Fixpoint flatten (n : nat) (src : list Z) : list Z :=
  match n with
  | O => []
  | S n => flat_text (flatten n) (length src) src
  end.

Definition resolve (s : unit) (p : list Z) : option (list Z) * unit := (files p, s).

(** A scan in which every include is found, not on the stack, and expands. *)
Lemma scan_flat expand f stack n l result :
  (forall p, p ∈ includes n l -> p ∉ stack /\ exists c, files p = Some c /\
    expand tt p c = Ok (f c, tt)) ->
  scan_includes resolve expand stack n l result tt = Ok (result ++ flat_text f n l, tt).
Proof.
  revert l result. induction n as [|n IH]; intros l result H; [by rewrite app_nil_r|].
  destruct l as [|b l]; [by rewrite app_nil_r|]. cbn [scan_includes flat_text includes] in *.
  destruct (include_at (b :: l)) as [[p rest]|].
  - destruct (H p) as (Hp & c & Hc & He); [by left|]. rewrite bool_decide_eq_false_2 by done.
    unfold resolve at 1. rewrite Hc, He. cbn. rewrite IH; [by rewrite <-app_assoc|].
    intros q Hq. apply H. by right.
  - rewrite IH by done. by rewrite <-app_assoc.
Qed.

Section Ranked.
Context (rank : list Z -> nat).
Hypothesis ranked : forall p c q, files p = Some c -> q ∈ includes_of c ->
  is_Some (files q) /\ (rank q < rank p)%nat.

Lemma preprocess_flat n stack cur src :
  (forall p, p ∈ includes_of src -> is_Some (files p) /\ (rank p < n)%nat /\
     forall q, q ∈ cur :: stack -> is_Some (files q) -> (rank p < rank q)%nat) ->
  preprocess_recursive resolve (S n) stack tt cur src = Ok (flatten (S n) src, tt).
Proof.
  revert stack cur src. induction n as [|n IH]; intros stack cur src H;
    cbn [preprocess_recursive flatten]; apply (scan_flat _ _ _ _ _ []); intros p Hp;
    destruct (H p Hp) as ([c Hc] & Hr & Hq).
  - lia.
  - split; [intros Hin; specialize (Hq p Hin ltac:(by eexists)); lia|].
    exists c. split; [done|]. apply IH.
    intros q Hin. destruct (ranked p c q Hc Hin) as [Hs Hlt]. split_and!; [done|lia|].
    intros x [->|Hx]%elem_of_cons Hfx; [done|]. specialize (Hq x Hx Hfx). lia.
Qed.

(** C33: when the files can be ranked so that every include goes to a file of a
    lower rank, and the ranks are below the depth limit, preprocessing succeeds
    and is plain substitution: no include is taken for a cycle or for too
    deep. *)
Theorem ranked_includes_expand src :
  (forall p, p ∈ includes_of src -> is_Some (files p) /\ (rank p < MAX_INCLUDE_DEPTH)%nat) ->
  files (bytes "<root>") = None ->
  preprocess_includes resolve tt src = Ok (flatten (MAX_INCLUDE_DEPTH + 1) src).
Proof.
  intros H Hroot. unfold preprocess_includes. rewrite Nat.add_1_r.
  rewrite (preprocess_flat MAX_INCLUDE_DEPTH [] (bytes "<root>") src); [done|].
  intros p Hp. destruct (H p Hp). split_and!; [done..|].
  intros q [->|Hq%not_elem_of_nil]%elem_of_cons; [|done]. rewrite Hroot. by intros [].
Qed.

End Ranked.
End Flatten.

(** * Errors, and text without includes *)

Definition include_outcome {A} (r : outcome CompileError A) : Prop :=
  match r with
  | Ok _ => True
  | Err e => e = circular \/ e = not_found \/ e = too_deep
  | Panic _ => False
  end.

Lemma scan_outcome {S} (resolver : S -> list Z -> option (list Z) * S) expand stack n l result s :
  (forall s p c, include_outcome (expand s p c)) ->
  include_outcome (scan_includes resolver expand stack n l result s).
Proof.
  intros He. revert l result s. induction n as [|n IH]; intros l result s; [done|].
  destruct l as [|b l]; [done|]. cbn [scan_includes].
  destruct (include_at (b :: l)) as [[p rest]|]; [|apply IH].
  case_match; [by left|]. destruct (resolver s p) as [[c|] s1]; [|by right; left].
  specialize (He s1 p c). destruct (expand s1 p c) as [[t s2]|e|k]; [apply IH|done..].
Qed.

Lemma preprocess_outcome {S} (resolver : S -> list Z -> option (list Z) * S) n stack s cur src :
  include_outcome (preprocess_recursive resolver n stack s cur src).
Proof.
  revert stack s cur src. induction n as [|n IH]; intros stack s cur src; [by right; right|].
  cbn [preprocess_recursive]. apply scan_outcome. intros. apply IH.
Qed.

Lemma scan_plain {S} (resolver : S -> list Z -> option (list Z) * S) expand stack n l result s :
  (length l <= n)%nat -> includes n l = [] ->
  scan_includes resolver expand stack n l result s = Ok (result ++ concat (map push_char l), s).
Proof.
  revert l result. induction n as [|n IH]; intros l result Hn H.
  { destruct l; [by rewrite app_nil_r|simpl in Hn; lia]. }
  destruct l as [|b l]; [by rewrite app_nil_r|]. cbn [scan_includes includes] in *.
  destruct (include_at (b :: l)) as [[p rest]|]; [done|].
  simpl in Hn. rewrite IH by (lia || done). cbn. by rewrite <-app_assoc.
Qed.

Lemma push_char_length b : (1 <= length (push_char b))%nat.
Proof. unfold push_char. case_match; simpl; lia. Qed.

Lemma push_chars_length l : (length l <= length (concat (map push_char l)))%nat.
Proof.
  induction l as [|b l IH]; [done|]. cbn [map concat]. rewrite length_app.
  pose proof (push_char_length b). simpl. lia.
Qed.

Lemma push_chars_same l : concat (map push_char l) = l <-> Forall (fun b => b < 0x80) l.
Proof.
  induction l as [|b l IH]; [done|]. cbn [map concat]. rewrite Forall_cons, <-IH.
  unfold push_char at 1. destruct (Z.ltb_spec b 0x80) as [Hb|Hb].
  - split; [by intros [= H] | by intros [_ ->]].
  - split; [|by intros [? _]; lia]. intros H. apply (f_equal length) in H. simpl in H.
    rewrite ?length_app in H. pose proof (push_chars_length l). simpl in *. lia.
Qed.

(** Whatever the resolver does, preprocessing ends with a text or with one
    of the three diagnostics; a text without includes comes out byte for byte
    when it is ASCII, and only then. *)
Theorem preprocess_total {S} (resolver : S -> list Z -> option (list Z) * S) s src :
  include_outcome (preprocess_includes resolver s src) /\
  (includes_of src = [] ->
   preprocess_includes resolver s src = Ok (concat (map push_char src)) /\
   (preprocess_includes resolver s src = Ok src <-> Forall (fun b => b < 0x80) src)).
Proof.
  unfold preprocess_includes. split.
  - pose proof (preprocess_outcome resolver (MAX_INCLUDE_DEPTH + 1) [] s (bytes "<root>") src) as H.
    by destruct (preprocess_recursive _ _ _ _ _ _) as [[t s1]|e|p].
  - intros H. rewrite Nat.add_1_r. cbn [preprocess_recursive]. rewrite scan_plain by done.
    cbn. split; [done|]. rewrite <-push_chars_same. split; [by intros [= E]|by intros ->].
Qed.

Example preprocess_total_witness :
  preprocess_includes (table_resolver []) tt (bytes "@print(1);") = Ok (bytes "@print(1);").
Proof.
  destruct (preprocess_total (table_resolver []) tt (bytes "@print(1);")) as [_ H].
  apply (proj2 (H eq_refl)). vm_compute. repeat constructor.
Defined.

(** Two files, one of which includes the other. *)
Definition two_files : list (list Z * list Z) :=
  [(bytes "a.pul", bytes "fn a() {} " ++ include_line "b.pul"); (bytes "b.pul", bytes "fn b() {}")].

Definition two_rank (p : list Z) : nat := if bytes_eqb p (bytes "a.pul") then 1 else 0.

Definition lookup_file (files : list (list Z * list Z)) (p : list Z) : option (list Z) :=
  snd <$> find (fun f => bytes_eqb (fst f) p) files.

Example ranked_includes_expand_witness :
  preprocess_includes (resolve (lookup_file two_files)) tt (include_line "a.pul") =
  Ok (bytes "fn a() {} fn b() {}" ++ [10]).
Proof.
  rewrite (ranked_includes_expand (lookup_file two_files) two_rank).
  - vm_compute. reflexivity.
  - intros p c q. unfold lookup_file. cbn [find two_files fst snd].
    unfold bytes_eqb at 1. case_bool_decide as Ha.
    + cbn. intros [= <-]. unfold includes_of. intros Hq. vm_compute in Hq.
      apply list_elem_of_singleton in Hq. subst. split; [by eexists|].
      vm_compute. apply le_n.
    + unfold bytes_eqb at 1. case_bool_decide as Hb; cbn; [|intros [=]].
      intros [= <-]. vm_compute. intros Hq. inversion Hq.
  - intros p Hp. vm_compute in Hp. apply list_elem_of_singleton in Hp. subst.
    split; [by eexists|]. vm_compute. repeat constructor.
  - reflexivity.
Defined.

(** Includes in comments are expanded, a character of two bytes becomes two
    characters, and a ninth level is refused. *)
Example include_corners :
  preprocess_includes (resolve (lookup_file two_files)) tt (bytes "// " ++ include_line "b.pul") =
    Ok (bytes "// fn b() {}" ++ [10]) /\
  preprocess_includes (resolve (fun _ => None)) tt [0xC3; 0xA9] = Ok [0xC3; 0x83; 0xC2; 0xA9] /\
  preprocess_includes (resolve (fun p => Some (include_kw ++ 34 :: 97 :: p ++ [34]))) tt
    (include_line "a") = Err too_deep /\
  preprocess_includes (resolve (fun _ => Some (include_line "a"))) tt (include_line "a") =
    Err circular.
Proof. split_and!; vm_compute; reflexivity. Qed.
