(* ===== verification/IncludeSpec.v ===== *)
(** What an include directive is and what a text expands to, stated without the
    preprocessor of include.rs, and the proof that on ASCII sources the
    preprocessor's text is that expansion. *)

From S2P Require Import Prelude RustStd RustStr Isa Token Error Include.
Local Open Scope Z_scope.

(** * Directives and expansions *)

Definition blank (b : Z) : Prop := b = 32 \/ b = 9.

(** [l] begins with a directive for [path], and [rest] is what follows it: the word,
    blanks, the quoted path on one line, blanks, and a semicolon if there is one. *)
Inductive reads_include : list Z -> list Z -> list Z -> Prop :=
| reads_include_intro blanks path blanks' semi rest :
    Forall blank blanks -> Forall (fun b => b <> 34 /\ b <> 10 /\ b <> 13) path -> Forall blank blanks' ->
    semi = [59] \/ (semi = [] /\ match rest with b :: _ => b <> 59 /\ ~ blank b | [] => True end) ->
    reads_include (bytes "@include" ++ blanks ++ 34 :: path ++ 34 :: blanks' ++ semi ++ rest) path rest.

(** A text ends its line, or is given a newline. *)
Definition line_end (u nl : list Z) : Prop :=
  (nl = [] /\ exists k, u = k ++ [10]) \/ (nl = [10] /\ ~ exists k, u = k ++ [10]).

Section Expansion.
Variable files : list Z -> option (list Z).

(** Every directive of the text gives place to the expansion of its file. *)
Inductive expansion : list Z -> list Z -> Prop :=
| exp_end : expansion [] []
| exp_byte b l t : (forall p r, ~ reads_include (b :: l) p r) -> expansion l t -> expansion (b :: l) (b :: t)
| exp_include l p r c u nl t : reads_include l p r -> files p = Some c -> expansion c u -> line_end u nl ->
    expansion r t -> expansion l (u ++ nl ++ t).

(** The text has a directive for a path. *)
Inductive includes_path : list Z -> list Z -> Prop :=
| inc_here l p r : reads_include l p r -> includes_path l p
| inc_after l p r q : reads_include l p r -> includes_path r q -> includes_path l q
| inc_later b l q : (forall p r, ~ reads_include (b :: l) p r) -> includes_path l q -> includes_path (b :: l) q.
End Expansion.

(** * The scanner reads directives *)

Lemma is_tab_blank b : is_tab b = true <-> blank b.
Proof. unfold is_tab, blank. rewrite orb_true_iff, !Z.eqb_eq. done. Qed.

Lemma skip_tabs_cut l : exists bs, l = bs ++ skip_tabs l /\ Forall blank bs /\
  match skip_tabs l with b :: _ => ~ blank b | [] => True end.
Proof.
  induction l as [|b l (bs & E & Hb & Hn)]; [by exists []|]. cbn [skip_tabs]. destruct (is_tab b) eqn:Et.
  - exists (b :: bs). split_and!; [by rewrite E at 1|constructor; [by apply is_tab_blank|done]|done].
  - exists []. split_and!; [done|constructor|]. rewrite <-is_tab_blank. congruence.
Qed.

Lemma skip_tabs_app bs l : Forall blank bs -> match l with b :: _ => ~ blank b | [] => True end ->
  skip_tabs (bs ++ l) = l.
Proof.
  intros Hb Hl. induction Hb as [|b bs Hb _ IH]; cbn [app skip_tabs].
  - destruct l as [|b l]; [done|]. cbn [skip_tabs]. destruct (is_tab b) eqn:E; [|done].
    by apply is_tab_blank in E.
  - by rewrite (proj2 (is_tab_blank b) Hb).
Qed.

Lemma path_span_cut l p r : path_span l = (p, r) -> l = p ++ r /\ Forall (fun b => b <> 34 /\ b <> 10 /\ b <> 13) p.
Proof.
  revert p r. induction l as [|b l IH]; intros p r; cbn [path_span]; [by intros [= <- <-]|].
  destruct (_ || _) eqn:E; [by intros [= <- <-]|]. destruct (path_span l) as [q u].
  intros [= <- <-]. destruct (IH q u eq_refl) as [-> Hq]. split; [done|]. constructor; [|done].
  rewrite !orb_false_iff, !Z.eqb_neq in E. tauto.
Qed.

Lemma path_span_app p l : Forall (fun b => b <> 34 /\ b <> 10 /\ b <> 13) p -> path_span (p ++ 34 :: l) = (p, 34 :: l).
Proof.
  induction 1 as [|b p (H1 & H2 & H3) _ IH]; [done|]. cbn [app path_span].
  by rewrite !(proj2 (Z.eqb_neq b _)), IH by done.
Qed.

Lemma quote_cases {A} (l : list Z) (f : list Z -> A) d :
  match l with 34 :: k => f k | _ => d end = match l with b :: k => if b =? 34 then f k else d | [] => d end.
Proof. destruct l as [|b l]; [done|]. destruct (Z.eqb_spec b 34) as [->|]; [done|]. repeat (case_match; try done). Qed.

Lemma semi_cases l : match l with 59 :: k => k | _ => l end = match l with b :: k => if b =? 59 then k else l | [] => l end.
Proof. destruct l as [|b l]; [done|]. destruct (Z.eqb_spec b 59) as [->|]; [done|]. repeat (case_match; try done). Qed.

(** The scanner finds the directive at the head of a text, and only that. *)
Lemma include_at_reads l p r : include_at l = Some (p, r) <-> reads_include l p r.
Proof.
  unfold include_at, RustStr.starts_with. change (drop (length include_kw) l) with (drop 8 l). split.
  - destruct (bytes_eqb (take (length include_kw) l) include_kw) eqn:Ek; [|done].
    unfold bytes_eqb in Ek. apply bool_decide_eq_true in Ek.
    assert (El : l = include_kw ++ drop 8 l) by (rewrite <-Ek at 1; by rewrite take_drop).
    rewrite El at 2. generalize (drop 8 l). clear. intros l. unfold directive. rewrite quote_cases.
    destruct (skip_tabs_cut l) as (bs & E & Hb & _). destruct (skip_tabs l) as [|q k]; [done|].
    destruct (Z.eqb_spec q 34) as [->|]; [|done]. destruct (path_span k) as [path u] eqn:Ep.
    apply path_span_cut in Ep as [-> Hp]. rewrite quote_cases. destruct u as [|c u]; [done|].
    destruct (Z.eqb_spec c 34) as [->|]; [|done]. intros [= <- <-]. rewrite semi_cases.
    destruct (skip_tabs_cut u) as (bs' & E' & Hb' & Hn). rewrite E.
    destruct (skip_tabs u) as [|x v].
    + rewrite E'. apply (reads_include_intro bs path bs' []); [done..|by right].
    + destruct (Z.eqb_spec x 59) as [->|]; rewrite E'.
      * apply (reads_include_intro bs path bs' [59]); [done..|by left].
      * apply (reads_include_intro bs path bs' []); [done..|by right].
  - destruct 1 as [bs path bs' semi rest Hb Hp Hb' Hs].
    unfold bytes_eqb. rewrite bool_decide_eq_true_2 by done. change (drop 8 (bytes "@include" ++ ?x)) with x.
    unfold directive. rewrite skip_tabs_app by (done || (unfold blank; lia)). rewrite path_span_app by done.
    destruct Hs as [->|[-> Hr]].
    + by rewrite skip_tabs_app by (done || (cbn; unfold blank; lia)).
    + rewrite skip_tabs_app; [|done|cbn; destruct rest; tauto]. cbn [app]. rewrite semi_cases.
      destruct rest as [|b rest]; [done|]. by rewrite (proj2 (Z.eqb_neq b 59)) by tauto.
Qed.

Lemma no_include l : include_at l = None -> forall p r, ~ reads_include l p r.
Proof. intros E p r H%include_at_reads. congruence. Qed.

Lemma end_line_spec u : exists nl, end_line u = u ++ nl /\ line_end u nl.
Proof.
  unfold end_line. case_bool_decide as E.
  - exists []. rewrite app_nil_r. split; [done|]. left. split; [done|]. by apply last_Some in E.
  - exists [10]. split; [done|]. right. split; [done|]. intros [k ->]. by rewrite last_snoc in E.
Qed.

(** * The preprocessor expands *)

Section Sound.
Variable files : list Z -> option (list Z).
Definition is_ascii (l : list Z) : Prop := Forall (fun b => b < 128) l.
Hypothesis ascii_files : forall p c, files p = Some c -> is_ascii c.

Lemma scan_expands expand stack n : forall l result t,
  (forall p c u s, expand tt p c = Ok (u, s) -> is_ascii c -> expansion files c u) ->
  is_ascii l -> (length l <= n)%nat ->
  scan_includes (resolve files) expand stack n l result tt = Ok (t, tt) ->
  exists t', t = result ++ t' /\ expansion files l t'.
Proof.
  induction n as [|n IH]; intros l result t He Ha Hn.
  { destruct l; [|simpl in Hn; lia]. intros [= <-]. exists []. rewrite app_nil_r. split; [done|constructor]. }
  destruct l as [|b l]; [intros [= <-]; exists []; rewrite app_nil_r; split; [done|constructor]|].
  cbn [scan_includes]. pose proof Ha as Hb. apply Forall_cons in Hb as [Hb Hl]. simpl in Hn.
  destruct (include_at (b :: l)) as [[p r]|] eqn:E.
  - case_bool_decide; [done|]. unfold resolve at 1. destruct (files p) as [c|] eqn:Ef; [|done].
    pose proof (include_at_length _ _ _ _ E) as Hr. apply include_at_reads in E.
    destruct (expand tt p c) as [[u []]|e|k] eqn:Ex; [cbn|done..]. intros H'.
    assert (Har : is_ascii r).
    { unfold is_ascii in *. destruct E as [bs path bs' semi rest _ _ _ _]. revert Ha.
      rewrite !Forall_app, !Forall_cons, !Forall_app, !Forall_cons, !Forall_app. tauto. }
    apply IH in H' as (t' & -> & Ht); [|done|done|lia].
    destruct (end_line_spec u) as (nl & -> & Hnl). exists (u ++ nl ++ t'). split; [by rewrite <-!app_assoc|].
    eapply exp_include; [exact E|exact Ef|by eapply He; [|by eapply ascii_files]|done..].
  - intros H'. apply IH in H' as (t' & -> & Ht); [|done|done|lia].
    unfold push_char. rewrite (proj2 (Z.ltb_lt b 0x80)) by done. exists (b :: t'). split; [by rewrite <-app_assoc|].
    constructor; [by apply no_include|done].
Qed.

Lemma recursive_expands levels : forall stack cur src t s, is_ascii src ->
  preprocess_recursive (resolve files) levels stack tt cur src = Ok (t, s) -> expansion files src t.
Proof.
  induction levels as [|levels IH]; intros stack cur src t [] Ha; [done|]. cbn [preprocess_recursive]. intros H.
  apply scan_expands in H as (t' & -> & H'); [done| |done|lia]. intros p c u s Hu Hc. by eapply IH.
Qed.
End Sound.

Lemma includes_listed n : forall l p, (length l <= n)%nat -> p ∈ includes n l -> includes_path l p.
Proof.
  induction n as [|n IH]; intros l p Hn; [cbn; by intros ?%not_elem_of_nil|].
  destruct l as [|b l]; [by intros ?%not_elem_of_nil|]. cbn [includes]. simpl in Hn.
  destruct (include_at (b :: l)) as [[q r]|] eqn:E.
  - pose proof (include_at_length _ _ _ _ E) as Hr. apply include_at_reads in E.
    intros [->|Hp]%elem_of_cons; [by eapply inc_here|]. eapply inc_after; [exact E|]. apply IH; [lia|done].
  - intros Hp. apply inc_later; [by apply no_include|]. apply IH; [lia|done].
Qed.

(** A text has one expansion. *)
Lemma expansion_unique files l t : expansion files l t -> forall t', expansion files l t' -> t = t'.
Proof.
  induction 1 as [|b l t Hn _ IH|l p r c u nl t Hr Hf _ IHu Hnl _ IHt]; intros t' H'.
  - inversion H' as [| |? ? ? ? ? ? ? Hx]; [done|]. subst. by inversion Hx.
  - inversion H' as [|? ? ? _ Hl|? ? ? ? ? ? ? Hx]; subst; [f_equal; by apply IH|by apply Hn in Hx].
  - inversion H' as [|? ? ? Hx|? p' r' c' u' nl' t2 Hr' Hf' Hu Hnl' Ht]; subst; [by inversion Hr|by apply Hx in Hr|].
    apply include_at_reads in Hr, Hr'. rewrite Hr in Hr'. injection Hr' as <- <-. rewrite Hf in Hf'. injection Hf' as <-.
    specialize (IHu _ Hu). specialize (IHt _ Ht). subst. f_equal. f_equal.
    destruct Hnl as [[-> Hk]|[-> Hk]], Hnl' as [[-> Hk']|[-> Hk']]; done.
Qed.

(** C33: the preprocessor expands. On ASCII sources, what it returns is the
    expansion of the source: every directive gives place to the expansion of its
    file, with a newline if that does not end in one, every other byte stays, and
    there is only one such text. And it does return, when the files can be ranked so that each
    includes only files of lower rank that exist, the source only files of the
    eight lowest ranks, and no file has the name <root> that the source goes by. *)
Theorem preprocess_expands files src :
  is_ascii src -> (forall p c, files p = Some c -> is_ascii c) ->
  (forall t, preprocess_includes (resolve files) tt src = Ok t ->
   expansion files src t /\ forall t', expansion files src t' -> t' = t) /\
  forall rank : list Z -> nat,
   (forall p c q, files p = Some c -> includes_path c q -> is_Some (files q) /\ (rank q < rank p)%nat) ->
   (forall p, includes_path src p -> is_Some (files p) /\ (rank p < MAX_INCLUDE_DEPTH)%nat) ->
   files (bytes "<root>") = None ->
   exists t, preprocess_includes (resolve files) tt src = Ok t.
Proof.
  intros Hs Hf. split.
  - intros t. unfold preprocess_includes.
    destruct (preprocess_recursive _ _ _ _ _ _) as [[t0 []]|e|k] eqn:E; [|done..]. cbn. intros [= <-].
    apply recursive_expands in E; [|done..]. split; [done|]. intros t' Ht. by eapply expansion_unique.
  - intros rank Hr Hsrc Hroot. eexists. apply (ranked_includes_expand files rank).
    + intros p c q Hc Hq. apply (Hr p c q Hc). by eapply includes_listed; [|exact Hq].
    + intros p Hp. apply Hsrc. by eapply includes_listed; [|exact Hp].
    + done.
Qed.

Lemma includes_path_listed l p : includes_path l p -> forall n, (length l <= n)%nat -> p ∈ includes n l.
Proof.
  induction 1 as [l p r H|l p r q H _ IH|b l q H _ IH]; intros n Hn.
  1, 2: (apply include_at_reads in H; destruct l as [|b l]; [discriminate H|]; simpl in Hn;
    destruct n as [|n]; [lia|]; cbn [includes]; rewrite H; pose proof (include_at_length _ _ _ _ H)).
  - by left.
  - right. apply IH. lia.
  - simpl in Hn. destruct n as [|n]; [lia|]. cbn [includes].
    destruct (include_at (b :: l)) as [[p r]|] eqn:E; [by apply include_at_reads, H in E|]. apply IH. lia.
Qed.

Example preprocess_expands_witness :
  expansion (lookup_file two_files) (include_line "a.pul") (bytes "fn a() {} fn b() {}" ++ [10]).
Proof.
  assert (Hascii : forall p c, lookup_file two_files p = Some c -> is_ascii c).
  { intros p c. unfold lookup_file. cbn [find two_files fst snd].
    do 2 (destruct (bytes_eqb _ p); [cbn; intros [= <-]; unfold is_ascii; compute_fact|]). done. }
  destruct (preprocess_expands (lookup_file two_files) (include_line "a.pul")) as [Hsound Hruns];
    [unfold is_ascii; compute_fact|exact Hascii|].
  destruct (Hruns two_rank) as [t Ht].
  - intros p c q Hc Hq. apply includes_path_listed with (n := length c) in Hq; [|done]. revert Hc.
    unfold lookup_file. cbn [find two_files fst snd]. unfold bytes_eqb at 1. case_bool_decide as Ha.
    + cbn. intros [= <-]. vm_compute in Hq. apply list_elem_of_singleton in Hq. subst. split; [by eexists|].
      vm_compute. apply le_n.
    + unfold bytes_eqb at 1. case_bool_decide; cbn; [|intros [=]]. intros [= <-]. vm_compute in Hq. inversion Hq.
  - intros p Hp. apply includes_path_listed with (n := length (include_line "a.pul")) in Hp; [|done].
    vm_compute in Hp. apply list_elem_of_singleton in Hp. subst. split; [by eexists|]. vm_compute. repeat constructor.
  - reflexivity.
  - destruct (Hsound t Ht) as [He _]. revert He. vm_compute in Ht. injection Ht as <-. intros He. exact He.
Defined.
