(* ===== verification/Json.v ===== *)
(** JSON values, their compact text, and a reader for it (the part of RFC 8259
    the tools of the repository print: no fractions, no exponents, no [\u]
    escapes). It is the reader the printers of ir.rs are checked against:
    [parse_print] says that the text of a value reads back as the value. *)

From S2P Require Import Prelude RustStd RustStr Lexer LexerProps.
Local Open Scope Z_scope.

Inductive json : Type :=
| JNull
| JBool (b : bool)
| JNum (n : Z)
| JStr (s : list Z)
| JArr (l : list json)
| JObj (l : list (list Z * json)).

(** * Text *)

Definition escape_byte (b : Z) : list Z :=
  if b =? 34 then [92; 34]
  else if b =? 92 then [92; 92]
  else if b =? 10 then [92; 110]
  else if b =? 13 then [92; 114]
  else if b =? 9 then [92; 116]
  else [b].

Definition string_text (s : list Z) : list Z := 34 :: concat (map escape_byte s) ++ [34].

Fixpoint print (v : json) : list Z :=
  match v with
  | JNull => bytes "null"
  | JBool b => if b then bytes "true" else bytes "false"
  | JNum n => show_Z n
  | JStr s => string_text s
  | JArr l => 91 :: join 44 (map print l) ++ [93]
  | JObj l => 123 :: join 44 (map (fun f => string_text (fst f) ++ 58 :: print (snd f)) l) ++ [125]
  end.

(** * The reader *)

Definition unescape (b : Z) : option Z :=
  if b =? 34 then Some 34
  else if b =? 92 then Some 92
  else if b =? 110 then Some 10
  else if b =? 114 then Some 13
  else if b =? 116 then Some 9
  else None.

(** A string, after its quote; control bytes must be escaped. *)
Fixpoint read_string (l : list Z) : option (list Z * list Z) :=
  match l with
  | [] => None
  | b :: l1 =>
    if b =? 34 then Some ([], l1)
    else if b =? 92 then
      match l1 with
      | c :: l2 =>
        match unescape c, read_string l2 with
        | Some d, Some (s, r) => Some (d :: s, r)
        | _, _ => None
        end
      | [] => None
      end
    else if b <? 32 then None
    else match read_string l1 with Some (s, r) => Some (b :: s, r) | None => None end
  end.

Fixpoint read_digits (l : list Z) : list Z * list Z :=
  match l with
  | b :: l' =>
    if is_ascii_digit b then let '(s, r) := read_digits l' in (b :: s, r) else ([], l)
  | [] => ([], [])
  end.

(** A number, null, true or false. *)
Definition read_atom (l : list Z) : option (json * list Z) :=
  if starts_with l (bytes "null") then Some (JNull, drop 4 l)
  else if starts_with l (bytes "true") then Some (JBool true, drop 4 l)
  else if starts_with l (bytes "false") then Some (JBool false, drop 5 l)
  else
    match read_digits l with
    | ([], _) => None
    | (s, r) => Some (JNum (dec_value s), r)
    end.

Fixpoint read_value (fuel : nat) (l : list Z) {struct fuel} : option (json * list Z) :=
  match fuel, l with
  | S fuel, 34 :: l =>
    match read_string l with Some (s, r) => Some (JStr s, r) | None => None end
  | S fuel, 91 :: l =>
    match l with
    | 93 :: r => Some (JArr [], r)
    | _ => match read_elems fuel l with Some (vs, r) => Some (JArr vs, r) | None => None end
    end
  | S fuel, 123 :: l =>
    match l with
    | 125 :: r => Some (JObj [], r)
    | _ => match read_fields fuel l with Some (fs, r) => Some (JObj fs, r) | None => None end
    end
  | S fuel, l => read_atom l
  | O, _ => None
  end
with read_elems (fuel : nat) (l : list Z) {struct fuel} : option (list json * list Z) :=
  match fuel with
  | O => None
  | S fuel =>
    match read_value fuel l with
    | Some (v, 44 :: r) =>
      match read_elems fuel r with Some (vs, r) => Some (v :: vs, r) | None => None end
    | Some (v, 93 :: r) => Some ([v], r)
    | _ => None
    end
  end
with read_fields (fuel : nat) (l : list Z) {struct fuel} : option (list (list Z * json) * list Z) :=
  match fuel with
  | O => None
  | S fuel =>
    match l with
    | 34 :: l =>
      match read_string l with
      | Some (k, 58 :: l) =>
        match read_value fuel l with
        | Some (v, 44 :: r) =>
          match read_fields fuel r with Some (fs, r) => Some ((k, v) :: fs, r) | None => None end
        | Some (v, 125 :: r) => Some ([(k, v)], r)
        | _ => None
        end
      | _ => None
      end
    | _ => None
    end
  end.

(** A whole text; the fuel is its length plus one. *)
Definition parse (l : list Z) : option json :=
  match read_value (S (length l)) l with Some (v, []) => Some v | _ => None end.

Example json_parse_ex :
  parse (bytes "[1,true,null,[],{},20]") =
  Some (JArr [JNum 1; JBool true; JNull; JArr []; JObj []; JNum 20]).
Proof. vm_compute. reflexivity. Qed.

(** * Reading back *)

(** The strings JSON lets stand: a control byte has to be one of the three that
    are escaped. *)
Definition text_ok (s : list Z) : Prop :=
  Forall (fun b => 32 <= b \/ b = 9 \/ b = 10 \/ b = 13) s.

Fixpoint json_ok (v : json) : Prop :=
  match v with
  | JNum n => 0 <= n < 10 ^ 20
  | JStr s => text_ok s
  | JArr l => (fix all l := match l with [] => True | v :: l => json_ok v /\ all l end) l
  | JObj l =>
    (fix all l := match l with [] => True | (k, v) :: l => text_ok k /\ json_ok v /\ all l end) l
  | _ => True
  end.

Fixpoint all_ok (l : list json) : Prop :=
  match l with [] => True | v :: l => json_ok v /\ all_ok l end.
Fixpoint fields_ok (l : list (list Z * json)) : Prop :=
  match l with [] => True | (k, v) :: l => text_ok k /\ json_ok v /\ fields_ok l end.

Lemma read_string_text s r :
  text_ok s -> read_string (concat (map escape_byte s) ++ 34 :: r) = Some (s, r).
Proof.
  induction 1 as [|b s Hb _ IH]; [done|]. cbn [map concat]. rewrite <-app_assoc.
  unfold escape_byte at 1.
  destruct (Z.eqb_spec b 34) as [->|H1]; [cbn; by rewrite IH|].
  destruct (Z.eqb_spec b 92) as [->|H2]; [cbn; by rewrite IH|].
  destruct (Z.eqb_spec b 10) as [->|]; [cbn; by rewrite IH|].
  destruct (Z.eqb_spec b 13) as [->|]; [cbn; by rewrite IH|].
  destruct (Z.eqb_spec b 9) as [->|]; [cbn; by rewrite IH|].
  cbn [app read_string]. rewrite (proj2 (Z.eqb_neq b 34) H1), (proj2 (Z.eqb_neq b 92) H2).
  rewrite (proj2 (Z.ltb_ge b 32)) by lia. by rewrite IH.
Qed.

Definition no_digit (r : list Z) : Prop :=
  match r with b :: _ => is_ascii_digit b = false | [] => True end.

Lemma read_digits_app s r : digits s -> no_digit r -> read_digits (s ++ r) = (s, r).
Proof.
  intros Hs Hr. induction Hs as [|b s Hb _ IH]; cbn [app].
  - destruct r as [|b r]; [done|]. simpl in *. by rewrite Hr.
  - cbn [read_digits]. by rewrite Hb, IH.
Qed.

Lemma dec_digits_nil f n x : dec_digits f n x = [] -> x = [].
Proof.
  revert n x. induction f as [|f IH]; intros n x; [done|]. cbn [dec_digits].
  destruct (n <? 10); [done|]. by intros E%IH.
Qed.

Lemma dec_digits_cons f n : dec_digits (S f) n [] <> [].
Proof. cbn [dec_digits]. destruct (n <? 10); [done|]. by intros H%dec_digits_nil. Qed.

Lemma show_digits n : 0 <= n < 10 ^ 20 -> show_Z n = dec_digits 20 n [] /\ show_Z n <> [].
Proof.
  intros Hn. unfold show_Z. destruct (Z.ltb_spec n 0); [lia|]. split; [done|].
  intros H0. assert (Hv : dec_value (dec_digits 20 n []) = n) by (by apply dec_digits_value).

  by apply (dec_digits_cons 19 n) in H0.
Qed.

Lemma digit_atom b l : is_ascii_digit b = true ->
  starts_with (b :: l) (bytes "null") = false /\ starts_with (b :: l) (bytes "true") = false /\
  starts_with (b :: l) (bytes "false") = false.
Proof.
  intros Hb. unfold is_ascii_digit in Hb. apply in_range_spec in Hb.
  unfold starts_with, bytes_eqb. split_and!; apply bool_decide_eq_false; cbn; intros [= ->]; lia.
Qed.

Lemma read_atom_num n r :
  0 <= n < 10 ^ 20 -> no_digit r -> read_atom (show_Z n ++ r) = Some (JNum n, r).
Proof.
  intros Hn Hr. destruct (show_digits n Hn) as [E Hne].
  assert (Hd : digits (show_Z n)) by (rewrite E; apply dec_digits_digits; constructor).
  assert (Hv : dec_value (show_Z n) = n) by (rewrite E; by apply dec_digits_value).
  unfold read_atom. rewrite read_digits_app by done.
  destruct (show_Z n) as [|b s]; [done|]. inversion_clear Hd. cbn [app].
  destruct (digit_atom b (s ++ r)) as (-> & -> & ->); [done|]. cbv beta iota. by rewrite Hv.
Qed.

(** Enough fuel for a value, the elements of an array, the fields of an object. *)
Fixpoint size (v : json) : nat :=
  match v with
  | JArr l => S (foldr (fun v n => S (size v + n)) O l)
  | JObj l => S (foldr (fun f n => S (size (snd f) + n)) O l)
  | _ => 1
  end.

Definition elems_size (l : list json) : nat := foldr (fun v n => S (size v + n)) O l.
Definition fields_size (l : list (list Z * json)) : nat :=
  foldr (fun f n => S (size (snd f) + n)) O l.

Definition print_field (f : list Z * json) : list Z := string_text (fst f) ++ 58 :: print (snd f).

Definition reads_values (n : nat) : Prop :=
  forall v r, (size v <= n)%nat -> json_ok v -> no_digit r ->
    read_value n (print v ++ r) = Some (v, r).
Definition reads_elems (n : nat) : Prop :=
  forall l r, (elems_size l <= n)%nat -> l <> [] -> all_ok l ->
    read_elems n (join 44 (map print l) ++ 93 :: r) = Some (l, r).
Definition reads_fields (n : nat) : Prop :=
  forall l r, (fields_size l <= n)%nat -> l <> [] -> fields_ok l ->
    read_fields n (join 44 (map print_field l) ++ 125 :: r) = Some (l, r).

(** The first byte of a value's text: what tells the cases of the reader apart. *)
Lemma print_head v : json_ok v -> exists b s, print v = b :: s /\ b <> 93 /\
  match v with
  | JStr _ => b = 34 | JArr _ => b = 91 | JObj _ => b = 123
  | _ => b <> 34 /\ b <> 91 /\ b <> 123
  end.
Proof.
  destruct v as [|[|]|n|s|l|l]; cbn [print json_ok]; intros H.
  1-3: eexists _, _; split; [reflexivity|]; done.
  2-4: eexists _, _; split; [reflexivity|]; done.
  destruct (show_digits n H) as [E Hne].
  assert (Hd : digits (show_Z n)) by (rewrite E; apply dec_digits_digits; constructor).
  destruct (show_Z n) as [|b s]; [done|]. exists b, s. inversion Hd as [|? ? Hb]; subst.
  unfold is_ascii_digit in Hb. apply in_range_spec in Hb. split; [done|]. lia.
Qed.

Lemma reads_atoms n v r :
  (1 <= n)%nat -> json_ok v -> no_digit r ->
  match v with JArr _ | JObj _ => True | _ => read_value n (print v ++ r) = Some (v, r) end.
Proof.
  destruct n as [|n]; [lia|]. intros _ Hok Hr. pose proof (print_head v Hok) as (b & s & E & _ & Hb).
  destruct v as [|[|]|x|t|l|l]; try done.
  - pose proof (read_atom_num x r Hok Hr) as Ha. cbn [print] in *. rewrite E in *. cbn [app] in *.
    cbn [read_value]. destruct Hb as (H1 & H2 & H3). repeat (case_match; try done).
  - cbn [print json_ok] in *. unfold string_text. cbn [app read_value].
    rewrite <-app_assoc. cbn [app]. by rewrite read_string_text.
Qed.

Lemma parse_steps n :
  reads_values n /\ reads_elems n /\ reads_fields n.
Proof.
  induction n as [|n (IHv & IHe & IHf)].
  { split_and!; [intros v r Hs; by destruct v; simpl in Hs; lia| |];
      intros l r Hs Hne; destruct l; simpl in Hs; (done || lia). }
  split_and!.
  - intros v r Hs Hok Hr. pose proof (reads_atoms (S n) v r ltac:(lia) Hok Hr) as Ha.
    destruct v as [| | | |l|l]; try exact Ha; clear Ha.
    + cbn [print app read_value]. rewrite <-app_assoc. cbn [app].
      destruct l as [|v l]; [done|]. simpl in Hs.
      pose proof Hok as [Hv _]. pose proof (print_head v Hv) as (b & s & E & Hb & _).
      pose proof (IHe (v :: l) r ltac:(unfold elems_size; simpl; lia) ltac:(done) Hok) as He.
      assert (exists k, join 44 (map print (v :: l)) ++ 93 :: r = b :: k) as [k Ek].
      { cbn [map]. rewrite E. destruct (map print l); cbn; eauto. }
      rewrite Ek in *. destruct (decide (b = 93)); [done|]. rewrite He. repeat (case_match; try done).
    + cbn [print app read_value]. rewrite <-app_assoc. cbn [app].
      destruct l as [|f l]; [done|]. simpl in Hs.
      pose proof (IHf (f :: l) r ltac:(unfold fields_size; simpl; lia) ltac:(done) Hok) as He.
      assert (exists k, join 44 (map print_field (f :: l)) ++ 125 :: r = 34 :: k) as [k Ek].
      { cbn [map]. unfold print_field at 1, string_text at 1. destruct (map print_field l); cbn; eauto. }
      fold print_field in *. change (map (fun f => string_text (fst f) ++ 58 :: print (snd f)) (f :: l))
        with (map print_field (f :: l)). rewrite Ek in *. by rewrite He.
  - intros l r Hs Hne Hok. destruct l as [|v l]; [done|]. destruct Hok as [Hv Hl].
    cbn [read_elems]. unfold elems_size in Hs. simpl in Hs. destruct l as [|w l].
    + cbn [map join]. rewrite IHv; [done|lia|done|done].
    + change (map print (v :: w :: l)) with (print v :: map print (w :: l)).
      rewrite join_cons by done. rewrite <-app_assoc. cbn [app].
      rewrite IHv; [|lia|done|done]. rewrite IHe; [done|unfold elems_size; lia|done|done].
  - intros l r Hs Hne Hok. destruct l as [|[k v] l]; [done|]. destruct Hok as (Hk & Hv & Hl).
    cbn [read_fields]. unfold fields_size in Hs. simpl in Hs. destruct l as [|w l].
    + cbn [map join]. unfold print_field, string_text. cbn [fst snd app].
      rewrite <-!app_assoc. cbn [app]. rewrite read_string_text by done.
      rewrite IHv; [done|lia|done|done].
    + change (map print_field ((k, v) :: w :: l)) with (print_field (k, v) :: map print_field (w :: l)).
      rewrite join_cons by done. unfold print_field at 1, string_text. cbn [fst snd app].
      rewrite <-!app_assoc. cbn [app]. rewrite read_string_text by done. cbn [app].
      rewrite IHv; [|lia|done|done]. rewrite IHf; [done|unfold fields_size; lia|done|done].
Qed.

Lemma join_length c ps :
  (foldr (fun p n => S (length p + n)) O ps <= S (length (join c ps)))%nat.
Proof.
  induction ps as [|p ps IH]; [simpl; lia|]. destruct ps as [|q ps]; [simpl; lia|].
  rewrite join_cons, length_app by done. cbn [foldr length] in *. lia.
Qed.

Lemma elems_length l :
  (forall v, (size v < S (elems_size l))%nat -> json_ok v -> (size v <= length (print v))%nat) ->
  all_ok l -> (elems_size l <= foldr (fun p n => S (length p + n)) O (map print l))%nat.
Proof.
  induction l as [|v l IH]; [done|]. unfold elems_size. cbn [foldr map]. fold (elems_size l).
  intros H [Hv Hl]. pose proof (H v ltac:(lia) Hv).
  specialize (IH ltac:(intros; apply H; [lia|done]) Hl). lia.
Qed.

Lemma fields_length l :
  (forall v, (size v < S (fields_size l))%nat -> json_ok v -> (size v <= length (print v))%nat) ->
  fields_ok l -> (fields_size l <= foldr (fun p n => S (length p + n)) O (map print_field l))%nat.
Proof.
  induction l as [|[k v] l IH]; [done|]. unfold fields_size. cbn [foldr map snd]. fold (fields_size l).
  intros H (_ & Hv & Hl). pose proof (H v ltac:(lia) Hv).
  specialize (IH ltac:(intros; apply H; [lia|done]) Hl).
  unfold print_field at 1. cbn [fst snd]. rewrite length_app. cbn [length]. lia.
Qed.

Lemma size_print n v : (size v < n)%nat -> json_ok v -> (size v <= length (print v))%nat.
Proof.
  revert v. induction n as [|n IH]; [lia|]. intros v Hn Hok.
  pose proof (print_head v Hok) as (b & s & E & _ & _).
  destruct v as [| | | |l|l]; try (rewrite E; simpl; lia); clear E.
  - change (size (JArr l)) with (S (elems_size l)) in *.
    pose proof (elems_length l ltac:(intros; apply IH; [lia|done]) Hok).
    pose proof (join_length 44 (map print l)). cbn [print length]. rewrite length_app. simpl. lia.
  - change (size (JObj l)) with (S (fields_size l)) in *.
    pose proof (fields_length l ltac:(intros; apply IH; [lia|done]) Hok).
    pose proof (join_length 44 (map print_field l)). 
    assert (E : print (JObj l) = 123 :: join 44 (map print_field l) ++ [125]) by done.
    rewrite E. cbn [length]. rewrite length_app. cbn [length]. lia.
Qed.

(** The text of a value reads back as the value. *)
Lemma parse_print v : json_ok v -> parse (print v) = Some v.
Proof.
  intros Hok. unfold parse.
  pose proof (size_print (S (size v)) v ltac:(lia) Hok).
  destruct (parse_steps (S (length (print v)))) as (Hv & _).
  specialize (Hv v [] ltac:(lia) Hok I). rewrite app_nil_r in Hv. by rewrite Hv.
Qed.
