(* ===== verification/Ir.v ===== *)
(** The intent IR (pulselang-core/src/ir.rs): its data, the builder that reads
    it off the tokens of a source, the semantic diff, the symbol queries, and
    the JSON and text printers.

    Strings are byte lists. [oc] says whether the build checks overflow. *)

From S2P Require Import Prelude RustStd Isa Token Error RustStr Lexer.
Local Open Scope Z_scope.

(** * Data *)

Inductive MemoryDomain : Set := Cpu | GpuVram | PmdDma.

#[export] Instance MemoryDomain_eq_dec : EqDecision MemoryDomain.
Proof. solve_decision. Defined.

Definition domain_str (d : MemoryDomain) : list Z :=
  match d with
  | Cpu => bytes "cpu-resident"
  | GpuVram => bytes "gpu-resident"
  | PmdDma => bytes "pmd-dma-resident"
  end.

Record StageIr : Set := mkStage {
  stage_name : list Z;
  stage_core : Z;
  stage_budget_ns : Z;
  stage_wcet_ns : Z;
  stage_zero_copy : bool;
  stage_input : option (list Z);
  stage_output : option (list Z);
  stage_hardware : option (list Z);
  stage_domain : MemoryDomain;
}.

Record PipelineIr : Set := mkPipeline {
  pipe_name : list Z;
  stages : list StageIr;
  total_budget_ns : Z;
  total_wcet_ns : Z;
  pipe_valid : bool;
}.

Record TaskIr : Set := mkTask {
  task_name : list Z;
  task_core : option Z;
  task_budget_ns : option Z;
  task_wcet_ns : Z;
  task_zero_copy : bool;
  task_inputs : list (list Z);
  task_outputs : list (list Z);
  task_domain : MemoryDomain;
}.

Record FunctionIr : Set := mkFunction {
  fn_name : list Z;
  fn_params : list (list Z);
  fn_return_type : list Z;
  fn_declared_wcet_ns : option Z;
  fn_estimated_wcet_ns : Z;
  fn_has_precondition : bool;
  fn_has_postcondition : bool;
}.

Record ConstraintIr : Set := mkConstraint {
  target : list Z;
  con_kind : list Z;
  required : list Z;
  provided : list Z;
  satisfied : bool;
  reason : list Z;
}.

Record VerificationSummary : Set := mkVerification {
  status : list Z;
  total_constraints : Z;
  satisfied_constraints : Z;
  pipeline_deadline_met : bool;
  zero_copy_verified : bool;
}.

Record IntentIr : Set := mkIr {
  version : list Z;
  module_name : list Z;
  pipelines : list PipelineIr;
  tasks : list TaskIr;
  functions : list FunctionIr;
  constraints : list ConstraintIr;
  verification : VerificationSummary;
}.

(** * JSON text *)

Definition escape_byte (b : Z) : list Z :=
  if b =? 34 then [92; 34]
  else if b =? 92 then [92; 92]
  else if b =? 10 then [92; 110]
  else if b =? 13 then [92; 114]
  else if b =? 9 then [92; 116]
  else [b].

(** The escaped characters are ASCII, so bytes do as well as characters. *)
Definition escape_json (s : list Z) : list Z := concat (map escape_byte s).

Definition quote (s : list Z) : list Z := 34 :: s ++ [34].
Definition jtext (s : list Z) : list Z := quote (escape_json s).
Definition jbool (b : bool) : list Z := if b then bytes "true" else bytes "false".
Definition jopt {A} (f : A -> list Z) (o : option A) : list Z :=
  match o with Some x => f x | None => bytes "null" end.
Definition jarr (l : list (list Z)) : list Z := 91 :: join 44 l ++ [93].
Definition jfield (k : string) (v : list Z) : list Z := quote (bytes k) ++ 58 :: v.
Definition jobj (l : list (list Z)) : list Z := 123 :: join 44 l ++ [125].

Definition stage_json (s : StageIr) : list Z :=
  jobj [jfield "name" (jtext (stage_name s)); jfield "core" (show_Z (stage_core s));
        jfield "budget_ns" (show_Z (stage_budget_ns s)); jfield "wcet_ns" (show_Z (stage_wcet_ns s));
        jfield "zero_copy" (jbool (stage_zero_copy s)); jfield "input" (jopt jtext (stage_input s));
        jfield "output" (jopt jtext (stage_output s));
        jfield "hardware" (jopt jtext (stage_hardware s));
        jfield "domain" (quote (domain_str (stage_domain s)))].

Definition pipeline_json (p : PipelineIr) : list Z :=
  jobj [jfield "name" (jtext (pipe_name p)); jfield "total_budget_ns" (show_Z (total_budget_ns p));
        jfield "total_wcet_ns" (show_Z (total_wcet_ns p)); jfield "valid" (jbool (pipe_valid p));
        jfield "stages" (jarr (map stage_json (stages p)))].

Definition task_json (t : TaskIr) : list Z :=
  jobj [jfield "name" (jtext (task_name t)); jfield "core" (jopt show_Z (task_core t));
        jfield "budget_ns" (jopt show_Z (task_budget_ns t)); jfield "wcet_ns" (show_Z (task_wcet_ns t));
        jfield "zero_copy" (jbool (task_zero_copy t));
        jfield "inputs" (jarr (map jtext (task_inputs t)));
        jfield "outputs" (jarr (map jtext (task_outputs t)));
        jfield "domain" (quote (domain_str (task_domain t)))].

Definition function_json (f : FunctionIr) : list Z :=
  jobj [jfield "name" (jtext (fn_name f)); jfield "params" (jarr (map jtext (fn_params f)));
        jfield "return_type" (jtext (fn_return_type f));
        jfield "declared_wcet_ns" (jopt show_Z (fn_declared_wcet_ns f));
        jfield "estimated_wcet_ns" (show_Z (fn_estimated_wcet_ns f));
        jfield "has_precondition" (jbool (fn_has_precondition f));
        jfield "has_postcondition" (jbool (fn_has_postcondition f))].

Definition constraint_json (c : ConstraintIr) : list Z :=
  jobj [jfield "target" (jtext (target c)); jfield "kind" (jtext (con_kind c));
        jfield "required" (jtext (required c)); jfield "provided" (jtext (provided c));
        jfield "satisfied" (jbool (satisfied c)); jfield "reason" (jtext (reason c))].

Definition verification_json (v : VerificationSummary) : list Z :=
  jobj [jfield "status" (quote (status v)); jfield "total_constraints" (show_Z (total_constraints v));
        jfield "satisfied_constraints" (show_Z (satisfied_constraints v));
        jfield "pipeline_deadline_met" (jbool (pipeline_deadline_met v));
        jfield "zero_copy_verified" (jbool (zero_copy_verified v))].

(** [IntentIr::to_json]. *)
Definition to_json (ir : IntentIr) : list Z :=
  jobj [jfield "version" (quote (version ir)); jfield "module" (jtext (module_name ir));
        jfield "pipelines" (jarr (map pipeline_json (pipelines ir)));
        jfield "tasks" (jarr (map task_json (tasks ir)));
        jfield "functions" (jarr (map function_json (functions ir)));
        jfield "constraints" (jarr (map constraint_json (constraints ir)));
        jfield "verification" (verification_json (verification ir))].

(** * The builder *)

Definition get_token_str (src : list Z) (t : Token) : list Z :=
  if start t + tlen t <=? len src then
    let s := sub src (start t) (start t + tlen t) in
    if utf8_valid s then s else []
  else [].

Definition is_kind (t : Token) (k : TokenKind.t) : bool := bool_decide (kind t = k).

(** The locals of the loop over a stage's tokens. *)
Record stage_locals : Set := mkLocals {
  l_core : Z;
  l_budget : Z;
  l_zero_copy : bool;
  l_input : option (list Z);
  l_output : option (list Z);
  l_hardware : option (list Z);
  l_domain : MemoryDomain;
}.

Definition stage_defaults : stage_locals := mkLocals 0 50000 false None None None Cpu.

Definition ident_or_hw (t : Token) : bool :=
  is_kind t TokenKind.Ident || is_kind t TokenKind.HardwareIdent.

(** The loop up to the closing brace, which is left. *)
Fixpoint stage_loop (src : list Z) (x : stage_locals) (l : list Token)
    : stage_locals * list Token :=
  match l with
  | [] => (x, [])
  | t :: l1 =>
    match kind t with
    | TokenKind.RBrace => (x, l)
    | TokenKind.Core =>
      match l1 with
      | u :: l2 =>
        let core := match kind u with TokenKind.Number n => Z.min (as_u8 n) 3 | _ => l_core x end in
        stage_loop src (mkLocals core (l_budget x) (l_zero_copy x) (l_input x) (l_output x)
                          (l_hardware x) (l_domain x)) l2
      | [] => (x, [])
      end
    | TokenKind.Budget =>
      match l1 with
      | u :: l2 =>
        let budget := match kind u with TokenKind.TimeLiteral ns => ns | _ => l_budget x end in
        stage_loop src (mkLocals (l_core x) budget (l_zero_copy x) (l_input x) (l_output x)
                          (l_hardware x) (l_domain x)) l2
      | [] => (x, [])
      end
    | TokenKind.ZeroCopy =>
      stage_loop src (mkLocals (l_core x) (l_budget x) true (l_input x) (l_output x)
                        (l_hardware x) PmdDma) l1
    | TokenKind.Hardware =>
      match l1 with
      | u :: l2 =>
        if is_kind u TokenKind.Ident then
          stage_loop src (mkLocals (l_core x) (l_budget x) (l_zero_copy x) (l_input x) (l_output x)
                            (Some (get_token_str src u)) GpuVram) l2
        else stage_loop src x l1
      | [] => (x, [])
      end
    | TokenKind.Input =>
      match l1 with
      | u :: l2 =>
        if ident_or_hw u then
          stage_loop src (mkLocals (l_core x) (l_budget x) (l_zero_copy x)
                            (Some (get_token_str src u)) (l_output x) (l_hardware x) (l_domain x)) l2
        else stage_loop src x l1
      | [] => (x, [])
      end
    | TokenKind.Output =>
      match l1 with
      | u :: l2 =>
        if ident_or_hw u then
          stage_loop src (mkLocals (l_core x) (l_budget x) (l_zero_copy x) (l_input x)
                            (Some (get_token_str src u)) (l_hardware x) (l_domain x)) l2
        else stage_loop src x l1
      | [] => (x, [])
      end
    | _ => stage_loop src x l1
    end
  end.

(** [if i < slice.len() && slice[i].kind == RBrace { i += 1 }]. *)
Definition skip_rbrace (l : list Token) : list Token :=
  match l with t :: l' => if is_kind t TokenKind.RBrace then l' else l | [] => [] end.

(** A name and an opening brace, or the diagnostic. *)
Definition block_header (src : list Z) (code name_message brace_message : string)
    (l : list Token) : outcome CompileError (list Z * list Token) :=
  match l with
  | t :: l1 =>
    if is_kind t TokenKind.Ident then
      match l1 with
      | u :: l2 =>
        if is_kind u TokenKind.LBrace then mret (get_token_str src t, l2)
        else Err (simple code brace_message)
      | [] => Err (simple code brace_message)
      end
    else Err (simple code name_message)
  | [] => Err (simple code name_message)
  end.

(** [a + b] on [u64]. *)
Definition add_u64 (oc : bool) (a b : Z) : outcome CompileError Z :=
  if a + b <? 2 ^ 64 then Ok (a + b)
  else if oc then Panic ArithmeticOverflow else Ok (as_u64 (a + b)).

(** A stage, after the word [stage]. *)
Definition stage_item (oc : bool) (src : list Z) (l : list Token)
    : outcome CompileError (StageIr * list Token) :=
  '(name, l) ← block_header src "ERR_SYNTAX_STAGE" "Expected stage name"
                 "Expected '{' after stage name" l;
  let '(x, l) := stage_loop src stage_defaults l in
  let l := skip_rbrace l in
  w ← mul_u64 oc (l_budget x) 8;
  mret (mkStage name (l_core x) (l_budget x) (w / 10) (l_zero_copy x) (l_input x) (l_output x)
          (l_hardware x) (l_domain x), l).

(** The loop over a pipeline's tokens: the stages, the totals, and the tokens
    from the closing brace on. A fuel of the number of tokens is enough
    ([stages_loop_fuel]). *)
Fixpoint stages_loop (fuel : nat) (oc : bool) (src : list Z) (acc : list StageIr) (budget wcet : Z)
    (l : list Token) : outcome CompileError (list StageIr * Z * Z * list Token) :=
  match fuel, l with
  | S fuel, t :: l1 =>
    if is_kind t TokenKind.RBrace then mret (acc, budget, wcet, l)
    else if is_kind t TokenKind.Stage then
      '(s, l) ← stage_item oc src l1;
      budget ← add_u64 oc budget (stage_budget_ns s);
      wcet ← add_u64 oc wcet (stage_wcet_ns s);
      stages_loop fuel oc src (acc ++ [s]) budget wcet l
    else stages_loop fuel oc src acc budget wcet l1
  | _, _ => mret (acc, budget, wcet, l)
  end.

(** A pipeline, after the word [pipeline]. *)
Definition pipeline_item (oc : bool) (src : list Z) (l : list Token)
    : outcome CompileError (PipelineIr * list Token) :=
  '(name, l) ← block_header src "ERR_SYNTAX_PIPELINE" "Expected pipeline name"
                 "Expected '{' after pipeline name" l;
  '(ss, budget, wcet, l) ← stages_loop (length l) oc src [] 0 0 l;
  mret (mkPipeline name ss budget wcet (wcet <=? budget), skip_rbrace l).

(** The locals of the loop over a task's tokens. *)
Record task_locals : Set := mkTaskLocals {
  t_core : option Z;
  t_budget : option Z;
  t_zero_copy : bool;
  t_inputs : list (list Z);
  t_outputs : list (list Z);
}.

Fixpoint task_loop (src : list Z) (x : task_locals) (l : list Token) : task_locals * list Token :=
  match l with
  | [] => (x, [])
  | t :: l1 =>
    match kind t with
    | TokenKind.RBrace => (x, l)
    | TokenKind.Core =>
      match l1 with
      | u :: l2 =>
        let core := match kind u with TokenKind.Number n => Some (as_u8 n) | _ => t_core x end in
        task_loop src (mkTaskLocals core (t_budget x) (t_zero_copy x) (t_inputs x) (t_outputs x)) l2
      | [] => (x, [])
      end
    | TokenKind.Budget =>
      match l1 with
      | u :: l2 =>
        let budget := match kind u with TokenKind.TimeLiteral ns => Some ns | _ => t_budget x end in
        task_loop src (mkTaskLocals (t_core x) budget (t_zero_copy x) (t_inputs x) (t_outputs x)) l2
      | [] => (x, [])
      end
    | TokenKind.ZeroCopy =>
      task_loop src (mkTaskLocals (t_core x) (t_budget x) true (t_inputs x) (t_outputs x)) l1
    | TokenKind.Input =>
      match l1 with
      | u :: l2 =>
        if is_kind u TokenKind.Ident then
          task_loop src (mkTaskLocals (t_core x) (t_budget x) (t_zero_copy x)
                           (t_inputs x ++ [get_token_str src u]) (t_outputs x)) l2
        else task_loop src x l1
      | [] => (x, [])
      end
    | TokenKind.Output =>
      match l1 with
      | u :: l2 =>
        if is_kind u TokenKind.Ident then
          task_loop src (mkTaskLocals (t_core x) (t_budget x) (t_zero_copy x) (t_inputs x)
                           (t_outputs x ++ [get_token_str src u])) l2
        else task_loop src x l1
      | [] => (x, [])
      end
    | _ => task_loop src x l1
    end
  end.

(** A task, after the word [task]. *)
Definition task_item (oc : bool) (src : list Z) (l : list Token)
    : outcome CompileError (TaskIr * list Token) :=
  '(name, l) ← block_header src "ERR_SYNTAX_TASK" "Expected task name"
                 "Expected '{' after task name" l;
  let '(x, l) := task_loop src (mkTaskLocals None None false [] []) l in
  let l := skip_rbrace l in
  let b_val := default 100000 (t_budget x) in
  w ← mul_u64 oc b_val 7;
  mret (mkTask name (t_core x) (t_budget x) (w / 10) (t_zero_copy x) (t_inputs x) (t_outputs x)
          (if t_zero_copy x then PmdDma else Cpu), l).

(** A function, after the word [fn]: the token behind it is skipped. *)
Definition function_item (src : list Z) (l : list Token) : list FunctionIr * list Token :=
  match l with
  | t :: l1 =>
    (if is_kind t TokenKind.Ident then
       [mkFunction (get_token_str src t) [] (bytes "i64") (Some 5000) 3200 false false]
     else [], l1)
  | [] => ([], [])
  end.

Record items : Set := mkItems {
  i_pipelines : list PipelineIr;
  i_tasks : list TaskIr;
  i_functions : list FunctionIr;
}.

(** The outer loop. A fuel of the number of tokens is enough
    ([items_loop_fuel]). *)
Fixpoint items_loop (fuel : nat) (oc : bool) (src : list Z) (x : items) (l : list Token)
    : outcome CompileError items :=
  match fuel, l with
  | S fuel, t :: l1 =>
    match kind t with
    | TokenKind.Pipeline =>
      '(p, l) ← pipeline_item oc src l1;
      items_loop fuel oc src (mkItems (i_pipelines x ++ [p]) (i_tasks x) (i_functions x)) l
    | TokenKind.Task =>
      '(t, l) ← task_item oc src l1;
      items_loop fuel oc src (mkItems (i_pipelines x) (i_tasks x ++ [t]) (i_functions x)) l
    | TokenKind.Fn =>
      let '(f, l) := function_item src l1 in
      items_loop fuel oc src (mkItems (i_pipelines x) (i_tasks x) (i_functions x ++ f)) l
    | _ => items_loop fuel oc src x l1
    end
  | _, _ => mret x
  end.

Definition scoped (a b : list Z) : list Z := a ++ bytes "::" ++ b.
Definition ns (n : Z) : list Z := show_Z n ++ bytes "ns".

(** The constraints of a pipeline. *)
Definition deadline_constraint (p : PipelineIr) : ConstraintIr :=
  mkConstraint (bytes "pipeline::" ++ pipe_name p) (bytes "timing::deadline")
    (bytes "<= " ++ ns (total_budget_ns p)) (ns (total_wcet_ns p))
    (total_wcet_ns p <=? total_budget_ns p)
    (bytes "Pipeline total worst-case execution time must be within cumulative budget").

Definition zero_copy_constraint (p : PipelineIr) (s : StageIr) : ConstraintIr :=
  mkConstraint (scoped (pipe_name p) (stage_name s)) (bytes "memory::zero_copy")
    (bytes "zero-copy DMA") (bytes "zero-copy DMA") true
    (bytes "Verified hardware DMA zero-copy ring alignment").

Definition pipeline_constraints (p : PipelineIr) : list ConstraintIr :=
  deadline_constraint p ::
  map (zero_copy_constraint p) (filter (fun s => stage_zero_copy s = true) (stages p)).

(** The last part of [build_intent_ir]. *)
Definition summarize (x : items) : IntentIr :=
  let cs := concat (map pipeline_constraints (i_pipelines x)) in
  let sat_count := len (filter (fun c => satisfied c = true) cs) in
  let all_satisfied := sat_count =? len cs in
  mkIr (bytes "1.0") (bytes "main") (i_pipelines x) (i_tasks x) (i_functions x) cs
    (mkVerification (if all_satisfied then bytes "PASS" else bytes "FAIL") sat_count sat_count
       all_satisfied true).

Definition IR_TOKENS : nat := 4096.

(** [build_intent_ir]; [None] when the lexer's fuel runs out, which it does not. *)
Definition build_intent_ir (oc : bool) (src : list Z) : option (outcome CompileError IntentIr) :=
  match tokenize oc src (replicate IR_TOKENS empty_token) with
  | None => None
  | Some r =>
    Some ('(tok_count, toks) ← r;
          let slice := take (Z.to_nat tok_count) toks in
          x ← items_loop (length slice) oc src (mkItems [] [] []) slice;
          mret (summarize x))
  end.

(** * The semantic diff *)

Record SemanticDiffItem : Set := mkDiff {
  entity : list Z;
  field : list Z;
  before : list Z;
  after : list Z;
}.

Record SemanticDiffReport : Set := mkReport {
  changes : list SemanticDiffItem;
  verification_before : list Z;
  verification_after : list Z;
}.

(** [iter().find(|x| x.name == name)]. *)
Definition find_by {A} (name_of : A -> list Z) (name : list Z) (l : list A) : option A :=
  find (fun x => bytes_eqb (name_of x) name) l.

(** One comparison of two fields: an item when they differ. *)
Definition diff_field {A} `{EqDecision A} (entity : list Z) (field : string) (show : A -> list Z)
    (a b : A) : list SemanticDiffItem :=
  if bool_decide (a = b) then [] else [mkDiff entity (bytes field) (show a) (show b)].

Definition added (entity : list Z) (field : string) : SemanticDiffItem :=
  mkDiff entity (bytes field) (bytes "none") (bytes "added").

Definition diff_stage (pipe : list Z) (sa sb : StageIr) : list SemanticDiffItem :=
  let e := scoped pipe (stage_name sb) in
  diff_field e "core" show_Z (stage_core sa) (stage_core sb)
  ++ diff_field e "budget_ns" ns (stage_budget_ns sa) (stage_budget_ns sb)
  ++ diff_field e "zero_copy" jbool (stage_zero_copy sa) (stage_zero_copy sb).

Definition diff_stages (pa pb : PipelineIr) (sb : StageIr) : list SemanticDiffItem :=
  match find_by stage_name (stage_name sb) (stages pa) with
  | Some sa => diff_stage (pipe_name pb) sa sb
  | None => [added (scoped (pipe_name pb) (stage_name sb)) "stage"]
  end.

Definition diff_pipeline (a : IntentIr) (pb : PipelineIr) : list SemanticDiffItem :=
  let e := bytes "pipeline::" ++ pipe_name pb in
  match find_by pipe_name (pipe_name pb) (pipelines a) with
  | Some pa =>
    diff_field e "budget_ns" ns (total_budget_ns pa) (total_budget_ns pb)
    ++ concat (map (diff_stages pa pb) (stages pb))
  | None => [added e "pipeline"]
  end.

Definition or_none (f : Z -> list Z) (o : option Z) : list Z :=
  match o with Some v => f v | None => bytes "none" end.

Definition diff_task (a : IntentIr) (tb : TaskIr) : list SemanticDiffItem :=
  let e := bytes "task::" ++ task_name tb in
  match find_by task_name (task_name tb) (tasks a) with
  | Some ta =>
    diff_field e "core" (or_none show_Z) (task_core ta) (task_core tb)
    ++ diff_field e "budget_ns" (or_none ns) (task_budget_ns ta) (task_budget_ns tb)
  | None => [added e "task"]
  end.

Definition diff_function (a : IntentIr) (fb : FunctionIr) : list SemanticDiffItem :=
  match find_by fn_name (fn_name fb) (functions a) with
  | Some fa =>
    diff_field (bytes "fn::" ++ fn_name fb) "wcet_ns" ns (fn_estimated_wcet_ns fa)
      (fn_estimated_wcet_ns fb)
  | None => []
  end.

Definition semantic_diff (a b : IntentIr) : SemanticDiffReport :=
  mkReport
    (concat (map (diff_pipeline a) (pipelines b)) ++ concat (map (diff_task a) (tasks b))
     ++ concat (map (diff_function a) (functions b)))
    (status (verification a)) (status (verification b)).

Definition diff_item_json (c : SemanticDiffItem) : list Z :=
  jobj [jfield "entity" (jtext (entity c)); jfield "field" (jtext (field c));
        jfield "before" (jtext (before c)); jfield "after" (jtext (after c))].

(** [SemanticDiffReport::to_json] and [to_text]. *)
Definition report_json (r : SemanticDiffReport) : list Z :=
  jobj [jfield "changes" (jarr (map diff_item_json (changes r)));
        jfield "verification"
          (jobj [jfield "before" (jtext (verification_before r));
                 jfield "after" (jtext (verification_after r))])].

Definition diff_item_text (c : SemanticDiffItem) : list Z :=
  bytes "  " ++ entity c ++ bytes "." ++ field c ++ bytes ": " ++ before c ++ bytes " -> "
  ++ after c ++ [10].

Definition report_text (r : SemanticDiffReport) : list Z :=
  bytes "=== PulseLang Semantic Diff ===" ++ [10]
  ++ match changes r with
     | [] => bytes "No semantic or constraint changes detected." ++ [10]
     | cs => bytes "Semantic Changes:" ++ [10] ++ concat (map diff_item_text cs)
     end
  ++ [10] ++ bytes "Verification Impact:" ++ [10]
  ++ bytes "  Before: " ++ verification_before r ++ [10]
  ++ bytes "  After:  " ++ verification_after r ++ [10].

(** * Queries *)

Record InspectReport : Set := mkInspect {
  ins_symbol : list Z;
  entity_kind : list Z;
  typestate : list Z;
  core_affinity : option Z;
  ins_budget_ns : option Z;
  ins_wcet_ns : Z;
  ins_domain : list Z;
  ins_zero_copy : bool;
}.

Definition inspect_stage (s : StageIr) : InspectReport :=
  mkInspect (stage_name s) (bytes "pipeline_stage") (bytes "ActiveStage") (Some (stage_core s))
    (Some (stage_budget_ns s)) (stage_wcet_ns s) (domain_str (stage_domain s)) (stage_zero_copy s).

Definition inspect_task (t : TaskIr) : InspectReport :=
  mkInspect (task_name t) (bytes "task") (bytes "ScheduledTask") (task_core t) (task_budget_ns t)
    (task_wcet_ns t) (domain_str (task_domain t)) (task_zero_copy t).

Definition inspect_function (f : FunctionIr) : InspectReport :=
  mkInspect (fn_name f) (bytes "function") (bytes "Callable") None None
    (fn_estimated_wcet_ns f) (bytes "cpu-resident") false.

(** The first stage of a pipeline with that name, plain or scoped. *)
Definition stage_named (sym : list Z) (p : PipelineIr) : option StageIr :=
  find (fun s => bytes_eqb (stage_name s) sym || bytes_eqb (scoped (pipe_name p) (stage_name s)) sym)
    (stages p).

Fixpoint first_stage (sym : list Z) (ps : list PipelineIr) : option StageIr :=
  match ps with
  | p :: ps => match stage_named sym p with Some s => Some s | None => first_stage sym ps end
  | [] => None
  end.

Definition inspect_symbol (ir : IntentIr) (sym : list Z) : option InspectReport :=
  match first_stage sym (pipelines ir) with
  | Some s => Some (inspect_stage s)
  | None =>
    match find_by task_name sym (tasks ir) with
    | Some t => Some (inspect_task t)
    | None => inspect_function <$> find_by fn_name sym (functions ir)
    end
  end.

Definition inspect_json (r : InspectReport) : list Z :=
  jobj [jfield "symbol" (jtext (ins_symbol r)); jfield "kind" (jtext (entity_kind r));
        jfield "typestate" (jtext (typestate r)); jfield "core" (jopt show_Z (core_affinity r));
        jfield "budget_ns" (jopt show_Z (ins_budget_ns r)); jfield "wcet_ns" (show_Z (ins_wcet_ns r));
        jfield "domain" (jtext (ins_domain r)); jfield "zero_copy" (jbool (ins_zero_copy r))].

Record WhyReport : Set := mkWhy {
  why_symbol_name : list Z;
  why_reason : list Z;
  producer : list Z;
  consumer : list Z;
  required_constraint : list Z;
  provided_constraint : list Z;
  why_satisfied : bool;
  alternatives : list (list Z);
}.

(** [target.contains(sym)]. *)
Fixpoint contains (l s : list Z) : bool :=
  starts_with l s || match l with [] => false | _ :: l => contains l s end.

Definition repairs : list (list Z) :=
  [bytes "Adjust budget/deadline to accommodate observed worst-case time";
   bytes "Enable zero-copy DMA or transfer to target memory domain";
   bytes "Assign task to dedicated real-time core (Cores 1..3)"].

Definition why_constraint (sym : list Z) (c : ConstraintIr) : WhyReport :=
  mkWhy sym (reason c) (bytes "Compiler Pipeline Analysis") (target c) (required c) (provided c)
    (satisfied c) (if satisfied c then [] else repairs).

(** The [Debug] format of an optional number. *)
Definition show_opt (o : option Z) : list Z :=
  match o with Some v => bytes "Some(" ++ show_Z v ++ bytes ")" | None => bytes "None" end.

Definition why_inspected (sym : list Z) (i : InspectReport) : WhyReport :=
  mkWhy sym (bytes "Declared as " ++ entity_kind i ++ bytes " with explicit constraint parameters")
    (bytes "Source Declaration") (bytes "System Pipeline")
    (bytes "WCET <= Budget (" ++ show_Z (ins_wcet_ns i) ++ bytes " <= " ++ show_opt (ins_budget_ns i)
     ++ bytes ")")
    (bytes "Residency: " ++ ins_domain i ++ bytes ", ZeroCopy: " ++ jbool (ins_zero_copy i))
    true [bytes "Reconfigure stage core assignment"; bytes "Adjust execution budget"].

Definition why_symbol (ir : IntentIr) (sym : list Z) : option WhyReport :=
  match find (fun c => bytes_eqb (target c) sym || contains (target c) sym) (constraints ir) with
  | Some c => Some (why_constraint sym c)
  | None => why_inspected sym <$> inspect_symbol ir sym
  end.

Definition why_json (r : WhyReport) : list Z :=
  jobj [jfield "symbol" (jtext (why_symbol_name r)); jfield "reason" (jtext (why_reason r));
        jfield "producer" (jtext (producer r)); jfield "consumer" (jtext (consumer r));
        jfield "required" (jtext (required_constraint r));
        jfield "provided" (jtext (provided_constraint r));
        jfield "satisfied" (jbool (why_satisfied r));
        jfield "alternatives" (jarr (map jtext (alternatives r)))].

Fixpoint numbered (i : Z) (l : list (list Z)) : list Z :=
  match l with
  | a :: l => bytes "    " ++ show_Z i ++ bytes ". " ++ a ++ [10] ++ numbered (i + 1) l
  | [] => []
  end.

Definition why_text (r : WhyReport) : list Z :=
  bytes "=== Why: " ++ why_symbol_name r ++ bytes " ===" ++ [10]
  ++ bytes "  Reason:   " ++ why_reason r ++ [10]
  ++ bytes "  Producer: " ++ producer r ++ [10]
  ++ bytes "  Consumer: " ++ consumer r ++ [10]
  ++ bytes "  Required: " ++ required_constraint r ++ [10]
  ++ bytes "  Provided: " ++ provided_constraint r ++ [10]
  ++ bytes "  Status:   " ++ bytes (if why_satisfied r then "SATISFIED" else "VIOLATED") ++ [10]
  ++ match alternatives r with
     | [] => []
     | l => bytes "  Alternatives / Repair Actions:" ++ [10] ++ numbered 1 l
     end.

(** A source with two pipelines' worth of declarations. *)
Definition sample_source : list Z :=
  bytes "pipeline Video { stage Capture { core 1 budget 200us zero_copy input #gpu output raw } stage Send { core 9 budget 100us hardware nic } } task Log { core 2 budget 1ms input raw } fn main() { }".

Definition sample_ir : option IntentIr :=
  match build_intent_ir true sample_source with Some (Ok ir) => Some ir | _ => None end.

Example sample_built :
  (fun ir => (map pipe_name (pipelines ir), map (fun p => map stage_core (stages p)) (pipelines ir),
     map total_wcet_ns (pipelines ir), map task_wcet_ns (tasks ir), map fn_name (functions ir),
     len (constraints ir), status (verification ir))) <$> sample_ir =
  Some ([bytes "Video"], [[1; 3]], [240000], [700000], [bytes "main"], 2, bytes "PASS").
Proof. vm_compute. reflexivity. Qed.
