(* ===== verification/IrProps.v ===== *)
(** What the intent IR promises: every source gives an IR or a diagnostic, the
    numbers of an IR are consistent, its JSON text reads back, and what the
    semantic diff says and does not say. *)

From S2P Require Import Prelude RustStd Isa Token Error RustStr Lexer LexerProps Json Ir.
Local Open Scope Z_scope.

(** * What the lexer's tokens carry *)

(** The value of a time literal is a [u64]; a name's bytes are letters, digits,
    underscores and dots, after [#] in a hardware name. *)
Definition name_byte (b : Z) : bool := is_dotted_byte b || (b =? 35).

Definition fits (src : list Z) (i j : Z) (k : TokenKind.t) : Prop :=
  match k with
  | TokenKind.TimeLiteral n => 0 <= n < 2 ^ 64
  | TokenKind.Ident | TokenKind.HardwareIdent => Forall (fun b => name_byte b = true) (sub src i j)
  | _ => True
  end.

Definition plain_kind (k : TokenKind.t) : Prop :=
  match k with
  | TokenKind.TimeLiteral _ | TokenKind.Ident | TokenKind.HardwareIdent => False
  | _ => True
  end.

Lemma plain_fits src i j k : plain_kind k -> fits src i j k.
Proof. by destruct k. Qed.

Definition fits_one (src : list Z) (i : Z) (r : lres (option TokenKind.t * lexer)) : Prop :=
  match r with Ok (Some k, st) => fits src i (pos st) k | _ => True end.

Lemma fits_tok src i ln (r : lres (TokenKind.t * Z)) :
  match r with Ok (k, j) => fits src i j k | _ => True end ->
  fits_one src i ('(k, j) ← r; mret (Some k, mkLexer j ln)).
Proof. by destruct r as [[k j]|e|q]. Qed.

Lemma fits_op src i alts d :
  Forall (fun a => plain_kind (snd a)) alts -> plain_kind d ->
  match lex_op src i alts d with Ok (k, j) => fits src i j k | _ => True end.
Proof.
  intros Ha Hd. unfold lex_op. destruct (find _ alts) as [a|] eqn:E; apply plain_fits; [|done].
  apply find_some in E as [Hin _]. rewrite Forall_forall in Ha. apply Ha. by apply list_elem_of_In.
Qed.

Lemma mul_u64_range oc a b n : 0 <= a -> 0 <= b -> mul_u64 oc a b = Ok n -> 0 <= n < 2 ^ 64.
Proof.
  unfold mul_u64. intros Ha Hb. destruct (Z.ltb_spec (a * b) (2 ^ 64)); [intros [= <-]; lia|].
  destruct oc; [done|]. intros [= <-]. pose proof (as_u64_range (a * b)) as H1. unfold in_u64 in H1. lia.
Qed.

Lemma fits_time oc src i num m j :
  0 <= num -> 0 <= m ->
  match (n ← mul_u64 oc num m; mret (TokenKind.TimeLiteral n, j)) : lres (TokenKind.t * Z) with
  | Ok (k, j) => fits src i j k | _ => True end.
Proof.
  intros Hn Hm. destruct (mul_u64 oc num m) as [n|e|q] eqn:E; simpl; try done.
  by eapply mul_u64_range in E.
Qed.

Lemma u64_nonneg n : 0 <= as_u64 n < 2 ^ 64.
Proof. pose proof (as_u64_range n) as H. unfold in_u64 in H. lia. Qed.

Lemma fits_decimal oc src i :
  match lex_decimal oc src i with Ok (k, j) => fits src i j k | _ => True end.
Proof.
  unfold lex_decimal. destruct (scan_dec _ i 0) as [j num]. pose proof (u64_nonneg num).
  match goal with |- context [if ?b then _ else _] => destruct b end;
    [by destruct (scan_frac _ _ _ _) as [[? ?] ?]|].
  destruct (match_suffix src j (bytes "ns")); [exact H|].
  repeat match goal with |- context [if ?b then _ else _] => destruct b; [apply fits_time; lia|] end.
  exact I.
Qed.

Lemma fits_number oc src i b :
  match lex_number oc src i b with Ok (k, j) => fits src i j k | _ => True end.
Proof.
  unfold lex_number. destruct ((b =? 48) && _); [|apply fits_decimal]. by destruct (scan_hex _ _ _).
Qed.

Lemma keyword_plain s table d src i j :
  Forall (fun a => plain_kind (snd a)) table -> fits src i j d -> fits src i j (keyword s table d).
Proof.
  intros H Hd. induction H as [|[k t] table Ht _ IH]; simpl; [done|].
  case_match; [by apply plain_fits | done].
Qed.

Lemma scan_while_bytes p src i :
  0 <= i -> Forall (fun b => p b = true) (sub src i (scan_while p src i)).
Proof.
  intros Hi. unfold sub, scan_while.
  replace (i + count_while p (rest src i) - i) with (count_while p (rest src i)) by lia.
  unfold rest. generalize (drop (Z.to_nat i) src). clear. intros l.
  induction l as [|x l IH]; simpl; [constructor|].
  destruct (p x) eqn:Hp; [|constructor]. pose proof (count_while_bound p l).
  replace (Z.to_nat (1 + count_while p l)) with (S (Z.to_nat (count_while p l))) by lia.
  by constructor.
Qed.

Lemma dotted_name l :
  Forall (fun b => is_dotted_byte b = true) l -> Forall (fun b => name_byte b = true) l.
Proof.
  intros H. eapply Forall_impl; [exact H|]. intros b Hb. unfold name_byte. by rewrite Hb.
Qed.

Lemma lex_one_fits oc src st b :
  getZ src (pos st) = Some b -> fits_one src (pos st) (lex_one oc src st b).
Proof.
  intros Hb. pose proof (getZ_Some_lt _ _ _ Hb) as Hi. unfold lex_one. cbv zeta.
  repeat match goal with
  | |- fits_one _ _ (if b =? ?c then ('(_, _) ← lex_op _ _ _ _; _) else _) =>
    destruct (b =? c); [apply fits_tok, fits_op; [by repeat constructor | done]|]
  end.
  destruct (b =? 34); [by destruct (scan_string _ _ _)|].
  destruct (is_ascii_digit b); [apply fits_tok, fits_number|]. destruct (b =? 36); [done|].
  destruct (b =? 35) eqn:H35.
  { apply fits_tok. cbn [mret outcome_ret fits].
    pose proof (scan_while_bound is_ident_byte src (pos st + 1) ltac:(lia)) as B.
    pose proof (scan_while_bytes is_ident_byte src (pos st + 1) ltac:(lia)) as F.
    assert (E : sub src (pos st) (scan_while is_ident_byte src (pos st + 1)) =
      b :: sub src (pos st + 1) (scan_while is_ident_byte src (pos st + 1))).
    { unfold sub. set (j := scan_while _ _ _) in *.
      replace (Z.to_nat (j - pos st)) with (S (Z.to_nat (j - (pos st + 1)))) by lia.
      replace (Z.to_nat (pos st + 1)) with (S (Z.to_nat (pos st))) by lia.
      unfold getZ in Hb. destruct (decide (0 <= pos st)); [|done].
      rewrite (drop_S _ _ _ Hb). done. }
    rewrite E. constructor; [unfold name_byte; by rewrite H35, orb_true_r|].
    eapply Forall_impl; [exact F|]. intros x Hx. unfold name_byte, is_dotted_byte. by rewrite Hx. }
  destruct (b =? 64).
  { apply fits_tok. cbn [mret outcome_ret]. apply keyword_plain; [by repeat constructor | done]. }
  destruct (_ || _); [|done]. apply fits_tok. cbn [mret outcome_ret].
  apply keyword_plain; [by repeat constructor|]. apply dotted_name, scan_while_bytes. lia.
Qed.

Definition token_fits (src : list Z) (t : Token) : Prop :=
  fits src (start t) (start t + tlen t) (kind t).

Lemma lex_loop_fits oc src fuel st count tokens st' n out :
  Forall (token_fits src) tokens ->
  lex_loop fuel oc src st count tokens = Some (Ok (st', n, out)) -> Forall (token_fits src) out.
Proof.
  revert st count tokens. induction fuel as [|fuel IH]; intros st count tokens Ht; [done|].
  cbn [lex_loop]. case_match; [|by intros [= _ _ <-]].
  set (st1 := skip_whitespace_and_comments src st). case_match; [by intros [= _ _ <-]|].
  destruct (get_line_and_col src (pos st1)) as [ln cl].
  destruct (idx src (pos st1)) as [b|e|q] eqn:Eb; [|done|done]. apply idx_Ok in Eb.
  pose proof (lex_one_fits oc src st1 b Eb) as Hf.
  destruct (lex_one oc src st1 b) as [[[k|] st2]|e|q]; [|apply IH; done|done|done].
  destruct (upd tokens count _) as [toks|e|q] eqn:Eu; [|done|done].
  apply upd_Ok in Eu as [_ ->]. apply IH. apply Forall_setZ; [done|].
  unfold token_fits. cbn. by replace (pos st1 + (pos st2 - pos st1)) with (pos st2) by lia.
Qed.

Lemma tokenize_fits oc src n size out :
  tokenize oc src (replicate size empty_token) = Some (Ok (n, out)) -> Forall (token_fits src) out.
Proof.
  unfold tokenize, tokenize_fuel. case_match; [done|].
  destruct (lex_loop _ _ _ _ _ _) as [[[[st c] toks]|e|q]|] eqn:E; [|done..].
  apply lex_loop_fits in E; [|by apply Forall_replicate]. case_match; [done|].
  destruct (get_line_and_col src _) as [ln cl]. intros [= Hu].
  apply bind_Ok in Hu as (toks' & [_ ->]%upd_Ok & [= _ <-]). by apply Forall_setZ.
Qed.

(** * The invariant of an IR *)

Definition name_ok (s : list Z) : Prop := Forall (fun b => name_byte b = true) s.
Definition opt_ok {A} (P : A -> Prop) (o : option A) : Prop :=
  match o with Some x => P x | None => True end.
Definition u64_ok (n : Z) : Prop := 0 <= n < 2 ^ 64.

Record stage_ok (oc : bool) (s : StageIr) : Prop := {
  so_name : name_ok (stage_name s);
  so_core : 0 <= stage_core s <= 3;
  so_budget : u64_ok (stage_budget_ns s);
  so_wcet : u64_ok (stage_wcet_ns s);
  so_exact : oc = true -> stage_wcet_ns s = stage_budget_ns s * 8 / 10;
  so_input : opt_ok name_ok (stage_input s);
  so_output : opt_ok name_ok (stage_output s);
  so_hardware : opt_ok name_ok (stage_hardware s);
}.

Definition sum_by {A} (f : A -> Z) (l : list A) : Z := foldr (fun x n => f x + n) 0 l.

Record pipeline_ok (oc : bool) (p : PipelineIr) : Prop := {
  po_name : name_ok (pipe_name p);
  po_stages : Forall (stage_ok oc) (stages p);
  po_budget : u64_ok (total_budget_ns p);
  po_wcet : u64_ok (total_wcet_ns p);
  po_valid : pipe_valid p = (total_wcet_ns p <=? total_budget_ns p);
  po_exact : oc = true ->
    total_budget_ns p = sum_by stage_budget_ns (stages p) /\
    total_wcet_ns p = sum_by stage_wcet_ns (stages p);
}.

Record task_ok (t : TaskIr) : Prop := {
  to_name : name_ok (task_name t);
  to_core : opt_ok in_u8 (task_core t);
  to_budget : opt_ok u64_ok (task_budget_ns t);
  to_wcet : u64_ok (task_wcet_ns t);
  to_inputs : Forall name_ok (task_inputs t);
  to_outputs : Forall name_ok (task_outputs t);
}.

Definition function_ok (f : FunctionIr) : Prop :=
  exists s, name_ok s /\ f = mkFunction s [] (bytes "i64") (Some 5000) 3200 false false.

Record items_ok (oc : bool) (x : items) : Prop := {
  io_pipelines : Forall (pipeline_ok oc) (i_pipelines x);
  io_tasks : Forall task_ok (i_tasks x);
  io_functions : Forall function_ok (i_functions x);
}.

(** * The builder keeps it *)

Lemma add_u64_ok oc a b n : u64_ok a -> u64_ok b -> add_u64 oc a b = Ok n ->
  u64_ok n /\ (oc = true -> n = a + b).
Proof.
  unfold add_u64, u64_ok. intros Ha Hb. destruct (Z.ltb_spec (a + b) (2 ^ 64)).
  { intros [= <-]. split; [lia|done]. }
  destruct oc; [done|]. intros [= <-]. split; [apply u64_nonneg|done].
Qed.

Lemma mul_u64_ok oc a b n : 0 <= a -> 0 <= b -> mul_u64 oc a b = Ok n ->
  u64_ok n /\ (oc = true -> n = a * b).
Proof.
  intros Ha Hb H. split; [by eapply mul_u64_range in H|]. revert H. unfold mul_u64.
  destruct (a * b <? 2 ^ 64); [by intros [= <-]|]. by destruct oc.
Qed.

Lemma div_u64 n k : 0 < k -> u64_ok n -> u64_ok (n / k).
Proof.
  unfold u64_ok. intros Hk Hn. split; [apply Z.div_pos; lia|].
  apply Z.le_lt_trans with n; [|lia]. apply Z.div_le_upper_bound; nia.
Qed.

Section Builder.
Variables (oc : bool) (src : list Z).
Notation fine := (Forall (token_fits src)).

Lemma token_name t : token_fits src t -> ident_or_hw t = true -> name_ok (get_token_str src t).
Proof.
  unfold token_fits, ident_or_hw, is_kind, get_token_str. intros Hf Hi.
  assert (name_ok (sub src (start t) (start t + tlen t))).
  { apply orb_true_iff in Hi as [Hi|Hi]; apply bool_decide_eq_true in Hi; by rewrite Hi in Hf. }
  case_match; [|constructor]. case_match; [done|constructor].
Qed.

Lemma ident_hw t : is_kind t TokenKind.Ident = true -> ident_or_hw t = true.
Proof. unfold ident_or_hw. by intros ->. Qed.

Record locals_ok (x : stage_locals) : Prop := {
  lo_core : 0 <= l_core x <= 3;
  lo_budget : u64_ok (l_budget x);
  lo_input : opt_ok name_ok (l_input x);
  lo_output : opt_ok name_ok (l_output x);
  lo_hardware : opt_ok name_ok (l_hardware x);
}.

(** A loop leaves a suffix of its tokens. *)
Definition leaves (l r : list Token) : Prop := fine r /\ (length r <= length l)%nat.

Lemma leaves_cons t l r : leaves l r -> leaves (t :: l) r.
Proof. intros [? ?]. split; [done|simpl; lia]. Qed.

Definition stage_result (l : list Token) (r : stage_locals * list Token) : Prop :=
  locals_ok (fst r) /\ leaves l (snd r).

Lemma stage_result_cons t l r : stage_result l r -> stage_result (t :: l) r.
Proof. intros [? ?]. split; [done|by apply leaves_cons]. Qed.

Lemma stage_loop_ok l x : fine l -> locals_ok x -> stage_result l (stage_loop src x l).
Proof.
  revert x. induction l as [|t l IH1 IH2] using list_ind_two; intros x Hl Hx; [by split; [exact Hx|by split]|].
  inversion Hl as [|? ? Ht Hl']; subst. pose proof Hx as [H1 H2 H3 H4 H5].
  assert (Hend : stage_result (t :: l) (x, t :: l)) by (by split; [|split]).
  assert (Hskip : stage_result (t :: l) (stage_loop src x l)) by (apply stage_result_cons; auto).
  assert (Hnil : stage_result (t :: l) (x, [])) by (split; [done|split; [constructor|simpl; lia]]).
  cbn [stage_loop]. destruct (kind t); try exact Hskip; try exact Hend;
    try (apply stage_result_cons, IH1; [done|]; by constructor);
    (destruct l as [|u l]; [exact Hnil|]; inversion Hl' as [|? ? Hu Hl2]; subst;
     pose proof (IH2 u l eq_refl) as IH).
  - apply stage_result_cons, stage_result_cons, IH; [done|]. constructor; try done. simpl.
    destruct (kind u); try done. pose proof (as_u8_range n) as H6. unfold in_u8 in H6. lia.
  - case_match eqn:E; [|exact Hskip]. apply stage_result_cons, stage_result_cons, IH; [done|].
    constructor; try done. simpl. by apply token_name, ident_hw.
  - case_match eqn:E; [|exact Hskip]. apply stage_result_cons, stage_result_cons, IH; [done|].
    constructor; try done. simpl. by apply token_name.
  - case_match eqn:E; [|exact Hskip]. apply stage_result_cons, stage_result_cons, IH; [done|].
    constructor; try done. simpl. by apply token_name.
  - apply stage_result_cons, stage_result_cons, IH; [done|]. constructor; try done. simpl.
    unfold token_fits in Hu. destruct (kind u); try done.
Qed.

Lemma skip_rbrace_leaves l r : leaves l r -> leaves l (skip_rbrace r).
Proof.
  intros [Hr Hl]. unfold skip_rbrace. destruct r as [|t r]; [done|]. case_match; [|done].
  inversion Hr; subst. split; [done|simpl in Hl; lia].
Qed.

Lemma block_header_ok code m1 m2 l s r :
  fine l -> block_header src code m1 m2 l = Ok (s, r) -> name_ok s /\ leaves l r.
Proof.
  unfold block_header. intros Hl. destruct l as [|t l]; [done|]. inversion Hl as [|? ? Ht Hl']; subst.
  destruct (is_kind t TokenKind.Ident) eqn:E; [|done].
  destruct l as [|u l]; [done|]. case_match; [|done]. intros [= <- <-].
  inversion Hl'; subst. split; [by apply token_name, ident_hw|]. split; [done|simpl; lia].
Qed.

Lemma leaves_trans l r s : leaves l r -> (fine r -> leaves r s) -> leaves l s.
Proof. intros [H1 H2] [H3 H4]%(fun f => f H1). split; [done|lia]. Qed.

Lemma stage_item_ok l s r : fine l -> stage_item oc src l = Ok (s, r) -> stage_ok oc s /\ leaves l r.
Proof.
  intros Hl. unfold stage_item. intros ([n l1] & Hh & H)%bind_Ok.
  apply block_header_ok in Hh as [Hn Hl1]; [|done].
  destruct (stage_loop_ok l1 stage_defaults) as [[H1 H2 H3 H4 H5] Hl2]; [apply Hl1|done|].
  destruct (stage_loop src stage_defaults l1) as [x l2]. cbn [fst snd] in *.
  apply bind_Ok in H as (w & Hw & [= <- <-]). unfold u64_ok in H2.
  apply mul_u64_ok in Hw as [Hw Hx]; [|lia|lia]. split.
  - constructor; simpl; try done; [by apply div_u64|]. intros Ho. by rewrite (Hx Ho).
  - apply skip_rbrace_leaves. eapply leaves_trans; [exact Hl1|]. done.
Qed.

(** The totals of the stages read so far. *)
Definition totals (ss : list StageIr) (b w : Z) : Prop :=
  Forall (stage_ok oc) ss /\ u64_ok b /\ u64_ok w /\
  (oc = true -> b = sum_by stage_budget_ns ss /\ w = sum_by stage_wcet_ns ss).

Lemma sum_by_snoc {A} (f : A -> Z) l x : sum_by f (l ++ [x]) = sum_by f l + f x.
Proof. unfold sum_by. induction l as [|y l IH]; simpl; lia. Qed.

Lemma stages_loop_ok n acc b w l ss b' w' r :
  fine l -> totals acc b w -> stages_loop n oc src acc b w l = Ok (ss, b', w', r) ->
  totals ss b' w' /\ leaves l r.
Proof.
  revert acc b w l. induction n as [|n IH]; intros acc b w l Hl Ha; [by intros [= <- <- <- <-]|].
  destruct l as [|t l]; [by intros [= <- <- <- <-]|]. cbn [stages_loop].
  destruct (is_kind t TokenKind.RBrace); [by intros [= <- <- <- <-]|].
  inversion Hl as [|? ? Ht Hl']; subst. destruct (is_kind t TokenKind.Stage).
  - intros ([s l1] & Hs & (b1 & Hb & (w1 & Hw & H)%bind_Ok)%bind_Ok)%bind_Ok.
    apply stage_item_ok in Hs as [Hs Hl1]; [|done]. destruct Ha as (A1 & A2 & A3 & A4).
    apply add_u64_ok in Hb as [B1 B2]; [|done|apply Hs].
    apply add_u64_ok in Hw as [W1 W2]; [|done|apply Hs].
    apply IH in H as [H1 H2]; [|apply Hl1|].
    + split; [done|]. apply leaves_cons. by eapply leaves_trans.
    + split_and!; [apply Forall_app; split; [done|by constructor]|done|done|].
      intros Ho. destruct (A4 Ho) as [-> ->]. rewrite !sum_by_snoc. auto.
  - intros H. apply IH in H as [H1 H2]; [|done..]. split; [done|by apply leaves_cons].
Qed.

Lemma pipeline_item_ok l p r :
  fine l -> pipeline_item oc src l = Ok (p, r) -> pipeline_ok oc p /\ leaves l r.
Proof.
  intros Hl. unfold pipeline_item. intros ([n l1] & Hh & H)%bind_Ok.
  apply block_header_ok in Hh as [Hn Hl1]; [|done].
  apply bind_Ok in H as ([[[ss b] w] l2] & Hs & [= <- <-]).
  apply stages_loop_ok in Hs as [(S1 & S2 & S3 & S4) Hl2]; [|apply Hl1|by repeat constructor].
  split; [by constructor|]. apply skip_rbrace_leaves. by eapply leaves_trans.
Qed.

Record task_locals_ok (x : task_locals) : Prop := {
  tl_core : opt_ok in_u8 (t_core x);
  tl_budget : opt_ok u64_ok (t_budget x);
  tl_inputs : Forall name_ok (t_inputs x);
  tl_outputs : Forall name_ok (t_outputs x);
}.

Definition task_result (l : list Token) (r : task_locals * list Token) : Prop :=
  task_locals_ok (fst r) /\ leaves l (snd r).

Lemma task_result_cons t l r : task_result l r -> task_result (t :: l) r.
Proof. intros [? ?]. split; [done|by apply leaves_cons]. Qed.

Lemma task_loop_ok l x : fine l -> task_locals_ok x -> task_result l (task_loop src x l).
Proof.
  revert x. induction l as [|t l IH1 IH2] using list_ind_two; intros x Hl Hx; [by split; [exact Hx|by split]|].
  inversion Hl as [|? ? Ht Hl']; subst. pose proof Hx as [H1 H2 H3 H4].
  assert (Hend : task_result (t :: l) (x, t :: l)) by (by split; [|split]).
  assert (Hskip : task_result (t :: l) (task_loop src x l)) by (apply task_result_cons; auto).
  assert (Hnil : task_result (t :: l) (x, [])) by (split; [done|split; [constructor|simpl; lia]]).
  cbn [task_loop]. destruct (kind t); try exact Hskip; try exact Hend;
    try (apply task_result_cons, IH1; [done|]; by constructor);
    (destruct l as [|u l]; [exact Hnil|]; inversion Hl' as [|? ? Hu Hl2]; subst;
     pose proof (IH2 u l eq_refl) as IH).
  - apply task_result_cons, task_result_cons, IH; [done|]. constructor; try done. simpl.
    destruct (kind u); try done. apply as_u8_range.
  - case_match eqn:E; [|exact Hskip]. apply task_result_cons, task_result_cons, IH; [done|].
    constructor; try done. simpl. apply Forall_app. split; [done|].
    apply Forall_singleton. by apply token_name, ident_hw.
  - case_match eqn:E; [|exact Hskip]. apply task_result_cons, task_result_cons, IH; [done|].
    constructor; try done. simpl. apply Forall_app. split; [done|].
    apply Forall_singleton. by apply token_name, ident_hw.
  - apply task_result_cons, task_result_cons, IH; [done|]. constructor; try done. simpl.
    unfold token_fits in Hu. destruct (kind u); try done.
Qed.

Lemma task_item_ok l t r : fine l -> task_item oc src l = Ok (t, r) -> task_ok t /\ leaves l r.
Proof.
  intros Hl. unfold task_item. intros ([n l1] & Hh & H)%bind_Ok.
  apply block_header_ok in Hh as [Hn Hl1]; [|done].
  destruct (task_loop_ok l1 (mkTaskLocals None None false [] [])) as [[H1 H2 H3 H4] Hl2];
    [apply Hl1|by repeat constructor|].
  destruct (task_loop src _ l1) as [x l2]. cbn [fst snd] in *.
  apply bind_Ok in H as (w & Hw & [= <- <-]).
  assert (Hb : u64_ok (default 100000 (t_budget x))) by (by destruct (t_budget x)).
  unfold u64_ok in Hb. apply mul_u64_ok in Hw as [Hw _]; [|lia|lia]. split.
  - constructor; simpl; try done. by apply div_u64.
  - apply skip_rbrace_leaves. by eapply leaves_trans.
Qed.

Lemma function_item_ok l f r :
  fine l -> function_item src l = (f, r) -> Forall function_ok f /\ leaves l r.
Proof.
  intros Hl. unfold function_item. destruct l as [|t l]; [by intros [= <- <-]|].
  inversion Hl as [|? ? Ht Hl']; subst. intros [= <- <-]. split; [|split; [done|simpl; lia]].
  case_match eqn:E; [|constructor]. apply Forall_singleton. eexists. split; [|done].
  by apply token_name, ident_hw.
Qed.

Lemma items_loop_ok n x l y :
  fine l -> items_ok oc x -> items_loop n oc src x l = Ok y -> items_ok oc y.
Proof.
  revert x l. induction n as [|n IH]; intros x l Hl Hx; [by intros [= <-]|].
  destruct l as [|t l]; [by intros [= <-]|]. inversion Hl as [|? ? Ht Hl']; subst.
  cbn [items_loop]. assert (Hskip : items_loop n oc src x l = Ok y -> items_ok oc y) by (by apply IH).
  destruct Hx as [X1 X2 X3]. destruct (kind t); try exact Hskip.
  - intros ([p l1] & Hp & H)%bind_Ok. apply pipeline_item_ok in Hp as [Hp [Hl1 _]]; [|done].
    apply IH in H; [done|done|]. constructor; simpl; [|done..].
    apply Forall_app. split; [done|by constructor].
  - intros ([p l1] & Hp & H)%bind_Ok. apply task_item_ok in Hp as [Hp [Hl1 _]]; [|done].
    apply IH in H; [done|done|]. constructor; simpl; [done| |done].
    apply Forall_app. split; [done|by constructor].
  - destruct (function_item src l) as [f l1] eqn:Hp. intros H.
    apply function_item_ok in Hp as [Hp [Hl1 _]]; [|done].
    apply IH in H; [done|done|]. constructor; simpl; [done..|]. by apply Forall_app.
Qed.

End Builder.

Lemma fine_take src n l : Forall (token_fits src) l -> Forall (token_fits src) (take n l).
Proof. apply Forall_take. Qed.

(** Every IR the builder returns comes from items that satisfy the invariant. *)
Lemma build_items oc src ir :
  build_intent_ir oc src = Some (Ok ir) -> exists x, items_ok oc x /\ ir = summarize x.
Proof.
  unfold build_intent_ir. destruct (tokenize oc src _) as [r|] eqn:Et; [|done]. intros [= H].
  apply bind_Ok in H as ([n toks] & -> & (x & Hx & [= <-])%bind_Ok).
  apply tokenize_fits in Et. exists x. split; [|done].
  eapply items_loop_ok; [| |exact Hx]; [by apply fine_take|]. split; apply Forall_nil_2.
Qed.

(** * Every source is answered *)

(** What a part of the builder may return besides a value. *)
Definition builder_outcome {A} (oc : bool) (r : outcome CompileError A) : Prop :=
  match r with
  | Ok _ => True
  | Err e => Error.code e ∈ ["ERR_SYNTAX_PIPELINE"; "ERR_SYNTAX_STAGE"; "ERR_SYNTAX_TASK";
                             "ERR_MAX_TOKENS_EXCEEDED"]%string
  | Panic q => oc = true /\ q = ArithmeticOverflow
  end.

Lemma outcome_bind_ok {A B} oc (r : outcome CompileError A) (f : A -> outcome CompileError B) :
  builder_outcome oc r -> (forall a, builder_outcome oc (f a)) -> builder_outcome oc (r ≫= f).
Proof. destruct r; simpl; auto. Qed.

Lemma mul_u64_outcome oc a b : builder_outcome oc (mul_u64 oc a b).
Proof. unfold mul_u64. case_match; [done|]. by destruct oc. Qed.

Lemma add_u64_outcome oc a b : builder_outcome oc (add_u64 oc a b).
Proof. unfold add_u64. case_match; [done|]. by destruct oc. Qed.

Lemma block_header_outcome oc src code m1 m2 l :
  code ∈ ["ERR_SYNTAX_PIPELINE"; "ERR_SYNTAX_STAGE"; "ERR_SYNTAX_TASK"]%string ->
  builder_outcome oc (block_header src code m1 m2 l).
Proof.
  intros Hc. assert (forall m, @builder_outcome (list Z * list Token) oc (Err (simple code m))) as He.
  { intros m. simpl. rewrite !elem_of_cons in *. naive_solver. }
  unfold block_header. destruct l as [|t l]; [apply He|]. case_match; [|apply He].
  destruct l as [|u l]; [apply He|]. case_match; [done|apply He].
Qed.

Lemma stage_item_outcome oc src l : builder_outcome oc (stage_item oc src l).
Proof.
  unfold stage_item. apply outcome_bind_ok; [apply block_header_outcome; set_solver|].
  intros [n l1]. destruct (stage_loop _ _ _). apply outcome_bind_ok; [apply mul_u64_outcome|done].
Qed.

Lemma stages_loop_outcome n oc src acc b w l : builder_outcome oc (stages_loop n oc src acc b w l).
Proof.
  revert acc b w l. induction n as [|n IH]; intros acc b w l; [done|].
  destruct l as [|t l]; [done|]. cbn [stages_loop]. case_match; [done|]. case_match; [|apply IH].
  apply outcome_bind_ok; [apply stage_item_outcome|]. intros [s l1].
  apply outcome_bind_ok; [apply add_u64_outcome|]. intros b1.
  apply outcome_bind_ok; [apply add_u64_outcome|]. intros w1. apply IH.
Qed.

Lemma items_loop_outcome n oc src x l : builder_outcome oc (items_loop n oc src x l).
Proof.
  revert x l. induction n as [|n IH]; intros x l; [done|]. destruct l as [|t l]; [done|].
  cbn [items_loop]. pose proof (IH x l) as Hskip. destruct (kind t); try exact Hskip.
  - apply outcome_bind_ok; [|intros [p l1]; apply IH]. unfold pipeline_item.
    apply outcome_bind_ok; [apply block_header_outcome; set_solver|]. intros [m l1].
    apply outcome_bind_ok; [apply stages_loop_outcome|]. by intros [[[? ?] ?] ?].
  - apply outcome_bind_ok; [|intros [p l1]; apply IH]. unfold task_item.
    apply outcome_bind_ok; [apply block_header_outcome; set_solver|]. intros [m l1].
    destruct (task_loop _ _ _). apply outcome_bind_ok; [apply mul_u64_outcome|done].
  - destruct (function_item src l). apply IH.
Qed.

Lemma build_outcome oc src :
  exists r, build_intent_ir oc src = Some r /\ builder_outcome oc r.
Proof.
  unfold build_intent_ir.
  destruct (tokenize_result oc src (replicate IR_TOKENS empty_token)) as (r & -> & Hr).
  eexists. split; [reflexivity|]. destruct r as [[n toks]|e|q]; [| |done].
  - cbn [mbind outcome_bind]. set (l := take (Z.to_nat n) toks).
    pose proof (items_loop_outcome (length l) oc src (mkItems [] [] []) l) as Hi.
    by destruct (items_loop (length l) oc src (mkItems [] [] []) l).
  - destruct Hr as [[? _]|(_ & _ & _ & He & _)]; [done|]. simpl. rewrite He. set_solver.
Qed.

(** * The verification cannot fail *)

Lemma sum_by_le {A} (f g : A -> Z) l :
  Forall (fun x => f x <= g x) l -> sum_by f l <= sum_by g l.
Proof. unfold sum_by. induction 1; simpl; lia. Qed.

Lemma exact_pipeline_valid p : pipeline_ok true p -> total_wcet_ns p <= total_budget_ns p.
Proof.
  intros [_ Hs _ _ _ He]. destruct (He eq_refl) as [-> ->]. apply sum_by_le.
  eapply Forall_impl; [exact Hs|]. intros s Hso. rewrite (so_exact _ _ Hso eq_refl).
  pose proof (so_budget _ _ Hso) as Hb. unfold u64_ok in Hb.
  apply Z.div_le_upper_bound; lia.
Qed.

Lemma constraints_satisfied x :
  items_ok true x -> Forall (fun c => satisfied c = true) (constraints (summarize x)).
Proof.
  intros [Hp _ _]. cbn [constraints summarize]. induction Hp as [|p ps Hp _ IH]; [constructor|].
  cbn [map concat]. apply Forall_app. split; [|exact IH]. constructor.
  - simpl. by apply Z.leb_le, exact_pipeline_valid.
  - rewrite Forall_map. by apply Forall_true.
Qed.

Lemma filter_all {A} (P : A -> Prop) `{forall x, Decision (P x)} l : Forall P l -> filter P l = l.
Proof.
  induction 1 as [|x l Hx _ IH]; [done|]. rewrite filter_cons_True by done. by rewrite IH.
Qed.

(** The stages declared zero-copy. *)
Definition zero_copies (ps : list PipelineIr) : Z :=
  sum_by (fun p => len (filter (fun s => stage_zero_copy s = true) (stages p))) ps.

(** The verdict of an IR: one constraint for each pipeline and one for each
    zero-copy stage, of which those hold whose pipeline is within its budget, and
    all those of stages; the verdict is that all hold, which is that every pipeline is
    within its budget. *)
Definition consistent (ir : IntentIr) : Prop :=
  len (constraints ir) = len (pipelines ir) + zero_copies (pipelines ir) /\
  satisfied_constraints (verification ir) =
    len (filter (fun p => total_wcet_ns p <= total_budget_ns p) (pipelines ir)) + zero_copies (pipelines ir) /\
  status (verification ir) =
    (if decide (Forall (fun p => total_wcet_ns p <= total_budget_ns p) (pipelines ir)) then bytes "PASS" else bytes "FAIL") /\
  Forall (fun p => pipe_valid p = (total_wcet_ns p <=? total_budget_ns p)) (pipelines ir).

Lemma zero_copies_cons p ps :
  zero_copies (p :: ps) = len (filter (fun s => stage_zero_copy s = true) (stages p)) + zero_copies ps.
Proof. done. Qed.

Lemma len_constraints ps : len (concat (map pipeline_constraints ps)) = len ps + zero_copies ps.
Proof.
  induction ps as [|p ps IH]; [done|]. cbn [map concat]. rewrite len_app, IH, zero_copies_cons.
  unfold pipeline_constraints. rewrite !len_cons. unfold len. rewrite length_map. lia.
Qed.

Lemma holding_constraints ps : len (filter (fun c => satisfied c = true) (concat (map pipeline_constraints ps))) =
  len (filter (fun p => total_wcet_ns p <= total_budget_ns p) ps) + zero_copies ps.
Proof.
  induction ps as [|p ps IH]; [done|]. cbn [map concat]. rewrite filter_app, len_app, IH, zero_copies_cons.
  unfold pipeline_constraints. rewrite !filter_cons.
  assert (F : forall l, filter (fun c => satisfied c = true) (map (zero_copy_constraint p) l) = map (zero_copy_constraint p) l).
  { intros l. apply filter_all, Forall_map. by apply Forall_true. }
  rewrite F.
  assert (D : satisfied (deadline_constraint p) = true <-> total_wcet_ns p <= total_budget_ns p) by apply Z.leb_le.
  unfold len. destruct (decide (satisfied _ = true)) as [H|H], (decide (total_wcet_ns p <= _)) as [H'|H'];
    cbn [length]; rewrite ?length_app; cbn [length]; rewrite ?length_map; tauto || lia.
Qed.

Lemma filter_full {A} (P : A -> Prop) `{forall x, Decision (P x)} l : len (filter P l) = len l <-> Forall P l.
Proof.
  split; [|intros H0; by rewrite (filter_all P l H0)]. intros H'. induction l as [|x l IH]; [constructor|].
  pose proof (length_filter P l). rewrite filter_cons in H'. unfold len in *. destruct (decide (P x)); simpl in *; [|lia].
  constructor; [done|apply IH; lia].
Qed.

Lemma summarize_consistent oc x : items_ok oc x -> consistent (summarize x).
Proof.
  intros [Hp _ _]. pose proof (len_constraints (i_pipelines x)) as Hl. pose proof (holding_constraints (i_pipelines x)) as Hh.
  split_and!; cbn [summarize verification satisfied_constraints constraints pipelines status]; [done|done| |].
  - rewrite Hl, Hh. pose proof (filter_full (fun p => total_wcet_ns p <= total_budget_ns p) (i_pipelines x)) as Hf.
    destruct (decide (Forall _ _)) as [H|H].
    + by rewrite (proj2 Hf H), Z.eqb_refl.
    + rewrite (proj2 (Z.eqb_neq _ _)); [done|]. intros E. apply H, Hf. lia.
  - eapply Forall_impl; [exact Hp|]. intros p Hpo. apply Hpo.
Qed.

(** The same, where the sums are exact: every stage's worst case is four fifths
    of its budget, the totals are the sums over the stages, and everything is
    found satisfied. *)
Definition verified (ir : IntentIr) : Prop :=
  Forall (fun p =>
    Forall (fun s => stage_wcet_ns s = stage_budget_ns s * 8 / 10) (stages p) /\
    total_budget_ns p = sum_by stage_budget_ns (stages p) /\
    total_wcet_ns p = sum_by stage_wcet_ns (stages p) /\ pipe_valid p = true) (pipelines ir) /\
  Forall (fun c => satisfied c = true) (constraints ir) /\ status (verification ir) = bytes "PASS".

(** C34: the builder ends and its verdict is what it says. Every source gives an IR,
    or one of four diagnostics, or, in a build that checks overflow, an overflow
    panic. The IR has a constraint for each pipeline and each zero-copy stage, and
    passes exactly when every pipeline's worst case is within its budget; and in a
    build that checks overflow the totals are the exact sums over the stages, and it always passes: no
    source can declare a pipeline it rejects. *)
Theorem intent_ir_verified oc src :
  exists r, build_intent_ir oc src = Some r /\ builder_outcome oc r /\
    forall ir, r = Ok ir -> consistent ir /\ (oc = true -> verified ir).
Proof.
  destruct (build_outcome oc src) as (r & Hr & Ho). exists r. split_and!; [done..|].
  intros ir ->. apply build_items in Hr as (x & Hx & ->). split; [by eapply summarize_consistent|].
  intros ->. pose proof (constraints_satisfied x Hx) as Hc. split_and!; [|done|].
  - cbn [pipelines summarize]. destruct Hx as [Hp _ _]. eapply Forall_impl; [exact Hp|].
    intros p Hpo. destruct (po_exact _ _ Hpo eq_refl). split_and!; [|done..|].
    + eapply Forall_impl; [apply Hpo|]. intros s Hs. by apply Hs.
    + rewrite (po_valid _ _ Hpo). by apply Z.leb_le, exact_pipeline_valid.
  - cbn [verification summarize status constraints] in *. rewrite (filter_all _ _ Hc).
    by rewrite Z.eqb_refl.
Qed.

(** * The semantic diff *)

Lemma concat_nil {A B} (f : A -> list B) l :
  concat (map f l) = [] <-> Forall (fun x => f x = []) l.
Proof.
  induction l as [|x l IH]; [done|]. cbn [map concat]. rewrite Forall_cons, <-IH.
  split; [by intros [? ?]%app_nil | by intros [-> ->]].
Qed.

Lemma diff_field_nil {A} `{EqDecision A} e f (show : A -> list Z) a b :
  diff_field e f show a b = [] <-> a = b.
Proof. unfold diff_field. by case_bool_decide. Qed.

(** [x] is the first of [l] with its name, and [P] holds of it and [y]. *)
Definition matched {A} (name_of : A -> list Z) (P : A -> A -> Prop) (l : list A) (y : A) : Prop :=
  exists x, find_by name_of (name_of y) l = Some x /\ P x y.

Definition same_stage (x y : StageIr) : Prop :=
  stage_core x = stage_core y /\ stage_budget_ns x = stage_budget_ns y /\
  stage_zero_copy x = stage_zero_copy y.

Definition same_pipeline (x y : PipelineIr) : Prop :=
  total_budget_ns x = total_budget_ns y /\
  Forall (matched stage_name same_stage (stages x)) (stages y).

Definition same_task (x y : TaskIr) : Prop :=
  task_core x = task_core y /\ task_budget_ns x = task_budget_ns y.

Definition same_function (a : IntentIr) (y : FunctionIr) : Prop :=
  forall x, find_by fn_name (fn_name y) (functions a) = Some x ->
    fn_estimated_wcet_ns x = fn_estimated_wcet_ns y.

Lemma diff_stage_nil pipe x y : diff_stage pipe x y = [] <-> same_stage x y.
Proof.
  unfold diff_stage, same_stage. rewrite !app_nil, !diff_field_nil. done.
Qed.

Lemma diff_pipeline_nil a y :
  diff_pipeline a y = [] <-> matched pipe_name same_pipeline (pipelines a) y.
Proof.
  unfold diff_pipeline, matched. destruct (find_by _ _ _) as [x|].
  - rewrite app_nil, diff_field_nil, concat_nil. unfold same_pipeline.
    assert (E : forall s, diff_stages x y s = [] <-> matched stage_name same_stage (stages x) s).
    { intros s. unfold diff_stages, matched. destruct (find_by _ _ _) as [z|].
      - rewrite diff_stage_nil. naive_solver.
      - naive_solver. }
    rewrite (Forall_iff _ _ _ E). naive_solver.
  - naive_solver.
Qed.

Lemma diff_task_nil a y : diff_task a y = [] <-> matched task_name same_task (tasks a) y.
Proof.
  unfold diff_task, matched. destruct (find_by _ _ _) as [x|]; [|naive_solver].
  rewrite app_nil, !diff_field_nil. unfold same_task. naive_solver.
Qed.

Lemma diff_function_nil a y : diff_function a y = [] <-> same_function a y.
Proof.
  unfold diff_function, same_function. destruct (find_by _ _ _) as [x|]; [|naive_solver].
  rewrite diff_field_nil. naive_solver.
Qed.

Lemma diff_nil a b :
  changes (semantic_diff a b) = [] <->
  Forall (matched pipe_name same_pipeline (pipelines a)) (pipelines b) /\
  Forall (matched task_name same_task (tasks a)) (tasks b) /\
  Forall (same_function a) (functions b).
Proof.
  cbn [semantic_diff changes]. rewrite !app_nil, !concat_nil.
  rewrite (Forall_iff _ _ _ (diff_pipeline_nil a)), (Forall_iff _ _ _ (diff_task_nil a)),
    (Forall_iff _ _ _ (diff_function_nil a)). done.
Qed.

Lemma find_by_unique {A} (name_of : A -> list Z) l x :
  NoDup (map name_of l) -> x ∈ l -> find_by name_of (name_of x) l = Some x.
Proof.
  intros Hn Hx. unfold find_by. induction l as [|y l IH]; [by apply not_elem_of_nil in Hx|].
  cbn [map] in Hn. apply NoDup_cons in Hn as [Hy Hn]. cbn [find].
  apply elem_of_cons in Hx as [<-|Hx]; [by unfold bytes_eqb; rewrite bool_decide_eq_true_2|].
  unfold bytes_eqb at 1. case_bool_decide as E; [|by apply IH].
  destruct Hy. rewrite E. apply list_elem_of_In, in_map. by apply list_elem_of_In.
Qed.

(** The names of an IR are unique. *)
Definition unique_names (a : IntentIr) : Prop :=
  NoDup (map pipe_name (pipelines a)) /\ NoDup (map task_name (tasks a)) /\
  NoDup (map fn_name (functions a)) /\
  Forall (fun p => NoDup (map stage_name (stages p))) (pipelines a).

(** The semantic diff is empty exactly when every pipeline, stage and task
    of the new program has a namesake in the old one with the same budget,
    core and zero-copy flag, and every function with a namesake has its cost;
    so an IR with unique names does not differ from itself, nor from what is
    left of it after any of its declarations are removed. *)
Theorem semantic_diff_meaning a b :
  (changes (semantic_diff a b) = [] <->
   Forall (matched pipe_name same_pipeline (pipelines a)) (pipelines b) /\
   Forall (matched task_name same_task (tasks a)) (tasks b) /\
   Forall (same_function a) (functions b)) /\
  (unique_names a -> pipelines b ⊆ pipelines a -> tasks b ⊆ tasks a ->
   functions b ⊆ functions a -> changes (semantic_diff a b) = []).
Proof.
  split; [apply diff_nil|]. intros (H1 & H2 & H3 & H4) Hp Ht Hf. apply diff_nil. split_and!.
  - apply Forall_forall. intros p Hin%Hp. exists p. split; [by apply find_by_unique|].
    split; [done|]. rewrite Forall_forall in H4. apply Forall_forall. intros s Hs.
    exists s. split; [by apply find_by_unique; [apply H4|]|done].
  - apply Forall_forall. intros t Hin%Ht. exists t. by split; [apply find_by_unique|].
  - apply Forall_forall. intros f Hin%Hf x. rewrite find_by_unique by done. by intros [= ->].
Qed.

(** * The JSON text *)

Definition jname (s : list Z) : json := JStr s.
Definition jnum_opt (o : option Z) : json := match o with Some n => JNum n | None => JNull end.
Definition jname_opt (o : option (list Z)) : json :=
  match o with Some s => JStr s | None => JNull end.
Definition key (k : string) (v : json) : list Z * json := (bytes k, v).

Definition stage_value (s : StageIr) : json :=
  JObj [key "name" (JStr (stage_name s)); key "core" (JNum (stage_core s));
        key "budget_ns" (JNum (stage_budget_ns s)); key "wcet_ns" (JNum (stage_wcet_ns s));
        key "zero_copy" (JBool (stage_zero_copy s)); key "input" (jname_opt (stage_input s));
        key "output" (jname_opt (stage_output s)); key "hardware" (jname_opt (stage_hardware s));
        key "domain" (JStr (domain_str (stage_domain s)))].

Definition pipeline_value (p : PipelineIr) : json :=
  JObj [key "name" (JStr (pipe_name p)); key "total_budget_ns" (JNum (total_budget_ns p));
        key "total_wcet_ns" (JNum (total_wcet_ns p)); key "valid" (JBool (pipe_valid p));
        key "stages" (JArr (map stage_value (stages p)))].

Definition task_value (t : TaskIr) : json :=
  JObj [key "name" (JStr (task_name t)); key "core" (jnum_opt (task_core t));
        key "budget_ns" (jnum_opt (task_budget_ns t)); key "wcet_ns" (JNum (task_wcet_ns t));
        key "zero_copy" (JBool (task_zero_copy t)); key "inputs" (JArr (map JStr (task_inputs t)));
        key "outputs" (JArr (map JStr (task_outputs t)));
        key "domain" (JStr (domain_str (task_domain t)))].

Definition function_value (f : FunctionIr) : json :=
  JObj [key "name" (JStr (fn_name f)); key "params" (JArr (map JStr (fn_params f)));
        key "return_type" (JStr (fn_return_type f));
        key "declared_wcet_ns" (jnum_opt (fn_declared_wcet_ns f));
        key "estimated_wcet_ns" (JNum (fn_estimated_wcet_ns f));
        key "has_precondition" (JBool (fn_has_precondition f));
        key "has_postcondition" (JBool (fn_has_postcondition f))].

Definition constraint_value (c : ConstraintIr) : json :=
  JObj [key "target" (JStr (target c)); key "kind" (JStr (con_kind c));
        key "required" (JStr (required c)); key "provided" (JStr (provided c));
        key "satisfied" (JBool (satisfied c)); key "reason" (JStr (reason c))].

Definition verification_value (v : VerificationSummary) : json :=
  JObj [key "status" (JStr (status v)); key "total_constraints" (JNum (total_constraints v));
        key "satisfied_constraints" (JNum (satisfied_constraints v));
        key "pipeline_deadline_met" (JBool (pipeline_deadline_met v));
        key "zero_copy_verified" (JBool (zero_copy_verified v))].

(** The JSON value of an IR. *)
Definition json_of (ir : IntentIr) : json :=
  JObj [key "version" (JStr (version ir)); key "module" (JStr (module_name ir));
        key "pipelines" (JArr (map pipeline_value (pipelines ir)));
        key "tasks" (JArr (map task_value (tasks ir)));
        key "functions" (JArr (map function_value (functions ir)));
        key "constraints" (JArr (map constraint_value (constraints ir)));
        key "verification" (verification_value (verification ir))].

(** ** The text is that of the value *)

Lemma print_arr {A} (f : A -> json) (g : A -> list Z) l :
  Forall (fun x => print (f x) = g x) l -> print (JArr (map f l)) = jarr (map g l).
Proof.
  intros H. cbn [print]. unfold jarr. do 3 f_equal. rewrite map_map.
  induction H as [|x l Hx _ IH]; [done|]. cbn [map]. by rewrite Hx, IH.
Qed.

Lemma print_text s : print (JStr s) = jtext s.
Proof. done. Qed.

Lemma print_bool b : print (JBool b) = jbool b.
Proof. done. Qed.

Lemma print_opt (o : option Z) : print (jnum_opt o) = jopt show_Z o.
Proof. by destruct o. Qed.

Lemma print_name_opt (o : option (list Z)) : print (jname_opt o) = jopt jtext o.
Proof. by destruct o. Qed.

Lemma print_domain d : print (JStr (domain_str d)) = quote (domain_str d).
Proof. by destruct d. Qed.

Lemma print_obj fs ts :
  Forall2 (fun f t => print_field f = t) fs ts -> print (JObj fs) = jobj ts.
Proof.
  intros H. change (print (JObj fs)) with (123 :: join 44 (map print_field fs) ++ [125]).
  unfold jobj. do 3 f_equal. induction H as [|f t fs ts Hf _ IH]; [done|]. cbn [map].
  by rewrite Hf, IH.
Qed.

(** The keys need no escapes. *)
Lemma print_key k v t :
  concat (map Json.escape_byte (bytes k)) = bytes k -> print v = t ->
  print_field (key k v) = jfield k t.
Proof.
  intros Hk Hv. unfold print_field, key, jfield, string_text, quote. cbn [fst snd].
  by rewrite Hk, Hv.
Qed.

Create HintDb json discriminated.
#[local] Hint Resolve print_text print_bool print_opt print_name_opt print_domain : json.

Ltac print_object :=
  apply print_obj; repeat (constructor; [apply print_key; [reflexivity|auto with json]|]); constructor.

Lemma print_texts l : print (JArr (map JStr l)) = jarr (map jtext l).
Proof. apply print_arr, Forall_true. done. Qed.
#[local] Hint Resolve print_texts : json.

Lemma print_num n : print (JNum n) = show_Z n.
Proof. done. Qed.
#[local] Hint Resolve print_num : json.

Lemma print_stage s : print (stage_value s) = stage_json s.
Proof. print_object. Qed.
#[local] Hint Resolve print_stage : json.

Lemma print_stages l : print (JArr (map stage_value l)) = jarr (map stage_json l).
Proof. apply print_arr, Forall_true. apply print_stage. Qed.
#[local] Hint Resolve print_stages : json.

Lemma print_pipelines l : print (JArr (map pipeline_value l)) = jarr (map pipeline_json l).
Proof. apply print_arr, Forall_true. intros p. print_object. Qed.

Lemma print_tasks l : print (JArr (map task_value l)) = jarr (map task_json l).
Proof. apply print_arr, Forall_true. intros t. print_object. Qed.

Lemma print_functions l : print (JArr (map function_value l)) = jarr (map function_json l).
Proof. apply print_arr, Forall_true. intros f. print_object. Qed.

Lemma print_constraints l : print (JArr (map constraint_value l)) = jarr (map constraint_json l).
Proof. apply print_arr, Forall_true. intros c. print_object. Qed.
#[local] Hint Resolve print_pipelines print_tasks print_functions print_constraints : json.

(** The version and the status are printed without escapes. *)
Definition unescaped (s : list Z) : Prop := quote s = jtext s.

Lemma print_ir ir :
  unescaped (version ir) -> unescaped (status (verification ir)) -> print (json_of ir) = to_json ir.
Proof.
  intros Hv Hs. assert (Hver : print (verification_value (verification ir)) =
    verification_json (verification ir)).
  { apply print_obj. constructor; [apply print_key; [reflexivity|by rewrite Hs]|].
    repeat (constructor; [apply print_key; [reflexivity|auto with json]|]). constructor. }
  apply print_obj. constructor; [apply print_key; [reflexivity|by rewrite Hv]|].
  repeat (constructor; [apply print_key; [reflexivity|auto with json]|]). constructor.
Qed.

(** ** The value of a built IR is well formed *)

Lemma name_text s : name_ok s -> text_ok s.
Proof.
  intros H. eapply Forall_impl; [exact H|]. intros b Hb. left. unfold name_byte in Hb.
  apply orb_true_iff in Hb as [Hb|Hb%Z.eqb_eq]; [|lia].
  unfold is_dotted_byte, is_ident_byte, is_ascii_alphanumeric, is_ascii_alphabetic,
    is_ascii_lowercase, is_ascii_uppercase, is_ascii_digit in Hb.
  rewrite !orb_true_iff, !in_range_spec, !Z.eqb_eq in Hb. lia.
Qed.

Lemma text_app s t : text_ok (s ++ t) <-> text_ok s /\ text_ok t.
Proof. apply Forall_app. Qed.

Lemma digits_text s : digits s -> text_ok s.
Proof.
  intros H. eapply Forall_impl; [exact H|]. intros b Hb. left. unfold is_ascii_digit in Hb.
  apply in_range_spec in Hb. lia.
Qed.

Lemma show_text n : text_ok (show_Z n).
Proof.
  unfold show_Z. assert (forall m, text_ok (dec_digits 20 m [])) as Hd.
  { intros m. apply digits_text, dec_digits_digits. constructor. }
  case_match; [|apply Hd]. constructor; [lia|apply Hd].
Qed.

(** A literal of printable characters. *)
Definition printable (s : list Z) : bool := forallb (fun b => 32 <=? b) s.

Lemma printable_text s : printable s = true -> text_ok s.
Proof.
  unfold printable. rewrite forallb_forall. intros H. apply Forall_forall. intros b Hb. left.
  apply Z.leb_le, H. by apply list_elem_of_In.
Qed.

Lemma u64_num n : u64_ok n -> 0 <= n < 10 ^ 20.
Proof. unfold u64_ok. lia. Qed.

Lemma all_ok_map {A} (f : A -> json) l : Forall (fun x => json_ok (f x)) l -> all_ok (map f l).
Proof. by induction 1. Qed.

Lemma names_ok l : Forall name_ok l -> all_ok (map JStr l).
Proof. intros H. apply all_ok_map. eapply Forall_impl; [exact H|]. apply name_text. Qed.

Lemma domain_text d : text_ok (domain_str d).
Proof. apply printable_text. by destruct d. Qed.

Lemma opt_name o : opt_ok name_ok o -> json_ok (jname_opt o).
Proof. destruct o; [apply name_text|done]. Qed.

(** ** The number of constraints is bounded by the number of tokens *)

Lemma stages_loop_count oc src n acc b w l ss b' w' r :
  Forall (token_fits src) l -> stages_loop n oc src acc b w l = Ok (ss, b', w', r) ->
  (length ss + length r <= length acc + length l)%nat.
Proof.
  revert acc b w l. induction n as [|n IH]; intros acc b w l Hl; [by intros [= <- _ _ <-]|].
  destruct l as [|t l]; [by intros [= <- _ _ <-]|]. cbn [stages_loop].
  destruct (is_kind t TokenKind.RBrace); [by intros [= <- _ _ <-]|].
  inversion Hl as [|? ? Ht Hl']; subst. destruct (is_kind t TokenKind.Stage).
  - intros ([s l1] & Hs & (b1 & Hb & (w1 & Hw & H)%bind_Ok)%bind_Ok)%bind_Ok.
    apply stage_item_ok in Hs as [_ [Hl1 Hlen]]; [|done].
    apply IH in H; [|done]. rewrite length_app in H. simpl in *. lia.
  - intros H. apply IH in H; [|done]. simpl. lia.
Qed.

Definition heft (ps : list PipelineIr) : nat :=
  foldr (fun p n => (S (length (stages p)) + n)%nat) O ps.

Lemma heft_snoc ps p : heft (ps ++ [p]) = (heft ps + S (length (stages p)))%nat.
Proof. unfold heft. induction ps as [|q ps IH]; cbn [app foldr]; [lia|]. rewrite IH. lia. Qed.

Lemma pipeline_item_count oc src l p r :
  Forall (token_fits src) l -> pipeline_item oc src l = Ok (p, r) ->
  (length (stages p) + length r <= length l)%nat.
Proof.
  intros Hl. unfold pipeline_item. intros ([n l1] & Hh & H)%bind_Ok.
  apply (block_header_ok src) in Hh as [_ [Hl1 Hlen]]; [|done].
  apply bind_Ok in H as ([[[ss b] w] l2] & Hs & [= <- <-]).
  apply stages_loop_count in Hs; [|done]. cbn [stages].
  assert (length (skip_rbrace l2) <= length l2)%nat.
  { unfold skip_rbrace. destruct l2; [done|]. case_match; simpl; lia. }
  simpl in Hs. lia.
Qed.

Lemma items_loop_count oc src n x l y :
  Forall (token_fits src) l -> items_loop n oc src x l = Ok y ->
  (heft (i_pipelines y) <= heft (i_pipelines x) + length l)%nat.
Proof.
  revert x l. induction n as [|n IH]; intros x l Hl; [intros [= <-]; lia|].
  destruct l as [|t l]; [intros [= <-]; lia|]. inversion Hl as [|? ? Ht Hl']; subst.
  cbn [items_loop length].
  assert (Hskip : items_loop n oc src x l = Ok y ->
    (heft (i_pipelines y) <= heft (i_pipelines x) + S (length l))%nat).
  { intros H%IH; [lia|done]. }
  destruct (kind t); try exact Hskip.
  - intros ([p l1] & Hp & H)%bind_Ok. pose proof (pipeline_item_count _ _ _ _ _ Hl' Hp).
    apply pipeline_item_ok in Hp as [_ [Hl1 _]]; [|done].
    apply IH in H; [|done]. cbn [i_pipelines] in H. rewrite heft_snoc in H. lia.
  - intros ([p l1] & Hp & H)%bind_Ok. apply task_item_ok in Hp as [_ [Hl1 ?]]; [|done].
    apply IH in H; [|done]. cbn [i_pipelines] in H. lia.
  - destruct (function_item src l) as [f l1] eqn:Hp. intros H.
    apply function_item_ok in Hp as [_ [Hl1 ?]]; [|done].
    apply IH in H; [|done]. cbn [i_pipelines] in H. lia.
Qed.

Lemma constraints_count x :
  (length (constraints (summarize x)) <= heft (i_pipelines x))%nat.
Proof.
  cbn [constraints summarize]. induction (i_pipelines x) as [|p ps IH]; [done|].
  cbn [map concat heft foldr]. rewrite length_app. unfold pipeline_constraints at 1.
  cbn [length]. rewrite length_map. fold (heft ps).
  pose proof (length_filter (fun s => stage_zero_copy s = true) (stages p)). lia.
Qed.

Lemma build_items_count oc src ir :
  build_intent_ir oc src = Some (Ok ir) ->
  exists x, items_ok oc x /\ ir = summarize x /\ len (constraints ir) <= 4096.
Proof.
  unfold build_intent_ir.
  destruct (tokenize_result oc src (replicate IR_TOKENS empty_token)) as (r & Et & Hr).
  rewrite Et. intros [= H]. apply bind_Ok in H as ([n toks] & -> & (x & Hx & [= <-])%bind_Ok).
  apply tokenize_fits in Et. pose proof (fine_take src (Z.to_nat n) toks Et) as Hf.
  exists x. split_and!; [|done|].
  - eapply items_loop_ok; [exact Hf| |exact Hx]. split; apply Forall_nil_2.
  - apply items_loop_count in Hx; [|done]. pose proof (constraints_count x) as Hc.
    rewrite length_take in Hx. cbn [i_pipelines] in Hx. change (heft []) with O in Hx. destruct Hr as (ts & eof & _ & Hn & _).
    rewrite len_replicate in Hn. change (Z.of_nat IR_TOKENS) with 4096 in Hn. unfold len. lia.
Qed.

(** ** The fuel of the loops is enough *)

Lemma bind_ext {E A B} (r : outcome E A) (f g : A -> outcome E B) :
  (forall x, r = Ok x -> f x = g x) -> (r ≫= f) = (r ≫= g).
Proof. destruct r; cbn; auto. Qed.

Lemma stages_loop_fuel n oc src acc b w l :
  Forall (token_fits src) l -> (length l <= n)%nat ->
  stages_loop n oc src acc b w l = stages_loop (length l) oc src acc b w l.
Proof.
  assert (forall n m acc b w l, Forall (token_fits src) l -> (length l <= n)%nat ->
    (length l <= m)%nat -> stages_loop n oc src acc b w l = stages_loop m oc src acc b w l);
    [|eauto].
  clear. intros n. induction n as [|n IH]; intros [|m] acc b w [|t l] Hl Hn Hm;
    try done; simpl in Hn, Hm; try lia.
  inversion Hl; subst. cbn [stages_loop]. case_match; [done|]. case_match; [|apply IH; [done|lia..]].
  apply bind_ext. intros [s r] [_ [Hr Hlen]]%stage_item_ok; [|done].
  do 2 (apply bind_ext; intros ? _). apply IH; [done|lia..].
Qed.

(** The outer loop, which starts the inner one with the tokens it has. *)
Lemma items_loop_fuel n oc src x l :
  Forall (token_fits src) l -> (length l <= n)%nat ->
  items_loop n oc src x l = items_loop (length l) oc src x l.
Proof.
  assert (forall n m x l, Forall (token_fits src) l -> (length l <= n)%nat ->
    (length l <= m)%nat -> items_loop n oc src x l = items_loop m oc src x l); [|eauto].
  clear. intros n. induction n as [|n IH]; intros [|m] x [|t l] Hl Hn Hm;
    try done; simpl in Hn, Hm; try lia.
  inversion Hl; subst. cbn [items_loop]. case_match; try (apply IH; [done|lia..]).
  - apply bind_ext. intros [p r] [_ [Hr Hlen]]%pipeline_item_ok; [|done]. apply IH; [done|lia..].
  - apply bind_ext. intros [p r] [_ [Hr Hlen]]%task_item_ok; [|done]. apply IH; [done|lia..].
  - destruct (function_item src l) as [f r] eqn:Ef.
    apply function_item_ok in Ef as [_ [Hr Hlen]]; [|done]. apply IH; [done|lia..].
Qed.

(** ** Well formed values *)

Lemma str_ok s : text_ok s -> json_ok (JStr s).
Proof. done. Qed.
Lemma name_str_ok s : name_ok s -> json_ok (JStr s).
Proof. apply name_text. Qed.
Lemma num_ok n : u64_ok n -> json_ok (JNum n).
Proof. apply u64_num. Qed.
Lemma bool_ok b : json_ok (JBool b).
Proof. done. Qed.
Lemma arr_ok l : all_ok l -> json_ok (JArr l).
Proof. done. Qed.
Lemma small_num_ok n : 0 <= n <= 4096 -> json_ok (JNum n).
Proof. intros. simpl. lia. Qed.
Lemma core_num n : 0 <= n <= 3 -> json_ok (JNum n).
Proof. intros. apply small_num_ok. lia. Qed.
Lemma u64_opt_ok o : opt_ok u64_ok o -> json_ok (jnum_opt o).
Proof. destruct o; [apply num_ok|done]. Qed.
Lemma u8_opt_ok o : opt_ok in_u8 o -> json_ok (jnum_opt o).
Proof. destruct o; [|done]. intros H. simpl in H. unfold in_u8 in H. apply small_num_ok. lia. Qed.

#[local] Hint Resolve str_ok name_str_ok num_ok bool_ok arr_ok small_num_ok core_num u64_opt_ok
  u8_opt_ok names_ok domain_text opt_name show_text : json.

Ltac fields :=
  unfold stage_value, pipeline_value, task_value, function_value, constraint_value,
    verification_value, json_of;
  match goal with |- json_ok (JObj ?l) => change (fields_ok l) end;
  repeat (split; [by apply printable_text|split; [auto with json|]]); try exact I.

Lemma stage_value_ok oc s : stage_ok oc s -> json_ok (stage_value s).
Proof. intros [H1 H2 H3 H4 _ H6 H7 H8]. fields. Qed.

Lemma pipeline_value_ok oc p : pipeline_ok oc p -> json_ok (pipeline_value p).
Proof.
  intros [H1 H2 H3 H4 _ _].
  assert (all_ok (map stage_value (stages p))); [|fields].
  apply all_ok_map. eapply Forall_impl; [exact H2|]. apply stage_value_ok.
Qed.

Lemma task_value_ok t : task_ok t -> json_ok (task_value t).
Proof. intros [H1 H2 H3 H4 H5 H6]. fields. Qed.

Lemma function_value_ok f : function_ok f -> json_ok (function_value f).
Proof.
  intros (s & Hs & ->). fields; [by apply str_ok, printable_text|by apply u64_opt_ok|].
  by apply num_ok.
Qed.

Lemma constraint_value_ok c :
  text_ok (target c) -> text_ok (con_kind c) -> text_ok (required c) -> text_ok (provided c) ->
  text_ok (reason c) -> json_ok (constraint_value c).
Proof. intros. fields. Qed.

Lemma ns_text n : text_ok (ns n).
Proof. apply text_app. split; [apply show_text|by apply printable_text]. Qed.

Lemma pipeline_constraints_ok oc p :
  pipeline_ok oc p -> Forall (fun c => json_ok (constraint_value c)) (pipeline_constraints p).
Proof.
  intros [H1 H2 _ _ _ _]. apply name_text in H1. constructor.
  - apply constraint_value_ok; cbn [target con_kind required provided reason deadline_constraint];
      try (by apply printable_text); try apply ns_text;
      (apply text_app; split; [by apply printable_text|]); [done|apply ns_text].
  - apply Forall_map, Forall_forall. intros s [_ Hs]%list_elem_of_filter.
    rewrite Forall_forall in H2. pose proof (name_text _ (so_name _ _ (H2 s Hs))).
    apply constraint_value_ok; cbn [target con_kind required provided reason zero_copy_constraint];
      try (by apply printable_text).
    apply text_app. split; [done|]. apply text_app. split; [by apply printable_text|done].
Qed.

Lemma verification_value_ok x :
  len (constraints (summarize x)) <= 4096 -> json_ok (verification_value (verification (summarize x))).
Proof.
  intros Hn. cbn [verification summarize constraints] in *.
  match goal with |- context [filter ?P ?l] =>
    assert (0 <= len (filter P l) <= 4096) by
      (pose proof (len_nonneg (filter P l)); pose proof (length_filter P l); unfold len in *; lia) end.
  fields. case_match; by apply str_ok, printable_text.
Qed.

Lemma built_value_ok oc x :
  items_ok oc x -> len (constraints (summarize x)) <= 4096 -> json_ok (json_of (summarize x)).
Proof.
  intros [H1 H2 H3] Hn. pose proof (verification_value_ok x Hn) as Hv.
  assert (A1 : all_ok (map pipeline_value (pipelines (summarize x)))).
  { apply all_ok_map. eapply Forall_impl; [exact H1|]. apply pipeline_value_ok. }
  assert (A2 : all_ok (map task_value (tasks (summarize x)))).
  { apply all_ok_map. eapply Forall_impl; [exact H2|]. apply task_value_ok. }
  assert (A3 : all_ok (map function_value (functions (summarize x)))).
  { apply all_ok_map. eapply Forall_impl; [exact H3|]. apply function_value_ok. }
  assert (A4 : all_ok (map constraint_value (constraints (summarize x)))).
  { apply all_ok_map. cbn [constraints summarize]. clear -H1.
    induction H1 as [|p ps Hp _ IH]; [constructor|]. cbn [map concat].
    apply Forall_app. split; [by eapply pipeline_constraints_ok|done]. }
  fields; by apply str_ok, printable_text.
Qed.

(** C29: the JSON text of the IR of any source reads back as the value of that
    IR: nothing in a name, a number or a constraint breaks the text. *)
Theorem intent_ir_json_roundtrip oc src ir :
  build_intent_ir oc src = Some (Ok ir) -> parse (to_json ir) = Some (json_of ir).
Proof.
  intros (x & Hx & -> & Hn)%build_items_count. rewrite <-print_ir.
  - apply parse_print. by eapply built_value_ok.
  - done.
  - unfold unescaped. cbn [verification summarize status]. by case_match.
Qed.

(** * Witnesses *)

Example sample_ir_built : exists ir, build_intent_ir true sample_source = Some (Ok ir).
Proof. eexists. vm_compute. reflexivity. Qed.

Example intent_ir_json_roundtrip_witness :
  exists ir, build_intent_ir true sample_source = Some (Ok ir) /\
    parse (to_json ir) = Some (json_of ir) /\ len (to_json ir) = 1282.
Proof.
  eexists. split; [vm_compute; reflexivity|]. split; [|vm_compute; reflexivity].
  apply (intent_ir_json_roundtrip true sample_source). vm_compute. reflexivity.
Defined.

Example intent_ir_verified_witness :
  exists ir, build_intent_ir true sample_source = Some (Ok ir) /\ verified ir.
Proof.
  destruct (intent_ir_verified true sample_source) as (r & Hr & _ & Hv).
  destruct r as [ir|e|q]; [|vm_compute in Hr; discriminate..].
  exists ir. split; [exact Hr|]. apply (Hv ir eq_refl). reflexivity.
Defined.

(** The sample without its task and its function. *)
Definition trimmed (a : IntentIr) : IntentIr :=
  mkIr (version a) (module_name a) (pipelines a) [] [] (constraints a) (verification a).

Example semantic_diff_meaning_witness :
  exists ir, build_intent_ir true sample_source = Some (Ok ir) /\
    changes (semantic_diff ir (trimmed ir)) = [].
Proof.
  eexists. split; [vm_compute; reflexivity|].
  refine (proj2 (semantic_diff_meaning _ _) _ _ _ _).
  - split_and!; match goal with |- ?P => apply (bool_decide_unpack P) end; vm_compute; exact I.
  - cbn [trimmed pipelines]. intros p Hp. exact Hp.
  - intros p Hp. inversion Hp.
  - intros p Hp. inversion Hp.
Defined.

(** In an unchecked build three stages of a third of the largest budget wrap
    the total, and the pipeline is rejected. *)
Definition huge_source : list Z :=
  bytes "pipeline P { stage A { budget 6148914691236517206ns } stage B { budget 6148914691236517206ns } stage C { budget 6148914691236517206ns } }".

Example wrapped_totals_fail :
  (match build_intent_ir false huge_source with
   | Some (Ok ir) => Some (map pipe_valid (pipelines ir), status (verification ir))
   | _ => None
   end) = Some ([false], bytes "FAIL") /\
  build_intent_ir true huge_source = Some (Panic ArithmeticOverflow).
Proof. split; vm_compute; reflexivity. Qed.
