(* ===== verification/KernelVm.v ===== *)
(** The px64 machine of the kernel (kernel/src/lang.rs): the second
    implementation of the instruction set of vm.rs, with smaller tables, a
    watchdog on the time-stamp counter, and natives that act on the kernel: the
    serial console, the frame slots, the rings and the network.

    The machine's borrowed slices and the script's arguments are the record
    [program] of VmState.v. A run works on the struct, on the shared state of the
    cores (Pipeline.v), and on two locals, the time limit and the instruction
    count. What the hardware and the other cores contribute is the record [env]:
    [tsc e n k] is the [k]-th reading of the counter in round [n] of the loop. *)

From S2P Require Import Prelude RustStd Isa Token Error Crc VmState VmExec.
From S2P Require Import Vfs Tsc Ring Nic Gpu Net Pipeline.
Local Open Scope Z_scope.

(** * The machine *)

Record PX64VM : Set := mkPX64 {
  ip : Z;
  regs : list Z;
  call_stack : list Z;
  frame_stack : list (list Z);
  call_sp : Z;
  deadline_stack : list Z;
  dl_sp : Z;
  array_slots : list Z;
  array_lens : list Z;
  array_bases : list Z;
  struct_slots : list Z;
  struct_field_counts : list Z;
  struct_bases : list Z;
  table_lens : list Z;
  table_bases : list Z;
  spill_slots : list Z;
}.

(** Field updates. *)
Definition set_ip (m : PX64VM) (v : Z) : PX64VM := mkPX64 v (regs m) (call_stack m) (frame_stack
  m) (call_sp m) (deadline_stack m) (dl_sp m) (array_slots m) (array_lens m) (array_bases m)
  (struct_slots m) (struct_field_counts m) (struct_bases m) (table_lens m) (table_bases m)
  (spill_slots m).
Definition set_regs (m : PX64VM) (v : list Z) : PX64VM := mkPX64 (ip m) v (call_stack m)
  (frame_stack m) (call_sp m) (deadline_stack m) (dl_sp m) (array_slots m) (array_lens m)
  (array_bases m) (struct_slots m) (struct_field_counts m) (struct_bases m) (table_lens m)
  (table_bases m) (spill_slots m).
Definition set_call_stack (m : PX64VM) (v : list Z) : PX64VM := mkPX64 (ip m) (regs m) v
  (frame_stack m) (call_sp m) (deadline_stack m) (dl_sp m) (array_slots m) (array_lens m)
  (array_bases m) (struct_slots m) (struct_field_counts m) (struct_bases m) (table_lens m)
  (table_bases m) (spill_slots m).
Definition set_frame_stack (m : PX64VM) (v : list (list Z)) : PX64VM := mkPX64 (ip m) (regs m)
  (call_stack m) v (call_sp m) (deadline_stack m) (dl_sp m) (array_slots m) (array_lens m)
  (array_bases m) (struct_slots m) (struct_field_counts m) (struct_bases m) (table_lens m)
  (table_bases m) (spill_slots m).
Definition set_call_sp (m : PX64VM) (v : Z) : PX64VM := mkPX64 (ip m) (regs m) (call_stack m)
  (frame_stack m) v (deadline_stack m) (dl_sp m) (array_slots m) (array_lens m) (array_bases m)
  (struct_slots m) (struct_field_counts m) (struct_bases m) (table_lens m) (table_bases m)
  (spill_slots m).
Definition set_deadline_stack (m : PX64VM) (v : list Z) : PX64VM := mkPX64 (ip m) (regs m)
  (call_stack m) (frame_stack m) (call_sp m) v (dl_sp m) (array_slots m) (array_lens m)
  (array_bases m) (struct_slots m) (struct_field_counts m) (struct_bases m) (table_lens m)
  (table_bases m) (spill_slots m).
Definition set_dl_sp (m : PX64VM) (v : Z) : PX64VM := mkPX64 (ip m) (regs m) (call_stack m)
  (frame_stack m) (call_sp m) (deadline_stack m) v (array_slots m) (array_lens m) (array_bases
  m) (struct_slots m) (struct_field_counts m) (struct_bases m) (table_lens m) (table_bases m)
  (spill_slots m).
Definition set_array_slots (m : PX64VM) (v : list Z) : PX64VM := mkPX64 (ip m) (regs m)
  (call_stack m) (frame_stack m) (call_sp m) (deadline_stack m) (dl_sp m) v (array_lens m)
  (array_bases m) (struct_slots m) (struct_field_counts m) (struct_bases m) (table_lens m)
  (table_bases m) (spill_slots m).
Definition set_array_lens (m : PX64VM) (v : list Z) : PX64VM := mkPX64 (ip m) (regs m)
  (call_stack m) (frame_stack m) (call_sp m) (deadline_stack m) (dl_sp m) (array_slots m) v
  (array_bases m) (struct_slots m) (struct_field_counts m) (struct_bases m) (table_lens m)
  (table_bases m) (spill_slots m).
Definition set_array_bases (m : PX64VM) (v : list Z) : PX64VM := mkPX64 (ip m) (regs m)
  (call_stack m) (frame_stack m) (call_sp m) (deadline_stack m) (dl_sp m) (array_slots m)
  (array_lens m) v (struct_slots m) (struct_field_counts m) (struct_bases m) (table_lens m)
  (table_bases m) (spill_slots m).
Definition set_struct_slots (m : PX64VM) (v : list Z) : PX64VM := mkPX64 (ip m) (regs m)
  (call_stack m) (frame_stack m) (call_sp m) (deadline_stack m) (dl_sp m) (array_slots m)
  (array_lens m) (array_bases m) v (struct_field_counts m) (struct_bases m) (table_lens m)
  (table_bases m) (spill_slots m).
Definition set_struct_field_counts (m : PX64VM) (v : list Z) : PX64VM := mkPX64 (ip m) (regs m)
  (call_stack m) (frame_stack m) (call_sp m) (deadline_stack m) (dl_sp m) (array_slots m)
  (array_lens m) (array_bases m) (struct_slots m) v (struct_bases m) (table_lens m) (table_bases
  m) (spill_slots m).
Definition set_struct_bases (m : PX64VM) (v : list Z) : PX64VM := mkPX64 (ip m) (regs m)
  (call_stack m) (frame_stack m) (call_sp m) (deadline_stack m) (dl_sp m) (array_slots m)
  (array_lens m) (array_bases m) (struct_slots m) (struct_field_counts m) v (table_lens m)
  (table_bases m) (spill_slots m).
Definition set_table_lens (m : PX64VM) (v : list Z) : PX64VM := mkPX64 (ip m) (regs m)
  (call_stack m) (frame_stack m) (call_sp m) (deadline_stack m) (dl_sp m) (array_slots m)
  (array_lens m) (array_bases m) (struct_slots m) (struct_field_counts m) (struct_bases m) v
  (table_bases m) (spill_slots m).
Definition set_table_bases (m : PX64VM) (v : list Z) : PX64VM := mkPX64 (ip m) (regs m)
  (call_stack m) (frame_stack m) (call_sp m) (deadline_stack m) (dl_sp m) (array_slots m)
  (array_lens m) (array_bases m) (struct_slots m) (struct_field_counts m) (struct_bases m)
  (table_lens m) v (spill_slots m).
Definition set_spill_slots (m : PX64VM) (v : list Z) : PX64VM := mkPX64 (ip m) (regs m)
  (call_stack m) (frame_stack m) (call_sp m) (deadline_stack m) (dl_sp m) (array_slots m)
  (array_lens m) (array_bases m) (struct_slots m) (struct_field_counts m) (struct_bases m)
  (table_lens m) (table_bases m) v.

(** [PX64VM::new]; the borrowed slices are in [program]. *)
Definition kernel_vm_new : PX64VM := {|
  ip := 0;
  regs := replicate 20 0;
  call_stack := replicate 8 0;
  frame_stack := replicate 8 (replicate 16 0);
  call_sp := 0;
  deadline_stack := replicate 8 0;
  dl_sp := 0;
  array_slots := replicate 256 0;
  array_lens := replicate 8 0;
  array_bases := replicate 8 0;
  struct_slots := replicate 256 0;
  struct_field_counts := replicate 8 0;
  struct_bases := replicate 8 0;
  table_lens := replicate 8 0;
  table_bases := replicate 8 0;
  spill_slots := replicate 32 0;
|}.

(** * What surrounds a run *)

(** The counter, the status port of the display, the addresses of the frame
    slots, the core's number, what the other cores do to the shared state before
    round [n], the counter's frequency, whether the build checks overflow, and a
    bound on the readings a wait may take. *)
Record env : Type := mkEnv {
  tsc : Z -> Z -> Z;
  port : Z -> Z -> Z;
  slot_addr : Z -> Z;
  lapic_id : Z;
  others : Z -> machine -> machine;
  tsc_freq_hz : Z;
  oc : bool;
  spins : nat;
}.

(** A run, inside its loop: the machine (of type [M], as the kernel has two), the
    shared state, the console, and the locals [timeout_tsc] and [steps]. *)
Record run_of (M : Type) : Type := mkRun {
  vm_of : M;
  shared : machine;
  serial : list Z;
  timeout_tsc : Z;
  run_steps : Z;
}.
Arguments mkRun {_} _ _ _ _ _.
Arguments vm_of {_} _.
Arguments shared {_} _.
Arguments serial {_} _.
Arguments timeout_tsc {_} _.
Arguments run_steps {_} _.

Notation run_state := (run_of PX64VM).

Definition set_vm {M} (s : run_of M) (m : M) : run_of M :=
  mkRun m (shared s) (serial s) (timeout_tsc s) (run_steps s).
Definition set_shared {M} (s : run_of M) (w : machine) : run_of M :=
  mkRun (vm_of s) w (serial s) (timeout_tsc s) (run_steps s).
Definition set_timeout {M} (s : run_of M) (t : Z) : run_of M :=
  mkRun (vm_of s) (shared s) (serial s) t (run_steps s).
Definition serial_print {M} (s : run_of M) (t : list Z) : run_of M :=
  mkRun (vm_of s) (shared s) (serial s ++ t) (timeout_tsc s) (run_steps s).

(** A run stops with a diagnostic, or does not leave a wait. *)
Variant stop : Set := Fault (e : CompileError) | Spinning.

Notation kresult := (outcome stop).

Definition fault {A} (code message : string) : kresult A := Err (Fault (simple code message)).

(** [a + b] on [u64]. *)
Definition tsc_add (e : env) (a b : Z) : kresult Z :=
  if a + b <? 2 ^ 64 then Ok (a + b)
  else if oc e then Panic ArithmeticOverflow else Ok (as_u64 (a + b)).

(** * Registers *)

Definition reg (m : PX64VM) (r : Z) : Z := default 0 (getZ (regs m) r).

(** [if r < PX64_NUM_REGISTERS { self.regs[r] } else { d }]. *)
Definition reg_or (m : PX64VM) (r d : Z) : Z :=
  if r <? PX64_NUM_REGISTERS then reg m r else d.

(** [if r < PX64_NUM_REGISTERS { self.regs[r] = v }]. *)
Definition set_reg (m : PX64VM) (r v : Z) : PX64VM :=
  if r <? PX64_NUM_REGISTERS then set_regs m (setZ (regs m) r v) else m.

(** [if rd < N && rs1 < N { regs[rd] = f(regs[rs1]) }]. *)
Definition alu2 (m : PX64VM) (rd rs1 : Z) (f : Z -> Z) : PX64VM :=
  if (rd <? PX64_NUM_REGISTERS) && (rs1 <? PX64_NUM_REGISTERS)
  then set_reg m rd (f (reg m rs1)) else m.

(** [if rd < N && rs1 < N && rs2 < N { regs[rd] = f(regs[rs1], regs[rs2]) }]. *)
Definition alu3 (m : PX64VM) (rd rs1 rs2 : Z) (f : Z -> Z -> Z) : PX64VM :=
  if (rd <? PX64_NUM_REGISTERS) && (rs1 <? PX64_NUM_REGISTERS) && (rs2 <? PX64_NUM_REGISTERS)
  then set_reg m rd (f (reg m rs1) (reg m rs2)) else m.

(** [get_str_bytes]; the offset of a string is 24 bits wide. *)
Definition get_str_bytes (p : program) (val : Z) : option (list Z) :=
  if negb (Z.land val STR_TAG =? 0) then
    let offset := Z.shiftr (Z.land val 0x00FFFFFF00000000) 32 in
    let length := Z.land val 0xFFFFFFFF in
    if offset + length <=? len (str_pool p)
    then Some (sub (str_pool p) offset (offset + length))
    else None
  else if negb (Z.land val ARG_TAG =? 0) then getZ (args p) (Z.land val 0xFF)
  else None.

(** * Moves, constants and the ALU *)

Definition exec_MOV_IMM (m : PX64VM) (rd imm16 : Z) : PX64VM := set_reg m rd imm16.

Definition exec_LDC (p : program) (m : PX64VM) (rd imm16 : Z) : kresult PX64VM :=
  if len (const_pool p) <=? imm16 then
    fault "ERR_PX64_CONST_OUT_OF_BOUNDS" "Constant pool index out of bounds during LDC execution"
  else if rd <? PX64_NUM_REGISTERS then
    v ← idx (const_pool p) imm16; mret (set_reg m rd v)
  else mret m.

Definition exec_ADDI (m : PX64VM) (rd rs1 rs2 : Z) : PX64VM :=
  alu2 m rd rs1 (fun a => wrapping_add a rs2).
Definition exec_SUBI (m : PX64VM) (rd rs1 rs2 : Z) : PX64VM :=
  alu2 m rd rs1 (fun a => wrapping_sub a rs2).
Definition exec_AND (m : PX64VM) (rd rs1 rs2 : Z) : PX64VM := alu3 m rd rs1 rs2 Z.land.
Definition exec_OR (m : PX64VM) (rd rs1 rs2 : Z) : PX64VM := alu3 m rd rs1 rs2 Z.lor.
Definition exec_XOR (m : PX64VM) (rd rs1 rs2 : Z) : PX64VM := alu3 m rd rs1 rs2 Z.lxor.
Definition exec_SHL (m : PX64VM) (rd rs1 rs2 : Z) : PX64VM :=
  alu3 m rd rs1 rs2 (fun a b => wrapping_shl a (Z.land b 63)).
Definition exec_SHR (m : PX64VM) (rd rs1 rs2 : Z) : PX64VM :=
  alu3 m rd rs1 rs2 (fun a b => as_i64 (Z.shiftr (as_u64 a) (Z.land b 63))).

(** * Arrays: eight, with 256 elements between them *)

Definition exec_ARR_DEF (m : PX64VM) (rd imm16 : Z) : PX64VM :=
  if rd <? 8 then
    let m := set_array_lens m (setZ (array_lens m) rd imm16) in
    let base := sum_before (array_lens m) rd in
    let m := set_array_bases m (setZ (array_bases m) rd (as_u16 base)) in
    if base + imm16 <=? 256 then
      set_array_slots m (splice (array_slots m) base (replicate (Z.to_nat imm16) 0))
    else m
  else m.

Definition exec_ARR_LOAD (m : PX64VM) (rd rs1 rs2 : Z) : kresult PX64VM :=
  let i := reg_or m rs2 (-1) in
  if 8 <=? rs1 then fault "ERR_PX64_ARRAY_INVALID_ID" "Array ID is invalid"
  else
    max_len ← idx (array_lens m) rs1;
    if (i <? 0) || (max_len <=? i) then
      fault "ERR_PX64_ARRAY_OUT_OF_BOUNDS" "Array element access out of bounds"
    else
      base ← idx (array_bases m) rs1;
      if rd <? PX64_NUM_REGISTERS then
        v ← idx (array_slots m) (base + i); mret (set_reg m rd v)
      else mret m.

Definition exec_ARR_STORE (m : PX64VM) (rd rs1 rs2 : Z) : kresult PX64VM :=
  let i := reg_or m rs1 (-1) in
  let v := reg_or m rs2 0 in
  if 8 <=? rd then fault "ERR_PX64_ARRAY_INVALID_ID" "Array ID is invalid"
  else
    max_len ← idx (array_lens m) rd;
    if (i <? 0) || (max_len <=? i) then
      fault "ERR_PX64_ARRAY_OUT_OF_BOUNDS" "Array element access out of bounds"
    else
      base ← idx (array_bases m) rd;
      slots ← upd (array_slots m) (base + i) v;
      mret (set_array_slots m slots).

(** * Structs: eight, with 256 fields between them *)

Definition exec_STRUCT_DEF (m : PX64VM) (rd rs1 : Z) : PX64VM :=
  if rd <? 8 then
    let m := set_struct_field_counts m (setZ (struct_field_counts m) rd rs1) in
    let base := sum_before (struct_field_counts m) rd in
    set_struct_bases m (setZ (struct_bases m) rd base)
  else m.

Definition exec_STRUCT_LOAD (m : PX64VM) (rd rs1 rs2 : Z) : kresult PX64VM :=
  if (8 <=? rs1) || (default 0 (getZ (struct_field_counts m) rs1) <=? rs2) then
    fault "ERR_PX64_STRUCT_OUT_OF_BOUNDS" "Struct field offset out of bounds"
  else
    base ← idx (struct_bases m) rs1;
    v ← idx (struct_slots m) (base + rs2);
    mret (set_reg m rd v).

Definition exec_STRUCT_STORE (m : PX64VM) (rd rs1 rs2 : Z) : kresult PX64VM :=
  let v := reg_or m rs2 0 in
  if (8 <=? rd) || (default 0 (getZ (struct_field_counts m) rd) <=? rs1) then
    fault "ERR_PX64_STRUCT_OUT_OF_BOUNDS" "Struct field offset out of bounds"
  else
    base ← idx (struct_bases m) rd;
    slots ← upd (struct_slots m) (base + rs1) v;
    mret (set_struct_slots m slots).

(** * Constant tables: eight; the constant pool is indexed without a check *)

Definition exec_TBL_DEF (m : PX64VM) (rd rs1 rs2 : Z) : PX64VM :=
  if rd <? 8 then
    set_table_lens (set_table_bases m (setZ (table_bases m) rd rs1))
      (setZ (table_lens m) rd rs2)
  else m.

Definition exec_TBL_LOAD (p : program) (m : PX64VM) (rd rs1 rs2 : Z) : kresult PX64VM :=
  let i := reg_or m rs2 (-1) in
  if 8 <=? rs1 then fault "ERR_PX64_TABLE_INVALID_ID" "Const table ID is invalid"
  else
    max_len ← idx (table_lens m) rs1;
    if (i <? 0) || (max_len <=? i) then
      fault "ERR_PX64_TABLE_OUT_OF_BOUNDS" "Const table lookup index out of bounds"
    else
      base ← idx (table_bases m) rs1;
      v ← idx (const_pool p) (base + i);
      mret (set_reg m rd v).

(** * Assertions, calls and returns *)

Definition exec_ASSERT (m : PX64VM) (rd : Z) : kresult PX64VM :=
  if reg_or m rd 0 =? 0 then
    fault "ERR_PX64_ASSERTION_FAILED"
      "PulseLang assertion failed: condition evaluated to false (0)"
  else mret m.

Definition exec_CALL (m : PX64VM) (imm16 : Z) : kresult PX64VM :=
  if MAX_CALL_DEPTH <=? call_sp m then
    fault "ERR_PX64_STACK_OVERFLOW"
      "Call stack overflow: exceeded MAX_CALL_DEPTH limit (8 nested calls maximum, unbounded recursion prohibited)"
  else
    cs ← upd (call_stack m) (call_sp m) (as_u16 (ip m));
    fs ← upd (frame_stack m) (call_sp m) (sub (regs m) 0 16);
    mret (set_ip (set_call_sp (set_frame_stack (set_call_stack m cs) fs)
                   (call_sp m + 1)) imm16).

Definition exec_RET (m : PX64VM) : kresult (flow * PX64VM) :=
  if call_sp m =? 0 then mret (Break, m)
  else
    let m := set_call_sp m (call_sp m - 1) in
    let return_val := reg m 0 in
    return_ip ← idx (call_stack m) (call_sp m);
    frame ← idx (frame_stack m) (call_sp m);
    let m := set_regs m (splice (regs m) 0 frame) in
    mret (Next, set_ip (set_reg m 0 return_val) return_ip).

Definition exec_MOV_REG (m : PX64VM) (rd rs1 : Z) : PX64VM := alu2 m rd rs1 (fun a => a).

Definition exec_MOV_STR (m : PX64VM) (rd rs1 rs2 : Z) : PX64VM :=
  set_reg m rd (Z.lor (Z.lor STR_TAG (as_i64 (Z.shiftl rs1 32))) rs2).

Definition exec_ADD (m : PX64VM) (rd rs1 rs2 : Z) : PX64VM := alu3 m rd rs1 rs2 wrapping_add.
Definition exec_SUB (m : PX64VM) (rd rs1 rs2 : Z) : PX64VM := alu3 m rd rs1 rs2 wrapping_sub.
Definition exec_MUL (m : PX64VM) (rd rs1 rs2 : Z) : PX64VM := alu3 m rd rs1 rs2 wrapping_mul.

Definition exec_DIV (m : PX64VM) (rd rs1 rs2 : Z) : kresult PX64VM :=
  if (rd <? PX64_NUM_REGISTERS) && (rs1 <? PX64_NUM_REGISTERS) && (rs2 <? PX64_NUM_REGISTERS) then
    let denom := reg m rs2 in
    if denom =? 0 then
      fault "ERR_PX64_DIV_BY_ZERO" "Division by zero in px64 virtual register machine"
    else mret (set_reg m rd (wrapping_div (reg m rs1) denom))
  else mret m.

Definition exec_MOD (m : PX64VM) (rd rs1 rs2 : Z) : kresult PX64VM :=
  if (rd <? PX64_NUM_REGISTERS) && (rs1 <? PX64_NUM_REGISTERS) && (rs2 <? PX64_NUM_REGISTERS) then
    let denom := reg m rs2 in
    if denom =? 0 then
      fault "ERR_PX64_DIV_BY_ZERO" "Modulo by zero in px64 virtual register machine"
    else mret (set_reg m rd (wrapping_rem (reg m rs1) denom))
  else mret m.

(** * Comparisons *)

(** Both values denote strings, and the strings are equal. *)
Definition same_str (p : program) (v1 v2 : Z) : bool :=
  match get_str_bytes p v1, get_str_bytes p v2 with
  | Some b1, Some b2 => bytes_eqb b1 b2
  | _, _ => false
  end.

(** [(v & STR_TAG) != 0 || (v & ARG_TAG) != 0]. *)
Definition is_text (v : Z) : bool :=
  negb (Z.land v STR_TAG =? 0) || negb (Z.land v ARG_TAG =? 0).

Definition exec_CMP_EQ (p : program) (m : PX64VM) (rd rs1 rs2 : Z) : PX64VM :=
  alu3 m rd rs1 rs2 (fun v1 v2 =>
    if v1 =? v2 then 1
    else if is_text v1 && is_text v2 then b2z (same_str p v1 v2)
    else 0).

Definition exec_SPILL_STORE (m : PX64VM) (rd rs1 : Z) : PX64VM :=
  let val := reg_or m rs1 0 in
  if rd <? 32 then set_spill_slots m (setZ (spill_slots m) rd val) else m.

Definition exec_SPILL_LOAD (m : PX64VM) (rd rs1 : Z) : PX64VM :=
  let val := if rs1 <? 32 then default 0 (getZ (spill_slots m) rs1) else 0 in
  set_reg m rd val.

Definition exec_CMP_NE (p : program) (m : PX64VM) (rd rs1 rs2 : Z) : PX64VM :=
  alu3 m rd rs1 rs2 (fun v1 v2 =>
    if v1 =? v2 then 0
    else if is_text v1 && is_text v2 then b2z (negb (same_str p v1 v2))
    else 1).

Definition exec_STREQ (p : program) (m : PX64VM) (rd rs1 rs2 : Z) : PX64VM :=
  alu3 m rd rs1 rs2 (fun v1 v2 => if v1 =? v2 then 1 else b2z (same_str p v1 v2)).

Definition exec_CMP_LT (m : PX64VM) (rd rs1 rs2 : Z) : PX64VM :=
  alu3 m rd rs1 rs2 (fun a b => b2z (a <? b)).
Definition exec_CMP_LE (m : PX64VM) (rd rs1 rs2 : Z) : PX64VM :=
  alu3 m rd rs1 rs2 (fun a b => b2z (a <=? b)).
Definition exec_CMP_GT (m : PX64VM) (rd rs1 rs2 : Z) : PX64VM :=
  alu3 m rd rs1 rs2 (fun a b => b2z (b <? a)).
Definition exec_CMP_GE (m : PX64VM) (rd rs1 rs2 : Z) : PX64VM :=
  alu3 m rd rs1 rs2 (fun a b => b2z (b <=? a)).

(** * Jumps *)

Definition exec_JMP (m : PX64VM) (imm16 : Z) : PX64VM := set_ip m imm16.
Definition exec_JZ (m : PX64VM) (rd imm16 : Z) : PX64VM :=
  if (rd <? PX64_NUM_REGISTERS) && (reg m rd =? 0) then set_ip m imm16 else m.
Definition exec_JNZ (m : PX64VM) (rd imm16 : Z) : PX64VM :=
  if (rd <? PX64_NUM_REGISTERS) && negb (reg m rd =? 0) then set_ip m imm16 else m.

(** * Native calls

    A native returns the value for [rd] and the run it leaves. The reads of the
    second and third argument panic out of range, as in the library. *)

(** [if arg_reg > n { self.regs[arg_reg - n - 1] } else { d }]. *)
Definition arg_before (m : PX64VM) (arg_reg n d : Z) : kresult Z :=
  if n <? arg_reg then idx (regs m) (arg_reg - n - 1) else mret d.

(** The text that [NATIVE_PRINT] and [NATIVE_PRINTLN] print for a tagged value;
    [None] when they print nothing. The offset of a string keeps the sign of the
    value, so the sum with the length can overflow. *)
Definition tagged_text (e : env) (p : program) (v : Z) : kresult (option (list Z)) :=
  if negb (Z.land v ARG_TAG =? 0) then
    mret (match getZ (args p) (Z.land v 0xFF) with
          | Some s => if utf8_valid s then Some s else None
          | None => None
          end)
  else
    let raw := Z.land v (Z.lnot STR_TAG) in
    let offset := as_u64 (Z.shiftr raw 32) in
    let length := Z.land raw 0xFFFFFFFF in
    last ← tsc_add e offset length;
    if last <=? len (str_pool p) then
      s ← slice (str_pool p) offset last; mret (if utf8_valid s then Some s else None)
    else mret None.

Definition native_PRINT {M} (e : env) (p : program) (s : run_of M) (arg_val : Z)
    : kresult (run_of M) :=
  if is_text arg_val then
    t ← tagged_text e p arg_val;
    mret (match t with Some t => serial_print s t | None => s end)
  else mret (serial_print s (show_Z arg_val)).

Definition native_PRINTLN (e : env) (p : program) (s : run_state) (arg_reg arg_val : Z)
    : kresult run_state :=
  if is_text arg_val then
    t ← tagged_text e p arg_val;
    mret (match t with Some t => serial_print s (t ++ [10]) | None => s end)
  else if negb (arg_reg =? 0) || negb (arg_val =? 0) then
    mret (serial_print s (show_Z arg_val ++ [10]))
  else mret (serial_print s [10]).

(** [CONGESTION_RATE_PCT.store(arg_val as u8)]. *)
Definition native_NET_SET_RATE {M} (s : run_of M) (arg_val : Z) : run_of M :=
  let w := shared s in
  let c := ctl (net w) in
  let c := mkCtl (MIN_RTT_NS c) (LAST_RTT_NS c) (DELTA_DELAY_NS c) (as_u8 arg_val)
             (CONSECUTIVE_GOOD_FRAMES c) (TOTAL_PACKETS_SENT c) (TOTAL_FRAMES_DROPPED c) (TOTAL_ACKS_RECEIVED c) in
  set_shared s (set_net w (mkSender (packet_seq (net w)) (sink (net w)) c)).

Definition native_GPU_CAPTURE {M} (e : env) (n : Z) (s : run_of M) : Z * run_of M :=
  let w := shared s in
  let vblank := poll_vblank_edge (port e n) (fun k => tsc e n (2 + k)) 5 in
  let '(handle, v) := capture_frame_zero_copy (slot_addr e) (pool w) 0 1 vblank (tsc e n 20) in
  (slot_id handle, set_shared s (set_pool w v)).

(** The frame is the slot's first 1400 bytes; the sequence number is a local that
    starts at 1 in every call. The result of sending is ignored. *)
Definition native_NET_SEND (e : env) (n : Z) (s : run_state) (arg_val : Z) : kresult run_state :=
  let w := shared s in
  let slot_id := as_u8 arg_val mod NUM_FRAME_SLOTS in
  let now := tsc e n 2 in
  let data_slice := get_frame_slot_data (pool w) slot_id in
  let send_size := Z.min 1400 (len data_slice) in
  let handle := mkFrame slot_id 1 FRAME_WIDTH FRAME_HEIGHT FRAME_STRIDE (slot_addr e slot_id)
                  send_size 0x12345678 now now in
  deadline ← tsc_add e now (ns_to_tsc 50000000 (tsc_freq_hz e));
  let '(r, x) := stream_send_frame (slot_memory (slot_addr e) (pool w))
                   (fun k => tsc e n (3 + k)) (src_mac_of (sink (net w))) handle deadline
                   (mkSender 1 (sink (net w)) (ctl (net w))) in
  match r with
  | Panic k => Panic k
  | _ => mret (set_shared s (set_net w (mkSender (packet_seq (net w)) (sink x) (ctl x))))
  end.

Definition native_SCRIPT_ARG (arg_val : Z) : Z :=
  if (0 <=? arg_val) && (arg_val <? 8) then Z.lor ARG_TAG (Z.land arg_val 0xFF) else 0.

Definition native_UNWRAP (arg_val : Z) : kresult Z :=
  if negb (Z.land arg_val ERR_TAG =? 0) then
    fault "ERR_PX64_UNWRAP_FAILED"
      "PulseLang unwrap failed: called @unwrap() on an Err result value"
  else mret arg_val.

(** [while read_tsc_serialized() < target]: whether the wait ends within [fuel]
    readings, from reading [k] on. *)
Fixpoint spin_until (fuel : nat) (clock : Z -> Z) (k target : Z) : bool :=
  match fuel with
  | O => false
  | S fuel => if clock k <? target then spin_until fuel clock (k + 1) target else true
  end.

Definition native_BUSY_WAIT (e : env) (n : Z) (arg_val : Z) : kresult Z :=
  if 0 <? arg_val then
    target ← tsc_add e (tsc e n 2) (ns_to_tsc (as_u64 arg_val) (tsc_freq_hz e));
    if spin_until (spins e) (tsc e n) 3 target then mret 0 else Err Spinning
  else mret 0.

Definition native_RING_DEPTH (s : run_state) (arg_val : Z) : Z :=
  if arg_val =? 0 then as_i64 (ring_len RING_CAP (CAPTURE_TO_ENCODE_RING (shared s)))
  else if arg_val =? 1 then as_i64 (ring_len RING_CAP (ENCODE_TO_NET_RING (shared s)))
  else 0.

Definition native_MATH_MIN (m : PX64VM) (arg_reg a : Z) : kresult Z :=
  b ← arg_before m arg_reg 0 0; mret (Z.min a b).
Definition native_MATH_MAX (m : PX64VM) (arg_reg a : Z) : kresult Z :=
  b ← arg_before m arg_reg 0 0; mret (Z.max a b).
Definition native_MATH_CLAMP (m : PX64VM) (arg_reg v : Z) : kresult Z :=
  min_v ← arg_before m arg_reg 0 0;
  max_v ← arg_before m arg_reg 1 0;
  mret (Z.min (Z.max v min_v) max_v).
Definition native_CRC32 (m : PX64VM) (arg_reg arg_val : Z) : kresult Z :=
  let seed := as_u32 arg_val in
  val ← arg_before m arg_reg 0 0;
  mret (Z.lxor (frame_crc32 (Z_to_le 8 (as_u64 val))) seed).

(** [offset + 8] overflows when [offset] is within eight of [2^64]; the accesses
    that follow a wrap are out of range, so both builds panic. *)
Definition native_VRAM_READ (s : run_state) (arg_reg arg_val : Z) : kresult Z :=
  let slot_id := as_u64 arg_val mod NUM_FRAME_SLOTS in
  offset ← as_u64 <$> arg_before (vm_of s) arg_reg 0 0;
  let slot_data := get_frame_slot_data (pool (shared s)) slot_id in
  if 2 ^ 64 <=? offset + 8 then Panic ArithmeticOverflow
  else if offset + 8 <=? len slot_data then
    b ← slice slot_data offset (offset + 8); mret (as_i64 (le_to_Z b))
  else if offset + 4 <=? len slot_data then
    b ← slice slot_data offset (offset + 4); mret (as_i32 (le_to_Z b))
  else mret 0.

Definition native_VRAM_WRITE (s : run_state) (arg_reg arg_val : Z) : kresult run_state :=
  let slot_id := as_u64 arg_val mod NUM_FRAME_SLOTS in
  offset ← as_u64 <$> arg_before (vm_of s) arg_reg 0 0;
  val ← arg_before (vm_of s) arg_reg 1 0;
  let v := pool (shared s) in
  let slot_data := get_frame_slot_data v slot_id in
  if 2 ^ 64 <=? offset + 8 then Panic ArithmeticOverflow
  else if offset + 8 <=? len slot_data then
    slot_data ← blit slot_data offset (Z_to_le 8 (as_u64 val));
    mret (set_shared s (set_pool (shared s)
            (mkVram (scratch_buffer v) (scratch_len v) (setZ (frame_pool v) slot_id slot_data))))
  else mret s.

Definition fix_scale (m : PX64VM) (arg_reg n : Z) : kresult Z :=
  if n <? arg_reg then (fun q => Z.land q 63) <$> idx (regs m) (arg_reg - n - 1)
  else mret 16.

Definition native_FIX_TO_FIX (m : PX64VM) (arg_reg arg_val : Z) : kresult Z :=
  q ← fix_scale m arg_reg 0; mret (wrapping_shl arg_val q).
Definition native_FIX_TO_I64 (m : PX64VM) (arg_reg arg_val : Z) : kresult Z :=
  q ← fix_scale m arg_reg 0; mret (wrapping_shr arg_val q).
Definition native_FIX_MUL (m : PX64VM) (arg_reg arg_val : Z) : kresult Z :=
  b ← arg_before m arg_reg 0 0;
  q ← fix_scale m arg_reg 1;
  mret (wrapping_shr (wrapping_mul arg_val b) q).
Definition native_FIX_DIV (m : PX64VM) (arg_reg arg_val : Z) : kresult Z :=
  b ← arg_before m arg_reg 0 0;
  q ← fix_scale m arg_reg 1;
  if b =? 0 then fault "ERR_PX64_DIV_BY_ZERO" "Division by zero in fixed-point division"
  else mret (wrapping_div (wrapping_shl arg_val q) b).

(** ** The [match func_id] *)

Definition value (s : run_state) (r : kresult Z) : kresult (Z * run_state) := v ← r; mret (v, s).
Definition effect (v : Z) (r : kresult run_state) : kresult (Z * run_state) := s ← r; mret (v, s).

Definition native (e : env) (p : program) (n : Z) (s : run_state) (func_id arg_reg arg_val : Z)
    : kresult (Z * run_state) :=
  let m := vm_of s in
  if func_id =? NATIVE_PRINT then effect 0 (native_PRINT e p s arg_val)
  else if func_id =? NATIVE_PRINTLN then effect 0 (native_PRINTLN e p s arg_reg arg_val)
  else if func_id =? NATIVE_SYS_TSC then mret (as_i64 (tsc e n 2), s)
  else if func_id =? NATIVE_NET_RTT then mret (as_i64 (LAST_RTT_NS (ctl (net (shared s)))), s)
  else if func_id =? NATIVE_NET_SET_RATE then mret (0, native_NET_SET_RATE s arg_val)
  else if func_id =? NATIVE_GPU_CAPTURE then mret (native_GPU_CAPTURE e n s)
  else if func_id =? NATIVE_NET_SEND then effect 1 (native_NET_SEND e n s arg_val)
  else if func_id =? NATIVE_SCRIPT_ARGC then mret (len (args p), s)
  else if func_id =? NATIVE_SCRIPT_ARG then mret (native_SCRIPT_ARG arg_val, s)
  else if func_id =? NATIVE_TAG_OK then mret (Z.land arg_val (Z.lnot ERR_TAG), s)
  else if func_id =? NATIVE_TAG_ERR then
    mret (Z.lor ERR_TAG (Z.land arg_val (Z.lnot ERR_TAG)), s)
  else if func_id =? NATIVE_IS_OK then mret (b2z (Z.land arg_val ERR_TAG =? 0), s)
  else if func_id =? NATIVE_IS_ERR then mret (b2z (negb (Z.land arg_val ERR_TAG =? 0)), s)
  else if func_id =? NATIVE_UNWRAP then value s (native_UNWRAP arg_val)
  else if func_id =? NATIVE_STREQ then mret (0, s)
  else if func_id =? NATIVE_CORE_ID then mret (lapic_id e, s)
  else if func_id =? NATIVE_TSC_FREQ then mret (as_i64 (tsc_freq_hz e / 1000000), s)
  else if func_id =? NATIVE_UPTIME_NS then
    mret (as_i64 (tsc_to_ns (tsc e n 2) (tsc_freq_hz e)), s)
  else if func_id =? NATIVE_BUSY_WAIT then value s (native_BUSY_WAIT e n arg_val)
  else if func_id =? NATIVE_RING_DEPTH then mret (native_RING_DEPTH s arg_val, s)
  else if func_id =? NATIVE_MATH_MIN then value s (native_MATH_MIN m arg_reg arg_val)
  else if func_id =? NATIVE_MATH_MAX then value s (native_MATH_MAX m arg_reg arg_val)
  else if func_id =? NATIVE_MATH_ABS then mret (saturating_abs arg_val, s)
  else if func_id =? NATIVE_MATH_CLAMP then value s (native_MATH_CLAMP m arg_reg arg_val)
  else if func_id =? NATIVE_BIT_POPCNT then mret (count_ones (as_u64 arg_val), s)
  else if func_id =? NATIVE_BIT_LZCNT then mret (leading_zeros (as_u64 arg_val), s)
  else if func_id =? NATIVE_CRC32 then value s (native_CRC32 m arg_reg arg_val)
  else if func_id =? NATIVE_VRAM_READ then value s (native_VRAM_READ s arg_reg arg_val)
  else if func_id =? NATIVE_VRAM_WRITE then effect 0 (native_VRAM_WRITE s arg_reg arg_val)
  else if func_id =? NATIVE_FIX_TO_FIX then value s (native_FIX_TO_FIX m arg_reg arg_val)
  else if func_id =? NATIVE_FIX_TO_I64 then value s (native_FIX_TO_I64 m arg_reg arg_val)
  else if func_id =? NATIVE_FIX_MUL then value s (native_FIX_MUL m arg_reg arg_val)
  else if func_id =? NATIVE_FIX_DIV then value s (native_FIX_DIV m arg_reg arg_val)
  else mret (0, s).

Definition is_blocking_io (func_id : Z) : bool :=
  (func_id =? NATIVE_PRINT) || (func_id =? NATIVE_PRINTLN) || (func_id =? NATIVE_GPU_CAPTURE).

(** The time a blocking native took, from the reading before it to the one after
    it, is added to the limit. *)
Definition extend_timeout {M} (e : env) (n : Z) (s : run_of M) : run_of M :=
  let t_nat_spent := saturating_sub (tsc e n 30) (tsc e n 1) in
  set_timeout s (Z.min (timeout_tsc s + t_nat_spent) (2 ^ 64 - 1)).

Definition exec_CALL_NAT (e : env) (p : program) (n : Z) (s : run_state) (rd rs1 rs2 : Z)
    : kresult run_state :=
  let func_id := rs1 in
  let arg_reg := rs2 in
  let arg_val := reg_or (vm_of s) arg_reg 0 in
  '(ret, s) ← native e p n s func_id arg_reg arg_val;
  let s := if is_blocking_io func_id then extend_timeout e n s else s in
  mret (set_vm s (set_reg (vm_of s) rd ret)).

(** * Deadlines *)

Definition exec_WITHIN_START (e : env) (n : Z) (m : PX64VM) (rd : Z) : kresult PX64VM :=
  let budget_ns := if rd <? PX64_NUM_REGISTERS then as_u64 (reg m rd) else 500000 in
  deadline ← tsc_add e (tsc e n 1) (ns_to_tsc budget_ns (tsc_freq_hz e));
  if dl_sp m <? 8 then
    ds ← upd (deadline_stack m) (dl_sp m) deadline;
    mret (set_dl_sp (set_deadline_stack m ds) (dl_sp m + 1))
  else mret m.

Definition exec_WITHIN_END (m : PX64VM) : PX64VM :=
  if 0 <? dl_sp m then set_dl_sp m (dl_sp m - 1) else m.

Definition exec_DROP (e : env) (n : Z) (s : run_state) : kresult run_state :=
  let m := vm_of s in
  if 0 <? dl_sp m then
    dl ← idx (deadline_stack m) (dl_sp m - 1);
    mret (if dl <? tsc e n 1 then serial_print s drop_message else s)
  else mret s.

(** * The [match op] *)

Definition goes_on (r : kresult run_state) : kresult (flow * run_state) := s ← r; mret (Next, s).

(** An instruction that works on the machine alone. *)
Definition on_vm (s : run_state) (r : kresult PX64VM) : kresult (flow * run_state) :=
  m ← r; mret (Next, set_vm s m).

Definition exec (e : env) (p : program) (n : Z) (s : run_state) (op rd rs1 rs2 : Z)
    : kresult (flow * run_state) :=
  let imm16 := rs1 * 256 + rs2 in
  let m := vm_of s in
  if op =? PX64_OP_NOP then mret (Next, s)
  else if op =? PX64_OP_HALT then mret (Break, s)
  else if op =? PX64_OP_MOV_IMM then on_vm s (mret (exec_MOV_IMM m rd imm16))
  else if op =? PX64_OP_LDC then on_vm s (exec_LDC p m rd imm16)
  else if op =? PX64_OP_ADDI then on_vm s (mret (exec_ADDI m rd rs1 rs2))
  else if op =? PX64_OP_SUBI then on_vm s (mret (exec_SUBI m rd rs1 rs2))
  else if op =? PX64_OP_AND then on_vm s (mret (exec_AND m rd rs1 rs2))
  else if op =? PX64_OP_OR then on_vm s (mret (exec_OR m rd rs1 rs2))
  else if op =? PX64_OP_XOR then on_vm s (mret (exec_XOR m rd rs1 rs2))
  else if op =? PX64_OP_SHL then on_vm s (mret (exec_SHL m rd rs1 rs2))
  else if op =? PX64_OP_SHR then on_vm s (mret (exec_SHR m rd rs1 rs2))
  else if op =? PX64_OP_ARR_DEF then on_vm s (mret (exec_ARR_DEF m rd imm16))
  else if op =? PX64_OP_ARR_LOAD then on_vm s (exec_ARR_LOAD m rd rs1 rs2)
  else if op =? PX64_OP_ARR_STORE then on_vm s (exec_ARR_STORE m rd rs1 rs2)
  else if op =? PX64_OP_STRUCT_DEF then on_vm s (mret (exec_STRUCT_DEF m rd rs1))
  else if op =? PX64_OP_STRUCT_LOAD then on_vm s (exec_STRUCT_LOAD m rd rs1 rs2)
  else if op =? PX64_OP_STRUCT_STORE then on_vm s (exec_STRUCT_STORE m rd rs1 rs2)
  else if op =? PX64_OP_TBL_DEF then on_vm s (mret (exec_TBL_DEF m rd rs1 rs2))
  else if op =? PX64_OP_TBL_LOAD then on_vm s (exec_TBL_LOAD p m rd rs1 rs2)
  else if op =? PX64_OP_ASSERT then on_vm s (exec_ASSERT m rd)
  else if op =? PX64_OP_CALL then on_vm s (exec_CALL m imm16)
  else if op =? PX64_OP_RET then '(f, m) ← exec_RET m; mret (f, set_vm s m)
  else if op =? PX64_OP_MOV_REG then on_vm s (mret (exec_MOV_REG m rd rs1))
  else if op =? PX64_OP_MOV_STR then on_vm s (mret (exec_MOV_STR m rd rs1 rs2))
  else if op =? PX64_OP_ADD then on_vm s (mret (exec_ADD m rd rs1 rs2))
  else if op =? PX64_OP_SUB then on_vm s (mret (exec_SUB m rd rs1 rs2))
  else if op =? PX64_OP_MUL then on_vm s (mret (exec_MUL m rd rs1 rs2))
  else if op =? PX64_OP_DIV then on_vm s (exec_DIV m rd rs1 rs2)
  else if op =? PX64_OP_MOD then on_vm s (exec_MOD m rd rs1 rs2)
  else if op =? PX64_OP_CMP_EQ then on_vm s (mret (exec_CMP_EQ p m rd rs1 rs2))
  else if op =? PX64_OP_SPILL_STORE then on_vm s (mret (exec_SPILL_STORE m rd rs1))
  else if op =? PX64_OP_SPILL_LOAD then on_vm s (mret (exec_SPILL_LOAD m rd rs1))
  else if op =? PX64_OP_CMP_NE then on_vm s (mret (exec_CMP_NE p m rd rs1 rs2))
  else if op =? PX64_OP_STREQ then on_vm s (mret (exec_STREQ p m rd rs1 rs2))
  else if op =? PX64_OP_CMP_LT then on_vm s (mret (exec_CMP_LT m rd rs1 rs2))
  else if op =? PX64_OP_CMP_LE then on_vm s (mret (exec_CMP_LE m rd rs1 rs2))
  else if op =? PX64_OP_CMP_GT then on_vm s (mret (exec_CMP_GT m rd rs1 rs2))
  else if op =? PX64_OP_CMP_GE then on_vm s (mret (exec_CMP_GE m rd rs1 rs2))
  else if op =? PX64_OP_JMP then on_vm s (mret (exec_JMP m imm16))
  else if op =? PX64_OP_JZ then on_vm s (mret (exec_JZ m rd imm16))
  else if op =? PX64_OP_JNZ then on_vm s (mret (exec_JNZ m rd imm16))
  else if op =? PX64_OP_CALL_NAT then goes_on (exec_CALL_NAT e p n s rd rs1 rs2)
  else if op =? PX64_OP_WITHIN_START then on_vm s (exec_WITHIN_START e n m rd)
  else if op =? PX64_OP_WITHIN_END then on_vm s (mret (exec_WITHIN_END m))
  else if op =? PX64_OP_DROP then goes_on (exec_DROP e n s)
  else fault "ERR_PX64_INVALID_OPCODE" "Invalid px64 instruction opcode encountered".

(** * The loop *)

Definition wcet_exceeded : stop := Fault (simple "ERR_PX64_WCET_EXCEEDED"
  "Execution exceeded px64 WCET instruction step limit (infinite loop protection)").
Definition timeout_exceeded : stop := Fault (simple "ERR_PX64_TIMEOUT_EXCEEDED"
  "Execution exceeded wall-clock execution deadline (watchdog safety violation)").

(** The four bytes at [i]. *)
Definition fetch (p : program) (i : Z) : kresult (Z * Z * Z * Z) :=
  op ← idx (code p) i;
  rd ← idx (code p) (i + 1);
  rs1 ← idx (code p) (i + 2);
  rs2 ← idx (code p) (i + 3);
  mret (op, rd, rs1, rs2).

(** A round of the [while] loop: the condition, the two limits, one instruction.
    The other cores have run since the last round. The run is returned with an
    error too: what it printed stays printed. *)
Definition kernel_step (e : env) (p : program) (s : run_state) : run_state * kresult flow :=
  let n := run_steps s in
  let s := set_shared s (others e n (shared s)) in
  if len (code p) <? ip (vm_of s) + 4 then (s, Ok Break)
  else if timeout_tsc s <? tsc e n 0 then (s, Err timeout_exceeded)
  else if MAX_VM_STEPS <=? run_steps s then (s, Err wcet_exceeded)
  else
    let s := mkRun (vm_of s) (shared s) (serial s) (timeout_tsc s) (run_steps s + 1) in
    match fetch p (ip (vm_of s)) with
    | Ok (op, rd, rs1, rs2) =>
      let s := set_vm s (set_ip (vm_of s) (ip (vm_of s) + 4)) in
      match exec e p n s op rd rs1 rs2 with
      | Ok (f, s) => (s, Ok f)
      | Err x => (s, Err x)
      | Panic k => (s, Panic k)
      end
    | Err x => (s, Err x)
    | Panic k => (s, Panic k)
    end.

(** The checks after the loop. *)
Definition after_loop (e : env) (s : run_state) : kresult unit :=
  if timeout_tsc s <? tsc e (run_steps s) 0 then Err timeout_exceeded
  else if MAX_VM_STEPS <=? run_steps s then Err wcet_exceeded
  else mret tt.

(** The loop; [kernel_run_ends] (KernelSim.v) gives a fuel that does not run out. *)
Fixpoint kernel_loop (fuel : nat) (e : env) (p : program) (s : run_state)
    : option (run_state * kresult unit) :=
  match fuel with
  | O => None
  | S fuel =>
    match kernel_step e p s with
    | (s, Ok Next) => kernel_loop fuel e p s
    | (s, Ok Break) => Some (s, after_loop e s)
    | (s, Err x) => Some (s, Err x)
    | (s, Panic k) => Some (s, Panic k)
    end
  end.

(** Every round but the last counts a step, and there are [MAX_VM_STEPS] steps. *)
Definition LOOP_FUEL : nat := S (Z.to_nat MAX_VM_STEPS).

(** [PX64VM::run] on a new machine. *)
Definition kernel_run (e : env) (p : program) (w : machine) : option (run_state * kresult unit) :=
  match tsc_add e (tsc e (-1) 0) (ns_to_tsc MAX_SCRIPT_TIMEOUT_NS (tsc_freq_hz e)) with
  | Ok t => kernel_loop LOOP_FUEL e p (mkRun kernel_vm_new w [] t 0)
  | Err x => Some (mkRun kernel_vm_new w [] 0 0, Err x)
  | Panic k => Some (mkRun kernel_vm_new w [] 0 0, Panic k)
  end.
