(* ===== verification/KernelSim.v ===== *)
(** The kernel's px64 machine (KernelVm.v) refines the library's (Vm.v) on the
    programs that stay within what both offer: at most eight arrays, structs and
    tables with 256 slots, natives with the same meaning on both sides, and a
    run that meets its time limit. A run of the kernel's machine always ends. *)

From S2P Require Import Prelude RustStd Isa Token Error Crc VmState VmExec Vm VmRun.
From S2P Require Import Vfs Tsc Ring Nic Gpu Net Pipeline KernelVm.
Local Open Scope Z_scope.

(** * Portable instructions *)

(** A string value whose bits between the tag and the offset are clear, or
    whose length is more than the pool's. *)
Definition plain (p : program) (v : Z) : bool :=
  (Z.land v STR_TAG =? 0) || (Z.shiftr v 56 =? 64) || (len (str_pool p) <? Z.land v 0xFFFFFFFF).

Definition texts_agree (p : program) (v1 v2 : Z) : bool :=
  (v1 =? v2) || (plain p v1 && plain p v2).

(** An identifier of a table that is in both machines or in neither. *)
Definition common_id (i : Z) : bool := (i <? 8) || (16 <=? i).

(** An access at [i] is out of bounds, or within the smaller memory. *)
Definition common_slot (lens bases : list Z) (id i limit : Z) : bool :=
  (16 <=? id) || (i <? 0) || (default 0 (getZ lens id) <=? i)
  || (default 0 (getZ bases id) + i <? limit).

(** The text of [v] is printed by both, or by neither. *)
Definition common_text (p : program) (v : Z) : bool :=
  if negb (Z.land v ARG_TAG =? 0) then
    match getZ (args p) (Z.land v 0xFF) with Some s => utf8_valid s | None => true end
  else if negb (Z.land v STR_TAG =? 0) then Z.shiftr v 56 =? 64
  else true.

(** There is a text. *)
Definition has_text (p : program) (v : Z) : bool :=
  if negb (Z.land v ARG_TAG =? 0) then
    match getZ (args p) (Z.land v 0xFF) with Some _ => true | None => false end
  else if negb (Z.land v STR_TAG =? 0) then
    match VmState.get_str_bytes p v with Some s => utf8_valid s | None => false end
  else true.

(** The natives the two machines do not have in common. *)
Definition local_native (f : Z) : bool :=
  existsb (Z.eqb f)
    [NATIVE_SYS_TSC; NATIVE_NET_RTT; NATIVE_NET_SEND; NATIVE_STREQ; NATIVE_CORE_ID;
     NATIVE_TSC_FREQ; NATIVE_UPTIME_NS; NATIVE_BUSY_WAIT; NATIVE_RING_DEPTH; NATIVE_VRAM_READ;
     NATIVE_VRAM_WRITE; NATIVE_TERM_READ_KEY; NATIVE_TERM_SIZE; NATIVE_FILE_WRITE;
     NATIVE_FILE_EXISTS; NATIVE_STR_LEN; NATIVE_CHAR_AT].

Definition portable_native (p : program) (f v : Z) : bool :=
  if f =? NATIVE_PRINT then common_text p v
  else if f =? NATIVE_PRINTLN then common_text p v && has_text p v
  else if f =? NATIVE_SCRIPT_ARG then
    Bool.eqb ((0 <=? v) && (v <? 8)) ((0 <=? v) && (v <? len (args p)) && (v <? 256))
  else negb (local_native f).

(** The library's machine [m] is about to execute the instruction. *)
Definition portable (p : program) (m : vm) (op rd rs1 rs2 : Z) : bool :=
  let imm16 := rs1 * 256 + rs2 in
  if op =? PX64_OP_ARR_DEF then
    (16 <=? rd) || ((rd <? 8) && (sum_before (VmState.array_lens m) rd + imm16 <=? 256))
  else if op =? PX64_OP_ARR_LOAD then
    common_id rs1 &&
    common_slot (VmState.array_lens m) (VmState.array_bases m) rs1 (VmState.reg_or m rs2 (-1)) 256
  else if op =? PX64_OP_ARR_STORE then
    common_id rd &&
    common_slot (VmState.array_lens m) (VmState.array_bases m) rd (VmState.reg_or m rs1 (-1)) 256
  else if op =? PX64_OP_STRUCT_DEF then common_id rd
  else if op =? PX64_OP_STRUCT_LOAD then
    common_id rs1 &&
    common_slot (VmState.struct_field_counts m) (VmState.struct_bases m) rs1 rs2 256
  else if op =? PX64_OP_STRUCT_STORE then
    common_id rd &&
    common_slot (VmState.struct_field_counts m) (VmState.struct_bases m) rd rs1 256
  else if op =? PX64_OP_TBL_DEF then common_id rd
  else if op =? PX64_OP_TBL_LOAD then
    common_id rs1 &&
    common_slot (VmState.table_lens m) (VmState.table_bases m) rs1 (VmState.reg_or m rs2 (-1))
      (len (const_pool p))
  else if (op =? PX64_OP_CMP_EQ) || (op =? PX64_OP_CMP_NE) || (op =? PX64_OP_STREQ) then
    texts_agree p (VmState.reg m rs1) (VmState.reg m rs2)
  else if op =? PX64_OP_CALL_NAT then portable_native p rs1 (VmState.reg_or m rs2 0)
  else if op =? PX64_OP_WITHIN_START then
    (PX64_NUM_REGISTERS <=? rd) || (as_u64 (VmState.reg m rd) <? 2 ^ 40)
  else if op =? PX64_OP_DROP then VmState.dl_sp m =? 0
  else true.

Definition portable_at (p : program) (m : vm) : bool :=
  match Vm.fetch p (VmState.ip m) with
  | Ok (op, rd, rs1, rs2) => portable p m op rd rs1 rs2
  | _ => true
  end.

(** Every instruction of the run is portable. *)
Fixpoint portable_run (fuel : nat) (h : host) (p : program) (m : vm) : bool :=
  match fuel with
  | O => true
  | S fuel =>
    portable_at p m &&
    match Vm.step h p m with (m', Ok Next) => portable_run fuel h p m' | _ => true end
  end.

(** * The two states *)

(** The first [n] cells. *)
Notation cut n l := (take (Z.to_nat n) l).

Record sim (k : PX64VM) (m : vm) : Prop := {
  sim_ip : ip k = VmState.ip m;
  sim_regs : regs k = VmState.regs m;
  sim_call_stack : call_stack k = VmState.call_stack m;
  sim_frame_stack : frame_stack k = VmState.frame_stack m;
  sim_call_sp : call_sp k = VmState.call_sp m;
  sim_deadlines : len (deadline_stack k) = 8;
  sim_dl_sp : dl_sp k = VmState.dl_sp m;
  sim_array_slots : array_slots k = cut 256 (VmState.array_slots m);
  sim_array_lens : array_lens k = cut 8 (VmState.array_lens m);
  sim_array_bases : array_bases k = cut 8 (VmState.array_bases m);
  sim_struct_slots : struct_slots k = cut 256 (VmState.struct_slots m);
  sim_struct_counts : struct_field_counts k = cut 8 (VmState.struct_field_counts m);
  sim_struct_bases : struct_bases k = cut 8 (VmState.struct_bases m);
  sim_table_lens : table_lens k = cut 8 (VmState.table_lens m);
  sim_table_bases : table_bases k = cut 8 (VmState.table_bases m);
  sim_spill_slots : spill_slots k = VmState.spill_slots m;
}.

Lemma sim_new : sim kernel_vm_new VmState.new.
Proof. by constructor. Qed.

(** ** Lists and their first cells *)

Lemma len_cut {A} n (l : list A) : 0 <= n <= len l -> len (cut n l) = n.
Proof. intros [H0 H]. unfold len in *. rewrite length_take. lia. Qed.

Lemma getZ_cut {A} n (l : list A) i : i < n -> getZ (cut n l) i = getZ l i.
Proof. intros Hi. unfold getZ. case_decide; [|done]. apply lookup_take_lt. lia. Qed.

Lemma setZ_cut {A} n (l : list A) i (x : A) : i < n -> setZ (cut n l) i x = cut n (setZ l i x).
Proof. intros Hi. unfold setZ. case_decide; [|done]. by rewrite take_insert_lt by lia. Qed.

Lemma splice_cut {A} n (l : list A) i s :
  0 <= i -> i + len s <= n -> n <= len l -> splice (cut n l) i s = cut n (splice l i s).
Proof.
  intros Hi Hs Hn. pose proof (len_nonneg s).
  assert (H1 : len (cut n l) = n) by (apply len_cut; lia).
  assert (H2 : len (splice l i s) = len l) by (apply len_splice; lia).
  apply list_eq_getZ; [rewrite len_splice, (len_cut n (splice l i s)); lia|].
  rewrite len_splice, H1 by lia. intros k Hk. rewrite (getZ_cut n (splice l i s)) by lia.
  destruct (decide (i <= k < i + len s)).
  - replace k with (i + (k - i)) by lia. by rewrite !getZ_splice_in by lia.
  - rewrite !getZ_splice_out by lia. apply getZ_cut. lia.
Qed.

Lemma sum_before_cut n l i : i <= n -> sum_before (cut n l) i = sum_before l i.
Proof. intros Hi. unfold sum_before. by rewrite take_take, Nat.min_l by lia. Qed.

(** * Instructions on the machine *)

(** The two handlers agree. *)
Definition agree (rk : kresult PX64VM) (rl : result vm) : Prop :=
  match rl with
  | Ok m => exists k, rk = Ok k /\ sim k m
  | Err x => rk = Err (Fault x)
  | Panic q => rk = Panic q
  end.

Lemma agree_ret k m : sim k m -> agree (mret k) (mret m).
Proof. by exists k. Qed.

Lemma agree_err x y : agree (fault x y) (err x y).
Proof. done. Qed.

Lemma agree_if (b : bool) rk rk' rl rl' :
  (b = true -> agree rk rl) -> (b = false -> agree rk' rl') ->
  agree (if b then rk else rk') (if b then rl else rl').
Proof. destruct b; auto. Qed.

Lemma agree_idx {A} (l l' : list A) i f g :
  getZ l i = getZ l' i -> (forall x, getZ l i = Some x -> agree (f x) (g x)) ->
  agree (idx l i ≫= f) (idx l' i ≫= g).
Proof.
  intros E H. unfold idx in *. rewrite <-E. destruct (getZ l i) eqn:E'; [by apply H|done].
Qed.

Lemma agree_upd {A B} (l : list A) (l' : list B) i x x' f g :
  len l = len l' -> (forall y y', y = setZ l i x -> y' = setZ l' i x' -> agree (f y) (g y')) ->
  agree (upd l i x ≫= f) (upd l' i x' ≫= g).
Proof.
  intros E H. unfold upd. rewrite <-E. case_decide; [by apply H|done].
Qed.

Lemma agree_upd_cut {A} n (l : list A) i (x : A) f g :
  0 <= i < n -> n <= len l -> agree (f (cut n (setZ l i x))) (g (setZ l i x)) ->
  agree (upd (cut n l) i x ≫= f) (upd l i x ≫= g).
Proof.
  intros Hi Hn H. unfold upd. rewrite len_cut by lia.
  rewrite !decide_True by lia. cbn. by rewrite setZ_cut by lia.
Qed.

Ltac sim_set := let H := fresh in intros H; destruct H; intros; constructor; simpl; try done; try congruence.

Lemma sim_set_ip k m v : sim k m -> sim (set_ip k v) (VmState.set_ip m v).
Proof. sim_set. Qed.
Lemma sim_set_regs k m v : sim k m -> sim (set_regs k v) (VmState.set_regs m v).
Proof. sim_set. Qed.
Lemma sim_set_steps k m v : sim k m -> sim k (VmState.set_steps m v).
Proof. sim_set. Qed.
Lemma sim_set_output k m v : sim k m -> sim k (VmState.set_output m v).
Proof. sim_set. Qed.
Lemma sim_set_host_calls k m v : sim k m -> sim k (VmState.set_host_calls m v).
Proof. sim_set. Qed.
Lemma sim_set_spill k m v : sim k m -> sim (set_spill_slots k v) (VmState.set_spill_slots m v).
Proof. sim_set. Qed.
Lemma sim_set_array_slots k m v :
  sim k m -> sim (set_array_slots k (cut 256 v)) (VmState.set_array_slots m v).
Proof. sim_set. Qed.
Lemma sim_set_array_lens k m v :
  sim k m -> sim (set_array_lens k (cut 8 v)) (VmState.set_array_lens m v).
Proof. sim_set. Qed.
Lemma sim_set_array_bases k m v :
  sim k m -> sim (set_array_bases k (cut 8 v)) (VmState.set_array_bases m v).
Proof. sim_set. Qed.
Lemma sim_set_struct_slots k m v :
  sim k m -> sim (set_struct_slots k (cut 256 v)) (VmState.set_struct_slots m v).
Proof. sim_set. Qed.
Lemma sim_set_struct_counts k m v :
  sim k m -> sim (set_struct_field_counts k (cut 8 v)) (VmState.set_struct_field_counts m v).
Proof. sim_set. Qed.
Lemma sim_set_struct_bases k m v :
  sim k m -> sim (set_struct_bases k (cut 8 v)) (VmState.set_struct_bases m v).
Proof. sim_set. Qed.
Lemma sim_set_table_lens k m v :
  sim k m -> sim (set_table_lens k (cut 8 v)) (VmState.set_table_lens m v).
Proof. sim_set. Qed.
Lemma sim_set_table_bases k m v :
  sim k m -> sim (set_table_bases k (cut 8 v)) (VmState.set_table_bases m v).
Proof. sim_set. Qed.
Lemma sim_set_call k m a b c :
  sim k m ->
  sim (set_call_sp (set_frame_stack (set_call_stack k a) b) c)
      (VmState.set_call_sp (VmState.set_frame_stack (VmState.set_call_stack m a) b) c).
Proof. sim_set. Qed.
Lemma sim_set_call_sp k m c : sim k m -> sim (set_call_sp k c) (VmState.set_call_sp m c).
Proof. sim_set. Qed.
Lemma sim_set_dl_sp k m c : sim k m -> sim (set_dl_sp k c) (VmState.set_dl_sp m c).
Proof. sim_set. Qed.
Lemma sim_set_deadlines k m a b :
  sim k m -> len a = 8 -> sim (set_deadline_stack k a) (VmState.set_deadline_stack m b).
Proof. sim_set. Qed.

Create HintDb sim.
#[export] Hint Resolve sim_set_ip sim_set_regs sim_set_steps sim_set_output sim_set_host_calls
  sim_set_spill sim_set_array_slots sim_set_call sim_set_call_sp sim_set_dl_sp agree_ret agree_err : sim.

Section Handlers.
Context (p : program) (k : PX64VM) (m : vm) (Hs : sim k m) (Hm : vm_wf m).

Lemma sim_reg r : reg k r = VmState.reg m r.
Proof. unfold reg, VmState.reg. by rewrite (sim_regs k m Hs). Qed.

Lemma sim_reg_or r d : reg_or k r d = VmState.reg_or m r d.
Proof. unfold reg_or, VmState.reg_or. by rewrite sim_reg. Qed.

Lemma sim_set_reg r v : sim (set_reg k r v) (VmState.set_reg m r v).
Proof.
  unfold set_reg, VmState.set_reg. case_match; [|done]. rewrite (sim_regs k m Hs). auto with sim.
Qed.

Lemma sim_alu2 rd rs1 f : sim (alu2 k rd rs1 f) (VmExec.alu2 m rd rs1 f).
Proof.
  unfold alu2, VmExec.alu2. case_match; [|done]. rewrite sim_reg. apply sim_set_reg.
Qed.

Lemma sim_alu3_with rd rs1 rs2 f g :
  f (VmState.reg m rs1) (VmState.reg m rs2) = g (VmState.reg m rs1) (VmState.reg m rs2) ->
  sim (alu3 k rd rs1 rs2 f) (VmExec.alu3 m rd rs1 rs2 g).
Proof.
  intros E. unfold alu3, VmExec.alu3. case_match; [|done]. rewrite !sim_reg, E. apply sim_set_reg.
Qed.

Lemma sim_alu3 rd rs1 rs2 f : sim (alu3 k rd rs1 rs2 f) (VmExec.alu3 m rd rs1 rs2 f).
Proof. by apply sim_alu3_with. Qed.

Lemma LDC_agree rd i : agree (exec_LDC p k rd i) (VmExec.exec_LDC p m rd i).
Proof.
  unfold exec_LDC, VmExec.exec_LDC. apply agree_if; [done|intros _]. apply agree_if; [intros _|auto with sim].
  apply agree_idx; [done|]. intros v _. apply agree_ret, sim_set_reg.
Qed.

Lemma ASSERT_agree rd : agree (exec_ASSERT k rd) (VmExec.exec_ASSERT m rd).
Proof. unfold exec_ASSERT, VmExec.exec_ASSERT. rewrite sim_reg_or. apply agree_if; auto with sim. Qed.

Lemma DIV_agree rd rs1 rs2 : agree (exec_DIV k rd rs1 rs2) (VmExec.exec_DIV m rd rs1 rs2).
Proof.
  unfold exec_DIV, VmExec.exec_DIV. rewrite !sim_reg. apply agree_if; [intros _|auto with sim].
  apply agree_if; [auto with sim|intros _]. apply agree_ret, sim_set_reg.
Qed.

Lemma MOD_agree rd rs1 rs2 : agree (exec_MOD k rd rs1 rs2) (VmExec.exec_MOD m rd rs1 rs2).
Proof.
  unfold exec_MOD, VmExec.exec_MOD. rewrite !sim_reg. apply agree_if; [intros _|auto with sim].
  apply agree_if; [auto with sim|intros _]. apply agree_ret, sim_set_reg.
Qed.

Lemma CALL_agree i : agree (exec_CALL k i) (VmExec.exec_CALL m i).
Proof.
  unfold exec_CALL, VmExec.exec_CALL.
  rewrite (sim_call_sp k m Hs), (sim_call_stack k m Hs), (sim_frame_stack k m Hs), (sim_ip k m Hs),
    (sim_regs k m Hs).
  apply agree_if; [auto with sim|intros _]. apply agree_upd; [done|]. intros a ? -> ->.
  apply agree_upd; [done|]. intros b ? -> ->. apply agree_ret. auto with sim.
Qed.

Lemma SPILL_STORE_sim rd rs1 : sim (exec_SPILL_STORE k rd rs1) (VmExec.exec_SPILL_STORE m rd rs1).
Proof.
  unfold exec_SPILL_STORE, VmExec.exec_SPILL_STORE. rewrite sim_reg_or, (sim_spill_slots k m Hs).
  case_match; auto with sim.
Qed.

Lemma SPILL_LOAD_sim rd rs1 : sim (exec_SPILL_LOAD k rd rs1) (VmExec.exec_SPILL_LOAD m rd rs1).
Proof.
  unfold exec_SPILL_LOAD, VmExec.exec_SPILL_LOAD. rewrite (sim_spill_slots k m Hs). apply sim_set_reg.
Qed.

Lemma JZ_sim rd i : sim (exec_JZ k rd i) (VmExec.exec_JZ m rd i).
Proof. unfold exec_JZ, VmExec.exec_JZ. rewrite sim_reg. case_match; auto with sim. Qed.

Lemma JNZ_sim rd i : sim (exec_JNZ k rd i) (VmExec.exec_JNZ m rd i).
Proof. unfold exec_JNZ, VmExec.exec_JNZ. rewrite sim_reg. case_match; auto with sim. Qed.

Lemma WITHIN_END_sim : sim (exec_WITHIN_END k) (VmExec.exec_WITHIN_END m).
Proof.
  unfold exec_WITHIN_END, VmExec.exec_WITHIN_END. rewrite (sim_dl_sp k m Hs). case_match; auto with sim.
Qed.
End Handlers.

(** * Tables *)

Section Tables.
Context (p : program) (k : PX64VM) (m : vm) (Hs : sim k m) (Hm : vm_wf m).

Lemma common_id_cases i : common_id i = true -> i < 8 \/ 16 <= i.
Proof. unfold common_id. intros [H%Z.ltb_lt|H%Z.leb_le]%orb_true_iff; lia. Qed.

Lemma common_id_leb i : common_id i = true -> (8 <=? i) = (16 <=? i).
Proof. intros H%common_id_cases. destruct (Z.leb_spec 8 i), (Z.leb_spec 16 i); lia || done. Qed.

Lemma common_id_ltb i : common_id i = true -> (i <? 8) = (i <? 16).
Proof. intros H%common_id_cases. destruct (Z.ltb_spec i 8), (Z.ltb_spec i 16); lia || done. Qed.

Lemma common_slot_in lens bases id i limit n b :
  common_slot lens bases id i limit = true -> id < 16 ->
  getZ lens id = Some n -> getZ bases id = Some b -> 0 <= i < n -> b + i < limit.
Proof.
  unfold common_slot. intros H H1 Hn Hb Hi. rewrite Hn, Hb in H. simpl in H.
  rewrite (proj2 (Z.leb_gt 16 id) H1), (proj2 (Z.ltb_ge i 0)), (proj2 (Z.leb_gt n i)) in H by lia.
  by apply Z.ltb_lt in H.
Qed.

Lemma ARR_DEF_sim rd i :
  0 <= rd -> in_u16 i ->
  (16 <=? rd) || ((rd <? 8) && (sum_before (VmState.array_lens m) rd + i <=? 256)) = true ->
  sim (exec_ARR_DEF k rd i) (VmExec.exec_ARR_DEF m rd i).
Proof.
  intros Hrd Hi H. unfold exec_ARR_DEF, VmExec.exec_ARR_DEF.
  apply orb_true_iff in H as [H%Z.leb_le|[Hr%Z.ltb_lt Hb%Z.leb_le]%andb_true_iff].
  { by rewrite !(proj2 (Z.ltb_ge _ _)) by lia. }
  rewrite !(proj2 (Z.ltb_lt _ _)) by lia. rewrite (sim_array_lens k m Hs), setZ_cut by done.
  cbn [array_lens set_array_lens VmState.array_lens VmState.set_array_lens array_bases VmState.array_bases
       set_array_bases VmState.set_array_bases].
  rewrite sum_before_cut by lia.
  assert (E : sum_before (setZ (VmState.array_lens m) rd i) rd = sum_before (VmState.array_lens m) rd).
  { unfold sum_before. f_equal. unfold setZ. case_decide; [|done]. by rewrite take_insert_ge. }
  rewrite E. cbn [array_slots set_array_lens set_array_bases VmState.array_slots
    VmState.set_array_lens VmState.set_array_bases]. rewrite !(proj2 (Z.leb_le _ _)) by lia.
  rewrite (sim_array_bases k m Hs), setZ_cut, (sim_array_slots k m Hs) by done.
  pose proof (sum_before_u16 (VmState.array_lens m) rd (proj2 (array_lens_wf m Hm))).
  unfold in_u16 in Hi. rewrite splice_cut.
  - by apply sim_set_array_slots, sim_set_array_bases, sim_set_array_lens.
  - done.
  - rewrite len_replicate. lia.
  - rewrite (proj1 (array_slots_wf m Hm)). done.
Qed.

Lemma ARR_LOAD_agree rd rs1 rs2 :
  common_id rs1 = true ->
  common_slot (VmState.array_lens m) (VmState.array_bases m) rs1 (VmState.reg_or m rs2 (-1)) 256 = true ->
  agree (exec_ARR_LOAD k rd rs1 rs2) (VmExec.exec_ARR_LOAD m rd rs1 rs2).
Proof.
  intros Hid Hsl. unfold exec_ARR_LOAD, VmExec.exec_ARR_LOAD.
  rewrite (sim_reg_or k m Hs), (common_id_leb _ Hid). apply agree_if; [auto with sim|].
  intros H%Z.leb_gt. apply common_id_cases in Hid.
  apply agree_idx; [rewrite (sim_array_lens k m Hs); apply getZ_cut; lia|]. intros n Hn.
  rewrite (sim_array_lens k m Hs), getZ_cut in Hn by lia.
  apply agree_if; [auto with sim|]. intros [Hi%Z.ltb_ge Hj%Z.leb_gt]%orb_false_iff.
  apply agree_idx; [rewrite (sim_array_bases k m Hs); apply getZ_cut; lia|]. intros b Hb.
  rewrite (sim_array_bases k m Hs), getZ_cut in Hb by lia.
  apply agree_if; [intros _|auto with sim].
  pose proof (common_slot_in _ _ _ _ _ _ _ Hsl H Hn Hb ltac:(lia)).
  apply agree_idx; [rewrite (sim_array_slots k m Hs); apply getZ_cut; lia|].
  intros v _. by apply agree_ret, sim_set_reg.
Qed.

Lemma ARR_STORE_agree rd rs1 rs2 :
  common_id rd = true ->
  common_slot (VmState.array_lens m) (VmState.array_bases m) rd (VmState.reg_or m rs1 (-1)) 256 = true ->
  agree (exec_ARR_STORE k rd rs1 rs2) (VmExec.exec_ARR_STORE m rd rs1 rs2).
Proof.
  intros Hid Hsl. unfold exec_ARR_STORE, VmExec.exec_ARR_STORE.
  rewrite !(sim_reg_or k m Hs), (common_id_leb _ Hid). apply agree_if; [auto with sim|].
  intros H%Z.leb_gt. apply common_id_cases in Hid.
  apply agree_idx; [rewrite (sim_array_lens k m Hs); apply getZ_cut; lia|]. intros n Hn.
  rewrite (sim_array_lens k m Hs), getZ_cut in Hn by lia.
  apply agree_if; [auto with sim|]. intros [Hi%Z.ltb_ge Hj%Z.leb_gt]%orb_false_iff.
  apply agree_idx; [rewrite (sim_array_bases k m Hs); apply getZ_cut; lia|]. intros b Hb.
  rewrite (sim_array_bases k m Hs), getZ_cut in Hb by lia.
  pose proof (common_slot_in _ _ _ _ _ _ _ Hsl H Hn Hb ltac:(lia)).
  assert (0 <= b) by (apply (Forall_getZ _ _ _ _ (proj2 (array_bases_wf m Hm))) in Hb; apply Hb).
  rewrite (sim_array_slots k m Hs). apply agree_upd_cut; [lia|rewrite (proj1 (array_slots_wf m Hm)); done|].
  apply agree_ret. auto with sim.
Qed.

Lemma STRUCT_DEF_sim rd n :
  common_id rd = true -> sim (exec_STRUCT_DEF k rd n) (VmExec.exec_STRUCT_DEF m rd n).
Proof.
  intros Hid. unfold exec_STRUCT_DEF, VmExec.exec_STRUCT_DEF. rewrite (common_id_ltb _ Hid).
  destruct (Z.ltb_spec rd 16) as [H|]; [|done]. apply common_id_cases in Hid.
  rewrite (sim_struct_counts k m Hs), setZ_cut by lia.
  cbn [struct_field_counts set_struct_field_counts VmState.struct_field_counts
       VmState.set_struct_field_counts struct_bases VmState.struct_bases].
  rewrite sum_before_cut, (sim_struct_bases k m Hs), setZ_cut by lia.
  by apply sim_set_struct_bases, sim_set_struct_counts.
Qed.

(** The guard of a struct access, and the facts behind it. *)
Lemma struct_guard id off :
  common_id id = true ->
  ((8 <=? id) || (default 0 (getZ (struct_field_counts k) id) <=? off)) =
  ((16 <=? id) || (default 0 (getZ (VmState.struct_field_counts m) id) <=? off)).
Proof.
  intros Hid. rewrite (common_id_leb _ Hid). destruct (Z.leb_spec 16 id); [done|].
  apply common_id_cases in Hid. by rewrite (sim_struct_counts k m Hs), getZ_cut by lia.
Qed.

Lemma struct_slot_in id off b :
  common_slot (VmState.struct_field_counts m) (VmState.struct_bases m) id off 256 = true ->
  (16 <=? id) || (default 0 (getZ (VmState.struct_field_counts m) id) <=? off) = false ->
  0 <= off -> getZ (VmState.struct_bases m) id = Some b -> 0 <= b + off < 256.
Proof.
  unfold common_slot. intros H [H1 H2]%orb_false_iff Ho Hb.
  rewrite H1, H2, Hb, (proj2 (Z.ltb_ge off 0)) in H by done. apply Z.ltb_lt in H. simpl in H.
  apply (Forall_getZ _ _ _ _ (proj2 (struct_bases_wf m Hm))) in Hb. unfold in_u16 in Hb. lia.
Qed.

Lemma STRUCT_LOAD_agree rd rs1 rs2 :
  common_id rs1 = true -> 0 <= rs2 ->
  common_slot (VmState.struct_field_counts m) (VmState.struct_bases m) rs1 rs2 256 = true ->
  agree (exec_STRUCT_LOAD k rd rs1 rs2) (VmExec.exec_STRUCT_LOAD m rd rs1 rs2).
Proof.
  intros Hid H0 Hsl. unfold exec_STRUCT_LOAD, VmExec.exec_STRUCT_LOAD.
  rewrite (struct_guard _ _ Hid). apply agree_if; [auto with sim|]. intros Hg.
  pose proof Hg as [H%Z.leb_gt _]%orb_false_iff. apply common_id_cases in Hid.
  apply agree_idx; [rewrite (sim_struct_bases k m Hs); apply getZ_cut; lia|]. intros b Hb.
  rewrite (sim_struct_bases k m Hs), getZ_cut in Hb by lia.
  pose proof (struct_slot_in _ _ _ Hsl Hg H0 Hb).
  apply agree_idx; [rewrite (sim_struct_slots k m Hs); apply getZ_cut; lia|].
  intros v _. by apply agree_ret, sim_set_reg.
Qed.

Lemma STRUCT_STORE_agree rd rs1 rs2 :
  common_id rd = true -> 0 <= rs1 ->
  common_slot (VmState.struct_field_counts m) (VmState.struct_bases m) rd rs1 256 = true ->
  agree (exec_STRUCT_STORE k rd rs1 rs2) (VmExec.exec_STRUCT_STORE m rd rs1 rs2).
Proof.
  intros Hid H0 Hsl. unfold exec_STRUCT_STORE, VmExec.exec_STRUCT_STORE.
  rewrite (struct_guard _ _ Hid), (sim_reg_or k m Hs). apply agree_if; [auto with sim|]. intros Hg.
  pose proof Hg as [H%Z.leb_gt _]%orb_false_iff. apply common_id_cases in Hid.
  apply agree_idx; [rewrite (sim_struct_bases k m Hs); apply getZ_cut; lia|]. intros b Hb.
  rewrite (sim_struct_bases k m Hs), getZ_cut in Hb by lia.
  pose proof (struct_slot_in _ _ _ Hsl Hg H0 Hb). rewrite (sim_struct_slots k m Hs).
  apply agree_upd_cut; [lia|rewrite (proj1 (struct_slots_wf m Hm)); done|].
  by apply agree_ret, sim_set_struct_slots.
Qed.

Lemma TBL_DEF_sim rd a b :
  common_id rd = true -> sim (exec_TBL_DEF k rd a b) (VmExec.exec_TBL_DEF m rd a b).
Proof.
  intros Hid. unfold exec_TBL_DEF, VmExec.exec_TBL_DEF. rewrite (common_id_ltb _ Hid).
  destruct (Z.ltb_spec rd 16) as [H|]; [|done]. apply common_id_cases in Hid.
  rewrite (sim_table_bases k m Hs), (sim_table_lens k m Hs), !setZ_cut by lia.
  by apply sim_set_table_lens, sim_set_table_bases.
Qed.

Lemma TBL_LOAD_agree rd rs1 rs2 :
  common_id rs1 = true ->
  common_slot (VmState.table_lens m) (VmState.table_bases m) rs1 (VmState.reg_or m rs2 (-1))
    (len (const_pool p)) = true ->
  agree (exec_TBL_LOAD p k rd rs1 rs2) (VmExec.exec_TBL_LOAD p m rd rs1 rs2).
Proof.
  intros Hid Hsl. unfold exec_TBL_LOAD, VmExec.exec_TBL_LOAD.
  rewrite !(sim_reg_or k m Hs), (common_id_leb _ Hid). apply agree_if; [auto with sim|].
  intros H%Z.leb_gt. apply common_id_cases in Hid.
  apply agree_idx; [rewrite (sim_table_lens k m Hs); apply getZ_cut; lia|]. intros n Hn.
  rewrite (sim_table_lens k m Hs), getZ_cut in Hn by lia.
  apply agree_if; [auto with sim|]. intros [Hi%Z.ltb_ge Hj%Z.leb_gt]%orb_false_iff.
  apply agree_idx; [rewrite (sim_table_bases k m Hs); apply getZ_cut; lia|]. intros b Hb.
  rewrite (sim_table_bases k m Hs), getZ_cut in Hb by lia.
  pose proof (common_slot_in _ _ _ _ _ _ _ Hsl H Hn Hb ltac:(lia)).
  rewrite (proj2 (Z.leb_gt _ _)) by lia.
  apply agree_idx; [done|]. intros v _. by apply agree_ret, sim_set_reg.
Qed.
End Tables.

(** * Strings *)

Lemma land_mask (v n : Z) : 0 <= n -> Z.land v (Z.ones n) = v mod 2 ^ n.
Proof. apply Z.land_ones. Qed.

Lemma untag_bits v i : 0 <= i -> i <> 62 -> Z.testbit (Z.land v (Z.lnot STR_TAG)) i = Z.testbit v i.
Proof.
  intros Hi H. rewrite Z.land_spec, Z.lnot_spec by done.
  change STR_TAG with (2 ^ 62). rewrite Z.pow2_bits_false by lia. by rewrite andb_true_r.
Qed.

Lemma untag_length v : Z.land (Z.land v (Z.lnot STR_TAG)) 0xFFFFFFFF = Z.land v 0xFFFFFFFF.
Proof.
  apply Z.bits_inj'. intros i Hi. rewrite !Z.land_spec.
  destruct (decide (i = 62)) as [->|H]; [by rewrite !andb_false_r|].
  rewrite <-!Z.land_spec. rewrite Z.land_spec, untag_bits by done. by rewrite Z.land_spec.
Qed.

(** With the bits above the offset clear, both machines read the same offset. *)
Lemma untag_offset v :
  Z.shiftr v 56 = 64 ->
  as_u64 (Z.land v (Z.lnot STR_TAG)) = Z.land v (Z.lnot STR_TAG) /\
  Z.shiftr (Z.land v 0x00FFFFFF00000000) 32 = Z.shiftr (Z.land v (Z.lnot STR_TAG)) 32.
Proof.
  intros H.
  assert (Hv : 2 ^ 62 <= v < 2 ^ 62 + 2 ^ 56).
  { rewrite Z.shiftr_div_pow2 in H by done. pose proof (Z.div_mod v (2 ^ 56) ltac:(done)).
    pose proof (Z.mod_pos_bound v (2 ^ 56) ltac:(done)). lia. }
  assert (Hb : forall i, 56 <= i -> i <> 62 -> Z.testbit v i = false).
  { intros i Hi Hn. replace i with (i - 56 + 56) by lia. rewrite <-Z.shiftr_spec, H by lia.
    change 64 with (2 ^ 6). apply Z.pow2_bits_false. lia. }
  assert (Hr : Z.land v (Z.lnot STR_TAG) = v mod 2 ^ 56).
  { apply Z.bits_inj'. intros i Hi. rewrite <-Z.land_ones, (Z.land_spec v (Z.ones 56)) by done.
    destruct (decide (i = 62)) as [->|Hn]; [by rewrite Z.land_spec, !andb_false_r|].
    rewrite untag_bits by done. destruct (decide (i < 56)).
    - by rewrite Z.ones_spec_low, andb_true_r by lia.
    - rewrite Hb by lia. by rewrite andb_false_l. }
  pose proof (Z.mod_pos_bound v (2 ^ 56) ltac:(done)). split.
  - unfold as_u64. rewrite Hr. apply Z.mod_small. lia.
  - apply Z.bits_inj'. intros i Hi. rewrite !Z.shiftr_spec, Z.land_spec by done.
    change 0x00FFFFFF00000000 with (Z.shiftl (Z.ones 24) 32).
    rewrite Z.shiftl_spec by lia. replace (i + 32 - 32) with i by lia.
    rewrite Hr, <-Z.land_ones, Z.land_spec by done. destruct (decide (i < 24)).
    + rewrite !Z.ones_spec_low by lia. done.
    + rewrite !Z.ones_spec_high by lia. by rewrite !andb_false_r.
Qed.

Lemma plain_str p v : plain p v = true -> get_str_bytes p v = VmState.get_str_bytes p v.
Proof.
  intros H. unfold get_str_bytes, VmState.get_str_bytes.
  destruct (Z.land v STR_TAG =? 0) eqn:Ht; [done|]. cbn [negb]. cbv zeta.
  unfold plain in H. rewrite Ht in H. cbn [orb] in H. rewrite untag_length.
  apply orb_true_iff in H as [H%Z.eqb_eq|H%Z.ltb_lt].
  - apply untag_offset in H as [-> ->]. done.
  - rewrite !(proj2 (Z.leb_gt _ _)); [done| |].
    + pose proof (proj2 (Z.shiftr_nonneg (as_u64 (Z.land v (Z.lnot STR_TAG))) 32)).
      pose proof (as_u64_range (Z.land v (Z.lnot STR_TAG))) as Hu. unfold in_u64 in Hu. lia.
    + pose proof (proj2 (Z.shiftr_nonneg (Z.land v 0x00FFFFFF00000000) 32)).
      assert (0 <= Z.land v 0x00FFFFFF00000000) by (apply Z.land_nonneg; lia). lia.
Qed.

Lemma texts_agree_str p v1 v2 :
  texts_agree p v1 v2 = true -> v1 <> v2 -> same_str p v1 v2 = VmExec.same_str p v1 v2.
Proof.
  unfold texts_agree. intros [H%Z.eqb_eq|[H1 H2]%andb_true_iff]%orb_true_iff Hn; [done|].
  unfold same_str, VmExec.same_str. by rewrite !plain_str.
Qed.

Section Comparisons.
Context (p : program) (k : PX64VM) (m : vm) (Hs : sim k m).

Lemma CMP_EQ_sim rd rs1 rs2 :
  texts_agree p (VmState.reg m rs1) (VmState.reg m rs2) = true ->
  sim (exec_CMP_EQ p k rd rs1 rs2) (VmExec.exec_CMP_EQ p m rd rs1 rs2).
Proof.
  intros H. apply sim_alu3_with; [done|]. destruct (Z.eqb_spec (VmState.reg m rs1) (VmState.reg m rs2)) as [|Hn];
    [done|]. by rewrite (texts_agree_str p _ _ H Hn).
Qed.

Lemma CMP_NE_sim rd rs1 rs2 :
  texts_agree p (VmState.reg m rs1) (VmState.reg m rs2) = true ->
  sim (exec_CMP_NE p k rd rs1 rs2) (VmExec.exec_CMP_NE p m rd rs1 rs2).
Proof.
  intros H. apply sim_alu3_with; [done|]. destruct (Z.eqb_spec (VmState.reg m rs1) (VmState.reg m rs2)) as [|Hn];
    [done|]. by rewrite (texts_agree_str p _ _ H Hn).
Qed.

Lemma STREQ_sim rd rs1 rs2 :
  texts_agree p (VmState.reg m rs1) (VmState.reg m rs2) = true ->
  sim (exec_STREQ p k rd rs1 rs2) (VmExec.exec_STREQ p m rd rs1 rs2).
Proof.
  intros H. apply sim_alu3_with; [done|]. destruct (Z.eqb_spec (VmState.reg m rs1) (VmState.reg m rs2)) as [|Hn];
    [done|]. by rewrite (texts_agree_str p _ _ H Hn).
Qed.
End Comparisons.

(** * Natives *)

(** The run [s] is where the library's machine [m] is, and its time limit is
    [limit] at least. *)
Record follows (limit : Z) (s : run_state) (m : vm) : Prop := {
  fo_vm : sim (vm_of s) m;
  fo_serial : serial s = output m;
  fo_steps : run_steps s = VmState.steps m;
  fo_limit : limit <= timeout_tsc s;
}.

Definition same_value (rk : kresult Z) (rl : result Z) : Prop :=
  match rl with
  | Ok v => rk = Ok v
  | Err x => rk = Err (Fault x)
  | Panic q => rk = Panic q
  end.

Lemma same_bind rk rl f g :
  same_value rk rl -> (forall v, same_value (f v) (g v)) -> same_value (rk ≫= f) (rl ≫= g).
Proof. destruct rl; simpl; intros -> H; [apply H|done..]. Qed.

Definition agree_nat (limit : Z) (rk : kresult (Z * run_state)) (rl : result (Z * vm)) : Prop :=
  match rl with
  | Ok (v, m) => exists s, rk = Ok (v, s) /\ follows limit s m
  | Err x => rk = Err (Fault x)
  | Panic q => rk = Panic q
  end.

Section Natives.
Context (e : env) (h : host) (p : program) (n limit : Z) (s : run_state) (m : vm).
Context (Hf : follows limit s m).

Lemma agree_value rk rl : same_value rk rl -> agree_nat limit (value s rk) (pure_native m rl).
Proof. destruct rl; simpl; intros ->; [by exists s|done..]. Qed.

Lemma agree_pure v : agree_nat limit (mret (v, s)) (mret (v, m)).
Proof. by exists s. Qed.

Lemma follows_print t : follows limit (serial_print s t) (VmState.write m t).
Proof.
  destruct Hf as [H1 H2 H3 H4]. constructor; simpl; [by apply sim_set_output|by rewrite H2|done..].
Qed.

Lemma follows_shared w : follows limit (set_shared s w) m.
Proof. by destruct Hf. Qed.

Lemma arg_before_same a k d :
  same_value (arg_before (vm_of s) a k d) (VmExec.arg_before m a k d).
Proof.
  unfold arg_before, VmExec.arg_before. rewrite (sim_regs _ _ (fo_vm _ _ _ Hf)).
  case_match; [|done]. unfold idx. by case_match.
Qed.

Lemma fix_scale_same a k : same_value (fix_scale (vm_of s) a k) (VmExec.fix_scale m a k).
Proof.
  unfold fix_scale, VmExec.fix_scale. rewrite (sim_regs _ _ (fo_vm _ _ _ Hf)).
  case_match; [|done]. unfold idx. by case_match.
Qed.

Lemma tagged_text_same v :
  is_text v = true -> common_text p v = true ->
  exists t, tagged_text e p v = Ok t /\ print_text p v = default [] t /\
    (has_text p v = true -> is_Some t).
Proof.
  unfold is_text, common_text, tagged_text, print_text, has_text.
  destruct (Z.land v ARG_TAG =? 0) eqn:Ea; cbn [negb].
  - rewrite orb_false_r. intros Ht. rewrite Ht. intros H%Z.eqb_eq.
    pose proof (untag_offset v H) as [Eu Eo]. pose proof (plain_str p v) as Hp.
    unfold plain in Hp. rewrite (proj2 (Z.eqb_eq _ _) H), orb_true_r in Hp. specialize (Hp eq_refl).
    unfold get_str_bytes in Hp. rewrite Ht in Hp. cbv zeta in Hp. rewrite Eo in Hp.
    rewrite <-Hp. cbv zeta. rewrite untag_length.
    set (o := Z.shiftr (Z.land v (Z.lnot STR_TAG)) 32) in *.
    assert (Ho : 0 <= o < 2 ^ 32).
    { pose proof (as_u64_range (Z.land v (Z.lnot STR_TAG))) as Hr. rewrite Eu in Hr.
      unfold in_u64 in Hr. unfold o. rewrite Z.shiftr_div_pow2 by done.
      split; [apply Z.div_pos; lia|apply Z.div_lt_upper_bound; lia]. }
    assert (Hl : 0 <= Z.land v 0xFFFFFFFF < 2 ^ 32).
    { change 0xFFFFFFFF with (Z.ones 32). rewrite Z.land_ones by done. by apply Z.mod_pos_bound. }
    assert (Eo2 : as_u64 o = o) by (unfold as_u64; apply Z.mod_small; lia). rewrite Eo2. unfold tsc_add.
    rewrite (proj2 (Z.ltb_lt _ _)) by lia. cbn [mbind outcome_bind].
    destruct (Z.leb_spec (o + Z.land v 0xFFFFFFFF) (len (str_pool p))).
    + rewrite slice_in_range by lia. cbn. eexists. split; [done|].
      case_match; [split; [done|by eexists]|done].
    + by exists None.
  - intros _. destruct (getZ (args p) (Z.land v 255)) as [t|]; [|by exists None].
    intros ->. exists (Some t). by split_and!; [| |eexists].
Qed.

Lemma PRINT_agree v :
  common_text p v = true ->
  agree_nat limit (effect 0 (native_PRINT e p s v)) (mret (0, VmExec.native_PRINT p m v)).
Proof.
  intros Hc. unfold native_PRINT, VmExec.native_PRINT.
  destruct (is_text v) eqn:Ht.
  - destruct (tagged_text_same v Ht Hc) as (t & Et & Ep & _). rewrite Et, Ep. cbn.
    eexists. split; [done|]. destruct t as [t|]; [apply follows_print|].
    simpl. unfold write. rewrite app_nil_r. destruct Hf. constructor; simpl; try done.
    by apply sim_set_output.
  - unfold is_text in Ht. apply orb_false_iff in Ht as [H1 H2].
    unfold print_text. rewrite H2, H1. eexists. split; [done|]. apply follows_print.
Qed.

Lemma PRINTLN_agree a v :
  common_text p v && has_text p v = true ->
  agree_nat limit (effect 0 (native_PRINTLN e p s a v)) (mret (0, VmExec.native_PRINTLN p m a v)).
Proof.
  intros [Hc Hh]%andb_true_iff. unfold native_PRINTLN, VmExec.native_PRINTLN.
  destruct (is_text v) eqn:Ht.
  - destruct (tagged_text_same v Ht Hc) as (t & Et & Ep & H). destruct (H Hh) as [x ->].
    rewrite Et, Ep. cbn. unfold is_text in Ht. rewrite (orb_comm (negb (Z.land v ARG_TAG =? 0))), Ht. cbn.
    eexists. split; [done|]. pose proof (follows_print (x ++ [10])) as Hx.
    unfold write in *. simpl in *. by rewrite <-app_assoc.
  - unfold is_text in Ht. rewrite (orb_comm (negb (Z.land v ARG_TAG =? 0))), Ht. cbn.
    apply orb_false_iff in Ht as [H1 H2]. unfold print_text. rewrite H2, H1.
    case_match; eexists; (split; [done|]).
    + pose proof (follows_print (show_Z v ++ [10])) as Hx. unfold write in *. simpl in *.
      by rewrite <-app_assoc.
    + apply follows_print.
Qed.

Lemma UNWRAP_same v : same_value (native_UNWRAP v) (VmExec.native_UNWRAP v).
Proof. unfold native_UNWRAP, VmExec.native_UNWRAP. by case_match. Qed.

Lemma MIN_same a v : same_value (native_MATH_MIN (vm_of s) a v) (VmExec.native_MATH_MIN m a v).
Proof. apply same_bind; [apply arg_before_same|done]. Qed.
Lemma MAX_same a v : same_value (native_MATH_MAX (vm_of s) a v) (VmExec.native_MATH_MAX m a v).
Proof. apply same_bind; [apply arg_before_same|done]. Qed.
Lemma CLAMP_same a v : same_value (native_MATH_CLAMP (vm_of s) a v) (VmExec.native_MATH_CLAMP m a v).
Proof. do 2 (apply same_bind; [apply arg_before_same|intros ?]). done. Qed.
Lemma CRC32_same a v : same_value (native_CRC32 (vm_of s) a v) (VmExec.native_CRC32 m a v).
Proof. apply same_bind; [apply arg_before_same|done]. Qed.
Lemma TO_FIX_same a v : same_value (native_FIX_TO_FIX (vm_of s) a v) (VmExec.native_FIX_TO_FIX m a v).
Proof. apply same_bind; [apply fix_scale_same|done]. Qed.
Lemma TO_I64_same a v : same_value (native_FIX_TO_I64 (vm_of s) a v) (VmExec.native_FIX_TO_I64 m a v).
Proof. apply same_bind; [apply fix_scale_same|done]. Qed.
Lemma FIX_MUL_same a v : same_value (native_FIX_MUL (vm_of s) a v) (VmExec.native_FIX_MUL m a v).
Proof.
  apply same_bind; [apply arg_before_same|intros b]. by apply same_bind; [apply fix_scale_same|].
Qed.
Lemma FIX_DIV_same a v : same_value (native_FIX_DIV (vm_of s) a v) (VmExec.native_FIX_DIV m a v).
Proof.
  apply same_bind; [apply arg_before_same|intros b]. apply same_bind; [apply fix_scale_same|intros q].
  by case_match.
Qed.
End Natives.

Create HintDb native.
#[export] Hint Resolve agree_pure agree_value UNWRAP_same MIN_same MAX_same CLAMP_same CRC32_same
  TO_FIX_same TO_I64_same FIX_MUL_same FIX_DIV_same PRINT_agree PRINTLN_agree : native.

(** A native both machines have: its branch on both sides. *)
Ltac branch f c := destruct (decide (f = c)) as [->|?].

(** [f] is none of the constants compared with. *)
Ltac no_branch := rewrite !(proj2 (Z.eqb_neq _ _)) by done.

Lemma local_native_ne f c : local_native f = false -> local_native c = true -> f <> c.
Proof. by intros H1 H2 ->; rewrite H1 in H2. Qed.

Lemma native_agree e h p n limit s m f a v :
  follows limit s m -> portable_native p f v = true ->
  agree_nat limit (native e p n s f a v) (VmExec.native h p m f a v).
Proof.
  intros Hf Hp. unfold portable_native in Hp.
  branch f NATIVE_PRINT; [by apply PRINT_agree|].
  branch f NATIVE_PRINTLN; [by apply PRINTLN_agree|].
  branch f NATIVE_SCRIPT_ARG.
  { apply eqb_prop in Hp.
    assert (E : native_SCRIPT_ARG v = VmExec.native_SCRIPT_ARG p v)
      by (unfold native_SCRIPT_ARG, VmExec.native_SCRIPT_ARG; by rewrite Hp).
    change (agree_nat limit (mret (native_SCRIPT_ARG v, s)) (mret (VmExec.native_SCRIPT_ARG p v, m))).
    rewrite E. by apply agree_pure. }
  rewrite !(proj2 (Z.eqb_neq _ _)) in Hp by done. apply negb_true_iff in Hp.
  branch f NATIVE_NET_SET_RATE.
  { exists (native_NET_SET_RATE s v). split; [done|]. by apply follows_shared. }
  branch f NATIVE_GPU_CAPTURE.
  { eexists. split; [reflexivity|]. by apply follows_shared. }
  branch f NATIVE_UNWRAP; [exact (agree_value limit s m Hf _ _ (UNWRAP_same _))|].
  branch f NATIVE_MATH_MIN; [exact (agree_value limit s m Hf _ _ (MIN_same limit s m Hf _ _))|].
  branch f NATIVE_MATH_MAX; [exact (agree_value limit s m Hf _ _ (MAX_same limit s m Hf _ _))|].
  branch f NATIVE_MATH_CLAMP; [exact (agree_value limit s m Hf _ _ (CLAMP_same limit s m Hf _ _))|].
  branch f NATIVE_CRC32; [exact (agree_value limit s m Hf _ _ (CRC32_same limit s m Hf _ _))|].
  branch f NATIVE_FIX_TO_FIX; [exact (agree_value limit s m Hf _ _ (TO_FIX_same limit s m Hf _ _))|].
  branch f NATIVE_FIX_TO_I64; [exact (agree_value limit s m Hf _ _ (TO_I64_same limit s m Hf _ _))|].
  branch f NATIVE_FIX_MUL; [exact (agree_value limit s m Hf _ _ (FIX_MUL_same limit s m Hf _ _))|].
  branch f NATIVE_FIX_DIV; [exact (agree_value limit s m Hf _ _ (FIX_DIV_same limit s m Hf _ _))|].
  branch f NATIVE_SCRIPT_ARGC; [exact (agree_pure limit s m Hf _)|].
  branch f NATIVE_TAG_OK; [exact (agree_pure limit s m Hf _)|].
  branch f NATIVE_TAG_ERR; [exact (agree_pure limit s m Hf _)|].
  branch f NATIVE_IS_OK; [exact (agree_pure limit s m Hf _)|].
  branch f NATIVE_IS_ERR; [exact (agree_pure limit s m Hf _)|].
  branch f NATIVE_MATH_ABS; [exact (agree_pure limit s m Hf _)|].
  branch f NATIVE_BIT_POPCNT; [exact (agree_pure limit s m Hf _)|].
  branch f NATIVE_BIT_LZCNT; [exact (agree_pure limit s m Hf _)|].
  branch f NATIVE_TERM_RAW; [exact (agree_pure limit s m Hf _)|].
  branch f NATIVE_DROP; [exact (agree_pure limit s m Hf _)|].
  branch f NATIVE_FILE_READ; [exact (agree_pure limit s m Hf _)|].
  pose proof (fun c => local_native_ne f c Hp) as Hl.
  unfold native, VmExec.native.
  repeat match goal with
  | |- context [f =? ?c] =>
    rewrite (proj2 (Z.eqb_neq f c)) by (done || (apply Hl; reflexivity))
  end.
  by apply agree_pure.
Qed.

(** * Instructions *)

Definition agree_run (limit : Z) (rk : kresult (flow * run_state)) (rl : result (flow * vm)) : Prop :=
  match rl with
  | Ok (f, m) => exists s, rk = Ok (f, s) /\ follows limit s m
  | Err x => rk = Err (Fault x)
  | Panic q => rk = Panic q
  end.

(** The readings of the counter are far from wrapping. *)
Definition clock_ok (e : env) : Prop :=
  (forall n k, 0 <= tsc e n k < 2 ^ 62) /\ 0 < tsc_freq_hz e <= 10 ^ 10.

(** ** The library's instructions that print nothing *)

Definition quiet (m m' : vm) : Prop :=
  output m' = output m /\ VmState.steps m' = VmState.steps m.

Definition quiets (m : vm) (r : result (flow * vm)) : Prop := forall f m', r = Ok (f, m') -> quiet m m'.

Lemma quiet_set_reg m r v : quiet m (VmState.set_reg m r v).
Proof. unfold VmState.set_reg. by case_match. Qed.

Lemma quiet_alu2 m rd rs1 f : quiet m (VmExec.alu2 m rd rs1 f).
Proof. unfold VmExec.alu2. case_match; [apply quiet_set_reg|done]. Qed.

Lemma quiet_alu3 m rd rs1 rs2 f : quiet m (VmExec.alu3 m rd rs1 rs2 f).
Proof. unfold VmExec.alu3. case_match; [apply quiet_set_reg|done]. Qed.

#[export] Hint Resolve quiet_set_reg quiet_alu2 quiet_alu3 : quiet.

Lemma quiets_if m (b : bool) x y : quiets m x -> quiets m y -> quiets m (if b then x else y).
Proof. by destruct b. Qed.

Lemma quiets_ret m f m' : quiet m m' -> quiets m (mret (f, m')).
Proof. by intros H ? ? [= <- <-]. Qed.

Ltac quiet_result :=
  repeat match goal with
  | H : (if ?b then _ else _) = Ok _ |- _ => destruct b
  | H : _ ≫= _ = Ok _ |- _ => apply bind_Ok in H as (? & _ & H)
  | H : err _ _ = Ok _ |- _ => discriminate H
  | H : mret _ = Ok _ |- _ => injection H as <-
  end.

Lemma quiets_next m r : (forall m', r = Ok m' -> quiet m m') -> quiets m (next r).
Proof. intros H f m' (a & Ha & [= _ <-])%bind_Ok. by apply H. Qed.

Lemma RET_quiet m : quiets m (VmExec.exec_RET m).
Proof.
  unfold VmExec.exec_RET. apply quiets_if; [by apply quiets_ret|].
  intros f m' (a & _ & (b & _ & [= _ <-])%bind_Ok)%bind_Ok. unfold VmState.set_reg. by case_match.
Qed.

Lemma WITHIN_START_quiet h m rd m' : VmExec.exec_WITHIN_START h m rd = Ok m' -> quiet m m'.
Proof.
  unfold VmExec.exec_WITHIN_START, get_uptime_ns, host_tsc. intros H.
  repeat case_match; simplify_eq/=; quiet_result; done.
Qed.

Lemma exec_quiet h p m op rd rs1 rs2 :
  op <> PX64_OP_CALL_NAT -> op <> PX64_OP_DROP -> quiets m (VmExec.exec h p m op rd rs1 rs2).
Proof.
  intros Hc Hd. unfold VmExec.exec.
  rewrite (proj2 (Z.eqb_neq op PX64_OP_CALL_NAT) Hc), (proj2 (Z.eqb_neq op PX64_OP_DROP) Hd).
  repeat match goal with |- quiets _ (if op =? ?c then _ else _) => apply quiets_if end;
    try (by apply quiets_ret); try apply RET_quiet; try (by intros ? ?);
    apply quiets_next; intros m' H; try (by apply WITHIN_START_quiet in H);
    autounfold with px64 in H; quiet_result; autounfold with px64;
    repeat case_match; try done; auto with quiet; by apply quiet_set_reg.
Qed.

(** ** One instruction *)

(** The instruction works on the two machines alone. *)
Definition agree_vm (s : run_state) (rk : kresult (flow * run_state)) (rl : result (flow * vm)) : Prop :=
  match rl with
  | Ok (f, m) => exists k, rk = Ok (f, set_vm s k) /\ sim k m
  | Err x => rk = Err (Fault x)
  | Panic q => rk = Panic q
  end.

Lemma agree_branch s (op c : Z) rk rk' rl rl' :
  (op = c -> agree_vm s rk rl) -> (op <> c -> agree_vm s rk' rl') ->
  agree_vm s (if op =? c then rk else rk') (if op =? c then rl else rl').
Proof. destruct (Z.eqb_spec op c); auto. Qed.

Lemma agree_next s rk rl : agree rk rl -> agree_vm s (on_vm s rk) (next rl).
Proof. destruct rl; simpl; [intros (k & -> & Hk)|intros ->..]; [by exists k|done..]. Qed.

Lemma agree_sim s k m : sim k m -> agree_vm s (on_vm s (mret k)) (next (mret m)).
Proof. by exists k. Qed.

Lemma set_vm_same (s : run_state) : set_vm s (vm_of s) = s.
Proof. by destruct s. Qed.

Lemma RET_agree (s : run_state) m :
  sim (vm_of s) m ->
  agree_vm s ('(f, k) ← exec_RET (vm_of s); mret (f, set_vm s k)) (VmExec.exec_RET m).
Proof.
  intros Hs. unfold exec_RET, VmExec.exec_RET. rewrite (sim_call_sp _ _ Hs).
  destruct (VmState.call_sp m =? 0); [by eexists|]. cbv zeta.
  cbn [call_stack set_call_sp VmState.call_stack VmState.set_call_sp call_sp VmState.call_sp
       frame_stack VmState.frame_stack regs VmState.regs].
  rewrite (sim_call_stack _ _ Hs), (sim_frame_stack _ _ Hs).
  unfold idx. destruct (getZ (VmState.call_stack m) _); [|done]. cbn.
  destruct (getZ (VmState.frame_stack m) _); [|done]. cbn.
  eexists. split; [done|]. apply sim_set_ip.
  rewrite (sim_reg _ _ (sim_set_call_sp _ _ _ Hs)), (sim_regs _ _ Hs).
  by apply sim_set_regs, sim_set_regs, sim_set_call_sp.
Qed.

Lemma WITHIN_START_agree e h n k m rd :
  sim k m -> vm_wf m -> clock_ok e ->
  (PX64_NUM_REGISTERS <=? rd) || (as_u64 (VmState.reg m rd) <? 2 ^ 40) = true ->
  agree (exec_WITHIN_START e n k rd) (VmExec.exec_WITHIN_START h m rd).
Proof.
  intros Hs Hm [Hclk Hfreq] Hp. unfold exec_WITHIN_START, VmExec.exec_WITHIN_START.
  destruct (get_uptime_ns h m) as [t m1] eqn:Hu.
  assert (Hm1 : sim k m1 /\ VmState.dl_sp m1 = VmState.dl_sp m /\
                len (VmState.deadline_stack m1) = 8).
  { pose proof (proj1 (deadline_stack_wf m Hm)). unfold get_uptime_ns, host_tsc in Hu.
    repeat case_match; injection Hu as <- <-; by split_and!; try apply sim_set_host_calls. }
  destruct Hm1 as (Hs1 & Hd & Hl).
  set (b := if rd <? PX64_NUM_REGISTERS then as_u64 (reg k rd) else 500000).
  assert (Hb : 0 <= b < 2 ^ 40).
  { unfold b. rewrite (sim_reg k m Hs). pose proof (as_u64_range (VmState.reg m rd)) as Hr.
    unfold in_u64 in Hr. apply orb_true_iff in Hp as [Hp%Z.leb_le|Hp%Z.ltb_lt];
      destruct (Z.ltb_spec rd PX64_NUM_REGISTERS); lia. }
  assert (Hn : 0 <= ns_to_tsc b (tsc_freq_hz e) < 2 ^ 62).
  { unfold ns_to_tsc. unfold as_u64, wrapU.
    assert (0 <= b * tsc_freq_hz e / 1000000000 < 2 ^ 62).
    { split; [apply Z.div_pos; nia|]. apply Z.div_lt_upper_bound; [done|].
      assert (b * tsc_freq_hz e <= 2 ^ 40 * 10 ^ 10) by (apply Z.mul_le_mono_nonneg; lia). lia. }
    rewrite Z.mod_small; lia. }
  specialize (Hclk n 1). unfold tsc_add at 1.
  rewrite (proj2 (Z.ltb_lt (tsc e n 1 + _) _)) by lia. cbn [mbind outcome_bind].
  rewrite (sim_dl_sp k m Hs), Hd. apply agree_if; [intros H|intros _; by apply agree_ret].
  apply agree_upd; [by rewrite (sim_deadlines k m Hs)|]. intros y y' -> ->.
  apply agree_ret, sim_set_dl_sp, sim_set_deadlines; [done|]. by rewrite len_setZ, (sim_deadlines k m Hs).
Qed.

Section Instructions.
Context (e : env) (h : host) (p : program) (n : Z) (s : run_state) (m : vm).
Context (Hs : sim (vm_of s) m) (Hm : vm_wf m) (Hclk : clock_ok e).

(** Every instruction of the machine proper. *)
Lemma exec_agree op rd rs1 rs2 :
  in_u8 rd -> in_u8 rs1 -> in_u8 rs2 -> portable p m op rd rs1 rs2 = true ->
  op <> PX64_OP_CALL_NAT -> op <> PX64_OP_DROP ->
  agree_vm s (exec e p n s op rd rs1 rs2) (VmExec.exec h p m op rd rs1 rs2).
Proof.
  intros Hrd Hr1 Hr2 Hp Hc Hd. unfold in_u8 in *.
  unfold exec, VmExec.exec.
  apply agree_branch; [intros _|intros _].
  { exists (vm_of s). by rewrite set_vm_same. }
  apply agree_branch; [intros _|intros _].
  { exists (vm_of s). by rewrite set_vm_same. }
  apply agree_branch; [intros ->; by apply agree_sim, sim_set_reg|intros _].
  apply agree_branch; [intros ->; by apply agree_next, LDC_agree|intros _].
  apply agree_branch; [intros ->; by apply agree_sim, sim_alu2|intros _].
  apply agree_branch; [intros ->; by apply agree_sim, sim_alu2|intros _].
  apply agree_branch; [intros ->; by apply agree_sim, sim_alu3|intros _].
  apply agree_branch; [intros ->; by apply agree_sim, sim_alu3|intros _].
  apply agree_branch; [intros ->; by apply agree_sim, sim_alu3|intros _].
  apply agree_branch; [intros ->; by apply agree_sim, sim_alu3|intros _].
  apply agree_branch; [intros ->; by apply agree_sim, sim_alu3|intros _].
  apply agree_branch; [intros ->; apply agree_sim, ARR_DEF_sim; [done|done|lia|unfold in_u16; lia|exact Hp]|intros _].
  apply agree_branch; [intros ->; apply andb_true_iff in Hp as [H1 H2]; by apply agree_next, ARR_LOAD_agree|intros _].
  apply agree_branch; [intros ->; apply andb_true_iff in Hp as [H1 H2]; by apply agree_next, ARR_STORE_agree|intros _].
  apply agree_branch; [intros ->; by apply agree_sim, STRUCT_DEF_sim|intros _].
  apply agree_branch; [intros ->; apply andb_true_iff in Hp as [H1 H2]; by apply agree_next, STRUCT_LOAD_agree; try lia|intros _].
  apply agree_branch; [intros ->; apply andb_true_iff in Hp as [H1 H2]; by apply agree_next, STRUCT_STORE_agree; try lia|intros _].
  apply agree_branch; [intros ->; by apply agree_sim, TBL_DEF_sim|intros _].
  apply agree_branch; [intros ->; apply andb_true_iff in Hp as [H1 H2]; by apply agree_next, TBL_LOAD_agree|intros _].
  apply agree_branch; [intros ->; by apply agree_next, ASSERT_agree|intros _].
  apply agree_branch; [intros ->; by apply agree_next, CALL_agree|intros _].
  apply agree_branch; [intros ->; by apply RET_agree|intros _].
  apply agree_branch; [intros ->; by apply agree_sim, sim_alu2|intros _].
  apply agree_branch; [intros ->; by apply agree_sim, sim_set_reg|intros _].
  apply agree_branch; [intros ->; by apply agree_sim, sim_alu3|intros _].
  apply agree_branch; [intros ->; by apply agree_sim, sim_alu3|intros _].
  apply agree_branch; [intros ->; by apply agree_sim, sim_alu3|intros _].
  apply agree_branch; [intros ->; by apply agree_next, DIV_agree|intros _].
  apply agree_branch; [intros ->; by apply agree_next, MOD_agree|intros _].
  apply agree_branch; [intros ->; by apply agree_sim, CMP_EQ_sim|intros _].
  apply agree_branch; [intros ->; by apply agree_sim, SPILL_STORE_sim|intros _].
  apply agree_branch; [intros ->; by apply agree_sim, SPILL_LOAD_sim|intros _].
  apply agree_branch; [intros ->; by apply agree_sim, CMP_NE_sim|intros _].
  apply agree_branch; [intros ->; by apply agree_sim, STREQ_sim|intros _].
  apply agree_branch; [intros ->; by apply agree_sim, sim_alu3|intros _].
  apply agree_branch; [intros ->; by apply agree_sim, sim_alu3|intros _].
  apply agree_branch; [intros ->; by apply agree_sim, sim_alu3|intros _].
  apply agree_branch; [intros ->; by apply agree_sim, sim_alu3|intros _].
  apply agree_branch; [intros ->; by apply agree_sim, sim_set_ip|intros _].
  apply agree_branch; [intros ->; by apply agree_sim, JZ_sim|intros _].
  apply agree_branch; [intros ->; by apply agree_sim, JNZ_sim|intros _].
  apply agree_branch; [done|intros _].
  apply agree_branch; [intros ->; by apply agree_next, WITHIN_START_agree|intros _].
  apply agree_branch; [intros _; by apply agree_sim, WITHIN_END_sim|intros _].
  by apply agree_branch.
Qed.
End Instructions.

Section Steps.
Context (e : env) (h : host) (p : program) (limit : Z).
Context (Hclk : clock_ok e) (Hlim : limit < 2 ^ 64).

Lemma CALL_NAT_follows n s m rd rs1 rs2 :
  follows limit s m -> portable_native p rs1 (VmState.reg_or m rs2 0) = true ->
  agree_run limit (goes_on (exec_CALL_NAT e p n s rd rs1 rs2))
    (next (VmExec.exec_CALL_NAT h p m rd rs1 rs2)).
Proof.
  intros Hf Hp. unfold exec_CALL_NAT, VmExec.exec_CALL_NAT.
  rewrite (sim_reg_or _ _ (fo_vm _ _ _ Hf)).
  pose proof (native_agree e h p n limit s m rs1 rs2 _ Hf Hp) as H.
  destruct (VmExec.native h p m rs1 rs2 _) as [[v m1]|x|q]; simpl in H; [|by rewrite H..].
  destruct H as (s1 & -> & Hf1). cbn. eexists. split; [done|].
  assert (Ht : limit <= timeout_tsc (if is_blocking_io rs1 then extend_timeout e n s1 else s1)).
  { pose proof (fo_limit _ _ _ Hf1). case_match; simpl; [|done]. unfold saturating_sub. lia. }
  destruct Hf1 as [H1 H2 H3 H4].
  constructor; simpl; [|case_match; simpl; unfold VmState.set_reg; by case_match
    |case_match; simpl; unfold VmState.set_reg; by case_match|done].
  replace (vm_of (if is_blocking_io rs1 then _ else s1)) with (vm_of s1) by (by case_match).
  by apply sim_set_reg.
Qed.

Lemma exec_follows n s m op rd rs1 rs2 :
  follows limit s m -> vm_wf m -> in_u8 rd -> in_u8 rs1 -> in_u8 rs2 ->
  portable p m op rd rs1 rs2 = true ->
  agree_run limit (exec e p n s op rd rs1 rs2) (VmExec.exec h p m op rd rs1 rs2).
Proof.
  intros Hf Hm Hd H1 H2 Hp.
  destruct (decide (op = PX64_OP_CALL_NAT)) as [->|Hc]; [by apply CALL_NAT_follows|].
  destruct (decide (op = PX64_OP_DROP)) as [->|Hn].
  { assert (Hz : (VmState.dl_sp m =? 0) = true) by exact Hp. apply Z.eqb_eq in Hz.
    change (exec e p n s PX64_OP_DROP rd rs1 rs2) with (goes_on (exec_DROP e n s)).
    change (VmExec.exec h p m PX64_OP_DROP rd rs1 rs2) with (next (VmExec.exec_DROP h m)).
    unfold exec_DROP, VmExec.exec_DROP. rewrite (sim_dl_sp _ _ (fo_vm _ _ _ Hf)), Hz. by exists s. }
  pose proof (exec_agree e h p n s m (fo_vm _ _ _ Hf) Hm Hclk op rd rs1 rs2 Hd H1 H2 Hp Hc Hn) as H.
  destruct (VmExec.exec h p m op rd rs1 rs2) as [[f m1]|x|q] eqn:E; [|done..].
  destruct H as (k & -> & Hk). apply exec_quiet in E as [E1 E2]; [|done..].
  exists (set_vm s k). split; [done|]. destruct Hf as [_ F2 F3 F4].
  constructor; simpl; [done|congruence|congruence|done].
Qed.

(** The library's machine after a step is where the kernel's run is. *)
Definition agree_step (s' : run_state) (rk : kresult flow) (m : vm) (rl : result flow) : Prop :=
  follows limit s' m /\ VmState.max_steps m = MAX_VM_STEPS /\
  match rl with Ok f => rk = Ok f | Err x => rk = Err (Fault x) | Panic q => rk = Panic q end.

Lemma portable_not_key p0 m op rd rs1 rs2 :
  portable p0 m op rd rs1 rs2 = true -> ~ (op = PX64_OP_CALL_NAT /\ rs1 = NATIVE_TERM_READ_KEY).
Proof. by intros H [-> ->]. Qed.

Lemma step_follows s m m' rl :
  follows limit s m -> vm_wf m -> program_wf p -> portable_at p m = true ->
  VmState.max_steps m = MAX_VM_STEPS -> (forall n, tsc e n 0 <= limit) ->
  Vm.step h p m = (m', rl) ->
  exists s' rk, kernel_step e p s = (s', rk) /\ agree_step s' rk m' rl.
Proof.
  intros Hf Hm Hp Hport Hmax Ht Hstep. unfold kernel_step. unfold Vm.step in Hstep.
  pose proof (follows_shared limit s m Hf (others e (run_steps s) (shared s))) as Hw.
  cbn [vm_of set_shared timeout_tsc run_steps shared serial]. rewrite (sim_ip _ _ (fo_vm _ _ _ Hf)).
  rewrite (fo_steps _ _ _ Hf) in Hw |- *. destruct (Z.ltb_spec (len (code p)) (VmState.ip m + 4)) as [|Hip].
  { injection Hstep as <- <-. do 2 eexists. split; [reflexivity|split; [exact Hw|by split]]. }
  pose proof (Ht (VmState.steps m)) as Hr. pose proof (fo_limit _ _ _ Hf) as Hl.
  rewrite (proj2 (Z.ltb_ge (timeout_tsc s) _)) by lia.
  rewrite Hmax in Hstep.
  destruct (Z.leb_spec MAX_VM_STEPS (VmState.steps m)) as [|Hst].
  { injection Hstep as <- <-. do 2 eexists. split; [reflexivity|split; [exact Hw|by split]]. }
  destruct (fetch_ok p (VmState.ip m) Hp (proj1 (ip_wf m Hm)) Hip)
    as (op & rd & rs1 & rs2 & Hfe & _ & _ & _ & _ & _ & Hd & H1 & H2).
  unfold portable_at in Hport. rewrite Hfe in Hport.
  assert (Hfk : fetch p (VmState.ip m) = Ok (op, rd, rs1, rs2)).
  { apply fetch_getZ in Hfe as (G1 & G2 & G3 & G4). unfold fetch, idx. by rewrite G1, G2, G3, G4. }
  rewrite Hfk. cbv zeta in Hstep. change (VmState.ip (VmState.set_steps m _)) with (VmState.ip m) in Hstep.
  rewrite Hfe in Hstep. fold (fetched m) in Hstep.
  assert (Hm1 : vm_wf (fetched m)) by (apply (fetched_wf p); [done..|lia]).
  set (s1 := set_vm _ _).
  assert (Hf1 : follows limit s1 (fetched m)).
  { destruct Hf as [F1 F2 F3 F4]. constructor; simpl; [|done|done|done].
    by apply sim_set_ip, sim_set_steps. }
  pose proof (exec_follows (VmState.steps m) s1 (fetched m) op rd rs1 rs2 Hf1 Hm1 Hd H1 H2 Hport) as Hx.
  destruct (VmExec.exec h p (fetched m) op rd rs1 rs2) as [[f m1]|x|q] eqn:E; injection Hstep as <- <-.
  - destruct Hx as (s2 & -> & Hf2). do 2 eexists. split; [done|]. split_and!; [done| |done].
    apply exec_same_config in E as (E & _ & _); [|by eapply portable_not_key]. by rewrite E.
  - rewrite Hx. do 2 eexists. split; [reflexivity|split; [exact Hf1|by split]].
  - rewrite Hx. do 2 eexists. split; [reflexivity|split; [exact Hf1|by split]].
Qed.
End Steps.

(** * Every run of the kernel's machine ends *)

Definition keeps_steps (s : run_state) (r : kresult (flow * run_state)) : Prop :=
  forall f s', r = Ok (f, s') -> run_steps s' = run_steps s.

Lemma native_steps e p n s f a v x s' :
  native e p n s f a v = Ok (x, s') -> run_steps s' = run_steps s.
Proof.
  unfold native. intros H.
  repeat match type of H with (if f =? ?c then _ else _) = _ => destruct (f =? c) end;
    unfold value, effect in H;
    try (by injection H as _ <-); try (by apply bind_Ok in H as (? & _ & [= _ <-]));
    apply bind_Ok in H as (s1 & H & [= _ <-]).
  - unfold native_PRINT in H. destruct (is_text v); [|by injection H as <-].
    apply bind_Ok in H as (t & _ & [= <-]). by destruct t.
  - unfold native_PRINTLN in H. destruct (is_text v); [|case_match; by injection H as <-].
    apply bind_Ok in H as (t & _ & [= <-]). by destruct t.
  - unfold native_NET_SEND in H. apply bind_Ok in H as (t & _ & H). cbv zeta in H.
    destruct (stream_send_frame _ _ _ _ _ _) as [[] ?]; [by injection H as <-..|done].
  - unfold native_VRAM_WRITE in H. apply bind_Ok in H as (t & _ & (u & _ & H)%bind_Ok).
    cbv zeta in H. repeat case_match; try done; [|by injection H as <-].
    by apply bind_Ok in H as (? & _ & [= <-]).
Qed.

Lemma exec_steps e p n s op rd rs1 rs2 : keeps_steps s (exec e p n s op rd rs1 rs2).
Proof.
  assert (Hvm : forall r, keeps_steps s (on_vm s r)).
  { intros r f s' (k & _ & [= _ <-])%bind_Ok. done. }
  unfold exec.
  repeat match goal with |- keeps_steps s (if ?b then _ else _) => destruct b; [try apply Hvm|] end.
  - by intros f s' [= _ <-].
  - by intros f s' [= _ <-].
  - intros f s' H. apply bind_Ok in H as ([g k] & _ & [= _ <-]). done.
  - intros f s' (s1 & H & [= _ <-])%bind_Ok. unfold exec_CALL_NAT in H. cbv zeta in H.
    apply bind_Ok in H as ([x s2] & H & [= <-]). apply native_steps in H. simpl. by case_match.
  - intros f s' (s1 & H & [= _ <-])%bind_Ok. unfold exec_DROP in H. case_match; [|by injection H as <-].
    apply bind_Ok in H as (dl & _ & [= <-]). by case_match.
  - done.
Qed.

(** A step that is followed by another counts itself, below the limit. *)
Lemma kernel_step_count e p s s' r :
  0 <= run_steps s <= MAX_VM_STEPS -> kernel_step e p s = (s', r) ->
  0 <= run_steps s' <= MAX_VM_STEPS /\ run_steps s <= run_steps s' /\
  (r = Ok Next -> run_steps s' = run_steps s + 1).
Proof.
  unfold kernel_step. cbn [run_steps set_shared vm_of timeout_tsc]. intros Hn H.
  destruct (len (code p) <? _); [injection H as <- <-; simpl; split_and!; try done; lia|].
  destruct (timeout_tsc s <? _); [injection H as <- <-; simpl; split_and!; try done; lia|].
  destruct (Z.leb_spec MAX_VM_STEPS (run_steps s)); [injection H as <- <-; simpl; split_and!; try done; lia|].
  destruct (fetch p (ip (vm_of s))) as [[[[op rd] rs1] rs2]|x|q];
    [|injection H as <- <-; simpl; split_and!; try done; lia..].
  match type of H with context [exec e p ?n ?s0 _ _ _ _] => pose proof (exec_steps e p n s0 op rd rs1 rs2) as Hx end.
  destruct (exec _ _ _ _ _ _ _ _) as [[f s2]|x|q]; injection H as <- <-; simpl in *;
    [rewrite (Hx f s2 eq_refl)|..]; simpl; split_and!; try done; lia.
Qed.

Lemma kernel_loop_total fuel e p s :
  0 <= run_steps s <= MAX_VM_STEPS -> (Z.to_nat (MAX_VM_STEPS - run_steps s) < fuel)%nat ->
  exists s' r, kernel_loop fuel e p s = Some (s', r) /\ 0 <= run_steps s' <= MAX_VM_STEPS.
Proof.
  revert s. induction fuel as [|fuel IH]; intros s Hn Hfuel; [lia|]. cbn [kernel_loop].
  destruct (kernel_step e p s) as [s' r] eqn:E. apply kernel_step_count in E as (Hb & Hle & Hnx); [|done].
  destruct r as [[]|x|q]; try (do 2 eexists; by split).
  specialize (Hnx eq_refl). apply IH; [done|lia].
Qed.

Lemma kernel_loop_more fuel fuel' e p s x :
  kernel_loop fuel e p s = Some x -> (fuel <= fuel')%nat -> kernel_loop fuel' e p s = Some x.
Proof.
  revert fuel' s. induction fuel as [|fuel IH]; intros [|fuel'] s H Hle; try done; [lia|].
  cbn [kernel_loop] in *. destruct (kernel_step e p s) as [s' [[]|y|q]]; try done. apply IH; [done|lia].
Qed.

(** The result of the loop, and the checks after it. *)
Lemma kernel_loop_ok fuel e p s s' :
  kernel_loop fuel e p s = Some (s', Ok tt) ->
  run_steps s' < MAX_VM_STEPS /\ tsc e (run_steps s') 0 <= timeout_tsc s'.
Proof.
  revert s. induction fuel as [|fuel IH]; intros s; [done|]. cbn [kernel_loop].
  destruct (kernel_step e p s) as [s1 [[]|y|q]]; try done; [apply IH|].
  intros [= <- H]. unfold after_loop in H.
  destruct (Z.ltb_spec (timeout_tsc s1) (tsc e (run_steps s1) 0)); [done|].
  by destruct (Z.leb_spec MAX_VM_STEPS (run_steps s1)).
Qed.

(** ** Waits *)

(** Every wait reaches its target within the bound on the readings. *)
Definition waits_end (e : env) : Prop :=
  forall n t, 0 <= t < 2 ^ 64 -> spin_until (spins e) (tsc e n) 3 t = true.

Definition never_spins {A} (r : kresult A) : Prop := r <> Err Spinning.

Lemma spins_ret {A} (a : A) : never_spins (mret a).
Proof. done. Qed.
Lemma spins_fault {A} x y : never_spins (@fault A x y).
Proof. done. Qed.
Lemma spins_bind {A B} (r : kresult A) (f : A -> kresult B) :
  never_spins r -> (forall a, r = Ok a -> never_spins (f a)) -> never_spins (r ≫= f).
Proof. destruct r; simpl; intros H Hf; [by apply Hf|congruence|done]. Qed.
Lemma spins_fmap {A B} (r : kresult A) (f : A -> B) : never_spins r -> never_spins (f <$> r).
Proof. destruct r; simpl; unfold never_spins; congruence. Qed.
Lemma spins_idx {A} (l : list A) i : never_spins (idx l i).
Proof. unfold idx. by case_match. Qed.
Lemma spins_upd {A} (l : list A) i x : never_spins (upd l i x).
Proof. unfold upd. by case_match. Qed.
Lemma spins_slice {A} (l : list A) i j : never_spins (slice l i j).
Proof. unfold slice. by case_match. Qed.
Lemma spins_blit {A} (l : list A) i k : never_spins (blit l i k).
Proof. unfold blit. by case_match. Qed.
Lemma spins_add e a b : never_spins (tsc_add e a b).
Proof. unfold tsc_add. by repeat case_match. Qed.

(** Descend through guards and binds. *)
Ltac no_spin :=
  repeat match goal with
  | |- never_spins (if ?b then _ else _) => destruct b
  | |- never_spins (match ?x with _ => _ end) => destruct x
  | |- never_spins (mret _) => apply spins_ret
  | |- never_spins (Ok _) => done
  | |- never_spins (Panic _) => done
  | |- never_spins (fault _ _) => apply spins_fault
  | |- never_spins (_ ≫= _) => apply spins_bind; [|intros]
  | |- never_spins (_ <$> _) => apply spins_fmap
  | |- never_spins (idx _ _) => apply spins_idx
  | |- never_spins (upd _ _ _) => apply spins_upd
  | |- never_spins (slice _ _ _) => apply spins_slice
  | |- never_spins (blit _ _ _) => apply spins_blit
  | |- never_spins (tsc_add _ _ _) => apply spins_add
  end.

Section Waits.
Context (e : env) (p : program) (Hw : waits_end e) (Hclk : forall n k, 0 <= tsc e n k).

Lemma BUSY_WAIT_ends n v : never_spins (native_BUSY_WAIT e n v).
Proof.
  unfold native_BUSY_WAIT. destruct (0 <? v); [|done]. apply spins_bind; [apply spins_add|].
  intros t Ht. rewrite Hw; [done|].
  pose proof (as_u64_range (tsc e n 2 + ns_to_tsc (as_u64 v) (tsc_freq_hz e))) as Hr. unfold in_u64 in Hr.
  assert (0 <= ns_to_tsc (as_u64 v) (tsc_freq_hz e)) by apply as_u64_range.
  specialize (Hclk n 2). unfold tsc_add in Ht.
  destruct (Z.ltb_spec (tsc e n 2 + ns_to_tsc (as_u64 v) (tsc_freq_hz e)) (2 ^ 64)).
  - injection Ht as <-. lia.
  - destruct (oc e); [done|]. by injection Ht as <-.
Qed.

Lemma native_ends n s f a v : never_spins (native e p n s f a v).
Proof.
  unfold native.
  repeat match goal with |- never_spins (if f =? ?c then _ else _) => destruct (f =? c) end;
    unfold value, effect; try apply spins_ret;
    (apply spins_bind; [|intros; apply spins_ret]); try apply BUSY_WAIT_ends;
    unfold native_PRINT, native_PRINTLN, tagged_text, native_NET_SEND, native_UNWRAP, native_MATH_MIN,
      native_MATH_MAX, native_MATH_CLAMP, native_CRC32, native_VRAM_READ, native_VRAM_WRITE,
      native_FIX_TO_FIX, native_FIX_TO_I64, native_FIX_MUL, native_FIX_DIV, arg_before, fix_scale;
    cbv zeta; no_spin.
Qed.

Lemma exec_ends n s op rd rs1 rs2 : never_spins (exec e p n s op rd rs1 rs2).
Proof.
  unfold exec.
  repeat match goal with |- never_spins (if op =? ?c then _ else _) => destruct (op =? c) end;
    unfold on_vm, goes_on, exec_LDC, exec_ARR_LOAD, exec_ARR_STORE, exec_STRUCT_LOAD,
      exec_STRUCT_STORE, exec_TBL_LOAD, exec_ASSERT, exec_CALL, exec_RET, exec_DIV, exec_MOD,
      exec_CALL_NAT, exec_WITHIN_START, exec_DROP; cbv zeta; no_spin; apply native_ends.
Qed.

Lemma kernel_step_ends s : never_spins (snd (kernel_step e p s)).
Proof.
  unfold kernel_step. cbv zeta. repeat (case_match; [done|]).
  match goal with |- context [fetch p ?i] =>
    assert (Hf : never_spins (fetch p i)) by (unfold fetch; no_spin); destruct (fetch p i) as [[[[op rd] rs1] rs2]|x|q] end;
    [|simpl; unfold never_spins in *; congruence|done].
  match goal with |- context [exec e p ?n ?s0 _ _ _ _] => pose proof (exec_ends n s0 op rd rs1 rs2) as Hx end.
  destruct (exec _ _ _ _ _ _ _ _) as [[f s2]|x|q]; simpl; unfold never_spins in *; congruence.
Qed.

Lemma kernel_loop_waits fuel s s' r :
  kernel_loop fuel e p s = Some (s', r) -> never_spins r.
Proof.
  revert s. induction fuel as [|fuel IH]; intros s; [done|]. cbn [kernel_loop].
  pose proof (kernel_step_ends s) as Hs. destruct (kernel_step e p s) as [s1 r1]. simpl in Hs.
  destruct r1 as [[]|x|q]; [apply IH|..]; intros [= <- <-].
  - unfold after_loop. no_spin; done.
  - unfold never_spins in *. congruence.
  - done.
Qed.
End Waits.

Lemma kernel_run_ends e p w :
  exists s r, kernel_run e p w = Some (s, r) /\ 0 <= run_steps s <= MAX_VM_STEPS /\
    (r = Ok tt -> run_steps s < MAX_VM_STEPS /\ tsc e (run_steps s) 0 <= timeout_tsc s) /\
    (waits_end e -> (forall n k, 0 <= tsc e n k) -> never_spins r).
Proof.
  unfold kernel_run. pose proof (spins_add e (tsc e (-1) 0) (ns_to_tsc MAX_SCRIPT_TIMEOUT_NS (tsc_freq_hz e))) as Ha.
  destruct (tsc_add e _ _) as [t|x|q].
  - destruct (kernel_loop_total LOOP_FUEL e p (mkRun kernel_vm_new w [] t 0)) as (s' & r & E & Hs);
      [done|simpl; unfold LOOP_FUEL; lia|].
    exists s', r. split_and!; try done; try lia.
    + intros ->. by apply kernel_loop_ok in E.
    + intros Hw Hc. by eapply kernel_loop_waits.
  - do 2 eexists. split_and!; try done. intros _ _. unfold never_spins in *. congruence.
  - by do 2 eexists.
Qed.

(** * The refinement *)

(** What the kernel's machine reports for a run of the library's: it does not
    accept a program that ends with the last instruction it may execute. *)
Definition kernel_result (m : vm) (r : result unit) : kresult unit :=
  match r with
  | Ok _ => if MAX_VM_STEPS <=? VmState.steps m then Err wcet_exceeded else Ok tt
  | Err x => Err (Fault x)
  | Panic q => Panic q
  end.

(** The readings at the start of the rounds stay within the time limit. *)
Definition in_time (e : env) (limit : Z) : Prop := forall n, tsc e n 0 <= limit.

Lemma kernel_loop_follows fuel e h p limit s m m' r :
  clock_ok e -> in_time e limit -> limit < 2 ^ 64 ->
  follows limit s m -> vm_wf m -> program_wf p -> VmState.max_steps m = MAX_VM_STEPS ->
  portable_run fuel h p m = true -> run_with_output fuel h p m = Some (m', r) ->
  exists s', kernel_loop fuel e p s = Some (s', kernel_result m' r) /\ follows limit s' m'.
Proof.
  intros Hclk Ht Hlim. revert s m. induction fuel as [|fuel IH]; intros s m Hf Hm Hp Hmax Hport Hrun; [done|].
  cbn [portable_run run_with_output kernel_loop] in *. apply andb_true_iff in Hport as [Hat Hport].
  destruct (Vm.step h p m) as [m1 rl] eqn:Hst.
  destruct (step_follows e h p limit Hclk Hlim s m m1 rl Hf Hm Hp Hat Hmax Ht Hst)
    as (s1 & rk & -> & Hf1 & Hmax1 & Hr).
  pose proof (step_wf h p m m1 rl Hp Hm Hst) as Hm1.
  destruct rl as [[]|x|q]; rewrite Hr; [by apply (IH s1 m1)|..]; injection Hrun as <- <-;
    exists s1; (split; [|done]); try done.
  unfold after_loop. rewrite (fo_steps _ _ _ Hf1).
  rewrite (proj2 (Z.ltb_ge _ _)); [done|]. etransitivity; [apply Ht|apply Hf1].
Qed.

Lemma limit_range e :
  clock_ok e ->
  0 <= tsc e (-1) 0 + ns_to_tsc MAX_SCRIPT_TIMEOUT_NS (tsc_freq_hz e) < 2 ^ 64.
Proof.
  intros [Hclk Hfreq]. specialize (Hclk (-1) 0).
  pose proof (as_u64_range (MAX_SCRIPT_TIMEOUT_NS * tsc_freq_hz e / 1000000000)) as H.
  unfold ns_to_tsc, MAX_SCRIPT_TIMEOUT_NS in *. unfold in_u64 in H.
  assert (0 <= 5000000 * tsc_freq_hz e / 1000000000 <= 10 ^ 8).
  { split; [apply Z.div_pos; lia|]. apply Z.div_le_upper_bound; lia. }
  unfold as_u64, wrapU in *. rewrite Z.mod_small in * by lia. lia.
Qed.

Lemma kernel_run_refines e h p w fuel m r :
  program_wf p -> clock_ok e ->
  in_time e (tsc e (-1) 0 + ns_to_tsc MAX_SCRIPT_TIMEOUT_NS (tsc_freq_hz e)) ->
  portable_run fuel h p VmState.new = true -> run_with_output fuel h p VmState.new = Some (m, r) ->
  exists s, kernel_run e p w = Some (s, kernel_result m r) /\
    sim (vm_of s) m /\ serial s = output m /\ run_steps s = VmState.steps m.
Proof.
  intros Hp Hclk Ht Hport Hrun. pose proof (limit_range e Hclk) as Hl.
  set (limit := tsc e (-1) 0 + _) in *.
  assert (Hadd : tsc_add e (tsc e (-1) 0) (ns_to_tsc MAX_SCRIPT_TIMEOUT_NS (tsc_freq_hz e)) = Ok limit).
  { unfold tsc_add. fold limit. by rewrite (proj2 (Z.ltb_lt _ _)) by lia. }
  assert (Hf : follows limit (mkRun kernel_vm_new w [] limit 0) VmState.new).
  { constructor; simpl; [apply sim_new|done..]. }
  destruct (kernel_loop_follows fuel e h p limit _ _ m r Hclk Ht (proj2 Hl) Hf new_wf Hp eq_refl Hport Hrun)
    as (s & Hk & Hf').
  exists s. destruct Hf' as [F1 F2 F3 _]. split_and!; [|done..].
  destruct (kernel_run_ends e p w) as (s' & r' & E & _). unfold kernel_run in *. rewrite Hadd in *.
  rewrite E. apply (kernel_loop_more _ (fuel + LOOP_FUEL)) in E; [|lia].
  apply (kernel_loop_more _ (fuel + LOOP_FUEL)) in Hk; [|lia]. by rewrite <-E.
Qed.

(** C14: on a portable run that meets its time limit the kernel's machine does
    what the library's does: the same registers, stacks and memory, the same
    output, the same error or panic; and success too, unless the program ends
    with the last instruction of the limit, which the kernel reports as an
    endless loop. The clock, the devices and the other cores are arbitrary. *)
Theorem kernel_refines_library e h p w fuel m r :
  program_wf p -> clock_ok e ->
  in_time e (tsc e (-1) 0 + ns_to_tsc MAX_SCRIPT_TIMEOUT_NS (tsc_freq_hz e)) ->
  portable_run fuel h p VmState.new = true -> run_with_output fuel h p VmState.new = Some (m, r) ->
  exists s, kernel_run e p w = Some (s, kernel_result m r) /\
    sim (vm_of s) m /\ serial s = output m /\ run_steps s = VmState.steps m.
Proof. apply kernel_run_refines. Qed.

(** An array element stored, read and printed by a function that is called. *)
Definition sample_program : program := mkProgram
  [PX64_OP_ARR_DEF; 0; 0; 4;  PX64_OP_MOV_IMM; 1; 0; 2;  PX64_OP_MOV_IMM; 2; 0; 42;
   PX64_OP_ARR_STORE; 0; 1; 2;  PX64_OP_CALL; 0; 0; 28;  PX64_OP_CALL_NAT; 4; NATIVE_PRINTLN; 0;
   PX64_OP_HALT; 0; 0; 0;
   PX64_OP_ARR_LOAD; 0; 0; 1;  PX64_OP_MOV_STR; 5; 0; 3;  PX64_OP_CALL_NAT; 6; NATIVE_PRINT; 5;
   PX64_OP_RET; 0; 0; 0] (bytes "n: ") [] [].

(** A kernel at rest, with the counter stopped. *)
Definition idle_env : env :=
  mkEnv (fun _ _ => 1000) (fun _ _ => 0) (fun i => 1048576 + i * 65536) 0 (fun _ w => w)
    3000000000 false 10.

Lemma sample_program_wf : program_wf sample_program.
Proof. constructor; compute_fact. Qed.

Lemma idle_clock : clock_ok idle_env.
Proof. split; [done|]. simpl. lia. Qed.

Example kernel_refines_library_witness :
  exists s m, run_with_output 20 (no_std_host (fun _ => 0)) sample_program VmState.new = Some (m, Ok tt) /\
    kernel_run idle_env sample_program (kernel_image nic_static) = Some (s, Ok tt) /\
    serial s = bytes "n: 42" ++ [10].
Proof.
  destruct (run_with_output 20 (no_std_host (fun _ => 0)) sample_program VmState.new) as [[m r]|] eqn:E;
    [|vm_compute in E; discriminate E].
  assert (Hm : r = Ok tt /\ output m = bytes "n: 42" ++ [10] /\ VmState.steps m = 11).
  { vm_compute in E. injection E as <- <-. by split_and!. }
  destruct Hm as (-> & Ho & Hn).
  destruct (kernel_refines_library idle_env (no_std_host (fun _ => 0)) sample_program (kernel_image nic_static) 20 m (Ok tt))
    as (s & Hs & _ & Hser & _).
  - exact sample_program_wf.
  - exact idle_clock.
  - intros n. vm_compute. congruence.
  - vm_compute. reflexivity.
  - exact E.
  - exists s, m. rewrite <-Ho, <-Hser. split_and!; [reflexivity| |reflexivity].
    rewrite Hs. unfold kernel_result. rewrite Hn. reflexivity.
Defined.
