(* ===== verification/LegacyVm.v ===== *)
(** The stack machine the kernel keeps for containers of the first format ([VM]
    in kernel/src/lang.rs), and what every run of it satisfies: it ends within
    the instruction limit, its stacks stay within their arrays, and a panic has
    one of a few causes. The environment, the natives that act on the kernel and
    the shared state are those of KernelVm.v. *)

From S2P Require Import Prelude RustStd Isa Token Error Crc VmState VmExec.
From S2P Require Import Vfs Tsc Ring Nic Gpu Net Pipeline KernelVm.
Local Open Scope Z_scope.

(** * The machine *)

Record VM : Set := mkVM {
  ip : Z;
  stack : list Z;
  sp : Z;
  vars : list Z;
  deadline_stack : list Z;
  dl_sp : Z;
}.

Definition legacy_new : VM :=
  mkVM 0 (replicate 64 0) 0 (replicate 48 0) (replicate 8 0) 0.

Definition set_ip (m : VM) (v : Z) : VM := mkVM v (stack m) (sp m) (vars m) (deadline_stack m) (dl_sp m).
Definition set_stack (m : VM) (s : list Z) (n : Z) : VM := mkVM (ip m) s n (vars m) (deadline_stack m) (dl_sp m).
Definition set_vars (m : VM) (v : list Z) : VM := mkVM (ip m) (stack m) (sp m) v (deadline_stack m) (dl_sp m).
Definition set_deadlines (m : VM) (d : list Z) (n : Z) : VM := mkVM (ip m) (stack m) (sp m) (vars m) d n.

Notation run_state := (run_of VM).

Definition push (m : VM) (val : Z) : kresult VM :=
  if 64 <=? sp m then fault "ERR_VM_STACK_OVERFLOW" "VM Evaluation stack overflow"
  else s ← upd (stack m) (sp m) val; mret (set_stack m s (sp m + 1)).

Definition pop (m : VM) : kresult (Z * VM) :=
  if sp m =? 0 then fault "ERR_VM_STACK_UNDERFLOW" "VM Evaluation stack underflow"
  else v ← idx (stack m) (sp m - 1); mret (v, set_stack m (stack m) (sp m - 1)).

(** [let (b, a) = (self.pop()?, self.pop()?); self.push(f(a, b)?)?]. *)
Definition binary (m : VM) (f : Z -> Z -> kresult Z) : kresult VM :=
  '(b, m) ← pop m;
  '(a, m) ← pop m;
  v ← f a b;
  push m v.

Definition compare (m : VM) (f : Z -> Z -> bool) : kresult VM := binary m (fun a b => mret (b2z (f a b))).

(** [a / b] and [a % b] on [i64]: the quotient of the least integer by -1
    overflows, which every build checks. *)
Definition checked_div (a b : Z) : kresult Z :=
  if b =? 0 then mret 0
  else if (a =? - 2 ^ 63) && (b =? -1) then Panic ArithmeticOverflow
  else mret (Z.quot a b).
Definition checked_rem (a b : Z) : kresult Z :=
  if b =? 0 then mret 0
  else if (a =? - 2 ^ 63) && (b =? -1) then Panic ArithmeticOverflow
  else mret (Z.rem a b).

(** * Instructions

    [ip] is behind the opcode. *)

(** [u16::from_be_bytes([self.code[i], self.code[i + 1]])]. *)
Definition code_u16 (p : program) (i : Z) : kresult Z :=
  a ← idx (code p) i; b ← idx (code p) (i + 1); mret (a * 256 + b).

(** The eight bytes at [ip], as an [i64]; [ip] moves behind them. *)
Definition code_i64 (p : program) (m : VM) : kresult (Z * VM) :=
  b ← slice (code p) (ip m) (ip m + 8); mret (as_i64 (be_to_Z b), set_ip m (ip m + 8)).

Definition exec_PUSH_CONST (p : program) (m : VM) : kresult VM :=
  '(v, m) ← code_i64 p m; push m v.

Definition exec_LOAD_VAR (p : program) (m : VM) : kresult VM :=
  i ← idx (code p) (ip m);
  v ← idx (vars m) i;
  push (set_ip m (ip m + 1)) v.

Definition exec_STORE_VAR (p : program) (m : VM) : kresult VM :=
  i ← idx (code p) (ip m);
  '(v, m) ← pop (set_ip m (ip m + 1));
  vs ← upd (vars m) i v;
  mret (set_vars m vs).

Definition exec_JUMP (p : program) (m : VM) : kresult VM :=
  target ← code_u16 p (ip m); mret (set_ip m target).

Definition exec_JUMP_IF_FALSE (p : program) (m : VM) : kresult VM :=
  target ← code_u16 p (ip m);
  '(cond, m) ← pop (set_ip m (ip m + 2));
  mret (if cond =? 0 then set_ip m target else m).

Definition exec_PUSH_STR (p : program) (m : VM) : kresult VM :=
  offset ← code_u16 p (ip m);
  length ← code_u16 p (ip m + 2);
  push (set_ip m (ip m + 4)) (Z.lor (Z.lor STR_TAG (as_i64 (Z.shiftl offset 32))) length).

(** [budget_ns * tsc_freq_hz] on [u64]. *)
Definition mul_u64 (e : env) (a b : Z) : kresult Z :=
  if a * b <? 2 ^ 64 then Ok (a * b)
  else if oc e then Panic ArithmeticOverflow else Ok (as_u64 (a * b)).

Definition exec_WITHIN_START (e : env) (p : program) (n : Z) (m : VM) : kresult VM :=
  '(b, m) ← code_i64 p m;
  let budget_ns := as_u64 b in
  tsc_budget ← (if 0 <? tsc_freq_hz e then
                  c ← mul_u64 e budget_ns (tsc_freq_hz e); mret (c / 1000000000)
                else mul_u64 e budget_ns 3);
  if dl_sp m <? 8 then
    deadline ← tsc_add e (tsc e n 1) tsc_budget;
    ds ← upd (deadline_stack m) (dl_sp m) deadline;
    mret (set_deadlines m ds (dl_sp m + 1))
  else mret m.

Definition exec_WITHIN_END (m : VM) : VM :=
  if 0 <? dl_sp m then set_deadlines m (deadline_stack m) (dl_sp m - 1) else m.

Definition exec_DROP (e : env) (n : Z) (s : run_state) : kresult run_state :=
  let m := vm_of s in
  if 0 <? dl_sp m then
    dl ← idx (deadline_stack m) (dl_sp m - 1);
    mret (if dl <? tsc e n 1 then serial_print s drop_message else s)
  else mret s.

(** ** Natives: they take their argument from the stack and push their result *)

Definition push_result (s : run_state) (v : Z) : kresult run_state :=
  m ← push (vm_of s) v; mret (set_vm s m).

Definition pop_arg (s : run_state) : kresult (Z * run_state) :=
  '(v, m) ← pop (vm_of s); mret (v, set_vm s m).

Definition legacy_PRINT (e : env) (p : program) (s : run_state) (argc : Z) : kresult run_state :=
  s ← (if 0 <? argc then '(v, s) ← pop_arg s; native_PRINT e p s v else mret s);
  push_result s 0.

Definition legacy_PRINTLN (e : env) (p : program) (s : run_state) (argc : Z) : kresult run_state :=
  s ← (if 0 <? argc then
         '(v, s) ← pop_arg s;
         if is_text v then
           t ← tagged_text e p v;
           mret (match t with Some t => serial_print s (t ++ [10]) | None => s end)
         else mret (serial_print s (show_Z v ++ [10]))
       else mret (serial_print s [10]));
  push_result s 0.

Definition legacy_NET_SET_RATE (s : run_state) (argc : Z) : kresult run_state :=
  s ← (if 0 <? argc then '(v, s) ← pop_arg s; mret (native_NET_SET_RATE s v) else mret s);
  push_result s 0.

Definition legacy_GPU_CAPTURE (e : env) (n : Z) (s : run_state) : kresult run_state :=
  let '(slot, s) := native_GPU_CAPTURE e n s in push_result s slot.

(** A frame is captured into slot 0 and sent whole, with the sequence number 1. *)
Definition legacy_NET_SEND (e : env) (n : Z) (s : run_state) (argc : Z) : kresult run_state :=
  s ← (if 0 <? argc then
         '(_, s) ← pop_arg s;
         let w := shared s in
         let '(handle, v) := capture_frame_zero_copy (slot_addr e) (pool w) 0 1 (tsc e n 2) (tsc e n 3) in
         deadline ← tsc_add e (tsc e n 4) (ns_to_tsc 50000000 (tsc_freq_hz e));
         let '(r, x) := stream_send_frame (slot_memory (slot_addr e) v) (fun k => tsc e n (5 + k))
                          (src_mac_of (sink (net w))) handle deadline
                          (mkSender 1 (sink (net w)) (ctl (net w))) in
         match r with
         | Panic k => Panic k
         | _ => mret (set_shared s (set_net (set_pool w v) (mkSender (packet_seq (net w)) (sink x) (ctl x))))
         end
       else mret s);
  push_result s 1.

Definition legacy_SCRIPT_ARG (s : run_state) (argc : Z) : kresult run_state :=
  if 0 <? argc then '(v, s) ← pop_arg s; push_result s (native_SCRIPT_ARG v) else push_result s 0.

Definition legacy_native (e : env) (p : program) (n : Z) (s : run_state) (func_id argc : Z)
    : kresult run_state :=
  if func_id =? NATIVE_PRINT then legacy_PRINT e p s argc
  else if func_id =? NATIVE_PRINTLN then legacy_PRINTLN e p s argc
  else if func_id =? NATIVE_SYS_TSC then push_result s (as_i64 (tsc e n 2))
  else if func_id =? NATIVE_NET_RTT then push_result s (as_i64 (LAST_RTT_NS (ctl (net (shared s)))))
  else if func_id =? NATIVE_NET_SET_RATE then legacy_NET_SET_RATE s argc
  else if func_id =? NATIVE_GPU_CAPTURE then legacy_GPU_CAPTURE e n s
  else if func_id =? NATIVE_NET_SEND then legacy_NET_SEND e n s argc
  else if func_id =? NATIVE_SCRIPT_ARGC then push_result s (len (args p))
  else if func_id =? NATIVE_SCRIPT_ARG then legacy_SCRIPT_ARG s argc
  else mret s.

Definition exec_CALL_NATIVE (e : env) (p : program) (n : Z) (s : run_state) : kresult run_state :=
  let m := vm_of s in
  func_id ← idx (code p) (ip m);
  argc ← idx (code p) (ip m + 1);
  s ← legacy_native e p n (set_vm s (set_ip m (ip m + 2))) func_id argc;
  mret (if is_blocking_io func_id then extend_timeout e n s else s).

(** * The [match op] *)

Definition goes_on (r : kresult run_state) : kresult (flow * run_state) := s ← r; mret (Next, s).

Definition on_vm (s : run_state) (r : kresult VM) : kresult (flow * run_state) :=
  m ← r; mret (Next, set_vm s m).

Definition legacy_exec (e : env) (p : program) (n : Z) (s : run_state) (op : Z)
    : kresult (flow * run_state) :=
  let m := vm_of s in
  if op =? OP_NOP then mret (Next, s)
  else if op =? OP_PUSH_CONST then on_vm s (exec_PUSH_CONST p m)
  else if op =? OP_LOAD_VAR then on_vm s (exec_LOAD_VAR p m)
  else if op =? OP_STORE_VAR then on_vm s (exec_STORE_VAR p m)
  else if op =? OP_ADD then on_vm s (binary m (fun a b => mret (wrapping_add a b)))
  else if op =? OP_SUB then on_vm s (binary m (fun a b => mret (wrapping_sub a b)))
  else if op =? OP_MUL then on_vm s (binary m (fun a b => mret (wrapping_mul a b)))
  else if op =? OP_DIV then on_vm s (binary m checked_div)
  else if op =? OP_MOD then on_vm s (binary m checked_rem)
  else if op =? OP_CMP_EQ then on_vm s (compare m Z.eqb)
  else if op =? OP_CMP_NE then on_vm s (compare m (fun a b => negb (a =? b)))
  else if op =? OP_CMP_LT then on_vm s (compare m Z.ltb)
  else if op =? OP_CMP_LE then on_vm s (compare m Z.leb)
  else if op =? OP_CMP_GT then on_vm s (compare m (fun a b => b <? a))
  else if op =? OP_CMP_GE then on_vm s (compare m (fun a b => b <=? a))
  else if op =? OP_JUMP then on_vm s (exec_JUMP p m)
  else if op =? OP_JUMP_IF_FALSE then on_vm s (exec_JUMP_IF_FALSE p m)
  else if op =? OP_PUSH_STR then on_vm s (exec_PUSH_STR p m)
  else if op =? OP_CALL_NATIVE then goes_on (exec_CALL_NATIVE e p n s)
  else if op =? OP_WITHIN_START then on_vm s (exec_WITHIN_START e p n m)
  else if op =? OP_WITHIN_END then on_vm s (mret (exec_WITHIN_END m))
  else if op =? OP_DROP then goes_on (exec_DROP e n s)
  else if op =? OP_HALT then mret (Break, s)
  else fault "ERR_VM_INVALID_OPCODE" "Invalid opcode".

(** * The loop *)

Definition legacy_timeout : stop := Fault (simple "ERR_PX64_TIMEOUT_EXCEEDED"
  "Execution exceeded 5.0ms wall-clock execution deadline (watchdog safety violation)").

Definition legacy_step (e : env) (p : program) (s : run_state) : run_state * kresult flow :=
  let n := run_steps s in
  let s := set_shared s (others e n (shared s)) in
  if len (code p) <=? ip (vm_of s) then (s, Ok Break)
  else if MAX_VM_STEPS <=? run_steps s then (s, Err wcet_exceeded)
  else if timeout_tsc s <? tsc e n 0 then (s, Err legacy_timeout)
  else
    let s := mkRun (vm_of s) (shared s) (serial s) (timeout_tsc s) (run_steps s + 1) in
    match idx (code p) (ip (vm_of s)) with
    | Ok op =>
      let s := set_vm s (set_ip (vm_of s) (ip (vm_of s) + 1)) in
      match legacy_exec e p n s op with
      | Ok (f, s) => (s, Ok f)
      | Err x => (s, Err x)
      | Panic k => (s, Panic k)
      end
    | Err x => (s, Err x)
    | Panic k => (s, Panic k)
    end.

Fixpoint legacy_loop (fuel : nat) (e : env) (p : program) (s : run_state)
    : option (run_state * kresult unit) :=
  match fuel with
  | O => None
  | S fuel =>
    match legacy_step e p s with
    | (s, Ok Next) => legacy_loop fuel e p s
    | (s, Ok Break) => Some (s, Ok tt)
    | (s, Err x) => Some (s, Err x)
    | (s, Panic k) => Some (s, Panic k)
    end
  end.

(** [VM::run] on a new machine. *)
Definition legacy_run (e : env) (p : program) (w : machine) : option (run_state * kresult unit) :=
  match tsc_add e (tsc e (-1) 0) (ns_to_tsc MAX_SCRIPT_TIMEOUT_NS (tsc_freq_hz e)) with
  | Ok t => legacy_loop LOOP_FUEL e p (mkRun legacy_new w [] t 0)
  | Err x => Some (mkRun legacy_new w [] 0 0, Err x)
  | Panic k => Some (mkRun legacy_new w [] 0 0, Panic k)
  end.

(** * The invariant of the stacks *)

Record legacy_wf (m : VM) : Prop := {
  stack_size : len (stack m) = 64;
  sp_range : 0 <= sp m <= 64;
  vars_size : len (vars m) = 48;
  deadlines_size : len (deadline_stack m) = 8;
  dl_range : 0 <= dl_sp m <= 8;
}.

Definition ok_vm (r : kresult VM) : Prop := forall m, r = Ok m -> legacy_wf m.
Definition ok_pop {A} (r : kresult (A * VM)) : Prop := forall v m, r = Ok (v, m) -> legacy_wf m.
Definition ok_run (n : Z) (r : kresult run_state) : Prop :=
  forall s, r = Ok s -> legacy_wf (vm_of s) /\ run_steps s = n.

Lemma legacy_set_ip_wf m v : legacy_wf m -> legacy_wf (set_ip m v).
Proof. by intros []. Qed.

Lemma set_vars_wf m i v vs : legacy_wf m -> @upd stop Z (vars m) i v = Ok vs -> legacy_wf (set_vars m vs).
Proof. intros [] [_ ->]%upd_Ok. constructor; simpl; try done. by rewrite len_setZ. Qed.

Lemma push_wf m v : legacy_wf m -> ok_vm (push m v).
Proof.
  intros [] m'. unfold push. destruct (Z.leb_spec 64 (sp m)); [done|].
  intros (s & [_ ->]%upd_Ok & [= <-])%bind_Ok. constructor; simpl; try done; [by rewrite len_setZ|lia].
Qed.

Lemma pop_wf m : legacy_wf m -> ok_pop (pop m).
Proof.
  intros [] v m'. unfold pop. destruct (Z.eqb_spec (sp m) 0); [done|].
  intros (x & _ & [= _ <-])%bind_Ok. constructor; simpl; try done. lia.
Qed.

(** A stack access is never out of its array: only the stack's own diagnostics. *)
Lemma push_no_panic m v k : legacy_wf m -> push m v <> Panic k.
Proof.
  intros [Hs Hr _ _ _]. unfold push. destruct (Z.leb_spec 64 (sp m)); [done|].
  rewrite upd_in_range by lia. done.
Qed.

Lemma pop_no_panic m k : legacy_wf m -> pop m <> Panic k.
Proof.
  intros [Hs Hr _ _ _]. unfold pop. destruct (Z.eqb_spec (sp m) 0); [done|].
  destruct (@idx_in_range stop Z (stack m) (sp m - 1)) as (x & -> & _); [lia|done].
Qed.

Lemma binary_wf m f : legacy_wf m -> ok_vm (binary m f).
Proof.
  intros Hm m'. unfold binary. intros ([b m1] & H1 & H)%bind_Ok.
  apply bind_Ok in H as ([a m2] & H2 & (v & _ & H)%bind_Ok).
  apply pop_wf in H1; [|done]. apply pop_wf in H2; [|done]. by eapply push_wf.
Qed.

Lemma code_i64_wf p m : legacy_wf m -> ok_pop (code_i64 p m).
Proof. intros Hm v m'. intros (b & _ & [= _ <-])%bind_Ok. by apply legacy_set_ip_wf. Qed.

(** What a handler that works on the machine alone does to the invariant. *)
Lemma vm_ops_wf e p n m :
  legacy_wf m ->
  ok_vm (exec_PUSH_CONST p m) /\ ok_vm (exec_LOAD_VAR p m) /\ ok_vm (exec_STORE_VAR p m) /\
  ok_vm (exec_JUMP p m) /\ ok_vm (exec_JUMP_IF_FALSE p m) /\ ok_vm (exec_PUSH_STR p m) /\
  ok_vm (exec_WITHIN_START e p n m).
Proof.
  intros Hm. split_and!; intros m'.
  - intros ([v m1] & H1%code_i64_wf & H)%bind_Ok; [|done]. by eapply push_wf.
  - intros (i & _ & (v & _ & H)%bind_Ok)%bind_Ok. eapply push_wf; [|exact H]. by apply legacy_set_ip_wf.
  - intros (i & _ & ([v m1] & H1 & (vs & Hv & [= <-])%bind_Ok)%bind_Ok)%bind_Ok.
    eapply set_vars_wf; [|exact Hv]. eapply pop_wf; [|exact H1]. by apply legacy_set_ip_wf.
  - intros (t & _ & [= <-])%bind_Ok. by apply legacy_set_ip_wf.
  - intros (t & _ & ([c m1] & H1 & [= <-])%bind_Ok)%bind_Ok.
    apply pop_wf in H1; [|by apply legacy_set_ip_wf]. case_match; [by apply legacy_set_ip_wf|done].
  - intros (o & _ & (l & _ & H)%bind_Ok)%bind_Ok. eapply push_wf; [|exact H]. by apply legacy_set_ip_wf.
  - intros ([b m1] & H1%code_i64_wf & (t & _ & H)%bind_Ok)%bind_Ok; [|done].
    destruct (Z.ltb_spec (dl_sp m1) 8); [|by injection H as <-].
    apply bind_Ok in H as (d & _ & (ds & [_ ->]%upd_Ok & [= <-])%bind_Ok).
    destruct H1. constructor; simpl; try done; [by rewrite len_setZ|lia].
Qed.

Lemma push_result_ok n s v : legacy_wf (vm_of s) -> run_steps s = n -> ok_run n (push_result s v).
Proof. intros Hs Hn s' (m & H & [= <-])%bind_Ok. split; [by eapply push_wf|done]. Qed.

Lemma pop_arg_ok n s v s' :
  legacy_wf (vm_of s) -> run_steps s = n -> pop_arg s = Ok (v, s') -> legacy_wf (vm_of s') /\ run_steps s' = n.
Proof. intros Hs Hn ([x m] & H & [= _ <-])%bind_Ok. split; [by eapply pop_wf|done]. Qed.

(** A native that prepares a state and pushes its result. *)
Lemma push_after n (r : kresult run_state) v : ok_run n r -> ok_run n (r ≫= fun s => push_result s v).
Proof. intros H s' (s & Hs & H')%bind_Ok. apply H in Hs as [H1 H2]. by eapply push_result_ok. Qed.

Lemma if_ok n (b : bool) (x y : kresult run_state) : ok_run n x -> ok_run n y -> ok_run n (if b then x else y).
Proof. by destruct b. Qed.

Lemma ret_ok n s : legacy_wf (vm_of s) -> run_steps s = n -> ok_run n (mret s).
Proof. by intros H1 H2 s' [= <-]. Qed.

Lemma arg_ok n s (f : Z * run_state -> kresult run_state) :
  legacy_wf (vm_of s) -> run_steps s = n ->
  (forall v s', legacy_wf (vm_of s') -> run_steps s' = n -> ok_run n (f (v, s'))) ->
  ok_run n (pop_arg s ≫= f).
Proof.
  intros Hs Hn Hf s' ([v s1] & H1 & H)%bind_Ok. apply (pop_arg_ok n) in H1 as [Hw Hn1]; [|done..].
  by apply (Hf v s1 Hw Hn1).
Qed.

Lemma print_ok n e p (s : run_state) v :
  legacy_wf (vm_of s) -> run_steps s = n -> ok_run n (native_PRINT e p s v).
Proof.
  intros Hs Hn. unfold native_PRINT. apply if_ok; [|by apply ret_ok].
  intros s' (t & _ & [= <-])%bind_Ok. by case_match.
Qed.

#[local] Hint Resolve push_result_ok push_after ret_ok print_ok : legacy.

Lemma legacy_native_ok e p k n s f argc :
  legacy_wf (vm_of s) -> run_steps s = n -> ok_run n (legacy_native e p k s f argc).
Proof.
  intros Hs Hn. unfold legacy_native.
  repeat match goal with |- ok_run _ (if f =? ?c then _ else _) => apply if_ok end; auto with legacy.
  - apply push_after, if_ok; [|by apply ret_ok]. apply arg_ok; [done..|]. auto with legacy.
  - apply push_after, if_ok; [|by apply ret_ok]. apply arg_ok; [done..|]. intros v s1 H1 H2.
    apply if_ok; [|by apply ret_ok]. intros s' (t & _ & [= <-])%bind_Ok. by case_match.
  - apply push_after, if_ok; [|by apply ret_ok]. apply arg_ok; [done..|]. intros v s1 H1 H2. by apply ret_ok.
  - unfold legacy_GPU_CAPTURE. destruct (native_GPU_CAPTURE e k s) as [v s1] eqn:E.
    injection E as <- <-. by apply push_result_ok.
  - apply push_after, if_ok; [|by apply ret_ok]. apply arg_ok; [done..|]. intros v s1 H1 H2.
    cbv zeta. destruct (capture_frame_zero_copy _ _ _ _ _ _) as [h v1].
    intros s' (d & _ & H)%bind_Ok.
    destruct (stream_send_frame _ _ _ _ _ _) as [[] ?]; [by injection H as <-..|done].
  - apply if_ok; [|by apply push_result_ok]. apply arg_ok; [done..|]. auto with legacy.
Qed.

Lemma legacy_exec_ok e p n s op f s' :
  legacy_wf (vm_of s) -> legacy_exec e p n s op = Ok (f, s') ->
  legacy_wf (vm_of s') /\ run_steps s' = run_steps s.
Proof.
  intros Hs. pose proof (vm_ops_wf e p n (vm_of s) Hs) as (O1 & O2 & O3 & O4 & O5 & O6 & O7).
  pose proof (binary_wf (vm_of s)) as Hb.
  assert (Hvm : forall r, ok_vm r -> on_vm s r = Ok (f, s') -> legacy_wf (vm_of s') /\ run_steps s' = run_steps s).
  { intros r Hr (m & H & [= _ <-])%bind_Ok. split; [by apply Hr|done]. }
  assert (Hgo : forall r, ok_run (run_steps s) r -> goes_on r = Ok (f, s') ->
    legacy_wf (vm_of s') /\ run_steps s' = run_steps s).
  { intros r Hr (x & H & [= _ <-])%bind_Ok. by apply Hr in H. }
  unfold legacy_exec, compare.
  repeat match goal with |- (if op =? ?c then _ else _) = _ -> _ => destruct (op =? c) end;
    try (by intros [= _ <-]); try (apply Hvm; by auto); try done.
  - apply Hgo. intros x (fn & _ & (argc & _ & (s1 & H & [= <-])%bind_Ok)%bind_Ok)%bind_Ok.
    apply (legacy_native_ok _ _ _ (run_steps s)) in H as [H1 H2]; [|by apply legacy_set_ip_wf|done].
    by case_match.
  - apply Hvm. intros m [= <-]. unfold exec_WITHIN_END. destruct Hs. case_match eqn:E; [|done].
    apply Z.ltb_lt in E. constructor; simpl; try done. lia.
  - apply Hgo. unfold exec_DROP. apply if_ok; [|by apply ret_ok].
    intros x (dl & _ & [= <-])%bind_Ok. by case_match.
Qed.

Lemma legacy_step_ok e p s s' r :
  legacy_wf (vm_of s) -> 0 <= run_steps s <= MAX_VM_STEPS -> legacy_step e p s = (s', r) ->
  legacy_wf (vm_of s') /\ 0 <= run_steps s' <= MAX_VM_STEPS /\
  (r = Ok Next -> run_steps s' = run_steps s + 1).
Proof.
  intros Hs Hn. unfold legacy_step. cbn [vm_of run_steps set_shared timeout_tsc shared serial].
  destruct (len (code p) <=? _); [by intros [= <- <-]|].
  destruct (Z.leb_spec MAX_VM_STEPS (run_steps s)); [by intros [= <- <-]|].
  destruct (timeout_tsc s <? _); [by intros [= <- <-]|].
  destruct (idx (code p) _) as [op|x|q]; [|intros [= <- <-]; simpl; split_and!; try done; lia..].
  match goal with |- context [legacy_exec e p ?n ?s0 op] =>
    pose proof (legacy_exec_ok e p n s0 op) as Hx; destruct (legacy_exec e p n s0 op) as [[f s2]|x|q] end;
    intros [= <- <-].
  - destruct (Hx f s2) as [H1 H2]; [by apply legacy_set_ip_wf|done|]. simpl in H2. split_and!; [done|lia..].
  - simpl. split_and!; [by apply legacy_set_ip_wf|lia..|done].
  - simpl. split_and!; [by apply legacy_set_ip_wf|lia..|done].
Qed.

Lemma legacy_loop_ok fuel e p s :
  legacy_wf (vm_of s) -> 0 <= run_steps s <= MAX_VM_STEPS ->
  (Z.to_nat (MAX_VM_STEPS - run_steps s) < fuel)%nat ->
  exists s' r, legacy_loop fuel e p s = Some (s', r) /\ legacy_wf (vm_of s') /\
    0 <= run_steps s' <= MAX_VM_STEPS.
Proof.
  revert s. induction fuel as [|fuel IH]; intros s Hs Hn Hf; [lia|]. cbn [legacy_loop].
  destruct (legacy_step e p s) as [s1 r] eqn:E. apply legacy_step_ok in E as (H1 & H2 & H3); [|done..].
  destruct r as [[]|x|q]; try (do 2 eexists; split; [reflexivity|by split]).
  specialize (H3 eq_refl). apply IH; [done..|lia].
Qed.

(** Every run of the stack machine ends within the instruction limit, and leaves
    its stacks within their arrays, on any bytes. *)
Lemma legacy_run_total e p w :
  exists s r, legacy_run e p w = Some (s, r) /\ legacy_wf (vm_of s) /\
    0 <= run_steps s <= MAX_VM_STEPS.
Proof.
  assert (Hnew : legacy_wf legacy_new) by (by constructor). unfold legacy_run.
  destruct (tsc_add _ _ _) as [t|x|q].
  - apply legacy_loop_ok; [done|done|]. unfold LOOP_FUEL. simpl. lia.
  - do 2 eexists. split; [reflexivity|by split].
  - do 2 eexists. split; [reflexivity|by split].
Qed.

(** * Concrete runs *)

Definition legacy_env : env :=
  mkEnv (fun _ _ => 1000) (fun _ _ => 0) (fun i => 1048576 + i * 65536) 0 (fun _ w => w)
    3000000000 false 10.

Definition legacy_outcome (code : list Z) : option (list Z * kresult unit) :=
  match legacy_run legacy_env (mkProgram code [] [] []) (kernel_image nic_static) with
  | Some (s, r) => Some (serial s, r)
  | None => None
  end.

(** 7 * 6, printed; a division that overflows; an operand cut off by the end of
    the code; a variable beyond the array; an empty stack. *)
Example legacy_runs :
  legacy_outcome ([OP_PUSH_CONST] ++ Z_to_be 8 7 ++ [OP_PUSH_CONST] ++ Z_to_be 8 6 ++
    [OP_MUL; OP_CALL_NATIVE; NATIVE_PRINT; 1; OP_HALT]) = Some (bytes "42", Ok tt) /\
  legacy_outcome ([OP_PUSH_CONST] ++ Z_to_be 8 (2 ^ 63) ++ [OP_PUSH_CONST] ++ Z_to_be 8 (2 ^ 64 - 1) ++
    [OP_DIV]) = Some ([], Panic ArithmeticOverflow) /\
  legacy_outcome [OP_PUSH_CONST; 1; 2] = Some ([], Panic SliceOutOfRange) /\
  legacy_outcome [OP_LOAD_VAR; 48] = Some ([], Panic IndexOutOfBounds) /\
  legacy_outcome [OP_ADD] = Some ([], fault "ERR_VM_STACK_UNDERFLOW" "VM Evaluation stack underflow").
Proof. split_and!; vm_compute; reflexivity. Qed.
