(* ===== verification/Kernel.v ===== *)
(** How the kernel runs a program (the entry points of kernel/src/lang.rs): the
    arguments of a script, [run_pulse_script] from source text, [run_pulse_binary]
    from a container, and [run_pulse_auto], which tells them apart. They compose
    the lexer, the compiler and the loader with the machines of KernelVm.v and
    LegacyVm.v. *)

From S2P Require Import Prelude RustStd Isa Token Error Crc VmState VmExec Vm VmRun Binary Lexer LexerProps.
From S2P Require Import Vfs Tsc Ring Nic Gpu Net Pipeline LegacyVm KernelVm KernelSim.
From S2P Require Import CompErrors Compiler CompDecl CompExpr CompStmt.
From S2P Require Import CompLogic CompPrim CompDeclSpec CompExprSpec CompLevelSpec CompStmtSpec CompMatchSpec CompTotal Toolchain.
Local Open Scope Z_scope.

(** * The arguments of a script *)

Fixpoint skip_byte (b : Z) (l : list Z) : list Z :=
  match l with c :: l' => if c =? b then skip_byte b l' else l | [] => [] end.

(** [s.trim_matches(c)] for a character of one byte. *)
Definition trim_matches (b : Z) (l : list Z) : list Z := rev (skip_byte b (rev (skip_byte b l))).

(** [SCRIPT_ARGS], with its lengths and its count: at most eight arguments, at
    most 128 bytes of each, without their quotes. *)
Definition set_script_args (args : list (list Z)) : list (list Z) :=
  map (fun arg => take 128 (trim_matches 39 (trim_matches 34 arg))) (take 8 args).

(** * Running *)

(** What ran: nothing, a run of the register machine, or one of the stack machine. *)
Inductive launch : Type :=
| NotRun (w : machine)
| Registers (s : run_of PX64VM)
| Stack (s : run_of VM).

Definition with_registers (r : option (run_of PX64VM * kresult unit)) : option (launch * kresult unit) :=
  match r with Some (s, x) => Some (Registers s, x) | None => None end.
Definition with_stack (r : option (run_of VM * kresult unit)) : option (launch * kresult unit) :=
  match r with Some (s, x) => Some (Stack s, x) | None => None end.

Section Run.
Context (e : env) (script_args : list (list Z)).

(** The compiler is given the whole token array, not the part the lexer wrote.
    [None] when a fuel runs out, which it does not. *)
Definition run_pulse_script (src : list Z) (w : machine) : option (launch * kresult unit) :=
  let tokens := replicate (Z.to_nat MAX_TOKENS) empty_token in
  match ('(_, tokens) ← lexed (tokenize (KernelVm.oc e) src tokens); run_compiler (KernelVm.oc e) src tokens) with
  | Ok (code_len, c) =>
    let o := out c in
    with_registers (kernel_run e
      (mkProgram (take (Z.to_nat code_len) (Compiler.code o)) (Compiler.str_pool o)
         (map as_i64 (Compiler.const_pool o)) script_args) w)
  | Err (Diagnostic x) => Some (NotRun w, Err (Fault x))
  | Err OutOfFuel => None
  | Panic k => Some (NotRun w, Panic k)
  end.

(** [u16::from_be_bytes([bin[i], bin[i + 1]])]. *)
Definition be16 (bin : list Z) (i : Z) : kresult Z :=
  a ← idx bin i; b ← idx bin (i + 1); mret (a * 256 + b).

(** The loop over the first [n] constants. *)
Fixpoint kernel_consts (n : nat) (i : Z) (raw : list Z) : kresult (list Z) :=
  match n with
  | O => mret []
  | S n =>
    b ← slice raw (i * 8) ((i + 1) * 8);
    cs ← kernel_consts n (i + 1) raw;
    mret (as_i64 (be_to_Z b) :: cs)
  end.

(** The container of the register machine: its constants are copied to an array
    of 64, of which a slice of the declared count is taken. *)
Definition px64_program (bin : list Z) : kresult program :=
  version ← be16 bin 4;
  if negb (version =? PX64_BIN_VERSION) then
    fault "ERR_BINARY_VERSION_MISMATCH" "Unsupported px64 binary version"
  else
    code_len ← be16 bin 6;
    str_pool_len ← be16 bin 8;
    const_count ← be16 bin 10;
    let const_bytes := const_count * 8 in
    if len bin <? PX64_HEADER_SIZE + code_len + str_pool_len + const_bytes then
      fault "ERR_BINARY_TRUNCATED" "Truncated px64 binary payload"
    else
      code ← slice bin PX64_HEADER_SIZE (PX64_HEADER_SIZE + code_len);
      str_pool ← slice bin (PX64_HEADER_SIZE + code_len) (PX64_HEADER_SIZE + code_len + str_pool_len);
      const_slice_raw ← slice bin (PX64_HEADER_SIZE + code_len + str_pool_len)
                          (PX64_HEADER_SIZE + code_len + str_pool_len + const_bytes);
      let n := Z.to_nat (Z.min const_count 64) in
      cs ← kernel_consts n 0 const_slice_raw;
      let const_pool := cs ++ replicate (64 - n) 0 in
      const_pool ← slice const_pool 0 const_count;
      mret (mkProgram code str_pool const_pool script_args).

(** The container of the stack machine. *)
Definition legacy_program (bin : list Z) : kresult program :=
  version ← be16 bin 4;
  if negb (version =? PULSE_BIN_VERSION) then
    fault "ERR_BINARY_VERSION_MISMATCH" "Unsupported PulseLang binary version"
  else
    code_len ← be16 bin 6;
    str_pool_len ← be16 bin 8;
    if len bin <? PULSE_HEADER_SIZE + code_len + str_pool_len then
      fault "ERR_BINARY_TRUNCATED" "Truncated binary bytecode payload"
    else
      code ← slice bin PULSE_HEADER_SIZE (PULSE_HEADER_SIZE + code_len);
      str_pool ← slice bin (PULSE_HEADER_SIZE + code_len) (PULSE_HEADER_SIZE + code_len + str_pool_len);
      mret (mkProgram code str_pool [] script_args).

Definition launch_with (run : program -> option (launch * kresult unit)) (p : kresult program)
    (w : machine) : option (launch * kresult unit) :=
  match p with
  | Ok p => run p
  | Err x => Some (NotRun w, Err x)
  | Panic k => Some (NotRun w, Panic k)
  end.

Definition run_pulse_binary (bin : list Z) (w : machine) : option (launch * kresult unit) :=
  if (PX64_HEADER_SIZE <=? len bin) && bytes_eqb (sub bin 0 4) PX64_BIN_MAGIC then
    launch_with (fun p => with_registers (kernel_run e p w)) (px64_program bin) w
  else if (PULSE_HEADER_SIZE <=? len bin) && bytes_eqb (sub bin 0 4) PULSE_BIN_MAGIC then
    launch_with (fun p => with_stack (legacy_run e p w)) (legacy_program bin) w
  else Some (NotRun w, fault "ERR_BINARY_INVALID_MAGIC" "Invalid executable binary magic (expected PX64)").

Definition run_pulse_auto (data : list Z) (w : machine) : option (launch * kresult unit) :=
  if (4 <=? len data) && (bytes_eqb (sub data 0 4) PX64_BIN_MAGIC || bytes_eqb (sub data 0 4) PULSE_BIN_MAGIC)
  then run_pulse_binary data w
  else run_pulse_script data w.
End Run.

(** * The loaders *)

(** The count of constants that the header declares. *)
Definition const_count (bin : list Z) : Z :=
  match getZ bin 10, getZ bin 11 with Some a, Some b => a * 256 + b | _, _ => 0 end.

Lemma be16_read bin i v : read_u16 bin i = Ok v -> be16 bin i = Ok v.
Proof.
  unfold read_u16, be16, idx. destruct (getZ bin i); simpl; [|discriminate].
  destruct (getZ bin (i + 1)); simpl; [|discriminate]. intros [= <-]. reflexivity.
Qed.

Lemma kernel_consts_read n raw cs : forall i,
  read_consts n i raw = Ok cs -> kernel_consts n i raw = Ok cs.
Proof.
  revert cs. induction n as [|n IH]; intros cs i; cbn [read_consts kernel_consts].
  { intros [= <-]. reflexivity. }
  unfold slice. case_decide; simpl; [|discriminate].
  destruct (read_consts n (i + 1) raw) as [l| |] eqn:E; simpl; [|discriminate..].
  intros [= <-]. by rewrite (IH _ _ E).
Qed.

Lemma read_consts_len n raw cs : forall i, read_consts n i raw = Ok cs -> length cs = n.
Proof.
  revert cs. induction n as [|n IH]; intros cs i; cbn [read_consts].
  { intros [= <-]. reflexivity. }
  unfold slice. case_decide; simpl; [|discriminate].
  destruct (read_consts n (i + 1) raw) as [l| |] eqn:E; simpl; [|discriminate..].
  intros [= <-]. simpl. f_equal. by apply (IH _ (i + 1)).
Qed.

Lemma read_const_count bin v : read_u16 bin 10 = Ok v -> const_count bin = v.
Proof.
  unfold read_u16, const_count, idx. change (10 + 1) with 11.
  destruct (getZ bin 10); simpl; [|discriminate]. destruct (getZ bin 11); simpl; [|discriminate].
  intros [= <-]. reflexivity.
Qed.

(** The sections of a container that has a header, against the library's. *)
Lemma px64_program_loads args bin : bytes_ok bin -> has_magic bin = true ->
  px64_program args bin =
  match load_binary bin args with
  | Ok p => if 64 <? const_count bin then Panic SliceOutOfRange else Ok p
  | Err x => Err (Fault x)
  | Panic k => Panic k
  end.
Proof.
  intros Hb Hm. unfold load_binary, px64_program. rewrite Hm.
  apply andb_true_iff in Hm as [Hm _]. apply Z.leb_le in Hm. change PX64_HEADER_SIZE with 16 in *.
  destruct (read_u16_ok bin 4 Hb) as (v & Ev & _); [lia..|].
  rewrite (be16_read _ _ _ Ev), Ev. cbn [mbind outcome_bind]. case_match; [done|].
  unfold read_sections. change PX64_HEADER_SIZE with 16.
  destruct (read_u16_ok bin 6 Hb) as (c & Ec & Hc); [lia..|].
  destruct (read_u16_ok bin 8 Hb) as (s & Es & Hs); [lia..|].
  destruct (read_u16_ok bin 10 Hb) as (k & Ek & Hk); [lia..|].
  rewrite (read_const_count _ _ Ek), (be16_read _ _ _ Ec), (be16_read _ _ _ Es), (be16_read _ _ _ Ek), Ec, Es, Ek.
  cbn [mbind outcome_bind]. unfold in_u16 in *.
  destruct (Z.ltb_spec (len bin) (16 + c + s + k * 8)) as [|Hl]; [done|].
  rewrite !slice_in_range by lia. cbn [mbind outcome_bind].
  set (raw := sub bin (16 + c + s) (16 + c + s + k * 8)).
  assert (Hr : len raw = k * 8) by (unfold raw; rewrite len_sub; lia).
  destruct (read_consts_total raw (Z.to_nat (Z.min k 64)) 0) as (cs & E & _); [lia..|].
  rewrite (kernel_consts_read _ _ _ _ E), E. cbn [mbind outcome_bind mret outcome_ret].
  apply read_consts_len in E.
  set (pool := cs ++ _). assert (Hp : length pool = 64%nat) by (unfold pool; rewrite length_app, length_replicate; lia).
  destruct (Z.ltb_spec 64 k) as [|Hle].
  - unfold slice. rewrite decide_False; [done|]. unfold len. lia.
  - rewrite slice_in_range by (unfold len; lia). cbn [mbind outcome_bind]. do 2 f_equal.
    unfold sub, pool. change (Z.to_nat 0) with 0%nat. rewrite drop_0, Z.sub_0_r.
    rewrite <-(app_nil_r cs) at 2. rewrite take_app. f_equal; [apply take_ge; lia|].
    replace (Z.to_nat k - length cs)%nat with 0%nat by lia. done.
Qed.

Lemma run_pulse_binary_result e args bin w : bytes_ok bin ->
  run_pulse_binary e args bin w =
  match load_binary bin args with
  | Ok p =>
    if 64 <? const_count bin then Some (NotRun w, Panic SliceOutOfRange)
    else with_registers (kernel_run e p w)
  | Err x => Some (NotRun w, Err (Fault x))
  | Panic k => Some (NotRun w, Panic k)
  end.
Proof.
  intros Hb. unfold run_pulse_binary. change PULSE_HEADER_SIZE with PX64_HEADER_SIZE.
  change PULSE_BIN_MAGIC with PX64_BIN_MAGIC. fold (has_magic bin). destruct (has_magic bin) eqn:Hm.
  - rewrite px64_program_loads by done. unfold launch_with.
    destruct (load_binary bin args); [by destruct (64 <? const_count bin)|done..].
  - unfold load_binary. by rewrite Hm.
Qed.

(** C37: the kernel's loader against the library's, on any bytes: it runs on the
    register machine the program that the library loads, fails as the library
    fails, and panics on a container that declares more than 64 constants, which
    the library accepts. The loader of the stack machine is never reached: its
    containers have the magic and the header size of the others. *)
Theorem kernel_loads_as_library e args bin w : bytes_ok bin ->
  run_pulse_binary e args bin w =
  match load_binary bin args with
  | Ok p =>
    if 64 <? const_count bin then Some (NotRun w, Panic SliceOutOfRange)
    else with_registers (kernel_run e p w)
  | Err x => Some (NotRun w, Err (Fault x))
  | Panic k => Some (NotRun w, Panic k)
  end.
Proof. apply run_pulse_binary_result. Qed.

(** A container with [n] constants and no code. *)
Definition constants_only (n : nat) : list Z := encode [] [] (replicate n 0).

Example kernel_loads_as_library_witness :
  is_ok (load_binary (constants_only 65) []) = true /\
  run_pulse_binary idle_env [] (constants_only 65) (kernel_image nic_static) =
    Some (NotRun (kernel_image nic_static), Panic SliceOutOfRange).
Proof.
  split; [reflexivity|]. rewrite kernel_loads_as_library; [reflexivity|]. compute_fact.
Defined.

(** * What runs, and that it ends *)

(** What a run leaves, for the entry points: nothing ran and nothing changed, or
    the register machine ran within its limits. *)
Definition ends_well (e : env) (w : machine) (l : launch) (r : kresult unit) : Prop :=
  match l with
  | NotRun w' => w' = w /\ r <> Ok tt
  | Registers s => 0 <= run_steps s <= MAX_VM_STEPS /\
      (r = Ok tt -> run_steps s < MAX_VM_STEPS /\ tsc e (run_steps s) 0 <= timeout_tsc s)
  | Stack _ => False
  end /\ (waits_end e -> (forall n k, 0 <= tsc e n k) -> never_spins r).

Lemma with_registers_ends e p w : exists l r,
  with_registers (kernel_run e p w) = Some (l, r) /\ ends_well e w l r.
Proof.
  destruct (kernel_run_ends e p w) as (s & r & -> & H1 & H2 & H3). exists (Registers s), r.
  split; [done|]. by split.
Qed.

Lemma not_run_ends e w r : never_spins r -> r <> Ok tt ->
  exists l r', Some (NotRun w, r) = Some (l, r') /\ ends_well e w l r'.
Proof. intros Hr Hn. exists (NotRun w), r. by repeat split. Qed.

Lemma run_pulse_binary_ends e args bin w : bytes_ok bin ->
  exists l r, run_pulse_binary e args bin w = Some (l, r) /\ ends_well e w l r.
Proof.
  intros Hb. rewrite run_pulse_binary_result by done.
  destruct (load_binary bin args) as [p|x|k]; [|by apply not_run_ends..].
  case_match; [by apply not_run_ends|apply with_registers_ends].
Qed.

Lemma empty_token_in_src src : token_in_src src empty_token.
Proof. pose proof (len_nonneg src). repeat split; simpl; lia. Qed.

(** The whole token array: the tokens of the source, and the array's first contents. *)
Lemma lex_buffer oc src :
  match lexed (tokenize oc src (replicate (Z.to_nat MAX_TOKENS) empty_token)) with
  | Ok (n, buf) => Forall (token_in_src src) buf
  | Err (Diagnostic _) => True
  | Err OutOfFuel => False
  | Panic k => k = ArithmeticOverflow /\ oc = true
  end.
Proof.
  destruct (tokenize_result oc src (replicate (Z.to_nat MAX_TOKENS) empty_token)) as (r & -> & Hr).
  unfold lexed. destruct r as [[n buf]|x|k]; simpl; [|done|by destruct Hr].
  destruct Hr as (ts & eof & -> & Hn & -> & Hsp & Hk & Hs & Hl).
  assert (Hrep : Forall (token_in_src src) (replicate (Z.to_nat MAX_TOKENS) empty_token))
    by apply Forall_replicate, empty_token_in_src.
  apply spans_in_src in Hsp as [Hts _]; [|lia]. unfold written. pose proof (len_nonneg src).
  apply Forall_app; split; [by apply Forall_take|]. apply Forall_app; split; [|by apply Forall_drop].
  apply Forall_app; split; [done|]. constructor; [|done]. unfold token_in_src. lia.
Qed.

Lemma run_pulse_script_ends e args src w : bytes_ok src ->
  exists l r, run_pulse_script e args src w = Some (l, r) /\ ends_well e w l r.
Proof.
  intros Hs. unfold run_pulse_script. pose proof (lex_buffer (KernelVm.oc e) src) as Hl.
  destruct (lexed _) as [[n buf]|[x|]|k]; cbn [mbind outcome_bind]; [|by apply not_run_ends|done|].
  - pose proof (run_compiler_ok (KernelVm.oc e) src Hs buf Hl) as Hc. unfold compiled in Hc.
    destruct (run_compiler _ src buf) as [[m c]|[x|]|k]; [apply with_registers_ends|by apply not_run_ends|done|].
    by apply not_run_ends.
  - by apply not_run_ends.
Qed.

(** C26: the kernel ends every program it is given, as source or as a container,
    whatever its bytes, the clock, the devices and the other cores: the fuels of
    the compiler and of the machine do not run out. Either nothing ran, and the
    error is reported with the kernel as it was, or the register machine ran,
    within the instruction limit, and succeeded only below that limit and within
    the time limit. The stack machine never runs. If every wait of a native ends,
    the run is not left in one. *)
Theorem run_pulse_auto_total e args data w : bytes_ok data ->
  exists l r, run_pulse_auto e args data w = Some (l, r) /\ ends_well e w l r.
Proof.
  intros Hd. unfold run_pulse_auto.
  case_match; [by apply run_pulse_binary_ends|by apply run_pulse_script_ends].
Qed.

Example run_pulse_auto_total_witness : exists l r,
  run_pulse_auto idle_env [] [80; 88; 54; 52; 0; 3; 0; 9; 0; 0; 0; 0; 0; 0; 0; 0] (kernel_image nic_static) = Some (l, r) /\
  ends_well idle_env (kernel_image nic_static) l r.
Proof. apply run_pulse_auto_total. compute_fact. Defined.

(** * From source to the kernel *)






(** * Where the two machines differ *)

(** What a program prints and how it ends: on the library's machine, and on the kernel's. *)
Definition library_says (p : program) : option (list Z * kresult unit) :=
  match run_with_output 10001 (no_std_host (fun _ => 0)) p VmState.new with
  | Some (m, Ok _) => Some (output m, Ok tt)
  | Some (m, Err x) => Some (output m, Err (Fault x))
  | Some (m, Panic k) => Some (output m, Panic k)
  | None => None
  end.
Definition kernel_says (p : program) : option (list Z * kresult unit) :=
  match kernel_run idle_env p (kernel_image nic_static) with Some (s, r) => Some (serial s, r) | None => None end.

(** An array of 288 elements, and a store to its last. *)
Definition large_array : program := mkProgram
  [PX64_OP_ARR_DEF; 0; 1; 32;  PX64_OP_MOV_IMM; 1; 1; 31;  PX64_OP_ARR_STORE; 0; 1; 2] [] [] [].
(** [println(-2^56 == -2^57)]. *)
Definition compare_large : program := mkProgram
  [PX64_OP_LDC; 0; 0; 0;  PX64_OP_LDC; 1; 0; 1;  PX64_OP_CMP_EQ; 2; 0; 1;
   PX64_OP_CALL_NAT; 3; NATIVE_PRINTLN; 2] [] [- 2 ^ 56; - 2 ^ 57] [].
(** [println(-7)]. *)
Definition print_negative : program := mkProgram
  [PX64_OP_LDC; 0; 0; 0;  PX64_OP_CALL_NAT; 1; NATIVE_PRINTLN; 0] [] [-7] [].
(** [println(streq(5, 5))], with the native. *)
Definition native_equality : program := mkProgram
  [PX64_OP_MOV_IMM; 0; 0; 5;  PX64_OP_MOV_IMM; 1; 0; 5;  PX64_OP_CALL_NAT; 2; NATIVE_STREQ; 1;
   PX64_OP_CALL_NAT; 3; NATIVE_PRINTLN; 2] [] [] [].
(** A read of a table that goes past the constants. *)
Definition long_table : program := mkProgram
  [PX64_OP_TBL_DEF; 0; 0; 2;  PX64_OP_MOV_IMM; 1; 0; 1;  PX64_OP_TBL_LOAD; 2; 0; 1] [] [7] [].
(** A countdown that halts with its ten thousandth instruction. *)
Definition exact_limit : program := mkProgram
  [PX64_OP_MOV_IMM; 0; 19; 135;  PX64_OP_SUBI; 0; 0; 1;  PX64_OP_JNZ; 0; 0; 4;
   PX64_OP_HALT; 0; 0; 0] [] [] [].

(** What the kernel does otherwise than the library, on six programs. It panics on an array element beyond the 256 slots it has
    (the library has 1024), and on a table that goes past the constants, which is
    an error in the library. It compares two values with the text tag by their low
    bits, and finds -2^56 equal to -2^57. Its [println] of a negative number prints
    nothing, not even the end of the line. Its native for string equality always
    says no. It reports a program that halts with its ten thousandth instruction
    as an endless loop. *)
Theorem kernel_differs :
  (library_says large_array = Some ([], Ok tt) /\
   kernel_says large_array = Some ([], Panic IndexOutOfBounds)) /\
  (library_says long_table = Some ([], fault "ERR_PX64_TABLE_OUT_OF_BOUNDS"
     "Const table lookup index out of bounds in const pool") /\
   kernel_says long_table = Some ([], Panic IndexOutOfBounds)) /\
  (library_says compare_large = Some (bytes "0" ++ [10], Ok tt) /\
   kernel_says compare_large = Some (bytes "1" ++ [10], Ok tt)) /\
  (library_says print_negative = Some ([10], Ok tt) /\ kernel_says print_negative = Some ([], Ok tt)) /\
  (library_says native_equality = Some (bytes "1" ++ [10], Ok tt) /\
   kernel_says native_equality = Some (bytes "0" ++ [10], Ok tt)) /\
  library_says exact_limit = Some ([], Ok tt) /\ kernel_says exact_limit = Some ([], Err wcet_exceeded).
Proof. split_and!; vm_compute; reflexivity. Qed.
