(* ===== verification/Ata.v ===== *)
(** The ATA driver (kernel/src/export_disk.rs): reading and writing one sector
    through the ports of an IDE channel. The ports are an argument, as a class; the
    code above the driver knows it only through the class [SectorDevice] and its
    laws, which the driver satisfies on a drive that behaves as the ATA standard
    says. *)

From S2P Require Import Prelude RustStd.
Local Open Scope Z_scope.

Definition ATA_PRIMARY_DATA : Z := 0x1F0.
Definition ATA_SECONDARY_DATA : Z := 0x170.
Definition ATA_CMD_READ_SECTORS : Z := 0x20.
Definition ATA_CMD_WRITE_SECTORS : Z := 0x30.
Definition ATA_CMD_CACHE_FLUSH : Z := 0xE7.
Definition ATA_STATUS_BSY : Z := 0x80.
Definition ATA_STATUS_DRQ : Z := 0x08.
Definition ATA_STATUS_ERR : Z := 0x01.
Definition SECTOR_SIZE : Z := 512.

(** * Effects *)

(** An error of the disk code is a string; [Endless] is a loop that ran out of fuel. *)
Inductive disk_error : Set :=
| Disk (msg : string)
| Endless.

(** A step on a state that may fail, and keeps the state it reached. *)
Definition io (S A : Type) : Type := S -> S * outcome disk_error A.

#[export] Instance io_ret {S} : MRet (io S) := fun A a s => (s, Ok a).
#[export] Instance io_bind {S} : MBind (io S) := fun A B f m s =>
  match m s with
  | (s, Ok a) => f a s
  | (s, Err x) => (s, Err x)
  | (s, Panic k) => (s, Panic k)
  end.

Definition disk_fail {S A} (msg : string) : io S A := fun s => (s, Err (Disk msg)).

(** A computation without effects. *)
Definition pure {S A} (r : outcome disk_error A) : io S A := fun s => (s, r).

(** * Ports *)

Class Ports (D : Type) : Type := {
  inb : Z -> D -> D * Z;
  inw : Z -> D -> D * Z;
  outb : Z -> Z -> D -> D;
  outw : Z -> Z -> D -> D;
}.

Section Driver.
Context {D : Type} `{!Ports D}.

Definition input (f : D -> D * Z) : io D Z := fun d => let '(d, v) := f d in (d, Ok v).
Definition output (f : D -> D) : io D () := fun d => (f d, Ok tt).

Fixpoint poll_ready (n : nat) (port : Z) : io D () :=
  match n with
  | O => disk_fail "ATA disk timeout waiting for ready"
  | S n =>
    st ← input (inb port);
    if Z.land st ATA_STATUS_BSY =? 0 then mret tt else poll_ready n port
  end.

Definition ata_wait_ready (base_port : Z) : io D () := poll_ready (Z.to_nat 100000) (base_port + 7).

Fixpoint poll_drq (n : nat) (port : Z) : io D () :=
  match n with
  | O => disk_fail "ATA disk timeout waiting for DRQ"
  | S n =>
    st ← input (inb port);
    if negb (Z.land st ATA_STATUS_ERR =? 0) then disk_fail "ATA disk error flag set"
    else if (Z.land st ATA_STATUS_BSY =? 0) && negb (Z.land st ATA_STATUS_DRQ =? 0) then mret tt
    else poll_drq n port
  end.

Definition ata_wait_drq (base_port : Z) : io D () := poll_drq (Z.to_nat 100000) (base_port + 7).

Definition drive_sel (drive lba : Z) : Z :=
  Z.lor (Z.lor 0xE0 (as_u8 (Z.shiftl (Z.land drive 1) 4))) (as_u8 (Z.land (Z.shiftr lba 24) 0x0F)).

(** The registers of a command, up to the command itself; both directions share it. *)
Definition ata_command (base_port drive lba cmd : Z) : io D () :=
  _ ← output (outb (base_port + 6) (drive_sel drive lba));
  _ ← input (inb (base_port + 7));
  _ ← input (inb (base_port + 7));
  _ ← input (inb (base_port + 7));
  _ ← input (inb (base_port + 7));
  _ ← output (outb (base_port + 2) 1);
  _ ← output (outb (base_port + 3) (Z.land lba 0xFF));
  _ ← output (outb (base_port + 4) (Z.land (Z.shiftr lba 8) 0xFF));
  _ ← output (outb (base_port + 5) (Z.land (Z.shiftr lba 16) 0xFF));
  output (outb (base_port + 7) cmd).

(** The loop over the [n] words left, as the bytes it puts in the buffer. *)
Fixpoint read_words (n : nat) (base_port : Z) : io D (list Z) :=
  match n with
  | O => mret []
  | S n =>
    word ← input (inw base_port);
    buf ← read_words n base_port;
    mret (Z.land word 0xFF :: Z.land (Z.shiftr word 8) 0xFF :: buf)
  end.

(** The 512 bytes of the buffer are all written; an error comes before the first. *)
Definition ata_read_sector (base_port drive lba : Z) : io D (list Z) :=
  _ ← ata_wait_ready base_port;
  _ ← ata_command base_port drive lba ATA_CMD_READ_SECTORS;
  _ ← ata_wait_drq base_port;
  read_words 256 base_port.

(** The loop over a buffer of an even length. *)
Fixpoint write_words (base_port : Z) (buf : list Z) : io D () :=
  match buf with
  | lo :: hi :: buf =>
    _ ← output (outw base_port (Z.lor lo (as_u16 (Z.shiftl hi 8))));
    write_words base_port buf
  | _ => mret tt
  end.

Definition ata_write_sector (base_port drive lba : Z) (buf : list Z) : io D () :=
  _ ← ata_wait_ready base_port;
  _ ← ata_command base_port drive lba ATA_CMD_WRITE_SECTORS;
  _ ← ata_wait_drq base_port;
  _ ← write_words base_port buf;
  _ ← ata_wait_ready base_port;
  _ ← output (outb (base_port + 7) ATA_CMD_CACHE_FLUSH);
  ata_wait_ready base_port.
End Driver.

(** * The interface above the driver *)

Class SectorDevice (D : Type) : Type := {
  read_sector : Z -> Z -> Z -> io D (list Z);
  write_sector : Z -> Z -> Z -> list Z -> io D ();
}.

#[export] Instance ata_device {D} `{!Ports D} : SectorDevice D := {
  read_sector := ata_read_sector;
  write_sector := ata_write_sector;
}.

(** What a device promises: [sector d port drive lba] is what it stores there. A
    read returns it and changes nothing; a write changes it and nothing else. *)
Class SectorLaws (D : Type) `{!SectorDevice D} : Type := {
  at_rest : D -> Prop;
  sector : D -> Z -> Z -> Z -> option (list Z);
  sector_size d port drive lba s : sector d port drive lba = Some s -> len s = 512 /\ bytes_ok s;
  read_sector_ok d port drive lba s :
    at_rest d -> sector d port drive lba = Some s ->
    exists d', read_sector port drive lba d = (d', Ok s) /\ at_rest d' /\
      forall p v l, sector d' p v l = sector d p v l;
  write_sector_ok d port drive lba s0 s :
    at_rest d -> sector d port drive lba = Some s0 -> len s = 512 -> bytes_ok s ->
    exists d', write_sector port drive lba s d = (d', Ok tt) /\ at_rest d' /\
      forall p v l, sector d' p v l =
        if bool_decide (p = port /\ v = drive /\ l = lba) then Some s else sector d p v l;
}.

(** * A drive

    Two channels of two drives, each a list of sectors (none: no drive), as the
    ATA standard describes them to a driver that polls: the registers, the sector
    being sent, the bytes received so far. *)

Inductive transfer : Type :=
| Quiet
| Sending (buf : list Z)
| Receiving (port drive lba : Z) (buf : list Z).

Record ide : Type := mkIde {
  images : Z -> Z -> list (list Z);
  registers : Z -> Z;
  moving : transfer;
  failed : bool;
}.

Definition channel (port : Z) : Z := port - port mod 8.
Definition selected (d : ide) (port : Z) : Z := Z.land (Z.shiftr (registers d (channel port + 6)) 4) 1.
Definition addressed (d : ide) (port : Z) : Z :=
  let r i := registers d (channel port + i) in
  r 3 + Z.shiftl (r 4) 8 + Z.shiftl (r 5) 16 + Z.shiftl (Z.land (r 6) 0x0F) 24.

(** An empty channel floats high; a missing drive beside another reads as zero. *)
Definition status (d : ide) (port : Z) : Z :=
  match images d (channel port) 0, images d (channel port) 1 with
  | [], [] => 0xFF
  | _, _ =>
    if bool_decide (images d (channel port) (selected d port) = []) then 0
    else 0x40 + (match moving d with Quiet => 0 | _ => 0x08 end) + (if failed d then 1 else 0)
  end.

Definition ide_command (port cmd : Z) (d : ide) : ide :=
  let v := selected d port in
  let lba := addressed d port in
  if cmd =? ATA_CMD_CACHE_FLUSH then d
  else
    match getZ (images d (channel port) v) lba with
    | Some s =>
      if cmd =? ATA_CMD_READ_SECTORS then mkIde (images d) (registers d) (Sending s) false
      else mkIde (images d) (registers d) (Receiving (channel port) v lba []) false
    | None => mkIde (images d) (registers d) Quiet true
    end.

Definition ide_store (d : ide) (port drive lba : Z) (s : list Z) : ide :=
  mkIde (fun p v => if bool_decide (p = port /\ v = drive) then setZ (images d p v) lba s else images d p v)
    (registers d) Quiet (failed d).

#[export] Instance ide_ports : Ports ide := {
  inb port d := (d, if port mod 8 =? 7 then status d port else registers d port);
  inw port d :=
    match moving d with
    | Sending (lo :: hi :: buf) =>
      (mkIde (images d) (registers d) (match buf with [] => Quiet | _ => Sending buf end) (failed d),
       lo + 256 * hi)
    | _ => (d, 0)
    end;
  outb port v d :=
    if port mod 8 =? 7 then ide_command port v d
    else mkIde (images d) (fun q => if q =? port then v else registers d q) (moving d) (failed d);
  outw port w d :=
    match moving d with
    | Receiving p v lba buf =>
      let buf := buf ++ [Z.land w 0xFF; Z.shiftr w 8] in
      if len buf =? SECTOR_SIZE then ide_store d p v lba buf
      else mkIde (images d) (registers d) (Receiving p v lba buf) (failed d)
    | _ => d
    end;
}.

(** No transfer is under way and no command has failed. *)
Definition ide_rest (d : ide) : Prop := moving d = Quiet /\ failed d = false.

(** The driver reaches two drives on each of the two channels, and 2^28 sectors. *)
Definition ide_sector (d : ide) (port drive lba : Z) : option (list Z) :=
  if bool_decide (port ∈ [ATA_PRIMARY_DATA; ATA_SECONDARY_DATA] /\ drive ∈ [0; 1] /\ lba < 2 ^ 28)
  then s ← getZ (images d port drive) lba; if bool_decide (len s = 512 /\ bytes_ok s) then Some s else None
  else None.

(** A driver that reads what it has written. *)
Definition ide_disk : ide :=
  mkIde (fun p v => if (p =? 0x1F0) && (v =? 1) then replicate 4 (replicate 512 0) else []) (fun _ => 0) Quiet false.

Example ata_write_read :
  let '(d, r) := ata_write_sector 0x1F0 1 2 (replicate 512 7) ide_disk in
  r = Ok tt /\ snd (ata_read_sector 0x1F0 1 2 d) = Ok (replicate 512 7) /\
  snd (ata_read_sector 0x1F0 1 3 d) = Ok (replicate 512 0) /\
  snd (ata_read_sector 0x1F0 1 9 d) = Err (Disk "ATA disk error flag set") /\
  snd (ata_read_sector 0x170 0 0 d) = Err (Disk "ATA disk timeout waiting for ready").
Proof. vm_compute. by split_and!. Qed.

(** * The driver on the drive *)

Lemma addressed_lba lba : 0 <= lba < 2 ^ 28 ->
  Z.land lba 0xFF + Z.shiftl (Z.land (Z.shiftr lba 8) 0xFF) 8 +
  Z.shiftl (Z.land (Z.shiftr lba 16) 0xFF) 16 + Z.shiftl (Z.land (Z.shiftr lba 24) 0x0F) 24 = lba.
Proof.
  intros H. change 0xFF with (Z.ones 8). change 0x0F with (Z.ones 4).
  rewrite !Z.land_ones, !Z.shiftr_div_pow2, !Z.shiftl_mul_pow2 by lia.
  change (2 ^ 8) with 256. change (2 ^ 16) with (256 * 256). change (2 ^ 24) with (256 * 256 * 256).
  change (2 ^ 4) with 16. change (2 ^ 28) with (256 * 256 * 256 * 16) in H.
  rewrite <-!Z.div_div by lia. set (a := lba / 256). set (b := a / 256). set (c := b / 256).
  pose proof (Z.div_mod lba 256 ltac:(lia)) as E1. fold a in E1.
  pose proof (Z.div_mod a 256 ltac:(lia)) as E2. fold b in E2.
  pose proof (Z.div_mod b 256 ltac:(lia)) as E3. fold c in E3.
  pose proof (Z.mod_pos_bound lba 256). pose proof (Z.mod_pos_bound a 256). pose proof (Z.mod_pos_bound b 256).
  rewrite (Z.mod_small c 16) by lia. lia.
Qed.

Lemma drive_sel_fields drive lba : drive ∈ [0; 1] ->
  Z.land (Z.shiftr (drive_sel drive lba) 4) 1 = drive /\
  Z.land (drive_sel drive lba) 0x0F = Z.land (Z.shiftr lba 24) 0x0F.
Proof.
  intros Hd. unfold drive_sel. change 0x0F with (Z.ones 4) at 1 3.
  pose proof (Z.mod_pos_bound (Z.shiftr lba 24) (2 ^ 4) ltac:(lia)) as Hx.
  rewrite <-Z.land_ones in Hx by lia. set (x := Z.land (Z.shiftr lba 24) (Z.ones 4)) in *.
  change (Z.land (Z.shiftr lba 24) 0x0F) with x. clearbody x.
  assert (Hl : x ∈ [0;1;2;3;4;5;6;7;8;9;10;11;12;13;14;15]).
  { change (2 ^ 4) with 16 in Hx. rewrite !elem_of_cons. lia. }
  revert x Hl Hx Hd. assert (H : forall v, v ∈ [0; 1] ->
    forall x, x ∈ [0;1;2;3;4;5;6;7;8;9;10;11;12;13;14;15] ->
    Z.land (Z.shiftr (Z.lor (Z.lor 0xE0 (as_u8 (Z.shiftl (Z.land v 1) 4))) (as_u8 x)) 4) 1 = v /\
    Z.land (Z.lor (Z.lor 0xE0 (as_u8 (Z.shiftl (Z.land v 1) 4))) (as_u8 x)) (Z.ones 4) = x).
  { intros v Hv x Hx. set_unfold in Hv. set_unfold in Hx. destruct_or!; subst; done. }
  intros x Hl _ Hv. by apply H.
Qed.

Definition reachable (port drive lba : Z) : Prop :=
  port ∈ [ATA_PRIMARY_DATA; ATA_SECONDARY_DATA] /\ drive ∈ [0; 1] /\ 0 <= lba < 2 ^ 28.

Lemma channel_register port i : port ∈ [ATA_PRIMARY_DATA; ATA_SECONDARY_DATA] -> 0 <= i < 8 ->
  channel (port + i) = port /\ (port + i) mod 8 = i.
Proof.
  intros Hp Hi. assert (port mod 8 = 0).
  { set_unfold in Hp. by destruct_or!; subst. }
  unfold channel. rewrite Z.add_mod, H, Z.add_0_l, Z.mod_mod, Z.mod_small by lia. lia.
Qed.

(** What the status register shows of a channel that has a drive. *)
Lemma status_present d port drive :
  port ∈ [ATA_PRIMARY_DATA; ATA_SECONDARY_DATA] -> drive ∈ [0; 1] -> images d port drive <> [] ->
  Z.land (status d (port + 7)) ATA_STATUS_BSY = 0 /\
  (selected d (port + 7) = drive -> failed d = false -> moving d <> Quiet -> status d (port + 7) = 0x48).
Proof.
  intros Hp Hd Hi. unfold status. rewrite (proj1 (channel_register port 7 Hp ltac:(lia))).
  set_unfold in Hd. split.
  - destruct_or!; subst; repeat case_match; try congruence; try done; reflexivity.
  - intros Hs Hf Hm. rewrite Hs, bool_decide_eq_false_2, Hf by done.
    destruct (moving d); [done|..]; destruct_or!; subst; repeat case_match; try congruence; try done; reflexivity.
Qed.

Lemma wait_ready_now d port drive :
  port ∈ [ATA_PRIMARY_DATA; ATA_SECONDARY_DATA] -> drive ∈ [0; 1] -> images d port drive <> [] ->
  ata_wait_ready port d = (d, Ok tt).
Proof.
  intros Hp Hd Hi. unfold ata_wait_ready. destruct (Z.to_nat 100000) as [|n] eqn:E; [lia|]. clear E.
  cbn [poll_ready]. unfold mbind, io_bind, input, inb, ide_ports.
  rewrite (proj2 (channel_register port 7 Hp ltac:(lia))), Z.eqb_refl.
  destruct (status_present d port drive Hp Hd Hi) as [-> _]. reflexivity.
Qed.

Lemma wait_drq_now d port drive :
  port ∈ [ATA_PRIMARY_DATA; ATA_SECONDARY_DATA] -> drive ∈ [0; 1] -> images d port drive <> [] ->
  selected d (port + 7) = drive -> failed d = false -> moving d <> Quiet ->
  ata_wait_drq port d = (d, Ok tt).
Proof.
  intros Hp Hd Hi Hs Hf Hm. unfold ata_wait_drq. destruct (Z.to_nat 100000) as [|n] eqn:E; [lia|]. clear E.
  cbn [poll_drq]. unfold mbind, io_bind, input, inb, ide_ports.
  rewrite (proj2 (channel_register port 7 Hp ltac:(lia))), Z.eqb_refl.
  destruct (status_present d port drive Hp Hd Hi) as [_ ->]; done.
Qed.

(** The registers of a command reach the drive as they were meant. *)
Lemma command_ok d port drive lba cmd s :
  reachable port drive lba -> getZ (images d port drive) lba = Some s ->
  cmd ∈ [ATA_CMD_READ_SECTORS; ATA_CMD_WRITE_SECTORS] ->
  exists r, ata_command port drive lba cmd d =
      (mkIde (images d) r (if cmd =? ATA_CMD_READ_SECTORS then Sending s else Receiving port drive lba []) false, Ok tt) /\
    Z.land (Z.shiftr (r (port + 6)) 4) 1 = drive.
Proof.
  intros (Hp & Hd & Hl) Hs Hc. unfold ata_command, mbind, io_bind, input, output, inb, outb, ide_ports.
  assert (Hm : forall i, 0 <= i < 8 -> (port + i) mod 8 = i) by (intros; by apply channel_register).
  rewrite (Hm 2), (Hm 3), (Hm 4), (Hm 5), (Hm 6), (Hm 7) by lia. cbn [Z.eqb Pos.eqb].
  destruct (drive_sel_fields drive lba Hd) as [F1 F2].
  eexists. unfold ide_command, selected, addressed. rewrite (proj1 (channel_register port 7 Hp ltac:(lia))).
  cbn [registers images]. assert (Hne : forall i j, i <> j -> (port + i =? port + j) = false) by (intros; apply Z.eqb_neq; lia).
  rewrite !Z.eqb_refl, !Hne by lia.
  rewrite F1, F2, addressed_lba by done. rewrite Hs. split.
  - set_unfold in Hc. destruct Hc as [->|[->|[]]]; reflexivity.
  - cbv beta. by rewrite Z.eqb_refl, !Hne by lia.
Qed.

(** A word on the bus and its two bytes. *)
Lemma sector_word_bytes lo hi : in_u8 lo -> in_u8 hi ->
  Z.land (lo + 256 * hi) 0xFF = lo /\ Z.shiftr (lo + 256 * hi) 8 = hi /\ Z.land hi 0xFF = hi /\
  Z.lor lo (as_u16 (Z.shiftl hi 8)) = lo + 256 * hi.
Proof.
  unfold in_u8. intros Hlo Hhi. change 0xFF with (Z.ones 8).
  assert (Hs : forall z, z mod 2 ^ 8 = z mod 256) by reflexivity.
  rewrite !Z.land_ones, Z.shiftr_div_pow2, Z.shiftl_mul_pow2, !Hs by lia. change (2 ^ 8) with 256.
  split_and!.
  - rewrite Z.mul_comm, Z.mod_add, Z.mod_small; lia.
  - rewrite Z.mul_comm, Z.div_add, Z.div_small; lia.
  - rewrite Z.mod_small; lia.
  - unfold as_u16. rewrite wrapU_small by lia. pose proof (Z.add_lor_land lo (hi * 256)) as H.
    assert (E : Z.land lo (hi * 256) = 0); [|lia].
    change 256 with (2 ^ 8). rewrite <-Z.shiftl_mul_pow2 by lia. apply Z.bits_inj'. intros n Hn.
    rewrite Z.land_spec, Z.bits_0. destruct (Z.ltb_spec n 8).
    + rewrite Z.shiftl_spec_low by lia. apply andb_false_r.
    + rewrite <-(Z.mod_small lo (2 ^ 8)) by lia.
      rewrite Z.mod_pow2_bits_high by lia. done.
Qed.

(** Nothing left to send is the end of the transfer. *)
Definition send (s : list Z) : transfer := match s with [] => Quiet | _ => Sending s end.

Lemma read_words_ok port i r f : forall n s, length s = (2 * n)%nat -> bytes_ok s ->
  read_words n port (mkIde i r (send s) f) = (mkIde i r Quiet f, Ok s).
Proof.
  induction n as [|n IH]; intros s Hl Hb; [by destruct s|].
  destruct s as [|lo [|hi s]]; simpl in Hl; [lia..|]. apply Forall_cons in Hb as [H1 [H2 Hb]%Forall_cons].
  destruct (sector_word_bytes lo hi H1 H2) as (E1 & E2 & E3 & _). cbn [read_words send].
  unfold mbind, io_bind, input, inw, ide_ports. cbn [moving images registers failed]. rewrite E1, E2, E3.
  fold (send s). rewrite IH by (try done; lia). done.
Qed.

(** A sector that is complete is stored. *)
Definition receive (d : ide) (port drive lba : Z) (got : list Z) : ide :=
  if len got =? SECTOR_SIZE then ide_store d port drive lba got
  else mkIde (images d) (registers d) (Receiving port drive lba got) (failed d).

Lemma receive_word d port p v lba got lo hi : len got < SECTOR_SIZE -> in_u8 lo -> in_u8 hi ->
  outw port (Z.lor lo (as_u16 (Z.shiftl hi 8))) (receive d p v lba got) = receive d p v lba (got ++ [lo; hi]).
Proof.
  intros Hg H1 H2. destruct (sector_word_bytes lo hi H1 H2) as (E1 & E2 & _ & E4). rewrite E4.
  unfold receive at 1. rewrite (proj2 (Z.eqb_neq _ _)) by lia. cbn [outw ide_ports moving]. by rewrite E1, E2.
Qed.

Lemma write_words_ok d port p v lba : forall n buf got, moving d = Quiet ->
  length buf = (2 * n)%nat -> bytes_ok buf -> len got + len buf <= SECTOR_SIZE ->
  write_words port buf (receive d p v lba got) = (receive d p v lba (got ++ buf), Ok tt).
Proof.
  induction n as [|n IH]; intros buf got Hq Hl Hb Hg; [destruct buf; [by rewrite app_nil_r|done]|].
  destruct buf as [|lo [|hi s]]; simpl in Hl; [lia..|]. apply Forall_cons in Hb as [H1 [H2 Hb]%Forall_cons].
  rewrite !len_cons in Hg. pose proof (len_nonneg s).
  cbn [write_words].
  pose proof (receive_word d port p v lba got lo hi ltac:(lia) H1 H2) as E.
  unfold mbind, io_bind, output.
  rewrite E, IH by (try done; rewrite ?len_app; change (len [lo; hi]) with 2; lia).
  by rewrite <-app_assoc.
Qed.

(** The driver keeps the promises of [SectorDevice] on the drive. *)
Lemma ide_sector_Some d port drive lba s : ide_sector d port drive lba = Some s ->
  reachable port drive lba /\ getZ (images d port drive) lba = Some s /\ len s = 512 /\ bytes_ok s /\
  images d port drive <> [].
Proof.
  unfold ide_sector. case_bool_decide as H; [|done]. destruct (getZ _ _) as [s'|] eqn:E; simpl; [|done].
  case_bool_decide as Hs; [|done]. intros [= ->]. destruct H as (H1 & H2 & H3). destruct Hs.
  pose proof (getZ_Some_lt _ _ _ E). split_and!; try done; [by repeat split; try lia|]. intros Hn. rewrite Hn in *. unfold len in *. simpl in *. lia.
Qed.

Lemma ide_read_ok d port drive lba s : ide_rest d -> ide_sector d port drive lba = Some s ->
  exists d', ata_read_sector port drive lba d = (d', Ok s) /\ ide_rest d' /\ images d' = images d.
Proof.
  intros [Hq Hf] Hs. apply ide_sector_Some in Hs as (Hr & Hs & Hl & Hb & Hn).
  destruct (Hr) as (Hp & Hd & _). unfold ata_read_sector, mbind, io_bind.
  rewrite (wait_ready_now d port drive) by done.
  destruct (command_ok d port drive lba ATA_CMD_READ_SECTORS s Hr Hs ltac:(set_solver)) as (r & -> & Hsel).
  rewrite Z.eqb_refl, (wait_drq_now _ port drive); try done.
  2: { unfold selected. by rewrite (proj1 (channel_register port 7 Hp ltac:(lia))). }
  assert (E : Sending s = send s) by (by destruct s). rewrite E.
  rewrite read_words_ok by (try done; unfold len in Hl; lia). by eexists.
Qed.

Lemma ide_write_ok d port drive lba s0 s : ide_rest d -> ide_sector d port drive lba = Some s0 ->
  len s = 512 -> bytes_ok s ->
  exists d', ata_write_sector port drive lba s d = (d', Ok tt) /\ ide_rest d' /\
    images d' = fun p v => if bool_decide (p = port /\ v = drive) then setZ (images d p v) lba s else images d p v.
Proof.
  intros [Hq Hf] Hs Hl Hb. apply ide_sector_Some in Hs as (Hr & Hs & _ & _ & Hn).
  destruct (Hr) as (Hp & Hd & _). unfold ata_write_sector, mbind, io_bind.
  rewrite (wait_ready_now d port drive) by done.
  destruct (command_ok d port drive lba ATA_CMD_WRITE_SECTORS s0 Hr Hs ltac:(set_solver)) as (r & -> & Hsel).
  cbn [Z.eqb ATA_CMD_READ_SECTORS ATA_CMD_WRITE_SECTORS Pos.eqb].
  rewrite (wait_drq_now _ port drive); try done.
  2: { unfold selected. by rewrite (proj1 (channel_register port 7 Hp ltac:(lia))). }
  set (d1 := mkIde (images d) r Quiet false).
  change (mkIde (images d) r (Receiving port drive lba []) false) with (receive d1 port drive lba []).
  rewrite (write_words_ok d1 port port drive lba 256) by (try done; unfold len, SECTOR_SIZE in *; simpl; lia).
  simpl app. unfold receive. rewrite Hl, Z.eqb_refl. set (d2 := ide_store _ _ _ _ _).
  assert (Hi : images d2 port drive <> []).
  { simpl. rewrite bool_decide_eq_true_2 by done. intros E. apply (f_equal len) in E. rewrite len_setZ in E.
    apply getZ_Some_lt in Hs. unfold len in *. simpl in E. lia. }
  rewrite (wait_ready_now d2 port drive) by done. unfold output, outb, ide_ports.
  rewrite (proj2 (channel_register port 7 Hp ltac:(lia))), Z.eqb_refl.
  assert (Hc : ide_command (port + 7) ATA_CMD_CACHE_FLUSH d2 = d2) by reflexivity.
  rewrite Hc. exists d2. split; [exact (wait_ready_now d2 port drive Hp Hd Hi)|done].
Qed.

#[export] Program Instance ide_laws : SectorLaws ide := {
  at_rest := ide_rest;
  sector := ide_sector;
}.
Next Obligation. intros. by apply ide_sector_Some in H as (_ & _ & ? & ? & _). Qed.
Next Obligation.
  intros d port drive lba s Hr Hs. destruct (ide_read_ok d port drive lba s Hr Hs) as (d' & E & Hr' & Hi).
  exists d'. split_and!; [done..|]. intros. unfold ide_sector. by rewrite Hi.
Qed.
Next Obligation.
  intros d port drive lba s0 s Hr Hs Hl Hb.
  destruct (ide_write_ok d port drive lba s0 s Hr Hs Hl Hb) as (d' & E & Hr' & Hi).
  exists d'. split_and!; [done..|]. intros p v l. unfold ide_sector. rewrite Hi.
  apply ide_sector_Some in Hs as ((Hp & Hd & Hlba) & Hs & _). apply getZ_Some_lt in Hs.
  destruct (decide (p = port /\ v = drive)) as [[-> ->]|Hne].
  - rewrite (bool_decide_eq_true_2 (port = port /\ drive = drive)) by done.
    destruct (decide (l = lba)) as [->|Hl'].
    + rewrite !bool_decide_eq_true_2 by (split_and!; try done; lia). rewrite getZ_setZ_eq by lia.
      simpl. by rewrite bool_decide_eq_true_2.
    + rewrite (bool_decide_eq_false_2 (port = port /\ drive = drive /\ l = lba)) by naive_solver.
      by rewrite getZ_setZ_ne by done.
  - rewrite (bool_decide_eq_false_2 (p = port /\ v = drive /\ l = lba)) by naive_solver.
    by rewrite (bool_decide_eq_false_2 (p = port /\ v = drive)).
Qed.
