(* ===== verification/Fat16.v ===== *)
(** The FAT16 export disk (kernel/src/export_disk.rs): the boot sector, the
    allocation table, the root directory, and reading, writing, deleting, listing
    and importing files. It is written against [SectorDevice] (Ata.v), and is itself
    the [SyncDisk] that the file system writes through to. *)

From S2P Require Import Prelude RustStd RustStr Vfs ExportDisk Ata Fs.
Local Open Scope Z_scope.

Definition MAX_EXPORT_FILE_SIZE : Z := 65536.

Record DiskLocation : Set := mkLocation { base_port : Z; drive : Z; detected : bool }.

Record Fat16Bpb : Set := mkBpb {
  bytes_per_sector : Z;
  sectors_per_cluster : Z;
  reserved_sectors : Z;
  num_fats : Z;
  root_dir_entries : Z;
  total_sectors : Z;
  fat_size_sectors : Z;
  root_dir_start_lba : Z;
  root_dir_sectors : Z;
  data_start_lba : Z;
  total_data_clusters : Z;
}.

(** * Fields of a sector

    A sector is an array of 512 bytes and the indices are in range. *)

Definition at_ (s : list Z) (i : Z) : Z := default 0 (getZ s i).
Definition u16_at (s : list Z) (i : Z) : Z := at_ s i + 256 * at_ s (i + 1).
Definition u32_at (s : list Z) (i : Z) : Z := u16_at s i + 65536 * u16_at s (i + 2).

(** No product or sum here leaves 32 bits. *)
Definition parse_bpb (sector0 : list Z) : outcome disk_error Fat16Bpb :=
  if negb (at_ sector0 510 =? 0x55) || negb (at_ sector0 511 =? 0xAA) then
    Err (Disk "Invalid boot sector signature (0x55AA missing)")
  else
    let bytes_per_sector := u16_at sector0 11 in
    if negb (bytes_per_sector =? 512) then
      Err (Disk "Unsupported sector size (only 512 bytes supported)")
    else
      let sectors_per_cluster := at_ sector0 13 in
      if sectors_per_cluster =? 0 then Err (Disk "Invalid sectors per cluster (0)")
      else
        let reserved_sectors := u16_at sector0 14 in
        let num_fats := at_ sector0 16 in
        let root_dir_entries := u16_at sector0 17 in
        let total_sectors_16 := u16_at sector0 19 in
        let fat_size_sectors := u16_at sector0 22 in
        let total_sectors_32 := u32_at sector0 32 in
        let total_sectors := if negb (total_sectors_16 =? 0) then total_sectors_16 else total_sectors_32 in
        let root_dir_start_lba := reserved_sectors + num_fats * fat_size_sectors in
        let root_dir_sectors := (root_dir_entries * 32 + (bytes_per_sector - 1)) / bytes_per_sector in
        let data_start_lba := root_dir_start_lba + root_dir_sectors in
        let data_sectors := Z.max 0 (total_sectors - data_start_lba) in
        Ok (mkBpb bytes_per_sector sectors_per_cluster reserved_sectors num_fats root_dir_entries
              total_sectors fat_size_sectors root_dir_start_lba root_dir_sectors data_start_lba
              (data_sectors / sectors_per_cluster)).

(** * Directory entries *)

Definition entry_at (s : list Z) (i : Z) : list Z := sub s (i * 32) ((i + 1) * 32).
Definition first_cluster (entry : list Z) : Z := u16_at entry 26.
Definition file_size (entry : list Z) : Z := u32_at entry 28.

Definition entry_end (entry : list Z) : bool := at_ entry 0 =? 0.
Definition entry_skipped (entry : list Z) : bool :=
  (at_ entry 0 =? 0xE5) || (Z.land (at_ entry 11) 0x0F =? 0x0F).
Definition has_attr (entry : list Z) (bit : Z) : bool := negb (Z.land (at_ entry 11) bit =? 0).

(** The name of an entry, with a dot if it has an extension. *)
Definition not_blank (b : Z) : bool := negb (b =? 32).
Definition entry_name (entry : list Z) : list Z :=
  filter (fun b => not_blank b = true) (sub entry 0 8) ++
  (if existsb not_blank (sub entry 8 11) then 46 :: filter (fun b => not_blank b = true) (sub entry 8 11) else []).

(** The loop that looks for a name in the entries of a sector from the [i]-th on. *)
Fixpoint find_entry (n : nat) (i : Z) (target s : list Z) : option Z :=
  match n with
  | O => None
  | S n =>
    let entry := entry_at s i in
    if entry_end entry then None
    else if entry_skipped entry then find_entry n (i + 1) target s
    else if bytes_eqb (sub entry 0 11) target then Some i
    else find_entry n (i + 1) target s
  end.

(** The loop that looks for the entry to write: of this name, or not in use. *)
Fixpoint find_slot (n : nat) (i : Z) (target s : list Z) : option Z :=
  match n with
  | O => None
  | S n =>
    let entry := entry_at s i in
    if bytes_eqb (sub entry 0 11) target || (at_ entry 0 =? 0) || (at_ entry 0 =? 0xE5) then Some i
    else find_slot n (i + 1) target s
  end.

(** The entries of a sector that satisfy [keep], up to the end of the directory. *)
Fixpoint live_entries (n : nat) (i : Z) (keep : list Z -> bool) (s : list Z) : list (list Z) :=
  match n with
  | O => []
  | S n =>
    let entry := entry_at s i in
    if entry_end entry then []
    else if keep entry then entry :: live_entries n (i + 1) keep s
    else live_entries n (i + 1) keep s
  end.

Definition ENTRIES : nat := 16.

Definition make_entry (target : list Z) (cluster size : Z) : list Z :=
  target ++ [0x20] ++ replicate 14 0 ++ Z_to_le 2 cluster ++ Z_to_le 4 (as_u32 size).

(** [entry[..].copy_from_slice(..)] in the sector. *)
Definition put_entry (s : list Z) (i : Z) (entry : list Z) : list Z := splice s (i * 32) entry.

(** The text after the last slash. *)
Definition basename (path : list Z) : list Z :=
  match rfind 47 path with Some i => drop (Z.to_nat (i + 1)) path | None => path end.

(** * The disk *)

(** The device and the statics of the module. The sector buffers are not here:
    they are read or filled before every use. *)
Record export_disk (D : Type) : Type := mkExport {
  device : D;
  EXPORT_DISK_LOC : DiskLocation;
  SYNC_MUTEX_FLAG : bool;
  FILE_TRANSFER_BUF : list Z;
}.
Arguments mkExport {D} _ _ _ _.
Arguments device {D} _.
Arguments EXPORT_DISK_LOC {D} _.
Arguments SYNC_MUTEX_FLAG {D} _.
Arguments FILE_TRANSFER_BUF {D} _.

Definition export_disk_new {D} (d : D) : export_disk D :=
  mkExport d (mkLocation ATA_PRIMARY_DATA 1 false) false (replicate (Z.to_nat MAX_EXPORT_FILE_SIZE) 0).

Definition set_disk_device {D} (x : export_disk D) (d : D) : export_disk D :=
  mkExport d (EXPORT_DISK_LOC x) (SYNC_MUTEX_FLAG x) (FILE_TRANSFER_BUF x).
Definition set_loc {D} (x : export_disk D) (l : DiskLocation) : export_disk D :=
  mkExport (device x) l (SYNC_MUTEX_FLAG x) (FILE_TRANSFER_BUF x).
Definition set_flag {D} (x : export_disk D) (b : bool) : export_disk D :=
  mkExport (device x) (EXPORT_DISK_LOC x) b (FILE_TRANSFER_BUF x).
Definition set_transfer {D} (x : export_disk D) (b : list Z) : export_disk D :=
  mkExport (device x) (EXPORT_DISK_LOC x) (SYNC_MUTEX_FLAG x) b.

Section Fat16.
Context {D : Type} `{!SectorDevice D}.

(** Whether the build checks overflow. *)
Context (oc : bool).

Notation X := (export_disk D).

(** A device operation on the disk. *)
Definition on_device {A} (m : io D A) : io X A := fun x =>
  let '(d, r) := m (device x) in (set_disk_device x d, r).

Definition read_lba (loc : DiskLocation) (lba : Z) : io X (list Z) :=
  on_device (read_sector (base_port loc) (drive loc) lba).
Definition write_lba (loc : DiskLocation) (lba : Z) (s : list Z) : io X () :=
  on_device (write_sector (base_port loc) (drive loc) lba s).

(** ** Detection *)

Fixpoint detect (candidates : list (Z * Z)) : io X (option DiskLocation) := fun x =>
  match candidates with
  | [] => (x, Ok None)
  | (port, v) :: rest =>
    let loc := mkLocation port v true in
    match read_lba loc 0 x with
    | (x, Ok s) =>
      match parse_bpb s with
      | Ok _ => (set_loc x loc, Ok (Some loc))
      | Err _ => detect rest x
      | Panic k => (x, Panic k)
      end
    | (x, Err _) => detect rest x
    | (x, Panic k) => (x, Panic k)
    end
  end.

Definition export_disk_detect : io X (option DiskLocation) :=
  detect [(ATA_PRIMARY_DATA, 1); (ATA_PRIMARY_DATA, 0); (ATA_SECONDARY_DATA, 1); (ATA_SECONDARY_DATA, 0)].

Definition get_export_disk_loc : io X DiskLocation := fun x =>
  if detected (EXPORT_DISK_LOC x) then (x, Ok (EXPORT_DISK_LOC x))
  else
    match export_disk_detect x with
    | (x, Ok (Some loc)) => (x, Ok loc)
    | (x, Ok None) => (x, Err (Disk "No FAT16 Export Disk detected on ATA ports (0x1F0/0x170)"))
    | (x, Err e) => (x, Err e)
    | (x, Panic k) => (x, Panic k)
    end.

Definition export_disk_get_bpb : io X Fat16Bpb :=
  loc ← get_export_disk_loc; s ← read_lba loc 0; pure (parse_bpb s).

(** ** The root directory *)

(** The loops over the sectors of the directory, from [lba] on, which stop at the
    first sector for which [look] finds something: its place, its contents and what
    was found. *)
Fixpoint search_dir {A} (look : list Z -> option A) (loc : DiskLocation) (n : nat) (lba : Z)
    : io X (option (Z * list Z * A)) :=
  match n with
  | O => mret None
  | S n =>
    s ← read_lba loc lba;
    match look s with
    | Some a => mret (Some (lba, s, a))
    | None => search_dir look loc n (lba + 1)
    end
  end.

Definition search_root {A} (look : list Z -> option A) (loc : DiskLocation) (bpb : Fat16Bpb)
    : io X (option (Z * list Z * A)) :=
  search_dir look loc (Z.to_nat (root_dir_sectors bpb)) (root_dir_start_lba bpb).

(** What the listing shows of an entry: name, size, first cluster, directory or not. *)
Definition listed (entry : list Z) : list Z * Z * Z * bool :=
  (let n := entry_name entry in if utf8_valid n then n else bytes "<invalid>",
   file_size entry, first_cluster entry, has_attr entry 0x10).

Definition in_listing (entry : list Z) : bool := negb (entry_skipped entry || has_attr entry 0x08).

Fixpoint list_dir (loc : DiskLocation) (n : nat) (lba : Z) : io X (list (list Z * Z * Z * bool)) :=
  match n with
  | O => mret []
  | S n =>
    s ← read_lba loc lba;
    l ← list_dir loc n (lba + 1);
    mret (map listed (live_entries ENTRIES 0 in_listing s) ++ l)
  end.

(** The lines printed; the code returns their number. *)
Definition export_disk_list_files : io X (list (list Z * Z * Z * bool)) :=
  loc ← get_export_disk_loc;
  bpb ← export_disk_get_bpb;
  list_dir loc (Z.to_nat (root_dir_sectors bpb)) (root_dir_start_lba bpb).

(** ** The allocation table *)

Definition fat_sector (bpb : Fat16Bpb) (c : Z) : Z := reserved_sectors bpb + c * 2 / SECTOR_SIZE.
Definition fat_offset (c : Z) : Z := c * 2 mod SECTOR_SIZE.
Definition cluster_lba (bpb : Fat16Bpb) (c : Z) : Z :=
  data_start_lba bpb + (c - 2) * sectors_per_cluster bpb.

Definition in_chain (c : Z) : bool := (2 <=? c) && (c <? 0xFFF8).

Definition read_fat (loc : DiskLocation) (bpb : Fat16Bpb) (c : Z) : io X Z :=
  s ← read_lba loc (fat_sector bpb c); mret (u16_at s (fat_offset c)).

(** A link is written in both tables; what was there is returned. *)
Definition update_fat (loc : DiskLocation) (bpb : Fat16Bpb) (c next : Z) : io X Z :=
  s ← read_lba loc (fat_sector bpb c);
  let s' := splice s (fat_offset c) (Z_to_le 2 next) in
  _ ← write_lba loc (fat_sector bpb c) s';
  _ ← write_lba loc (fat_sector bpb c + fat_size_sectors bpb) s';
  mret (u16_at s (fat_offset c)).

(** ** Reading *)

(** The loop over the sectors of a cluster, [n] of them left, with the bytes read
    so far and the buffer they are in; an error leaves the buffer as it is. *)
Fixpoint read_cluster (loc : DiskLocation) (n : nat) (lba wanted got : Z) (buf : list Z) (x : X)
    : X * list Z * outcome disk_error Z :=
  match n with
  | O => (x, buf, Ok got)
  | S n =>
    if wanted <=? got then (x, buf, Ok got)
    else
      match read_lba loc lba x with
      | (x, Ok s) =>
        let chunk := Z.min SECTOR_SIZE (wanted - got) in
        read_cluster loc n (lba + 1) wanted (got + chunk)
          (splice buf got (take (Z.to_nat chunk) s)) x
      | (x, Err e) => (x, buf, Err e)
      | (x, Panic k) => (x, buf, Panic k)
      end
  end.

(** The loop over the chain. A round reads a byte at least, so [wanted] rounds are
    enough. *)
Fixpoint read_chain (fuel : nat) (loc : DiskLocation) (bpb : Fat16Bpb) (c wanted got : Z) (buf : list Z)
    (x : X) : X * list Z * outcome disk_error Z :=
  if in_chain c && (got <? wanted) then
    match fuel with
    | O => (x, buf, Err Endless)
    | S fuel =>
      match read_cluster loc (Z.to_nat (sectors_per_cluster bpb)) (cluster_lba bpb c) wanted got buf x with
      | (x, buf, Ok got) =>
        match read_fat loc bpb c x with
        | (x, Ok c) => read_chain fuel loc bpb c wanted got buf x
        | (x, Err e) => (x, buf, Err e)
        | (x, Panic k) => (x, buf, Panic k)
        end
      | r => r
      end
    end
  else (x, buf, Ok got).

Definition export_disk_read_clusters (bpb : Fat16Bpb) (loc : DiskLocation) (c size : Z) (out_buf : list Z)
    (x : X) : X * list Z * outcome disk_error Z :=
  if (size =? 0) || (c <? 2) then (x, out_buf, Ok 0)
  else
    let wanted := Z.min size (len out_buf) in
    read_chain (S (Z.to_nat wanted)) loc bpb c wanted 0 out_buf x.

Definition export_disk_read_file (filename out_buf : list Z) (x : X) : X * list Z * outcome disk_error Z :=
  let found :=
    loc ← get_export_disk_loc;
    bpb ← export_disk_get_bpb;
    e ← search_root (find_entry ENTRIES 0 (to_83_name filename)) loc bpb;
    match e with
    | Some (_, s, i) => mret (loc, bpb, entry_at s i)
    | None => disk_fail "File not found on Export Disk"
    end in
  match found x with
  | (x, Ok (loc, bpb, entry)) =>
    export_disk_read_clusters bpb loc (first_cluster entry) (file_size entry) out_buf x
  | (x, Err e) => (x, out_buf, Err e)
  | (x, Panic k) => (x, out_buf, Panic k)
  end.

(** ** Deleting *)

(** The loop that frees a chain. Every link it follows is cleared, so on a disk
    that keeps what is written it meets a cluster at most once. *)
Fixpoint free_chain (fuel : nat) (loc : DiskLocation) (bpb : Fat16Bpb) (c : Z) : io X () :=
  if in_chain c then
    match fuel with
    | O => fun x => (x, Err Endless)
    | S fuel => next ← update_fat loc bpb c 0; free_chain fuel loc bpb next
    end
  else mret tt.

Definition CHAIN_FUEL : nat := Z.to_nat 0xFFF8.

Definition export_disk_delete_file (filename : list Z) : io X () :=
  loc ← get_export_disk_loc;
  bpb ← export_disk_get_bpb;
  e ← search_root (find_entry ENTRIES 0 (to_83_name filename)) loc bpb;
  match e with
  | Some (lba, s, i) =>
    _ ← write_lba loc lba (setZ s (i * 32) 0xE5);
    free_chain CHAIN_FUEL loc bpb (first_cluster (entry_at s i))
  | None => mret tt
  end.

(** ** Writing *)

(** The loop over the table, from cluster [c] on, [n] of them left. *)
Fixpoint find_free (loc : DiskLocation) (bpb : Fat16Bpb) (needed : Z) (n : nat) (c : Z) (acc : list Z)
    : io X (list Z) :=
  match n with
  | O => mret acc
  | S n =>
    val ← read_fat loc bpb c;
    if val =? 0 then
      let acc := acc ++ [c] in
      if len acc =? needed then mret acc else find_free loc bpb needed n (c + 1) acc
    else find_free loc bpb needed n (c + 1) acc
  end.

(** [bpb.total_data_clusters as u16 + 2]. *)
Definition cluster_end (bpb : Fat16Bpb) : outcome disk_error Z :=
  let n := as_u16 (total_data_clusters bpb) + 2 in
  if n <? 2 ^ 16 then Ok n else if oc then Panic ArithmeticOverflow else Ok (as_u16 n).

(** The loop over the sectors of a cluster, with the number of bytes written. *)
Fixpoint write_cluster (loc : DiskLocation) (data : list Z) (n : nat) (lba written : Z) : io X Z :=
  match n with
  | O => mret written
  | S n =>
    let chunk := if written <? len data then Z.min SECTOR_SIZE (len data - written) else 0 in
    let s := sub data written (written + chunk) ++ replicate (Z.to_nat (SECTOR_SIZE - chunk)) 0 in
    _ ← write_lba loc lba s;
    write_cluster loc data n (lba + 1) (written + chunk)
  end.

Fixpoint write_data (loc : DiskLocation) (bpb : Fat16Bpb) (data : list Z) (cs : list Z) (written : Z) : io X () :=
  match cs with
  | [] => mret tt
  | c :: cs =>
    written ← write_cluster loc data (Z.to_nat (sectors_per_cluster bpb)) (cluster_lba bpb c) written;
    write_data loc bpb data cs written
  end.

(** The chain of [cs], ended by 0xFFFF. *)
Fixpoint write_chain (loc : DiskLocation) (bpb : Fat16Bpb) (cs : list Z) : io X () :=
  match cs with
  | [] => mret tt
  | c :: cs => _ ← update_fat loc bpb c (hd 0xFFFF cs); write_chain loc bpb cs
  end.

Definition needed_clusters (bpb : Fat16Bpb) (data : list Z) : Z :=
  let cluster_size_bytes := sectors_per_cluster bpb * SECTOR_SIZE in
  if len data =? 0 then 1 else (len data + cluster_size_bytes - 1) / cluster_size_bytes.

Definition export_disk_write_file (filename data : list Z) : io X Z :=
  loc ← get_export_disk_loc;
  bpb ← export_disk_get_bpb;
  let needed := needed_clusters bpb data in
  if 64 <? needed then disk_fail "File size exceeds static cluster allocation limit (128KB)"
  else
    e ← pure (cluster_end bpb);
    cs ← find_free loc bpb needed (Z.to_nat (e - 2)) 2 [];
    if len cs <? needed then disk_fail "Not enough free space on Export Disk"
    else
      _ ← write_data loc bpb data cs 0;
      _ ← write_chain loc bpb cs;
      slot ← search_root (find_slot ENTRIES 0 (to_83_name filename)) loc bpb;
      match slot with
      | Some (lba, s, i) =>
        _ ← write_lba loc lba (put_entry s i (make_entry (to_83_name filename) (hd 0 cs) (len data)));
        mret (len data)
      | None => disk_fail "Root directory is full on Export Disk"
      end.

(** ** The write-through of the file system *)

(** What both entry points share: nothing happens while the flag is set or before a
    disk is found, and errors are dropped. The panics of the release build, of
    which there are none, would end here too. *)
Definition auto_sync {A} (path : list Z) (m : list Z -> io X A) (x : X) : X :=
  if SYNC_MUTEX_FLAG x || negb (detected (EXPORT_DISK_LOC x)) then x
  else
    let x := set_flag x true in
    let name := basename path in
    set_flag (if negb (len name =? 0) then fst (m name x) else x) false.
End Fat16.

Definition auto_sync_file {D} `{!SectorDevice D} (x : export_disk D) (path data : list Z) : export_disk D :=
  auto_sync path (fun name => export_disk_write_file false name data) x.
Definition auto_sync_delete {D} `{!SectorDevice D} (x : export_disk D) (path : list Z) : export_disk D :=
  auto_sync path export_disk_delete_file x.

#[export] Instance export_sync {D} `{!SectorDevice D} : SyncDisk (export_disk D) := {
  export_disk_auto_sync_file := auto_sync_file;
  export_disk_auto_sync_delete := auto_sync_delete;
}.

(** ** Import at boot *)

Section Importing.
Context {D : Type} `{!SectorDevice D} (cwd : list Z) (now : Z).

Notation X := (export_disk D).
Notation fs := (state X).

Definition to_ascii_lowercase (b : Z) : Z := if in_range 65 b 90 then b + 32 else b.

(** [prefix], and the name in lower case up to byte 63. *)
Definition import_path (prefix name : list Z) : list Z :=
  prefix ++ take (63 - length prefix) (map to_ascii_lowercase name).

Definition import_as (prefix name content : list Z) (s : fs) : fs :=
  let path := import_path prefix name in
  if utf8_valid path then fst (fs_create_internal cwd now path content false s) else s.

Definition ends_with (s suffix : list Z) : bool :=
  (len suffix <=? len s) && bytes_eqb (drop (length s - length suffix) s) suffix.

Definition imported (entry : list Z) : bool :=
  negb (entry_skipped entry || has_attr entry 0x08 || has_attr entry 0x10).

(** One entry: whether it counts, the state after it, or a panic of the reader. *)
Definition import_entry (loc : DiskLocation) (bpb : Fat16Bpb) (entry : list Z) (s : fs)
    : fs * outcome disk_error bool :=
  let raw_name := entry_name entry in
  if negb (utf8_valid raw_name) || (MAX_EXPORT_FILE_SIZE <? file_size entry) then (s, Ok false)
  else
    let '(x, buf, r) := export_disk_read_clusters bpb loc (first_cluster entry) (file_size entry)
                          (FILE_TRANSFER_BUF (disk s)) (disk s) in
    let s := set_disk s (set_transfer x buf) in
    match r with
    | Panic k => (s, Panic k)
    | _ =>
      let content := sub buf 0 (match r with Ok n => n | _ => 0 end) in
      let s := import_as (bytes "/") raw_name content s in
      (if ends_with raw_name (bytes ".PUL") || ends_with raw_name (bytes ".pul")
       then import_as (bytes "/pulselang/") raw_name content s else s, Ok true)
    end.

Fixpoint import_entries (loc : DiskLocation) (bpb : Fat16Bpb) (entries : list (list Z)) (count : Z) (s : fs)
    : fs * outcome disk_error Z :=
  match entries with
  | [] => (s, Ok count)
  | entry :: entries =>
    match import_entry loc bpb entry s with
    | (s, Ok b) => import_entries loc bpb entries (if b then count + 1 else count) s
    | (s, Err e) => (s, Err e)
    | (s, Panic k) => (s, Panic k)
    end
  end.

(** A sector that cannot be read ends the import. *)
Fixpoint import_dir (loc : DiskLocation) (bpb : Fat16Bpb) (n : nat) (lba count : Z) (s : fs)
    : fs * outcome disk_error Z :=
  match n with
  | O => (s, Ok count)
  | S n =>
    match read_lba loc lba (disk s) with
    | (x, Ok sector) =>
      match import_entries loc bpb (live_entries ENTRIES 0 imported sector) count (set_disk s x) with
      | (s, Ok count) => import_dir loc bpb n (lba + 1) count s
      | r => r
      end
    | (x, Err _) => (set_disk s x, Ok count)
    | (x, Panic k) => (set_disk s x, Panic k)
    end
  end.

Definition export_disk_auto_import (s : fs) : fs * outcome disk_error Z :=
  match (loc ← get_export_disk_loc; bpb ← export_disk_get_bpb; mret (loc, bpb)) (disk s) with
  | (x, Ok (loc, bpb)) =>
    match import_dir loc bpb (Z.to_nat (root_dir_sectors bpb)) (root_dir_start_lba bpb) 0
            (set_disk s (set_flag x true)) with
    | (s, Ok n) => (set_disk s (set_flag (disk s) false), Ok n)
    | r => r
    end
  | (x, Err e) => (set_disk s x, Err e)
  | (x, Panic k) => (set_disk s x, Panic k)
  end.
End Importing.

(** * A small volume *)

(** The boot sector of a volume of [total] sectors, with clusters of one sector, a
    reserved sector, tables of one sector and 16 root entries. *)
Definition boot_sector (total : Z) : list Z :=
  replicate 11 0 ++ [0; 2; 1; 1; 0; 2; 16; 0] ++ Z_to_le 2 total ++ [0xF8; 1; 0] ++ replicate 486 0 ++ [0x55; 0xAA].

(** The device of the examples: the image of one drive, without ports. *)
Definition image : Type := list (list Z).

#[export] Instance image_device : SectorDevice image := {
  read_sector port drive lba d :=
    match getZ d lba with
    | Some s => if (port =? ATA_PRIMARY_DATA) && (drive =? 1) then (d, Ok s) else (d, Err (Disk "no drive"))
    | None => (d, Err (Disk "ATA disk error flag set"))
    end;
  write_sector port drive lba s d :=
    if (port =? ATA_PRIMARY_DATA) && (drive =? 1) && (0 <=? lba) && (lba <? len d) then (setZ d lba s, Ok tt)
    else (d, Err (Disk "ATA disk error flag set"));
}.

Definition zero_sector : list Z := replicate 512 0.
Definition small_image : image := boot_sector 40 :: replicate 39 zero_sector.
Definition small_disk : export_disk image := export_disk_new small_image.

Definition read_back (name : list Z) (x : export_disk image) : outcome disk_error (list Z) :=
  match export_disk_read_file name (replicate 2000 0) x with
  | (_, buf, Ok n) => Ok (sub buf 0 n)
  | (_, _, Err e) => Err e
  | (_, _, Panic k) => Panic k
  end.

Example write_then_read :
  let '(x, r) := export_disk_write_file true (bytes "/a/hello.txt") (replicate 600 7) small_disk in
  r = Ok 600 /\ read_back (bytes "HELLO.TXT") x = Ok (replicate 600 7) /\
  read_back (bytes "other") x = Err (Disk "File not found on Export Disk").
Proof. vm_compute. by split_and!. Qed.
