(* ===== verification/Fat16Props.v ===== *)
(** The allocation table and the clusters of the export disk: what the operations
    of Fat16.v do to the contents of a volume whose regions do not overlap. Reading
    a chain gives the bytes of its clusters, writing one stores them and changes no
    other cluster and no other link, and freeing ends on any links. *)

From S2P Require Import Prelude RustStd RustStr Vfs ExportDisk Ata Fs Fat16.
Local Open Scope Z_scope.

(** * Running on the contents of a disk

    [sigma] gives the contents of the [size] sectors of the drive at [loc]. *)

Section Runs.
Context {D : Type} `{!SectorDevice D} `{!SectorLaws D}.
Context (loc : DiskLocation) (size : Z).

Notation X := (export_disk D).

Definition sectors : Type := Z -> list Z.

Definition shows (x : X) (sigma : sectors) : Prop :=
  at_rest (device x) /\ EXPORT_DISK_LOC x = loc /\ detected loc = true /\
  forall l, 0 <= l < size -> sector (device x) (base_port loc) (drive loc) l = Some (sigma l).

Definition statics (x : X) : bool * list Z := (SYNC_MUTEX_FLAG x, FILE_TRANSFER_BUF x).

(** [m] takes the contents [sigma] to [sigma'] and returns [r], on any disk. *)
Definition does {A} (sigma : sectors) (m : io X A) (sigma' : sectors) (r : outcome disk_error A) : Prop :=
  forall x, shows x sigma -> exists x', m x = (x', r) /\ shows x' sigma' /\ statics x' = statics x.

Definition put_sector (sigma : sectors) (l : Z) (s : list Z) : sectors := fun k => if k =? l then s else sigma k.

Lemma put_same sigma l s : put_sector sigma l s l = s.
Proof. unfold put_sector. by rewrite Z.eqb_refl. Qed.
Lemma put_other sigma l s k : k <> l -> put_sector sigma l s k = sigma k.
Proof. intros. unfold put_sector. by rewrite (proj2 (Z.eqb_neq _ _)). Qed.

Lemma does_ret {A} sigma (a : A) : does sigma (mret a) sigma (Ok a).
Proof. intros x Hx. by exists x. Qed.

Lemma does_fail {A} sigma msg : does (A := A) sigma (disk_fail msg) sigma (Err (Disk msg)).
Proof. intros x Hx. by exists x. Qed.

Lemma does_pure {A} sigma (r : outcome disk_error A) : does sigma (pure r) sigma r.
Proof. intros x Hx. by exists x. Qed.

Lemma does_bind {A B} s0 s1 s2 (m : io X A) (f : A -> io X B) a r :
  does s0 m s1 (Ok a) -> does s1 (f a) s2 r -> does s0 (m ≫= f) s2 r.
Proof.
  intros Hm Hf x Hx. destruct (Hm x Hx) as (x1 & E1 & H1 & S1).
  destruct (Hf x1 H1) as (x2 & E2 & H2 & S2). exists x2. unfold mbind, io_bind. rewrite E1, E2.
  split_and!; congruence || done.
Qed.

Lemma does_bind_err {A B} s0 s1 (m : io X A) (f : A -> io X B) e :
  does s0 m s1 (Err e) -> does s0 (m ≫= f) s1 (Err e).
Proof.
  intros Hm x Hx. destruct (Hm x Hx) as (x1 & E1 & H1 & S1). exists x1. unfold mbind, io_bind. by rewrite E1.
Qed.

Lemma does_read sigma l : 0 <= l < size -> does sigma (read_lba loc l) sigma (Ok (sigma l)).
Proof.
  intros Hl x (Hr & Hloc & Hd & Hs).
  destruct (read_sector_ok (device x) (base_port loc) (drive loc) l (sigma l) Hr (Hs l Hl)) as (d & E & Hr' & Hd').
  exists (set_disk_device x d). unfold read_lba, on_device. rewrite E. split; [done|]. split; [|done].
  split_and!; try done.
  intros k Hk. rewrite Hd'. by apply Hs.
Qed.

Lemma does_write sigma l s : 0 <= l < size -> len s = 512 -> bytes_ok s ->
  does sigma (write_lba loc l s) (put_sector sigma l s) (Ok tt).
Proof.
  intros Hl Hlen Hb x (Hr & Hloc & Hd & Hs).
  destruct (write_sector_ok (device x) (base_port loc) (drive loc) l (sigma l) s Hr (Hs l Hl) Hlen Hb)
    as (d & E & Hr' & Hd').
  exists (set_disk_device x d). unfold write_lba, on_device. rewrite E. split; [done|]. split; [|done].
  split_and!; try done.
  intros k Hk. rewrite Hd'. unfold put_sector. destruct (Z.eqb_spec k l) as [->|].
  - by rewrite bool_decide_eq_true_2.
  - rewrite bool_decide_eq_false_2 by tauto. by apply Hs.
Qed.

Lemma does_loc sigma : does sigma get_export_disk_loc sigma (Ok loc).
Proof. intros x Hx. exists x. destruct Hx as (? & E & Hd & ?). unfold get_export_disk_loc. by rewrite E, Hd. Qed.

Lemma does_bpb sigma : 0 < size -> does sigma export_disk_get_bpb sigma (parse_bpb (sigma 0)).
Proof.
  intros Hs. eapply does_bind; [apply does_loc|]. eapply does_bind; [apply does_read; lia|]. apply does_pure.
Qed.

(** Every sector has 512 bytes. *)
Definition sectors_ok (sigma : sectors) : Prop := forall l, 0 <= l < size -> len (sigma l) = 512 /\ bytes_ok (sigma l).

Lemma shows_sectors x sigma : shows x sigma -> sectors_ok sigma.
Proof. intros (_ & _ & _ & Hs) l Hl. by eapply sector_size, Hs. Qed.

Lemma sectors_ok_put sigma l s : sectors_ok sigma -> len s = 512 -> bytes_ok s -> sectors_ok (put_sector sigma l s).
Proof. intros H ? ? k Hk. unfold put_sector. case_match; [done|by apply H]. Qed.
End Runs.

(** * The allocation table *)

Lemma at_splice s i t k : 0 <= i -> i + len t <= len s ->
  at_ (splice s i t) k = if (i <=? k) && (k <? i + len t) then at_ t (k - i) else at_ s k.
Proof.
  intros Hi Hl. unfold at_. destruct (Z.leb_spec i k); simpl.
  - destruct (Z.ltb_spec k (i + len t)); [|by rewrite getZ_splice_out by lia].
    replace k with (i + (k - i)) at 1 by lia. by rewrite getZ_splice_in by lia.
  - by rewrite getZ_splice_out by lia.
Qed.

Lemma at_le2 v i : 0 <= v < 65536 -> (i = 0 \/ i = 1) -> at_ (Z_to_le 2 v) i = if i =? 0 then v mod 256 else v / 256.
Proof.
  intros Hv [->| ->]; [reflexivity|]. change (v / 256 mod 256 = v / 256). apply Z.mod_small.
  split; [apply Z.div_pos; lia|]. apply Z.div_lt_upper_bound; lia.
Qed.

(** What a 16-bit field holds after a write to it, or to another one. *)
Lemma u16_splice s i v k : 0 <= i -> i + 2 <= len s -> 0 <= v < 65536 ->
  k = i \/ k + 1 < i \/ i + 1 < k ->
  u16_at (splice s i (Z_to_le 2 v)) k = if k =? i then v else u16_at s k.
Proof.
  intros Hi Hl Hv Hk. unfold u16_at. assert (H2 : len (Z_to_le 2 v) = 2) by done.
  rewrite !at_splice by lia. rewrite H2.
  destruct (Z.eqb_spec k i) as [->|].
  - rewrite !(proj2 (Z.leb_le _ _)), !(proj2 (Z.ltb_lt _ _)) by lia. simpl.
    rewrite !at_le2 by lia. replace (i - i) with 0 by lia. replace (i + 1 - i) with 1 by lia. simpl.
    pose proof (Z.div_mod v 256). lia.
  - assert (E : forall m, m = k \/ m = k + 1 -> (i <=? m) && (m <? i + 2) = false).
    { intros m Hm. apply andb_false_iff. rewrite Z.leb_gt, Z.ltb_ge. lia. }
    by rewrite !E by lia.
Qed.

Lemma u16_range s i : bytes_ok s -> 0 <= u16_at s i < 65536.
Proof.
  intros Hb. assert (H : forall k, 0 <= at_ s k < 256).
  { intros k. unfold at_. destruct (getZ s k) eqn:E; simpl; [|lia]. by apply (Forall_getZ _ _ _ _ Hb) in E. }
  unfold u16_at. pose proof (H i). pose proof (H (i + 1)). lia.
Qed.

Section Table.
Context (size : Z) (bpb : Fat16Bpb).

(** The regions of a volume: the reserved sectors, at least two tables, the root
    directory, the clusters. The tables have a link for every cluster, and cluster
    numbers stay below the end markers. *)
Record geometry : Prop := {
  g_spc : 1 <= sectors_per_cluster bpb <= 255;
  g_reserved : 1 <= reserved_sectors bpb;
  g_fats : reserved_sectors bpb + 2 * fat_size_sectors bpb <= root_dir_start_lba bpb;
  g_root : 0 <= root_dir_sectors bpb /\ root_dir_start_lba bpb + root_dir_sectors bpb = data_start_lba bpb;
  g_links : total_data_clusters bpb + 2 <= 256 * fat_size_sectors bpb;
  g_clusters : 0 <= total_data_clusters bpb /\ total_data_clusters bpb + 2 <= 0xFFF8;
  g_data : data_start_lba bpb + total_data_clusters bpb * sectors_per_cluster bpb <= size;
}.
Context (Hg : geometry).

Definition cluster (c : Z) : Prop := 2 <= c < total_data_clusters bpb + 2.

Definition link (sigma : sectors) (c : Z) : Z := u16_at (sigma (fat_sector bpb c)) (fat_offset c).

Definition set_link (sigma : sectors) (c next : Z) : sectors :=
  let s := splice (sigma (fat_sector bpb c)) (fat_offset c) (Z_to_le 2 next) in
  put_sector (put_sector sigma (fat_sector bpb c) s) (fat_sector bpb c + fat_size_sectors bpb) s.

Lemma fat_place c : cluster c ->
  reserved_sectors bpb <= fat_sector bpb c < reserved_sectors bpb + fat_size_sectors bpb /\
  fat_offset c = 2 * (c mod 256) /\ fat_sector bpb c = reserved_sectors bpb + c / 256.
Proof.
  intros Hc. destruct Hg as [_ _ _ _ Hl _ _]. unfold cluster, fat_sector, fat_offset, SECTOR_SIZE in *.
  change 512 with (256 * 2). rewrite Z.div_mul_cancel_r, Z.mul_mod_distr_r by lia.
  assert (0 <= c / 256) by (apply Z.div_pos; lia). assert (c / 256 < fat_size_sectors bpb) by (apply Z.div_lt_upper_bound; lia).
  lia.
Qed.

Lemma sector_bounds c : cluster c ->
  0 <= fat_sector bpb c < size /\ 0 <= fat_sector bpb c + fat_size_sectors bpb < size /\ 0 <= fat_offset c <= 510.
Proof.
  intros Hc. destruct (fat_place c Hc) as (H1 & H2 & _). destruct Hg. unfold cluster in *.
  pose proof (Z.mod_pos_bound c 256). nia.
Qed.

Lemma sectors_set_link sigma c next : sectors_ok size sigma -> cluster c -> sectors_ok size (set_link sigma c next).
Proof.
  intros Hs Hc. destruct (sector_bounds c Hc) as (H1 & H2 & H3). unfold set_link.
  destruct (Hs _ H1) as [Hl Hb].
  assert (Hl' : len (splice (sigma (fat_sector bpb c)) (fat_offset c) (Z_to_le 2 next)) = 512).
  { rewrite len_splice; [done|lia|]. change (len (Z_to_le 2 next)) with 2. lia. }
  assert (Hb' : bytes_ok (splice (sigma (fat_sector bpb c)) (fat_offset c) (Z_to_le 2 next))).
  { apply Forall_splice; [done|apply Z_to_le_bytes]. }
  by repeat apply sectors_ok_put.
Qed.

(** Only the two tables change, and in the first only the one link. *)
Lemma set_link_other sigma c next l : cluster c ->
  ~ (reserved_sectors bpb <= l < reserved_sectors bpb + 2 * fat_size_sectors bpb) -> set_link sigma c next l = sigma l.
Proof. intros Hc Hl. destruct (fat_place c Hc) as (H & _). unfold set_link. by rewrite !put_other by lia. Qed.

Lemma link_set_link sigma c next c' : sectors_ok size sigma -> cluster c -> cluster c' -> 0 <= next < 65536 ->
  link (set_link sigma c next) c' = if c' =? c then next else link sigma c'.
Proof.
  intros Hs Hc Hc' Hn. destruct (fat_place c Hc) as (H & Ho & Hf). destruct (fat_place c' Hc') as (H' & Ho' & Hf').
  destruct (sector_bounds c Hc) as (B1 & B2 & B3). destruct (Hs _ B1) as [Hl _].
  unfold link, set_link. rewrite put_other by lia.
  assert (E : (c' =? c) = true <-> fat_sector bpb c' = fat_sector bpb c /\ fat_offset c' = fat_offset c).
  { rewrite Z.eqb_eq. split; [by intros ->|]. rewrite Hf, Hf', Ho, Ho'. intros [E1 E2].
    rewrite (Z.div_mod c 256), (Z.div_mod c' 256) by lia. lia. }
  destruct (Z.eqb_spec (fat_sector bpb c') (fat_sector bpb c)) as [Es|Es].
  - rewrite Es, put_same, u16_splice; try lia.
    destruct (Z.eqb_spec (fat_offset c') (fat_offset c)); destruct (c' =? c); naive_solver.
  - rewrite put_other by lia. destruct (c' =? c); naive_solver.
Qed.
End Table.

(** * Chains and files *)

Lemma splice_app {A} (l a b : list A) i : 0 <= i -> i + len a + len b <= len l ->
  splice (splice l i a) (i + len a) b = splice l i (a ++ b).
Proof.
  unfold splice, len. intros Hi Hl. rewrite take_app, drop_app, length_take.
  replace (Z.to_nat (i + Z.of_nat (length a)) - Z.to_nat i `min` length l)%nat with (length a) by lia.
  rewrite (take_ge (take _ l)) by (rewrite length_take; lia).
  rewrite take_app_length. rewrite (drop_ge (take _ l)) by (rewrite length_take; lia).
  rewrite length_app, <-!app_assoc, app_nil_l. do 3 f_equal.
  rewrite drop_app, drop_ge by lia. rewrite app_nil_l, drop_drop. f_equal. lia.
Qed.

Lemma filter_shorter {A} (P Q : A -> Prop) `{!forall x, Decision (P x)} `{!forall x, Decision (Q x)} l c :
  (forall x, x ∈ l -> Q x -> P x) -> c ∈ l -> P c -> ~ Q c -> (length (filter Q l) < length (filter P l))%nat.
Proof.
  intros Hsub Hc HP HQ.
  assert (Hle : forall l', (forall x, x ∈ l' -> Q x -> P x) -> (length (filter Q l') <= length (filter P l'))%nat).
  { induction l' as [|x l' IH]; intros Hx; [done|]. rewrite !filter_cons. pose proof (IH ltac:(set_solver)).
    pose proof (Hx x ltac:(by left)). repeat case_decide; simpl; try lia. tauto. }
  induction l as [|x l IH]; [by apply not_elem_of_nil in Hc|].
  rewrite !filter_cons. apply elem_of_cons in Hc as [->|Hc].
  - pose proof (Hle l ltac:(set_solver)). repeat case_decide; simpl; try lia; tauto.
  - pose proof (IH ltac:(set_solver) Hc). pose proof (Hsub x ltac:(by left)).
    repeat case_decide; simpl; try lia. tauto.
Qed.

Section Chains.
Context (bpb : Fat16Bpb).

(** [cs] is the chain that starts at [c] and ends with an end marker. *)
Fixpoint chain (sigma : sectors) (c : Z) (cs : list Z) : Prop :=
  match cs with
  | [] => in_chain c = false /\ c <> 0
  | c' :: cs => c = c' /\ cluster bpb c /\ chain sigma (link bpb sigma c) cs
  end.

Fixpoint sectors_from (sigma : sectors) (lba : Z) (n : nat) : list Z :=
  match n with O => [] | S n => sigma lba ++ sectors_from sigma (lba + 1) n end.

Definition cluster_bytes (sigma : sectors) (c : Z) : list Z :=
  sectors_from sigma (cluster_lba bpb c) (Z.to_nat (sectors_per_cluster bpb)).

Definition file_bytes (sigma : sectors) (cs : list Z) : list Z := concat (map (cluster_bytes sigma) cs).

Lemma chain_clusters sigma cs : forall c, chain sigma c cs -> Forall (cluster bpb) cs.
Proof. induction cs as [|c' cs IH]; intros c; simpl; [done|]. intros (-> & Hc & H). constructor; eauto. Qed.

Lemma chain_link_ne sigma cs : forall c, chain sigma c cs -> Forall (fun c => link bpb sigma c <> 0) cs.
Proof.
  induction cs as [|c' cs IH]; intros c; simpl; [done|]. intros (-> & Hc & H).
  constructor; [|eauto]. destruct cs as [|c2 cs]; [by destruct H|].
  destruct H as (-> & Hc2 & _). unfold cluster in *. lia.
Qed.

Lemma chain_frame sigma sigma' cs : forall c, (forall k, k ∈ cs -> link bpb sigma' k = link bpb sigma k) ->
  chain sigma c cs -> chain sigma' c cs.
Proof.
  induction cs as [|c' cs IH]; intros c Hf; simpl; [done|]. intros (-> & Hc & H).
  split_and!; [done..|]. rewrite Hf by left. apply IH; [|done]. intros k Hk. apply Hf. by right.
Qed.

Lemma sectors_from_ext sigma sigma' n : forall lba,
  (forall l, lba <= l < lba + Z.of_nat n -> sigma' l = sigma l) -> sectors_from sigma' lba n = sectors_from sigma lba n.
Proof. induction n as [|n IH]; intros lba H; simpl; [done|]. rewrite H by lia. f_equal. apply IH. intros. apply H. lia. Qed.

Lemma len_sectors_from sigma n : forall lba,
  (forall l, lba <= l < lba + Z.of_nat n -> len (sigma l) = 512) -> len (sectors_from sigma lba n) = 512 * Z.of_nat n.
Proof.
  induction n as [|n IH]; intros lba H; [done|]. cbn [sectors_from]. rewrite len_app, H, IH by (intros; try apply H; lia). lia.
Qed.
End Chains.

Section ReadWrite.
Context {D : Type} `{!SectorDevice D} `{!SectorLaws D}.
Context (loc : DiskLocation) (size : Z) (bpb : Fat16Bpb) (Hg : geometry size bpb).
Notation X := (export_disk D).
Notation does := (does (D := D) loc size).
Notation shows := (shows (D := D) loc size).
Notation sectors_ok := (sectors_ok size).
Notation link := (link bpb).
Notation cluster := (cluster bpb).
Notation chain := (chain bpb).
Notation file_bytes := (file_bytes bpb).
Notation set_link := (set_link bpb).

Lemma does_read_fat sigma c : cluster c -> does sigma (read_fat loc bpb c) sigma (Ok (link sigma c)).
Proof.
  intros Hc. destruct (sector_bounds size bpb Hg c Hc) as (H & _).
  eapply does_bind; [by apply does_read|]. apply does_ret.
Qed.

Lemma does_update_fat sigma c next : sectors_ok sigma -> cluster c ->
  does sigma (update_fat loc bpb c next) (set_link sigma c next) (Ok (link sigma c)).
Proof.
  intros Hs Hc. destruct (sector_bounds size bpb Hg c Hc) as (H1 & H2 & H3). destruct (Hs _ H1) as [Hl Hb].
  assert (Hl' : len (splice (sigma (fat_sector bpb c)) (fat_offset c) (Z_to_le 2 next)) = 512).
  { rewrite len_splice; [done|lia|]. change (len (Z_to_le 2 next)) with 2. lia. }
  assert (Hb' : bytes_ok (splice (sigma (fat_sector bpb c)) (fat_offset c) (Z_to_le 2 next))).
  { apply Forall_splice; [done|apply Z_to_le_bytes]. }
  eapply does_bind; [by apply does_read|]. eapply does_bind; [by apply does_write|].
  eapply does_bind; [by apply does_write|]. apply does_ret.
Qed.

(** A reader that leaves the contents as they are. *)
Definition reads (sigma : sectors) (f : X -> X * list Z * outcome disk_error Z) (buf : list Z) (n : Z) : Prop :=
  forall x, shows x sigma -> exists x', f x = (x', buf, Ok n) /\ shows x' sigma /\ statics x' = statics x.

Lemma read_cluster_ok sigma wanted n : forall lba got buf,
  sectors_ok sigma -> 0 <= lba -> lba + Z.of_nat n <= size -> 0 <= got <= wanted -> wanted <= len buf ->
  reads sigma (read_cluster loc n lba wanted got buf)
    (splice buf got (take (Z.to_nat (wanted - got)) (sectors_from sigma lba n)))
    (got + Z.min (wanted - got) (512 * Z.of_nat n)).
Proof.
  induction n as [|n IH]; intros lba got buf Hs H0 H1 Hg1 Hw x Hx.
  - exists x. cbn [read_cluster sectors_from]. rewrite take_nil. rewrite Z.mul_0_r, Z.min_r, Z.add_0_r by lia.
    split_and!; try done. unfold splice. simpl. by rewrite Nat.add_0_r, take_drop.
  - cbn [read_cluster sectors_from]. destruct (Z.leb_spec wanted got).
    + exists x. replace (wanted - got) with 0 by lia. rewrite Z.min_l, Z.add_0_r by lia.
      split_and!; try done. unfold splice. simpl. by rewrite Nat.add_0_r, take_drop.
    + destruct (does_read loc size sigma lba ltac:(lia) x Hx) as (x1 & -> & Hx1 & S1).
      destruct (Hs lba ltac:(lia)) as [Hl _]. unfold SECTOR_SIZE. set (chunk := Z.min 512 (wanted - got)).
      assert (Hc : len (take (Z.to_nat chunk) (sigma lba)) = chunk).
      { unfold len in *. rewrite length_take. lia. }
      destruct (IH (lba + 1) (got + chunk) (splice buf got (take (Z.to_nat chunk) (sigma lba))) Hs
        ltac:(lia) ltac:(lia) ltac:(lia) ltac:(rewrite len_splice; rewrite ?Hc; lia) x1 Hx1) as (x2 & -> & Hx2 & S2).
      exists x2. split; [|split; [done|congruence]]. f_equal; [f_equal|f_equal; lia].
      set (rest := take (Z.to_nat (wanted - (got + chunk))) (sectors_from sigma (lba + 1) n)).
      assert (Hrest : len rest <= wanted - (got + chunk)) by (unfold rest, len; rewrite length_take; lia).
      pose proof (splice_app buf (take (Z.to_nat chunk) (sigma lba)) rest got) as E. rewrite Hc in E.
      rewrite E by lia. f_equal. unfold rest. rewrite take_app. f_equal.
      * unfold chunk. destruct (decide (wanted - got <= 512)); [by rewrite Z.min_r by lia|].
        rewrite !take_ge; [done|..]; unfold len in Hl; lia.
      * f_equal. unfold chunk, len in *. lia.
Qed.

Lemma cluster_place c : cluster c ->
  data_start_lba bpb <= cluster_lba bpb c /\
  cluster_lba bpb c + Z.of_nat (Z.to_nat (sectors_per_cluster bpb)) <= size /\
  0 <= cluster_lba bpb c /\ 0 <= data_start_lba bpb.
Proof.
  intros Hc. destruct Hg. unfold Fat16Props.cluster, cluster_lba in *.
  rewrite Z2Nat.id by lia. nia.
Qed.

Lemma cluster_in_chain c : cluster c -> in_chain c = true.
Proof. intros Hc. destruct Hg. unfold Fat16Props.cluster, in_chain in *. rewrite andb_true_iff, Z.leb_le, Z.ltb_lt. lia. Qed.

Lemma len_cluster_bytes sigma c : sectors_ok sigma -> cluster c ->
  len (cluster_bytes bpb sigma c) = 512 * sectors_per_cluster bpb.
Proof.
  intros Hs Hc. destruct (cluster_place c Hc) as (H1 & H2 & H3 & _). unfold cluster_bytes.
  rewrite len_sectors_from; [rewrite Z2Nat.id; [done|destruct Hg; lia]|]. intros l Hl. apply Hs. lia.
Qed.

Lemma read_chain_ok sigma cs : forall fuel c wanted got buf,
  sectors_ok sigma -> chain sigma c cs -> 0 <= got <= wanted -> wanted <= len buf ->
  wanted - got <= len (file_bytes sigma cs) -> wanted - got < Z.of_nat fuel ->
  reads sigma (read_chain fuel loc bpb c wanted got buf)
    (splice buf got (take (Z.to_nat (wanted - got)) (file_bytes sigma cs))) wanted.
Proof.
  induction cs as [|c' cs IH]; intros fuel c wanted got buf Hs Hch Hgot Hw Hlen Hf.
  - unfold file_bytes in Hlen. simpl in Hlen. change (len []) with 0 in Hlen. assert (got = wanted) as -> by lia.
    intros x Hx. exists x. destruct Hch as [Hch _].
    destruct fuel as [|fuel]; cbn [read_chain]; rewrite Hch, Z.sub_diag; simpl;
      (split; [|done]); unfold splice; simpl; by rewrite Nat.add_0_r, take_drop.
  - destruct Hch as (<- & Hc & Hch). destruct fuel as [|fuel]; [lia|]. cbn [read_chain].
    rewrite (cluster_in_chain c Hc). intros x Hx. destruct (Z.ltb_spec got wanted) as [Hlt|Hge].
    2: { exists x. replace (wanted - got) with 0 by lia. assert (got = wanted) as -> by lia. simpl.
         split; [|done]. unfold splice. simpl. by rewrite Nat.add_0_r, take_drop. }
    destruct (cluster_place c Hc) as (H1 & H2 & H3 & _). simpl andb. cbv iota.
    destruct (read_cluster_ok sigma wanted (Z.to_nat (sectors_per_cluster bpb)) (cluster_lba bpb c) got buf
      Hs H3 H2 Hgot Hw x Hx) as (x1 & -> & Hx1 & S1).
    fold (cluster_bytes bpb sigma c). pose proof (len_cluster_bytes sigma c Hs Hc) as Hcb.
    assert (Hspc : 1 <= sectors_per_cluster bpb) by (destruct Hg; lia). rewrite Z2Nat.id by lia.
    destruct (does_read_fat sigma c Hc x1 Hx1) as (x2 & -> & Hx2 & S2).
    set (n := Z.min (wanted - got) (512 * sectors_per_cluster bpb)).
    set (part := take (Z.to_nat (wanted - got)) (cluster_bytes bpb sigma c)).
    assert (Hn : 0 <= n <= wanted - got /\ (n = wanted - got \/ n = 512 * sectors_per_cluster bpb)) by lia.
    assert (Hpart : len part = n). { unfold part, n, len in *. rewrite length_take. lia. }
    change (file_bytes sigma (c :: cs)) with (cluster_bytes bpb sigma c ++ file_bytes sigma cs) in *.
    rewrite len_app in Hlen. pose proof (len_nonneg (file_bytes sigma cs)).
    destruct (IH fuel (link sigma c) wanted (got + n) (splice buf got part) Hs Hch ltac:(lia)
      ltac:(rewrite len_splice; [lia|lia|rewrite Hpart; lia]) ltac:(lia) ltac:(lia) x2 Hx2) as (x3 & -> & Hx3 & S3).
    exists x3. split; [|split; [done|congruence]]. do 2 f_equal.
    set (rest := take (Z.to_nat (wanted - (got + n))) (file_bytes sigma cs)).
    assert (Hrest : len rest <= wanted - (got + n)) by (unfold rest, len; rewrite length_take; lia).
    pose proof (splice_app buf part rest got) as E. rewrite Hpart in E. rewrite E by lia. f_equal.
    unfold rest, part. rewrite take_app. do 2 f_equal. unfold n, len in *. lia.
Qed.

(** Reading a chain fills the buffer with the first bytes of the file. *)
Lemma read_clusters_ok sigma c cs sz out_buf :
  sectors_ok sigma -> chain sigma c cs -> 0 <= sz <= len (file_bytes sigma cs) ->
  reads sigma (export_disk_read_clusters bpb loc c sz out_buf)
    (splice out_buf 0 (take (Z.to_nat (Z.min sz (len out_buf))) (file_bytes sigma cs))) (Z.min sz (len out_buf)).
Proof.
  intros Hs Hch Hsz. unfold export_disk_read_clusters. pose proof (len_nonneg out_buf).
  destruct ((sz =? 0) || (c <? 2)) eqn:E.
  - assert (sz = 0) as ->.
    { apply orb_true_iff in E as [E|E]; [lia|]. apply Z.ltb_lt in E. destruct cs as [|c' cs].
      - unfold file_bytes in Hsz. simpl in Hsz. change (len []) with 0 in Hsz. lia.
      - destruct Hch as (_ & Hc & _). unfold Fat16Props.cluster in Hc. lia. }
    intros x Hx. exists x. rewrite Z.min_l by lia. done.
  - pose proof (read_chain_ok sigma cs (S (Z.to_nat (Z.min sz (len out_buf)))) c (Z.min sz (len out_buf)) 0 out_buf
      Hs Hch ltac:(lia) ltac:(lia) ltac:(lia) ltac:(lia)) as H'. by rewrite Z.sub_0_r in H'.
Qed.

(** ** Writing a chain *)

Lemma find_free_ok sigma needed n : forall c acc,
  2 <= c -> c + Z.of_nat n <= total_data_clusters bpb + 2 ->
  NoDup acc -> Forall (fun k => cluster k /\ link sigma k = 0 /\ k < c) acc -> len acc < needed ->
  exists r, does sigma (find_free loc bpb needed n c acc) sigma (Ok r) /\
    NoDup r /\ Forall (fun k => cluster k /\ link sigma k = 0) r /\ len r <= needed.
Proof.
  induction n as [|n IH]; intros c acc Hc Hn Hnd Hall Hlen; cbn [find_free].
  - exists acc. split_and!; [apply does_ret|done| |lia]. eapply Forall_impl; [exact Hall|]. naive_solver.
  - assert (Hcl : cluster c) by (unfold Fat16Props.cluster; lia).
    destruct (decide (link sigma c = 0)) as [E|E].
    + assert (Hnd' : NoDup (acc ++ [c])).
      { apply NoDup_app. split_and!; [done| |apply NoDup_singleton]. intros k Hk ->%list_elem_of_singleton.
        rewrite Forall_forall in Hall. apply Hall in Hk. lia. }
      assert (Hall' : Forall (fun k => cluster k /\ link sigma k = 0 /\ k < c + 1) (acc ++ [c])).
      { apply Forall_app. split; [|constructor; [split_and!; [done..|lia]|done]].
        eapply Forall_impl; [exact Hall|]. intros k (? & ? & ?). split_and!; [done..|lia]. }
      assert (Hl : len (acc ++ [c]) = len acc + 1) by (rewrite len_app; done).
      destruct (decide (len acc + 1 = needed)) as [El|El].
      * exists (acc ++ [c]). split_and!; [|done| |lia].
        -- eapply does_bind; [by apply does_read_fat|]. rewrite E, Hl, El, !Z.eqb_refl. apply does_ret.
        -- eapply Forall_impl; [exact Hall'|]. naive_solver.
      * destruct (IH (c + 1) (acc ++ [c])) as (r & Hr & Hrest); try done; try lia.
        exists r. split; [|done]. eapply does_bind; [by apply does_read_fat|]. rewrite E, Hl, Z.eqb_refl.
        by rewrite (proj2 (Z.eqb_neq _ _)) by done.
    + destruct (IH (c + 1) acc) as (r & Hr & Hrest); try done; try lia.
      { eapply Forall_impl; [exact Hall|]. intros k (? & ? & ?). split_and!; [done..|lia]. }
      exists r. split; [|done]. eapply does_bind; [by apply does_read_fat|].
      by rewrite (proj2 (Z.eqb_neq _ _)) by done.
Qed.

Lemma cluster_end_ok oc : cluster_end oc bpb = Ok (total_data_clusters bpb + 2).
Proof.
  destruct Hg as [_ _ _ _ _ [H0 H1] _]. unfold cluster_end, as_u16. rewrite wrapU_small by lia.
  by rewrite (proj2 (Z.ltb_lt _ _)) by lia.
Qed.

(** The first [n] bytes of [l], with zeros where there are fewer. *)
Definition pad (n : nat) (l : list Z) : list Z := take n l ++ replicate (n - length l) 0.

Lemma pad_add n m l : pad (n + m) l = pad n l ++ pad m (drop n l).
Proof.
  unfold pad. rewrite length_drop. destruct (decide (length l <= n)%nat).
  - rewrite !(take_ge l), (drop_ge l) by lia. rewrite take_nil, app_nil_l, <-app_assoc. f_equal.
    rewrite <-replicate_add. f_equal. lia.
  - replace (n - length l)%nat with 0%nat by lia. simpl. rewrite app_nil_r, app_assoc, take_take_drop. do 2 f_equal. lia.
Qed.

Lemma length_pad n l : length (pad n l) = n.
Proof. unfold pad. rewrite length_app, length_take, length_replicate. lia. Qed.

Lemma bytes_ok_pad n l : bytes_ok l -> bytes_ok (pad n l).
Proof. intros H. apply Forall_app. split; [by apply Forall_take|]. by apply Forall_replicate. Qed.

Lemma take_pad n l : (length l <= n)%nat -> take (length l) (pad n l) = l.
Proof. intros H. unfold pad. rewrite (take_ge l) by lia. by rewrite take_app_length. Qed.

Lemma write_cluster_ok data n : forall sigma lba written,
  bytes_ok data -> sectors_ok sigma -> 0 <= lba -> lba + Z.of_nat n <= size -> 0 <= written <= len data ->
  exists sigma', does sigma (write_cluster loc data n lba written) sigma'
      (Ok (Z.min (len data) (written + 512 * Z.of_nat n))) /\
    sectors_ok sigma' /\ sectors_from sigma' lba n = pad (512 * n) (drop (Z.to_nat written) data) /\
    forall l, ~ (lba <= l < lba + Z.of_nat n) -> sigma' l = sigma l.
Proof.
  induction n as [|n IH]; intros sigma lba written Hb Hs H0 H1 Hw; cbn [write_cluster].
  - exists sigma. rewrite Z.mul_0_r, Z.add_0_r, Z.min_r by lia. split_and!; [apply does_ret|done| |done].
    unfold pad. by rewrite take_0.
  - set (chunk := if written <? len data then Z.min SECTOR_SIZE (len data - written) else 0).
    assert (Hchunk : chunk = Z.min 512 (len data - written)).
    { unfold chunk, SECTOR_SIZE. destruct (Z.ltb_spec written (len data)); lia. }
    clearbody chunk. set (s := sub data written (written + chunk) ++ _).
    assert (Es : s = pad 512 (drop (Z.to_nat written) data)).
    { unfold s, pad, sub, SECTOR_SIZE. rewrite length_drop. f_equal; [|f_equal; unfold len in *; lia].
      replace (written + chunk - written) with chunk by lia. destruct (decide (512 <= len data - written)).
      - f_equal. lia.
      - rewrite !take_ge; [done|..]; rewrite length_drop; unfold len in *; lia. }
    assert (Hsl : len s = 512) by (rewrite Es; unfold len; by rewrite length_pad).
    assert (Hsb : bytes_ok s) by (rewrite Es; by apply bytes_ok_pad, Forall_drop).
    destruct (IH (put_sector sigma lba s) (lba + 1) (written + chunk)) as (sigma' & Hd & Hs' & Hf & Hfr);
      [done|by apply sectors_ok_put|lia..|].
    exists sigma'. split_and!; [|done| |].
    + eapply does_bind; [apply does_write; [lia|done..]|].
      replace (Z.min (len data) (written + 512 * Z.of_nat (S n)))
        with (Z.min (len data) (written + chunk + 512 * Z.of_nat n)) by lia. exact Hd.
    + cbn [sectors_from]. rewrite Hf, Hfr, put_same by lia. rewrite Es.
      replace (512 * S n)%nat with (512 + 512 * n)%nat by lia. rewrite pad_add. f_equal. f_equal.
      rewrite drop_drop. destruct (decide (512 <= len data - written)).
      * f_equal. lia.
      * rewrite !drop_ge; [done|..]; unfold len in *; lia.
    + intros l Hl. rewrite Hfr by lia. apply put_other. lia.
Qed.

(** The sectors of a cluster. *)
Definition in_cluster (c l : Z) : Prop := cluster_lba bpb c <= l < cluster_lba bpb c + sectors_per_cluster bpb.

Lemma clusters_disjoint c c' l : in_cluster c l -> in_cluster c' l -> c = c'.
Proof. destruct Hg. unfold in_cluster, cluster_lba. nia. Qed.

Lemma in_cluster_data c l : cluster c -> in_cluster c l -> data_start_lba bpb <= l < size.
Proof. intros Hc Hl. destruct (cluster_place c Hc) as (H1 & H2 & _). unfold in_cluster in Hl. lia. Qed.

Lemma file_bytes_frame sigma sigma' cs :
  (forall c l, c ∈ cs -> in_cluster c l -> sigma' l = sigma l) -> file_bytes sigma' cs = file_bytes sigma cs.
Proof.
  intros H. unfold Fat16Props.file_bytes. f_equal. apply map_ext_in. intros c Hc%list_elem_of_In.
  apply sectors_from_ext. intros l Hl. apply (H c); [done|]. unfold in_cluster. lia.
Qed.

Lemma write_data_ok data cs : forall sigma written,
  bytes_ok data -> sectors_ok sigma -> Forall cluster cs -> NoDup cs -> 0 <= written <= len data ->
  exists sigma', does sigma (write_data loc bpb data cs written) sigma' (Ok tt) /\
    sectors_ok sigma' /\
    file_bytes sigma' cs = pad (512 * Z.to_nat (sectors_per_cluster bpb) * length cs) (drop (Z.to_nat written) data) /\
    forall l, (forall c, c ∈ cs -> ~ in_cluster c l) -> sigma' l = sigma l.
Proof.
  set (spc := Z.to_nat (sectors_per_cluster bpb)).
  assert (Hspc : Z.of_nat spc = sectors_per_cluster bpb) by (unfold spc; destruct Hg; lia).
  induction cs as [|c cs IH]; intros sigma written Hb Hs Hall Hnd Hw; cbn [write_data].
  - exists sigma. split_and!; [apply does_ret|done| |done]. rewrite Nat.mul_0_r. unfold pad. by rewrite take_0.
  - apply Forall_cons in Hall as [Hc Hall]. apply NoDup_cons in Hnd as [Hnin Hnd].
    destruct (cluster_place c Hc) as (H1 & H2 & H3 & _). fold spc in H2.
    destruct (write_cluster_ok data spc sigma (cluster_lba bpb c) written Hb Hs H3 H2 Hw)
      as (s1 & D1 & Hs1 & F1 & R1).
    set (w := Z.min (len data) (written + 512 * Z.of_nat spc)) in *.
    destruct (IH s1 w Hb Hs1 Hall Hnd ltac:(lia)) as (s2 & D2 & Hs2 & F2 & R2).
    exists s2. split_and!; [|done| |].
    + eapply does_bind; [exact D1|exact D2].
    + change (file_bytes s2 (c :: cs)) with (cluster_bytes bpb s2 c ++ file_bytes s2 cs). rewrite F2.
      assert (E : cluster_bytes bpb s2 c = cluster_bytes bpb s1 c).
      { apply sectors_from_ext. fold spc. intros l Hl. apply R2. intros c' Hc' Hl'.
        assert (c = c') as <-; [|done]. apply (clusters_disjoint c c' l); [unfold in_cluster; lia|done]. }
      rewrite E. unfold cluster_bytes. fold spc. rewrite F1.
      replace (512 * spc * length (c :: cs))%nat with (512 * spc + 512 * spc * length cs)%nat by (simpl; lia).
      rewrite pad_add. do 2 f_equal. rewrite drop_drop. destruct (decide (512 * Z.of_nat spc <= len data - written)).
      * f_equal. unfold w. lia.
      * rewrite !drop_ge; [done|..]; unfold w, len in *; lia.
    + intros l Hl. rewrite R2 by (intros; apply Hl; by right). apply R1.
      pose proof (Hl c ltac:(left)) as H. unfold in_cluster in H. lia.
Qed.

Lemma write_chain_ok cs : forall sigma,
  sectors_ok sigma -> Forall cluster cs -> NoDup cs ->
  exists sigma', does sigma (write_chain loc bpb cs) sigma' (Ok tt) /\ sectors_ok sigma' /\
    chain sigma' (hd 0xFFFF cs) cs /\
    (forall k, cluster k -> k ∉ cs -> link sigma' k = link sigma k) /\
    forall l, ~ (reserved_sectors bpb <= l < reserved_sectors bpb + 2 * fat_size_sectors bpb) -> sigma' l = sigma l.
Proof.
  induction cs as [|c cs IH]; intros sigma Hs Hall Hnd; cbn [write_chain].
  - exists sigma. split_and!; try done. apply does_ret.
  - apply Forall_cons in Hall as [Hc Hall]. apply NoDup_cons in Hnd as [Hnin Hnd].
    assert (Hn : 0 <= hd 0xFFFF cs < 65536).
    { destruct cs as [|c' cs]; [done|]. apply Forall_cons in Hall as [Hc' _]. simpl.
      destruct Hg. unfold Fat16Props.cluster in *. lia. }
    pose proof (sectors_set_link size bpb Hg sigma c (hd 0xFFFF cs) Hs Hc) as Hs1.
    destruct (IH (set_link sigma c (hd 0xFFFF cs)) Hs1 Hall Hnd) as (s2 & D2 & Hs2 & Hch & Hl & Hr).
    exists s2. split; [|split; [done|split; [|split]]].
    + eapply does_bind; [by apply does_update_fat|exact D2].
    + cbn [Fat16Props.chain hd]. split_and!; [done..|].
      rewrite Hl by done. rewrite (link_set_link size bpb Hg) by done. by rewrite Z.eqb_refl.
    + intros k Hk Hk'. apply not_elem_of_cons in Hk' as [Hk1 Hk2]. rewrite Hl by done.
      rewrite (link_set_link size bpb Hg) by done. by rewrite (proj2 (Z.eqb_neq _ _)).
    + intros l Hl'. rewrite Hr by done. by apply (set_link_other size bpb Hg).
Qed.

(** ** Freeing a chain *)

(** Links that lead on lead to clusters of the volume. *)
Definition links_inside (sigma : sectors) : Prop := forall c, cluster c -> in_chain (link sigma c) = true -> cluster (link sigma c).

Definition linked (sigma : sectors) : nat :=
  length (filter (fun c => link sigma c <> 0) (seqZ 2 (total_data_clusters bpb))).

Lemma linked_bound sigma : (linked sigma < CHAIN_FUEL)%nat.
Proof.
  unfold linked, CHAIN_FUEL. pose proof (length_filter (fun c => link sigma c <> 0) (seqZ 2 (total_data_clusters bpb))) as H.
  rewrite length_seqZ in H. destruct Hg as [_ _ _ _ _ [] _]. lia.
Qed.

Lemma linked_set_link sigma c : sectors_ok sigma -> cluster c -> link sigma c <> 0 ->
  (linked (set_link sigma c 0) < linked sigma)%nat.
Proof.
  intros Hs Hc Hl. unfold linked. apply filter_shorter with c.
  - intros k Hk%elem_of_seqZ. rewrite (link_set_link size bpb Hg) by (try done; unfold Fat16Props.cluster; lia).
    case_match; [done|]. tauto.
  - apply elem_of_seqZ. unfold Fat16Props.cluster in Hc. lia.
  - done.
  - rewrite (link_set_link size bpb Hg) by done. rewrite Z.eqb_refl. tauto.
Qed.

Lemma link_range sigma c : sectors_ok sigma -> cluster c -> 0 <= link sigma c < 65536.
Proof. intros Hs Hc. apply u16_range, Hs. by apply (sector_bounds size bpb Hg). Qed.

Lemma free_chain_done fuel c : in_chain c = false -> free_chain fuel loc bpb c = mret (M := io X) tt.
Proof. intros H. destruct fuel; cbn [free_chain]; by rewrite H. Qed.

(** Freeing ends on any links, even on a loop. *)
Lemma free_chain_ends fuel : forall sigma c,
  sectors_ok sigma -> links_inside sigma -> (in_chain c = true -> cluster c) -> (linked sigma < fuel)%nat ->
  exists sigma', does sigma (free_chain fuel loc bpb c) sigma' (Ok tt) /\ sectors_ok sigma' /\
    (forall k, cluster k -> link sigma' k = link sigma k \/ link sigma' k = 0) /\
    forall l, ~ (reserved_sectors bpb <= l < reserved_sectors bpb + 2 * fat_size_sectors bpb) -> sigma' l = sigma l.
Proof.
  induction fuel as [|fuel IH]; intros sigma c Hs Hin Hc Hf; [lia|].
  destruct (in_chain c) eqn:E.
  2: { rewrite free_chain_done by done. exists sigma. split_and!; [apply does_ret|done| |done]. tauto. }
  specialize (Hc eq_refl). pose proof (sectors_set_link size bpb Hg sigma c 0 Hs Hc) as Hs1.
  assert (Hl1 : forall k, cluster k -> link (set_link sigma c 0) k = if k =? c then 0 else link sigma k)
    by (intros; by apply (link_set_link size bpb Hg)).
  assert (Hnext : in_chain (link sigma c) = true -> cluster (link sigma c)) by apply Hin, Hc.
  assert (Hrest : exists sigma', does (set_link sigma c 0) (free_chain fuel loc bpb (link sigma c)) sigma' (Ok tt) /\
    sectors_ok sigma' /\ (forall k, cluster k -> link sigma' k = link (set_link sigma c 0) k \/ link sigma' k = 0) /\
    forall l, ~ (reserved_sectors bpb <= l < reserved_sectors bpb + 2 * fat_size_sectors bpb) -> sigma' l = set_link sigma c 0 l).
  { destruct (in_chain (link sigma c)) eqn:En.
    - apply IH; [done| |by intros; apply Hnext|].
      + intros k Hk. rewrite Hl1 by done. case_match; [done|]. by apply Hin.
      + pose proof (linked_set_link sigma c Hs Hc) as H. destruct (decide (link sigma c = 0)) as [E0|]; [by rewrite E0 in En|].
        specialize (H ltac:(done)). lia.
    - rewrite free_chain_done by done. eexists. split_and!; [apply does_ret|done| |done]. tauto. }
  destruct Hrest as (s2 & D2 & Hs2 & Hk2 & Hr2). exists s2. cbn [free_chain]. rewrite E. split_and!; [|done| |].
  - eapply does_bind; [by apply does_update_fat|exact D2].
  - intros k Hk. destruct (Hk2 k Hk) as [->|?]; [|by right]. rewrite Hl1 by done. case_match; tauto.
  - intros l Hl. rewrite Hr2 by exact Hl. by apply (set_link_other size bpb Hg).
Qed.

(** Freeing a chain clears its links and no others. *)
Lemma free_chain_ok cs : forall fuel sigma c,
  sectors_ok sigma -> chain sigma c cs -> NoDup cs -> (length cs <= fuel)%nat ->
  exists sigma', does sigma (free_chain fuel loc bpb c) sigma' (Ok tt) /\ sectors_ok sigma' /\
    (forall k, cluster k -> link sigma' k = if decide (k ∈ cs) then 0 else link sigma k) /\
    forall l, ~ (reserved_sectors bpb <= l < reserved_sectors bpb + 2 * fat_size_sectors bpb) -> sigma' l = sigma l.
Proof.
  induction cs as [|c' cs IH]; intros fuel sigma c Hs Hch Hnd Hf.
  - destruct Hch as [Hch _]. rewrite free_chain_done by done. exists sigma. split_and!; [apply does_ret|done| |done].
    intros k Hk. rewrite decide_False; [done|]. apply not_elem_of_nil.
  - destruct Hch as (<- & Hc & Hch). apply NoDup_cons in Hnd as [Hnin Hnd]. destruct fuel as [|fuel]; [simpl in Hf; lia|].
    pose proof (sectors_set_link size bpb Hg sigma c 0 Hs Hc) as Hs1.
    assert (Hl1 : forall k, cluster k -> link (set_link sigma c 0) k = if k =? c then 0 else link sigma k)
      by (intros; by apply (link_set_link size bpb Hg)).
    destruct (IH fuel (set_link sigma c 0) (link sigma c) Hs1) as (s2 & D2 & Hs2 & Hk2 & Hr2); [|done|simpl in Hf; lia|].
    { eapply chain_frame; [|exact Hch]. intros k Hk. pose proof (chain_clusters bpb sigma cs _ Hch) as Hcl.
      rewrite Forall_forall in Hcl. rewrite Hl1 by (by apply Hcl). case_match eqn:E; [|done]. apply Z.eqb_eq in E as ->. done. }
    exists s2. cbn [free_chain]. rewrite (cluster_in_chain c Hc). split_and!; [|done| |].
    + eapply does_bind; [by apply does_update_fat|exact D2].
    + intros k Hk. rewrite Hk2, Hl1 by done. destruct (Z.eqb_spec k c) as [->|].
      * rewrite (decide_True (P := c ∈ c :: cs)) by left. by case_decide.
      * destruct (decide (k ∈ cs)); [by rewrite decide_True by (by right)|]. rewrite decide_False; [done|].
        by apply not_elem_of_cons.
    + intros l Hl. rewrite Hr2 by done. by apply (set_link_other size bpb Hg).
Qed.

(** A chain meets no cluster twice. *)
Lemma chain_unique sigma cs1 : forall cs2 c, chain sigma c cs1 -> chain sigma c cs2 -> cs1 = cs2.
Proof.
  induction cs1 as [|c1 cs1 IH]; intros [|c2 cs2] c; simpl; [done| | |].
  - intros [H _] (-> & Hc & _). by rewrite (cluster_in_chain c2 Hc) in H.
  - intros (-> & Hc & _) [H _]. by rewrite (cluster_in_chain c1 Hc) in H.
  - intros (-> & _ & H1) (E & _ & H2). f_equal; [congruence|]. by eapply IH.
Qed.

Lemma chain_suffix sigma a : forall c k b, chain sigma c (a ++ k :: b) -> chain sigma k (k :: b).
Proof.
  induction a as [|x a IH]; intros c k b; simpl; [by intros (-> & ?)|]. intros (-> & _ & H). by eapply IH.
Qed.

Lemma chain_NoDup sigma cs : forall c, chain sigma c cs -> NoDup cs.
Proof.
  induction cs as [|k cs IH]; intros c Hch; [constructor|]. constructor.
  - intros Hin. apply list_elem_of_split in Hin as (a & b & ->).
    pose proof (chain_suffix sigma (k :: a) c k b Hch) as H1.
    assert (c = k) as -> by (by destruct Hch). pose proof (chain_unique sigma _ _ _ H1 Hch) as E. apply (f_equal length) in E.
    simpl in E. rewrite length_app in E. simpl in E. lia.
  - destruct Hch as (_ & _ & Hch). by eapply IH.
Qed.
End ReadWrite.
