(* ===== verification/Fat16Files.v ===== *)
(** The export disk as a store of files: the root directory, and the theorems on
    whole operations. A file that is written is read back and the others stay as
    they are; deleting frees the chain and always ends; a file created in LatencyFS
    is found on the disk under its 8.3 name. *)

From S2P Require Import Prelude RustStd RustStr Vfs ExportDisk Ata Fs Fat16 Fat16Props.
Local Open Scope Z_scope.

(** * Entries of a sector *)

Lemma entry_put s i e j : len s = 512 -> len e = 32 -> 0 <= i < 16 -> 0 <= j < 16 ->
  entry_at (put_entry s i e) j = if j =? i then e else entry_at s j.
Proof.
  intros Hs He Hi Hj. unfold entry_at, put_entry.
  destruct (Z.eqb_spec j i) as [->|].
  - replace ((i + 1) * 32) with (i * 32 + len e) by lia. apply sub_splice; lia.
  - apply sub_ext; rewrite ?len_splice; try lia. intros k Hk. apply getZ_splice_out; lia.
Qed.

Lemma at_setZ s i x k : 0 <= i < len s -> at_ (setZ s i x) k = if k =? i then x else at_ s k.
Proof.
  intros Hi. unfold at_. destruct (Z.eqb_spec k i) as [->|]; [by rewrite getZ_setZ_eq by lia|by rewrite getZ_setZ_ne by done].
Qed.

Lemma len_entry s i : len s = 512 -> 0 <= i < 16 -> len (entry_at s i) = 32.
Proof. intros. unfold entry_at. rewrite len_sub; lia. Qed.

Lemma at_entry s i k : len s = 512 -> 0 <= i < 16 -> 0 <= k < 32 -> at_ (entry_at s i) k = at_ s (i * 32 + k).
Proof. intros. unfold at_, entry_at. by rewrite getZ_sub by lia. Qed.

Lemma entry_delete s i j : len s = 512 -> 0 <= i < 16 -> 0 <= j < 16 ->
  entry_at (setZ s (i * 32) 0xE5) j = if j =? i then setZ (entry_at s j) 0 0xE5 else entry_at s j.
Proof.
  intros Hs Hi Hj. destruct (Z.eqb_spec j i) as [->|].
  - apply list_eq_getZ; [by rewrite len_setZ, !len_entry by (rewrite ?len_setZ; lia)|].
    intros k Hk. rewrite len_entry in Hk by (rewrite ?len_setZ; lia). unfold entry_at at 1. rewrite getZ_sub by lia. destruct (decide (k = 0)) as [->|].
    + rewrite Z.add_0_r, !getZ_setZ_eq; [done| |lia]. rewrite len_entry by lia. lia.
    + rewrite !getZ_setZ_ne by lia. unfold entry_at. by rewrite getZ_sub by lia.
  - apply sub_ext; rewrite ?len_setZ; try lia. intros k Hk. apply getZ_setZ_ne. lia.
Qed.

(** An entry that a search for [t] may stop at. *)
Definition candidate (entry t : list Z) : Prop :=
  entry_end entry = false /\ entry_skipped entry = false /\ sub entry 0 11 = t.

(** An entry in which a new file of this name may go. *)
Definition usable (entry t : list Z) : bool :=
  bytes_eqb (sub entry 0 11) t || (at_ entry 0 =? 0) || (at_ entry 0 =? 0xE5).

Lemma find_entry_Some n t s i : forall k, find_entry n k t s = Some i ->
  k <= i < k + Z.of_nat n /\ candidate (entry_at s i) t.
Proof.
  induction n as [|n IH]; intros k; cbn [find_entry]; [done|].
  destruct (entry_end (entry_at s k)) eqn:E1; [done|]. destruct (entry_skipped (entry_at s k)) eqn:E2.
  { intros H%IH. destruct H. split; [lia|done]. }
  destruct (bytes_eqb (sub (entry_at s k) 0 11) t) eqn:E3.
  - intros [= <-]. split; [lia|]. by apply bool_decide_eq_true in E3.
  - intros H%IH. destruct H. split; [lia|done].
Qed.

Lemma find_slot_Some n t s i : forall k, find_slot n k t s = Some i ->
  k <= i < k + Z.of_nat n /\ usable (entry_at s i) t = true /\
  forall j, k <= j < i -> usable (entry_at s j) t = false.
Proof.
  induction n as [|n IH]; intros k; cbn [find_slot]; [done|]. fold (usable (entry_at s k) t).
  destruct (usable (entry_at s k) t) eqn:E.
  - intros [= <-]. split_and!; [lia..|done|lia].
  - intros (H1 & H2 & H3)%IH. split_and!; [lia..|done|]. intros j Hj. destruct (decide (j = k)) as [->|]; [done|].
    apply H3. lia.
Qed.

Lemma find_slot_None n t s : forall k, find_slot n k t s = None ->
  forall j, k <= j < k + Z.of_nat n -> usable (entry_at s j) t = false.
Proof.
  induction n as [|n IH]; intros k; cbn [find_slot]; [lia|]. fold (usable (entry_at s k) t).
  destruct (usable (entry_at s k) t) eqn:E; [done|]. intros H j Hj. destruct (decide (j = k)) as [->|]; [done|].
  apply (IH (k + 1)); [done|lia].
Qed.

(** A search passes over entries that are in use under other names. *)
Lemma unusable_entry entry t : usable entry t = false ->
  entry_end entry = false /\ (at_ entry 0 =? 0xE5) = false /\ bytes_eqb (sub entry 0 11) t = false.
Proof. unfold usable, entry_end. rewrite !orb_false_iff. tauto. Qed.

Lemma find_entry_pass n t s : forall k,
  (forall j, k <= j < k + Z.of_nat n -> usable (entry_at s j) t = false) -> find_entry n k t s = None.
Proof.
  induction n as [|n IH]; intros k H; cbn [find_entry]; [done|].
  destruct (unusable_entry _ _ (H k ltac:(lia))) as (-> & _ & ->).
  rewrite IH; [by destruct (entry_skipped _)|]. intros j Hj. apply H. lia.
Qed.

(** The search for a name in a sector depends on what it passes over, and on the
    entry it stops at. *)
Lemma find_entry_here n t s i : forall k, k <= i < k + Z.of_nat n ->
  (forall j, k <= j < i -> usable (entry_at s j) t = false) -> candidate (entry_at s i) t ->
  find_entry n k t s = Some i.
Proof.
  induction n as [|n IH]; intros k Hi H Hc; [lia|]. cbn [find_entry]. destruct (decide (k = i)) as [->|].
  - destruct Hc as (-> & -> & <-). unfold bytes_eqb. by rewrite bool_decide_eq_true_2.
  - destruct (unusable_entry _ _ (H k ltac:(lia))) as (-> & _ & ->).
    rewrite IH; [by destruct (entry_skipped _)|lia| |done]. intros j Hj. apply H. lia.
Qed.

(** ** What a change of one entry does to the other names *)

(** After the end of the directory there is nothing in a sector. *)
Definition clean (s : list Z) : Prop :=
  forall i j, 0 <= i <= j -> j < 16 -> entry_end (entry_at s i) = true -> entry_end (entry_at s j) = true.

Definition passed (entry t : list Z) : Prop :=
  entry_end entry = false /\ (entry_skipped entry = true \/ sub entry 0 11 <> t).

Lemma find_entry_step n t s k : passed (entry_at s k) t -> find_entry (S n) k t s = find_entry n (k + 1) t s.
Proof.
  intros [H1 H2]. cbn [find_entry]. rewrite H1. destruct (entry_skipped _); [done|].
  destruct H2 as [|H2]; [done|]. unfold bytes_eqb. by rewrite bool_decide_eq_false_2.
Qed.

Lemma find_entry_stop n t s k : entry_end (entry_at s k) = true -> find_entry n k t s = None.
Proof. intros H. destruct n; cbn [find_entry]; [done|]. by rewrite H. Qed.

Lemma find_entry_change t s s' i : clean s -> 0 <= i < 16 ->
  (forall j, 0 <= j < 16 -> j <> i -> entry_at s' j = entry_at s j) -> passed (entry_at s' i) t ->
  passed (entry_at s i) t \/ entry_end (entry_at s i) = true ->
  forall n k, 0 <= k -> k + Z.of_nat n <= 16 -> find_entry n k t s' = find_entry n k t s.
Proof.
  intros Hcl Hi Hj Hp' Hp. induction n as [|n IH]; intros k Hk Hn; [done|].
  destruct (decide (k = i)) as [->|Hne].
  - rewrite find_entry_step by done. rewrite IH by lia. destruct Hp as [Hp|He].
    + by rewrite find_entry_step.
    + rewrite (find_entry_stop (S n)) by done. destruct n as [|n]; [done|].
      apply find_entry_stop. apply (Hcl i); [lia..|done].
  - cbn [find_entry]. rewrite Hj by lia. by rewrite IH by lia.
Qed.

(** The entry that is written. *)
Definition entry_of (e target : list Z) (c n : Z) : Prop :=
  len e = 32 /\ candidate e target /\ first_cluster e = c /\ file_size e = n.

Lemma usable_passed entry t target : t <> target -> usable entry target = true ->
  passed entry t \/ entry_end entry = true.
Proof.
  unfold usable, passed, entry_end, entry_skipped, bytes_eqb. intros Hne.
  destruct (at_ entry 0 =? 0); [by right|]. destruct (at_ entry 0 =? 0xE5); [left; by repeat split; left|].
  rewrite !orb_false_r. intros H%bool_decide_eq_true. left. split; [done|]. right. congruence.
Qed.

Lemma candidate_passed e t target : t <> target -> candidate e target -> passed e t.
Proof. intros Hne (H1 & _ & H3). split; [done|]. right. congruence. Qed.

Lemma clean_put s target i e : len s = 512 -> len e = 32 -> clean s -> find_slot ENTRIES 0 target s = Some i ->
  entry_end e = false -> clean (put_entry s i e).
Proof.
  intros Hs He Hcl (H1 & H2 & H3)%find_slot_Some Hend j k Hjk Hk. rewrite !entry_put by (try done; simpl in H1; lia).
  destruct (Z.eqb_spec j i) as [->|]; [congruence|]. intros Hj. destruct (Z.eqb_spec k i) as [->|].
  - destruct (unusable_entry _ _ (H3 j ltac:(lia))) as (E & _). congruence.
  - by apply (Hcl j).
Qed.

Lemma find_entry_put_other s target i e t : len s = 512 -> clean s -> len e = 32 -> candidate e target ->
  find_slot ENTRIES 0 target s = Some i -> t <> target ->
  find_entry ENTRIES 0 t (put_entry s i e) = find_entry ENTRIES 0 t s.
Proof.
  intros Hs Hcl He Hc Hsl Hne. apply find_slot_Some in Hsl as (H1 & H2 & _). change (Z.of_nat ENTRIES) with 16 in H1.
  apply (find_entry_change t s _ i); [done|lia| | | |lia|by vm_compute].
  - intros j Hj Hji. rewrite entry_put by lia. by rewrite (proj2 (Z.eqb_neq _ _)).
  - rewrite entry_put, Z.eqb_refl by lia. by eapply candidate_passed.
  - by eapply usable_passed.
Qed.

Lemma find_entry_put_self s target i e : len s = 512 -> len e = 32 -> candidate e target ->
  find_slot ENTRIES 0 target s = Some i -> find_entry ENTRIES 0 target (put_entry s i e) = Some i.
Proof.
  intros Hs He Hc Hsl. apply find_slot_Some in Hsl as (H1 & _ & H3). change (Z.of_nat ENTRIES) with 16 in H1.
  apply find_entry_here; [done| |].
  - intros j Hj. rewrite entry_put by lia. rewrite (proj2 (Z.eqb_neq _ _)) by lia. by apply H3.
  - by rewrite entry_put, Z.eqb_refl by lia.
Qed.

(** A deleted entry is passed over. *)
Lemma deleted_passed e t : len e = 32 -> passed (setZ e 0 0xE5) t.
Proof.
  intros He. unfold passed, entry_end, entry_skipped. rewrite at_setZ by lia. split; [done|by left].
Qed.

Lemma find_entry_delete_other s target i t : len s = 512 -> clean s ->
  find_entry ENTRIES 0 target s = Some i -> t <> target ->
  find_entry ENTRIES 0 t (setZ s (i * 32) 0xE5) = find_entry ENTRIES 0 t s.
Proof.
  intros Hs Hcl Hf Hne. apply find_entry_Some in Hf as (H1 & H2). change (Z.of_nat ENTRIES) with 16 in H1.
  apply (find_entry_change t s _ i); [done|lia| | | |lia|by vm_compute].
  - intros j Hj Hji. rewrite entry_delete by lia. by rewrite (proj2 (Z.eqb_neq _ _)).
  - rewrite entry_delete, Z.eqb_refl by lia. apply deleted_passed, len_entry; lia.
  - left. by eapply candidate_passed.
Qed.

Lemma clean_delete s target i : len s = 512 -> clean s -> find_entry ENTRIES 0 target s = Some i ->
  clean (setZ s (i * 32) 0xE5).
Proof.
  intros Hs Hcl (H1 & H2 & _)%find_entry_Some j k Hjk Hk. change (Z.of_nat ENTRIES) with 16 in H1.
  assert (Hd : entry_end (setZ (entry_at s i) 0 0xE5) = false) by (apply (deleted_passed _ []), len_entry; lia).
  rewrite !entry_delete by lia. destruct (Z.eqb_spec j i) as [->|]; [congruence|].
  intros Hj. destruct (Z.eqb_spec k i) as [->|]; [|by apply (Hcl j)].
  pose proof (Hcl j i Hjk Hk Hj). congruence.
Qed.

Lemma make_entry_of target c n : len target = 11 -> at_ target 0 <> 0 -> at_ target 0 <> 0xE5 ->
  0 <= c < 65536 -> 0 <= n < 2 ^ 32 -> entry_of (make_entry target c n) target c n.
Proof.
  intros Hl H0 H5 Hc Hn. unfold len in Hl.
  destruct target as [|a0 [|a1 [|a2 [|a3 [|a4 [|a5 [|a6 [|a7 [|a8 [|a9 [|a10 [|]]]]]]]]]]]]; simpl in Hl; try lia. clear Hl.
  change (at_ _ 0) with a0 in H0, H5. unfold entry_of, candidate, entry_end, entry_skipped, first_cluster, file_size.
  unfold u32_at, u16_at, make_entry, as_u32. rewrite wrapU_small by lia.
  split; [done|]. split; [split; [|split]|split].
  - by apply Z.eqb_neq.
  - change (at_ _ 0) with a0. by rewrite (proj2 (Z.eqb_neq _ _)).
  - done.
  - change (c mod 256 + 256 * (c / 256 mod 256) = c). pose proof (Z.div_mod c 256).
    rewrite (Z.mod_small (c / 256)); [lia|]. split; [apply Z.div_pos; lia|apply Z.div_lt_upper_bound; lia].
  - change (n mod 256 + 256 * (n / 256 mod 256) +
      65536 * (n / 256 / 256 mod 256 + 256 * (n / 256 / 256 / 256 mod 256)) = n).
    set (p := n / 256). set (q := p / 256). set (r := q / 256).
    pose proof (Z.div_mod n 256 ltac:(lia)) as E1. fold p in E1.
    pose proof (Z.div_mod p 256 ltac:(lia)) as E2. fold q in E2.
    pose proof (Z.div_mod q 256 ltac:(lia)) as E3. fold r in E3.
    pose proof (Z.mod_pos_bound n 256). pose proof (Z.mod_pos_bound p 256). pose proof (Z.mod_pos_bound q 256).
    rewrite (Z.mod_small r) by lia. lia.
Qed.

(** * Searching the directory *)

Section Search.
Context {A : Type} (look : list Z -> option A).

Fixpoint search (sigma : sectors) (n : nat) (lba : Z) : option (Z * list Z * A) :=
  match n with
  | O => None
  | S n => match look (sigma lba) with Some a => Some (lba, sigma lba, a) | None => search sigma n (lba + 1) end
  end.

Lemma search_Some sigma n l s a : forall lba, search sigma n lba = Some (l, s, a) <->
  lba <= l < lba + Z.of_nat n /\ s = sigma l /\ look (sigma l) = Some a /\
  forall k, lba <= k < l -> look (sigma k) = None.
Proof.
  induction n as [|n IH]; intros lba; cbn [search].
  - split; [done|]. intros (? & _). lia.
  - destruct (look (sigma lba)) as [b|] eqn:E.
    + split.
      * intros [= <- <- <-]. split_and!; try done; [lia..|]. intros k Hk. lia.
      * intros (Hl & -> & Ha & Hk). destruct (decide (l = lba)) as [->|]; [congruence|].
        rewrite Hk in E by lia. done.
    + rewrite IH. split.
      * intros (Hl & -> & Ha & Hk). split_and!; try done; [lia..|]. intros k Hk'.
        destruct (decide (k = lba)) as [->|]; [done|]. apply Hk. lia.
      * intros (Hl & -> & Ha & Hk). assert (l <> lba) by congruence. split_and!; try done; [lia..|].
        intros k Hk'. apply Hk. lia.
Qed.

Lemma search_None sigma n : forall lba, search sigma n lba = None ->
  forall k, lba <= k < lba + Z.of_nat n -> look (sigma k) = None.
Proof.
  induction n as [|n IH]; intros lba; cbn [search]; [lia|]. destruct (look (sigma lba)) eqn:E; [done|].
  intros H k Hk. destruct (decide (k = lba)) as [->|]; [done|]. apply (IH (lba + 1)); [done|lia].
Qed.

Lemma search_ext sigma sigma' n l s a : forall lba,
  (forall k, lba <= k < lba + Z.of_nat n -> look (sigma' k) = look (sigma k)) ->
  search sigma n lba = Some (l, s, a) -> search sigma' n lba = Some (l, sigma' l, a).
Proof.
  intros lba He Hs. apply search_Some in Hs as (Hl & _ & Ha & Hk). apply search_Some.
  split_and!; try done; [lia..| |]; [by rewrite He by lia|]. intros k Hk'. rewrite He by lia. by apply Hk.
Qed.
End Search.

(** * Files on a volume *)

Section Files.
Context {D : Type} `{!SectorDevice D} `{!SectorLaws D}.
Context (loc : DiskLocation) (size : Z) (bpb : Fat16Bpb) (Hg : geometry size bpb).
Notation X := (export_disk D).
Notation does := (does (D := D) loc size).
Notation shows := (shows (D := D) loc size).
Notation sectors_ok := (sectors_ok size).
Notation link := (link bpb).
Notation cluster := (cluster bpb).
Notation chain := (chain bpb).
Notation file_bytes := (file_bytes bpb).
Notation in_cluster := (in_cluster bpb).
Notation root_search look sigma := (search look sigma (Z.to_nat (root_dir_sectors bpb)) (root_dir_start_lba bpb)).

Definition in_root (l : Z) : Prop := root_dir_start_lba bpb <= l < root_dir_start_lba bpb + root_dir_sectors bpb.
Definition in_tables (l : Z) : Prop :=
  reserved_sectors bpb <= l < reserved_sectors bpb + 2 * fat_size_sectors bpb.

(** A volume with this boot sector and a directory without remains after its end. *)
Record volume (sigma : sectors) : Prop := {
  v_sectors : sectors_ok sigma;
  v_boot : parse_bpb (sigma 0) = Ok bpb;
  v_root : forall l, in_root l -> clean (sigma l);
}.

Definition find_name (t : list Z) : list Z -> option Z := find_entry ENTRIES 0 t.

(** The file [t] has the contents [data], in the clusters [cs]. *)
Definition stored (sigma : sectors) (t data cs : list Z) : Prop :=
  exists l i, root_search (find_name t) sigma = Some (l, sigma l, i) /\
    let e := entry_at (sigma l) i in
    chain sigma (first_cluster e) cs /\ 0 <= file_size e <= len (file_bytes sigma cs) /\
    data = take (Z.to_nat (file_size e)) (file_bytes sigma cs).

Lemma root_range l : in_root l -> 0 < l < size /\ ~ in_tables l /\ l < data_start_lba bpb.
Proof. intros Hl. destruct Hg. unfold in_root, in_tables in *. nia. Qed.

Lemma does_search {A} (look : list Z -> option A) sigma n : forall lba,
  0 <= lba -> lba + Z.of_nat n <= size -> does sigma (search_dir look loc n lba) sigma (Ok (search look sigma n lba)).
Proof.
  induction n as [|n IH]; intros lba H0 H1; cbn [search_dir search]; [apply does_ret|].
  eapply does_bind; [apply does_read; lia|]. destruct (look (sigma lba)); [apply does_ret|]. apply IH; lia.
Qed.

Lemma does_search_root {A} (look : list Z -> option A) sigma :
  does sigma (search_root look loc bpb) sigma (Ok (root_search look sigma)).
Proof. apply does_search; destruct Hg; nia. Qed.

Lemma boot_in_range : 0 < size.
Proof. destruct Hg. nia. Qed.

(** The files of a volume that has not changed where they are. *)
Lemma stored_frame sigma sigma' t data cs :
  (forall l, in_root l -> find_name t (sigma' l) = find_name t (sigma l) /\
     forall i, find_name t (sigma l) = Some i -> entry_at (sigma' l) i = entry_at (sigma l) i) ->
  (forall c, c ∈ cs -> link sigma' c = link sigma c) ->
  (forall c l, c ∈ cs -> in_cluster c l -> sigma' l = sigma l) ->
  stored sigma t data cs -> stored sigma' t data cs.
Proof.
  intros Hr Hl Hd (l & i & Hs & Hch & Hsz & ->). pose proof (proj1 (search_Some _ _ _ _ _ _ _) Hs) as (Hll & _ & Hi & _).
  assert (Hin : in_root l) by (unfold in_root; destruct Hg; lia).
  destruct (Hr l Hin) as [_ He]. specialize (He i Hi). exists l, i. rewrite He.
  assert (Hf : file_bytes sigma' cs = file_bytes sigma cs) by (by eapply file_bytes_frame).
  split; [|split; [|by rewrite Hf]].
  - eapply search_ext; [|exact Hs]. intros k Hk. apply Hr. unfold in_root. destruct Hg. lia.
  - by eapply chain_frame.
Qed.

Lemma volume_frame sigma sigma' : volume sigma -> sectors_ok sigma' -> sigma' 0 = sigma 0 ->
  (forall l, in_root l -> clean (sigma' l)) -> volume sigma'.
Proof. intros [H1 H2 H3] Hs H0 Hr. constructor; [done|congruence|done]. Qed.

(** ** Reading *)

Lemma read_file_ok sigma name data cs out_buf : volume sigma -> stored sigma (to_83_name name) data cs ->
  reads loc size sigma (export_disk_read_file name out_buf)
    (splice out_buf 0 (take (length out_buf) data)) (Z.min (len data) (len out_buf)).
Proof.
  intros [Hs Hb Hr] (l & i & Hse & Hch & Hsz & ->) x Hx. unfold export_disk_read_file.
  set (found := (loc ← get_export_disk_loc; _)).
  assert (Hf : does sigma found sigma (Ok (loc, bpb, entry_at (sigma l) i))).
  { eapply does_bind; [apply does_loc|]. eapply does_bind; [rewrite <-Hb; apply does_bpb, boot_in_range|].
    eapply does_bind; [apply does_search_root|]. unfold find_name in Hse. rewrite Hse. apply does_ret. }
  destruct (Hf x Hx) as (x1 & -> & Hx1 & S1). set (e := entry_at (sigma l) i) in *.
  destruct (read_clusters_ok loc size bpb Hg sigma (first_cluster e) cs (file_size e) out_buf Hs Hch Hsz x1 Hx1)
    as (x2 & -> & Hx2 & S2). exists x2. split; [|split; [done|congruence]].
  assert (Hlt : len (take (Z.to_nat (file_size e)) (file_bytes sigma cs)) = file_size e).
  { unfold len in *. rewrite length_take. lia. }
  rewrite Hlt. do 2 f_equal. rewrite take_take. f_equal. f_equal. unfold len. lia.
Qed.

(** ** Writing *)

Lemma needed_enough data : 1 <= needed_clusters bpb data /\
  len data <= 512 * sectors_per_cluster bpb * needed_clusters bpb data.
Proof.
  unfold needed_clusters, SECTOR_SIZE. pose proof (len_nonneg data). destruct Hg as [Hspc _ _ _ _ _ _].
  destruct (Z.eqb_spec (len data) 0); [lia|]. set (k := sectors_per_cluster bpb * 512).
  assert (0 < k) by (unfold k; lia). pose proof (Z.div_mod (len data + k - 1) k ltac:(lia)).
  pose proof (Z.mod_pos_bound (len data + k - 1) k ltac:(lia)). unfold k in *. nia.
Qed.

Lemma table_not_data c l : cluster c -> in_cluster c l -> ~ in_tables l /\ ~ in_root l /\ l <> 0.
Proof.
  intros Hc Hl. destruct (in_cluster_data size bpb Hg c l Hc Hl) as [H1 H2]. destruct Hg. unfold in_tables, in_root. nia.
Qed.

Lemma link_frame sigma sigma' c : cluster c -> sigma' (fat_sector bpb c) = sigma (fat_sector bpb c) ->
  link sigma' c = link sigma c.
Proof. intros _ H. unfold Fat16Props.link. by rewrite H. Qed.

Lemma fat_sector_in_tables c : cluster c -> in_tables (fat_sector bpb c).
Proof. intros Hc. destruct (fat_place size bpb Hg c Hc) as (H & _). unfold in_tables. lia. Qed.

(** The data and the chain of a new file, before its entry. *)
Lemma write_body_ok sigma data cs : volume sigma -> bytes_ok data ->
  Forall (fun c => cluster c /\ link sigma c = 0) cs -> NoDup cs ->
  len data <= 512 * sectors_per_cluster bpb * len cs ->
  exists sigma', does sigma (_ ← write_data loc bpb data cs 0; write_chain loc bpb cs) sigma' (Ok tt) /\
    volume sigma' /\ chain sigma' (hd 0xFFFF cs) cs /\
    len data <= len (file_bytes sigma' cs) /\ take (length data) (file_bytes sigma' cs) = data /\
    (forall l, in_root l -> sigma' l = sigma l) /\
    forall t d ds, stored sigma t d ds -> stored sigma' t d ds.
Proof.
  intros Hv Hb Hcs Hnd Hlen. pose proof (len_nonneg data) as Hd0. destruct (Hv) as [Hs Hboot Hroot].
  assert (Hcl : Forall cluster cs) by (eapply Forall_impl; [exact Hcs|]; by intros ? []).
  destruct (write_data_ok loc size bpb Hg data cs sigma 0 Hb Hs Hcl Hnd ltac:(lia)) as (s1 & D1 & Hs1 & F1 & R1).
  destruct (write_chain_ok loc size bpb Hg cs s1 Hs1 Hcl Hnd) as (s2 & D2 & Hs2 & Hch & L2 & R2).
  set (n := (512 * Z.to_nat (sectors_per_cluster bpb) * length cs)%nat) in *.
  change (Z.to_nat 0) with 0%nat in F1. rewrite drop_0 in F1.
  assert (Hn : (length data <= n)%nat) by (unfold n, len in *; destruct Hg; nia).
  rewrite Forall_forall in Hcs, Hcl.
  assert (Hd2 : forall c l, cluster c -> in_cluster c l -> s2 l = s1 l).
  { intros c l Hc Hl. apply R2. by destruct (table_not_data c l Hc Hl). }
  assert (Hf2 : file_bytes s2 cs = pad n data).
  { rewrite <-F1. apply (file_bytes_frame bpb). intros c l Hc. apply Hd2. by apply Hcl. }
  assert (H1 : forall l, (forall c, cluster c -> ~ in_cluster c l) -> s1 l = sigma l).
  { intros l Hl. apply R1. intros c Hc. apply Hl. by apply Hcl. }
  assert (Hroot2 : forall l, in_root l -> s2 l = sigma l).
  { intros l Hl. rewrite R2 by (by apply root_range). apply H1. intros c Hc Hl'.
    by destruct (table_not_data c l Hc Hl') as (_ & ? & _). }
  assert (L1 : forall c, cluster c -> link s1 c = link sigma c).
  { intros c Hc. apply link_frame; [done|]. apply H1. intros c' Hc' Hl.
    destruct (table_not_data c' _ Hc' Hl) as [Hx _]. by apply Hx, fat_sector_in_tables. }
  exists s2. split; [by eapply does_bind|]. split; [|split; [done|split; [|split; [|split; [done|]]]]].
  - apply (volume_frame sigma); [done..| |intros l Hl; rewrite Hroot2 by done; by apply Hroot].
    rewrite R2; [apply H1|].
    + intros c Hc Hl. by destruct (table_not_data c 0 Hc Hl) as (_ & _ & ?).
    + unfold in_tables. destruct Hg. lia.
  - rewrite Hf2. unfold len. rewrite length_pad. lia.
  - rewrite Hf2. by apply take_pad.
  - intros t d ds Hst. pose proof Hst as (l & i & _ & Hds & _). pose proof (chain_clusters bpb _ _ _ Hds) as Hdc.
    pose proof (chain_link_ne bpb _ _ _ Hds) as Hdl. rewrite Forall_forall in Hdc, Hdl.
    assert (Hdisj : forall c, c ∈ ds -> c ∉ cs).
    { intros c Hc Hc'. apply (Hdl c Hc). by destruct (Hcs c Hc'). }
    apply (stored_frame sigma); [| | |done].
    + intros k Hk. rewrite Hroot2 by done. done.
    + intros c Hc. rewrite L2 by (try apply Hdc; try apply Hdisj; done). by apply L1, Hdc.
    + intros c k Hc Hk. rewrite (Hd2 c) by (try apply Hdc; done). apply R1. intros c' Hc' Hk'.
      assert (c = c') as -> by (by eapply (clusters_disjoint size bpb Hg)). by apply (Hdisj c').
Qed.

Definition write_failures : list string :=
  ["File size exceeds static cluster allocation limit (128KB)"; "Not enough free space on Export Disk";
   "Root directory is full on Export Disk"]%string.

(** A name whose 8.3 form can be the name of a file in use. *)
Definition good_name (name : list Z) : Prop :=
  bytes_ok (to_83_name name) /\ at_ (to_83_name name) 0 <> 0 /\ at_ (to_83_name name) 0 <> 0xE5.

Lemma len_to_83_name name : len (to_83_name name) = 11.
Proof. pose proof (to_83_name_fields name) as H. destruct (stem_ext (base_name name)). by destruct H. Qed.

(** The entry of a new file. *)
Lemma write_entry_ok sigma name data cs :
  volume sigma -> good_name name -> chain sigma (hd 0xFFFF cs) cs -> cs <> [] ->
  len data <= len (file_bytes sigma cs) -> take (length data) (file_bytes sigma cs) = data -> len data < 2 ^ 32 ->
  forall l i, root_search (find_slot ENTRIES 0 (to_83_name name)) sigma = Some (l, sigma l, i) ->
  exists sigma', does sigma (write_lba loc l (put_entry (sigma l) i (make_entry (to_83_name name) (hd 0 cs) (len data))))
      sigma' (Ok tt) /\
    volume sigma' /\ stored sigma' (to_83_name name) data cs /\
    forall t d ds, t <> to_83_name name -> stored sigma t d ds -> stored sigma' t d ds.
Proof.
  intros Hv (Hnb & H0 & H5) Hch Hne Hlen Hdata Hmax l i Hse. destruct (Hv) as [Hs Hboot Hroot].
  set (target := to_83_name name) in *. pose proof (len_nonneg data).
  destruct cs as [|c cs]; [done|]. simpl hd in *. destruct (Hch) as (_ & Hc & _).
  assert (Hcr : 0 <= c < 65536) by (destruct Hg; unfold Fat16Props.cluster in Hc; lia).
  destruct (make_entry_of target c (len data) (len_to_83_name name) H0 H5 Hcr ltac:(lia)) as (He & Hcand & Hfc & Hfs).
  set (e := make_entry target c (len data)) in *.
  apply search_Some in Hse as (Hl & _ & Hi & Hk). rewrite Z2Nat.id in Hl by (destruct Hg; lia).
  destruct (root_range l Hl) as (Hlr & Hlt & Hld). destruct (Hs l ltac:(lia)) as [Hsl Hsb].
  pose proof (find_slot_Some _ _ _ _ _ Hi) as (Hi16 & _ & _). change (Z.of_nat ENTRIES) with 16 in Hi16.
  assert (Heb : bytes_ok e).
  { unfold e, make_entry. repeat (apply Forall_app; split); try apply Z_to_le_bytes; [done|by repeat constructor|by apply Forall_replicate]. }
  assert (Hpl : len (put_entry (sigma l) i e) = 512) by (unfold put_entry; rewrite len_splice; lia).
  assert (Hpb : bytes_ok (put_entry (sigma l) i e)) by (by apply Forall_splice).
  exists (put_sector sigma l (put_entry (sigma l) i e)). split; [apply does_write; [lia|done..]|].
  assert (Hother : forall k, ~ in_root k -> put_sector sigma l (put_entry (sigma l) i e) k = sigma k).
  { intros k Hk'. apply put_other. intros ->. done. }
  assert (Hlink : forall k, cluster k -> link (put_sector sigma l (put_entry (sigma l) i e)) k = link sigma k).
  { intros k Hk'. apply link_frame; [done|]. apply Hother. intros Hr. destruct (root_range _ Hr) as (_ & Hx & _).
    by apply Hx, fat_sector_in_tables. }
  assert (Hdat : forall k m, cluster k -> in_cluster k m -> put_sector sigma l (put_entry (sigma l) i e) m = sigma m).
  { intros k m Hk' Hm. apply Hother. by destruct (table_not_data k m Hk' Hm) as (_ & ? & _). }
  pose proof (chain_clusters bpb _ _ _ Hch) as Hcl. rewrite Forall_forall in Hcl.
  split; [|split].
  - apply (volume_frame sigma); [done|by apply sectors_ok_put| |].
    + apply Hother. intros Hr. destruct (root_range 0 Hr). lia.
    + intros k Hk'. unfold put_sector. destruct (Z.eqb_spec k l) as [->|]; [|by apply Hroot].
      eapply clean_put; [done|done|by apply Hroot|exact Hi|apply Hcand].
  - exists l, i. cbv zeta. rewrite put_same, entry_put, Z.eqb_refl, Hfc, Hfs by lia.
    assert (Hf : file_bytes (put_sector sigma l (put_entry (sigma l) i e)) (c :: cs) = file_bytes sigma (c :: cs)).
    { eapply file_bytes_frame. intros k m Hk' Hm. by eapply (Hdat k); [apply Hcl|]. }
    rewrite Hf. split; [|split; [|split; [lia|]]].
    + apply search_Some. rewrite put_same, Z2Nat.id by (destruct Hg; lia). split_and!; [lia|lia|done| |].
      * by apply find_entry_put_self.
      * intros k Hk'. rewrite put_other by lia. apply find_entry_pass. intros j Hj.
        by apply (find_slot_None ENTRIES _ _ 0 (Hk k Hk')).
    + eapply chain_frame; [|exact Hch]. intros k Hk'. by apply Hlink, Hcl.
    + unfold len. by rewrite Nat2Z.id.
  - intros t d ds Ht Hst. pose proof Hst as (l' & i' & _ & Hds & _).
    pose proof (chain_clusters bpb _ _ _ Hds) as Hdc. rewrite Forall_forall in Hdc.
    apply (stored_frame sigma); [| | |done].
    + intros k Hk'. unfold put_sector. destruct (Z.eqb_spec k l) as [->|]; [|done]. unfold find_name.
      split; [eapply find_entry_put_other; try done; by apply Hroot|]. intros j Hj. rewrite entry_put; try lia.
      * destruct (Z.eqb_spec j i) as [->|]; [|done]. exfalso.
        apply find_entry_Some in Hj as (_ & H1 & H2 & H3). apply find_slot_Some in Hi as (_ & Hu & _).
        destruct (usable_passed _ t target Ht Hu) as [[_ [?|?]]|?]; congruence.
      * apply find_entry_Some in Hj as [Hj _]. change (Z.of_nat ENTRIES) with 16 in Hj. lia.
    + intros k Hk'. by apply Hlink, Hdc.
    + intros k m Hk' Hm. by eapply (Hdat k); [apply Hdc|].
Qed.

Lemma does_loc_bpb {A} sigma sigma' (f : DiskLocation -> Fat16Bpb -> io X A) r : volume sigma ->
  does sigma (f loc bpb) sigma' r ->
  does sigma (loc ← get_export_disk_loc; bpb ← export_disk_get_bpb; f loc bpb) sigma' r.
Proof.
  intros Hv Hf. eapply does_bind; [apply does_loc|]. eapply does_bind; [|exact Hf].
  rewrite <-(v_boot _ Hv). apply does_bpb, boot_in_range.
Qed.

(** What a write leaves: the new file, or an error and all files as they were, the
    target included. A full root directory is found out last: by then the
    tables and clusters that were free have been written. *)
Definition written_file (sigma sigma' : sectors) (target data : list Z) (r : outcome disk_error Z) : Prop :=
  volume sigma' /\
  (forall t d ds, t <> target -> stored sigma t d ds -> stored sigma' t d ds) /\
  match r with
  | Ok n => n = len data /\ exists cs, stored sigma' target data cs
  | Err (Disk msg) => msg ∈ write_failures /\
      (msg <> "Root directory is full on Export Disk"%string -> sigma' = sigma) /\
      (forall l, in_root l -> sigma' l = sigma l) /\
      forall d ds, stored sigma target d ds -> stored sigma' target d ds
  | Err Endless => False
  | Panic _ => False
  end.

Lemma write_file_ok oc sigma name data : volume sigma -> bytes_ok data -> good_name name ->
  exists sigma' r, does sigma (export_disk_write_file oc name data) sigma' r /\
    written_file sigma sigma' (to_83_name name) data r.
Proof.
  intros Hv Hb Hn. set (target := to_83_name name). destruct (needed_enough data) as [Hn1 Hn2].
  assert (Hsame : forall msg, msg ∈ write_failures -> written_file sigma sigma target data (Err (Disk msg)))
    by (intros; split_and!; try done).
  destruct (Z.ltb_spec 64 (needed_clusters bpb data)) as [Hbig|Hsmall].
  { exists sigma. eexists. split; [|apply Hsame; by left]. apply does_loc_bpb; [done|].
    rewrite (proj2 (Z.ltb_lt _ _)) by done. apply does_fail. }
  destruct (find_free_ok loc size bpb Hg sigma (needed_clusters bpb data) (Z.to_nat (total_data_clusters bpb + 2 - 2)) 2 [])
    as (cs & Dfree & Hnd & Hcs & Hlcs); [lia|destruct Hg; lia|constructor|constructor|unfold len; simpl; lia|].
  destruct (Z.ltb_spec (len cs) (needed_clusters bpb data)) as [Hfew|Henough].
  { exists sigma. eexists. split; [|apply Hsame; right; by left]. apply does_loc_bpb; [done|].
    rewrite (proj2 (Z.ltb_ge _ _)) by done. eapply does_bind; [rewrite (cluster_end_ok size bpb Hg); apply does_pure|].
    eapply does_bind; [exact Dfree|]. rewrite (proj2 (Z.ltb_lt _ _)) by done. apply does_fail. }
  assert (Hlen : len cs = needed_clusters bpb data) by lia.
  destruct (write_body_ok sigma data cs Hv Hb Hcs Hnd ltac:(rewrite Hlen; lia)) as (s2 & D2 & Hv2 & Hch & Hl2 & Hd2 & Hr2 & Hst2).
  assert (Hmax : len data < 2 ^ 32) by (destruct Hg; nia).
  assert (Hprefix : forall s3 r, does s2 (slot ← search_root (find_slot ENTRIES 0 target) loc bpb;
      match slot with
      | Some (lba, s, i) => _ ← write_lba loc lba (put_entry s i (make_entry target (hd 0 cs) (len data))); mret (len data)
      | None => disk_fail "Root directory is full on Export Disk"
      end) s3 r -> does sigma (export_disk_write_file oc name data) s3 r).
  { intros s3 r H. apply does_loc_bpb; [done|]. rewrite (proj2 (Z.ltb_ge _ _)) by done.
    eapply does_bind; [rewrite (cluster_end_ok size bpb Hg); apply does_pure|].
    eapply does_bind; [exact Dfree|]. rewrite (proj2 (Z.ltb_ge _ _)) by done.
    intros x Hx. destruct (D2 x Hx) as (x1 & E1 & Hx1 & S1). destruct (H x1 Hx1) as (x2 & E2 & Hx2 & S2).
    exists x2. split; [|split; [done|congruence]]. unfold mbind, io_bind in *.
    destruct (write_data loc bpb data cs 0 x) as [y [[]|e|k]]; [|done..]. by rewrite E1. }
  destruct (root_search (find_slot ENTRIES 0 target) s2) as [[[l s] i]|] eqn:Hse.
  - assert (s = s2 l) as -> by (by apply search_Some in Hse as (_ & ? & _)).
    assert (Hne : cs <> []) by (intros ->; unfold len in Hlen; simpl in Hlen; lia).
    destruct (write_entry_ok s2 name data cs Hv2 Hn Hch Hne Hl2 Hd2 Hmax l i Hse) as (s3 & D3 & Hv3 & Hst3 & Hoth3).
    exists s3, (Ok (len data)). split.
    + apply Hprefix. eapply does_bind; [apply does_search_root|]. rewrite Hse.
      eapply does_bind; [exact D3|]. apply does_ret.
    + split; [done|]. split; [|split; [done|by exists cs]]. intros t d ds Ht Hst. by apply Hoth3, Hst2.
  - exists s2, (Err (Disk "Root directory is full on Export Disk")). split.
    + apply Hprefix. eapply does_bind; [apply does_search_root|]. rewrite Hse. apply does_fail.
    + split; [done|]. split; [by intros; apply Hst2|]. split; [right; right; by left|]. split; [done|]. split; [exact Hr2|]. by intros; apply Hst2.
Qed.

(** ** Deleting *)

Lemma delete_file_ok sigma name : volume sigma -> bytes_ok (to_83_name name) ->
  (forall data cs, stored sigma (to_83_name name) data cs ->
   exists sigma', does sigma (export_disk_delete_file name) sigma' (Ok tt) /\ volume sigma' /\
     (forall c, c ∈ cs -> link sigma' c = 0) /\
     forall t d ds, t <> to_83_name name -> cs ## ds -> stored sigma t d ds -> stored sigma' t d ds) /\
  (root_search (find_name (to_83_name name)) sigma = None ->
   does sigma (export_disk_delete_file name) sigma (Ok tt)).
Proof.
  intros Hv Hb. destruct (Hv) as [Hs Hboot Hroot]. set (target := to_83_name name) in *. split.
  2: { intros Hse. apply does_loc_bpb; [done|]. eapply does_bind; [apply does_search_root|]. fold target.
       unfold find_name in Hse. rewrite Hse. apply does_ret. }
  intros data cs (l & i & Hse & Hch & Hsz & _). pose proof (proj1 (search_Some _ _ _ _ _ _ _) Hse) as (Hl & _ & Hi & _).
  rewrite Z2Nat.id in Hl by (destruct Hg; lia). destruct (root_range l Hl) as (Hlr & Hlt & Hld).
  destruct (Hs l ltac:(lia)) as [Hsl Hsb]. pose proof (find_entry_Some _ _ _ _ _ Hi) as (Hi16 & _).
  change (Z.of_nat ENTRIES) with 16 in Hi16. set (s' := setZ (sigma l) (i * 32) 0xE5).
  assert (Hs'l : len s' = 512) by (unfold s'; by rewrite len_setZ).
  assert (Hs'b : bytes_ok s') by (by apply Forall_setZ).
  set (s1 := put_sector sigma l s').
  assert (Hother : forall k, ~ in_root k -> s1 k = sigma k) by (intros k Hk; apply put_other; by intros ->).
  assert (Hlink : forall k, cluster k -> link s1 k = link sigma k).
  { intros k Hk'. apply link_frame; [done|]. apply Hother. intros Hr. destruct (root_range _ Hr) as (_ & Hx & _).
    by apply Hx, fat_sector_in_tables. }
  pose proof (chain_clusters bpb _ _ _ Hch) as Hcl. rewrite Forall_forall in Hcl.
  assert (Hch1 : chain s1 (first_cluster (entry_at (sigma l) i)) cs).
  { eapply chain_frame; [|exact Hch]. intros k Hk. by apply Hlink, Hcl. }
  assert (Hnd : NoDup cs) by (eapply (chain_NoDup size bpb Hg); exact Hch).
  assert (Hfuel : (length cs <= CHAIN_FUEL)%nat).
  { assert (Hsub : incl cs (seqZ 2 (total_data_clusters bpb))).
    { intros k Hk%list_elem_of_In. apply list_elem_of_In, elem_of_seqZ. specialize (Hcl k Hk).
      unfold Fat16Props.cluster in Hcl. lia. }
    pose proof (NoDup_incl_length (proj1 (NoDup_ListNoDup _) Hnd) Hsub) as H. rewrite length_seqZ in H.
    unfold CHAIN_FUEL. destruct Hg. lia. }
  destruct (free_chain_ok loc size bpb Hg cs CHAIN_FUEL s1 _ ltac:(by apply sectors_ok_put) Hch1 Hnd Hfuel)
    as (s2 & D2 & Hs2 & L2 & R2).
  assert (Hroot2 : forall k, in_root k -> s2 k = s1 k) by (intros k Hk; apply R2; by apply root_range).
  exists s2. split; [|split; [|split]].
  - apply does_loc_bpb; [done|]. eapply does_bind; [apply does_search_root|]. fold target.
    unfold find_name in Hse. rewrite Hse. eapply does_bind; [apply does_write; [lia|done..]|exact D2].
  - apply (volume_frame sigma); [done|done| |].
    + rewrite R2; [apply Hother|]; [intros Hr; destruct (root_range 0 Hr); lia|]. unfold in_tables. destruct Hg. lia.
    + intros k Hk. rewrite Hroot2 by done. unfold s1, put_sector. destruct (Z.eqb_spec k l) as [->|]; [|by apply Hroot].
      eapply clean_delete; [done|by apply Hroot|exact Hi].
  - intros c Hc. rewrite L2 by (by apply Hcl). by rewrite decide_True.
  - intros t d ds Ht Hdisj Hst. pose proof Hst as (l' & i' & _ & Hds & _).
    pose proof (chain_clusters bpb _ _ _ Hds) as Hdc. rewrite Forall_forall in Hdc.
    apply (stored_frame sigma); [| | |done].
    + intros k Hk. rewrite Hroot2 by done. unfold s1, put_sector. destruct (Z.eqb_spec k l) as [->|]; [|done]. unfold find_name.
      split; [eapply find_entry_delete_other; try done; by apply Hroot|]. intros j Hj.
      apply find_entry_Some in Hj as [Hj Hcj]. change (Z.of_nat ENTRIES) with 16 in Hj.
      unfold s'. rewrite entry_delete by lia. destruct (Z.eqb_spec j i) as [->|]; [|done]. exfalso.
      apply find_entry_Some in Hi as (_ & _ & _ & Hn). destruct Hcj as (_ & _ & Hn'). congruence.
    + intros c Hc. rewrite L2 by (by apply Hdc). rewrite decide_False; [by apply Hlink, Hdc|].
      intros Hc'. by apply (Hdisj c).
    + intros c k Hc Hk. specialize (Hdc c Hc). destruct (table_not_data c k Hdc Hk) as (H1 & H2 & _).
      rewrite R2 by done. by apply Hother.
Qed.

(** Deleting ends on any volume whose links and entries stay inside it, even when
    they run in circles. *)
Definition entries_inside (sigma : sectors) : Prop :=
  forall t l i, root_search (find_name t) sigma = Some (l, sigma l, i) ->
  in_chain (first_cluster (entry_at (sigma l) i)) = true -> cluster (first_cluster (entry_at (sigma l) i)).

Lemma delete_file_ends sigma name : volume sigma -> links_inside bpb sigma -> entries_inside sigma ->
  exists sigma', does sigma (export_disk_delete_file name) sigma' (Ok tt) /\ sectors_ok sigma'.
Proof.
  intros Hv Hin He. destruct (Hv) as [Hs Hboot Hroot]. set (target := to_83_name name).
  destruct (root_search (find_name target) sigma) as [[[l s] i]|] eqn:Hse.
  2: { exists sigma. split; [|done]. apply does_loc_bpb; [done|]. eapply does_bind; [apply does_search_root|].
       fold target. unfold find_name in Hse. rewrite Hse. apply does_ret. }
  assert (s = sigma l) as -> by (by apply search_Some in Hse as (_ & ? & _)).
  pose proof (proj1 (search_Some _ _ _ _ _ _ _) Hse) as (Hl & _ & Hi & _).
  rewrite Z2Nat.id in Hl by (destruct Hg; lia). destruct (root_range l Hl) as (Hlr & Hlt & Hld).
  destruct (Hs l ltac:(lia)) as [Hsl Hsb]. set (s' := setZ (sigma l) (i * 32) 0xE5). set (s1 := put_sector sigma l s').
  assert (Hs'l : len s' = 512) by (unfold s'; by rewrite len_setZ).
  assert (Hs'b : bytes_ok s') by (by apply Forall_setZ).
  assert (Hlink : forall k, cluster k -> link s1 k = link sigma k).
  { intros k Hk'. apply link_frame; [done|]. apply put_other. intros E. apply Hlt. rewrite <-E. by apply fat_sector_in_tables. }
  destruct (free_chain_ends loc size bpb Hg CHAIN_FUEL s1 (first_cluster (entry_at (sigma l) i)))
    as (s2 & D2 & Hs2 & _).
  - by apply sectors_ok_put.
  - intros k Hk. rewrite Hlink by done. by apply Hin.
  - by apply (He target l i).
  - apply (linked_bound size bpb Hg).
  - exists s2. split; [|done]. apply does_loc_bpb; [done|]. eapply does_bind; [apply does_search_root|]. fold target.
    unfold find_name in Hse. rewrite Hse. eapply does_bind; [apply does_write; [lia|done..]|exact D2].
Qed.

(** * The theorems *)

(** C8: the export disk stores files. On any device that keeps its promises, and any
    volume whose regions do not overlap, writing a file ends with the file stored
    and every other file as it was, or with one of three errors, the directory and
    every file as they were (the volume is untouched unless the directory is
    full); it never panics. What is stored is what reading the file puts in the
    buffer, up to the buffer's length. *)
Theorem export_disk_stores oc x sigma name data x' r :
  shows x sigma -> volume sigma -> bytes_ok data -> good_name name ->
  export_disk_write_file oc name data x = (x', r) ->
  exists sigma', shows x' sigma' /\ written_file sigma sigma' (to_83_name name) data r /\
    (forall n, r = Ok n -> forall out_buf, exists x'', export_disk_read_file name out_buf x' =
       (x'', splice out_buf 0 (take (length out_buf) data), Ok (Z.min (len data) (len out_buf)))).
Proof.
  intros Hx Hv Hb Hn Hw. destruct (write_file_ok oc sigma name data Hv Hb Hn) as (sigma' & r' & Hd & Hwf).
  destruct (Hd x Hx) as (x1 & E & Hx1 & _). rewrite Hw in E. injection E as <- <-.
  exists sigma'. split_and!; [done..|]. intros n -> out_buf. destruct Hwf as (Hv' & _ & _ & cs & Hst).
  destruct (read_file_ok sigma' name data cs out_buf Hv' Hst x' Hx1) as (x2 & E & _). by exists x2.
Qed.

(** C38: deleting on the export disk. On a volume whose links and entries stay
    inside it deleting always ends, even on a chain that runs in a circle. A file
    that is stored is freed, cluster by cluster, and every other file that shares no
    cluster with it stays as it was; a name that is not there changes nothing. *)
Theorem export_disk_deletes x sigma name :
  shows x sigma -> volume sigma -> bytes_ok (to_83_name name) -> links_inside bpb sigma -> entries_inside sigma ->
  exists x', export_disk_delete_file name x = (x', Ok tt) /\
    (forall data cs, stored sigma (to_83_name name) data cs ->
     exists sigma', shows x' sigma' /\ volume sigma' /\ (forall c, c ∈ cs -> link sigma' c = 0) /\
       forall t d ds, t <> to_83_name name -> cs ## ds -> stored sigma t d ds -> stored sigma' t d ds) /\
    (root_search (find_name (to_83_name name)) sigma = None -> shows x' sigma).
Proof.
  intros Hx Hv Hb Hin He. destruct (delete_file_ends sigma name Hv Hin He) as (s2 & Hd & _).
  destruct (Hd x Hx) as (x' & E & _). exists x'. split; [done|].
  destruct (delete_file_ok sigma name Hv Hb) as [H1 H2]. split.
  - intros data cs Hst. destruct (H1 data cs Hst) as (s3 & Hd3 & Hrest). exists s3. split; [|done].
    destruct (Hd3 x Hx) as (x3 & E3 & Hx3 & _). rewrite E in E3. by injection E3 as <-.
  - intros Hno. destruct (H2 Hno x Hx) as (x3 & E3 & Hx3 & _). rewrite E in E3. by injection E3 as <-.
Qed.
End Files.
