(* ===== verification/FsExport.v ===== *)
(** LatencyFS and the export disk together: what is written to a file of LatencyFS
    is found on the FAT16 volume under its 8.3 name. The file system knows the disk
    as a [SyncDisk] only (Fs.v), the disk its device as a [SectorDevice] (Ata.v). *)

From S2P Require Import Prelude RustStd RustStr Vfs ExportDisk Fs FsPath FsTable FsProps FsLaws Ata Fat16 Fat16Props Fat16Files.
Local Open Scope Z_scope.

Section Exporting.
Context {D : Type} `{!SectorDevice D} `{!SectorLaws D}.
Context (loc : DiskLocation) (size : Z) (bpb : Fat16Bpb) (Hg : geometry size bpb).
Notation shows := (shows (D := D) loc size).

(** The contents [c] of the file [p] have reached the volume, which held [sigma],
    or have been refused by it ([written_file] says what a refusal leaves). *)
Definition exported (sigma : sectors) (s : state (export_disk D)) (p c : list Z) : Prop :=
  exists sigma' r, shows (disk s) sigma' /\ SYNC_MUTEX_FLAG (disk s) = false /\
    written_file size bpb sigma sigma' (to_83_name (basename p)) c r.

(** The write-through of a file, when a disk has been found and is not busy. *)
Lemma sync_file_ok x sigma path data :
  shows x sigma -> volume size bpb sigma -> SYNC_MUTEX_FLAG x = false -> bytes_ok data ->
  basename path <> [] -> good_name (basename path) ->
  let x' := export_disk_auto_sync_file x path data in
  SYNC_MUTEX_FLAG x' = false /\ FILE_TRANSFER_BUF x' = FILE_TRANSFER_BUF x /\
  exists sigma' r, shows x' sigma' /\ written_file size bpb sigma sigma' (to_83_name (basename path)) data r.
Proof.
  intros Hx Hv Hf Hb Hne Hn. unfold export_disk_auto_sync_file, export_sync, auto_sync_file, auto_sync.
  destruct (Hx) as (_ & El & Hdet & _). rewrite Hf, El, Hdet. cbn [orb negb].
  rewrite (proj2 (Z.eqb_neq _ _)) by (destruct (basename path); [done|]; rewrite len_cons; pose proof (len_nonneg l); lia).
  destruct (write_file_ok loc size bpb Hg false sigma (basename path) data Hv Hb Hn) as (sigma' & r & Hd & Hw).
  assert (Hx1 : shows (set_flag x true) sigma) by exact Hx.
  destruct (Hd _ Hx1) as (x1 & E & Hx1' & S1). rewrite E. cbn [fst negb].
  split; [done|]. split; [by injection S1|]. exists sigma', r. split; [exact Hx1'|done].
Qed.

(** C21: a file of LatencyFS reaches the export disk. After a successful write outside
    the video memory, on a disk that has been found and is not busy, every later
    read of the file in LatencyFS returns what was written. If the path does not
    begin with /vram, which is never exported, and its base name is not empty and
    has an 8.3 form that does not begin with 0x00 or 0xE5, then the volume has the
    file under that form, with every other stored file kept; or it refused the
    file, and keeps its directory and every stored file: as too large or for want
    of clusters, and then no sector has changed, or because the root directory is
    full, and then the clusters that were free have been taken. *)
Theorem fs_write_exported cwd now n c (s s' : state (export_disk D)) sigma :
  fs_wf s -> utf8_valid n = true -> cwd_ok cwd -> vfs_is_vram_path (trim n) = false ->
  fs_write cwd now n c s = (s', Ok ()) -> bytes_ok c ->
  shows (disk s) sigma -> volume size bpb sigma -> SYNC_MUTEX_FLAG (disk s) = false ->
  exists p, norm_path cwd n = Ok p /\ reads_as p c s' /\
    (synced p = true -> basename p <> [] -> good_name (basename p) -> exported sigma s' p c).
Proof.
  intros Hs Hn Hc Hvr Hw Hb Hx Hv Hf.
  destruct (fs_write_result cwd now n c s s' Hs Hn Hc Hvr Hw) as (p & Hp & _ & Hd & Hr).
  exists p. split_and!; [done..|]. intros Hsy Hne Hgn. unfold exported. rewrite Hd, Hsy.
  destruct (sync_file_ok (disk s) sigma p c Hx Hv Hf Hb Hne Hgn) as (Hf' & _ & sigma' & r & Hx' & Hwf).
  by exists sigma', r.
Qed.
End Exporting.

(** * The image of a drive as a device *)

Definition image_sector (d : image) (port drive lba : Z) : option (list Z) :=
  if (port =? ATA_PRIMARY_DATA) && (drive =? 1) then
    s ← getZ d lba; if bool_decide (len s = 512 /\ bytes_ok s) then Some s else None
  else None.

Lemma image_sector_Some d port drive lba s : image_sector d port drive lba = Some s ->
  port = ATA_PRIMARY_DATA /\ drive = 1 /\ getZ d lba = Some s /\ len s = 512 /\ bytes_ok s.
Proof.
  unfold image_sector. destruct ((port =? _) && _) eqn:E; [|done]. apply andb_true_iff in E as [E1 E2].
  apply Z.eqb_eq in E1, E2. destruct (getZ d lba) as [t|] eqn:Et; simpl; [|done].
  case_bool_decide as H; [|done]. intros [= ->]. by destruct H.
Qed.

#[export] Program Instance image_laws : SectorLaws image := {
  at_rest d := True;
  sector := image_sector;
}.
Next Obligation. intros. by apply image_sector_Some in H as (_ & _ & _ & ? & ?). Qed.
Next Obligation.
  intros d port drive lba s _ H. apply image_sector_Some in H as (-> & -> & H & _).
  exists d. unfold read_sector, image_device. by rewrite H.
Qed.
Next Obligation.
  intros d port drive lba s0 s _ H Hl Hb. apply image_sector_Some in H as (-> & -> & H & _).
  apply getZ_Some_lt in H. exists (setZ d lba s). unfold write_sector, image_device.
  rewrite !Z.eqb_refl, (proj2 (Z.leb_le _ _)), (proj2 (Z.ltb_lt _ _)) by lia. split_and!; [done..|].
  intros p v l. unfold image_sector. destruct (decide (p = ATA_PRIMARY_DATA /\ v = 1)) as [[-> ->]|Hne].
  - rewrite !Z.eqb_refl. simpl andb. cbv iota. destruct (decide (l = lba)) as [->|Hl'].
    + rewrite getZ_setZ_eq by lia. simpl. by rewrite !bool_decide_eq_true_2.
    + rewrite getZ_setZ_ne by done. rewrite bool_decide_eq_false_2; [done|]. naive_solver.
  - rewrite (bool_decide_eq_false_2 (p = _ /\ v = _ /\ l = _)) by naive_solver.
    destruct ((p =? ATA_PRIMARY_DATA) && (v =? 1)) eqn:E; [|done]. apply andb_true_iff in E as [E1 E2].
    apply Z.eqb_eq in E1, E2. naive_solver.
Qed.

(** ** A small volume *)

Definition small_loc : DiskLocation := mkLocation ATA_PRIMARY_DATA 1 true.
Definition small_bpb : Fat16Bpb := mkBpb 512 1 1 2 16 40 1 3 1 4 36.
Definition small_contents (d : image) : sectors := fun l => default [] (getZ d l).
Definition found (d : image) : export_disk image := set_loc (export_disk_new d) small_loc.

Lemma small_geometry : geometry 40 small_bpb.
Proof. constructor; simpl; lia. Qed.

(** An image of sectors with this boot sector. *)
Definition small_ok (d : image) : Prop :=
  len d = 40 /\ Forall (fun s => len s = 512 /\ bytes_ok s) d /\ parse_bpb (small_contents d 0) = Ok small_bpb /\
  forallb (fun i => forallb (fun j => negb (entry_end (entry_at (small_contents d 3) i)) ||
     entry_end (entry_at (small_contents d 3) j)) (seqZ i (16 - i))) (seqZ 0 16) = true.

Lemma small_shows d : small_ok d -> shows small_loc 40 (found d) (small_contents d).
Proof.
  intros (Hl & Hs & _). split_and!; [done..|]. intros l Hl'. simpl. unfold image_sector. simpl.
  destruct (getZ_lt_Some d l ltac:(lia)) as [s E]. unfold small_contents. rewrite E. simpl.
  rewrite bool_decide_eq_true_2; [done|]. by apply (Forall_getZ _ _ _ _ Hs) in E.
Qed.

Lemma small_volume d : small_ok d -> volume 40 small_bpb (small_contents d).
Proof.
  intros (Hl & Hs & Hb & Hc). constructor; [|done|].
  - intros l Hl'. destruct (getZ_lt_Some d l ltac:(lia)) as [s E]. unfold small_contents. rewrite E. simpl.
    by apply (Forall_getZ _ _ _ _ Hs) in E.
  - intros l Hl'. unfold in_root in Hl'. simpl in Hl'. assert (l = 3) as -> by lia. intros i j Hij Hj Hend.
    rewrite forallb_forall in Hc. specialize (Hc i). rewrite forallb_forall in Hc.
    assert (H : negb (entry_end (entry_at (small_contents d 3) i)) || entry_end (entry_at (small_contents d 3) j) = true).
    { apply Hc; apply list_elem_of_In, elem_of_seqZ; lia. }
    by rewrite Hend in H.
Qed.

Lemma small_image_ok : small_ok small_image.
Proof. split_and!; [reflexivity|compute_fact|vm_compute; reflexivity|vm_compute; reflexivity]. Qed.

Definition hello : list Z := bytes "Hello, disk".

Lemma good_hello : good_name (bytes "hello.txt").
Proof. split; [compute_fact|]. vm_compute. split; congruence. Qed.

(** A read of the whole file, in a buffer of 2000 bytes. *)
Definition reads_back (name : list Z) (x : export_disk image) (data : list Z) : Prop :=
  read_back name x = Ok data.

Example export_disk_stores_witness :
  exists x' sigma', export_disk_write_file true (bytes "hello.txt") hello (found small_image) = (x', Ok 11) /\
    written_file 40 small_bpb (small_contents small_image) sigma' (bytes "HELLO   TXT") hello (Ok 11) /\
    reads_back (bytes "hello.txt") x' hello.
Proof.
  assert (Hr : let '(x', r) := export_disk_write_file true (bytes "hello.txt") hello (found small_image) in
    r = Ok 11 /\ read_back (bytes "hello.txt") x' = Ok hello) by (vm_compute; by split).
  destruct (export_disk_write_file true (bytes "hello.txt") hello (found small_image)) as [x' r] eqn:E.
  destruct Hr as [-> Hr].
  destruct (export_disk_stores small_loc 40 small_bpb small_geometry true (found small_image) (small_contents small_image)
    (bytes "hello.txt") hello x' (Ok 11)) as (sigma' & _ & Hw & _).
  - apply small_shows, small_image_ok.
  - apply small_volume, small_image_ok.
  - compute_fact.
  - exact good_hello.
  - exact E.
  - exists x', sigma'. by split_and!.
Defined.

(** The image with the file on it. *)
Definition hello_image : image := device (fst (export_disk_write_file true (bytes "hello.txt") hello (found small_image))).

Lemma hello_image_ok : small_ok hello_image.
Proof. split_and!; [vm_compute; reflexivity|compute_fact|vm_compute; reflexivity|vm_compute; reflexivity]. Qed.

(** Every link of the volume is an end marker or zero. *)
Lemma hello_links : links_inside small_bpb (small_contents hello_image).
Proof.
  assert (H : forallb (fun c => negb (in_chain (link small_bpb (small_contents hello_image) c))) (seqZ 2 36) = true)
    by (vm_compute; reflexivity).
  rewrite forallb_forall in H. intros c Hc Hch. unfold cluster in Hc. simpl in Hc.
  specialize (H c ltac:(apply list_elem_of_In, elem_of_seqZ; lia)). by rewrite Hch in H.
Qed.

Lemma hello_entries : entries_inside small_bpb (small_contents hello_image).
Proof.
  intros t l i Hs _. apply search_Some in Hs as (Hl & _ & Hi & _). simpl in Hl. assert (l = 3) as -> by lia.
  apply find_entry_Some in Hi as (Hi & He & _). change (Z.of_nat ENTRIES) with 16 in Hi.
  assert (H : forallb (fun i => entry_end (entry_at (small_contents hello_image 3) i) ||
    (first_cluster (entry_at (small_contents hello_image 3) i) =? 2)) (seqZ 0 16) = true) by (vm_compute; reflexivity).
  rewrite forallb_forall in H. specialize (H i ltac:(apply list_elem_of_In, elem_of_seqZ; lia)).
  rewrite He in H. apply Z.eqb_eq in H. rewrite H. unfold cluster. simpl. lia.
Qed.

Example export_disk_deletes_witness :
  exists x', export_disk_delete_file (bytes "hello.txt") (found hello_image) = (x', Ok tt) /\
    read_back (bytes "hello.txt") x' = Err (Disk "File not found on Export Disk").
Proof.
  assert (H : read_back (bytes "hello.txt") (fst (export_disk_delete_file (bytes "hello.txt") (found hello_image))) =
    Err (Disk "File not found on Export Disk")) by (vm_compute; reflexivity).
  destruct (export_disk_deletes small_loc 40 small_bpb small_geometry (found hello_image) (small_contents hello_image)
    (bytes "hello.txt")) as (x' & E & _).
  - apply small_shows, hello_image_ok.
  - apply small_volume, hello_image_ok.
  - compute_fact.
  - exact hello_links.
  - exact hello_entries.
  - exists x'. rewrite E in H. by split.
Defined.

Example fs_write_exported_witness :
  let s := fs_new (found small_image) in
  let s' := fst (fs_write (bytes "/home") 0 (bytes "hello.txt") hello s) in
  fs_read (bytes "/") (bytes "home/hello.txt") s' = Some hello /\
  exists sigma' r, written_file 40 small_bpb (small_contents small_image) sigma' (bytes "HELLO   TXT") hello r.
Proof.
  intros s s'. destruct (fs_write_exported small_loc 40 small_bpb small_geometry (bytes "/home") 0 (bytes "hello.txt")
    hello s s' (small_contents small_image)) as (p & Hp & Hr & He).
  - apply fs_new_wf.
  - reflexivity.
  - by split; [|right].
  - reflexivity.
  - etransitivity; [apply surjective_pairing|]. apply (f_equal (pair _)). vm_compute. reflexivity.
  - compute_fact.
  - apply small_shows, small_image_ok.
  - apply small_volume, small_image_ok.
  - reflexivity.
  - assert (p = bytes "/home/hello.txt") as ->.
    { vm_compute in Hp. by injection Hp as <-. }
    split.
    + apply Hr; [reflexivity|by split; [|right]|reflexivity|vm_compute; reflexivity].
    + destruct (He eq_refl) as (sigma' & r & _ & _ & Hw); [vm_compute; congruence|exact good_hello|].
      by exists sigma', r.
Defined.

(** ** Where the disk is not a store *)

Definition run_ops (ops : list (list Z * option (list Z))) (x : export_disk image) : export_disk image :=
  fold_left (fun x op => match snd op with
                         | Some data => fst (export_disk_write_file true (fst op) data x)
                         | None => fst (export_disk_delete_file (fst op) x)
                         end) ops x.

(** A volume with one table. *)
Definition one_table : export_disk image :=
  found ((take 16 (boot_sector 40) ++ [1] ++ drop 17 (boot_sector 40)) :: replicate 39 zero_sector).

(** Where the disk is not a store, computed. A file that is overwritten after an
    earlier entry was deleted has two entries, and deleting it brings the old
    contents back. Overwriting never frees the old clusters, so 37 writes of one
    byte to one file fill a disk of 36 clusters. A name whose first byte is 0xE5 is
    written as a deleted entry. On a volume with one table the copy of the table is
    written over the root directory, and writing a file loses another. *)
Theorem export_disk_limits :
  (let x := run_ops [(bytes "a", Some [1]); (bytes "b", Some [2]); (bytes "a", None); (bytes "b", Some [3])]
              (found small_image) in
   read_back (bytes "b") x = Ok [3] /\ read_back (bytes "b") (run_ops [(bytes "b", None)] x) = Ok [2]) /\
  (let x := run_ops (replicate 36 (bytes "a", Some [1])) (found small_image) in
   snd (export_disk_write_file true (bytes "a") [1] x) = Err (Disk "Not enough free space on Export Disk")) /\
  (let '(x, r) := export_disk_write_file true [0xE5; 0xA4; 0xA7] [1] (found small_image) in
   r = Ok 1 /\ read_back [0xE5; 0xA4; 0xA7] x = Err (Disk "File not found on Export Disk")) /\
  (let x := run_ops [(bytes "keep", Some [5])] one_table in
   read_back (bytes "keep") x = Ok [5] /\
   read_back (bytes "keep") (run_ops [(bytes "a", Some [1])] x) = Err (Disk "File not found on Export Disk")).
Proof. vm_compute. by split_and!. Qed.
