(* ===== verification/Disasm.v ===== *)
(** The disassembler (pulselang-core/src/disasm.rs): the listing of a px64
    container, of which the hexadecimal columns are enough to rebuild the
    program. *)

From S2P Require Import Prelude RustStd RustStr Isa Token Error VmState VmExec Vm VmRun Binary.
Local Open Scope Z_scope.

(** * Formatting *)

Definition hex_digit (d : Z) : Z := if d <? 10 then 48 + d else 87 + d.

Fixpoint hex_digits (fuel : nat) (n : Z) (acc : list Z) : list Z :=
  match fuel with
  | O => acc
  | S fuel =>
    let acc := hex_digit (n mod 16) :: acc in
    if n <? 16 then acc else hex_digits fuel (n / 16) acc
  end.

(** [{:02x}] and [{:04x}]: at least [w] digits; sixteen are enough for 64 bits. *)
Definition show_hex (w : nat) (n : Z) : list Z :=
  let d := hex_digits 16 n [] in replicate (w - length d) 48 ++ d.

Definition reg_str (r : Z) : list Z := bytes (px64_reg_name r).
Definition comma : list Z := bytes ", ".

(** * One instruction

    The four bytes that the hexadecimal column shows, and the text. An unused
    operand is written as a literal [00], whatever the code holds. *)

Definition columns : Set := Z * Z * Z * Z.

Definition shown (b0 b1 b2 b3 : Z) (text : list Z) : result (columns * list Z) :=
  mret ((b0, b1, b2, b3), text).

Section Instr.
Context (native_name : Z -> string).
Context (const_count : Z) (const_pool : list Z).

(** The arms of [match op], without the last. [const_pool] has 64 entries,
    whatever [const_count] is. *)
Definition known_instr (op rd rs1 rs2 : Z) (unknown : result (columns * list Z)) : result (columns * list Z) :=
  let imm16 := rs1 * 256 + rs2 in
  let rrr := reg_str rd ++ comma ++ reg_str rs1 ++ comma ++ reg_str rs2 in
  if op =? PX64_OP_NOP then shown 0 0 0 0 (bytes "NOP")
  else if op =? PX64_OP_MOV_IMM then
    shown 1 rd rs1 rs2 (bytes "MOV          " ++ reg_str rd ++ comma ++ show_Z imm16)
  else if op =? PX64_OP_MOV_REG then
    shown 2 rd rs1 0 (bytes "MOV          " ++ reg_str rd ++ comma ++ reg_str rs1)
  else if op =? PX64_OP_MOV_STR then
    shown 3 rd rs1 rs2 (bytes "MOVS         " ++ reg_str rd ++ bytes ", str[offset:"
      ++ show_Z rs1 ++ bytes ", len:" ++ show_Z rs2 ++ bytes "]")
  else if op =? PX64_OP_ADD then shown 4 rd rs1 rs2 (bytes "ADD          " ++ rrr)
  else if op =? PX64_OP_SUB then shown 5 rd rs1 rs2 (bytes "SUB          " ++ rrr)
  else if op =? PX64_OP_MUL then shown 6 rd rs1 rs2 (bytes "MUL          " ++ rrr)
  else if op =? PX64_OP_DIV then shown 7 rd rs1 rs2 (bytes "DIV          " ++ rrr)
  else if op =? PX64_OP_MOD then shown 8 rd rs1 rs2 (bytes "MOD          " ++ rrr)
  else if op =? PX64_OP_CMP_EQ then shown 9 rd rs1 rs2 (bytes "CMPEQ        " ++ rrr)
  else if op =? PX64_OP_CMP_NE then shown 10 rd rs1 rs2 (bytes "CMPNE        " ++ rrr)
  else if op =? PX64_OP_CMP_LT then shown 11 rd rs1 rs2 (bytes "CMPLT        " ++ rrr)
  else if op =? PX64_OP_CMP_LE then shown 12 rd rs1 rs2 (bytes "CMPLE        " ++ rrr)
  else if op =? PX64_OP_CMP_GT then shown 13 rd rs1 rs2 (bytes "CMPGT        " ++ rrr)
  else if op =? PX64_OP_CMP_GE then shown 14 rd rs1 rs2 (bytes "CMPGE        " ++ rrr)
  else if op =? PX64_OP_JMP then shown 15 0 rs1 rs2 (bytes "JMP          0x" ++ show_hex 4 imm16)
  else if op =? PX64_OP_JZ then
    shown 16 rd rs1 rs2 (bytes "JZ           " ++ reg_str rd ++ bytes ", 0x" ++ show_hex 4 imm16)
  else if op =? PX64_OP_JNZ then
    shown 17 rd rs1 rs2 (bytes "JNZ          " ++ reg_str rd ++ bytes ", 0x" ++ show_hex 4 imm16)
  else if op =? PX64_OP_CALL_NAT then
    shown 18 rd rs1 rs2 (bytes "CALL_NAT     " ++ reg_str rd ++ bytes " = "
      ++ bytes (native_name rs1) ++ bytes "(" ++ reg_str rs2 ++ bytes ")")
  else if op =? PX64_OP_WITHIN_START then
    shown 19 rd 0 0 (bytes "WITHIN_START budget:" ++ reg_str rd)
  else if op =? PX64_OP_WITHIN_END then shown 20 0 0 0 (bytes "WITHIN_END")
  else if op =? PX64_OP_DROP then shown 21 0 0 0 (bytes "DROP")
  else if op =? PX64_OP_HALT then shown 22 0 0 0 (bytes "HALT")
  else if op =? PX64_OP_LDC then
    if imm16 <? const_count then
      v ← idx const_pool imm16;
      shown 23 rd rs1 rs2 (bytes "LDC          " ++ reg_str rd ++ bytes ", const[" ++ show_Z imm16
                             ++ bytes "] (" ++ show_Z v ++ bytes ")")
    else
      shown 23 rd rs1 rs2 (bytes "LDC          " ++ reg_str rd ++ bytes ", const[" ++ show_Z imm16
                             ++ bytes "] (<out of bounds>)")
  else if op =? PX64_OP_ADDI then
    shown 24 rd rs1 rs2 (bytes "ADDI         " ++ reg_str rd ++ comma ++ reg_str rs1
      ++ comma ++ show_Z rs2)
  else if op =? PX64_OP_SUBI then
    shown 25 rd rs1 rs2 (bytes "SUBI         " ++ reg_str rd ++ comma ++ reg_str rs1
      ++ comma ++ show_Z rs2)
  else if op =? PX64_OP_AND then shown 26 rd rs1 rs2 (bytes "AND          " ++ rrr)
  else if op =? PX64_OP_OR then shown 27 rd rs1 rs2 (bytes "OR           " ++ rrr)
  else if op =? PX64_OP_XOR then shown 28 rd rs1 rs2 (bytes "XOR          " ++ rrr)
  else if op =? PX64_OP_SHL then shown 29 rd rs1 rs2 (bytes "SHL          " ++ rrr)
  else if op =? PX64_OP_SHR then shown 30 rd rs1 rs2 (bytes "SHR          " ++ rrr)
  else if op =? PX64_OP_ARR_DEF then
    shown 31 rd rs1 rs2 (bytes "ARR_DEF      arr[" ++ show_Z rd ++ bytes "], len: " ++ show_Z imm16)
  else if op =? PX64_OP_ARR_LOAD then
    shown 32 rd rs1 rs2 (bytes "ARR_LOAD     " ++ reg_str rd ++ bytes ", arr[" ++ show_Z rs1
      ++ bytes "][" ++ reg_str rs2 ++ bytes "]")
  else if op =? PX64_OP_ARR_STORE then
    shown 33 rd rs1 rs2 (bytes "ARR_STORE    arr[" ++ show_Z rd ++ bytes "][" ++ reg_str rs1
      ++ bytes "], " ++ reg_str rs2)
  else if op =? PX64_OP_ASSERT then shown 34 rd 0 0 (bytes "ASSERT       " ++ reg_str rd)
  else if op =? PX64_OP_CALL then shown 35 0 rs1 rs2 (bytes "CALL         0x" ++ show_hex 4 imm16)
  else if op =? PX64_OP_RET then shown 36 0 0 0 (bytes "RET")
  else if op =? PX64_OP_STRUCT_DEF then
    shown 37 rd rs1 0 (bytes "STRUCT_DEF   inst[" ++ show_Z rd ++ bytes "], fields: " ++ show_Z rs1)
  else if op =? PX64_OP_STRUCT_LOAD then
    shown 38 rd rs1 rs2 (bytes "STRUCT_LOAD  " ++ reg_str rd ++ bytes ", inst["
      ++ show_Z rs1 ++ bytes "].f[" ++ show_Z rs2 ++ bytes "]")
  else if op =? PX64_OP_STRUCT_STORE then
    shown 39 rd rs1 rs2 (bytes "STRUCT_STORE inst[" ++ show_Z rd ++ bytes "].f["
      ++ show_Z rs1 ++ bytes "], " ++ reg_str rs2)
  else if op =? PX64_OP_TBL_DEF then
    shown 40 rd rs1 rs2 (bytes "TBL_DEF      table[" ++ show_Z rd ++ bytes "], base: "
      ++ show_Z rs1 ++ bytes ", len: " ++ show_Z rs2)
  else if op =? PX64_OP_TBL_LOAD then
    shown 41 rd rs1 rs2 (bytes "TBL_LOAD     " ++ reg_str rd ++ bytes ", table["
      ++ show_Z rs1 ++ bytes "][" ++ reg_str rs2 ++ bytes "]")
  else if op =? PX64_OP_STREQ then shown 42 rd rs1 rs2 (bytes "STREQ        " ++ rrr)
  else if op =? PX64_OP_SPILL_STORE then
    shown 43 rd rs1 rs2 (bytes "SPILL_STORE  slot[" ++ show_Z rd ++ bytes "], " ++ reg_str rs1)
  else if op =? PX64_OP_SPILL_LOAD then
    shown 44 rd rs1 rs2 (bytes "SPILL_LOAD   " ++ reg_str rd ++ bytes ", slot["
      ++ show_Z rs1 ++ bytes "]")
  else unknown.

Definition unknown_instr (op rd rs1 rs2 : Z) : result (columns * list Z) :=
  shown op rd rs1 rs2 (bytes "UNKNOWN_OP_0x" ++ show_hex 2 op).

Definition instr (op rd rs1 rs2 : Z) : result (columns * list Z) :=
  known_instr op rd rs1 rs2 (unknown_instr op rd rs1 rs2).
End Instr.

(** [{:04x}:   {:02x} {:02x} {:02x} {:02x}  ...]. *)
Definition row (op_ip : Z) (c : columns) (text : list Z) : list Z :=
  let '(b0, b1, b2, b3) := c in
  show_hex 4 op_ip ++ bytes ":   " ++ show_hex 2 b0 ++ bytes " " ++ show_hex 2 b1 ++ bytes " "
    ++ show_hex 2 b2 ++ bytes " " ++ show_hex 2 b3 ++ bytes "  " ++ text.

(** * The constants

    [const_pool] is an array of 64 entries, which stays zero when the file is
    too short to hold the constants. *)

Fixpoint fill_consts (n : nat) (i : Z) (const_raw pool : list Z) : result (list Z) :=
  match n with
  | O => mret pool
  | S n =>
    b ← slice const_raw (i * 8) ((i + 1) * 8);
    pool ← upd pool i (as_i64 (be_to_Z b));
    fill_consts n (i + 1) const_raw pool
  end.

(** [count] is the bound of the loop. *)
Definition shown_consts (bin : list Z) (const_start const_count count : Z) : result (list Z) :=
  let const_bytes := const_count * 8 in
  if const_start + const_bytes <=? len bin then
    const_raw ← slice bin const_start (const_start + const_bytes);
    fill_consts (Z.to_nat count) 0 const_raw (replicate 64 0)
  else mret (replicate 64 0).

(** * Writing

    [put] is the effect of [write_str]s of a text on the writer, [None] when one
    of them fails. *)

Definition fmt_error : CompileError := simple "ERR_FMT_ERROR" "Formatting or buffer write error".

Section Writer.
Context {W : Type} (put : W -> list Z -> option W).

(** [writeln!(w, ...)?]. *)
Definition writeln (w : W) (line : list Z) : result W :=
  match put w (line ++ [10]) with Some w => mret w | None => Err fmt_error end.

Fixpoint writelns (w : W) (lines : list (list Z)) : result W :=
  match lines with
  | [] => mret w
  | l :: lines => w ← writeln w l; writelns w lines
  end.

(** The loop over the code, four bytes at a time; fewer than four are left out. *)
Fixpoint write_rows (instr : Z -> Z -> Z -> Z -> result (columns * list Z)) (op_ip : Z)
    (code : list Z) (w : W) : result W :=
  match code with
  | op :: rd :: rs1 :: rs2 :: code =>
    '(c, text) ← instr op rd rs1 rs2;
    w ← writeln w (row op_ip c text);
    write_rows instr (op_ip + 4) code w
  | _ => mret w
  end.

(** The five lines before the code. *)
Definition title (filename : list Z) (version code_len num_regs str_pool_len const_count : Z) : list (list Z) :=
  [bytes "=== [px64 Virtual Register Machine Disassembly] " ++ filename ++ bytes " ===";
   bytes "NOTE: Registers ($rax..$r15, #f0..#f3) are px64 VM virtual registers, not host CPU GPRs.";
   bytes "Magic: PX64 | Version: " ++ show_Z version ++ bytes " | Code: " ++ show_Z code_len
     ++ bytes " B | Registers: " ++ show_Z num_regs ++ bytes " GPRs+HW | StringPool: "
     ++ show_Z str_pool_len ++ bytes " B | ConstPool: " ++ show_Z const_count ++ bytes " entries";
   bytes "OFFSET  HEX          INSTRUCTION  OPERANDS (px64 Virtual Registers)";
   bytes "---------------------------------------------------------------"].

Definition px64_listing (bin filename : list Z) (w : W) : result W :=
  version ← read_u16 bin 4;
  code_len ← read_u16 bin 6;
  str_pool_len ← read_u16 bin 8;
  const_count ← read_u16 bin 10;
  num_regs ← read_u16 bin 12;
  w ← writelns w (title filename version code_len num_regs str_pool_len const_count);
  const_pool ← shown_consts bin (PX64_HEADER_SIZE + code_len + str_pool_len) const_count
                 (Z.min const_count 64);
  let code_end := Z.min (PX64_HEADER_SIZE + code_len) (len bin) in
  code ← slice bin PX64_HEADER_SIZE code_end;
  write_rows (instr px64_native_name const_count const_pool) 0 code w.

(** ** The stack machine

    An instruction of the older bytecode: the position behind it and its line,
    if there is one. An instruction whose operand is cut off prints nothing, and
    the bytes of its operand are taken as opcodes. *)

Definition at_op (op_ip : Z) (text : list Z) : list Z := show_hex 4 op_ip ++ bytes ":   " ++ text.

Definition operand (code : list Z) (ip n : Z) (line : list Z -> list Z) : result (Z * option (list Z)) :=
  if ip + n <=? len code then
    b ← slice code ip (ip + n); mret (ip + n, Some (line b))
  else mret (ip, None).

Definition no_operand (op_ip ip : Z) (text : string) : result (Z * option (list Z)) :=
  mret (ip, Some (at_op op_ip (bytes text))).

(** The byte [i] of the operand. *)
Definition nth_byte (b : list Z) (i : Z) : Z := default 0 (getZ b i).

Definition legacy_instr (code : list Z) (op_ip op : Z) : result (Z * option (list Z)) :=
  let ip := op_ip + 1 in
  if op =? OP_NOP then no_operand op_ip ip "OP_NOP"
  else if op =? OP_PUSH_CONST then
    operand code ip 8 (fun b => at_op op_ip (bytes "OP_PUSH_CONST       " ++ show_Z (as_i64 (be_to_Z b))))
  else if op =? OP_LOAD_VAR then
    operand code ip 1 (fun b => at_op op_ip (bytes "OP_LOAD_VAR         slot:" ++ show_Z (nth_byte b 0)))
  else if op =? OP_STORE_VAR then
    operand code ip 1 (fun b => at_op op_ip (bytes "OP_STORE_VAR        slot:" ++ show_Z (nth_byte b 0)))
  else if op =? OP_ADD then no_operand op_ip ip "OP_ADD"
  else if op =? OP_SUB then no_operand op_ip ip "OP_SUB"
  else if op =? OP_MUL then no_operand op_ip ip "OP_MUL"
  else if op =? OP_DIV then no_operand op_ip ip "OP_DIV"
  else if op =? OP_MOD then no_operand op_ip ip "OP_MOD"
  else if op =? OP_CMP_EQ then no_operand op_ip ip "OP_CMP_EQ"
  else if op =? OP_CMP_NE then no_operand op_ip ip "OP_CMP_NE"
  else if op =? OP_CMP_LT then no_operand op_ip ip "OP_CMP_LT"
  else if op =? OP_CMP_LE then no_operand op_ip ip "OP_CMP_LE"
  else if op =? OP_CMP_GT then no_operand op_ip ip "OP_CMP_GT"
  else if op =? OP_CMP_GE then no_operand op_ip ip "OP_CMP_GE"
  else if op =? OP_JUMP then
    operand code ip 2 (fun b => at_op op_ip (bytes "OP_JUMP             0x" ++ show_hex 4 (be_to_Z b)))
  else if op =? OP_JUMP_IF_FALSE then
    operand code ip 2 (fun b => at_op op_ip (bytes "OP_JUMP_IF_FALSE    0x" ++ show_hex 4 (be_to_Z b)))
  else if op =? OP_CALL_NATIVE then
    operand code ip 1 (fun b => at_op op_ip (bytes "OP_CALL_NATIVE      "
      ++ bytes (px64_native_name (nth_byte b 0)) ++ bytes " (id:" ++ show_Z (nth_byte b 0) ++ bytes ")"))
  else if op =? OP_WITHIN_START then
    operand code ip 8 (fun b => at_op op_ip (bytes "OP_WITHIN_START     " ++ show_Z (be_to_Z b) ++ bytes " us"))
  else if op =? OP_WITHIN_END then no_operand op_ip ip "OP_WITHIN_END"
  else if op =? OP_DROP then no_operand op_ip ip "OP_DROP"
  else if op =? OP_PUSH_STR then
    operand code ip 2 (fun b => at_op op_ip (bytes "OP_PUSH_STR         offset:"
      ++ show_Z (nth_byte b 0) ++ bytes ", len:" ++ show_Z (nth_byte b 1)))
  else if op =? OP_HALT then no_operand op_ip ip "OP_HALT"
  else mret (ip, Some (at_op op_ip (bytes "UNKNOWN_OP_" ++ show_Z op))).

(** The loop [while ip < code.len()]; the length of the code is fuel enough. *)
Fixpoint write_legacy (instr : list Z -> Z -> Z -> result (Z * option (list Z))) (fuel : nat)
    (code : list Z) (ip : Z) (w : W) : result W :=
  if ip <? len code then
    match fuel with
    | O => mret w
    | S fuel =>
      op ← idx code ip;
      '(next_ip, line) ← instr code ip op;
      w ← match line with Some l => writeln w l | None => mret w end;
      write_legacy instr fuel code next_ip w
    end
  else mret w.

Definition legacy_title (filename : list Z) (code_len str_pool_len : Z) : list (list Z) :=
  [bytes "=== Legacy PulseLang Bytecode Disassembly: " ++ filename ++ bytes " ===";
   bytes "Magic: PULS | Version: 2 | Code: " ++ show_Z code_len ++ bytes " B | StringPool: "
     ++ show_Z str_pool_len ++ bytes " B";
   bytes "OFFSET  OPCODE              OPERANDS";
   bytes "---------------------------------------------------"].

Definition legacy_listing (bin filename : list Z) (w : W) : result W :=
  code_len ← read_u16 bin 6;
  str_pool_len ← read_u16 bin 8;
  w ← writelns w (legacy_title filename code_len str_pool_len);
  let code_end := Z.min (PULSE_HEADER_SIZE + code_len) (len bin) in
  code ← slice bin PULSE_HEADER_SIZE code_end;
  write_legacy legacy_instr (length code) code 0 w.

(** [bin.len() >= PULSE_HEADER_SIZE && &bin[0..4] == &PULSE_BIN_MAGIC]. *)
Definition has_legacy_magic (bin : list Z) : bool :=
  (PULSE_HEADER_SIZE <=? len bin) && bytes_eqb (sub bin 0 4) PULSE_BIN_MAGIC.

Definition disassemble_px64_with_filename (bin filename : list Z) (w : W) : result W :=
  if has_magic bin then px64_listing bin filename w
  else if has_legacy_magic bin then legacy_listing bin filename w
  else err "ERR_BINARY_INVALID_MAGIC" "Invalid executable binary magic (expected PX64)".

Definition disassemble_px64 (bin : list Z) (w : W) : result W :=
  disassemble_px64_with_filename bin (bytes "binary") w.
End Writer.

(** A [String] takes every text. *)
Definition push_str (s t : list Z) : option (list Z) := Some (s ++ t).

Definition disasm_with_filename (bin filename : list Z) : result (list Z) :=
  disassemble_px64_with_filename push_str bin filename [].

Definition disasm (bin : list Z) : result (list Z) := disasm_with_filename bin (bytes "binary").
