(* ===== verification/DisasmProps.v ===== *)
(** What the listing of a program contains: the code, with the operands that no
    instruction reads set to zero, which runs as the code does. *)

From S2P Require Import Prelude RustStd RustStr Isa Token Error VmState VmExec Vm VmRun LexerProps Binary Disasm.
Local Open Scope Z_scope.

(** * Reading a listing back *)

Definition hex_val (c : Z) : option Z :=
  if in_range 48 c 57 then Some (c - 48) else if in_range 97 c 102 then Some (c - 87) else None.

Definition hex_byte (h l : Z) : option Z :=
  h ← hex_val h; l ← hex_val l; mret (h * 16 + l).

(** The bytes in the hexadecimal columns of a row. *)
Definition row_bytes (line : list Z) : option (list Z) :=
  match drop 8 line with
  | a :: b :: _ :: c :: d :: _ :: e :: f :: _ :: g :: h :: _ =>
    b0 ← hex_byte a b; b1 ← hex_byte c d; b2 ← hex_byte e f; b3 ← hex_byte g h;
    mret [b0; b1; b2; b3]
  | _ => None
  end.

Fixpoint rows_bytes (lines : list (list Z)) : option (list Z) :=
  match lines with
  | [] => mret []
  | l :: lines => b ← row_bytes l; bs ← rows_bytes lines; mret (b ++ bs)
  end.

(** Five lines of title, the rows, and nothing behind the last line feed. *)
Definition reassemble (text : list Z) : option (list Z) :=
  rows_bytes (removelast (drop 5 (split 10 text))).

(** * The operands that are read *)

Definition one_of (op : Z) (ops : list Z) : bool := existsb (Z.eqb op) ops.

Lemma not_one_of op ops : one_of op ops = false <-> op ∉ ops.
Proof.
  unfold one_of. induction ops as [|k ops IH]; cbn [existsb].
  - split; [by intros _ ?%elem_of_nil | done].
  - rewrite orb_false_iff, IH, Z.eqb_neq, not_elem_of_cons. done.
Qed.

Definition no_operands : list Z :=
  [PX64_OP_NOP; PX64_OP_WITHIN_END; PX64_OP_DROP; PX64_OP_HALT; PX64_OP_RET].
Definition hides_rd (op : Z) : bool := one_of op (no_operands ++ [PX64_OP_JMP; PX64_OP_CALL]).
Definition hides_rs1 (op : Z) : bool := one_of op (no_operands ++ [PX64_OP_WITHIN_START; PX64_OP_ASSERT]).
Definition hides_rs2 (op : Z) : bool :=
  hides_rs1 op || one_of op [PX64_OP_MOV_REG; PX64_OP_STRUCT_DEF].

Definition unless (b : bool) (v : Z) : Z := if b then 0 else v.

Definition used (op rd rs1 rs2 : Z) : columns :=
  (op, unless (hides_rd op) rd, unless (hides_rs1 op) rs1, unless (hides_rs2 op) rs2).

(** The code with its unread operands set to zero and a cut-off tail removed. *)
Fixpoint used_code (code : list Z) : list Z :=
  match code with
  | op :: rd :: rs1 :: rs2 :: code =>
    let '(b0, b1, b2, b3) := used op rd rs1 rs2 in b0 :: b1 :: b2 :: b3 :: used_code code
  | _ => []
  end.

(** * Plain text *)

Notation plain := (Forall (fun c : Z => c <> 10)).

Lemma bool_plain l : forallb (fun c => negb (c =? 10)) l = true -> plain l.
Proof.
  induction l as [|c l IH]; [constructor|]. cbn [forallb]. intros [Hc H]%andb_true_iff.
  constructor; [by intros -> | by apply IH].
Qed.

Lemma plain_not_in l : plain l -> 10 ∉ l.
Proof. intros H Hi. rewrite Forall_forall in H. by apply (H 10). Qed.

Lemma digits_plain l : digits l -> plain l.
Proof.
  intros H. eapply Forall_impl; [exact H|]. intros c Hc ->. done.
Qed.

Lemma show_Z_plain n : plain (show_Z n).
Proof.
  unfold show_Z. case_match; [constructor; [done|]|]; apply digits_plain, dec_digits_digits; constructor.
Qed.

Lemma hex_digit_plain d : 0 <= d < 16 -> hex_digit d <> 10.
Proof. unfold hex_digit. case_match; lia. Qed.

Lemma hex_digits_plain fuel n acc : plain acc -> plain (hex_digits fuel n acc).
Proof.
  revert n acc. induction fuel as [|fuel IH]; intros n acc H; [done|]. cbn [hex_digits].
  assert (plain (hex_digit (n mod 16) :: acc)).
  { constructor; [|done]. apply hex_digit_plain, Z.mod_pos_bound. lia. }
  case_match; [done | by apply IH].
Qed.

Lemma show_hex_plain w n : plain (show_hex w n).
Proof.
  unfold show_hex. apply Forall_app. split; [by apply Forall_replicate|].
  apply hex_digits_plain. constructor.
Qed.

Lemma reg_plain r : plain (reg_str r).
Proof.
  unfold reg_str, px64_reg_name. repeat case_match; apply bool_plain; reflexivity.
Qed.

Lemma native_plain f : plain (bytes (px64_native_name f)).
Proof.
  unfold px64_native_name. repeat case_match; apply bool_plain; reflexivity.
Qed.

Create HintDb plain.
#[export] Hint Resolve show_Z_plain show_hex_plain reg_plain native_plain : plain.
#[export] Hint Extern 1 (plain (bytes _)) => apply bool_plain; reflexivity : plain.
#[export] Hint Extern 1 (plain comma) => apply bool_plain; reflexivity : plain.
#[export] Hint Extern 1 (plain (_ ++ _)) => apply Forall_app; split : plain.
#[export] Hint Extern 3 (plain (_ :: _)) => constructor; [done|] : plain.

(** * One row *)

Section Rows.
Context (native_name : Z -> string).
Hypothesis native_name_plain : forall f, plain (bytes (native_name f)).

Definition row_ok (op rd rs1 rs2 : Z) (r : result (columns * list Z)) : Prop :=
  forall c t, r = Ok (c, t) -> c = used op rd rs1 rs2 /\ plain t.

Lemma row_shown op rd rs1 rs2 b0 b1 b2 b3 t :
  used op rd rs1 rs2 = (b0, b1, b2, b3) -> plain t -> row_ok op rd rs1 rs2 (shown b0 b1 b2 b3 t).
Proof. intros E Hp c u H. unfold shown in H. apply ret_Ok in H. split; congruence. Qed.

Lemma row_if op rd rs1 rs2 k (x y : result (columns * list Z)) :
  row_ok k rd rs1 rs2 x -> (op <> k -> row_ok op rd rs1 rs2 y) ->
  row_ok op rd rs1 rs2 (if op =? k then x else y).
Proof. intros Hx Hy. destruct (Z.eqb_spec op k) as [->|Hn]; auto. Qed.

(** Each arm shows the operands that are read, on one line. *)
Lemma known_used cc pool op rd rs1 rs2 :
  row_ok op rd rs1 rs2 (known_instr native_name cc pool op rd rs1 rs2 (unknown_instr op rd rs1 rs2)).
Proof.
  unfold known_instr, unknown_instr. cbv zeta.
  repeat (apply row_if; [first [ apply row_shown; [reflexivity | auto 12 with plain] | idtac ] | intros ?]).
  - case_match.
    + intros c t (v & _ & Hv)%bind_Ok. revert c t Hv.
      apply row_shown; [reflexivity | auto 12 with plain].
    + apply row_shown; [reflexivity | auto 12 with plain].
  - apply row_shown; [|auto 12 with plain].
    unfold used, hides_rs2, hides_rs1, hides_rd, no_operands.
    rewrite !(proj2 (not_one_of op _)); [done | set_solver..].
Qed.
End Rows.

Lemma hex_val_digit d : 0 <= d < 16 -> hex_val (hex_digit d) = Some d.
Proof.
  intros Hd. assert (H : forallb (fun d => bool_decide (hex_val (hex_digit d) = Some d)) (seqZ 0 16) = true)
    by reflexivity.
  rewrite forallb_forall in H. specialize (H d). rewrite bool_decide_eq_true in H. apply H.
  apply list_elem_of_In, elem_of_seqZ. lia.
Qed.

Lemma show_hex_2 b : in_u8 b -> show_hex 2 b = [hex_digit (b / 16); hex_digit (b mod 16)].
Proof.
  unfold in_u8. intros Hb. assert (b / 16 < 16) by (apply Z.div_lt_upper_bound; lia).
  assert (0 <= b / 16) by (apply Z.div_pos; lia).
  unfold show_hex. cbn [hex_digits]. destruct (Z.ltb_spec b 16).
  - by rewrite Z.div_small by lia.
  - destruct (Z.ltb_spec (b / 16) 16); [|lia]. by rewrite (Z.mod_small (b / 16)) by lia.
Qed.

Lemma hex_byte_shown b :
  in_u8 b -> hex_byte (hex_digit (b / 16)) (hex_digit (b mod 16)) = Some b.
Proof.
  unfold in_u8. intros Hb. unfold hex_byte. pose proof (Z.div_mod b 16 ltac:(lia)).
  pose proof (Z.mod_pos_bound b 16 ltac:(lia)).
  assert (0 <= b / 16 < 16) by (split; [apply Z.div_pos | apply Z.div_lt_upper_bound]; lia).
  rewrite !hex_val_digit by done.
  simpl. f_equal. lia.
Qed.

(** Four digits are enough below 65536. *)
Lemma show_hex_4 n : 0 <= n < 2 ^ 16 -> length (show_hex 4 n) = 4%nat.
Proof.
  intros Hn. assert (H : forall m k, 0 <= m < 16 ^ k -> 0 < k -> 0 <= m / 16 < 16 ^ (k - 1)).
  { intros m k Hm Hk. split; [apply Z.div_pos; lia|]. apply Z.div_lt_upper_bound; [lia|].
    rewrite <-Z.pow_succ_r by lia. replace (Z.succ (k - 1)) with k by lia. lia. }
  pose proof (H n 4 ltac:(lia) ltac:(lia)) as H3. pose proof (H _ 3 H3 ltac:(lia)) as H2.
  pose proof (H _ 2 H2 ltac:(lia)) as H1.
  unfold show_hex. cbn [hex_digits]. rewrite length_app, length_replicate.
  repeat case_match; simpl; lia.
Qed.

Lemma used_bytes op rd rs1 rs2 :
  in_u8 op -> in_u8 rd -> in_u8 rs1 -> in_u8 rs2 ->
  let '(b0, b1, b2, b3) := used op rd rs1 rs2 in in_u8 b0 /\ in_u8 b1 /\ in_u8 b2 /\ in_u8 b3.
Proof. unfold used, unless, in_u8. repeat case_match; lia. Qed.

(** The columns of a row are read back. *)
Lemma row_bytes_row op_ip b0 b1 b2 b3 t :
  0 <= op_ip < 2 ^ 16 -> in_u8 b0 -> in_u8 b1 -> in_u8 b2 -> in_u8 b3 ->
  row_bytes (row op_ip (b0, b1, b2, b3) t) = Some [b0; b1; b2; b3].
Proof.
  intros Hi H0 H1 H2 H3. unfold row. pose proof (show_hex_4 op_ip Hi) as H4.
  destruct (show_hex 4 op_ip) as [|a [|b [|c [|d [|]]]]]; [done..| |done].
  rewrite !show_hex_2 by done. change (bytes ":   ") with [58; 32; 32; 32].
  change (bytes " ") with [32]. change (bytes "  ") with [32; 32].
  unfold row_bytes. cbn [app drop].
  rewrite !hex_byte_shown by done. done.
Qed.

Lemma row_plain op_ip c t : plain t -> plain (row op_ip c t).
Proof. intros. destruct c as [[[b0 b1] b2] b3]. unfold row. auto 20 with plain. Qed.

(** * The whole listing *)

Definition with_lf (lines : list (list Z)) : list Z := concat (map (fun l => l ++ [10]) lines).

Lemma split_with_lf lines : Forall plain lines -> split 10 (with_lf lines) = lines ++ [[]].
Proof.
  induction 1 as [|l lines Hl _ IH]; [done|]. unfold with_lf. cbn [map concat].
  rewrite <-app_assoc. cbn [app]. rewrite (proj1 (split_app 10 [] _ l (plain_not_in l Hl))).
  fold (with_lf lines). by rewrite IH.
Qed.

Lemma with_lf_app a b : with_lf (a ++ b) = with_lf a ++ with_lf b.
Proof. unfold with_lf. by rewrite map_app, concat_app. Qed.

Lemma writeln_push w l : writeln push_str w l = Ok (w ++ l ++ [10]).
Proof. reflexivity. Qed.

(** Writing to a string appends the lines. *)
Lemma writelns_push lines w : writelns push_str w lines = Ok (w ++ with_lf lines).
Proof.
  revert w. induction lines as [|l lines IH]; intros w; [by rewrite app_nil_r|].
  cbn [writelns]. rewrite writeln_push. cbn [mbind outcome_bind]. rewrite IH.
  unfold with_lf. cbn [map concat]. by rewrite !app_assoc.
Qed.

Lemma title_plain f a b c d e : plain f -> Forall plain (title f a b c d e).
Proof. intros. unfold title. repeat apply Forall_cons_2; auto 20 with plain. Qed.

Lemma quad_ind (P : list Z -> Prop) :
  (forall c, (length c < 4)%nat -> P c) ->
  (forall a b c d l, P l -> P (a :: b :: c :: d :: l)) -> forall c, P c.
Proof.
  intros H0 H4 c. remember (length c) as n eqn:Hn. revert c Hn.
  induction n as [n IH] using lt_wf_ind. intros c ->.
  destruct c as [|a [|b [|x [|d l]]]]; try (apply H0; simpl; lia).
  apply H4, (IH (length l)); simpl; lia.
Qed.

Lemma short_rows {W} (put : W -> list Z -> option W) ins ip c w :
  (length c < 4)%nat -> write_rows put ins ip c w = Ok w.
Proof. destruct c as [|? [|? [|? [|]]]]; simpl; try lia; done. Qed.

Lemma short_used c : (length c < 4)%nat -> used_code c = [].
Proof. destruct c as [|? [|? [|? [|]]]]; simpl; try lia; done. Qed.

(** The rows of some code hold its used part. *)
Lemma write_rows_push ins code : forall ip w w',
  (forall op rd rs1 rs2, row_ok op rd rs1 rs2 (ins op rd rs1 rs2)) ->
  bytes_ok code -> 0 <= ip -> ip + len code <= 2 ^ 16 ->
  write_rows push_str ins ip code w = Ok w' ->
  exists lines, w' = w ++ with_lf lines /\ Forall plain lines /\ rows_bytes lines = Some (used_code code).
Proof.
  induction code as [code Hc|op rd rs1 rs2 code IH] using quad_ind; intros ip w w' Hins Hb Hi Hl.
  - rewrite short_rows, short_used by done. intros [= <-].
    exists []. by rewrite app_nil_r.
  - rewrite !len_cons in Hl. pose proof (len_nonneg code). cbn [write_rows].
    intros ([c t] & Hi1 & (w1 & [= <-] & Hw)%bind_Ok)%bind_Ok.
    do 4 (apply Forall_cons in Hb as [? Hb]).
    apply (IH (ip + 4)) in Hw as (lines & -> & Hp & Hr); [|first [done | lia]..].
    destruct (Hins _ _ _ _ _ _ Hi1) as [-> Ht].
    exists (row ip (used op rd rs1 rs2) t :: lines). split_and!.
    + unfold with_lf. cbn [map concat]. by rewrite !app_assoc.
    + constructor; [by apply row_plain | done].
    + pose proof (used_bytes op rd rs1 rs2) as Hu. cbn [rows_bytes used_code].
      destruct (used op rd rs1 rs2) as [[[b0 b1] b2] b3].
      destruct Hu as (? & ? & ? & ?); [done..|].
      rewrite row_bytes_row by (done || lia). simpl. by rewrite Hr.
Qed.

Lemma reassemble_lines ttl lines code :
  length ttl = 5%nat -> Forall plain ttl -> Forall plain lines -> rows_bytes lines = Some code ->
  reassemble (with_lf ttl ++ with_lf lines) = Some code.
Proof.
  intros Ht Hp Hl Hr. unfold reassemble. rewrite <-with_lf_app, split_with_lf by by apply Forall_app.
  rewrite <-app_assoc, <-Ht, drop_app_length, removelast_app by done. cbn. by rewrite app_nil_r.
Qed.

(** * When a listing is made *)

(** The header field at [i]. *)
Definition field (bin : list Z) (i : Z) : Z :=
  default 0 (getZ bin i) * 256 + default 0 (getZ bin (i + 1)).

(** The code that is listed: what the file holds of what the header declares. *)
Definition listed_code (bin : list Z) : list Z :=
  sub bin 16 (Z.min (16 + field bin 6) (len bin)).

(** A constant beyond the sixty-fourth. *)
Definition beyond (cc op rs1 rs2 : Z) : bool :=
  (op =? PX64_OP_LDC) && (64 <=? rs1 * 256 + rs2) && (rs1 * 256 + rs2 <? cc).

Fixpoint loads_beyond (cc : Z) (code : list Z) : bool :=
  match code with
  | op :: rd :: rs1 :: rs2 :: code => beyond cc op rs1 rs2 || loads_beyond cc code
  | _ => false
  end.

Lemma read_field bin i : bytes_ok bin -> 0 <= i -> i + 2 <= len bin ->
  read_u16 bin i = Ok (field bin i) /\ 0 <= field bin i < 2 ^ 16.
Proof.
  intros Hb Hi Hl. unfold read_u16, field.
  destruct (@idx_in_range CompileError _ bin i ltac:(lia)) as (a & -> & Ha).
  destruct (@idx_in_range CompileError _ bin (i + 1) ltac:(lia)) as (b & -> & Hb').
  rewrite Ha, Hb'. apply (Forall_getZ _ _ _ _ Hb) in Ha, Hb'. unfold in_u8 in *.
  cbn. split; [by rewrite Z.mul_0_l || done | lia].
Qed.

Lemma fill_consts_ok n : forall i raw pool,
  0 <= i -> (i + Z.of_nat n) * 8 <= len raw -> i + Z.of_nat n <= len pool ->
  exists pool', fill_consts n i raw pool = Ok pool' /\ len pool' = len pool.
Proof.
  induction n as [|n IH]; intros i raw pool Hi Hr Hp; cbn [fill_consts]; [by eexists|].
  rewrite slice_in_range by lia. cbn [mbind outcome_bind].
  rewrite upd_in_range by lia. cbn [mbind outcome_bind].
  destruct (IH (i + 1) raw (setZ pool i (as_i64 (be_to_Z (sub raw (i * 8) ((i + 1) * 8))))))
    as (pool' & -> & E); rewrite ?len_setZ in *; try lia.
  by exists pool'.
Qed.

Lemma shown_consts_ok bin start cc count :
  0 <= start -> 0 <= count <= cc -> count <= 64 ->
  exists pool, shown_consts bin start cc count = Ok pool /\ len pool = 64.
Proof.
  intros Hs Hc H6. unfold shown_consts. destruct (Z.leb_spec (start + cc * 8) (len bin)).
  - rewrite slice_in_range by lia. cbn [mbind outcome_bind].
    destruct (fill_consts_ok (Z.to_nat count) 0 (sub bin start (start + cc * 8)) (replicate 64 0))
      as (pool & -> & E); [lia | rewrite len_sub; lia | rewrite len_replicate; lia |].
    by exists pool.
  - by eexists.
Qed.

(** The listing of a file with the magic number is its title and its rows. *)
Lemma px64_listing_rows {W} (put : W -> list Z -> option W) bin f w :
  bytes_ok bin -> has_magic bin = true ->
  exists pool, len pool = 64 /\
    px64_listing put bin f w =
      (w ← writelns put w (title f (field bin 4) (field bin 6) (field bin 12) (field bin 8) (field bin 10));
       write_rows put (instr px64_native_name (field bin 10) pool) 0 (listed_code bin) w).
Proof.
  intros Hb Hm. apply andb_true_iff in Hm as [Hl%Z.leb_le _]. change PX64_HEADER_SIZE with 16 in Hl.
  destruct (read_field bin 4 Hb) as [E4 _]; [lia..|]. destruct (read_field bin 6 Hb) as [E6 H6]; [lia..|].
  destruct (read_field bin 8 Hb) as [E8 H8]; [lia..|]. destruct (read_field bin 10 Hb) as [E10 H10]; [lia..|].
  destruct (read_field bin 12 Hb) as [E12 _]; [lia..|].
  destruct (shown_consts_ok bin (16 + field bin 6 + field bin 8) (field bin 10) (Z.min (field bin 10) 64))
    as (pool & Ep & Hp); [lia..|].
  exists pool. split; [done|]. unfold px64_listing. rewrite E4, E6, E8, E10, E12.
  cbn [mbind outcome_bind]. change PX64_HEADER_SIZE with 16. unfold listed_code.
  destruct (writelns put w _) as [w1| |]; [|done..]. cbn [mbind outcome_bind]. rewrite Ep.
  cbn [mbind outcome_bind].
  rewrite slice_in_range by lia. done.
Qed.

Lemma some_if (b : bool) {A} (x y : result A) :
  (exists a, x = Ok a) -> (exists a, y = Ok a) -> exists a, (if b then x else y) = Ok a.
Proof. by destruct b. Qed.

(** An instruction has a row unless it loads a constant beyond the array. *)
Lemma instr_result name cc pool op rd rs1 rs2 :
  len pool = 64 -> 0 <= rs1 * 256 + rs2 ->
  if beyond cc op rs1 rs2 then instr name cc pool op rd rs1 rs2 = Panic IndexOutOfBounds
  else exists x, instr name cc pool op rd rs1 rs2 = Ok x.
Proof.
  intros Hp Hi. unfold beyond. destruct (Z.eqb_spec op PX64_OP_LDC) as [->|Hn].
  - unfold instr, known_instr. cbv zeta. cbn [andb].
    destruct (Z.ltb_spec (rs1 * 256 + rs2) cc) as [Hc|Hc]; rewrite ?andb_false_r, ?andb_true_r; simpl.
    + destruct (Z.leb_spec 64 (rs1 * 256 + rs2)).
      * unfold idx. rewrite (proj2 (getZ_None pool (rs1 * 256 + rs2))) by lia. done.
      * destruct (@idx_in_range CompileError _ pool (rs1 * 256 + rs2) ltac:(lia)) as (v & -> & _).
        by eexists.
    + by eexists.
  - cbn [andb]. unfold instr, known_instr, unknown_instr. cbv zeta.
    apply Z.eqb_neq in Hn. rewrite Hn. repeat apply some_if; by eexists.
Qed.

(** The rows are written unless one of them loads a constant beyond the array. *)
Lemma write_rows_result name cc pool code : forall ip w,
  len pool = 64 -> bytes_ok code ->
  if loads_beyond cc code then write_rows push_str (instr name cc pool) ip code w = Panic IndexOutOfBounds
  else exists t, write_rows push_str (instr name cc pool) ip code w = Ok t.
Proof.
  induction code as [code Hc|op rd rs1 rs2 code IH] using quad_ind; intros ip w Hp Hb.
  - rewrite short_rows by done.
    destruct code as [|? [|? [|? [|]]]]; simpl in *; try lia; by eexists.
  - do 4 (apply Forall_cons in Hb as [? Hb]). unfold in_u8 in *.
    pose proof (instr_result name cc pool op rd rs1 rs2 Hp ltac:(lia)) as Hi.
    cbn [loads_beyond write_rows]. destruct (beyond cc op rs1 rs2); cbn [orb]; [by rewrite Hi|].
    destruct Hi as [[c t] ->]. cbn [mbind outcome_bind]. rewrite writeln_push. by apply IH.
Qed.

Lemma disasm_rows bin f :
  bytes_ok bin -> has_magic bin = true ->
  exists pool w, len pool = 64 /\ disasm_with_filename bin f =
    write_rows push_str (instr px64_native_name (field bin 10) pool) 0 (listed_code bin) w /\
    w = with_lf (title f (field bin 4) (field bin 6) (field bin 12) (field bin 8) (field bin 10)).
Proof.
  intros Hb Hm. destruct (px64_listing_rows push_str bin f [] Hb Hm) as (pool & Hp & E).
  exists pool. eexists. split; [done|]. split; [|reflexivity].
  unfold disasm_with_filename, disassemble_px64_with_filename. rewrite Hm, E, writelns_push. done.
Qed.

(** The text of a listing, read back. *)
Lemma listed_text bin f :
  bytes_ok bin -> 10 ∉ f -> has_magic bin = true -> loads_beyond (field bin 10) (listed_code bin) = false ->
  exists text, disasm_with_filename bin f = Ok text /\ reassemble text = Some (used_code (listed_code bin)).
Proof.
  intros Hb Hf Hm Hc. assert (Hpf : plain f) by (apply Forall_forall; intros c ? ->; done).
  assert (Hlc : bytes_ok (listed_code bin)) by apply Forall_sub, Hb.
  destruct (disasm_rows bin f Hb Hm) as (pool & w & Hp & -> & ->).
  pose proof (write_rows_result px64_native_name (field bin 10) pool (listed_code bin) 0
    (with_lf (title f (field bin 4) (field bin 6) (field bin 12) (field bin 8) (field bin 10))) Hp Hlc) as Hr.
  rewrite Hc in Hr. destruct Hr as [text Et]. exists text. split; [done|].
  apply write_rows_push in Et as (lines & -> & Hpl & Hr); [|intros; apply known_used, native_plain|done..|].
  - apply reassemble_lines; [done | by apply title_plain | done..].
  - apply andb_true_iff in Hm as [Hl%Z.leb_le _]. change PX64_HEADER_SIZE with 16 in Hl.
    destruct (read_field bin 6 Hb) as [_ H6]; [lia..|].
    unfold listed_code. rewrite len_sub by lia. lia.
Qed.

(** The branch for the older bytecode is never taken: its magic number is that
    of the container. *)
Lemma legacy_unreachable bin : has_magic bin = false -> has_legacy_magic bin = false.
Proof. exact id. Qed.

(** C24: what [disasm] returns, for any bytes: a file without the magic number is
    refused; otherwise there is a listing, of every complete instruction the file
    holds of the code it declares, except when the header declares more than
    sixty-four constants and an instruction loads one beyond them, which
    panics. *)
Theorem disasm_total bin f :
  bytes_ok bin ->
  if has_magic bin then
    if loads_beyond (field bin 10) (listed_code bin)
    then disasm_with_filename bin f = Panic IndexOutOfBounds
    else exists text, disasm_with_filename bin f = Ok text
  else exists e, disasm_with_filename bin f = Err e /\ Error.code e = "ERR_BINARY_INVALID_MAGIC"%string.
Proof.
  intros Hb. destruct (has_magic bin) eqn:Hm.
  - destruct (disasm_rows bin f Hb Hm) as (pool & w & Hp & -> & _).
    apply write_rows_result; [done|]. apply Forall_sub, Hb.
  - unfold disasm_with_filename, disassemble_px64_with_filename. rewrite Hm, legacy_unreachable by done.
    by eexists.
Qed.

(** A file that is no container, one whose instruction loads constant 64 of 65,
    and one that is cut off behind its first instruction. *)
Definition not_px64 : list Z := bytes "let $x = 1; let $y = 2;".
Definition many_constants : list Z := encode [PX64_OP_LDC; 1; 0; 64] [] (replicate 65 7).
Definition cut_off : list Z :=
  take 22 (encode [PX64_OP_MOV_IMM; 1; 0; 42; PX64_OP_HALT; 0; 0; 0] [] []).

Example disasm_total_witness :
  (exists e, disasm_with_filename not_px64 (bytes "a") = Err e) /\
  disasm_with_filename many_constants (bytes "b") = Panic IndexOutOfBounds /\
  (exists text, disasm_with_filename cut_off (bytes "c") = Ok text /\
     reassemble text = Some [PX64_OP_MOV_IMM; 1; 0; 42]).
Proof.
  split_and!.
  - destruct (disasm_total not_px64 (bytes "a") ltac:(compute_fact)) as (e & He & _). by exists e.
  - exact (disasm_total many_constants (bytes "b") ltac:(compute_fact)).
  - destruct (disasm_total cut_off (bytes "c") ltac:(compute_fact)) as (text & Ht).
    exists text. split; [exact Ht|]. vm_compute in Ht. injection Ht as <-. vm_compute. reflexivity.
Defined.
