(* ===== verification/DisasmRun.v ===== *)
(** The program that the listing of a program holds runs as the program does. *)

From S2P Require Import Prelude RustStd RustStr Isa Token Error VmState VmExec Vm VmRun LexerProps Binary Toolchain Disasm DisasmProps.
Local Open Scope Z_scope.

(** * Programs whose jumps keep the code aligned *)

Definition jumps : list Z := [PX64_OP_JMP; PX64_OP_JZ; PX64_OP_JNZ; PX64_OP_CALL].

Definition target_ok (op rs1 rs2 : Z) : bool :=
  negb (one_of op jumps) || ((rs1 * 256 + rs2) mod 4 =? 0).

Fixpoint jumps_aligned (code : list Z) : bool :=
  match code with
  | op :: _ :: rs1 :: rs2 :: code => target_ok op rs1 rs2 && jumps_aligned code
  | _ => true
  end.

Definition with_code (p : program) (c : list Z) : program :=
  mkProgram c (str_pool p) (const_pool p) (args p).

Definition word_aligned (a : Z) : Prop := 0 <= a /\ a mod 4 = 0.

(** The machine is between two instructions, and so are the returns it owes. *)
Definition aligned (m : vm) : Prop := word_aligned (ip m) /\ Forall word_aligned (call_stack m).

(** * Fetching *)

Lemma getZ_cons_4 (a b c d : Z) l i : 4 <= i -> getZ (a :: b :: c :: d :: l) i = getZ l (i - 4).
Proof.
  intros Hi. unfold getZ. rewrite !decide_True by lia.
  replace (Z.to_nat i) with (S (S (S (S (Z.to_nat (i - 4)))))) by lia. reflexivity.
Qed.

Lemma fetch_cons_4 (a b c d : Z) l s k r i :
  4 <= i -> fetch (mkProgram (a :: b :: c :: d :: l) s k r) i = fetch (mkProgram l s k r) (i - 4).
Proof.
  intros Hi. unfold fetch, idx. cbn [code]. rewrite !getZ_cons_4 by lia.
  replace (i + 1 - 4) with (i - 4 + 1) by lia. replace (i + 2 - 4) with (i - 4 + 2) by lia.
  by replace (i + 3 - 4) with (i - 4 + 3) by lia.
Qed.

Lemma used_code_cons op rd rs1 rs2 l :
  exists b1 b2 b3, used op rd rs1 rs2 = (op, b1, b2, b3) /\
    used_code (op :: rd :: rs1 :: rs2 :: l) = op :: b1 :: b2 :: b3 :: used_code l.
Proof. by eexists _, _, _. Qed.

Lemma len_used_code c : len (used_code c) <= len c < len (used_code c) + 4.
Proof.
  induction c as [c Hc|op rd rs1 rs2 c IH] using quad_ind.
  - rewrite short_used by done. unfold len. simpl. lia.
  - destruct (used_code_cons op rd rs1 rs2 c) as (b1 & b2 & b3 & _ & ->). rewrite !len_cons. lia.
Qed.

(** At an aligned position both programs have an instruction or neither has,
    and it is the same up to what is not read. *)
Lemma fetch_used code s k r : forall i,
  bytes_ok code -> jumps_aligned code = true -> word_aligned i -> i + 4 <= len code ->
  i + 4 <= len (used_code code) /\
  exists op rd rs1 rs2, fetch (mkProgram code s k r) i = Ok (op, rd, rs1, rs2) /\
    fetch (mkProgram (used_code code) s k r) i = Ok (used op rd rs1 rs2) /\
    target_ok op rs1 rs2 = true /\ 0 <= rs1 * 256 + rs2.
Proof.
  induction code as [c Hc|op rd rs1 rs2 c IH] using quad_ind; intros i Hb Hj [Hi Ha] Hl.
  - unfold len in Hl. lia.
  - destruct (used_code_cons op rd rs1 rs2 c) as (b1 & b2 & b3 & Eu & ->).
    do 4 (apply Forall_cons in Hb as [? Hb]). unfold in_u8 in *.
    cbn [jumps_aligned] in Hj. apply andb_true_iff in Hj as [Ht Hj].
    rewrite !len_cons in *. pose proof (len_nonneg (used_code c)).
    destruct (decide (i = 0)) as [->|Hne].
    + split; [lia|]. exists op, rd, rs1, rs2. rewrite Eu. split_and!; [reflexivity..|done|lia].
    + pose proof (Z.div_mod i 4 ltac:(lia)).
      destruct (IH (i - 4) Hb Hj) as [Hlu (op' & rd' & r1 & r2 & E1 & E2 & Ht' & Hn)].
      * split; [lia|]. replace (i - 4) with (i + (-1) * 4) by lia. by rewrite Z.mod_add.
      * lia.
      * split; [lia|]. exists op', rd', r1, r2. by rewrite !fetch_cons_4 by lia.
Qed.

(** * Executing *)

Lemma if_same (op k : Z) {A} (x x' y y' : A) :
  (op = k -> x = x') -> y = y' -> (if op =? k then x else y) = (if op =? k then x' else y').
Proof. intros Hx ->. destruct (Z.eqb_spec op k); auto. Qed.

Ltac eval_hides :=
  repeat match goal with
  | |- context [hides_rd ?k] => let b := eval vm_compute in (hides_rd k) in change (hides_rd k) with b
  | |- context [hides_rs1 ?k] => let b := eval vm_compute in (hides_rs1 k) in change (hides_rs1 k) with b
  | |- context [hides_rs2 ?k] => let b := eval vm_compute in (hides_rs2 k) in change (hides_rs2 k) with b
  end.

(** An instruction does not read the operands that the listing hides. *)
Lemma exec_used h p c m op rd rs1 rs2 b1 b2 b3 :
  used op rd rs1 rs2 = (op, b1, b2, b3) ->
  exec h (with_code p c) m op b1 b2 b3 = exec h p m op rd rs1 rs2.
Proof.
  unfold used. intros [= <- <- <-]. unfold exec. cbv zeta.
  repeat (apply if_same; [intros ->; eval_hides; reflexivity|]). reflexivity.
Qed.

(** * Where the machine goes *)

(** The position and the returns owed. *)
Definition control (m : vm) : Z * list Z := (ip m, call_stack m).

Definition stays (m : vm) (r : result vm) : Prop := forall m', r = Ok m' -> control m' = control m.
Definition stays_flow (m : vm) (r : result (flow * vm)) : Prop :=
  forall f m', r = Ok (f, m') -> control m' = control m.

Lemma control_set_reg m r v : control (set_reg m r v) = control m.
Proof. unfold set_reg. by case_match. Qed.

Lemma control_alu2 m rd rs1 f : control (alu2 m rd rs1 f) = control m.
Proof. unfold alu2. case_match; [apply control_set_reg | done]. Qed.

Lemma control_alu3 m rd rs1 rs2 f : control (alu3 m rd rs1 rs2 f) = control m.
Proof. unfold alu3. case_match; [apply control_set_reg | done]. Qed.

Lemma control_uptime h m v m1 : get_uptime_ns h m = (v, m1) -> control m1 = control m.
Proof.
  unfold get_uptime_ns, host_tsc.
  destruct (replay_config m) as [[[] ? ? ? ?]|]; simpl; by intros [= <- <-].
Qed.

Lemma control_tsc h m v m1 : get_tsc h m = (v, m1) -> control m1 = control m.
Proof.
  unfold get_tsc, host_tsc.
  destruct (replay_config m) as [[[] ? ? ? ?]|]; simpl; by intros [= <- <-].
Qed.

Lemma stays_ret m m' : control m' = control m -> stays m (mret m').
Proof. by intros H m'' <-%ret_Ok. Qed.
Lemma stays_err m e : stays m (Err e).
Proof. by intros ??. Qed.
Lemma stays_bind {A} m (r : result A) (f : A -> result vm) :
  (forall a, r = Ok a -> stays m (f a)) -> stays m (r ≫= f).
Proof. intros H m' (a & Ha & Hf)%bind_Ok. by eapply H. Qed.
Lemma stays_if m (b : bool) (x y : result vm) : stays m x -> stays m y -> stays m (if b then x else y).
Proof. by destruct b. Qed.
Lemma stays_next m r : stays m r -> stays_flow m (next r).
Proof. intros H f m' (a & Ha & E%ret_Ok)%bind_Ok. injection E as _ <-. by apply H. Qed.
Lemma stays_flow_if m (b : bool) (x y : result (flow * vm)) :
  stays_flow m x -> stays_flow m y -> stays_flow m (if b then x else y).
Proof. by destruct b. Qed.

#[export] Hint Resolve control_set_reg control_alu2 control_alu3 : control.

Ltac stays_solve :=
  repeat match goal with
  | |- stays _ (if _ then _ else _) => apply stays_if
  | |- stays _ (err _ _) => apply stays_err
  | |- stays _ (_ ≫= _) => apply stays_bind; intros
  | |- stays _ (mret _) => apply stays_ret
  | |- control _ = control _ => progress (repeat case_match)
  end; first [done | by auto with control | by rewrite control_set_reg].

Definition stays_nat (m : vm) (r : result (Z * vm)) : Prop :=
  forall v m', r = Ok (v, m') -> control m' = control m.

Lemma stays_nat_if m (b : bool) (x y : result (Z * vm)) :
  stays_nat m x -> stays_nat m y -> stays_nat m (if b then x else y).
Proof. by destruct b. Qed.
Lemma stays_nat_mret m (r : Z * vm) : control (snd r) = control m -> stays_nat m (mret r).
Proof. intros H w m'' E%ret_Ok. by subst. Qed.
Lemma stays_nat_pure m r : stays_nat m (pure_native m r).
Proof. intros v m' (a & _ & E%ret_Ok)%bind_Ok. by injection E as <- <-. Qed.

Lemma stays_FILE_WRITE h p m a v : stays_nat m (native_FILE_WRITE h p m a v).
Proof.
  intros w m' (c & _ & E%ret_Ok)%bind_Ok. revert E. unfold query_host.
  by repeat case_match; intros [= <- <-].
Qed.

Lemma stays_VRAM_WRITE m a v : stays_nat m (native_VRAM_WRITE m a v).
Proof.
  intros w m'. unfold native_VRAM_WRITE.
  intros (o & _ & (x & _ & (s & _ & H)%bind_Ok)%bind_Ok)%bind_Ok. revert H.
  repeat case_match; [done | | by intros [= <- <-]].
  intros (b & _ & E%ret_Ok)%bind_Ok. by injection E as <- <-.
Qed.

Lemma stays_native h p m f a v : stays_nat m (native h p m f a v).
Proof.
  unfold native.
  repeat match goal with
  | |- stays_nat _ (if _ then _ else _) => apply stays_nat_if
  end;
    first [ apply stays_nat_pure | apply stays_FILE_WRITE | apply stays_VRAM_WRITE
          | apply stays_nat_mret ]; try done.
  - simpl. unfold native_PRINTLN. by case_match.
  - destruct (get_tsc h m) eqn:E. by apply control_tsc in E.
  - unfold native_FILE_EXISTS, query_host. by case_match.
  - destruct (get_uptime_ns h m) eqn:E. by apply control_uptime in E.
Qed.

Lemma stays_CALL_NAT h p m rd rs1 rs2 : stays m (exec_CALL_NAT h p m rd rs1 rs2).
Proof.
  apply stays_bind. intros [v m1] Hn. apply stays_native in Hn.
  apply stays_ret. by rewrite control_set_reg.
Qed.

Lemma stays_WITHIN_START h m rd : stays m (exec_WITHIN_START h m rd).
Proof.
  unfold exec_WITHIN_START. destruct (get_uptime_ns h m) as [now m1] eqn:E.
  apply control_uptime in E. apply stays_if; [|by apply stays_ret].
  apply stays_bind. intros ds _. by apply stays_ret.
Qed.

Lemma stays_DROP h m : stays m (exec_DROP h m).
Proof.
  unfold exec_DROP. apply stays_if; [|by apply stays_ret]. apply stays_bind. intros dl _.
  destruct (get_uptime_ns h m) as [now m1] eqn:E. apply control_uptime in E.
  apply stays_ret. by case_match.
Qed.

(** No other instruction moves the machine. *)
Lemma exec_stays h p m op rd rs1 rs2 :
  one_of op (PX64_OP_RET :: jumps) = false -> stays_flow m (exec h p m op rd rs1 rs2).
Proof.
  intros Hj. apply not_one_of in Hj. unfold jumps in Hj. rewrite !not_elem_of_cons in Hj.
  destruct Hj as (H1 & H2 & H3 & H4 & H5 & _). apply Z.eqb_neq in H1, H2, H3, H4, H5.
  unfold exec. rewrite H1, H2, H3, H4, H5.
  repeat match goal with
  | |- stays_flow _ (if _ then _ else _) => apply stays_flow_if
  | |- stays_flow _ (next _) => apply stays_next
  end.
  all: try (first [ apply stays_CALL_NAT | apply stays_WITHIN_START | apply stays_DROP ]).
  all: try (autounfold with px64; stays_solve).
  all: by intros f m' [= _ <-].
Qed.

(** * Running *)

Lemma word_aligned_u16 a : word_aligned a -> word_aligned (as_u16 a).
Proof.
  intros [H0 H4]. unfold as_u16, wrapU. pose proof (Z.mod_pos_bound a (2 ^ 16) ltac:(lia)).
  split; [lia|]. pose proof (Z.div_mod a (2 ^ 16) ltac:(lia)) as E. pose proof (Z.div_mod a 4 ltac:(lia)) as E4.
  replace (a mod 2 ^ 16) with ((a / 4 - 16384 * (a / 2 ^ 16)) * 4) by lia. by apply Z.mod_mul.
Qed.

Lemma aligned_stays m m' : control m' = control m -> aligned m -> aligned m'.
Proof. unfold control, aligned. by intros [= -> ->]. Qed.

Lemma aligned_set_ip m a : aligned m -> word_aligned a -> aligned (set_ip m a).
Proof. intros [_ H] Ha. by split. Qed.

Lemma CALL_aligned m imm m' : aligned m -> word_aligned imm -> exec_CALL m imm = Ok m' -> aligned m'.
Proof.
  intros [Hi Hs] Ha. unfold exec_CALL. case_match; [done|].
  intros (cs & [_ ->]%upd_Ok & (fs & _ & <-%ret_Ok)%bind_Ok)%bind_Ok. split; [done|]. cbn.
  apply Forall_setZ; [done | by apply word_aligned_u16].
Qed.

Lemma RET_aligned m f m' : aligned m -> exec_RET m = Ok (f, m') -> aligned m'.
Proof.
  intros [Hi Hs]. unfold exec_RET. case_match; [by intros [= _ <-]|]. cbv zeta.
  intros (ri & Hri%idx_Ok & (fr & _ & E%ret_Ok)%bind_Ok)%bind_Ok. injection E as _ <-.
  apply aligned_set_ip; [|by eapply Forall_getZ].
  eapply aligned_stays; [apply control_set_reg | done].
Qed.

Lemma exec_aligned h p m op rd rs1 rs2 f m' :
  aligned m -> target_ok op rs1 rs2 = true -> 0 <= rs1 * 256 + rs2 ->
  exec h p m op rd rs1 rs2 = Ok (f, m') -> aligned m'.
Proof.
  intros Hm Ht H0. destruct (one_of op (PX64_OP_RET :: jumps)) eqn:Ho.
  - unfold target_ok in Ht. unfold jumps, one_of in *. cbn [existsb] in *.
    destruct (Z.eqb_spec op PX64_OP_RET) as [->|]; [by apply RET_aligned|]. cbn [orb] in Ho.
    rewrite Ho in Ht. cbn [negb orb] in Ht. apply Z.eqb_eq in Ht.
    assert (Ha : word_aligned (rs1 * 256 + rs2)) by done.
    destruct (Z.eqb_spec op PX64_OP_JMP) as [->|].
    { intros [= _ <-]. by apply aligned_set_ip. }
    destruct (Z.eqb_spec op PX64_OP_JZ) as [->|].
    { intros [= _ <-]. unfold exec_JZ. case_match; [by apply aligned_set_ip | done]. }
    destruct (Z.eqb_spec op PX64_OP_JNZ) as [->|].
    { intros [= _ <-]. unfold exec_JNZ. case_match; [by apply aligned_set_ip | done]. }
    destruct (Z.eqb_spec op PX64_OP_CALL) as [->|]; [|done].
    intros (m1 & Hc & E%ret_Ok)%bind_Ok. injection E as _ <-. by eapply CALL_aligned.
  - intros H. apply exec_stays in H; [|done]. by eapply aligned_stays.
Qed.

Lemma aligned_fetched m : aligned m -> aligned (fetched m).
Proof.
  intros [[Hi Ha] Hs]. split; [|done]. split; [cbn; lia|]. cbn.
  replace (ip m + 4) with (ip m + 1 * 4) by lia. by rewrite Z.mod_add.
Qed.

(** One step of the two programs, from a machine between two instructions. *)
Lemma step_used h p m :
  bytes_ok (code p) -> jumps_aligned (code p) = true -> aligned m ->
  step h (with_code p (used_code (code p))) m = step h p m /\
  (forall m', step h p m = (m', Ok Next) -> aligned m').
Proof.
  intros Hb Hj Hm. destruct p as [c s k r]. cbn [code] in *. pose proof (len_used_code c) as Hl.
  destruct (decide (ip m + 4 <= len c)) as [Hi|Hi].
  - destruct (fetch_used c s k r (ip m) Hb Hj (proj1 Hm) Hi)
      as (Hu & op & rd & rs1 & rs2 & E1 & E2 & Ht & H0).
    destruct (decide (steps m < max_steps m)) as [Hs|Hs].
    + destruct (used_code_cons op rd rs1 rs2 []) as (b1 & b2 & b3 & Eu & _). rewrite Eu in E2.
      rewrite (step_exec h _ m op b1 b2 b3), (step_exec h (mkProgram c s k r) m op rd rs1 rs2) by done.
      rewrite (exec_used _ _ _ _ _ _ _ _ _ _ _ Eu). split; [done|]. intros m'.
      case_match eqn:Ex; [|done..]. case_match. intros [= <- ->].
      eapply exec_aligned; [by apply aligned_fetched | done..].
    + unfold step. cbn [code with_code]. rewrite !(proj2 (Z.ltb_ge _ _)) by done.
      rewrite (proj2 (Z.leb_le _ _)) by lia. split; [done|]. by intros m'.
  - unfold step. cbn [code with_code]. rewrite !(proj2 (Z.ltb_lt _ _)) by lia.
    split; [done|]. by intros m'.
Qed.

Lemma run_used fuel h p : forall m,
  bytes_ok (code p) -> jumps_aligned (code p) = true -> aligned m ->
  run_with_output fuel h (with_code p (used_code (code p))) m = run_with_output fuel h p m.
Proof.
  induction fuel as [|fuel IH]; intros m Hb Hj Hm; [done|]. cbn [run_with_output].
  destruct (step_used h p m Hb Hj Hm) as [-> Hn]. destruct (step h p m) as [m' [[]| |]]; try done.
  apply IH; auto.
Qed.

Lemma new_aligned : aligned new.
Proof. split; [done|]. by apply Forall_replicate. Qed.

(** The code of a file that loads is the code that is listed. *)
Lemma loaded_code bin args p :
  bytes_ok bin -> load_binary bin args = Ok p -> has_magic bin = true /\ code p = listed_code bin.
Proof.
  intros Hb. unfold load_binary. destruct (has_magic bin) eqn:Hm; [|done].
  apply andb_true_iff in Hm as [Hl%Z.leb_le _]. change PX64_HEADER_SIZE with 16 in Hl.
  destruct (read_field bin 4 Hb) as [-> _]; [lia..|]. cbn [mbind outcome_bind].
  case_match; [done|]. unfold read_sections.
  destruct (read_field bin 6 Hb) as [-> H6]; [lia..|]. destruct (read_field bin 8 Hb) as [-> H8]; [lia..|].
  destruct (read_field bin 10 Hb) as [-> H10]; [lia..|]. cbn [mbind outcome_bind].
  change PX64_HEADER_SIZE with 16. case_match eqn:Hlen; [done|]. apply Z.ltb_ge in Hlen.
  intros (o & (cd & Hcd & (sp & _ & (raw & _ & (cs & _ & E%ret_Ok)%bind_Ok)%bind_Ok)%bind_Ok)%bind_Ok
    & Hp)%bind_Ok.
  rewrite slice_in_range in Hcd by lia. injection Hcd as <-.
  subst o. apply ret_Ok in Hp as <-. split; [done|]. cbn [code]. unfold listed_code. by rewrite Z.min_l by lia.
Qed.

(** C19: the listing of a program contains the program: of a file that loads,
    whose jumps lead to whole instructions, the hexadecimal columns of the
    listing read back as a code that runs exactly as the file's own does (the
    same steps, output and outcome, on every host), although the listing shows
    zero for the operands an instruction does not read. *)
Theorem listing_runs_alike bin args p f :
  bytes_ok bin -> 10 ∉ f -> load_binary bin args = Ok p ->
  jumps_aligned (code p) = true -> loads_beyond (field bin 10) (code p) = false ->
  exists text c, disasm_with_filename bin f = Ok text /\ reassemble text = Some c /\
    len c <= len (code p) < len c + 4 /\
    forall fuel h, run_with_output fuel h (with_code p c) new = run_with_output fuel h p new.
Proof.
  intros Hb Hf Hp Hj Hc. destruct (loaded_code bin args p Hb Hp) as [Hm Ec].
  destruct (listed_text bin f Hb Hf Hm) as (text & Et & Er); [by rewrite <-Ec|].
  exists text, (used_code (code p)). rewrite Ec at 1. split_and!; [done..|apply len_used_code|apply len_used_code|].
  intros fuel h. apply run_used; [|done|apply new_aligned]. rewrite Ec. apply Forall_sub, Hb.
Qed.

(** A compiled program with a function, a loop, a condition and a string. *)
Definition listed_source : list Z :=
  bytes "fn twice($n) { return $n + $n; } let mut $s = 0; for $i in 0..4 { if $i != 2 { $s += twice($i); } } @print("
    ++ [34] ++ bytes "s: " ++ [34] ++ bytes "); @println($s);".

Definition listed_binary : list Z :=
  match compile_pulse_to_binary_with_tokens true listed_source (replicate 128 empty_token) (replicate 600 0) with
  | Ok (size, buf) => take (Z.to_nat size) buf
  | _ => []
  end.

Definition listed_program : program := default (mkProgram [] [] [] []) (match load_binary listed_binary [] with Ok p => Some p | _ => None end).

Example listing_runs_alike_witness :
  exists text c m, disasm_with_filename listed_binary (bytes "twice.bin") = Ok text /\ reassemble text = Some c /\
    run_with_output 200 (no_std_host (fun _ => 0)) (with_code listed_program c) new = Some (m, Ok tt) /\
    output m = bytes "s: 8" ++ [10].
Proof.
  destruct (listing_runs_alike listed_binary [] listed_program (bytes "twice.bin"))
    as (text & c & Ht & Hc & _ & Hrun); [compute_fact | compute_fact | vm_compute; reflexivity..|].
  exists text, c.
  destruct (run_with_output 200 (no_std_host (fun _ => 0)) listed_program new) as [[m r]|] eqn:Er;
    [|vm_compute in Er; discriminate Er].
  exists m. split; [exact Ht|]. split; [exact Hc|]. rewrite Hrun, Er.
  vm_compute in Er. injection Er as <- <-. split; reflexivity.
Defined.
