(* ===== verification/KernelDisasm.v ===== *)
(** The disassembler of the kernel's shell ([disasm] in kernel/src/shell.rs), and
    where its listings are those of the library's. *)

From S2P Require Import Prelude RustStd RustStr Isa Token Error VmState VmExec Vm VmRun Binary Disasm DisasmProps.
Local Open Scope Z_scope.

(** * Instructions *)

Definition shell_native_name (rs1 : Z) : string :=
  if rs1 =? NATIVE_PRINT then "@print"%string else
  if rs1 =? NATIVE_PRINTLN then "@println"%string else
  if rs1 =? NATIVE_SYS_TSC then "@tsc"%string else
  if rs1 =? NATIVE_NET_RTT then "@rtt"%string else
  if rs1 =? NATIVE_NET_SET_RATE then "@rate"%string else
  if rs1 =? NATIVE_GPU_CAPTURE then "@capture"%string else
  if rs1 =? NATIVE_NET_SEND then "@send"%string else
  if rs1 =? NATIVE_SCRIPT_ARGC then "@argc"%string else
  if rs1 =? NATIVE_SCRIPT_ARG then "@arg"%string else
  if rs1 =? NATIVE_TAG_OK then "@ok"%string else
  if rs1 =? NATIVE_TAG_ERR then "@err"%string else
  if rs1 =? NATIVE_IS_OK then "@is_ok"%string else
  if rs1 =? NATIVE_IS_ERR then "@is_err"%string else
  if rs1 =? NATIVE_UNWRAP then "@unwrap"%string else
  if rs1 =? NATIVE_CORE_ID then "@core_id"%string else
  if rs1 =? NATIVE_TSC_FREQ then "@tsc_freq"%string else
  if rs1 =? NATIVE_UPTIME_NS then "@uptime_ns"%string else
  if rs1 =? NATIVE_BUSY_WAIT then "@busy_wait"%string else
  if rs1 =? NATIVE_RING_DEPTH then "@ring_depth"%string else
  if rs1 =? NATIVE_MATH_MIN then "@min"%string else
  if rs1 =? NATIVE_MATH_MAX then "@max"%string else
  if rs1 =? NATIVE_MATH_ABS then "@abs"%string else
  if rs1 =? NATIVE_MATH_CLAMP then "@clamp"%string else
  if rs1 =? NATIVE_BIT_POPCNT then "@popcnt"%string else
  if rs1 =? NATIVE_BIT_LZCNT then "@lzcnt"%string else
  if rs1 =? NATIVE_CRC32 then "@crc32"%string else
  if rs1 =? NATIVE_VRAM_READ then "@vram_read"%string else
  if rs1 =? NATIVE_VRAM_WRITE then "@vram_write"%string else
  "@native"%string.

(** The arms are the library's without the two for the spill slots. *)
Definition shell_instr (const_count : Z) (const_pool : list Z) (op rd rs1 rs2 : Z)
    : result (columns * list Z) :=
  if (op =? PX64_OP_SPILL_STORE) || (op =? PX64_OP_SPILL_LOAD) then unknown_instr op rd rs1 rs2
  else known_instr shell_native_name const_count const_pool op rd rs1 rs2 (unknown_instr op rd rs1 rs2).

(** * Listings

    [serial_println!] does not fail; the console is the text written to it. *)

(** Neither the number of constants nor the end of the code is bounded by what
    there is. *)
Definition shell_px64_listing (data file_path w : list Z) : result (list Z) :=
  version ← read_u16 data 4;
  code_len ← read_u16 data 6;
  str_pool_len ← read_u16 data 8;
  const_count ← read_u16 data 10;
  num_regs ← read_u16 data 12;
  w ← writelns push_str w (title file_path version code_len num_regs str_pool_len const_count);
  const_pool ← shown_consts data (PX64_HEADER_SIZE + code_len + str_pool_len) const_count const_count;
  code ← slice data PX64_HEADER_SIZE (PX64_HEADER_SIZE + code_len);
  write_rows push_str (shell_instr const_count const_pool) 0 code w.

(** The names of the natives of the stack machine. *)
Definition legacy_native_name (func : Z) : string :=
  match func with
  | 1 => "@print" | 2 => "@println" | 3 => "@tsc" | 4 => "@rtt" | 5 => "@rate"
  | 6 => "@capture" | 7 => "@send" | 8 => "@argc" | 9 => "@arg" | _ => "unknown"
  end%string.

(** [{:04x}:  ...], with two spaces. *)
Definition at_op2 (op_ip : Z) (text : string) : option (list Z) :=
  Some (show_hex 4 op_ip ++ bytes ":  " ++ bytes text).

Definition shell_legacy_instr (code : list Z) (op_ip op : Z) : result (Z * option (list Z)) :=
  let ip := op_ip + 1 in
  match op with
  | 0 => no_operand op_ip ip "OP_NOP"
  | 1 => operand code ip 8 (fun b => at_op op_ip (bytes "OP_PUSH_CONST       " ++ show_Z (as_i64 (be_to_Z b))))
  | 2 => operand code ip 1 (fun b => at_op op_ip (bytes "OP_LOAD_VAR         $" ++ show_Z (nth_byte b 0)))
  | 3 => operand code ip 1 (fun b => at_op op_ip (bytes "OP_STORE_VAR        $" ++ show_Z (nth_byte b 0)))
  | 4 => no_operand op_ip ip "OP_ADD"
  | 5 => no_operand op_ip ip "OP_SUB"
  | 6 => no_operand op_ip ip "OP_MUL"
  | 7 => no_operand op_ip ip "OP_DIV"
  | 8 => no_operand op_ip ip "OP_MOD"
  | 9 => no_operand op_ip ip "OP_CMP_EQ"
  | 10 => mret (ip, at_op2 op_ip "OP_CMP_NE")
  | 11 => mret (ip, at_op2 op_ip "OP_CMP_LT")
  | 12 => mret (ip, at_op2 op_ip "OP_CMP_LE")
  | 13 => mret (ip, at_op2 op_ip "OP_CMP_GT")
  | 14 => mret (ip, at_op2 op_ip "OP_CMP_GE")
  | 15 => operand code ip 2 (fun b => at_op op_ip (bytes "OP_JUMP             0x" ++ show_hex 4 (be_to_Z b)))
  | 16 => operand code ip 2 (fun b => at_op op_ip (bytes "OP_JUMP_IF_FALSE    0x" ++ show_hex 4 (be_to_Z b)))
  | 17 => operand code ip 2 (fun b => at_op op_ip (bytes "OP_CALL_NATIVE      "
            ++ bytes (legacy_native_name (nth_byte b 0)) ++ bytes " (argc: " ++ show_Z (nth_byte b 1) ++ bytes ")"))
  | 18 => operand code ip 8 (fun b => at_op op_ip (bytes "OP_WITHIN_START     "
            ++ show_Z (as_i64 (be_to_Z b)) ++ bytes " ns"))
  | 19 => no_operand op_ip ip "OP_WITHIN_END"
  | 20 => no_operand op_ip ip "OP_DROP"
  | 21 => operand code ip 4 (fun b => at_op op_ip (bytes "OP_PUSH_STR         offset: "
            ++ show_Z (be_to_Z (take 2 b)) ++ bytes ", len: " ++ show_Z (be_to_Z (drop 2 b))))
  | 22 => no_operand op_ip ip "OP_HALT"
  | _ => mret (ip, Some (at_op op_ip (bytes "UNKNOWN (" ++ show_Z op ++ bytes ")")))
  end.

Definition shell_legacy_listing (data file_path w : list Z) : result (list Z) :=
  code_len ← read_u16 data 6;
  str_pool_len ← read_u16 data 8;
  w ← writelns push_str w (legacy_title file_path code_len str_pool_len);
  code ← slice data PULSE_HEADER_SIZE (PULSE_HEADER_SIZE + code_len);
  write_legacy push_str shell_legacy_instr (length code) code 0 w.

(** What is printed for the contents of a file. *)
Definition shell_listing (data file_path : list Z) : result (list Z) :=
  if has_magic data then shell_px64_listing data file_path []
  else if has_legacy_magic data then shell_legacy_listing data file_path []
  else writeln push_str [] (bytes "disasm: '" ++ file_path ++ bytes "' is not a valid px64 or PulseLang binary file").

(** * The command *)

(** A white-space character at the head of the text. *)
Definition starts_white (l : list Z) : bool :=
  match l with
  | b :: c :: d :: _ => ws1 b || ws2 b c || ws3 b c d
  | [b; c] => ws1 b || ws2 b c
  | [b] => ws1 b
  | [] => false
  end.

Fixpoint until_white (l : list Z) : list Z :=
  match l with
  | [] => []
  | b :: k => if starts_white l then [] else b :: until_white k
  end.

(** [arg.split_whitespace().next().unwrap_or()]. *)
Definition first_word (l : list Z) : list Z := until_white (trim_start l).

(** [disasm <file>]; [fs_read] is the file system's. *)
Definition disasm_command (fs_read : list Z -> option (list Z)) (arg : list Z) : result (list Z) :=
  let file_path := first_word arg in
  if len file_path =? 0 then writeln push_str [] (bytes "disasm: missing operand")
  else
    match fs_read file_path with
    | Some data => shell_listing data file_path
    | None => writeln push_str [] (bytes "disasm: cannot access '" ++ arg ++ bytes "': No such file or directory")
    end.

Example first_word_ex : first_word (bytes "  app.bin  x") = bytes "app.bin".
Proof. reflexivity. Qed.

(** * The loop over the older bytecode ends *)

(** An instruction moves forward. *)
Definition moves_on (ip : Z) (r : result (Z * option (list Z))) : Prop := forall n l, r = Ok (n, l) -> ip < n.

Definition forward (instr : list Z -> Z -> Z -> result (Z * option (list Z))) : Prop :=
  forall code ip op, moves_on ip (instr code ip op).

Lemma operand_forward code ip n line : 0 <= n -> moves_on ip (operand code (ip + 1) n line).
Proof.
  unfold operand. intros Hn m l. case_match.
  - intros (b & _ & [= <- _])%bind_Ok. lia.
  - intros [= <- _]. lia.
Qed.

Lemma ret_forward ip (l : option (list Z)) : moves_on ip (mret (ip + 1, l)).
Proof. intros m k E%ret_Ok. assert (m = ip + 1) by congruence. lia. Qed.

Lemma if_forward ip (b : bool) x y : moves_on ip x -> moves_on ip y -> moves_on ip (if b then x else y).
Proof. by destruct b. Qed.

Ltac forward_solve :=
  match goal with
  | |- moves_on _ (operand _ _ _ _) => by apply operand_forward
  | |- moves_on _ (no_operand _ _ _) => apply ret_forward
  | |- moves_on _ (mret _) => apply ret_forward
  end.

Lemma shell_legacy_forward : forward shell_legacy_instr.
Proof.
  intros code ip op. unfold shell_legacy_instr. cbv zeta.
  repeat match goal with |- moves_on _ (match ?p with _ => _ end) => destruct p end; forward_solve.
Qed.

Lemma legacy_forward : forward legacy_instr.
Proof.
  intros code ip op. unfold legacy_instr. cbv zeta. repeat (apply if_forward; [forward_solve|]).
  forward_solve.
Qed.

(** The length of the code is fuel enough: more changes nothing. *)
Lemma write_legacy_fuel {W} (put : W -> list Z -> option W) instr code : forward instr ->
  forall fuel more ip w, 0 <= ip -> len code - ip <= Z.of_nat fuel -> (fuel <= more)%nat ->
    write_legacy put instr more code ip w = write_legacy put instr fuel code ip w.
Proof.
  intros Hf. induction fuel as [|fuel IH]; intros more ip w Hi Hl Hm.
  - destruct more; cbn [write_legacy]; destruct (Z.ltb_spec ip (len code)); (done || lia).
  - destruct more as [|more]; [lia|]. cbn [write_legacy].
    destruct (Z.ltb_spec ip (len code)); [|done].
    destruct (idx code ip) as [op| |]; [|done..]. cbn [mbind outcome_bind].
    destruct (instr code ip op) as [[n l]| |] eqn:E; [|done..]. cbn [mbind outcome_bind].
    apply Hf in E. destruct l; cbn [mbind outcome_bind]; [destruct (writeln put w _); [|done..]|];
      cbn [mbind outcome_bind]; apply IH; lia.
Qed.

(** * Where the two listings agree *)

(** An instruction that both disassemblers name. *)
Definition both_name (op rs1 : Z) : bool :=
  negb ((op =? PX64_OP_SPILL_STORE) || (op =? PX64_OP_SPILL_LOAD))
  && (negb (op =? PX64_OP_CALL_NAT) || String.eqb (shell_native_name rs1) (px64_native_name rs1)).

Fixpoint both_name_all (code : list Z) : bool :=
  match code with
  | op :: _ :: rs1 :: _ :: code => both_name op rs1 && both_name_all code
  | _ => true
  end.

Lemma known_instr_name n1 n2 cc pool op rd rs1 rs2 u :
  (op = PX64_OP_CALL_NAT -> n1 rs1 = n2 rs1) ->
  known_instr n1 cc pool op rd rs1 rs2 u = known_instr n2 cc pool op rd rs1 rs2 u.
Proof.
  intros Hn. unfold known_instr. cbv zeta.
  destruct (Z.eqb_spec op PX64_OP_CALL_NAT) as [E|_]; [|done]. by rewrite Hn.
Qed.

Lemma shell_instr_same cc pool op rd rs1 rs2 :
  both_name op rs1 = true ->
  shell_instr cc pool op rd rs1 rs2 = instr px64_native_name cc pool op rd rs1 rs2.
Proof.
  unfold both_name, shell_instr, instr. destruct (_ || _); [done|]. cbn [negb andb].
  intros H. apply known_instr_name. intros ->. by apply String.eqb_eq.
Qed.

Lemma write_rows_same cc pool code : forall ip w, both_name_all code = true ->
  write_rows push_str (shell_instr cc pool) ip code w
  = write_rows push_str (instr px64_native_name cc pool) ip code w.
Proof.
  induction code as [code Hc|op rd rs1 rs2 code IH] using quad_ind; intros ip w.
  - by rewrite !short_rows.
  - cbn [both_name_all write_rows]. intros [H1 H2]%andb_true_iff. rewrite shell_instr_same by done.
    destruct (instr _ _ _ _ _ _ _) as [[c t]| |]; [|done..]. cbn [mbind outcome_bind].
    rewrite writeln_push. by apply IH.
Qed.

(** C25: the shell's disassembler prints the listing of the library's: of a
    container that holds the code it declares and at most sixty-four constants,
    whose code has no spill instruction and calls only natives the shell has a
    name for; and it refuses what the library refuses. *)
Theorem shell_listing_agrees data path :
  bytes_ok data ->
  if has_magic data then
    16 + field data 6 <= len data -> field data 10 <= 64 -> both_name_all (listed_code data) = true ->
    shell_listing data path = disasm_with_filename data path
  else exists msg e, shell_listing data path = Ok msg /\ disasm_with_filename data path = Err e.
Proof.
  intros Hb. unfold shell_listing, disasm_with_filename, disassemble_px64_with_filename.
  destruct (has_magic data) eqn:Hm; [|rewrite legacy_unreachable by done; by eexists _, _].
  apply andb_true_iff in Hm as [Hl%Z.leb_le _]. change PX64_HEADER_SIZE with 16 in Hl.
  unfold listed_code. intros Hc H10 Hn. rewrite Z.min_l in Hn by lia.
  unfold shell_px64_listing, px64_listing.
  destruct (read_field data 4 Hb) as [-> _]; [lia..|]. destruct (read_field data 6 Hb) as [-> H6]; [lia..|].
  destruct (read_field data 8 Hb) as [-> H8]; [lia..|]. destruct (read_field data 10 Hb) as [-> H10']; [lia..|].
  destruct (read_field data 12 Hb) as [-> _]; [lia..|]. cbn [mbind outcome_bind].
  rewrite writelns_push. cbn [mbind outcome_bind]. change PX64_HEADER_SIZE with 16.
  rewrite !Z.min_l by lia. destruct (shown_consts data _ _ _) as [pool| |]; [|done..].
  cbn [mbind outcome_bind]. rewrite slice_in_range by lia. cbn [mbind outcome_bind].
  by apply write_rows_same.
Qed.

(** A container with both kinds of constants and a call of a native. *)
Definition shared_binary : list Z :=
  encode [PX64_OP_LDC; 1; 0; 0;  PX64_OP_LDC; 2; 0; 9;  PX64_OP_CALL_NAT; 0; NATIVE_PRINTLN; 1;  PX64_OP_HALT; 5; 5; 5]
    [] [-77].

Example shell_listing_agrees_witness :
  shell_listing shared_binary (bytes "a.bin") = disasm_with_filename shared_binary (bytes "a.bin") /\
  (exists text, disasm_with_filename shared_binary (bytes "a.bin") = Ok text /\
     reassemble text = Some [23; 1; 0; 0; 23; 2; 0; 9; 18; 0; 2; 1; 22; 0; 0; 0]) /\
  exists msg, shell_listing (bytes "text, not code") (bytes "a.txt") = Ok msg.
Proof.
  assert (H : shell_listing shared_binary (bytes "a.bin") = disasm_with_filename shared_binary (bytes "a.bin")).
  { apply (shell_listing_agrees shared_binary (bytes "a.bin")); [compute_fact | vm_compute; congruence..| ].
    vm_compute. reflexivity. }
  split; [exact H|]. split.
  - eexists. split; vm_compute; reflexivity.
  - destruct (shell_listing_agrees (bytes "text, not code") (bytes "a.txt") ltac:(compute_fact))
      as (msg & e & Hm & _). by exists msg.
Defined.

(** The last field of each row of a listing: the text behind the columns. *)
Definition texts (r : result (list Z)) : option (list (list Z)) :=
  match r with
  | Ok text => Some (map (drop 21) (removelast (drop 5 (split 10 text))))
  | _ => None
  end.

(** C4: where the two disassemblers part: the shell's panics on a file that is
    shorter than its header says and on one with 65 constants, which the
    library lists; it calls an instruction on a spill slot unknown, which the
    compiler emits and the machine runs; and it has no name for [@streq]. *)
Theorem shell_listing_differs :
  shell_listing cut_off (bytes "a") = Panic SliceOutOfRange /\
  texts (disasm_with_filename cut_off (bytes "a")) = Some [bytes "MOV          $rcx, 42"] /\
  shell_listing (encode [PX64_OP_HALT; 0; 0; 0] [] (replicate 65 7)) (bytes "a") = Panic IndexOutOfBounds /\
  texts (disasm_with_filename (encode [PX64_OP_HALT; 0; 0; 0] [] (replicate 65 7)) (bytes "a")) = Some [bytes "HALT"] /\
  texts (shell_listing (encode [PX64_OP_SPILL_STORE; 3; 1; 0] [] []) (bytes "a")) = Some [bytes "UNKNOWN_OP_0x2b"] /\
  texts (disasm_with_filename (encode [PX64_OP_SPILL_STORE; 3; 1; 0] [] []) (bytes "a")) = Some [bytes "SPILL_STORE  slot[3], $rcx"] /\
  texts (shell_listing (encode [PX64_OP_CALL_NAT; 0; NATIVE_STREQ; 1] [] []) (bytes "a")) = Some [bytes "CALL_NAT     $rax = @native($rcx)"] /\
  texts (disasm_with_filename (encode [PX64_OP_CALL_NAT; 0; NATIVE_STREQ; 1] [] []) (bytes "a")) = Some [bytes "CALL_NAT     $rax = @streq($rcx)"].
Proof. split_and!; vm_compute; reflexivity. Qed.
