(* ===== verification/LspJson.v ===== *)
(** The JSON of the language server (pulselang-core/src/lsp.rs): [JsonValue], its
    text, and the parser, which cuts a text into items and parses each. What a
    client prints reads back, keys with a colon excepted.

    A string is the bytes of its UTF-8 text. The characters the parser looks for
    are ASCII and no byte of another character equals one, so that walking over
    the bytes finds what walking over the characters finds. *)

From S2P Require Import Prelude RustStd RustStr Lexer LexerProps Json.
Local Open Scope Z_scope.

(** What the server uses of [f64]: [str::parse], [Display] and the cast to [u64]. *)
Class Float64 (F : Type) := {
  parse_f64 : list Z -> option F;
  show_f64 : F -> list Z;
  f64_as_u64 : F -> Z;
}.

(** Integers below 2^53 are exact, and the cast saturates. *)
Class Float64Laws (F : Type) `{!Float64 F} := {
  f64_integer n : 0 <= n < 2 ^ 53 ->
    exists x, parse_f64 (show_Z n) = Some x /\ f64_as_u64 x = n /\ show_f64 x = show_Z n;
  f64_u64 x : 0 <= f64_as_u64 x < 2 ^ 64;
}.

Section JsonValue.
Context {F : Type} `{!Float64 F}.

(** A [HashMap] is a list of entries with different keys, in no order that means
    anything. *)
Inductive JsonValue : Type :=
| Null
| Bool (b : bool)
| Number (n : F)
| Str (s : list Z)
| Array (l : list JsonValue)
| Object (m : list (list Z * JsonValue)).

Definition entries : Type := list (list Z * JsonValue).

(** [HashMap::get] and [HashMap::insert]. *)
Fixpoint hash_get (m : entries) (k : list Z) : option JsonValue :=
  match m with
  | [] => None
  | (k', v) :: m => if bytes_eqb k' k then Some v else hash_get m k
  end.

Fixpoint hash_insert (m : entries) (k : list Z) (v : JsonValue) : entries :=
  match m with
  | [] => [(k, v)]
  | (k', v') :: m => if bytes_eqb k' k then (k', v) :: m else (k', v') :: hash_insert m k v
  end.

Definition as_str (v : JsonValue) : option (list Z) := match v with Str s => Some s | _ => None end.
Definition as_u64 (v : JsonValue) : option Z := match v with Number n => Some (f64_as_u64 n) | _ => None end.
Definition as_array (v : JsonValue) : option (list JsonValue) := match v with Array a => Some a | _ => None end.
Definition get (v : JsonValue) (key : string) : option JsonValue :=
  match v with Object m => hash_get m (bytes key) | _ => None end.

(** * Text *)

Definition escape_char (c : Z) : list Z :=
  if c =? 34 then [92; 34]
  else if c =? 92 then [92; 92]
  else if c =? 10 then [92; 110]
  else if c =? 13 then [92; 114]
  else if c =? 9 then [92; 116]
  else [c].

Definition escape_json (s : list Z) : list Z := concat (map escape_char s).

(** [iter_order] is the order in which a [HashMap] is iterated. *)
Context (iter_order : entries -> entries).

Definition quoted (s : list Z) : list Z := 34 :: escape_json s ++ [34].

(** Printed to a depth; a value is as deep as it is. *)
Fixpoint to_json_string_fuel (fuel : nat) (v : JsonValue) : list Z :=
  match fuel with
  | O => []
  | S fuel =>
    match v with
    | Null => bytes "null"
    | Bool b => if b then bytes "true" else bytes "false"
    | Number n => show_f64 n
    | Str s => quoted s
    | Array arr => 91 :: join 44 (map (to_json_string_fuel fuel) arr) ++ [93]
    | Object map => 123 :: join 44 (List.map (fun f => quoted (fst f) ++ 58 :: to_json_string_fuel fuel (snd f))
                                      (iter_order map)) ++ [125]
    end
  end.

Fixpoint depth (v : JsonValue) : nat :=
  match v with
  | Array l => S (foldr (fun v n => Nat.max (depth v) n) O l)
  | Object m => S (foldr (fun f n => Nat.max (depth (snd f)) n) O m)
  | _ => 1
  end.

Definition to_json_string (v : JsonValue) : list Z := to_json_string_fuel (depth v) v.

(** * The parser *)

(** What [chars.next()] gives after a backslash. *)
Definition unescape_char (c : Z) : Z :=
  if c =? 98 then 8
  else if c =? 102 then 12
  else if c =? 110 then 10
  else if c =? 114 then 13
  else if c =? 116 then 9
  else c.

Fixpoint unescape (l : list Z) : list Z :=
  match l with
  | [] => []
  | c :: l =>
    if c =? 92 then
      match l with
      | d :: l => unescape_char d :: unescape l
      | [] => [92]
      end
    else c :: unescape l
  end.

(** The locals of [split_json_items]: the current item is kept reversed. *)
Record splitter : Set := mkSplitter {
  sp_items : list (list Z);
  sp_depth : Z;
  sp_in_str : bool;
  sp_escape : bool;
  sp_cur : list Z;
}.

Definition split_step (s : splitter) (c : Z) : splitter :=
  let '(mkSplitter items depth in_str escape cur) := s in
  if escape then mkSplitter items depth in_str false (c :: cur)
  else if (c =? 92) && in_str then mkSplitter items depth in_str true (c :: cur)
  else if c =? 34 then mkSplitter items depth (negb in_str) false (c :: cur)
  else if in_str then mkSplitter items depth in_str false (c :: cur)
  else if (c =? 123) || (c =? 91) then mkSplitter items (depth + 1) in_str false (c :: cur)
  else if (c =? 125) || (c =? 93) then mkSplitter items (depth - 1) in_str false (c :: cur)
  else if (c =? 44) && (depth =? 0) then
    mkSplitter (items ++ [trim (rev cur)]) depth in_str false []
  else mkSplitter items depth in_str false (c :: cur).

Definition split_json_items (s : list Z) : list (list Z) :=
  let r := foldl split_step (mkSplitter [] 0 false false []) s in
  let last := trim (rev (sp_cur r)) in
  if bytes_eqb last [] then sp_items r else sp_items r ++ [last].

(** [splitn(2, ':')], when it gives two parts. *)
Fixpoint split_colon (l : list Z) : option (list Z * list Z) :=
  match l with
  | [] => None
  | c :: l =>
    if c =? 58 then Some ([], l)
    else match split_colon l with Some (a, b) => Some (c :: a, b) | None => None end
  end.

Definition ends_with_byte (l : list Z) (c : Z) : bool :=
  match last l with Some b => b =? c | None => false end.

Definition starts_with_byte (l : list Z) (c : Z) : bool :=
  match l with b :: _ => b =? c | [] => false end.

(** [&s[1..s.len() - 1]]. *)
Definition inside (l : list Z) : list Z := removelast (tail l).

(** The two loops, for the parser of the parts. *)
Fixpoint parse_items (parse : list Z -> option JsonValue) (items : list (list Z)) : option (list JsonValue) :=
  match items with
  | [] => mret []
  | item :: items => v ← parse item; vs ← parse_items parse items; mret (v :: vs)
  end.

Fixpoint parse_pairs (parse : list Z -> option JsonValue) (pairs : list (list Z)) (map : entries) : option entries :=
  match pairs with
  | [] => mret map
  | p :: pairs =>
    match split_colon p with
    | None => parse_pairs parse pairs map
    | Some (a, b) =>
      k ← parse (trim a);
      match k with
      | Str key => val ← parse (trim b); parse_pairs parse pairs (hash_insert map key val)
      | _ => parse_pairs parse pairs map
      end
    end
  end.

Fixpoint parse_json_fuel (fuel : nat) (s : list Z) : option JsonValue :=
  match fuel with
  | O => None
  | S fuel =>
    let s := trim s in
    if bytes_eqb s (bytes "null") then Some Null
    else if bytes_eqb s (bytes "true") then Some (Bool true)
    else if bytes_eqb s (bytes "false") then Some (Bool false)
    else if starts_with_byte s 34 && ends_with_byte s 34 && (2 <=? len s) then Some (Str (unescape (inside s)))
    else if starts_with_byte s 91 && ends_with_byte s 93 then
      let inner := trim (inside s) in
      if bytes_eqb inner [] then Some (Array [])
      else Array <$> parse_items (parse_json_fuel fuel) (split_json_items inner)
    else if starts_with_byte s 123 && ends_with_byte s 125 then
      let inner := trim (inside s) in
      if bytes_eqb inner [] then Some (Object [])
      else Object <$> parse_pairs (parse_json_fuel fuel) (split_json_items inner) []
    else Number <$> parse_f64 s
  end.

(** The parts of a text are shorter than the text. *)
Definition parse_json_value (s : list Z) : option JsonValue := parse_json_fuel (S (length s)) s.

Definition parse_json_obj (s : list Z) : option entries :=
  v ← parse_json_value (trim s);
  match v with Object m => Some m | _ => None end.
End JsonValue.
Arguments JsonValue : clear implicits.
