(* ===== verification/LspJsonProps.v ===== *)
(** The language server's JSON parser: its depth of recursion is bounded by the
    length of the text, and what [print] (Json.v) writes reads back. *)

From S2P Require Import Prelude RustStd RustStr Lexer LexerProps Json LspJson.
Local Open Scope Z_scope.

(** * Lengths *)

Lemma strip_shorter one two three l : (length (strip one two three l) <= length l)%nat.
Proof. destruct (strip_suffix one two three l) as [k E]. rewrite E at 2. rewrite length_app. lia. Qed.

Lemma trim_length l : (length (trim l) <= length l)%nat.
Proof.
  unfold trim, trim_end, trim_start. rewrite length_rev.
  etransitivity; [apply strip_shorter|]. rewrite length_rev. apply strip_shorter.
Qed.

Lemma inside_length l : (2 <= length l)%nat -> (length (inside l) = length l - 2)%nat.
Proof.
  unfold inside. destruct l as [|b l]; simpl; [lia|]. intros H.
  destruct l as [|c l] using rev_ind; [simpl in H; lia|].
  rewrite removelast_last, length_app. simpl. lia.
Qed.

Definition short (n : nat) (l : list Z) : Prop := (length l <= n)%nat.

Lemma split_step_short n k s c :
  (length (sp_cur s) + S k <= n)%nat -> Forall (short n) (sp_items s) ->
  (length (sp_cur (split_step s c)) + k <= n)%nat /\ Forall (short n) (sp_items (split_step s c)).
Proof.
  destruct s as [items depth in_str escape cur]. cbn [sp_cur sp_items]. intros Hc Hi. unfold split_step.
  repeat case_match; cbn [sp_cur sp_items length]; (split; [lia|]); try done.
  apply Forall_app. split; [done|]. constructor; [|done]. unfold short.
  pose proof (trim_length (rev cur)). rewrite length_rev in *. lia.
Qed.

Lemma split_fold_short n l : forall s,
  (length (sp_cur s) + length l <= n)%nat -> Forall (short n) (sp_items s) ->
  (length (sp_cur (foldl split_step s l)) <= n)%nat /\ Forall (short n) (sp_items (foldl split_step s l)).
Proof.
  induction l as [|c l IH]; intros s Hc Hi; [simpl in *; split; [lia|done]|]. cbn [foldl].
  destruct (split_step_short n (length l) s c Hc Hi). by apply IH.
Qed.

(** The items of a text are no longer than the text. *)
Lemma split_items_short l : Forall (short (length l)) (split_json_items l).
Proof.
  unfold split_json_items. cbv zeta.
  destruct (split_fold_short (length l) l (mkSplitter [] 0 false false [])) as [Hc Hi]; [simpl; lia|done|].
  case_match; [done|]. apply Forall_app. split; [done|]. constructor; [|done]. unfold short.
  pose proof (trim_length (rev (sp_cur (foldl split_step (mkSplitter [] 0 false false []) l)))) as Ht.
  rewrite length_rev in Ht. lia.
Qed.

Lemma split_colon_short l a b : split_colon l = Some (a, b) -> (length a + length b < length l)%nat.
Proof.
  revert a b. induction l as [|c l IH]; intros a b; [done|]. cbn [split_colon].
  case_match; [intros [= <- <-]; simpl; lia|].
  destruct (split_colon l) as [[a' b']|]; [|done]. intros [= <- <-]. specialize (IH a' b' eq_refl).
  simpl. lia.
Qed.

Section Parser.
Context {F : Type} `{!Float64 F}.
Notation JsonValue := (JsonValue F).

(** * The depth of the recursion *)

Lemma parse_items_same (p q : list Z -> option JsonValue) n l :
  Forall (short n) l -> (forall s, short n s -> p s = q s) -> parse_items p l = parse_items q l.
Proof.
  intros Hl H. induction Hl as [|s l Hs _ IH]; [done|]. cbn [parse_items]. by rewrite H, IH.
Qed.

Lemma parse_pairs_same (p q : list Z -> option JsonValue) n l : forall m,
  Forall (short n) l -> (forall s, short n s -> p s = q s) -> parse_pairs p l m = parse_pairs q l m.
Proof.
  intros m Hl H. revert m. induction Hl as [|s l Hs _ IH]; intros m; [done|]. cbn [parse_pairs].
  destruct (split_colon s) as [[a b]|] eqn:E; [|apply IH].
  apply split_colon_short in E. unfold short in *. pose proof (trim_length a). pose proof (trim_length b).
  rewrite (H (trim a)) by lia. destruct (q (trim a)) as [k|]; simpl; [|reflexivity].
  destruct k; try apply IH. rewrite (H (trim b)) by lia. destruct (q (trim b)) as [v|]; simpl; [apply IH | reflexivity].
Qed.

(** The length of the text, plus one, is fuel enough: more changes nothing. *)
Lemma parse_json_enough n : forall m s,
  (length s < n)%nat -> (length s < m)%nat -> parse_json_fuel n s = parse_json_fuel m s.
Proof.
  induction n as [|n IH]; intros m s Hn Hm; [lia|]. destruct m as [|m]; [lia|]. cbn [parse_json_fuel]. cbv zeta.
  pose proof (trim_length s) as Ht. set (t := trim s) in *.
  do 4 (case_match; [done|]).
  assert (Hin : forall a b, starts_with_byte t a && ends_with_byte t b = true -> a <> b ->
    (length (trim (inside t)) < n)%nat /\ (length (trim (inside t)) < m)%nat).
  { intros a b [Ha Hb]%andb_true_iff Hab. pose proof (trim_length (inside t)) as Hi.
    unfold starts_with_byte, ends_with_byte in *.
    destruct t as [|x [|y t']]; [done| |].
    - simpl in Hb. apply Z.eqb_eq in Ha, Hb. congruence.
    - rewrite inside_length in Hi by (simpl; lia). simpl in *. lia. }
  case_match eqn:E1.
  { destruct (Hin _ _ E1 ltac:(done)). case_match; [done|]. f_equal.
    apply (parse_items_same _ _ (length (trim (inside t)))); [apply split_items_short|].
    unfold short. intros u Hu. apply IH; lia. }
  case_match eqn:E2; [|done]. destruct (Hin _ _ E2 ltac:(done)). case_match; [done|]. f_equal.
  apply (parse_pairs_same _ _ (length (trim (inside t)))); [apply split_items_short|].
  unfold short. intros u Hu. apply IH; lia.
Qed.
End Parser.

(** * Texts of values *)

(** A visible ASCII character, which trimming leaves. *)
Definition visible (b : Z) : Prop := 33 <= b <= 126.

Definition solid (l : list Z) : Prop := exists a b, head l = Some a /\ last l = Some b /\ visible a /\ visible b.

Lemma strip_visible one two three b l :
  one b = false -> (forall c, two b c = false) -> (forall c d, three b c d = false) ->
  strip one two three (b :: l) = b :: l.
Proof.
  intros H1 H2 H3. cbn [strip]. rewrite H1. destruct l as [|c l]; [done|]. rewrite H2.
  destruct l as [|d l]; [done|]. by rewrite H3.
Qed.

Lemma trim_solid l : solid l -> trim l = l.
Proof.
  unfold visible. intros (a & b & Ha & Hb & Va & Vb). unfold trim.
  assert (E : trim_start l = l).
  { destruct l as [|x l]; [done|]. injection Ha as ->. apply strip_visible.
    - unfold ws1, in_range. unfold visible in Va. lia.
    - intros c. unfold ws2. unfold visible in Va. lia.
    - intros c d. unfold ws3. unfold visible in Va. lia. }
  rewrite E. unfold trim_end. destruct l as [|x l _] using rev_ind; [done|].
  rewrite last_snoc in Hb. injection Hb as ->. rewrite rev_app_distr. cbn [rev app].
  rewrite strip_visible.
  - cbn [rev]. by rewrite rev_involutive.
  - unfold ws1, in_range. unfold visible in Vb. lia.
  - intros c. unfold ws2. unfold visible in Vb. lia.
  - intros c d. unfold ws3, in_range. unfold visible in Vb. lia.
Qed.

Lemma solid_join ts : ts <> [] -> Forall solid ts -> solid (join 44 ts).
Proof.
  intros Hne Hf. destruct Hf as [|t ts Ht Hf]; [done|]. clear Hne. revert t Ht.
  induction Hf as [|u ts Hu Hf IH]; intros t (a & b & Ha & Hb & Va & Vb); [by exists a, b|].
  destruct (IH u Hu) as (a' & b' & Ha' & Hb' & Va' & Vb'). rewrite join_cons by done.
  exists a, b'. split_and!; [by destruct t| |done..].
  rewrite last_app, last_cons, Hb'. done.
Qed.

(** Scanned outside a string, the text is appended to the current item, and
    nothing else changes. *)
Definition flat (t : list Z) : Prop := forall items depth cur, 0 <= depth ->
  foldl split_step (mkSplitter items depth false false cur) t = mkSplitter items depth false false (rev t ++ cur).

Lemma scan_escaped s : forall items depth cur,
  foldl split_step (mkSplitter items depth true false cur) (concat (map escape_byte s))
  = mkSplitter items depth true false (rev (concat (map escape_byte s)) ++ cur).
Proof.
  induction s as [|c s IH]; intros items depth cur; [done|]. cbn [map concat].
  rewrite foldl_app, rev_app_distr, <-app_assoc.
  replace (foldl split_step (mkSplitter items depth true false cur) (escape_byte c))
    with (mkSplitter items depth true false (rev (escape_byte c) ++ cur)); [apply IH|].
  unfold escape_byte. destruct (Z.eqb_spec c 34) as [->|H1]; [done|]. destruct (Z.eqb_spec c 92) as [->|H2]; [done|].
  do 3 (case_match; [done|]). cbn. rewrite (proj2 (Z.eqb_neq c 92)), (proj2 (Z.eqb_neq c 34)) by done. done.
Qed.

Lemma flat_string s : flat (string_text s).
Proof.
  intros items depth cur _. unfold string_text. cbn [foldl]. rewrite foldl_app.
  change (split_step (mkSplitter items depth false false cur) 34) with (mkSplitter items depth true false (34 :: cur)).
  rewrite scan_escaped. cbn. rewrite rev_app_distr, <-!app_assoc. done.
Qed.

(** Bytes the splitter does not look at. *)
Definition inert (b : Z) : Prop := b ∉ [34; 123; 91; 125; 93; 44].

Lemma step_inert items depth cur b :
  inert b -> split_step (mkSplitter items depth false false cur) b = mkSplitter items depth false false (b :: cur).
Proof.
  unfold inert. rewrite !not_elem_of_cons. intros (H1 & H2 & H3 & H4 & H5 & H6 & _). cbn.
  rewrite andb_false_r, (proj2 (Z.eqb_neq b 34)), (proj2 (Z.eqb_neq b 123)), (proj2 (Z.eqb_neq b 91)),
    (proj2 (Z.eqb_neq b 125)), (proj2 (Z.eqb_neq b 93)), (proj2 (Z.eqb_neq b 44)) by done. done.
Qed.

Lemma flat_inert t : Forall inert t -> flat t.
Proof.
  intros H. induction H as [|b t Hb _ IH]; intros items depth cur Hd; [done|]. cbn [foldl rev].
  rewrite step_inert, IH by done. by rewrite <-app_assoc.
Qed.

Lemma flat_app a b : flat a -> flat b -> flat (a ++ b).
Proof.
  intros Ha Hb items depth cur Hd. rewrite foldl_app, Ha, Hb by done. by rewrite rev_app_distr, app_assoc.
Qed.

(** Inside brackets a comma is like any other byte. *)
Lemma scan_join ts : Forall flat ts -> forall items depth cur, 0 < depth ->
  foldl split_step (mkSplitter items depth false false cur) (join 44 ts)
  = mkSplitter items depth false false (rev (join 44 ts) ++ cur).
Proof.
  induction 1 as [|t ts Ht Hts IH]; intros items depth cur Hd; [done|].
  destruct ts as [|u ts]; [apply Ht; lia|]. rewrite join_cons, foldl_app, Ht by (done || lia). cbn [foldl].
  replace (split_step (mkSplitter items depth false false (rev t ++ cur)) 44)
    with (mkSplitter items depth false false (44 :: rev t ++ cur)).
  - rewrite IH by done. rewrite rev_app_distr. cbn [rev]. by rewrite <-!app_assoc.
  - cbn. by rewrite (proj2 (Z.eqb_neq depth 0)) by lia.
Qed.

Lemma flat_brackets o c ts : (o = 91 /\ c = 93) \/ (o = 123 /\ c = 125) ->
  Forall flat ts -> flat (o :: join 44 ts ++ [c]).
Proof.
  intros Ho Hf items depth cur Hd. cbn [foldl]. rewrite foldl_app.
  replace (split_step (mkSplitter items depth false false cur) o)
    with (mkSplitter items (depth + 1) false false (o :: cur)) by (by destruct Ho as [[-> ->]|[-> ->]]).
  rewrite scan_join by (done || lia). cbn [foldl rev]. rewrite rev_app_distr.
  destruct Ho as [[-> ->]|[-> ->]]; cbn; rewrite <-!app_assoc; cbn; do 2 f_equal; lia.
Qed.

(** The items of a list are its items. *)
Lemma split_join_items ts : ts <> [] -> Forall (fun t => flat t /\ solid t) ts -> split_json_items (join 44 ts) = ts.
Proof.
  assert (H : forall ts t items, Forall (fun t => flat t /\ solid t) (t :: ts) ->
    exists l, foldl split_step (mkSplitter items 0 false false []) (join 44 (t :: ts))
      = mkSplitter (items ++ l) 0 false false (rev (default t (last ts))) /\ l ++ [default t (last ts)] = t :: ts).
  { clear ts. induction ts as [|u ts IH]; intros t items Hf; apply Forall_cons in Hf as [[Ht Hs] Hf].
    - exists []. cbn [join]. rewrite Ht by done. by rewrite !app_nil_r.
    - rewrite join_cons, foldl_app, Ht by done. cbn [foldl].
      replace (split_step (mkSplitter items 0 false false (rev t ++ [])) 44)
        with (mkSplitter (items ++ [t]) 0 false false []).
      + destruct (IH u (items ++ [t]) Hf) as (l & -> & E). exists (t :: l). rewrite <-app_assoc.
        rewrite last_cons. destruct (last ts); cbn [default from_option id] in *; (split; [done|]); cbn; by f_equal.
      + cbn. by rewrite app_nil_r, rev_involutive, trim_solid. }
  intros Hne Hf. destruct ts as [|t ts]; [done|]. destruct (H ts t [] Hf) as (l & E & El).
  unfold split_json_items. cbv zeta. rewrite E. cbn [sp_cur sp_items app]. rewrite rev_involutive.
  assert (Hl : solid (default t (last ts))).
  { rewrite <-El in Hf. apply Forall_app in Hf as [_ Hf]. by apply Forall_cons in Hf as [[_ ?] _]. }
  rewrite trim_solid by done. unfold bytes_eqb. rewrite bool_decide_eq_false_2; [done|].
  intros E0. rewrite E0 in Hl. by destruct Hl as (? & ? & ? & _).
Qed.

Lemma digits_inert l : digits l -> Forall inert l.
Proof.
  intros H. eapply Forall_impl; [exact H|]. intros b Hb. unfold is_ascii_digit in Hb. apply in_range_spec in Hb.
  unfold inert. rewrite !not_elem_of_cons, elem_of_nil. lia.
Qed.

Lemma digits_solid l : digits l -> l <> [] -> solid l.
Proof.
  intros H Hne. assert (Hv : Forall visible l).
  { eapply Forall_impl; [exact H|]. intros b Hb. unfold is_ascii_digit in Hb. apply in_range_spec in Hb.
    unfold visible. lia. }
  destruct l as [|a l]; [done|]. destruct (last (a :: l)) as [b|] eqn:E; [|by apply last_None in E].
  exists a, b. split_and!; [done..| |].
  - by apply Forall_cons in Hv as [? _].
  - apply last_Some in E as [k E]. rewrite E in Hv. apply Forall_app in Hv as [_ Hv].
    by apply Forall_cons in Hv as [? _].
Qed.

Lemma show_Z_digits n : 0 <= n < 2 ^ 53 -> digits (show_Z n) /\ show_Z n <> [].
Proof.
  intros Hn. destruct (show_digits n) as [E Hne]; [lia|]. split; [|done].
  rewrite E. apply dec_digits_digits. constructor.
Qed.

(** ** What reads back: integers that are exact, and keys without a colon. *)

Definition key_ok (k : list Z) : Prop := 58 ∉ k.

Fixpoint readable (v : json) : Prop :=
  match v with
  | JNum n => 0 <= n < 2 ^ 53
  | JArr l => (fix all l := match l with [] => True | v :: l => readable v /\ all l end) l
  | JObj l => (fix all l := match l with [] => True | (k, v) :: l => key_ok k /\ readable v /\ all l end) l
  | _ => True
  end.

Lemma readable_arr l : readable (JArr l) -> Forall readable l.
Proof. induction l as [|v l IH]; [done|]. intros [Hv Hl]. constructor; [done | by apply IH]. Qed.

Lemma readable_obj l : readable (JObj l) -> Forall (fun f => key_ok (fst f) /\ readable (snd f)) l.
Proof. induction l as [|[k v] l IH]; [done|]. intros (Hk & Hv & Hl). constructor; [done | by apply IH]. Qed.

Lemma solid_wrap a l b : visible a -> visible b -> solid (a :: l ++ [b]).
Proof.
  intros Ha Hb. exists a, b. split_and!; try done. change (a :: l ++ [b]) with ((a :: l) ++ [b]). by rewrite last_snoc.
Qed.

Lemma print_solid v : readable v -> solid (print v).
Proof.
  destruct v as [|[]|n|s|l|l]; cbn [print]; intros H; try by eexists _, _.
  - destruct (show_Z_digits n H). by apply digits_solid.
  - by apply solid_wrap.
  - by apply solid_wrap.
  - by apply solid_wrap.
Qed.

Lemma size_elem v l : v ∈ l -> (size v < size (JArr l))%nat.
Proof.
  induction 1 as [l|v w l _ IH]; simpl in *; lia.
Qed.

Lemma size_field k v l : (k, v) ∈ l -> (size v < size (JObj l))%nat.
Proof.
  intros H. remember (k, v) as f eqn:E. induction H as [f l|f g l _ IH]; subst; simpl in *; [lia|].
  specialize (IH eq_refl). lia.
Qed.

Lemma print_flat n : forall v, (size v <= n)%nat -> readable v -> flat (print v).
Proof.
  induction n as [|n IH]; intros v Hn H; [destruct v; simpl in Hn; lia|].
  destruct v as [|[]|x|s|l|l]; cbn [print].
  1-3: apply flat_inert; repeat (constructor; [unfold inert; set_solver|]); constructor.
  - apply flat_inert, digits_inert. by destruct (show_Z_digits x H).
  - apply flat_string.
  - apply flat_brackets; [by left|]. apply readable_arr in H. rewrite Forall_forall in H.
    apply Forall_forall. intros t (v & -> & Hv)%list_elem_of_fmap. apply IH; [|by apply H].
    apply size_elem in Hv. lia.
  - apply flat_brackets; [by right|]. apply readable_obj in H. rewrite Forall_forall in H.
    apply Forall_forall. intros t ([k v] & -> & Hv)%list_elem_of_fmap. cbn [fst snd].
    apply flat_app; [apply flat_string|]. change (58 :: print v) with ([58] ++ print v).
    apply flat_app; [apply flat_inert; repeat constructor; unfold inert; set_solver|].
    apply IH; [|by apply (H (k, v))]. apply size_field in Hv. lia.
Qed.

Lemma unescape_text s : unescape (concat (map escape_byte s)) = s.
Proof.
  induction s as [|c s IH]; [done|]. cbn [map concat]. unfold escape_byte at 1.
  destruct (Z.eqb_spec c 34) as [->|]; [cbn; by rewrite IH|].
  destruct (Z.eqb_spec c 92) as [->|H2]; [cbn; by rewrite IH|].
  destruct (Z.eqb_spec c 10) as [->|]; [cbn; by rewrite IH|].
  destruct (Z.eqb_spec c 13) as [->|]; [cbn; by rewrite IH|].
  destruct (Z.eqb_spec c 9) as [->|]; [cbn; by rewrite IH|].
  cbn [app unescape]. rewrite (proj2 (Z.eqb_neq c 92)) by done. by rewrite IH.
Qed.

Lemma escape_key k : key_ok k -> 58 ∉ string_text k.
Proof.
  unfold key_ok, string_text. intros H. rewrite not_elem_of_cons, not_elem_of_app, list_elem_of_singleton.
  split_and!; [done| |done]. induction k as [|c k IH]; [by intros ?%elem_of_nil|].
  apply not_elem_of_cons in H as [Hc H]. cbn [map concat]. rewrite not_elem_of_app. split; [|by apply IH].
  unfold escape_byte. repeat case_match; set_solver.
Qed.

Lemma split_colon_at a b : 58 ∉ a -> split_colon (a ++ 58 :: b) = Some (a, b).
Proof.
  induction a as [|c a IH]; [done|]. rewrite not_elem_of_cons. intros [Hc Ha]. cbn [app split_colon].
  rewrite (proj2 (Z.eqb_neq c 58)), IH by (done || congruence). done.
Qed.

Lemma wrapped o c l : 
  starts_with_byte (o :: l ++ [c]) o = true /\ ends_with_byte (o :: l ++ [c]) c = true /\ inside (o :: l ++ [c]) = l.
Proof.
  split_and!.
  - apply Z.eqb_refl.
  - unfold ends_with_byte. change (o :: l ++ [c]) with ((o :: l) ++ [c]). rewrite last_snoc. apply Z.eqb_refl.
  - unfold inside. cbn [tail]. by rewrite removelast_last.
Qed.

Lemma not_words o l : o <> 110 -> o <> 116 -> o <> 102 ->
  bytes_eqb (o :: l) (bytes "null") = false /\ bytes_eqb (o :: l) (bytes "true") = false /\
  bytes_eqb (o :: l) (bytes "false") = false.
Proof. intros. unfold bytes_eqb. split_and!; apply bool_decide_eq_false_2; intros E;
  apply (f_equal head) in E; vm_compute in E; congruence. Qed.

Section RoundTrip.
Context {F : Type} `{!Float64 F} `{!Float64Laws F}.
Notation JsonValue := (JsonValue F).

(** The value the server has of a value of the client. *)
Definition number (n : Z) : JsonValue :=
  match parse_f64 (show_Z n) with Some x => Number x | None => Null end.

Fixpoint of_json (v : json) : JsonValue :=
  match v with
  | JNull => Null
  | JBool b => Bool b
  | JNum n => number n
  | JStr s => Str s
  | JArr l => Array (map of_json l)
  | JObj l => Object (foldl (fun m f => hash_insert m (fst f) (of_json (snd f))) [] l)
  end.

(** The parser with some fuel reads the texts of up to some length. *)
Definition reads (p : list Z -> option JsonValue) (n : nat) : Prop :=
  forall v, readable v -> (length (print v) < n)%nat -> p (print v) = Some (of_json v).

Lemma join_member {c} (ts : list (list Z)) t : t ∈ ts -> (length t <= length (join c ts))%nat.
Proof.
  induction 1 as [t ts|t u ts H IH].
  - destruct ts; [done|]. rewrite join_cons, length_app by done. lia.
  - destruct ts; [by apply elem_of_nil in H|]. rewrite join_cons, length_app by done. cbn [length]. lia.
Qed.

Lemma parse_items_print p n l :
  reads p n -> Forall readable l -> (length (join 44 (map print l)) < n)%nat ->
  parse_items p (map print l) = Some (map of_json l).
Proof.
  intros Hp. induction 1 as [|v l Hv Hl IH]; intros Hn; [done|]. cbn [map parse_items].
  rewrite Hp; [|done|].
  - cbn [mbind option_bind]. rewrite IH; [done|]. destruct l; [simpl in *; lia|].
    cbn [map] in Hn |- *. rewrite join_cons, length_app in Hn by done. cbn [length] in Hn. lia.
  - pose proof (@join_member 44 (map print (v :: l)) (print v) ltac:(cbn; constructor)). lia.
Qed.

Lemma parse_pairs_print p n l : forall m,
  reads p n -> Forall (fun f => key_ok (fst f) /\ readable (snd f)) l ->
  (length (join 44 (map print_field l)) < n)%nat ->
  parse_pairs p (map print_field l) m
  = Some (foldl (fun m f => hash_insert m (fst f) (of_json (snd f))) m l).
Proof.
  intros m Hp Hl. revert m. induction Hl as [|[k v] l [Hk Hv] Hl IH]; intros m Hn; [done|].
  cbn [fst snd] in Hk, Hv. cbn [map parse_pairs].
  pose proof (@join_member 44 (map print_field ((k, v) :: l)) (print_field (k, v)) ltac:(cbn; constructor)) as Hm.
  unfold print_field at 1. unfold print_field in Hm at 1. cbn [fst snd] in *. rewrite length_app in Hm. cbn [length] in Hm.
  rewrite split_colon_at by by apply escape_key.
  rewrite (trim_solid (string_text k)) by by apply solid_wrap. change (string_text k) with (print (JStr k)) in *.
  rewrite (Hp (JStr k)) by (done || lia). cbn [mbind option_bind of_json].
  rewrite (trim_solid (print v)) by by apply print_solid. rewrite (Hp v) by (done || lia). cbn [mbind option_bind].
  rewrite IH; [done|]. destruct l; [simpl in *; lia|]. cbn [map] in Hn |- *.
  rewrite join_cons, length_app in Hn by done. cbn [length] in Hn. lia.
Qed.

Lemma parse_atom n v : readable v ->
  match v with
  | JArr _ | JObj _ => True
  | _ => parse_json_fuel (S n) (print v) = Some (of_json v)
  end.
Proof.
  intros H. destruct v as [|[]|x|s| |]; try done.
  - cbn [parse_json_fuel]. cbv zeta. rewrite trim_solid by by apply print_solid. cbn [print].
    destruct (show_Z_digits x H) as [Hd Hne]. destruct (f64_integer x H) as (y & Hy & _ & _).
    cbn [of_json]. unfold number. rewrite Hy.
    destruct (show_Z x) as [|b t] eqn:Et; [done|]. apply Forall_cons in Hd as [Hb _].
    unfold is_ascii_digit in Hb. apply in_range_spec in Hb.
    destruct (not_words b t) as (-> & -> & ->); [lia..|]. cbn [starts_with_byte].
    rewrite !(proj2 (Z.eqb_neq b _)) by lia. cbn [andb]. reflexivity.
  - cbn [parse_json_fuel]. cbv zeta. rewrite trim_solid by by apply print_solid. cbn [print]. unfold string_text.
    destruct (not_words 34 (concat (map escape_byte s) ++ [34])) as (-> & -> & ->); [done..|].
    destruct (wrapped 34 34 (concat (map escape_byte s))) as (-> & -> & ->). cbn [andb].
    rewrite len_cons, len_app. pose proof (len_nonneg (concat (map escape_byte s))).
    rewrite (proj2 (Z.leb_le _ _)) by (change (len [34]) with 1; lia). by rewrite unescape_text.
Qed.

Lemma parse_print_fuel n : reads (parse_json_fuel n) n.
Proof.
  induction n as [|n IH]; intros v H Hn; [lia|]. pose proof (parse_atom n v H) as Ha.
  destruct v as [| | | |l|l]; try exact Ha; clear Ha; pose proof (print_solid _ H) as Hs;
    cbn [parse_json_fuel]; cbv zeta; rewrite (trim_solid _ Hs); clear Hs; cbn [print] in *;
    rewrite length_cons, length_app in Hn; cbn [length] in Hn.
  - destruct (not_words 91 (join 44 (map print l) ++ [93])) as (-> & -> & ->); [done..|].
    destruct (wrapped 91 93 (join 44 (map print l))) as (-> & -> & ->).
    cbn [starts_with_byte andb Z.eqb Pos.eqb]. destruct l as [|v l]; [done|].
    assert (Hf : Forall (fun t => flat t /\ solid t) (map print (v :: l))).
    { apply readable_arr in H. apply Forall_fmap. eapply Forall_impl; [exact H|]. intros w Hw.
      split; [by apply (print_flat (size w)) | by apply print_solid]. }
    assert (Hj : solid (join 44 (map print (v :: l)))).
    { apply solid_join; [done|]. eapply Forall_impl; [exact Hf|]. by intros t [_ ?]. }
    rewrite (trim_solid _ Hj), split_join_items by done.
    rewrite (parse_items_print _ n) by (try apply readable_arr; done || lia).
    unfold bytes_eqb. rewrite bool_decide_eq_false_2; [done|]. intros E. rewrite E in Hj. by destruct Hj as (? & ? & ? & _).
  - fold print_field in *. change (map (fun f => string_text (fst f) ++ 58 :: print (snd f)) l) with (map print_field l) in *.
    destruct (not_words 123 (join 44 (map print_field l) ++ [125])) as (-> & -> & ->); [done..|].
    destruct (wrapped 123 125 (join 44 (map print_field l))) as (-> & -> & ->).
    cbn [starts_with_byte andb Z.eqb Pos.eqb]. destruct l as [|f l]; [done|].
    assert (Hf : Forall (fun t => flat t /\ solid t) (map print_field (f :: l))).
    { apply readable_obj in H. apply Forall_fmap. eapply Forall_impl; [exact H|]. intros [k w] [Hk Hw].
      unfold compose, print_field. cbn [fst snd] in *. split.
      - apply flat_app; [apply flat_string|]. change (58 :: print w) with ([58] ++ print w).
        apply flat_app; [|by apply (print_flat (size w))].
        apply flat_inert. repeat constructor. unfold inert. set_solver.
      - destruct (print_solid w Hw) as (a & b & Ha & Hb & Va & Vb). exists 34, b. split_and!; [done| |done..].
        rewrite last_app, last_cons, Hb. done. }
    assert (Hj : solid (join 44 (map print_field (f :: l)))).
    { apply solid_join; [done|]. eapply Forall_impl; [exact Hf|]. by intros t [_ ?]. }
    rewrite (trim_solid _ Hj), split_join_items by done.
    rewrite (parse_pairs_print _ n) by (try apply readable_obj; done || lia).
    unfold bytes_eqb. rewrite bool_decide_eq_false_2; [done|]. intros E. rewrite E in Hj. by destruct Hj as (? & ? & ? & _).
Qed.

(** The text of a value reads back. *)
Lemma parse_json_print v : readable v -> parse_json_value (print v) = Some (of_json v).
Proof. intros H. apply parse_print_fuel; [done | lia]. Qed.

Lemma parse_obj_print l : readable (JObj l) ->
  parse_json_obj (print (JObj l)) = Some (foldl (fun m f => hash_insert m (fst f) (of_json (snd f))) [] l).
Proof.
  intros H. unfold parse_json_obj. rewrite trim_solid by by apply print_solid. by rewrite parse_json_print.
Qed.
End RoundTrip.
