(* ===== verification/Lsp.v ===== *)
(** The language server (pulselang-core/src/lsp.rs): [LspServer], its handling of
    the requests of an editor, the framing of messages, and the loop of
    pulc-lsp/src/main.rs. *)

From S2P Require Import Prelude Fmt RustStd RustStr Isa Token Error Lexer Compiler Toolchain Ir LspJson.
From stdpp Require Import gmap.
Local Open Scope Z_scope.

(** Running out of the fuel of a loop, which does not happen (LspProps.v). *)
Inductive stuck : Set := NoFuel.
Notation served := (outcome stuck).

(** A text with apostrophes for quotes and tildes for line feeds. *)
Definition js (s : string) : list Z :=
  map (fun c => if c =? 39 then 34 else if c =? 126 then 10 else c) (bytes s).

(** * Words, lines and slices *)

(** [&line[i..j]]: a panic inside a character. *)
Definition boundary (l : list Z) (i : Z) : bool :=
  match getZ l i with Some b => negb (is_cont b) | None => i =? len l end.

Definition str_slice (l : list Z) (i j : Z) : served (list Z) :=
  if (i <=? j) && boundary l i && boundary l j then mret (sub l i j) else Panic SliceOutOfRange.

Definition is_word_char (b : Z) : bool :=
  is_ascii_alphanumeric b || (b =? 95) || (b =? 64) || (b =? 36) || (b =? 35).

(** The two loops of [extract_word_at]. *)
Fixpoint word_start (line : list Z) (start : nat) : Z :=
  match start with
  | O => 0
  | S n => match line !! n with
           | Some b => if is_word_char b then word_start line n else Z.of_nat start
           | None => Z.of_nat start
           end
  end.

Fixpoint word_len (l : list Z) : Z :=
  match l with b :: l => if is_word_char b then 1 + word_len l else 0 | [] => 0 end.

Definition extract_word_at (line : list Z) (character : Z) : served (list Z) :=
  if len line <=? character then mret []
  else
    let start := word_start line (Z.to_nat character) in
    let end_ := character + word_len (drop (Z.to_nat character) line) in
    str_slice line start end_.

(** * Diagnostics *)

Definition format_lsp_diagnostic (err : CompileError) : list Z :=
  let line := show_Z (Z.max 0 (err_line err - 1)) in
  let col := Z.max 0 (err_col err - 1) in
  let end_col := col + Z.max (token_len err) 1 in
  let msg := bytes "[" ++ bytes (Error.code err) ++ bytes "] (" ++ bytes (Error.category err) ++ bytes ") "
    ++ bytes (message err) ++ js "~Stage: " ++ bytes (stage err) ++ js "~AI Repair Hint: " ++ bytes (suggestion err) in
  js "{'range':{'start':{'line':" ++ line ++ js ",'character':" ++ show_Z col ++ js "},'end':{'line':" ++ line
    ++ js ",'character':" ++ show_Z end_col ++ js "}},'severity':1,'code':'" ++ bytes (Error.code err)
    ++ js "','source':'pulc','message':'" ++ LspJson.escape_json msg ++ js "','data':{'category':'"
    ++ bytes (Error.category err) ++ js "','repairability':'" ++ bytes (repairability err)
    ++ js "','ai_repair_hint':'" ++ LspJson.escape_json (bytes (suggestion err)) ++ js "'}}".

Definition notification (uri : list Z) (diags : list (list Z)) : list Z :=
  js "{'jsonrpc':'2.0','method':'textDocument/publishDiagnostics','params':{'uri':'" ++ LspJson.escape_json uri
    ++ js "','diagnostics':[" ++ RustStr.join 44 diags ++ js "]}}".

(** * Hover and completion *)

Definition hover_text (word : list Z) : option (list Z) :=
  if bytes_eqb word (bytes "@tsc") then
    Some (js "### `@tsc() -> i64`~~Reads hardware Timestamp Counter (TSC) cycle count.~~- **WCET**: 25 ns~- **Category**: Hardware Time Intrinsic~- **Requires**: `@import 'sys';`")
  else if bytes_eqb word (bytes "@uptime_ns") then
    Some (js "### `@uptime_ns() -> i64`~~Returns nanoseconds elapsed since OS boot.~~- **WCET**: 35 ns~- **Category**: System Time Intrinsic~- **Requires**: `@import 'sys';`")
  else if bytes_eqb word (bytes "@core_id") then
    Some (js "### `@core_id() -> i64`~~Returns active CPU core index (0..3).~~- **WCET**: 15 ns~- **Category**: Multicore Intrinsic~- **Requires**: `@import 'sys';`")
  else if bytes_eqb word (bytes "@contract") then
    Some (js "### `@contract: @wcet(<bound>) @budget(<bound>);`~~Declares static worst-case execution time (WCET) constraint and dynamic runtime budget.")
  else if bytes_eqb word (bytes "@requires") then
    Some (js "### `@requires(<expr>)`~~Design-by-Contract precondition check. Verified on function entry.")
  else if bytes_eqb word (bytes "@ensures") then
    Some (js "### `@ensures(<expr>)`~~Design-by-Contract postcondition check. Evaluates `$result` against assertion before return.")
  else if bytes_eqb word (bytes "@test") then
    Some (js "### `@test 'name' @budget(<time>) { ... }`~~Native unit test declaration with real-time budget guard.")
  else if bytes_eqb word (bytes "@println") then
    Some (js "### `@println($val: any) -> void`~~Outputs string, variable, or literal to serial/screen.~~- **WCET**: 5,000 ns")
  else if bytes_eqb word (bytes "@print") then
    Some (js "### `@print($val: any) -> void`~~Outputs string or variable without newline.~~- **WCET**: 5,000 ns")
  else if bytes_eqb word (bytes "@assert") then
    Some (js "### `@assert(<condition>)`~~Trap CPU if condition is false (`ERR_PX64_ASSERTION_FAILED`).~~- **WCET**: 10 ns")
  else if bytes_eqb word (bytes "@send") then
    Some (js "### `@send(#handle) -> void`~~Linear type consumption. Sends network/hardware packet.~~- **Linearity**: Consumes `#handle` exactly once.")
  else if bytes_eqb word (bytes "@capture") then
    Some (js "### `@capture() -> #handle`~~Zero-copy hardware frame capture. Returns linear handle.~~- **Linearity**: Must be consumed via `@send` or drop.")
  else if RustStr.starts_with word (bytes "$") then
    Some (js "### Variable `" ++ word ++ js "`~~PulseLang 64-bit integer / fixed-point register.")
  else if RustStr.starts_with word (bytes "#") then
    Some (js "### Linear Hardware Handle `" ++ word ++ js "`~~Must be consumed exactly once without leaks or double-sends.")
  else None.

Definition compute_completions : list Z :=
  RustStr.join 10
    [js "[";
     js "            {'label':'@contract','kind':15,'detail':'Static WCET and Dynamic Budget Contract','insertText':'@contract: @wcet(${1:100us}) @budget(${2:500us});'},";
     js "            {'label':'@test','kind':15,'detail':'Native Test Block with Budget','insertText':'@test \'${1:test name}\' @budget(${2:50us}) {\n    $0\n}'},";
     js "            {'label':'@requires','kind':15,'detail':'Precondition Contract','insertText':'@requires(${1:$arg >= 0})'},";
     js "            {'label':'@ensures','kind':15,'detail':'Postcondition Contract','insertText':'@ensures(${1:$result >= 0})'},";
     js "            {'label':'@import','kind':15,'detail':'Runtime Module Import','insertText':'@import \'${1|core,math,sys,net,vram,gpu,all,tiny|}\';'},";
     js "            {'label':'@tsc','kind':3,'detail':'Read Timestamp Counter (25ns WCET)','insertText':'@tsc()'},";
     js "            {'label':'@uptime_ns','kind':3,'detail':'Read System Uptime in ns (35ns WCET)','insertText':'@uptime_ns()'},";
     js "            {'label':'@core_id','kind':3,'detail':'Read Core ID (15ns WCET)','insertText':'@core_id()'},";
     js "            {'label':'@println','kind':3,'detail':'Print Line to Output Console','insertText':'@println(${1:$val});'},";
     js "            {'label':'@print','kind':3,'detail':'Print to Output Console','insertText':'@print(${1:$val});'},";
     js "            {'label':'@assert','kind':3,'detail':'Assert Condition','insertText':'@assert(${1:condition});'},";
     js "            {'label':'@capture','kind':3,'detail':'Capture Linear Hardware Frame','insertText':'@capture()'},";
     js "            {'label':'@send','kind':3,'detail':'Consume and Send Linear Handle','insertText':'@send(${1:#handle});'},";
     js "            {'label':'fn','kind':14,'detail':'Function Declaration','insertText':'fn ${1:name}(${2:$arg: i64}) -> ${3:i64} {\n    $0\n}'},";
     js "            {'label':'let','kind':14,'detail':'Immutable Variable Binding','insertText':'let $${1:x} = ${2:0};'},";
     js "            {'label':'let mut','kind':14,'detail':'Mutable Variable Binding','insertText':'let mut $${1:x} = ${2:0};'},";
     js "            {'label':'match','kind':14,'detail':'Exhaustive Pattern Matching','insertText':'match ${1:$expr} {\n    ${2:Pattern} => ${3:expr},\n}'}";
     js "        ]"].

(** * Semantic tokens *)

Definition token_type (k : TokenKind.t) : option Z :=
  match k with
  | TokenKind.Let | TokenKind.Mut | TokenKind.Match | TokenKind.If | TokenKind.Else | TokenKind.While
  | TokenKind.Within | TokenKind.For | TokenKind.In | TokenKind.Fn | TokenKind.Struct | TokenKind.Const
  | TokenKind.Enum | TokenKind.Return | TokenKind.Drop => Some 0
  | TokenKind.VarIdent => Some 1
  | TokenKind.HardwareIdent => Some 2
  | TokenKind.Fixed | TokenKind.I64 | TokenKind.U8 | TokenKind.U16 | TokenKind.U32 | TokenKind.U64 => Some 3
  | TokenKind.Ident => Some 4
  | TokenKind.AtContract | TokenKind.AtPipeline | TokenKind.AtBudget | TokenKind.AtWcet | TokenKind.AtWithin
  | TokenKind.AtWhile | TokenKind.AtFor | TokenKind.AtLoop | TokenKind.AtOnVblank | TokenKind.AtAssert
  | TokenKind.AtRequires | TokenKind.AtEnsures | TokenKind.AtInvariant | TokenKind.AtPoolSize
  | TokenKind.AtTest | TokenKind.AtImport | TokenKind.IntrinsicIdent => Some 5
  | TokenKind.Number _ | TokenKind.FloatLit _ _ | TokenKind.TimeLiteral _ => Some 6
  | TokenKind.StringLit => Some 7
  | TokenKind.ColonEq | TokenKind.PlusEq | TokenKind.MinusEq | TokenKind.Pipe | TokenKind.EqEq
  | TokenKind.NotEq | TokenKind.LtEq | TokenKind.GtEq | TokenKind.And | TokenKind.Or => Some 8
  | _ => None
  end.

(** The loop over the tokens: five numbers for each, positions relative to the
    token before. *)
Fixpoint token_data (toks : list Token) (prev_line prev_col : Z) : list Z :=
  match toks with
  | [] => []
  | tok :: toks =>
    if bool_decide (kind tok = TokenKind.Eof) || (tlen tok =? 0) then token_data toks prev_line prev_col
    else
      match token_type (kind tok) with
      | Some t_type =>
        let cur_line := as_u32 (Z.max 0 (Token.line tok - 1)) in
        let cur_col := as_u32 (Z.max 0 (col tok - 1)) in
        let delta_line := Z.max 0 (cur_line - prev_line) in
        let delta_col := if delta_line =? 0 then Z.max 0 (cur_col - prev_col) else cur_col in
        delta_line :: delta_col :: as_u32 (tlen tok) :: t_type :: 0 :: token_data toks cur_line cur_col
      | None => token_data toks prev_line prev_col
      end
  end.

(** * The server *)

Record LspServer : Type := mkLsp {
  documents : gmap (list Z) (list Z);
  shutdown_requested : bool;
}.

Definition lsp_new : LspServer := mkLsp ∅ false.

Definition set_document (s : LspServer) (uri text : list Z) : LspServer :=
  mkLsp (<[uri := text]> (documents s)) (shutdown_requested s).

Section Server.
Context (oc : bool).

(** The output buffer of the compiler is 1024 bytes here. *)
Definition publish_diagnostics (s : LspServer) (uri : list Z) : served (option (list Z)) :=
  match documents s !! uri with
  | None => mret None
  | Some text =>
    match compile_pulse_to_binary oc text (replicate 1024 0) with
    | Ok _ => mret (Some (notification uri []))
    | Err (Diagnostic err) => mret (Some (notification uri [format_lsp_diagnostic err]))
    | Err OutOfFuel => Err NoFuel
    | Panic k => Panic k
    end
  end.

Definition compute_hover (s : LspServer) (uri : list Z) (line character : Z) : served (option (list Z)) :=
  match documents s !! uri with
  | None => mret None
  | Some text =>
    match getZ (lines text) line with
    | None => mret None
    | Some cur_line =>
      if len cur_line <=? character then mret None
      else word ← extract_word_at cur_line character; mret (hover_text word)
    end
  end.

Definition at_start (uri new_text : list Z) : list Z :=
  js "'edit':{'changes':{'" ++ LspJson.escape_json uri
    ++ js "':[{'range':{'start':{'line':0,'character':0},'end':{'line':0,'character':0}},'newText':'"
    ++ new_text ++ js "'}]}}}".

Definition compute_code_actions (s : LspServer) (uri : list Z) : list Z :=
  match documents s !! uri with
  | None => bytes "[]"
  | Some text =>
    let contract := if Ir.contains text (bytes "@contract:") then [] else
      [js "{'title':'Add @contract WCET & Budget annotation','kind':'quickfix',"
         ++ at_start uri (js "@contract: @wcet(100us) @budget(500us);\n")] in
    let import := if (Ir.contains text (bytes "@tsc") || Ir.contains text (bytes "@uptime_ns"))
                     && negb (Ir.contains text (bytes "@import")) then
      [js "{'title':'Add @import \'sys\'; for time intrinsics','kind':'quickfix',"
         ++ at_start uri (js "@import \'sys\';\n")] else [] in
    bytes "[" ++ RustStr.join 44 (contract ++ import) ++ bytes "]"
  end.

Definition compute_formatting (s : LspServer) (uri : list Z) : served (list Z) :=
  match documents s !! uri with
  | None => mret (bytes "[]")
  | Some text =>
    match format_source oc text with
    | None => Err NoFuel
    | Some (Panic k) => Panic k
    | Some (Err _) => mret (bytes "[]")
    | Some (Ok formatted) =>
      if bytes_eqb formatted text then mret (bytes "[]")
      else mret (js "[{'range':{'start':{'line':0,'character':0},'end':{'line':" ++ show_Z (len (lines text) + 1)
                   ++ js ",'character':0}},'newText':'" ++ LspJson.escape_json formatted ++ js "'}]")
    end
  end.

(** The numbers of the semantic tokens, none when the lexer fails. *)
Definition semantic_data (text : list Z) : served (list Z) :=
  match tokenize oc text (replicate 4096 empty_token) with
  | None => Err NoFuel
  | Some (Panic k) => Panic k
  | Some (Err _) => mret []
  | Some (Ok (count, tokens)) => mret (token_data (take (Z.to_nat count) tokens) 0 0)
  end.

Definition compute_semantic_tokens (s : LspServer) (uri : list Z) : served (list Z) :=
  match documents s !! uri with
  | None => mret []
  | Some text => data ← semantic_data text; mret (RustStr.join 44 (map show_Z data))
  end.

(** ** Requests *)

Context {F : Type} `{!Float64 F} (iter_order : entries (F := F) -> entries (F := F)).

Definition document (req : entries (F := F)) : option (JsonValue F) :=
  params ← hash_get req (bytes "params"); get params "textDocument".

Definition document_uri (req : entries (F := F)) : option (list Z) :=
  doc ← document req; uri ← get doc "uri"; as_str uri.

(** The parameters of a hover request: the document, the line and the column. *)
Definition hover_params (req : entries (F := F)) : option (list Z * Z * Z) :=
  uri ← document_uri req;
  params ← hash_get req (bytes "params");
  pos ← get params "position";
  line ← get pos "line";
  line ← as_u64 line;
  character ← get pos "character";
  character ← as_u64 character;
  mret (uri, line, character).

(** The text of a document that is opened. *)
Definition opened (req : entries (F := F)) : option (list Z * list Z) :=
  doc ← document req;
  uri ← get doc "uri"; uri ← as_str uri;
  text ← get doc "text"; text ← as_str text;
  mret (uri, text).

(** The changes of a document that is changed; of these the last counts. *)
Definition changed (req : entries (F := F)) : option (list Z * option (list Z)) :=
  uri ← document_uri req;
  params ← hash_get req (bytes "params");
  changes ← get params "contentChanges";
  changes ← as_array changes;
  mret (uri, last_change ← last changes; t ← get last_change "text"; as_str t).

Definition result_response (id result : list Z) : list Z :=
  js "{'jsonrpc':'2.0','id':" ++ id ++ js ",'result':" ++ result ++ js "}".

Definition capabilities (id : list Z) : list Z :=
  js "{'jsonrpc':'2.0','id':" ++ id
    ++ js ",'result':{'capabilities':{'textDocumentSync':1,'hoverProvider':true,'completionProvider':{'resolveProvider':false,'triggerCharacters':['@','$','#',':']},'codeActionProvider':true,'documentFormattingProvider':true,'semanticTokensProvider':{'legend':{'tokenTypes':['keyword','variable','parameter','type','function','macro','number','string','operator','comment'],'tokenModifiers':['declaration','readonly']},'full':true}}}}".

Definition not_found (id method : list Z) : list Z :=
  js "{'jsonrpc':'2.0','id':" ++ id ++ js ",'error':{'code':-32601,'message':'Method not found: " ++ method
    ++ js "'}}".

(** An answer that needs an id and a document. *)
Definition with_document (id : option (list Z)) (req : entries (F := F))
    (answer : list Z -> list Z -> served (list Z)) : served (option (list Z)) :=
  match id, document_uri req with
  | Some id, Some uri => r ← answer id uri; mret (Some r)
  | _, _ => mret None
  end.

Definition hover (s : LspServer) (id : option (list Z)) (req : entries (F := F)) : served (option (list Z)) :=
  match id, hover_params req with
  | Some id, Some (uri, line, character) =>
    hover_info ← compute_hover s uri line character;
    let result := match hover_info with
                  | Some info => js "{'contents':{'kind':'markdown','value':'" ++ LspJson.escape_json info ++ js "'}}"
                  | None => bytes "null"
                  end in
    mret (Some (result_response id result))
  | _, _ => mret None
  end.

(** The request, once it has been parsed and its method found. *)
Definition dispatch (s : LspServer) (req : entries (F := F)) (method : list Z)
    : served (LspServer * option (list Z)) :=
  let id := to_json_string iter_order <$> hash_get req (bytes "id") in
  let named m := bytes_eqb method (bytes m) in
  let stay (r : served (option (list Z))) : served (LspServer * option (list Z)) := a ← r; mret (s, a) in
  if named "initialize" then stay (mret (capabilities <$> id))
  else if named "initialized" then stay (mret None)
  else if named "shutdown" then
    mret (mkLsp (documents s) true, (fun id => result_response id (bytes "null")) <$> id)
  else if named "exit" then stay (mret None)
  else if named "textDocument/didOpen" then
    match opened req with
    | Some (uri, text) =>
      let s := set_document s uri text in r ← publish_diagnostics s uri; mret (s, r)
    | None => stay (mret None)
    end
  else if named "textDocument/didChange" then
    match changed req with
    | Some (uri, Some text) =>
      let s := set_document s uri text in r ← publish_diagnostics s uri; mret (s, r)
    | _ => stay (mret None)
    end
  else if named "textDocument/didSave" then
    match document_uri req with
    | Some uri => stay (publish_diagnostics s uri)
    | None => stay (mret None)
    end
  else if named "textDocument/hover" then stay (hover s id req)
  else if named "textDocument/completion" then
    stay (mret ((fun id => result_response id compute_completions) <$> id))
  else if named "textDocument/codeAction" then
    stay (with_document id req (fun id uri => mret (result_response id (compute_code_actions s uri))))
  else if named "textDocument/formatting" then
    stay (with_document id req (fun id uri => edits ← compute_formatting s uri; mret (result_response id edits)))
  else if named "textDocument/semanticTokens/full" then
    stay (with_document id req (fun id uri =>
      data ← compute_semantic_tokens s uri;
      mret (result_response id (js "{'data':[" ++ data ++ js "]}"))))
  else stay (mret ((fun id => not_found id method) <$> id)).

Definition handle_request (s : LspServer) (request_json : list Z) : served (LspServer * option (list Z)) :=
  match (req ← parse_json_obj request_json; m ← hash_get req (bytes "method"); m ← as_str m; mret (req, m)) with
  | Some (req, method) => dispatch s req method
  | None => mret (s, None)
  end.

(** * Messages

    The input is what is left of it; its end is the end of the file. *)

Inductive message : Type :=
| Message (body rest : list Z)
| EndOfFile
| ReadError.

(** [read_line]: the line with its line feed, and the rest. *)
Fixpoint read_line (input : list Z) : list Z * list Z :=
  match input with
  | [] => ([], [])
  | b :: input => if b =? 10 then ([b], input) else let '(l, r) := read_line input in (b :: l, r)
  end.

Definition content_length_prefix : list Z := bytes "Content-Length:".

(** [strip_prefix] and [parse]. *)
Definition header_length (trimmed : list Z) (content_length : option Z) : option Z :=
  if RustStr.starts_with trimmed content_length_prefix then
    match parse_usize (trim (drop (length content_length_prefix) trimmed)) with
    | Some n => Some n
    | None => content_length
    end
  else content_length.

Inductive headers : Type :=
| Headers (content_length : option Z) (rest : list Z)
| NoHeaders
| BadHeader.

(** The loop over the header lines. Each takes a byte of the input. *)
Fixpoint read_headers (fuel : nat) (content_length : option Z) (input : list Z) : served headers :=
  match fuel with
  | O => Err NoFuel
  | S fuel =>
    let '(line, rest) := read_line input in
    if negb (utf8_valid line) then mret BadHeader
    else if len line =? 0 then mret NoHeaders
    else
      let trimmed := trim_end line in
      if len trimmed =? 0 then mret (Headers content_length rest)
      else read_headers fuel (header_length trimmed content_length) rest
  end.

(** [vec![0u8; len]] panics when the length is more than [isize::MAX]; that the
    memory may not suffice for less is left out. *)
Definition read_message (input : list Z) : served message :=
  h ← read_headers (S (length input)) None input;
  match h with
  | NoHeaders => mret EndOfFile
  | BadHeader | Headers None _ => mret ReadError
  | Headers (Some n) rest =>
    if 2 ^ 63 <=? n then Panic ArithmeticOverflow
    else if len rest <? n then mret ReadError
    else
      let buf := take (Z.to_nat n) rest in
      mret (if utf8_valid buf then Message buf (drop (Z.to_nat n) rest) else ReadError)
  end.

Definition write_message (body : list Z) : list Z :=
  js "Content-Length: " ++ show_Z (len body) ++ [13; 10; 13; 10] ++ body.

(** ** The loop of the program

    [put] is the effect of [write_message] on the output, [None] when it fails.
    The result is the exit code, with the server and the output. *)

Context {W : Type} (put : W -> list Z -> option W).

Fixpoint run_server (fuel : nat) (s : LspServer) (input : list Z) (w : W) : served (Z * LspServer * W) :=
  match fuel with
  | O => Err NoFuel
  | S fuel =>
    m ← read_message input;
    match m with
    | Message msg rest =>
      '(s, resp) ← handle_request s msg;
      match resp with
      | Some resp =>
        match put w (write_message resp) with
        | Some w => run_server fuel s rest w
        | None => mret (2, s, w)
        end
      | None => run_server fuel s rest w
      end
    | _ => mret (0, s, w)
    end
  end.

(** A message is at least one byte. *)
Definition main (input : list Z) (w : W) : served (Z * LspServer * W) :=
  run_server (S (length input)) lsp_new input w.
End Server.
