(* ===== verification/LspProps.v ===== *)
(** The language server: a session of requests is served as the protocol says,
    the semantic tokens decode to the tokens of the lexer, and when a document has
    a diagnostic. *)

From S2P Require Import Prelude Fmt RustStd RustStr Isa Token Error Lexer LexerProps Compiler Binary CompTotal Toolchain Json LspJson LspJsonProps Lsp.
From stdpp Require Import gmap.
Local Open Scope Z_scope.

(** * Semantic tokens *)

(** Reads the numbers of the protocol back: positions, lengths and types. *)
Fixpoint decode_tokens (fuel : nat) (data : list Z) (line col : Z) : option (list (Z * Z * Z * Z)) :=
  match fuel, data with
  | _, [] => Some []
  | S fuel, dl :: dc :: n :: ty :: _ :: data =>
    let l := line + dl in
    let c := if dl =? 0 then col + dc else dc in
    ts ← decode_tokens fuel data l c;
    mret ((l, c, n, ty) :: ts)
  | _, _ => None
  end.

(** What an editor highlights: line and column from 0, length, and type. *)
Definition highlighted (t : Token) : option (Z * Z * Z * Z) :=
  ty ← token_type (kind t);
  mret (Token.line t - 1, col t - 1, tlen t, ty).

Lemma line_scan_mono k : forall i line ls, ls <= i ->
  let r := line_scan k i line ls in
  line <= fst r /\ (fst r = line -> snd r = ls) /\ snd r <= i + len k.
Proof.
  induction k as [|b k IH]; intros i line ls Hl; cbn [line_scan].
  - rewrite len_nil. simpl. lia.
  - rewrite len_cons. pose proof (len_nonneg k). destruct (b =? 10).
    + destruct (IH (i + 1) (line + 1) (i + 1)) as (H1 & H2 & H3); [lia|]. cbn zeta in *. lia.
    + destruct (IH (i + 1) line ls) as (H1 & H2 & H3); [lia|]. cbn zeta in *. split_and!; [done..|lia].
Qed.

Lemma newlines_bound k : newlines k <= len k.
Proof. unfold newlines, len. pose proof (length_filter (fun b => b = 10) k). lia. Qed.

Lemma line_start_nonneg k : forall i line ls, 0 <= i -> 0 <= ls -> 0 <= snd (line_scan k i line ls).
Proof.
  induction k as [|b k IH]; intros i line ls Hi Hl; [done|]. cbn [line_scan]. case_match; apply IH; lia.
Qed.

(** Later positions come later: on a later line, or on the same line further on. *)
Lemma location_mono src p q : 0 <= p <= q -> q <= len src ->
  let '(lp, cp) := get_line_and_col src p in
  let '(lq, cq) := get_line_and_col src q in
  1 <= lp /\ 1 <= cp /\ lp <= lq /\ (lp = lq -> cq - cp = q - p) /\ lq <= q + 1 /\ cq <= q + 1.
Proof.
  intros Hp Hq. unfold get_line_and_col. rewrite !Z.min_l by lia.
  replace (take (Z.to_nat q) src)
    with (take (Z.to_nat p) src ++ take (Z.to_nat (q - p)) (drop (Z.to_nat p) src)).
  2: { rewrite take_take_drop. f_equal. lia. }
  rewrite line_scan_app.
  pose proof (line_scan_mono (take (Z.to_nat p) src) 0 1 0 ltac:(lia)) as H1. cbn zeta in H1.
  assert (El : len (take (Z.to_nat p) src) = p) by (unfold len in *; rewrite length_take; lia).
  assert (Ek : len (take (Z.to_nat (q - p)) (drop (Z.to_nat p) src)) = q - p)
    by (unfold len in *; rewrite length_take, length_drop; lia).
  rewrite El in *. pose proof (line_start_nonneg (take (Z.to_nat p) src) 0 1 0 ltac:(lia) ltac:(lia)) as B1.
  pose proof (line_scan_line (take (Z.to_nat p) src) 0 1 0) as N1.
  pose proof (newlines_bound (take (Z.to_nat p) src)) as M1. rewrite El in M1.
  destruct (line_scan (take (Z.to_nat p) src) 0 1 0) as [lp sp]. cbn [fst snd] in *.
  pose proof (line_scan_mono (take (Z.to_nat (q - p)) (drop (Z.to_nat p) src)) (0 + p) lp sp ltac:(lia)) as H2.
  pose proof (line_start_nonneg (take (Z.to_nat (q - p)) (drop (Z.to_nat p) src)) (0 + p) lp sp
    ltac:(lia) ltac:(lia)) as B2.
  pose proof (line_scan_line (take (Z.to_nat (q - p)) (drop (Z.to_nat p) src)) (0 + p) lp sp) as N2.
  pose proof (newlines_bound (take (Z.to_nat (q - p)) (drop (Z.to_nat p) src))) as M2.
  cbn zeta in H2. rewrite Ek in *.
  destruct (line_scan _ (0 + p) lp sp) as [lq sq]. cbn [fst snd] in *. lia.
Qed.

(** Reading the numbers of some tokens, from a position not after them. *)
Lemma decode_token_data src ts : forall lo prev_line prev_col fuel,
  len src < 2 ^ 32 - 1 -> spans src lo ts -> 0 <= lo ->
  0 <= prev_line -> 0 <= prev_col -> prev_line <= fst (get_line_and_col src lo) - 1 ->
  (prev_line = fst (get_line_and_col src lo) - 1 -> prev_col <= snd (get_line_and_col src lo) - 1) ->
  (length (token_data ts prev_line prev_col) <= fuel)%nat ->
  decode_tokens fuel (token_data ts prev_line prev_col) prev_line prev_col = Some (omap highlighted ts).
Proof.
  induction ts as [|t ts IH]; intros lo pl pc fuel Hs Hsp Hlo H0 H1 Hpl Hpc Hf; [by destruct fuel|].
  assert (Hlen : forall ts lo, spans src lo ts -> lo <= len src).
  { clear. induction ts as [|t ts IH]; intros lo; cbn [spans]; [done|].
    intros (? & ? & _ & _ & H%IH). lia. }
  cbn [spans] in Hsp. destruct Hsp as (Hst & Hn & Hk & Hlc & Hsp). pose proof (Hlen _ _ Hsp).
  pose proof (location_mono src lo (start t) ltac:(lia) ltac:(lia)) as M1.
  pose proof (location_mono src (start t) (start t + tlen t) ltac:(lia) ltac:(lia)) as M2.
  rewrite Hlc in M1, M2. destruct (get_line_and_col src lo) as [ll lc]. cbn [fst snd] in *.
  destruct (get_line_and_col src (start t + tlen t)) as [el ec] eqn:Ee.
  cbn [token_data omap list_omap] in *. rewrite bool_decide_eq_false_2 in * by done.
  rewrite (proj2 (Z.eqb_neq _ _)) in * by lia. cbn [orb] in *.
  unfold highlighted at 1. destruct (token_type (kind t)) as [ty|].
  - unfold as_u32, wrapU in *. rewrite !Z.mod_small in * by lia. rewrite !Z.max_r in * by lia.
    cbn [mbind option_bind mret option_ret]. destruct fuel as [|fuel]; [simpl in Hf; lia|].
    cbn [decode_tokens length] in *.
    match goal with
    | |- context [decode_tokens fuel _ ?l ?c] =>
      replace l with (Token.line t - 1) by lia;
      replace c with (col t - 1) by (repeat case_match; lia)
    end.
    rewrite (Z.max_r 0 (col t - 1)) in * by lia.
    rewrite (IH (start t + tlen t)); [done|..]; rewrite ?Ee; cbn [fst snd]; (done || lia).
  - cbn [mbind option_bind]. apply (IH (start t + tlen t)); rewrite ?Ee; cbn [fst snd]; (done || lia).
Qed.

(** C20: the semantic tokens of a document decode to the tokens of the lexer: for
    every text the lexer accepts, the numbers the server sends, read as the
    protocol says (lines and columns relative to the token before), are the
    position, length and type of each token of a highlighted kind, in order. *)
Theorem semantic_tokens_decode oc text :
  len text < 2 ^ 32 - 1 ->
  match tokenize oc text (replicate 4096 empty_token) with
  | Some (Ok (count, tokens)) =>
    exists data, semantic_data oc text = Ok data /\
      decode_tokens (length data) data 0 0 = Some (omap highlighted (take (Z.to_nat count) tokens))
  | Some (Err _) => semantic_data oc text = Ok []
  | Some (Panic k) => semantic_data oc text = Panic k /\ oc = true
  | None => False
  end.
Proof.
  intros Hl. unfold semantic_data.
  destruct (tokenize_result oc text (replicate 4096 empty_token)) as (r & -> & Hr).
  destruct r as [[n out]|e|k]; [|done|by destruct Hr as [-> _]].
  destruct Hr as (ts & eof & -> & Hn & -> & Hsp & _). eexists. split; [reflexivity|].
  assert (E : take (Z.to_nat (len ts)) (written (replicate 4096 empty_token) 0 (ts ++ [eof])) = ts).
  { unfold written, len. cbn [take]. rewrite Nat2Z.id. change (take (Z.to_nat 0) (replicate 4096 empty_token)) with (@nil Token).
    cbn [app]. by rewrite <-app_assoc, take_app_length. }
  rewrite E. pose proof (location_mono text 0 0 ltac:(lia) (len_nonneg text)) as M.
  destruct (get_line_and_col text 0) as [l c] eqn:El.
  apply (decode_token_data text ts 0); rewrite ?El; cbn [fst snd]; (done || lia).
Qed.

Definition two_lines : list Z := bytes "let $x = 10ms;" ++ [10] ++ bytes "  @println($x);".

Example semantic_tokens_decode_witness :
  exists data, semantic_data true two_lines = Ok data /\
    decode_tokens (length data) data 0 0 =
    Some [(0, 0, 3, 0); (0, 4, 2, 1); (0, 9, 4, 6); (1, 2, 8, 5); (1, 11, 2, 1)].
Proof.
  pose proof (semantic_tokens_decode true two_lines ltac:(vm_compute; reflexivity)) as H.
  destruct (tokenize true two_lines (replicate 4096 empty_token)) as [[[n ts]|e|k]|] eqn:E.
  - destruct H as (data & Hd & Hs). exists data. split; [exact Hd|]. rewrite Hs.
    vm_compute in E. injection E as <- <-. vm_compute. reflexivity.
  - vm_compute in E. discriminate E.
  - vm_compute in E. discriminate E.
  - destruct H.
Defined.

(** * Messages *)

Lemma dec_step_grows ds : forall a, digits ds -> 0 <= a -> a <= foldl dec_step a ds.
Proof.
  induction ds as [|b ds IH]; intros a Hd Ha; [done|]. apply Forall_cons in Hd as [Hb Hd].
  unfold is_ascii_digit in Hb. apply in_range_spec in Hb. cbn [foldl].
  specialize (IH (dec_step a b) Hd). unfold dec_step in *. lia.
Qed.

Lemma parse_digits_value ds : forall a, digits ds -> 0 <= a -> foldl dec_step a ds < 2 ^ 64 ->
  parse_digits a ds = Some (foldl dec_step a ds).
Proof.
  induction ds as [|b ds IH]; intros a Hd Ha Hv; [done|]. apply Forall_cons in Hd as [Hb Hd].
  cbn [parse_digits foldl] in *. rewrite Hb. unfold is_ascii_digit in Hb. apply in_range_spec in Hb.
  fold (dec_step a b). assert (0 <= dec_step a b) by (unfold dec_step; lia).
  pose proof (dec_step_grows ds (dec_step a b) Hd ltac:(lia)).
  rewrite (proj2 (Z.ltb_lt _ _)) by lia. by apply IH.
Qed.

(** A printed number reads back. *)
Lemma parse_show n : 0 <= n < 2 ^ 64 -> parse_usize (show_Z n) = Some n.
Proof.
  intros Hn. destruct (show_digits n) as [E Hne]; [lia|].
  assert (Hd : digits (show_Z n)) by (rewrite E; apply dec_digits_digits; constructor).
  assert (Hv : foldl dec_step 0 (show_Z n) = n) by (rewrite E; apply (dec_digits_value 20 n []); lia).
  assert (Hp : parse_digits 0 (show_Z n) = Some n) by (rewrite parse_digits_value by (done || lia); by rewrite Hv).
  destruct (show_Z n) as [|b l]; [done|]. apply Forall_cons in Hd as [Hb _].
  unfold is_ascii_digit in Hb. apply in_range_spec in Hb. unfold parse_usize.
  assert (E1 : (match b :: l with 43 :: (_ :: _) as k => k | _ => b :: l end) = b :: l) by (by repeat case_match).
  by rewrite E1.
Qed.

Lemma ascii_utf8 l : Forall (fun b => 0 <= b <= 127) l -> utf8_valid l = true.
Proof.
  induction 1 as [|b l Hb _ IH]; [done|]. cbn [utf8_valid].
  by rewrite (proj2 (in_range_spec 0 b 0x7F)) by lia.
Qed.

Lemma escape_high b : 128 <= b -> escape_byte b = [b].
Proof. intros. unfold escape_byte. by rewrite !(proj2 (Z.eqb_neq b _)) by lia. Qed.

Lemma escape_low b l : 0 <= b <= 127 -> utf8_valid (escape_byte b ++ l) = utf8_valid l.
Proof.
  intros Hb. unfold escape_byte. repeat (case_match; [done|]). cbn [app utf8_valid].
  by rewrite (proj2 (in_range_spec 0 b 0x7F)) by lia.
Qed.

(** Escaping leaves UTF-8 valid. *)
Lemma escape_utf8 s : utf8_valid s = true -> utf8_valid (concat (map escape_byte s)) = true.
Proof.
  remember (length s) as n eqn:Hn. revert s Hn. induction n as [n IH] using lt_wf_ind. intros s ->.
  destruct s as [|b0 l1]; [done|]. cbn [map concat].
  destruct (in_range 0 b0 0x7F) eqn:E0.
  { cbn [utf8_valid]. rewrite E0. apply in_range_spec in E0. rewrite escape_low by lia.
    intros H. apply (IH (length l1)); simpl; (done || lia). }
  intros Hv. assert (H0 : 128 <= b0).
  { revert Hv. cbn [utf8_valid]. rewrite E0.
    destruct (in_range 0xC2 b0 0xDF) eqn:E1; [apply in_range_spec in E1; lia|].
    destruct (in_range 0xE0 b0 0xEF) eqn:E2; [apply in_range_spec in E2; lia|].
    destruct (in_range 0xF0 b0 0xF4) eqn:E3; [apply in_range_spec in E3; lia|done]. }
  rewrite (escape_high b0) by done. cbn [app]. revert Hv. cbn [utf8_valid]. rewrite E0.
  assert (Hc : forall b, is_cont b = true -> escape_byte b = [b]).
  { intros b Hb. unfold is_cont in Hb. apply in_range_spec in Hb. apply escape_high. lia. }
  case_match.
  { destruct l1 as [|b1 l2]; [done|]. intros [Hx Hr]%andb_true_iff. cbn [map concat]. rewrite Hc by done.
    cbn [app]. rewrite Hx. cbn [andb]. apply (IH (length l2)); simpl; (done || lia). }
  case_match.
  { destruct l1 as [|b1 [|b2 l3]]; [done..|]. intros [Hx Hr]%andb_true_iff. cbn [map concat].
    pose proof Hx as Hb. apply andb_true_iff in Hb as [Hb1 Hb2].
    assert (escape_byte b1 = [b1]) as -> by (apply escape_high; revert Hb1; rewrite in_range_spec; repeat case_match; lia).
    rewrite (Hc b2) by done. cbn [app]. rewrite Hx. cbn [andb]. apply (IH (length l3)); simpl; (done || lia). }
  case_match; [|done].
  destruct l1 as [|b1 [|b2 [|b3 l4]]]; [done..|]. intros [Hx Hr]%andb_true_iff. cbn [map concat].
  pose proof Hx as Hb. rewrite !andb_true_iff in Hb. destruct Hb as [[Hb1 Hb2] Hb3].
  assert (escape_byte b1 = [b1]) as -> by (apply escape_high; revert Hb1; rewrite in_range_spec; repeat case_match; lia).
  rewrite (Hc b2), (Hc b3) by done. cbn [app]. rewrite Hx. cbn [andb]. apply (IH (length l4)); simpl; (done || lia).
Qed.

Fixpoint json_utf8 (v : json) : Prop :=
  match v with
  | JStr s => utf8_valid s = true
  | JArr l => (fix all l := match l with [] => True | v :: l => json_utf8 v /\ all l end) l
  | JObj l => (fix all l := match l with [] => True | (k, v) :: l => utf8_valid k = true /\ json_utf8 v /\ all l end) l
  | _ => True
  end.

Lemma utf8_arr l : json_utf8 (JArr l) -> Forall json_utf8 l.
Proof. induction l as [|v l IH]; [done|]. intros [Hv Hl]. constructor; [done | by apply IH]. Qed.

Lemma utf8_obj l : json_utf8 (JObj l) -> Forall (fun f => utf8_valid (fst f) = true /\ json_utf8 (snd f)) l.
Proof. induction l as [|[k v] l IH]; [done|]. intros (Hk & Hv & Hl). constructor; [done | by apply IH]. Qed.

Lemma string_utf8 s : utf8_valid s = true -> utf8_valid (string_text s) = true.
Proof.
  intros H. unfold string_text. change (utf8_valid (concat (map escape_byte s) ++ [34]) = true).
  by rewrite utf8_valid_app by by apply escape_utf8.
Qed.

Lemma join_utf8 ts : Forall (fun t => utf8_valid t = true) ts -> utf8_valid (RustStr.join 44 ts) = true.
Proof.
  induction 1 as [|t ts Ht Hts IH]; [done|]. destruct ts; [done|].
  rewrite join_cons by done. rewrite utf8_valid_app by done. exact IH.
Qed.

Lemma print_utf8 n : forall v, (Json.size v <= n)%nat -> readable v -> json_utf8 v -> utf8_valid (print v) = true.
Proof.
  induction n as [|n IH]; intros v Hn H Hu; [destruct v; simpl in Hn; lia|].
  destruct v as [|[]|x|s|l|l]; try done; cbn [print].
  - destruct (show_Z_digits x H) as [Hd _]. apply ascii_utf8. eapply Forall_impl; [exact Hd|].
    intros b Hb. unfold is_ascii_digit in Hb. apply in_range_spec in Hb. lia.
  - by apply string_utf8.
  - apply readable_arr in H. apply utf8_arr in Hu. rewrite Forall_forall in H, Hu.
    change (utf8_valid (RustStr.join 44 (map print l) ++ [93]) = true). rewrite utf8_valid_app; [done|].
    apply join_utf8, Forall_forall. intros t (v & -> & Hv)%list_elem_of_fmap.
    apply size_elem in Hv as Hs. apply IH; [lia|auto..].
  - apply readable_obj in H. apply utf8_obj in Hu. rewrite Forall_forall in H, Hu.
    change (utf8_valid (RustStr.join 44 (map print_field l) ++ [125]) = true). rewrite utf8_valid_app; [done|].
    apply join_utf8, Forall_forall. intros t ([k v] & -> & Hv)%list_elem_of_fmap.
    destruct (H _ Hv), (Hu _ Hv). apply size_field in Hv. unfold print_field. cbn [fst snd] in *.
    rewrite utf8_valid_app by by apply string_utf8. change (utf8_valid (print v) = true). apply IH; [lia|done..].
Qed.

(** * Reading what was written *)

Lemma read_line_app l r : 10 ∉ l -> read_line (l ++ 10 :: r) = (l ++ [10], r).
Proof.
  induction l as [|b l IH]; [done|]. rewrite not_elem_of_cons. intros [Hb Hl]. cbn [app read_line].
  rewrite (proj2 (Z.eqb_neq b 10)), IH by (done || congruence). done.
Qed.

(** A header line of the protocol, the blank before the number included. *)
Lemma trim_end_crlf l : (exists b, last l = Some b /\ visible b) -> trim_end (l ++ [13; 10]) = l.
Proof.
  intros (b & Hb & Hv). destruct l as [|x l _] using rev_ind; [done|]. rewrite last_snoc in Hb. injection Hb as ->.
  unfold trim_end. rewrite !rev_app_distr. cbn [rev app].
  change (strip ws1 (fun c b => ws2 b c) (fun d c b => ws3 b c d) (10 :: 13 :: b :: rev l))
    with (strip ws1 (fun c b => ws2 b c) (fun d c b => ws3 b c d) (b :: rev l)).
  unfold visible in Hv. rewrite strip_visible.
  - cbn [rev]. by rewrite rev_involutive.
  - unfold ws1, in_range. lia.
  - intros c. unfold ws2. lia.
  - intros c d. unfold ws3, in_range. lia.
Qed.

Lemma read_header_line fuel cl input line rest trimmed :
  read_line input = (line, rest) -> utf8_valid line = true -> line <> [] -> trim_end line = trimmed -> trimmed <> [] ->
  read_headers (S fuel) cl input = read_headers fuel (header_length trimmed cl) rest.
Proof.
  intros E Hu Hl Ht Hn. cbn [read_headers]. rewrite E, Hu. cbn [negb]. cbv zeta. rewrite Ht.
  assert (H : forall l : list Z, l <> [] -> (len l =? 0) = false).
  { intros l H0. apply Z.eqb_neq. destruct l as [|b l]; [done|]. rewrite len_cons. pose proof (len_nonneg l). lia. }
  by rewrite !H.
Qed.

Lemma read_last_header fuel cl rest : read_headers (S fuel) cl (13 :: 10 :: rest) = Ok (Headers cl rest).
Proof. reflexivity. Qed.

Lemma read_written body rest : utf8_valid body = true -> len body < 2 ^ 53 ->
  read_message (write_message body ++ rest) = Ok (Message body rest).
Proof.
  intros Hu Hl. pose proof (len_nonneg body). destruct (show_Z_digits (len body)) as [Hd Hne]; [lia|].
  assert (Hn : 10 ∉ js "Content-Length: " ++ show_Z (len body)).
  { rewrite not_elem_of_app. split; [vm_compute; set_solver|]. intros Hi. unfold digits in Hd.
    rewrite Forall_forall in Hd. specialize (Hd 10 Hi). done. }
  unfold read_message, write_message.
  replace ((js "Content-Length: " ++ show_Z (len body) ++ [13; 10; 13; 10] ++ body) ++ rest)
    with (((js "Content-Length: " ++ show_Z (len body)) ++ [13]) ++ 10 :: [13] ++ 10 :: body ++ rest)
    by (by rewrite <-!app_assoc).
  set (l1 := (js "Content-Length: " ++ show_Z (len body)) ++ [13]).
  remember (l1 ++ 10 :: [13] ++ 10 :: body ++ rest) as input eqn:Ei.
  assert (H1 : read_line input = (l1 ++ [10], [13] ++ 10 :: body ++ rest)).
  { rewrite Ei. apply read_line_app. unfold l1. rewrite not_elem_of_app, list_elem_of_singleton. done. }
  assert (Hd2 : Forall (fun b => 0 <= b <= 127) (l1 ++ [10])).
  { unfold l1. rewrite <-!app_assoc. apply Forall_app. split; [compute_fact|].
    apply Forall_app. split; [|repeat constructor; lia]. eapply Forall_impl; [exact Hd|].
    intros b Hb. unfold is_ascii_digit in Hb. apply in_range_spec in Hb. lia. }
  assert (Ht : trim_end (l1 ++ [10]) = js "Content-Length: " ++ show_Z (len body)).
  { unfold l1. rewrite <-app_assoc. apply trim_end_crlf.
    destruct (digits_solid _ Hd Hne) as (a & b & _ & Hb & _ & Hv). exists b. split; [|done].
    by rewrite last_app, Hb. }
  assert (Hh : header_length (js "Content-Length: " ++ show_Z (len body)) None = Some (len body)).
  { unfold header_length. change (js "Content-Length: ") with (content_length_prefix ++ [32]). rewrite <-app_assoc.
    unfold RustStr.starts_with. rewrite take_app_length, drop_app_length. unfold bytes_eqb.
    rewrite bool_decide_eq_true_2 by done.
    assert (Et : trim ([32] ++ show_Z (len body)) = show_Z (len body)).
    { unfold trim. change (trim_start ([32] ++ show_Z (len body))) with (trim_start (show_Z (len body))).
      fold (trim (show_Z (len body))). by apply trim_solid, digits_solid. }
    rewrite Et, parse_show by lia. done. }
  assert (Hnn : js "Content-Length: " ++ show_Z (len body) <> [])
    by (intros [E _]%app_eq_nil; vm_compute in E; discriminate E).
  destruct (length input) as [|k] eqn:Ek.
  { rewrite Ei, length_app in Ek. simpl in Ek. lia. }
  rewrite (read_header_line _ None input (l1 ++ [10]) ([13] ++ 10 :: body ++ rest) _ H1 (ascii_utf8 _ Hd2)
    ltac:(by destruct l1) Ht Hnn).
  rewrite Hh. cbn [app]. rewrite read_last_header. cbn [mbind outcome_bind].
  rewrite (proj2 (Z.leb_gt (2 ^ 63) _)) by lia.
  rewrite len_app. pose proof (len_nonneg rest). rewrite (proj2 (Z.ltb_ge _ _)) by lia.
  unfold len at 1. rewrite Nat2Z.id, take_app_length. rewrite Hu. unfold len. by rewrite Nat2Z.id, take_app_length, drop_app_length.
Qed.

(** * What an editor asks *)

Inductive request :=
| Initialize (id : Z)
| Initialized
| Shutdown (id : Z)
| Exit
| DidOpen (uri text : list Z)
| DidChange (uri : list Z) (texts : list (list Z))
| DidSave (uri : list Z)
| Hover (id : Z) (uri : list Z) (line character : Z)
| Completion (id : Z)
| CodeAction (id : Z) (uri : list Z)
| Formatting (id : Z) (uri : list Z)
| SemanticTokens (id : Z) (uri : list Z).

Definition field_of (k : string) (v : json) : list Z * json := (bytes k, v).
Definition text_document (uri : list Z) : list Z * json := field_of "textDocument" (JObj [field_of "uri" (JStr uri)]).

Definition request_of (method : string) (params : list (list Z * json)) : list (list Z * json) :=
  [field_of "jsonrpc" (JStr (bytes "2.0")); field_of "method" (JStr (bytes method)); field_of "params" (JObj params)].
Definition call_of (id : Z) (method : string) (params : list (list Z * json)) : list (list Z * json) :=
  field_of "id" (JNum id) :: request_of method params.

Definition fields_of_request (r : request) : list (list Z * json) :=
  match r with
  | Initialize id => call_of id "initialize" []
  | Initialized => request_of "initialized" []
  | Shutdown id => call_of id "shutdown" []
  | Exit => request_of "exit" []
  | DidOpen uri text => request_of "textDocument/didOpen"
      [field_of "textDocument" (JObj [field_of "uri" (JStr uri); field_of "text" (JStr text)])]
  | DidChange uri texts => request_of "textDocument/didChange"
      [text_document uri; field_of "contentChanges" (JArr (map (fun t => JObj [field_of "text" (JStr t)]) texts))]
  | DidSave uri => request_of "textDocument/didSave" [text_document uri]
  | Hover id uri line character => call_of id "textDocument/hover"
      [text_document uri; field_of "position" (JObj [field_of "line" (JNum line); field_of "character" (JNum character)])]
  | Completion id => call_of id "textDocument/completion" []
  | CodeAction id uri => call_of id "textDocument/codeAction" [text_document uri]
  | Formatting id uri => call_of id "textDocument/formatting" [text_document uri]
  | SemanticTokens id uri => call_of id "textDocument/semanticTokens/full" [text_document uri]
  end.

Definition request_text (r : request) : list Z := print (JObj (fields_of_request r)).

(** The numbers of a request are exact, its texts are UTF-8, and it is not
    longer than a number can say. *)
Definition request_ok (r : request) : Prop :=
  len (request_text r) < 2 ^ 53 /\
  match r with
  | Initialize id | Shutdown id | Completion id => 0 <= id < 2 ^ 53
  | Initialized | Exit => True
  | DidOpen uri text => utf8_valid uri = true /\ utf8_valid text = true
  | DidChange uri texts => utf8_valid uri = true /\ Forall (fun t => utf8_valid t = true) texts
  | DidSave uri => utf8_valid uri = true
  | Hover id uri line character =>
    0 <= id < 2 ^ 53 /\ utf8_valid uri = true /\ 0 <= line < 2 ^ 53 /\ 0 <= character < 2 ^ 53
  | CodeAction id uri | Formatting id uri | SemanticTokens id uri => 0 <= id < 2 ^ 53 /\ utf8_valid uri = true
  end.

(** ** What the server answers, by the kind of the request *)

Section Session.
Context (oc : bool).

Definition open_document (s : LspServer) (uri text : list Z) : served (LspServer * option (list Z)) :=
  let s := set_document s uri text in r ← publish_diagnostics oc s uri; mret (s, r).

Definition hover_result (info : option (list Z)) : list Z :=
  match info with
  | Some info => js "{'contents':{'kind':'markdown','value':'" ++ LspJson.escape_json info ++ js "'}}"
  | None => bytes "null"
  end.

Definition answer (s : LspServer) (r : request) : served (LspServer * option (list Z)) :=
  match r with
  | Initialize id => mret (s, Some (capabilities (show_Z id)))
  | Initialized | Exit => mret (s, None)
  | Shutdown id => mret (mkLsp (documents s) true, Some (result_response (show_Z id) (bytes "null")))
  | DidOpen uri text => open_document s uri text
  | DidChange uri texts => match last texts with Some text => open_document s uri text | None => mret (s, None) end
  | DidSave uri => a ← publish_diagnostics oc s uri; mret (s, a)
  | Hover id uri line character =>
    info ← compute_hover s uri line character; mret (s, Some (result_response (show_Z id) (hover_result info)))
  | Completion id => mret (s, Some (result_response (show_Z id) compute_completions))
  | CodeAction id uri => mret (s, Some (result_response (show_Z id) (compute_code_actions s uri)))
  | Formatting id uri => e ← compute_formatting oc s uri; mret (s, Some (result_response (show_Z id) e))
  | SemanticTokens id uri =>
    d ← compute_semantic_tokens oc s uri; mret (s, Some (result_response (show_Z id) (js "{'data':[" ++ d ++ js "]}")))
  end.

(** The documents as the editor has them. *)
Definition edited (docs : gmap (list Z) (list Z)) (r : request) : gmap (list Z) (list Z) :=
  match r with
  | DidOpen uri text => <[uri := text]> docs
  | DidChange uri texts => match last texts with Some text => <[uri := text]> docs | None => docs end
  | _ => docs
  end.

Context {W : Type} (put : W -> list Z -> option W).

Fixpoint session (rs : list request) (s : LspServer) (w : W) : served (Z * LspServer * W) :=
  match rs with
  | [] => mret (0, s, w)
  | r :: rs =>
    '(s, resp) ← answer s r;
    match resp with
    | Some resp =>
      match put w (write_message resp) with
      | Some w => session rs s w
      | None => mret (2, s, w)
      end
    | None => session rs s w
    end
  end.
End Session.

Lemma obj_readable l : Forall (fun f => key_ok (fst f) /\ readable (snd f)) l -> readable (JObj l).
Proof. induction 1 as [|[k v] l [Hk Hv] _ IH]; [done|]. by split_and!. Qed.

Lemma obj_utf8 l : Forall (fun f => utf8_valid (fst f) = true /\ json_utf8 (snd f)) l -> json_utf8 (JObj l).
Proof. induction 1 as [|[k v] l [Hk Hv] _ IH]; [done|]. by split_and!. Qed.

Lemma arr_readable l : Forall readable l -> readable (JArr l).
Proof. induction 1; [done|]. by split. Qed.

Lemma arr_utf8 l : Forall json_utf8 l -> json_utf8 (JArr l).
Proof. induction 1; [done|]. by split. Qed.

(** The fields of a request, one by one. *)
Ltac fields_solve :=
  repeat match goal with
  | |- readable (JObj _) => apply obj_readable
  | |- json_utf8 (JObj _) => apply obj_utf8
  | |- readable (JArr _) => apply arr_readable, Forall_fmap, Forall_true; intros ?; unfold compose
  | |- json_utf8 (JArr _) => apply arr_utf8, Forall_fmap; unfold compose
  | |- readable (JStr _) => exact I
  | |- readable (JNum _) => cbn [readable]; tauto
  | |- json_utf8 (JNum _) => exact I
  | |- json_utf8 (JStr (bytes _)) => reflexivity
  | |- json_utf8 (JStr _) => cbn [json_utf8]; tauto
  | |- Forall _ (_ :: _) => apply Forall_cons_2
  | |- Forall _ [] => constructor
  | |- _ /\ readable _ => split; [compute_fact|]
  | |- _ /\ json_utf8 _ => split; [reflexivity|]
  | |- readable (snd (_, ?v)) => change (readable v)
  | |- json_utf8 (snd (_, ?v)) => change (json_utf8 v)
  end.

Lemma request_readable r : request_ok r -> readable (JObj (fields_of_request r)).
Proof.
  intros [_ H]. destruct r; cbn [fields_of_request];
    unfold call_of, request_of, text_document, field_of; cbn [fst snd]; fields_solve.
Qed.

Lemma request_utf8 r : request_ok r -> json_utf8 (JObj (fields_of_request r)).
Proof.
  intros [_ H]. destruct r; cbn [fields_of_request];
    unfold call_of, request_of, text_document, field_of; cbn [fst snd]; fields_solve.
  eapply Forall_impl; [exact (proj2 H)|]. intros t Ht. fields_solve.
Qed.

(** ** Requests are answered *)

Section Requests.
Context (oc : bool) {F : Type} `{!Float64 F} `{!Float64Laws F}.
Context (iter_order : entries (F := F) -> entries (F := F)).
Notation JsonValue := (JsonValue F).

Lemma hash_get_insert (m : entries (F := F)) k v k' :
  hash_get (hash_insert m k v) k' = if bytes_eqb k k' then Some v else hash_get m k'.
Proof.
  unfold bytes_eqb. induction m as [|[a x] m IH]; cbn [hash_insert hash_get].
  - unfold bytes_eqb. done.
  - unfold bytes_eqb. repeat case_bool_decide; subst; cbn [hash_get]; unfold bytes_eqb;
      repeat case_bool_decide; subst; try done; by rewrite IH.
Qed.

Ltac eval_eqb :=
  repeat match goal with
  | |- context [bytes_eqb (bytes ?a) (bytes ?b)] =>
    let r := eval vm_compute in (bytes_eqb (bytes a) (bytes b)) in change (bytes_eqb (bytes a) (bytes b)) with r
  end; cbv iota.

(** The members of an object the server has read. *)
Definition members (l : list (list Z * json)) : entries (F := F) :=
  foldl (fun m f => hash_insert m (fst f) (of_json (snd f))) [] l.

Ltac eval_get :=
  unfold members, call_of, request_of, text_document, field_of; cbn [foldl fst snd of_json];
  rewrite ?hash_get_insert; eval_eqb; cbn [hash_get mbind option_bind].

Lemma params_of id method params :
  hash_get (members (call_of id method params)) (bytes "params") = Some (Object (members params)) /\
  hash_get (members (request_of method params)) (bytes "params") = Some (Object (members params)).
Proof. split; by eval_get. Qed.

Lemma id_of id method params : 0 <= id < 2 ^ 53 ->
  to_json_string iter_order <$> hash_get (members (call_of id method params)) (bytes "id") = Some (show_Z id).
Proof.
  intros Hi. eval_get. unfold number. destruct (f64_integer id Hi) as (x & -> & _ & E). cbn. by rewrite E.
Qed.

(** The parts of a request's parameters. *)
Ltac eval_params :=
  unfold changed, opened, hover_params, document_uri, document;
  repeat (eval_get; cbn [get as_str as_array mret option_ret]).

Lemma changed_of uri texts :
  changed (members (fields_of_request (DidChange uri texts))) = Some (uri, last texts).
Proof.
  cbn [fields_of_request]. eval_params. rewrite map_map. f_equal. f_equal.
  change (map ?f texts) with (f <$> texts). rewrite fmap_last. destruct (last texts); [|done].
  cbn [fmap option_fmap option_map mbind option_bind of_json]. by eval_params.
Qed.

Lemma hover_of id uri line character : 0 <= line < 2 ^ 53 -> 0 <= character < 2 ^ 53 ->
  hover_params (members (fields_of_request (Hover id uri line character))) = Some (uri, line, character).
Proof.
  intros Hl Hc. cbn [fields_of_request]. eval_params. unfold number.
  destruct (f64_integer line Hl) as (x & -> & Ex & _). destruct (f64_integer character Hc) as (y & -> & Ey & _).
  cbn. by rewrite Ex, Ey.
Qed.

Lemma uri_of id uri method :
  document_uri (members (call_of id method [text_document uri])) = Some uri.
Proof. by eval_params. Qed.

Definition method_name (r : request) : string :=
  match r with
  | Initialize _ => "initialize" | Initialized => "initialized" | Shutdown _ => "shutdown" | Exit => "exit"
  | DidOpen _ _ => "textDocument/didOpen" | DidChange _ _ => "textDocument/didChange"
  | DidSave _ => "textDocument/didSave" | Hover _ _ _ _ => "textDocument/hover"
  | Completion _ => "textDocument/completion" | CodeAction _ _ => "textDocument/codeAction"
  | Formatting _ _ => "textDocument/formatting" | SemanticTokens _ _ => "textDocument/semanticTokens/full"
  end%string.

Lemma method_of r :
  hash_get (members (fields_of_request r)) (bytes "method") = Some (Str (bytes (method_name r))).
Proof. destruct r; cbn [fields_of_request method_name]; by eval_get. Qed.

Lemma bind_stay {A} (m : served A) (s : LspServer) (f : A -> list Z) :
  (a ← (r ← m; mret (Some (f r))); mret (s, a)) = (r ← m; mret (s, Some (f r))).
Proof. by destruct m. Qed.

Lemma dispatch_request s r : request_ok r ->
  dispatch oc iter_order s (members (fields_of_request r)) (bytes (method_name r)) = answer oc s r.
Proof.
  intros [_ H]. destruct r; unfold dispatch, method_name; eval_eqb; cbn [answer]; try done.
  - cbn [fields_of_request]. rewrite id_of by tauto. done.
  - cbn [fields_of_request]. rewrite id_of by tauto. done.
  - rewrite changed_of. by destruct (last texts).
  - unfold hover. rewrite hover_of by tauto. cbn [fields_of_request]. rewrite id_of by tauto.
    by destruct (compute_hover s uri line character).
  - cbn [fields_of_request]. rewrite id_of by tauto. done.
  - unfold with_document. cbn [fields_of_request]. rewrite id_of, uri_of by tauto. done.
  - unfold with_document. cbn [fields_of_request]. rewrite id_of, uri_of by tauto.
    by destruct (compute_formatting oc s uri).
  - unfold with_document. cbn [fields_of_request]. rewrite id_of, uri_of by tauto.
    by destruct (compute_semantic_tokens oc s uri).
Qed.

(** A request is answered by its kind. *)
Lemma handle_ok s r : request_ok r -> handle_request oc iter_order s (request_text r) = answer oc s r.
Proof.
  intros H. unfold handle_request, request_text. rewrite parse_obj_print by by apply request_readable.
  fold (members (fields_of_request r)). cbn [mbind option_bind]. rewrite method_of. cbn [mbind option_bind as_str mret option_ret].
  by apply dispatch_request.
Qed.

Context {W : Type} (put : W -> list Z -> option W).

Lemma request_message_utf8 r : request_ok r -> utf8_valid (request_text r) = true.
Proof.
  intros H. eapply print_utf8; [reflexivity | by apply request_readable | by apply request_utf8].
Qed.

Lemma run_session rs : forall s w fuel, Forall request_ok rs ->
  (length (concat (map (fun r => write_message (request_text r)) rs)) < fuel)%nat ->
  run_server oc iter_order put fuel s (concat (map (fun r => write_message (request_text r)) rs)) w
  = session oc put rs s w.
Proof.
  induction rs as [|r rs IH]; intros s w fuel Hf Hl; (destruct fuel as [|fuel]; [lia|]).
  - done.
  - apply Forall_cons in Hf as [Hr Hf]. cbn [map concat] in *. cbn [run_server session].
    rewrite read_written; [|by apply request_message_utf8|by destruct Hr]. cbn [mbind outcome_bind].
    rewrite handle_ok by done. rewrite length_app in Hl.
    assert (0 < length (write_message (request_text r)))%nat.
    { unfold write_message. destruct (js "Content-Length: ") eqn:E; [vm_compute in E; discriminate|]. simpl. lia. }
    destruct (answer oc s r) as [[s' [resp|]]| |]; cbn [mbind outcome_bind]; [|apply IH; [done|lia]|done..].
    destruct (put w (write_message resp)); [apply IH; [done|lia] | done].
Qed.

Lemma answer_documents s r s' resp : answer oc s r = Ok (s', resp) -> documents s' = edited (documents s) r.
Proof.
  destruct r; cbn [answer edited]; unfold open_document.
  all: try (intros E%ret_Ok; injection E as <- _; done).
  all: try (intros (a & _ & E%ret_Ok)%bind_Ok; injection E as <- _; done).
  destruct (last texts).
  - intros (a & _ & E%ret_Ok)%bind_Ok. injection E as <- _. done.
  - intros E%ret_Ok. injection E as <- _. done.
Qed.

Lemma session_documents rs : forall s w s' w',
  session oc put rs s w = Ok (0, s', w') -> documents s' = foldl edited (documents s) rs.
Proof.
  induction rs as [|r rs IH]; intros s w s' w'; cbn [session].
  - intros E%ret_Ok. by injection E as <- <-.
  - intros ([s1 resp] & Ha & H)%bind_Ok. apply answer_documents in Ha. cbn [foldl]. rewrite <-Ha.
    destruct resp; [|by eapply IH]. destruct (put w _); [by eapply IH | by apply ret_Ok in H].
Qed.

(** C6: a session is served. Whatever requests an editor sends, written as the
    protocol says (ids and positions below 2^53, texts in UTF-8), the server run on
    the bytes of all of them gives for each the answer of its kind, in order, and
    ends with its documents as the editor has them: of each, the text that was
    opened or changed last. *)
Theorem lsp_session rs w : Forall request_ok rs ->
  main oc iter_order put (concat (map (fun r => write_message (request_text r)) rs)) w
    = session oc put rs lsp_new w /\
  forall s' w', session oc put rs lsp_new w = Ok (0, s', w') -> documents s' = foldl edited ∅ rs.
Proof.
  intros Hr. split; [apply run_session; [done|lia]|]. intros s' w' E. by apply session_documents in E.
Qed.
End Requests.

(** Exact numbers, of which a request uses only the whole ones. *)
#[export] Instance whole_numbers : Float64 Z := {
  parse_f64 := parse_usize;
  show_f64 := show_Z;
  f64_as_u64 := fun z => Z.max 0 (Z.min z (2 ^ 64 - 1));
}.

#[export] Instance whole_numbers_laws : Float64Laws Z.
Proof.
  split; [|intros x; cbn; lia]. intros n Hn. exists n. cbn [parse_f64 show_f64 f64_as_u64 whole_numbers].
  split_and!; [apply parse_show; lia|lia|done].
Qed.

(** A session: a document is opened, changed, hovered over and closed. *)
Definition sample_uri : list Z := bytes "file:///a.pls".

Definition sample_session : list request :=
  [Initialize 1; Initialized; DidOpen sample_uri (bytes "let $x = "); DidChange sample_uri [[]; two_lines];
   Hover 2 sample_uri 1 3; SemanticTokens 3 sample_uri; Shutdown 4; Exit].

Lemma sample_session_ok : Forall request_ok sample_session.
Proof.
  repeat constructor; try (vm_compute; reflexivity); try lia; compute_fact.
Qed.

Theorem lsp_session_witness :
  match main true (fun m => m) (fun w r => Some (w ++ [r]))
          (concat (map (fun r => write_message (request_text r)) sample_session)) [] with
  | Ok (code, s, w) => code = 0 /\ documents s !! sample_uri = Some two_lines /\ len w = 6
  | _ => False
  end.
Proof.
  destruct (lsp_session true (F := Z) (fun m => m) (fun w r => Some (w ++ [r])) sample_session [] sample_session_ok)
    as [-> H].
  assert (E : match session true (fun w r => Some (w ++ [r])) sample_session lsp_new [] with
              | Ok (code, _, w) => (code =? 0) && (len w =? 6) | _ => false end = true) by (vm_compute; reflexivity).
  destruct (session true (fun w r => Some (w ++ [r])) sample_session lsp_new []) as [[[code s] w]|e|k]; [|discriminate E..].
  apply andb_true_iff in E as [Ec Ew]. apply Z.eqb_eq in Ec, Ew. subst code. specialize (H s w eq_refl).
  split_and!; [done| |exact Ew]. rewrite H. vm_compute. reflexivity.
Defined.
