(* ===== verification/LspTotal.v ===== *)
(** The language server on any input: it ends, and on an ASCII input no slice is
    out of range. *)

From S2P Require Import Prelude Fmt FmtProps RustStd RustStr Isa Token Error Lexer LexerProps Compiler Binary CompTotal Toolchain LspJson LspJsonProps Lsp LspProps.
From stdpp Require Import gmap.
Local Open Scope Z_scope.

(** * The bytes of what is read come from the input *)

Section Texts.
Context (C : Z -> Prop) (HC : C 8 /\ C 9 /\ C 10 /\ C 12 /\ C 13).
Context {F : Type} `{!Float64 F}.
Notation JsonValue := (JsonValue F).

Fixpoint texts_ok (v : JsonValue) : Prop :=
  match v with
  | Str s => Forall C s
  | Array l => (fix all l := match l with [] => True | v :: l => texts_ok v /\ all l end) l
  | Object m => (fix all m := match m with [] => True | (_, v) :: m => texts_ok v /\ all m end) m
  | _ => True
  end.

Definition entries_ok (m : entries (F := F)) : Prop := Forall (fun f => texts_ok (snd f)) m.

Lemma texts_array l : texts_ok (Array l) <-> Forall texts_ok l.
Proof.
  induction l as [|v l IH]; [by split|]. rewrite Forall_cons, <-IH. done.
Qed.

Lemma texts_object m : texts_ok (Object m) <-> entries_ok m.
Proof.
  unfold entries_ok. induction m as [|[k v] m IH]; [by split|]. rewrite Forall_cons, <-IH. done.
Qed.

Lemma strip_bytes one two three l : Forall C l -> Forall C (strip one two three l).
Proof.
  intros H. destruct (RustStr.strip_suffix one two three l) as [k E]. rewrite E in H. by apply Forall_app in H as [_ H].
Qed.

Lemma trim_end_bytes l : Forall C l -> Forall C (trim_end l).
Proof. intros H. unfold trim_end. by apply Forall_rev, strip_bytes, Forall_rev. Qed.

Lemma trim_bytes l : Forall C l -> Forall C (trim l).
Proof. intros H. unfold trim, trim_start. by apply trim_end_bytes, strip_bytes. Qed.

Lemma inside_bytes l : Forall C l -> Forall C (inside l).
Proof.
  unfold inside. intros H. assert (Ht : Forall C (tail l)) by (by destruct H).
  revert Ht. generalize (tail l). clear. induction 1 as [|b l Hb Hl IH]; [done|].
  cbn [removelast]. destruct l; [done|]. by constructor.
Qed.

Lemma split_step_bytes s c : C c -> Forall C (sp_cur s) -> Forall (Forall C) (sp_items s) ->
  Forall C (sp_cur (split_step s c)) /\ Forall (Forall C) (sp_items (split_step s c)).
Proof.
  destruct s as [items depth in_str escape cur]. cbn [sp_cur sp_items]. intros Hc Hl Hi. unfold split_step.
  repeat case_match; cbn [sp_cur sp_items]; (split; [by constructor|]); try done.
  apply Forall_app. split; [done|]. constructor; [|done]. by apply trim_bytes, Forall_rev.
Qed.

Lemma split_items_bytes l : Forall C l -> Forall (Forall C) (split_json_items l).
Proof.
  intros Hl. unfold split_json_items. cbv zeta.
  assert (H : forall s, Forall C (sp_cur s) -> Forall (Forall C) (sp_items s) ->
    Forall C (sp_cur (foldl split_step s l)) /\ Forall (Forall C) (sp_items (foldl split_step s l))).
  { induction Hl as [|c l Hc _ IH]; intros s Hs Hi; [done|]. cbn [foldl].
    destruct (split_step_bytes s c Hc Hs Hi). by apply IH. }
  destruct (H (mkSplitter [] 0 false false [])) as [H1 H2]; [done..|].
  case_match; [done|]. apply Forall_app. split; [done|]. constructor; [|done]. by apply trim_bytes, Forall_rev.
Qed.

Lemma split_colon_bytes l a b : split_colon l = Some (a, b) -> Forall C l -> Forall C a /\ Forall C b.
Proof.
  intros E H. revert a b E. induction H as [|c l Hc Hl IH]; intros a b; [done|]. cbn [split_colon].
  case_match; [by intros [= <- <-]|]. destruct (split_colon l) as [[a' b']|]; [|done].
  intros [= <- <-]. destruct (IH a' b' eq_refl). split; [by constructor|done].
Qed.

Lemma unescape_bytes l : Forall C l -> Forall C (unescape l).
Proof.
  remember (length l) as n eqn:Hn. revert l Hn. induction n as [n IH] using lt_wf_ind. intros l -> H.
  destruct H as [|c l Hc Hl]; [done|]. cbn [unescape]. case_match.
  - destruct Hl as [|d l Hd Hl]; [apply Z.eqb_eq in H as ->; by repeat constructor|].
    constructor; [|apply (IH (length l)); simpl; (done || lia)].
    unfold unescape_char. repeat case_match; tauto.
  - constructor; [done|]. apply (IH (length l)); simpl; (done || lia).
Qed.

Lemma hash_insert_ok m k v : entries_ok m -> texts_ok v -> entries_ok (hash_insert m k v).
Proof.
  intros Hm Hv. unfold entries_ok. induction Hm as [|[k' v'] m Hk Hm IH]; cbn [hash_insert]; [by repeat constructor|].
  case_match; by constructor.
Qed.

Lemma parse_items_ok p l vs : (forall s v, Forall C s -> p s = Some v -> texts_ok v) ->
  Forall (Forall C) l -> parse_items p l = Some vs -> Forall texts_ok vs.
Proof.
  intros Hp Hl. revert vs. induction Hl as [|s l Hs _ IH]; intros vs; cbn [parse_items].
  - by intros [= <-].
  - destruct (p s) as [v|] eqn:E; [|done]. cbn [mbind option_bind].
    destruct (parse_items p l) as [vs'|]; [|done]. intros [= <-]. constructor; [by eapply Hp|by apply IH].
Qed.

Lemma parse_pairs_ok p l : (forall s v, Forall C s -> p s = Some v -> texts_ok v) ->
  Forall (Forall C) l -> forall m m', entries_ok m -> parse_pairs p l m = Some m' -> entries_ok m'.
Proof.
  intros Hp Hl. induction Hl as [|s l Hs _ IH]; intros m m' Hm; cbn [parse_pairs]; [by intros [= <-]|].
  destruct (split_colon s) as [[a b]|] eqn:E; [|by apply IH].
  destruct (split_colon_bytes _ _ _ E Hs) as [_ Hb]. destruct (p (trim a)) as [k|]; [|done]. cbn [mbind option_bind].
  destruct k; try by apply IH. destruct (p (trim b)) as [v|] eqn:Ev; [|done]. cbn [mbind option_bind].
  apply IH, hash_insert_ok; [done|]. eapply Hp; [|exact Ev]. by apply trim_bytes.
Qed.

Lemma parse_json_ok n : forall s v, Forall C s -> parse_json_fuel n s = Some v -> texts_ok v.
Proof.
  induction n as [|n IH]; intros s v Hs; [done|]. cbn [parse_json_fuel]. cbv zeta.
  pose proof (trim_bytes s Hs) as Ht. revert Ht. generalize (trim s). intros t Ht.
  pose proof (inside_bytes t Ht) as Hi. pose proof (split_items_bytes _ (trim_bytes _ Hi)) as Hp.
  do 3 (case_match; [by intros [= <-]|]).
  case_match; [intros [= <-]; by apply unescape_bytes|].
  case_match.
  { case_match; [by intros [= <-]|]. intros (vs & E & ->)%fmap_Some. rewrite texts_array.
    eapply parse_items_ok; [exact IH|exact Hp|exact E]. }
  case_match.
  { case_match; [by intros [= <-]|]. intros (m & E & ->)%fmap_Some. rewrite texts_object.
    eapply parse_pairs_ok; [exact IH|exact Hp|constructor|exact E]. }
  intros (x & _ & ->)%fmap_Some. exact I.
Qed.

Lemma parse_obj_ok s m : Forall C s -> parse_json_obj s = Some m -> entries_ok m.
Proof.
  intros Hs. unfold parse_json_obj, parse_json_value.
  destruct (parse_json_fuel (S (length (trim s))) (trim s)) as [v|] eqn:E; [|done]. cbn [mbind option_bind].
  apply parse_json_ok in E; [|by apply trim_bytes]. destruct v; try done. intros [= <-]. by apply texts_object.
Qed.

Lemma hash_get_ok m k v : entries_ok m -> hash_get m k = Some v -> texts_ok v.
Proof.
  intros Hm. induction Hm as [|[k' v'] m Hk Hm IH]; cbn [hash_get]; [done|].
  case_match; [intros [= <-]; done|done].
Qed.

Lemma get_ok v k v' : texts_ok v -> get v k = Some v' -> texts_ok v'.
Proof. destruct v; try done. rewrite texts_object. apply hash_get_ok. Qed.

Lemma opened_ok m uri text : entries_ok m -> opened m = Some (uri, text) -> Forall C text.
Proof.
  intros Hm. unfold opened, document. destruct (hash_get m (bytes "params")) as [p|] eqn:Ep; [|done].
  cbn [mbind option_bind]. apply hash_get_ok in Ep; [|done].
  destruct (get p "textDocument") as [d|] eqn:Ed; [|done]. apply get_ok in Ed; [|done]. cbn [mbind option_bind].
  destruct (get d "uri") as [u|]; [|done]. cbn [mbind option_bind]. destruct (as_str u); [|done]. cbn [mbind option_bind].
  destruct (get d "text") as [t|] eqn:Et; [|done]. apply get_ok in Et; [|done]. cbn [mbind option_bind].
  destruct t; try done. by intros [= _ <-].
Qed.

Lemma changed_ok m uri text : entries_ok m -> changed m = Some (uri, Some text) -> Forall C text.
Proof.
  intros Hm. unfold changed. destruct (document_uri m); [|done]. cbn [mbind option_bind].
  destruct (hash_get m (bytes "params")) as [p|] eqn:Ep; [|done]. apply hash_get_ok in Ep; [|done]. cbn [mbind option_bind].
  destruct (get p "contentChanges") as [c|] eqn:Ec; [|done]. apply get_ok in Ec; [|done]. cbn [mbind option_bind].
  destruct c as [| | | |arr|]; try done. apply texts_array in Ec. cbn [as_array mbind option_bind mret option_ret].
  destruct (last arr) as [v|] eqn:El; [|done]. apply last_Some_elem_of in El. rewrite Forall_forall in Ec.
  specialize (Ec _ El). cbn [mbind option_bind]. destruct (get v "text") as [t|] eqn:Et; [|done]. apply get_ok in Et; [|exact Ec].
  cbn [mbind option_bind]. destruct t; cbn [as_str mret option_ret]; intros E; try discriminate E. by injection E as _ <-.
Qed.
End Texts.

(** * Messages *)

Lemma read_line_cut input : input = fst (read_line input) ++ snd (read_line input).
Proof.
  induction input as [|b l IH]; [done|]. cbn [read_line]. destruct (b =? 10); [done|].
  destruct (read_line l) as [x y]. cbn [fst snd app] in *. by rewrite <-IH.
Qed.

(** The headers are read to their end, within a line per byte. *)
Lemma read_headers_total fuel : forall cl input, (length input < fuel)%nat ->
  exists h, read_headers fuel cl input = Ok h /\
    forall n rest, h = Headers n rest -> exists b pre, input = (b :: pre) ++ rest.
Proof.
  induction fuel as [|fuel IH]; intros cl input Hf; [lia|]. cbn [read_headers].
  pose proof (read_line_cut input) as Hc. destruct (read_line input) as [line rest]. cbn [fst snd] in Hc.
  destruct (utf8_valid line); cbn [negb]; [|by eexists].
  destruct line as [|b line]; [by eexists|]. rewrite len_cons. pose proof (len_nonneg line).
  rewrite (proj2 (Z.eqb_neq _ _)) by lia. cbv zeta. case_match.
  - eexists. split; [reflexivity|]. intros n r [= _ <-]. by exists b, line.
  - destruct (IH (header_length (trim_end (b :: line)) cl) rest) as (h & -> & Hh).
    { rewrite Hc, length_app in Hf. simpl in Hf. lia. }
    exists h. split; [done|]. intros n r E. destruct (Hh n r E) as (b' & pre & ->).
    exists b, (line ++ b' :: pre). rewrite Hc. cbn [app]. by rewrite <-app_assoc.
Qed.

(** The next message of the input announces more than [isize::MAX] bytes. *)
Definition too_long (input : list Z) : Prop :=
  exists n rest, read_headers (S (length input)) None input = Ok (Headers (Some n) rest) /\ 2 ^ 63 <= n.

Lemma read_message_total input :
  match read_message input with
  | Ok (Message body rest) => exists b pre, input = (b :: pre) ++ body ++ rest
  | Ok _ => True
  | Err _ => False
  | Panic k => k = ArithmeticOverflow /\ too_long input
  end.
Proof.
  unfold read_message. destruct (read_headers_total (S (length input)) None input) as (h & E & Hh); [lia|].
  rewrite E. cbn [mbind outcome_bind]. destruct h as [[n|] rest| |]; [|done..].
  destruct (Z.leb_spec (2 ^ 63) n) as [Hn|_]; [split; [done|by exists n, rest]|].
  destruct (len rest <? n); [done|]. cbv zeta. cbn [mret outcome_ret]. destruct (utf8_valid (take (Z.to_nat n) rest)); [|done].
  destruct (Hh _ _ eq_refl) as (b & pre & ->). exists b, pre. by rewrite take_drop.
Qed.

(** * The answers *)

Section Answers.
Context (oc : bool) (C : Z -> Prop) (may : panic_kind -> Prop).
Context (HC : C 8 /\ C 9 /\ C 10 /\ C 12 /\ C 13).

(** A result, or one of the panics that may happen. *)
Definition ends {A} (Q : A -> Prop) (r : served A) : Prop :=
  match r with Ok a => Q a | Err _ => False | Panic k => may k end.

Lemma ends_bind {A B} (Q : A -> Prop) (R : B -> Prop) (m : served A) (f : A -> served B) :
  ends Q m -> (forall a, Q a -> ends R (f a)) -> ends R (a ← m; f a).
Proof. destruct m; simpl; auto. Qed.

Definition any {A} (_ : A) : Prop := True.

(** What is relied on for texts of such bytes. *)
Context (Hcompile : forall text, Forall C text -> ends any
  (match compile_pulse_to_binary oc text (replicate 1024 0) with
   | Ok _ | Err (Diagnostic _) => Ok tt | Err OutOfFuel => Err NoFuel | Panic k => Panic k end)).
Context (Hword : forall text line l character, Forall C text -> getZ (lines text) line = Some l ->
  0 <= character < len l -> ends any (extract_word_at l character)).
Context (Hformat : forall text, Forall C text -> ends any
  (match format_source oc text with
   | None => Err NoFuel | Some (Panic k) => Panic k | Some _ => Ok tt end)).
Context (Hlexer : oc = true -> may ArithmeticOverflow).

Definition docs_ok (s : LspServer) : Prop := map_Forall (fun _ text => Forall C text) (documents s).

Lemma set_document_ok s uri text : docs_ok s -> Forall C text -> docs_ok (set_document s uri text).
Proof. intros Hs Ht. by apply map_Forall_insert_2. Qed.

Lemma publish_ends s uri : docs_ok s -> ends any (publish_diagnostics oc s uri).
Proof.
  intros Hs. unfold publish_diagnostics. destruct (documents s !! uri) as [text|] eqn:E; [|exact I].
  specialize (Hcompile text (Hs _ _ E)).
  by destruct (compile_pulse_to_binary oc text (replicate 1024 0)) as [|[]|].
Qed.

Lemma hover_ends s uri line character : docs_ok s -> 0 <= character ->
  ends any (compute_hover s uri line character).
Proof.
  intros Hs Hc. unfold compute_hover. destruct (documents s !! uri) as [text|] eqn:E; [|exact I].
  destruct (getZ (lines text) line) as [l|] eqn:El; [|exact I].
  destruct (Z.leb_spec (len l) character); [exact I|].
  eapply ends_bind; [eapply Hword; [exact (Hs _ _ E)|exact El|lia]|]. by intros.
Qed.

Lemma formatting_ends s uri : docs_ok s -> ends any (compute_formatting oc s uri).
Proof.
  intros Hs. unfold compute_formatting. destruct (documents s !! uri) as [text|] eqn:E; [|exact I].
  specialize (Hformat text (Hs _ _ E)). destruct (format_source oc text) as [[k| |]|]; try done.
  by destruct (bytes_eqb k text).
Qed.

Lemma tokens_end s uri : ends any (compute_semantic_tokens oc s uri).
Proof.
  unfold compute_semantic_tokens. destruct (documents s !! uri) as [text|]; [|exact I].
  apply (ends_bind any); [|by intros]. unfold semantic_data.
  destruct (tokenize_result oc text (replicate 4096 empty_token)) as (r & -> & Hr).
  destruct r as [[n ts]|e|k]; [done..|]. destruct Hr as [Hoc Hk]. subst k. by apply Hlexer.
Qed.

Context {F : Type} `{!Float64 F} `{!Float64Laws F} (iter_order : entries (F := F) -> entries (F := F)).

Definition kept (r : LspServer * option (list Z)) : Prop := docs_ok (fst r).

Lemma stay_ends s (r : served (option (list Z))) : docs_ok s -> ends any r -> ends kept (a ← r; mret (s, a)).
Proof. intros Hs Hr. eapply ends_bind; [exact Hr|]. by intros. Qed.

Lemma document_ends s uri text : docs_ok s -> Forall C text ->
  ends kept (r ← publish_diagnostics oc (set_document s uri text) uri; mret (set_document s uri text, r)).
Proof. intros Hs Ht. apply (set_document_ok s uri text Hs) in Ht. apply stay_ends; [done|by apply publish_ends]. Qed.

Lemma with_document_ends id (req : entries (F := F)) answer :
  (forall id uri, ends any (answer id uri)) -> ends any (with_document id req answer).
Proof.
  intros H. unfold with_document. destruct id, (document_uri req); [|exact I..].
  eapply ends_bind; [apply H|]. by intros.
Qed.

Lemma hover_params_nonneg (req : entries (F := F)) uri line character :
  hover_params req = Some (uri, line, character) -> 0 <= character.
Proof.
  unfold hover_params. intros H.
  repeat match type of H with
  | (?m ≫= _) = Some _ => destruct m as [?|] eqn:?; cbn [mbind option_bind] in H; [|discriminate H]
  end.
  injection H as _ _ <-. match goal with H : as_u64 ?v = Some _ |- _ => idtac end.
  repeat match goal with H : as_u64 ?v = Some _ |- _ => destruct v; try discriminate H; injection H as <- end.
  apply f64_u64.
Qed.

Lemma hover_request_ends s id (req : entries (F := F)) : docs_ok s -> ends any (hover s id req).
Proof.
  intros Hs. unfold hover. destruct id; [|exact I].
  destruct (hover_params req) as [[[uri line] character]|] eqn:E; [|exact I].
  apply hover_params_nonneg in E. eapply ends_bind; [by apply hover_ends|]. by intros.
Qed.

Lemma dispatch_ends s (req : entries (F := F)) method : docs_ok s -> entries_ok C req ->
  ends kept (dispatch oc iter_order s req method).
Proof.
  intros Hs Hr. unfold dispatch. cbv zeta.
  repeat match goal with
  | |- ends kept (if bytes_eqb method (bytes ?m) then _ else _) => destruct (bytes_eqb method (bytes m))
  | |- ends kept (_ ← _; mret (s, _)) => apply stay_ends; [exact Hs|]
  | |- ends any (mret _) => exact I
  | |- ends any (publish_diagnostics _ _ _) => by apply publish_ends
  | |- ends any (hover _ _ _) => by apply hover_request_ends
  | |- ends any (with_document _ _ _) => apply with_document_ends; intros ? ?
  | |- ends any (_ ← compute_formatting _ _ _; _) => eapply ends_bind; [by apply formatting_ends|by intros]
  | |- ends any (_ ← compute_semantic_tokens _ _ _; _) => eapply ends_bind; [apply tokens_end|by intros]
  end; [done| | |].
  - destruct (opened req) as [[uri text]|] eqn:E; [|by apply stay_ends].
    apply (opened_ok C) in E; [|done]. by apply document_ends.
  - destruct (changed req) as [[uri [text|]]|] eqn:E; [|by apply stay_ends..].
    apply (changed_ok C) in E; [|done]. by apply document_ends.
  - destruct (document_uri req); (apply stay_ends; [done|]); [by apply publish_ends|exact I].
Qed.

Lemma handle_ends s input : docs_ok s -> Forall C input -> ends kept (handle_request oc iter_order s input).
Proof.
  intros Hs Hi. unfold handle_request. destruct (parse_json_obj input) as [req|] eqn:E; [|done].
  cbn [mbind option_bind]. destruct (hash_get req (bytes "method")) as [m|]; [|done]. cbn [mbind option_bind].
  destruct (as_str m) as [method|]; [|done]. cbn [mbind option_bind mret option_ret].
  apply dispatch_ends; [done|]. by eapply parse_obj_ok.
Qed.

Context {W : Type} (put : W -> list Z -> option W).

(** The loop ends: each message takes a byte of the input at least. *)
Lemma run_server_ends fuel : forall s input w,
  (forall pre post, input = pre ++ post -> too_long post -> may ArithmeticOverflow) ->
  docs_ok s -> Forall C input -> (length input < fuel)%nat ->
  ends (fun r => fst (fst r) = 0 \/ fst (fst r) = 2) (run_server oc iter_order put fuel s input w).
Proof.
  induction fuel as [|fuel IH]; intros s input w Hlong Hs Hi Hf; [lia|]. cbn [run_server].
  pose proof (read_message_total input) as Hm.
  destruct (read_message input) as [[body rest| |]|e|k]; cbn [mbind outcome_bind].
  - destruct Hm as (b & pre & ->). rewrite !Forall_app in Hi. destruct Hi as (_ & Hb & Hr).
    rewrite !length_app in Hf. simpl in Hf.
    eapply (ends_bind kept); [by apply handle_ends|]. intros [s' resp] Hs'. unfold kept in Hs'. cbn [fst] in Hs'.
    assert (Hnext : forall w, ends (fun r => fst (fst r) = 0 \/ fst (fst r) = 2)
      (run_server oc iter_order put fuel s' rest w)).
    { intros w'. apply IH; [|done|done|lia]. intros p q Hq. apply (Hlong (((b :: pre) ++ body) ++ p)).
      by rewrite <-!app_assoc, Hq. }
    destruct resp; [|apply Hnext]. destruct (put w _); [apply Hnext|by right].
  - by left.
  - by left.
  - done.
  - destruct Hm as [-> Hm]. exact (Hlong [] _ eq_refl Hm).
Qed.
End Answers.

(** * What the parts promise *)

Lemma ascii_bytes l : ascii l -> bytes_ok l.
Proof. intros H. eapply Forall_impl; [exact H|]. intros b Hb. cbn beta in Hb. unfold in_u8. lia. Qed.

Lemma compile_ends oc text : bytes_ok text ->
  match compile_pulse_to_binary oc text (replicate 1024 0) with
  | Ok _ | Err (Diagnostic _) => True
  | Err OutOfFuel => False
  | Panic k => panic_from oc text (replicate (Z.to_nat MAX_TOKENS) empty_token) k
  end.
Proof.
  intros Hs. unfold compile_pulse_to_binary, compile_pulse_to_binary_with_tokens.
  pose proof (compile_tokens_ok oc text (replicate (Z.to_nat MAX_TOKENS) empty_token) Hs) as Hc.
  destruct (compile_tokens oc text _) as [[n c]|[]|k]; cbn [mbind outcome_bind]; [|done..].
  pose proof (write_compiled_total c (replicate 1024 0)) as Hw.
  by destruct (write_binary _ _ _ _) as [[size buf]|e|k].
Qed.

Lemma word_start_range line n : 0 <= word_start line n <= Z.of_nat n.
Proof.
  induction n as [|n IH]; cbn [word_start]; [lia|]. repeat case_match; lia.
Qed.

Lemma word_len_range l : 0 <= word_len l <= len l.
Proof.
  induction l as [|b l IH]; cbn [word_len]; [done|]. rewrite len_cons. case_match; lia.
Qed.

Lemma getZ_elem {A} (l : list A) i x : getZ l i = Some x -> x ∈ l.
Proof. unfold getZ. case_decide; [|done]. apply list_elem_of_lookup_2. Qed.

Lemma boundary_ascii l i : ascii l -> 0 <= i <= len l -> boundary l i = true.
Proof.
  intros Ha Hi. unfold boundary. destruct (getZ l i) as [b|] eqn:E.
  - rewrite is_cont_ascii; [done|]. apply getZ_elem in E. unfold ascii in Ha. rewrite Forall_forall in Ha.
    specialize (Ha _ E). cbn beta in Ha. lia.
  - apply getZ_None in E. apply Z.eqb_eq. lia.
Qed.

Lemma word_ascii l character : ascii l -> 0 <= character < len l -> exists w, extract_word_at l character = Ok w.
Proof.
  intros Ha Hc. unfold extract_word_at. rewrite (proj2 (Z.leb_gt _ _)) by lia. cbv zeta. unfold str_slice.
  pose proof (word_start_range l (Z.to_nat character)). pose proof (word_len_range (drop (Z.to_nat character) l)).
  assert (len (drop (Z.to_nat character) l) = len l - character) by (unfold len in *; rewrite length_drop; lia).
  rewrite (proj2 (Z.leb_le _ _)), !boundary_ascii by (done || lia). by eexists.
Qed.

Section Server.
Context (oc : bool) {F : Type} `{!Float64 F} `{!Float64Laws F} (iter_order : entries (F := F) -> entries (F := F)).
Context {W : Type} (put : W -> list Z -> option W).

Lemma new_docs_ok C : docs_ok C lsp_new.
Proof. apply map_Forall_empty. Qed.

(** What may happen to an ASCII input. *)
Definition ascii_panic (input : list Z) (k : panic_kind) : Prop :=
  k <> SliceOutOfRange /\ (k = ArithmeticOverflow -> oc = true \/ exists pre post, input = pre ++ post /\ too_long post).

Lemma bytes_end input w : bytes_ok input ->
  ends (fun _ => True) (fun r => fst (fst r) = 0 \/ fst (fst r) = 2) (main oc iter_order put input w).
Proof.
  intros Hi. unfold main. apply (run_server_ends oc in_u8).
  - unfold in_u8. lia.
  - intros text Ht. apply compile_ends with (oc := oc) in Ht.
    by destruct (compile_pulse_to_binary oc text (replicate 1024 0)) as [|[]|].
  - intros. unfold extract_word_at, str_slice. cbv zeta. by repeat case_match.
  - intros text _. destruct (format_source_total oc text) as (r & -> & _). by destruct r.
  - done.
  - exact _.
  - done.
  - apply new_docs_ok.
  - exact Hi.
  - lia.
Qed.

Lemma ascii_end input w : ascii input ->
  ends (ascii_panic input) (fun r => fst (fst r) = 0 \/ fst (fst r) = 2) (main oc iter_order put input w).
Proof.
  intros Hi. unfold main. apply (run_server_ends oc (fun b => 0 <= b < 128)).
  - lia.
  - intros text Ht. apply ascii_bytes, (compile_ends oc) in Ht.
    destruct (compile_pulse_to_binary oc text (replicate 1024 0)) as [|[]|k]; [done..|].
    destruct Ht as [[-> Hoc]|[-> _]]; (split; [done|]); [by left|done].
  - intros text line l character Ht Hl Hc. apply lines_ascii in Ht. rewrite Forall_forall in Ht.
    apply getZ_elem, Ht in Hl. by destruct (word_ascii l character Hl Hc) as [u ->].
  - intros text Ht. destruct (format_source_total oc text) as (r & -> & Hr & _).
    destruct r as [|e|k]; [done..|]. destruct (Hr Ht eq_refl) as [Hoc E]. injection E as ->.
    split; [done|by left].
  - intros Hoc. split; [done|by left].
  - exact _.
  - intros pre post E Hl. split; [done|]. right. by exists pre, post.
  - apply new_docs_ok.
  - exact Hi.
  - lia.
Qed.

(** C18: the server ends on any input. Whatever bytes come in, and whenever a write
    fails, the loop comes to the end of the input (exit code 0), or a write fails
    (exit code 2), or the program panics; and on an ASCII input no slice is out
    of range, and arithmetic panics only in a build with overflow checks, or when
    a message announces 2^63 bytes or more. *)
Theorem server_total input w : bytes_ok input ->
  match main oc iter_order put input w with
  | Ok (code, _, _) => code = 0 \/ code = 2
  | Err _ => False
  | Panic k => ascii input -> ascii_panic input k
  end.
Proof.
  intros Hi. pose proof (bytes_end input w Hi) as H. pose proof (ascii_end input w) as Ha.
  by destruct (main oc iter_order put input w) as [[[code s] w']|e|k].
Qed.
End Server.

(** An input that says nothing of its length, and one that hovers in the middle of
    a character. *)
Definition hovering (text : list Z) (character : Z) : list Z :=
  concat (map (fun r => write_message (request_text r)) [DidOpen sample_uri text; Hover 1 sample_uri 0 character]).

Theorem server_total_witness :
  match main true (fun m => m) (fun w r => Some (w ++ [r])) (bytes "Content-Type: text" ++ [10; 10]) [] with
  | Ok (code, _, w) => (code = 0 \/ code = 2) /\ w = []
  | _ => False
  end /\
  match main true (fun m => m) (fun w r => Some (w ++ [r])) (hovering [0xC3; 0xA9] 1) [] with
  | Panic k => k = SliceOutOfRange /\ ~ ascii (hovering [0xC3; 0xA9] 1)
  | _ => False
  end.
Proof.
  split.
  - pose proof (server_total true (F := Z) (fun m => m) (fun w r => Some (w ++ [r]))
      (bytes "Content-Type: text" ++ [10; 10]) [] ltac:(compute_fact)) as H.
    assert (E : match main true (fun m => m) (fun w r => Some (w ++ [r])) (bytes "Content-Type: text" ++ [10; 10]) []
                with Ok (_, _, []) => true | _ => false end = true) by (vm_compute; reflexivity).
    destruct (main true (fun m => m) (fun w r => Some (w ++ [r])) (bytes "Content-Type: text" ++ [10; 10]) [])
      as [[[code s] [|]]|e|k]; try discriminate E. by split.
  - pose proof (server_total true (F := Z) (fun m => m) (fun w r => Some (w ++ [r]))
      (hovering [0xC3; 0xA9] 1) [] ltac:(compute_fact)) as H.
    assert (E : match main true (fun m => m) (fun w r => Some (w ++ [r])) (hovering [0xC3; 0xA9] 1) []
                with Panic SliceOutOfRange => true | _ => false end = true) by (vm_compute; reflexivity).
    destruct (main true (fun m => m) (fun w r => Some (w ++ [r])) (hovering [0xC3; 0xA9] 1) [])
      as [[[code s] w]|e|[]]; try discriminate E. split; [done|]. intros Ha. by destruct (H Ha) as [H1 _].
Defined.
